(* ===== verification/_CoqProject ===== *)
-Q . S2P
Prelude.v
CppInt.v
Constants.v
RiscvConstants.v
UarchAccess.v
UarchStep.v
UarchTyped.v
Bytes.v
RV64IM.v
UarchOps.v
UarchRefine.v
UarchStepSpec.v
Pma.v
PmaSpec.v
MachineState.v
UarchBridge.v
UarchBridgeSpec.v
UarchState.v
UarchStateSpec.v
UarchInterpret.v
UarchCorrect.v
Hasher.v
MerkleProof.v
PristineMerkleTree.v
BackMerkleTree.v
CompleteMerkleTree.v
FullMerkleTree.v
MachineMerkleTree.v
MachineMerkleTreeSpec.v
MachineTreeProofs.v
AccessLog.v
UarchReplay.v
StateImage.v
UarchReplaySpec.v
DeviceAccess.v
Clint.v
Plic.v
Htif.v
Tlb.v
Trap.v
Csr.v
CsrInsns.v
TranslateVirtualAddress.v
TranslateSpec.v
HostMemory.v
HostTlb.v
VirtualMemory.v
MachineOk.v
TrapSpec.v
VirtualMemorySpec.v
PrivilegedSpec.v
IntegerInsns.v
IntegerInsnsSpec.v
MemoryInsns.v
MemoryInsnsSpec.v
SoftFloat.v
FloatInsns.v
FloatInsnsSpec.v
JumpTable.v
Interpret.v
RV64Dispatch.v
RV64Correct.v
InterpretSpec.v
InterpretCorrect.v
MachineRegs.v
Machine.v
MachinePages.v
MachineHash.v
MachineAnswers.v
UarchRecord.v
StateWords.v
Loggable.v
MachineRun.v
UarchRecordSpec.v
Cmio.v
VirtioQueue.v
VirtioDevice.v
VirtioConsole.v
VirtioSpec.v
VirtioMachine.v
