(* ===== verification/Prelude.v ===== *)
(** * Verification library of the minux machine emulator

    Minux is a Linux system that runs in an emulated RISC-V machine.  The
    emulator (src/machine-emulator/src, C++) executes a 64-bit RISC-V machine
    deterministically, keeps a Merkle tree of its state, and contains a second,
    much smaller machine, the microarchitecture, that runs an interpreter of the
    first so that one step of it can be recorded as a log of accesses, with
    Merkle proofs, and checked by a party that only knows the root hashes.

    ** How the program is modelled

    The model is a shallow embedding: a function of the code is a function of
    the same name; a C++ call that can throw returns an [outcome] (below), state
    is passed explicitly, and integers are kept at their width (CppInt.v).

    The emulator is written over state access classes, and so is the model.
    The steps of the microarchitecture, templates in the code, are programs over
    the operations of the class (UarchAccess.v: [uop], [prog]); the classes are
    handlers that [run] uses to execute a program: the direct one (UarchState.v),
    the recorder of logs (UarchRecord.v) and the verifier of logs
    (UarchReplay.v).  The main interpreter is modelled over the one class it is
    built with, state-access.h, whose operations are functions on the state of the
    machine.  The devices are functions on that state and on the console
    (DeviceAccess.v); the devices of VirtIO reach it through the type class
    [GuestMemory] (VirtioQueue.v).

    ** The parts and their files

    Shared.  Prelude.v: notations, outcomes, tactics, generic lemmas.  CppInt.v:
    machine integers.  Constants.v, RiscvConstants.v: the constants of the
    headers.  Bytes.v: little-endian words.

    The state.  Pma.v (pma.h, pma.cpp): the ranges of the physical memory, their
    host memory and dirty maps.  MachineState.v (machine-state.h, machine-reg.h,
    shadow-state.h, shadow-tlb.h): the registers, the translation cache and the
    memory map.

    The microarchitecture.  UarchAccess.v (i-uarch-state-access.h,
    uarch-solidity-compat.h), UarchStep.v (uarch-step.cpp,
    uarch-reset-state.cpp), UarchInterpret.v (uarch-interpret.cpp), UarchBridge.v
    (uarch-bridge.h: the registers of the machine as memory), UarchState.v
    (uarch-state.h, uarch-state-access.h).  RV64IM.v is the instruction set as its
    manual defines it; UarchOps.v, UarchRefine.v and UarchStepSpec.v relate the
    step to it, PmaSpec.v, UarchBridgeSpec.v and UarchStateSpec.v give the laws of
    the memory, UarchCorrect.v concludes.  UarchTyped.v bounds the calls of a step.

    The main interpreter.  Tlb.v, TranslateVirtualAddress.v and VirtualMemory.v
    (state-access.h, translate-virtual-address.h, find-pma-entry.h and the
    accesses of interpret.cpp); Trap.v, Csr.v, CsrInsns.v, IntegerInsns.v,
    MemoryInsns.v, FloatInsns.v (interpret.cpp); SoftFloat.v (soft-float.h);
    JumpTable.v (the generator of the jump table); Interpret.v (the dispatch and
    the loops of interpret.cpp).  HostMemory.v and HostTlb.v state what makes the
    pointers of the cache valid, MachineOk.v the invariant of the machine;
    TranslateSpec.v, TrapSpec.v, VirtualMemorySpec.v, PrivilegedSpec.v,
    IntegerInsnsSpec.v, MemoryInsnsSpec.v, FloatInsnsSpec.v and InterpretSpec.v
    prove it kept, RV64Dispatch.v and RV64Correct.v the refinement of RV64IM,
    InterpretCorrect.v the properties of runs.

    The devices.  DeviceAccess.v (i-device-state-access.h, pma-driver.h), Clint.v
    (clint.cpp, rtc.h), Plic.v (plic.cpp), Htif.v (htif.cpp).  VirtioQueue.v and
    VirtioDevice.v (virtio-device.cpp), VirtioConsole.v (virtio-console.cpp,
    virtio-net.cpp, virtio-net-carrier-tuntap.cpp), with their properties in
    VirtioSpec.v and VirtioMachine.v.

    The hashes.  Hasher.v (i-hasher.h), MerkleProof.v (merkle-tree-proof.h),
    PristineMerkleTree.v, BackMerkleTree.v, CompleteMerkleTree.v and
    FullMerkleTree.v (the files of the same names), MachineMerkleTree.v
    (machine-merkle-tree.cpp) with MachineMerkleTreeSpec.v and
    MachineTreeProofs.v.

    The machine object.  MachineRegs.v (the registers as the host sees them, and
    the pages the shadows show) and Machine.v (machine.cpp: the update of the
    tree by threads, hashes, proofs, accesses of the host), MachineRun.v (its
    runs).  MachinePages.v, MachineHash.v and MachineAnswers.v define the root
    hash of a state and prove the update and the answers right.

    The logs.  AccessLog.v (access-log.h, bracket-note.h), UarchRecord.v
    (uarch-record-state-access.h, [log_step_uarch] and [log_reset_uarch] of
    machine.cpp), UarchReplay.v (uarch-replay-state-access.h and the verification
    methods of machine.cpp).  StateImage.v (a state as the words of its address
    space) and StateWords.v (the image of a machine) specify them; Loggable.v says
    which machines can be recorded; UarchReplaySpec.v proves accepted logs sound,
    UarchRecordSpec.v recorded logs accepted.  Cmio.v (send-cmio-response.cpp, the
    classes of its recorder and verifier, and the methods of machine.cpp) is the
    response of the host to a yield.

    ** What is shown

    - The interpreter is memory-safe and, with devices and a host that return,
      total: from a well-formed machine it returns a well-formed machine, reads and
      writes the memory of the host only within the buffers of the machine, and loses
      track of no page that changes.  The exceptions are alternatives of the theorem:
      a flaw of the cache of the last fetch, shown to be real by two runs, and the
      assertions of the loops where they are built in, one of which fails in a run
      (InterpretCorrect).
    - Both interpreters implement RV64IM: every encoding has, in each, the effect
      the specification gives it, so that they agree (RV64Correct, UarchCorrect).
      The interpreter of the microarchitecture terminates within its target and
      can be resumed; a reset restores the pristine state.
    - Traps save what returns need, the interrupt that is taken is the one the
      architecture asks for except where delegation puts a lower one first, registers
      are protected by mode (PrivilegedSpec); the translation of virtual addresses is
      that of the privileged architecture (TranslateSpec).
    - After a run the root hash is that of the state reached, whatever the
      interleaving of the threads that hash its pages (MachineRun); the proofs the
      machine answers verify.  The exception, writes to the cache through the
      bridge, is shown by a run.
    - Access logs are sound and complete: a log that the verifier accepts proves
      the step it claims, unless it exhibits a collision (UarchReplaySpec), and
      a step that succeeds on a loggable machine is recorded in a log of at most
      twelve accesses that the verifier accepts (UarchRecordSpec).  Accepted logs of
      responses to a yield are sound (Cmio).
    - Merkle proofs are sound and complete, and the trees compute the root of the
      same list of leaves (MerkleProof, FullMerkleTree, BackMerkleTree, Hasher).
    - The devices implement their abstract specifications (Plic, Clint, Htif); the
      interrupt line of the console and of the network device follows its status, the
      console prints what the guest makes available, and the walk of a chain of
      descriptors ends unless the chain does not (VirtioMachine).

    ** Parameters, bounds and fuel

    The hash function (a third-party library) is a parameter, and security
    statements are reductions: they exhibit a collision or conclude.  The images
    that the build generates (the pristine RAM of the microarchitecture and the
    hash of its state) are parameters; so are the answers of the host: the wait for
    its devices, the terminal, the network carriers, the schedule of threads.

    Fuel is never exhausted where the code ends.  The loops of the interpreters take
    the number of cycles to the target, each iteration one at least; the descent of
    the tree of the machine 64 levels; the propagation of hashes the number of nodes
    and of queued nodes; the hashes of buffers the bits of a length (65); the
    accesses of the host the pages of their range.  The loops over descriptors, which
    the guest can make endless, take a bound as an argument and end with an exception
    of their own beyond it: for the walk of a chain the number of its states, 2^17.

    Assertions are exceptions.  Those of the instructions, with those of
    soft-float.h, are kept, and the theorems show that none fails.  Those of the loops
    of interpret.cpp (the end of the cycles, [assert_no_brk]) exist in debug builds
    only, the default and the release build compile the file with NDEBUG: [asserts]
    says whether they are built in.

    ** Not modelled

    The construction of machines from configurations and files (the constructor of
    machine.cpp, machine-config.cpp, dtb.cpp); the file system device and the
    user-mode network of VirtIO (virtio-p9fs.cpp, virtio-net-carrier-slirp.cpp),
    which are calls of the host; the logs of whole pages for the steps of the
    machine itself (record-step-state-access.h, replay-step-state-access.h:
    instances of the main interpreter over files of pages); JSON, remote calls and
    the C and Lua bindings (glue over third-party libraries); the operating system
    layer; the tools that build file systems (genext2fs, gcompat), which are
    third-party.

    This file also holds the notations, the exceptions, the tactics and the
    generic lemmas the components share. *)

From stdpp Require Export prelude.
From stdpp Require Export list gmap strings.
From Stdlib Require Export ZArith Lia Znumtheory.

#[global] Open Scope Z_scope.
#[global] Set Default Goal Selector "!".

(** ** Notations of the C++ operators on integers *)

Declare Scope cpp_scope.
Delimit Scope cpp_scope with cpp.
Notation "x &ᵇ y" := (Z.land x y) (at level 41, left associativity) : cpp_scope.
Notation "x |ᵇ y" := (Z.lor x y) (at level 45, left associativity) : cpp_scope.
Notation "x ^ᵇ y" := (Z.lxor x y) (at level 43, left associativity) : cpp_scope.
#[global] Open Scope cpp_scope.

(** ** Exceptions and outcomes

    A C++ call either returns or leaves by an exception.  [assertion_failure]
    stands for [assert], which the default build leaves enabled everywhere but
    in interpret.cpp; [undefined_behaviour] marks an access the language gives
    no meaning to, such as an index out of the range of an array. *)

Inductive exn : Type :=
  | runtime_error (what : string)
  | invalid_argument (what : string)
  | out_of_range (what : string)
  | domain_error (what : string)
  | logic_error (what : string)
  | bad_variant_access
  | assertion_failure (what : string)
  | undefined_behaviour (what : string).

#[export] Instance exn_eq_dec : EqDecision exn.
Proof. solve_decision. Defined.

Inductive outcome (A : Type) : Type :=
  | Done (a : A)
  | Exn (e : exn).
Arguments Done {A} a.
Arguments Exn {A} e.

#[export] Instance outcome_eq_dec {A} `{EqDecision A} : EqDecision (outcome A).
Proof. solve_decision. Defined.

#[export] Instance Done_inj A : Inj (=) (=) (@Done A).
Proof. congruence. Qed.

#[export] Instance outcome_ret : MRet outcome := fun A a => Done a.
#[export] Instance outcome_bind : MBind outcome := fun A B f m =>
  match m with Done a => f a | Exn e => Exn e end.
#[export] Instance outcome_fmap : FMap outcome := fun A B f m =>
  match m with Done a => Done (f a) | Exn e => Exn e end.

(** [if (c) throw e;] *)
Definition throw_if (c : bool) (e : exn) : outcome unit :=
  if c then Exn e else Done tt.

Definition is_done {A} (m : outcome A) : bool :=
  match m with Done _ => true | Exn _ => false end.

Lemma outcome_bind_done {A B} (m : outcome A) (f : A -> outcome B) b :
  m ≫= f = Done b <-> exists a, m = Done a /\ f a = Done b.
Proof. destruct m; cbn; naive_solver. Qed.

Lemma throw_if_done c e u : throw_if c e = Done u <-> c = false.
Proof. destruct c, u; cbn; naive_solver. Qed.

(** *** Total correctness

    [returns m Q]: the call returns, with a value of which [Q] holds. *)

Definition returns {A} (m : outcome A) (Q : A -> Prop) : Prop :=
  match m with Done a => Q a | Exn _ => False end.

Lemma returns_done {A} (m : outcome A) (Q : A -> Prop) : returns m Q <-> exists a, m = Done a /\ Q a.
Proof. destruct m; cbn; naive_solver. Qed.

Lemma returns_bind {A B} (m : outcome A) (f : A -> outcome B) Q :
  returns m (fun a => returns (f a) Q) -> returns (m ≫= f) Q.
Proof. by destruct m. Qed.

Lemma returns_weaken {A} (m : outcome A) (P Q : A -> Prop) : returns m P -> (forall a, P a -> Q a) -> returns m Q.
Proof. destruct m; cbn; auto. Qed.

Lemma returns_then {A B} (m : outcome A) (f : A -> outcome B) P Q :
  returns m P -> (forall a, P a -> returns (f a) Q) -> returns (m ≫= f) Q.
Proof. destruct m; cbn; auto. Qed.

(** ** Tactics of the development *)

(** Case analysis on the conditions of the code, closing the impossible
    branches. *)
Ltac case_if :=
  match goal with
  | |- context [if ?c then _ else _] => let E := fresh "E" in destruct c eqn:E
  | H : context [if ?c then _ else _] |- _ => let E := fresh "E" in destruct c eqn:E
  end.

(** Turns boolean tests of the code into propositions over [Z]. *)
Ltac reflect_bools :=
  repeat match goal with
  | H : (_ && _) = true |- _ => apply andb_prop in H as [? ?]
  | H : (_ || _) = false |- _ => apply orb_false_elim in H as [? ?]
  | H : negb _ = true |- _ => apply negb_true_iff in H
  | H : negb _ = false |- _ => apply negb_false_iff in H
  | H : (_ =? _) = true |- _ => apply Z.eqb_eq in H
  | H : (_ =? _) = false |- _ => apply Z.eqb_neq in H
  | H : (_ <? _) = true |- _ => apply Z.ltb_lt in H
  | H : (_ <? _) = false |- _ => apply Z.ltb_ge in H
  | H : (_ <=? _) = true |- _ => apply Z.leb_le in H
  | H : (_ <=? _) = false |- _ => apply Z.leb_gt in H
  | H : bool_decide _ = true |- _ => apply bool_decide_eq_true_1 in H
  | H : bool_decide _ = false |- _ => apply bool_decide_eq_false_1 in H
  end.

(** Decides an equation between tests over [Z] by case analysis. *)
Ltac bool_cases :=
  repeat match goal with
  | |- context [?x =? ?y] => destruct (Z.eqb_spec x y)
  | |- context [?x <? ?y] => destruct (Z.ltb_spec x y)
  | |- context [?x <=? ?y] => destruct (Z.leb_spec x y)
  end; cbn [andb orb negb]; try done; try (exfalso; lia).

(** Opens the outcomes of a sequence of fallible calls known to have returned. *)
Ltac invert_outcome :=
  repeat match goal with
  | H : _ ≫= _ = Done _ |- _ => apply outcome_bind_done in H as (? & ? & ?)
  | H : throw_if _ _ = Done _ |- _ => apply throw_if_done in H
  | H : Done _ = Done _ |- _ => injection H as H
  | H : mret _ = Done _ |- _ => cbv [mret outcome_ret] in H
  | H : Exn _ = Done _ |- _ => discriminate H
  | H : Done _ = Exn _ |- _ => discriminate H
  end.

(** [test b is v]: the value of a comparison that [lia] decides *)
Tactic Notation "test" uconstr(b) "is" constr(v) :=
  replace b with v
    by (symmetry; first [apply Z.ltb_lt|apply Z.ltb_ge|apply Z.leb_le|apply Z.leb_gt|apply Z.eqb_eq|apply Z.eqb_neq
                        |apply orb_false_iff; rewrite ?Z.ltb_ge, ?Z.leb_gt
                        |apply orb_true_iff; rewrite ?Z.ltb_lt, ?Z.leb_le
                        |apply andb_true_iff; rewrite ?Z.ltb_lt, ?Z.leb_le]; lia).

(** ** Generic lemmas *)

Lemma lookup_total_nth_Z (l : list Z) (i : nat) :
  (i < length l)%nat -> l !! i = Some (nth i l 0).
Proof.
  revert i. induction l as [|x l IH]; intros [|i] H; cbn in *; try lia; [done|].
  apply IH. lia.
Qed.

Lemma nth_insert {A} (l : list A) (i : nat) v d : (i < length l)%nat -> nth i (<[i := v]> l) d = v.
Proof. revert i. induction l as [|x l IH]; intros [|i] H; cbn in *; try (done || lia). apply IH. lia. Qed.

Lemma nth_insert_ne {A} (l : list A) (i j : nat) v d : i <> j -> nth j (<[i := v]> l) d = nth j l d.
Proof.
  revert i j. induction l as [|x l IH]; intros [|i] [|j] H; cbn in *; try done. apply IH. lia.
Qed.

Lemma nth_replicate_0 (i n : nat) : nth i (replicate n 0) 0 = 0.
Proof. revert i. induction n as [|n IH]; intros [|i]; cbn; auto. Qed.

Lemma nth_replicate {A} (i n : nat) (v d : A) : (i < n)%nat -> nth i (replicate n v) d = v.
Proof. revert i. induction n as [|n IH]; intros [|i] H; cbn; try (done || lia). apply IH. lia. Qed.

Lemma nth_replicate_same {A} (i n : nat) (v : A) : nth i (replicate n v) v = v.
Proof. revert i. induction n as [|n IH]; intros [|i]; cbn; auto. Qed.

Lemma forallb_range (f : Z -> bool) (n : nat) (z : Z) :
  forallb (fun i => f (Z.of_nat i)) (seq 0 n) = true ->
  0 <= z < Z.of_nat n -> f z = true.
Proof.
  intros H Hz. rewrite forallb_forall in H.
  specialize (H (Z.to_nat z)). rewrite Z2Nat.id in H by lia.
  apply H, in_seq. lia.
Qed.

Lemma pow2_pos w : 0 <= w -> 0 < 2 ^ w.
Proof. intros. apply Z.pow_pos_nonneg; lia. Qed.

Lemma land_ones_mod z w : 0 <= w -> Z.land z (2 ^ w - 1) = z `mod` 2 ^ w.
Proof. intros. rewrite <- Z.land_ones by done. f_equal. rewrite Z.ones_equiv. lia. Qed.

(** Bits above the width of a bounded number are clear. *)
Lemma testbit_above z w i : 0 <= z < 2 ^ w -> w <= i -> Z.testbit z i = false.
Proof.
  intros Hz Hi. destruct (decide (z = 0)) as [->|]; [apply Z.testbit_0_l|].
  apply Z.bits_above_log2; [lia|].
  apply Z.log2_lt_pow2; [lia|].
  eapply Z.lt_le_trans; [apply Hz|]. apply Z.pow_le_mono_r; lia.
Qed.

(** Disjoint bit fields: the or of a multiple of [2^w] and a [w]-bit number is
    their sum. *)
Lemma lor_add_low a b w :
  0 <= w -> 0 <= b < 2 ^ w -> Z.lor (a * 2 ^ w) b = a * 2 ^ w + b.
Proof.
  intros Hw Hb. symmetry.
  rewrite <- Z.lxor_lor; [apply Z.add_nocarry_lxor|];
    (apply Z.bits_inj_iff'; intros n Hn; rewrite Z.land_spec, Z.bits_0;
     destruct (Z.lt_ge_cases n w);
     [rewrite Z.mul_pow2_bits_low by lia; done
     |rewrite (testbit_above b w) by lia; apply andb_false_r]).
Qed.
