(* ===== verification/CppInt.v ===== *)
(** * Machine integers of the C++ code

    A [uintN_t] is a [Z] in [0, 2^N), an [intN_t] a [Z] in [-2^(N-1), 2^(N-1)).
    [uint w z] and [sint w z] are the conversions (the [static_cast]s and the
    functional casts of the code): both reduce modulo [2^w], which is what the
    language defines for unsigned types and, since C++20, for signed ones. *)

From S2P Require Import Prelude.

Definition uint (w z : Z) : Z := z `mod` 2 ^ w.
Definition sint (w z : Z) : Z := (z + 2 ^ (w - 1)) `mod` 2 ^ w - 2 ^ (w - 1).

Abbreviation uint8 := (uint 8).
Abbreviation uint16 := (uint 16).
Abbreviation uint32 := (uint 32).
Abbreviation uint64 := (uint 64).
Abbreviation int8 := (sint 8).
Abbreviation int16 := (sint 16).
Abbreviation int32 := (sint 32).
Abbreviation int64 := (sint 64).

Definition UINT64_MAX : Z := 2 ^ 64 - 1.

(** Range predicates *)
Definition is_uint (w z : Z) : Prop := 0 <= z < 2 ^ w.
Definition is_sint (w z : Z) : Prop := - 2 ^ (w - 1) <= z < 2 ^ (w - 1).

#[export] Instance is_uint_dec w z : Decision (is_uint w z).
Proof. unfold is_uint. apply _. Defined.
#[export] Instance is_sint_dec w z : Decision (is_sint w z).
Proof. unfold is_sint. apply _. Defined.

Lemma pow2_half w : 0 < w -> 2 ^ w = 2 * 2 ^ (w - 1).
Proof. intros. rewrite <- Z.pow_succ_r by lia. f_equal. lia. Qed.

Lemma uint_range w z : 0 <= w -> is_uint w (uint w z).
Proof. intros. apply Z.mod_pos_bound, pow2_pos. done. Qed.

Lemma uint_id w z : is_uint w z -> uint w z = z.
Proof. apply Z.mod_small. Qed.

Lemma sint_range w z : 0 < w -> is_sint w (sint w z).
Proof.
  intros. unfold is_sint, sint.
  pose proof (Z.mod_pos_bound (z + 2 ^ (w - 1)) (2 ^ w) (pow2_pos w ltac:(lia))).
  rewrite (pow2_half w) in * by lia. lia.
Qed.

Lemma sint_id w z : 0 < w -> is_sint w z -> sint w z = z.
Proof.
  unfold is_sint, sint. intros Hw H. rewrite Z.mod_small; [lia|].
  rewrite (pow2_half w) by lia. lia.
Qed.

Lemma uint_mono w v z : 0 <= w <= v -> is_uint w z -> is_uint v z.
Proof.
  unfold is_uint. intros Hw Hz.
  pose proof (Z.pow_le_mono_r 2 w v ltac:(lia) ltac:(lia)). lia.
Qed.

(** Two numbers have the same [w]-bit value when they differ by a multiple of
    [2^w]. *)
Lemma uint_eq_iff w a b : 0 <= w -> uint w a = uint w b <-> exists k, a = b + k * 2 ^ w.
Proof.
  intros Hw. unfold uint. pose proof (pow2_pos w Hw). split.
  - intros E. exists (a `div` 2 ^ w - b `div` 2 ^ w).
    rewrite (Z.div_mod a (2 ^ w)) at 1 by lia.
    rewrite (Z.div_mod b (2 ^ w)) at 1 by lia. rewrite E. nia.
  - intros [k ->]. apply Z.mod_add. lia.
Qed.

Lemma sint_shift w z : exists k, sint w z = z + k * 2 ^ w.
Proof.
  exists (- ((z + 2 ^ (w - 1)) `div` 2 ^ w)). unfold sint.
  destruct (decide (0 <= w)) as [Hw|Hw].
  - rewrite Z.mod_eq by (pose proof (pow2_pos w Hw); lia). lia.
  - rewrite (Z.pow_neg_r 2 w), Z.mod_0_r by lia. lia.
Qed.

Lemma uint_sint w z : 0 <= w -> uint w (sint w z) = uint w z.
Proof. intros. apply uint_eq_iff; [done|]. apply sint_shift. Qed.

Lemma uint_shift w z : 0 <= w -> exists k, uint w z = z + k * 2 ^ w.
Proof.
  intros Hw. exists (- (z `div` 2 ^ w)). unfold uint.
  pose proof (pow2_pos w Hw). rewrite Z.mod_eq by lia. lia.
Qed.

Lemma sint_add_mul w z k : 0 <= w -> sint w (z + k * 2 ^ w) = sint w z.
Proof.
  intros. unfold sint. f_equal. pose proof (pow2_pos w ltac:(done)).
  replace (z + k * 2 ^ w + 2 ^ (w - 1)) with (z + 2 ^ (w - 1) + k * 2 ^ w) by lia.
  apply Z.mod_add. lia.
Qed.

Lemma sint_uint w z : 0 <= w -> sint w (uint w z) = sint w z.
Proof. intros. destruct (uint_shift w z) as [k ->]; [done|]. by apply sint_add_mul. Qed.

Lemma sint_sint w z : 0 <= w -> sint w (sint w z) = sint w z.
Proof. intros. by rewrite <- (sint_uint w (sint w z)), uint_sint, sint_uint. Qed.

Lemma uint_uint w z : 0 <= w -> uint w (uint w z) = uint w z.
Proof. intros. unfold uint. apply Z.mod_mod. pose proof (pow2_pos w ltac:(done)). lia. Qed.

(** Narrowing twice is narrowing once. *)
Lemma uint_uint_le w v z : 0 <= w <= v -> uint w (uint v z) = uint w z.
Proof.
  intros. destruct (uint_shift v z) as [k ->]; [lia|]. apply uint_eq_iff; [lia|].
  exists (k * 2 ^ (v - w)). replace v with (v - w + w) at 1 by lia.
  rewrite Z.pow_add_r by lia. lia.
Qed.

Lemma uint_sint_le w v z : 0 <= w <= v -> uint w (sint v z) = uint w z.
Proof. intros. rewrite <- (uint_uint_le w v), uint_sint, uint_uint_le; lia. Qed.

Lemma sint_uint_le w v z : 0 <= w <= v -> sint w (uint v z) = sint w z.
Proof.
  intros. rewrite <- sint_uint, uint_uint_le, sint_uint; lia.
Qed.

Lemma sint_sint_le w v z : 0 <= w <= v -> sint w (sint v z) = sint w z.
Proof. intros. rewrite <- sint_uint, uint_sint_le, sint_uint; lia. Qed.

(** [int64(x)] of an unsigned value, in the two cases of its top bit. *)
Lemma sint_cases w z :
  0 < w -> is_uint w z ->
  sint w z = if z <? 2 ^ (w - 1) then z else z - 2 ^ w.
Proof.
  unfold is_uint. intros Hw Hz. pose proof (pow2_half w Hw).
  destruct (Z.ltb_spec z (2 ^ (w - 1))).
  - apply sint_id; [done|]. unfold is_sint. lia.
  - rewrite <- (sint_add_mul w z (-1)) by lia.
    rewrite sint_id; [lia|done|]. unfold is_sint. lia.
Qed.

Lemma sint_inj w a b :
  0 <= w -> is_uint w a -> is_uint w b -> sint w a = sint w b -> a = b.
Proof.
  intros Hw Ha Hb E. rewrite <- (uint_id w a), <- (uint_id w b) by done.
  by rewrite <- (uint_sint w a), <- (uint_sint w b), E.
Qed.

(** Modular arithmetic: the operands may be reduced, signed or unsigned. *)
Lemma uint_add_l w a b : 0 <= w -> uint w (uint w a + b) = uint w (a + b).
Proof. intros. apply uint_eq_iff; [done|]. destruct (uint_shift w a) as [k ->]; [done|]. exists k. lia. Qed.
Lemma uint_add_r w a b : 0 <= w -> uint w (a + uint w b) = uint w (a + b).
Proof. intros. by rewrite Z.add_comm, uint_add_l, Z.add_comm. Qed.
Lemma uint_add_sint_l w a b : 0 <= w -> uint w (sint w a + b) = uint w (a + b).
Proof. intros. by rewrite <- uint_add_l, uint_sint, uint_add_l. Qed.
Lemma uint_sub_l w a b : 0 <= w -> uint w (uint w a - b) = uint w (a - b).
Proof. intros. apply (uint_add_l w a (- b)). done. Qed.
Lemma uint_sub_r w a b : 0 <= w -> uint w (a - uint w b) = uint w (a - b).
Proof. intros. apply uint_eq_iff; [done|]. destruct (uint_shift w b) as [k ->]; [done|]. exists (- k). lia. Qed.
Lemma sint_add_sint w a b : 0 <= w -> sint w (sint w a + sint w b) = sint w (a + b).
Proof.
  intros. destruct (sint_shift w a) as [j ->], (sint_shift w b) as [k ->].
  replace (a + j * 2 ^ w + (b + k * 2 ^ w)) with (a + b + (j + k) * 2 ^ w) by lia.
  by apply sint_add_mul.
Qed.
Lemma sint_sub_sint w a b : 0 <= w -> sint w (sint w a - sint w b) = sint w (a - b).
Proof.
  intros. destruct (sint_shift w a) as [j ->], (sint_shift w b) as [k ->].
  replace (a + j * 2 ^ w - (b + k * 2 ^ w)) with (a - b + (j - k) * 2 ^ w) by lia.
  by apply sint_add_mul.
Qed.

(** Bits of the conversions *)
Lemma uint_testbit w z i : 0 <= w -> 0 <= i -> Z.testbit (uint w z) i = (i <? w) && Z.testbit z i.
Proof.
  intros. unfold uint. destruct (Z.ltb_spec i w).
  - by rewrite Z.mod_pow2_bits_low by lia.
  - by rewrite Z.mod_pow2_bits_high by lia.
Qed.

Lemma land_uint w a b : 0 <= w -> is_uint w a -> is_uint w (Z.land a b).
Proof.
  unfold is_uint. intros Hw Ha. rewrite <- (uint_id w a) by done.
  replace (Z.land (uint w a) b) with (uint w (Z.land a b)); [by apply uint_range|].
  apply Z.bits_inj_iff'. intros i Hi.
  rewrite uint_testbit, !Z.land_spec, uint_testbit by done. by rewrite andb_assoc.
Qed.

Lemma lor_uint w a b : 0 <= w -> is_uint w a -> is_uint w b -> is_uint w (Z.lor a b).
Proof.
  intros Hw Ha Hb. rewrite <- (uint_id w a), <- (uint_id w b) by done.
  replace (Z.lor _ _) with (uint w (Z.lor a b)); [by apply uint_range|].
  apply Z.bits_inj_iff'. intros i Hi.
  rewrite uint_testbit, !Z.lor_spec, !uint_testbit by done. by rewrite andb_orb_distrib_r.
Qed.

Lemma lxor_uint w a b : 0 <= w -> is_uint w a -> is_uint w b -> is_uint w (Z.lxor a b).
Proof.
  intros Hw Ha Hb. rewrite <- (uint_id w a), <- (uint_id w b) by done.
  replace (Z.lxor _ _) with (uint w (Z.lxor a b)); [by apply uint_range|].
  apply Z.bits_inj_iff'. intros i Hi.
  rewrite uint_testbit, !Z.lxor_spec, !uint_testbit by done. by destruct (i <? w), (Z.testbit a i), (Z.testbit b i).
Qed.

Lemma shiftr_uint w z n : 0 <= w -> 0 <= n -> is_uint w z -> is_uint w (Z.shiftr z n).
Proof.
  unfold is_uint. intros Hw Hn Hz. rewrite Z.shiftr_div_pow2 by done.
  pose proof (pow2_pos n Hn).
  split; [apply Z.div_pos; lia|].
  apply Z.le_lt_trans with z; [|lia]. apply Z.div_le_upper_bound; nia.
Qed.

Create HintDb cpp_int.
Create Rewrite HintDb cpp_int.
#[export] Hint Resolve uint_range sint_range land_uint lor_uint lxor_uint shiftr_uint : cpp_int.
#[export] Hint Extern 1 (_ <= _) => lia : cpp_int.
#[export] Hint Extern 1 (_ < _) => lia : cpp_int.
#[export] Hint Rewrite uint_sint sint_uint sint_sint uint_uint uint_add_l uint_add_r
  uint_add_sint_l uint_sub_l uint_sub_r sint_add_sint sint_sub_sint using lia : cpp_int.

(** Proves that a value of the code is in the range of its type. *)
Ltac solve_range := eauto 8 with cpp_int.

(** Normalises the casts of an arithmetic expression. *)
Ltac norm_casts := autorewrite with cpp_int.

(** Bit fields: shifting left by [l] in a [w]-bit word and then right by [r]
    keeps the bits from [r - l] to [w - l]. *)
Lemma shl_shr_field w z l r :
  0 <= l <= r -> r <= w ->
  Z.shiftr (uint w (Z.shiftl z l)) r = (z `div` 2 ^ (r - l)) `mod` 2 ^ (w - r).
Proof.
  intros Hl Hr. unfold uint.
  apply Z.bits_inj_iff'. intros i Hi.
  rewrite Z.shiftr_spec by done. rewrite <- Z.shiftr_div_pow2 by lia.
  destruct (Z.lt_ge_cases i (w - r)).
  - rewrite !Z.mod_pow2_bits_low, Z.shiftl_spec, Z.shiftr_spec by lia. f_equal. lia.
  - by rewrite !Z.mod_pow2_bits_high by lia.
Qed.

(** ** Characterisations of the conversions *)

Lemma sint_unique w z v k : 0 < w -> is_sint w v -> v = z + k * 2 ^ w -> sint w z = v.
Proof. intros Hw Hv ->. rewrite <- (sint_add_mul w z k) by lia. by apply sint_id. Qed.

(** An arithmetic right shift of a signed number drops its low bits. *)
Lemma sint_shiftr w z n : 0 <= n < w -> Z.shiftr (sint w z) n = sint (w - n) (z `div` 2 ^ n).
Proof.
  intros Hn. pose proof (sint_range w z ltac:(lia)) as Hr. unfold is_sint in Hr.
  pose proof (pow2_pos n ltac:(lia)).
  assert (2 ^ (w - 1) = 2 ^ (w - n - 1) * 2 ^ n) as Hp
    by (rewrite <- Z.pow_add_r by lia; f_equal; lia).
  rewrite Z.shiftr_div_pow2 by lia. symmetry.
  destruct (sint_shift w z) as [k Hk]. apply sint_unique with k; [lia| |].
  - unfold is_sint. split.
    + apply Z.div_le_lower_bound; lia.
    + apply Z.div_lt_upper_bound; lia.
  - rewrite Hk. replace (2 ^ w) with (2 ^ (w - n) * 2 ^ n)
      by (rewrite <- Z.pow_add_r by lia; f_equal; lia).
    rewrite Z.mul_assoc, Z.div_add by lia. done.
Qed.

Lemma uint_mul_pow w a n : 0 <= n <= w -> uint w (a * 2 ^ n) = uint (w - n) a * 2 ^ n.
Proof.
  intros. unfold uint. pose proof (pow2_pos n ltac:(lia)). pose proof (pow2_pos (w - n) ltac:(lia)).
  replace (2 ^ w) with (2 ^ (w - n) * 2 ^ n) by (rewrite <- Z.pow_add_r by lia; f_equal; lia).
  rewrite Z.mul_mod_distr_r; lia.
Qed.

(** Disjoint fields: the or is the sum. *)
Lemma lor_add a b w :
  0 <= w -> 0 <= b < 2 ^ w -> (exists k, a = k * 2 ^ w) -> Z.lor a b = a + b.
Proof. intros Hw Hb [k ->]. by apply lor_add_low. Qed.

(** Masking with the complement of a constant clears its bits. *)
Lemma land_not_uint w a m : 0 <= w -> is_uint w a -> Z.land a (uint w (Z.lnot m)) = Z.ldiff a m.
Proof.
  intros Hw Ha. apply Z.bits_inj_iff'. intros i Hi.
  rewrite Z.land_spec, Z.ldiff_spec, uint_testbit, Z.lnot_spec by done.
  destruct (Z.ltb_spec i w); [done|]. by rewrite (testbit_above a w).
Qed.

Lemma ldiff_low a n : 0 <= n -> Z.ldiff a (2 ^ n - 1) = 2 ^ n * (a `div` 2 ^ n).
Proof.
  intros. replace (2 ^ n - 1) with (Z.ones n) by (rewrite Z.ones_equiv; lia).
  rewrite Z.ldiff_ones_r, Z.shiftr_div_pow2, Z.shiftl_mul_pow2 by done. lia.
Qed.

(** Clearing a field in the middle of a number *)
Lemma ldiff_field a o c :
  0 <= o -> 0 <= c ->
  Z.ldiff a (Z.shiftl (Z.ones c) o) = a `mod` 2 ^ o + 2 ^ (o + c) * (a `div` 2 ^ (o + c)).
Proof.
  intros Ho Hc.
  assert (a `mod` 2 ^ o + 2 ^ (o + c) * (a `div` 2 ^ (o + c)) =
          Z.lor (2 ^ (o + c) * (a `div` 2 ^ (o + c))) (a `mod` 2 ^ o)) as ->.
  { rewrite (lor_add _ _ o); [lia|done| |].
    - apply Z.mod_pos_bound, pow2_pos. done.
    - exists (2 ^ c * (a `div` 2 ^ (o + c))). rewrite Z.pow_add_r by lia. lia. }
  rewrite Z.mul_comm, <- Z.shiftl_mul_pow2, <- Z.shiftr_div_pow2 by lia.
  apply Z.bits_inj_iff'. intros i Hi.
  rewrite Z.ldiff_spec, Z.lor_spec, Z.shiftl_spec, Z.testbit_ones by lia.
  destruct (Z.lt_ge_cases i o).
  - rewrite Z.mod_pow2_bits_low, (Z.shiftl_spec_low _ (o + c)) by lia.
    test (0 <=? i - o) is false. by rewrite andb_true_r.
  - rewrite Z.mod_pow2_bits_high, orb_false_r by lia.
    destruct (Z.ltb_spec (i - o) c).
    + rewrite (Z.shiftl_spec_low _ (o + c)) by lia.
      test (0 <=? i - o) is true. by rewrite andb_false_r.
    + rewrite Z.shiftl_spec, Z.shiftr_spec, andb_false_r, andb_true_r by lia. f_equal. lia.
Qed.

Lemma land_pow2 b i : 0 <= i -> (Z.land b (2 ^ i) =? 0) = negb (Z.testbit b i).
Proof.
  intros Hi. destruct (Z.testbit b i) eqn:E; cbn; reflect_bools.
  - apply Z.eqb_neq. intros H0. assert (Z.testbit (Z.land b (2 ^ i)) i = false) as H1 by by rewrite H0, Z.bits_0.
    by rewrite Z.land_spec, Z.pow2_bits_true, E in H1.
  - apply Z.eqb_eq, Z.bits_inj'. intros j Hj. rewrite Z.land_spec, Z.bits_0.
    destruct (decide (i = j)) as [<-|]; [by rewrite E|]. by rewrite Z.pow2_bits_false, andb_false_r by done.
Qed.
