(* ===== verification/Constants.v ===== *)
(** * Constants of the machine

    The values of pma-defines.h, pma-constants.h, uarch-defines.h,
    uarch-constants.h and riscv-constants.h the model uses, and the status a
    microarchitecture step returns (uarch-step.h). *)

From S2P Require Import Prelude CppInt.

(** ** Physical memory attributes (pma-defines.h) *)
Definition PMA_SHADOW_STATE_START : Z := 0x0.
Definition PMA_SHADOW_STATE_LENGTH : Z := 0x1000.
Definition PMA_SHADOW_PMAS_START : Z := 0x10000.
Definition PMA_SHADOW_PMAS_LENGTH : Z := 0x1000.
Definition PMA_SHADOW_TLB_START : Z := 0x20000.
Definition PMA_SHADOW_TLB_LENGTH : Z := 0x6000.
Definition PMA_SHADOW_UARCH_STATE_START : Z := 0x400000.
Definition PMA_SHADOW_UARCH_STATE_LENGTH : Z := 0x1000.
Definition PMA_UARCH_RAM_START : Z := 0x600000.
Definition PMA_UARCH_RAM_LENGTH : Z := 0x200000.
Definition PMA_PLIC_LENGTH : Z := 0x00400000.
Definition PMA_CMIO_RX_BUFFER_START : Z := 0x60000000.
Definition PMA_CMIO_RX_BUFFER_LOG2_SIZE : Z := 21.
Definition PMA_PAGE_SIZE_LOG2 : Z := 12.
Definition PMA_PAGE_SIZE : Z := 2 ^ 12.
Definition PMA_WORD_SIZE : Z := 8.
Definition PMA_MAX : Z := 32.
Definition PMA_TLB_SIZE : Z := 256.
Definition PMA_PLIC_MAX_IRQ : Z := 31.
Definition PAGE_OFFSET_MASK : Z := PMA_PAGE_SIZE - 1.

Definition PMA_ISTART_M_SHIFT : Z := 0.
Definition PMA_ISTART_IO_SHIFT : Z := 1.
Definition PMA_ISTART_E_SHIFT : Z := 2.
Definition PMA_ISTART_R_SHIFT : Z := 3.
Definition PMA_ISTART_W_SHIFT : Z := 4.
Definition PMA_ISTART_X_SHIFT : Z := 5.
Definition PMA_ISTART_IR_SHIFT : Z := 6.
Definition PMA_ISTART_IW_SHIFT : Z := 7.
Definition PMA_ISTART_DID_SHIFT : Z := 8.

(** ** Microarchitecture (uarch-defines.h, riscv-constants.h) *)
Definition UARCH_STATE_START_ADDRESS : Z := PMA_SHADOW_UARCH_STATE_START.
Definition UARCH_STATE_LOG2_SIZE : Z := 22.
Definition UARCH_X_REG_COUNT : Z := 32.
Definition UARCH_X_INIT : Z := 0.
Definition UARCH_PC_INIT : Z := PMA_UARCH_RAM_START.
Definition UARCH_CYCLE_INIT : Z := 0.
Definition UARCH_ECALL_FN_HALT : Z := 1.
Definition UARCH_ECALL_FN_PUTCHAR : Z := 2.

Inductive UArchStepStatus : Type := Success | CycleOverflow | UArchHalted.

#[export] Instance UArchStepStatus_eq_dec : EqDecision UArchStepStatus.
Proof. solve_decision. Defined.

(** The identification registers; the version is the one of src/Makefile. *)
Definition MVENDORID_INIT : Z := 0x6361727465736920.
Definition MARCHID_INIT : Z := 19.
Definition MIMPID_INIT : Z := 0 * 1000 + 19.
