(* ===== verification/RiscvConstants.v ===== *)
(** * RISC-V constants (riscv-constants.h)

    The values of the enumerations the model uses, under their names; the
    registers at consecutive addresses that are hardwired are given by the ends of
    their ranges. *)

From S2P Require Import Prelude.

Definition XLEN : Z := 64.
Definition FLEN : Z := 64.

(** ** Interrupts *)

Definition MIP_SSIP_SHIFT : Z := 1.
Definition MIP_MSIP_SHIFT : Z := 3.
Definition MIP_STIP_SHIFT : Z := 5.
Definition MIP_MTIP_SHIFT : Z := 7.
Definition MIP_SEIP_SHIFT : Z := 9.
Definition MIP_MEIP_SHIFT : Z := 11.

Definition MIP_SSIP_MASK : Z := Z.shiftl 1 MIP_SSIP_SHIFT.
Definition MIP_MSIP_MASK : Z := Z.shiftl 1 MIP_MSIP_SHIFT.
Definition MIP_STIP_MASK : Z := Z.shiftl 1 MIP_STIP_SHIFT.
Definition MIP_MTIP_MASK : Z := Z.shiftl 1 MIP_MTIP_SHIFT.
Definition MIP_SEIP_MASK : Z := Z.shiftl 1 MIP_SEIP_SHIFT.
Definition MIP_MEIP_MASK : Z := Z.shiftl 1 MIP_MEIP_SHIFT.

(** ** Causes of traps *)

Definition MCAUSE_INSN_ADDRESS_MISALIGNED : Z := 0x0.
Definition MCAUSE_INSN_ACCESS_FAULT : Z := 0x1.
Definition MCAUSE_ILLEGAL_INSN : Z := 0x2.
Definition MCAUSE_BREAKPOINT : Z := 0x3.
Definition MCAUSE_LOAD_ADDRESS_MISALIGNED : Z := 0x4.
Definition MCAUSE_LOAD_ACCESS_FAULT : Z := 0x5.
Definition MCAUSE_STORE_AMO_ADDRESS_MISALIGNED : Z := 0x6.
Definition MCAUSE_STORE_AMO_ACCESS_FAULT : Z := 0x7.
Definition MCAUSE_ECALL_BASE : Z := 0x8.
Definition MCAUSE_USER_ECALL : Z := 0x8.
Definition MCAUSE_SUPERVISOR_ECALL : Z := 0x9.
Definition MCAUSE_MACHINE_ECALL : Z := 0xb.
Definition MCAUSE_FETCH_PAGE_FAULT : Z := 0xc.
Definition MCAUSE_LOAD_PAGE_FAULT : Z := 0xd.
Definition MCAUSE_STORE_AMO_PAGE_FAULT : Z := 0xf.
Definition MCAUSE_INTERRUPT_FLAG : Z := Z.shiftl 1 (XLEN - 1).

Definition MCAUSE_INSN_ADDRESS_MISALIGNED_MASK : Z := Z.shiftl 1 MCAUSE_INSN_ADDRESS_MISALIGNED.
Definition MCAUSE_INSN_ACCESS_FAULT_MASK : Z := Z.shiftl 1 MCAUSE_INSN_ACCESS_FAULT.
Definition MCAUSE_ILLEGAL_INSN_MASK : Z := Z.shiftl 1 MCAUSE_ILLEGAL_INSN.
Definition MCAUSE_BREAKPOINT_MASK : Z := Z.shiftl 1 MCAUSE_BREAKPOINT.
Definition MCAUSE_LOAD_ADDRESS_MISALIGNED_MASK : Z := Z.shiftl 1 MCAUSE_LOAD_ADDRESS_MISALIGNED.
Definition MCAUSE_LOAD_ACCESS_FAULT_MASK : Z := Z.shiftl 1 MCAUSE_LOAD_ACCESS_FAULT.
Definition MCAUSE_STORE_AMO_ADDRESS_MISALIGNED_MASK : Z := Z.shiftl 1 MCAUSE_STORE_AMO_ADDRESS_MISALIGNED.
Definition MCAUSE_STORE_AMO_ACCESS_FAULT_MASK : Z := Z.shiftl 1 MCAUSE_STORE_AMO_ACCESS_FAULT.
Definition MCAUSE_USER_ECALL_MASK : Z := Z.shiftl 1 MCAUSE_USER_ECALL.
Definition MCAUSE_SUPERVISOR_ECALL_MASK : Z := Z.shiftl 1 MCAUSE_SUPERVISOR_ECALL.
Definition MCAUSE_MACHINE_ECALL_MASK : Z := Z.shiftl 1 MCAUSE_MACHINE_ECALL.
Definition MCAUSE_FETCH_PAGE_FAULT_MASK : Z := Z.shiftl 1 MCAUSE_FETCH_PAGE_FAULT.
Definition MCAUSE_LOAD_PAGE_FAULT_MASK : Z := Z.shiftl 1 MCAUSE_LOAD_PAGE_FAULT.
Definition MCAUSE_STORE_AMO_PAGE_FAULT_MASK : Z := Z.shiftl 1 MCAUSE_STORE_AMO_PAGE_FAULT.

Definition MEDELEG_W_MASK : Z := MCAUSE_INSN_ADDRESS_MISALIGNED_MASK |ᵇ MCAUSE_INSN_ACCESS_FAULT_MASK
  |ᵇ MCAUSE_ILLEGAL_INSN_MASK |ᵇ MCAUSE_BREAKPOINT_MASK |ᵇ MCAUSE_LOAD_ADDRESS_MISALIGNED_MASK
  |ᵇ MCAUSE_LOAD_ACCESS_FAULT_MASK |ᵇ MCAUSE_STORE_AMO_ADDRESS_MISALIGNED_MASK
  |ᵇ MCAUSE_STORE_AMO_ACCESS_FAULT_MASK |ᵇ MCAUSE_USER_ECALL_MASK |ᵇ MCAUSE_SUPERVISOR_ECALL_MASK
  |ᵇ MCAUSE_FETCH_PAGE_FAULT_MASK |ᵇ MCAUSE_LOAD_PAGE_FAULT_MASK |ᵇ MCAUSE_STORE_AMO_PAGE_FAULT_MASK.

(** ** Privilege modes *)

Definition PRV_U : Z := 0.
Definition PRV_S : Z := 1.
Definition PRV_HS : Z := 2.
Definition PRV_M : Z := 3.

(** ** mstatus *)

Definition MSTATUS_SIE_SHIFT : Z := 1.
Definition MSTATUS_MIE_SHIFT : Z := 3.
Definition MSTATUS_SPIE_SHIFT : Z := 5.
Definition MSTATUS_UBE_SHIFT : Z := 6.
Definition MSTATUS_MPIE_SHIFT : Z := 7.
Definition MSTATUS_SPP_SHIFT : Z := 8.
Definition MSTATUS_VS_SHIFT : Z := 9.
Definition MSTATUS_MPP_SHIFT : Z := 11.
Definition MSTATUS_FS_SHIFT : Z := 13.
Definition MSTATUS_XS_SHIFT : Z := 15.
Definition MSTATUS_MPRV_SHIFT : Z := 17.
Definition MSTATUS_SUM_SHIFT : Z := 18.
Definition MSTATUS_MXR_SHIFT : Z := 19.
Definition MSTATUS_TVM_SHIFT : Z := 20.
Definition MSTATUS_TW_SHIFT : Z := 21.
Definition MSTATUS_TSR_SHIFT : Z := 22.
Definition MSTATUS_UXL_SHIFT : Z := 32.
Definition MSTATUS_SXL_SHIFT : Z := 34.
Definition MSTATUS_SBE_SHIFT : Z := 36.
Definition MSTATUS_MBE_SHIFT : Z := 37.
Definition MSTATUS_SD_SHIFT : Z := XLEN - 1.

Definition MSTATUS_SIE_MASK : Z := Z.shiftl 1 MSTATUS_SIE_SHIFT.
Definition MSTATUS_MIE_MASK : Z := Z.shiftl 1 MSTATUS_MIE_SHIFT.
Definition MSTATUS_SPIE_MASK : Z := Z.shiftl 1 MSTATUS_SPIE_SHIFT.
Definition MSTATUS_UBE_MASK : Z := Z.shiftl 1 MSTATUS_UBE_SHIFT.
Definition MSTATUS_MPIE_MASK : Z := Z.shiftl 1 MSTATUS_MPIE_SHIFT.
Definition MSTATUS_SPP_MASK : Z := Z.shiftl 1 MSTATUS_SPP_SHIFT.
Definition MSTATUS_VS_MASK : Z := Z.shiftl 3 MSTATUS_VS_SHIFT.
Definition MSTATUS_MPP_MASK : Z := Z.shiftl 3 MSTATUS_MPP_SHIFT.
Definition MSTATUS_FS_MASK : Z := Z.shiftl 3 MSTATUS_FS_SHIFT.
Definition MSTATUS_XS_MASK : Z := Z.shiftl 3 MSTATUS_XS_SHIFT.
Definition MSTATUS_MPRV_MASK : Z := Z.shiftl 1 MSTATUS_MPRV_SHIFT.
Definition MSTATUS_SUM_MASK : Z := Z.shiftl 1 MSTATUS_SUM_SHIFT.
Definition MSTATUS_MXR_MASK : Z := Z.shiftl 1 MSTATUS_MXR_SHIFT.
Definition MSTATUS_TVM_MASK : Z := Z.shiftl 1 MSTATUS_TVM_SHIFT.
Definition MSTATUS_TW_MASK : Z := Z.shiftl 1 MSTATUS_TW_SHIFT.
Definition MSTATUS_TSR_MASK : Z := Z.shiftl 1 MSTATUS_TSR_SHIFT.
Definition MSTATUS_UXL_MASK : Z := Z.shiftl 3 MSTATUS_UXL_SHIFT.
Definition MSTATUS_SXL_MASK : Z := Z.shiftl 3 MSTATUS_SXL_SHIFT.
Definition MSTATUS_SBE_MASK : Z := Z.shiftl 1 MSTATUS_SBE_SHIFT.
Definition MSTATUS_MBE_MASK : Z := Z.shiftl 1 MSTATUS_MBE_SHIFT.
Definition MSTATUS_SD_MASK : Z := Z.shiftl 1 MSTATUS_SD_SHIFT.
Definition MSTATUS_FS_OFF : Z := Z.shiftl 0 MSTATUS_FS_SHIFT.
Definition MSTATUS_FS_INITIAL : Z := Z.shiftl 1 MSTATUS_FS_SHIFT.
Definition MSTATUS_FS_CLEAN : Z := Z.shiftl 2 MSTATUS_FS_SHIFT.
Definition MSTATUS_FS_DIRTY : Z := Z.shiftl 3 MSTATUS_FS_SHIFT.

Definition MSTATUS_W_MASK : Z := MSTATUS_SIE_MASK |ᵇ MSTATUS_MIE_MASK |ᵇ MSTATUS_SPIE_MASK |ᵇ MSTATUS_MPIE_MASK
  |ᵇ MSTATUS_SPP_MASK |ᵇ MSTATUS_MPP_MASK |ᵇ MSTATUS_FS_MASK |ᵇ MSTATUS_MPRV_MASK |ᵇ MSTATUS_SUM_MASK
  |ᵇ MSTATUS_MXR_MASK |ᵇ MSTATUS_TVM_MASK |ᵇ MSTATUS_TW_MASK |ᵇ MSTATUS_TSR_MASK.
Definition MSTATUS_R_MASK : Z := MSTATUS_SIE_MASK |ᵇ MSTATUS_MIE_MASK |ᵇ MSTATUS_SPIE_MASK |ᵇ MSTATUS_UBE_MASK
  |ᵇ MSTATUS_MPIE_MASK |ᵇ MSTATUS_SPP_MASK |ᵇ MSTATUS_MPP_MASK |ᵇ MSTATUS_FS_MASK |ᵇ MSTATUS_VS_MASK
  |ᵇ MSTATUS_MPRV_MASK |ᵇ MSTATUS_SUM_MASK |ᵇ MSTATUS_MXR_MASK |ᵇ MSTATUS_TVM_MASK |ᵇ MSTATUS_TW_MASK
  |ᵇ MSTATUS_TSR_MASK |ᵇ MSTATUS_UXL_MASK |ᵇ MSTATUS_SXL_MASK |ᵇ MSTATUS_SBE_MASK |ᵇ MSTATUS_MBE_MASK
  |ᵇ MSTATUS_SD_MASK.

Definition SSTATUS_W_MASK : Z := MSTATUS_SIE_MASK |ᵇ MSTATUS_SPIE_MASK |ᵇ MSTATUS_SPP_MASK |ᵇ MSTATUS_FS_MASK
  |ᵇ MSTATUS_SUM_MASK |ᵇ MSTATUS_MXR_MASK.
Definition SSTATUS_R_MASK : Z := MSTATUS_SIE_MASK |ᵇ MSTATUS_SPIE_MASK |ᵇ MSTATUS_UBE_MASK |ᵇ MSTATUS_SPP_MASK
  |ᵇ MSTATUS_VS_MASK |ᵇ MSTATUS_FS_MASK |ᵇ MSTATUS_XS_MASK |ᵇ MSTATUS_SUM_MASK |ᵇ MSTATUS_MXR_MASK
  |ᵇ MSTATUS_UXL_MASK |ᵇ MSTATUS_SD_MASK.

(** ** menvcfg and senvcfg *)

Definition MENVCFG_FIOM_SHIFT : Z := 0.
Definition MENVCFG_CBIE_SHIFT : Z := 4.
Definition MENVCFG_CBCFE_SHIFT : Z := 6.
Definition MENVCFG_CBZE_SHIFT : Z := 7.
Definition MENVCFG_PBMTE_SHIFT : Z := 62.
Definition MENVCFG_STCE_SHIFT : Z := 63.

Definition MENVCFG_FIOM_MASK : Z := Z.shiftl 1 MENVCFG_FIOM_SHIFT.
Definition MENVCFG_CBIE_MASK : Z := Z.shiftl 3 MENVCFG_CBIE_SHIFT.
Definition MENVCFG_CBCFE_MASK : Z := Z.shiftl 1 MENVCFG_CBCFE_SHIFT.
Definition MENVCFG_CBZE_MASK : Z := Z.shiftl 1 MENVCFG_CBZE_SHIFT.
Definition MENVCFG_PBMTE_MASK : Z := Z.shiftl 1 MENVCFG_PBMTE_SHIFT.
Definition MENVCFG_STCE_MASK : Z := Z.shiftl 1 MENVCFG_STCE_SHIFT.

Definition SENVCFG_FIOM_SHIFT : Z := 0.
Definition SENVCFG_CBIE_SHIFT : Z := 4.
Definition SENVCFG_CBCFE_SHIFT : Z := 6.
Definition SENVCFG_CBZE_SHIFT : Z := 7.

Definition SENVCFG_FIOM_MASK : Z := Z.shiftl 1 SENVCFG_FIOM_SHIFT.
Definition SENVCFG_CBIE_MASK : Z := Z.shiftl 3 SENVCFG_CBIE_SHIFT.
Definition SENVCFG_CBCFE_MASK : Z := Z.shiftl 1 SENVCFG_CBCFE_SHIFT.
Definition SENVCFG_CBZE_MASK : Z := Z.shiftl 1 SENVCFG_CBZE_SHIFT.

Definition MENVCFG_W_MASK : Z := MENVCFG_FIOM_MASK.
Definition MENVCFG_R_MASK : Z := MENVCFG_FIOM_MASK.

Definition SENVCFG_W_MASK : Z := SENVCFG_FIOM_MASK.
Definition SENVCFG_R_MASK : Z := SENVCFG_FIOM_MASK.

(** ** fcsr *)

Definition FFLAGS_NX_SHIFT : Z := 0.
Definition FFLAGS_UF_SHIFT : Z := 1.
Definition FFLAGS_OF_SHIFT : Z := 2.
Definition FFLAGS_DZ_SHIFT : Z := 3.
Definition FFLAGS_NV_SHIFT : Z := 4.

Definition FFLAGS_RW_MASK : Z := 31.
Definition FFLAGS_NX_MASK : Z := Z.shiftl 1 FFLAGS_NX_SHIFT.
Definition FFLAGS_UF_MASK : Z := Z.shiftl 1 FFLAGS_UF_SHIFT.
Definition FFLAGS_OF_MASK : Z := Z.shiftl 1 FFLAGS_OF_SHIFT.
Definition FFLAGS_DZ_MASK : Z := Z.shiftl 1 FFLAGS_DZ_SHIFT.
Definition FFLAGS_NV_MASK : Z := Z.shiftl 1 FFLAGS_NV_SHIFT.

Definition FRM_RNE : Z := 0.
Definition FRM_RTZ : Z := 1.
Definition FRM_RDN : Z := 2.
Definition FRM_RUP : Z := 3.
Definition FRM_RMM : Z := 4.
Definition FRM_DYN : Z := 7.

(** *** Float classes *)
Definition FCLASS_NINF : Z := Z.shiftl 1 0.
Definition FCLASS_NNORMAL : Z := Z.shiftl 1 1.
Definition FCLASS_NSUBNORMAL : Z := Z.shiftl 1 2.
Definition FCLASS_NZERO : Z := Z.shiftl 1 3.
Definition FCLASS_PZERO : Z := Z.shiftl 1 4.
Definition FCLASS_PSUBNORMAL : Z := Z.shiftl 1 5.
Definition FCLASS_PNORMAL : Z := Z.shiftl 1 6.
Definition FCLASS_PINF : Z := Z.shiftl 1 7.
Definition FCLASS_SNAN : Z := Z.shiftl 1 8.
Definition FCLASS_QNAN : Z := Z.shiftl 1 9.

Definition FRM_RW_MASK : Z := 7.

Definition FCSR_FFLAGS_SHIFT : Z := 0.
Definition FCSR_FRM_SHIFT : Z := 5.

Definition FCSR_FFLAGS_RW_MASK : Z := Z.shiftl FFLAGS_RW_MASK FCSR_FFLAGS_SHIFT.
Definition FCSR_FRM_RW_MASK : Z := Z.shiftl FRM_RW_MASK FCSR_FRM_SHIFT.
Definition FCSR_RW_MASK : Z := FCSR_FFLAGS_RW_MASK |ᵇ FCSR_FRM_RW_MASK.

(** ** Counters *)

Definition MCOUNTEREN_CY_SHIFT : Z := 0.
Definition MCOUNTEREN_TM_SHIFT : Z := 1.
Definition MCOUNTEREN_IR_SHIFT : Z := 2.

Definition MCOUNTEREN_CY_MASK : Z := Z.shiftl 1 MCOUNTEREN_CY_SHIFT.
Definition MCOUNTEREN_TM_MASK : Z := Z.shiftl 1 MCOUNTEREN_TM_SHIFT.
Definition MCOUNTEREN_IR_MASK : Z := Z.shiftl 1 MCOUNTEREN_IR_SHIFT.

Definition MCOUNTEREN_R_MASK : Z := 0xffffffff.
Definition MCOUNTEREN_RW_MASK : Z := MCOUNTEREN_CY_MASK |ᵇ MCOUNTEREN_TM_MASK |ᵇ MCOUNTEREN_IR_MASK.
Definition SCOUNTEREN_RW_MASK : Z := MCOUNTEREN_RW_MASK.

(** ** Address translation *)

Definition LOG2_PAGE_SIZE : Z := 12.
Definition LOG2_PTE_SIZE : Z := 3.
Definition LOG2_VPN_SIZE : Z := LOG2_PAGE_SIZE - LOG2_PTE_SIZE.
Definition VPN_MASK : Z := Z.shiftl 1 LOG2_VPN_SIZE - 1.
Definition SATP_MODE_SHIFT : Z := 60.
Definition SATP_PPN_MASK : Z := Z.shiftl 1 44 - 1.
Definition SATP_MODE_BARE : Z := 0.
Definition SATP_MODE_SV39 : Z := 8.
Definition SATP_MODE_SV48 : Z := 9.
Definition PTE_XWR_R_SHIFT : Z := 0.
Definition PTE_XWR_W_SHIFT : Z := 1.
Definition PTE_XWR_X_SHIFT : Z := 2.
Definition PTE_XWR_R_MASK : Z := Z.shiftl 1 PTE_XWR_R_SHIFT.
Definition PTE_XWR_W_MASK : Z := Z.shiftl 1 PTE_XWR_W_SHIFT.
Definition PTE_XWR_X_MASK : Z := Z.shiftl 1 PTE_XWR_X_SHIFT.
Definition PTE_R_SHIFT : Z := 1.
Definition PTE_PPN_SHIFT : Z := 10.
Definition PTE_V_MASK : Z := Z.shiftl 1 0.
Definition PTE_U_MASK : Z := Z.shiftl 1 4.
Definition PTE_A_MASK : Z := Z.shiftl 1 6.
Definition PTE_D_MASK : Z := Z.shiftl 1 7.
Definition PTE_PPN_MASK : Z := Z.shiftl (Z.shiftl 1 44 - 1) PTE_PPN_SHIFT.
Definition PTE_60_54_MASK : Z := Z.shiftl 127 54.
Definition PTE_PBMT_MASK : Z := Z.shiftl 3 61.
Definition PTE_N_MASK : Z := Z.shiftl 1 63.
Definition SATP_ASID_SHIFT : Z := 44.
Definition SATP_ASID_MASK : Z := Z.shiftl (Z.shiftl 1 0 - 1) SATP_ASID_SHIFT.
Definition SATP_MODE_MASK : Z := Z.shiftl 15 SATP_MODE_SHIFT.

(** ** Addresses of the control and status registers (enum [CSR_address]) *)

Definition CSR_fflags : Z := 0x001.
Definition CSR_frm : Z := 0x002.
Definition CSR_fcsr : Z := 0x003.
Definition CSR_ucycle : Z := 0xc00.
Definition CSR_utime : Z := 0xc01.
Definition CSR_uinstret : Z := 0xc02.
Definition CSR_sstatus : Z := 0x100.
Definition CSR_sie : Z := 0x104.
Definition CSR_stvec : Z := 0x105.
Definition CSR_scounteren : Z := 0x106.
Definition CSR_senvcfg : Z := 0x10a.
Definition CSR_sscratch : Z := 0x140.
Definition CSR_sepc : Z := 0x141.
Definition CSR_scause : Z := 0x142.
Definition CSR_stval : Z := 0x143.
Definition CSR_sip : Z := 0x144.
Definition CSR_satp : Z := 0x180.
Definition CSR_mvendorid : Z := 0xf11.
Definition CSR_marchid : Z := 0xf12.
Definition CSR_mimpid : Z := 0xf13.
Definition CSR_mhartid : Z := 0xf14.
Definition CSR_mconfigptr : Z := 0xf15.
Definition CSR_mstatus : Z := 0x300.
Definition CSR_misa : Z := 0x301.
Definition CSR_medeleg : Z := 0x302.
Definition CSR_mideleg : Z := 0x303.
Definition CSR_mie : Z := 0x304.
Definition CSR_mtvec : Z := 0x305.
Definition CSR_mcounteren : Z := 0x306.
Definition CSR_menvcfg : Z := 0x30a.
Definition CSR_mscratch : Z := 0x340.
Definition CSR_mepc : Z := 0x341.
Definition CSR_mcause : Z := 0x342.
Definition CSR_mtval : Z := 0x343.
Definition CSR_mip : Z := 0x344.
Definition CSR_mcycle : Z := 0xb00.
Definition CSR_minstret : Z := 0xb02.
Definition CSR_mhpmcounter3 : Z := 0xb03.
Definition CSR_mhpmcounter31 : Z := 0xb1f.
Definition CSR_mcountinhibit : Z := 0x320.
Definition CSR_mhpmevent3 : Z := 0x323.
Definition CSR_mhpmevent31 : Z := 0x33f.
Definition CSR_tselect : Z := 0x7a0.
Definition CSR_tdata1 : Z := 0x7a1.
Definition CSR_tdata2 : Z := 0x7a2.
Definition CSR_tdata3 : Z := 0x7a3.
