(* ===== verification/UarchAccess.v ===== *)
(** * The state access interface of the microarchitecture
      (i-uarch-state-access.h, uarch-solidity-compat.h)

    [i_uarch_state_access] is a compile-time interface: the interpreter of
    uarch-step.cpp is a template over a class that gives it the registers, the
    memory and the annotations.  Here the methods of the interface are the
    operations [uop]; a template function is a program [prog], a tree whose nodes
    are calls of those methods, and a class that implements the interface is a
    handler, [access_handler], that [run] uses to execute a program.

    The second part is the Solidity compatibility layer: the arithmetic the
    microarchitecture uses instead of C++ operators, on the machine integers of
    CppInt.v, and the wrappers of the methods. *)

From S2P Require Import Prelude CppInt.

(** ** Methods of the interface *)

Inductive uop : Type -> Type :=
  | ReadX (reg : Z) : uop Z
  | WriteX (reg val : Z) : uop unit
  | ReadPc : uop Z
  | WritePc (val : Z) : uop unit
  | ReadCycle : uop Z
  | WriteCycle (val : Z) : uop unit
  | ReadHaltFlag : uop bool
  | SetHaltFlag : uop unit
  | ResetHaltFlag : uop unit
  | ReadWord (paddr : Z) : uop Z
  | WriteWord (paddr val : Z) : uop unit
  | ResetState : uop unit
  (** [os_putchar], the one side effect outside of the state *)
  | PutChar (c : Z) : uop unit.

(** ** Programs over the interface

    [Scoped text p k] is a block that starts by declaring a scoped note: the
    note brackets [p], also when [p] leaves by an exception. *)

Inductive prog : Type -> Type :=
  | Ret {A} (a : A) : prog A
  | Throw {A} (e : exn) : prog A
  | Op {A X} (o : uop X) (k : X -> prog A) : prog A
  | Scoped {A B} (text : string) (p : prog B) (k : B -> prog A) : prog A.

Fixpoint bind {A B} (p : prog A) : (A -> prog B) -> prog B :=
  match p in prog A return (A -> prog B) -> prog B with
  | Ret a => fun f => f a
  | Throw e => fun _ => Throw e
  | Op o k => fun f => Op o (fun x => bind (k x) f)
  | Scoped text p k => fun f => Scoped text p (fun x => bind (k x) f)
  end.

#[export] Instance prog_ret : MRet prog := fun A a => Ret a.
#[export] Instance prog_bind : MBind prog := fun A B f p => bind p f.

(** A block with a scoped note *)
Definition make_scoped_note {A} (text : string) (body : prog A) : prog A :=
  Scoped text body Ret.

(** ** Classes that implement the interface *)

Record access_handler (S : Type) := {
  do_op : forall X, uop X -> S -> outcome X * S;
  do_begin : string -> S -> S;
  do_end : string -> S -> S;
}.
Arguments do_op {S} _ {X} o s.
Arguments do_begin {S} _ text s.
Arguments do_end {S} _ text s.

Section run.
Context {S : Type} (h : access_handler S).

Fixpoint run {A} (p : prog A) : S -> outcome A * S :=
  match p in prog A return S -> outcome A * S with
  | Ret a => fun s => (Done a, s)
  | Throw e => fun s => (Exn e, s)
  | Op o k => fun s =>
      match do_op h o s with
      | (Done x, s') => run (k x) s'
      | (Exn e, s') => (Exn e, s')
      end
  | Scoped text p k => fun s =>
      match run p (do_begin h text s) with
      | (Done b, s') => run (k b) (do_end h text s')
      | (Exn e, s') => (Exn e, do_end h text s')
      end
  end.

Lemma run_ret {A} (a : A) s : run (mret a) s = (Done a, s).
Proof. done. Qed.

Lemma run_bind {A B} (p : prog A) (f : A -> prog B) s :
  run (p ≫= f) s =
  match run p s with
  | (Done a, s') => run (f a) s'
  | (Exn e, s') => (Exn e, s')
  end.
Proof.
  unfold mbind, prog_bind. revert s.
  induction p as [A a|A e|A X o k IH|A C text p _ k IH]; intros s; cbn; [done|done| |].
  - destruct (do_op h o s) as [[x|e] s']; [apply IH|done].
  - destruct (run p (do_begin h text s)) as [[x|e] s']; [apply IH|done].
Qed.

(** A class whose annotations do nothing. *)
Definition silent : Prop :=
  (forall text s, do_begin h text s = s) /\ (forall text s, do_end h text s = s).

Lemma run_note {A} text (p : prog A) s :
  silent -> run (make_scoped_note text p) s = run p s.
Proof.
  intros [Hb He]. cbn. rewrite Hb. destruct (run p s) as [[x|e] s']; by rewrite He.
Qed.
End run.

(** ** Pointwise equality of programs

    Two programs are equivalent when they make the same calls in the same order
    and continue alike whatever the calls return: the equality of trees without
    functional extensionality. *)

Inductive prog_equiv : forall {A}, prog A -> prog A -> Prop :=
  | equiv_ret {A} (a : A) : prog_equiv (Ret a) (Ret a)
  | equiv_throw {A} (e : exn) : prog_equiv (A := A) (Throw e) (Throw e)
  | equiv_op {A X} (o : uop X) (k k' : X -> prog A) :
      (forall x, prog_equiv (k x) (k' x)) -> prog_equiv (Op o k) (Op o k')
  | equiv_scoped {A B} text (p p' : prog B) (k k' : B -> prog A) :
      prog_equiv p p' -> (forall x, prog_equiv (k x) (k' x)) ->
      prog_equiv (Scoped text p k) (Scoped text p' k').

#[export] Instance prog_equiv_equiv A : Equiv (prog A) := prog_equiv.

Lemma prog_equiv_refl {A} (p : prog A) : prog_equiv p p.
Proof. induction p; constructor; auto. Qed.

#[export] Instance prog_equiv_reflexive A : Reflexive (≡@{prog A}) := prog_equiv_refl.

#[export] Instance prog_equiv_symmetric A : Symmetric (≡@{prog A}).
Proof. intros p q H. induction H; constructor; auto. Qed.

Lemma bind_proper {A B} (p p' : prog A) (f f' : A -> prog B) :
  p ≡ p' -> (forall a, f a ≡ f' a) -> (p ≫= f) ≡ (p' ≫= f').
Proof.
  unfold mbind, prog_bind. intros Hp. revert f f'.
  induction Hp; intros f f' Hf; cbn; [apply Hf|constructor| |].
  - constructor. intros x. apply H0. done.
  - constructor; [done|]. intros x. apply H0. done.
Qed.

#[export] Instance run_proper {S} (h : access_handler S) A :
  Proper ((≡) ==> pointwise_relation S eq) (@run S h A).
Proof.
  intros p p' Hp. induction Hp as [| |A X o k k' _ IH|A B text p p' k k' _ IHp _ IHk];
    intros s; cbn; [done|done| |].
  - destruct (do_op h o s) as [[x|e] s']; [apply IH|done].
  - rewrite IHp. destruct (run h p' _) as [[x|e] s']; [apply IHk|done].
Qed.

(** The states in which a run calls a method *)
Inductive visits {S} (h : access_handler S) : forall {A}, prog A -> S -> S -> Prop :=
  | visit_op {A X} (o : uop X) (k : X -> prog A) s : visits h (Op o k) s s
  | visit_next {A X} (o : uop X) (k : X -> prog A) s x s' s1 :
      do_op h o s = (Done x, s') -> visits h (k x) s' s1 -> visits h (Op o k) s s1
  | visit_body {A B} text (p : prog B) (k : B -> prog A) s s1 :
      visits h p (do_begin h text s) s1 -> visits h (Scoped text p k) s s1
  | visit_after {A B} text (p : prog B) (k : B -> prog A) s b s' s1 :
      run h p (do_begin h text s) = (Done b, s') -> visits h (k b) (do_end h text s') s1 ->
      visits h (Scoped text p k) s s1.

Lemma visits_inv {S} (h : access_handler S) A (p : prog A) s s1 :
  visits h p s s1 ->
  match p with
  | Ret _ | Throw _ => False
  | Op o k => s1 = s \/ exists x s', do_op h o s = (Done x, s') /\ visits h (k x) s' s1
  | Scoped text p k =>
      visits h p (do_begin h text s) s1 \/
      exists b s', run h p (do_begin h text s) = (Done b, s') /\ visits h (k b) (do_end h text s') s1
  end.
Proof. destruct 1; [by left|right; eauto|by left|right; eauto]. Qed.

(** ** Simulation between two classes

    If every method of one class is simulated by the other, so is every
    template function: the argument the recorder and the verifier of access
    logs rest on. *)

Section simulation.
Context {S T : Type} (h : access_handler S) (g : access_handler T).
Context (R : S -> T -> Prop).

Definition op_simulated : Prop := forall X (o : uop X) s t,
  R s t ->
  match do_op h o s with
  | (Done x, s') => exists t', do_op g o t = (Done x, t') /\ R s' t'
  | (Exn _, _) => True
  end.

Definition notes_simulated : Prop := forall text s t,
  R s t -> R (do_begin h text s) (do_begin g text t) /\ R (do_end h text s) (do_end g text t).

Lemma run_simulated (Hop : op_simulated) (Hnotes : notes_simulated) A (p : prog A) :
  forall s t a s', R s t -> run h p s = (Done a, s') ->
  exists t', run g p t = (Done a, t') /\ R s' t'.
Proof.
  induction p as [A a0|A e|A X o k IH|A B text p IHp k IHk];
    intros s t a s' HR Hrun; cbn in *; try congruence.
  - injection Hrun as -> ->. eauto.
  - pose proof (Hop X o s t HR) as H.
    destruct (do_op h o s) as [[x|e] s1]; [|congruence].
    destruct H as (t1 & -> & HR1). eapply IH; eauto.
  - destruct (run h p (do_begin h text s)) as [[b|e] s1] eqn:E; [|congruence].
    destruct (IHp (do_begin h text s) (do_begin g text t) b s1) as (t1 & -> & HR1);
      [apply Hnotes; done|done|].
    eapply IHk; [|done]. by apply Hnotes.
Qed.

(** The same with an escape: where a method is not simulated, [escape] holds of
    the two states. *)
Context (escape : S -> T -> Prop).

Definition op_simulated_or : Prop := forall X (o : uop X) s t x s',
  R s t -> do_op h o s = (Done x, s') ->
  (exists t', do_op g o t = (Done x, t') /\ R s' t') \/ escape s t.

Lemma run_simulated_or (Hop : op_simulated_or) (Hnotes : notes_simulated) A (p : prog A) :
  forall s t a s', R s t -> run h p s = (Done a, s') ->
  (exists t', run g p t = (Done a, t') /\ R s' t') \/
  (exists s1 t1, visits h p s s1 /\ visits g p t t1 /\ R s1 t1 /\ escape s1 t1).
Proof.
  induction p as [A a0|A e|A X o k IH|A B text p IHp k IHk];
    intros s t a s' HR Hrun; cbn in Hrun; try congruence.
  - injection Hrun as -> ->. left. cbn. eauto.
  - destruct (do_op h o s) as [[x|e] s1] eqn:E; [|congruence].
    destruct (Hop X o s t x s1 HR E) as [(t1 & Et & HR1)|Hesc].
    + destruct (IH x s1 t1 a s' HR1 Hrun) as [(t' & Ht' & HR')|(s2 & t2 & Hs2 & Ht2 & HR2 & Hesc)].
      * left. exists t'. cbn. by rewrite Et.
      * right. exists s2, t2. split_and!; [by eapply visit_next|by eapply visit_next|done|done].
    + right. exists s, t. split_and!; [constructor|constructor|done|done].
  - destruct (run h p (do_begin h text s)) as [[b|e] s1] eqn:E; [|congruence].
    destruct (IHp (do_begin h text s) (do_begin g text t) b s1) as [(t1 & Et & HR1)|(s2 & t2 & Hs2 & Ht2 & HR2 & Hesc)];
      [apply Hnotes; done|done| |right; exists s2, t2; split_and!; [by constructor|by constructor|done|done]].
    destruct (IHk b (do_end h text s1) (do_end g text t1) a s') as [(t' & Ht' & HR')|(s2 & t2 & Hs2 & Ht2 & HR2 & Hesc)];
      [by apply Hnotes|done| |].
    + left. exists t'. cbn. by rewrite Et.
    + right. exists s2, t2. split_and!; [by eapply visit_after|by eapply visit_after|done|done].
Qed.
End simulation.

(** ** Wrappers of the state accessor *)

Definition readWord (paddr : Z) : prog Z := Op (ReadWord paddr) Ret.
Definition writeWord (paddr val : Z) : prog unit := Op (WriteWord paddr val) Ret.
Definition readCycle : prog Z := Op ReadCycle Ret.
Definition writeCycle (val : Z) : prog unit := Op (WriteCycle val) Ret.
Definition readHaltFlag : prog bool := Op ReadHaltFlag Ret.
Definition setHaltFlag : prog unit := Op SetHaltFlag Ret.
Definition readPc : prog Z := Op ReadPc Ret.
Definition writePc (val : Z) : prog unit := Op (WritePc val) Ret.
Definition readX (reg : Z) : prog Z := Op (ReadX reg) Ret.
Definition writeX (reg val : Z) : prog unit := Op (WriteX reg val) Ret.
Definition resetState : prog unit := Op ResetState Ret.
Definition throwRuntimeError {A} (message : string) : prog A := Throw (runtime_error message).
Definition putChar (c : Z) : prog unit := Op (PutChar c) Ret.

(** ** Conversions and arithmetic *)

Definition uint64ToInt32 (v : Z) : Z := int32 v.
Definition uint64AddInt32 (v w : Z) : Z := uint64 (v + uint64 w).
Definition uint64SubUint64 (v w : Z) : Z := uint64 (v - w).
Definition uint64AddUint64 (v w : Z) : Z := uint64 (v + w).
Definition uint64ShiftRight (v count : Z) : Z := Z.shiftr v (count &ᵇ 0x3f).
Definition uint64ShiftLeft (v count : Z) : Z := uint64 (Z.shiftl v (count &ᵇ 0x3f)).
Definition int64ShiftRight (v count : Z) : Z := Z.shiftr v (count &ᵇ 0x3f).
Definition int64AddInt64 (v w : Z) : Z := int64 (v + w).
Definition uint32ShiftRight (v count : Z) : Z := Z.shiftr v (count &ᵇ 0x1f).
Definition uint32ShiftLeft (v count : Z) : Z := uint32 (Z.shiftl v (count &ᵇ 0x1f)).
Definition int32ToUint64 (v : Z) : Z := uint64 v.
Definition int32ShiftRight (v count : Z) : Z := Z.shiftr v (count &ᵇ 0x1f).
Definition int32AddInt32 (v w : Z) : Z := int32 (v + w).
Definition int32SubInt32 (v w : Z) : Z := int32 (v - w).
Definition int16ToUint64 (v : Z) : Z := uint64 v.
Definition int8ToUint64 (v : Z) : Z := uint64 v.
(** [31 - __builtin_clz(v)], undefined in the language for [v = 0] *)
Definition uint32Log2 (v : Z) : Z := Z.log2 v.

(** [require] is an [assert]. *)
Definition require (condition : bool) (message : string) : prog unit :=
  if condition then Ret tt else Throw (assertion_failure message).

(** ** Facts of the arithmetic *)

Lemma land_3f v : v &ᵇ 0x3f = v `mod` 64.
Proof. apply (land_ones_mod v 6). lia. Qed.
Lemma land_1f v : v &ᵇ 0x1f = v `mod` 32.
Proof. apply (land_ones_mod v 5). lia. Qed.

Lemma uint64ShiftRight_small v c : 0 <= c < 64 -> uint64ShiftRight v c = Z.shiftr v c.
Proof. intros. unfold uint64ShiftRight. by rewrite land_3f, Z.mod_small. Qed.
Lemma uint64ShiftLeft_small v c : 0 <= c < 64 -> uint64ShiftLeft v c = uint64 (Z.shiftl v c).
Proof. intros. unfold uint64ShiftLeft. by rewrite land_3f, Z.mod_small. Qed.
Lemma uint32ShiftRight_small v c : 0 <= c < 32 -> uint32ShiftRight v c = Z.shiftr v c.
Proof. intros. unfold uint32ShiftRight. by rewrite land_1f, Z.mod_small. Qed.
Lemma uint32ShiftLeft_small v c : 0 <= c < 32 -> uint32ShiftLeft v c = uint32 (Z.shiftl v c).
Proof. intros. unfold uint32ShiftLeft. by rewrite land_1f, Z.mod_small. Qed.
Lemma int32ShiftRight_small v c : 0 <= c < 32 -> int32ShiftRight v c = Z.shiftr v c.
Proof. intros. unfold int32ShiftRight. by rewrite land_1f, Z.mod_small. Qed.

#[export] Hint Rewrite uint64ShiftRight_small uint64ShiftLeft_small uint32ShiftRight_small
  uint32ShiftLeft_small int32ShiftRight_small using lia : cpp_int.
