(* ===== verification/UarchStep.v ===== *)
(** * The microarchitecture interpreter (uarch-step.cpp)

    One definition per function of the file, over the interface of
    UarchAccess.v: the word accesses, the operand decoders, the 53 [execute]
    functions, the decoder [executeInsn] and the entry point [uarch_step]. *)

From S2P Require Import Prelude CppInt Constants UarchAccess.

(** [if (c) { p }] *)
Definition when (c : bool) (p : prog unit) : prog unit := if c then p else mret tt.

(** ** Memory read/write access *)

Definition readUint64 (paddr : Z) : prog Z :=
  _ ← require ((paddr &ᵇ 7) =? 0) "misaligned readUint64 address";
  readWord paddr.

Definition readUint32 (paddr : Z) : prog Z :=
  _ ← require ((paddr &ᵇ 3) =? 0) "misaligned readUint32 address";
  let palign := paddr &ᵇ uint64 (Z.lnot 7) in
  let bitoffset := uint32ShiftLeft (uint32 paddr &ᵇ 7) 3 in
  val64 ← readUint64 palign;
  mret (uint32 (uint64ShiftRight val64 bitoffset)).

Definition readUint16 (paddr : Z) : prog Z :=
  _ ← require ((paddr &ᵇ 1) =? 0) "misaligned readUint16 address";
  let palign := paddr &ᵇ uint64 (Z.lnot 7) in
  let bitoffset := uint32ShiftLeft (uint32 paddr &ᵇ 7) 3 in
  val64 ← readUint64 palign;
  mret (uint16 (uint64ShiftRight val64 bitoffset)).

Definition readUint8 (paddr : Z) : prog Z :=
  let palign := paddr &ᵇ uint64 (Z.lnot 7) in
  let bitoffset := uint32ShiftLeft (uint32 paddr &ᵇ 7) 3 in
  val64 ← readUint64 palign;
  mret (uint8 (uint64ShiftRight val64 bitoffset)).

Definition writeUint64 (paddr val : Z) : prog unit :=
  _ ← require ((paddr &ᵇ 7) =? 0) "misaligned writeUint64 address";
  writeWord paddr val.

(** [copyBits] requires [offset + count <= 64]; the sum is of [uint32]s. *)
Definition copyBits (from count to offset : Z) : prog Z :=
  _ ← require (uint32 (offset + count) <=? 64) "copyBits count exceeds limit of 64";
  let eraseMask := uint64 (uint64ShiftLeft 1 count - 1) in
  let eraseMask := uint64 (Z.lnot (uint64ShiftLeft eraseMask offset)) in
  mret (uint64ShiftLeft from offset |ᵇ (to &ᵇ eraseMask)).

Definition writeUint32 (paddr val : Z) : prog unit :=
  _ ← require ((paddr &ᵇ 3) =? 0) "misaligned writeUint32 address";
  let palign := paddr &ᵇ uint64 (Z.lnot 7) in
  let bitoffset := uint32ShiftLeft (uint32 paddr &ᵇ 7) 3 in
  oldval64 ← readUint64 palign;
  newval64 ← copyBits val 32 oldval64 bitoffset;
  writeUint64 palign newval64.

Definition writeUint16 (paddr val : Z) : prog unit :=
  _ ← require ((paddr &ᵇ 1) =? 0) "misaligned writeUint16 address";
  let palign := paddr &ᵇ uint64 (Z.lnot 7) in
  let bitoffset := uint32ShiftLeft (uint32 paddr &ᵇ 7) 3 in
  oldval64 ← readUint64 palign;
  newval64 ← copyBits val 16 oldval64 bitoffset;
  writeUint64 palign newval64.

Definition writeUint8 (paddr val : Z) : prog unit :=
  let palign := paddr &ᵇ uint64 (Z.lnot 7) in
  let bitoffset := uint32ShiftLeft (uint32 paddr &ᵇ 7) 3 in
  oldval64 ← readUint64 palign;
  newval64 ← copyBits val 8 oldval64 bitoffset;
  writeUint64 palign newval64.

(** ** Instruction operand decoders *)

Definition operandRd (insn : Z) : Z :=
  uint8 (uint32ShiftRight (uint32ShiftLeft insn 20) 27).

Definition operandRs1 (insn : Z) : Z :=
  uint8 (uint32ShiftRight (uint32ShiftLeft insn 12) 27).

Definition operandRs2 (insn : Z) : Z :=
  uint8 (uint32ShiftRight (uint32ShiftLeft insn 7) 27).

Definition operandImm12 (insn : Z) : Z :=
  int32ShiftRight (int32 insn) 20.

Definition operandImm20 (insn : Z) : Z :=
  int32 (uint32ShiftLeft (uint32ShiftRight insn 12) 12).

Definition operandJimm20 (insn : Z) : Z :=
  let a := int32 (uint32ShiftLeft (uint32 (int32ShiftRight (int32 insn) 31)) 20) in
  let b := uint32ShiftLeft (uint32ShiftRight (uint32ShiftLeft insn 1) 22) 1 in
  let c := uint32ShiftLeft (uint32ShiftRight (uint32ShiftLeft insn 11) 31) 11 in
  let d := uint32ShiftLeft (uint32ShiftRight (uint32ShiftLeft insn 12) 24) 12 in
  int32 (uint32 a |ᵇ b |ᵇ c |ᵇ d).

Definition operandShamt5 (insn : Z) : Z :=
  int32 (uint32ShiftRight (uint32ShiftLeft insn 7) 27).

Definition operandShamt6 (insn : Z) : Z :=
  int32 (uint32ShiftRight (uint32ShiftLeft insn 6) 26).

Definition operandSbimm12 (insn : Z) : Z :=
  let a := int32 (uint32ShiftLeft (uint32 (int32ShiftRight (int32 insn) 31)) 12) in
  let b := uint32ShiftLeft (uint32ShiftRight (uint32ShiftLeft insn 1) 26) 5 in
  let c := uint32ShiftLeft (uint32ShiftRight (uint32ShiftLeft insn 20) 28) 1 in
  let d := uint32ShiftLeft (uint32ShiftRight (uint32ShiftLeft insn 24) 31) 11 in
  int32 (uint32 a |ᵇ b |ᵇ c |ᵇ d).

Definition operandSimm12 (insn : Z) : Z :=
  int32 (uint32ShiftLeft (uint32 (int32ShiftRight (int32 insn) 25)) 5
         |ᵇ uint32ShiftRight (uint32ShiftLeft insn 20) 27).

(** ** Execute instruction *)

Definition advancePc (pc : Z) : prog unit :=
  let newPc := uint64AddUint64 pc 4 in
  writePc newPc.

Definition branch (pc : Z) : prog unit := writePc pc.

Definition executeLUI (insn pc : Z) : prog unit :=
  make_scoped_note "lui" (
  let rd := operandRd insn in
  let imm := operandImm20 insn in
  _ ← when (negb (rd =? 0)) (writeX rd (int32ToUint64 imm));
  advancePc pc).

Definition executeAUIPC (insn pc : Z) : prog unit :=
  make_scoped_note "auipc" (
  let imm := operandImm20 insn in
  let rd := operandRd insn in
  _ ← when (negb (rd =? 0)) (writeX rd (uint64AddInt32 pc imm));
  advancePc pc).

Definition executeJAL (insn pc : Z) : prog unit :=
  make_scoped_note "jal" (
  let imm := operandJimm20 insn in
  let rd := operandRd insn in
  _ ← when (negb (rd =? 0)) (writeX rd (uint64AddUint64 pc 4));
  branch (uint64AddInt32 pc imm)).

Definition executeJALR (insn pc : Z) : prog unit :=
  make_scoped_note "jalr" (
  let imm := operandImm12 insn in
  let rd := operandRd insn in
  let rs1 := operandRs1 insn in
  rs1val ← readX rs1;
  _ ← when (negb (rd =? 0)) (writeX rd (uint64AddUint64 pc 4));
  branch ((uint64AddInt32 rs1val imm) &ᵇ (uint64 (Z.lnot (uint64 1))))).

Definition executeBEQ (insn pc : Z) : prog unit :=
  make_scoped_note "beq" (
  let imm := operandSbimm12 insn in
  let rs1 := operandRs1 insn in
  let rs2 := operandRs2 insn in
  rs1val ← readX rs1;
  rs2val ← readX rs2;
  if rs1val =? rs2val then branch (uint64AddInt32 pc imm)
  else advancePc pc).

Definition executeBNE (insn pc : Z) : prog unit :=
  make_scoped_note "bne" (
  let imm := operandSbimm12 insn in
  let rs1 := operandRs1 insn in
  let rs2 := operandRs2 insn in
  rs1val ← readX rs1;
  rs2val ← readX rs2;
  if negb (rs1val =? rs2val) then branch (uint64AddInt32 pc imm)
  else advancePc pc).

Definition executeBLT (insn pc : Z) : prog unit :=
  make_scoped_note "blt" (
  let imm := operandSbimm12 insn in
  let rs1 := operandRs1 insn in
  let rs2 := operandRs2 insn in
  rs1val ← readX rs1;
  let rs1val := int64 rs1val in
  rs2val ← readX rs2;
  let rs2val := int64 rs2val in
  if rs1val <? rs2val then branch (uint64AddInt32 pc imm)
  else advancePc pc).

Definition executeBGE (insn pc : Z) : prog unit :=
  make_scoped_note "bge" (
  let imm := operandSbimm12 insn in
  let rs1 := operandRs1 insn in
  let rs2 := operandRs2 insn in
  rs1val ← readX rs1;
  let rs1val := int64 rs1val in
  rs2val ← readX rs2;
  let rs2val := int64 rs2val in
  if rs2val <=? rs1val then branch (uint64AddInt32 pc imm)
  else advancePc pc).

Definition executeBLTU (insn pc : Z) : prog unit :=
  make_scoped_note "bltu" (
  let imm := operandSbimm12 insn in
  let rs1 := operandRs1 insn in
  let rs2 := operandRs2 insn in
  rs1val ← readX rs1;
  rs2val ← readX rs2;
  if rs1val <? rs2val then branch (uint64AddInt32 pc imm)
  else advancePc pc).

Definition executeBGEU (insn pc : Z) : prog unit :=
  make_scoped_note "bgeu" (
  let imm := operandSbimm12 insn in
  let rs1 := operandRs1 insn in
  let rs2 := operandRs2 insn in
  rs1val ← readX rs1;
  rs2val ← readX rs2;
  if rs2val <=? rs1val then branch (uint64AddInt32 pc imm)
  else advancePc pc).

Definition executeLB (insn pc : Z) : prog unit :=
  make_scoped_note "lb" (
  let imm := operandImm12 insn in
  let rd := operandRd insn in
  let rs1 := operandRs1 insn in
  rs1val ← readX rs1;
  i8 ← readUint8 (uint64AddInt32 rs1val imm);
  let i8 := int8 i8 in
  _ ← when (negb (rd =? 0)) (writeX rd (int8ToUint64 i8));
  advancePc pc).

Definition executeLHU (insn pc : Z) : prog unit :=
  make_scoped_note "lhu" (
  let imm := operandImm12 insn in
  let rd := operandRd insn in
  let rs1 := operandRs1 insn in
  rs1val ← readX rs1;
  u16 ← readUint16 (uint64AddInt32 rs1val imm);
  _ ← when (negb (rd =? 0)) (writeX rd u16);
  advancePc pc).

Definition executeLH (insn pc : Z) : prog unit :=
  make_scoped_note "lh" (
  let imm := operandImm12 insn in
  let rd := operandRd insn in
  let rs1 := operandRs1 insn in
  rs1val ← readX rs1;
  i16 ← readUint16 (uint64AddInt32 rs1val imm);
  let i16 := int16 i16 in
  _ ← when (negb (rd =? 0)) (writeX rd (int16ToUint64 i16));
  advancePc pc).

Definition executeLW (insn pc : Z) : prog unit :=
  make_scoped_note "lw" (
  let imm := operandImm12 insn in
  let rd := operandRd insn in
  let rs1 := operandRs1 insn in
  rs1val ← readX rs1;
  i32 ← readUint32 (uint64AddInt32 rs1val imm);
  let i32 := int32 i32 in
  _ ← when (negb (rd =? 0)) (writeX rd (int32ToUint64 i32));
  advancePc pc).

Definition executeLBU (insn pc : Z) : prog unit :=
  make_scoped_note "lbu" (
  let imm := operandImm12 insn in
  let rd := operandRd insn in
  let rs1 := operandRs1 insn in
  rs1val ← readX rs1;
  u8 ← readUint8 (uint64AddInt32 rs1val imm);
  _ ← when (negb (rd =? 0)) (writeX rd u8);
  advancePc pc).

Definition executeSB (insn pc : Z) : prog unit :=
  make_scoped_note "sb" (
  let imm := operandSimm12 insn in
  let rs1 := operandRs1 insn in
  let rs2 := operandRs2 insn in
  rs1val ← readX rs1;
  rs2val ← readX rs2;
  _ ← writeUint8 (uint64AddInt32 rs1val imm) (uint8 rs2val);
  advancePc pc).

Definition executeSH (insn pc : Z) : prog unit :=
  make_scoped_note "sh" (
  let imm := operandSimm12 insn in
  let rs1 := operandRs1 insn in
  let rs2 := operandRs2 insn in
  rs1val ← readX rs1;
  rs2val ← readX rs2;
  _ ← writeUint16 (uint64AddInt32 rs1val imm) (uint16 rs2val);
  advancePc pc).

Definition executeSW (insn pc : Z) : prog unit :=
  make_scoped_note "sw" (
  let imm := operandSimm12 insn in
  let rs1 := operandRs1 insn in
  let rs2 := operandRs2 insn in
  rs1val ← readX rs1;
  rs2val ← readX rs2;
  let rs2val := uint32 rs2val in
  _ ← writeUint32 (uint64AddInt32 rs1val imm) rs2val;
  advancePc pc).

Definition executeADDI (insn pc : Z) : prog unit :=
  make_scoped_note "addi" (
  let imm := operandImm12 insn in
  let rd := operandRd insn in
  let rs1 := operandRs1 insn in
  _ ← when (negb (rd =? 0)) (
    rs1val ← readX rs1;
    let val := int64AddInt64 (int64 rs1val) (int64 imm) in
    writeX rd (uint64 val)
  );
  advancePc pc).

Definition executeADDIW (insn pc : Z) : prog unit :=
  make_scoped_note "addiw" (
  let imm := operandImm12 insn in
  let rd := operandRd insn in
  let rs1 := operandRs1 insn in
  rs1val ← readX rs1;
  let rs1val := uint64ToInt32 rs1val in
  _ ← when (negb (rd =? 0)) (
    let val := int32AddInt32 rs1val imm in
    writeX rd (int32ToUint64 val)
  );
  advancePc pc).

Definition executeSLTI (insn pc : Z) : prog unit :=
  make_scoped_note "slti" (
  let imm := operandImm12 insn in
  let rd := operandRd insn in
  let rs1 := operandRs1 insn in
  _ ← when (negb (rd =? 0)) (
    rs1val ← readX rs1;
    if int64 rs1val <? imm then writeX rd 1 else writeX rd 0
  );
  advancePc pc).

Definition executeSLTIU (insn pc : Z) : prog unit :=
  make_scoped_note "sltiu" (
  let imm := operandImm12 insn in
  let rd := operandRd insn in
  let rs1 := operandRs1 insn in
  _ ← when (negb (rd =? 0)) (
    rs1val ← readX rs1;
    if rs1val <? int32ToUint64 imm then writeX rd 1 else writeX rd 0
  );
  advancePc pc).

Definition executeXORI (insn pc : Z) : prog unit :=
  make_scoped_note "xori" (
  let imm := operandImm12 insn in
  let rd := operandRd insn in
  let rs1 := operandRs1 insn in
  _ ← when (negb (rd =? 0)) (
    rs1val ← readX rs1;
    writeX rd (rs1val ^ᵇ (int32ToUint64 imm))
  );
  advancePc pc).

Definition executeORI (insn pc : Z) : prog unit :=
  make_scoped_note "ori" (
  let imm := operandImm12 insn in
  let rd := operandRd insn in
  let rs1 := operandRs1 insn in
  _ ← when (negb (rd =? 0)) (
    rs1val ← readX rs1;
    writeX rd (rs1val |ᵇ (int32ToUint64 imm))
  );
  advancePc pc).

Definition executeANDI (insn pc : Z) : prog unit :=
  make_scoped_note "andi" (
  let imm := operandImm12 insn in
  let rd := operandRd insn in
  let rs1 := operandRs1 insn in
  _ ← when (negb (rd =? 0)) (
    rs1val ← readX rs1;
    writeX rd (rs1val &ᵇ (int32ToUint64 imm))
  );
  advancePc pc).

Definition executeSLLI (insn pc : Z) : prog unit :=
  make_scoped_note "slli" (
  let imm := operandShamt6 insn in
  let rd := operandRd insn in
  let rs1 := operandRs1 insn in
  _ ← when (negb (rd =? 0)) (
    rs1val ← readX rs1;
    writeX rd (uint64ShiftLeft rs1val (uint32 imm))
  );
  advancePc pc).

Definition executeSLLIW (insn pc : Z) : prog unit :=
  make_scoped_note "slliw" (
  let imm := operandShamt5 insn in
  let rd := operandRd insn in
  let rs1 := operandRs1 insn in
  rs1val ← readX rs1;
  let rs1val := uint32 rs1val in
  _ ← when (negb (rd =? 0)) (writeX rd (int32ToUint64 (int32 (uint32ShiftLeft rs1val (uint32 imm)))));
  advancePc pc).

Definition executeSRLI (insn pc : Z) : prog unit :=
  make_scoped_note "srli" (
  let imm := operandShamt6 insn in
  let rd := operandRd insn in
  let rs1 := operandRs1 insn in
  _ ← when (negb (rd =? 0)) (
    rs1val ← readX rs1;
    writeX rd (uint64ShiftRight rs1val (uint32 imm))
  );
  advancePc pc).

Definition executeSRLW (insn pc : Z) : prog unit :=
  make_scoped_note "srlw" (
  let rd := operandRd insn in
  let rs1 := operandRs1 insn in
  let rs2 := operandRs2 insn in
  rs1val ← readX rs1;
  let rs1val := uint32 rs1val in
  rs2val ← readX rs2;
  let rs2val := uint32 rs2val in
  let rdval := int32 (uint32ShiftRight rs1val rs2val) in
  _ ← when (negb (rd =? 0)) (writeX rd (int32ToUint64 rdval));
  advancePc pc).

Definition executeSRLIW (insn pc : Z) : prog unit :=
  make_scoped_note "srliw" (
  let imm := operandShamt5 insn in
  let rd := operandRd insn in
  let rs1 := operandRs1 insn in
  rs1val ← readX rs1;
  let rs1val := uint32 rs1val in
  let rdval := int32 (uint32ShiftRight rs1val (uint32 imm)) in
  _ ← when (negb (rd =? 0)) (writeX rd (int32ToUint64 rdval));
  advancePc pc).

Definition executeSRAI (insn pc : Z) : prog unit :=
  make_scoped_note "srai" (
  let imm := operandShamt6 insn in
  let rd := operandRd insn in
  let rs1 := operandRs1 insn in
  _ ← when (negb (rd =? 0)) (
    rs1val ← readX rs1;
    writeX rd (uint64 (int64ShiftRight (int64 rs1val) (uint32 imm)))
  );
  advancePc pc).

Definition executeSRAIW (insn pc : Z) : prog unit :=
  make_scoped_note "sraiw" (
  let imm := operandShamt5 insn in
  let rd := operandRd insn in
  let rs1 := operandRs1 insn in
  rs1val ← readX rs1;
  let rs1val := uint64ToInt32 rs1val in
  _ ← when (negb (rd =? 0)) (writeX rd (int32ToUint64 (int32ShiftRight rs1val (uint32 imm))));
  advancePc pc).

Definition executeADD (insn pc : Z) : prog unit :=
  make_scoped_note "add" (
  let rd := operandRd insn in
  let rs1 := operandRs1 insn in
  let rs2 := operandRs2 insn in
  _ ← when (negb (rd =? 0)) (
    rs1val ← readX rs1;
    rs2val ← readX rs2;
    writeX rd (uint64AddUint64 rs1val rs2val)
  );
  advancePc pc).

Definition executeADDW (insn pc : Z) : prog unit :=
  make_scoped_note "addw" (
  let rd := operandRd insn in
  let rs1 := operandRs1 insn in
  let rs2 := operandRs2 insn in
  rs1val ← readX rs1;
  let rs1val := uint64ToInt32 rs1val in
  rs2val ← readX rs2;
  let rs2val := uint64ToInt32 rs2val in
  _ ← when (negb (rd =? 0)) (
    let val := int32AddInt32 rs1val rs2val in
    writeX rd (int32ToUint64 val)
  );
  advancePc pc).

Definition executeSUB (insn pc : Z) : prog unit :=
  make_scoped_note "sub" (
  let rd := operandRd insn in
  let rs1 := operandRs1 insn in
  let rs2 := operandRs2 insn in
  _ ← when (negb (rd =? 0)) (
    rs1val ← readX rs1;
    rs2val ← readX rs2;
    writeX rd (uint64SubUint64 rs1val rs2val)
  );
  advancePc pc).

Definition executeSUBW (insn pc : Z) : prog unit :=
  make_scoped_note "subw" (
  let rd := operandRd insn in
  let rs1 := operandRs1 insn in
  let rs2 := operandRs2 insn in
  rs1val ← readX rs1;
  let rs1val := uint64ToInt32 rs1val in
  rs2val ← readX rs2;
  let rs2val := uint64ToInt32 rs2val in
  _ ← when (negb (rd =? 0)) (
    let val := int32SubInt32 rs1val rs2val in
    writeX rd (int32ToUint64 val)
  );
  advancePc pc).

Definition executeSLL (insn pc : Z) : prog unit :=
  make_scoped_note "sll" (
  let rd := operandRd insn in
  let rs1 := operandRs1 insn in
  let rs2 := operandRs2 insn in
  _ ← when (negb (rd =? 0)) (
    rs1val ← readX rs1;
    rs2val ← readX rs2;
    let rs2val := uint32 rs2val in
    writeX rd (uint64ShiftLeft rs1val rs2val)
  );
  advancePc pc).

Definition executeSLLW (insn pc : Z) : prog unit :=
  make_scoped_note "sllw" (
  let rd := operandRd insn in
  let rs1 := operandRs1 insn in
  let rs2 := operandRs2 insn in
  rs1val ← readX rs1;
  let rs1val := uint32 rs1val in
  rs2val ← readX rs2;
  let rs2val := uint32 rs2val in
  let rdval := int32 (uint32ShiftLeft rs1val rs2val) in
  _ ← when (negb (rd =? 0)) (writeX rd (int32ToUint64 rdval));
  advancePc pc).

Definition executeSLT (insn pc : Z) : prog unit :=
  make_scoped_note "slt" (
  let rd := operandRd insn in
  let rs1 := operandRs1 insn in
  let rs2 := operandRs2 insn in
  _ ← when (negb (rd =? 0)) (
    rs1val ← readX rs1;
    let rs1val := int64 rs1val in
    rs2val ← readX rs2;
    let rs2val := int64 rs2val in
    let rdval := 0 in
    let rdval := if rs1val <? rs2val then 1 else rdval in
    writeX rd rdval
  );
  advancePc pc).

Definition executeSLTU (insn pc : Z) : prog unit :=
  make_scoped_note "sltu" (
  let rd := operandRd insn in
  let rs1 := operandRs1 insn in
  let rs2 := operandRs2 insn in
  _ ← when (negb (rd =? 0)) (
    rs1val ← readX rs1;
    rs2val ← readX rs2;
    let rdval := 0 in
    let rdval := if rs1val <? rs2val then 1 else rdval in
    writeX rd rdval
  );
  advancePc pc).

Definition executeXOR (insn pc : Z) : prog unit :=
  make_scoped_note "xor" (
  let rd := operandRd insn in
  let rs1 := operandRs1 insn in
  let rs2 := operandRs2 insn in
  _ ← when (negb (rd =? 0)) (
    rs1val ← readX rs1;
    rs2val ← readX rs2;
    writeX rd (rs1val ^ᵇ rs2val)
  );
  advancePc pc).

Definition executeSRL (insn pc : Z) : prog unit :=
  make_scoped_note "srl" (
  let rd := operandRd insn in
  let rs1 := operandRs1 insn in
  let rs2 := operandRs2 insn in
  _ ← when (negb (rd =? 0)) (
    rs1val ← readX rs1;
    rs2val ← readX rs2;
    writeX rd (uint64ShiftRight rs1val (uint32 rs2val))
  );
  advancePc pc).

Definition executeSRA (insn pc : Z) : prog unit :=
  make_scoped_note "sra" (
  let rd := operandRd insn in
  let rs1 := operandRs1 insn in
  let rs2 := operandRs2 insn in
  _ ← when (negb (rd =? 0)) (
    rs1val ← readX rs1;
    let rs1val := int64 rs1val in
    rs2val ← readX rs2;
    let rs2val := uint32 rs2val in
    writeX rd (uint64 (int64ShiftRight rs1val rs2val))
  );
  advancePc pc).

Definition executeSRAW (insn pc : Z) : prog unit :=
  make_scoped_note "sraw" (
  let rd := operandRd insn in
  let rs1 := operandRs1 insn in
  let rs2 := operandRs2 insn in
  rs1val ← readX rs1;
  let rs1val := uint64ToInt32 rs1val in
  rs2val ← readX rs2;
  let rs2val := uint32 rs2val in
  let rdval := int32ShiftRight rs1val rs2val in
  _ ← when (negb (rd =? 0)) (writeX rd (int32ToUint64 rdval));
  advancePc pc).

Definition executeOR (insn pc : Z) : prog unit :=
  make_scoped_note "or" (
  let rd := operandRd insn in
  let rs1 := operandRs1 insn in
  let rs2 := operandRs2 insn in
  _ ← when (negb (rd =? 0)) (
    rs1val ← readX rs1;
    rs2val ← readX rs2;
    writeX rd (rs1val |ᵇ rs2val)
  );
  advancePc pc).

Definition executeAND (insn pc : Z) : prog unit :=
  make_scoped_note "and" (
  let rd := operandRd insn in
  let rs1 := operandRs1 insn in
  let rs2 := operandRs2 insn in
  _ ← when (negb (rd =? 0)) (
    rs1val ← readX rs1;
    rs2val ← readX rs2;
    writeX rd (rs1val &ᵇ rs2val)
  );
  advancePc pc).

Definition executeFENCE (pc : Z) : prog unit :=
  make_scoped_note "fence" (
  advancePc pc).

Definition executeLWU (insn pc : Z) : prog unit :=
  make_scoped_note "lwu" (
  let imm := operandImm12 insn in
  let rd := operandRd insn in
  let rs1 := operandRs1 insn in
  rs1val ← readX rs1;
  u32 ← readUint32 (uint64AddInt32 rs1val imm);
  _ ← when (negb (rd =? 0)) (writeX rd u32);
  advancePc pc).

Definition executeLD (insn pc : Z) : prog unit :=
  make_scoped_note "ld" (
  let imm := operandImm12 insn in
  let rd := operandRd insn in
  let rs1 := operandRs1 insn in
  rs1val ← readX rs1;
  u64 ← readUint64 (uint64AddInt32 rs1val imm);
  _ ← when (negb (rd =? 0)) (writeX rd u64);
  advancePc pc).

Definition executeSD (insn pc : Z) : prog unit :=
  make_scoped_note "sd" (
  let imm := operandSimm12 insn in
  let rs1 := operandRs1 insn in
  let rs2 := operandRs2 insn in
  rs1val ← readX rs1;
  rs2val ← readX rs2;
  _ ← writeUint64 (uint64AddInt32 rs1val imm) rs2val;
  advancePc pc).

Definition executeECALL (pc : Z) : prog unit :=
  make_scoped_note "ecall" (
  fn ← readX 17;
  if fn =? UARCH_ECALL_FN_HALT then setHaltFlag else
  _ ← (if fn =? UARCH_ECALL_FN_PUTCHAR then
         character ← readX 16;
         putChar (uint8 character)
       else throwRuntimeError "unsupported ecall function");
  advancePc pc).

Definition executeEBREAK : prog unit :=
  make_scoped_note "ebreak" (
  throwRuntimeError "uarch aborted").

(** ** Decoding *)

Definition insnMatchOpcode (insn opcode : Z) : bool :=
  (insn &ᵇ 0x7f) =? opcode.

Definition insnMatchOpcodeFunct3 (insn opcode funct3 : Z) : bool :=
  let mask := Z.shiftl 7 12 |ᵇ 0x7f in
  (insn &ᵇ mask) =? (uint32ShiftLeft funct3 12 |ᵇ opcode).

Definition insnMatchOpcodeFunct3Funct7 (insn opcode funct3 funct7 : Z) : bool :=
  let mask := uint32 (Z.shiftl 0x7f 25) |ᵇ Z.shiftl 7 12 |ᵇ 0x7f in
  (insn &ᵇ mask) =? (uint32ShiftLeft funct7 25 |ᵇ uint32ShiftLeft funct3 12 |ᵇ opcode).

Definition insnMatchOpcodeFunct3Funct7Sr1 (insn opcode funct3 funct7Sr1 : Z) : bool :=
  let mask := uint32 (Z.shiftl 0x3f 26) |ᵇ Z.shiftl 7 12 |ᵇ 0x7f in
  (insn &ᵇ mask) =? (uint32ShiftLeft funct7Sr1 26 |ᵇ uint32ShiftLeft funct3 12 |ᵇ opcode).

Definition executeInsn (insn pc : Z) : prog unit :=
  if insnMatchOpcodeFunct3 insn 0x13 0x0 then executeADDI insn pc else
  if insnMatchOpcodeFunct3 insn 0x3 0x3 then executeLD insn pc else
  if insnMatchOpcodeFunct3 insn 0x63 0x6 then executeBLTU insn pc else
  if insnMatchOpcodeFunct3 insn 0x63 0x0 then executeBEQ insn pc else
  if insnMatchOpcodeFunct3 insn 0x13 0x7 then executeANDI insn pc else
  if insnMatchOpcodeFunct3Funct7 insn 0x33 0x0 0x0 then executeADD insn pc else
  if insnMatchOpcode insn 0x6f then executeJAL insn pc else
  if insnMatchOpcodeFunct3Funct7Sr1 insn 0x13 0x1 0x0 then executeSLLI insn pc else
  if insnMatchOpcodeFunct3Funct7 insn 0x33 0x7 0x0 then executeAND insn pc else
  if insnMatchOpcodeFunct3 insn 0x23 0x3 then executeSD insn pc else
  if insnMatchOpcode insn 0x37 then executeLUI insn pc else
  if insnMatchOpcodeFunct3 insn 0x67 0x0 then executeJALR insn pc else
  if insnMatchOpcodeFunct3 insn 0x1b 0x0 then executeADDIW insn pc else
  if insnMatchOpcodeFunct3Funct7Sr1 insn 0x13 0x5 0x0 then executeSRLI insn pc else
  if insnMatchOpcodeFunct3Funct7 insn 0x1b 0x5 0x0 then executeSRLIW insn pc else
  if insnMatchOpcodeFunct3 insn 0x63 0x1 then executeBNE insn pc else
  if insnMatchOpcodeFunct3 insn 0x3 0x2 then executeLW insn pc else
  if insnMatchOpcode insn 0x17 then executeAUIPC insn pc else
  if insnMatchOpcodeFunct3 insn 0x63 0x7 then executeBGEU insn pc else
  if insnMatchOpcodeFunct3Funct7 insn 0x3b 0x0 0x0 then executeADDW insn pc else
  if insnMatchOpcodeFunct3Funct7Sr1 insn 0x13 0x5 0x10 then executeSRAI insn pc else
  if insnMatchOpcodeFunct3Funct7 insn 0x33 0x6 0x0 then executeOR insn pc else
  if insnMatchOpcodeFunct3Funct7 insn 0x1b 0x5 0x20 then executeSRAIW insn pc else
  if insnMatchOpcodeFunct3 insn 0x63 0x5 then executeBGE insn pc else
  if insnMatchOpcodeFunct3Funct7 insn 0x33 0x0 0x20 then executeSUB insn pc else
  if insnMatchOpcodeFunct3 insn 0x3 0x4 then executeLBU insn pc else
  if insnMatchOpcodeFunct3Funct7 insn 0x1b 0x1 0x0 then executeSLLIW insn pc else
  if insnMatchOpcodeFunct3Funct7 insn 0x33 0x5 0x0 then executeSRL insn pc else
  if insnMatchOpcodeFunct3Funct7 insn 0x33 0x4 0x0 then executeXOR insn pc else
  if insnMatchOpcodeFunct3 insn 0x23 0x2 then executeSW insn pc else
  if insnMatchOpcodeFunct3Funct7 insn 0x33 0x1 0x0 then executeSLL insn pc else
  if insnMatchOpcodeFunct3 insn 0x63 0x4 then executeBLT insn pc else
  if insnMatchOpcodeFunct3 insn 0x23 0x0 then executeSB insn pc else
  if insnMatchOpcodeFunct3Funct7 insn 0x3b 0x0 0x20 then executeSUBW insn pc else
  if insnMatchOpcodeFunct3 insn 0x13 0x4 then executeXORI insn pc else
  if insnMatchOpcodeFunct3Funct7 insn 0x33 0x5 0x20 then executeSRA insn pc else
  if insnMatchOpcodeFunct3 insn 0x3 0x5 then executeLHU insn pc else
  if insnMatchOpcodeFunct3 insn 0x23 0x1 then executeSH insn pc else
  if insnMatchOpcodeFunct3Funct7 insn 0x3b 0x5 0x0 then executeSRLW insn pc else
  if insnMatchOpcodeFunct3 insn 0x3 0x6 then executeLWU insn pc else
  if insnMatchOpcodeFunct3Funct7 insn 0x3b 0x1 0x0 then executeSLLW insn pc else
  if insnMatchOpcodeFunct3 insn 0x3 0x0 then executeLB insn pc else
  if insnMatchOpcodeFunct3Funct7 insn 0x33 0x3 0x0 then executeSLTU insn pc else
  if insnMatchOpcodeFunct3Funct7 insn 0x3b 0x5 0x20 then executeSRAW insn pc else
  if insnMatchOpcodeFunct3 insn 0x3 0x1 then executeLH insn pc else
  if insnMatchOpcodeFunct3 insn 0x13 0x6 then executeORI insn pc else
  if insnMatchOpcodeFunct3 insn 0x13 0x3 then executeSLTIU insn pc else
  if insnMatchOpcodeFunct3Funct7 insn 0x33 0x2 0x0 then executeSLT insn pc else
  if insnMatchOpcodeFunct3 insn 0x13 0x2 then executeSLTI insn pc else
  if insnMatchOpcodeFunct3 insn 0xf 0x0 then executeFENCE pc else
  if insn =? (uint32 0x73) then executeECALL pc else
  if insn =? (uint32 0x100073) then executeEBREAK else
  throwRuntimeError "illegal instruction".

(** ** One step *)

Definition uarch_step : prog UArchStepStatus :=
  cycle ← readCycle;
  if cycle =? UINT64_MAX then mret CycleOverflow else
  halt ← readHaltFlag;
  if (halt : bool) then mret UArchHalted else
  pc ← readPc;
  insn ← readUint32 pc;
  _ ← executeInsn insn pc;
  let cycle := uint64 (cycle + 1) in
  _ ← writeCycle cycle;
  mret Success.

(** uarch-reset-state.cpp *)
Definition uarch_reset_state : prog unit := resetState.
