(* ===== verification/UarchTyped.v ===== *)
(** * Programs whose values have the types of the code

    The numbers of the model are those of the code when they are in the range of
    its types.  [typed] follows a program and collects what it must establish: the
    words it passes to the methods are in range and aligned, given that those it
    gets back are, and it calls at most as many methods as its budget allows.
    The microarchitecture makes at most twelve accesses in a step. *)

From S2P Require Import Prelude CppInt Constants UarchAccess UarchStep.

(** What the types of the arguments ensure, and those of the results; the reset is
    not of the programs of a step. *)
Definition word_address (a : Z) : Prop := is_uint 64 a /\ a mod 8 = 0.

Definition op_typed {A} (o : uop A) : Prop :=
  match o with
  | WriteX _ v | WritePc v | WriteCycle v => is_uint 64 v
  | ReadWord a => word_address a
  | WriteWord a v => word_address a /\ is_uint 64 v
  | ResetState => False
  | _ => True
  end.

Definition result_typed {A} (o : uop A) : A -> Prop :=
  match o in uop A return A -> Prop with
  | ReadX _ | ReadPc | ReadCycle | ReadWord _ => is_uint 64
  | _ => fun _ => True
  end.

(** The program keeps its promises within [n] calls and ends with a result and the
    calls that are left as [Q] asks. *)
Fixpoint typed {A} (p : prog A) : nat -> (nat -> A -> Prop) -> Prop :=
  match p in prog A return nat -> (nat -> A -> Prop) -> Prop with
  | Ret a => fun n Q => Q n a
  | Throw _ => fun _ _ => True
  | Op o k => fun n Q =>
      match n with
      | O => False
      | S n => op_typed o /\ forall x, result_typed o x -> typed (k x) n Q
      end
  | Scoped _ p k => fun n Q => typed p n (fun n b => typed (k b) n Q)
  end.

Lemma typed_weaken {A} (p : prog A) n (P Q : nat -> A -> Prop) :
  (forall n a, P n a -> Q n a) -> typed p n P -> typed p n Q.
Proof.
  revert n P Q. induction p as [A a|A e|A X o k IH|A B text p IHp k IHk]; intros n P Q HPQ; cbn [typed]; [by apply HPQ|done| |].
  - destruct n as [|n]; [done|]. intros [Ho Hk]. split; [done|]. intros x Hx. eapply IH; [exact HPQ|]. by apply Hk.
  - apply IHp. intros m b. by apply IHk.
Qed.

Lemma typed_bind {A B} (p : prog A) (f : A -> prog B) n Q :
  typed (p ≫= f) n Q <-> typed p n (fun n a => typed (f a) n Q).
Proof.
  unfold mbind, prog_bind. revert n. induction p as [A a|A e|A X o k IH|A C text p _ k IH]; intros n; cbn [bind typed]; [done|done| |].
  - destruct n as [|n]; [done|]. split; intros [Ho Hk]; (split; [done|]); intros x Hx; by apply IH, Hk.
  - split; apply typed_weaken; intros m c; by apply IH.
Qed.

(** ** Ranges *)

Lemma uint64_of w z : 0 <= w <= 64 -> is_uint 64 (uint w z).
Proof. intros Hw. apply (uint_mono w); [done|]. apply uint_range. lia. Qed.

Lemma shift_right_range v c : is_uint 64 v -> is_uint 64 (uint64ShiftRight v c).
Proof. intros Hv. unfold uint64ShiftRight. apply shiftr_uint; [lia| |done]. rewrite land_3f. apply Z.mod_pos_bound. lia. Qed.

Lemma aligned_down a : is_uint 64 a -> word_address (a &ᵇ uint64 (Z.lnot 7)).
Proof.
  intros Ha. split; [by apply land_uint|]. rewrite land_not_uint by (done || lia). change 7 with (2 ^ 3 - 1).
  rewrite ldiff_low by lia. change (2 ^ 3) with 8. rewrite Z.mul_comm. by apply Z.mod_mul.
Qed.

Lemma aligned_checked a : is_uint 64 a -> (a &ᵇ 7 =? 0) = true -> word_address a.
Proof. intros Ha Hc. split; [done|]. change 7 with (2 ^ 3 - 1) in Hc. rewrite land_ones_mod in Hc by lia. by apply Z.eqb_eq in Hc. Qed.

Create HintDb typed.
#[export] Hint Resolve uint64_of shift_right_range land_uint lor_uint lxor_uint aligned_down aligned_checked : typed.
#[export] Hint Extern 1 (_ <= _) => lia : typed.
#[export] Hint Extern 1 (_ <= _ <= _) => lia : typed.
#[export] Hint Extern 1 (is_uint _ (uint64AddInt32 _ _)) => apply uint64_of; lia : typed.
#[export] Hint Extern 1 (is_uint _ (uint64AddUint64 _ _)) => apply uint64_of; lia : typed.
#[export] Hint Extern 1 (is_uint _ (uint64SubUint64 _ _)) => apply uint64_of; lia : typed.
#[export] Hint Extern 1 (is_uint _ (uint64ShiftLeft _ _)) => apply uint64_of; lia : typed.
#[export] Hint Extern 1 (is_uint _ (int32ToUint64 _)) => apply uint64_of; lia : typed.
#[export] Hint Extern 1 (is_uint _ (int16ToUint64 _)) => apply uint64_of; lia : typed.
#[export] Hint Extern 1 (is_uint _ (int8ToUint64 _)) => apply uint64_of; lia : typed.
#[export] Hint Extern 1 (is_uint _ 0) => unfold is_uint; lia : typed.
#[export] Hint Extern 1 (is_uint _ 1) => unfold is_uint; lia : typed.

(** ** Memory *)

Lemma typed_require c msg n Q : (c = true -> Q n tt) -> typed (require c msg) n Q.
Proof. intros HQ. unfold require. destruct c; [by apply HQ|done]. Qed.

Lemma typed_readUint64 a n Q :
  is_uint 64 a -> (forall v, is_uint 64 v -> Q n v) -> typed (readUint64 a) (S n) Q.
Proof.
  intros Ha HQ. unfold readUint64. rewrite typed_bind. apply typed_require. intros Hal. cbn. split; [by apply aligned_checked|done].
Qed.

Lemma typed_writeUint64 a v n Q :
  is_uint 64 a -> is_uint 64 v -> Q n tt -> typed (writeUint64 a v) (S n) Q.
Proof.
  intros Ha Hv HQ. unfold writeUint64. rewrite typed_bind. apply typed_require. intros Hal. cbn.
  split; [split; [by apply aligned_checked|done]|]. by intros [] _.
Qed.

Lemma typed_copyBits from count to offset n Q :
  is_uint 64 to -> (forall v, is_uint 64 v -> Q n v) -> typed (copyBits from count to offset) n Q.
Proof. intros Ht HQ. unfold copyBits. rewrite typed_bind. apply typed_require. intros _. apply HQ. eauto with typed. Qed.

Ltac typed_memory :=
  repeat first
    [ rewrite typed_bind
    | apply typed_require; intros _
    | apply typed_readUint64; [eauto with typed|intros ? ?]
    | apply typed_copyBits; [eauto with typed|intros ? ?]
    | apply typed_writeUint64; [eauto with typed|eauto with typed|] ].

Section memory.
Context (a : Z) (Ha : is_uint 64 a) (n : nat).

#[local] Hint Extern 1 (is_uint 64 (_ &ᵇ uint64 (Z.lnot 7))) => apply aligned_down : typed.

Lemma typed_readUint32 Q : (forall v, is_uint 64 v -> Q n v) -> typed (readUint32 a) (S n) Q.
Proof. intros HQ. unfold readUint32. typed_memory. apply HQ. eauto with typed. Qed.
Lemma typed_readUint16 Q : (forall v, is_uint 64 v -> Q n v) -> typed (readUint16 a) (S n) Q.
Proof. intros HQ. unfold readUint16. typed_memory. apply HQ. eauto with typed. Qed.
Lemma typed_readUint8 Q : (forall v, is_uint 64 v -> Q n v) -> typed (readUint8 a) (S n) Q.
Proof. intros HQ. unfold readUint8. typed_memory. apply HQ. eauto with typed. Qed.

Lemma typed_writeUint32 v Q : Q n tt -> typed (writeUint32 a v) (S (S n)) Q.
Proof. intros HQ. unfold writeUint32. by typed_memory. Qed.
Lemma typed_writeUint16 v Q : Q n tt -> typed (writeUint16 a v) (S (S n)) Q.
Proof. intros HQ. unfold writeUint16. by typed_memory. Qed.
Lemma typed_writeUint8 v Q : Q n tt -> typed (writeUint8 a v) (S (S n)) Q.
Proof. intros HQ. unfold writeUint8. by typed_memory. Qed.
End memory.

(** ** Instructions *)

Lemma typed_readX r n Q : (forall v, is_uint 64 v -> Q n v) -> typed (readX r) (S n) Q.
Proof. done. Qed.
Lemma typed_writeX r v n Q : is_uint 64 v -> Q n tt -> typed (writeX r v) (S n) Q.
Proof. intros Hv HQ. split; [done|]. by intros [] _. Qed.
Lemma typed_writePc v n Q : is_uint 64 v -> Q n tt -> typed (writePc v) (S n) Q.
Proof. intros Hv HQ. split; [done|]. by intros [] _. Qed.
Lemma typed_setHaltFlag n (Q : nat -> unit -> Prop) : Q n tt -> typed setHaltFlag (S n) Q.
Proof. intros HQ. split; [done|]. by intros [] _. Qed.
Lemma typed_putChar c n (Q : nat -> unit -> Prop) : Q n tt -> typed (putChar c) (S n) Q.
Proof. intros HQ. split; [done|]. by intros [] _. Qed.
Lemma typed_when c p n Q : (c = true -> typed p n Q) -> (c = false -> Q n tt) -> typed (when c p) n Q.
Proof. unfold when. destruct c; intros Hp Hq; [by apply Hp|by apply Hq]. Qed.
Lemma typed_note {A} text (p : prog A) n Q : typed p n Q -> typed (make_scoped_note text p) n Q.
Proof. done. Qed.
Lemma typed_branch (c : bool) n (Q : nat -> unit -> Prop) (p q : prog unit) : typed p n Q -> typed q n Q -> typed (if c then p else q) n Q.
Proof. by destruct c. Qed.

#[local] Hint Extern 1 (is_uint _ (if _ then _ else _)) => case_match : typed.
#[local] Hint Extern 1 (is_uint _ (operandJimm20 _)) => unfold operandJimm20 : typed.

(** One call at the head of a program *)
Ltac typed_call :=
  lazymatch goal with
  | |- typed (_ ≫= _) _ _ => rewrite typed_bind
  | |- typed (make_scoped_note _ _) _ _ => apply typed_note
  | |- typed (when _ _) _ _ => apply typed_when; intros _
  | |- typed (if _ then _ else _) _ _ => apply typed_branch
  | |- typed (advancePc _) _ _ => apply typed_writePc; [eauto with typed|]
  | |- typed (branch _) _ _ => apply typed_writePc; [eauto with typed|]
  | |- typed (readX _) _ _ => apply typed_readX; intros ? ?
  | |- typed (writeX _ _) _ _ => apply typed_writeX; [eauto 8 with typed|]
  | |- typed setHaltFlag _ _ => apply typed_setHaltFlag
  | |- typed (putChar _) _ _ => apply typed_putChar
  | |- typed (throwRuntimeError _) _ _ => exact I
  | |- typed (readUint64 _) _ _ => apply typed_readUint64; [eauto with typed|intros ? ?]
  | |- typed (readUint32 _) _ _ => apply typed_readUint32; [eauto with typed|intros ? ?]
  | |- typed (readUint16 _) _ _ => apply typed_readUint16; [eauto with typed|intros ? ?]
  | |- typed (readUint8 _) _ _ => apply typed_readUint8; [eauto with typed|intros ? ?]
  | |- typed (writeUint64 _ _) _ _ => apply typed_writeUint64; [eauto with typed|eauto with typed|]
  | |- typed (writeUint32 _ _) _ _ => apply typed_writeUint32; [eauto with typed|]
  | |- typed (writeUint16 _ _) _ _ => apply typed_writeUint16; [eauto with typed|]
  | |- typed (writeUint8 _ _) _ _ => apply typed_writeUint8; [eauto with typed|]
  end.

Ltac typed_program := repeat (typed_call; cbv beta zeta).

Lemma executeInsn_typed insn pc (Q : nat -> unit -> Prop) :
  is_uint 64 pc -> (forall n, (1 <= n)%nat -> Q n tt) -> typed (executeInsn insn pc) 8 Q.
Proof.
  intros Hpc HQ. unfold executeInsn. repeat match goal with |- typed (if _ then _ else _) _ _ => apply typed_branch end.
  all: unfold executeLUI, executeAUIPC, executeJAL, executeJALR, executeBEQ, executeBNE, executeBLT, executeBGE, executeBLTU, executeBGEU, executeLB, executeLHU, executeLH, executeLW, executeLBU, executeSB, executeSH, executeSW, executeADDI, executeADDIW, executeSLTI, executeSLTIU, executeXORI, executeORI, executeANDI, executeSLLI, executeSLLIW, executeSRLI, executeSRLW, executeSRLIW, executeSRAI, executeSRAIW, executeADD, executeADDW, executeSUB, executeSUBW, executeSLL, executeSLLW, executeSLT, executeSLTU, executeXOR, executeSRL, executeSRA, executeSRAW, executeOR, executeAND, executeFENCE, executeLWU, executeLD, executeSD, executeECALL, executeEBREAK.
  all: cbv zeta; typed_program; try (apply HQ; lia).
Qed.

Lemma uarch_step_typed : typed uarch_step 12 (fun _ _ => True).
Proof.
  unfold uarch_step, readCycle, readHaltFlag, readPc, writeCycle. rewrite typed_bind. split; [done|]. intros cycle Hc. cbn [result_typed] in Hc.
  cbn [typed]. destruct (cycle =? UINT64_MAX); [done|]. rewrite typed_bind. split; [done|]. intros [] _; [done|].
  cbn [typed]. rewrite typed_bind. split; [done|]. intros pc Hpc. cbn [typed]. rewrite typed_bind.
  apply typed_readUint32; [done|]. intros insn Hi. rewrite typed_bind. apply (typed_weaken _ 8 (fun n _ => (1 <= n)%nat)).
  - intros [|n] a Hn; [lia|]. rewrite typed_bind. split; [apply uint64_of; lia|]. done.
  - apply (executeInsn_typed insn pc); [done|]. done.
Qed.
