(* ===== verification/Bytes.v ===== *)
(** * Little-endian byte sequences

    Words in memory as lists of bytes, the way [aliased_aligned_read] and
    [aliased_aligned_write] (strict-aliasing.h) see host memory. *)

From S2P Require Import Prelude CppInt.

Fixpoint le_bytes (n : nat) (z : Z) : list Z :=
  match n with
  | O => []
  | S n => z `mod` 256 :: le_bytes n (z `div` 256)
  end.

Fixpoint le_val (l : list Z) : Z :=
  match l with
  | [] => 0
  | b :: l => b + 256 * le_val l
  end.

Definition is_byte (b : Z) : Prop := is_uint 8 b.

Lemma length_le_bytes n z : length (le_bytes n z) = n.
Proof. revert z. induction n; intros z; cbn; auto. Qed.

Lemma le_bytes_bytes n z : Forall is_byte (le_bytes n z).
Proof.
  revert z. induction n as [|n IH]; intros z; cbn; constructor; [|apply IH].
  apply (uint_range 8 z). lia.
Qed.

Lemma pow256 n : 2 ^ (8 * Z.of_nat (S n)) = 256 * 2 ^ (8 * Z.of_nat n).
Proof. replace (8 * Z.of_nat (S n)) with (8 + 8 * Z.of_nat n) by lia. rewrite Z.pow_add_r by lia. done. Qed.

Lemma le_val_le_bytes n z : le_val (le_bytes n z) = uint (8 * Z.of_nat n) z.
Proof.
  revert z. unfold uint. induction n as [|n IH]; intros z.
  - cbn. by rewrite Z.mod_1_r.
  - cbn [le_val le_bytes]. rewrite IH, pow256, Z.rem_mul_r; lia.
Qed.

Lemma le_val_range l : Forall is_byte l -> is_uint (8 * Z.of_nat (length l)) (le_val l).
Proof.
  unfold is_byte, is_uint. induction 1 as [|b l Hb _ IH]; [cbn; lia|].
  cbn [le_val length]. rewrite pow256. lia.
Qed.

Lemma le_bytes_le_val l : Forall is_byte l -> le_bytes (length l) (le_val l) = l.
Proof.
  unfold is_byte, is_uint. induction 1 as [|b l Hb _ IH]; [done|]. cbn [le_val length le_bytes].
  rewrite (Z.mul_comm 256), Z.mod_add, Z.div_add, (Z.mod_small b), (Z.div_small b) by lia.
  by rewrite Z.add_0_l, IH.
Qed.

Lemma le_bytes_inj n a b :
  is_uint (8 * Z.of_nat n) a -> is_uint (8 * Z.of_nat n) b -> le_bytes n a = le_bytes n b -> a = b.
Proof.
  intros Ha Hb E. rewrite <- (uint_id _ a Ha), <- (uint_id _ b Hb).
  by rewrite <- !le_val_le_bytes, E.
Qed.

Lemma le_val_app l k : le_val (l ++ k) = le_val l + 2 ^ (8 * Z.of_nat (length l)) * le_val k.
Proof.
  induction l as [|b l IH]; [by cbn -[Z.mul]; rewrite Z.mul_1_l|].
  cbn [le_val app length]. rewrite IH, pow256. lia.
Qed.

Lemma drop_le_bytes k n z :
  drop k (le_bytes n z) = le_bytes (n - k) (z `div` 2 ^ (8 * Z.of_nat k)).
Proof.
  revert n z. induction k as [|k IH]; intros n z.
  - change (8 * Z.of_nat 0) with 0. by rewrite Z.pow_0_r, Z.div_1_r, Nat.sub_0_r.
  - destruct n as [|n]; [done|]. cbn [drop le_bytes]. rewrite IH. cbn [Nat.sub].
    f_equal. 
    rewrite pow256, Z.div_div by (pose proof (pow2_pos (8 * Z.of_nat k) ltac:(lia)); lia).
    done.
Qed.

Lemma take_le_bytes k n z : (k <= n)%nat -> take k (le_bytes n z) = le_bytes k z.
Proof.
  revert n z. induction k as [|k IH]; intros n z H; [done|].
  destruct n as [|n]; [lia|]. cbn. rewrite IH; [done|lia].
Qed.

(** The [n] bytes at offset [k] of a word are a bit field of the word. *)
Lemma le_val_field k n w z :
  (k + n <= w)%nat ->
  le_val (take n (drop k (le_bytes w z))) = uint (8 * Z.of_nat n) (z `div` 2 ^ (8 * Z.of_nat k)).
Proof. intros. by rewrite drop_le_bytes, take_le_bytes, le_val_le_bytes by lia. Qed.

(** Overwriting [n] bytes at offset [k] of a sequence *)
Definition splice (k : nat) (new old : list Z) : list Z :=
  take k old ++ new ++ drop (k + length new) old.

Lemma length_splice k new old :
  (k + length new <= length old)%nat -> length (splice k new old) = length old.
Proof. intros. unfold splice. rewrite !length_app, length_take, length_drop. lia. Qed.

Lemma splice_bytes k new old :
  Forall is_byte new -> Forall is_byte old -> Forall is_byte (splice k new old).
Proof. intros. unfold splice. rewrite !Forall_app. auto using Forall_take, Forall_drop. Qed.

Lemma splice_read k new old :
  (k + length new <= length old)%nat -> take (length new) (drop k (splice k new old)) = new.
Proof.
  intros. unfold splice. rewrite drop_app_length'; [|rewrite length_take; lia].
  by rewrite take_app_length.
Qed.

(** A read that does not overlap the written bytes is not affected. *)
Lemma splice_read_ne k j n new old :
  (k + length new <= length old)%nat ->
  (j + n <= k \/ k + length new <= j)%nat ->
  take n (drop j (splice k new old)) = take n (drop j old).
Proof.
  intros Hk Hj. apply list_eq. intros i.
  destruct (decide (i < n)%nat); [|by rewrite !lookup_take_ge by lia].
  rewrite !lookup_take_lt, !lookup_drop by lia. unfold splice.
  destruct Hj.
  - rewrite lookup_app_l by (rewrite length_take; lia). by rewrite lookup_take_lt by lia.
  - rewrite !lookup_app_r by (rewrite ?length_take; lia).
    rewrite lookup_drop, !length_take. f_equal. lia.
Qed.

Lemma le_val_splice k v n z w :
  (k + n <= w)%nat ->
  le_val (splice k (le_bytes n v) (le_bytes w z)) =
  uint (8 * Z.of_nat k) z + 2 ^ (8 * Z.of_nat k) * uint (8 * Z.of_nat n) v
  + 2 ^ (8 * Z.of_nat (k + n)) * uint (8 * Z.of_nat (w - (k + n))) (z `div` 2 ^ (8 * Z.of_nat (k + n))).
Proof.
  intros. unfold splice.
  rewrite !le_val_app, take_le_bytes, drop_le_bytes, !le_val_le_bytes, !length_le_bytes by lia.
  replace (2 ^ (8 * Z.of_nat (k + n))) with (2 ^ (8 * Z.of_nat k) * 2 ^ (8 * Z.of_nat n));
    [lia|].
  rewrite <- Z.pow_add_r by lia. f_equal. lia.
Qed.

#[global] Arguments le_bytes : simpl never.
#[global] Arguments le_val : simpl never.
#[global] Arguments splice : simpl never.
