(* ===== verification/RV64IM.v ===== *)
(** * The RV64I and M specification

    What the microarchitecture promises, written from the RISC-V unprivileged
    ISA and not from the code: the instruction formats as bit fields, the
    instructions as an abstract syntax, and their effect on an architectural
    state.  UarchRefine.v proves that the interpreter implements it.

    The M extension is specified the same way: the division by zero and the
    overflow of the signed division have results of their own and do not trap.
    The interpreter of the machine implements both (RV64Correct.v). *)

From S2P Require Import Prelude CppInt Constants UarchAccess Bytes.

(** ** Memory, as far as the specification relies on it *)

(** A memory of 64-bit words.  Loads and stores of words may fail, with an
    exception that is part of the observable behaviour. *)
Class WordMem (M : Type) := {
  mem_load : M -> Z -> outcome Z;
  mem_store : M -> Z -> Z -> outcome M;
  (** loads the pristine image into the memory of the microarchitecture *)
  mem_reset : M -> outcome M;
}.

(** What the interpreter relies on: a word is a word. *)
Class WordMemLaws (M : Type) `{WordMem M} (valid : M -> Prop) := {
  mem_load_range m a w : valid m -> mem_load m a = Done w -> is_uint 64 w;
  mem_store_valid m a v m' : valid m -> is_uint 64 v -> mem_store m a v = Done m' -> valid m';
  mem_reset_valid m m' : valid m -> mem_reset m = Done m' -> valid m';
}.

(** What programs rely on: a word loaded after a store is the stored word at the
    address stored to and the old one at every other aligned address. *)
Class WordMemStore (M : Type) `{WordMem M} (valid : M -> Prop) := {
  mem_load_store m a v m' :
    valid m -> is_uint 64 a -> is_uint 64 v -> a `mod` 8 = 0 ->
    mem_store m a v = Done m' -> mem_load m' a = Done v;
  mem_load_store_ne m a b v m' :
    valid m -> is_uint 64 a -> is_uint 64 b -> is_uint 64 v ->
    a `mod` 8 = 0 -> b `mod` 8 = 0 -> a <> b ->
    mem_store m a v = Done m' -> mem_load m' b = mem_load m b;
}.

(** ** Instructions *)

Inductive width := W8 | W16 | W32 | W64.
Inductive alu_op := ADD | SUB | SLL | SLT | SLTU | XOR | SRL | SRA | OR | AND.
Inductive cond := EQ | NE | LT | GE | LTU | GEU.

Inductive instr :=
  | Lui (rd imm : Z)
  | Auipc (rd imm : Z)
  | Jal (rd imm : Z)
  | Jalr (rd rs1 imm : Z)
  | Branch (c : cond) (rs1 rs2 imm : Z)
  | Load (w : width) (sign : bool) (rd rs1 imm : Z)
  | Store (w : width) (rs1 rs2 imm : Z)
  | OpImm (op : alu_op) (rd rs1 imm : Z)
  | OpImmW (op : alu_op) (rd rs1 imm : Z)
  | OpReg (op : alu_op) (rd rs1 rs2 : Z)
  | OpRegW (op : alu_op) (rd rs1 rs2 : Z)
  | Fence
  | Ecall
  | Ebreak.

#[export] Instance width_eq_dec : EqDecision width.
Proof. solve_decision. Defined.
#[export] Instance alu_op_eq_dec : EqDecision alu_op.
Proof. solve_decision. Defined.
#[export] Instance cond_eq_dec : EqDecision cond.
Proof. solve_decision. Defined.
#[export] Instance instr_eq_dec : EqDecision instr.
Proof. solve_decision. Defined.

(** *** Formats: bits [lo, lo + n) of an instruction word *)

Definition field (insn lo n : Z) : Z := (insn `div` 2 ^ lo) `mod` 2 ^ n.

Definition opcode (insn : Z) : Z := field insn 0 7.
Definition funct3 (insn : Z) : Z := field insn 12 3.
Definition funct7 (insn : Z) : Z := field insn 25 7.
Definition rd (insn : Z) : Z := field insn 7 5.
Definition rs1 (insn : Z) : Z := field insn 15 5.
Definition rs2 (insn : Z) : Z := field insn 20 5.
Definition shamt5 (insn : Z) : Z := field insn 20 5.
Definition shamt6 (insn : Z) : Z := field insn 20 6.

Definition imm_I (insn : Z) : Z := sint 12 (field insn 20 12).
Definition imm_S (insn : Z) : Z := sint 12 (field insn 25 7 * 2 ^ 5 + field insn 7 5).
Definition imm_B (insn : Z) : Z :=
  sint 13 (field insn 31 1 * 2 ^ 12 + field insn 7 1 * 2 ^ 11
           + field insn 25 6 * 2 ^ 5 + field insn 8 4 * 2).
Definition imm_U (insn : Z) : Z := sint 32 (field insn 12 20 * 2 ^ 12).
Definition imm_J (insn : Z) : Z :=
  sint 21 (field insn 31 1 * 2 ^ 20 + field insn 12 8 * 2 ^ 12
           + field insn 20 1 * 2 ^ 11 + field insn 21 10 * 2).

(** *** Decoding *)

Definition decode_load (f3 : Z) : option (width * bool) :=
  match f3 with
  | 0 => Some (W8, true) | 1 => Some (W16, true) | 2 => Some (W32, true)
  | 3 => Some (W64, false)
  | 4 => Some (W8, false) | 5 => Some (W16, false) | 6 => Some (W32, false)
  | _ => None
  end.

Definition decode_store (f3 : Z) : option width :=
  match f3 with 0 => Some W8 | 1 => Some W16 | 2 => Some W32 | 3 => Some W64 | _ => None end.

Definition decode_branch (f3 : Z) : option cond :=
  match f3 with
  | 0 => Some EQ | 1 => Some NE | 4 => Some LT | 5 => Some GE | 6 => Some LTU | 7 => Some GEU
  | _ => None
  end.

(** Immediate operations; the shifts have a 6-bit amount, so only the upper six
    bits of [funct7] select the operation. *)
Definition decode_op_imm (f3 f7 : Z) : option alu_op :=
  match f3 with
  | 0 => Some ADD | 2 => Some SLT | 3 => Some SLTU | 4 => Some XOR | 6 => Some OR | 7 => Some AND
  | 1 => if f7 `div` 2 =? 0 then Some SLL else None
  | 5 => if f7 `div` 2 =? 0 then Some SRL else if f7 `div` 2 =? 16 then Some SRA else None
  | _ => None
  end.

Definition decode_op_imm_w (f3 f7 : Z) : option alu_op :=
  match f3 with
  | 0 => Some ADD
  | 1 => if f7 =? 0 then Some SLL else None
  | 5 => if f7 =? 0 then Some SRL else if f7 =? 32 then Some SRA else None
  | _ => None
  end.

Definition decode_op (f3 f7 : Z) : option alu_op :=
  if f7 =? 0 then
    match f3 with
    | 0 => Some ADD | 1 => Some SLL | 2 => Some SLT | 3 => Some SLTU
    | 4 => Some XOR | 5 => Some SRL | 6 => Some OR | 7 => Some AND | _ => None
    end
  else if f7 =? 32 then
    match f3 with 0 => Some SUB | 5 => Some SRA | _ => None end
  else None.

Definition decode_op_w (f3 f7 : Z) : option alu_op :=
  if f7 =? 0 then
    match f3 with 0 => Some ADD | 1 => Some SLL | 5 => Some SRL | _ => None end
  else if f7 =? 32 then
    match f3 with 0 => Some SUB | 5 => Some SRA | _ => None end
  else None.

Definition is_shift (op : alu_op) : bool :=
  match op with SLL | SRL | SRA => true | _ => false end.

Definition decode (insn : Z) : option instr :=
  let o := opcode insn in
  let f3 := funct3 insn in
  let f7 := funct7 insn in
  if o =? 0x37 then Some (Lui (rd insn) (imm_U insn))
  else if o =? 0x17 then Some (Auipc (rd insn) (imm_U insn))
  else if o =? 0x6f then Some (Jal (rd insn) (imm_J insn))
  else if o =? 0x67 then
    if f3 =? 0 then Some (Jalr (rd insn) (rs1 insn) (imm_I insn)) else None
  else if o =? 0x63 then
    c ← decode_branch f3; Some (Branch c (rs1 insn) (rs2 insn) (imm_B insn))
  else if o =? 0x03 then
    '(w, sign) ← decode_load f3; Some (Load w sign (rd insn) (rs1 insn) (imm_I insn))
  else if o =? 0x23 then
    w ← decode_store f3; Some (Store w (rs1 insn) (rs2 insn) (imm_S insn))
  else if o =? 0x13 then
    op ← decode_op_imm f3 f7;
    Some (OpImm op (rd insn) (rs1 insn) (if is_shift op then shamt6 insn else imm_I insn))
  else if o =? 0x1b then
    op ← decode_op_imm_w f3 f7;
    Some (OpImmW op (rd insn) (rs1 insn) (if is_shift op then shamt5 insn else imm_I insn))
  else if o =? 0x33 then op ← decode_op f3 f7; Some (OpReg op (rd insn) (rs1 insn) (rs2 insn))
  else if o =? 0x3b then op ← decode_op_w f3 f7; Some (OpRegW op (rd insn) (rs1 insn) (rs2 insn))
  else if o =? 0x0f then if f3 =? 0 then Some Fence else None
  else if insn =? 0x73 then Some Ecall
  else if insn =? 0x100073 then Some Ebreak
  else None.

(** ** Arithmetic *)

Definition b2z (b : bool) : Z := if b then 1 else 0.

(** 64-bit operations on unsigned register values *)
Definition alu64 (op : alu_op) (a b : Z) : Z :=
  match op with
  | ADD => uint64 (a + b)
  | SUB => uint64 (a - b)
  | SLL => uint64 (a * 2 ^ (b `mod` 64))
  | SLT => b2z (int64 a <? int64 b)
  | SLTU => b2z (a <? b)
  | XOR => Z.lxor a b
  | SRL => a `div` 2 ^ (b `mod` 64)
  | SRA => uint64 (int64 a `div` 2 ^ (b `mod` 64))
  | OR => Z.lor a b
  | AND => Z.land a b
  end.

(** 32-bit operations: on the low words, sign-extended to 64 bits *)
Definition alu32 (op : alu_op) (a b : Z) : Z :=
  uint64 (int32 match op with
    | ADD => a + b
    | SUB => a - b
    | SLL => uint32 a * 2 ^ (b `mod` 32)
    | SRL => uint32 a `div` 2 ^ (b `mod` 32)
    | SRA => int32 a `div` 2 ^ (b `mod` 32)
    | _ => 0
    end).

Definition eval_cond (c : cond) (a b : Z) : bool :=
  match c with
  | EQ => a =? b
  | NE => negb (a =? b)
  | LT => int64 a <? int64 b
  | GE => int64 b <=? int64 a
  | LTU => a <? b
  | GEU => b <=? a
  end.

(** ** Architectural state *)

Record rv_state (M : Type) := RvState {
  rv_x : list Z;
  rv_pc : Z;
  rv_cycle : Z;
  rv_halt : bool;
  rv_mem : M;
  rv_console : list Z;
}.
Arguments RvState {M}.
Arguments rv_x {M}. Arguments rv_pc {M}. Arguments rv_cycle {M}.
Arguments rv_halt {M}. Arguments rv_mem {M}. Arguments rv_console {M}.

Section semantics.
Context {M : Type} `{WordMem M}.
Implicit Types s : rv_state M.

Definition set_x (l : list Z) s := RvState l (rv_pc s) (rv_cycle s) (rv_halt s) (rv_mem s) (rv_console s).
Definition set_pc (v : Z) s := RvState (rv_x s) v (rv_cycle s) (rv_halt s) (rv_mem s) (rv_console s).
Definition set_cycle (v : Z) s := RvState (rv_x s) (rv_pc s) v (rv_halt s) (rv_mem s) (rv_console s).
Definition set_halt (b : bool) s := RvState (rv_x s) (rv_pc s) (rv_cycle s) b (rv_mem s) (rv_console s).
Definition set_mem (m : M) s := RvState (rv_x s) (rv_pc s) (rv_cycle s) (rv_halt s) m (rv_console s).
Definition print (c : Z) s := RvState (rv_x s) (rv_pc s) (rv_cycle s) (rv_halt s) (rv_mem s) (rv_console s ++ [c]).

Definition reg s (r : Z) : Z := nth (Z.to_nat r) (rv_x s) 0.
Definition set_reg (r v : Z) s : rv_state M :=
  if r =? 0 then s else set_x (<[Z.to_nat r := v]> (rv_x s)) s.

Definition nbytes (w : width) : nat := match w with W8 => 1 | W16 => 2 | W32 => 4 | W64 => 8 end.

Definition misaligned (verb : string) (w : width) : exn :=
  assertion_failure
    ("misaligned " +:+ verb +:+
     match w with W8 => "Uint8" | W16 => "Uint16" | W32 => "Uint32" | W64 => "Uint64" end +:+ " address").

(** Aligned loads and stores of 1, 2, 4 or 8 bytes; misaligned ones fail. *)
Definition load (w : width) s (a : Z) : outcome Z :=
  let n := nbytes w in
  if negb (a `mod` Z.of_nat n =? 0) then Exn (misaligned "read" w) else
  word ← mem_load (rv_mem s) (8 * (a `div` 8));
  mret (le_val (take n (drop (Z.to_nat (a `mod` 8)) (le_bytes 8 word)))).

(** A store of less than a word loads the word, replaces its bytes and stores
    it: both accesses may fail. *)
Definition store (w : width) s (a v : Z) : outcome (rv_state M) :=
  let n := nbytes w in
  if negb (a `mod` Z.of_nat n =? 0) then Exn (misaligned "write" w) else
  match w with
  | W64 => m ← mem_store (rv_mem s) a v; mret (set_mem m s)
  | _ =>
      word ← mem_load (rv_mem s) (8 * (a `div` 8));
      m ← mem_store (rv_mem s) (8 * (a `div` 8))
            (le_val (splice (Z.to_nat (a `mod` 8)) (le_bytes n v) (le_bytes 8 word)));
      mret (set_mem m s)
  end.

Definition next s : rv_state M := set_pc (uint64 (rv_pc s + 4)) s.

Definition width_bits (w : width) : Z := 8 * Z.of_nat (nbytes w).

(** The effect of an instruction at [rv_pc s] *)
Definition exec (i : instr) s : outcome (rv_state M) :=
  let pc := rv_pc s in
  match i with
  | Lui rd imm => mret (next (set_reg rd (uint64 imm) s))
  | Auipc rd imm => mret (next (set_reg rd (uint64 (pc + imm)) s))
  | Jal rd imm => mret (set_pc (uint64 (pc + imm)) (set_reg rd (uint64 (pc + 4)) s))
  | Jalr rd rs1 imm =>
      let target := uint64 (reg s rs1 + imm) in
      mret (set_pc (target - target `mod` 2) (set_reg rd (uint64 (pc + 4)) s))
  | Branch c rs1 rs2 imm =>
      mret (if eval_cond c (reg s rs1) (reg s rs2) then set_pc (uint64 (pc + imm)) s else next s)
  | Load w sign rd rs1 imm =>
      v ← load w s (uint64 (reg s rs1 + imm));
      mret (next (set_reg rd (if (sign : bool) then uint64 (sint (width_bits w) v) else v) s))
  | Store w rs1 rs2 imm =>
      s' ← store w s (uint64 (reg s rs1 + imm)) (uint (width_bits w) (reg s rs2));
      mret (next s')
  | OpImm op rd rs1 imm => mret (next (set_reg rd (alu64 op (reg s rs1) (uint64 imm)) s))
  | OpImmW op rd rs1 imm => mret (next (set_reg rd (alu32 op (reg s rs1) imm) s))
  | OpReg op rd rs1 rs2 => mret (next (set_reg rd (alu64 op (reg s rs1) (reg s rs2)) s))
  | OpRegW op rd rs1 rs2 => mret (next (set_reg rd (alu32 op (reg s rs1) (reg s rs2)) s))
  | Fence => mret (next s)
  | Ecall =>
      if reg s 17 =? 1 then mret (set_halt true s)
      else if reg s 17 =? 2 then mret (next (print (uint8 (reg s 16)) s))
      else Exn (runtime_error "unsupported ecall function")
  | Ebreak => Exn (runtime_error "uarch aborted")
  end.

(** One step: fetch, decode, execute, count the cycle. *)
Definition fetch_exec s : outcome (rv_state M) :=
  insn ← load W32 s (rv_pc s);
  match decode insn with
  | Some i => s' ← exec i s; mret (set_cycle (uint64 (rv_cycle s + 1)) s')
  | None => Exn (runtime_error "illegal instruction")
  end.

(** One call of the interpreter: at a fixed point nothing happens; otherwise an
    instruction is executed, and an exception leaves the state as it was. *)
Definition rv_step s : outcome UArchStepStatus * rv_state M :=
  if rv_cycle s =? UINT64_MAX then (Done CycleOverflow, s)
  else if rv_halt s then (Done UArchHalted, s)
  else match fetch_exec s with
       | Done s' => (Done Success, s')
       | Exn e => (Exn e, s)
       end.

Definition wf s : Prop :=
  length (rv_x s) = 32%nat /\ Forall (is_uint 64) (rv_x s) /\ reg s 0 = 0 /\
  is_uint 64 (rv_pc s) /\ is_uint 64 (rv_cycle s).

(** The registers of a pristine microarchitecture; [x[0]] is not touched. *)
Definition reset_regs s : rv_state M :=
  RvState (take 1 (rv_x s) ++ replicate 31 UARCH_X_INIT) UARCH_PC_INIT UARCH_CYCLE_INIT false
    (rv_mem s) (rv_console s).

(** ** The specification as a state access class *)

Definition undefined {X} (what : string) s : outcome X * rv_state M :=
  (Exn (undefined_behaviour what), s).

Definition rv_op {X} (o : uop X) : rv_state M -> outcome X * rv_state M :=
  match o in uop X return rv_state M -> outcome X * rv_state M with
  | ReadX r => fun s =>
      if bool_decide (0 <= r < 32) then (Done (reg s r), s) else undefined "x" s
  | WriteX r v => fun s =>
      if r =? 0 then (Exn (assertion_failure "reg != 0"), s)
      else if bool_decide (0 <= r < 32) then (Done tt, set_reg r v s) else undefined "x" s
  | ReadPc => fun s => (Done (rv_pc s), s)
  | WritePc v => fun s => (Done tt, set_pc v s)
  | ReadCycle => fun s => (Done (rv_cycle s), s)
  | WriteCycle v => fun s => (Done tt, set_cycle v s)
  | ReadHaltFlag => fun s => (Done (rv_halt s), s)
  | SetHaltFlag => fun s => (Done tt, set_halt true s)
  | ResetHaltFlag => fun s => (Done tt, set_halt false s)
  | ReadWord a => fun s => (mem_load (rv_mem s) a, s)
  | WriteWord a v => fun s =>
      match mem_store (rv_mem s) a v with
      | Done m => (Done tt, set_mem m s)
      | Exn e => (Exn e, s)
      end
  | ResetState => fun s =>
      let s' := reset_regs s in
      match mem_reset (rv_mem s) with
      | Done m => (Done tt, set_mem m s')
      | Exn e => (Exn e, s')
      end
  | PutChar c => fun s => (Done tt, print c s)
  end.

Definition rv_handler : access_handler (rv_state M) := {|
  do_op := @rv_op;
  do_begin := fun _ s => s;
  do_end := fun _ s => s;
|}.

Lemma rv_silent : silent rv_handler.
Proof. done. Qed.
End semantics.

Inductive mul_op := MUL | MULH | MULHSU | MULHU | DIV | DIVU | REM | REMU.

(** An instruction of RV64IM: a base one, or a multiplication or division on
    double words ([word = false]) or words *)
Inductive im_instr :=
  | Base (i : instr)
  | MulDiv (op : mul_op) (word : bool) (rd rs1 rs2 : Z).

#[export] Instance mul_op_eq_dec : EqDecision mul_op.
Proof. solve_decision. Defined.
#[export] Instance im_instr_eq_dec : EqDecision im_instr.
Proof. solve_decision. Defined.

(** *** Decoding *)

Definition decode_mul (f3 : Z) : option mul_op :=
  match f3 with
  | 0 => Some MUL | 1 => Some MULH | 2 => Some MULHSU | 3 => Some MULHU
  | 4 => Some DIV | 5 => Some DIVU | 6 => Some REM | 7 => Some REMU
  | _ => None
  end.

(** The upper halves of products of words need no instruction. *)
Definition decode_mul_w (f3 : Z) : option mul_op :=
  match f3 with
  | 0 => Some MUL | 4 => Some DIV | 5 => Some DIVU | 6 => Some REM | 7 => Some REMU
  | _ => None
  end.

Definition decode_m (insn : Z) : option im_instr :=
  if negb (funct7 insn =? 1) then None
  else if opcode insn =? 0x33 then
    op ← decode_mul (funct3 insn); Some (MulDiv op false (rd insn) (rs1 insn) (rs2 insn))
  else if opcode insn =? 0x3b then
    op ← decode_mul_w (funct3 insn); Some (MulDiv op true (rd insn) (rs1 insn) (rs2 insn))
  else None.

Definition decode_im (insn : Z) : option im_instr :=
  match decode insn with Some i => Some (Base i) | None => decode_m insn end.

(** *** Arithmetic *)

Definition mul64 (op : mul_op) (a b : Z) : Z :=
  match op with
  | MUL => uint64 (a * b)
  | MULH => uint64 ((int64 a * int64 b) `div` 2 ^ 64)
  | MULHSU => uint64 ((int64 a * b) `div` 2 ^ 64)
  | MULHU => (a * b) `div` 2 ^ 64
  | DIV => if b =? 0 then 2 ^ 64 - 1 else uint64 (Z.quot (int64 a) (int64 b))
  | DIVU => if b =? 0 then 2 ^ 64 - 1 else a `div` b
  | REM => if b =? 0 then a else uint64 (Z.rem (int64 a) (int64 b))
  | REMU => if b =? 0 then a else a `mod` b
  end.

(** On the low words, the result sign-extended *)
Definition mul32 (op : mul_op) (a b : Z) : Z :=
  uint64 (int32 match op with
    | DIV => if uint32 b =? 0 then -1 else Z.quot (int32 a) (int32 b)
    | DIVU => if uint32 b =? 0 then -1 else uint32 a `div` uint32 b
    | REM => if uint32 b =? 0 then a else Z.rem (int32 a) (int32 b)
    | REMU => if uint32 b =? 0 then a else uint32 a `mod` uint32 b
    | _ => a * b
    end).

Section semantics.
Context {M : Type} `{WordMem M}.

Definition exec_im (i : im_instr) (s : rv_state M) : outcome (rv_state M) :=
  match i with
  | Base i => exec i s
  | MulDiv op word rd rs1 rs2 =>
      let f := if (word : bool) then mul32 op else mul64 op in
      mret (next (set_reg rd (f (reg s rs1) (reg s rs2)) s))
  end.
End semantics.
