(* ===== verification/UarchOps.v ===== *)
(** * The operations of the microarchitecture

    The pieces of uarch-step.cpp against the specification.  The shifts compute
    the fields and the immediates of the RISC-V instruction formats, and the
    chain of tests of [executeInsn] is the decoder.  The word-based accesses
    (mask, shift and [copyBits]) are the byte loads and stores.  The expressions
    the [execute] functions write to the destination register are the operations
    of the specification. *)

From S2P Require Import Prelude CppInt Constants UarchAccess UarchStep Bytes RV64IM.

Lemma field_range insn lo n : 0 <= n -> 0 <= field insn lo n < 2 ^ n.
Proof. intros. apply Z.mod_pos_bound, pow2_pos. done. Qed.

Lemma field_top insn lo n :
  0 <= lo -> 0 <= n -> is_uint (lo + n) insn -> field insn lo n = insn `div` 2 ^ lo.
Proof.
  unfold is_uint, field. intros Hlo Hn Hi. pose proof (pow2_pos lo Hlo).
  apply Z.mod_small. split; [apply Z.div_pos; lia|].
  apply Z.div_lt_upper_bound; [lia|]. rewrite <- Z.pow_add_r by lia. lia.
Qed.

(** Shifting left by [l] and right by [r] selects a field. *)
Lemma shift_pair_field insn l r :
  0 <= l <= r -> r < 32 -> 0 <= l ->
  uint32ShiftRight (uint32ShiftLeft insn l) r = field insn (r - l) (32 - r).
Proof.
  intros. rewrite uint32ShiftRight_small, uint32ShiftLeft_small by lia.
  by rewrite shl_shr_field by lia.
Qed.

(** The or of fields, most significant first *)
Lemma lor_rotate a b c d : (a |ᵇ b |ᵇ c |ᵇ d) = (a |ᵇ d |ᵇ b |ᵇ c).
Proof.
  apply Z.bits_inj_iff'. intros i _. rewrite !Z.lor_spec.
  by destruct (Z.testbit a i), (Z.testbit b i), (Z.testbit c i), (Z.testbit d i).
Qed.
Lemma lor_reverse a b c d : (a |ᵇ b |ᵇ c |ᵇ d) = (a |ᵇ d |ᵇ c |ᵇ b).
Proof. by rewrite lor_rotate, <- Z.lor_assoc, (Z.lor_comm b), Z.lor_assoc. Qed.

Section decoders.
Context (insn : Z) (Hinsn : is_uint 32 insn).

Lemma operandRd_spec : operandRd insn = rd insn.
Proof.
  unfold operandRd, rd. rewrite shift_pair_field by lia. apply uint_id.
  apply (uint_mono 5); [lia|]. apply field_range. lia.
Qed.
Lemma operandRs1_spec : operandRs1 insn = rs1 insn.
Proof.
  unfold operandRs1, rs1. rewrite shift_pair_field by lia. apply uint_id.
  apply (uint_mono 5); [lia|]. apply field_range. lia.
Qed.
Lemma operandRs2_spec : operandRs2 insn = rs2 insn.
Proof.
  unfold operandRs2, rs2. rewrite shift_pair_field by lia. apply uint_id.
  apply (uint_mono 5); [lia|]. apply field_range. lia.
Qed.

Lemma operandShamt5_spec : operandShamt5 insn = shamt5 insn.
Proof.
  unfold operandShamt5, shamt5. rewrite shift_pair_field by lia.
  apply sint_id; [lia|]. pose proof (field_range insn 20 5). unfold is_sint. lia.
Qed.
Lemma operandShamt6_spec : operandShamt6 insn = shamt6 insn.
Proof.
  unfold operandShamt6, shamt6. rewrite shift_pair_field by lia.
  apply sint_id; [lia|]. pose proof (field_range insn 20 6). unfold is_sint. lia.
Qed.

Lemma operandImm12_spec : operandImm12 insn = imm_I insn.
Proof.
  unfold operandImm12, imm_I, field. rewrite int32ShiftRight_small, sint_shiftr by lia.
  symmetry. by apply sint_uint.
Qed.

Lemma operandImm20_spec : operandImm20 insn = imm_U insn.
Proof.
  unfold operandImm20, imm_U. rewrite uint32ShiftRight_small, uint32ShiftLeft_small by lia.
  rewrite sint_uint, field_top by (lia || done).
  by rewrite Z.shiftl_mul_pow2, Z.shiftr_div_pow2 by lia.
Qed.

(** The sign of an immediate: bit 31 replicated *)
Lemma sign_cases :
  exists k, int32ShiftRight (int32 insn) 31 = - k /\ field insn 31 1 = k /\ 0 <= k <= 1.
Proof.
  rewrite int32ShiftRight_small, sint_shiftr by lia.
  exists (field insn 31 1). pose proof (field_range insn 31 1 ltac:(lia)).
  split; [|split; [done|lia]].
  change (32 - 31) with 1.
  rewrite <- (sint_uint 1) by lia. change (uint 1 (insn `div` 2 ^ 31)) with (field insn 31 1).
  destruct (decide (field insn 31 1 = 0)) as [->|]; [done|].
  by replace (field insn 31 1) with 1 by lia.
Qed.

Lemma shl_field_small f n k :
  0 <= f < 2 ^ k -> 0 <= n < 32 -> 0 <= k -> k + n <= 32 -> uint32ShiftLeft f n = f * 2 ^ n.
Proof.
  intros. rewrite uint32ShiftLeft_small, Z.shiftl_mul_pow2 by lia. apply uint_id.
  apply (uint_mono (k + n)); [lia|]. unfold is_uint. rewrite Z.pow_add_r by lia.
  pose proof (pow2_pos n). nia.
Qed.

Lemma operandSimm12_spec : operandSimm12 insn = imm_S insn.
Proof.
  unfold operandSimm12, imm_S.
  rewrite shift_pair_field, int32ShiftRight_small, sint_shiftr, uint32ShiftLeft_small,
    Z.shiftl_mul_pow2 by lia.
  change (27 - 20) with 7; change (32 - 27) with 5; change (32 - 25) with 7.
  pose proof (field_range insn 7 5). pose proof (field_range insn 25 7).
  rewrite <- (sint_uint 7) by lia. change (uint 7 (insn `div` 2 ^ 25)) with (field insn 25 7).
  set (h := sint 7 (field insn 25 7)). set (lo := field insn 7 5) in *.
  pose proof (sint_range 7 (field insn 25 7) ltac:(lia)) as Hh. fold h in Hh. unfold is_sint in Hh.
  rewrite uint_mul_pow, uint_uint_le, (lor_add _ _ 5) by (lia || eauto).
  destruct (sint_shift 7 (field insn 25 7)) as [k Hk]. fold h in Hk.
  destruct (uint_shift (32 - 5) h) as [j ->]; [lia|].
  transitivity (h * 2 ^ 5 + lo); [|symmetry].
  - apply sint_unique with (- j); unfold is_sint; lia.
  - apply sint_unique with k; unfold is_sint; lia.
Qed.

Lemma operandSbimm12_spec : operandSbimm12 insn = imm_B insn.
Proof.
  unfold operandSbimm12, imm_B. destruct sign_cases as (k & -> & -> & Hk).
  rewrite !shift_pair_field by lia.
  change (26 - 1) with 25; change (32 - 26) with 6; change (28 - 20) with 8;
    change (32 - 28) with 4; change (31 - 24) with 7; change (32 - 31) with 1.
  pose proof (field_range insn 25 6). pose proof (field_range insn 8 4).
  pose proof (field_range insn 7 1).
  rewrite (shl_field_small _ 5 6), (shl_field_small _ 1 4), (shl_field_small _ 11 1) by lia.
  rewrite uint32ShiftLeft_small, Z.shiftl_mul_pow2, uint_sint, uint_uint, uint_mul_pow,
    uint_uint_le by lia.
  set (b := field insn 25 6) in *. set (c := field insn 8 4) in *. set (d := field insn 7 1) in *.
  destruct (uint_shift (32 - 12) (- k)) as [j Hj]; [lia|]. set (a := uint (32 - 12) (- k)) in *.
  rewrite lor_rotate.
  rewrite (lor_add (a * 2 ^ 12) _ 12), (lor_add _ (b * 2 ^ 5) 11), (lor_add _ (c * 2 ^ 1) 5);
    [|lia|lia|exists (a * 2 ^ 7 + d * 2 ^ 6 + b); lia|lia|lia|exists (a * 2 + d); lia|lia|lia|eauto].
  transitivity (- k * 2 ^ 12 + d * 2 ^ 11 + b * 2 ^ 5 + c * 2); [|symmetry].
  - apply sint_unique with (- j); unfold is_sint; lia.
  - apply sint_unique with (- k); unfold is_sint; lia.
Qed.

Lemma operandJimm20_spec : operandJimm20 insn = imm_J insn.
Proof.
  unfold operandJimm20, imm_J. destruct sign_cases as (k & -> & -> & Hk).
  rewrite !shift_pair_field by lia.
  change (22 - 1) with 21; change (32 - 22) with 10; change (31 - 11) with 20;
    change (32 - 31) with 1; change (24 - 12) with 12; change (32 - 24) with 8.
  pose proof (field_range insn 21 10). pose proof (field_range insn 20 1).
  pose proof (field_range insn 12 8).
  rewrite (shl_field_small _ 1 10), (shl_field_small _ 11 1), (shl_field_small _ 12 8) by lia.
  rewrite uint32ShiftLeft_small, Z.shiftl_mul_pow2, uint_sint, uint_uint, uint_mul_pow,
    uint_uint_le by lia.
  set (b := field insn 21 10) in *. set (c := field insn 20 1) in *. set (d := field insn 12 8) in *.
  destruct (uint_shift (32 - 20) (- k)) as [j Hj]; [lia|]. set (a := uint (32 - 20) (- k)) in *.
  rewrite lor_reverse.
  rewrite (lor_add (a * 2 ^ 20) _ 20), (lor_add _ (c * 2 ^ 11) 12), (lor_add _ (b * 2 ^ 1) 11);
    [|lia|lia|exists (a * 2 ^ 9 + d * 2 + c); lia|lia|lia|exists (a * 2 ^ 8 + d); lia|lia|lia|eauto].
  transitivity (- k * 2 ^ 20 + d * 2 ^ 12 + c * 2 ^ 11 + b * 2); [|symmetry].
  - apply sint_unique with (- j); unfold is_sint; lia.
  - apply sint_unique with (- k); unfold is_sint; lia.
Qed.
End decoders.

(** ** The tests of [executeInsn] *)

Lemma opcode_land insn : insn &ᵇ 0x7f = opcode insn.
Proof. unfold opcode, field. rewrite Z.div_1_r. apply (land_ones_mod insn 7). lia. Qed.

Lemma land_field insn lo n :
  0 <= lo -> 0 <= n -> insn &ᵇ Z.shiftl (2 ^ n - 1) lo = field insn lo n * 2 ^ lo.
Proof.
  intros. unfold field. rewrite <- land_ones_mod, <- Z.shiftl_mul_pow2, <- Z.shiftr_div_pow2 by done.
  apply Z.bits_inj_iff'. intros i Hi. rewrite Z.land_spec, !Z.shiftl_spec, Z.land_spec by done.
  destruct (Z.lt_ge_cases i lo).
  - by rewrite (Z.testbit_neg_r _ (i - lo)) , !andb_false_r by lia.
  - rewrite Z.shiftr_spec by lia. by replace (i - lo + lo) with i by lia.
Qed.

Lemma insnMatchOpcode_spec insn op : insnMatchOpcode insn op = (opcode insn =? op).
Proof. unfold insnMatchOpcode. by rewrite opcode_land. Qed.

Lemma mask3_fields insn :
  insn &ᵇ (Z.shiftl 7 12 |ᵇ 0x7f) = funct3 insn * 2 ^ 12 + opcode insn.
Proof.
  change (Z.shiftl 7 12) with (Z.shiftl (2 ^ 3 - 1) 12).
  rewrite Z.land_lor_distr_r, opcode_land, (land_field insn 12 3) by lia.
  pose proof (field_range insn 0 7). apply (lor_add _ _ 7); [lia|unfold opcode; lia|].
  exists (funct3 insn * 2 ^ 5). unfold funct3. lia.
Qed.

Lemma insnMatchOpcodeFunct3_spec insn op f3 :
  0 <= op < 128 -> 0 <= f3 < 8 ->
  insnMatchOpcodeFunct3 insn op f3 = (opcode insn =? op) && (funct3 insn =? f3).
Proof.
  intros Hop Hf3. unfold insnMatchOpcodeFunct3.
  rewrite mask3_fields, uint32ShiftLeft_small, Z.shiftl_mul_pow2, uint_id by (unfold is_uint; lia).
  rewrite (lor_add _ _ 7) by (lia || (exists (f3 * 2 ^ 5); lia)).
  pose proof (field_range insn 0 7). pose proof (field_range insn 12 3).
  unfold opcode, funct3.
  destruct (Z.eqb_spec (field insn 0 7) op), (Z.eqb_spec (field insn 12 3) f3); cbn [andb];
    apply Z.eqb_eq || apply Z.eqb_neq; lia.
Qed.

(** The upper part of the word, at bits [lo, lo + n), beside opcode and funct3 *)
Lemma insnMatch_high insn op f3 f lo n :
  0 <= op < 128 -> 0 <= f3 < 8 -> 15 <= lo -> 0 <= n -> lo + n = 32 -> 0 <= f < 2 ^ n -> lo < 32 ->
  ((insn &ᵇ (uint32 (Z.shiftl (2 ^ n - 1) lo) |ᵇ Z.shiftl 7 12 |ᵇ 0x7f)) =?
   (uint32ShiftLeft f lo |ᵇ uint32ShiftLeft f3 12 |ᵇ op)) =
  (opcode insn =? op) && (funct3 insn =? f3) && (field insn lo n =? f).
Proof.
  intros Hop Hf3 Hlo Hn Hsum Hf Hlo'.
  rewrite <- Z.lor_assoc, Z.land_lor_distr_r, mask3_fields.
  assert (0 < 2 ^ (lo - 15)) by (apply pow2_pos; lia).
  assert (2 ^ lo = 2 ^ (lo - 15) * 2 ^ 15) as Hp by (rewrite <- Z.pow_add_r by lia; f_equal; lia).
  assert (2 ^ 32 = 2 ^ n * 2 ^ lo) as Hp32 by (rewrite <- Z.pow_add_r by lia; f_equal; lia).
  rewrite (uint_id 32 (Z.shiftl _ _)), land_field
    by (lia || (unfold is_uint; rewrite Z.shiftl_mul_pow2 by lia; nia)).
  rewrite (uint32ShiftLeft_small f3), (uint32ShiftLeft_small f), !Z.shiftl_mul_pow2, (uint_id 32 (f3 * _)),
    (uint_id 32 (f * _)) by (lia || (unfold is_uint; nia)).
  pose proof (field_range insn 0 7). pose proof (field_range insn 12 3).
  pose proof (field_range insn lo n).
  rewrite <- Z.lor_assoc, (lor_add (f3 * _) op 7) by (lia || (exists (f3 * 2 ^ 5); lia)).
  unfold opcode, funct3.
  rewrite !(lor_add _ _ 15)
    by (lia || (exists (f * 2 ^ (lo - 15)); lia) || (exists (field insn lo n * 2 ^ (lo - 15)); lia)).
  destruct (Z.eqb_spec (field insn 0 7) op), (Z.eqb_spec (field insn 12 3) f3),
    (Z.eqb_spec (field insn lo n) f); cbn [andb]; apply Z.eqb_eq || apply Z.eqb_neq; nia.
Qed.

Lemma insnMatchOpcodeFunct3Funct7_spec insn op f3 f7 :
  0 <= op < 128 -> 0 <= f3 < 8 -> 0 <= f7 < 128 ->
  insnMatchOpcodeFunct3Funct7 insn op f3 f7 =
  (opcode insn =? op) && (funct3 insn =? f3) && (funct7 insn =? f7).
Proof. intros. apply (insnMatch_high insn op f3 f7 25 7); lia. Qed.

Lemma field_26 insn : field insn 26 6 = funct7 insn `div` 2.
Proof.
  unfold funct7, field. change (2 ^ 26) with (2 ^ 25 * 2). change (2 ^ 7) with (2 * 2 ^ 6).
  rewrite <- Z.div_div, Z.rem_mul_r by lia.
  set (q := insn `div` 2 ^ 25). rewrite (Z.mul_comm 2), Z.div_add by lia.
  rewrite (Z.div_small (q `mod` 2)); [done|]. apply Z.mod_pos_bound. lia.
Qed.

Lemma insnMatchOpcodeFunct3Funct7Sr1_spec insn op f3 f6 :
  0 <= op < 128 -> 0 <= f3 < 8 -> 0 <= f6 < 64 ->
  insnMatchOpcodeFunct3Funct7Sr1 insn op f3 f6 =
  (opcode insn =? op) && (funct3 insn =? f3) && (funct7 insn `div` 2 =? f6).
Proof. intros. rewrite <- field_26. apply (insnMatch_high insn op f3 f6 26 6); lia. Qed.

(** ** Dispatch *)

(** The function of uarch-step.cpp that executes an instruction *)
Definition executor (i : instr) : Z -> Z -> prog unit :=
  match i with
  | Lui _ _ => executeLUI
  | Auipc _ _ => executeAUIPC
  | Jal _ _ => executeJAL
  | Jalr _ _ _ => executeJALR
  | Branch EQ _ _ _ => executeBEQ
  | Branch NE _ _ _ => executeBNE
  | Branch LT _ _ _ => executeBLT
  | Branch GE _ _ _ => executeBGE
  | Branch LTU _ _ _ => executeBLTU
  | Branch GEU _ _ _ => executeBGEU
  | Load W8 true _ _ _ => executeLB
  | Load W16 true _ _ _ => executeLH
  | Load W32 true _ _ _ => executeLW
  | Load W8 false _ _ _ => executeLBU
  | Load W16 false _ _ _ => executeLHU
  | Load W32 false _ _ _ => executeLWU
  | Load W64 _ _ _ _ => executeLD
  | Store W8 _ _ _ => executeSB
  | Store W16 _ _ _ => executeSH
  | Store W32 _ _ _ => executeSW
  | Store W64 _ _ _ => executeSD
  | OpImm ADD _ _ _ => executeADDI
  | OpImm SLT _ _ _ => executeSLTI
  | OpImm SLTU _ _ _ => executeSLTIU
  | OpImm XOR _ _ _ => executeXORI
  | OpImm OR _ _ _ => executeORI
  | OpImm AND _ _ _ => executeANDI
  | OpImm SLL _ _ _ => executeSLLI
  | OpImm SRL _ _ _ => executeSRLI
  | OpImm SRA _ _ _ => executeSRAI
  | OpImmW ADD _ _ _ => executeADDIW
  | OpImmW SLL _ _ _ => executeSLLIW
  | OpImmW SRL _ _ _ => executeSRLIW
  | OpImmW SRA _ _ _ => executeSRAIW
  | OpReg ADD _ _ _ => executeADD
  | OpReg SUB _ _ _ => executeSUB
  | OpReg SLL _ _ _ => executeSLL
  | OpReg SLT _ _ _ => executeSLT
  | OpReg SLTU _ _ _ => executeSLTU
  | OpReg XOR _ _ _ => executeXOR
  | OpReg SRL _ _ _ => executeSRL
  | OpReg SRA _ _ _ => executeSRA
  | OpReg OR _ _ _ => executeOR
  | OpReg AND _ _ _ => executeAND
  | OpRegW ADD _ _ _ => executeADDW
  | OpRegW SUB _ _ _ => executeSUBW
  | OpRegW SLL _ _ _ => executeSLLW
  | OpRegW SRL _ _ _ => executeSRLW
  | OpRegW SRA _ _ _ => executeSRAW
  | Fence => fun _ => executeFENCE
  | Ecall => fun _ => executeECALL
  | Ebreak => fun _ _ => executeEBREAK
  | _ => fun _ _ => Throw (runtime_error "illegal instruction")
  end.

Create Rewrite HintDb uarch_match.
#[local] Hint Rewrite insnMatchOpcode_spec insnMatchOpcodeFunct3_spec
  insnMatchOpcodeFunct3Funct7_spec insnMatchOpcodeFunct3Funct7Sr1_spec using lia : uarch_match.

(** Splits on the value of a bounded number. *)
Ltac enumerate x lo hi :=
  lazymatch eval vm_compute in (hi - lo) with
  | 0 => exfalso; lia
  | _ =>
    let E := fresh "E" in
    destruct (Z.eqb_spec x lo) as [E|E];
    [|let lo' := eval vm_compute in (lo + 1) in enumerate x lo' hi]
  end.

(** Case analysis on the fields of an instruction, simplifying the tests as it
    goes. *)
Ltac simpl_tests :=
  cbv beta iota zeta delta [Z.eqb Pos.eqb andb decode_load decode_store decode_branch
    decode_op_imm decode_op_imm_w decode_op decode_op_w is_shift mbind option_bind executor].

Lemma executeInsn_decode insn pc :
  is_uint 32 insn ->
  executeInsn insn pc =
  match decode insn with
  | Some i => executor i insn pc
  | None => Throw (runtime_error "illegal instruction")
  end.
Proof.
  intros Hinsn.
  destruct (Z.eqb_spec insn 0x73) as [->|Hne]; [reflexivity|].
  destruct (Z.eqb_spec insn 0x100073) as [->|Hne']; [reflexivity|].
  apply Z.eqb_neq in Hne, Hne'.
  unfold executeInsn. autorewrite with uarch_match. unfold decode.
  change (uint32 0x73) with 0x73. change (uint32 0x100073) with 0x100073. rewrite Hne, Hne'.
  pose proof (field_range insn 0 7 ltac:(lia)) as Ho. fold (opcode insn) in Ho.
  pose proof (field_range insn 12 3 ltac:(lia)) as Hf. fold (funct3 insn) in Hf.
  generalize dependent (opcode insn). intros o Ho.
  generalize dependent (funct3 insn). intros f3 Hf.
  repeat match goal with
  | |- context [match (if ?x =? ?c then _ else _) with Some _ => _ | None => _ end] =>
      is_var x; destruct (Z.eqb_spec x c) as [->|?%Z.eqb_neq]
  end.
  all: simpl_tests; try reflexivity.
  all: repeat match goal with H : (?x =? _) = false |- _ => rewrite ?H; clear H end.
  all: simpl_tests; try reflexivity.
  all: enumerate f3 0 8; subst f3; simpl_tests; try reflexivity.
  all: repeat case_if; try reflexivity; reflect_bools; lia.
Qed.

(** ** Address arithmetic *)

Lemma palign_spec a : is_uint 64 a -> a &ᵇ uint64 (Z.lnot 7) = 8 * (a `div` 8).
Proof. intros. rewrite land_not_uint by (lia || done). apply (ldiff_low a 3). lia. Qed.

Lemma bitoffset_spec a : uint32ShiftLeft (uint32 a &ᵇ 7) 3 = 8 * (a `mod` 8).
Proof.
  change (uint32 a &ᵇ 7) with (uint32 a &ᵇ (2 ^ 3 - 1)). rewrite land_ones_mod by lia.
  replace (uint32 a `mod` 2 ^ 3) with (a `mod` 8) by (symmetry; apply (uint_uint_le 3 32); lia).
  pose proof (Z.mod_pos_bound a 8).
  rewrite uint32ShiftLeft_small, Z.shiftl_mul_pow2 by lia.
  rewrite uint_id by (unfold is_uint; lia). lia.
Qed.

Lemma palign_aligned a : (8 * (a `div` 8)) `mod` 8 = 0.
Proof. rewrite Z.mul_comm. apply Z.mod_mul. lia. Qed.

Lemma aligned_8 a : ((a &ᵇ 7) =? 0) = (a `mod` 8 =? 0).
Proof. f_equal. apply (land_ones_mod a 3). lia. Qed.
Lemma aligned_4 a : ((a &ᵇ 3) =? 0) = (a `mod` 4 =? 0).
Proof. f_equal. apply (land_ones_mod a 2). lia. Qed.
Lemma aligned_2 a : ((a &ᵇ 1) =? 0) = (a `mod` 2 =? 0).
Proof. f_equal. apply (land_ones_mod a 1). lia. Qed.

(** A value stored or loaded at an aligned address fits in its word. *)
Lemma aligned_fits (w : width) a :
  a `mod` Z.of_nat (nbytes w) = 0 -> (Z.to_nat (a `mod` 8) + nbytes w <= 8)%nat.
Proof.
  intros H. apply Nat2Z.inj_le. rewrite Nat2Z.inj_add, Z2Nat.id by (apply Z.mod_pos_bound; lia).
  destruct w; cbn -[Z.modulo] in *; Z.div_mod_to_equations; lia.
Qed.

(** ** [copyBits] *)

Lemma copyBits_mask count offset :
  0 < count -> 0 <= offset -> offset + count <= 64 -> count < 64 ->
  uint64 (Z.lnot (uint64ShiftLeft (uint64 (uint64ShiftLeft 1 count - 1)) offset)) =
  uint64 (Z.lnot (Z.shiftl (Z.ones count) offset)).
Proof.
  intros Hc Ho Hs Hc'.
  assert (uint64 (uint64ShiftLeft 1 count - 1) = Z.ones count) as ->.
  { rewrite uint64ShiftLeft_small, uint_sub_l, Z.shiftl_1_l, Z.ones_equiv, <- Z.sub_1_r by lia.
    apply uint_id. pose proof (pow2_pos count).
    pose proof (Z.pow_le_mono_r 2 count 64). unfold is_uint. lia. }
  rewrite uint64ShiftLeft_small by lia. f_equal. f_equal. apply uint_id.
  rewrite Z.shiftl_mul_pow2, Z.ones_equiv by lia. unfold is_uint.
  pose proof (pow2_pos count). pose proof (pow2_pos offset).
  pose proof (Z.pow_le_mono_r 2 (offset + count) 64). rewrite Z.pow_add_r in * by lia. nia.
Qed.

Lemma copyBits_splice {S} (h : access_handler S) (w : width) from to k s :
  w <> W64 -> is_uint (width_bits w) from -> is_uint 64 to ->
  (k + nbytes w <= 8)%nat ->
  run h (copyBits from (width_bits w) to (8 * Z.of_nat k)) s =
  (Done (le_val (splice k (le_bytes (nbytes w) from) (le_bytes 8 to))), s).
Proof.
  intros Hw Hfrom Hto Hk. unfold copyBits, width_bits in *. unfold is_uint in Hfrom, Hto.
  assert (0 < 8 * Z.of_nat (nbytes w) < 64) by (destruct w; [cbn; lia..|congruence]).
  set (c := 8 * Z.of_nat (nbytes w)) in *. set (o := 8 * Z.of_nat k).
  assert (o + c <= 64) by lia. assert (0 <= o) by lia.
  rewrite (uint_id 32 (o + c)) by (unfold is_uint; lia).
  test (o + c <=? 64) is true.
  cbn -[uint64ShiftLeft uint le_val splice le_bytes].
  rewrite copyBits_mask, land_not_uint, ldiff_field by (lia || done).
  rewrite le_val_splice by done.
  replace (8 * Z.of_nat (k + nbytes w)) with (o + c) by lia.
  replace (8 * Z.of_nat (8 - (k + nbytes w))) with (64 - (o + c)) by lia. fold o c.
  pose proof (pow2_pos c). pose proof (pow2_pos o).
  pose proof (pow2_pos (64 - (o + c))).
  assert (2 ^ (o + c) = 2 ^ o * 2 ^ c) as Hoc by (rewrite Z.pow_add_r; lia).
  assert (2 ^ 64 = 2 ^ (64 - (o + c)) * 2 ^ (o + c)) as H64
    by (rewrite <- Z.pow_add_r by lia; f_equal; lia).
  rewrite (uint_id c from) by done.
  rewrite (uint_id (64 - (o + c))).
  2:{ unfold is_uint. split; [apply Z.div_pos; lia|apply Z.div_lt_upper_bound; lia]. }
  rewrite uint64ShiftLeft_small, Z.shiftl_mul_pow2 by lia.
  rewrite uint_id by (unfold is_uint; nia).
  f_equal. f_equal. unfold uint.
  set (lo := to `mod` 2 ^ o). set (hi := to `div` 2 ^ (o + c)).
  assert (0 <= lo < 2 ^ o) by (apply Z.mod_pos_bound; lia).
  rewrite Z.lor_comm, (Z.add_comm lo).
  rewrite <- (lor_add (2 ^ (o + c) * hi) lo o)
    by (lia || (exists (2 ^ c * hi); rewrite Hoc; lia)).
  rewrite <- Z.lor_assoc, (Z.lor_comm lo), Z.lor_assoc.
  rewrite (lor_add _ (from * 2 ^ o) (o + c)) by (lia || nia || (exists hi; lia)).
  rewrite (lor_add _ lo o) by (lia || (exists (2 ^ c * hi + from); rewrite Hoc; lia)).
  lia.
Qed.

(** ** Loads and stores *)

Definition readUint (w : width) : Z -> prog Z :=
  match w with W8 => readUint8 | W16 => readUint16 | W32 => readUint32 | W64 => readUint64 end.

Definition writeUint (w : width) : Z -> Z -> prog unit :=
  match w with W8 => writeUint8 | W16 => writeUint16 | W32 => writeUint32 | W64 => writeUint64 end.

(** The result of an instruction as the result of a program: an exception leaves
    the state as it was. *)
Definition commit {M} (o : outcome (rv_state M)) (s : rv_state M) : outcome unit * rv_state M :=
  match o with Done s' => (Done tt, s') | Exn e => (Exn e, s) end.

Section memory.
Context {M : Type} `{WordMem M} (valid : M -> Prop) `{!WordMemLaws M valid}.
Implicit Types s : rv_state M.

Lemma load_misaligned (w : width) s a :
  a `mod` Z.of_nat (nbytes w) <> 0 -> load w s a = Exn (misaligned "read" w).
Proof. intros E. unfold load. by rewrite (proj2 (Z.eqb_neq _ _) E). Qed.

Lemma store_misaligned (w : width) s a v :
  a `mod` Z.of_nat (nbytes w) <> 0 -> store w s a v = Exn (misaligned "write" w).
Proof. intros E. unfold store. by rewrite (proj2 (Z.eqb_neq _ _) E). Qed.

Lemma run_readUint64 a s :
  run rv_handler (readUint64 a) s =
  ((if a `mod` 8 =? 0 then mem_load (rv_mem s) a
    else Exn (assertion_failure "misaligned readUint64 address")), s).
Proof.
  unfold readUint64, require. rewrite aligned_8.
  destruct (Z.eqb_spec (a `mod` 8) 0) as [E|E]; cbn -[Z.modulo]; [|done].
  by destruct (mem_load (rv_mem s) a).
Qed.

Lemma run_writeUint64 a v s :
  run rv_handler (writeUint64 a v) s = commit (store W64 s a v) s.
Proof.
  unfold writeUint64, require, store. rewrite aligned_8.
  change (Z.of_nat (nbytes W64)) with 8.
  destruct (Z.eqb_spec (a `mod` 8) 0) as [E|E]; cbn -[Z.modulo]; [|done].
  by destruct (mem_store (rv_mem s) a v).
Qed.

Lemma word_field (w : width) word k :
  (k + nbytes w <= 8)%nat -> is_uint 64 word ->
  uint (width_bits w) (uint64ShiftRight word (8 * Z.of_nat k)) =
  le_val (take (nbytes w) (drop k (le_bytes 8 word))).
Proof.
  intros Hk Hw. rewrite le_val_field by done.
  rewrite uint64ShiftRight_small by (destruct w; cbn in *; lia).
  by rewrite Z.shiftr_div_pow2 by lia.
Qed.

(** A narrow load, once its alignment is checked *)
Lemma run_narrow_load (w : width) a s :
  valid (rv_mem s) -> is_uint 64 a -> a `mod` Z.of_nat (nbytes w) = 0 ->
  run rv_handler
    (val64 ← readUint64 (a &ᵇ uint64 (Z.lnot 7));
     mret (uint (width_bits w) (uint64ShiftRight val64 (uint32ShiftLeft (uint32 a &ᵇ 7) 3)))) s =
  (load w s a, s).
Proof.
  intros Hv Ha Hal. rewrite run_bind, palign_spec, run_readUint64, palign_aligned by done.
  unfold load. rewrite Hal. cbn -[Z.mul Z.modulo Z.div uint64ShiftRight uint32ShiftLeft le_val le_bytes].
  destruct (mem_load (rv_mem s) (8 * (a `div` 8))) as [word|e] eqn:E; [|done].
  apply mem_load_range in E; [|done].
  cbn -[Z.mul Z.modulo Z.div uint64ShiftRight uint32ShiftLeft le_val le_bytes].
  rewrite bitoffset_spec. pose proof (Z.mod_pos_bound a 8).
  rewrite <- (Z2Nat.id (a `mod` 8)) at 1 by lia.
  rewrite word_field; [done|by apply aligned_fits|done].
Qed.

Lemma run_readUint (w : width) a s :
  valid (rv_mem s) -> is_uint 64 a -> run rv_handler (readUint w a) s = (load w s a, s).
Proof.
  intros Hv Ha. destruct w; cbn [readUint].
  - apply (run_narrow_load W8); [done|done|]. apply Z.mod_1_r.
  - unfold readUint16, require. rewrite aligned_2.
    destruct (Z.eqb_spec (a `mod` 2) 0) as [E|E].
    + by apply (run_narrow_load W16).
    + by rewrite load_misaligned.
  - unfold readUint32, require. rewrite aligned_4.
    destruct (Z.eqb_spec (a `mod` 4) 0) as [E|E].
    + by apply (run_narrow_load W32).
    + by rewrite load_misaligned.
  - rewrite run_readUint64. unfold load. change (Z.of_nat (nbytes W64)) with 8.
    destruct (Z.eqb_spec (a `mod` 8) 0) as [E|E]; [|done].
    rewrite E. replace (8 * (a `div` 8)) with a by (rewrite (Z.div_mod a 8) at 1; lia).
    destruct (mem_load (rv_mem s) a) as [word|e] eqn:El; [|done].
    apply mem_load_range in El; [|done]. cbn -[le_val le_bytes].
    by rewrite (le_val_field 0 8 8), Z.div_1_r, uint_id by (done || lia).
Qed.

(** A narrow store, once its alignment is checked *)
Lemma run_narrow_store (w : width) a v s :
  w <> W64 -> valid (rv_mem s) -> is_uint 64 a -> is_uint (width_bits w) v ->
  a `mod` Z.of_nat (nbytes w) = 0 ->
  run rv_handler
    (oldval64 ← readUint64 (a &ᵇ uint64 (Z.lnot 7));
     newval64 ← copyBits v (width_bits w) oldval64 (uint32ShiftLeft (uint32 a &ᵇ 7) 3);
     writeUint64 (a &ᵇ uint64 (Z.lnot 7)) newval64) s =
  commit (store w s a v) s.
Proof.
  intros Hw Hv Ha Hr Hal. rewrite run_bind, palign_spec, run_readUint64, palign_aligned by done.
  assert (store w s a v =
    (word ← mem_load (rv_mem s) (8 * (a `div` 8));
     m ← mem_store (rv_mem s) (8 * (a `div` 8))
           (le_val (splice (Z.to_nat (a `mod` 8)) (le_bytes (nbytes w) v) (le_bytes 8 word)));
     mret (set_mem m s))) as ->.
  { unfold store. rewrite Hal. by destruct w. }
  cbn -[Z.mul Z.modulo Z.div uint32ShiftLeft le_val le_bytes splice copyBits width_bits].
  destruct (mem_load (rv_mem s) (8 * (a `div` 8))) as [word|e] eqn:E; [|done].
  apply mem_load_range in E; [|done].
  rewrite run_bind, bitoffset_spec. pose proof (Z.mod_pos_bound a 8).
  rewrite <- (Z2Nat.id (a `mod` 8)) at 1 by lia.
  rewrite copyBits_splice by (done || by apply aligned_fits).
  rewrite run_writeUint64. unfold store at 1. change (Z.of_nat (nbytes W64)) with 8.
  by rewrite palign_aligned.
Qed.

Lemma run_writeUint (w : width) a v s :
  valid (rv_mem s) -> is_uint 64 a -> is_uint (width_bits w) v ->
  run rv_handler (writeUint w a v) s = commit (store w s a v) s.
Proof.
  intros Hv Ha Hr. destruct w; cbn [writeUint].
  - apply (run_narrow_store W8); [done|done|done|done|]. apply Z.mod_1_r.
  - unfold writeUint16, require. rewrite aligned_2.
    destruct (Z.eqb_spec (a `mod` 2) 0) as [E|E].
    + by apply (run_narrow_store W16).
    + by rewrite store_misaligned.
  - unfold writeUint32, require. rewrite aligned_4.
    destruct (Z.eqb_spec (a `mod` 4) 0) as [E|E].
    + by apply (run_narrow_store W32).
    + by rewrite store_misaligned.
  - apply run_writeUint64.
Qed.

Lemma load_range (w : width) s a v : load w s a = Done v -> is_uint (width_bits w) v.
Proof.
  unfold load. destruct (negb _); [done|].
  destruct (mem_load _ _) as [word|]; [|done]. cbn -[le_val le_bytes take]. intros E. apply (inj Done) in E as <-.
  set (l := take _ _). assert (length l <= nbytes w)%nat by (unfold l; rewrite length_take; lia).
  apply (uint_mono (8 * Z.of_nat (length l))); [unfold width_bits; lia|].
  apply le_val_range. unfold l. apply Forall_take, Forall_drop, le_bytes_bytes.
Qed.
End memory.

Create HintDb uarch_alu.

(** A 12-bit immediate as a 64-bit register value *)
Lemma int64_uint64_imm imm : is_sint 64 imm -> int64 (uint64 imm) = imm.
Proof. intros. rewrite sint_uint by lia. by apply sint_id. Qed.

Lemma if_b2z (c : bool) : (if c then 1 else 0) = b2z c.
Proof. done. Qed.

Section alu.
Context (a b imm : Z) (Ha : is_uint 64 a) (Hb : is_uint 64 b) (Himm : is_sint 64 imm).

Lemma addi_spec : uint64 (int64AddInt64 (int64 a) (int64 imm)) = alu64 ADD a (uint64 imm).
Proof.
  unfold int64AddInt64, alu64. rewrite sint_add_sint, uint_sint by lia.
  by rewrite uint_add_r by lia.
Qed.
Lemma add_spec : uint64AddUint64 a b = alu64 ADD a b.
Proof. done. Qed.
Lemma sub_spec : uint64SubUint64 a b = alu64 SUB a b.
Proof. done. Qed.

Lemma shift6_range c : 0 <= c `mod` 64 < 64.
Proof. apply Z.mod_pos_bound. lia. Qed.
Lemma shift5_range c : 0 <= c `mod` 32 < 32.
Proof. apply Z.mod_pos_bound. lia. Qed.

Lemma sll64 c : uint64ShiftLeft a c = uint64 (a * 2 ^ (c `mod` 64)).
Proof.
  unfold uint64ShiftLeft. rewrite land_3f, Z.shiftl_mul_pow2; [done|]. apply shift6_range.
Qed.
Lemma srl64 c : uint64ShiftRight a c = a `div` 2 ^ (c `mod` 64).
Proof.
  unfold uint64ShiftRight. rewrite land_3f, Z.shiftr_div_pow2; [done|]. apply shift6_range.
Qed.
Lemma sra64 c : uint64 (int64ShiftRight (int64 a) c) = uint64 (int64 a `div` 2 ^ (c `mod` 64)).
Proof.
  unfold int64ShiftRight. rewrite land_3f, Z.shiftr_div_pow2; [done|]. apply shift6_range.
Qed.

(** The shift amount of a register is narrowed to 32 bits first. *)
Lemma uint32_mod64 c : uint32 c `mod` 64 = c `mod` 64.
Proof. apply (uint_uint_le 6 32). lia. Qed.
Lemma uint32_mod32 c : uint32 c `mod` 32 = c `mod` 32.
Proof. apply (uint_uint_le 5 32). lia. Qed.
Lemma uint64_mod64 c : uint64 c `mod` 64 = c `mod` 64.
Proof. apply (uint_uint_le 6 64). lia. Qed.

Lemma sll_spec : uint64ShiftLeft a (uint32 b) = alu64 SLL a b.
Proof. by rewrite sll64, uint32_mod64. Qed.
Lemma srl_spec : uint64ShiftRight a (uint32 b) = alu64 SRL a b.
Proof. by rewrite srl64, uint32_mod64. Qed.
Lemma sra_spec : uint64 (int64ShiftRight (int64 a) (uint32 b)) = alu64 SRA a b.
Proof. by rewrite sra64, uint32_mod64. Qed.
Lemma slli_spec : uint64ShiftLeft a (uint32 imm) = alu64 SLL a (uint64 imm).
Proof. unfold alu64. by rewrite sll64, uint32_mod64, uint64_mod64. Qed.
Lemma srli_spec : uint64ShiftRight a (uint32 imm) = alu64 SRL a (uint64 imm).
Proof. unfold alu64. by rewrite srl64, uint32_mod64, uint64_mod64. Qed.
Lemma srai_spec : uint64 (int64ShiftRight (int64 a) (uint32 imm)) = alu64 SRA a (uint64 imm).
Proof. unfold alu64. by rewrite sra64, uint32_mod64, uint64_mod64. Qed.

Lemma slt_spec : (if int64 a <? int64 b then 1 else 0) = alu64 SLT a b.
Proof. done. Qed.
Lemma sltu_spec : (if a <? b then 1 else 0) = alu64 SLTU a b.
Proof. done. Qed.
Lemma slti_spec : (if int64 a <? imm then 1 else 0) = alu64 SLT a (uint64 imm).
Proof. unfold alu64. by rewrite int64_uint64_imm. Qed.
Lemma sltiu_spec : (if a <? int32ToUint64 imm then 1 else 0) = alu64 SLTU a (uint64 imm).
Proof. done. Qed.
Lemma xor_spec : (a ^ᵇ b) = alu64 XOR a b.
Proof. done. Qed.
Lemma or_spec : (a |ᵇ b) = alu64 OR a b.
Proof. done. Qed.
Lemma and_spec : (a &ᵇ b) = alu64 AND a b.
Proof. done. Qed.
Lemma xori_spec : (a ^ᵇ int32ToUint64 imm) = alu64 XOR a (uint64 imm).
Proof. done. Qed.
Lemma ori_spec : (a |ᵇ int32ToUint64 imm) = alu64 OR a (uint64 imm).
Proof. done. Qed.
Lemma andi_spec : (a &ᵇ int32ToUint64 imm) = alu64 AND a (uint64 imm).
Proof. done. Qed.

(** 32-bit operations *)
Lemma addiw_spec : int32ToUint64 (int32AddInt32 (uint64ToInt32 a) imm) = alu32 ADD a imm.
Proof.
  unfold int32ToUint64, int32AddInt32, uint64ToInt32, alu32. f_equal.
  rewrite <- (sint_uint 32), uint_add_sint_l by lia. by apply sint_uint.
Qed.
Lemma addw_spec : int32ToUint64 (int32AddInt32 (uint64ToInt32 a) (uint64ToInt32 b)) = alu32 ADD a b.
Proof. unfold int32ToUint64, int32AddInt32, uint64ToInt32, alu32. by rewrite sint_add_sint by lia. Qed.
Lemma subw_spec : int32ToUint64 (int32SubInt32 (uint64ToInt32 a) (uint64ToInt32 b)) = alu32 SUB a b.
Proof. unfold int32ToUint64, int32SubInt32, uint64ToInt32, alu32. by rewrite sint_sub_sint by lia. Qed.

Lemma sll32 c : int32 (uint32ShiftLeft (uint32 a) c) = int32 (uint32 a * 2 ^ (c `mod` 32)).
Proof.
  unfold uint32ShiftLeft. rewrite land_1f, Z.shiftl_mul_pow2, sint_uint; [done|lia|]. apply shift5_range.
Qed.
Lemma srl32 c : uint32ShiftRight (uint32 a) c = uint32 a `div` 2 ^ (c `mod` 32).
Proof. unfold uint32ShiftRight. rewrite land_1f, Z.shiftr_div_pow2; [done|]. apply shift5_range. Qed.
Lemma sra32 c : int32ShiftRight (int32 a) c = int32 (int32 a `div` 2 ^ (c `mod` 32)).
Proof.
  unfold int32ShiftRight. pose proof (shift5_range c).
  rewrite land_1f, Z.shiftr_div_pow2 by lia. symmetry. apply sint_id; [lia|].
  pose proof (sint_range 32 a ltac:(lia)). unfold is_sint in *.
  pose proof (pow2_pos (c `mod` 32)).
  split; [apply Z.div_le_lower_bound|apply Z.div_lt_upper_bound]; nia.
Qed.

Lemma sllw_spec : int32ToUint64 (int32 (uint32ShiftLeft (uint32 a) (uint32 b))) = alu32 SLL a b.
Proof. unfold alu32, int32ToUint64. by rewrite sll32, uint32_mod32. Qed.
Lemma srlw_spec : int32ToUint64 (int32 (uint32ShiftRight (uint32 a) (uint32 b))) = alu32 SRL a b.
Proof. unfold alu32, int32ToUint64. by rewrite srl32, uint32_mod32. Qed.
Lemma sraw_spec : int32ToUint64 (int32ShiftRight (uint64ToInt32 a) (uint32 b)) = alu32 SRA a b.
Proof. unfold alu32, int32ToUint64, uint64ToInt32. by rewrite sra32, uint32_mod32. Qed.
End alu.

#[export] Hint Resolve addi_spec add_spec sub_spec sll_spec srl_spec sra_spec slli_spec srli_spec
  srai_spec slt_spec sltu_spec slti_spec sltiu_spec xor_spec or_spec and_spec xori_spec ori_spec
  andi_spec addiw_spec addw_spec subw_spec sllw_spec srlw_spec sraw_spec : uarch_alu.

(** Branch targets and the next instruction *)
Lemma target_spec pc imm : uint64AddInt32 pc imm = uint64 (pc + imm).
Proof. unfold uint64AddInt32. by apply uint_add_r. Qed.

Lemma jalr_target_spec a imm :
  (uint64AddInt32 a imm &ᵇ uint64 (Z.lnot (uint64 1))) =
  uint64 (a + imm) - uint64 (a + imm) `mod` 2.
Proof.
  rewrite target_spec. change (uint64 1) with (2 ^ 1 - 1).
  rewrite land_not_uint, (ldiff_low _ 1) by (lia || (apply uint_range; lia)).
  change (2 ^ 1) with 2. pose proof (Z.div_mod (uint64 (a + imm)) 2 ltac:(lia)). lia.
Qed.
