(* ===== verification/UarchRefine.v ===== *)
(** * The microarchitecture implements RV64I

    Every [execute] function, run over the specification's state, has the
    effect of the instruction it stands for. *)

From S2P Require Import Prelude CppInt Constants UarchAccess UarchStep Bytes RV64IM UarchOps.

Section execute.
Context {M : Type} `{WordMem M} (valid : M -> Prop) `{!WordMemLaws M valid}.
Implicit Types s : rv_state M.

(** ** Registers *)

Lemma reg_range s r : wf s -> is_uint 64 (reg s r).
Proof.
  intros (Hlen & Hall & _). unfold reg. destruct (decide (Z.to_nat r < 32)%nat).
  - eapply Forall_lookup_1; [exact Hall|]. apply lookup_total_nth_Z. lia.
  - rewrite nth_overflow by lia. unfold is_uint. lia.
Qed.

Lemma set_reg_pc r v s : rv_pc (set_reg r v s) = rv_pc s.
Proof. unfold set_reg. by destruct (r =? 0). Qed.

Lemma run_readX r k s :
  0 <= r < 32 -> run rv_handler (A := unit) (readX r ≫= k) s = run rv_handler (k (reg s r)) s.
Proof. intros. rewrite run_bind. cbn. by rewrite bool_decide_eq_true_2. Qed.

Lemma run_writeX r v s :
  0 <= r < 32 -> r <> 0 -> run rv_handler (writeX r v) s = (Done tt, set_reg r v s).
Proof.
  intros Hr Hne. cbn. rewrite bool_decide_eq_true_2 by done.
  by rewrite (proj2 (Z.eqb_neq _ _) Hne).
Qed.

(** [if (rd != 0) { ... writeX(a, rd, v) }], followed by the rest *)
Lemma run_when r v q (p : prog unit) s :
  (r <> 0 -> run rv_handler q s = (Done tt, set_reg r v s)) ->
  run rv_handler (when (negb (r =? 0)) q ≫= fun _ => p) s = run rv_handler p (set_reg r v s).
Proof.
  intros Hq. rewrite run_bind. unfold when.
  destruct (Z.eqb_spec r 0) as [->|Hne]; [done|]. cbn [negb]. by rewrite Hq.
Qed.

Lemma run_advancePc pc s : run rv_handler (advancePc pc) s = (Done tt, set_pc (uint64 (pc + 4)) s).
Proof. done. Qed.

Lemma run_branch pc s : run rv_handler (branch pc) s = (Done tt, set_pc pc s).
Proof. done. Qed.

(** The common end of the register instructions *)
Lemma run_writeback r v q s :
  (r <> 0 -> run rv_handler q s = (Done tt, set_reg r v s)) ->
  run rv_handler (when (negb (r =? 0)) q ≫= fun _ => advancePc (rv_pc s)) s =
  commit (mret (next (set_reg r v s))) s.
Proof.
  intros Hq. rewrite (run_when r v) by done. rewrite run_advancePc. cbn. unfold next.
  by rewrite set_reg_pc.
Qed.

Section instruction.
Context (insn : Z) (Hinsn : is_uint 32 insn).
Context (s : rv_state M) (Hwf : wf s) (Hmem : valid (rv_mem s)).

Lemma rd_range : 0 <= rd insn < 32.
Proof. apply (field_range insn 7 5). lia. Qed.
Lemma rs1_range : 0 <= rs1 insn < 32.
Proof. apply (field_range insn 15 5). lia. Qed.
Lemma rs2_range : 0 <= rs2 insn < 32.
Proof. apply (field_range insn 20 5). lia. Qed.
Lemma imm_I_range : is_sint 64 (imm_I insn).
Proof. pose proof (sint_range 12 (field insn 20 12) ltac:(lia)). unfold is_sint, imm_I in *. lia. Qed.
Lemma shamt6_range : is_sint 64 (shamt6 insn).
Proof. pose proof (field_range insn 20 6 ltac:(lia)). unfold is_sint, shamt6 in *. lia. Qed.
Lemma int64_imm_I : int64 (imm_I insn) = imm_I insn.
Proof. apply sint_id; [lia|]. apply imm_I_range. Qed.

#[local] Hint Resolve rd_range rs1_range rs2_range imm_I_range shamt6_range reg_range : uarch_alu.

(** Strips the note, names the operands and reads the source registers. *)
Ltac head_of t := lazymatch t with ?f _ => head_of f | _ => t end.
Ltac start :=
  lazymatch goal with |- run _ ?p _ = _ => let f := head_of p in unfold f end;
  rewrite run_note by done; cbv zeta;
  rewrite ?operandRd_spec, ?operandRs1_spec,
    ?operandRs2_spec, ?operandImm12_spec,
    ?(operandImm20_spec insn Hinsn), ?operandJimm20_spec,
    ?operandSbimm12_spec, ?operandSimm12_spec,
    ?operandShamt5_spec, ?operandShamt6_spec;
  repeat (rewrite run_readX by auto with uarch_alu).

(** Executes the write of the destination register. *)
Ltac writeback :=
  apply run_writeback; intros Hne; cbv zeta;
  repeat (rewrite run_readX by auto with uarch_alu);
  try match goal with |- context [run _ (if ?c then writeX _ 1 else writeX _ 0)] =>
        replace (if c then writeX _ 1 else writeX _ 0)
          with (writeX (rd insn) (if c then 1 else 0)) by (by destruct c) end;
  rewrite run_writeX by auto with uarch_alu; do 2 f_equal;
  auto with uarch_alu.

Lemma exec_op_imm op :
  op <> SUB ->
  let i := OpImm op (rd insn) (rs1 insn) (if is_shift op then shamt6 insn else imm_I insn) in
  run rv_handler (executor i insn (rv_pc s)) s = commit (exec i s) s.
Proof. intros Hop. destruct op; try done; cbn [executor is_shift exec]; start; writeback. Qed.

Lemma exec_op op :
  let i := OpReg op (rd insn) (rs1 insn) (rs2 insn) in
  run rv_handler (executor i insn (rv_pc s)) s = commit (exec i s) s.
Proof. destruct op; cbn [executor exec]; start; writeback. Qed.

Lemma exec_op_imm_w op :
  op ∈ [ADD; SLL; SRL; SRA] ->
  let i := OpImmW op (rd insn) (rs1 insn) (if is_shift op then shamt5 insn else imm_I insn) in
  run rv_handler (executor i insn (rv_pc s)) s = commit (exec i s) s.
Proof.
  intros Hop. destruct op; try (exfalso; set_solver); cbn [executor is_shift exec]; start; writeback.
Qed.

Lemma exec_op_w op :
  op ∈ [ADD; SUB; SLL; SRL; SRA] ->
  let i := OpRegW op (rd insn) (rs1 insn) (rs2 insn) in
  run rv_handler (executor i insn (rv_pc s)) s = commit (exec i s) s.
Proof.
  intros Hop. destruct op; try (exfalso; set_solver); cbn [executor exec]; start; writeback.
Qed.

Lemma exec_lui :
  let i := Lui (rd insn) (imm_U insn) in
  run rv_handler (executor i insn (rv_pc s)) s = commit (exec i s) s.
Proof. cbn [executor exec]. start. writeback. Qed.

Lemma exec_auipc :
  let i := Auipc (rd insn) (imm_U insn) in
  run rv_handler (executor i insn (rv_pc s)) s = commit (exec i s) s.
Proof. cbn [executor exec]. start. writeback. by rewrite target_spec. Qed.

Lemma exec_jal :
  let i := Jal (rd insn) (imm_J insn) in
  run rv_handler (executor i insn (rv_pc s)) s = commit (exec i s) s.
Proof.
  cbn [executor exec]. start. rewrite (run_when _ (uint64 (rv_pc s + 4))).
  - by rewrite run_branch, target_spec.
  - intros. by rewrite run_writeX by auto with uarch_alu.
Qed.

Lemma exec_jalr :
  let i := Jalr (rd insn) (rs1 insn) (imm_I insn) in
  run rv_handler (executor i insn (rv_pc s)) s = commit (exec i s) s.
Proof.
  cbn [executor exec]. start. rewrite (run_when _ (uint64 (rv_pc s + 4))).
  - by rewrite run_branch, jalr_target_spec.
  - intros. by rewrite run_writeX by auto with uarch_alu.
Qed.

Lemma exec_branch c :
  let i := Branch c (rs1 insn) (rs2 insn) (imm_B insn) in
  run rv_handler (executor i insn (rv_pc s)) s = commit (exec i s) s.
Proof.
  destruct c; cbn [executor exec eval_cond]; start; case_if;
    by rewrite ?run_branch, ?run_advancePc, ?target_spec.
Qed.

(** ** Memory instructions *)

Lemma address_range r imm : is_uint 64 (uint64 (reg s r + imm)).
Proof. apply uint_range. lia. Qed.

Lemma run_load w r imm (k : Z -> prog unit) :
  run rv_handler (readUint w (uint64AddInt32 (reg s r) imm) ≫= k) s =
  match load w s (uint64 (reg s r + imm)) with
  | Done v => run rv_handler (k v) s
  | Exn e => (Exn e, s)
  end.
Proof.
  rewrite run_bind, (run_readUint valid), target_spec; [|done|].
  - by destruct (load _ _ _).
  - rewrite target_spec. apply address_range.
Qed.

(** The sign of a loaded value of [w] bits *)
Lemma exec_load w sign :
  (w = W64 -> sign = false) ->
  let i := Load w sign (rd insn) (rs1 insn) (imm_I insn) in
  run rv_handler (executor i insn (rv_pc s)) s = commit (exec i s) s.
Proof.
  intros Hw. destruct w, sign; try (by specialize (Hw eq_refl)); cbn [executor exec]; start.
  1,2: rewrite (run_load W8).
  3,4: rewrite (run_load W16).
  5,6: rewrite (run_load W32).
  7: rewrite (run_load W64).
  all: destruct (load _ _ _) as [v|e]; [|done]; cbv zeta; by writeback.
Qed.

Lemma run_store w r imm v (p : prog unit) :
  is_uint (width_bits w) v ->
  run rv_handler (writeUint w (uint64AddInt32 (reg s r) imm) v ≫= fun _ => p) s =
  match store w s (uint64 (reg s r + imm)) v with
  | Done s' => run rv_handler p s'
  | Exn e => (Exn e, s)
  end.
Proof.
  intros Hv. rewrite run_bind, (run_writeUint valid), target_spec; [|done| |done].
  - by destruct (store _ _ _ _).
  - rewrite target_spec. apply address_range.
Qed.

Lemma store_pc w a v s' : store w s a v = Done s' -> rv_pc s' = rv_pc s.
Proof.
  unfold store. case_if; [done|]. destruct w; intros Hs; invert_outcome; by subst.
Qed.

Lemma exec_store w :
  let i := Store w (rs1 insn) (rs2 insn) (imm_S insn) in
  run rv_handler (executor i insn (rv_pc s)) s = commit (exec i s) s.
Proof.
  assert (uint 64 (reg s (rs2 insn)) = reg s (rs2 insn)) as H64
    by (apply uint_id; auto with uarch_alu).
  destruct w; cbn [executor exec]; start.
  1: rewrite (run_store W8) by (apply uint_range; lia).
  2: rewrite (run_store W16) by (apply uint_range; lia).
  3: rewrite (run_store W32) by (apply uint_range; lia).
  4: rewrite (run_store W64) by (rewrite <- H64; apply uint_range; lia).
  4: change (uint (width_bits W64) (reg s (rs2 insn))) with (uint 64 (reg s (rs2 insn)));
       rewrite H64.
  all: destruct (store _ _ _ _) as [s'|e] eqn:E; [|by rewrite E || done].
  all: cbn -[store]; rewrite ?E; cbn; unfold next; by rewrite (store_pc _ _ _ _ E).
Qed.

(** ** System instructions *)

Lemma exec_fence : run rv_handler (executor Fence insn (rv_pc s)) s = commit (exec Fence s) s.
Proof. done. Qed.

Lemma exec_ecall : run rv_handler (executor Ecall insn (rv_pc s)) s = commit (exec Ecall s) s.
Proof.
  cbn [executor exec]. start. rewrite run_readX by lia. unfold UARCH_ECALL_FN_HALT, UARCH_ECALL_FN_PUTCHAR.
  destruct (reg s 17 =? 1); [done|]. rewrite run_bind. destruct (reg s 17 =? 2); [|done].
  rewrite run_readX by lia. done.
Qed.

Lemma exec_ebreak : run rv_handler (executor Ebreak insn (rv_pc s)) s = commit (exec Ebreak s) s.
Proof. done. Qed.
End instruction.
End execute.
