(* ===== verification/UarchStepSpec.v ===== *)
(** * Correctness of [uarch_step]

    The step of the interpreter is the step of the specification, first over
    the specification's own state and then, by simulation, over any class that
    implements the access interface. *)

From S2P Require Import Prelude CppInt Constants UarchAccess UarchStep Bytes RV64IM UarchOps UarchRefine.

Section step.
Context {M : Type} `{WordMem M} (valid : M -> Prop) `{!WordMemLaws M valid}.
Implicit Types s : rv_state M.

(** The decoder and the dispatch put together *)
Lemma executeInsn_spec insn s :
  is_uint 32 insn -> wf s -> valid (rv_mem s) ->
  run rv_handler (executeInsn insn (rv_pc s)) s =
  match decode insn with
  | Some i => commit (exec i s) s
  | None => (Exn (runtime_error "illegal instruction"), s)
  end.
Proof.
  intros Hi Hwf Hm. rewrite executeInsn_decode by done. unfold decode.
  repeat match goal with
  | |- context [match (if ?c then _ else _) with Some _ => _ | None => _ end] =>
      let E := fresh "E" in destruct c eqn:E
  end; try done.
  all: repeat match goal with
  | |- context [?o ≫= _] => let E := fresh "E" in destruct o as [?|] eqn:E; [|reflexivity]; cbn [mbind option_bind]
  end.
  - by apply exec_lui.
  - by apply exec_auipc.
  - by apply exec_jal.
  - by apply exec_jalr.
  - by apply exec_branch.
  - destruct p as [w sign]. apply (exec_load valid); [done|].
    intros ->. unfold decode_load in *. repeat case_match; by simplify_eq.
  - by apply (exec_store valid).
  - apply exec_op_imm. intros ->. unfold decode_op_imm in *. repeat case_match; by simplify_eq.
  - apply (exec_op_imm_w valid); [done|done|done|]. unfold decode_op_imm_w in *.
    repeat case_match; simplify_eq; set_solver.
  - by apply exec_op.
  - apply (exec_op_w valid); [done|done|done|]. unfold decode_op_w in *.
    repeat case_match; simplify_eq; set_solver.
  - by apply exec_ecall.
Qed.

Lemma uarch_step_spec s :
  wf s -> valid (rv_mem s) -> run rv_handler uarch_step s = rv_step s.
Proof.
  intros Hwf Hm. unfold uarch_step, rv_step. rewrite run_bind. cbn [run readCycle do_op rv_handler rv_op].
  destruct (rv_cycle s =? UINT64_MAX); [done|]. rewrite run_bind. cbn [run readHaltFlag do_op rv_handler rv_op].
  destruct (rv_halt s); [done|]. rewrite run_bind. cbn [run readPc do_op rv_handler rv_op].
  assert (is_uint 64 (rv_pc s)) as Hpc by (destruct Hwf as (_ & _ & _ & ? & _); done).
  rewrite run_bind. rewrite (run_readUint valid W32) by done. unfold fetch_exec.
  destruct (load W32 s (rv_pc s)) as [insn|e] eqn:El; [|done].
  apply load_range in El. cbn [mbind outcome_bind].
  rewrite run_bind, executeInsn_spec by done.
  destruct (decode insn) as [i|]; [|done]. by destruct (exec i s).
Qed.

(** ** The invariant of the registers *)

Lemma wf_set_reg r v s : 0 <= r -> wf s -> is_uint 64 v -> wf (set_reg r v s).
Proof.
  intros Hr (Hl & Hall & H0 & Hpc & Hc) Hv. unfold set_reg. destruct (Z.eqb_spec r 0); [done|].
  repeat split; cbn; try done.
  - by rewrite length_insert.
  - by apply Forall_insert.
  - unfold reg in *. cbn. destruct (rv_x s) as [|x0 l]; [done|].
    by destruct (Z.to_nat r) eqn:E; [lia|].
  - apply Hpc.
  - apply Hpc.
  - apply Hc.
  - apply Hc.
Qed.

Lemma reg_set_reg r v s :
  0 <= r < 32 -> r <> 0 -> length (rv_x s) = 32%nat -> reg (set_reg r v s) r = v.
Proof.
  intros Hr Hne Hl. unfold set_reg. rewrite (proj2 (Z.eqb_neq _ _) Hne).
  apply nth_insert. lia.
Qed.

Lemma reg_set_reg_ne r r' v s :
  0 <= r -> 0 <= r' -> r <> r' -> reg (set_reg r v s) r' = reg s r'.
Proof.
  intros Hr Hr' Hne. unfold set_reg. destruct (r =? 0); [done|]. apply nth_insert_ne. lia.
Qed.

Lemma wf_set_pc v s : wf s -> is_uint 64 v -> wf (set_pc v s).
Proof. intros (? & ? & ? & ? & ?) ?. done. Qed.
Lemma wf_set_cycle v s : wf s -> is_uint 64 v -> wf (set_cycle v s).
Proof. intros (? & ? & ? & ? & ?) ?. done. Qed.
Lemma wf_next s : wf s -> wf (next s).
Proof. intros. apply wf_set_pc; [done|]. apply uint_range. lia. Qed.

#[local] Hint Resolve wf_set_reg wf_set_pc wf_set_cycle wf_next reg_range uint_range : wf.

Lemma b2z_range b : is_uint 64 (b2z b).
Proof. destruct b; unfold is_uint; cbn; lia. Qed.

Lemma alu64_range op a b : is_uint 64 a -> is_uint 64 b -> is_uint 64 (alu64 op a b).
Proof.
  intros Ha Hb. destruct op; cbn [alu64]; try (apply uint_range; lia); try apply b2z_range.
  - by apply lxor_uint.
  - rewrite <- Z.shiftr_div_pow2 by (apply Z.mod_pos_bound; lia).
    apply shiftr_uint; [lia| |done]. apply Z.mod_pos_bound. lia.
  - by apply lor_uint.
  - by apply land_uint.
Qed.

(** The register an instruction writes; [0] when it writes none *)
Definition dest (i : instr) : Z :=
  match i with
  | Lui rd _ | Auipc rd _ | Jal rd _ | Jalr rd _ _ | Load _ _ rd _ _
  | OpImm _ rd _ _ | OpImmW _ rd _ _ | OpReg _ rd _ _ | OpRegW _ rd _ _ => rd
  | _ => 0
  end.

Lemma decode_dest insn i : decode insn = Some i -> 0 <= dest i < 32.
Proof.
  assert (0 <= rd insn < 32) by apply rd_range.
  unfold decode. intros Hd. repeat case_match; simplify_option_eq; cbn; try done.
  all: repeat match goal with H : (let '(_, _) := ?p in _) = _ |- _ => destruct p end.
  all: simplify_eq; cbn; try done.
Qed.

Lemma merge_range w a v word :
  a `mod` Z.of_nat (nbytes w) = 0 -> 
  is_uint 64 (le_val (splice (Z.to_nat (a `mod` 8)) (le_bytes (nbytes w) v) (le_bytes 8 word))).
Proof.
  intros Hal%aligned_fits.
  replace 64 with (8 * Z.of_nat (length (splice (Z.to_nat (a `mod` 8)) (le_bytes (nbytes w) v) (le_bytes 8 word)))).
  - apply le_val_range, splice_bytes; apply le_bytes_bytes.
  - rewrite length_splice; rewrite !length_le_bytes; [done|done].
Qed.

Lemma store_wf w a v s s' :
  wf s -> valid (rv_mem s) -> is_uint (width_bits w) v -> store w s a v = Done s' ->
  wf s' /\ valid (rv_mem s').
Proof.
  intros Hs Hm Hv. unfold store. case_if; [done|]. reflect_bools. intros Hst.
  destruct w; invert_outcome; subst; cbn [set_mem rv_mem]; (split; [done|]);
    (eapply mem_store_valid; [exact Hm| |eassumption]); try exact Hv.
  - by apply (merge_range W8).
  - by apply (merge_range W16).
  - by apply (merge_range W32).
Qed.

Lemma store_regs w a v s s' : store w s a v = Done s' -> exists m, s' = set_mem m s.
Proof. unfold store. case_if; [done|]. destruct w; intros Hs; invert_outcome; subst; eauto. Qed.

Lemma exec_wf i s s' :
  0 <= dest i -> wf s -> valid (rv_mem s) -> exec i s = Done s' -> wf s' /\ valid (rv_mem s').
Proof.
  intros Hd Hs Hm. pose proof Hs as (_ & _ & _ & Hpc & Hcy).
  assert (forall s0, rv_mem (next s0) = rv_mem s0) as Hnext by done.
  assert (forall r v, rv_mem (set_reg r v s) = rv_mem s) as Hset
    by (intros; unfold set_reg; by case_if).
  destruct i; cbn [exec dest] in *; intros He; repeat (case_if; try done); invert_outcome; subst.
  all: try (split; [auto 8 with wf lia|rewrite ?Hnext; cbn; by rewrite ?Hset]).
  - apply wf_set_pc; [auto with wf lia|]. pose proof (uint_range 64 (reg s rs1 + imm) ltac:(lia)).
    generalize dependent (uint64 (reg s rs1 + imm)). intros t Ht. pose proof (Z.mod_pos_bound t 2).
    pose proof (Z.mod_le t 2). unfold is_uint in *. lia.
  - apply wf_next, wf_set_reg; [done|done|].
    apply (uint_mono (width_bits w)); [destruct w; unfold width_bits; cbn; lia|].
    by eapply load_range.
  - match goal with H : store _ _ _ _ = Done _ |- _ => apply store_wf in H as [? ?] end;
      [|done|done|apply uint_range; destruct w; unfold width_bits; cbn; lia].
    split; [by apply wf_next|done].
  - apply wf_next, wf_set_reg, alu64_range; auto with wf lia.
  - apply wf_next, wf_set_reg; [done|done|]. apply uint_range. lia.
  - apply wf_next, wf_set_reg, alu64_range; auto with wf lia.
  - apply wf_next, wf_set_reg; [done|done|]. apply uint_range. lia.
Qed.

Lemma fetch_exec_wf s s' :
  wf s -> valid (rv_mem s) -> fetch_exec s = Done s' -> wf s' /\ valid (rv_mem s').
Proof.
  intros Hs Hm. unfold fetch_exec. intros He. invert_outcome.
  destruct (decode _) as [i|] eqn:Hd; [|done]. apply decode_dest in Hd. invert_outcome. subst s'.
  match goal with H : exec _ _ = Done _ |- _ => apply exec_wf in H as [? ?] end; [|lia|done|done].
  split; [|done]. apply wf_set_cycle; [done|]. apply uint_range. lia.
Qed.

Lemma rv_step_wf s : wf s -> valid (rv_mem s) -> wf (rv_step s).2 /\ valid (rv_mem (rv_step s).2).
Proof.
  intros Hs Hm. unfold rv_step. case_if; [done|]. case_if; [done|].
  destruct (fetch_exec s) eqn:Ef; [|done]. by apply fetch_exec_wf in Ef.
Qed.
End step.

(** ** Classes that implement the interface

    A class with states [S] implements the interface over a memory [M] when its
    methods are those of the specification, seen through [view]; [Inv] is the
    invariant of its states, and its annotations may only affect what the view
    hides. *)

Class UarchImplements {S M : Type} `{WordMem M} (h : access_handler S) (view : S -> rv_state M)
    (Inv : S -> Prop) := {
  impl_op A (o : uop A) s :
    Inv s -> rv_op o (view s) = ((do_op h o s).1, view (do_op h o s).2) /\ Inv (do_op h o s).2;
  impl_begin text s : Inv s -> view (do_begin h text s) = view s /\ Inv (do_begin h text s);
  impl_end text s : Inv s -> view (do_end h text s) = view s /\ Inv (do_end h text s);
}.

Section implementation.
Context {S M : Type} `{WordMem M} (h : access_handler S) (view : S -> rv_state M) (Inv : S -> Prop).
Context `{!UarchImplements h view Inv}.

(** A program behaves on the class as on the specification. *)
Lemma run_implements A (p : prog A) s :
  Inv s -> run rv_handler p (view s) = ((run h p s).1, view (run h p s).2) /\ Inv (run h p s).2.
Proof.
  revert s. induction p as [A a|A e|A X o k IH|A B text p IHp k IHk]; intros s Hs; cbn; [done|done| |].
  - pose proof (impl_op X o s Hs) as [E Hs']. rewrite E.
    destruct (do_op h o s) as [[x|e] s1]; cbn in *; [by apply IH|done].
  - destruct (impl_begin text s Hs) as [Eb Hb].
    destruct (IHp (do_begin h text s) Hb) as [Ep Hp]. rewrite Eb in Ep. rewrite Ep.
    destruct (run h p (do_begin h text s)) as [[b|e] s1]; cbn in *;
      destruct (impl_end text s1 Hp) as [Ee He]; rewrite <- Ee; [by apply IHk|done].
Qed.

Lemma uarch_step_implements (valid : M -> Prop) `{!WordMemLaws M valid} s :
  Inv s -> wf (view s) -> valid (rv_mem (view s)) ->
  rv_step (view s) = ((run h uarch_step s).1, view (run h uarch_step s).2) /\ Inv (run h uarch_step s).2.
Proof.
  intros Hs Hwf Hv. destruct (run_implements _ uarch_step s Hs) as [E Hs']. split; [|done].
  by rewrite <- E, (uarch_step_spec valid).
Qed.
End implementation.
