(* ===== verification/Pma.v ===== *)
(** * Physical memory attributes (pma.h, pma.cpp)

    The entries that describe the ranges of the physical memory: their flags,
    the host memory behind a memory range and its map of dirty pages, which
    tells the Merkle tree which pages to hash again. *)

From S2P Require Import Prelude CppInt Constants Bytes.

(** ** Data *)

Record pma_flags := PmaFlags {
  flag_R : bool; flag_W : bool; flag_X : bool; flag_IR : bool; flag_IW : bool; flag_DID : Z;
}.

(** [flags{}] *)
Definition no_flags : pma_flags := PmaFlags false false false false false 0.

(** [host_base] is the address held by [m_host_memory], and [host_memory] the
    contents of the buffer it points to. *)
Record pma_memory := PmaMemory { mem_length : Z; host_base : Z; host_memory : list Z }.

(** The variant [m_data]; the driver of a device is a pointer to its callbacks. *)
Inductive pma_data :=
  | pma_empty
  | pma_device (driver : string)
  | data_memory (m : pma_memory).

(** The peek callbacks an entry may hold *)
Inductive pma_peek :=
  | pma_peek_error | memory_peek_cb | clint_peek_cb | plic_peek_cb | htif_peek_cb
  | shadow_state_peek_cb | shadow_tlb_peek_cb | shadow_uarch_state_peek_cb.

Record pma_entry := PmaEntry {
  m_description : string;
  m_start : Z;
  m_length : Z;
  m_index : Z;
  m_flags : pma_flags;
  m_peek : pma_peek;
  m_dirty_page_map : list Z;
  m_data : pma_data;
}.

(** ** Accessors *)

Definition get_istart_M (p : pma_entry) : bool :=
  match m_data p with data_memory _ => true | _ => false end.
Definition get_istart_IO (p : pma_entry) : bool :=
  match m_data p with pma_device _ => true | _ => false end.
Definition get_istart_E (p : pma_entry) : bool :=
  match m_data p with pma_empty => true | _ => false end.

Definition get_memory (p : pma_entry) : outcome pma_memory :=
  match m_data p with data_memory m => Done m | _ => Exn bad_variant_access end.

Definition set_flags (f : pma_flags) (p : pma_entry) : pma_entry :=
  PmaEntry (m_description p) (m_start p) (m_length p) (m_index p) f (m_peek p) (m_dirty_page_map p) (m_data p).
Definition set_index (i : Z) (p : pma_entry) : pma_entry :=
  PmaEntry (m_description p) (m_start p) (m_length p) i (m_flags p) (m_peek p) (m_dirty_page_map p) (m_data p).
Definition set_dirty_page_map (l : list Z) (p : pma_entry) : pma_entry :=
  PmaEntry (m_description p) (m_start p) (m_length p) (m_index p) (m_flags p) (m_peek p) l (m_data p).
(** The effect of a store through the pointer to the host memory *)
Definition set_host_memory (l : list Z) (p : pma_entry) : pma_entry :=
  PmaEntry (m_description p) (m_start p) (m_length p) (m_index p) (m_flags p) (m_peek p) (m_dirty_page_map p)
    match m_data p with data_memory m => data_memory (PmaMemory (mem_length m) (host_base m) l) | d => d end.

(** ** Constructors *)

Definition empty_entry (description : string) (start length : Z) : pma_entry :=
  PmaEntry description start length PMA_MAX no_flags pma_peek_error [] pma_empty.

(** All pages of a new memory range are dirty. *)
Definition memory_entry (description : string) (start length : Z) (memory : pma_memory) (peek : pma_peek) :
    pma_entry :=
  PmaEntry description start length PMA_MAX no_flags peek
    (replicate (Z.to_nat (uint64 (length `div` (8 * PMA_PAGE_SIZE) + 1))) 0xff) (data_memory memory).

Definition device_entry (description : string) (start length : Z) (driver : string) (peek : pma_peek) : pma_entry :=
  PmaEntry description start length PMA_MAX no_flags peek [] (pma_device driver).

Definition zero_length (description : string) : exn :=
  invalid_argument (description +:+ " length cannot be zero").

(** The memory that [calloc] returns, at address [base], is zero; a failed
    allocation is not modelled. *)
Definition make_callocd_memory_pma_entry (base : Z) (description : string) (start length : Z) : outcome pma_entry :=
  throw_if (length =? 0) (zero_length description) ≫= fun _ =>
  mret (memory_entry description start length (PmaMemory length base (replicate (Z.to_nat length) 0)) memory_peek_cb).

Definition make_device_pma_entry (description : string) (start length : Z) (peek : pma_peek) (driver : string) :
    outcome pma_entry :=
  throw_if (length =? 0) (zero_length description) ≫= fun _ =>
  mret (device_entry description start length driver peek).

Definition make_empty_pma_entry (description : string) (start length : Z) : pma_entry :=
  empty_entry description start length.

(** ** The packed fields of the white paper *)

Definition get_istart (p : pma_entry) : Z :=
  let f := m_flags p in
  let bit (b : bool) := if b then 1 else 0 in
  let istart := m_start p in
  let istart := istart |ᵇ uint64 (Z.shiftl (bit (get_istart_M p)) PMA_ISTART_M_SHIFT) in
  let istart := istart |ᵇ uint64 (Z.shiftl (bit (get_istart_IO p)) PMA_ISTART_IO_SHIFT) in
  let istart := istart |ᵇ uint64 (Z.shiftl (bit (get_istart_E p)) PMA_ISTART_E_SHIFT) in
  let istart := istart |ᵇ uint64 (Z.shiftl (bit (flag_R f)) PMA_ISTART_R_SHIFT) in
  let istart := istart |ᵇ uint64 (Z.shiftl (bit (flag_W f)) PMA_ISTART_W_SHIFT) in
  let istart := istart |ᵇ uint64 (Z.shiftl (bit (flag_X f)) PMA_ISTART_X_SHIFT) in
  let istart := istart |ᵇ uint64 (Z.shiftl (bit (flag_IR f)) PMA_ISTART_IR_SHIFT) in
  let istart := istart |ᵇ uint64 (Z.shiftl (bit (flag_IW f)) PMA_ISTART_IW_SHIFT) in
  istart |ᵇ uint64 (Z.shiftl (flag_DID f) PMA_ISTART_DID_SHIFT).

Definition get_ilength (p : pma_entry) : Z := m_length p.

(** ** Ranges *)

Definition contains (p : pma_entry) (address length : Z) : bool :=
  if get_istart_E p then false
  else (m_start p <=? address) && (length <=? m_length p)
       && (uint64 (address - m_start p) <=? uint64 (m_length p - length)).

(** ** Dirty pages *)

Definition page_number (address_in_range : Z) : Z := Z.shiftr address_in_range PMA_PAGE_SIZE_LOG2.
Definition map_index (address_in_range : Z) : Z := Z.shiftr (page_number address_in_range) 3.

Definition map_index_ok (p : pma_entry) (address_in_range : Z) : outcome unit :=
  throw_if (negb (map_index address_in_range <? Z.of_nat (length (m_dirty_page_map p))))
    (assertion_failure "map_index < m_dirty_page_map.size()").

(** [m_dirty_page_map[map_index] = f(m_dirty_page_map[map_index])] *)
Definition update_dirty_map (f : Z -> Z) (p : pma_entry) (i : Z) : pma_entry :=
  set_dirty_page_map
    (<[Z.to_nat i := uint8 (f (nth (Z.to_nat i) (m_dirty_page_map p) 0))]> (m_dirty_page_map p)) p.

Definition mark_dirty_page (p : pma_entry) (a : Z) : outcome pma_entry :=
  if bool_decide (m_dirty_page_map p = []) then Done p else
  map_index_ok p a ≫= fun _ =>
  mret (update_dirty_map (fun b => b |ᵇ Z.shiftl 1 (page_number a &ᵇ 7)) p (map_index a)).

Definition mark_clean_page (p : pma_entry) (a : Z) : outcome pma_entry :=
  if bool_decide (m_dirty_page_map p = []) then Done p else
  map_index_ok p a ≫= fun _ =>
  mret (update_dirty_map (fun b => b &ᵇ Z.lnot (Z.shiftl 1 (page_number a &ᵇ 7))) p (map_index a)).

Definition is_page_marked_dirty (p : pma_entry) (a : Z) : outcome bool :=
  if bool_decide (m_dirty_page_map p = []) then Done true else
  map_index_ok p a ≫= fun _ =>
  mret (negb ((nth (Z.to_nat (map_index a)) (m_dirty_page_map p) 0
               &ᵇ Z.shiftl 1 (page_number a &ᵇ 7)) =? 0)).

Definition mark_pages_clean (p : pma_entry) : pma_entry :=
  set_dirty_page_map (replicate (length (m_dirty_page_map p)) 0) p.

(** The loop of [mark_dirty_pages], of [n] iterations *)
Fixpoint mark_pages (n : nat) (p : pma_entry) (page_in_range : Z) : outcome pma_entry :=
  match n with
  | O => Done p
  | S n => p' ← mark_dirty_page p page_in_range; mark_pages n p' (uint64 (page_in_range + PMA_PAGE_SIZE))
  end.

Definition not_in_memory : exn := invalid_argument "address range not entirely in memory PMA".
Definition not_in_pma : exn := invalid_argument "range not contained in pma".

Definition mark_dirty_pages (p : pma_entry) (address size : Z) : outcome pma_entry :=
  if bool_decide (m_dirty_page_map p = []) then Done p else
  throw_if (negb (get_istart_M p) || get_istart_E p) not_in_memory ≫= fun _ =>
  throw_if (negb (contains p address size)) not_in_pma ≫= fun _ =>
  let page_in_range :=
    uint64 (Z.shiftl (Z.shiftr (uint64 (address - m_start p)) PMA_PAGE_SIZE_LOG2) PMA_PAGE_SIZE_LOG2) in
  let npages := uint64 (size + PMA_PAGE_SIZE - 1) `div` PMA_PAGE_SIZE in
  mark_pages (Z.to_nat npages) p page_in_range.

(** ** Writes *)

(** is-pristine.h *)
Definition is_pristine (data : list Z) : bool := fold_left (fun bits b => bits |ᵇ b) data 0 =? 0.

(** [len] bytes from offset [off] of a buffer *)
Definition slice (off len : Z) (l : list Z) : list Z := take (Z.to_nat len) (drop (Z.to_nat off) l).

(** The offsets [0, PMA_PAGE_SIZE, ...] below [size] *)
Definition chunk_offsets (size : Z) : list Z :=
  map (fun i => Z.of_nat i * PMA_PAGE_SIZE)
    (seq 0 (Z.to_nat ((size + PMA_PAGE_SIZE - 1) `div` PMA_PAGE_SIZE))).

(** [memcpy] or [memset] to the host memory, then mark *)
Definition copy_and_mark (p : pma_entry) (paddr : Z) (data : list Z) : outcome pma_entry :=
  m ← get_memory p;
  mark_dirty_pages
    (set_host_memory (splice (Z.to_nat (uint64 (paddr - m_start p))) data (host_memory m)) p)
    paddr (Z.of_nat (length data)).

(** The loop over chunks of a page, which leaves alone the chunks for which
    [same dest] holds *)
Fixpoint copy_chunks (same : Z -> list Z -> bool) (src : Z -> Z -> list Z) (paddr size : Z)
    (offsets : list Z) (p : pma_entry) : outcome pma_entry :=
  match offsets with
  | [] => Done p
  | offset :: offsets =>
      let paddr_offset := uint64 (paddr + offset) in
      let chunk_len := Z.min PMA_PAGE_SIZE (size - offset) in
      m ← get_memory p;
      let dest := slice (uint64 (paddr_offset - m_start p)) chunk_len (host_memory m) in
      p' ← (if same offset dest then Done p else copy_and_mark p paddr_offset (src offset chunk_len));
      copy_chunks same src paddr size offsets p'
  end.

(** [data] is the buffer, or [None] for a null pointer; [size] bytes of it are
    written. *)
Definition write_memory (p : pma_entry) (paddr : Z) (data : option (list Z)) (size : Z) : outcome pma_entry :=
  throw_if (negb (get_istart_M p) || get_istart_E p) not_in_memory ≫= fun _ =>
  throw_if (negb (contains p paddr size)) not_in_pma ≫= fun _ =>
  match data with
  | None => Exn (invalid_argument "invalid data buffer")
  | Some data =>
      if PMA_PAGE_SIZE <? size then
        copy_chunks (fun offset dest => bool_decide (dest = slice offset (Z.of_nat (length dest)) data))
          (fun offset len => slice offset len data) paddr size (chunk_offsets size) p
      else copy_and_mark p paddr (slice 0 size data)
  end.

Definition fill_memory (p : pma_entry) (paddr value size : Z) : outcome pma_entry :=
  throw_if (negb (get_istart_M p) || get_istart_E p) not_in_memory ≫= fun _ =>
  throw_if (negb (contains p paddr size)) not_in_pma ≫= fun _ =>
  if (value =? 0) && (PMA_PAGE_SIZE <? size) then
    copy_chunks (fun _ dest => is_pristine dest)
      (fun _ len => replicate (Z.to_nat len) 0) paddr size (chunk_offsets size) p
  else copy_and_mark p paddr (replicate (Z.to_nat size) value).

(** The callback [memory_peek]: the page, padded with zeros past the end of the
    range, or [None] when it fails *)
Definition memory_peek (p : pma_entry) (page_address : Z) : outcome (option (list Z)) :=
  if negb ((page_address &ᵇ (PMA_PAGE_SIZE - 1)) =? 0) || (m_length p <? page_address) then Done None
  else
    m ← get_memory p;
    if m_length p <? uint64 (page_address + PMA_PAGE_SIZE) then
      let partial := slice page_address (m_length p - page_address) (host_memory m) in
      mret (Some (partial ++ replicate (Z.to_nat PMA_PAGE_SIZE - length partial) 0))
    else mret (Some (slice page_address PMA_PAGE_SIZE (host_memory m))).
