(* ===== verification/PmaSpec.v ===== *)
(** * Correctness of the physical memory entries

    The map of dirty pages as a set of pages, and the writes: what they store
    and which pages they mark. *)

From S2P Require Import Prelude CppInt Constants Bytes Pma.

(** ** Abstraction *)

Definition host (p : pma_entry) : list Z :=
  match m_data p with data_memory m => host_memory m | _ => [] end.

Definition page_dirty (p : pma_entry) (k : Z) : bool :=
  Z.testbit (nth (Z.to_nat (k `div` 8)) (m_dirty_page_map p) 0) (k `mod` 8).

Definition page (p : pma_entry) (k : Z) : list Z := slice (k * PMA_PAGE_SIZE) PMA_PAGE_SIZE (host p).

(** A memory range as its constructor makes it, within the 56-bit addressable
    space the machine restricts its ranges to *)
Record memory_wf (p : pma_entry) : Prop := {
  wf_memory : get_istart_M p = true;
  wf_host : length (host p) = Z.to_nat (m_length p);
  wf_start : 0 <= m_start p;
  wf_length : 0 < m_length p;
  wf_end : m_start p + m_length p <= 2 ^ 56;
  wf_map : length (m_dirty_page_map p) = Z.to_nat (m_length p `div` (8 * PMA_PAGE_SIZE) + 1);
}.

(** [p'] is [p] with another map of dirty pages. *)
Definition same_memory (p p' : pma_entry) : Prop :=
  p' = set_dirty_page_map (m_dirty_page_map p') p /\
  length (m_dirty_page_map p') = length (m_dirty_page_map p).

#[export] Instance same_memory_preorder : PreOrder same_memory.
Proof.
  split.
  - intros []. done.
  - intros p q r [Hq Hql] [Hr Hrl]. split; [|congruence]. rewrite Hr, Hq. done.
Qed.

Lemma same_memory_wf p p' : same_memory p p' -> memory_wf p -> memory_wf p'.
Proof. intros [-> Hl] [H1 H2 H3 H4 H5 H6]. constructor; try done. cbn. rewrite <- H6. exact Hl. Qed.

Lemma same_memory_host p p' : same_memory p p' -> host p' = host p.
Proof. by intros [-> _]. Qed.

(** Linear arithmetic over page numbers and offsets *)
Ltac page_lia :=
  unfold PAGE_OFFSET_MASK, PMA_PAGE_SIZE in *;
  change (2 ^ 12) with 4096 in *; change (8 * 4096) with 32768 in *; change (4096 * 8) with 32768 in *;
  Z.div_mod_to_equations; lia.

(** ** Bits of the map *)

Lemma page_bit a : Z.shiftl 1 (page_number a &ᵇ 7) = 2 ^ ((a `div` PMA_PAGE_SIZE) `mod` 8).
Proof.
  unfold page_number. rewrite Z.shiftr_div_pow2 by done.
  rewrite (land_ones_mod _ 3), Z.shiftl_1_l by done. done.
Qed.

Lemma map_index_spec a : map_index a = (a `div` PMA_PAGE_SIZE) `div` 8.
Proof. unfold map_index, page_number. by rewrite !Z.shiftr_div_pow2. Qed.

Lemma map_index_in_range p a :
  memory_wf p -> 0 <= a <= m_length p -> map_index_ok p a = Done tt.
Proof.
  intros [_ _ _ ? _ Hm] Ha. unfold map_index_ok. rewrite Hm, map_index_spec.
  rewrite Z.div_div, Z2Nat.id by (try done; page_lia).
  replace (a `div` (PMA_PAGE_SIZE * 8) <? m_length p `div` (8 * PMA_PAGE_SIZE) + 1) with true; [done|].
  symmetry. apply Z.ltb_lt. page_lia.
Qed.

Lemma map_nonempty p : memory_wf p -> bool_decide (m_dirty_page_map p = []) = false.
Proof.
  intros [_ _ _ ? _ Hm]. apply bool_decide_eq_false. intros E. rewrite E in Hm. cbn in Hm.
  page_lia.
Qed.

Lemma map_slot p a : memory_wf p -> 0 <= a <= m_length p -> 
  (Z.to_nat ((a `div` PMA_PAGE_SIZE) `div` 8) < length (m_dirty_page_map p))%nat.
Proof.
  intros Hp Ha. pose proof (map_index_in_range p a Hp Ha) as H.
  unfold map_index_ok in H. apply throw_if_done in H. reflect_bools. rewrite map_index_spec in H.
  assert (0 <= a `div` PMA_PAGE_SIZE `div` 8) by page_lia. lia.
Qed.

(** An update of the byte of the page of [a] that keeps its other bits *)
Lemma update_dirty_spec p a f v :
  memory_wf p -> 0 <= a <= m_length p ->
  let q := a `div` PMA_PAGE_SIZE in
  (forall b i, 0 <= i < 8 -> Z.testbit (f b) i = if i =? q `mod` 8 then v else Z.testbit b i) ->
  let p' := update_dirty_map f p (map_index a) in
  same_memory p p' /\
  (forall k, 0 <= k -> page_dirty p' k = if k =? q then v else page_dirty p k).
Proof.
  intros Hp Ha q Hf p'. split.
  - split; [done|]. cbn. apply length_insert.
  - intros k Hk. unfold page_dirty, p', update_dirty_map. rewrite map_index_spec. fold q. cbn.
    assert (0 <= q) as Hq by (clear -Ha; subst q; page_lia).
    pose proof (map_slot p a Hp Ha) as Hslot. fold q in Hslot. clearbody q. clear p'.
    destruct (decide (k `div` 8 = q `div` 8)) as [E|E].
    + rewrite E, nth_insert by done. 
      pose proof (Z.mod_pos_bound k 8 ltac:(lia)).
      rewrite uint_testbit by lia. replace (k `mod` 8 <? 8) with true by lia. cbn [andb].
      rewrite Hf by done.
      replace (k `mod` 8 =? q `mod` 8) with (k =? q) by (apply eq_true_iff_eq; rewrite !Z.eqb_eq; clear Hf; page_lia).
      done.
    + rewrite nth_insert_ne.
      * destruct (Z.eqb_spec k q) as [->|]; done.
      * intros E'. apply E. apply Z2Nat.inj in E'; [done|apply Z.div_pos; lia..].
Qed.

Lemma mark_dirty_page_spec p a :
  memory_wf p -> 0 <= a <= m_length p ->
  exists p', mark_dirty_page p a = Done p' /\ same_memory p p' /\
    forall k, 0 <= k -> page_dirty p' k = page_dirty p k || (k =? a `div` PMA_PAGE_SIZE).
Proof.
  intros Hp Ha. unfold mark_dirty_page. rewrite map_nonempty, map_index_in_range by done. cbn.
  eexists. split; [done|].
  destruct (update_dirty_spec p a (fun b => b |ᵇ Z.shiftl 1 (page_number a &ᵇ 7)) true Hp Ha) as [Hs Hk].
  - intros b i Hi. rewrite page_bit, Z.lor_spec. case_if; reflect_bools; subst.
    + by rewrite Z.pow2_bits_true, orb_true_r by lia.
    + by rewrite Z.pow2_bits_false, orb_false_r by lia.
  - split; [done|]. intros k ?. rewrite Hk by done. by case_if; rewrite ?orb_true_r, ?orb_false_r.
Qed.

Lemma mark_clean_page_spec p a :
  memory_wf p -> 0 <= a <= m_length p ->
  exists p', mark_clean_page p a = Done p' /\ same_memory p p' /\
    forall k, 0 <= k -> page_dirty p' k = page_dirty p k && negb (k =? a `div` PMA_PAGE_SIZE).
Proof.
  intros Hp Ha. unfold mark_clean_page. rewrite map_nonempty, map_index_in_range by done. cbn.
  eexists. split; [done|].
  destruct (update_dirty_spec p a (fun b => b &ᵇ Z.lnot (Z.shiftl 1 (page_number a &ᵇ 7))) false Hp Ha) as [Hs Hk].
  - intros b i Hi. rewrite page_bit, Z.land_spec, Z.lnot_spec by lia. case_if; reflect_bools; subst.
    + by rewrite Z.pow2_bits_true, andb_false_r by lia.
    + by rewrite Z.pow2_bits_false, andb_true_r by lia.
  - split; [done|]. intros k ?. rewrite Hk by done. by case_if; rewrite ?andb_true_r, ?andb_false_r.
Qed.

Lemma is_page_marked_dirty_spec p a :
  memory_wf p -> 0 <= a <= m_length p ->
  is_page_marked_dirty p a = Done (page_dirty p (a `div` PMA_PAGE_SIZE)).
Proof.
  intros Hp Ha. unfold is_page_marked_dirty. rewrite map_nonempty, map_index_in_range by done. cbn.
  rewrite page_bit, land_pow2, negb_involutive, map_index_spec by (apply Z.mod_pos_bound; lia). done.
Qed.

Lemma mark_pages_clean_spec p k : memory_wf p -> page_dirty (mark_pages_clean p) k = false.
Proof.
  intros Hp. unfold page_dirty. cbn. by rewrite nth_replicate_0, Z.testbit_0_l.
Qed.

Lemma interval_S q k n :
  (k =? q) || ((q + 1 <=? k) && (k <? q + 1 + Z.of_nat n)) = (q <=? k) && (k <? q + Z.of_nat (S n)).
Proof. rewrite Nat2Z.inj_succ. bool_cases. Qed.

Lemma interval_1 q k : (k =? q) = (q <=? k) && (k <? q + 1).
Proof. bool_cases. Qed.

Lemma mark_pages_spec n p a :
  memory_wf p -> 0 <= a -> a + (Z.of_nat n - 1) * PMA_PAGE_SIZE <= m_length p ->
  exists p', mark_pages n p a = Done p' /\ same_memory p p' /\
    forall k, 0 <= k ->
      page_dirty p' k = page_dirty p k
        || ((a `div` PMA_PAGE_SIZE <=? k) && (k <? a `div` PMA_PAGE_SIZE + Z.of_nat n)).
Proof.
  revert p a. induction n as [|n IH]; intros p a Hp Ha Hn.
  - exists p. split; [done|]. split; [done|]. intros k Hk.
    generalize (a `div` PMA_PAGE_SIZE). change (Z.of_nat 0) with 0. intros q.
    destruct (page_dirty p k); cbn [orb]; lia.
  - cbn [mark_pages]. destruct (mark_dirty_page_spec p a Hp) as (p1 & -> & Hs1 & Hk1); [page_lia|].
    cbn [mbind outcome_bind].
    assert (memory_wf p1) as Hp1 by by eapply same_memory_wf.
    assert (m_length p1 = m_length p) as Hl by (destruct Hs1 as [-> _]; done).
    pose proof (wf_end p Hp). pose proof (wf_start p Hp).
    destruct n as [|n].
    + exists p1. split; [done|]. split; [done|]. intros k Hk. rewrite Hk1, interval_1 by done. done.
    + rewrite (uint_id 64) by (unfold is_uint; page_lia).
      destruct (IH p1 (a + PMA_PAGE_SIZE)) as (p2 & -> & Hs2 & Hk2); [done|page_lia|rewrite Hl; page_lia|].
      exists p2. split; [done|]. split; [by etrans|]. intros k Hk. rewrite Hk2, Hk1, <- orb_assoc by done.
      f_equal. clear -Ha. replace ((a + PMA_PAGE_SIZE) `div` PMA_PAGE_SIZE) with (a `div` PMA_PAGE_SIZE + 1) by page_lia.
      apply interval_S.
Qed.

(** ** Ranges *)

Lemma contains_spec p a n :
  memory_wf p -> is_uint 64 a -> is_uint 64 n ->
  contains p a n = bool_decide (m_start p <= a /\ a + n <= m_start p + m_length p).
Proof.
  intros Hp Ha Hn. unfold contains. pose proof (wf_memory p Hp) as HM.
  replace (get_istart_E p) with false by (unfold get_istart_M, get_istart_E in *; by destruct (m_data p)).
  pose proof (wf_start p Hp). pose proof (wf_end p Hp). pose proof (wf_length p Hp). unfold is_uint in *.
  destruct (Z.leb_spec (m_start p) a), (Z.leb_spec n (m_length p)); cbn [andb].
  - rewrite !uint_id by (unfold is_uint; lia). apply eq_true_iff_eq. rewrite bool_decide_eq_true. lia.
  - symmetry. apply bool_decide_eq_false. lia.
  - symmetry. apply bool_decide_eq_false. lia.
  - symmetry. apply bool_decide_eq_false. lia.
Qed.

Lemma not_empty p : get_istart_M p = true -> get_istart_E p = false.
Proof. unfold get_istart_M, get_istart_E. by destruct (m_data p). Qed.

(** The pages a range of [size] bytes at offset [o] is taken to touch *)
Definition marked (o size k : Z) : bool :=
  (o `div` PMA_PAGE_SIZE <=? k)
  && (k <? o `div` PMA_PAGE_SIZE + (size + PMA_PAGE_SIZE - 1) `div` PMA_PAGE_SIZE).

Lemma mark_dirty_pages_spec p paddr size :
  memory_wf p -> 0 <= size -> m_start p <= paddr -> paddr + size <= m_start p + m_length p ->
  exists p', mark_dirty_pages p paddr size = Done p' /\ same_memory p p' /\
    forall k, 0 <= k -> page_dirty p' k = page_dirty p k || marked (paddr - m_start p) size k.
Proof.
  intros Hp Hsize Hlo Hhi. unfold mark_dirty_pages. rewrite map_nonempty by done.
  pose proof (wf_start p Hp). pose proof (wf_end p Hp). pose proof (wf_length p Hp).
  rewrite (wf_memory p Hp), not_empty by apply Hp. cbn [negb orb throw_if mbind outcome_bind].
  rewrite contains_spec, bool_decide_eq_true_2 by (done || unfold is_uint; lia).
  cbn [negb throw_if].
  rewrite (uint_id 64 (paddr - _)), (uint_id 64 (size + _ - 1)) by (unfold is_uint; page_lia).
  rewrite Z.shiftr_div_pow2, Z.shiftl_mul_pow2 by done. change (2 ^ PMA_PAGE_SIZE_LOG2) with PMA_PAGE_SIZE.
  rewrite uint_id by (unfold is_uint; page_lia).
  destruct (mark_pages_spec (Z.to_nat ((size + PMA_PAGE_SIZE - 1) `div` PMA_PAGE_SIZE)) p
    ((paddr - m_start p) `div` PMA_PAGE_SIZE * PMA_PAGE_SIZE)) as (p' & -> & Hs & Hk); [done|page_lia| |].
  - rewrite Z2Nat.id by page_lia. page_lia.
  - exists p'. split; [done|]. split; [done|]. intros k Hk0. rewrite Hk by done. unfold marked.
    rewrite Z2Nat.id, Z.div_mul by page_lia. done.
Qed.

(** ** Writes *)

Lemma splice_lookup k new old i :
  (k + length new <= length old)%nat ->
  splice k new old !! i =
    if decide (k <= i < k + length new)%nat then new !! (i - k)%nat else old !! i.
Proof.
  intros H. unfold splice. destruct (decide (i < k)%nat).
  - rewrite lookup_app_l by (rewrite length_take; lia). rewrite lookup_take_lt by lia.
    by rewrite decide_False by lia.
  - rewrite lookup_app_r by (rewrite length_take; lia). rewrite length_take, Nat.min_l by lia.
    destruct (decide (i < k + length new)%nat).
    + rewrite lookup_app_l by lia. by rewrite decide_True by lia.
    + rewrite lookup_app_r by lia. rewrite lookup_drop, decide_False by lia. f_equal. lia.
Qed.

Lemma lookup_slice off len l i :
  slice off len l !! i = if decide (i < Z.to_nat len)%nat then l !! (Z.to_nat off + i)%nat else None.
Proof.
  unfold slice. destruct (decide _).
  - by rewrite lookup_take_lt, lookup_drop by lia.
  - by rewrite lookup_take_ge by lia.
Qed.

Lemma length_slice off len l :
  0 <= off -> 0 <= len -> off + len <= Z.of_nat (length l) -> length (slice off len l) = Z.to_nat len.
Proof. intros. unfold slice. rewrite length_take, length_drop. lia. Qed.

Lemma splice_app k a b h :
  (k + length a + length b <= length h)%nat ->
  splice (k + length a) b (splice k a h) = splice k (a ++ b) h.
Proof.
  intros Hl. apply list_eq. intros i.
  rewrite !splice_lookup by (rewrite ?length_splice, ?length_app; lia). rewrite length_app.
  repeat case_decide; try lia; try done.
  - rewrite lookup_app_r by lia. f_equal. lia.
  - by rewrite lookup_app_l by lia.
Qed.

Lemma splice_nil k h : splice k [] h = h.
Proof. unfold splice. cbn. rewrite Nat.add_0_r. apply take_drop. Qed.

Lemma splice_same k new h : (k + length new <= length h)%nat -> take (length new) (drop k h) = new -> splice k new h = h.
Proof.
  intros Hk Hsame. apply list_eq. intros i. rewrite splice_lookup by done. case_decide; [|done].
  rewrite <- Hsame at 1. rewrite lookup_take_lt, lookup_drop by lia. f_equal. lia.
Qed.

Lemma set_host_memory_wf p l :
  memory_wf p -> length l = Z.to_nat (m_length p) ->
  memory_wf (set_host_memory l p) /\ host (set_host_memory l p) = l.
Proof.
  intros [H1 H2 H3 H4 H5 H6] Hl. unfold get_istart_M in H1.
  assert (host (set_host_memory l p) = l) as Hh.
  { unfold host, set_host_memory. cbn. by destruct (m_data p). }
  split; [|done]. constructor; try done.
  - unfold get_istart_M. cbn. by destruct (m_data p).
  - by rewrite Hh.
Qed.

Lemma get_memory_host p : memory_wf p -> exists m, get_memory p = Done m /\ host_memory m = host p.
Proof.
  intros Hp%wf_memory. unfold get_istart_M, get_memory, host in *. destruct (m_data p); try done. eauto.
Qed.

(** What the owner of the dirty map relies on: a page that is clean after the
    operation was clean before it and has the same contents. *)
Definition tracked (p p' : pma_entry) : Prop :=
  forall k, 0 <= k -> page_dirty p' k = false -> page_dirty p k = false /\ page p' k = page p k.

#[export] Instance tracked_preorder : PreOrder tracked.
Proof.
  split; [done|]. intros p q r Hq Hr k Hk Hd.
  destruct (Hr k Hk Hd) as [Hd' ->]. by apply Hq.
Qed.

(** [p'] is the range [p] with other contents. *)
Definition same_range (p p' : pma_entry) : Prop :=
  memory_wf p' /\ m_start p' = m_start p /\ m_length p' = m_length p /\ m_flags p' = m_flags p /\ m_peek p' = m_peek p.

(** A write of [size] bytes at offset [o] stays within the pages that are
    marked. *)
Definition covered (o size : Z) : Prop :=
  o `mod` PMA_PAGE_SIZE = 0 \/ o `mod` PMA_PAGE_SIZE + size <= PMA_PAGE_SIZE.

Lemma page_splice_unmarked o data h k :
  0 <= o -> 0 <= k -> (Z.to_nat o + length data <= length h)%nat ->
  covered o (Z.of_nat (length data)) -> marked o (Z.of_nat (length data)) k = false ->
  slice (k * PMA_PAGE_SIZE) PMA_PAGE_SIZE (splice (Z.to_nat o) data h) = slice (k * PMA_PAGE_SIZE) PMA_PAGE_SIZE h.
Proof.
  intros Ho Hk Hl Hc Hm. destruct (decide (length data = 0%nat)) as [->%nil_length_inv|Hne].
  { by rewrite splice_nil. }
  unfold slice. apply splice_read_ne; [done|].
  unfold marked in Hm. apply andb_false_iff in Hm. rewrite Z.leb_gt, Z.ltb_ge in Hm.
  unfold covered in Hc. 
  assert ((k + 1) * PMA_PAGE_SIZE <= o \/ o + Z.of_nat (length data) <= k * PMA_PAGE_SIZE) as H
    by page_lia.
  unfold PMA_PAGE_SIZE in *. change (2 ^ 12) with 4096 in *. 
  lia.
Qed.

Lemma copy_and_mark_spec p paddr data :
  memory_wf p -> m_start p <= paddr -> paddr + Z.of_nat (length data) <= m_start p + m_length p ->
  let o := paddr - m_start p in
  exists p', copy_and_mark p paddr data = Done p' /\ same_range p p' /\
    host p' = splice (Z.to_nat o) data (host p) /\
    (covered o (Z.of_nat (length data)) -> tracked p p') /\
    (forall k, 0 <= k -> page_dirty p' k = page_dirty p k || marked o (Z.of_nat (length data)) k).
Proof.
  intros Hp Hlo Hhi o. unfold copy_and_mark.
  destruct (get_memory_host p Hp) as (m & -> & Hmem). cbn [mbind outcome_bind]. rewrite Hmem.
  pose proof (wf_start p Hp). pose proof (wf_end p Hp). pose proof (wf_length p Hp). pose proof (wf_host p Hp) as Hh.
  rewrite uint_id by (unfold is_uint; lia). fold o.
  assert (Z.to_nat o + length data <= length (host p))%nat as Hfit by (subst o; lia).
  destruct (set_host_memory_wf p (splice (Z.to_nat o) data (host p)) Hp) as [Hp1 Hh1];
    [by rewrite length_splice|].
  set (p1 := set_host_memory _ _) in *.
  destruct (mark_dirty_pages_spec p1 paddr (Z.of_nat (length data)) Hp1) as (p' & -> & Hs & Hk);
    [lia|done|done|]. change (m_start p1) with (m_start p) in Hk. fold o in Hk.
  exists p'. split; [done|]. pose proof (same_memory_wf _ _ Hs Hp1) as Hp'.
  assert (host p' = splice (Z.to_nat o) data (host p)) as Hh' by (by rewrite (same_memory_host _ _ Hs)).
  split; [split; [done|]; destruct Hs as [-> _]; done|]. split; [done|]. split.
  - intros Hc k Hk0 Hd. rewrite Hk in Hd by done. apply orb_false_iff in Hd as [Hd Hm].
    split; [done|]. unfold page. rewrite Hh'. apply page_splice_unmarked; try done. subst o. lia.
  - intros k Hk0. by rewrite Hk.
Qed.

(** The loop over the chunks [j, ..., n - 1] *)
Section chunks.
Context (same : Z -> list Z -> bool) (src : Z -> Z -> list Z) (data : list Z).
Context (Hsrc : forall off len, 0 <= off -> 0 <= len -> off + len <= Z.of_nat (length data) ->
  src off len = slice off len data).
Context (Hsame : forall off dest, 0 <= off -> off + Z.of_nat (length dest) <= Z.of_nat (length data) ->
  same off dest = true -> dest = slice off (Z.of_nat (length dest)) data).

Lemma copy_chunk_step p paddr j (o := paddr - m_start p) (size := Z.of_nat (length data)) :
  memory_wf p -> m_start p <= paddr -> paddr + size <= m_start p + m_length p ->
  0 <= j -> j * PMA_PAGE_SIZE < size ->
  let offset := j * PMA_PAGE_SIZE in
  let len := Z.min PMA_PAGE_SIZE (size - offset) in
  exists p',
    (m ← get_memory p;
     (if same offset (slice (uint64 (uint64 (paddr + offset) - m_start p)) len (host_memory m)) then Done p
      else copy_and_mark p (uint64 (paddr + offset)) (src offset len))) = Done p' /\
    same_range p p' /\
    host p' = splice (Z.to_nat (o + offset)) (slice offset len data) (host p) /\
    (o `mod` PMA_PAGE_SIZE = 0 -> tracked p p').
Proof.
  intros Hp Hlo Hhi Hj Hlt offset len.
  pose proof (wf_start p Hp). pose proof (wf_end p Hp). pose proof (wf_length p Hp). pose proof (wf_host p Hp) as Hh.
  destruct (get_memory_host p Hp) as (m & -> & Hmem). cbn [mbind outcome_bind]. rewrite Hmem.
  assert (0 <= offset) by (subst offset; page_lia).
  assert (0 < len) by (subst len; page_lia).
  assert (offset + len <= size) by lia.
  rewrite !uint_id by (unfold is_uint; rewrite ?uint_id by (unfold is_uint; lia); lia).
  replace (paddr + offset - m_start p) with (o + offset) by lia.
  assert (length (slice (o + offset) len (host p)) = Z.to_nat len) as Hld by (apply length_slice; lia).
  assert (length (slice offset len data) = Z.to_nat len) as Hls by (apply length_slice; lia).
  destruct (same _ _) eqn:Es.
  - exists p. split; [done|]. split; [done|]. split; [|done].
    apply Hsame in Es; [|lia|lia]. rewrite Hld, Z2Nat.id in Es by lia.
    symmetry. apply splice_same; [lia|]. rewrite <- Es. unfold slice in Hld |- *.
    by rewrite Hld.
  - rewrite Hsrc by lia.
    destruct (copy_and_mark_spec p (paddr + offset) (slice offset len data) Hp) as (p' & -> & Hr & Hp' & Ht & _);
      [lia|rewrite Hls; lia|].
    replace (paddr + offset - m_start p) with (o + offset) in * by lia.
    exists p'. do 3 (split; [done|]). intros Hal. apply Ht. left. subst offset. page_lia.
Qed.

Lemma copy_chunks_spec n p paddr j (o := paddr - m_start p) (size := Z.of_nat (length data)) :
  memory_wf p -> m_start p <= paddr -> paddr + size <= m_start p + m_length p ->
  (forall i, (i < n)%nat -> (Z.of_nat (j + i)) * PMA_PAGE_SIZE < size) ->
  exists p',
    copy_chunks same src paddr size (map (fun i => Z.of_nat i * PMA_PAGE_SIZE) (seq j n)) p = Done p' /\
    same_range p p' /\
    host p' = splice (Z.to_nat o + j * Z.to_nat PMA_PAGE_SIZE)
                (take (n * Z.to_nat PMA_PAGE_SIZE) (drop (j * Z.to_nat PMA_PAGE_SIZE) data)) (host p) /\
    (o `mod` PMA_PAGE_SIZE = 0 -> tracked p p').
Proof.
  subst o size. revert p j. induction n as [|n IH]; intros p j Hp Hlo Hhi Hn; cbn [seq map copy_chunks].
  - exists p. split; [done|]. split; [done|]. split; [|done]. by rewrite take_0, splice_nil.
  - assert (Z.of_nat j * PMA_PAGE_SIZE < Z.of_nat (length data)) as Hj
      by (specialize (Hn 0%nat ltac:(lia)); by rewrite Nat.add_0_r in Hn).
    destruct (copy_chunk_step p paddr (Z.of_nat j)) as (p1 & E1 & (Hp1 & Hst & Hlen & Hfl & Hpk) & Hh1 & Ht1);
      [done|done|done|lia|done|].
    apply outcome_bind_done in E1 as (m & -> & E1). cbn [mbind outcome_bind].
    cbn zeta in E1. rewrite E1. cbn [mbind outcome_bind].
    destruct (IH p1 (S j)) as (p' & E' & (Hp' & Hst' & Hlen' & Hfl' & Hpk') & Hh' & Ht');
      [done|by rewrite Hst|by rewrite Hst, Hlen| |].
    { intros i Hi. specialize (Hn (S i) ltac:(lia)). by replace (S j + i)%nat with (j + S i)%nat by lia. }
    exists p'. split; [exact E'|]. split; [split; [done|]; repeat split; congruence|]. split.
    + rewrite Hh', Hh1, Hst. unfold slice.
      pose proof (wf_start p Hp). pose proof (wf_host p Hp).
      assert (exists P, P = Z.to_nat PMA_PAGE_SIZE) as [P HP] by eauto. rewrite <- HP.
      set (a := take (Z.to_nat _) (drop (Z.to_nat _) data)).
      assert (a = take P (drop (j * P) data)) as Ha.
      { subst a. replace (Z.to_nat (Z.of_nat j * PMA_PAGE_SIZE)) with (j * P)%nat by (page_lia).
        destruct (decide (Z.of_nat j * PMA_PAGE_SIZE + PMA_PAGE_SIZE <= Z.of_nat (length data))).
        - replace (Z.to_nat (Z.min _ _)) with P by page_lia. done.
        - rewrite !take_ge by (rewrite length_drop; page_lia). done. }
      destruct n as [|n].
      * rewrite take_0, splice_nil, Nat.mul_1_l, Ha. f_equal. page_lia.
      * assert (Z.of_nat (S j) * PMA_PAGE_SIZE < Z.of_nat (length data)) as Hj'
          by (specialize (Hn 1%nat ltac:(lia)); by replace (S j) with (j + 1)%nat by lia).
        assert (length a = P) as Hla by (rewrite Ha, length_take, length_drop; page_lia).
        replace (Z.to_nat (paddr - m_start p) + S j * P)%nat
          with (Z.to_nat (paddr - m_start p + Z.of_nat j * PMA_PAGE_SIZE) + length a)%nat
          by (rewrite Hla; page_lia).
        rewrite splice_app.
        -- f_equal; [page_lia|]. rewrite Ha.
           change (S (S n) * P)%nat with (P + S n * P)%nat.
           rewrite <- (take_take_drop (drop (j * P) data) P (S n * P)), drop_drop. do 3 f_equal. lia.
        -- rewrite length_take, length_drop, Hla. page_lia.
    + intros Hal. transitivity p1; [by apply Ht1|]. apply Ht'. by rewrite Hst.
Qed.
End chunks.

(** All the chunks *)
Lemma copy_all_chunks same src data p paddr :
  (forall off len, 0 <= off -> 0 <= len -> off + len <= Z.of_nat (length data) ->
    src off len = slice off len data) ->
  (forall off dest, 0 <= off -> off + Z.of_nat (length dest) <= Z.of_nat (length data) ->
    same off dest = true -> dest = slice off (Z.of_nat (length dest)) data) ->
  memory_wf p -> m_start p <= paddr -> paddr + Z.of_nat (length data) <= m_start p + m_length p ->
  exists p',
    copy_chunks same src paddr (Z.of_nat (length data)) (chunk_offsets (Z.of_nat (length data))) p = Done p' /\
    same_range p p' /\
    host p' = splice (Z.to_nat (paddr - m_start p)) data (host p) /\
    ((paddr - m_start p) `mod` PMA_PAGE_SIZE = 0 -> tracked p p').
Proof.
  intros Hsrc Hsame Hp Hlo Hhi. unfold chunk_offsets.
  set (n := Z.to_nat _). assert (n = Z.to_nat ((Z.of_nat (length data) + PMA_PAGE_SIZE - 1) `div` PMA_PAGE_SIZE)) as Hn by done.
  clearbody n.
  destruct (copy_chunks_spec same src data Hsrc Hsame n p paddr 0) as (p' & E & Hr & Hh & Ht); [done..| |].
  - intros i Hi. rewrite Nat.add_0_l. page_lia.
  - exists p'. split; [exact E|]. split; [done|]. split; [|done].
    rewrite Hh. cbn [Nat.mul]. rewrite drop_0, Nat.add_0_r, take_ge; [done|].
    assert (exists P, P = Z.to_nat PMA_PAGE_SIZE) as [P HP] by eauto. rewrite <- HP. page_lia.
Qed.

Lemma is_pristine_spec l : is_pristine l = true <-> l = replicate (length l) 0.
Proof.
  unfold is_pristine. rewrite Z.eqb_eq.
  assert (forall b, fold_left (fun bits b => bits |ᵇ b) l b = 0 <-> b = 0 /\ l = replicate (length l) 0) as H.
  { induction l as [|x l IH]; intros b; cbn; [naive_solver|].
    rewrite IH, Z.lor_eq_0_iff. split; [intros [[-> ->] Hl]|intros [-> Hl]].
    - by rewrite <- Hl.
    - injection Hl as -> Hl. done. }
  rewrite H. naive_solver.
Qed.

Section writes.
Context (p : pma_entry) (Hp : memory_wf p).
Context (paddr size : Z) (Hpaddr : is_uint 64 paddr) (Hsize : is_uint 64 size).
Notation o := (paddr - m_start p).

(** What a write of [data] at [paddr] promises: the bytes are stored, nothing
    else changes, and every page whose contents change is dirty, provided the
    first byte starts a page or all the bytes are in one page. *)
Definition writes (data : list Z) (r : outcome pma_entry) : Prop :=
  exists p', r = Done p' /\ same_range p p' /\
    host p' = splice (Z.to_nat o) data (host p) /\
    (covered o (Z.of_nat (length data)) -> tracked p p').

Definition in_range : Prop := m_start p <= paddr /\ paddr + size <= m_start p + m_length p.

Lemma range_checks {A} (k : unit -> outcome A) :
  (throw_if (negb (get_istart_M p) || get_istart_E p) not_in_memory ≫= fun _ =>
   throw_if (negb (contains p paddr size)) not_in_pma ≫= k) =
  if bool_decide in_range then k tt else Exn not_in_pma.
Proof.
  rewrite (wf_memory p Hp), not_empty by apply Hp. cbn [negb orb throw_if mbind outcome_bind].
  rewrite contains_spec by done. unfold in_range. by destruct (bool_decide _).
Qed.

Lemma write_memory_spec data :
  size <= Z.of_nat (length data) -> in_range ->
  writes (slice 0 size data) (write_memory p paddr (Some data) size).
Proof.
  intros Hd Hin. unfold write_memory. rewrite range_checks, bool_decide_eq_true_2 by done.
  destruct Hin as [Hlo Hhi]. unfold is_uint in *.
  assert (Z.of_nat (length (slice 0 size data)) = size) as Hls by (rewrite length_slice by lia; lia).
  destruct (Z.ltb_spec PMA_PAGE_SIZE size).
  - destruct (copy_all_chunks
      (fun offset dest => bool_decide (dest = slice offset (Z.of_nat (length dest)) data))
      (fun offset len => slice offset len data) (slice 0 size data) p paddr) as (p' & E & Hr & Hh & Ht).
    + intros off len Hoff Hlen Hfit. rewrite Hls in Hfit. apply list_eq. intros i. rewrite !lookup_slice.
      case_decide; [|done]. by rewrite decide_True by lia.
    + intros off dest Hoff Hfit Hs. apply bool_decide_eq_true in Hs. rewrite Hls in Hfit.
      rewrite Hs at 1. apply list_eq. intros i. rewrite !lookup_slice.
      case_decide; [|done]. by rewrite decide_True by lia.
    + done.
    + done.
    + by rewrite Hls.
    + rewrite Hls in E. exists p'. split; [exact E|]. do 2 (split; [done|]).
      intros [?|?]; [by apply Ht|]. page_lia.
  - destruct (copy_and_mark_spec p paddr (slice 0 size data) Hp) as (p' & E & Hr & Hh & Ht & _);
      [done|by rewrite Hls|]. by exists p'.
Qed.

Lemma fill_memory_spec value :
  in_range -> writes (replicate (Z.to_nat size) value) (fill_memory p paddr value size).
Proof.
  intros Hin. unfold fill_memory. rewrite range_checks, bool_decide_eq_true_2 by done.
  destruct Hin as [Hlo Hhi]. unfold is_uint in *.
  assert (Z.of_nat (length (replicate (Z.to_nat size) value)) = size) as Hls
    by (rewrite length_replicate; lia).
  destruct (Z.eqb_spec value 0) as [->|], (Z.ltb_spec PMA_PAGE_SIZE size); cbn [andb].
  1: destruct (copy_all_chunks (fun _ dest => is_pristine dest)
      (fun _ len => replicate (Z.to_nat len) 0) (replicate (Z.to_nat size) 0) p paddr) as (p' & E & Hr & Hh & Ht).
  1: { intros off len Hoff Hlen Hfit. apply list_eq. intros i. rewrite lookup_slice.
       rewrite Hls in Hfit. case_decide.
       - rewrite !lookup_replicate_2 by lia. done.
       - apply lookup_ge_None. rewrite length_replicate. lia. }
  1: { intros off dest Hoff Hfit Hs%is_pristine_spec. rewrite Hls in Hfit. rewrite Hs at 1.
       apply list_eq. intros i. rewrite lookup_slice. case_decide.
       - rewrite !lookup_replicate_2 by lia. done.
       - apply lookup_ge_None. rewrite length_replicate. lia. }
  1-2: done.
  1: by rewrite Hls.
  1: { rewrite Hls in E. exists p'. split; [exact E|]. do 2 (split; [done|]).
       intros [?|?]; [by apply Ht|]. page_lia. }
  all: destruct (copy_and_mark_spec p paddr (replicate (Z.to_nat size) value) Hp) as (p' & E & Hr & Hh & Ht & _)
    || destruct (copy_and_mark_spec p paddr (replicate (Z.to_nat size) 0) Hp) as (p' & E & Hr & Hh & Ht & _);
    [done|by rewrite Hls|]; by exists p'.
Qed.
End writes.

(** ** New ranges *)

Lemma callocd_wf base description start length p :
  0 <= start -> 0 < length -> start + length <= 2 ^ 56 ->
  make_callocd_memory_pma_entry base description start length = Done p ->
  memory_wf p /\ (forall k, 0 <= k <= length `div` PMA_PAGE_SIZE -> page_dirty p k = true).
Proof.
  intros Hs Hl He. unfold make_callocd_memory_pma_entry.
  rewrite (proj2 (Z.eqb_neq _ _)) by lia. cbn [throw_if mbind outcome_bind]. intros E. invert_outcome. subst p.
  assert (uint64 (length `div` (8 * PMA_PAGE_SIZE) + 1) = length `div` (8 * PMA_PAGE_SIZE) + 1) as Hu.
  { apply uint_id. unfold is_uint. page_lia. }
  split.
  - unfold memory_entry. constructor; cbn [m_start m_length m_dirty_page_map m_data get_istart_M host host_memory]; try done.
    + apply length_replicate.
    + by rewrite length_replicate, Hu.
  - intros k Hk. unfold page_dirty, memory_entry. cbn [m_dirty_page_map]. rewrite Hu.
    assert (nth (Z.to_nat (k `div` 8)) (replicate (Z.to_nat (length `div` (8 * PMA_PAGE_SIZE) + 1)) 255) 0 = 255) as ->.
    { apply nth_replicate. page_lia. }
    change 255 with (Z.ones 8). apply Z.ones_spec_low. apply Z.mod_pos_bound. lia.
Qed.

(** ** The packed start field *)

Lemma or_field a s v i :
  0 <= s -> 0 <= i -> (forall j, s <= j -> j <= i -> Z.testbit a j = false) ->
  Z.testbit (a |ᵇ Z.shiftl v s) i = if i <? s then Z.testbit a i else Z.testbit v (i - s).
Proof.
  intros Hs Hi Ha. rewrite Z.lor_spec, Z.shiftl_spec by done. destruct (Z.ltb_spec i s).
  - rewrite (Z.testbit_neg_r v) by lia. by rewrite orb_false_r.
  - by rewrite (Ha i) by lia.
Qed.

Definition istart_flags (p : pma_entry) : Z :=
  let f := m_flags p in
  let bit (b : bool) := if b then 1 else 0 in
  bit (get_istart_M p) + 2 * bit (get_istart_IO p) + 4 * bit (get_istart_E p) + 8 * bit (flag_R f)
  + 16 * bit (flag_W f) + 32 * bit (flag_X f) + 64 * bit (flag_IR f) + 128 * bit (flag_IW f).

(** ** Properties *)

(** The packed start field of a page-aligned range has the type bits, the flags
    and the device id in the low twelve bits and the start of the range above
    them: no two fields overlap. *)
Lemma get_istart_fields p :
  m_start p `mod` PMA_PAGE_SIZE = 0 -> 0 <= flag_DID (m_flags p) < 16 ->
  get_istart p = m_start p + 256 * flag_DID (m_flags p) + istart_flags p.
Proof.
  intros Hs Hd. unfold get_istart, istart_flags. cbv zeta.
  set (did := flag_DID (m_flags p)) in *.
  rewrite (uint_id 64 (Z.shiftl did _)) by (rewrite Z.shiftl_mul_pow2 by done; unfold is_uint, PMA_ISTART_DID_SHIFT; lia).
  assert (forall a b c d e f g h, let l := a |ᵇ (b |ᵇ (c |ᵇ (d |ᵇ (e |ᵇ (f |ᵇ (g |ᵇ h)))))) in
    0 <= l < 256 ->
    m_start p |ᵇ a |ᵇ b |ᵇ c |ᵇ d |ᵇ e |ᵇ f |ᵇ g |ᵇ h |ᵇ Z.shiftl did PMA_ISTART_DID_SHIFT =
    m_start p + 256 * did + l) as Hor.
  { intros a b c d e f g h l Hl. transitivity (m_start p |ᵇ (Z.shiftl did PMA_ISTART_DID_SHIFT |ᵇ l)).
    - rewrite (Z.lor_comm _ l). subst l. by rewrite !Z.lor_assoc.
    - rewrite Z.shiftl_mul_pow2, (lor_add_low did l) by (unfold PMA_ISTART_DID_SHIFT; lia).
      replace (m_start p) with (m_start p `div` PMA_PAGE_SIZE * 2 ^ 12) by page_lia.
      unfold PMA_ISTART_DID_SHIFT. rewrite lor_add_low by lia. lia. }
  rewrite Hor;
    destruct (get_istart_M p), (get_istart_IO p), (get_istart_E p), (flag_R _), (flag_W _), (flag_X _),
      (flag_IR _), (flag_IW _); try (vm_compute; split; congruence); cbn; lia.
Qed.

(** C22: a write of a memory range stores exactly its bytes and, when it starts
    at a page or stays within one, marks every page whose contents change; out
    of the range or from a null pointer it fails. *)
Theorem write_memory_correct p paddr size data :
  memory_wf p -> is_uint 64 paddr -> is_uint 64 size -> size <= Z.of_nat (length data) ->
  write_memory p paddr None size =
    Exn (if bool_decide (in_range p paddr size) then invalid_argument "invalid data buffer" else not_in_pma) /\
  if bool_decide (in_range p paddr size)
  then writes p paddr (slice 0 size data) (write_memory p paddr (Some data) size)
  else write_memory p paddr (Some data) size = Exn not_in_pma.
Proof.
  intros Hp Ha Hs Hd. split.
  - unfold write_memory. rewrite range_checks by done. by destruct (bool_decide _).
  - case_bool_decide as Hin; [by apply write_memory_spec|].
    unfold write_memory. rewrite range_checks by done. by rewrite bool_decide_eq_false_2.
Qed.

(** A range of two pages whose pages are clean *)
Definition two_clean_pages : pma_entry :=
  mark_pages_clean (memory_entry "range" 0x1000 0x2000 (PmaMemory 0x2000 0 (replicate (Z.to_nat 0x2000) 0)) memory_peek_cb).

Lemma two_clean_pages_wf : memory_wf two_clean_pages.
Proof. constructor; vm_compute; congruence. Qed.

Lemma write_memory_correct_witness :
  exists p', write_memory two_clean_pages 0x2000 (Some [1; 2; 3]) 3 = Done p' /\
    slice 0x1000 4 (host p') = [1; 2; 3; 0].
Proof.
  destruct (write_memory_correct two_clean_pages 0x2000 3 [1; 2; 3] two_clean_pages_wf) as [_ H];
    [unfold is_uint; lia|unfold is_uint; lia|cbn; lia|].
  rewrite bool_decide_eq_true_2 in H by (split; vm_compute; congruence).
  destruct H as (p' & E & _ & Hh & _). exists p'. split; [exact E|]. rewrite Hh. vm_compute. reflexivity.
Defined.

(** The same for filling a range with a byte. *)
Theorem fill_memory_correct p paddr value size :
  memory_wf p -> is_uint 64 paddr -> is_uint 64 size ->
  if bool_decide (in_range p paddr size)
  then writes p paddr (replicate (Z.to_nat size) value) (fill_memory p paddr value size)
  else fill_memory p paddr value size = Exn not_in_pma.
Proof.
  intros Hp Ha Hs. case_bool_decide as Hin; [by apply fill_memory_spec|].
  unfold fill_memory. rewrite range_checks by done. by rewrite bool_decide_eq_false_2.
Qed.

Lemma fill_memory_correct_witness :
  exists p', fill_memory two_clean_pages 0x1000 7 5 = Done p' /\ slice 3 3 (host p') = [7; 7; 0].
Proof.
  pose proof (fill_memory_correct two_clean_pages 0x1000 7 5 two_clean_pages_wf) as H.
  rewrite bool_decide_eq_true_2 in H by (split; vm_compute; congruence).
  destruct H as (p' & E & _ & Hh & _); [unfold is_uint; lia|unfold is_uint; lia|].
  exists p'. split; [exact E|]. rewrite Hh. vm_compute. reflexivity.
Defined.

(** A write that crosses a page boundary and is not longer than a page marks
    only its first page: the contents of the second one change while the map
    still says that it is clean, so the Merkle tree is not updated. *)
Theorem write_memory_misses_page :
  exists p' : pma_entry,
    write_memory two_clean_pages 0x1fff (Some [1; 1]) 2 = Done p' /\
    is_page_marked_dirty p' 0 = Done true /\
    is_page_marked_dirty p' PMA_PAGE_SIZE = Done false /\
    page p' 1 <> page two_clean_pages 1.
Proof.
  eexists. split; [vm_compute; reflexivity|]. split; [vm_compute; reflexivity|].
  split; [vm_compute; reflexivity|]. vm_compute. congruence.
Qed.

(** The map of dirty pages is a set of pages: marking a page adds it,
    cleaning it removes it, no other page is affected, and a mark can always be
    read back. *)
Theorem dirty_map_set p a b :
  memory_wf p -> 0 <= a < m_length p -> 0 <= b < m_length p ->
  let same := a `div` PMA_PAGE_SIZE =? b `div` PMA_PAGE_SIZE in
  exists d,
    is_page_marked_dirty p b = Done d /\
    (p' ← mark_dirty_page p a; is_page_marked_dirty p' b) = Done (d || same) /\
    (p' ← mark_clean_page p a; is_page_marked_dirty p' b) = Done (d && negb same) /\
    is_page_marked_dirty (mark_pages_clean p) b = Done false.
Proof.
  intros Hp Ha Hb same. exists (page_dirty p (b `div` PMA_PAGE_SIZE)).
  assert (0 <= b `div` PMA_PAGE_SIZE) by page_lia.
  split; [apply is_page_marked_dirty_spec; [done|lia]|].
  destruct (mark_dirty_page_spec p a Hp) as (p1 & -> & Hs1 & Hk1); [lia|].
  destruct (mark_clean_page_spec p a Hp) as (p2 & -> & Hs2 & Hk2); [lia|].
  cbn [mbind outcome_bind].
  assert (m_length p1 = m_length p) as Hl1 by (destruct Hs1 as [-> _]; done).
  assert (m_length p2 = m_length p) as Hl2 by (destruct Hs2 as [-> _]; done).
  rewrite !is_page_marked_dirty_spec; try (eapply same_memory_wf; eassumption); try lia.
  - rewrite Hk1, Hk2, mark_pages_clean_spec by done. subst same. by rewrite (Z.eqb_sym (a `div` _)).
  - eapply same_memory_wf; [|done]. split; [done|]. apply length_replicate.
  - cbn. lia.
Qed.

Lemma dirty_map_set_witness :
  is_page_marked_dirty two_clean_pages 0x1004 = Done false /\
  (p' ← mark_dirty_page two_clean_pages 0x1fff; is_page_marked_dirty p' 0x1004) = Done true.
Proof.
  destruct (dirty_map_set two_clean_pages 0x1fff 0x1004 two_clean_pages_wf) as (d & Hd & Hm & _ & _);
    [vm_compute; split; congruence|vm_compute; split; congruence|].
  assert (d = false) as -> by (vm_compute in Hd; congruence).
  split; [exact Hd|exact Hm].
Defined.
