(* ===== verification/MachineState.v ===== *)
(** * The state of the machine (machine-state.h, machine-reg.h, shadow-state.h, shadow-tlb.h)

    The registers, the TLB and the memory map of the emulated machine, and the
    addresses at which its registers appear in the shadow of its state. *)

From S2P Require Import Prelude CppInt Constants Pma.

(** ** Registers and their addresses *)

(** [enum class machine_reg], without the views of the HTIF registers *)
Inductive machine_reg : Type :=
  | reg_x0 | reg_x1 | reg_x2 | reg_x3 | reg_x4 | reg_x5 | reg_x6 | reg_x7 | reg_x8 | reg_x9
  | reg_x10 | reg_x11 | reg_x12 | reg_x13 | reg_x14 | reg_x15 | reg_x16 | reg_x17 | reg_x18
  | reg_x19 | reg_x20 | reg_x21 | reg_x22 | reg_x23 | reg_x24 | reg_x25 | reg_x26 | reg_x27
  | reg_x28 | reg_x29 | reg_x30 | reg_x31 | reg_f0 | reg_f1 | reg_f2 | reg_f3 | reg_f4 | reg_f5
  | reg_f6 | reg_f7 | reg_f8 | reg_f9 | reg_f10 | reg_f11 | reg_f12 | reg_f13 | reg_f14 | reg_f15
  | reg_f16 | reg_f17 | reg_f18 | reg_f19 | reg_f20 | reg_f21 | reg_f22 | reg_f23 | reg_f24
  | reg_f25 | reg_f26 | reg_f27 | reg_f28 | reg_f29 | reg_f30 | reg_f31 | reg_pc | reg_fcsr
  | reg_mvendorid | reg_marchid | reg_mimpid | reg_mcycle | reg_icycleinstret | reg_mstatus
  | reg_mtvec | reg_mscratch | reg_mepc | reg_mcause | reg_mtval | reg_misa | reg_mie | reg_mip
  | reg_medeleg | reg_mideleg | reg_mcounteren | reg_menvcfg | reg_stvec | reg_sscratch | reg_sepc
  | reg_scause | reg_stval | reg_satp | reg_scounteren | reg_senvcfg | reg_ilrsc | reg_iprv
  | reg_iflags_X | reg_iflags_Y | reg_iflags_H | reg_iunrep | reg_clint_mtimecmp
  | reg_plic_girqpend | reg_plic_girqsrvd | reg_htif_tohost | reg_htif_fromhost | reg_htif_ihalt
  | reg_htif_iconsole | reg_htif_iyield | reg_uarch_halt_flag | reg_uarch_cycle | reg_uarch_pc
  | reg_uarch_x0 | reg_uarch_x1 | reg_uarch_x2 | reg_uarch_x3 | reg_uarch_x4 | reg_uarch_x5
  | reg_uarch_x6 | reg_uarch_x7 | reg_uarch_x8 | reg_uarch_x9 | reg_uarch_x10 | reg_uarch_x11
  | reg_uarch_x12 | reg_uarch_x13 | reg_uarch_x14 | reg_uarch_x15 | reg_uarch_x16 | reg_uarch_x17
  | reg_uarch_x18 | reg_uarch_x19 | reg_uarch_x20 | reg_uarch_x21 | reg_uarch_x22 | reg_uarch_x23
  | reg_uarch_x24 | reg_uarch_x25 | reg_uarch_x26 | reg_uarch_x27 | reg_uarch_x28 | reg_uarch_x29
  | reg_uarch_x30 | reg_uarch_x31.

(** The fields of [struct shadow_state], each a [uint64_t], in order *)
Definition shadow_state : list machine_reg := [
  reg_x0; reg_x1; reg_x2; reg_x3; reg_x4; reg_x5; reg_x6; reg_x7; reg_x8; reg_x9; reg_x10; reg_x11;
  reg_x12; reg_x13; reg_x14; reg_x15; reg_x16; reg_x17; reg_x18; reg_x19; reg_x20; reg_x21;
  reg_x22; reg_x23; reg_x24; reg_x25; reg_x26; reg_x27; reg_x28; reg_x29; reg_x30; reg_x31; reg_f0;
  reg_f1; reg_f2; reg_f3; reg_f4; reg_f5; reg_f6; reg_f7; reg_f8; reg_f9; reg_f10; reg_f11;
  reg_f12; reg_f13; reg_f14; reg_f15; reg_f16; reg_f17; reg_f18; reg_f19; reg_f20; reg_f21;
  reg_f22; reg_f23; reg_f24; reg_f25; reg_f26; reg_f27; reg_f28; reg_f29; reg_f30; reg_f31; reg_pc;
  reg_fcsr; reg_mvendorid; reg_marchid; reg_mimpid; reg_mcycle; reg_icycleinstret; reg_mstatus;
  reg_mtvec; reg_mscratch; reg_mepc; reg_mcause; reg_mtval; reg_misa; reg_mie; reg_mip;
  reg_medeleg; reg_mideleg; reg_mcounteren; reg_menvcfg; reg_stvec; reg_sscratch; reg_sepc;
  reg_scause; reg_stval; reg_satp; reg_scounteren; reg_senvcfg; reg_ilrsc; reg_iprv; reg_iflags_X;
  reg_iflags_Y; reg_iflags_H; reg_iunrep; reg_clint_mtimecmp; reg_plic_girqpend; reg_plic_girqsrvd;
  reg_htif_tohost; reg_htif_fromhost; reg_htif_ihalt; reg_htif_iconsole; reg_htif_iyield].

(** The fields of [struct shadow_uarch_state] *)
Definition shadow_uarch_state : list machine_reg := [
  reg_uarch_halt_flag; reg_uarch_cycle; reg_uarch_pc; reg_uarch_x0; reg_uarch_x1; reg_uarch_x2;
  reg_uarch_x3; reg_uarch_x4; reg_uarch_x5; reg_uarch_x6; reg_uarch_x7; reg_uarch_x8; reg_uarch_x9;
  reg_uarch_x10; reg_uarch_x11; reg_uarch_x12; reg_uarch_x13; reg_uarch_x14; reg_uarch_x15;
  reg_uarch_x16; reg_uarch_x17; reg_uarch_x18; reg_uarch_x19; reg_uarch_x20; reg_uarch_x21;
  reg_uarch_x22; reg_uarch_x23; reg_uarch_x24; reg_uarch_x25; reg_uarch_x26; reg_uarch_x27;
  reg_uarch_x28; reg_uarch_x29; reg_uarch_x30; reg_uarch_x31].

Definition machine_regs : list machine_reg := shadow_state ++ shadow_uarch_state.

(** Enumerators are compared by their positions. *)
Definition machine_reg_tag (r : machine_reg) : positive :=
  match r with
  | reg_x0 => 1 | reg_x1 => 2 | reg_x2 => 3 | reg_x3 => 4 | reg_x4 => 5 | reg_x5 => 6 | reg_x6 => 7
  | reg_x7 => 8 | reg_x8 => 9 | reg_x9 => 10 | reg_x10 => 11 | reg_x11 => 12 | reg_x12 => 13
  | reg_x13 => 14 | reg_x14 => 15 | reg_x15 => 16 | reg_x16 => 17 | reg_x17 => 18 | reg_x18 => 19
  | reg_x19 => 20 | reg_x20 => 21 | reg_x21 => 22 | reg_x22 => 23 | reg_x23 => 24 | reg_x24 => 25
  | reg_x25 => 26 | reg_x26 => 27 | reg_x27 => 28 | reg_x28 => 29 | reg_x29 => 30 | reg_x30 => 31
  | reg_x31 => 32 | reg_f0 => 33 | reg_f1 => 34 | reg_f2 => 35 | reg_f3 => 36 | reg_f4 => 37
  | reg_f5 => 38 | reg_f6 => 39 | reg_f7 => 40 | reg_f8 => 41 | reg_f9 => 42 | reg_f10 => 43
  | reg_f11 => 44 | reg_f12 => 45 | reg_f13 => 46 | reg_f14 => 47 | reg_f15 => 48 | reg_f16 => 49
  | reg_f17 => 50 | reg_f18 => 51 | reg_f19 => 52 | reg_f20 => 53 | reg_f21 => 54 | reg_f22 => 55
  | reg_f23 => 56 | reg_f24 => 57 | reg_f25 => 58 | reg_f26 => 59 | reg_f27 => 60 | reg_f28 => 61
  | reg_f29 => 62 | reg_f30 => 63 | reg_f31 => 64 | reg_pc => 65 | reg_fcsr => 66
  | reg_mvendorid => 67 | reg_marchid => 68 | reg_mimpid => 69 | reg_mcycle => 70
  | reg_icycleinstret => 71 | reg_mstatus => 72 | reg_mtvec => 73 | reg_mscratch => 74
  | reg_mepc => 75 | reg_mcause => 76 | reg_mtval => 77 | reg_misa => 78 | reg_mie => 79
  | reg_mip => 80 | reg_medeleg => 81 | reg_mideleg => 82 | reg_mcounteren => 83
  | reg_menvcfg => 84 | reg_stvec => 85 | reg_sscratch => 86 | reg_sepc => 87 | reg_scause => 88
  | reg_stval => 89 | reg_satp => 90 | reg_scounteren => 91 | reg_senvcfg => 92 | reg_ilrsc => 93
  | reg_iprv => 94 | reg_iflags_X => 95 | reg_iflags_Y => 96 | reg_iflags_H => 97
  | reg_iunrep => 98 | reg_clint_mtimecmp => 99 | reg_plic_girqpend => 100
  | reg_plic_girqsrvd => 101 | reg_htif_tohost => 102 | reg_htif_fromhost => 103
  | reg_htif_ihalt => 104 | reg_htif_iconsole => 105 | reg_htif_iyield => 106
  | reg_uarch_halt_flag => 107 | reg_uarch_cycle => 108 | reg_uarch_pc => 109 | reg_uarch_x0 => 110
  | reg_uarch_x1 => 111 | reg_uarch_x2 => 112 | reg_uarch_x3 => 113 | reg_uarch_x4 => 114
  | reg_uarch_x5 => 115 | reg_uarch_x6 => 116 | reg_uarch_x7 => 117 | reg_uarch_x8 => 118
  | reg_uarch_x9 => 119 | reg_uarch_x10 => 120 | reg_uarch_x11 => 121 | reg_uarch_x12 => 122
  | reg_uarch_x13 => 123 | reg_uarch_x14 => 124 | reg_uarch_x15 => 125 | reg_uarch_x16 => 126
  | reg_uarch_x17 => 127 | reg_uarch_x18 => 128 | reg_uarch_x19 => 129 | reg_uarch_x20 => 130
  | reg_uarch_x21 => 131 | reg_uarch_x22 => 132 | reg_uarch_x23 => 133 | reg_uarch_x24 => 134
  | reg_uarch_x25 => 135 | reg_uarch_x26 => 136 | reg_uarch_x27 => 137 | reg_uarch_x28 => 138
  | reg_uarch_x29 => 139 | reg_uarch_x30 => 140 | reg_uarch_x31 => 141
  end%positive.

#[export] Instance machine_reg_tag_inj : Inj (=) (=) machine_reg_tag.
Proof.
  intros r r' H.
  assert (forall q, nth_error machine_regs (Nat.pred (Pos.to_nat (machine_reg_tag q))) = Some q) as Hn
    by (intros []; reflexivity).
  pose proof (Hn r) as H1. rewrite H, Hn in H1. congruence.
Qed.

#[export] Instance machine_reg_eq_dec : EqDecision machine_reg := inj_eq_dec machine_reg_tag.

(** Position of a field of a packed structure of words, or [None] *)
Fixpoint field_index (r : machine_reg) (fields : list machine_reg) : option Z :=
  match fields with
  | [] => None
  | f :: fields => if bool_decide (f = r) then Some 0 else Z.succ <$> field_index r fields
  end.

(** The value of the enumerator, its address: the start of the shadow plus [offsetof] *)
Definition machine_reg_address (r : machine_reg) : Z :=
  match field_index r shadow_state with
  | Some i => PMA_SHADOW_STATE_START + 8 * i
  | None => PMA_SHADOW_UARCH_STATE_START + 8 * default 0 (field_index r shadow_uarch_state)
  end.

(** [static_cast<machine_reg>(paddr)], where it is the value of an enumerator *)
Definition machine_reg_of (paddr : Z) : option machine_reg :=
  snd <$> list_find (fun r => machine_reg_address r = paddr) machine_regs.

(** ** TLB *)

Record tlb_hot_entry := TlbHotEntry { vaddr_page : Z; vh_offset : Z }.
Record tlb_cold_entry := TlbColdEntry { paddr_page : Z; pma_index : Z }.

(** Three arrays of [PMA_TLB_SIZE] entries in each region *)
Record shadow_tlb_state := ShadowTlbState {
  hot : list (list tlb_hot_entry);
  cold : list (list tlb_cold_entry);
}.

Definition TLB_CODE : Z := 0.
Definition TLB_READ : Z := 1.
Definition TLB_WRITE : Z := 2.
Definition TLB_INVALID_PAGE : Z := UINT64_MAX.
Definition TLB_INVALID_PMA : Z := PMA_MAX.

Definition no_hot_entry : tlb_hot_entry := TlbHotEntry 0 0.
Definition no_cold_entry : tlb_cold_entry := TlbColdEntry 0 0.

(** [hot[etype][eidx]] and [cold[etype][eidx]] *)
Definition get_hot (t : shadow_tlb_state) (etype eidx : Z) : tlb_hot_entry :=
  nth (Z.to_nat eidx) (nth (Z.to_nat etype) (hot t) []) no_hot_entry.
Definition get_cold (t : shadow_tlb_state) (etype eidx : Z) : tlb_cold_entry :=
  nth (Z.to_nat eidx) (nth (Z.to_nat etype) (cold t) []) no_cold_entry.
Definition set_hot (etype eidx : Z) (e : tlb_hot_entry) (t : shadow_tlb_state) : shadow_tlb_state :=
  ShadowTlbState (alter (fun l => <[Z.to_nat eidx := e]> l) (Z.to_nat etype) (hot t)) (cold t).
Definition set_cold (etype eidx : Z) (e : tlb_cold_entry) (t : shadow_tlb_state) : shadow_tlb_state :=
  ShadowTlbState (hot t) (alter (fun l => <[Z.to_nat eidx := e]> l) (Z.to_nat etype) (cold t)).

(** ** State *)

Record iflags_state := IflagsState { iflags_X : Z; iflags_Y : Z; iflags_H : Z }.
Record clint_state := ClintState { mtimecmp : Z }.
Record plic_state := PlicState { girqpend : Z; girqsrvd : Z }.
Record htif_state := HtifState { tohost : Z; fromhost : Z; ihalt : Z; iconsole : Z; iyield : Z }.

Record machine_state := MachineState {
  s_x : list Z;
  s_mcycle : Z;
  s_pc : Z;
  s_fcsr : Z;
  s_f : list Z;
  s_iprv : Z;
  s_mstatus : Z;
  s_mtvec : Z;
  s_mscratch : Z;
  s_mepc : Z;
  s_mcause : Z;
  s_mtval : Z;
  s_misa : Z;
  s_mie : Z;
  s_mip : Z;
  s_medeleg : Z;
  s_mideleg : Z;
  s_mcounteren : Z;
  s_menvcfg : Z;
  s_stvec : Z;
  s_sscratch : Z;
  s_sepc : Z;
  s_scause : Z;
  s_stval : Z;
  s_satp : Z;
  s_scounteren : Z;
  s_senvcfg : Z;
  s_ilrsc : Z;
  s_icycleinstret : Z;
  s_iflags : iflags_state;
  s_iunrep : Z;
  s_clint : clint_state;
  s_plic : plic_state;
  s_tlb : shadow_tlb_state;
  s_htif : htif_state;
  s_soft_yield : bool;
  s_pmas : list pma_entry;
  s_empty_pma : pma_entry;
}.

(** ** Assignments

    [updater p] is the function that applies its argument to the field [p] of a
    state; a field is assigned by updating it with a constant function. *)

Definition machine_state_eta (s : machine_state) : machine_state :=
  MachineState
    (s_x s) (s_mcycle s) (s_pc s) (s_fcsr s) (s_f s) (s_iprv s) (s_mstatus s) (s_mtvec s)
    (s_mscratch s) (s_mepc s) (s_mcause s) (s_mtval s) (s_misa s) (s_mie s) (s_mip s) (s_medeleg s)
    (s_mideleg s) (s_mcounteren s) (s_menvcfg s) (s_stvec s) (s_sscratch s) (s_sepc s) (s_scause s)
    (s_stval s) (s_satp s) (s_scounteren s) (s_senvcfg s) (s_ilrsc s) (s_icycleinstret s)
    (s_iflags s) (s_iunrep s) (s_clint s) (s_plic s) (s_tlb s) (s_htif s) (s_soft_yield s)
    (s_pmas s) (s_empty_pma s).

Ltac updater eta p :=
  let e := eval unfold eta in eta in
  let e := eval pattern p in e in
  match e with ?h _ => exact (fun g => h (fun s => g (p s))) end.

Definition upd_x : (list Z -> list Z) -> machine_state -> machine_state := ltac:(updater machine_state_eta s_x).
Definition upd_mcycle : (Z -> Z) -> machine_state -> machine_state := ltac:(updater machine_state_eta s_mcycle).
Definition upd_pc : (Z -> Z) -> machine_state -> machine_state := ltac:(updater machine_state_eta s_pc).
Definition upd_fcsr : (Z -> Z) -> machine_state -> machine_state := ltac:(updater machine_state_eta s_fcsr).
Definition upd_f : (list Z -> list Z) -> machine_state -> machine_state := ltac:(updater machine_state_eta s_f).
Definition upd_iprv : (Z -> Z) -> machine_state -> machine_state := ltac:(updater machine_state_eta s_iprv).
Definition upd_mstatus : (Z -> Z) -> machine_state -> machine_state := ltac:(updater machine_state_eta s_mstatus).
Definition upd_mtvec : (Z -> Z) -> machine_state -> machine_state := ltac:(updater machine_state_eta s_mtvec).
Definition upd_mscratch : (Z -> Z) -> machine_state -> machine_state := ltac:(updater machine_state_eta s_mscratch).
Definition upd_mepc : (Z -> Z) -> machine_state -> machine_state := ltac:(updater machine_state_eta s_mepc).
Definition upd_mcause : (Z -> Z) -> machine_state -> machine_state := ltac:(updater machine_state_eta s_mcause).
Definition upd_mtval : (Z -> Z) -> machine_state -> machine_state := ltac:(updater machine_state_eta s_mtval).
Definition upd_misa : (Z -> Z) -> machine_state -> machine_state := ltac:(updater machine_state_eta s_misa).
Definition upd_mie : (Z -> Z) -> machine_state -> machine_state := ltac:(updater machine_state_eta s_mie).
Definition upd_mip : (Z -> Z) -> machine_state -> machine_state := ltac:(updater machine_state_eta s_mip).
Definition upd_medeleg : (Z -> Z) -> machine_state -> machine_state := ltac:(updater machine_state_eta s_medeleg).
Definition upd_mideleg : (Z -> Z) -> machine_state -> machine_state := ltac:(updater machine_state_eta s_mideleg).
Definition upd_mcounteren : (Z -> Z) -> machine_state -> machine_state := ltac:(updater machine_state_eta s_mcounteren).
Definition upd_menvcfg : (Z -> Z) -> machine_state -> machine_state := ltac:(updater machine_state_eta s_menvcfg).
Definition upd_stvec : (Z -> Z) -> machine_state -> machine_state := ltac:(updater machine_state_eta s_stvec).
Definition upd_sscratch : (Z -> Z) -> machine_state -> machine_state := ltac:(updater machine_state_eta s_sscratch).
Definition upd_sepc : (Z -> Z) -> machine_state -> machine_state := ltac:(updater machine_state_eta s_sepc).
Definition upd_scause : (Z -> Z) -> machine_state -> machine_state := ltac:(updater machine_state_eta s_scause).
Definition upd_stval : (Z -> Z) -> machine_state -> machine_state := ltac:(updater machine_state_eta s_stval).
Definition upd_satp : (Z -> Z) -> machine_state -> machine_state := ltac:(updater machine_state_eta s_satp).
Definition upd_scounteren : (Z -> Z) -> machine_state -> machine_state := ltac:(updater machine_state_eta s_scounteren).
Definition upd_senvcfg : (Z -> Z) -> machine_state -> machine_state := ltac:(updater machine_state_eta s_senvcfg).
Definition upd_ilrsc : (Z -> Z) -> machine_state -> machine_state := ltac:(updater machine_state_eta s_ilrsc).
Definition upd_icycleinstret : (Z -> Z) -> machine_state -> machine_state := ltac:(updater machine_state_eta s_icycleinstret).
Definition upd_iflags : (iflags_state -> iflags_state) -> machine_state -> machine_state := ltac:(updater machine_state_eta s_iflags).
Definition upd_iunrep : (Z -> Z) -> machine_state -> machine_state := ltac:(updater machine_state_eta s_iunrep).
Definition upd_clint : (clint_state -> clint_state) -> machine_state -> machine_state := ltac:(updater machine_state_eta s_clint).
Definition upd_plic : (plic_state -> plic_state) -> machine_state -> machine_state := ltac:(updater machine_state_eta s_plic).
Definition upd_tlb : (shadow_tlb_state -> shadow_tlb_state) -> machine_state -> machine_state := ltac:(updater machine_state_eta s_tlb).
Definition upd_htif : (htif_state -> htif_state) -> machine_state -> machine_state := ltac:(updater machine_state_eta s_htif).
Definition upd_pmas : (list pma_entry -> list pma_entry) -> machine_state -> machine_state := ltac:(updater machine_state_eta s_pmas).

(** [s.f = v] *)
Definition assign {A} (upd : (A -> A) -> machine_state -> machine_state) (v : A) (s : machine_state) : machine_state :=
  upd (fun _ => v) s.

(** [s.x[i] = v] *)
Definition assign_at (upd : (list Z -> list Z) -> machine_state -> machine_state) (i : nat) (v : Z)
    (s : machine_state) : machine_state :=
  upd (fun l => <[i := v]> l) s.

Definition set_iflags_X (v : Z) : machine_state -> machine_state := upd_iflags (fun f => IflagsState v (iflags_Y f) (iflags_H f)).
Definition set_iflags_Y (v : Z) : machine_state -> machine_state := upd_iflags (fun f => IflagsState (iflags_X f) v (iflags_H f)).
Definition set_iflags_H (v : Z) : machine_state -> machine_state := upd_iflags (fun f => IflagsState (iflags_X f) (iflags_Y f) v).
Definition set_mtimecmp (v : Z) : machine_state -> machine_state := upd_clint (fun _ => ClintState v).
Definition set_girqpend (v : Z) : machine_state -> machine_state := upd_plic (fun p => PlicState v (girqsrvd p)).
Definition set_girqsrvd (v : Z) : machine_state -> machine_state := upd_plic (fun p => PlicState (girqpend p) v).
Definition set_tohost (v : Z) : machine_state -> machine_state :=
  upd_htif (fun h => HtifState v (fromhost h) (ihalt h) (iconsole h) (iyield h)).
Definition set_fromhost (v : Z) : machine_state -> machine_state :=
  upd_htif (fun h => HtifState (tohost h) v (ihalt h) (iconsole h) (iyield h)).

(** A machine without memory ranges whose registers are zero *)
Definition blank_machine : machine_state :=
  let z32 := replicate 32 0 in
  MachineState z32 0 0 0 z32 0 0 0 0 0 0 0 0 0 0 0 0 0 0 0 0 0 0 0 0 0 0 0 0 (IflagsState 0 0 0) 0 (ClintState 0)
    (PlicState 0 0)
    (ShadowTlbState (replicate 3 (replicate 256 no_hot_entry)) (replicate 3 (replicate 256 no_cold_entry)))
    (HtifState 0 0 0 0 0) false [empty_entry "sentinel" 0 0] (empty_entry "empty" 0 0).
