(* ===== verification/UarchBridge.v ===== *)
(** * The bridge between the microarchitecture and the machine (uarch-bridge.h)

    The microarchitecture reads and writes the registers, the TLB and the memory
    map of the machine through the addresses of their shadows. *)

From S2P Require Import Prelude CppInt Constants Pma MachineState.

(** ** Registers

    The cases of the [switch] statements: the register files first, then the
    other registers.  [None] is the [default] case. *)

(** [write_register], the register files *)
Definition write_register_xf (r : machine_reg) (s : machine_state) (data : Z) : option machine_state :=
  match r with
  | reg_x0 => Some (assign_at upd_x 0 data s)
  | reg_x1 => Some (assign_at upd_x 1 data s)
  | reg_x2 => Some (assign_at upd_x 2 data s)
  | reg_x3 => Some (assign_at upd_x 3 data s)
  | reg_x4 => Some (assign_at upd_x 4 data s)
  | reg_x5 => Some (assign_at upd_x 5 data s)
  | reg_x6 => Some (assign_at upd_x 6 data s)
  | reg_x7 => Some (assign_at upd_x 7 data s)
  | reg_x8 => Some (assign_at upd_x 8 data s)
  | reg_x9 => Some (assign_at upd_x 9 data s)
  | reg_x10 => Some (assign_at upd_x 10 data s)
  | reg_x11 => Some (assign_at upd_x 11 data s)
  | reg_x12 => Some (assign_at upd_x 12 data s)
  | reg_x13 => Some (assign_at upd_x 13 data s)
  | reg_x14 => Some (assign_at upd_x 14 data s)
  | reg_x15 => Some (assign_at upd_x 15 data s)
  | reg_x16 => Some (assign_at upd_x 16 data s)
  | reg_x17 => Some (assign_at upd_x 17 data s)
  | reg_x18 => Some (assign_at upd_x 18 data s)
  | reg_x19 => Some (assign_at upd_x 19 data s)
  | reg_x20 => Some (assign_at upd_x 20 data s)
  | reg_x21 => Some (assign_at upd_x 21 data s)
  | reg_x22 => Some (assign_at upd_x 22 data s)
  | reg_x23 => Some (assign_at upd_x 23 data s)
  | reg_x24 => Some (assign_at upd_x 24 data s)
  | reg_x25 => Some (assign_at upd_x 25 data s)
  | reg_x26 => Some (assign_at upd_x 26 data s)
  | reg_x27 => Some (assign_at upd_x 27 data s)
  | reg_x28 => Some (assign_at upd_x 28 data s)
  | reg_x29 => Some (assign_at upd_x 29 data s)
  | reg_x30 => Some (assign_at upd_x 30 data s)
  | reg_x31 => Some (assign_at upd_x 31 data s)
  | reg_f0 => Some (assign_at upd_f 0 data s)
  | reg_f1 => Some (assign_at upd_f 1 data s)
  | reg_f2 => Some (assign_at upd_f 2 data s)
  | reg_f3 => Some (assign_at upd_f 3 data s)
  | reg_f4 => Some (assign_at upd_f 4 data s)
  | reg_f5 => Some (assign_at upd_f 5 data s)
  | reg_f6 => Some (assign_at upd_f 6 data s)
  | reg_f7 => Some (assign_at upd_f 7 data s)
  | reg_f8 => Some (assign_at upd_f 8 data s)
  | reg_f9 => Some (assign_at upd_f 9 data s)
  | reg_f10 => Some (assign_at upd_f 10 data s)
  | reg_f11 => Some (assign_at upd_f 11 data s)
  | reg_f12 => Some (assign_at upd_f 12 data s)
  | reg_f13 => Some (assign_at upd_f 13 data s)
  | reg_f14 => Some (assign_at upd_f 14 data s)
  | reg_f15 => Some (assign_at upd_f 15 data s)
  | reg_f16 => Some (assign_at upd_f 16 data s)
  | reg_f17 => Some (assign_at upd_f 17 data s)
  | reg_f18 => Some (assign_at upd_f 18 data s)
  | reg_f19 => Some (assign_at upd_f 19 data s)
  | reg_f20 => Some (assign_at upd_f 20 data s)
  | reg_f21 => Some (assign_at upd_f 21 data s)
  | reg_f22 => Some (assign_at upd_f 22 data s)
  | reg_f23 => Some (assign_at upd_f 23 data s)
  | reg_f24 => Some (assign_at upd_f 24 data s)
  | reg_f25 => Some (assign_at upd_f 25 data s)
  | reg_f26 => Some (assign_at upd_f 26 data s)
  | reg_f27 => Some (assign_at upd_f 27 data s)
  | reg_f28 => Some (assign_at upd_f 28 data s)
  | reg_f29 => Some (assign_at upd_f 29 data s)
  | reg_f30 => Some (assign_at upd_f 30 data s)
  | reg_f31 => Some (assign_at upd_f 31 data s)
  | _ => None
  end.

(** [write_register], the other registers *)
Definition write_register_csr (r : machine_reg) (s : machine_state) (data : Z) : option machine_state :=
  match r with
  | reg_pc => Some (assign upd_pc data s)
  | reg_fcsr => Some (assign upd_fcsr data s)
  | reg_mcycle => Some (assign upd_mcycle data s)
  | reg_icycleinstret => Some (assign upd_icycleinstret data s)
  | reg_mstatus => Some (assign upd_mstatus data s)
  | reg_mtvec => Some (assign upd_mtvec data s)
  | reg_mscratch => Some (assign upd_mscratch data s)
  | reg_mepc => Some (assign upd_mepc data s)
  | reg_mcause => Some (assign upd_mcause data s)
  | reg_mtval => Some (assign upd_mtval data s)
  | reg_misa => Some (assign upd_misa data s)
  | reg_mie => Some (assign upd_mie data s)
  | reg_mip => Some (assign upd_mip data s)
  | reg_medeleg => Some (assign upd_medeleg data s)
  | reg_mideleg => Some (assign upd_mideleg data s)
  | reg_mcounteren => Some (assign upd_mcounteren data s)
  | reg_menvcfg => Some (assign upd_menvcfg data s)
  | reg_stvec => Some (assign upd_stvec data s)
  | reg_sscratch => Some (assign upd_sscratch data s)
  | reg_sepc => Some (assign upd_sepc data s)
  | reg_scause => Some (assign upd_scause data s)
  | reg_stval => Some (assign upd_stval data s)
  | reg_satp => Some (assign upd_satp data s)
  | reg_scounteren => Some (assign upd_scounteren data s)
  | reg_senvcfg => Some (assign upd_senvcfg data s)
  | reg_ilrsc => Some (assign upd_ilrsc data s)
  | reg_iprv => Some (assign upd_iprv data s)
  | reg_iflags_X => Some (set_iflags_X data s)
  | reg_iflags_Y => Some (set_iflags_Y data s)
  | reg_iflags_H => Some (set_iflags_H data s)
  | reg_clint_mtimecmp => Some (set_mtimecmp data s)
  | reg_plic_girqpend => Some (set_girqpend data s)
  | reg_plic_girqsrvd => Some (set_girqsrvd data s)
  | reg_htif_tohost => Some (set_tohost data s)
  | reg_htif_fromhost => Some (set_fromhost data s)
  | _ => None
  end.

(** [read_register], the register files *)
Definition read_register_xf (r : machine_reg) (s : machine_state) : option Z :=
  match r with
  | reg_x0 => Some (nth 0 (s_x s) 0)
  | reg_x1 => Some (nth 1 (s_x s) 0)
  | reg_x2 => Some (nth 2 (s_x s) 0)
  | reg_x3 => Some (nth 3 (s_x s) 0)
  | reg_x4 => Some (nth 4 (s_x s) 0)
  | reg_x5 => Some (nth 5 (s_x s) 0)
  | reg_x6 => Some (nth 6 (s_x s) 0)
  | reg_x7 => Some (nth 7 (s_x s) 0)
  | reg_x8 => Some (nth 8 (s_x s) 0)
  | reg_x9 => Some (nth 9 (s_x s) 0)
  | reg_x10 => Some (nth 10 (s_x s) 0)
  | reg_x11 => Some (nth 11 (s_x s) 0)
  | reg_x12 => Some (nth 12 (s_x s) 0)
  | reg_x13 => Some (nth 13 (s_x s) 0)
  | reg_x14 => Some (nth 14 (s_x s) 0)
  | reg_x15 => Some (nth 15 (s_x s) 0)
  | reg_x16 => Some (nth 16 (s_x s) 0)
  | reg_x17 => Some (nth 17 (s_x s) 0)
  | reg_x18 => Some (nth 18 (s_x s) 0)
  | reg_x19 => Some (nth 19 (s_x s) 0)
  | reg_x20 => Some (nth 20 (s_x s) 0)
  | reg_x21 => Some (nth 21 (s_x s) 0)
  | reg_x22 => Some (nth 22 (s_x s) 0)
  | reg_x23 => Some (nth 23 (s_x s) 0)
  | reg_x24 => Some (nth 24 (s_x s) 0)
  | reg_x25 => Some (nth 25 (s_x s) 0)
  | reg_x26 => Some (nth 26 (s_x s) 0)
  | reg_x27 => Some (nth 27 (s_x s) 0)
  | reg_x28 => Some (nth 28 (s_x s) 0)
  | reg_x29 => Some (nth 29 (s_x s) 0)
  | reg_x30 => Some (nth 30 (s_x s) 0)
  | reg_x31 => Some (nth 31 (s_x s) 0)
  | reg_f0 => Some (nth 0 (s_f s) 0)
  | reg_f1 => Some (nth 1 (s_f s) 0)
  | reg_f2 => Some (nth 2 (s_f s) 0)
  | reg_f3 => Some (nth 3 (s_f s) 0)
  | reg_f4 => Some (nth 4 (s_f s) 0)
  | reg_f5 => Some (nth 5 (s_f s) 0)
  | reg_f6 => Some (nth 6 (s_f s) 0)
  | reg_f7 => Some (nth 7 (s_f s) 0)
  | reg_f8 => Some (nth 8 (s_f s) 0)
  | reg_f9 => Some (nth 9 (s_f s) 0)
  | reg_f10 => Some (nth 10 (s_f s) 0)
  | reg_f11 => Some (nth 11 (s_f s) 0)
  | reg_f12 => Some (nth 12 (s_f s) 0)
  | reg_f13 => Some (nth 13 (s_f s) 0)
  | reg_f14 => Some (nth 14 (s_f s) 0)
  | reg_f15 => Some (nth 15 (s_f s) 0)
  | reg_f16 => Some (nth 16 (s_f s) 0)
  | reg_f17 => Some (nth 17 (s_f s) 0)
  | reg_f18 => Some (nth 18 (s_f s) 0)
  | reg_f19 => Some (nth 19 (s_f s) 0)
  | reg_f20 => Some (nth 20 (s_f s) 0)
  | reg_f21 => Some (nth 21 (s_f s) 0)
  | reg_f22 => Some (nth 22 (s_f s) 0)
  | reg_f23 => Some (nth 23 (s_f s) 0)
  | reg_f24 => Some (nth 24 (s_f s) 0)
  | reg_f25 => Some (nth 25 (s_f s) 0)
  | reg_f26 => Some (nth 26 (s_f s) 0)
  | reg_f27 => Some (nth 27 (s_f s) 0)
  | reg_f28 => Some (nth 28 (s_f s) 0)
  | reg_f29 => Some (nth 29 (s_f s) 0)
  | reg_f30 => Some (nth 30 (s_f s) 0)
  | reg_f31 => Some (nth 31 (s_f s) 0)
  | _ => None
  end.

(** [read_register], the other registers *)
Definition read_register_csr (r : machine_reg) (s : machine_state) : option Z :=
  match r with
  | reg_pc => Some (s_pc s)
  | reg_fcsr => Some (s_fcsr s)
  | reg_mvendorid => Some (MVENDORID_INIT)
  | reg_marchid => Some (MARCHID_INIT)
  | reg_mimpid => Some (MIMPID_INIT)
  | reg_mcycle => Some (s_mcycle s)
  | reg_icycleinstret => Some (s_icycleinstret s)
  | reg_mstatus => Some (s_mstatus s)
  | reg_mtvec => Some (s_mtvec s)
  | reg_mscratch => Some (s_mscratch s)
  | reg_mepc => Some (s_mepc s)
  | reg_mcause => Some (s_mcause s)
  | reg_mtval => Some (s_mtval s)
  | reg_misa => Some (s_misa s)
  | reg_mie => Some (s_mie s)
  | reg_mip => Some (s_mip s)
  | reg_medeleg => Some (s_medeleg s)
  | reg_mideleg => Some (s_mideleg s)
  | reg_mcounteren => Some (s_mcounteren s)
  | reg_menvcfg => Some (s_menvcfg s)
  | reg_stvec => Some (s_stvec s)
  | reg_sscratch => Some (s_sscratch s)
  | reg_sepc => Some (s_sepc s)
  | reg_scause => Some (s_scause s)
  | reg_stval => Some (s_stval s)
  | reg_satp => Some (s_satp s)
  | reg_scounteren => Some (s_scounteren s)
  | reg_senvcfg => Some (s_senvcfg s)
  | reg_ilrsc => Some (s_ilrsc s)
  | reg_iprv => Some (s_iprv s)
  | reg_iflags_X => Some (iflags_X (s_iflags s))
  | reg_iflags_Y => Some (iflags_Y (s_iflags s))
  | reg_iflags_H => Some (iflags_H (s_iflags s))
  | reg_clint_mtimecmp => Some (mtimecmp (s_clint s))
  | reg_plic_girqpend => Some (girqpend (s_plic s))
  | reg_plic_girqsrvd => Some (girqsrvd (s_plic s))
  | reg_htif_tohost => Some (tohost (s_htif s))
  | reg_htif_fromhost => Some (fromhost (s_htif s))
  | reg_htif_ihalt => Some (ihalt (s_htif s))
  | reg_htif_iconsole => Some (iconsole (s_htif s))
  | reg_htif_iyield => Some (iyield (s_htif s))
  | _ => None
  end.

(** [get_register_name], the register files *)
Definition register_name_xf (r : machine_reg) : option string :=
  match r with
  | reg_x0 => Some ("x0")
  | reg_x1 => Some ("x1")
  | reg_x2 => Some ("x2")
  | reg_x3 => Some ("x3")
  | reg_x4 => Some ("x4")
  | reg_x5 => Some ("x5")
  | reg_x6 => Some ("x6")
  | reg_x7 => Some ("x7")
  | reg_x8 => Some ("x8")
  | reg_x9 => Some ("x9")
  | reg_x10 => Some ("x10")
  | reg_x11 => Some ("x11")
  | reg_x12 => Some ("x12")
  | reg_x13 => Some ("x13")
  | reg_x14 => Some ("x14")
  | reg_x15 => Some ("x15")
  | reg_x16 => Some ("x16")
  | reg_x17 => Some ("x17")
  | reg_x18 => Some ("x18")
  | reg_x19 => Some ("x19")
  | reg_x20 => Some ("x20")
  | reg_x21 => Some ("x21")
  | reg_x22 => Some ("x22")
  | reg_x23 => Some ("x23")
  | reg_x24 => Some ("x24")
  | reg_x25 => Some ("x25")
  | reg_x26 => Some ("x26")
  | reg_x27 => Some ("x27")
  | reg_x28 => Some ("x28")
  | reg_x29 => Some ("x29")
  | reg_x30 => Some ("x30")
  | reg_x31 => Some ("x31")
  | reg_f0 => Some ("f0")
  | reg_f1 => Some ("f1")
  | reg_f2 => Some ("f2")
  | reg_f3 => Some ("f3")
  | reg_f4 => Some ("f4")
  | reg_f5 => Some ("f5")
  | reg_f6 => Some ("f6")
  | reg_f7 => Some ("f7")
  | reg_f8 => Some ("f8")
  | reg_f9 => Some ("f9")
  | reg_f10 => Some ("f10")
  | reg_f11 => Some ("f11")
  | reg_f12 => Some ("f12")
  | reg_f13 => Some ("f13")
  | reg_f14 => Some ("f14")
  | reg_f15 => Some ("f15")
  | reg_f16 => Some ("f16")
  | reg_f17 => Some ("f17")
  | reg_f18 => Some ("f18")
  | reg_f19 => Some ("f19")
  | reg_f20 => Some ("f20")
  | reg_f21 => Some ("f21")
  | reg_f22 => Some ("f22")
  | reg_f23 => Some ("f23")
  | reg_f24 => Some ("f24")
  | reg_f25 => Some ("f25")
  | reg_f26 => Some ("f26")
  | reg_f27 => Some ("f27")
  | reg_f28 => Some ("f28")
  | reg_f29 => Some ("f29")
  | reg_f30 => Some ("f30")
  | reg_f31 => Some ("f31")
  | _ => None
  end.

(** [get_register_name], the other registers *)
Definition register_name_csr (r : machine_reg) : option string :=
  match r with
  | reg_pc => Some ("pc")
  | reg_fcsr => Some ("fcsr")
  | reg_mvendorid => Some ("mvendorid")
  | reg_marchid => Some ("marchid")
  | reg_mimpid => Some ("mimpid")
  | reg_mcycle => Some ("mcycle")
  | reg_icycleinstret => Some ("icycleinstret")
  | reg_mstatus => Some ("mstatus")
  | reg_mtvec => Some ("mtvec")
  | reg_mscratch => Some ("mscratch")
  | reg_mepc => Some ("mepc")
  | reg_mcause => Some ("mcause")
  | reg_mtval => Some ("mtval")
  | reg_misa => Some ("misa")
  | reg_mie => Some ("mie")
  | reg_mip => Some ("mip")
  | reg_medeleg => Some ("medeleg")
  | reg_mideleg => Some ("mideleg")
  | reg_mcounteren => Some ("mcounteren")
  | reg_menvcfg => Some ("menvcfg")
  | reg_stvec => Some ("stvec")
  | reg_sscratch => Some ("sscratch")
  | reg_sepc => Some ("sepc")
  | reg_scause => Some ("scause")
  | reg_stval => Some ("stval")
  | reg_satp => Some ("satp")
  | reg_scounteren => Some ("scounteren")
  | reg_senvcfg => Some ("senvcfg")
  | reg_ilrsc => Some ("ilrsc")
  | reg_iprv => Some ("iprv")
  | reg_iflags_X => Some ("iflags.X")
  | reg_iflags_Y => Some ("iflags.Y")
  | reg_iflags_H => Some ("iflags.H")
  | reg_clint_mtimecmp => Some ("clint.mtimecmp")
  | reg_plic_girqpend => Some ("plic.girqpend")
  | reg_plic_girqsrvd => Some ("plic.girqsrvd")
  | reg_htif_tohost => Some ("htif.tohost")
  | reg_htif_fromhost => Some ("htif.fromhost")
  | reg_htif_ihalt => Some ("htif.ihalt")
  | reg_htif_iconsole => Some ("htif.iconsole")
  | reg_htif_iyield => Some ("htif.iyield")
  | _ => None
  end.

(** ** The shadow of the memory map *)

(** Outcome of a [try] function that returns its value through a pointer *)
Definition try_read_pma (s : machine_state) (paddr : Z) : option Z :=
  if (paddr <? PMA_SHADOW_PMAS_START) || (PMA_SHADOW_PMAS_START + PMA_MAX * PMA_WORD_SIZE * 2 <=? paddr)
  then None
  else
    let word_index := Z.shiftr (paddr - PMA_SHADOW_PMAS_START) 3 in
    let pma_index := Z.shiftr word_index 1 in
    match s_pmas s !! Z.to_nat pma_index with
    | None => Some 0
    | Some pma => Some (if (word_index &ᵇ 1) =? 0 then get_istart pma else get_ilength pma)
    end.

(** ** The TLB *)

(** The entry that covers a word, or the sentinel that ends the map *)
Fixpoint find_pma_entry_in (pmas : list pma_entry) (back : pma_entry) (paddr size : Z) : pma_entry :=
  match pmas with
  | [] => back
  | pma :: pmas =>
      if m_length pma =? 0 then pma
      else if contains pma paddr size then pma
      else find_pma_entry_in pmas back paddr size
  end.

Definition find_pma_entry (s : machine_state) (paddr : Z) : pma_entry :=
  find_pma_entry_in (s_pmas s) (default (s_empty_pma s) (last (s_pmas s))) paddr 8.

(** [sizeof] and [offsetof] of the structures of shadow-tlb.h *)
Definition sizeof_tlb_entry : Z := 16.
Definition sizeof_tlb_array : Z := PMA_TLB_SIZE * sizeof_tlb_entry.
Definition offsetof_cold : Z := 3 * sizeof_tlb_array.
Definition sizeof_shadow_tlb_state : Z := 6 * sizeof_tlb_array.
Definition offsetof_vaddr_page : Z := 0.
Definition offsetof_paddr_page : Z := 0.
Definition offsetof_pma_index : Z := 8.

Definition read_tlb_entry_field (s : machine_state) (hot : bool) (etype eidx fieldoff : Z) : option Z :=
  if (TLB_WRITE <? etype) || (PMA_TLB_SIZE <=? eidx) then None
  else if hot then
    if fieldoff =? offsetof_vaddr_page then Some (vaddr_page (get_hot (s_tlb s) etype eidx)) else None
  else
    let tlbce := get_cold (s_tlb s) etype eidx in
    if fieldoff =? offsetof_paddr_page then Some (paddr_page tlbce)
    else if fieldoff =? offsetof_pma_index then Some (pma_index tlbce)
    else None.

(** [None] is [false]: the field was not written. *)
Definition write_tlb_entry_field (s : machine_state) (hot : bool) (etype eidx fieldoff val : Z) :
    outcome (option machine_state) :=
  if (TLB_WRITE <? etype) || (PMA_TLB_SIZE <=? eidx) then Done None
  else
    let tlbhe := get_hot (s_tlb s) etype eidx in
    let tlbce := get_cold (s_tlb s) etype eidx in
    let write_hot e := Some (upd_tlb (set_hot etype eidx e) s) in
    let write_cold e := Some (upd_tlb (set_cold etype eidx e) s) in
    if hot then
      if fieldoff =? offsetof_vaddr_page then
        if negb (val =? TLB_INVALID_PAGE) then
          let pma := find_pma_entry s (paddr_page tlbce) in
          throw_if (negb (get_istart_M pma)) (assertion_failure "pma.get_istart_M()") ≫= fun _ =>
          m ← get_memory pma;
          let hpage := host_base m + uint64 (paddr_page tlbce - m_start pma) in
          mret (write_hot (TlbHotEntry val (uint64 (hpage - val))))
        else mret (write_hot (TlbHotEntry val (vh_offset tlbhe)))
      else Done None
    else if fieldoff =? offsetof_paddr_page then Done (write_cold (TlbColdEntry val (pma_index tlbce)))
    else if fieldoff =? offsetof_pma_index then Done (write_cold (TlbColdEntry (paddr_page tlbce) val))
    else Done None.

(** The field at an address of the shadow of the TLB: whether it is in the hot
    region, the type and the index of its entry, and its offset in the entry *)
Definition tlb_field (paddr : Z) : option (bool * Z * Z * Z) :=
  if (paddr <? PMA_SHADOW_TLB_START) || (PMA_SHADOW_TLB_START + PMA_SHADOW_TLB_LENGTH <=? paddr) then None
  else if negb (paddr `mod` 8 =? 0) then None
  else
    let tlboff := paddr - PMA_SHADOW_TLB_START in
    if tlboff <? offsetof_cold then
      let etype := tlboff `div` sizeof_tlb_array in
      let etypeoff := tlboff `mod` sizeof_tlb_array in
      Some (true, etype, etypeoff `div` sizeof_tlb_entry, etypeoff `mod` sizeof_tlb_entry)
    else if tlboff <? sizeof_shadow_tlb_state then
      let coldoff := tlboff - offsetof_cold in
      let etype := coldoff `div` sizeof_tlb_array in
      let etypeoff := coldoff `mod` sizeof_tlb_array in
      Some (false, etype, etypeoff `div` sizeof_tlb_entry, etypeoff `mod` sizeof_tlb_entry)
    else None.

Definition try_read_tlb (s : machine_state) (paddr : Z) : option Z :=
  '(hot, etype, eidx, fieldoff) ← tlb_field paddr; read_tlb_entry_field s hot etype eidx fieldoff.

Definition try_write_tlb (s : machine_state) (paddr data : Z) : outcome (option machine_state) :=
  match tlb_field paddr with
  | Some (hot, etype, eidx, fieldoff) => write_tlb_entry_field s hot etype eidx fieldoff data
  | None => Done None
  end.

(** ** Operations *)

(** The first result that is not [None] *)
Definition orelse {A} (a b : option A) : option A := match a with Some _ => a | None => b end.

Definition write_register (paddr : Z) (s : machine_state) (data : Z) : outcome machine_state :=
  match r ← machine_reg_of paddr; orelse (write_register_xf r s data) (write_register_csr r s data) with
  | Some s' => Done s'
  | None =>
      r ← try_write_tlb s paddr data;
      match r with
      | Some s' => Done s'
      | None => Exn (runtime_error "invalid write memory access from microarchitecture")
      end
  end.

Definition read_register (paddr : Z) (s : machine_state) : outcome Z :=
  match orelse (r ← machine_reg_of paddr; orelse (read_register_xf r s) (read_register_csr r s))
          (orelse (try_read_tlb s paddr) (try_read_pma s paddr)) with
  | Some data => Done data
  | None => Exn (runtime_error "invalid read memory access from microarchitecture")
  end.

(** [None] is the null pointer. *)
Definition get_register_name (paddr : Z) : option string :=
  match r ← machine_reg_of paddr; orelse (register_name_xf r) (register_name_csr r) with
  | Some name => Some name
  | None =>
      if (machine_reg_address reg_x0 <=? paddr) && (paddr <=? machine_reg_address reg_x31) && ((paddr &ᵇ 7) =? 0)
      then Some "x"
      else if (machine_reg_address reg_f0 <=? paddr) && (paddr <=? machine_reg_address reg_f31) && ((paddr &ᵇ 7) =? 0)
      then Some "f"
      else if (PMA_SHADOW_PMAS_START <=? paddr) && (paddr <? PMA_SHADOW_PMAS_START + PMA_MAX * PMA_WORD_SIZE * 2) then
        let word_index := Z.shiftr (paddr - PMA_SHADOW_PMAS_START) 3 in
        if (word_index &ᵇ 1) =? 0 then Some "pma.istart" else Some "pma.ilength"
      else if (PMA_SHADOW_TLB_START <=? paddr) && (paddr <? PMA_SHADOW_TLB_START + PMA_SHADOW_TLB_LENGTH)
              && (paddr `mod` 8 =? 0) then
        let tlboff := paddr - PMA_SHADOW_TLB_START in
        if tlboff <? offsetof_cold then Some "cold_tlb_entry_field"
        else if tlboff <? sizeof_shadow_tlb_state then Some "hot_tlb_entry_field"
        else None
      else None
  end.
