(* ===== verification/UarchBridgeSpec.v ===== *)
(** * The bridge is a memory

    What the microarchitecture writes through the bridge it reads back, and no
    write affects another address. *)

From S2P Require Import Prelude CppInt Constants Bytes Pma PmaSpec MachineState UarchBridge.

(** ** Well-formed states *)

(** The arrays of the state have the length of their types. *)
Record machine_wf (s : machine_state) : Prop := {
  wf_x : length (s_x s) = 32%nat;
  wf_f : length (s_f s) = 32%nat;
  wf_hot : map length (hot (s_tlb s)) = [256%nat; 256%nat; 256%nat];
  wf_cold : map length (cold (s_tlb s)) = [256%nat; 256%nat; 256%nat];
}.

(** ** Registers *)

Definition read_reg (s : machine_state) (r : machine_reg) : option Z :=
  orelse (read_register_xf r s) (read_register_csr r s).
Definition write_reg (r : machine_reg) (s : machine_state) (v : Z) : option machine_state :=
  orelse (write_register_xf r s v) (write_register_csr r s v).

(** The values of all the registers, in the order of the shadow *)
Definition shadow_image (s : machine_state) : list (option Z) := map (read_reg s) shadow_state.

(** Names the elements of a list of known length. *)
Ltac explode l :=
  repeat (destruct l as [|? l]; [discriminate|]); destruct l; [|discriminate].

Lemma write_reg_image s r v s' :
  length (s_x s) = 32%nat -> length (s_f s) = 32%nat -> write_reg r s v = Some s' ->
  option_map (fun i => <[Z.to_nat i := Some v]> (shadow_image s)) (field_index r shadow_state) =
  Some (shadow_image s').
Proof.
  destruct s as [x ? ? ? f]. cbn [s_x s_f]. intros Hx Hf. explode x. explode f.
  destruct r; cbn [write_reg write_register_xf write_register_csr orelse]; intros [= <-];
    vm_compute; reflexivity.
Qed.

Lemma field_index_lookup r l i : field_index r l = Some i -> 0 <= i /\ l !! Z.to_nat i = Some r.
Proof.
  revert i. induction l as [|f l IH]; cbn; intros i Hi; [done|].
  case_bool_decide; [simplify_eq; done|].
  destruct (field_index r l) as [j|]; [|done]. injection Hi as <-.
  destruct (IH j eq_refl) as [Hj Hl]. split; [lia|]. by rewrite Z2Nat.inj_succ.
Qed.

Lemma shadow_image_lookup s i r : shadow_state !! i = Some r -> shadow_image s !! i = Some (read_reg s r).
Proof. intros H. unfold shadow_image. by rewrite list_lookup_fmap, H. Qed.

Lemma read_reg_shadow s r v : read_reg s r = Some v -> exists i, shadow_state !! i = Some r.
Proof.
  intros Hr. destruct (field_index r shadow_state) as [i|] eqn:E.
  - apply field_index_lookup in E as [_ ?]. eauto.
  - exfalso. revert E Hr. destruct r; vm_compute; discriminate.
Qed.

(** A register holds what was written to it last. *)
Lemma read_write_reg s r v s' r' :
  machine_wf s -> write_reg r s v = Some s' ->
  read_reg s' r' = if decide (r' = r) then Some v else read_reg s r'.
Proof.
  intros [Hx Hf _ _] Hw. pose proof (write_reg_image _ _ _ _ Hx Hf Hw) as Himg.
  destruct (field_index r shadow_state) as [i|] eqn:Ei; [|done]. cbn [option_map] in Himg. injection Himg as Himg.
  pose proof (field_index_lookup _ _ _ Ei) as [_ Hi].
  destruct (field_index r' shadow_state) as [j|] eqn:Ej.
  - apply field_index_lookup in Ej as [_ Hj].
    pose proof (shadow_image_lookup s' _ _ Hj) as H'. rewrite <- Himg in H'.
    case_decide as Hrr.
    + subst r'. assert (Z.to_nat j = Z.to_nat i) as Eij.
      { assert (NoDup shadow_state) as Hnd by (apply (bool_decide_unpack _); vm_compute; done).
        by eapply NoDup_lookup. }
      rewrite Eij, list_lookup_insert_eq in H'; [congruence|].
      unfold shadow_image. rewrite length_map. by apply lookup_lt_Some in Hi.
    + rewrite list_lookup_insert_ne in H' by congruence.
      rewrite (shadow_image_lookup _ _ _ Hj) in H'. congruence.
  - rewrite decide_False by congruence. clear -Ej.
    revert Ej. destruct r'; vm_compute; done.
Qed.

Lemma write_reg_frame s r v s' :
  write_reg r s v = Some s' ->
  s_tlb s' = s_tlb s /\ s_pmas s' = s_pmas s /\ s_empty_pma s' = s_empty_pma s /\
  length (s_x s') = length (s_x s) /\ length (s_f s') = length (s_f s).
Proof.
  destruct r; cbn; intros [= <-]; cbn; rewrite ?length_insert; auto.
Qed.

Lemma write_reg_wf s r v s' : write_reg r s v = Some s' -> machine_wf s -> machine_wf s'.
Proof.
  intros (Ht & _ & _ & Hx & Hf)%write_reg_frame [H1 H2 H3 H4].
  constructor; [congruence|congruence|by rewrite Ht..].
Qed.

(** ** Addresses of registers *)

Lemma machine_reg_of_address r : machine_reg_of (machine_reg_address r) = Some r.
Proof. destruct r; vm_compute; reflexivity. Qed.

Lemma machine_reg_of_spec a r : machine_reg_of a = Some r <-> machine_reg_address r = a.
Proof.
  split; [|intros <-; apply machine_reg_of_address].
  unfold machine_reg_of. destruct (list_find _ _) as [[i r']|] eqn:E; [|done].
  apply list_find_Some in E as (_ & Ha & _). cbn. congruence.
Qed.

(** The addresses of registers are words below the shadow of the memory map. *)
Lemma machine_reg_address_range r :
  machine_reg_address r `mod` 8 = 0 /\
  (0 <= machine_reg_address r < PMA_SHADOW_STATE_LENGTH \/
   PMA_SHADOW_UARCH_STATE_START <= machine_reg_address r < PMA_SHADOW_UARCH_STATE_START + PMA_SHADOW_UARCH_STATE_LENGTH).
Proof.
  destruct r; (split; [vm_compute; reflexivity|]);
    first [left; vm_compute; split; congruence|right; vm_compute; split; congruence].
Qed.

(** ** The TLB *)

Definition tlb_array_ok {A} (l : list (list A)) : Prop := map length l = [256%nat; 256%nat; 256%nat].

Lemma tlb_row {A} (l : list (list A)) (e : Z) :
  tlb_array_ok l -> 0 <= e <= 2 -> exists row, l !! Z.to_nat e = Some row /\ length row = 256%nat.
Proof.
  intros Hl He. assert (Z.to_nat e < length l)%nat as Hlt.
  { rewrite <- (length_map length), Hl. cbn. lia. }
  apply lookup_lt_is_Some in Hlt as [row Hrow]. exists row. split; [done|].
  assert (map length l !! Z.to_nat e = Some (length row)) as H by by rewrite list_lookup_fmap, Hrow.
  rewrite Hl in H. assert (Z.to_nat e = 0 \/ Z.to_nat e = 1 \/ Z.to_nat e = 2)%nat as [E|[E|E]] by lia;
    rewrite E in H; cbn in H; congruence.
Qed.

Definition tlb_get {A} (d : A) (l : list (list A)) (e i : Z) : A := nth (Z.to_nat i) (nth (Z.to_nat e) l []) d.
Definition tlb_set {A} (l : list (list A)) (e i : Z) (v : A) : list (list A) :=
  alter (fun row => <[Z.to_nat i := v]> row) (Z.to_nat e) l.

Lemma tlb_set_ok {A} (l : list (list A)) e i v : tlb_array_ok l -> tlb_array_ok (tlb_set l e i v).
Proof.
  unfold tlb_array_ok, tlb_set. intros <-. apply list_eq. intros j. rewrite !list_lookup_fmap.
  destruct (decide (Z.to_nat e = j)) as [<-|].
  - rewrite list_lookup_alter_eq. destruct (l !! _); [|done]. cbn. by rewrite length_insert.
  - by rewrite list_lookup_alter_ne.
Qed.

Lemma tlb_get_set {A} (d : A) l e i v e' i' :
  tlb_array_ok l -> 0 <= e <= 2 -> 0 <= e' <= 2 -> 0 <= i < 256 -> 0 <= i' < 256 ->
  tlb_get d (tlb_set l e i v) e' i' =
  if bool_decide (e' = e /\ i' = i) then v else tlb_get d l e' i'.
Proof.
  intros Hl He He' Hi Hi'. unfold tlb_get, tlb_set.
  destruct (tlb_row l e' Hl He') as (row & Hrow & Hlen).
  rewrite (nth_lookup_Some l _ [] row Hrow).
  destruct (decide (e' = e)) as [->|Hne].
  - rewrite (nth_lookup_Some _ _ [] (<[Z.to_nat i := v]> row)) by by rewrite list_lookup_alter_eq, Hrow.
    case_bool_decide as Hc.
    + destruct Hc as [_ ->]. apply nth_lookup_Some. rewrite list_lookup_insert_eq; [done|lia].
    + assert (i' <> i) by naive_solver.
      rewrite !nth_lookup. rewrite list_lookup_insert_ne by lia. done.
  - rewrite bool_decide_eq_false_2 by naive_solver.
    rewrite (nth_lookup_Some _ _ [] row); [done|].
    rewrite list_lookup_alter_ne by lia. done.
Qed.

(** The address of a field determines it. *)
Lemma tlb_field_spec a h e i o :
  tlb_field a = Some (h, e, i, o) ->
  a = PMA_SHADOW_TLB_START + (if h then 0 else offsetof_cold) + e * sizeof_tlb_array + i * sizeof_tlb_entry + o /\
  0 <= e <= 2 /\ 0 <= i < 256.
Proof.
  unfold tlb_field, offsetof_cold, sizeof_shadow_tlb_state, sizeof_tlb_array, sizeof_tlb_entry,
    PMA_SHADOW_TLB_START, PMA_SHADOW_TLB_LENGTH, PMA_TLB_SIZE.
  change (256 * 16) with 4096. change (3 * 4096) with 12288. change (6 * 4096) with 24576.
  repeat case_if; intros E'; try discriminate; simplify_eq; reflect_bools;
    Z.div_mod_to_equations; lia.
Qed.

(** The values of the fields that can be accessed *)
Lemma read_tlb_entry_field_spec s h e i o v :
  read_tlb_entry_field s h e i o = Some v ->
  if h : bool then o = offsetof_vaddr_page else o = offsetof_paddr_page \/ o = offsetof_pma_index.
Proof. unfold read_tlb_entry_field. repeat case_if; reflect_bools; auto; discriminate. Qed.

Lemma tlb_in_range e i :
  0 <= e <= 2 -> 0 <= i < 256 -> (TLB_WRITE <? e) || (PMA_TLB_SIZE <=? i) = false.
Proof. unfold TLB_WRITE, PMA_TLB_SIZE. intros. bool_cases. Qed.

Lemma hot_update s e i ent :
  machine_wf s -> 0 <= e <= 2 -> 0 <= i < 256 ->
  let s' := upd_tlb (set_hot e i ent) s in
  machine_wf s' /\
  forall h' e' i' o', 0 <= e' <= 2 -> 0 <= i' < 256 ->
    read_tlb_entry_field s' h' e' i' o' =
    if bool_decide (h' = true /\ e' = e /\ i' = i)
    then if o' =? offsetof_vaddr_page then Some (vaddr_page ent) else None
    else read_tlb_entry_field s h' e' i' o'.
Proof.
  intros [Hx Hf Hh Hc] He Hi s'. split; [constructor; [done|done|by apply tlb_set_ok|done]|].
  intros h' e' i' o' He' Hi'. unfold read_tlb_entry_field. rewrite tlb_in_range by done.
  destruct h'; [|by rewrite bool_decide_eq_false_2 by naive_solver].
  change (get_hot (s_tlb s') e' i') with (tlb_get no_hot_entry (tlb_set (hot (s_tlb s)) e i ent) e' i').
  rewrite tlb_get_set by done. repeat case_bool_decide; naive_solver.
Qed.

Lemma cold_update s e i ent :
  machine_wf s -> 0 <= e <= 2 -> 0 <= i < 256 ->
  let s' := upd_tlb (set_cold e i ent) s in
  machine_wf s' /\
  forall h' e' i' o', 0 <= e' <= 2 -> 0 <= i' < 256 ->
    read_tlb_entry_field s' h' e' i' o' =
    if bool_decide (h' = false /\ e' = e /\ i' = i)
    then if o' =? offsetof_paddr_page then Some (paddr_page ent)
         else if o' =? offsetof_pma_index then Some (pma_index ent) else None
    else read_tlb_entry_field s h' e' i' o'.
Proof.
  intros [Hx Hf Hh Hc] He Hi s'. split; [constructor; [done|done|done|by apply tlb_set_ok]|].
  intros h' e' i' o' He' Hi'. unfold read_tlb_entry_field. rewrite tlb_in_range by done.
  destruct h'; [by rewrite bool_decide_eq_false_2 by naive_solver|].
  change (get_cold (s_tlb s') e' i') with (tlb_get no_cold_entry (tlb_set (cold (s_tlb s)) e i ent) e' i').
  rewrite tlb_get_set by done. repeat case_bool_decide; naive_solver.
Qed.

(** A write of a field of the TLB, when it succeeds *)
Definition tlb_write_ok (s : machine_state) (h : bool) (e i o v : Z) (s' : machine_state) : Prop :=
  (exists t, s' = upd_tlb t s) /\ machine_wf s' /\
  read_tlb_entry_field s' h e i o = Some v /\
  (forall h' e' i' o', 0 <= e' <= 2 -> 0 <= i' < 256 -> (h', e', i', o') <> (h, e, i, o) ->
    read_tlb_entry_field s' h' e' i' o' = read_tlb_entry_field s h' e' i' o').

Lemma hot_write_ok s e i v vh :
  machine_wf s -> 0 <= e <= 2 -> 0 <= i < 256 ->
  tlb_write_ok s true e i offsetof_vaddr_page v (upd_tlb (set_hot e i (TlbHotEntry v vh)) s).
Proof.
  intros Hs He Hi. destruct (hot_update s e i (TlbHotEntry v vh) Hs He Hi) as [Hwf Hr].
  split; [eauto|]. split; [done|]. split.
  - rewrite Hr, bool_decide_eq_true_2 by done. done.
  - intros h' e' i' o' He' Hi' Hne. rewrite Hr by done. case_bool_decide as Hd; [|done].
    destruct Hd as (-> & -> & ->). unfold read_tlb_entry_field. rewrite tlb_in_range by done.
    destruct (Z.eqb_spec o' offsetof_vaddr_page); congruence.
Qed.

Lemma write_tlb_field s h e i o v s' :
  machine_wf s -> 0 <= e <= 2 -> 0 <= i < 256 ->
  write_tlb_entry_field s h e i o v = Done (Some s') -> tlb_write_ok s h e i o v s'.
Proof.
  intros Hs He Hi. unfold write_tlb_entry_field. rewrite tlb_in_range by done. cbv zeta.
  destruct h.
  - destruct (Z.eqb_spec o offsetof_vaddr_page) as [->|]; [|done].
    destruct (negb _); intros Hw; invert_outcome; simplify_eq; by apply hot_write_ok.
  - destruct (Z.eqb_spec o offsetof_paddr_page) as [->|Hne]; [|destruct (Z.eqb_spec o offsetof_pma_index) as [->|]; [|done]];
      intros Hw; invert_outcome; simplify_eq.
    all: match goal with |- tlb_write_ok _ _ _ _ _ _ (upd_tlb (set_cold _ _ ?ent) _) =>
           destruct (cold_update s e i ent Hs He Hi) as [Hwf Hr] end.
    all: split; [eauto|]; split; [done|]; split; [rewrite Hr, bool_decide_eq_true_2 by done; done|].
    all: intros h' e' i' o' He' Hi' Hne'; rewrite Hr by done; case_bool_decide as Hd; [|done];
      destruct Hd as (-> & -> & ->); unfold read_tlb_entry_field; rewrite tlb_in_range by done;
      repeat case_if; reflect_bools; cbn; congruence.
Qed.

(** ** The bridge *)

Lemma tlb_field_not_reg a t : tlb_field a = Some t -> machine_reg_of a = None.
Proof.
  intros Ht. destruct (machine_reg_of a) as [r|] eqn:E; [|done]. exfalso.
  apply machine_reg_of_spec in E as <-. pose proof (machine_reg_address_range r) as [_ Hr].
  unfold tlb_field in Ht. unfold PMA_SHADOW_STATE_LENGTH, PMA_SHADOW_UARCH_STATE_START, PMA_SHADOW_UARCH_STATE_LENGTH,
    PMA_SHADOW_TLB_START, PMA_SHADOW_TLB_LENGTH in *.
  destruct (_ || _) eqn:E; [done|]. reflect_bools. lia.
Qed.

Lemma read_register_ext s s' b :
  (forall r, machine_reg_of b = Some r -> read_reg s' r = read_reg s r) ->
  try_read_tlb s' b = try_read_tlb s b -> s_pmas s' = s_pmas s ->
  read_register b s' = read_register b s.
Proof.
  intros Hr Ht Hp. unfold read_register, try_read_pma. rewrite Ht, Hp.
  destruct (machine_reg_of b) as [r|]; [|done]. cbn [mbind option_bind].
  unfold read_reg in Hr. by rewrite Hr.
Qed.

Definition bridge_write_ok (a : Z) (s : machine_state) (v : Z) (s' : machine_state) : Prop :=
  machine_wf s' /\ read_register a s' = Done v /\ s_pmas s' = s_pmas s /\
  (forall b, b <> a -> read_register b s' = read_register b s).

Lemma write_reg_ok a r s v s' :
  machine_wf s -> machine_reg_of a = Some r -> write_reg r s v = Some s' -> bridge_write_ok a s v s'.
Proof.
  intros Hs Ha Hw. pose proof (write_reg_frame _ _ _ _ Hw) as (Ht & Hp & _ & _ & _).
  split; [by eapply write_reg_wf|]. split; [|split; [done|]].
  - unfold read_register. rewrite Ha. cbn [mbind option_bind].
    change (orelse (read_register_xf r s') (read_register_csr r s')) with (read_reg s' r).
    by rewrite (read_write_reg _ _ _ _ _ Hs Hw), decide_True.
  - intros b Hb. apply read_register_ext; [|unfold try_read_tlb, read_tlb_entry_field; by rewrite Ht|done].
    intros r' Hr'. rewrite (read_write_reg _ _ _ _ _ Hs Hw), decide_False; [done|].
    intros ->. apply machine_reg_of_spec in Ha, Hr'. congruence.
Qed.

Lemma try_write_tlb_ok a s v s' :
  machine_wf s -> try_write_tlb s a v = Done (Some s') -> bridge_write_ok a s v s'.
Proof.
  intros Hs. unfold try_write_tlb. destruct (tlb_field a) as [[[[h e] i] o]|] eqn:Ha; [|done]. intros Hw.
  pose proof (tlb_field_spec _ _ _ _ _ Ha) as (Haddr & He & Hi).
  destruct (write_tlb_field _ _ _ _ _ _ _ Hs He Hi Hw) as ((t & ->) & Hwf & Hr & Hne).
  split; [done|]. split; [|split; [done|]].
  - unfold read_register. rewrite (tlb_field_not_reg _ _ Ha). unfold try_read_tlb. rewrite Ha. cbn [mbind option_bind orelse].
    by rewrite Hr.
  - intros b Hb. apply read_register_ext; [by intros []| |done].
    unfold try_read_tlb. destruct (tlb_field b) as [[[[h' e'] i'] o']|] eqn:Hbf; [|done]. cbn [mbind option_bind].
    pose proof (tlb_field_spec _ _ _ _ _ Hbf) as (Hbaddr & He' & Hi').
    apply Hne; [done|done|]. intros [= -> -> -> ->]. congruence.
Qed.

Lemma write_register_spec a s v s' :
  machine_wf s -> write_register a s v = Done s' -> bridge_write_ok a s v s'.
Proof.
  intros Hs. unfold write_register.
  destruct (r ← machine_reg_of a; write_reg r s v) as [s1|] eqn:Hw.
  - change (r ← machine_reg_of a; orelse (write_register_xf r s v) (write_register_csr r s v))
      with (r ← machine_reg_of a; write_reg r s v). rewrite Hw. intros [= ->].
    destruct (machine_reg_of a) as [r|] eqn:Ha; [|done]. by eapply write_reg_ok.
  - change (r ← machine_reg_of a; orelse (write_register_xf r s v) (write_register_csr r s v))
      with (r ← machine_reg_of a; write_reg r s v). rewrite Hw.
    intros (o & Ho & Hd)%outcome_bind_done. destruct o as [s1|]; [|done]. injection Hd as ->.
    by eapply try_write_tlb_ok.
Qed.

(** ** Properties *)

(** C21: through the bridge the machine state is a memory: a word that was
    written reads back, every other address (registers, TLB, memory map) reads as
    before, and the arrays of the state keep their sizes. *)
Theorem bridge_is_memory a s v s' :
  machine_wf s -> write_register a s v = Done s' ->
  machine_wf s' /\ read_register a s' = Done v /\
  (forall b, b <> a -> read_register b s' = read_register b s).
Proof. intros Hs Hw. destruct (write_register_spec _ _ _ _ Hs Hw) as (? & ? & _ & ?). auto. Qed.

Lemma blank_machine_wf : machine_wf blank_machine.
Proof. constructor; reflexivity. Qed.

Lemma bridge_is_memory_witness :
  let a := machine_reg_address reg_mstatus in
  let s' := assign upd_mstatus 0x80 blank_machine in
  read_register a s' = Done 0x80 /\ read_register (a + 8) s' = Done 0.
Proof.
  intros a s'.
  destruct (bridge_is_memory a blank_machine 0x80 s' blank_machine_wf) as (_ & Hr & Hb);
    [vm_compute; reflexivity|].
  split; [exact Hr|]. rewrite Hb by (vm_compute; congruence). vm_compute. reflexivity.
Defined.

Definition read_only_regs : list machine_reg :=
  [reg_mvendorid; reg_marchid; reg_mimpid; reg_htif_ihalt; reg_htif_iconsole; reg_htif_iyield].

(** the identification registers and the configuration of the HTIF can be
    read through the bridge but not written, and [iunrep] is not accessible; a
    write of any of them fails and leaves no trace. *)
Theorem bridge_read_only r s v :
  (r ∈ read_only_regs -> exists w, read_register (machine_reg_address r) s = Done w) /\
  (r ∈ reg_iunrep :: read_only_regs ->
   write_register (machine_reg_address r) s v =
     Exn (runtime_error "invalid write memory access from microarchitecture")).
Proof.
  split; intros Hr; repeat (apply elem_of_cons in Hr as [->|Hr]); try (by apply not_elem_of_nil in Hr).
  all: first [eexists; vm_compute; reflexivity | vm_compute; reflexivity].
Qed.

Lemma bridge_read_only_witness :
  write_register (machine_reg_address reg_marchid) blank_machine 7 =
    Exn (runtime_error "invalid write memory access from microarchitecture").
Proof. apply (bridge_read_only reg_marchid blank_machine 7). apply (bool_decide_unpack _). vm_compute. exact I. Defined.

Definition register_name (r : machine_reg) : option string := orelse (register_name_xf r) (register_name_csr r).

Lemma register_names_distinct : NoDup (omap register_name shadow_state).
Proof. apply (bool_decide_unpack _). vm_compute. done. Qed.

Lemma register_name_read s r : is_Some (read_reg s r) -> is_Some (register_name r).
Proof. destruct r; cbn; intros [? ?]; try discriminate; eauto. Qed.

Lemma omap_NoDup_inj {A B} (f : A -> option B) (l : list A) x y b :
  NoDup (omap f l) -> x ∈ l -> y ∈ l -> f x = Some b -> f y = Some b -> x = y.
Proof.
  induction l as [|z l IH]; cbn; intros Hnd Hx Hy Hfx Hfy; [by apply not_elem_of_nil in Hx|].
  apply elem_of_cons in Hx as [->|Hx]; apply elem_of_cons in Hy as [->|Hy]; [done| | |].
  - rewrite Hfx in Hnd. apply NoDup_cons in Hnd as [Hb _]. exfalso. apply Hb, list_elem_of_omap. eauto.
  - rewrite Hfy in Hnd. apply NoDup_cons in Hnd as [Hb _]. exfalso. apply Hb, list_elem_of_omap. eauto.
  - apply IH; try done. destruct (f z); [by apply NoDup_cons in Hnd as [_ ?]|done].
Qed.

Lemma register_name_shadow r n : register_name r = Some n -> r ∈ shadow_state.
Proof.
  destruct (decide (r ∈ shadow_state)) as [|Hr]; [done|]. intros Hn. exfalso. apply Hr.
  clear Hr. revert Hn. destruct r; cbn; intros; try discriminate; apply (bool_decide_unpack _); vm_compute; exact I.
Qed.

(** An address without a name is not one the bridge reads. *)
Lemma nameless a :
  get_register_name a = None ->
  (r ← machine_reg_of a; register_name r) = None /\ tlb_field a = None /\
  (forall s, try_read_pma s a = None).
Proof.
  unfold get_register_name. fold (register_name). 
  change (r ← machine_reg_of a; orelse (register_name_xf r) (register_name_csr r))
    with (r ← machine_reg_of a; register_name r).
  destruct (r ← machine_reg_of a; register_name r); [done|].
  assert (forall x y z, (x <=? y) && (y <? z) = negb ((y <? x) || (z <=? y))) as Hneg
    by (intros; bool_cases).
  rewrite !Hneg. unfold tlb_field, try_read_pma.
  destruct ((a <? PMA_SHADOW_PMAS_START) || _); [|by repeat case_if].
  destruct ((a <? PMA_SHADOW_TLB_START) || _); [done|].
  destruct (negb (a `mod` 8 =? 0)) eqn:E; [done|]. apply negb_false_iff in E. rewrite E. cbn [negb andb].
  by repeat (case_if; try discriminate).
Qed.

(** Every word that can be read through the bridge has a name, and two
    registers never have the same one. *)
Theorem bridge_names :
  (forall a s v, read_register a s = Done v -> is_Some (get_register_name a)) /\
  (forall r r' n, register_name r = Some n -> register_name r' = Some n -> r = r').
Proof.
  split.
  - intros a s v Hr. destruct (get_register_name a) as [n|] eqn:Hn; [eauto|]. exfalso.
    apply nameless in Hn as (Hreg & Ht & Hp). unfold read_register, try_read_tlb in Hr.
    rewrite Ht, Hp in Hr. destruct (machine_reg_of a) as [r|]; [|done]. cbn [mbind option_bind] in *.
    destruct (orelse (read_register_xf r s) (read_register_csr r s)) as [w|] eqn:Hw; [|done].
    destruct (register_name_read s r) as [n Hn]; [by exists w|]. congruence.
  - intros r r' n Hn Hn'.
    eapply omap_NoDup_inj; [apply register_names_distinct| | |exact Hn|exact Hn']; by eapply register_name_shadow.
Qed.

(** The labels of the TLB regions are swapped: a field that the bridge reads
    from the hot region is called a cold one, and the other way round. *)
Theorem bridge_tlb_names_swapped a h e i o :
  tlb_field a = Some (h, e, i, o) ->
  get_register_name a = Some (if h then "cold_tlb_entry_field" else "hot_tlb_entry_field").
Proof.
  intros Ht. pose proof (tlb_field_not_reg _ _ Ht) as Hreg. pose proof (tlb_field_spec _ _ _ _ _ Ht) as (Ha & _ & _).
  unfold get_register_name. rewrite Hreg. cbn [mbind option_bind]. unfold tlb_field in Ht.
  destruct ((a <? PMA_SHADOW_TLB_START) || _) eqn:Er; [done|].
  destruct (negb (a `mod` 8 =? 0)) eqn:Em; [done|]. reflect_bools.
  replace (a <=? machine_reg_address reg_x31) with false
    by (symmetry; apply Z.leb_gt; vm_compute (machine_reg_address _); unfold PMA_SHADOW_TLB_START in *; lia).
  replace (a <=? machine_reg_address reg_f31) with false
    by (symmetry; apply Z.leb_gt; vm_compute (machine_reg_address _); unfold PMA_SHADOW_TLB_START in *; lia).
  replace (a <? PMA_SHADOW_PMAS_START + PMA_MAX * PMA_WORD_SIZE * 2) with false
    by (symmetry; apply Z.ltb_ge; unfold PMA_SHADOW_PMAS_START, PMA_MAX, PMA_WORD_SIZE, PMA_SHADOW_TLB_START in *; lia).
  rewrite !andb_false_r. cbn [andb].
  replace (PMA_SHADOW_TLB_START <=? a) with true by lia.
  replace (a <? PMA_SHADOW_TLB_START + PMA_SHADOW_TLB_LENGTH) with true by lia.
  replace (a `mod` 8 =? 0) with true by lia. cbn [andb].
  destruct (_ <? offsetof_cold); [by simplify_eq|]. destruct (_ <? sizeof_shadow_tlb_state); [by simplify_eq|done].
Qed.

Lemma bridge_tlb_names_swapped_witness :
  get_register_name PMA_SHADOW_TLB_START = Some "cold_tlb_entry_field"%string.
Proof. apply (bridge_tlb_names_swapped _ true 0 0 0). reflexivity. Defined.
