(* ===== verification/UarchState.v ===== *)
(** * Direct access to the state (uarch-state.h, uarch-state-access.h)

    The class that runs the microarchitecture on the state itself: its registers
    and RAM, the memory of the machine, and the registers of the machine through
    the bridge. *)

From S2P Require Import Prelude CppInt Constants UarchAccess Bytes Pma MachineState UarchBridge.

(** ** State *)

Record uarch_state := UarchState {
  us_pc : Z;
  us_x : list Z;
  us_cycle : Z;
  us_halt_flag : bool;
  us_shadow_state : pma_entry;
  us_ram : pma_entry;
  us_empty_pma : pma_entry;
}.

(** The two references of the class and what was written to the console *)
Record uarch_refs := UarchRefs { m_us : uarch_state; m_s : machine_state; console : list Z }.

Definition uarch_state_eta (u : uarch_state) : uarch_state :=
  UarchState (us_pc u) (us_x u) (us_cycle u) (us_halt_flag u) (us_shadow_state u) (us_ram u) (us_empty_pma u).

Definition upd_us_pc : (Z -> Z) -> uarch_state -> uarch_state := ltac:(updater uarch_state_eta us_pc).
Definition upd_us_x : (list Z -> list Z) -> uarch_state -> uarch_state := ltac:(updater uarch_state_eta us_x).
Definition upd_us_cycle : (Z -> Z) -> uarch_state -> uarch_state := ltac:(updater uarch_state_eta us_cycle).
Definition upd_us_halt_flag : (bool -> bool) -> uarch_state -> uarch_state :=
  ltac:(updater uarch_state_eta us_halt_flag).
Definition upd_us_ram : (pma_entry -> pma_entry) -> uarch_state -> uarch_state :=
  ltac:(updater uarch_state_eta us_ram).

Definition on_us (f : uarch_state -> uarch_state) (r : uarch_refs) : uarch_refs :=
  UarchRefs (f (m_us r)) (m_s r) (console r).

(** ** Memory *)

(** What the memory operations reach: the RAM and the machine *)
Record uarch_memory := UarchMemory { um_ram : pma_entry; um_s : machine_state }.

(** A reference to an entry: the RAM or an element of the map of the machine *)
Inductive pma_ref := ref_ram | ref_pmas (i : nat).

#[export] Instance pma_ref_eq_dec : EqDecision pma_ref.
Proof. solve_decision. Defined.

Definition deref (m : uarch_memory) (r : pma_ref) : option pma_entry :=
  match r with ref_ram => Some (um_ram m) | ref_pmas i => s_pmas (um_s m) !! i end.

(** Assignment through a reference *)
Definition store_ref (r : pma_ref) (p : pma_entry) (m : uarch_memory) : uarch_memory :=
  match r with
  | ref_ram => UarchMemory p (um_s m)
  | ref_pmas i => UarchMemory (um_ram m) (upd_pmas (fun l => <[i := p]> l) (um_s m))
  end.

(** The loop over the map of the machine: [None] when it runs past the end,
    which a map with a sentinel excludes *)
Fixpoint find_machine_pma (pmas : list pma_entry) (i : nat) (paddr length : Z) : option nat :=
  match pmas with
  | [] => None
  | pma :: pmas =>
      if m_length pma =? 0 then Some i
      else if get_istart_M pma && contains pma paddr length then Some i
      else find_machine_pma pmas (S i) paddr length
  end.

Definition find_memory_pma_entry (m : uarch_memory) (paddr length : Z) : option pma_ref :=
  if contains (um_ram m) paddr length then Some ref_ram
  else ref_pmas <$> find_machine_pma (s_pmas (um_s m)) 0 paddr length.

Definition past_the_map : exn := undefined_behaviour "m_s.pmas[i]".
Definition misaligned_word : exn := undefined_behaviour "misaligned word".

(** The entry, with the reference it was found through *)
Definition memory_pma (m : uarch_memory) (paddr : Z) : outcome (pma_ref * pma_entry) :=
  match find_memory_pma_entry m paddr 8 with
  | Some r => match deref m r with Some p => Done (r, p) | None => Exn past_the_map end
  | None => Exn past_the_map
  end.

(** Reads and writes of a [uint64_t] in the host memory of an entry, which is
    little-endian like the targets the emulator is built for *)
Definition aliased_aligned_read (p : pma_entry) (hoffset : Z) : outcome Z :=
  throw_if (negb (hoffset `mod` 8 =? 0)) misaligned_word ≫= fun _ =>
  m ← get_memory p; mret (le_val (slice hoffset 8 (host_memory m))).

Definition aliased_aligned_write (p : pma_entry) (hoffset data : Z) : outcome pma_entry :=
  throw_if (negb (hoffset `mod` 8 =? 0)) misaligned_word ≫= fun _ =>
  m ← get_memory p;
  mret (set_host_memory (splice (Z.to_nat hoffset) (le_bytes 8 data) (host_memory m)) p).

Definition do_read_word (m : uarch_memory) (paddr : Z) : outcome Z :=
  '(_, pma) ← memory_pma m paddr;
  if get_istart_E pma then read_register paddr (um_s m)
  else
    throw_if (negb (flag_R (m_flags pma))) (runtime_error "pma is not readable") ≫= fun _ =>
    aliased_aligned_read pma (uint64 (paddr - m_start pma)).

Definition do_write_word (m : uarch_memory) (paddr data : Z) : outcome uarch_memory :=
  '(r, pma) ← memory_pma m paddr;
  if get_istart_E pma then
    s' ← write_register paddr (um_s m) data; mret (UarchMemory (um_ram m) s')
  else
    throw_if (negb (flag_W (m_flags pma))) (runtime_error "pma is not writable") ≫= fun _ =>
    pma ← aliased_aligned_write pma (uint64 (paddr - m_start pma)) data;
    let paddr_page := paddr &ᵇ uint64 (Z.lnot PAGE_OFFSET_MASK) in
    pma ← mark_dirty_page pma (uint64 (paddr_page - m_start pma));
    mret (store_ref r pma m).

Section access.
(** The image of uarch-pristine-ram.c, a generated file *)
Context (uarch_pristine_ram : list Z).

Definition uarch_pristine_ram_len : Z := Z.of_nat (length uarch_pristine_ram).

(** The memory part of [do_reset_state] *)
Definition reset_ram (ram : pma_entry) : outcome pma_entry :=
  throw_if (m_length ram <? uarch_pristine_ram_len)
    (runtime_error "embedded uarch ram image does not fit in uarch ram pma") ≫= fun _ =>
  ram ← write_memory ram (m_start ram) (Some uarch_pristine_ram) uarch_pristine_ram_len;
  fill_memory ram (uint64 (m_start ram + uarch_pristine_ram_len)) 0
    (uint64 (m_length ram - uarch_pristine_ram_len)).

Definition do_reset_state (r : uarch_refs) : outcome unit * uarch_refs :=
  let r := on_us (upd_us_halt_flag (fun _ => false)) r in
  let r := on_us (upd_us_pc (fun _ => UARCH_PC_INIT)) r in
  let r := on_us (upd_us_cycle (fun _ => UARCH_CYCLE_INIT)) r in
  let r := on_us (upd_us_x (fun x => fold_left (fun x i => <[i := UARCH_X_INIT]> x) (seq 1 31) x)) r in
  match reset_ram (us_ram (m_us r)) with
  | Done ram => (Done tt, on_us (upd_us_ram (fun _ => ram)) r)
  | Exn e => (Exn e, r)
  end.

(** ** The class *)

Definition memory_of (r : uarch_refs) : uarch_memory := UarchMemory (us_ram (m_us r)) (m_s r).
Definition set_memory (m : uarch_memory) (r : uarch_refs) : uarch_refs :=
  UarchRefs (upd_us_ram (fun _ => um_ram m) (m_us r)) (um_s m) (console r).

(** [m_us.x[reg]] for an index out of the range of the array is undefined. *)
Definition usa_op {A} (o : uop A) : uarch_refs -> outcome A * uarch_refs :=
  match o in uop A return uarch_refs -> outcome A * uarch_refs with
  | ReadX reg => fun r =>
      if bool_decide (0 <= reg < 32) then (Done (nth (Z.to_nat reg) (us_x (m_us r)) 0), r)
      else (Exn (undefined_behaviour "x"), r)
  | WriteX reg val => fun r =>
      if reg =? 0 then (Exn (assertion_failure "reg != 0"), r)
      else if bool_decide (0 <= reg < 32) then
        (Done tt, on_us (upd_us_x (fun x => <[Z.to_nat reg := val]> x)) r)
      else (Exn (undefined_behaviour "x"), r)
  | ReadPc => fun r => (Done (us_pc (m_us r)), r)
  | WritePc val => fun r => (Done tt, on_us (upd_us_pc (fun _ => val)) r)
  | ReadCycle => fun r => (Done (us_cycle (m_us r)), r)
  | WriteCycle val => fun r => (Done tt, on_us (upd_us_cycle (fun _ => val)) r)
  | ReadHaltFlag => fun r => (Done (us_halt_flag (m_us r)), r)
  | SetHaltFlag => fun r => (Done tt, on_us (upd_us_halt_flag (fun _ => true)) r)
  | ResetHaltFlag => fun r => (Done tt, on_us (upd_us_halt_flag (fun _ => false)) r)
  | ReadWord paddr => fun r => (do_read_word (memory_of r) paddr, r)
  | WriteWord paddr val => fun r =>
      match do_write_word (memory_of r) paddr val with
      | Done m => (Done tt, set_memory m r)
      | Exn e => (Exn e, r)
      end
  | ResetState => do_reset_state
  | PutChar c => fun r => (Done tt, UarchRefs (m_us r) (m_s r) (console r ++ [c]))
  end.

(** The annotations do nothing. *)
Definition uarch_state_access : access_handler uarch_refs := {|
  do_op := @usa_op;
  do_begin := fun _ r => r;
  do_end := fun _ r => r;
|}.
End access.
