(* ===== verification/UarchStateSpec.v ===== *)
(** * The state access class implements the interface

    The memory that the microarchitecture sees (its RAM, the memory ranges of
    the machine and the registers behind the bridge) satisfies the laws the
    specification asks for, and the class [uarch_state_access] is an
    implementation of the interface over that memory. *)

From S2P Require Import Prelude CppInt Constants UarchAccess UarchStep Bytes RV64IM UarchStepSpec Pma PmaSpec MachineState UarchBridge UarchBridgeSpec UarchState.

(** ** Valid memories *)

(** A memory range whose contents are bytes and that can be read if it can be
    written *)
Record memory_ok (p : pma_entry) : Prop := {
  ok_wf : memory_wf p;
  ok_bytes : Forall is_byte (host p);
  ok_flags : flag_W (m_flags p) = true -> flag_R (m_flags p) = true;
}.

Definition pma_ok (p : pma_entry) : Prop :=
  (get_istart_M p = true -> memory_ok p) /\ (m_length p = 0 -> get_istart_E p = true).

(** The map of the machine ends with a sentinel. *)
Record memory_valid (m : uarch_memory) : Prop := {
  mv_ram : memory_ok (um_ram m);
  mv_pmas : Forall pma_ok (s_pmas (um_s m));
  mv_sentinel : Exists (fun p => m_length p = 0) (s_pmas (um_s m));
  mv_machine : machine_wf (um_s m);
  mv_values : forall a v, read_register a (um_s m) = Done v -> is_uint 64 v;
}.

(** ** Shapes: what the search for an entry depends on *)

Definition same_shape (p p' : pma_entry) : Prop :=
  get_istart_M p' = get_istart_M p /\ get_istart_IO p' = get_istart_IO p /\ get_istart_E p' = get_istart_E p /\
  m_start p' = m_start p /\ m_length p' = m_length p /\ m_flags p' = m_flags p.

Lemma same_shape_contains p p' a n : same_shape p p' -> contains p' a n = contains p a n.
Proof. intros (_ & _ & HE & Hs & Hl & _). unfold contains. by rewrite HE, Hs, Hl. Qed.

Lemma same_shape_istart p p' : same_shape p p' -> get_istart p' = get_istart p /\ get_ilength p' = get_ilength p.
Proof.
  intros (HM & HIO & HE & Hs & Hl & Hf). unfold get_istart, get_ilength. by rewrite HM, HIO, HE, Hs, Hl, Hf.
Qed.

Lemma find_machine_pma_insert l i j p p' a n :
  l !! i = Some p -> same_shape p p' ->
  find_machine_pma (<[i := p']> l) j a n = find_machine_pma l j a n.
Proof.
  intros Hi Hp. revert i j Hi. induction l as [|q l IH]; intros [|i] j Hi; cbn in *; [done|done| |].
  - injection Hi as ->. rewrite (same_shape_contains _ _ _ _ Hp).
    destruct Hp as (-> & _ & _ & _ & -> & _). done.
  - by rewrite IH.
Qed.

Lemma store_ref_deref m r p p' r' :
  deref m r = Some p -> deref (store_ref r p' m) r' = if decide (r' = r) then Some p' else deref m r'.
Proof.
  destruct r as [|i], r' as [|j]; cbn; intros Hr.
  - by rewrite decide_True.
  - by rewrite decide_False.
  - by rewrite decide_False.
  - destruct (decide (ref_pmas j = ref_pmas i)) as [E|E].
    + injection E as ->. apply list_lookup_insert_eq. by eapply lookup_lt_Some.
    + apply list_lookup_insert_ne. congruence.
Qed.

Lemma find_store_ref m r p p' a n :
  deref m r = Some p -> same_shape p p' ->
  find_memory_pma_entry (store_ref r p' m) a n = find_memory_pma_entry m a n.
Proof.
  intros Hr Hp. unfold find_memory_pma_entry. destruct r as [|i]; cbn in *.
  - injection Hr as ->. by rewrite (same_shape_contains _ _ _ _ Hp).
  - by rewrite (find_machine_pma_insert _ _ _ _ _ _ _ Hr Hp).
Qed.

(** The bridge reads only the shape of the entries. *)
Lemma read_register_store_ref m r p p' a :
  deref m r = Some p -> same_shape p p' ->
  read_register a (um_s (store_ref r p' m)) = read_register a (um_s m).
Proof.
  intros Hr Hp. destruct r as [|i]; [done|]. cbn in *.
  destruct (same_shape_istart _ _ Hp) as [Hi Hl].
  unfold read_register. 
  assert (forall b, try_read_pma (upd_pmas (fun l => <[i := p']> l) (um_s m)) b = try_read_pma (um_s m) b) as ->.
  { intros b. unfold try_read_pma. case_if; [done|].
    change (s_pmas (upd_pmas ?f ?s)) with (f (s_pmas s)). cbv beta.
    set (k := Z.to_nat _). destruct (decide (i = k)) as [->|Hne].
    - rewrite list_lookup_insert_eq, Hr by (by eapply lookup_lt_Some). by rewrite Hi, Hl.
    - by rewrite list_lookup_insert_ne. }
  done.
Qed.

(** ** The entry of a word *)

Lemma find_machine_pma_spec l j a n :
  Forall pma_ok l -> Exists (fun p => m_length p = 0) l ->
  exists k p, find_machine_pma l j a n = Some (j + k)%nat /\ l !! k = Some p /\ pma_ok p /\
    (get_istart_E p = true \/ (get_istart_M p = true /\ contains p a n = true)).
Proof.
  revert j. induction l as [|q l IH]; intros j Hl Hs; [by inversion Hs|]. cbn.
  apply Forall_cons in Hl as [Hq Hl].
  destruct (Z.eqb_spec (m_length q) 0) as [Hz|Hz].
  - exists 0%nat, q. rewrite Nat.add_0_r. split; [done|]. split; [done|]. split; [done|]. left. by apply Hq.
  - destruct (get_istart_M q && contains q a n) eqn:Ec.
    + exists 0%nat, q. rewrite Nat.add_0_r. split; [done|]. split; [done|]. split; [done|]. right. by apply andb_prop in Ec.
    + apply Exists_cons in Hs as [|Hs]; [done|]. destruct (IH (S j) Hl Hs) as (k & p & Hf & Hk & Hp).
      exists (S k), p. rewrite Hf. split; [f_equal; lia|]. done.
Qed.

(** The search returns an empty entry or a memory range that holds the word. *)
Lemma memory_pma_spec m a :
  memory_valid m ->
  exists r p, memory_pma m a = Done (r, p) /\ find_memory_pma_entry m a 8 = Some r /\ deref m r = Some p /\
    (get_istart_E p = true \/
     (get_istart_E p = false /\ memory_ok p /\ contains p a 8 = true)).
Proof.
  intros [Hram Hpmas Hsen _ _]. unfold memory_pma, find_memory_pma_entry.
  destruct (contains (um_ram m) a 8) eqn:Ec.
  - exists ref_ram, (um_ram m). cbn. do 3 (split; [done|]). right. split; [|done].
    apply not_empty. apply wf_memory, Hram.
  - destruct (find_machine_pma_spec _ 0 a 8 Hpmas Hsen) as (k & p & Hf & Hk & [Hp _] & Hor).
    exists (ref_pmas k), p. rewrite Hf. cbn. rewrite Hk. do 3 (split; [done|]).
    destruct Hor as [|[HM Hc]]; [by left|]. right. split; [by apply not_empty|]. auto.
Qed.

Lemma contains_offset p a :
  memory_wf p -> contains p a 8 = true -> 
  m_start p <= a /\ 0 <= uint64 (a - m_start p) <= m_length p - 8.
Proof.
  intros Hp. unfold contains. rewrite not_empty by apply Hp. intros Hc. reflect_bools.
  pose proof (wf_length p Hp). pose proof (wf_end p Hp). pose proof (wf_start p Hp).
  rewrite (uint_id 64 (m_length p - 8)) in * by (unfold is_uint; lia).
  pose proof (uint_range 64 (a - m_start p)). unfold is_uint in *. lia.
Qed.

(** ** Words of a memory range *)

Lemma aliased_read_spec p o :
  memory_wf p ->
  aliased_aligned_read p o =
    if o `mod` 8 =? 0 then Done (le_val (slice o 8 (host p))) else Exn misaligned_word.
Proof.
  intros Hp. unfold aliased_aligned_read. destruct (o `mod` 8 =? 0); [|done]. cbn.
  destruct (get_memory_host p Hp) as (m & -> & Hm). cbn. by rewrite Hm.
Qed.

Lemma mark_dirty_page_same p a p' : mark_dirty_page p a = Done p' -> same_memory p p'.
Proof.
  unfold mark_dirty_page. case_if; intros Hm; invert_outcome; subst; [done|].
  split; [done|]. apply length_insert.
Qed.

Lemma same_memory_shape p p' : same_memory p p' -> same_shape p p'.
Proof. intros [-> _]. done. Qed.

Lemma set_host_memory_shape p l : same_shape p (set_host_memory l p).
Proof.
  unfold same_shape, get_istart_M, get_istart_IO, get_istart_E, set_host_memory. cbn. by destruct (m_data p).
Qed.

#[export] Instance same_shape_trans : Transitive same_shape.
Proof. unfold same_shape. intros p q r ? ?. naive_solver congruence. Qed.

(** A word stored in a range that holds it *)
Lemma store_word_spec p a b v p1 p2 (o := uint64 (a - m_start p)) :
  memory_ok p -> contains p a 8 = true ->
  aliased_aligned_write p o v = Done p1 -> mark_dirty_page p1 b = Done p2 ->
  memory_ok p2 /\ same_shape p p2 /\ host p2 = splice (Z.to_nat o) (le_bytes 8 v) (host p) /\ o `mod` 8 = 0.
Proof.
  intros [Hp Hb Hf] Hc Hw Hm. destruct (contains_offset p a Hp Hc) as [_ Ho]. fold o in Ho.
  unfold aliased_aligned_write in Hw.
  destruct (Z.eqb_spec (o `mod` 8) 0) as [Ha|]; [|done]. cbn [negb throw_if mbind outcome_bind] in Hw.
  destruct (get_memory_host p Hp) as (m & Hg & Hh). rewrite Hg in Hw. cbn in Hw. rewrite Hh in Hw.
  injection Hw as <-.
  pose proof (wf_host p Hp) as Hl.
  assert (length (splice (Z.to_nat o) (le_bytes 8 v) (host p)) = Z.to_nat (m_length p)) as Hls
    by (rewrite length_splice; rewrite ?length_le_bytes; lia).
  destruct (set_host_memory_wf p _ Hp Hls) as [Hwf1 Hh1].
  apply mark_dirty_page_same in Hm.
  pose proof (same_memory_host _ _ Hm) as Hh2. rewrite Hh1 in Hh2.
  assert (same_shape p p2) as Hs
    by (etrans; [apply set_host_memory_shape|by apply same_memory_shape]).
  split; [|done]. constructor.
  - by eapply same_memory_wf.
  - rewrite Hh2. by apply splice_bytes; [apply le_bytes_bytes|].
  - destruct Hs as (_ & _ & _ & _ & _ & ->). done.
Qed.

(** ** Words *)

Lemma slice_word_range p o : Forall is_byte (host p) -> is_uint 64 (le_val (slice o 8 (host p))).
Proof.
  intros Hb. apply (uint_mono (8 * Z.of_nat (length (slice o 8 (host p))))).
  - unfold slice. rewrite length_take. lia.
  - apply le_val_range. unfold slice. by apply Forall_take, Forall_drop.
Qed.

(** A load from an entry that was found *)
Definition read_entry (m : uarch_memory) (p : pma_entry) (a : Z) : outcome Z :=
  if get_istart_E p then read_register a (um_s m)
  else if negb (flag_R (m_flags p)) then Exn (runtime_error "pma is not readable")
  else aliased_aligned_read p (uint64 (a - m_start p)).

Lemma do_read_word_entry m a r p :
  memory_pma m a = Done (r, p) -> do_read_word m a = read_entry m p a.
Proof.
  intros E. unfold do_read_word, read_entry. rewrite E. cbn [mbind outcome_bind].
  destruct (get_istart_E p); [done|]. by destruct (flag_R _).
Qed.

(** The two ways a store succeeds *)
Lemma do_write_word_cases m a v m' :
  memory_valid m -> do_write_word m a v = Done m' ->
  exists r p, memory_pma m a = Done (r, p) /\ deref m r = Some p /\
    ((get_istart_E p = true /\ exists s', write_register a (um_s m) v = Done s' /\ m' = UarchMemory (um_ram m) s') \/
     (get_istart_E p = false /\ flag_W (m_flags p) = true /\ memory_ok p /\ contains p a 8 = true /\
      exists p', m' = store_ref r p' m /\ memory_ok p' /\ same_shape p p' /\
        host p' = splice (Z.to_nat (uint64 (a - m_start p))) (le_bytes 8 v) (host p) /\
        uint64 (a - m_start p) `mod` 8 = 0)).
Proof.
  intros Hm Hw. destruct (memory_pma_spec m a Hm) as (r & p & E & _ & Hr & Hp).
  exists r, p. split; [done|]. split; [done|]. unfold do_write_word in Hw. rewrite E in Hw.
  cbn [mbind outcome_bind] in Hw. destruct Hp as [HE|(HE & Hok & Hc)]; rewrite HE in Hw.
  - left. split; [done|]. invert_outcome. subst. eauto.
  - right. invert_outcome. reflect_bools. subst.
    do 4 (split; [done|]).
    destruct (store_word_spec p a _ v _ _ Hok Hc H0 H1) as (? & ? & ? & ?). eauto 10.
Qed.

Lemma memory_pma_store m r p p' a :
  deref m r = Some p -> same_shape p p' ->
  memory_pma (store_ref r p' m) a =
  ('(r', q) ← memory_pma m a; mret (r', if decide (r' = r) then p' else q)).
Proof.
  intros Hr Hp. unfold memory_pma. rewrite (find_store_ref _ _ _ _ _ _ Hr Hp).
  destruct (find_memory_pma_entry m a 8) as [r'|]; [|done].
  rewrite (store_ref_deref _ _ _ _ _ Hr). case_decide as E.
  - subst r'. rewrite Hr. cbn. by rewrite decide_True.
  - destruct (deref m r'); [|done]. cbn. by rewrite decide_False.
Qed.

Lemma memory_pma_bridge m s' a :
  s_pmas s' = s_pmas (um_s m) -> memory_pma (UarchMemory (um_ram m) s') a = memory_pma m a.
Proof.
  intros Hp. unfold memory_pma, find_memory_pma_entry. cbn. rewrite Hp.
  case_if; [done|]. destruct (find_machine_pma _ _ _ _) as [i|]; [|done]. cbn. by rewrite Hp.
Qed.

(** The word of a range after a store of a word in it *)
Lemma read_stored_word p p' a v (o := uint64 (a - m_start p)) :
  memory_ok p -> contains p a 8 = true -> is_uint 64 v ->
  host p' = splice (Z.to_nat o) (le_bytes 8 v) (host p) ->
  le_val (slice o 8 (host p')) = v.
Proof.
  intros [Hp _ _] Hc Hv Hh. destruct (contains_offset _ _ Hp Hc) as [_ Ho]. fold o in Ho.
  pose proof (wf_host p Hp). unfold slice. rewrite Hh.
  pose proof (splice_read (Z.to_nat o) (le_bytes 8 v) (host p)) as Hr. rewrite length_le_bytes in Hr.
  change (Z.to_nat 8) with 8%nat. rewrite Hr by lia. rewrite le_val_le_bytes. by apply uint_id.
Qed.

Lemma read_other_word p p' a b v (o := uint64 (a - m_start p)) (o' := uint64 (b - m_start p)) :
  memory_ok p -> contains p a 8 = true -> contains p b 8 = true ->
  o `mod` 8 = 0 -> o' `mod` 8 = 0 -> o <> o' ->
  host p' = splice (Z.to_nat o) (le_bytes 8 v) (host p) ->
  slice o' 8 (host p') = slice o' 8 (host p).
Proof.
  intros [Hp _ _] Ha Hb Hal Hal' Hne Hh.
  destruct (contains_offset _ _ Hp Ha) as [_ Ho]. destruct (contains_offset _ _ Hp Hb) as [_ Ho'].
  fold o in Ho. fold o' in Ho'. pose proof (wf_host p Hp). unfold slice. rewrite Hh.
  clearbody o o'. apply splice_read_ne; rewrite length_le_bytes; [lia|]. Z.div_mod_to_equations. lia.
Qed.

Lemma store_ref_valid m r p p' :
  memory_valid m -> deref m r = Some p -> same_shape p p' -> memory_ok p' -> get_istart_M p = true ->
  memory_valid (store_ref r p' m).
Proof.
  intros [Hram Hpmas Hsen Hs Hv] Hr Hp Hok HM.
  pose proof (read_register_store_ref m r p p') as Hreg.
  destruct r as [|i]; cbn in *; [by constructor|].
  constructor; cbn.
  - done.
  - change (s_pmas (upd_pmas ?f ?s)) with (f (s_pmas s)). cbv beta.
    apply Forall_insert; [done|]. split; [done|]. intros Hz. exfalso.
    pose proof (wf_length p' (ok_wf _ Hok)). lia.
  - change (s_pmas (upd_pmas ?f ?s)) with (f (s_pmas s)). cbv beta.
    apply Exists_exists in Hsen as (q & [j Hj]%list_elem_of_lookup & Hz). apply Exists_exists.
    exists q. split; [|done]. apply list_elem_of_lookup. exists j.
    rewrite list_lookup_insert_ne; [done|]. intros ->. rewrite Hr in Hj. injection Hj as <-.
    pose proof (wf_length p' (ok_wf _ Hok)). destruct Hp as (_ & _ & _ & _ & Hl & _). lia.
  - destruct Hs. by constructor.
  - intros a v. rewrite Hreg by done. apply Hv.
Qed.

Lemma bridge_store_valid m a v s' :
  memory_valid m -> is_uint 64 v -> write_register a (um_s m) v = Done s' ->
  memory_valid (UarchMemory (um_ram m) s').
Proof.
  intros [Hram Hpmas Hsen Hs Hv] Hvr Hw.
  destruct (write_register_spec _ _ _ _ Hs Hw) as (Hs' & Hr & Hp & Hne).
  constructor; cbn; rewrite ?Hp; try done. intros b w Hb.
  destruct (decide (b = a)) as [->|]; [|rewrite Hne in Hb by done; by eapply Hv].
  rewrite Hr in Hb. by injection Hb as <-.
Qed.

(** ** The laws *)

Section laws.
Context (uarch_pristine_ram : list Z) (Hpristine : Forall is_byte uarch_pristine_ram).

#[local] Instance uarch_word_mem : WordMem uarch_memory := {|
  mem_load := do_read_word;
  mem_store := do_write_word;
  mem_reset m := ram ← reset_ram uarch_pristine_ram (um_ram m); mret (UarchMemory ram (um_s m));
|}.

Lemma reset_ram_spec ram :
  memory_ok ram ->
  if bool_decide (uarch_pristine_ram_len uarch_pristine_ram <= m_length ram)
  then exists ram', reset_ram uarch_pristine_ram ram = Done ram' /\ memory_ok ram' /\
    m_start ram' = m_start ram /\ m_length ram' = m_length ram /\ m_flags ram' = m_flags ram /\
    host ram' = uarch_pristine_ram
      ++ replicate (Z.to_nat (m_length ram - uarch_pristine_ram_len uarch_pristine_ram)) 0
  else reset_ram uarch_pristine_ram ram =
    Exn (runtime_error "embedded uarch ram image does not fit in uarch ram pma").
Proof.
  intros [Hp Hb Hf]. unfold reset_ram.
  pose proof (wf_start _ Hp). pose proof (wf_end _ Hp). pose proof (wf_length _ Hp). pose proof (wf_host _ Hp) as Hh.
  set (n := uarch_pristine_ram_len uarch_pristine_ram). assert (0 <= n) by (unfold n, uarch_pristine_ram_len; lia).
  case_bool_decide as Hn; [|by replace (m_length ram <? n) with true by lia].
  replace (m_length ram <? n) with false by lia. cbn [throw_if mbind outcome_bind].
  destruct (write_memory_spec ram Hp (m_start ram) n) with (data := uarch_pristine_ram)
    as (ram1 & -> & (Hp1 & Hs1 & Hl1 & Hf1 & _) & Hh1 & _); [unfold is_uint; lia..|unfold n, uarch_pristine_ram_len; lia|split; lia|].
  cbn [mbind outcome_bind]. rewrite Hs1, Hl1. rewrite !uint_id by (unfold is_uint; lia).
  destruct (fill_memory_spec ram1 Hp1 (m_start ram + n) (m_length ram - n)) with (value := 0)
    as (ram2 & -> & (Hp2 & Hs2 & Hl2 & Hf2 & _) & Hh2 & _); [unfold is_uint; lia..|unfold in_range; lia|].
  exists ram2. split; [done|].
  assert (host ram2 = uarch_pristine_ram ++ replicate (Z.to_nat (m_length ram - n)) 0) as Hhost.
  { rewrite Hh2, Hh1, Hs1. replace (m_start ram - m_start ram) with 0 by lia.
    replace (m_start ram + n - m_start ram) with n by lia.
    replace (slice 0 n uarch_pristine_ram) with uarch_pristine_ram
      by (unfold slice, n, uarch_pristine_ram_len; rewrite drop_0, Nat2Z.id, firstn_all; done).
    replace (Z.to_nat n) with (Z.to_nat 0 + length uarch_pristine_ram)%nat
      by (unfold n, uarch_pristine_ram_len; lia).
    rewrite splice_app by (rewrite length_replicate, Hh; clear -Hn; unfold n, uarch_pristine_ram_len in *; lia).
    unfold splice. cbn [Z.to_nat take]. rewrite drop_ge, app_nil_r; [done|].
    rewrite length_app, length_replicate, Hh. clear -Hn. unfold n, uarch_pristine_ram_len in *. lia. }
  split; [|rewrite Hs2, Hs1, Hl2, Hl1, Hf2, Hf1; auto].
  constructor; [done| |by rewrite Hf2, Hf1].
  rewrite Hhost. apply Forall_app. split; [done|]. apply Forall_replicate. unfold is_byte, is_uint. lia.
Qed.

#[local] Instance uarch_memory_laws : WordMemLaws uarch_memory memory_valid.
Proof.
  split; cbn.
  - intros m a w Hm Hr. destruct (memory_pma_spec m a Hm) as (r & p & E & _ & _ & Hp).
    rewrite (do_read_word_entry _ _ _ _ E) in Hr. unfold read_entry in Hr.
    destruct Hp as [HE|(HE & Hok & Hc)]; rewrite HE in Hr; [by eapply mv_values|].
    case_if; [done|]. rewrite aliased_read_spec in Hr by apply Hok. case_if; [|done].
    injection Hr as <-. apply slice_word_range, Hok.
  - intros m a v m' Hm Hv Hw.
    destruct (do_write_word_cases _ _ _ _ Hm Hw) as (r & p & E & Hr & [(HE & s' & Hs' & ->)|(HE & _ & Hok & Hc & p' & -> & Hok' & Hsh & _)]).
    + by eapply bridge_store_valid.
    + eapply store_ref_valid; try done. apply wf_memory, Hok.
  - intros m m' Hm Hr. invert_outcome. subst. destruct Hm as [Hram Hpmas Hsen Hs Hv].
    pose proof (reset_ram_spec _ Hram) as Hspec. case_bool_decide; [|congruence].
    destruct Hspec as (ram' & E & Hok & _). constructor; cbn; try done. congruence.
Qed.

Lemma load_store m a v m' :
  memory_valid m -> is_uint 64 v -> do_write_word m a v = Done m' -> do_read_word m' a = Done v.
Proof.
  intros Hm Hv Hw.
  destruct (do_write_word_cases _ _ _ _ Hm Hw)
    as (r & p & E & Hr & [(HE & s' & Hs' & ->)|(HE & HW & Hok & Hc & p' & -> & Hok' & Hsh & Hh & Hal')]).
  - destruct (write_register_spec _ _ _ _ (mv_machine _ Hm) Hs') as (_ & Hrd & Hp & _).
    rewrite (do_read_word_entry _ _ r p) by by rewrite memory_pma_bridge.
    unfold read_entry. by rewrite HE.
  - rewrite (do_read_word_entry _ _ r p')
      by (rewrite (memory_pma_store _ _ _ _ _ Hr Hsh), E; cbn; by rewrite decide_True).
    unfold read_entry. destruct Hsh as (_ & _ & -> & -> & _ & ->). rewrite HE, ok_flags by done. cbn [negb].
    rewrite aliased_read_spec by apply Hok'. rewrite (proj2 (Z.eqb_eq _ _) Hal'). f_equal.
    by eapply read_stored_word.
Qed.

Lemma load_store_ne m a b v m' :
  memory_valid m -> a `mod` 8 = 0 -> b `mod` 8 = 0 -> is_uint 64 a -> is_uint 64 b -> a <> b ->
  do_write_word m a v = Done m' -> do_read_word m' b = do_read_word m b.
Proof.
  intros Hm Ha Hb Har Hbr Hne Hw.
  destruct (memory_pma_spec m b Hm) as (rb & pb & Eb & _ & Hrb & Hpb).
  rewrite (do_read_word_entry m b rb pb) by done.
  destruct (do_write_word_cases _ _ _ _ Hm Hw)
    as (r & p & E & Hr & [(HE & s' & Hs' & ->)|(HE & HW & Hok & Hc & p' & -> & Hok' & Hsh & Hh & Hal')]).
  - destruct (write_register_spec _ _ _ _ (mv_machine _ Hm) Hs') as (_ & _ & Hp & Hrd).
    rewrite (do_read_word_entry _ _ rb pb) by by rewrite memory_pma_bridge.
    unfold read_entry. cbn. by rewrite Hrd by done.
  - rewrite (do_read_word_entry _ _ rb (if decide (rb = r) then p' else pb))
      by (by rewrite (memory_pma_store _ _ _ _ _ Hr Hsh), Eb).
    unfold read_entry. rewrite (read_register_store_ref _ _ _ _ _ Hr Hsh).
    case_decide as Hd; [|done]. subst rb. rewrite Hr in Hrb. injection Hrb as <-.
    destruct Hpb as [HE'|(_ & _ & Hcb)]; [congruence|].
    pose proof Hsh as (_ & _ & -> & -> & _ & ->). rewrite HE. case_if; [done|].
    rewrite !aliased_read_spec by (apply Hok || apply Hok').
    case_if; [|done]. do 2 f_equal. reflect_bools. eapply read_other_word; try done.
    destruct (contains_offset _ _ (ok_wf _ Hok) Hc), (contains_offset _ _ (ok_wf _ Hok) Hcb).
    pose proof (wf_start _ (ok_wf _ Hok)). unfold is_uint in *.
    rewrite !uint_id by (unfold is_uint; lia). lia.
Qed.

#[local] Instance uarch_memory_store : WordMemStore uarch_memory memory_valid.
Proof.
  split; cbn; intros; [by eapply load_store|by eapply (load_store_ne _ a)].
Qed.

(** ** The class *)

Definition view (r : uarch_refs) : rv_state uarch_memory :=
  RvState (us_x (m_us r)) (us_pc (m_us r)) (us_cycle (m_us r)) (us_halt_flag (m_us r))
    (memory_of r) (console r).

#[local] Instance uarch_state_implements :
  UarchImplements (uarch_state_access uarch_pristine_ram) view (fun r => length (us_x (m_us r)) = 32%nat).
Proof.
  split; [|done|done].
  intros A o r Hr. destruct o; cbn; try done.
  - by case_bool_decide.
  - unfold set_reg. destruct (reg =? 0) eqn:E; [done|]. case_bool_decide; [|done].
    cbn. by rewrite length_insert.
  - by destruct (do_write_word _ _ _) as [[]|].
  - unfold do_reset_state, reset_regs. destruct r as [[? x ? ? ? ? ?] ? ?]. cbn in Hr. explode x.
    cbn. by destruct (reset_ram _ _).
Qed.
End laws.
