(* ===== verification/UarchInterpret.v ===== *)
(** * The interpreter loop (uarch-interpret.cpp)

    Steps until the cycle counter reaches a target or the microarchitecture
    halts.  The loop is given fuel; [interpret_loop_fuel] shows that the fuel
    [uarch_interpret] passes is never exhausted. *)

From S2P Require Import Prelude CppInt Constants UarchAccess UarchStep Bytes RV64IM UarchStepSpec.

Inductive uarch_interpreter_break_reason := reached_target_cycle | uarch_halted.

#[export] Instance break_reason_eq_dec : EqDecision uarch_interpreter_break_reason.
Proof. solve_decision. Defined.

Definition out_of_fuel : exn := undefined_behaviour "out of fuel".

Fixpoint interpret_loop (fuel : nat) (cycle cycle_end : Z) : prog uarch_interpreter_break_reason :=
  if cycle <? cycle_end then
    match fuel with
    | O => Throw out_of_fuel
    | S fuel =>
        status ← uarch_step;
        match status with
        | Success => interpret_loop fuel (uint64 (cycle + 1)) cycle_end
        | UArchHalted => mret uarch_halted
        | CycleOverflow => mret reached_target_cycle
        end
    end
  else mret reached_target_cycle.

Definition uarch_interpret (cycle_end : Z) : prog uarch_interpreter_break_reason :=
  cycle ← readCycle;
  if cycle_end <? cycle then Throw (invalid_argument "uarch_cycle is past")
  else interpret_loop (Z.to_nat (cycle_end - cycle)) cycle cycle_end.

(** ** Reference: at most [n] steps of the specification *)

Section reference.
Context {M : Type} `{WordMem M}.

Fixpoint rv_run (n : nat) (s : rv_state M) : outcome uarch_interpreter_break_reason * rv_state M :=
  match n with
  | O => (Done reached_target_cycle, s)
  | S n =>
      match rv_step s with
      | (Done Success, s') => rv_run n s'
      | (Done UArchHalted, s') => (Done uarch_halted, s')
      | (Done CycleOverflow, s') => (Done reached_target_cycle, s')
      | (Exn e, s') => (Exn e, s')
      end
  end.

(** Stopping after [n] steps and resuming is running on. *)
Lemma rv_run_add n m s :
  rv_run (n + m) s =
  match rv_run n s with
  | (Done reached_target_cycle, s') => rv_run m s'
  | stopped => stopped
  end.
Proof.
  revert s. induction n as [|n IH]; intros s; cbn; [done|].
  destruct (rv_step s) as [[[]|e] s'] eqn:E; [by apply IH| |done|done].
  assert (s' = s /\ rv_cycle s = UINT64_MAX) as [-> Hc].
  { unfold rv_step in E. destruct (Z.eqb_spec (rv_cycle s) UINT64_MAX); [by simplify_eq|].
    destruct (rv_halt s); [done|]. by destruct (fetch_exec s). }
  destruct m; cbn; [done|]. unfold rv_step. by rewrite (proj2 (Z.eqb_eq _ _) Hc).
Qed.

(** *** Cycles *)

Lemma exec_cycle i s s' : exec i s = Done s' -> rv_cycle s' = rv_cycle s.
Proof.
  assert (forall r v (s0 : rv_state M), rv_cycle (set_reg r v s0) = rv_cycle s0) as Hset
    by (intros; unfold set_reg; by case_if).
  destruct i; cbn [exec]; intros He; repeat (case_if; try done); invert_outcome; subst;
    unfold next; cbn; rewrite ?Hset; try done.
  destruct (store_regs _ _ _ _ _ H0) as [m ->]. done.
Qed.

Lemma rv_step_success s s' :
  rv_step s = (Done Success, s') ->
  rv_halt s = false /\ rv_cycle s <> UINT64_MAX /\ rv_cycle s' = uint64 (rv_cycle s + 1).
Proof.
  unfold rv_step. destruct (Z.eqb_spec (rv_cycle s) UINT64_MAX); [done|].
  destruct (rv_halt s); [done|]. destruct (fetch_exec s) as [s1|e] eqn:E; [|done].
  intros [= <-]. do 2 (split; [done|]). unfold fetch_exec in E. invert_outcome.
  destruct (decode _); [|done]. invert_outcome. by subst.
Qed.

(** Where a run stops *)
Lemma rv_run_result n s r s' :
  is_uint 64 (rv_cycle s) -> rv_cycle s + Z.of_nat n <= UINT64_MAX -> rv_run n s = (r, s') ->
  match r with
  | Done reached_target_cycle => rv_cycle s' = rv_cycle s + Z.of_nat n
  | Done uarch_halted => rv_halt s' = true /\ rv_cycle s' < rv_cycle s + Z.of_nat n
  | Exn e => fetch_exec s' = Exn e /\ rv_cycle s' < rv_cycle s + Z.of_nat n
  end.
Proof.
  revert s. induction n as [|n IH]; intros s Hc Hn; cbn [rv_run]; [intros [= <- <-]; lia|].
  destruct (rv_step s) as [[[]|e] s1] eqn:E; intros Hr.
  - apply rv_step_success in E as (_ & _ & Hc1). unfold UINT64_MAX, is_uint in *.
    rewrite uint_id in Hc1 by (unfold is_uint; lia).
    specialize (IH s1 ltac:(lia) ltac:(lia) Hr). rewrite Hc1 in IH.
    destruct r as [[]|e]; lia || (destruct IH; split; [done|lia]).
  - exfalso. unfold rv_step in E. destruct (Z.eqb_spec (rv_cycle s) UINT64_MAX); [lia|].
    destruct (rv_halt s); [done|]. by destruct (fetch_exec s).
  - injection Hr as <- <-. unfold rv_step in E. destruct (Z.eqb_spec (rv_cycle s) UINT64_MAX); [lia|].
    destruct (rv_halt s) eqn:Eh; [injection E as <-; split; [done|lia]|]. by destruct (fetch_exec s).
  - injection Hr as <- <-. unfold rv_step in E. destruct (Z.eqb_spec (rv_cycle s) UINT64_MAX); [lia|].
    destruct (rv_halt s); [done|]. destruct (fetch_exec s) eqn:Ef; [done|]. injection E as <- <-. split; [done|lia].
Qed.
End reference.

Section loop.
Context {M : Type} `{WordMem M} (valid : M -> Prop) `{!WordMemLaws M valid}.
Implicit Types s : rv_state M.

(** The loop with enough fuel takes the steps of the specification. *)
Lemma interpret_loop_fuel fuel n s :
  wf s -> valid (rv_mem s) -> (n <= fuel)%nat -> rv_cycle s + Z.of_nat n <= UINT64_MAX ->
  run rv_handler (interpret_loop fuel (rv_cycle s) (rv_cycle s + Z.of_nat n)) s = rv_run n s.
Proof.
  revert n s. induction fuel as [|fuel IH]; intros n s Hs Hm Hf Hc.
  - assert (n = 0%nat) as -> by lia. cbn [interpret_loop].
    test (rv_cycle s <? rv_cycle s + Z.of_nat 0) is false. done.
  - cbn [interpret_loop]. destruct n as [|n].
    { test (rv_cycle s <? rv_cycle s + Z.of_nat 0) is false. done. }
    test (rv_cycle s <? rv_cycle s + Z.of_nat (S n)) is true.
    rewrite run_bind, (uarch_step_spec valid) by done. cbn [rv_run].
    destruct (rv_step_wf valid s Hs Hm) as [Hs1 Hm1].
    destruct (rv_step s) as [[[]|e] s1] eqn:E; cbn [snd] in *; [|done..].
    apply rv_step_success in E as (_ & _ & Hc1). destruct Hs as (_ & _ & _ & _ & Hcy).
    unfold UINT64_MAX, is_uint in *. rewrite uint_id in * by (unfold is_uint; lia). rewrite <- Hc1.
    replace (rv_cycle s + Z.of_nat (S n)) with (rv_cycle s1 + Z.of_nat n) by lia.
    apply IH; [done|done|lia|lia].
Qed.

Lemma uarch_interpret_spec cycle_end s :
  wf s -> valid (rv_mem s) -> is_uint 64 cycle_end ->
  run rv_handler (uarch_interpret cycle_end) s =
  if cycle_end <? rv_cycle s then (Exn (invalid_argument "uarch_cycle is past"), s)
  else rv_run (Z.to_nat (cycle_end - rv_cycle s)) s.
Proof.
  intros Hs Hm He. unfold uarch_interpret. rewrite run_bind. cbn [run readCycle do_op rv_handler rv_op].
  destruct (Z.ltb_spec cycle_end (rv_cycle s)); [done|]. unfold is_uint in *.
  set (n := Z.to_nat (cycle_end - rv_cycle s)).
  replace cycle_end with (rv_cycle s + Z.of_nat n) by lia.
  apply interpret_loop_fuel; [done|done|done|]. unfold UINT64_MAX. lia.
Qed.

Lemma rv_run_wf n s : wf s -> valid (rv_mem s) -> wf (rv_run n s).2 /\ valid (rv_mem (rv_run n s).2).
Proof.
  revert s. induction n as [|n IH]; intros s Hs Hm; cbn; [done|].
  destruct (rv_step_wf valid s Hs Hm) as [Hs1 Hm1].
  destruct (rv_step s) as [[[]|e] s1]; cbn [snd] in *; [by apply IH|done..].
Qed.
End loop.
