(* ===== verification/UarchCorrect.v ===== *)
(** * The microarchitecture on the state of the machine

    The theorems about uarch-step.cpp, uarch-interpret.cpp and
    uarch-reset-state.cpp, run on the class [uarch_state_access]. *)

From S2P Require Import Prelude CppInt Constants UarchAccess UarchStep Bytes RV64IM UarchOps UarchStepSpec Pma PmaSpec MachineState UarchBridge UarchBridgeSpec UarchState UarchStateSpec UarchInterpret.

#[local] Existing Instance uarch_state_implements.

(** The type invariant of the state: 64-bit registers with [x0] zero, memory
    ranges as their constructors make them, a sentinel in the map. *)
Definition uarch_valid (r : uarch_refs) : Prop := wf (view r) /\ memory_valid (memory_of r).

Lemma uarch_valid_regs r : uarch_valid r -> length (us_x (m_us r)) = 32%nat.
Proof. by intros [(H & _) _]. Qed.

(** ** A small machine, for the witnesses

    Sixty-four bytes of RAM with [addi x1, x0, 5], [ecall] and zeros, and a
    machine without memory. *)

Definition tiny_ram : pma_entry :=
  set_flags (PmaFlags true true true true true 0)
    (memory_entry "uarch RAM" PMA_UARCH_RAM_START 64
      (PmaMemory 64 0 (le_bytes 4 0x00500093 ++ le_bytes 4 0x00000073 ++ replicate 56 0)) memory_peek_cb).

Definition tiny (a7 : Z) : uarch_refs :=
  UarchRefs (UarchState UARCH_PC_INIT (<[17%nat := a7]> (replicate 32 0)) 0 false
               (empty_entry "shadow" 0 0) tiny_ram (empty_entry "empty" 0 0))
    blank_machine [].

Lemma tiny_ram_ok : memory_ok tiny_ram.
Proof.
  constructor.
  - constructor; vm_compute; congruence.
  - unfold is_byte, is_uint. repeat constructor; vm_compute; congruence.
  - done.
Qed.

Lemma nth_nth_replicate {A} (n m i j : nat) (v : A) : nth j (nth i (replicate n (replicate m v)) []) v = v.
Proof.
  destruct (decide (i < n)%nat) as [Hi|Hi].
  - rewrite (nth_lookup_Some _ _ _ (replicate m v)) by by apply lookup_replicate_2. apply nth_replicate_same.
  - rewrite (nth_overflow (replicate n _)) by (rewrite length_replicate; lia). by destruct j.
Qed.

Lemma blank_reg_values r w : read_reg blank_machine r = Some w -> is_uint 64 w.
Proof.
  assert (match read_reg blank_machine r with Some w => (0 <=? w) && (w <? 2 ^ 64) | None => true end = true) as H
    by (destruct r; vm_compute; reflexivity).
  intros E. rewrite E in H. reflect_bools. done.
Qed.

Lemma blank_values a v : read_register a blank_machine = Done v -> is_uint 64 v.
Proof.
  unfold read_register.
  destruct (r ← machine_reg_of a; orelse (read_register_xf r blank_machine) (read_register_csr r blank_machine))
    as [w|] eqn:Hr; cbn [orelse].
  - intros [= <-]. destruct (machine_reg_of a) as [r|]; [|done].
    by apply (blank_reg_values r).
  - destruct (try_read_tlb blank_machine a) as [w|] eqn:Ht; cbn [orelse].
    + intros [= <-]. unfold try_read_tlb in Ht. destruct (tlb_field a) as [[[[h e] i] o]|]; [|done].
      cbn [mbind option_bind] in Ht. unfold read_tlb_entry_field, get_hot, get_cold in Ht.
      cbn [blank_machine s_tlb hot cold] in Ht. rewrite !nth_nth_replicate in Ht.
      repeat (case_if; try done); simplify_eq; split; vm_compute; congruence.
    + unfold try_read_pma. case_if; [done|]. cbn [blank_machine s_pmas].
      destruct (Z.to_nat _) as [|k]; cbn [lookup list_lookup]; [case_if|destruct k]; intros [= <-]; vm_compute; split; congruence.
Qed.

Lemma tiny_valid a7 : is_uint 64 a7 -> uarch_valid (tiny a7).
Proof.
  intros Ha. split.
  - split; [done|]. split.
    + apply Forall_insert; [|done]. apply Forall_replicate. unfold is_uint. lia.
    + unfold is_uint. repeat split; vm_compute; congruence.
  - constructor.
    + apply tiny_ram_ok.
    + repeat constructor; done.
    + by left.
    + apply blank_machine_wf.
    + apply blank_values.
Qed.

Section properties.
Context (uarch_pristine_ram : list Z) (Hpristine : Forall is_byte uarch_pristine_ram).
Notation usa := (uarch_state_access uarch_pristine_ram).
Notation uwm := (uarch_word_mem uarch_pristine_ram).

#[local] Instance pristine_word_mem : WordMem uarch_memory := uwm.
#[local] Instance pristine_laws : WordMemLaws uarch_memory memory_valid :=
  uarch_memory_laws uarch_pristine_ram Hpristine.

(** The result of a program on the class, and its counterpart *)
Lemma run_usa A (p : prog A) r :
  uarch_valid r ->
  run (rv_handler (H := uwm)) p (view r) = ((run usa p r).1, view (run usa p r).2) /\
  length (us_x (m_us (run usa p r).2)) = 32%nat.
Proof.
  intros Hr. apply (run_implements (H := uwm) usa view (fun r => length (us_x (m_us r)) = 32%nat)), uarch_valid_regs, Hr.
Qed.

(** C14: one step of the microarchitecture on the state of the machine is one step
    of the RV64I specification on what it sees of that state, exceptions
    included, and the state stays well-formed. *)
Theorem uarch_step_correct r :
  uarch_valid r ->
  rv_step (H := uwm) (view r) = ((run usa uarch_step r).1, view (run usa uarch_step r).2) /\
  uarch_valid (run usa uarch_step r).2.
Proof.
  intros Hr. pose proof Hr as [Hs Hm]. destruct (run_usa _ uarch_step r Hr) as [E _].
  rewrite (uarch_step_spec memory_valid) in E by done. split; [done|].
  destruct (rv_step_wf (H := uwm) memory_valid (view r) Hs Hm) as [Hs' Hm']. rewrite E in Hs', Hm'. done.
Qed.

(** C15: an instruction word is executed as the specification decodes it: the
    decoder accepts exactly the RV64I encodings, every instruction has the
    effect the specification gives it, and anything else is an illegal
    instruction that changes nothing. *)
Theorem executeInsn_correct insn r :
  is_uint 32 insn -> uarch_valid r ->
  ((run usa (executeInsn insn (us_pc (m_us r))) r).1, view (run usa (executeInsn insn (us_pc (m_us r))) r).2) =
  match decode insn with
  | Some i => commit (exec (H := uwm) i (view r)) (view r)
  | None => (Exn (runtime_error "illegal instruction"), view r)
  end.
Proof.
  intros Hi Hr. pose proof Hr as [Hs Hm].
  destruct (run_usa _ (executeInsn insn (us_pc (m_us r))) r Hr) as [<- _].
  by apply (executeInsn_spec (H := uwm) memory_valid insn (view r)).
Qed.

(** C16: running to a target stops in one of three ways, and always stops: at the
    target, at a halt, or at the exception of the step that raised it; a target
    in the past is refused.  What was executed up to there is what the
    specification executes in at most that many steps. *)
Theorem uarch_interpret_correct cycle_end r :
  is_uint 64 cycle_end -> uarch_valid r ->
  let '(res, r') := run usa (uarch_interpret cycle_end) r in
  let cycle := us_cycle (m_us r) in
  uarch_valid r' /\
  if cycle_end <? cycle then res = Exn (invalid_argument "uarch_cycle is past") /\ view r' = view r
  else
    rv_run (H := uwm) (Z.to_nat (cycle_end - cycle)) (view r) = (res, view r') /\
    match res with
    | Done reached_target_cycle => us_cycle (m_us r') = cycle_end
    | Done uarch_halted => us_halt_flag (m_us r') = true /\ us_cycle (m_us r') < cycle_end
    | Exn e => fetch_exec (H := uwm) (view r') = Exn e /\ us_cycle (m_us r') < cycle_end
    end.
Proof.
  intros He Hr. pose proof Hr as [Hs Hm]. destruct (run_usa _ (uarch_interpret cycle_end) r Hr) as [E _].
  rewrite (uarch_interpret_spec memory_valid) in E by done.
  destruct (run usa (uarch_interpret cycle_end) r) as [res r']. cbn [fst snd] in E. cbv zeta.
  pose proof Hs as (_ & _ & _ & _ & Hc). change (rv_cycle (view r)) with (us_cycle (m_us r)) in *.
  destruct (Z.ltb_spec cycle_end (us_cycle (m_us r))).
  - assert (view r' = view r) as Ev by congruence. split; [|split; [congruence|done]].
    unfold uarch_valid. change (memory_of r') with (rv_mem (view r')). by rewrite Ev.
  - set (n := Z.to_nat _) in *. destruct (rv_run_wf (H := uwm) memory_valid n (view r) Hs Hm) as [Hs' Hm'].
    rewrite E in Hs', Hm'. split; [done|]. split; [done|].
    apply rv_run_result in E; [|done|unfold is_uint, UINT64_MAX in *; cbn; lia].
    change (rv_cycle (view r)) with (us_cycle (m_us r)) in E.
    replace (us_cycle (m_us r) + Z.of_nat n) with cycle_end in E by lia. done.
Qed.

(** Stopping at a cycle on the way and resuming from there is the same as not
    stopping. *)
Theorem uarch_interpret_resume cycle_mid cycle_end r :
  is_uint 64 cycle_mid -> is_uint 64 cycle_end -> uarch_valid r ->
  us_cycle (m_us r) <= cycle_mid <= cycle_end ->
  let direct := run usa (uarch_interpret cycle_end) r in
  let mid := run usa (uarch_interpret cycle_mid) r in
  let stopped :=
    match mid with
    | (Done reached_target_cycle, r') => run usa (uarch_interpret cycle_end) r'
    | stopped => stopped
    end in
  direct.1 = stopped.1 /\ view direct.2 = view stopped.2.
Proof.
  intros Hmid Hend Hr Hle. cbv zeta. pose proof Hr as [Hs Hm].
  destruct (run_usa _ (uarch_interpret cycle_end) r Hr) as [E _].
  destruct (run_usa _ (uarch_interpret cycle_mid) r Hr) as [E' _].
  rewrite (uarch_interpret_spec memory_valid) in E, E' by done.
  change (rv_cycle (view r)) with (us_cycle (m_us r)) in *.
  rewrite (proj2 (Z.ltb_ge cycle_end _)) in E by lia. rewrite (proj2 (Z.ltb_ge cycle_mid _)) in E' by lia.
  set (n := Z.to_nat (cycle_mid - us_cycle (m_us r))) in *.
  set (m := Z.to_nat (cycle_end - cycle_mid)) in *.
  replace (Z.to_nat (cycle_end - us_cycle (m_us r))) with (n + m)%nat in E by lia.
  rewrite rv_run_add, E' in E.
  destruct (rv_run_wf (H := uwm) memory_valid n (view r) Hs Hm) as [Hs' Hm'].
  rewrite E' in Hs', Hm'. cbn [snd] in *.
  destruct (run usa (uarch_interpret cycle_mid) r) as [[[]|e] r'] eqn:Er; cbn [fst snd] in *.
  - assert (uarch_valid r') as Hr' by done.
    destruct (run_usa _ (uarch_interpret cycle_end) r' Hr') as [E2 _].
    rewrite (uarch_interpret_spec memory_valid) in E2 by done.
    apply rv_run_result in E'; [|apply Hs|unfold is_uint, UINT64_MAX in *; cbn; lia].
    change (rv_cycle (view r)) with (us_cycle (m_us r)) in E'.
    rewrite E' in E2. rewrite (proj2 (Z.ltb_ge _ _)) in E2 by lia.
    replace (Z.to_nat (cycle_end - (us_cycle (m_us r) + Z.of_nat n))) with m in E2 by lia.
    rewrite E2 in E. split; congruence.
  - split; congruence.
  - split; congruence.
Qed.

(** C17: resetting puts the registers in their initial state and the embedded
    image, followed by zeros, in the RAM, whatever the state was; the machine is
    not touched.  An image that does not fit is refused, after the registers
    were reset. *)
Theorem uarch_reset_correct r :
  uarch_valid r ->
  let '(res, r') := run usa uarch_reset_state r in
  us_pc (m_us r') = UARCH_PC_INIT /\ us_cycle (m_us r') = 0 /\ us_halt_flag (m_us r') = false /\
  us_x (m_us r') = replicate 32 0 /\ m_s r' = m_s r /\ uarch_valid r' /\
  if bool_decide (uarch_pristine_ram_len uarch_pristine_ram <= m_length (us_ram (m_us r)))
  then res = Done tt /\
    host (us_ram (m_us r')) = uarch_pristine_ram ++
      replicate (Z.to_nat (m_length (us_ram (m_us r)) - uarch_pristine_ram_len uarch_pristine_ram)) 0
  else res = Exn (runtime_error "embedded uarch ram image does not fit in uarch ram pma") /\
    us_ram (m_us r') = us_ram (m_us r).
Proof.
  intros [Hs Hm]. cbn [run uarch_reset_state resetState do_op uarch_state_access usa_op].
  pose proof (reset_ram_spec _ Hpristine _ (mv_ram _ Hm)) as Hreset.
  destruct Hs as (Hlen & Hx & H0 & Hpc & Hc). destruct Hm as [Hram Hpmas Hsen Hmach Hvals].
  destruct r as [[pc x cyc halt sh ram emp] s con]. cbn in Hlen, H0, Hreset, Hram, Hpmas, Hsen, Hmach, Hvals.
  explode x. change (z = 0) in H0. subst z. unfold do_reset_state. cbn -[reset_ram].
  assert (forall ram', memory_ok ram' ->
    uarch_valid (UarchRefs (UarchState UARCH_PC_INIT (replicate 32 0) 0 false sh ram' emp) s con)) as Hvalid.
  { intros ram' Hok. split.
    - split; [done|]. split; [repeat constructor; unfold is_uint; lia|].
      split; [done|]. unfold is_uint. repeat split; vm_compute; congruence.
    - by constructor. }
  case_bool_decide; [destruct Hreset as (ram' & -> & Hok & Hst & Hl & Hf & Hh)|rewrite Hreset];
    cbn -[uarch_valid]; rewrite ?bool_decide_eq_true_2, ?bool_decide_eq_false_2 by done;
    do 5 (split; [done|]); (split; [by apply Hvalid|done]).
Qed.
End properties.

(** ** The memory *)

(** The memory that the microarchitecture sees - its RAM, the memory ranges of
    the machine and the registers behind the bridge - holds what was stored last
    in every aligned word, and a store leaves every other aligned word alone. *)
Theorem uarch_memory_words m a v m' :
  memory_valid m -> is_uint 64 a -> a `mod` 8 = 0 -> is_uint 64 v ->
  do_write_word m a v = Done m' ->
  do_read_word m' a = Done v /\
  (forall b, is_uint 64 b -> b `mod` 8 = 0 -> b <> a -> do_read_word m' b = do_read_word m b).
Proof.
  intros Hm Ha Hal Hv Hw. split; [by eapply load_store|].
  intros b Hb Hbl Hne. by apply (load_store_ne m a b v).
Qed.

(** ** Witnesses *)

Lemma uarch_memory_words_witness :
  exists m', do_write_word (memory_of (tiny 1)) 0x600020 0x1122334455667788 = Done m' /\
    do_read_word m' 0x600020 = Done 0x1122334455667788 /\
    do_read_word m' (machine_reg_address reg_misa) = Done 0.
Proof.
  destruct (do_write_word (memory_of (tiny 1)) 0x600020 0x1122334455667788) as [m'|e] eqn:E;
    [|vm_compute in E; congruence].
  exists m'. split; [reflexivity|].
  destruct (uarch_memory_words (memory_of (tiny 1)) 0x600020 0x1122334455667788 m') as [Hr Hne];
    [apply (tiny_valid 1); unfold is_uint; lia|unfold is_uint; lia|reflexivity|unfold is_uint; lia|exact E|].
  split; [exact Hr|]. rewrite Hne; [vm_compute; reflexivity|vm_compute; split; congruence|reflexivity|vm_compute; congruence].
Defined.

(** The image of the witnesses: [ebreak] *)
Definition tiny_image : list Z := le_bytes 4 0x00100073.

Lemma tiny_image_bytes : Forall is_byte tiny_image.
Proof. apply le_bytes_bytes. Qed.

Lemma uarch_step_correct_witness :
  let r' := (run (uarch_state_access tiny_image) uarch_step (tiny 1)).2 in
  uarch_valid r' /\ nth 1 (us_x (m_us r')) 0 = 5 /\ us_pc (m_us r') = 0x600004.
Proof.
  intros r'. split; [|vm_compute; split; reflexivity].
  apply (uarch_step_correct tiny_image tiny_image_bytes (tiny 1)). apply tiny_valid. unfold is_uint. lia.
Defined.

Lemma executeInsn_correct_witness :
  (run (uarch_state_access tiny_image) (executeInsn 0 (us_pc (m_us (tiny 1)))) (tiny 1)).1 =
  Exn (runtime_error "illegal instruction").
Proof.
  pose proof (executeInsn_correct tiny_image tiny_image_bytes 0 (tiny 1)) as H.
  change (decode 0) with (@None instr) in H. cbv iota in H.
  apply (f_equal fst) in H; [exact H|unfold is_uint; lia|apply tiny_valid; unfold is_uint; lia].
Defined.

Lemma uarch_interpret_correct_witness :
  exists r', run (uarch_state_access tiny_image) (uarch_interpret 10) (tiny 1) = (Done uarch_halted, r') /\
    us_halt_flag (m_us r') = true /\ us_cycle (m_us r') < 10.
Proof.
  pose proof (uarch_interpret_correct tiny_image tiny_image_bytes 10 (tiny 1)) as H.
  destruct (run (uarch_state_access tiny_image) (uarch_interpret 10) (tiny 1)) as [res r'] eqn:E.
  assert (res = Done uarch_halted) as -> by (apply (f_equal fst) in E; vm_compute in E; congruence).
  exists r'. split; [reflexivity|]. apply H; [unfold is_uint; lia|]. apply tiny_valid. unfold is_uint. lia.
Defined.

Lemma uarch_interpret_resume_witness :
  let r1 := (run (uarch_state_access tiny_image) (uarch_interpret 1) (tiny 1)).2 in
  (run (uarch_state_access tiny_image) (uarch_interpret 10) (tiny 1)).1 =
  (run (uarch_state_access tiny_image) (uarch_interpret 10) r1).1.
Proof.
  destruct (uarch_interpret_resume tiny_image tiny_image_bytes 1 10 (tiny 1)) as [H _];
    [unfold is_uint; lia|unfold is_uint; lia|apply tiny_valid; unfold is_uint; lia|vm_compute; split; congruence|].
  intros r1. rewrite H. subst r1.
  destruct (run (uarch_state_access tiny_image) (uarch_interpret 1) (tiny 1)) as [res r'] eqn:E.
  assert (res = Done reached_target_cycle) as -> by (apply (f_equal fst) in E; vm_compute in E; congruence).
  reflexivity.
Defined.

Lemma uarch_reset_correct_witness :
  let r' := (run (uarch_state_access tiny_image) uarch_reset_state (tiny 1)).2 in
  us_x (m_us r') = replicate 32 0 /\ host (us_ram (m_us r')) = tiny_image ++ replicate 60 0.
Proof.
  pose proof (uarch_reset_correct tiny_image tiny_image_bytes (tiny 1)) as H.
  destruct (run (uarch_state_access tiny_image) uarch_reset_state (tiny 1)) as [res r'].
  destruct H as (_ & _ & _ & Hx & _ & _ & H); [apply tiny_valid; unfold is_uint; lia|].
  rewrite bool_decide_eq_true_2 in H by (vm_compute; congruence). destruct H as [_ Hh].
  split; [exact Hx|exact Hh].
Defined.
