(* ===== verification/Hasher.v ===== *)
(** * Hashers and the reference Merkle tree (i-hasher.h, pristine-merkle-tree.cpp)

    The hash function is a parameter: Keccak-256 is computed by a third-party
    library.  A tree is specified by the function that gives the hash of each of
    its leaves; the trees of the code are proved against [node], which computes
    the hash of any node from the leaves below it. *)

From S2P Require Import Prelude CppInt.

(** ** The interface of hashers

    [begin], then [add_data] for each piece, then [end] computes [digest] of the
    concatenation; [bytes] is the contents of the array that holds a hash. *)

Class i_hasher := {
  hash_type : Type;
  hash_type_eq_dec :: EqDecision hash_type;
  bytes : hash_type -> list Z;
  digest : list Z -> hash_type;
}.

Section hasher.
Context `{i_hasher}.

Definition get_concat_hash (left right : hash_type) : hash_type := digest (bytes left ++ bytes right).

Definition bad_data_length : exn :=
  invalid_argument "data_length must be a power of 2 multiple of word_length".

(** The recursion halves the length: [fuel] bounds its depth. *)
Fixpoint get_merkle_tree_hash (fuel : nat) (data : list Z) (data_length word_length : Z) : outcome hash_type :=
  match fuel with
  | O => Exn (undefined_behaviour "out of fuel")
  | S fuel =>
      if word_length <? data_length then
        throw_if (negb ((data_length &ᵇ 1) =? 0)) bad_data_length ≫= fun _ =>
        let data_length := data_length `div` 2 in
        left ← get_merkle_tree_hash fuel data data_length word_length;
        result ← get_merkle_tree_hash fuel (drop (Z.to_nat data_length) data) data_length word_length;
        mret (digest (bytes left ++ bytes result))
      else
        throw_if (negb (data_length =? word_length)) bad_data_length ≫= fun _ =>
        mret (digest (take (Z.to_nat data_length) data))
  end.

(** ** Reference tree *)

(** The hash of node [i] of level [k]: level 0 are the leaves, and node [i] of
    level [k] covers the leaves from [i * 2^k] to [(i + 1) * 2^k - 1]. *)
Fixpoint node (leaf : Z -> hash_type) (k : nat) (i : Z) : hash_type :=
  match k with
  | O => leaf i
  | S k => get_concat_hash (node leaf k (2 * i)) (node leaf k (2 * i + 1))
  end.

(** The hash of a tree of [2^k] equal leaves *)
Fixpoint pristine (p : hash_type) (k : nat) : hash_type :=
  match k with
  | O => p
  | S k => let h := pristine p k in get_concat_hash h h
  end.

(** A tree with the leaves of a list, padded with [p] *)
Definition padded (p : hash_type) (l : list hash_type) (i : Z) : hash_type :=
  if i <? 0 then p else nth (Z.to_nat i) l p.

Lemma node_ext f g k i :
  (forall j, i * 2 ^ Z.of_nat k <= j < (i + 1) * 2 ^ Z.of_nat k -> f j = g j) ->
  node f k i = node g k i.
Proof.
  revert i. induction k as [|k IH]; intros i Hfg; cbn [node].
  - apply Hfg. lia.
  - rewrite Nat2Z.inj_succ, Z.pow_succ_r in Hfg by lia.
    pose proof (pow2_pos (Z.of_nat k)). f_equal; apply IH; intros j Hj; apply Hfg; nia.
Qed.

Lemma node_pristine f p k i :
  (forall j, i * 2 ^ Z.of_nat k <= j < (i + 1) * 2 ^ Z.of_nat k -> f j = p) ->
  node f k i = pristine p k.
Proof.
  revert i. induction k as [|k IH]; intros i Hf; cbn [node pristine].
  - apply Hf. lia.
  - rewrite Nat2Z.inj_succ, Z.pow_succ_r in Hf by lia.
    pose proof (pow2_pos (Z.of_nat k)). f_equal; apply IH; intros j Hj; apply Hf; nia.
Qed.

(** The nodes of level [k] as leaves *)
Lemma node_add f k n i : node (node f k) n i = node f (k + n) i.
Proof.
  revert i. induction n as [|n IH]; intros i; [by rewrite Nat.add_0_r|].
  rewrite Nat.add_succ_r. cbn [node]. by rewrite !IH.
Qed.

Lemma pristine_add p k n : pristine (pristine p k) n = pristine p (k + n).
Proof.
  induction n as [|n IH]; [by rewrite Nat.add_0_r|]. rewrite Nat.add_succ_r. cbn. by rewrite IH.
Qed.

(** Shifting the leaves by a whole number of subtrees *)
Lemma node_shift f k d i : node (fun j => f (j + d * 2 ^ Z.of_nat k)) k i = node f k (i + d).
Proof.
  revert d i. induction k as [|k IH]; intros d i; [cbn; f_equal; lia|].
  rewrite Nat2Z.inj_succ, Z.pow_succ_r by lia. cbn [node].
  replace (2 * (i + d)) with (2 * i + 2 * d) by lia.
  replace (2 * i + 2 * d + 1) with (2 * i + 1 + 2 * d) by lia.
  rewrite <- !IH. by f_equal; apply node_ext; intros; f_equal; lia.
Qed.

(** Replacing the hash of one leaf *)
Definition update (f : Z -> hash_type) (i : Z) (h : hash_type) (j : Z) : hash_type :=
  if j =? i then h else f j.

Lemma node_update_other f k i j h :
  j `div` 2 ^ Z.of_nat k <> i -> node (update f j h) k i = node f k i.
Proof.
  intros Hj. apply node_ext. intros l Hl. unfold update. destruct (Z.eqb_spec l j) as [->|]; [|done].
  exfalso. apply Hj. pose proof (pow2_pos (Z.of_nat k)). symmetry.
  apply (Z.div_unique_pos j _ i (j - i * 2 ^ Z.of_nat k)); nia.
Qed.

Lemma padded_snoc p l h i : padded p (l ++ [h]) i = update (padded p l) (Z.of_nat (length l)) h i.
Proof.
  unfold padded, update. destruct (Z.ltb_spec i 0); [by rewrite (proj2 (Z.eqb_neq _ _)) by lia|].
  destruct (Z.eqb_spec i (Z.of_nat (length l))) as [->|].
  - rewrite Nat2Z.id, app_nth2, Nat.sub_diag by lia. done.
  - destruct (decide (Z.to_nat i < length l)%nat).
    + by rewrite app_nth1 by lia.
    + rewrite !nth_overflow; [done|lia|rewrite length_app; cbn; lia].
Qed.

Lemma padded_replicate p l n i : padded p (l ++ replicate n p) i = padded p l i.
Proof.
  unfold padded. destruct (i <? 0); [done|].
  destruct (decide (Z.to_nat i < length l)%nat); [by rewrite app_nth1 by lia|].
  rewrite app_nth2, (nth_overflow l) by lia. apply nth_replicate_same.
Qed.

Lemma padded_beyond p l i : Z.of_nat (length l) <= i -> padded p l i = p.
Proof. intros. unfold padded. destruct (Z.ltb_spec i 0); [done|]. apply nth_overflow. lia. Qed.

(** A node past the leaves that were set is the root of a pristine tree. *)
Lemma node_beyond p l k i :
  Z.of_nat (length l) <= i * 2 ^ Z.of_nat k -> node (padded p l) k i = pristine p k.
Proof. intros. apply node_pristine. intros. apply padded_beyond. lia. Qed.
(** ** The hash of a buffer *)

(** The hash of word [i] of a buffer *)
Definition word_hash (data : list Z) (word_length i : Z) : hash_type :=
  digest (take (Z.to_nat word_length) (drop (Z.to_nat (i * word_length)) data)).

Lemma word_hash_drop data word d i :
  0 <= word -> 0 <= d -> 0 <= i ->
  word_hash (drop (Z.to_nat (d * word)) data) word i = word_hash data word (i + d).
Proof. intros. unfold word_hash. rewrite drop_drop. do 3 f_equal. nia. Qed.

(** One level of the recursion *)
Lemma get_merkle_tree_hash_S n data len word :
  get_merkle_tree_hash (S n) data len word =
  if word <? len then
    throw_if (negb (len `mod` 2 =? 0)) bad_data_length ≫= fun _ =>
    left ← get_merkle_tree_hash n data (len `div` 2) word;
    right ← get_merkle_tree_hash n (drop (Z.to_nat (len `div` 2)) data) (len `div` 2) word;
    mret (get_concat_hash left right)
  else
    throw_if (negb (len =? word)) bad_data_length ≫= fun _ => mret (digest (take (Z.to_nat len) data)).
Proof.
  cbn [get_merkle_tree_hash]. replace (len &ᵇ 1) with (len `mod` 2); [done|]. symmetry. by apply (Z.land_ones len 1).
Qed.

Lemma get_merkle_tree_hash_node n data word k :
  0 < word -> (k <= n)%nat ->
  get_merkle_tree_hash (S n) data (word * 2 ^ Z.of_nat k) word = Done (node (word_hash data word) k 0).
Proof.
  intros Hw. revert data k. induction n as [|n IH]; intros data k Hk.
  - replace k with 0%nat by lia. rewrite get_merkle_tree_hash_S, Z.mul_1_r, Z.ltb_irrefl, Z.eqb_refl. done.
  - rewrite get_merkle_tree_hash_S. destruct k as [|k]; [by rewrite Z.mul_1_r, Z.ltb_irrefl, Z.eqb_refl|].
    rewrite Nat2Z.inj_succ, Z.pow_succ_r by lia. pose proof (pow2_pos (Z.of_nat k) ltac:(lia)).
    rewrite (proj2 (Z.ltb_lt _ _)) by nia.
    replace (word * (2 * 2 ^ Z.of_nat k)) with (word * 2 ^ Z.of_nat k * 2) by lia.
    rewrite Z.mod_mul, Z.div_mul by lia. cbn [Z.eqb negb throw_if mbind outcome_bind].
    rewrite !IH by lia. cbn. do 2 f_equal.
    rewrite (Z.mul_comm word), (node_ext _ (fun j => word_hash data word (j + 1 * 2 ^ Z.of_nat k))).
    + by rewrite node_shift.
    + intros j Hj. rewrite word_hash_drop by lia. f_equal. lia.
Qed.

Lemma get_merkle_tree_hash_error n data len word :
  0 <= word -> 0 <= len < 2 ^ Z.of_nat n -> (forall k, len <> word * 2 ^ Z.of_nat k) ->
  get_merkle_tree_hash (S n) data len word = Exn bad_data_length.
Proof.
  intros Hw. revert data len. induction n as [|n IH]; intros data len Hlen Hk.
  - cbn in Hlen. assert (len = 0) as -> by lia. specialize (Hk 0%nat). rewrite get_merkle_tree_hash_S.
    test (word <? 0) is false.
    rewrite (proj2 (Z.eqb_neq _ _)) by lia. done.
  - rewrite get_merkle_tree_hash_S. destruct (Z.ltb_spec word len).
    + rewrite Nat2Z.inj_succ, Z.pow_succ_r in Hlen by lia.
      destruct (Z.eqb_spec (len `mod` 2) 0) as [Heven|]; [|done]. cbn [negb throw_if mbind outcome_bind].
      rewrite (IH data); [done|Z.div_mod_to_equations; lia|].
      intros k Heq. apply (Hk (S k)). rewrite Nat2Z.inj_succ, Z.pow_succ_r by lia.
      pose proof (Z.div_mod len 2 ltac:(lia)). nia.
    + specialize (Hk 0%nat). rewrite (proj2 (Z.eqb_neq _ _)) by lia. done.
Qed.

(** C40: with fuel for the bits of a length, the hash of a buffer is the root of
    the tree over the hashes of its words when the length is the word length times
    a power of two, and an error for every other length. *)
Theorem get_merkle_tree_hash_correct fuel data len word :
  (64 < fuel)%nat -> is_uint 64 len -> 0 < word ->
  (forall k, len = word * 2 ^ Z.of_nat k ->
     get_merkle_tree_hash fuel data len word = Done (node (word_hash data word) k 0)) /\
  ((forall k, len <> word * 2 ^ Z.of_nat k) ->
     get_merkle_tree_hash fuel data len word = Exn bad_data_length).
Proof.
  intros Hfuel Hlen Hw. destruct fuel as [|n]; [lia|]. unfold is_uint in Hlen. split.
  - intros k ->. apply get_merkle_tree_hash_node; [done|].
    assert (Z.of_nat k < 64); [|lia]. apply (Z.pow_lt_mono_r_iff 2); [lia|lia|]. pose proof (pow2_pos (Z.of_nat k) ltac:(lia)). nia.
  - intros Hk. apply get_merkle_tree_hash_error; [lia| |done].
    pose proof (Z.pow_le_mono_r 2 64 (Z.of_nat n) ltac:(lia) ltac:(lia)). lia.
Qed.

End hasher.

(** ** A hasher for examples: the digest is the data *)

Definition free_hasher : i_hasher := {|
  hash_type := list Z;
  bytes := fun l => Z.of_nat (length l) :: l;
  digest := fun l => l;
|}.

Lemma get_merkle_tree_hash_correct_witness :
  get_merkle_tree_hash (H := free_hasher) 65 [1; 2; 3; 4; 5; 6; 7; 8] 8 2 =
    Done (node (H := free_hasher) (word_hash (H := free_hasher) [1; 2; 3; 4; 5; 6; 7; 8] 2) 2 0) /\
  get_merkle_tree_hash (H := free_hasher) 65 [1; 2; 3; 4; 5; 6] 6 2 = Exn bad_data_length.
Proof.
  split.
  - apply (get_merkle_tree_hash_correct (H := free_hasher)); [lia|vm_compute; split; congruence|lia|reflexivity].
  - apply (get_merkle_tree_hash_correct (H := free_hasher)); [lia|vm_compute; split; congruence|lia|].
    intros k Hk. destruct k as [|[|k]]; [cbn in Hk; lia|cbn in Hk; lia|].
    rewrite !Nat2Z.inj_succ, !Z.pow_succ_r in Hk by lia. pose proof (pow2_pos (Z.of_nat k) ltac:(lia)). lia.
Defined.
