(* ===== verification/MerkleProof.v ===== *)
(** * Merkle proofs (merkle-tree-proof.h)

    A proof that the node of a given size at a given address of a tree has a
    certain hash: the hashes of the siblings on the path from the node to the
    root. *)

From S2P Require Import Prelude CppInt Hasher.

Section proofs.
Context `{i_hasher}.

(** ** The structure *)

Record merkle_tree_proof := MerkleTreeProof {
  m_target_address : Z;
  m_log2_target_size : Z;
  m_target_hash : hash_type;
  m_log2_root_size : Z;
  m_root_hash : hash_type;
  m_sibling_hashes : list hash_type;
}.

(** The constructor; the hashes of a new proof are [zero], the value of
    [hash_type{}]. *)
Definition make_proof (zero : hash_type) (log2_root_size log2_target_size : Z) : outcome merkle_tree_proof :=
  throw_if (log2_root_size <=? 0) (out_of_range "log2_root_size is not positive") ≫= fun _ =>
  throw_if (log2_target_size <? 0) (out_of_range "log2_target_size is negative") ≫= fun _ =>
  throw_if (log2_root_size <? log2_target_size)
    (out_of_range "log2_target_size is greater than log2_root_size") ≫= fun _ =>
  mret (MerkleTreeProof 0 log2_target_size zero log2_root_size zero
    (replicate (Z.to_nat (Z.max 0 (log2_root_size - log2_target_size))) zero)).

Definition set_target_address (a : Z) (p : merkle_tree_proof) : merkle_tree_proof :=
  MerkleTreeProof a (m_log2_target_size p) (m_target_hash p) (m_log2_root_size p) (m_root_hash p) (m_sibling_hashes p).
Definition set_target_hash (h : hash_type) (p : merkle_tree_proof) : merkle_tree_proof :=
  MerkleTreeProof (m_target_address p) (m_log2_target_size p) h (m_log2_root_size p) (m_root_hash p) (m_sibling_hashes p).
Definition set_root_hash (h : hash_type) (p : merkle_tree_proof) : merkle_tree_proof :=
  MerkleTreeProof (m_target_address p) (m_log2_target_size p) (m_target_hash p) (m_log2_root_size p) h (m_sibling_hashes p).

Definition log2_size_to_index (p : merkle_tree_proof) (log2_size : Z) : outcome nat :=
  let index := log2_size - m_log2_target_size p in
  if (index <? 0) || (Z.of_nat (length (m_sibling_hashes p)) <=? index)
  then Exn (out_of_range "log2_size is out of range") else Done (Z.to_nat index).

Definition get_sibling_hash (p : merkle_tree_proof) (log2_size : Z) : outcome hash_type :=
  i ← log2_size_to_index p log2_size; mret (nth i (m_sibling_hashes p) (m_target_hash p)).

Definition set_sibling_hash (h : hash_type) (log2_size : Z) (p : merkle_tree_proof) : outcome merkle_tree_proof :=
  i ← log2_size_to_index p log2_size;
  mret (MerkleTreeProof (m_target_address p) (m_log2_target_size p) (m_target_hash p) (m_log2_root_size p)
          (m_root_hash p) (<[i := h]> (m_sibling_hashes p))).

(** [operator==] *)
Definition proof_eqb (p q : merkle_tree_proof) : bool :=
  if negb (m_log2_target_size p =? m_log2_target_size q) then false
  else if negb (m_log2_root_size p =? m_log2_root_size q) then false
  else if negb (m_target_address p =? m_target_address q) then false
  else if negb (bool_decide (m_root_hash p = m_root_hash q)) then false
  else if negb (bool_decide (m_target_hash p = m_target_hash q)) then false
  else if negb (bool_decide (m_sibling_hashes p = m_sibling_hashes q)) then false
  else true.

(** ** Verification *)

(** [bit]: whether the node of this size is a right child *)
Definition address_bit (p : merkle_tree_proof) (log2_size : Z) : bool :=
  negb ((m_target_address p &ᵇ uint64 (Z.shiftl 1 log2_size)) =? 0).

Definition concat_sibling (p : merkle_tree_proof) (log2_size : Z) (hash : hash_type) : outcome hash_type :=
  sibling ← get_sibling_hash p log2_size;
  mret (if address_bit p log2_size then get_concat_hash sibling hash else get_concat_hash hash sibling).

(** The loop from [log2_size], of [n] iterations *)
Fixpoint bubble (n : nat) (p : merkle_tree_proof) (log2_size : Z) (hash : hash_type) : outcome hash_type :=
  match n with
  | O => Done hash
  | S n => hash ← concat_sibling p log2_size hash; bubble n p (log2_size + 1) hash
  end.

Definition bubble_up (p : merkle_tree_proof) (new_target_hash : hash_type) : outcome hash_type :=
  bubble (Z.to_nat (m_log2_root_size p - m_log2_target_size p)) p (m_log2_target_size p) new_target_hash.

Definition verify (p : merkle_tree_proof) : outcome bool :=
  hash ← bubble_up p (m_target_hash p); mret (bool_decide (hash = m_root_hash p)).

(** ** Slicing *)

(** The second loop of [slice] *)
Fixpoint slice_siblings (n : nat) (p : merkle_tree_proof) (log2_size : Z) (hash : hash_type)
    (sliced : merkle_tree_proof) : outcome (hash_type * merkle_tree_proof) :=
  match n with
  | O => Done (hash, sliced)
  | S n =>
      sibling_hash ← get_sibling_hash p log2_size;
      hash ← concat_sibling p log2_size hash;
      sliced ← set_sibling_hash sibling_hash log2_size sliced;
      slice_siblings n p (log2_size + 1) hash sliced
  end.

Definition slice (zero : hash_type) (p : merkle_tree_proof) (new_log2_root_size new_log2_target_size : Z) :
    outcome merkle_tree_proof :=
  throw_if (new_log2_root_size <=? 0) (out_of_range "log2_root_size is not positive") ≫= fun _ =>
  throw_if (new_log2_target_size <? 0) (out_of_range "log2_target_size is negative") ≫= fun _ =>
  throw_if (new_log2_root_size <? new_log2_target_size)
    (out_of_range "log2_target_size is greater than log2_root_size") ≫= fun _ =>
  throw_if (m_log2_root_size p <? new_log2_root_size) (out_of_range "log2_root_size is too large") ≫= fun _ =>
  throw_if (new_log2_target_size <? m_log2_target_size p)
    (out_of_range "log2_target_size is too small") ≫= fun _ =>
  sliced ← make_proof zero new_log2_root_size new_log2_target_size;
  hash ← bubble (Z.to_nat (new_log2_target_size - m_log2_target_size p)) p (m_log2_target_size p) (m_target_hash p);
  let sliced := set_target_hash hash sliced in
  '(hash, sliced) ← slice_siblings (Z.to_nat (new_log2_root_size - new_log2_target_size)) p
    new_log2_target_size hash sliced;
  let sliced := set_root_hash hash sliced in
  let sliced := set_target_address
    (uint64 (Z.shiftl (Z.shiftr (m_target_address p) new_log2_target_size) new_log2_target_size)) sliced in
  ok ← verify sliced;
  throw_if (negb ok) (logic_error "produced invalid sliced proof") ≫= fun _ =>
  mret sliced.
End proofs.
Arguments merkle_tree_proof {_}.

Section spec.
Context `{i_hasher}.
Implicit Types p : merkle_tree_proof.

(** ** Well-formed proofs *)

Record proof_wf p : Prop := {
  pw_target : 0 <= m_log2_target_size p;
  pw_sizes : m_log2_target_size p <= m_log2_root_size p;
  pw_root : m_log2_root_size p <= 64;
  pw_siblings : Z.of_nat (length (m_sibling_hashes p)) = m_log2_root_size p - m_log2_target_size p;
}.

Definition sibling p (k : Z) : hash_type := nth (Z.to_nat (k - m_log2_target_size p)) (m_sibling_hashes p) (m_target_hash p).

Lemma get_sibling_hash_spec p k :
  proof_wf p -> m_log2_target_size p <= k < m_log2_root_size p -> get_sibling_hash p k = Done (sibling p k).
Proof.
  intros [H1 H2 H3 H4] Hk. unfold get_sibling_hash, log2_size_to_index.
  replace ((_ <? 0) || _) with false; [done|]. symmetry. apply orb_false_iff.
  rewrite Z.ltb_ge, Z.leb_gt. lia.
Qed.

Lemma address_bit_spec p k : 0 <= k < 64 -> address_bit p k = Z.testbit (m_target_address p) k.
Proof.
  intros Hk. unfold address_bit. rewrite Z.shiftl_1_l, uint_id.
  - rewrite land_pow2 by lia. apply negb_involutive.
  - unfold is_uint. split; [apply Z.pow_nonneg; lia|apply Z.pow_lt_mono_r; lia].
Qed.

(** The step of the verification: the parent of a node and its sibling *)
Definition parent p (k : Z) (hash : hash_type) : hash_type :=
  if Z.testbit (m_target_address p) k then get_concat_hash (sibling p k) hash
  else get_concat_hash hash (sibling p k).

Fixpoint parents (n : nat) p (k : Z) (hash : hash_type) : hash_type :=
  match n with O => hash | S n => parents n p (k + 1) (parent p k hash) end.

Lemma concat_sibling_spec p k hash :
  proof_wf p -> m_log2_target_size p <= k < m_log2_root_size p ->
  concat_sibling p k hash = Done (parent p k hash).
Proof.
  intros Hp Hk. unfold concat_sibling. rewrite get_sibling_hash_spec by done. cbn.
  destruct Hp. by rewrite address_bit_spec by lia.
Qed.

Lemma bubble_spec n p k hash :
  proof_wf p -> m_log2_target_size p <= k -> k + Z.of_nat n <= m_log2_root_size p ->
  bubble n p k hash = Done (parents n p k hash).
Proof.
  intros Hp. revert k hash. induction n as [|n IH]; intros k hash Hk Hn; cbn; [done|].
  rewrite concat_sibling_spec by (done || lia). cbn. apply IH; lia.
Qed.

(** ** Proofs of a tree *)

(** [p] proves its target in the tree of leaves [f] of size [2^base]. *)
Record proof_for (f : Z -> hash_type) (base : Z) p : Prop := {
  pf_wf : proof_wf p;
  pf_base : 0 <= base <= m_log2_target_size p;
  pf_address : 0 <= m_target_address p < 2 ^ m_log2_root_size p;
  pf_target : m_target_hash p =
    node f (Z.to_nat (m_log2_target_size p - base)) (m_target_address p `div` 2 ^ m_log2_target_size p);
  pf_root : m_root_hash p = node f (Z.to_nat (m_log2_root_size p - base)) 0;
  pf_sibling k : m_log2_target_size p <= k < m_log2_root_size p ->
    sibling p k = node f (Z.to_nat (k - base)) (Z.lxor (m_target_address p `div` 2 ^ k) 1);
}.

Lemma lxor_1 i : Z.lxor i 1 = if Z.odd i then i - 1 else i + 1.
Proof.
  pose proof (Z.div_mod i 2 ltac:(lia)) as Hi. rewrite Zmod_odd in Hi.
  apply Z.bits_inj'. intros n Hn. rewrite Z.lxor_spec.
  destruct (Z.eqb_spec n 0) as [->|Hne].
  - rewrite !Z.bit0_odd. change (Z.odd 1) with true. destruct (Z.odd i) eqn:E.
    + rewrite Z.odd_sub, E. done.
    + rewrite Z.odd_add, E. done.
  - assert (Z.testbit 1 n = false) as -> by (apply (testbit_above 1 1); lia).
    rewrite xorb_false_r.
    assert (forall a, Z.testbit a n = Z.testbit (a `div` 2) (n - 1)) as Hhalf.
    { intros a. change 2 with (2 ^ 1). rewrite Z.div_pow2_bits by lia. f_equal. lia. }
    rewrite (Hhalf i), Hhalf. f_equal. destruct (Z.odd i); Z.div_mod_to_equations; lia.
Qed.

Lemma testbit_div a k : 0 <= k -> Z.testbit a k = Z.odd (a `div` 2 ^ k).
Proof. intros. by rewrite <- Z.bit0_odd, Z.div_pow2_bits by lia. Qed.

Lemma div_pow2_succ a k : 0 <= k -> a `div` 2 ^ (k + 1) = (a `div` 2 ^ k) `div` 2.
Proof. intros. rewrite Z.div_div by lia. f_equal. rewrite Z.pow_add_r by lia. lia. Qed.

(** A node and its sibling make their parent, whatever is put at the node. *)
Lemma node_parent g k i :
  node g (S k) (i `div` 2) =
  if Z.odd i then get_concat_hash (node g k (Z.lxor i 1)) (node g k i)
  else get_concat_hash (node g k i) (node g k (Z.lxor i 1)).
Proof.
  rewrite lxor_1. cbn [node].
  pose proof (Z.div_mod i 2 ltac:(lia)) as Hi. rewrite Zmod_odd in Hi.
  destruct (Z.odd i); f_equal; f_equal; lia.
Qed.

(** Bubbling a hash up a proof of [f] gives the nodes of the tree in which the
    target has that hash. *)
Lemma parents_spec f base p h n :
  proof_for f base p -> let t := m_log2_target_size p in
  let g := update (node f (Z.to_nat (t - base))) (m_target_address p `div` 2 ^ t) h in
  t + Z.of_nat n <= m_log2_root_size p ->
  parents n p t h = node g n (m_target_address p `div` 2 ^ (t + Z.of_nat n)).
Proof.
  intros Hp t g.
  assert (forall n m, t + Z.of_nat m + Z.of_nat n <= m_log2_root_size p ->
    parents n p (t + Z.of_nat m) (node g m (m_target_address p `div` 2 ^ (t + Z.of_nat m))) =
    node g (m + n) (m_target_address p `div` 2 ^ (t + Z.of_nat m + Z.of_nat n))) as Hgen.
  2:{ intros Hn. specialize (Hgen n 0%nat). cbn [Nat.add] in Hgen. rewrite Z.add_0_r in Hgen.
      rewrite <- Hgen by done. f_equal. cbn [node]. subst g. unfold update. by rewrite Z.eqb_refl. }
  clear n. destruct Hp as [[Ht Hle H64 Hlen] Hb Ha _ _ Hsib]. fold t in Ht, Hle, Hlen, Hb, Hsib.
  induction n as [|n IH]; intros m Hm; cbn [parents]; [by rewrite Nat.add_0_r, Z.add_0_r|].
  assert (parent p (t + Z.of_nat m) (node g m (m_target_address p `div` 2 ^ (t + Z.of_nat m))) =
          node g (S m) (m_target_address p `div` 2 ^ (t + Z.of_nat (S m)))) as ->.
  { replace (t + Z.of_nat (S m)) with (t + Z.of_nat m + 1) by lia.
    rewrite div_pow2_succ, node_parent by lia. unfold parent.
    rewrite testbit_div, Hsib by lia.
    set (i := m_target_address p `div` 2 ^ (t + Z.of_nat m)).
    replace (node f (Z.to_nat (t + Z.of_nat m - base)) (Z.lxor i 1)) with (node g m (Z.lxor i 1)); [done|].
    subst g. rewrite node_update_other.
    - rewrite node_add. f_equal. lia.
    - pose proof (pow2_pos t). pose proof (pow2_pos (Z.of_nat m)). rewrite Z.div_div by lia.
      rewrite <- Z.pow_add_r by lia. fold i. rewrite lxor_1. destruct (Z.odd i); lia. }
  replace (t + Z.of_nat m + 1) with (t + Z.of_nat (S m)) by lia. rewrite IH by lia.
  f_equal; [lia|]. f_equal. f_equal. lia.
Qed.

Lemma parents_add n m p k h :
  parents (n + m) p k h = parents m p (k + Z.of_nat n) (parents n p k h).
Proof.
  revert k h. induction n as [|n IH]; intros k h; cbn [Nat.add parents]; [by rewrite Z.add_0_r|].
  rewrite IH. f_equal. lia.
Qed.

Lemma parents_ext n p q k h :
  (forall j, k <= j < k + Z.of_nat n -> sibling p j = sibling q j /\
     Z.testbit (m_target_address p) j = Z.testbit (m_target_address q) j) ->
  parents n p k h = parents n q k h.
Proof.
  revert k h. induction n as [|n IH]; intros k h Heq; cbn [parents]; [done|].
  assert (parent p k h = parent q k h) as ->
    by (unfold parent; by destruct (Heq k ltac:(lia)) as [-> ->]).
  apply IH. intros j Hj. apply Heq. lia.
Qed.

(** The number of levels between the target and the root *)
Definition height p : nat := Z.to_nat (m_log2_root_size p - m_log2_target_size p).

Lemma bubble_up_parents p h :
  proof_wf p -> bubble_up p h = Done (parents (height p) p (m_log2_target_size p) h).
Proof. intros Hp. apply bubble_spec; [done|lia|]. destruct Hp. unfold height. lia. Qed.

Lemma bubble_up_spec f base p h :
  proof_for f base p -> let t := m_log2_target_size p in
  bubble_up p h =
    Done (node (update (node f (Z.to_nat (t - base))) (m_target_address p `div` 2 ^ t) h) (height p) 0).
Proof.
  intros Hp t. rewrite bubble_up_parents by apply Hp. f_equal.
  pose proof Hp as [[Ht Hle H64 Hlen] Hb Ha _ _ _].
  unfold t. rewrite (parents_spec f base) by (done || unfold height; lia). f_equal.
  apply Z.div_small. unfold height. replace (_ + _) with (m_log2_root_size p) by lia. done.
Qed.

Lemma verify_spec f base p : proof_for f base p -> verify p = Done true.
Proof.
  intros Hp. unfold verify. rewrite (bubble_up_spec f base) by done. cbn. f_equal.
  apply bool_decide_eq_true. pose proof Hp as [[Ht Hle H64 Hlen] Hb Ha Htg Hr _]. rewrite Hr, Htg.
  rewrite (node_ext _ (node f (Z.to_nat (m_log2_target_size p - base)))).
  - rewrite node_add. f_equal. unfold height. lia.
  - intros j _. unfold update. by destruct (Z.eqb_spec j (m_target_address p `div` 2 ^ m_log2_target_size p)) as [->|].
Qed.

(** The proof that the tree of leaves [f] has for the node of size [2^t] at
    address [a] *)
Definition tree_proof (f : Z -> hash_type) (base r t a : Z) : merkle_tree_proof :=
  MerkleTreeProof a t (node f (Z.to_nat (t - base)) (a `div` 2 ^ t)) r (node f (Z.to_nat (r - base)) 0)
    (map (fun k => node f (Z.to_nat (k - base)) (Z.lxor (a `div` 2 ^ k) 1)) (seqZ t (r - t))).

Lemma tree_proof_for f base r t a :
  0 <= base <= t -> t <= r <= 64 -> 0 <= a < 2 ^ r -> proof_for f base (tree_proof f base r t a).
Proof.
  intros Hb Ht Ha. constructor; cbn; try done.
  - constructor; cbn; rewrite ?length_map, ?length_seqZ; lia.
  - intros k Hk. unfold sibling. cbn. apply nth_lookup_Some.
    rewrite list_lookup_fmap, lookup_seqZ_lt by lia. cbn. by rewrite Z2Nat.id, Zplus_minus by lia.
Qed.

Lemma proof_for_ext f base p q :
  proof_for f base p -> proof_for f base q -> m_target_address p = m_target_address q ->
  m_log2_target_size p = m_log2_target_size q -> m_log2_root_size p = m_log2_root_size q -> p = q.
Proof.
  intros [[H1 H2 H3 H4] _ _ Ht Hr Hs] [[H1' _ _ H4'] _ _ Ht' Hr' Hs'] Ha Ets Ers.
  assert (m_target_hash p = m_target_hash q) as Eth by congruence.
  assert (m_sibling_hashes p = m_sibling_hashes q) as Esib.
  { apply (nth_ext _ _ (m_target_hash p) (m_target_hash q)); [lia|]. intros i Hi.
    specialize (Hs (m_log2_target_size p + Z.of_nat i) ltac:(lia)).
    specialize (Hs' (m_log2_target_size p + Z.of_nat i) ltac:(lia)).
    unfold sibling in Hs, Hs'. rewrite <- Ets in Hs'.
    replace (Z.to_nat (m_log2_target_size p + Z.of_nat i - m_log2_target_size p)) with i in Hs, Hs' by lia.
    rewrite Ha in Hs. congruence. }
  destruct p, q. cbn in *. congruence.
Qed.

(** A whole number of leaves of size [2^base] as an address *)
Lemma div_leaf_address n base k :
  0 <= base <= k -> (n * 2 ^ base) `div` 2 ^ k = n `div` 2 ^ (k - base).
Proof.
  intros Hk. pose proof (pow2_pos base ltac:(lia)). pose proof (pow2_pos (k - base) ltac:(lia)).
  replace (2 ^ k) with (2 ^ (k - base) * 2 ^ base) by (rewrite <- Z.pow_add_r by lia; f_equal; lia).
  by rewrite Z.div_mul_cancel_r by lia.
Qed.

(** ** Soundness

    A hash function has collisions, so a proof that verifies against the root of
    a tree either proves the node of the tree, or shows a collision: at some
    level on the path, the pair that the proof hashes is not the pair of the
    tree, and they have the same hash. *)

(** A node and its sibling, in order *)
Definition children (odd : bool) (h s : hash_type) : hash_type * hash_type := if odd then (s, h) else (h, s).

Definition proof_pair p (k : Z) : hash_type * hash_type :=
  let t := m_log2_target_size p in
  children (Z.testbit (m_target_address p) k) (parents (Z.to_nat (k - t)) p t (m_target_hash p)) (sibling p k).

Definition tree_pair (f : Z -> hash_type) (base a k : Z) : hash_type * hash_type :=
  let n := node f (Z.to_nat (k - base)) in
  children (Z.testbit a k) (n (a `div` 2 ^ k)) (n (Z.lxor (a `div` 2 ^ k) 1)).

Definition collision (x y : hash_type * hash_type) : Prop :=
  x <> y /\ uncurry get_concat_hash x = uncurry get_concat_hash y.

Lemma parent_children p k h :
  parent p k h = uncurry get_concat_hash (children (Z.testbit (m_target_address p) k) h (sibling p k)).
Proof. unfold parent, children. by destruct (Z.testbit _ _). Qed.

Lemma node_children f base a k :
  0 <= base <= k ->
  node f (Z.to_nat (k + 1 - base)) (a `div` 2 ^ (k + 1)) = uncurry get_concat_hash (tree_pair f base a k).
Proof.
  intros Hk. replace (Z.to_nat (k + 1 - base)) with (S (Z.to_nat (k - base))) by lia.
  rewrite div_pow2_succ, node_parent by lia. unfold tree_pair, children. rewrite testbit_div by lia.
  by destruct (Z.odd _).
Qed.

Lemma children_inj b h s h' s' : children b h s = children b h' s' -> h = h' /\ s = s'.
Proof. destruct b; cbn; by intros [= -> ->]. Qed.

Lemma parents_succ n p k h : parents (S n) p k h = parent p (k + Z.of_nat n) (parents n p k h).
Proof.
  revert k h. induction n as [|n IH]; intros k h; [cbn; by rewrite Z.add_0_r|].
  change (parents (S n) p (k + 1) (parent p k h) = parent p (k + Z.of_nat (S n)) (parents n p (k + 1) (parent p k h))).
  rewrite IH. f_equal. lia.
Qed.

Lemma parents_sound f base n p :
  let t := m_log2_target_size p in
  proof_wf p -> 0 <= base <= t -> t + Z.of_nat n <= m_log2_root_size p ->
  parents n p t (m_target_hash p) = node f (Z.to_nat (t + Z.of_nat n - base)) (m_target_address p `div` 2 ^ (t + Z.of_nat n)) ->
  (exists k, t <= k < t + Z.of_nat n /\ collision (proof_pair p k) (tree_pair f base (m_target_address p) k)) \/
  (m_target_hash p = node f (Z.to_nat (t - base)) (m_target_address p `div` 2 ^ t) /\
   forall k, t <= k < t + Z.of_nat n ->
     sibling p k = node f (Z.to_nat (k - base)) (Z.lxor (m_target_address p `div` 2 ^ k) 1)).
Proof.
  intros t Hp Hb. induction n as [|n IH]; intros Hn Heq.
  - right. rewrite Z.add_0_r in Heq. split; [done|lia].
  - rewrite parents_succ, parent_children in Heq.
    replace (t + Z.of_nat (S n)) with (t + Z.of_nat n + 1) in * by lia.
    rewrite node_children in Heq by lia. set (k := t + Z.of_nat n) in *.
    assert (proof_pair p k = children (Z.testbit (m_target_address p) k) (parents n p t (m_target_hash p)) (sibling p k))
      as Hpair by (unfold proof_pair; fold t; do 2 f_equal; lia).
    rewrite <- Hpair in Heq.
    destruct (decide (proof_pair p k = tree_pair f base (m_target_address p) k)) as [He|Hne].
    + rewrite Hpair in He. apply children_inj in He as [Hh Hs].
      destruct IH as [(j & Hj & Hc)|[Ht Hsib]]; [lia|done|left; exists j; split; [lia|done]|].
      right. split; [done|]. intros j Hj. destruct (decide (j = k)) as [->|]; [done|]. apply Hsib. lia.
    + left. exists k. split; [lia|done].
Qed.

(** ** Slices *)

Lemma set_sibling_hash_spec p k h :
  proof_wf p -> m_log2_target_size p <= k < m_log2_root_size p ->
  exists q, set_sibling_hash h k p = Done q /\ proof_wf q /\
    m_log2_target_size q = m_log2_target_size p /\ m_log2_root_size q = m_log2_root_size p /\
    m_target_address q = m_target_address p /\ m_target_hash q = m_target_hash p /\
    m_root_hash q = m_root_hash p /\
    (forall j, m_log2_target_size p <= j < m_log2_root_size p ->
       sibling q j = if j =? k then h else sibling p j).
Proof.
  intros Hp Hk. pose proof Hp as [H1 H2 H3 H4]. unfold set_sibling_hash, log2_size_to_index.
  test ((_ <? 0) || _) is false.
  cbn. eexists. split; [done|]. cbn. split.
  - constructor; cbn; rewrite ?length_insert; done.
  - do 5 (split; [done|]). intros j Hj. unfold sibling. cbn.
    destruct (Z.eqb_spec j k) as [->|Hne].
    + rewrite (nth_lookup_Some _ _ _ h); [done|]. apply list_lookup_insert_eq. lia.
    + rewrite !nth_lookup, list_lookup_insert_ne by lia. done.
Qed.

Lemma slice_siblings_spec n p k hash q :
  proof_wf p -> proof_wf q ->
  m_log2_target_size p <= k -> k + Z.of_nat n <= m_log2_root_size p ->
  m_log2_target_size q <= k -> k + Z.of_nat n <= m_log2_root_size q ->
  exists q', slice_siblings n p k hash q = Done (parents n p k hash, q') /\ proof_wf q' /\
    m_log2_target_size q' = m_log2_target_size q /\ m_log2_root_size q' = m_log2_root_size q /\
    m_target_address q' = m_target_address q /\ m_target_hash q' = m_target_hash q /\
    (forall j, m_log2_target_size q <= j < m_log2_root_size q ->
       sibling q' j = if (k <=? j) && (j <? k + Z.of_nat n) then sibling p j else sibling q j).
Proof.
  intros Hp. revert k hash q. induction n as [|n IH]; intros k hash q Hq Hk Hn Hkq Hnq; cbn [slice_siblings parents].
  - exists q. do 6 (split; [done|]). intros j Hj.
    replace ((k <=? j) && (j <? k + Z.of_nat 0)) with false; [done|].
    symmetry. apply andb_false_iff. rewrite Z.leb_gt, Z.ltb_ge. lia.
  - rewrite get_sibling_hash_spec, concat_sibling_spec by (done || lia). cbn [mbind outcome_bind].
    destruct (set_sibling_hash_spec q k (sibling p k) Hq) as (q1 & -> & Hq1 & Ht & Hr & Ha & Hth & _ & Hs); [lia|].
    cbn [mbind outcome_bind].
    destruct (IH (k + 1) (parent p k hash) q1) as (q2 & E & Hq2 & Ht2 & Hr2 & Ha2 & Hth2 & Hs2); [done|lia|lia|lia|lia|].
    exists q2. split; [exact E|]. split; [done|]. do 4 (split; [congruence|]).
    intros j Hj. rewrite Hs2, Hs by (rewrite ?Ht, ?Hr; lia).
    replace ((k + 1 <=? j) && (j <? k + 1 + Z.of_nat n)) with ((k <? j) && (j <? k + Z.of_nat (S n)))
      by (rewrite Nat2Z.inj_succ; bool_cases).
    destruct (Z.eqb_spec j k) as [->|].
    + replace ((k <=? k) && (k <? k + Z.of_nat (S n))) with true by (rewrite Nat2Z.inj_succ; bool_cases).
      by rewrite Z.ltb_irrefl.
    + by replace (k <? j) with (k <=? j) by bool_cases.
Qed.

Lemma sibling_ext p q k :
  m_sibling_hashes q = m_sibling_hashes p -> m_log2_target_size q = m_log2_target_size p ->
  m_log2_root_size q = m_log2_root_size p -> proof_wf p ->
  m_log2_target_size p <= k < m_log2_root_size p -> sibling q k = sibling p k.
Proof.
  intros Hs Ht Hr [H1 H2 H3 H4] Hk. unfold sibling. rewrite Hs, Ht. apply nth_indep. lia.
Qed.

(** What a slice is: the part of the proof between the two sizes *)
Record slice_of p (r t : Z) (q : merkle_tree_proof) : Prop := {
  so_wf : proof_wf q;
  so_target_size : m_log2_target_size q = t;
  so_root_size : m_log2_root_size q = r;
  so_target : m_target_hash q = parents (Z.to_nat (t - m_log2_target_size p)) p (m_log2_target_size p) (m_target_hash p);
  so_root : m_root_hash q = parents (Z.to_nat (r - m_log2_target_size p)) p (m_log2_target_size p) (m_target_hash p);
  so_address : m_target_address q = m_target_address p `div` 2 ^ t * 2 ^ t;
  so_siblings k : t <= k < r -> sibling q k = sibling p k;
}.

Lemma testbit_floor a t k : 0 <= t <= k -> Z.testbit (a `div` 2 ^ t * 2 ^ t) k = Z.testbit a k.
Proof.
  intros Hk. rewrite Z.mul_pow2_bits by lia. rewrite Z.div_pow2_bits by lia. f_equal. lia.
Qed.

Lemma slice_of_verifies p r t q :
  proof_wf p -> m_log2_target_size p <= t <= r -> r <= m_log2_root_size p ->
  slice_of p r t q -> verify q = Done true.
Proof.
  intros Hp Ht Hr [Hq Hqt Hqr Htg Hroot Ha Hs]. unfold verify. rewrite bubble_up_parents by done. cbn. f_equal.
  apply bool_decide_eq_true. pose proof Hp as [H1 _ _ _]. unfold height. rewrite Hqt, Hqr, Htg, Hroot.
  rewrite (parents_ext _ q p).
  - replace (Z.to_nat (r - m_log2_target_size p))
      with (Z.to_nat (t - m_log2_target_size p) + Z.to_nat (r - t))%nat by lia.
    rewrite parents_add. f_equal. lia.
  - intros j Hj. split; [apply Hs; lia|]. rewrite Ha. apply testbit_floor. lia.
Qed.

Lemma slice_spec zero p r t :
  proof_wf p -> 0 < r -> m_log2_target_size p <= t <= r -> r <= m_log2_root_size p ->
  is_uint 64 (m_target_address p) ->
  exists q, slice zero p r t = Done q /\ slice_of p r t q.
Proof.
  intros Hp H0 Ht Hr Haddr. pose proof Hp as [H1 H2 H3 H4]. unfold slice, make_proof.
  test (r <=? 0) is false.
  test (t <? 0) is false.
  test (r <? t) is false.
  test (m_log2_root_size p <? r) is false.
  test (t <? m_log2_target_size p) is false.
  cbn [throw_if mbind outcome_bind mret outcome_ret].
  rewrite bubble_spec by (done || lia). cbn [mbind outcome_bind].
  set (hash := parents _ p (m_log2_target_size p) (m_target_hash p)).
  destruct (slice_siblings_spec (Z.to_nat (r - t)) p t hash
    (set_target_hash hash (MerkleTreeProof 0 t zero r zero (replicate (Z.to_nat (Z.max 0 (r - t))) zero)))) 
    as (q & E & Hq & Hqt & Hqr & Hqa & Hqh & Hqs); try (done || (cbn; lia)).
  { constructor; cbn; rewrite ?length_replicate; lia. }
  rewrite E. cbn [mbind outcome_bind]. cbn [set_target_hash m_log2_target_size m_log2_root_size m_target_hash] in *.
  set (q' := set_target_address _ _).
  assert (slice_of p r t q') as Hso.
  { assert (proof_wf q') as Hq' by (destruct Hq; by constructor).
    constructor; try done.
    - cbn. subst hash. replace (Z.to_nat (r - m_log2_target_size p))
        with (Z.to_nat (t - m_log2_target_size p) + Z.to_nat (r - t))%nat by lia.
      rewrite parents_add. f_equal. lia.
    - cbn. rewrite Z.shiftr_div_pow2, Z.shiftl_mul_pow2 by lia. apply uint_id. unfold is_uint in *.
      pose proof (pow2_pos t). pose proof (Z.mul_div_le (m_target_address p) (2 ^ t) ltac:(lia)).
      pose proof (Z.div_pos (m_target_address p) (2 ^ t)). nia.
    - intros k Hk. rewrite (sibling_ext q q') by (done || (rewrite ?Hqt, ?Hqr; lia)).
      rewrite Hqs by lia. replace ((t <=? k) && (k <? t + Z.of_nat (Z.to_nat (r - t)))) with true; [done|].
      rewrite Z2Nat.id by lia. bool_cases. }
  rewrite (slice_of_verifies p r t q') by done. cbn. eauto.
Qed.
(** ** Properties *)

(** C37: the proof of a node of a tree verifies, and bubbling another hash up from
    the node gives the root of the tree in which the node has that hash. *)
Theorem merkle_proof_complete f base p h :
  proof_for f base p -> let t := m_log2_target_size p in
  verify p = Done true /\
  bubble_up p h =
    Done (node (update (node f (Z.to_nat (t - base))) (m_target_address p `div` 2 ^ t) h) (height p) 0).
Proof. intros Hp t. split; [by apply (verify_spec f base)|by apply bubble_up_spec]. Qed.

(** C26: verification never fails on a well-formed proof, and a proof that
    verifies against the root of a tree is the proof of the node at its address,
    unless it shows a collision of the hash on the path to the root. *)
Theorem merkle_proof_sound f base p :
  proof_wf p -> 0 <= base <= m_log2_target_size p -> 0 <= m_target_address p < 2 ^ m_log2_root_size p ->
  m_root_hash p = node f (Z.to_nat (m_log2_root_size p - base)) 0 ->
  (exists b, verify p = Done b) /\
  (verify p = Done true ->
   proof_for f base p \/
   exists k, m_log2_target_size p <= k < m_log2_root_size p /\
     collision (proof_pair p k) (tree_pair f base (m_target_address p) k)).
Proof.
  intros Hp Hb Ha Hr. pose proof Hp as [H1 H2 H3 H4].
  unfold verify. rewrite bubble_up_parents by done. cbn. split; [by eexists|].
  intros [= Hv]. apply bool_decide_eq_true in Hv.
  assert (m_log2_target_size p + Z.of_nat (height p) = m_log2_root_size p) as Hh by (unfold height; lia).
  destruct (parents_sound f base (height p) p) as [Hc|[Ht Hs]]; rewrite ?Hh; try done.
  - by rewrite Hv, Hr, Z.div_small by done.
  - right. rewrite Hh in Hc. done.
  - left. constructor; try done. intros k Hk. apply Hs. lia.
Qed.

(** A slice between two sizes of the proof of a tree proves the node of the
    smaller size in the subtree of the larger one; sizes outside of the proof are
    refused. *)
Theorem merkle_proof_slice zero f base p r t :
  proof_for f base p -> is_uint 64 (m_target_address p) -> let a := m_target_address p in
  (0 < r /\ m_log2_target_size p <= t <= r /\ r <= m_log2_root_size p ->
   exists q, slice zero p r t = Done q /\ verify q = Done true /\
     m_log2_root_size q = r /\ m_log2_target_size q = t /\ m_target_address q = a `div` 2 ^ t * 2 ^ t /\
     m_target_hash q = node f (Z.to_nat (t - base)) (a `div` 2 ^ t) /\
     m_root_hash q = node f (Z.to_nat (r - base)) (a `div` 2 ^ r) /\
     (forall k, t <= k < r -> sibling q k = node f (Z.to_nat (k - base)) (Z.lxor (a `div` 2 ^ k) 1))) /\
  (~ (0 < r /\ m_log2_target_size p <= t <= r /\ r <= m_log2_root_size p) ->
   exists what, slice zero p r t = Exn (out_of_range what)).
Proof.
  intros Hp Ha a. pose proof Hp as [[H1 H2 H3 H4] Hb _ Htg _ Hsib]. split.
  - intros (H0 & Ht & Hr). destruct (slice_spec zero p r t) as (q & -> & Hq); try (done || apply Hp).
    exists q. split; [done|].
    split; [apply (slice_of_verifies p r t); [apply Hp|done|done|done]|].
    destruct Hq as [_ Hqt Hqr Hqth Hqrh Hqa Hqs].
    assert (forall j, m_log2_target_size p <= j <= m_log2_root_size p ->
      parents (Z.to_nat (j - m_log2_target_size p)) p (m_log2_target_size p) (m_target_hash p) =
      node f (Z.to_nat (j - base)) (a `div` 2 ^ j)) as Hnode.
    { intros j Hj. rewrite (parents_spec f base) by (done || lia).
      rewrite (node_ext _ (node f (Z.to_nat (m_log2_target_size p - base)))).
      - rewrite node_add. f_equal; [lia|]. f_equal. f_equal. lia.
      - intros i _. unfold update. rewrite Htg. fold a.
        by destruct (Z.eqb_spec i (a `div` 2 ^ m_log2_target_size p)) as [->|]. }
    split; [done|]. split; [done|]. split; [done|]. split; [rewrite Hqth; apply Hnode; lia|].
    split; [rewrite Hqrh; apply Hnode; lia|]. intros k Hk. rewrite Hqs, Hsib by lia. done.
  - intros Hn. unfold slice.
    destruct (r <=? 0) eqn:E1; [by eexists|]. destruct (t <? 0) eqn:E2; [by eexists|].
    destruct (r <? t) eqn:E3; [by eexists|]. destruct (m_log2_root_size p <? r) eqn:E4; [by eexists|].
    destruct (t <? m_log2_target_size p) eqn:E5; [by eexists|]. exfalso. reflect_bools. lia.
Qed.

End spec.

(** ** Examples, for a hash that keeps its input *)

#[local] Existing Instance free_hasher.

Definition four_leaves (i : Z) : hash_type := [i; 7].

Lemma merkle_proof_complete_witness :
  verify (tree_proof four_leaves 3 5 3 8) = Done true /\
  bubble_up (tree_proof four_leaves 3 5 3 8) [9] =
    Done (node (update (node four_leaves 0) 1 [9]) 2 0).
Proof.
  apply (merkle_proof_complete four_leaves 3 (tree_proof four_leaves 3 5 3 8) [9]).
  apply (tree_proof_for four_leaves 3 5 3 8); lia.
Defined.

Lemma merkle_proof_sound_witness :
  let p := tree_proof four_leaves 3 5 3 8 in
  (exists b, verify p = Done b) /\
  (verify p = Done true ->
   proof_for four_leaves 3 p \/
   exists k, 3 <= k < 5 /\ collision (proof_pair p k) (tree_pair four_leaves 3 8 k)).
Proof.
  apply (merkle_proof_sound four_leaves 3 (tree_proof four_leaves 3 5 3 8)).
  - apply (tree_proof_for four_leaves 3 5 3 8); lia.
  - cbn. lia.
  - cbn. lia.
  - reflexivity.
Defined.

Lemma merkle_proof_slice_witness :
  exists q, slice (four_leaves 0) (tree_proof four_leaves 3 5 3 8) 5 4 = Done q /\ verify q = Done true /\
    m_target_hash q = node four_leaves 1 0.
Proof.
  destruct (merkle_proof_slice (four_leaves 0) four_leaves 3 (tree_proof four_leaves 3 5 3 8) 5 4) as [Hok _].
  - apply (tree_proof_for four_leaves 3 5 3 8); lia.
  - vm_compute. split; congruence.
  - destruct Hok as (q & Hq & Hv & _ & _ & _ & Ht & _); [cbn; lia|]. exists q. done.
Defined.
