(* ===== verification/PristineMerkleTree.v ===== *)
(** * Pristine Merkle trees (pristine-merkle-tree.cpp)

    The hashes of the trees of all sizes whose data is zero. *)

From S2P Require Import Prelude CppInt Hasher.

Section pristine_tree.
Context `{i_hasher}.

Record pristine_merkle_tree := PristineMerkleTree {
  pm_log2_root_size : Z;
  pm_log2_word_size : Z;
  pm_hashes : list hash_type;
}.

(** The loop of the constructor: the hashes of [n] levels, from [h] *)
Fixpoint pristine_hashes (n : nat) (h : hash_type) : list hash_type :=
  match n with O => [] | S n => h :: pristine_hashes n (get_concat_hash h h) end.

(** [std::vector<uint8_t> word(1 << log2_word_size, 0)] *)
Definition pristine_word (log2_word_size : Z) : list Z := replicate (Z.to_nat (2 ^ log2_word_size)) 0.

(** The shift of the [int] 1 is undefined from 31 on. *)
Definition make_pristine_merkle_tree (log2_root_size log2_word_size : Z) : outcome pristine_merkle_tree :=
  throw_if (log2_root_size <? 0) (out_of_range "log2_root_size is negative") ≫= fun _ =>
  throw_if (log2_word_size <? 0) (out_of_range "log2_word_size is negative") ≫= fun _ =>
  throw_if (log2_root_size <? log2_word_size)
    (out_of_range "log2_word_size is greater than log2_root_size") ≫= fun _ =>
  throw_if (31 <=? log2_word_size) (undefined_behaviour "1 << log2_word_size") ≫= fun _ =>
  mret (PristineMerkleTree log2_root_size log2_word_size
    (pristine_hashes (Z.to_nat (log2_root_size - log2_word_size + 1)) (digest (pristine_word log2_word_size)))).

Definition pristine_get_hash (t : pristine_merkle_tree) (log2_size : Z) : outcome hash_type :=
  throw_if ((log2_size <? pm_log2_word_size t) || (pm_log2_root_size t <? log2_size))
    (out_of_range "log2_size is out of range") ≫= fun _ =>
  mret (nth (Z.to_nat (log2_size - pm_log2_word_size t)) (pm_hashes t) (digest [])).

(** ** Specification *)

(** The root of a pristine tree of size [2^k] *)
Definition pristine_root (log2_word_size k : Z) : hash_type :=
  pristine (digest (pristine_word log2_word_size)) (Z.to_nat (k - log2_word_size)).

Lemma pristine_hashes_nth n h k d : (k < n)%nat -> nth k (pristine_hashes n h) d = pristine h k.
Proof.
  revert h k. induction n as [|n IH]; intros h k Hk; [lia|]. destruct k as [|k]; [done|].
  cbn [pristine_hashes nth]. rewrite IH by lia.
  change (get_concat_hash h h) with (pristine h 1). by rewrite pristine_add.
Qed.

(** A tree with the hashes of its sizes *)
Record pristine_wf (root word : Z) (t : pristine_merkle_tree) : Prop := {
  pt_root : pm_log2_root_size t = root;
  pt_word : pm_log2_word_size t = word;
  pt_hashes : pm_hashes t = pristine_hashes (Z.to_nat (root - word + 1)) (digest (pristine_word word));
}.

Lemma make_pristine_spec root word :
  0 <= word <= root -> word < 31 ->
  exists t, make_pristine_merkle_tree root word = Done t /\ pristine_wf root word t.
Proof.
  intros Hw H31. unfold make_pristine_merkle_tree.
  test (root <? 0) is false.
  test (word <? 0) is false.
  test (root <? word) is false.
  test (31 <=? word) is false. cbn. eexists. split; done.
Qed.

Lemma pristine_get_hash_spec root word t k :
  pristine_wf root word t -> word <= k <= root -> pristine_get_hash t k = Done (pristine_root word k).
Proof.
  intros [<- <- Hh] Hk. unfold pristine_get_hash.
  test ((k <? _) || (_ <? k)) is false.
  cbn [throw_if mbind outcome_bind]. rewrite Hh, pristine_hashes_nth by lia. done.
Qed.

(** The table of a pristine tree holds, for every size from the word to the
    root, the root of the tree whose words are all zero; other sizes are refused,
    and so are inconsistent sizes of the tree. *)
Theorem pristine_tree_correct root word :
  word < 31 ->
  (0 <= word <= root ->
   exists t, make_pristine_merkle_tree root word = Done t /\
     (forall k i, word <= k <= root ->
        pristine_get_hash t k = Done (node (fun _ => digest (pristine_word word)) (Z.to_nat (k - word)) i)) /\
     (forall k, ~ word <= k <= root -> pristine_get_hash t k = Exn (out_of_range "log2_size is out of range"))) /\
  (~ 0 <= word <= root -> exists what, make_pristine_merkle_tree root word = Exn (out_of_range what)).
Proof.
  intros H31. split.
  - intros Hw. destruct (make_pristine_spec root word) as (t & Ht & Hwf); [done|done|].
    exists t. split; [done|]. split.
    + intros k i Hk. rewrite (pristine_get_hash_spec root word) by done. f_equal. symmetry. by apply node_pristine.
    + intros k Hk. destruct Hwf as [<- <- _]. unfold pristine_get_hash.
      by test ((k <? _) || (_ <? k)) is true.
  - intros Hn. unfold make_pristine_merkle_tree.
    destruct (root <? 0) eqn:E1; [by eexists|]. destruct (word <? 0) eqn:E2; [by eexists|].
    destruct (root <? word) eqn:E3; [by eexists|]. exfalso. reflect_bools. lia.
Qed.
End pristine_tree.

Lemma pristine_tree_correct_witness :
  exists t, make_pristine_merkle_tree (H := free_hasher) 5 3 = Done t /\
    pristine_get_hash (H := free_hasher) t 4 = Done (8 :: replicate 8 0 ++ 8 :: replicate 8 0).
Proof.
  destruct (pristine_tree_correct (H := free_hasher) 5 3) as [Hok _]; [lia|].
  destruct Hok as (t & Ht & Hh & _); [lia|]. exists t. split; [done|].
  rewrite (Hh 4 0) by lia. reflexivity.
Defined.
