(* ===== verification/BackMerkleTree.v ===== *)
(** * Back Merkle trees (back-merkle-tree.h, back-merkle-tree.cpp)

    A tree to which leaves are appended, stored as one hash per bit set in the
    number of leaves: the roots of the full subtrees on its frontier.  The
    context of a tree with [n] leaves holds, for each bit [i] set in [n], the
    node of level [i] just before leaf [n / 2^i * 2^i]. *)

From S2P Require Import Prelude CppInt Hasher MerkleProof PristineMerkleTree.

Section back_tree.
Context `{i_hasher}.
(** The value of a [hash_type] without a value *)
Context (zero : hash_type).

Record back_merkle_tree := BackMerkleTree {
  bm_log2_root_size : Z;
  bm_log2_leaf_size : Z;
  m_leaf_count : Z;
  m_max_leaves : Z;
  m_context : list hash_type;
  m_pristine_hashes : pristine_merkle_tree;
}.

Definition set_leaves (n : Z) (context : list hash_type) (t : back_merkle_tree) : back_merkle_tree :=
  BackMerkleTree (bm_log2_root_size t) (bm_log2_leaf_size t) n (m_max_leaves t) context (m_pristine_hashes t).

Definition bm_depth (t : back_merkle_tree) : Z := bm_log2_root_size t - bm_log2_leaf_size t.

(** [address_type{1} << i] *)
Definition span (i : Z) : Z := uint64 (Z.shiftl 1 i).

(** The members are initialised before the sizes are checked: the shift is
    undefined when the sizes are not consistent. *)
Definition make_back_merkle_tree (log2_root_size log2_leaf_size log2_word_size : Z) : outcome back_merkle_tree :=
  let depth := log2_root_size - log2_leaf_size in
  throw_if ((depth <? 0) || (64 <=? depth))
    (undefined_behaviour "1 << (log2_root_size - log2_leaf_size)") ≫= fun _ =>
  pristine ← make_pristine_merkle_tree log2_root_size log2_word_size;
  throw_if (log2_root_size <? 0) (out_of_range "log2_root_size is negative") ≫= fun _ =>
  throw_if (log2_leaf_size <? 0) (out_of_range "log2_leaf_size is negative") ≫= fun _ =>
  throw_if (log2_word_size <? 0) (out_of_range "log2_word_size is negative") ≫= fun _ =>
  throw_if (log2_root_size <? log2_leaf_size)
    (out_of_range "log2_leaf_size is greater than log2_root_size") ≫= fun _ =>
  throw_if (log2_leaf_size <? log2_word_size)
    (out_of_range "log2_word_size is greater than log2_word_size") ≫= fun _ =>
  throw_if (64 <=? depth) (out_of_range "tree is too large for address type") ≫= fun _ =>
  mret (BackMerkleTree log2_root_size log2_leaf_size 0 (span depth)
    (replicate (Z.to_nat (Z.max 1 (depth + 1))) zero) pristine).

(** [m_context[i]] *)
Definition context_at (context : list hash_type) (i : Z) : hash_type := nth (Z.to_nat i) context zero.

(** The loop that carries a hash up from level [i], at most [n] levels: the level
    at which it stopped, if it did, and the context *)
Fixpoint carry (n : nat) (count i : Z) (right : hash_type) (context : list hash_type) :
    option Z * list hash_type :=
  match n with
  | O => (None, context)
  | S n =>
      if negb ((count &ᵇ span i) =? 0) then
        carry n count (i + 1) (get_concat_hash (context_at context i) right) context
      else (Some i, <[Z.to_nat i := right]> context)
  end.

Definition push_back (t : back_merkle_tree) (new_leaf_hash : hash_type) : outcome back_merkle_tree :=
  throw_if (m_max_leaves t <=? m_leaf_count t) (out_of_range "too many leaves") ≫= fun _ =>
  let '(_, context) := carry (Z.to_nat (bm_depth t + 1)) (m_leaf_count t) 0 new_leaf_hash (m_context t) in
  mret (set_leaves (uint64 (m_leaf_count t + 1)) context t).

(** The first loop of [pad_back]: the number of leaves that remain to be added *)
Fixpoint pad_carry (fuel : nat) (j new_leaf_count : Z) (t : back_merkle_tree) : outcome (Z * back_merkle_tree) :=
  match fuel with
  | O => Exn (undefined_behaviour "out of fuel")
  | S fuel =>
      if j <=? bm_depth t then
        let j_span := span j in
        if new_leaf_count <? j_span then Done (new_leaf_count, t)
        else if negb ((m_leaf_count t &ᵇ j_span) =? 0) then
          right ← pristine_get_hash (m_pristine_hashes t) (bm_log2_leaf_size t + j);
          let '(stop, context) := carry (Z.to_nat (bm_depth t + 1 - j)) (m_leaf_count t) j right (m_context t) in
          pad_carry fuel (default j stop) (uint64 (new_leaf_count - j_span))
            (set_leaves (uint64 (m_leaf_count t + j_span)) context t)
        else pad_carry fuel (j + 1) new_leaf_count t
      else Done (new_leaf_count, t)
  end.

(** The second loop, of [n] iterations from level [i] *)
Fixpoint pad_rest (n : nat) (i new_leaf_count : Z) (t : back_merkle_tree) : outcome back_merkle_tree :=
  match n with
  | O => Done t
  | S n =>
      let i_span := span i in
      if negb ((new_leaf_count &ᵇ i_span) =? 0) then
        right ← pristine_get_hash (m_pristine_hashes t) (bm_log2_leaf_size t + i);
        pad_rest n (i + 1) (uint64 (new_leaf_count - i_span))
          (set_leaves (uint64 (m_leaf_count t + i_span)) (<[Z.to_nat i := right]> (m_context t)) t)
      else pad_rest n (i + 1) new_leaf_count t
  end.

Definition pad_back (t : back_merkle_tree) (new_leaf_count : Z) : outcome back_merkle_tree :=
  throw_if ((m_max_leaves t <? new_leaf_count) || (m_max_leaves t <? uint64 (m_leaf_count t + new_leaf_count)))
    (invalid_argument "too many leaves") ≫= fun _ =>
  '(rest, t) ← pad_carry (Z.to_nat (bm_depth t + 3)) 0 new_leaf_count t;
  pad_rest (Z.to_nat (bm_depth t + 1)) 0 rest t.

(** The loop of [get_root_hash], of [n] iterations from level [i] *)
Fixpoint root_loop (n : nat) (i : Z) (root : hash_type) (t : back_merkle_tree) : outcome hash_type :=
  match n with
  | O => Done root
  | S n =>
      if negb ((m_leaf_count t &ᵇ span i) =? 0) then
        root_loop n (i + 1) (get_concat_hash (context_at (m_context t) i) root) t
      else
        right ← pristine_get_hash (m_pristine_hashes t) (bm_log2_leaf_size t + i);
        root_loop n (i + 1) (get_concat_hash root right) t
  end.

Definition bm_get_root_hash (t : back_merkle_tree) : outcome hash_type :=
  throw_if (negb (m_leaf_count t <=? m_max_leaves t))
    (assertion_failure "m_leaf_count <= m_max_leaves") ≫= fun _ =>
  if m_leaf_count t <? m_max_leaves t then
    root ← pristine_get_hash (m_pristine_hashes t) (bm_log2_leaf_size t);
    root_loop (Z.to_nat (bm_depth t)) 0 root t
  else mret (context_at (m_context t) (bm_depth t)).

Fixpoint next_leaf_loop (n : nat) (i : Z) (hash : hash_type) (t : back_merkle_tree) (proof : merkle_tree_proof) :
    outcome (hash_type * merkle_tree_proof) :=
  match n with
  | O => Done (hash, proof)
  | S n =>
      if negb ((m_leaf_count t &ᵇ span i) =? 0) then
        let left := context_at (m_context t) i in
        proof ← set_sibling_hash left (bm_log2_leaf_size t + i) proof;
        next_leaf_loop n (i + 1) (get_concat_hash left hash) t proof
      else
        right ← pristine_get_hash (m_pristine_hashes t) (bm_log2_leaf_size t + i);
        proof ← set_sibling_hash right (bm_log2_leaf_size t + i) proof;
        next_leaf_loop n (i + 1) (get_concat_hash hash right) t proof
  end.

(** The proof is verified at the end, as in the builds without [NDEBUG]. *)
Definition get_next_leaf_proof (t : back_merkle_tree) : outcome merkle_tree_proof :=
  throw_if (m_max_leaves t <=? m_leaf_count t) (out_of_range "tree is full") ≫= fun _ =>
  proof ← make_proof zero (bm_log2_root_size t) (bm_log2_leaf_size t);
  let proof := set_target_address (uint64 (Z.shiftl (m_leaf_count t) (bm_log2_leaf_size t))) proof in
  hash ← pristine_get_hash (m_pristine_hashes t) (bm_log2_leaf_size t);
  let proof := set_target_hash hash proof in
  '(hash, proof) ← next_leaf_loop (Z.to_nat (bm_depth t)) 0 hash t proof;
  let proof := set_root_hash hash proof in
  ok ← verify proof;
  throw_if (negb ok) (runtime_error "produced invalid proof") ≫= fun _ =>
  mret proof.
End back_tree.
Arguments back_merkle_tree {_}.

(** ** Counting in binary *)

Lemma span_pow i : 0 <= i < 64 -> span i = 2 ^ i.
Proof.
  intros. unfold span. rewrite Z.shiftl_1_l. apply uint_id. unfold is_uint.
  split; [apply Z.pow_nonneg; lia|apply Z.pow_lt_mono_r; lia].
Qed.

Lemma span_bit n i : 0 <= i < 64 -> negb ((n &ᵇ span i) =? 0) = Z.testbit n i.
Proof. intros. rewrite span_pow, land_pow2 by lia. apply negb_involutive. Qed.

Lemma div_odd n i : 0 <= i -> Z.testbit n i = true -> n `div` 2 ^ i = 2 * (n `div` 2 ^ (i + 1)) + 1.
Proof.
  intros Hi Hb. rewrite testbit_div in Hb by lia. rewrite div_pow2_succ by lia.
  pose proof (Z.div_mod (n `div` 2 ^ i) 2 ltac:(lia)) as Hd. rewrite Zmod_odd, Hb in Hd. lia.
Qed.

Lemma div_even n i : 0 <= i -> Z.testbit n i = false -> n `div` 2 ^ i = 2 * (n `div` 2 ^ (i + 1)).
Proof.
  intros Hi Hb. rewrite testbit_div in Hb by lia. rewrite div_pow2_succ by lia.
  pose proof (Z.div_mod (n `div` 2 ^ i) 2 ltac:(lia)) as Hd. rewrite Zmod_odd, Hb in Hd. lia.
Qed.

(** [s] is the first bit from [j] on that is not set. *)
Definition first_clear (n j s : Z) : Prop :=
  0 <= j <= s /\ Z.testbit n s = false /\ forall k, j <= k < s -> Z.testbit n k = true.

Lemma first_clear_ex n j d : 0 <= n < 2 ^ d -> 0 <= j <= d -> exists s, s <= d /\ first_clear n j s.
Proof.
  intros Hn Hj.
  assert (forall m, 0 <= j -> j + Z.of_nat m = d -> exists s, s <= d /\ first_clear n j s) as Hgen.
  2:{ apply (Hgen (Z.to_nat (d - j))); lia. }
  intros m. revert j Hj. induction m as [|m IH]; intros j Hj H0 Hm.
  - exists d. split; [done|]. replace j with d by lia. split; [lia|]. split; [|lia].
    rewrite testbit_div, Z.div_small by lia. done.
  - destruct (Z.testbit n j) eqn:Eb.
    + destruct (IH (j + 1)) as (s & Hs & Hjs & Hbs & Hk); [lia|lia|lia|]. exists s. split; [done|].
      split; [lia|]. split; [done|]. intros k ?. destruct (decide (k = j)) as [->|]; [done|]. apply Hk. lia.
    + exists j. split; [lia|]. split; [lia|]. split; [done|]. lia.
Qed.

(** Adding [2^j] carries up to the first clear bit. *)
Lemma carry_sum n j s :
  first_clear n j s -> n `mod` 2 ^ j = 0 -> n + 2 ^ j = (n `div` 2 ^ s + 1) * 2 ^ s.
Proof.
  intros (Hj & _ & Hk) Hm.
  assert (forall m, j + Z.of_nat m <= s ->
    n + 2 ^ j = (n `div` 2 ^ (j + Z.of_nat m) + 1) * 2 ^ (j + Z.of_nat m)) as Hgen.
  2:{ rewrite (Hgen (Z.to_nat (s - j))) by lia. by replace (j + Z.of_nat (Z.to_nat (s - j))) with s by lia. }
  induction m as [|m IH]; intros Hs.
  - rewrite Z.add_0_r. pose proof (Z.div_mod n (2 ^ j)). pose proof (pow2_pos j). nia.
  - rewrite IH by lia. rewrite (div_odd n (j + Z.of_nat m)) by (lia || apply Hk; lia).
    replace (j + Z.of_nat (S m)) with (j + Z.of_nat m + 1) by lia.
    rewrite (Z.pow_add_r 2 (j + Z.of_nat m) 1) by lia. lia.
Qed.

Lemma carry_div n j s i :
  first_clear n j s -> n `mod` 2 ^ j = 0 -> 0 <= i ->
  (i < s -> Z.testbit (n + 2 ^ j) i = false) /\
  (i = s -> (n + 2 ^ j) `div` 2 ^ i = n `div` 2 ^ i + 1) /\
  (s < i -> (n + 2 ^ j) `div` 2 ^ i = n `div` 2 ^ i).
Proof.
  intros Hfc Hm Hi. rewrite (carry_sum n j s) by done. destruct Hfc as ((Hj & Hjs) & Hb & _).
  pose proof (pow2_pos s ltac:(lia)). split; [|split].
  - intros. apply Z.mul_pow2_bits_low. lia.
  - intros ->. by rewrite Z.div_mul by lia.
  - intros. replace i with (s + 1 + (i - s - 1)) by lia. rewrite Z.pow_add_r by lia.
    rewrite <- !Z.div_div by (lia || (pose proof (pow2_pos (i - s - 1)); lia)). f_equal.
    rewrite div_pow2_succ, Z.div_mul, (div_even n s) by (lia || done).
    symmetry. apply Z.div_unique with 1; lia.
Qed.

Section spec.
Context `{i_hasher} (zero : hash_type).
Implicit Types t : back_merkle_tree.

(** ** The context *)

Definition context_ok (f : Z -> hash_type) (depth n : Z) (context : list hash_type) : Prop :=
  Z.of_nat (length context) = depth + 1 /\
  forall i, 0 <= i <= depth -> Z.testbit n i = true ->
    context_at zero context i = node f (Z.to_nat i) (n `div` 2 ^ i - 1).

Lemma context_at_insert context i j h :
  0 <= i < Z.of_nat (length context) -> 0 <= j ->
  context_at zero (<[Z.to_nat i := h]> context) j = if j =? i then h else context_at zero context j.
Proof.
  intros Hi Hj. unfold context_at. destruct (Z.eqb_spec j i) as [->|].
  - rewrite nth_insert; [done|lia].
  - rewrite nth_insert_ne; [done|lia].
Qed.

(** The parent of two nodes of consecutive positions *)
Lemma node_pair f i q : get_concat_hash (node f i (2 * q)) (node f i (2 * q + 1)) = node f (S i) q.
Proof. done. Qed.

Lemma carry_spec f n m s context i :
  first_clear n i s -> s < 64 -> s < i + Z.of_nat m ->
  (forall k, i <= k < s -> context_at zero context k = node f (Z.to_nat k) (n `div` 2 ^ k - 1)) ->
  carry zero m n i (node f (Z.to_nat i) (n `div` 2 ^ i)) context =
    (Some s, <[Z.to_nat s := node f (Z.to_nat s) (n `div` 2 ^ s)]> context).
Proof.
  revert i. induction m as [|m IH]; intros i (Hi & Hs & Hk) H64 Hm Hctx; [lia|].
  cbn [carry]. rewrite span_bit by lia. destruct (decide (i = s)) as [->|]; [by rewrite Hs|].
  rewrite Hk by lia. rewrite Hctx by lia. rewrite (div_odd n i), Z.add_simpl_r by (lia || apply Hk; lia).
  rewrite node_pair. replace (S (Z.to_nat i)) with (Z.to_nat (i + 1)) by lia.
  apply IH; [|lia|lia|intros; apply Hctx; lia]. split; [lia|]. split; [done|]. intros. apply Hk. lia.
Qed.

(** A carry from level [j] of the new node there *)
Lemma carry_context f f' depth n j context :
  context_ok f depth n context -> 0 <= n < 2 ^ depth -> 0 <= j <= depth -> depth < 64 -> n `mod` 2 ^ j = 0 ->
  (forall i, 0 <= i -> node f' (Z.to_nat i) (n `div` 2 ^ i - 1) = node f (Z.to_nat i) (n `div` 2 ^ i - 1)) ->
  exists s context',
    carry zero (Z.to_nat (depth + 1 - j)) n j (node f' (Z.to_nat j) (n `div` 2 ^ j)) context = (Some s, context') /\
    s <= depth /\ first_clear n j s /\ context_ok f' depth (n + 2 ^ j) context'.
Proof.
  intros [Hlen Hctx] Hn Hj H64 Hm Hff. destruct (first_clear_ex n j depth Hn Hj) as (s & Hsd & Hfc).
  eexists s, _. split; [|split; [done|split; [done|]]].
  - apply carry_spec; [done|lia|lia|]. intros k Hk. destruct Hfc as (? & _ & Hset).
    rewrite Hctx by (lia || apply Hset; lia). symmetry. apply Hff. lia.
  - split; [by rewrite length_insert|]. intros i Hi Hb.
    pose proof Hfc as (? & _). destruct (carry_div n j s i Hfc Hm) as (Hlo & Heq & Hhi); [lia|].
    rewrite context_at_insert by lia. destruct (Z.eqb_spec i s) as [->|Hne].
    + rewrite Heq by done. f_equal. lia.
    + destruct (decide (i < s)); [by rewrite Hlo in Hb by done|].
      rewrite Hhi by lia. rewrite Hff by lia. apply Hctx; [lia|].
      rewrite testbit_div, Hhi, <- testbit_div in Hb by lia. done.
Qed.
(** ** Trees *)

(** The tree whose leaves are [f], of which [n] have been added *)
Record tree_at (root leaf word : Z) (f : Z -> hash_type) (n : Z) t : Prop := {
  bt_sizes : 0 <= word <= leaf /\ leaf <= root /\ word < 31 /\ root - leaf < 64;
  bt_root : bm_log2_root_size t = root;
  bt_leaf : bm_log2_leaf_size t = leaf;
  bt_count : m_leaf_count t = n;
  bt_range : 0 <= n <= 2 ^ (root - leaf);
  bt_max : m_max_leaves t = 2 ^ (root - leaf);
  bt_pristine : pristine_wf root word (m_pristine_hashes t);
  bt_context : context_ok f (root - leaf) n (m_context t);
  bt_rest i : n <= i -> f i = pristine_root word leaf;
}.

Context (root leaf word : Z).
Notation depth := (root - leaf).
Notation tree := (tree_at root leaf word).

Lemma pow_depth : 0 <= depth < 64 -> 0 < 2 ^ depth < 2 ^ 64.
Proof. intros. split; [apply pow2_pos; lia|apply Z.pow_lt_mono_r; lia]. Qed.

Lemma level_pristine t k :
  pristine_wf root word (m_pristine_hashes t) -> 0 <= word <= leaf -> 0 <= k <= depth ->
  pristine_get_hash (m_pristine_hashes t) (leaf + k) = Done (pristine (pristine_root word leaf) (Z.to_nat k)).
Proof.
  intros Hwf Hw Hk. rewrite (pristine_get_hash_spec root word) by (done || lia). f_equal.
  unfold pristine_root. rewrite pristine_add. f_equal. lia.
Qed.

(** The node at or after the leaves that were added *)
Lemma node_rest f n t k i :
  tree f n t -> 0 <= k -> n <= i * 2 ^ k ->
  node f (Z.to_nat k) i = pristine (pristine_root word leaf) (Z.to_nat k).
Proof. intros Ht Hk Hn. apply node_pristine. rewrite Z2Nat.id by lia. intros. apply (bt_rest _ _ _ _ _ _ Ht). lia. Qed.

Lemma set_leaves_at f f' n n' context t :
  tree f n t -> 0 <= n' <= 2 ^ depth -> context_ok f' depth n' context ->
  (forall i, n' <= i -> f' i = pristine_root word leaf) -> tree f' n' (set_leaves n' context t).
Proof. intros [] ? ? ?. by constructor. Qed.

Lemma push_back_spec f f' n t h :
  tree f n t -> n < 2 ^ depth -> (forall i, f' i = update f n h i) ->
  exists t', push_back zero t h = Done t' /\ tree f' (n + 1) t'.
Proof.
  intros Ht Hn Hf'. pose proof Ht as [(Hw & Hlr & _ & H64) Hr Hl Hc Hrange Hm Hp Hctx Hrest].
  pose proof (pow_depth ltac:(lia)) as Hpow.
  unfold push_back, bm_depth. rewrite Hr, Hl, Hc, Hm.
  test (2 ^ depth <=? n) is false.
  cbn [throw_if mbind outcome_bind].
  destruct (carry_context f f' depth n 0 (m_context t)) as (s & context & Hcarry & Hs & _ & Hok);
    try (done || lia).
  - by rewrite Z.mod_1_r.
  - intros i Hi. apply node_ext. intros j Hj. rewrite Hf'. unfold update.
    rewrite (proj2 (Z.eqb_neq _ _)); [done|]. rewrite Z2Nat.id in Hj by lia.
    pose proof (Z.mul_div_le n (2 ^ i)). pose proof (pow2_pos i). lia.
  - assert (node f' (Z.to_nat 0) (n `div` 2 ^ 0) = h) as Hfn.
    { change (f' (n `div` 1) = h). rewrite Z.div_1_r, Hf'. unfold update. by rewrite Z.eqb_refl. }
    rewrite Hfn, Z.sub_0_r in Hcarry. rewrite Hcarry. eexists. split; [done|].
    rewrite uint_id by (unfold is_uint; lia). apply (set_leaves_at f f' n); [done|lia|done|].
    intros i Hi. rewrite Hf'. unfold update. rewrite (proj2 (Z.eqb_neq _ _)) by lia. apply Hrest. lia.
Qed.

(** ** Padding *)

Lemma mod_pow_succ n j : 0 <= j -> n `mod` 2 ^ j = 0 -> Z.testbit n j = false -> n `mod` 2 ^ (j + 1) = 0.
Proof.
  intros Hj Hm Hb. pose proof (div_even n j Hj Hb) as He. pose proof (pow2_pos j Hj).
  pose proof (Z.div_mod n (2 ^ j)). rewrite (Z.pow_add_r 2 j 1) in * by lia. change (2 ^ 1) with 2 in *.
  apply Z.mod_divide; [lia|]. exists (n `div` (2 ^ j * 2)). lia.
Qed.

Lemma pad_carry_spec f fuel j rest n t :
  tree f n t -> 0 <= j <= depth + 1 -> n `mod` 2 ^ j = 0 -> 0 <= rest -> n + rest <= 2 ^ depth ->
  depth + 1 - j < Z.of_nat fuel ->
  exists rest' n' j' t', pad_carry zero fuel j rest t = Done (rest', t') /\ tree f n' t' /\
    n <= n' /\ n' + rest' = n + rest /\ 0 <= j' /\ 0 <= rest' < 2 ^ j' /\ n' `mod` 2 ^ j' = 0.
Proof.
  revert j rest n t. induction fuel as [|fuel IH]; intros j rest n t Ht Hj Hm Hr Hsum Hfuel; [lia|].
  pose proof Ht as [(Hw & Hlr & _ & H64) Hroot Hl Hc Hrange Hmax Hp Hctx Hrest].
  pose proof (pow_depth ltac:(lia)) as Hpow.
  cbn [pad_carry]. unfold bm_depth. rewrite Hroot, Hl, Hc. destruct (Z.leb_spec j depth).
  2:{ exists rest, n, j, t. do 5 (split; [done || lia|]). split; [|done].
      pose proof (Z.pow_le_mono_r 2 depth j). pose proof (Z.pow_lt_mono_r 2 depth j). lia. }
  rewrite span_pow by lia. destruct (Z.ltb_spec rest (2 ^ j)).
  { exists rest, n, j, t. do 5 (split; [done || lia|]). done. }
  pose proof (pow2_pos j ltac:(lia)).
  rewrite <- (span_pow j), span_bit by lia. rewrite span_pow by lia. destruct (Z.testbit n j) eqn:Eb.
  - rewrite level_pristine by (done || lia). cbn [mbind outcome_bind].
    destruct (carry_context f f depth n j (m_context t)) as (s & context & Hcarry & Hs & Hfc & Hok);
      try (done || lia).
    rewrite (node_rest f n t) in Hcarry; [|done|lia|].
    2:{ pose proof (Z.div_mod n (2 ^ j)). lia. }
    rewrite Hcarry. cbn [default].
    assert (j < s) as Hjs.
    { destruct Hfc as (? & Hclear & _). destruct (decide (j = s)) as [->|]; [congruence|lia]. }
    rewrite !uint_id by (unfold is_uint; lia).
    destruct (IH s (rest - 2 ^ j) (n + 2 ^ j) (set_leaves (n + 2 ^ j) context t))
      as (r' & n' & j' & t' & E & Ht' & ? & ? & ? & ? & ?); try lia.
    + apply (set_leaves_at f f n); [done|lia|done|]. intros. apply Hrest. lia.
    + rewrite (carry_sum n j s) by done. apply Z.mod_mul. pose proof (pow2_pos s). lia.
    + exists r', n', j', t'. repeat (split; [done || lia|]). done.
  - destruct (IH (j + 1) rest n t) as (r' & n' & j' & t' & E & ?); try (done || lia).
    + by apply mod_pow_succ; [lia|..].
    + exists r', n', j', t'. done.
Qed.

Lemma testbit_multiple r k i : 0 <= i <= k -> Z.testbit r k = Z.testbit (r `div` 2 ^ i) (k - i).
Proof. intros. rewrite Z.div_pow2_bits by lia. f_equal. lia. Qed.

Lemma pad_rest_spec m i rest t :
  bm_log2_leaf_size t = leaf -> pristine_wf root word (m_pristine_hashes t) -> 0 <= word <= leaf ->
  0 <= depth < 64 -> 0 <= i -> i + Z.of_nat m = depth + 1 ->
  0 <= rest < 2 ^ (depth + 1) -> rest `mod` 2 ^ i = 0 -> 0 <= m_leaf_count t -> m_leaf_count t + rest < 2 ^ 64 ->
  Z.of_nat (length (m_context t)) = depth + 1 ->
  exists context, pad_rest m i rest t = Done (set_leaves (m_leaf_count t + rest) context t) /\
    length context = length (m_context t) /\
    forall k, 0 <= k <= depth -> context_at zero context k =
      if (i <=? k) && Z.testbit rest k then pristine (pristine_root word leaf) (Z.to_nat k)
      else context_at zero (m_context t) k.
Proof.
  intros Hl Hp Hw Hd. revert i rest t Hl Hp.
  induction m as [|m IH]; intros i rest t Hl Hp Hi Him Hr Hmod Hc H64 Hlen; cbn [pad_rest].
  - assert (rest = 0) as ->.
    { rewrite Z.mod_small in Hmod; [done|]. by replace i with (depth + 1) by lia. }
    exists (m_context t). split; [rewrite Z.add_0_r; by destruct t|]. split; [done|].
    intros k Hk. rewrite Z.bits_0, andb_false_r. done.
  - rewrite span_bit by lia. pose proof (pow2_pos i Hi).
    destruct (Z.testbit rest i) eqn:Eb.
    + rewrite Hl, level_pristine by (done || lia). cbn [mbind outcome_bind]. rewrite span_pow by lia.
      assert (rest = (2 * (rest `div` 2 ^ (i + 1)) + 1) * 2 ^ i) as Hrest.
      { rewrite <- div_odd by done. pose proof (Z.div_mod rest (2 ^ i)). lia. }
      assert (2 ^ (i + 1) = 2 * 2 ^ i) as Hpow by (rewrite Z.pow_add_r by lia; lia).
      assert (2 ^ i <= rest) by (pose proof (Z.div_pos rest (2 ^ (i + 1))); nia).
      assert (2 ^ (depth + 1) <= 2 ^ 64) by (apply Z.pow_le_mono_r; lia).
      rewrite !uint_id by (unfold is_uint; lia).
      set (t1 := set_leaves _ _ _).
      destruct (IH (i + 1) (rest - 2 ^ i) t1) as (context & E & Hlc & Hk); try done; try lia.
      * apply Z.mod_divide; [lia|]. exists (rest `div` 2 ^ (i + 1)). lia.
      * cbn. lia.
      * cbn. lia.
      * cbn. by rewrite length_insert.
      * rewrite E. exists context. split; [unfold t1, set_leaves; cbn [m_leaf_count bm_log2_root_size bm_log2_leaf_size m_max_leaves m_pristine_hashes]; do 2 f_equal; lia|].
        split; [rewrite Hlc; cbn; by rewrite length_insert|]. intros k Hkd. rewrite Hk by lia.
        cbn [m_context t1 set_leaves]. rewrite context_at_insert by lia.
        destruct (Z.eqb_spec k i) as [->|Hne].
        { rewrite Eb. test (i + 1 <=? i) is false.
          by test (i <=? i) is true. }
        replace (i + 1 <=? k) with (i <=? k) by (apply eq_true_iff_eq; rewrite !Z.leb_le; lia).
        destruct (Z.leb_spec i k); [|done]. cbn [andb].
        replace (Z.testbit (rest - 2 ^ i) k) with (Z.testbit rest k); [done|].
        rewrite (testbit_multiple rest k (i + 1)), (testbit_multiple (rest - 2 ^ i) k (i + 1)) by lia.
        f_equal. replace (rest - 2 ^ i) with (rest `div` 2 ^ (i + 1) * 2 ^ (i + 1)) by lia.
        by rewrite Z.div_mul by lia.
    + destruct (IH (i + 1) rest t) as (context & E & Hlc & Hk); try (done || lia).
      * by apply mod_pow_succ.
      * exists context. split; [done|]. split; [done|]. intros k Hkd. rewrite Hk by lia.
        destruct (Z.eqb_spec k i) as [->|Hne]; [by rewrite Eb, !andb_false_r|].
        by replace (i + 1 <=? k) with (i <=? k) by (apply eq_true_iff_eq; rewrite !Z.leb_le; lia).
Qed.
Lemma pad_back_spec f n t k :
  tree f n t -> 0 <= k -> n + k <= 2 ^ depth ->
  exists t', pad_back zero t k = Done t' /\ tree f (n + k) t'.
Proof.
  intros Ht Hk Hsum. pose proof Ht as [(Hw & Hlr & H31 & H64) Hroot Hl Hc Hrange Hmax Hp Hctx Hrest].
  pose proof (pow_depth ltac:(lia)) as Hpow. unfold pad_back, bm_depth. rewrite Hmax, Hc, Hroot, Hl.
  rewrite uint_id by (unfold is_uint; lia).
  test ((2 ^ depth <? k) || (2 ^ depth <? n + k)) is false.
  cbn [throw_if mbind outcome_bind].
  destruct (pad_carry_spec f (Z.to_nat (depth + 3)) 0 k n t)
    as (rest & n' & j & t' & E & Ht' & Hn' & Hsum' & Hj & Hrj & Hm); try (done || lia); [by rewrite Z.mod_1_r|].
  rewrite E. cbn [mbind outcome_bind]. pose proof Ht' as [_ Hroot' Hl' Hc' Hrange' Hmax' Hp' [Hlen Hctx'] Hrest'].
  destruct (pad_rest_spec (Z.to_nat (depth + 1)) 0 rest t')
    as (context & E' & Hlc & Hat); try (done || lia).
  - pose proof (Z.pow_lt_mono_r 2 depth (depth + 1)). lia.
  - by rewrite Z.mod_1_r.
  - exists (set_leaves (n + k) context t'). split; [by rewrite Hroot', Hl', E', Hc', Hsum'|].
    rewrite <- Hsum'. apply (set_leaves_at f f n'); [done|lia| |intros; apply Hrest'; lia].
    split; [lia|]. intros i Hi Hb. rewrite Hat by lia.
    test (0 <=? i) is true. cbn [andb].
    assert (n' = n' `div` 2 ^ j * 2 ^ j) as Hn'j
      by (pose proof (Z.div_mod n' (2 ^ j)); pose proof (pow2_pos j Hj); lia).
    pose proof (pow2_pos i ltac:(lia)). destruct (Z.ltb_spec i j).
    + assert ((n' + rest) `div` 2 ^ i = n' `div` 2 ^ j * 2 ^ (j - i) + rest `div` 2 ^ i) as Hdiv.
      { replace (n' + rest) with (rest + n' `div` 2 ^ j * 2 ^ (j - i) * 2 ^ i).
        - rewrite Z.div_add by lia. lia.
        - rewrite <- Z.mul_assoc, <- Z.pow_add_r by lia. replace (j - i + i) with j by lia. lia. }
      assert (Z.testbit rest i = true) as Hbr.
      { rewrite testbit_div, Hdiv in Hb by lia. rewrite testbit_div by lia.
        replace (j - i) with (1 + (j - i - 1)) in Hb by lia. rewrite Z.pow_add_r in Hb by lia.
        rewrite Z.odd_add, Z.odd_mul, Z.odd_mul in Hb. cbn [Z.odd Z.pow Z.pow_pos Pos.iter Z.mul] in Hb.
        rewrite andb_false_r in Hb. by destruct (Z.odd (rest `div` 2 ^ i)). }
      rewrite Hbr. symmetry. apply (node_rest f n' t'); [done|lia|].
      rewrite Hdiv, (div_odd rest i) by (done || lia). pose proof (Z.div_pos rest (2 ^ (i + 1))).
      pose proof (pow2_pos (i + 1)). assert (n' = n' `div` 2 ^ j * 2 ^ (j - i) * 2 ^ i); [|nia].
      rewrite <- Z.mul_assoc, <- Z.pow_add_r by lia. by replace (j - i + i) with j by lia.
    + assert ((n' + rest) `div` 2 ^ i = n' `div` 2 ^ i) as Hdiv.
      { replace i with (j + (i - j)) by lia. pose proof (pow2_pos (i - j)). rewrite Z.pow_add_r by lia.
        rewrite <- !Z.div_div by lia. f_equal. rewrite Hn'j at 1. rewrite Z.add_comm, Z.div_add, Z.div_small by lia. done. }
      rewrite (testbit_above rest j i) by lia. rewrite Hdiv. apply Hctx'; [done|].
      rewrite testbit_div, <- Hdiv, <- testbit_div by lia. done.
Qed.

(** ** Roots and proofs *)

Lemma sibling_left f n t i :
  tree f n t -> 0 <= i <= depth -> Z.testbit n i = true ->
  context_at zero (m_context t) i = node f (Z.to_nat i) (Z.lxor (n `div` 2 ^ i) 1).
Proof.
  intros Ht Hi Hb. rewrite (proj2 (bt_context _ _ _ _ _ _ Ht)) by done.
  by rewrite lxor_1, <- testbit_div, Hb by lia.
Qed.

Lemma sibling_right f n t i :
  tree f n t -> 0 <= i < depth -> Z.testbit n i = false ->
  pristine_get_hash (m_pristine_hashes t) (leaf + i) = Done (node f (Z.to_nat i) (Z.lxor (n `div` 2 ^ i) 1)).
Proof.
  intros Ht Hi Hb. pose proof Ht as [(Hw & Hlr & _ & H64) _ _ _ Hrange _ Hp _ _].
  rewrite level_pristine by (done || lia). f_equal. symmetry. apply (node_rest f n t); [done|lia|].
  rewrite lxor_1, <- testbit_div, Hb by lia. pose proof (Z.mul_succ_div_gt n (2 ^ i)). pose proof (pow2_pos i). lia.
Qed.

(** The next leaf is pristine. *)
Lemma next_leaf_pristine f n t :
  tree f n t ->
  pristine_get_hash (m_pristine_hashes t) leaf = Done (node f (Z.to_nat 0) (n `div` 2 ^ 0)).
Proof.
  intros Ht. pose proof Ht as [(Hw & Hlr & _ & H64) _ _ _ Hrange _ Hp _ _].
  pose proof (level_pristine t 0 Hp ltac:(lia) ltac:(lia)) as E. rewrite Z.add_0_r in E. rewrite E. f_equal. symmetry. apply (node_rest f n t); [done|lia|]. rewrite Z.div_1_r. lia.
Qed.

Lemma root_loop_spec f n t m i :
  tree f n t -> 0 <= i -> i + Z.of_nat m = depth ->
  root_loop zero m i (node f (Z.to_nat i) (n `div` 2 ^ i)) t = Done (node f (Z.to_nat depth) (n `div` 2 ^ depth)).
Proof.
  intros Ht. pose proof Ht as [(Hw & Hlr & _ & H64) _ Hl Hc _ _ _ _ _].
  revert i. induction m as [|m IH]; intros i Hi Hm; cbn [root_loop]; [by replace i with depth by lia|].
  rewrite Hc, Hl, span_bit by lia. rewrite <- (IH (i + 1)) by lia.
  replace (Z.to_nat (i + 1)) with (S (Z.to_nat i)) by lia.
  rewrite div_pow2_succ, node_parent, <- testbit_div by lia.
  destruct (Z.testbit n i) eqn:Eb.
  - by rewrite (sibling_left f n) by (done || lia).
  - by rewrite (sibling_right f n) by (done || lia).
Qed.

Lemma get_root_hash_spec f n t :
  tree f n t -> bm_get_root_hash zero t = Done (node f (Z.to_nat depth) 0).
Proof.
  intros Ht. pose proof Ht as [(Hw & Hlr & _ & H64) Hr Hl Hc Hrange Hmax Hp [Hlen Hctx] Hrest].
  unfold bm_get_root_hash, bm_depth. rewrite Hc, Hmax, Hr, Hl.
  test (n <=? 2 ^ depth) is true. cbn [negb throw_if mbind outcome_bind].
  destruct (Z.ltb_spec n (2 ^ depth)).
  - rewrite (next_leaf_pristine f n) by done. cbn [mbind outcome_bind].
    rewrite (root_loop_spec f n) by (done || lia). by rewrite Z.div_small by lia.
  - assert (n = 2 ^ depth) as -> by lia. cbn. f_equal. pose proof (pow2_pos depth ltac:(lia)). rewrite Hctx.
    + by rewrite Z.div_same by lia.
    + lia.
    + by rewrite Z.pow2_bits_true by lia.
Qed.

Lemma next_leaf_loop_spec f n t m i p :
  tree f n t -> 0 <= i -> i + Z.of_nat m = depth ->
  proof_wf p -> m_log2_target_size p = leaf -> m_log2_root_size p = root ->
  exists q, next_leaf_loop zero m i (node f (Z.to_nat i) (n `div` 2 ^ i)) t p =
      Done (node f (Z.to_nat depth) (n `div` 2 ^ depth), q) /\
    proof_wf q /\ m_log2_target_size q = leaf /\ m_log2_root_size q = root /\
    m_target_address q = m_target_address p /\ m_target_hash q = m_target_hash p /\
    forall k, leaf <= k < root -> sibling q k =
      if leaf + i <=? k then node f (Z.to_nat (k - leaf)) (Z.lxor (n `div` 2 ^ (k - leaf)) 1) else sibling p k.
Proof.
  intros Ht. pose proof Ht as [(Hw & Hlr & _ & H64) _ Hl Hc _ _ _ _ _].
  revert i p. induction m as [|m IH]; intros i p Hi Hm Hp Hpt Hpr; cbn [next_leaf_loop].
  - exists p. replace i with depth by lia. repeat (split; [done|]). intros k Hk.
    by test (leaf + depth <=? k) is false.
  - rewrite Hc, Hl, span_bit by lia.
    destruct (set_sibling_hash_spec p (leaf + i) (node f (Z.to_nat i) (Z.lxor (n `div` 2 ^ i) 1)) Hp)
      as (p1 & E1 & Hp1 & Ht1 & Hr1 & Ha1 & Hth1 & _ & Hs1); [lia|].
    destruct (IH (i + 1) p1) as (q & E & Hq & Hqt & Hqr & Hqa & Hqh & Hqs); try (done || lia); try congruence.
    exists q. split.
    + rewrite <- E. replace (Z.to_nat (i + 1)) with (S (Z.to_nat i)) by lia.
      rewrite div_pow2_succ, node_parent, <- testbit_div by lia.
      destruct (Z.testbit n i) eqn:Eb.
      * rewrite (sibling_left f n) by (done || lia). by rewrite E1.
      * rewrite (sibling_right f n) by (done || lia). cbn [mbind outcome_bind]. by rewrite E1.
    + do 3 (split; [done|]). split; [congruence|]. split; [congruence|]. intros k Hk.
      rewrite Hqs, Hs1 by lia. destruct (Z.eqb_spec k (leaf + i)) as [->|].
      * test (leaf + (i + 1) <=? leaf + i) is false.
        test (leaf + i <=? leaf + i) is true.
        by replace (leaf + i - leaf) with i by lia.
      * by replace (leaf + (i + 1) <=? k) with (leaf + i <=? k) by (apply eq_true_iff_eq; rewrite !Z.leb_le; lia).
Qed.

Lemma next_leaf_proof_spec f n t :
  tree f n t -> n < 2 ^ depth -> 0 < root <= 64 ->
  exists q, get_next_leaf_proof zero t = Done q /\ proof_for f leaf q /\
    m_target_address q = n * 2 ^ leaf /\ m_log2_target_size q = leaf /\ m_log2_root_size q = root.
Proof.
  intros Ht Hn Hroot64. pose proof Ht as [(Hw & Hlr & _ & H64) Hr Hl Hc Hrange Hmax Hp _ Hrest].
  assert (n * 2 ^ leaf < 2 ^ root) as Hna.
  { replace root with (depth + leaf) by lia. rewrite Z.pow_add_r by lia. pose proof (pow2_pos leaf). nia. }
  unfold get_next_leaf_proof, bm_depth. rewrite Hmax, Hc, Hr, Hl.
  test (2 ^ depth <=? n) is false. cbn [throw_if mbind outcome_bind].
  unfold make_proof. test (root <=? 0) is false.
  test (leaf <? 0) is false.
  test (root <? leaf) is false.
  cbn [throw_if mbind outcome_bind mret outcome_ret].
  rewrite (next_leaf_pristine f n) by done. cbn [mbind outcome_bind].
  set (p := set_target_hash _ _).
  destruct (next_leaf_loop_spec f n t (Z.to_nat depth) 0 p) as (q & E & Hq & Hqt & Hqr & Hqa & Hqh & Hqs);
    try (done || lia).
  { constructor; cbn; rewrite ?length_replicate; lia. }
  rewrite E. cbn [mbind outcome_bind]. rewrite Z.div_small by lia.
  set (q' := set_root_hash _ _).
  assert (m_target_address q' = n * 2 ^ leaf) as Ha.
  { cbn. rewrite Hqa. cbn. rewrite Z.shiftl_mul_pow2 by lia. apply uint_id. unfold is_uint.
    pose proof (Z.pow_le_mono_r 2 root 64). pose proof (pow2_pos leaf). nia. }
  assert (proof_for f leaf q') as Hpf.
  { assert (proof_wf q') by (destruct Hq; by constructor).
    constructor; cbn [q' set_root_hash m_log2_target_size m_log2_root_size m_target_hash m_root_hash] in *; try done.
    - lia.
    - rewrite Ha, Hqr. pose proof (pow2_pos leaf). nia.
    - rewrite Ha, Hqh, Hqt. cbn [p set_target_hash m_target_hash]. rewrite div_leaf_address by lia.
      by rewrite Z.sub_diag.
    - by rewrite Hqr.
    - rewrite Hqt, Hqr. intros k Hk. rewrite (sibling_ext q) by (done || lia). rewrite Hqs by lia.
      test (leaf + 0 <=? k) is true.
      by rewrite Ha, div_leaf_address by lia. }
  rewrite (verify_spec f leaf) by done. cbn [mbind outcome_bind negb throw_if]. by exists q'.
Qed.
End spec.

(** ** Properties *)

Section properties.
Context `{i_hasher} (zero : hash_type).

(** [t] is the tree whose first leaves are [l]. *)
Definition back_tree_of (root leaf word : Z) (l : list hash_type) (t : back_merkle_tree) : Prop :=
  tree_at zero root leaf word (padded (pristine_root word leaf) l) (Z.of_nat (length l)) t.

Lemma make_back_spec root leaf word :
  0 <= word <= leaf -> leaf <= root -> word < 31 -> root - leaf < 64 ->
  exists t, make_back_merkle_tree zero root leaf word = Done t /\ back_tree_of root leaf word [] t.
Proof.
  intros Hw Hlr H31 H64. destruct (make_pristine_spec root word) as (p & Hp & Hwf); [lia|done|].
  unfold make_back_merkle_tree.
  test ((root - leaf <? 0) || (64 <=? root - leaf)) is false.
  test (64 <=? root - leaf) is false.
  test (root <? 0) is false.
  test (leaf <? 0) is false.
  test (word <? 0) is false.
  test (root <? leaf) is false.
  test (leaf <? word) is false.
  cbn [throw_if mbind outcome_bind]. rewrite Hp. cbn [mbind outcome_bind].
  eexists. split; [done|]. constructor; cbn [m_leaf_count m_max_leaves m_context m_pristine_hashes
    bm_log2_root_size bm_log2_leaf_size length]; try done; try lia.
  - apply span_pow. lia.
  - split; [rewrite length_replicate; lia|]. intros i _ Hb. by rewrite Z.bits_0 in Hb.
  - intros. apply padded_beyond. done.
Qed.

(** A new tree has no leaves; as long as there is room, pushing a leaf appends
    it and padding appends pristine leaves; beyond the size of the tree both are
    refused. *)
Theorem back_tree_leaves root leaf word :
  0 <= word <= leaf -> leaf <= root -> word < 31 -> root - leaf < 64 ->
  let size := 2 ^ (root - leaf) in
  (exists t, make_back_merkle_tree zero root leaf word = Done t /\ back_tree_of root leaf word [] t) /\
  (forall l t h, back_tree_of root leaf word l t ->
     (Z.of_nat (length l) < size ->
      exists t', push_back zero t h = Done t' /\ back_tree_of root leaf word (l ++ [h]) t') /\
     (Z.of_nat (length l) = size -> push_back zero t h = Exn (out_of_range "too many leaves"))) /\
  (forall l t n, back_tree_of root leaf word l t ->
     (Z.of_nat (length l + n) <= size ->
      exists t', pad_back zero t (Z.of_nat n) = Done t' /\
        back_tree_of root leaf word (l ++ replicate n (pristine_root word leaf)) t') /\
     (root - leaf < 63 -> Z.of_nat n < 2 ^ 64 -> size < Z.of_nat (length l + n) ->
      pad_back zero t (Z.of_nat n) = Exn (invalid_argument "too many leaves"))).
Proof.
  intros Hw Hlr H31 H64 size. pose proof (pow_depth root leaf ltac:(lia)) as Hpow. split; [|split].
  - by apply make_back_spec.
  - intros l t h Ht. split.
    + intros Hn. destruct (push_back_spec zero root leaf word _ (padded (pristine_root word leaf) (l ++ [h])) _ t h Ht)
        as (t' & E & Ht'); [done|intros; apply padded_snoc|].
      exists t'. split; [done|]. unfold back_tree_of. rewrite length_app. cbn [length].
      by replace (Z.of_nat (length l + 1)) with (Z.of_nat (length l) + 1) by lia.
    + intros Hn. unfold push_back.
      rewrite (bt_count _ _ _ _ _ _ _ Ht), (bt_max _ _ _ _ _ _ _ Ht), Hn. by rewrite Z.leb_refl.
  - intros l t n Ht. split.
    + intros Hn. destruct (pad_back_spec zero root leaf word _ _ t (Z.of_nat n) Ht) as (t' & E & Ht'); [lia|lia|].
      exists t'. split; [done|]. unfold back_tree_of. rewrite length_app, length_replicate, Nat2Z.inj_add.
      destruct Ht' as [? ? ? ? ? ? ? [Hlen Hc] Hrest]. constructor; try done.
      * split; [done|]. intros i Hi Hb. rewrite Hc by done.
        apply node_ext. intros. by rewrite padded_replicate.
      * intros i Hi. rewrite padded_replicate. by apply Hrest.
    + intros H63 Hn64 Hn. pose proof (bt_range _ _ _ _ _ _ _ Ht). unfold pad_back.
      rewrite (bt_count _ _ _ _ _ _ _ Ht), (bt_max _ _ _ _ _ _ _ Ht). fold size.
      destruct (Z.ltb_spec size (Z.of_nat n)); [done|].
      assert (size <= 2 ^ 62) by (apply Z.pow_le_mono_r; lia).
      rewrite uint_id by (unfold is_uint; lia).
      by test (size <? _) is true.
Qed.

Lemma next_leaf_tree_proof root leaf word l t :
  back_tree_of root leaf word l t -> Z.of_nat (length l) < 2 ^ (root - leaf) -> 0 < root <= 64 ->
  get_next_leaf_proof zero t =
    Done (tree_proof (padded (pristine_root word leaf) l) leaf root leaf (Z.of_nat (length l) * 2 ^ leaf)).
Proof.
  intros Ht Hn Hr. destruct (next_leaf_proof_spec zero root leaf word _ _ t Ht Hn Hr) as (q & -> & Hq & Ha & Hqt & Hqr).
  f_equal. pose proof (bt_sizes _ _ _ _ _ _ _ Ht) as (Hw & Hlr & _ & H64).
  apply (proof_for_ext _ leaf _ _ Hq); try done. apply tree_proof_for; [lia|lia|].
  assert (2 ^ root = 2 ^ (root - leaf) * 2 ^ leaf) as -> by (rewrite <- Z.pow_add_r by lia; f_equal; lia).
  pose proof (pow2_pos leaf). nia.
Qed.

(** C39: the root hash that a tree computes from its context is the root of the
    tree over all of its leaves, and the proof for the next leaf is the proof of
    the first pristine leaf in that tree. *)
Theorem back_tree_root root leaf word l t :
  back_tree_of root leaf word l t ->
  let f := padded (pristine_root word leaf) l in
  bm_get_root_hash zero t = Done (node f (Z.to_nat (root - leaf)) 0) /\
  (Z.of_nat (length l) < 2 ^ (root - leaf) -> 0 < root <= 64 ->
   get_next_leaf_proof zero t = Done (tree_proof f leaf root leaf (Z.of_nat (length l) * 2 ^ leaf))) /\
  (Z.of_nat (length l) = 2 ^ (root - leaf) -> get_next_leaf_proof zero t = Exn (out_of_range "tree is full")).
Proof.
  intros Ht f. split; [|split].
  - eapply get_root_hash_spec, Ht.
  - intros Hn Hr. by apply (next_leaf_tree_proof root leaf word).
  - intros Hn. unfold get_next_leaf_proof.
    rewrite (bt_count _ _ _ _ _ _ _ Ht), (bt_max _ _ _ _ _ _ _ Ht), Hn. by rewrite Z.leb_refl.
Qed.

(** In a tree of 2^63 leaves that is full, padding with 2^63 more leaves is
    not refused: the sum in the check wraps around, and the tree ends up with no
    leaves at all. *)
Theorem pad_back_wraps :
  exists t full t', make_back_merkle_tree zero 63 0 0 = Done t /\
    pad_back zero t (2 ^ 63) = Done full /\ m_leaf_count full = m_max_leaves full /\
    pad_back zero full (2 ^ 63) = Done t' /\ m_leaf_count t' = 0.
Proof.
  destruct (make_back_spec 63 0 0) as (t & Ht & Hnew); [lia|lia|lia|lia|].
  destruct (pad_back_spec zero 63 0 0 _ _ t (2 ^ 63) Hnew) as (full & Hf & Hfull); [lia|cbn; lia|].
  exists t, full. destruct Hfull as [_ Hr Hl Hc _ Hm [Hpr Hpw _] _ _]. destruct full as [r l c m ctx [pr pw hashes]].
  cbn in Hr, Hl, Hc, Hm, Hpr, Hpw. subst r l c m pr pw.
  eexists. split; [done|]. split; [done|]. split; [done|]. split; vm_compute; reflexivity.
Qed.
End properties.

(** ** Examples *)

#[local] Existing Instance free_hasher.

Definition no_hash : hash_type := [].
Definition one_leaf : hash_type := [1].

Lemma back_tree_leaves_witness :
  exists t, make_back_merkle_tree no_hash 5 3 3 = Done t /\ back_tree_of no_hash 5 3 3 [] t.
Proof. apply (back_tree_leaves no_hash 5 3 3); lia. Defined.

Lemma back_tree_root_witness :
  exists t t', make_back_merkle_tree no_hash 5 3 3 = Done t /\ push_back no_hash t one_leaf = Done t' /\
    bm_get_root_hash no_hash t' = Done (node (padded (pristine_root 3 3) [one_leaf]) 2 0).
Proof.
  destruct (make_back_spec no_hash 5 3 3) as (t & Ht & Hnew); [lia|lia|lia|lia|].
  destruct (push_back_spec no_hash 5 3 3 _ (padded (pristine_root 3 3) [one_leaf]) 0 t one_leaf Hnew)
    as (t' & Hp & Ht'); [cbn; lia|intros; apply (padded_snoc (pristine_root 3 3) [])|].
  exists t, t'. split; [done|]. split; [done|].
  apply (back_tree_root no_hash 5 3 3 [one_leaf] t'). exact Ht'.
Defined.
