(* ===== verification/CompleteMerkleTree.v ===== *)
(** * Complete Merkle trees (complete-merkle-tree.h, complete-merkle-tree.cpp)

    A tree whose first leaves are set and whose other leaves are pristine, stored
    as the nodes of each level that are not pristine.  Level [k] of a tree with
    [n] leaves holds its first [width n k] nodes, which cover all of the leaves
    that are set. *)

From S2P Require Import Prelude CppInt Hasher MerkleProof PristineMerkleTree.

Section complete_tree.
Context `{i_hasher}.
(** The value of a [hash_type] without a value *)
Context (zero : hash_type).

(** [ct_tree] lists the levels from the root to the leaves, as [m_tree] does. *)
Record complete_merkle_tree := CompleteMerkleTree {
  ct_log2_root_size : Z;
  ct_log2_leaf_size : Z;
  ct_pristine : pristine_merkle_tree;
  ct_tree : list (list hash_type);
}.

Definition check_log2_sizes (log2_root_size log2_leaf_size log2_word_size : Z) : outcome unit :=
  throw_if (log2_root_size <? 0) (out_of_range "log2_root_size is negative") ≫= fun _ =>
  throw_if (log2_leaf_size <? 0) (out_of_range "log2_leaf_size is negative") ≫= fun _ =>
  throw_if (log2_word_size <? 0) (out_of_range "log2_word_size is negative") ≫= fun _ =>
  throw_if (log2_root_size <? log2_leaf_size)
    (out_of_range "log2_leaf_size is greater than log2_root_size") ≫= fun _ =>
  throw_if (log2_leaf_size <? log2_word_size)
    (out_of_range "log2_word_size is greater than log2_word_size") ≫= fun _ =>
  throw_if (64 <=? log2_root_size) (out_of_range "tree is too large for address type").

Definition make_complete_merkle_tree (log2_root_size log2_leaf_size log2_word_size : Z) :
    outcome complete_merkle_tree :=
  pristine ← make_pristine_merkle_tree log2_root_size log2_word_size;
  check_log2_sizes log2_root_size log2_leaf_size log2_word_size ≫= fun _ =>
  mret (CompleteMerkleTree log2_root_size log2_leaf_size pristine
    (replicate (Z.to_nat (Z.max 0 (log2_root_size - log2_leaf_size + 1))) [])).

(** The position of a level in [m_tree] *)
Definition level_index (t : complete_merkle_tree) (log2_size : Z) : outcome nat :=
  throw_if ((log2_size <? ct_log2_leaf_size t) || (ct_log2_root_size t <? log2_size))
    (out_of_range "log2_size is out of bounds") ≫= fun _ =>
  mret (Z.to_nat (ct_log2_root_size t - log2_size)).

Definition get_level (t : complete_merkle_tree) (log2_size : Z) : outcome (list hash_type) :=
  i ← level_index t log2_size; mret (nth i (ct_tree t) []).

(** The effect of changes through the reference that [get_level] returns *)
Definition set_level (log2_size : Z) (level : list hash_type) (t : complete_merkle_tree) :
    outcome complete_merkle_tree :=
  i ← level_index t log2_size;
  mret (CompleteMerkleTree (ct_log2_root_size t) (ct_log2_leaf_size t) (ct_pristine t) (<[i := level]> (ct_tree t))).

Definition ct_get_node_hash (t : complete_merkle_tree) (address log2_size : Z) : outcome hash_type :=
  level ← get_level t log2_size;
  let address := Z.shiftr address log2_size in
  throw_if (uint64 (Z.shiftl 1 (ct_log2_root_size t - log2_size)) <=? address)
    (out_of_range "log2_size is out of bounds") ≫= fun _ =>
  if address <? Z.of_nat (length level) then mret (nth (Z.to_nat address) level zero)
  else pristine_get_hash (ct_pristine t) log2_size.

Definition ct_get_root_hash (t : complete_merkle_tree) : outcome hash_type :=
  ct_get_node_hash t 0 (ct_log2_root_size t).

(** [std::vector::resize] *)
Definition resize (n : nat) (l : list hash_type) : list hash_type :=
  take n l ++ replicate (n - length l) zero.

(** The loop over the entries with two children that are not pristine *)
Fixpoint redo_entries (n first_entry : nat) (prev next : list hash_type) : list hash_type :=
  match n with
  | O => next
  | S n =>
      redo_entries n (S first_entry) prev
        (<[first_entry := get_concat_hash (nth (2 * first_entry) prev zero) (nth (2 * first_entry + 1) prev zero)]> next)
  end.

(** The next level, from the previous one and the hash of its pristine nodes *)
Definition next_level (pristine : outcome hash_type) (prev next : list hash_type) : outcome (list hash_type) :=
  let first_entry := (if bool_decide (next = []) then length next else length next - 1)%nat in
  let next := resize ((length prev + 1) / 2) next in
  throw_if (negb (first_entry <=? length next)%nat) (assertion_failure "first_entry <= next.size()") ≫= fun _ =>
  let last_safe_entry := (length prev / 2)%nat in
  let next := redo_entries (last_safe_entry - first_entry) first_entry prev next in
  if (2 * last_safe_entry <? length prev)%nat then
    p ← pristine;
    mret (<[last_safe_entry := get_concat_hash (nth (length prev - 1) prev zero) p]> next)
  else mret next.

(** The loop of [bubble_up], of [n] iterations from size [log2_next_size] *)
Fixpoint bubble_levels (n : nat) (log2_next_size : Z) (t : complete_merkle_tree) : outcome complete_merkle_tree :=
  match n with
  | O => Done t
  | S n =>
      let log2_prev_size := log2_next_size - 1 in
      prev ← get_level t log2_prev_size;
      next ← get_level t log2_next_size;
      next ← next_level (pristine_get_hash (ct_pristine t) log2_prev_size) prev next;
      t ← set_level log2_next_size next t;
      bubble_levels n (log2_next_size + 1) t
  end.

Definition ct_bubble_up (t : complete_merkle_tree) : outcome complete_merkle_tree :=
  bubble_levels (Z.to_nat (ct_log2_root_size t - ct_log2_leaf_size t)) (ct_log2_leaf_size t + 1) t.

(** The constructor from a vector of leaves *)
Definition make_complete_merkle_tree_from (log2_root_size log2_leaf_size log2_word_size : Z) (leaves : list hash_type) :
    outcome complete_merkle_tree :=
  t ← make_complete_merkle_tree log2_root_size log2_leaf_size log2_word_size;
  t ← set_level (ct_log2_leaf_size t) leaves t;
  ct_bubble_up t.

Definition ct_push_back (t : complete_merkle_tree) (hash : hash_type) : outcome complete_merkle_tree :=
  leaves ← get_level t (ct_log2_leaf_size t);
  throw_if (uint64 (Z.shiftl 1 (ct_log2_root_size t - ct_log2_leaf_size t)) <=? Z.of_nat (length leaves))
    (out_of_range "tree is full") ≫= fun _ =>
  t ← set_level (ct_log2_leaf_size t) (leaves ++ [hash]) t;
  ct_bubble_up t.

Definition ct_size (t : complete_merkle_tree) : outcome Z :=
  leaves ← get_level t (ct_log2_leaf_size t); mret (Z.of_nat (length leaves)).

(** The loop of [get_proof], over the [n] sizes from [log2_sibling_size] *)
Fixpoint proof_siblings (get_node_hash : Z -> Z -> outcome hash_type) (n : nat) (address log2_sibling_size : Z)
    (proof : merkle_tree_proof) : outcome merkle_tree_proof :=
  match n with
  | O => Done proof
  | S n =>
      let sibling_address := Z.lxor address (uint64 (Z.shiftl 1 log2_sibling_size)) in
      h ← get_node_hash sibling_address log2_sibling_size;
      proof ← set_sibling_hash h log2_sibling_size proof;
      proof_siblings get_node_hash n address (log2_sibling_size + 1) proof
  end.

Definition ct_get_proof (t : complete_merkle_tree) (address log2_size : Z) : outcome merkle_tree_proof :=
  throw_if ((log2_size <? ct_log2_leaf_size t) || (ct_log2_root_size t <? log2_size))
    (out_of_range "log2_size is out of bounds") ≫= fun _ =>
  let aligned_address := uint64 (Z.shiftl (Z.shiftr address log2_size) log2_size) in
  throw_if (negb (address =? aligned_address)) (out_of_range "address is misaligned") ≫= fun _ =>
  proof ← make_proof zero (ct_log2_root_size t) log2_size;
  root ← ct_get_root_hash t;
  let proof := set_target_address address (set_root_hash root proof) in
  target ← ct_get_node_hash t address log2_size;
  let proof := set_target_hash target proof in
  proof_siblings (ct_get_node_hash t) (Z.to_nat (ct_log2_root_size t - log2_size)) address log2_size proof.
End complete_tree.
Arguments complete_merkle_tree {_}.

(** ** The number of entries of a level *)

Fixpoint width (n k : nat) : nat :=
  match k with O => n | S k => (width n k + 1) / 2 end.

Lemma width_covers n k : Z.of_nat n <= Z.of_nat (width n k) * 2 ^ Z.of_nat k.
Proof.
  induction k as [|k IH]; [cbn; lia|]. rewrite Nat2Z.inj_succ, Z.pow_succ_r by lia. cbn [width].
  pose proof (pow2_pos (Z.of_nat k) ltac:(lia)).
  assert (Z.of_nat (width n k) <= 2 * Z.of_nat ((width n k + 1) / 2)); [|nia].
  rewrite Nat2Z.inj_div. Z.div_mod_to_equations. lia.
Qed.

Lemma width_last n k : (0 < n)%nat -> (Z.of_nat (width n k) - 1) * 2 ^ Z.of_nat k < Z.of_nat n.
Proof.
  intros Hn. induction k as [|k IH]; [cbn; lia|]. rewrite Nat2Z.inj_succ, Z.pow_succ_r by lia. cbn [width].
  pose proof (pow2_pos (Z.of_nat k) ltac:(lia)).
  assert (2 * (Z.of_nat ((width n k + 1) / 2) - 1) <= Z.of_nat (width n k) - 1); [|nia].
  rewrite Nat2Z.inj_div. Z.div_mod_to_equations. lia.
Qed.

Lemma width_0 k : width 0 k = 0%nat.
Proof. induction k as [|k IH]; [done|]. cbn [width]. by rewrite IH. Qed.

Lemma width_mono n m k : (n <= m)%nat -> (width n k <= width m k)%nat.
Proof. intros. induction k as [|k IH]; [done|]. cbn [width]. apply Nat.Div0.div_le_mono. lia. Qed.

Section spec.
Context `{i_hasher} (zero : hash_type).
Implicit Types t : complete_merkle_tree.

(** ** One level *)

Definition level (f : Z -> hash_type) (n k : nat) : list hash_type :=
  map (fun i => node f k (Z.of_nat i)) (seq 0 (width n k)).

Lemma length_level f n k : length (level f n k) = width n k.
Proof. unfold level. by rewrite length_map, length_seq. Qed.

Lemma nth_level f n k i d : (i < width n k)%nat -> nth i (level f n k) d = node f k (Z.of_nat i).
Proof.
  intros Hi. apply nth_lookup_Some. unfold level. by rewrite list_lookup_fmap, lookup_seq_lt.
Qed.

Lemma list_level f n k (l : list hash_type) :
  length l = width n k -> (forall i, (i < width n k)%nat -> nth i l zero = node f k (Z.of_nat i)) -> l = level f n k.
Proof.
  intros Hlen Hl. apply (nth_ext _ _ zero zero); [by rewrite length_level|].
  intros i Hi. rewrite Hl, nth_level by lia. done.
Qed.

Lemma resize_spec n l :
  length (resize zero n l) = n /\
  forall i, (i < n)%nat -> (i < length l)%nat -> nth i (resize zero n l) zero = nth i l zero.
Proof.
  unfold resize. split.
  - rewrite length_app, length_take, length_replicate. lia.
  - intros i Hi Hl. rewrite app_nth1 by (rewrite length_take; lia). by rewrite !nth_lookup, lookup_take_lt.
Qed.

Lemma redo_entries_spec m first prev next :
  (first + m <= length next)%nat ->
  length (redo_entries zero m first prev next) = length next /\
  forall i, nth i (redo_entries zero m first prev next) zero =
    if (first <=? i)%nat && (i <? first + m)%nat
    then get_concat_hash (nth (2 * i) prev zero) (nth (2 * i + 1) prev zero) else nth i next zero.
Proof.
  revert first next. induction m as [|m IH]; intros first next Hm; cbn [redo_entries].
  - split; [done|]. intros i. destruct (Nat.leb_spec first i), (Nat.ltb_spec i (first + 0)); cbn; done || lia.
  - destruct (IH (S first) (<[first := get_concat_hash (nth (2 * first) prev zero) (nth (2 * first + 1) prev zero)]> next))
      as [Hlen Hnth]; [rewrite length_insert; lia|].
    split; [by rewrite Hlen, length_insert|]. intros i. rewrite Hnth.
    destruct (decide (i = first)) as [->|Hne].
    + rewrite nth_insert by lia.
      destruct (Nat.leb_spec (S first) first), (Nat.leb_spec first first), (Nat.ltb_spec first (first + S m)); cbn; done || lia.
    + rewrite nth_insert_ne by done.
      destruct (Nat.leb_spec (S first) i), (Nat.leb_spec first i), (Nat.ltb_spec i (S first + m)),
        (Nat.ltb_spec i (first + S m)); cbn; done || lia.
Qed.

(** A level that may be redone: all of its entries but the last are right. *)
Definition stale (f : Z -> hash_type) (n k : nat) (l : list hash_type) : Prop :=
  (length l <= width n k)%nat /\
  forall i, (S i < length l)%nat -> nth i l zero = node f k (Z.of_nat i).

Lemma next_level_spec f n k p next :
  (forall i, Z.of_nat n <= i -> f i = p) -> stale f n (S k) next ->
  next_level zero (Done (pristine p k)) (level f n k) next = Done (level f n (S k)).
Proof.
  intros Hrest [Hlen Hstale]. unfold next_level. rewrite length_level. fold (width n (S k)).
  set (first := (if bool_decide _ then _ else _)).
  set (w := width n k) in *. set (W := width n (S k)) in *. assert (W = (w + 1) / 2)%nat as HW by done. rewrite <- HW.
  assert (first <= W /\ forall i, (i < first)%nat -> (S i < length next)%nat)%nat as [Hfirst Hbefore].
  { subst first. case_bool_decide as Hnil; [subst next; cbn; split; [lia|cbn; lia]|split; lia]. }
  destruct (resize_spec W next) as [Hrl Hrn]. rewrite Hrl.
  replace (first <=? W)%nat with true by (symmetry; apply Nat.leb_le; lia). cbn [negb throw_if mbind outcome_bind].
  assert (w / 2 <= W <= w / 2 + 1)%nat as Hsafe by (rewrite HW; split; [apply Nat.Div0.div_le_mono; lia|];
    apply (Nat.le_trans _ ((w + 1 * 2) / 2)); [apply Nat.Div0.div_le_mono; lia|rewrite Nat.div_add by lia; lia]).
  pose proof (Nat.div_mod_eq w 2) as Hw. pose proof (Nat.mod_upper_bound w 2 ltac:(lia)) as Hmod.
  pose proof (Nat.div_mod_eq (w + 1) 2) as Hw1. pose proof (Nat.mod_upper_bound (w + 1) 2 ltac:(lia)) as Hmod1.
  destruct (redo_entries_spec (w / 2 - first) first (level f n k) (resize zero W next)) as [Hel Hen]; [lia|].
  assert (forall i, (i < w / 2)%nat ->
    nth i (redo_entries zero (w / 2 - first) first (level f n k) (resize zero W next)) zero = node f (S k) (Z.of_nat i))
    as Hsafe_entries.
  { intros i Hi. rewrite Hen. replace (first + (w / 2 - first))%nat with (Nat.max first (w / 2)) by lia.
    destruct (Nat.leb_spec first i).
    - replace (i <? Nat.max first (w / 2))%nat with true by (symmetry; apply Nat.ltb_lt; lia). cbn [andb].
      rewrite !nth_level by (fold w; lia). cbn [node]. f_equal; f_equal; lia.
    - cbn [andb]. pose proof (Hbefore i ltac:(lia)). rewrite Hrn by lia. by apply Hstale. }
  destruct (Nat.ltb_spec (2 * (w / 2)) w).
  - cbn [mbind outcome_bind]. cbv [mret outcome_ret]. f_equal. apply list_level.
    + rewrite length_insert, Hel. done.
    + intros i Hi. destruct (decide (i = w / 2)%nat) as [->|].
      * rewrite nth_insert by (rewrite Hel; lia). rewrite nth_level by (fold w; lia). cbn [node]. f_equal; [f_equal; lia|].
        symmetry. apply node_pristine. intros j Hj. apply Hrest. pose proof (width_covers n k). fold w in H1. nia.
      * rewrite nth_insert_ne by done. apply Hsafe_entries. fold W in Hi. lia.
  - cbv [mret outcome_ret]. f_equal. apply list_level; [rewrite Hel; done|].
    intros i Hi. apply Hsafe_entries. fold W in Hi. lia.
Qed.
(** ** Trees *)

Context (root leaf word : Z).
Notation p := (pristine_root word leaf).

(** The shape of a tree; [lvl t k] is the level of the nodes over [2^k] leaves. *)
Record shape t : Prop := {
  cs_root : ct_log2_root_size t = root;
  cs_leaf : ct_log2_leaf_size t = leaf;
  cs_pristine : pristine_wf root word (ct_pristine t);
  cs_levels : Z.of_nat (length (ct_tree t)) = root - leaf + 1;
}.

Definition sizes_ok : Prop := 0 <= word <= leaf /\ leaf <= root /\ root < 64 /\ word < 31.

Definition depth : nat := Z.to_nat (root - leaf).

Definition lvl t (k : nat) : list hash_type := nth (depth - k) (ct_tree t) [].

(** The levels up to [K] are those of the leaves [f], of which [n] are set, and the
    others may be redone. *)
Definition levels_upto (f : Z -> hash_type) (n K : nat) t : Prop :=
  (forall k, (k <= K)%nat -> lvl t k = level f n k) /\
  (forall k, (K < k <= depth)%nat -> stale f n k (lvl t k)).

Lemma level_index_spec t k :
  shape t -> sizes_ok -> (k <= depth)%nat -> level_index t (leaf + Z.of_nat k) = Done (depth - k)%nat.
Proof.
  intros [<- <- _ _] (_ & Hlr & _) Hk. unfold level_index, depth in *. test (_ || _) is false.
  cbn. f_equal. lia.
Qed.

Lemma get_level_spec t k :
  shape t -> sizes_ok -> (k <= depth)%nat -> get_level t (leaf + Z.of_nat k) = Done (lvl t k).
Proof. intros. unfold get_level. by rewrite level_index_spec. Qed.

Lemma set_level_spec t k l :
  shape t -> sizes_ok -> (k <= depth)%nat ->
  exists t', set_level (leaf + Z.of_nat k) l t = Done t' /\ shape t' /\
    forall j, (j <= depth)%nat -> lvl t' j = if decide (j = k) then l else lvl t j.
Proof.
  intros Ht Hs Hk. unfold set_level. rewrite level_index_spec by done. cbn [mbind outcome_bind].
  eexists. split; [done|]. destruct Ht as [Hr Hl Hp Hlen]. split.
  - constructor; try done. cbn. by rewrite length_insert.
  - intros j Hj. unfold lvl. cbn [ct_tree]. case_decide as Hjk.
    + subst. apply nth_insert. unfold depth in *. destruct Hs as (_ & ? & _). lia.
    + apply nth_insert_ne. lia.
Qed.

Lemma ct_level_pristine t k :
  shape t -> sizes_ok -> (k <= depth)%nat ->
  pristine_get_hash (ct_pristine t) (leaf + Z.of_nat k) = Done (pristine p k).
Proof.
  intros [_ _ Hp _] (Hw & Hlr & _) Hk. unfold depth in Hk.
  rewrite (pristine_get_hash_spec root word) by (done || lia). f_equal.
  unfold pristine_root. rewrite pristine_add. f_equal. lia.
Qed.

Lemma bubble_levels_spec f n m K t :
  sizes_ok -> shape t -> (forall i, Z.of_nat n <= i -> f i = p) -> (K + m = depth)%nat -> levels_upto f n K t ->
  exists t', bubble_levels zero m (leaf + Z.of_nat K + 1) t = Done t' /\ shape t' /\ levels_upto f n depth t'.
Proof.
  intros Hs Ht Hrest. revert K t Ht. induction m as [|m IH]; intros K t Ht HK [Hdone Hstale]; cbn [bubble_levels].
  - exists t. split; [done|]. split; [done|]. replace depth with K by lia. split; [done|]. intros; lia.
  - replace (leaf + Z.of_nat K + 1 - 1) with (leaf + Z.of_nat K) by lia.
    replace (leaf + Z.of_nat K + 1) with (leaf + Z.of_nat (S K)) by lia.
    rewrite !get_level_spec by (done || lia). cbn [mbind outcome_bind].
    rewrite ct_level_pristine by (done || lia). rewrite Hdone by lia.
    rewrite next_level_spec by (done || (apply Hstale; lia)). cbn [mbind outcome_bind].
    destruct (set_level_spec t (S K) (level f n (S K)) Ht Hs) as (t1 & -> & Ht1 & Hl1); [lia|].
    cbn [mbind outcome_bind]. replace (leaf + Z.of_nat (S K) + 1) with (leaf + Z.of_nat (S K) + 1) by done.
    apply IH; [done|lia|]. split; intros k Hk; rewrite Hl1 by lia; case_decide; subst; try done; try lia.
    + apply Hdone. lia.
    + apply Hstale. lia.
Qed.

(** [t] is the tree whose first leaves are [l]. *)
Definition complete_tree_of (l : list hash_type) t : Prop :=
  sizes_ok /\ shape t /\ (Z.of_nat (length l) <= 2 ^ (root - leaf)) /\
  levels_upto (padded p l) (length l) depth t.

(** Replacing the leaves by others that agree with them on the full subtrees *)
Lemma bubble_up_from f n t l l' :
  sizes_ok -> shape t -> levels_upto f n depth t -> (n <= length l')%nat ->
  (forall i, 0 <= i < Z.of_nat n -> f i = padded p l' i) -> l = l' ->
  exists t0 t', set_level leaf l t = Done t0 /\ ct_bubble_up zero t0 = Done t' /\ shape t' /\
    levels_upto (padded p l') (length l') depth t'.
Proof.
  intros Hs Ht [Hl _] Hn Hf ->.
  destruct (set_level_spec t 0 l' Ht Hs) as (t0 & E0 & Ht0 & Hl0); [lia|].
  rewrite Z.add_0_r in E0.
  destruct (bubble_levels_spec (padded p l') (length l') depth 0 t0) as (t' & E & Ht' & Hlv); try done.
  - intros i Hi. by apply padded_beyond.
  - split.
    + intros k Hk. replace k with 0%nat by lia. rewrite Hl0 by lia. case_decide; [|done].
      apply list_level; [done|]. intros i Hi. cbn [node]. unfold padded.
      test (Z.of_nat i <? 0) is false. rewrite Nat2Z.id. apply nth_indep. done.
    + intros k Hk. rewrite Hl0 by lia. case_decide; [lia|]. rewrite Hl by lia. split.
      * rewrite length_level. by apply width_mono.
      * rewrite length_level. intros i Hi. rewrite nth_level by lia.
        assert (0 < n)%nat as Hpos by (destruct n; [rewrite width_0 in Hi; lia|lia]).
        apply node_ext. intros j Hj. apply Hf. pose proof (width_last n k Hpos).
        pose proof (pow2_pos (Z.of_nat k) ltac:(lia)). nia.
  - exists t0, t'. split; [done|]. split; [|done]. unfold ct_bubble_up.
    destruct Ht0 as [-> -> _ _]. by rewrite Z.add_0_r in E.
Qed.

Lemma span_depth k : sizes_ok -> 0 <= k <= root - leaf -> uint64 (Z.shiftl 1 k) = 2 ^ k.
Proof.
  intros (? & ? & ? & _) Hk. rewrite Z.shiftl_1_l. apply uint_id. unfold is_uint.
  split; [apply Z.pow_nonneg; lia|apply Z.pow_lt_mono_r; lia].
Qed.

Lemma get_leaves_spec t : shape t -> sizes_ok -> get_level t leaf = Done (lvl t 0).
Proof. intros. rewrite <- (Z.add_0_r leaf). apply (get_level_spec t 0); [done|done|lia]. Qed.

Lemma get_node_hash_spec l t a k :
  complete_tree_of l t -> leaf <= k <= root -> 0 <= a < 2 ^ root ->
  ct_get_node_hash zero t a k = Done (node (padded p l) (Z.to_nat (k - leaf)) (a `div` 2 ^ k)).
Proof.
  intros (Hs & Ht & Hl & [Hlv _]) Hk Ha. pose proof Hs as (Hw & Hlr & H64 & _).
  unfold ct_get_node_hash. set (j := Z.to_nat (k - leaf)).
  assert (j <= depth)%nat as Hj by (unfold depth; lia).
  pose proof (get_level_spec t j Ht Hs Hj) as El. pose proof (ct_level_pristine t j Ht Hs Hj) as Ep.
  replace (leaf + Z.of_nat j) with k in El, Ep by lia. rewrite El, Ep. cbn [mbind outcome_bind].
  rewrite Hlv, length_level by lia. rewrite (cs_root _ Ht), Z.shiftr_div_pow2 by lia.
  assert (2 ^ (root - k) < 2 ^ 64) by (apply Z.pow_lt_mono_r; lia). pose proof (pow2_pos (root - k) ltac:(lia)).
  rewrite Z.shiftl_1_l, uint_id by (unfold is_uint; lia).
  assert (0 <= a `div` 2 ^ k < 2 ^ (root - k)) as Hq.
  { pose proof (pow2_pos k ltac:(lia)). split; [apply Z.div_pos; lia|]. apply Z.div_lt_upper_bound; [lia|].
    rewrite <- Z.pow_add_r by lia. replace (k + (root - k)) with root by lia. lia. }
  test (2 ^ (root - k) <=? a `div` 2 ^ k) is false. cbn [throw_if mbind outcome_bind].
  destruct (Z.ltb_spec (a `div` 2 ^ k) (Z.of_nat (width (length l) j))).
  - rewrite nth_level by lia. cbv [mret outcome_ret]. do 2 f_equal. lia.
  - f_equal. symmetry. apply node_beyond. pose proof (width_covers (length l) j).
    pose proof (pow2_pos (Z.of_nat j) ltac:(lia)). nia.
Qed.

Lemma get_node_hash_past_end l t a k :
  complete_tree_of l t -> leaf <= k <= root -> 2 ^ root <= a ->
  ct_get_node_hash zero t a k = Exn (out_of_range "log2_size is out of bounds").
Proof.
  intros (Hs & [Hr Hl _ _] & _) Hk Ha. pose proof Hs as (Hw & Hlr & H64 & _).
  unfold ct_get_node_hash, get_level, level_index. rewrite Hr, Hl.
  test ((k <? leaf) || (root <? k)) is false. cbn [throw_if mbind outcome_bind mret outcome_ret].
  assert (2 ^ (root - k) <= a `div` 2 ^ k) as Hq.
  { pose proof (pow2_pos k ltac:(lia)). apply Z.div_le_lower_bound; [lia|].
    rewrite <- Z.pow_add_r by lia. replace (k + (root - k)) with root by lia. lia. }
  assert (2 ^ (root - k) < 2 ^ 64) by (apply Z.pow_lt_mono_r; lia).
  pose proof (pow2_pos (root - k) ltac:(lia)).
  rewrite Z.shiftl_1_l, uint_id, Z.shiftr_div_pow2 by (unfold is_uint; lia).
  by test (2 ^ (root - k) <=? a `div` 2 ^ k) is true.
Qed.

Lemma complete_push_back_spec l t h :
  complete_tree_of l t -> Z.of_nat (length l) < 2 ^ (root - leaf) ->
  exists t', ct_push_back zero t h = Done t' /\ complete_tree_of (l ++ [h]) t'.
Proof.
  intros (Hs & Ht & Hl & Hlv) Hn. unfold ct_push_back.
  pose proof Ht as [Hr Hle _ _]. pose proof Hs as (_ & Hlr & _). rewrite Hr, Hle, get_leaves_spec by done.
  cbn [mbind outcome_bind]. rewrite span_depth by (done || lia).
  rewrite (proj1 Hlv) by lia. rewrite length_level. cbn [width].
  test (2 ^ (root - leaf) <=? Z.of_nat (length l)) is false. cbn [throw_if mbind outcome_bind].
  destruct (bubble_up_from (padded p l) (length l) t (level (padded p l) (length l) 0 ++ [h]) (l ++ [h]))
    as (t0 & t' & E0 & E1 & Ht' & Hlv'); try done.
  - rewrite length_app. lia.
  - intros i Hi. rewrite padded_snoc. unfold update. by rewrite (proj2 (Z.eqb_neq _ _)) by lia.
  - f_equal. symmetry. apply list_level; [done|]. intros i Hi. cbn [node]. unfold padded.
    test (Z.of_nat i <? 0) is false. rewrite Nat2Z.id. apply nth_indep. done.
  - exists t'. rewrite E0. split; [done|]. split; [done|]. split; [done|]. split; [|done]. rewrite length_app. cbn. lia.
Qed.
(** ** Constructors *)

Lemma check_log2_sizes_spec : sizes_ok -> check_log2_sizes root leaf word = Done tt.
Proof.
  intros (Hw & Hlr & H64 & _). unfold check_log2_sizes.
  test (root <? 0) is false. test (leaf <? 0) is false. test (word <? 0) is false.
  test (root <? leaf) is false. test (leaf <? word) is false. by test (64 <=? root) is false.
Qed.

Lemma make_complete_spec :
  sizes_ok -> exists t, make_complete_merkle_tree root leaf word = Done t /\ complete_tree_of [] t.
Proof.
  intros Hs. pose proof Hs as (Hw & Hlr & H64 & H31). unfold make_complete_merkle_tree.
  destruct (make_pristine_spec root word) as (pt & -> & Hp); [lia|done|]. cbn [mbind outcome_bind].
  rewrite check_log2_sizes_spec by done. cbn [mbind outcome_bind]. eexists. split; [done|].
  split; [done|]. split; [constructor; cbn; rewrite ?length_replicate; done || lia|].
  split; [cbn; pose proof (pow2_pos (root - leaf)); lia|].
  assert (forall k, level (padded p []) 0 k = []) as Hnil by (intros; unfold level; by rewrite width_0).
  split; [|intros; lia]. intros k Hk. unfold lvl. cbn [ct_tree length]. rewrite Hnil. apply nth_replicate_same.
Qed.

Lemma make_complete_from_spec l :
  sizes_ok -> Z.of_nat (length l) <= 2 ^ (root - leaf) ->
  exists t, make_complete_merkle_tree_from zero root leaf word l = Done t /\ complete_tree_of l t.
Proof.
  intros Hs Hl. unfold make_complete_merkle_tree_from.
  destruct (make_complete_spec Hs) as (t & -> & _ & Ht & _ & Hlv). cbn [mbind outcome_bind].
  rewrite (cs_leaf _ Ht).
  destruct (bubble_up_from (padded p []) 0 t l l) as (t0 & t' & E0 & E1 & Ht' & Hlv'); try (done || (cbn; lia)).
  rewrite E0. exists t'. split; [done|]. done.
Qed.
End spec.

(** ** Proofs read from the nodes of a tree *)

Section proofs.
Context `{i_hasher} (zero : hash_type).
Context (get_node_hash : Z -> Z -> outcome hash_type) (f : Z -> hash_type) (base root : Z).
Context (Hnode : forall a k, base <= k <= root -> 0 <= a < 2 ^ root ->
  get_node_hash a k = Done (node f (Z.to_nat (k - base)) (a `div` 2 ^ k))).
Context (Hbase : 0 <= base) (Hroot : root < 64).

Lemma sibling_address a k :
  0 <= k < root -> 0 <= a < 2 ^ root ->
  0 <= Z.lxor a (2 ^ k) < 2 ^ root /\ Z.lxor a (2 ^ k) `div` 2 ^ k = Z.lxor (a `div` 2 ^ k) 1.
Proof.
  intros Hk Ha. split.
  - apply (lxor_uint root); unfold is_uint; [lia|done|].
    split; [apply Z.pow_nonneg|apply Z.pow_lt_mono_r]; lia.
  - rewrite <- !Z.shiftr_div_pow2, Z.shiftr_lxor by lia. f_equal.
    rewrite Z.shiftr_div_pow2 by lia. pose proof (pow2_pos k). by rewrite Z.div_same by lia.
Qed.

Lemma proof_siblings_spec n a k q :
  proof_wf q -> 0 <= a < 2 ^ root -> base <= m_log2_target_size q <= k ->
  m_log2_root_size q = root -> k + Z.of_nat n = root ->
  exists q', proof_siblings get_node_hash n a k q = Done q' /\ proof_wf q' /\
    m_log2_target_size q' = m_log2_target_size q /\ m_log2_root_size q' = root /\
    m_target_address q' = m_target_address q /\ m_target_hash q' = m_target_hash q /\
    m_root_hash q' = m_root_hash q /\
    forall j, m_log2_target_size q <= j < root -> sibling q' j =
      if k <=? j then node f (Z.to_nat (j - base)) (Z.lxor (a `div` 2 ^ j) 1) else sibling q j.
Proof.
  intros Hq Ha. revert k q Hq. induction n as [|n IH]; intros k q Hq Hk Hr Hn; cbn [proof_siblings].
  - exists q. repeat (split; [done|]). intros j Hj. by test (k <=? j) is false.
  - assert (2 ^ k < 2 ^ 64) by (apply Z.pow_lt_mono_r; lia). pose proof (pow2_pos k ltac:(lia)).
    rewrite Z.shiftl_1_l, uint_id by (unfold is_uint; lia).
    destruct (sibling_address a k) as [Hrange Hdiv]; [lia|done|].
    rewrite Hnode, Hdiv by (done || lia). cbn [mbind outcome_bind].
    destruct (set_sibling_hash_spec q k (node f (Z.to_nat (k - base)) (Z.lxor (a `div` 2 ^ k) 1)) Hq)
      as (q1 & -> & Hq1 & Ht1 & Hr1 & Ha1 & Hh1 & Hrh1 & Hs1); [lia|]. cbn [mbind outcome_bind].
    destruct (IH (k + 1) q1) as (q' & E & Hq' & Ht' & Hr' & Ha' & Hh' & Hrh' & Hs'); [done|lia|lia|lia|].
    exists q'. split; [done|]. split; [done|]. do 5 (split; [congruence|]).
    intros j Hj. rewrite Hs', Hs1 by lia. destruct (Z.eqb_spec j k) as [->|].
    + test (k + 1 <=? k) is false. by test (k <=? k) is true.
    + by replace (k + 1 <=? j) with (k <=? j) by (apply eq_true_iff_eq; rewrite !Z.leb_le; lia).
Qed.

Lemma get_proof_spec a k :
  0 < root -> base <= k <= root -> 0 <= a < 2 ^ root ->
  (proof ← make_proof zero root k;
   h ← get_node_hash 0 root;
   let proof := set_target_address a (set_root_hash h proof) in
   target ← get_node_hash a k;
   let proof := set_target_hash target proof in
   proof_siblings get_node_hash (Z.to_nat (root - k)) a k proof) = Done (tree_proof f base root k a).
Proof.
  intros H0 Hk Ha. unfold make_proof.
  test (root <=? 0) is false. test (k <? 0) is false. test (root <? k) is false.
  cbn [throw_if mbind outcome_bind mret outcome_ret]. pose proof (pow2_pos root ltac:(lia)).
  rewrite (Hnode 0), (Hnode a) by (done || lia). cbn [mbind outcome_bind].
  set (q := set_target_hash _ _).
  destruct (proof_siblings_spec (Z.to_nat (root - k)) a k q) as (q' & E & Hq' & Ht' & Hr' & Ha' & Hh' & Hrh' & Hs');
    try (done || (cbn; lia)).
  { constructor; cbn; rewrite ?length_replicate; lia. }
  rewrite E. f_equal. cbn in Ht', Ha', Hh', Hrh'.
  apply (proof_for_ext f base); try done; [|apply tree_proof_for; lia].
  constructor; rewrite ?Ht', ?Hr', ?Ha', ?Hh', ?Hrh'; try (done || lia).
  intros j Hj. rewrite Hs' by (cbn; lia). by test (k <=? j) is true.
Qed.
End proofs.

(** ** Properties *)

Section properties.
Context `{i_hasher} (zero : hash_type).

(** a tree made without leaves, or from a vector of leaves that fits, is the
    tree of those leaves; pushing a leaf appends it, and a full tree refuses it. *)
Theorem complete_tree_leaves root leaf word :
  sizes_ok root leaf word ->
  (exists t, make_complete_merkle_tree root leaf word = Done t /\ complete_tree_of zero root leaf word [] t) /\
  (forall l, Z.of_nat (length l) <= 2 ^ (root - leaf) ->
     exists t, make_complete_merkle_tree_from zero root leaf word l = Done t /\ complete_tree_of zero root leaf word l t) /\
  (forall l t h, complete_tree_of zero root leaf word l t ->
     (Z.of_nat (length l) < 2 ^ (root - leaf) ->
      exists t', ct_push_back zero t h = Done t' /\ complete_tree_of zero root leaf word (l ++ [h]) t') /\
     (Z.of_nat (length l) = 2 ^ (root - leaf) -> ct_push_back zero t h = Exn (out_of_range "tree is full"))).
Proof.
  intros Hs. split; [by apply make_complete_spec|]. split; [intros; by apply make_complete_from_spec|].
  intros l t h Ht. split; [by apply complete_push_back_spec|].
  intros Hn. destruct Ht as (_ & Ht & _ & Hlv). unfold ct_push_back.
  rewrite (cs_root _ _ _ _ Ht), (cs_leaf _ _ _ _ Ht), (get_leaves_spec root leaf word) by done.
  cbn [mbind outcome_bind]. pose proof Hs as (_ & ? & _).
  rewrite (span_depth root leaf word) by (done || lia). rewrite (proj1 Hlv), length_level by lia. cbn [width].
  by test (2 ^ (root - leaf) <=? Z.of_nat (length l)) is true.
Qed.

Lemma ct_root_spec root leaf word l t :
  complete_tree_of zero root leaf word l t ->
  ct_get_root_hash zero t = Done (node (padded (pristine_root word leaf) l) (Z.to_nat (root - leaf)) 0).
Proof.
  intros Ht. pose proof Ht as ((Hw & Hlr & H64 & _) & [Hr _ _ _] & _). unfold ct_get_root_hash.
  pose proof (pow2_pos root ltac:(lia)).
  rewrite Hr, (get_node_hash_spec zero root leaf word l) by (done || lia). by rewrite Z.div_0_l by lia.
Qed.

Lemma aligned_spec a k :
  0 <= a < 2 ^ 64 -> 0 <= k -> (a =? uint64 (Z.shiftl (Z.shiftr a k) k)) = (a `mod` 2 ^ k =? 0).
Proof.
  intros Ha Hk. pose proof (pow2_pos k ltac:(lia)). rewrite Z.shiftr_div_pow2, Z.shiftl_mul_pow2 by lia.
  pose proof (Z.div_mod a (2 ^ k) ltac:(lia)). pose proof (Z.mod_pos_bound a (2 ^ k) ltac:(lia)).
  rewrite uint_id by (unfold is_uint; pose proof (Z.div_pos a (2 ^ k)); nia).
  apply eq_true_iff_eq. rewrite !Z.eqb_eq. lia.
Qed.

Lemma ct_proof_spec root leaf word l t a k :
  complete_tree_of zero root leaf word l t -> 0 < root -> leaf <= k <= root -> 0 <= a < 2 ^ root ->
  a `mod` 2 ^ k = 0 ->
  ct_get_proof zero t a k = Done (tree_proof (padded (pristine_root word leaf) l) leaf root k a).
Proof.
  intros Ht H0 Hk Ha Hmod. pose proof Ht as ((Hw & Hlr & H64 & H31) & [Hr Hl _ _] & _). set (f := padded _ l).
  assert (Hnode : forall a k, leaf <= k <= root -> 0 <= a < 2 ^ root ->
    ct_get_node_hash zero t a k = Done (node f (Z.to_nat (k - leaf)) (a `div` 2 ^ k)))
    by (intros; by apply (get_node_hash_spec zero root leaf word)).
  assert (2 ^ root < 2 ^ 64) by (apply Z.pow_lt_mono_r; lia).
  unfold ct_get_proof. rewrite Hr, Hl, (ct_root_spec root leaf word l) by done.
  test ((k <? leaf) || (root <? k)) is false. cbn [throw_if mbind outcome_bind].
  rewrite aligned_spec, Hmod by lia. cbn [Z.eqb negb throw_if mbind outcome_bind].
  rewrite <- (get_proof_spec zero (ct_get_node_hash zero t) f leaf root Hnode ltac:(lia) H64 a k) by lia.
  rewrite (Hnode 0 root), Z.div_0_l by lia. done.
Qed.

(** The nodes, the root and the proofs of a tree are those of the tree over all
    of its leaves; sizes out of the tree, addresses that are not aligned and
    addresses past the end are refused. *)
Theorem complete_tree_nodes root leaf word l t a k :
  complete_tree_of zero root leaf word l t -> is_uint 64 a -> let f := padded (pristine_root word leaf) l in
  (leaf <= k <= root -> a < 2 ^ root ->
   ct_get_node_hash zero t a k = Done (node f (Z.to_nat (k - leaf)) (a `div` 2 ^ k))) /\
  ct_get_root_hash zero t = Done (node f (Z.to_nat (root - leaf)) 0) /\
  (0 < root -> leaf <= k <= root -> a < 2 ^ root -> a `mod` 2 ^ k = 0 ->
   ct_get_proof zero t a k = Done (tree_proof f leaf root k a)) /\
  (~ leaf <= k <= root \/ a `mod` 2 ^ k <> 0 \/ 2 ^ root <= a -> 0 < root ->
   exists what, ct_get_proof zero t a k = Exn (out_of_range what)).
Proof.
  intros Ht Ha f. unfold is_uint in Ha. split; [intros; apply (get_node_hash_spec zero root leaf word); done || lia|].
  split; [by apply (ct_root_spec root leaf word)|].
  split; [intros; apply (ct_proof_spec root leaf word); done || lia|].
  intros Hbad H0. pose proof Ht as ((Hw & Hlr & H64 & _) & [Hr Hl _ _] & _).
  unfold ct_get_proof. rewrite Hr, Hl, (ct_root_spec root leaf word l) by done.
  destruct (decide (leaf <= k <= root)) as [Hk|].
  2:{ test ((k <? leaf) || (root <? k)) is true. by eexists. }
  test ((k <? leaf) || (root <? k)) is false. cbn [throw_if mbind outcome_bind]. rewrite aligned_spec by lia.
  destruct (Z.eqb_spec (a `mod` 2 ^ k) 0) as [Hm|]; [|by eexists]. cbn [negb throw_if mbind outcome_bind].
  unfold make_proof. test (root <=? 0) is false. test (k <? 0) is false. test (root <? k) is false.
  cbn [throw_if mbind outcome_bind mret outcome_ret].
  rewrite (get_node_hash_past_end zero root leaf word l) by (done || lia). by eexists.
Qed.
End properties.

(** ** Examples *)

#[local] Existing Instance free_hasher.

Definition hash_of (n : Z) : hash_type := [n].

Lemma sizes_ok_5_3 : sizes_ok 5 3 3.
Proof. unfold sizes_ok. lia. Qed.

Lemma complete_tree_leaves_witness :
  exists t, make_complete_merkle_tree_from (hash_of 0) 5 3 3 [hash_of 1; hash_of 2; hash_of 3] = Done t /\
    complete_tree_of (hash_of 0) 5 3 3 [hash_of 1; hash_of 2; hash_of 3] t.
Proof.
  destruct (complete_tree_leaves (hash_of 0) 5 3 3 sizes_ok_5_3) as (_ & Hfrom & _). apply Hfrom. cbn. lia.
Defined.

Lemma complete_tree_nodes_witness :
  exists t, make_complete_merkle_tree_from (hash_of 0) 5 3 3 [hash_of 1; hash_of 2; hash_of 3] = Done t /\
    ct_get_proof (hash_of 0) t 16 4 =
      Done (tree_proof (padded (pristine_root 3 3) [hash_of 1; hash_of 2; hash_of 3]) 3 5 4 16).
Proof.
  destruct (make_complete_from_spec (hash_of 0) 5 3 3 [hash_of 1; hash_of 2; hash_of 3] sizes_ok_5_3)
    as (t & Ht & Hof); [cbn; lia|].
  exists t. split; [done|].
  apply (complete_tree_nodes (hash_of 0) 5 3 3 [hash_of 1; hash_of 2; hash_of 3] t 16 4 Hof);
    [vm_compute; split; congruence|lia|lia|lia|reflexivity].
Defined.
