(* ===== verification/FullMerkleTree.v ===== *)
(** * Full Merkle trees (full-merkle-tree.h, full-merkle-tree.cpp)

    A tree stored as a binary heap: the root at index 1, the children of index [i]
    at [2 * i] and [2 * i + 1].  Node [a] of the level over [2^k] leaves is at
    index [2^(depth - k) + a] of the heap.

    The last part shows that the three classes of trees whose first leaves are
    set compute the same tree: back trees keep the frontier, complete trees the
    nodes that are not pristine, full trees all of the nodes. *)

From S2P Require Import Prelude CppInt Hasher MerkleProof PristineMerkleTree BackMerkleTree CompleteMerkleTree.

Section full_tree.
Context `{i_hasher}.
(** The value of a [hash_type] without a value *)
Context (zero : hash_type).

Record full_merkle_tree := FullMerkleTree {
  ft_log2_root_size : Z;
  ft_log2_leaf_size : Z;
  ft_max_leaves : Z;
  ft_tree : list hash_type;
}.

Definition set_ft_tree (tree : list hash_type) (t : full_merkle_tree) : full_merkle_tree :=
  FullMerkleTree (ft_log2_root_size t) (ft_log2_leaf_size t) (ft_max_leaves t) tree.

(** Indices of nodes are of type [int]. *)
Definition int_index (i : Z) : outcome Z :=
  throw_if (negb ((- 2 ^ 31 <=? i) && (i <? 2 ^ 31))) (undefined_behaviour "int overflow") ≫= fun _ => mret i.
Definition left_child_index (index : Z) : outcome Z := int_index (2 * index).
Definition right_child_index (index : Z) : outcome Z := int_index (2 * index + 1).

(** [m_tree[index]], and its assignment; an index out of the vector is undefined. *)
Definition tree_at_index (tree : list hash_type) (index : Z) : outcome hash_type :=
  throw_if (negb ((0 <=? index) && (index <? Z.of_nat (length tree)))) (undefined_behaviour "m_tree[index]") ≫= fun _ =>
  mret (nth (Z.to_nat index) tree zero).
Definition set_tree_at (index : Z) (h : hash_type) (tree : list hash_type) : outcome (list hash_type) :=
  throw_if (negb ((0 <=? index) && (index <? Z.of_nat (length tree)))) (undefined_behaviour "m_tree[index]") ≫= fun _ =>
  mret (<[Z.to_nat index := h]> tree).

(** The recursion goes down from [log2_size] to the leaves: [n] is the number of
    levels, counted from the leaves, and the leaves are level 1. *)
Fixpoint init_pristine_subtree (n : nat) (pristine : pristine_merkle_tree) (index log2_size : Z)
    (tree : list hash_type) : outcome (list hash_type) :=
  match n with
  | O => Done tree
  | S n =>
      h ← pristine_get_hash pristine log2_size;
      tree ← set_tree_at index h tree;
      left ← left_child_index index;
      tree ← init_pristine_subtree n pristine left (log2_size - 1) tree;
      right ← right_child_index index;
      init_pristine_subtree n pristine right (log2_size - 1) tree
  end.

(** The same, where the leaves are level 0 *)
Fixpoint init_subtree (n : nat) (index : Z) (tree : list hash_type) : outcome (list hash_type) :=
  match n with
  | O => Done tree
  | S n =>
      left ← left_child_index index;
      tree ← init_subtree n left tree;
      right ← right_child_index index;
      tree ← init_subtree n right tree;
      left_hash ← tree_at_index tree left;
      right_hash ← tree_at_index tree right;
      set_tree_at index (get_concat_hash left_hash right_hash) tree
  end.

(** [address_type{1} << std::max(0, log2_root_size - log2_leaf_size)] *)
Definition max_leaves_of (log2_root_size log2_leaf_size : Z) : outcome Z :=
  let depth := Z.max 0 (log2_root_size - log2_leaf_size) in
  throw_if (64 <=? depth) (undefined_behaviour "1 << (log2_root_size - log2_leaf_size)") ≫= fun _ =>
  mret (2 ^ depth).

Definition make_full_merkle_tree (log2_root_size log2_leaf_size log2_word_size : Z) : outcome full_merkle_tree :=
  max_leaves ← max_leaves_of log2_root_size log2_leaf_size;
  check_log2_sizes log2_root_size log2_leaf_size log2_word_size ≫= fun _ =>
  let tree := replicate (Z.to_nat (uint64 (2 * max_leaves))) zero in
  pristine ← make_pristine_merkle_tree log2_root_size log2_word_size;
  tree ← init_pristine_subtree (Z.to_nat (log2_root_size - log2_leaf_size + 1)) pristine 1 log2_root_size tree;
  mret (FullMerkleTree log2_root_size log2_leaf_size max_leaves tree).

(** The leaves are copied after the inner nodes, and padded; both copies are
    within the vector when it has [2 * max_leaves] elements. *)
Definition init_tree (pristine : pristine_merkle_tree) (leaves : list hash_type) (t : full_merkle_tree) :
    outcome full_merkle_tree :=
  p ← pristine_get_hash pristine (ft_log2_leaf_size t);
  let inner := take (Z.to_nat (ft_max_leaves t)) (ft_tree t) in
  let tree := inner ++ leaves ++ replicate (Z.to_nat (ft_max_leaves t) - length leaves) p in
  tree ← init_subtree (Z.to_nat (ft_log2_root_size t - ft_log2_leaf_size t)) 1 tree;
  mret (set_ft_tree tree t).

Definition make_full_merkle_tree_from (log2_root_size log2_leaf_size log2_word_size : Z) (leaves : list hash_type) :
    outcome full_merkle_tree :=
  max_leaves ← max_leaves_of log2_root_size log2_leaf_size;
  check_log2_sizes log2_root_size log2_leaf_size log2_word_size ≫= fun _ =>
  throw_if (max_leaves <? Z.of_nat (length leaves)) (out_of_range "too many leaves") ≫= fun _ =>
  let tree := replicate (Z.to_nat (uint64 (2 * max_leaves))) zero in
  pristine ← make_pristine_merkle_tree log2_root_size log2_word_size;
  init_tree pristine leaves (FullMerkleTree log2_root_size log2_leaf_size max_leaves tree).

Definition get_node_index (t : full_merkle_tree) (address log2_size : Z) : outcome Z :=
  throw_if ((log2_size <? ft_log2_leaf_size t) || (ft_log2_root_size t <? log2_size))
    (out_of_range "log2_size is out of bounds") ≫= fun _ =>
  let base := uint64 (Z.shiftl 1 (ft_log2_root_size t - log2_size)) in
  let address := Z.shiftr address log2_size in
  throw_if (base <=? address) (out_of_range "address is out of bounds") ≫= fun _ =>
  mret (uint64 (base + address)).

Definition ft_get_node_hash (t : full_merkle_tree) (address log2_size : Z) : outcome hash_type :=
  i ← get_node_index t address log2_size; tree_at_index (ft_tree t) i.

Definition ft_get_root_hash (t : full_merkle_tree) : outcome hash_type :=
  ft_get_node_hash t 0 (ft_log2_root_size t).

(** The proof is verified at the end, as in the builds without [NDEBUG]. *)
Definition ft_get_proof (t : full_merkle_tree) (address log2_size : Z) : outcome merkle_tree_proof :=
  throw_if ((log2_size <? ft_log2_leaf_size t) || (ft_log2_root_size t <? log2_size))
    (out_of_range "log2_size is out of bounds") ≫= fun _ =>
  let aligned_address := uint64 (Z.shiftl (Z.shiftr address log2_size) log2_size) in
  throw_if (negb (address =? aligned_address)) (out_of_range "address is misaligned") ≫= fun _ =>
  proof ← make_proof zero (ft_log2_root_size t) log2_size;
  root ← ft_get_root_hash t;
  let proof := set_target_address address (set_root_hash root proof) in
  target ← ft_get_node_hash t address log2_size;
  let proof := set_target_hash target proof in
  proof ← proof_siblings (ft_get_node_hash t) (Z.to_nat (ft_log2_root_size t - log2_size)) address log2_size proof;
  ok ← verify proof;
  throw_if (negb ok) (runtime_error "produced invalid proof") ≫= fun _ =>
  mret proof.
End full_tree.
Arguments full_merkle_tree {_}.

(** ** Subtrees of a heap *)

(** Index [i] is [Z.log2 i - Z.log2 idx] levels below [idx]. *)
Definition below (idx i : Z) : Z := Z.log2 i - Z.log2 idx.

(** [i] is in the first [n] levels of the subtree of [idx]. *)
Definition in_sub (n : nat) (idx i : Z) : Prop :=
  0 <= below idx i < Z.of_nat n /\ i `div` 2 ^ below idx i = idx.

#[local] Instance in_sub_dec n idx i : Decision (in_sub n idx i).
Proof. unfold in_sub. apply _. Defined.

Lemma log2_div i d : 0 < i -> 0 <= d -> 0 < i `div` 2 ^ d -> Z.log2 (i `div` 2 ^ d) = Z.log2 i - d.
Proof.
  intros Hi Hd Hq. pose proof (Z.log2_shiftr i d Hi) as E. rewrite Z.shiftr_div_pow2 in E by done.
  assert (d <= Z.log2 i); [|lia]. apply Z.log2_le_pow2; [done|].
  destruct (Z.le_gt_cases (2 ^ d) i) as [|Hlt]; [done|]. rewrite Z.div_small in Hq by lia. lia.
Qed.

Lemma below_div idx i d : 0 < idx -> 0 < i -> 0 <= d -> i `div` 2 ^ d = idx -> below idx i = d.
Proof. intros Hidx Hi Hd <-. unfold below. rewrite log2_div by done. lia. Qed.

Lemma below_left idx i : 0 < idx -> below (2 * idx) i = below idx i - 1.
Proof. intros. unfold below. rewrite Z.log2_double by done. lia. Qed.

Lemma below_right idx i : 0 < idx -> below (2 * idx + 1) i = below idx i - 1.
Proof. intros. unfold below. rewrite Z.log2_succ_double by done. lia. Qed.

Lemma in_sub_root n idx : 0 < idx -> in_sub (S n) idx idx.
Proof. intros. unfold in_sub, below. rewrite Z.sub_diag, Z.div_1_r. lia. Qed.

Lemma in_sub_S n idx i :
  0 < idx -> 0 < i -> (in_sub (S n) idx i <-> i = idx \/ in_sub n (2 * idx) i \/ in_sub n (2 * idx + 1) i).
Proof.
  intros Hidx Hi. unfold in_sub. rewrite below_left, below_right by done. set (d := below idx i).
  destruct (decide (d = 0)) as [Hd|Hd].
  - rewrite Hd, Z.div_1_r. split; [lia|]. intros [->|[|]]; lia.
  - assert (0 < d -> i `div` 2 ^ d = i `div` 2 ^ (d - 1) `div` 2) as Hdiv.
    { intros. rewrite <- div_pow2_succ by lia. by replace (d - 1 + 1) with d by lia. }
    split.
    + intros [Hr Hq]. right. rewrite Hdiv in Hq by lia. pose proof (Z.div_mod (i `div` 2 ^ (d - 1)) 2 ltac:(lia)).
      pose proof (Z.mod_pos_bound (i `div` 2 ^ (d - 1)) 2 ltac:(lia)).
      destruct (decide (i `div` 2 ^ (d - 1) `mod` 2 = 0)); [left|right]; lia.
    + intros [->|Hc]; [unfold d, below in Hd; lia|].
      assert (0 < d) by (destruct Hc; lia). rewrite Hdiv by done. split; [lia|].
      destruct Hc as [[_ ->]|[_ ->]]; Z.div_mod_to_equations; lia.
Qed.

Lemma in_sub_disjoint n m idx i : 0 < idx -> in_sub n (2 * idx) i -> ~ in_sub m (2 * idx + 1) i.
Proof.
  intros Hidx [_ Hl] [_ Hr]. rewrite below_left in Hl by done. rewrite below_right in Hr by done. lia.
Qed.

(** The leaves of a subtree of a child are in the first levels of none of them. *)
Lemma leaf_not_in_sub n idx c j :
  0 < idx -> c = 2 * idx \/ c = 2 * idx + 1 -> 0 < j -> j `div` 2 ^ Z.of_nat n = c ->
  ~ in_sub n (2 * idx) j /\ ~ in_sub n (2 * idx + 1) j.
Proof.
  intros Hidx Hc Hj Hq. assert (below c j = Z.of_nat n) as Hb by (apply below_div; lia).
  unfold in_sub. destruct Hc as [->| ->]; rewrite ?below_left, ?below_right in * by done; lia.
Qed.

Section spec.
Context `{i_hasher} (zero : hash_type).

Definition at_index (tree : list hash_type) (i : Z) : hash_type := nth (Z.to_nat i) tree zero.

Lemma tree_at_spec tree i : 0 <= i < Z.of_nat (length tree) -> tree_at_index zero tree i = Done (at_index tree i).
Proof. intros. unfold tree_at_index. by replace ((0 <=? i) && _) with true by bool_cases. Qed.

Lemma set_tree_at_spec tree i h :
  0 <= i < Z.of_nat (length tree) ->
  exists tree', set_tree_at i h tree = Done tree' /\ length tree' = length tree /\
    forall j, 0 <= j -> at_index tree' j = if j =? i then h else at_index tree j.
Proof.
  intros Hi. unfold set_tree_at. replace ((0 <=? i) && _) with true by bool_cases. eexists. split; [done|].
  split; [apply length_insert|]. intros j Hj. unfold at_index. destruct (Z.eqb_spec j i) as [->|].
  - apply nth_insert. lia.
  - apply nth_insert_ne. lia.
Qed.

Lemma int_index_spec i : - 2 ^ 31 <= i < 2 ^ 31 -> int_index i = Done i.
Proof. intros. unfold int_index. by replace ((_ <=? i) && _) with true by bool_cases. Qed.

(** The hash of a node depends on the leaves below it only. *)
Lemma node_agree f g n idx c i d :
  0 < idx -> c = 2 * idx \/ c = 2 * idx + 1 -> 0 < i -> 0 <= d <= Z.of_nat n -> i `div` 2 ^ d = c ->
  (forall j, 0 < j -> ~ in_sub n (2 * idx) j -> ~ in_sub n (2 * idx + 1) j -> g j = f j) ->
  node g (Z.to_nat (Z.of_nat n - d)) i = node f (Z.to_nat (Z.of_nat n - d)) i.
Proof.
  intros Hidx Hc Hi Hd Hq Hfg. apply node_ext. intros j Hj. rewrite Z2Nat.id in Hj by lia.
  pose proof (pow2_pos (Z.of_nat n - d) ltac:(lia)).
  assert (j `div` 2 ^ Z.of_nat n = c) as Hjc.
  { replace (Z.of_nat n) with (Z.of_nat n - d + d) by lia. rewrite Z.pow_add_r by lia.
    pose proof (pow2_pos d ltac:(lia)). rewrite <- Z.div_div by lia. rewrite <- Hq. f_equal.
    symmetry. apply (Z.div_unique_pos _ _ _ (j - i * 2 ^ (Z.of_nat n - d))); nia. }
  apply Hfg; [nia|..]; apply (leaf_not_in_sub n idx c j); try done; nia.
Qed.

Lemma init_subtree_spec n idx tree :
  0 < idx -> (idx + 1) * 2 ^ Z.of_nat n <= Z.of_nat (length tree) -> Z.of_nat (length tree) <= 2 ^ 31 ->
  let g := at_index tree in
  exists tree', init_subtree zero n idx tree = Done tree' /\ length tree' = length tree /\
    forall i, 0 < i -> at_index tree' i =
      if decide (in_sub n idx i) then node g (Z.to_nat (Z.of_nat n - below idx i)) i else g i.
Proof.
  intros Hidx Hlen H31. revert idx tree Hidx Hlen H31.
  induction n as [|n IH]; intros idx tree Hidx Hlen H31 g; cbn [init_subtree].
  - exists tree. split; [done|]. split; [done|]. intros i Hi. rewrite decide_False; [done|]. unfold in_sub. lia.
  - rewrite Nat2Z.inj_succ, Z.pow_succ_r in Hlen by lia. pose proof (pow2_pos (Z.of_nat n) ltac:(lia)) as Hpow.
    unfold left_child_index, right_child_index. rewrite !int_index_spec by nia. cbn [mbind outcome_bind].
    destruct (IH (2 * idx) tree) as (tree1 & -> & Hlen1 & H1); [lia|nia|done|]. cbn [mbind outcome_bind].
    destruct (IH (2 * idx + 1) tree1) as (tree2 & -> & Hlen2 & H2); [lia|nia|lia|]. cbn [mbind outcome_bind].
    fold g in H1.
    assert (forall j, 0 < j -> ~ in_sub n (2 * idx) j -> ~ in_sub n (2 * idx + 1) j -> at_index tree1 j = g j) as Hg1
      by (intros; rewrite H1 by done; by rewrite decide_False).
    assert (forall i d c, 0 < i -> 0 <= d <= Z.of_nat n -> c = 2 * idx \/ c = 2 * idx + 1 -> i `div` 2 ^ d = c ->
      at_index tree2 i = node g (Z.to_nat (Z.of_nat n - d)) i) as Hchild.
    { intros i d c Hi Hd Hc Hq. rewrite H2 by done.
      assert (below c i = d) as Hb by (apply below_div; lia).
      destruct (decide (d = Z.of_nat n)) as [->|Hne].
      - destruct (leaf_not_in_sub n idx c i) as [Hnl Hnr]; try done.
        rewrite decide_False, Z.sub_diag by done. cbn. by apply Hg1.
      - destruct Hc as [->| ->].
        + assert (in_sub n (2 * idx) i) as Hin by (split; rewrite ?Hb; [lia|done]).
          rewrite decide_False by (by apply (in_sub_disjoint n)). rewrite H1, decide_True, Hb by done. done.
        + rewrite decide_True by (split; rewrite ?Hb; [lia|done]). rewrite Hb.
          apply (node_agree _ _ n idx (2 * idx + 1)); auto. }
    rewrite !tree_at_spec by nia. cbn [mbind outcome_bind].
    destruct (set_tree_at_spec tree2 idx (get_concat_hash (at_index tree2 (2 * idx)) (at_index tree2 (2 * idx + 1))))
      as (tree3 & -> & Hlen3 & H3); [nia|].
    exists tree3. split; [done|]. split; [congruence|]. intros i Hi. rewrite H3 by lia.
    destruct (Z.eqb_spec i idx) as [->|Hne].
    + rewrite decide_True by (by apply in_sub_root). unfold below. rewrite Z.sub_diag.
      replace (Z.to_nat (Z.of_nat (S n) - 0)) with (S (Z.to_nat (Z.of_nat n - 0))) by lia. cbn [node].
      f_equal; [apply (Hchild _ 0 (2 * idx))|apply (Hchild _ 0 (2 * idx + 1))]; try lia; apply Z.div_1_r.
    + case_decide as Hin.
      * apply in_sub_S in Hin as [->|Hin]; [done| |done|done]. destruct Hin as [[Hb Hq]|[Hb Hq]].
        -- rewrite (Hchild i (below (2 * idx) i) (2 * idx)) by (lia || auto). do 2 f_equal.
           rewrite below_left by done. lia.
        -- rewrite (Hchild i (below (2 * idx + 1) i) (2 * idx + 1)) by (lia || auto). do 2 f_equal.
           rewrite below_right by done. lia.
      * rewrite in_sub_S in Hin by done. rewrite H2, decide_False by (done || tauto). apply Hg1; tauto.
Qed.
(** ** Trees *)

Context (root leaf word : Z).
Notation p := (pristine_root word leaf).

(** Indices of the heap fit in an [int], as do the children of its leaves. *)
Definition full_sizes_ok : Prop := sizes_ok root leaf word /\ root - leaf <= 29.

Lemma init_pristine_subtree_spec n pt idx tree :
  pristine_wf root word pt -> full_sizes_ok -> Z.of_nat n <= root - leaf + 1 ->
  0 < idx -> (idx + 1) * 2 ^ Z.of_nat n <= 2 * Z.of_nat (length tree) -> 2 * Z.of_nat (length tree) <= 2 ^ 31 ->
  exists tree', init_pristine_subtree n pt idx (leaf + Z.of_nat n - 1) tree = Done tree' /\
    length tree' = length tree /\
    forall i, 0 < i -> at_index tree' i =
      if decide (in_sub n idx i) then pristine p (Z.to_nat (Z.of_nat n - 1 - below idx i)) else at_index tree i.
Proof.
  intros Hpt [(Hw & Hlr & H64 & H31) H29]. revert idx tree.
  induction n as [|n IH]; intros idx tree Hn Hidx Hlen Hlen31; cbn [init_pristine_subtree].
  - exists tree. split; [done|]. split; [done|]. intros i Hi. rewrite decide_False; [done|]. unfold in_sub. lia.
  - rewrite Nat2Z.inj_succ, Z.pow_succ_r in Hlen by lia. pose proof (pow2_pos (Z.of_nat n) ltac:(lia)) as Hpow.
    rewrite (pristine_get_hash_spec root word) by (done || lia). cbn [mbind outcome_bind].
    replace (pristine_root word _) with (pristine p n) by (unfold pristine_root; rewrite pristine_add; f_equal; lia).
    destruct (set_tree_at_spec tree idx (pristine p n)) as (tree0 & -> & Hlen0 & H0); [nia|]. cbn [mbind outcome_bind].
    unfold left_child_index, right_child_index. rewrite !int_index_spec by nia. cbn [mbind outcome_bind].
    replace (leaf + Z.of_nat (S n) - 1 - 1) with (leaf + Z.of_nat n - 1) by lia.
    destruct (IH (2 * idx) tree0) as (tree1 & -> & Hlen1 & H1); [lia|lia|nia|lia|]. cbn [mbind outcome_bind].
    destruct (IH (2 * idx + 1) tree1) as (tree2 & E & Hlen2 & H2); [lia|lia|nia|lia|].
    exists tree2. split; [done|]. split; [congruence|]. intros i Hi. rewrite H2, H1, H0 by lia.
    rewrite below_left, below_right by done.
    destruct (decide (in_sub (S n) idx i)) as [Hin|Hin]; rewrite in_sub_S in Hin by done.
    + destruct Hin as [->|Hin].
      * rewrite !decide_False by (unfold in_sub; rewrite ?below_left, ?below_right by done; unfold below; lia).
        rewrite Z.eqb_refl. f_equal. unfold below. lia.
      * assert (below idx i <= Z.of_nat n) by (destruct Hin as [[? _]|[? _]];
          rewrite ?below_left, ?below_right in * by done; lia).
        destruct Hin as [Hin|Hin].
        -- rewrite (decide_False (P := in_sub n (2 * idx + 1) i)) by (by apply (in_sub_disjoint n)).
           rewrite decide_True by done. f_equal. lia.
        -- rewrite decide_True by done. f_equal. lia.
    + rewrite !decide_False by tauto. by rewrite (proj2 (Z.eqb_neq _ _)) by tauto.
Qed.

(** [t] is the tree whose first leaves are [l]. *)
Record full_tree_of (l : list hash_type) (t : full_merkle_tree) : Prop := {
  ft_sizes : full_sizes_ok;
  ft_root : ft_log2_root_size t = root;
  ft_leaf : ft_log2_leaf_size t = leaf;
  ft_length : Z.of_nat (length (ft_tree t)) = 2 * 2 ^ (root - leaf);
  ft_nodes k a : 0 <= k <= root - leaf -> 0 <= a < 2 ^ (root - leaf - k) ->
    at_index (ft_tree t) (2 ^ (root - leaf - k) + a) = node (padded p l) (Z.to_nat k) a;
}.

Lemma max_leaves_spec : full_sizes_ok -> max_leaves_of root leaf = Done (2 ^ (root - leaf)).
Proof.
  intros [(Hw & Hlr & _ & _) H29]. unfold max_leaves_of. rewrite Z.max_r by lia.
  by test (64 <=? root - leaf) is false.
Qed.

(** The heap has at most [2^30] elements. *)
Lemma heap_size : full_sizes_ok -> 0 < 2 ^ (root - leaf) <= 2 ^ 29.
Proof.
  intros [(Hw & Hlr & _ & _) H29]. split; [apply pow2_pos; lia|apply Z.pow_le_mono_r; lia].
Qed.

(** Positions in the heap *)
Lemma heap_level d a : 0 <= d -> 0 <= a < 2 ^ d -> below 1 (2 ^ d + a) = d /\ (2 ^ d + a) `div` 2 ^ d = 1.
Proof.
  intros Hd Ha. assert ((2 ^ d + a) `div` 2 ^ d = 1) as Hq by (symmetry; apply (Z.div_unique_pos _ _ _ a); lia).
  split; [|done]. apply below_div; lia || done.
Qed.

Lemma make_full_spec :
  full_sizes_ok -> exists t, make_full_merkle_tree zero root leaf word = Done t /\ full_tree_of [] t.
Proof.
  intros Hs. pose proof Hs as [Hs' H29]. pose proof Hs' as (Hw & Hlr & H64 & H31). pose proof (heap_size Hs) as Hheap.
  unfold make_full_merkle_tree. rewrite max_leaves_spec, check_log2_sizes_spec by done. cbn [mbind outcome_bind].
  destruct (make_pristine_spec root word) as (pt & -> & Hpt); [lia|done|]. cbn [mbind outcome_bind].
  rewrite uint_id by (unfold is_uint; lia).
  set (tree := replicate _ _). assert (Z.of_nat (length tree) = 2 * 2 ^ (root - leaf)) as Hlen
    by (unfold tree; rewrite length_replicate; lia).
  destruct (init_pristine_subtree_spec (Z.to_nat (root - leaf + 1)) pt 1 tree) as (tree' & E & Hlen' & Hat);
    try done; try lia.
  { rewrite Hlen, Z2Nat.id, Z.pow_add_r by lia. lia. }
  replace (leaf + Z.of_nat (Z.to_nat (root - leaf + 1)) - 1) with root in E by lia. rewrite E. cbn [mbind outcome_bind].
  eexists. split; [done|]. constructor; cbn [ft_log2_root_size ft_log2_leaf_size ft_tree set_ft_tree]; try done; [lia|]. intros k a Hk Ha.
  destruct (heap_level (root - leaf - k) a) as [Hb Hq]; [lia|done|].
  pose proof (pow2_pos (root - leaf - k)). rewrite Hat by lia. rewrite decide_True by (split; rewrite ?Hb; lia || done).
  rewrite Hb, node_beyond by (cbn; pose proof (pow2_pos (Z.of_nat (Z.to_nat k))); nia). f_equal. lia.
Qed.

Lemma make_full_from_spec l :
  full_sizes_ok -> Z.of_nat (length l) <= 2 ^ (root - leaf) ->
  exists t, make_full_merkle_tree_from zero root leaf word l = Done t /\ full_tree_of l t.
Proof.
  intros Hs Hl. pose proof Hs as [Hs' H29]. pose proof Hs' as (Hw & Hlr & H64 & H31). pose proof (heap_size Hs) as Hheap.
  unfold make_full_merkle_tree_from. rewrite max_leaves_spec, check_log2_sizes_spec by done. cbn [mbind outcome_bind].
  test (2 ^ (root - leaf) <? Z.of_nat (length l)) is false. cbn [throw_if mbind outcome_bind].
  destruct (make_pristine_spec root word) as (pt & -> & Hpt); [lia|done|]. cbn [mbind outcome_bind].
  rewrite uint_id by (unfold is_uint; lia). unfold init_tree. cbn [ft_log2_leaf_size ft_max_leaves ft_tree ft_log2_root_size].
  rewrite (pristine_get_hash_spec root word) by (done || lia). cbn [mbind outcome_bind].
  set (N := 2 ^ (root - leaf)) in *. set (inner := take _ _).
  assert (length inner = Z.to_nat N) as Hinner by (unfold inner; rewrite length_take, length_replicate; lia).
  set (tree := inner ++ _).
  assert (Z.of_nat (length tree) = 2 * N) as Hlen.
  { unfold tree. rewrite !length_app, Hinner, length_replicate. lia. }
  destruct (init_subtree_spec (Z.to_nat (root - leaf)) 1 tree) as (tree' & E & Hlen' & Hat); [lia| |lia|].
  { rewrite Hlen, Z2Nat.id by lia. unfold N. lia. }
  rewrite E. cbn [mbind outcome_bind]. eexists. split; [done|]. constructor; cbn [ft_log2_root_size ft_log2_leaf_size ft_tree set_ft_tree]; try done; [lia|]. intros k a Hk Ha.
  destruct (heap_level (root - leaf - k) a) as [Hb Hq]; [lia|done|].
  pose proof (pow2_pos (root - leaf - k) ltac:(lia)). rewrite Hat by lia.
  assert (forall j, 0 <= j < N -> at_index tree (j + N) = padded p l j) as Hleaves.
  { intros j Hj. unfold at_index, tree. rewrite app_nth2 by lia. rewrite Hinner.
    replace (Z.to_nat (j + N) - Z.to_nat N)%nat with (Z.to_nat j) by lia.
    rewrite <- (padded_replicate p l (Z.to_nat N - length l)). unfold padded.
    test (j <? 0) is false. apply nth_indep. rewrite length_app, length_replicate. lia. }
  rewrite Z2Nat.id, Hb by lia. case_decide as Hin.
  - replace (root - leaf - (root - leaf - k)) with k by lia.
    rewrite Z.add_comm, <- node_shift. apply node_ext. rewrite Z2Nat.id by lia. intros j Hj.
    assert (2 ^ (root - leaf - k) * 2 ^ k = N) as HN
      by (rewrite <- Z.pow_add_r by lia; unfold N; f_equal; lia).
    rewrite HN. apply Hleaves. pose proof (pow2_pos k ltac:(lia)). nia.
  - assert (k = 0) as ->.
    { destruct (decide (k = 0)); [done|]. exfalso. apply Hin. split; rewrite ?Hb; lia || done. }
    rewrite Z.sub_0_r in *. fold N in Ha |- *. cbn [Z.to_nat node]. rewrite Z.add_comm. by apply Hleaves.
Qed.

Lemma ft_node_spec l t a k :
  full_tree_of l t -> leaf <= k <= root -> 0 <= a < 2 ^ root ->
  ft_get_node_hash zero t a k = Done (node (padded p l) (Z.to_nat (k - leaf)) (a `div` 2 ^ k)).
Proof.
  intros [Hs Hr Hl Hlen Hn] Hk Ha. pose proof Hs as [(Hw & Hlr & H64 & _) H29]. pose proof (heap_size Hs) as Hheap.
  unfold ft_get_node_hash, get_node_index. rewrite Hr, Hl.
  test ((k <? leaf) || (root <? k)) is false. cbn [throw_if mbind outcome_bind].
  assert (2 ^ (root - k) <= 2 ^ (root - leaf)) by (apply Z.pow_le_mono_r; lia).
  pose proof (pow2_pos (root - k) ltac:(lia)).
  rewrite Z.shiftl_1_l, Z.shiftr_div_pow2, (uint_id 64 (2 ^ (root - k))) by (unfold is_uint; lia).
  assert (0 <= a `div` 2 ^ k < 2 ^ (root - k)) as Hq.
  { pose proof (pow2_pos k ltac:(lia)). split; [apply Z.div_pos; lia|]. apply Z.div_lt_upper_bound; [lia|].
    rewrite <- Z.pow_add_r by lia. replace (k + (root - k)) with root by lia. lia. }
  test (2 ^ (root - k) <=? a `div` 2 ^ k) is false. cbn [throw_if mbind outcome_bind].
  rewrite uint_id by (unfold is_uint; lia). cbv [mret outcome_ret]. cbn [mbind outcome_bind].
  rewrite tree_at_spec by lia. f_equal. specialize (Hn (k - leaf) (a `div` 2 ^ k)).
  replace (root - leaf - (k - leaf)) with (root - k) in Hn by lia. apply Hn; lia.
Qed.
End spec.

(** ** Properties *)

Section properties.
Context `{i_hasher} (zero : hash_type).

(** a tree made without leaves, or from a vector of leaves that fits, is the
    tree of those leaves; a longer vector is refused. *)
Theorem full_tree_leaves root leaf word l :
  full_sizes_ok root leaf word ->
  (exists t, make_full_merkle_tree zero root leaf word = Done t /\ full_tree_of zero root leaf word [] t) /\
  (Z.of_nat (length l) <= 2 ^ (root - leaf) ->
   exists t, make_full_merkle_tree_from zero root leaf word l = Done t /\ full_tree_of zero root leaf word l t) /\
  (2 ^ (root - leaf) < Z.of_nat (length l) ->
   make_full_merkle_tree_from zero root leaf word l = Exn (out_of_range "too many leaves")).
Proof.
  intros Hs. split; [by apply make_full_spec|]. split; [intros; by apply make_full_from_spec|].
  intros Hl. unfold make_full_merkle_tree_from. pose proof Hs as [Hs' _].
  rewrite (max_leaves_spec root leaf word), check_log2_sizes_spec by done. cbn [mbind outcome_bind].
  by test (2 ^ (root - leaf) <? Z.of_nat (length l)) is true.
Qed.

Lemma ft_root_spec root leaf word l t :
  full_tree_of zero root leaf word l t ->
  ft_get_root_hash zero t = Done (node (padded (pristine_root word leaf) l) (Z.to_nat (root - leaf)) 0).
Proof.
  intros Ht. pose proof Ht as [[(Hw & Hlr & _) _] Hr _ _ _]. unfold ft_get_root_hash. pose proof (pow2_pos root ltac:(lia)).
  rewrite Hr, (ft_node_spec zero root leaf word l) by (done || lia). by rewrite Z.div_0_l by lia.
Qed.

Lemma ft_proof_spec root leaf word l t a k :
  full_tree_of zero root leaf word l t -> 0 < root -> leaf <= k <= root -> 0 <= a < 2 ^ root -> a `mod` 2 ^ k = 0 ->
  ft_get_proof zero t a k = Done (tree_proof (padded (pristine_root word leaf) l) leaf root k a).
Proof.
  intros Ht H0 Hk Ha Hmod. pose proof Ht as [[(Hw & Hlr & H64 & H31) H29] Hr Hl _ _]. set (f := padded _ l).
  assert (Hnode : forall a k, leaf <= k <= root -> 0 <= a < 2 ^ root ->
    ft_get_node_hash zero t a k = Done (node f (Z.to_nat (k - leaf)) (a `div` 2 ^ k)))
    by (intros; by apply (ft_node_spec zero root leaf word)).
  unfold ft_get_proof. rewrite Hr, Hl, (ft_root_spec root leaf word l) by done. fold f.
  test ((k <? leaf) || (root <? k)) is false. cbn [throw_if mbind outcome_bind].
  pose proof (pow2_pos k ltac:(lia)). rewrite Z.shiftr_div_pow2, Z.shiftl_mul_pow2 by lia.
  assert (a `div` 2 ^ k * 2 ^ k = a) as -> by (pose proof (Z.div_mod a (2 ^ k) ltac:(lia)); lia).
  assert (2 ^ root < 2 ^ 64) by (apply Z.pow_lt_mono_r; lia).
  rewrite uint_id, Z.eqb_refl by (unfold is_uint; lia). cbn [negb throw_if mbind outcome_bind].
  pose proof (get_proof_spec zero (ft_get_node_hash zero t) f leaf root Hnode ltac:(lia) H64 a k H0 Hk Ha) as E.
  rewrite (Hnode 0 root), Z.div_0_l in E by lia.
  destruct (make_proof zero root k) as [q|e]; cbn [mbind outcome_bind] in E |- *; [|done].
  rewrite Hnode in E |- * by done. cbn [mbind outcome_bind] in E |- *. rewrite E. cbn [mbind outcome_bind].
  rewrite (verify_spec f leaf) by (apply tree_proof_for; lia). done.
Qed.

(** The nodes, the root and the proofs of a tree are those of the tree over all
    of its leaves. *)
Theorem full_tree_nodes root leaf word l t a k :
  full_tree_of zero root leaf word l t -> leaf <= k <= root -> 0 <= a < 2 ^ root ->
  let f := padded (pristine_root word leaf) l in
  ft_get_node_hash zero t a k = Done (node f (Z.to_nat (k - leaf)) (a `div` 2 ^ k)) /\
  ft_get_root_hash zero t = Done (node f (Z.to_nat (root - leaf)) 0) /\
  (0 < root -> a `mod` 2 ^ k = 0 -> ft_get_proof zero t a k = Done (tree_proof f leaf root k a)).
Proof.
  intros Ht Hk Ha f. split; [by apply (ft_node_spec zero root leaf word)|].
  split; [by apply (ft_root_spec root leaf word)|]. intros. by apply (ft_proof_spec root leaf word).
Qed.
End properties.

(** ** Examples *)

#[local] Existing Instance free_hasher.

Definition empty_hash : hash_type := [].
Definition three_leaves : list hash_type := [[1]; [2]; [3]].

Lemma full_sizes_5_3 : full_sizes_ok 5 3 3.
Proof. unfold full_sizes_ok, sizes_ok. lia. Qed.

Lemma full_tree_leaves_witness :
  exists t, make_full_merkle_tree_from empty_hash 5 3 3 three_leaves = Done t /\
    full_tree_of empty_hash 5 3 3 three_leaves t.
Proof.
  destruct (full_tree_leaves empty_hash 5 3 3 three_leaves full_sizes_5_3) as (_ & Hfrom & _).
  apply Hfrom. cbn. lia.
Defined.

Lemma full_tree_nodes_witness :
  exists t, make_full_merkle_tree_from empty_hash 5 3 3 three_leaves = Done t /\
    ft_get_proof empty_hash t 16 4 = Done (tree_proof (padded (pristine_root 3 3) three_leaves) 3 5 4 16).
Proof.
  destruct (make_full_from_spec empty_hash 5 3 3 three_leaves full_sizes_5_3) as (t & Ht & Hof); [cbn; lia|].
  exists t. split; [done|].
  destruct (full_tree_nodes empty_hash 5 3 3 three_leaves t 16 4 Hof) as (_ & _ & Hp); [lia|lia|].
  apply Hp; [lia|reflexivity].
Defined.

(** ** What a tree promises *)

Class LeafTree `{i_hasher} (T : Type) (root leaf word : Z) := {
  tree_of : list hash_type -> T -> Prop;
  tree_root_hash : T -> outcome hash_type;
  tree_root_hash_spec l t :
    tree_of l t ->
    tree_root_hash t = Done (node (padded (pristine_root word leaf) l) (Z.to_nat (root - leaf)) 0);
}.

(** A tree to which leaves can be appended *)
Class AppendTree `{i_hasher} (T : Type) (root leaf word : Z) `{!LeafTree T root leaf word} := {
  tree_make : outcome T;
  tree_push_back : T -> hash_type -> outcome T;
  tree_make_spec : exists t, tree_make = Done t /\ tree_of [] t;
  tree_push_back_spec l t h :
    tree_of l t -> Z.of_nat (length l) < 2 ^ (root - leaf) ->
    exists t', tree_push_back t h = Done t' /\ tree_of (l ++ [h]) t';
}.

Definition push_all {T A} (push : T -> A -> outcome T) (t : outcome T) (l : list A) : outcome T :=
  fold_left (fun t h => t ≫= fun t => push t h) l t.

Section interface.
Context `{i_hasher} (root leaf word : Z).

Lemma same_root {T1 T2} `{!LeafTree T1 root leaf word} `{!LeafTree T2 root leaf word} l (t1 : T1) (t2 : T2) :
  tree_of l t1 -> tree_of l t2 -> tree_root_hash t1 = tree_root_hash t2.
Proof. intros H1 H2. by rewrite (tree_root_hash_spec l t1 H1), (tree_root_hash_spec l t2 H2). Qed.

Lemma push_all_spec {T} `{AppendTree T root leaf word} l :
  Z.of_nat (length l) <= 2 ^ (root - leaf) ->
  exists t, push_all tree_push_back tree_make l = Done t /\ tree_of l t.
Proof.
  intros Hlen. unfold push_all. rewrite <- (rev_involutive l) in *. revert Hlen. induction (rev l) as [|h k IH]; intros Hlen.
  - destruct tree_make_spec as (t & -> & Ht). by exists t.
  - cbn [rev] in *. rewrite length_app in Hlen. cbn in Hlen. rewrite fold_left_app.
    destruct IH as (t & -> & Ht); [lia|]. cbn. apply tree_push_back_spec; [done|lia].
Qed.
End interface.

(** ** The implementations *)

Section trees.
Context `{i_hasher} (zero : hash_type) (root leaf word : Z) (Hsizes : full_sizes_ok root leaf word).

#[local] Instance back_leaf_tree : LeafTree back_merkle_tree root leaf word.
Proof.
  refine {|
    tree_of := back_tree_of zero root leaf word;
    tree_root_hash := bm_get_root_hash zero
  |}.
  intros l t Ht. eapply get_root_hash_spec, Ht.
Defined.

#[local] Instance complete_leaf_tree : LeafTree complete_merkle_tree root leaf word.
Proof.
  refine {|
    tree_of := complete_tree_of zero root leaf word;
    tree_root_hash := ct_get_root_hash zero
  |}.
  apply ct_root_spec.
Defined.

#[local] Instance full_leaf_tree : LeafTree full_merkle_tree root leaf word.
Proof.
  refine {|
    tree_of := full_tree_of zero root leaf word;
    tree_root_hash := ft_get_root_hash zero
  |}.
  apply ft_root_spec.
Defined.

#[local] Instance back_append_tree : AppendTree back_merkle_tree root leaf word.
Proof.
  refine {|
    tree_make := make_back_merkle_tree zero root leaf word;
    tree_push_back := push_back zero
  |}.
  - pose proof Hsizes as [(Hw & Hlr & _ & H31) H29]. apply make_back_spec; lia.
  - intros l t h Ht Hn.
    destruct (push_back_spec zero root leaf word _ (padded (pristine_root word leaf) (l ++ [h])) _ t h Ht)
      as (t' & E & Ht'); [done|intros; apply padded_snoc|].
    exists t'. split; [done|]. cbn. unfold back_tree_of. rewrite length_app. cbn [length].
    by replace (Z.of_nat (length l + 1)) with (Z.of_nat (length l) + 1) by lia.
Defined.

#[local] Instance complete_append_tree : AppendTree complete_merkle_tree root leaf word.
Proof.
  refine {|
    tree_make := make_complete_merkle_tree root leaf word;
    tree_push_back := ct_push_back zero
  |}.
  - apply make_complete_spec, Hsizes.
  - intros. by apply complete_push_back_spec.
Defined.

(** C38: for any leaves that fit, the back tree and the complete tree to which the
    leaves are pushed, the complete tree and the full tree made from all of them
    have the same root hash, and give the same proofs. *)
Theorem merkle_trees_agree l :
  Z.of_nat (length l) <= 2 ^ (root - leaf) -> 0 < root ->
  exists tb tc tv tf,
    push_all (push_back zero) (make_back_merkle_tree zero root leaf word) l = Done tb /\
    push_all (ct_push_back zero) (make_complete_merkle_tree root leaf word) l = Done tc /\
    make_complete_merkle_tree_from zero root leaf word l = Done tv /\
    make_full_merkle_tree_from zero root leaf word l = Done tf /\
    bm_get_root_hash zero tb = ft_get_root_hash zero tf /\
    ct_get_root_hash zero tc = ft_get_root_hash zero tf /\
    ct_get_root_hash zero tv = ft_get_root_hash zero tf /\
    (forall a k, leaf <= k <= root -> 0 <= a < 2 ^ root -> a `mod` 2 ^ k = 0 ->
       ct_get_proof zero tc a k = ft_get_proof zero tf a k /\ ct_get_proof zero tv a k = ft_get_proof zero tf a k) /\
    (Z.of_nat (length l) < 2 ^ (root - leaf) ->
       get_next_leaf_proof zero tb = ft_get_proof zero tf (Z.of_nat (length l) * 2 ^ leaf) leaf).
Proof.
  intros Hl H0. pose proof Hsizes as [Hs H29]. pose proof Hs as (Hw & Hlr & H64 & H31).
  destruct (push_all_spec root leaf word (T := back_merkle_tree) l Hl) as (tb & Eb & Hb).
  destruct (push_all_spec root leaf word (T := complete_merkle_tree) l Hl) as (tc & Ec & Hc).
  destruct (make_complete_from_spec zero root leaf word l Hs Hl) as (tv & Ev & Hv).
  destruct (make_full_from_spec zero root leaf word l Hsizes Hl) as (tf & Ef & Hf).
  exists tb, tc, tv, tf. do 4 (split; [done|]).
  split; [exact (same_root root leaf word l tb tf Hb Hf)|].
  split; [exact (same_root root leaf word l tc tf Hc Hf)|].
  split; [exact (same_root root leaf word l tv tf Hv Hf)|]. split.
  - intros a k Hk Ha Hm. rewrite (ft_proof_spec zero root leaf word l) by done.
    by split; apply (ct_proof_spec zero root leaf word).
  - intros Hn. pose proof (pow2_pos leaf ltac:(lia)).
    rewrite (next_leaf_tree_proof zero root leaf word l) by (done || lia). symmetry.
    assert (2 ^ root = 2 ^ (root - leaf) * 2 ^ leaf) by (rewrite <- Z.pow_add_r by lia; f_equal; lia).
    apply (ft_proof_spec zero root leaf word); [done|done|lia|nia|]. by rewrite Z.mod_mul by lia.
Qed.
End trees.

Lemma merkle_trees_agree_witness :
  exists tb tf,
    push_all (push_back empty_hash) (make_back_merkle_tree empty_hash 5 3 3) three_leaves = Done tb /\
    make_full_merkle_tree_from empty_hash 5 3 3 three_leaves = Done tf /\
    bm_get_root_hash empty_hash tb = ft_get_root_hash empty_hash tf /\
    get_next_leaf_proof empty_hash tb = ft_get_proof empty_hash tf 24 3.
Proof.
  destruct (merkle_trees_agree empty_hash 5 3 3 full_sizes_5_3 three_leaves)
    as (tb & tc & tv & tf & Hb & _ & _ & Hf & Hr & _ & _ & _ & Hn); [cbn; lia|lia|].
  exists tb, tf. do 3 (split; [done|]). apply Hn. cbn. lia.
Defined.
