(* ===== verification/MachineMerkleTree.v ===== *)
(** * The Merkle tree of the machine (machine-merkle-tree.h, machine-merkle-tree.cpp)

    A tree over the 64-bit address space whose stored nodes go down to pages; a
    node that is missing stands for a subtree of zeros.  Nodes are objects of the
    heap with pointers to their parent and children: the heap is a map from
    pointers to nodes.  Pages are hashed one by one, and a queue of the inner
    nodes to recompute takes the changes up to the root. *)

From S2P Require Import Prelude CppInt Hasher MerkleProof PristineMerkleTree.

(** The pointers of the heap *)
Abbreviation node_ptr := nat.

Section machine_merkle_tree.
Context `{i_hasher}.
(** The value of [hash_type{}] *)
Context (zero : hash_type).

(** ** Constants *)

Definition LOG2_ROOT_SIZE : Z := 64.
Definition LOG2_PAGE_SIZE : Z := 12.
Definition LOG2_WORD_SIZE : Z := 5.
Definition m_word_size : Z := Z.shiftl 1 LOG2_WORD_SIZE.
Definition m_page_index_mask : Z := uint64 (Z.shiftl (Z.shiftr (uint64 (Z.lnot 0)) (64 - LOG2_ROOT_SIZE)) LOG2_PAGE_SIZE).

(** ** State *)

Record tree_node := TreeNode {
  n_hash : hash_type;
  n_parent : option node_ptr;
  n_child0 : option node_ptr;
  n_child1 : option node_ptr;
  n_mark : Z;
}.

Record machine_merkle_tree := MachineMerkleTree {
  m_nodes : gmap node_ptr tree_node;
  m_next : node_ptr;
  m_page_node_map : gmap Z node_ptr;
  m_root : node_ptr;
  m_merkle_update_nonce : Z;
  m_merkle_update_fifo : list (Z * node_ptr);
}.

Definition child (nd : tree_node) (bit : bool) : option node_ptr := if bit then n_child1 nd else n_child0 nd.

Definition set_hash (h : hash_type) (nd : tree_node) : tree_node :=
  TreeNode h (n_parent nd) (n_child0 nd) (n_child1 nd) (n_mark nd).
Definition set_child (bit : bool) (c : node_ptr) (nd : tree_node) : tree_node :=
  TreeNode (n_hash nd) (n_parent nd) (if bit then n_child0 nd else Some c) (if bit then Some c else n_child1 nd) (n_mark nd).
Definition set_parent (p : node_ptr) (nd : tree_node) : tree_node :=
  TreeNode (n_hash nd) (Some p) (n_child0 nd) (n_child1 nd) (n_mark nd).
Definition set_mark (m : Z) (nd : tree_node) : tree_node :=
  TreeNode (n_hash nd) (n_parent nd) (n_child0 nd) (n_child1 nd) m.

(** An access through a pointer *)
Definition deref (t : machine_merkle_tree) (p : node_ptr) : outcome tree_node :=
  match m_nodes t !! p with Some nd => Done nd | None => Exn (undefined_behaviour "pointer") end.

Definition set_node (p : node_ptr) (nd : tree_node) (t : machine_merkle_tree) : machine_merkle_tree :=
  MachineMerkleTree (<[p := nd]> (m_nodes t)) (m_next t) (m_page_node_map t) (m_root t)
    (m_merkle_update_nonce t) (m_merkle_update_fifo t).
Definition set_fifo (l : list (Z * node_ptr)) (t : machine_merkle_tree) : machine_merkle_tree :=
  MachineMerkleTree (m_nodes t) (m_next t) (m_page_node_map t) (m_root t) (m_merkle_update_nonce t) l.
Definition set_nonce (n : Z) (t : machine_merkle_tree) : machine_merkle_tree :=
  MachineMerkleTree (m_nodes t) (m_next t) (m_page_node_map t) (m_root t) n (m_merkle_update_fifo t).

(** ** Pages and nodes *)

Definition get_page_index (address : Z) : Z := address &ᵇ m_page_index_mask.

Definition get_page_node (t : machine_merkle_tree) (page_index : Z) : option node_ptr := m_page_node_map t !! page_index.

Definition set_page_node_map (page_index : Z) (p : node_ptr) (t : machine_merkle_tree) : machine_merkle_tree :=
  MachineMerkleTree (m_nodes t) (m_next t) (<[page_index := p]> (m_page_node_map t)) (m_root t)
    (m_merkle_update_nonce t) (m_merkle_update_fifo t).

(** [new] returns a pointer that no object has, or throws; it is never null. *)
Definition create_node (t : machine_merkle_tree) : node_ptr * machine_merkle_tree :=
  (m_next t, MachineMerkleTree (<[m_next t := TreeNode zero None None None 0]> (m_nodes t)) (S (m_next t))
               (m_page_node_map t) (m_root t) (m_merkle_update_nonce t) (m_merkle_update_fifo t)).

(** One step of the descent: the child in the direction of the page, created if
    it is missing *)
Definition descend_child (page_index bit_mask : Z) (node : node_ptr) (t : machine_merkle_tree) :
    outcome (node_ptr * machine_merkle_tree) :=
  let bit := negb ((page_index &ᵇ bit_mask) =? 0) in
  nd ← deref t node;
  match child nd bit with
  | Some c => mret (c, t)
  | None =>
      let '(c, t) := create_node t in
      cnd ← deref t c;
      let t := set_node c (set_parent node cnd) t in
      nd ← deref t node;
      mret (c, set_node node (set_child bit c nd) t)
  end.

(** The loop of [new_page_node]; it ends when the mask leaves the page index,
    after as many iterations as the index has bits. *)
Fixpoint descend (fuel : nat) (page_index bit_mask : Z) (node : node_ptr) (t : machine_merkle_tree) :
    outcome (node_ptr * machine_merkle_tree) :=
  match fuel with
  | O => Exn (undefined_behaviour "out of fuel")
  | S fuel =>
      '(node, t) ← descend_child page_index bit_mask node t;
      let bit_mask := Z.shiftr bit_mask 1 in
      if (bit_mask &ᵇ m_page_index_mask) =? 0 then mret (node, t) else descend fuel page_index bit_mask node t
  end.

Definition new_page_node (page_index : Z) (t : machine_merkle_tree) : outcome (node_ptr * machine_merkle_tree) :=
  let bit_mask := uint64 (Z.shiftl 1 (LOG2_ROOT_SIZE - 1)) in
  '(node, t) ← descend 64 page_index bit_mask (m_root t) t;
  mret (node, set_page_node_map page_index node t).

(** ** Hashes *)

(** The static table of the hashes of zeros *)
Definition get_pristine_hash (log2_size : Z) : outcome hash_type :=
  t ← make_pristine_merkle_tree LOG2_ROOT_SIZE LOG2_WORD_SIZE; pristine_get_hash t log2_size.

(** [get_page_node_hash] of a buffer of [2^n] words *)
Fixpoint get_buffer_hash (n : nat) (start : list Z) : hash_type :=
  match n with
  | O => digest (take (Z.to_nat m_word_size) start)
  | S n =>
      let size := Z.shiftl 1 (LOG2_WORD_SIZE + Z.of_nat n) in
      get_concat_hash (get_buffer_hash n start) (get_buffer_hash n (drop (Z.to_nat size) start))
  end.

Definition get_page_data_hash (page_data : option (list Z)) : outcome hash_type :=
  match page_data with
  | Some data => mret (get_buffer_hash (Z.to_nat (LOG2_PAGE_SIZE - LOG2_WORD_SIZE)) data)
  | None => get_pristine_hash LOG2_PAGE_SIZE
  end.

(** The hash stored for a page *)
Definition get_page_node_hash (t : machine_merkle_tree) (page_index : Z) : outcome hash_type :=
  throw_if (negb (page_index =? get_page_index page_index)) (assertion_failure "page_index == get_page_index(page_index)") ≫= fun _ =>
  match get_page_node t page_index with
  | None => get_pristine_hash LOG2_PAGE_SIZE
  | Some p => nd ← deref t p; mret (n_hash nd)
  end.

Definition get_child_hash (t : machine_merkle_tree) (child_log2_size : Z) (nd : tree_node) (bit : bool) : outcome hash_type :=
  match child nd bit with
  | Some c => cnd ← deref t c; mret (n_hash cnd)
  | None => get_pristine_hash child_log2_size
  end.

Definition inner_node_hash (t : machine_merkle_tree) (log2_size : Z) (nd : tree_node) : outcome hash_type :=
  left ← get_child_hash t (log2_size - 1) nd false;
  right ← get_child_hash t (log2_size - 1) nd true;
  mret (get_concat_hash left right).

Definition update_inner_node_hash (log2_size : Z) (node : node_ptr) (t : machine_merkle_tree) : outcome machine_merkle_tree :=
  nd ← deref t node;
  h ← inner_node_hash t log2_size nd;
  mret (set_node node (set_hash h nd) t).

(** ** Updates *)

Definition begin_update (t : machine_merkle_tree) : bool * machine_merkle_tree := (true, set_fifo [] t).

(** A parent that is not yet marked goes to the end of the queue. *)
Definition enqueue_parent (log2_size : Z) (node : node_ptr) (t : machine_merkle_tree) : outcome machine_merkle_tree :=
  nd ← deref t node;
  match n_parent nd with
  | None => mret t
  | Some p =>
      pd ← deref t p;
      if n_mark pd =? m_merkle_update_nonce t then mret t
      else mret (set_node p (set_mark (m_merkle_update_nonce t) pd)
                   (set_fifo (m_merkle_update_fifo t ++ [(log2_size + 1, p)]) t))
  end.

Definition update_page_node_hash (page_index : Z) (hash : hash_type) (t : machine_merkle_tree) :
    outcome (bool * machine_merkle_tree) :=
  throw_if (negb (get_page_index page_index =? page_index)) (assertion_failure "get_page_index(page_index) == page_index") ≫= fun _ =>
  '(node, t) ← match get_page_node t page_index with
               | Some node => mret (node, t)
               | None => new_page_node page_index t
               end;
  nd ← deref t node;
  t ← enqueue_parent LOG2_PAGE_SIZE node (set_node node (set_hash hash nd) t);
  mret (true, t).

(** The loop of [end_update]: every inner node enters the queue at most once. *)
Fixpoint propagate (fuel : nat) (t : machine_merkle_tree) : outcome machine_merkle_tree :=
  match m_merkle_update_fifo t with
  | [] => Done t
  | (log2_size, node) :: fifo =>
      match fuel with
      | O => Exn (undefined_behaviour "out of fuel")
      | S fuel =>
          t ← update_inner_node_hash log2_size node t;
          t ← enqueue_parent log2_size node (set_fifo fifo t);
          propagate fuel t
      end
  end.

Definition end_update (t : machine_merkle_tree) : outcome (bool * machine_merkle_tree) :=
  t ← propagate (size (m_nodes t) + length (m_merkle_update_fifo t)) t;
  mret (true, set_nonce (uint64 (m_merkle_update_nonce t + 1)) t).

(** ** Construction and inspection *)

Definition make_machine_merkle_tree : outcome machine_merkle_tree :=
  h ← get_pristine_hash LOG2_ROOT_SIZE;
  mret (MachineMerkleTree {[ 0%nat := TreeNode h None None None 0 ]} 1%nat ∅ 0%nat 1 []).

Definition get_root_hash (t : machine_merkle_tree) : outcome hash_type := nd ← deref t (m_root t); mret (n_hash nd).

(** [verify_tree] of a node [n] levels above the pages *)
Fixpoint verify_node (n : nat) (t : machine_merkle_tree) (node : option node_ptr) : outcome bool :=
  match node with
  | None => Done true
  | Some p =>
      match n with
      | O => Done true
      | S n =>
          nd ← deref t p;
          first_ok ← verify_node n t (child nd false);
          second_ok ← verify_node n t (child nd true);
          if negb first_ok || negb second_ok then mret false
          else h ← inner_node_hash t (LOG2_PAGE_SIZE + Z.of_nat n + 1) nd; mret (bool_decide (h = n_hash nd))
      end
  end.

Definition verify_tree (t : machine_merkle_tree) : outcome bool :=
  verify_node (Z.to_nat (LOG2_ROOT_SIZE - LOG2_PAGE_SIZE)) t (Some (m_root t)).

(** [path_bit]: the direction of [target_address] below a node of size
    [log2_child_size + 1] *)
Definition path_bit (target_address log2_child_size : Z) : bool :=
  negb ((target_address &ᵇ uint64 (Z.shiftl 1 log2_child_size)) =? 0).

(** The loop of [get_node_hash], of [n] iterations from a node of size [log2_node_size] *)
Fixpoint walk_to (n : nat) (t : machine_merkle_tree) (target_address log2_node_size : Z) (node : option node_ptr) :
    outcome (option node_ptr) :=
  match n, node with
  | S n, Some p =>
      nd ← deref t p;
      let log2_child_size := log2_node_size - 1 in
      walk_to n t target_address log2_child_size (child nd (path_bit target_address log2_child_size))
  | _, _ => Done node
  end.

(** The shift by the size of the root is undefined. *)
Definition get_node_hash (t : machine_merkle_tree) (target_address log2_target_size : Z) : outcome hash_type :=
  throw_if ((LOG2_ROOT_SIZE <? log2_target_size) || (log2_target_size <? LOG2_WORD_SIZE))
    (runtime_error "log2_target_size is out of bounds") ≫= fun _ =>
  throw_if (log2_target_size <? LOG2_PAGE_SIZE) (runtime_error "log2_target_size is smaller than page size") ≫= fun _ =>
  throw_if (64 <=? log2_target_size) (undefined_behaviour "1 << log2_target_size") ≫= fun _ =>
  throw_if (negb ((target_address &ᵇ (uint64 (Z.shiftl 1 log2_target_size) - 1)) =? 0))
    (invalid_argument "address is not page-aligned") ≫= fun _ =>
  node ← walk_to (Z.to_nat (LOG2_ROOT_SIZE - log2_target_size)) t target_address LOG2_ROOT_SIZE (Some (m_root t));
  match node with
  | None => get_pristine_hash log2_target_size
  | Some p => nd ← deref t p; mret (n_hash nd)
  end.

(** ** Proofs *)

(** [get_inside_page_sibling_hashes] of a node of [2^n] words: returns its hash,
    the hash of the target if it was met, and the proof. *)
Fixpoint inside_page_siblings (n : nat) (address log2_size : Z) (hash : hash_type) (curr_data : list Z)
    (parent_diverged curr_diverged : bool) (proof : merkle_tree_proof) :
    outcome (hash_type * hash_type * merkle_tree_proof) :=
  let log2_curr_size := LOG2_WORD_SIZE + Z.of_nat n in
  '(curr_hash, hash, proof) ←
    match n with
    | S n =>
        let log2_child_size := log2_curr_size - 1 in
        let child_size := uint64 (Z.shiftl 1 log2_child_size) in
        let child_bit := negb ((address &ᵇ child_size) =? 0) in
        '(first_hash, hash, proof) ←
          inside_page_siblings n address log2_size hash curr_data (parent_diverged || curr_diverged) child_bit proof;
        '(second_hash, hash, proof) ←
          inside_page_siblings n address log2_size hash (drop (Z.to_nat child_size) curr_data)
            (parent_diverged || curr_diverged) (negb child_bit) proof;
        mret (get_concat_hash first_hash second_hash, hash, proof)
    | O => mret (digest (take (Z.to_nat m_word_size) curr_data), hash, proof)
    end;
  if parent_diverged then mret (curr_hash, hash, proof)
  else if curr_diverged && (m_log2_target_size proof <=? log2_curr_size) then
    proof ← set_sibling_hash curr_hash log2_curr_size proof; mret (curr_hash, hash, proof)
  else if log2_curr_size =? log2_size then mret (curr_hash, curr_hash, proof)
  else mret (curr_hash, hash, proof).

Definition get_inside_page_sibling_hashes (address log2_size : Z) (hash : hash_type) (page_data : list Z)
    (proof : merkle_tree_proof) : outcome (hash_type * hash_type * merkle_tree_proof) :=
  inside_page_siblings (Z.to_nat (LOG2_PAGE_SIZE - LOG2_WORD_SIZE)) address log2_size hash page_data false false proof.

(** The loops over the [n] sizes below [log2_size] whose siblings are pristine *)
Fixpoint pristine_siblings (n : nat) (log2_size : Z) (proof : merkle_tree_proof) : outcome merkle_tree_proof :=
  match n with
  | O => Done proof
  | S n =>
      h ← get_pristine_hash (log2_size - 1);
      proof ← set_sibling_hash h (log2_size - 1) proof;
      pristine_siblings n (log2_size - 1) proof
  end.

(** The loop over the stored nodes: the size and the node it stops at *)
Fixpoint node_siblings (n : nat) (t : machine_merkle_tree) (target_address log2_node_size : Z) (node : option node_ptr)
    (proof : merkle_tree_proof) : outcome (Z * option node_ptr * merkle_tree_proof) :=
  match n, node with
  | S n, Some p =>
      nd ← deref t p;
      let log2_child_size := log2_node_size - 1 in
      let bit := path_bit target_address log2_child_size in
      h ← get_child_hash t log2_child_size nd (negb bit);
      proof ← set_sibling_hash h log2_child_size proof;
      node_siblings n t target_address log2_child_size (child nd bit) proof
  | _, _ => Done (log2_node_size, node, proof)
  end.

Definition inconsistent_tree : exn := runtime_error "inconsistent merkle tree".

(** The three cases after the loop *)
Definition proof_below (t : machine_merkle_tree) (target_address log2_target_size : Z) (page_data : option (list Z))
    (log2_node_size : Z) (node : option node_ptr) (proof : merkle_tree_proof) : outcome merkle_tree_proof :=
  match node with
  | None =>
      throw_if (match page_data with Some _ => true | None => false end) inconsistent_tree ≫= fun _ =>
      proof ← pristine_siblings (Z.to_nat (log2_node_size - log2_target_size)) log2_node_size proof;
      h ← get_pristine_hash log2_target_size;
      mret (set_target_hash h proof)
  | Some p =>
      nd ← deref t p;
      if log2_node_size =? LOG2_PAGE_SIZE then
        if log2_target_size <? LOG2_PAGE_SIZE then
          '(page_hash, proof) ←
            match page_data with
            | Some data =>
                '(page_hash, target, proof) ←
                  get_inside_page_sibling_hashes target_address log2_target_size (m_target_hash proof) data proof;
                mret (page_hash, set_target_hash target proof)
            | None =>
                page_hash ← get_pristine_hash LOG2_PAGE_SIZE;
                proof ← pristine_siblings (Z.to_nat (LOG2_PAGE_SIZE - log2_target_size)) LOG2_PAGE_SIZE proof;
                h ← get_pristine_hash log2_target_size;
                mret (page_hash, set_target_hash h proof)
            end;
          throw_if (negb (bool_decide (n_hash nd = page_hash))) inconsistent_tree ≫= fun _ => mret proof
        else mret (set_target_hash (n_hash nd) proof)
      else
        throw_if (negb (log2_node_size =? log2_target_size)) (assertion_failure "log2_node_size == log2_target_size") ≫= fun _ =>
        mret (set_target_hash (n_hash nd) proof)
  end.

Definition get_proof (t : machine_merkle_tree) (target_address log2_target_size : Z) (page_data : option (list Z)) :
    outcome merkle_tree_proof :=
  throw_if ((LOG2_ROOT_SIZE <? log2_target_size) || (log2_target_size <? LOG2_WORD_SIZE))
    (runtime_error "log2_target_size is out of bounds") ≫= fun _ =>
  throw_if (negb ((target_address &ᵇ Z.shiftr (uint64 (Z.lnot 0)) (LOG2_ROOT_SIZE - log2_target_size)) =? 0))
    (runtime_error "misaligned target address") ≫= fun _ =>
  proof ← make_proof zero LOG2_ROOT_SIZE log2_target_size;
  let log2_stop_size := Z.max log2_target_size LOG2_PAGE_SIZE in
  '(log2_node_size, node, proof) ←
    node_siblings (Z.to_nat (LOG2_ROOT_SIZE - log2_stop_size)) t target_address LOG2_ROOT_SIZE (Some (m_root t)) proof;
  proof ← proof_below t target_address log2_target_size page_data log2_node_size node proof;
  root ← get_root_hash t;
  let proof := set_root_hash root (set_target_address target_address proof) in
  ok ← verify proof;
  throw_if (negb ok) (runtime_error "proof failed verification") ≫= fun _ =>
  mret proof.
End machine_merkle_tree.
Arguments machine_merkle_tree {_}.
