(* ===== verification/MachineMerkleTreeSpec.v ===== *)
(** * Correctness of the Merkle tree of the machine

    The heap of nodes is related to positions in the complete tree over the
    [2^52] pages: a node [n] levels above the pages that covers the pages from
    [i * 2^n] on is at [(n, i)].  During an update, a node whose hash is stale
    has a queued node below it (or is queued); the queue goes up level by level,
    and when it is empty the hash of every stored node is that of the reference
    tree. *)

From Stdlib Require Import Sorting.Sorted.
From S2P Require Import Prelude CppInt Hasher MerkleProof PristineMerkleTree MachineMerkleTree.

(** Where each node is *)
Abbreviation placement := (gmap node_ptr (nat * Z)).

Section spec.
Context `{i_hasher} (zero : hash_type).
Implicit Types (t : machine_merkle_tree) (p q : node_ptr) (g : Z -> hash_type).

(** ** Positions *)

Definition depth : nat := 52.

(** The links of the nodes agree with their positions. *)
Record shape t (pos : placement) : Prop := {
  sh_dom : forall p, is_Some (m_nodes t !! p) <-> is_Some (pos !! p);
  sh_root : pos !! m_root t = Some (depth, 0);
  sh_unique : forall p q x, pos !! p = Some x -> pos !! q = Some x -> p = q;
  sh_range : forall p n i, pos !! p = Some (n, i) -> (n <= depth)%nat /\ 0 <= i < 2 ^ Z.of_nat (depth - n);
  sh_child : forall p nd n i b c, m_nodes t !! p = Some nd -> pos !! p = Some (S n, i) -> child nd b = Some c ->
    pos !! c = Some (n, 2 * i + Z.b2z b);
  sh_parent : forall p nd n i, m_nodes t !! p = Some nd -> pos !! p = Some (n, i) ->
    (n = depth /\ n_parent nd = None) \/
    ((n < depth)%nat /\ exists q qd, n_parent nd = Some q /\ m_nodes t !! q = Some qd /\
       pos !! q = Some (S n, i `div` 2) /\ child qd (Z.odd i) = Some p);
  sh_next : forall p, is_Some (m_nodes t !! p) -> (p < m_next t)%nat;
}.

Definition pages_mapped t (pos : placement) : Prop := forall a p,
  m_page_node_map t !! a = Some p <-> exists k, a = k * 4096 /\ pos !! p = Some (0%nat, k).

(** The stored pages have the hashes of [g], and the other pages are zeros. *)
Record represents t (pos : placement) g : Prop := {
  rp_shape : shape t pos;
  rp_map : pages_mapped t pos;
  rp_page : forall p nd k, pos !! p = Some (0%nat, k) -> m_nodes t !! p = Some nd -> n_hash nd = g k;
  rp_absent : forall k, 0 <= k < 2 ^ 52 -> (forall p, pos !! p <> Some (0%nat, k)) -> g k = pristine_root 5 12;
}.

(** The hash of an inner node [n + 1] levels above the pages is that of its children. *)
Definition consistent t (n : nat) (nd : tree_node) : Prop := inner_node_hash t (12 + Z.of_nat n + 1) nd = Done (n_hash nd).

Definition all_consistent t (pos : placement) : Prop := forall p nd n i,
  m_nodes t !! p = Some nd -> pos !! p = Some (S n, i) -> consistent t n nd.

(** ** Levels *)

Lemma get_pristine_hash_spec k : 5 <= k <= 64 -> get_pristine_hash k = Done (pristine_root 5 k).
Proof.
  intros Hk. unfold get_pristine_hash. destruct (make_pristine_spec 64 5) as (tr & Ht & Hwf); [lia|lia|].
  change LOG2_ROOT_SIZE with 64. change LOG2_WORD_SIZE with 5. rewrite Ht. cbn [mbind outcome_bind].
  by apply (pristine_get_hash_spec 64 5).
Qed.

Lemma shape_same t t' pos :
  m_nodes t' = m_nodes t -> m_next t' = m_next t -> m_root t' = m_root t -> shape t pos -> shape t' pos.
Proof. intros En Ex Er []. split; rewrite ?En, ?Ex, ?Er; done. Qed.

Definition same_links (nd nd' : tree_node) : Prop :=
  n_parent nd' = n_parent nd /\ n_child0 nd' = n_child0 nd /\ n_child1 nd' = n_child1 nd.

Lemma same_links_child nd nd' b : same_links nd nd' -> child nd' b = child nd b.
Proof. intros (_ & H0 & H1). by destruct b. Qed.

Lemma set_node_inv t p nd nd' q qd :
  m_nodes t !! p = Some nd -> same_links nd nd' -> m_nodes (set_node p nd' t) !! q = Some qd ->
  exists qd0, m_nodes t !! q = Some qd0 /\ same_links qd0 qd /\ (q <> p -> qd = qd0).
Proof.
  intros Hp Hl. cbn [set_node m_nodes]. destruct (decide (p = q)) as [<-|Hne].
  - rewrite lookup_insert_eq. intros [= <-]. by exists nd.
  - rewrite lookup_insert_ne by done. intros Hq. by exists qd.
Qed.

Lemma set_node_fwd t p nd nd' q qd0 :
  m_nodes t !! p = Some nd -> same_links nd nd' -> m_nodes t !! q = Some qd0 ->
  exists qd, m_nodes (set_node p nd' t) !! q = Some qd /\ same_links qd0 qd /\ (q <> p -> qd = qd0).
Proof.
  intros Hp Hl Hq. cbn [set_node m_nodes]. destruct (decide (p = q)) as [<-|Hne].
  - rewrite lookup_insert_eq. rewrite Hp in Hq. injection Hq as <-. by exists nd'.
  - rewrite lookup_insert_ne by done. by exists qd0.
Qed.

(** Changing the hash or the mark of a node *)
Lemma shape_set_node t pos p nd nd' :
  shape t pos -> m_nodes t !! p = Some nd -> same_links nd nd' -> shape (set_node p nd' t) pos.
Proof.
  intros [H1 H2 H3 H4 H5 H6 H7] Hp Hl.
  assert (forall q, is_Some (m_nodes (set_node p nd' t) !! q) <-> is_Some (m_nodes t !! q)) as Hdom.
  { intros q. split; intros [qd Hq].
    - destruct (set_node_inv t p nd nd' q qd) as (qd0 & Hq0 & _); done.
    - destruct (set_node_fwd t p nd nd' q qd) as (qd0 & Hq0 & _); done. }
  split; try done.
  - intros q. by rewrite Hdom.
  - intros q qd n i b c Hq Hpos Hc. destruct (set_node_inv t p nd nd' q qd) as (qd0 & Hq0 & Hql & _); [done..|].
    rewrite (same_links_child _ _ _ Hql) in Hc. by eapply H5.
  - intros q qd n i Hq Hpos. destruct (set_node_inv t p nd nd' q qd) as (qd0 & Hq0 & Hql & _); [done..|].
    destruct (H6 q qd0 n i Hq0 Hpos) as [[Hn Hpar]|(Hn & r & rd & Hpar & Hr & Hrp & Hrc)].
    + left. split; [done|]. destruct Hql as [-> _]. done.
    + right. split; [done|]. destruct (set_node_fwd t p nd nd' r rd) as (rd' & Hr' & Hrl & _); [done..|].
      exists r, rd'. destruct Hql as [-> _]. by rewrite (same_links_child _ _ _ Hrl).
  - intros q. rewrite Hdom. apply H7.
Qed.

Lemma placed t pos p x : shape t pos -> pos !! p = Some x -> exists nd, m_nodes t !! p = Some nd.
Proof. intros Hs Hp. destruct (proj2 (sh_dom _ _ Hs p) ltac:(by eexists)) as [nd Hnd]. by exists nd. Qed.

Lemma deref_done t p nd : m_nodes t !! p = Some nd -> deref t p = Done nd.
Proof. intros Hp. unfold deref. by rewrite Hp. Qed.

(** ** The hashes of children *)

(** The hash that a node sees below it *)
Lemma get_child_hash_some t k nd b c cnd :
  child nd b = Some c -> m_nodes t !! c = Some cnd -> get_child_hash t k nd b = Done (n_hash cnd).
Proof. intros Hc Hn. unfold get_child_hash. rewrite Hc, (deref_done t c cnd) by done. done. Qed.

Lemma get_child_hash_none t k nd b :
  child nd b = None -> 5 <= k <= 64 -> get_child_hash t k nd b = Done (pristine_root 5 k).
Proof. intros Hc Hk. unfold get_child_hash. rewrite Hc. by apply get_pristine_hash_spec. Qed.

Lemma get_child_hash_done t pos p nd n i b :
  shape t pos -> m_nodes t !! p = Some nd -> pos !! p = Some (S n, i) -> exists h, get_child_hash t (12 + Z.of_nat n) nd b = Done h.
Proof.
  intros Hs Hp Hpos. destruct (sh_range _ _ Hs _ _ _ Hpos) as [Hn _]. unfold depth in Hn. destruct (child nd b) as [c|] eqn:Hc.
  - destruct (placed t pos c _ Hs (sh_child _ _ Hs _ _ _ _ _ _ Hp Hpos Hc)) as [cnd Hcn].
    eexists. by eapply get_child_hash_some.
  - eexists. apply get_child_hash_none; [done|lia].
Qed.

Lemma inner_node_hash_done t pos p nd n i :
  shape t pos -> m_nodes t !! p = Some nd -> pos !! p = Some (S n, i) -> exists h, inner_node_hash t (12 + Z.of_nat n + 1) nd = Done h.
Proof.
  intros Hs Hp Hpos. unfold inner_node_hash. rewrite Z.add_simpl_r.
  destruct (get_child_hash_done t pos p nd n i false Hs Hp Hpos) as [h0 ->].
  destruct (get_child_hash_done t pos p nd n i true Hs Hp Hpos) as [h1 ->]. cbn. by eexists.
Qed.

(** The hash of an inner node only depends on its links and on the hashes of its children. *)
Lemma inner_node_hash_ext t t' k nd nd' :
  same_links nd nd' ->
  (forall b c, child nd b = Some c -> exists cnd cnd', m_nodes t !! c = Some cnd /\ m_nodes t' !! c = Some cnd' /\ n_hash cnd' = n_hash cnd) ->
  inner_node_hash t' k nd' = inner_node_hash t k nd.
Proof.
  intros Hl Hc. unfold inner_node_hash, get_child_hash. rewrite !(same_links_child nd nd') by done.
  destruct (child nd false) as [c0|] eqn:E0; [destruct (Hc false c0 E0) as (d0 & d0' & H0 & H0' & Eh0);
    rewrite (deref_done t c0 d0), (deref_done t' c0 d0') by done|];
  (destruct (child nd true) as [c1|] eqn:E1; [destruct (Hc true c1 E1) as (d1 & d1' & H1 & H1' & Eh1);
    rewrite (deref_done t c1 d1), (deref_done t' c1 d1') by done|]); cbn; by rewrite ?Eh0, ?Eh1.
Qed.

(** ** The reference tree *)

(** The ancestors of a stored node are stored. *)
Lemma stored_above t pos p m j n :
  shape t pos -> pos !! p = Some (m, j) -> (m <= n <= depth)%nat -> exists q, pos !! q = Some (n, j `div` 2 ^ Z.of_nat (n - m)).
Proof.
  intros Hs Hp [Hmn Hn]. induction Hmn as [|n Hmn IH].
  - exists p. by rewrite Nat.sub_diag, Z.div_1_r.
  - destruct IH as [q Hq]; [lia|]. destruct (placed t pos q _ Hs Hq) as [qd Hqd].
    destruct (sh_parent _ _ Hs _ _ _ _ Hqd Hq) as [[-> _]|(_ & r & _ & _ & _ & Hr & _)]; [lia|].
    exists r. rewrite Hr. do 2 f_equal. rewrite <- div_pow2_succ by lia. do 2 f_equal. lia.
Qed.

Lemma pristine_node t pos g n i :
  represents t pos g -> (n <= depth)%nat -> 0 <= i < 2 ^ Z.of_nat (depth - n) -> (forall q, pos !! q <> Some (n, i)) ->
  node g n i = pristine_root 5 (12 + Z.of_nat n).
Proof.
  intros [Hs _ _ Ha] Hn Hi Hno. rewrite (node_pristine g (pristine_root 5 12)).
  - unfold pristine_root. rewrite pristine_add. f_equal. lia.
  - intros k Hk. pose proof (pow2_pos (Z.of_nat n) ltac:(lia)). apply Ha.
    + assert (2 ^ 52 = 2 ^ Z.of_nat (depth - n) * 2 ^ Z.of_nat n) as -> by (rewrite <- Z.pow_add_r by lia; f_equal; unfold depth in *; lia).
      nia.
    + intros p Hp. destruct (stored_above t pos p 0%nat k n Hs Hp) as [q Hq]; [lia|]. apply (Hno q). rewrite Hq, Nat.sub_0_r. do 2 f_equal.
      symmetry. apply (Z.div_unique_pos k _ i (k - i * 2 ^ Z.of_nat n)); nia.
Qed.

(** A missing child is a subtree of zeros. *)
Lemma no_child t pos p nd n i b :
  shape t pos -> m_nodes t !! p = Some nd -> pos !! p = Some (S n, i) -> child nd b = None ->
  forall q, pos !! q <> Some (n, 2 * i + Z.b2z b).
Proof.
  intros Hs Hp Hpos Hc q Hq. destruct (placed t pos q _ Hs Hq) as [qd Hqd]. destruct (sh_range _ _ Hs _ _ _ Hpos) as [Hn _].
  destruct (sh_parent _ _ Hs _ _ _ _ Hqd Hq) as [[-> _]|(_ & r & rd & _ & Hr & Hrp & Hrc)]; [lia|].
  replace ((2 * i + Z.b2z b) `div` 2) with i in Hrp by (destruct b; cbn [Z.b2z]; Z.div_mod_to_equations; lia).
  rewrite (sh_unique _ _ Hs r p _ Hrp Hpos) in Hr. rewrite Hp in Hr. injection Hr as <-.
  assert (Z.odd (2 * i + Z.b2z b) = b) as E by (rewrite Z.add_comm, Z.odd_add_mul_2; by destruct b).
  rewrite E in Hrc. congruence.
Qed.

Lemma child_range n i b : (S n <= depth)%nat -> 0 <= i < 2 ^ Z.of_nat (depth - S n) -> 0 <= 2 * i + Z.b2z b < 2 ^ Z.of_nat (depth - n).
Proof.
  intros Hn Hi. replace (depth - n)%nat with (S (depth - S n)) by lia. rewrite Nat2Z.inj_succ, Z.pow_succ_r by lia.
  destruct b; cbn [Z.b2z]; lia.
Qed.

(** The hash of a child, stored or not, in a tree whose lower levels are right *)
Lemma child_hash_node t pos g p nd n i b :
  represents t pos g -> m_nodes t !! p = Some nd -> pos !! p = Some (S n, i) ->
  (forall c cnd, pos !! c = Some (n, 2 * i + Z.b2z b) -> m_nodes t !! c = Some cnd -> n_hash cnd = node g n (2 * i + Z.b2z b)) ->
  get_child_hash t (12 + Z.of_nat n) nd b = Done (node g n (2 * i + Z.b2z b)).
Proof.
  intros Hr Hp Hpos Hc. pose proof (rp_shape _ _ _ Hr) as Hs. destruct (sh_range _ _ Hs _ _ _ Hpos) as [Hn Hi].
  destruct (child nd b) as [c|] eqn:Ec.
  - pose proof (sh_child _ _ Hs _ _ _ _ _ _ Hp Hpos Ec) as Hcp. destruct (placed t pos c _ Hs Hcp) as [cnd Hcn].
    by rewrite (get_child_hash_some _ _ _ _ _ _ Ec Hcn), (Hc c cnd).
  - rewrite get_child_hash_none by (done || unfold depth in Hn; lia). f_equal. symmetry.
    eapply pristine_node; [done|lia|by apply child_range|by eapply no_child].
Qed.

(** In a consistent tree every stored node has the hash of its position. *)
Lemma stored_node t pos g p nd n i :
  represents t pos g -> all_consistent t pos -> pos !! p = Some (n, i) -> m_nodes t !! p = Some nd -> n_hash nd = node g n i.
Proof.
  intros Hr Hc. revert p nd i. induction n as [|n IH]; intros p nd i Hpos Hp; [by apply (rp_page _ _ _ Hr p)|].
  pose proof (Hc p nd n i Hp Hpos) as E. unfold consistent, inner_node_hash in E. rewrite Z.add_simpl_r in E.
  rewrite !(child_hash_node t pos g p nd n i) in E by (try done; intros; by eapply IH).
  cbn in E. injection E as <-. by rewrite Z.add_0_r.
Qed.

Lemma child_hash_consistent t pos g p nd n i b :
  represents t pos g -> all_consistent t pos -> m_nodes t !! p = Some nd -> pos !! p = Some (S n, i) ->
  get_child_hash t (12 + Z.of_nat n) nd b = Done (node g n (2 * i + Z.b2z b)).
Proof. intros Hr Hc Hp Hpos. eapply child_hash_node; try done. intros. by eapply stored_node. Qed.

(** ** The queue *)

(** [q] is [p], or lies below it. *)
Definition covers (pos : placement) p q : Prop := exists n i m j,
  pos !! p = Some (n, i) /\ pos !! q = Some (m, j) /\ (m <= n)%nat /\ j `div` 2 ^ Z.of_nat (n - m) = i.

Definition queued t p : Prop := exists l, (l, p) ∈ m_merkle_update_fifo t.

(** A node whose hash is stale has a queued node below it, or is queued. *)
Definition pending t (pos : placement) : Prop := forall p nd n i,
  m_nodes t !! p = Some nd -> pos !! p = Some (S n, i) -> consistent t n nd \/ exists q, queued t q /\ covers pos p q.

(** The queued nodes are inner nodes, with their sizes. *)
Definition fifo_placed t (pos : placement) : Prop := forall l q, (l, q) ∈ m_merkle_update_fifo t ->
  exists n i, pos !! q = Some (S n, i) /\ l = 12 + Z.of_nat n + 1.

Definition marks_below t (m : Z) : Prop := forall p nd, m_nodes t !! p = Some nd -> n_mark nd <= m.

Lemma covers_refl pos p n i : pos !! p = Some (n, i) -> covers pos p p.
Proof. intros Hp. exists n, i, n, i. rewrite Nat.sub_diag, Z.div_1_r. auto. Qed.

(** What is strictly above a node is above its parent. *)
Lemma covers_parent t pos p q r n i :
  shape t pos -> covers pos q p -> q <> p -> pos !! p = Some (n, i) -> pos !! r = Some (S n, i `div` 2) -> covers pos q r.
Proof.
  intros Hs (m & j & n' & i' & Hq & Hp & Hle & Hd) Hne Hp' Hr. rewrite Hp in Hp'. injection Hp' as -> ->.
  assert (n <> m) as Hnm.
  { intros ->. apply Hne. apply (sh_unique _ _ Hs q p (m, i)); [|done]. rewrite Nat.sub_diag, Z.div_1_r in Hd. congruence. }
  exists m, j, (S n), (i `div` 2). split; [done|]. split; [done|]. split; [lia|]. rewrite <- Hd, Z.div_div by lia. f_equal.
  rewrite <- Z.pow_succ_r by lia. f_equal. lia.
Qed.

(** The effect of [enqueue_parent]: nothing for the root and for a parent that is
    marked, otherwise the parent is marked and goes to the end of the queue. *)
Lemma enqueue_parent_spec t pos l p n i :
  shape t pos -> pos !! p = Some (n, i) ->
  exists t', enqueue_parent l p t = Done t' /\
    ((n = depth /\ t' = t) \/
     exists q qd, (n < depth)%nat /\ m_nodes t !! q = Some qd /\ pos !! q = Some (S n, i `div` 2) /\
       ((n_mark qd = m_merkle_update_nonce t /\ t' = t) \/
        (n_mark qd <> m_merkle_update_nonce t /\
         t' = set_node q (set_mark (m_merkle_update_nonce t) qd) (set_fifo (m_merkle_update_fifo t ++ [(l + 1, q)]) t)))).
Proof.
  intros Hs Hp. destruct (placed t pos p _ Hs Hp) as [nd Hnd]. unfold enqueue_parent. rewrite (deref_done t p nd) by done.
  cbn [mbind outcome_bind]. destruct (sh_parent _ _ Hs _ _ _ _ Hnd Hp) as [[-> ->]|(Hn & q & qd & -> & Hq & Hqp & _)].
  - exists t. split; [done|]. by left.
  - rewrite (deref_done t q qd) by done. cbn [mbind outcome_bind]. destruct (Z.eqb_spec (n_mark qd) (m_merkle_update_nonce t)) as [E|E].
    + exists t. split; [done|]. right. exists q, qd. repeat (split; [done|]). by left.
    + eexists. split; [done|]. right. exists q, qd. repeat (split; [done|]). by right.
Qed.

(** Marks do not change what is represented. *)
Lemma represents_set_node t pos g p nd nd' :
  represents t pos g -> m_nodes t !! p = Some nd -> same_links nd nd' ->
  (forall k, pos !! p = Some (0%nat, k) -> n_hash nd' = n_hash nd) -> represents (set_node p nd' t) pos g.
Proof.
  intros [H1 H2 H3 H4] Hp Hl Hh. split; [by eapply shape_set_node|done| |done].
  intros q qd k Hq Hqd. cbn [set_node m_nodes] in Hqd. destruct (decide (p = q)) as [<-|Hne].
  - rewrite lookup_insert_eq in Hqd. injection Hqd as <-. rewrite (Hh k Hq). by apply (H3 p).
  - rewrite lookup_insert_ne in Hqd by done. by apply (H3 q).
Qed.

Lemma represents_same t t' pos g :
  m_nodes t' = m_nodes t -> m_next t' = m_next t -> m_root t' = m_root t -> m_page_node_map t' = m_page_node_map t ->
  represents t pos g -> represents t' pos g.
Proof.
  intros En Ex Er Em [H1 H2 H3 H4]. split; [by eapply shape_same| | |done].
  - intros a p. rewrite Em. apply H2.
  - intros p nd k. rewrite En. apply H3.
Qed.

(** A node keeps its hash and the hashes below it when the others change their marks or hashes. *)
Lemma consistent_ext t t' pos p nd nd' n i :
  shape t pos -> m_nodes t !! p = Some nd -> pos !! p = Some (S n, i) -> same_links nd nd' -> n_hash nd' = n_hash nd ->
  (forall c cnd, pos !! c = Some (n, 2 * i) \/ pos !! c = Some (n, 2 * i + 1) -> m_nodes t !! c = Some cnd ->
     exists cnd', m_nodes t' !! c = Some cnd' /\ n_hash cnd' = n_hash cnd) ->
  consistent t n nd -> consistent t' n nd'.
Proof.
  intros Hs Hp Hpos Hl Hh Hc Hcon. unfold consistent. rewrite Hh, <- Hcon.
  apply inner_node_hash_ext; [done|]. intros b c Hb.
  pose proof (sh_child _ _ Hs _ _ _ _ _ _ Hp Hpos Hb) as Hcp. destruct (placed t pos c _ Hs Hcp) as [cnd Hcn].
  destruct (Hc c cnd) as (cnd' & Hcn' & E); [|done|by exists cnd, cnd'].
  destruct b; cbn [Z.b2z] in Hcp; [by right|left]. by rewrite Z.add_0_r in Hcp.
Qed.

(** ** The loop of [end_update] *)

(** Sizes grow along the queue, by one level at most. *)
Definition level_step (x y : Z * node_ptr) : Prop := x.1 <= y.1 <= x.1 + 1.

(** The invariant: a node that is marked is queued, or is not above any queued level. *)
Record propagating t (pos : placement) g : Prop := {
  pg_represents : represents t pos g;
  pg_marks : marks_below t (m_merkle_update_nonce t);
  pg_fifo : fifo_placed t pos;
  pg_sorted : StronglySorted level_step (m_merkle_update_fifo t);
  pg_marked : forall p nd n i, m_nodes t !! p = Some nd -> pos !! p = Some (n, i) -> n_mark nd = m_merkle_update_nonce t ->
    queued t p \/ forall l q, (l, q) ∈ m_merkle_update_fifo t -> 12 + Z.of_nat n <= l;
  pg_pending : pending t pos;
}.

(** The nodes that the loop can still put in the queue *)
Definition unmarked t : gset node_ptr :=
  dom (filter (fun x => n_mark x.2 <> m_merkle_update_nonce t) (m_nodes t)).

Lemma elem_of_unmarked t p : p ∈ unmarked t <-> exists nd, m_nodes t !! p = Some nd /\ n_mark nd <> m_merkle_update_nonce t.
Proof.
  unfold unmarked. rewrite elem_of_dom. unfold is_Some. setoid_rewrite map_lookup_filter_Some. naive_solver.
Qed.

Lemma unmarked_size t : (size (unmarked t) <= size (m_nodes t))%nat.
Proof. unfold unmarked. rewrite size_dom. apply map_size_filter. Qed.

Lemma sorted_snoc l x : StronglySorted level_step l -> (forall y, y ∈ l -> level_step y x) -> StronglySorted level_step (l ++ [x]).
Proof.
  induction 1 as [|y l Hl IH Hy]; intros Hx; cbn; [repeat constructor|].
  constructor; [apply IH; intros; apply Hx; by right|].
  apply Forall_app. split; [done|]. apply Forall_cons. split; [apply Hx; by left|done].
Qed.

(** What an update of the hash of a node does: the node [p], at [(n, i)] and of
    size [l], takes the hash [h], and its parent is in the queue, which was
    [rest]. *)
Record stepped t (pos : placement) (l : Z) p (n : nat) (i : Z) (h : hash_type) (rest : list (Z * node_ptr)) t' : Prop := {
  st_nodes : forall r rd', m_nodes t' !! r = Some rd' -> exists rd, m_nodes t !! r = Some rd /\ same_links rd rd' /\
    n_hash rd' = (if decide (r = p) then h else n_hash rd) /\
    (n_mark rd' = n_mark rd \/ n_mark rd' = m_merkle_update_nonce t /\ queued t' r);
  st_dom : forall r rd, m_nodes t !! r = Some rd -> exists rd', m_nodes t' !! r = Some rd';
  st_shape : shape t' pos;
  st_map : m_page_node_map t' = m_page_node_map t;
  st_nonce : m_merkle_update_nonce t' = m_merkle_update_nonce t;
  st_fifo : m_merkle_update_fifo t' = rest \/
    exists q, m_merkle_update_fifo t' = rest ++ [(l + 1, q)] /\ pos !! q = Some (S n, i `div` 2);
  st_parent : forall q, pos !! q = Some (S n, i `div` 2) -> queued t' q;
  st_measure : (size (unmarked t') + length (m_merkle_update_fifo t') < size (unmarked t) + S (length rest))%nat;
}.

Lemma st_keep t pos l p n i h rest t' x : stepped t pos l p n i h rest t' -> x ∈ rest -> x ∈ m_merkle_update_fifo t'.
Proof. intros Hst Hx. destruct (st_fifo _ _ _ _ _ _ _ _ _ Hst) as [->|(q & -> & _)]; [done|]. apply elem_of_app. by left. Qed.

Lemma st_new t pos l p n i h rest t' l' q :
  stepped t pos l p n i h rest t' -> (l', q) ∈ m_merkle_update_fifo t' ->
  (l', q) ∈ rest \/ (l' = l + 1 /\ pos !! q = Some (S n, i `div` 2)).
Proof.
  intros Hst Hx. destruct (st_fifo _ _ _ _ _ _ _ _ _ Hst) as [E|(q' & E & Hq')]; rewrite E in Hx; [by left|].
  apply elem_of_app in Hx as [Hx|[= -> ->]%list_elem_of_singleton]; [by left|by right].
Qed.

Section update_node.
Context t (pos : placement) (Hs : shape t pos) (l : Z) p (rest : list (Z * node_ptr)).
Context (n : nat) (i : Z) (Hp : pos !! p = Some (n, i)).
Context nd (Hnd : m_nodes t !! p = Some nd) (h : hash_type).

Definition with_hash : machine_merkle_tree := set_fifo rest (set_node p (set_hash h nd) t).

Local Lemma with_hash_shape : shape with_hash pos.
Proof. apply (shape_same (set_node p (set_hash h nd) t)); try done. by eapply shape_set_node. Qed.

Local Lemma with_hash_nodes r rd : m_nodes with_hash !! r = Some rd ->
  exists rd0, m_nodes t !! r = Some rd0 /\ same_links rd0 rd /\ n_hash rd = (if decide (r = p) then h else n_hash rd0) /\ n_mark rd = n_mark rd0.
Proof.
  intros Hr. cbn [with_hash set_fifo set_node m_nodes] in Hr. destruct (decide (r = p)) as [->|Hne].
  - rewrite lookup_insert_eq in Hr. injection Hr as <-. by exists nd.
  - rewrite lookup_insert_ne in Hr by done. by exists rd.
Qed.

Local Lemma with_hash_dom r rd : m_nodes t !! r = Some rd -> exists rd', m_nodes with_hash !! r = Some rd'.
Proof.
  intros Hr. cbn [with_hash set_fifo set_node m_nodes].
  destruct (decide (p = r)) as [<-|Hne]; [rewrite lookup_insert_eq|rewrite lookup_insert_ne by done]; eauto.
Qed.

Local Lemma unmarked_with_hash : unmarked with_hash = unmarked t.
Proof.
  apply set_eq. intros r. rewrite !elem_of_unmarked. cbn [with_hash set_fifo set_node m_nodes m_merkle_update_nonce].
  destruct (decide (p = r)) as [<-|Hne].
  - rewrite lookup_insert_eq, Hnd. split; intros (rd & [= <-] & Hm); eexists; by split.
  - by rewrite lookup_insert_ne.
Qed.

(** The parent was already in the queue, or there is none. *)
Local Lemma stepped_same :
  (forall q, pos !! q = Some (S n, i `div` 2) -> exists l', (l', q) ∈ rest) -> stepped t pos l p n i h rest with_hash.
Proof.
  intros Hpar. split; try done.
  - intros r rd' Hr. destruct (with_hash_nodes r rd' Hr) as (rd & H1 & H2 & H3 & H4). exists rd. auto.
  - apply with_hash_dom.
  - apply with_hash_shape.
  - by left.
  - rewrite unmarked_with_hash. cbn. lia.
Qed.

(** The parent is put in the queue. *)
Local Lemma stepped_push q qd :
  m_nodes with_hash !! q = Some qd -> pos !! q = Some (S n, i `div` 2) -> n_mark qd <> m_merkle_update_nonce with_hash ->
  stepped t pos l p n i h rest
    (set_node q (set_mark (m_merkle_update_nonce with_hash) qd) (set_fifo (m_merkle_update_fifo with_hash ++ [(l + 1, q)]) with_hash)).
Proof.
  intros Hqd Hq Hm. set (t2 := set_node q _ _). assert (queued t2 q) as Hin
    by (exists (l + 1); cbn; apply elem_of_app; right; by apply list_elem_of_singleton).
  assert (forall r, m_nodes t2 !! r = if decide (r = q) then Some (set_mark (m_merkle_update_nonce t) qd) else m_nodes with_hash !! r) as Ht2.
  { intros r. cbn [t2 set_node m_nodes]. case_decide as E; [subst; by rewrite lookup_insert_eq|by rewrite lookup_insert_ne]. }
  split; try done.
  - intros r rd' Hr. rewrite Ht2 in Hr. case_decide as E.
    + subst r. injection Hr as <-. destruct (with_hash_nodes q qd Hqd) as (rd & H1 & H2 & H3 & H4). exists rd.
      split; [done|]. split; [done|]. split; [done|]. by right.
    + destruct (with_hash_nodes r rd' Hr) as (rd & H1 & H2 & H3 & H4). exists rd. auto.
  - intros r rd Hr. rewrite Ht2. case_decide; [by eexists|]. by eapply with_hash_dom.
  - eapply shape_set_node; [apply (shape_same with_hash); try done; apply with_hash_shape|exact Hqd|done].
  - right. by exists q.
  - intros q' Hq'. by rewrite (sh_unique _ _ Hs q' q _ Hq' Hq).
  - cbn [t2 set_node set_fifo m_merkle_update_fifo with_hash]. rewrite length_app. cbn [length].
    assert (unmarked t2 ⊂ unmarked t) as Hsub; [|apply subset_size in Hsub; lia].
    rewrite <- unmarked_with_hash. apply strict_spec_alt. split.
    + intros r. rewrite !elem_of_unmarked, Ht2. case_decide; [|done]. intros (rd & [= <-] & Hn). by destruct Hn.
    + intros E. assert (q ∈ unmarked with_hash) as Hq1 by (apply elem_of_unmarked; by exists qd).
      rewrite <- E in Hq1. apply elem_of_unmarked in Hq1 as (rd & Hr & Hn).
      rewrite Ht2, decide_True in Hr by done. injection Hr as <-. by destruct Hn.
Qed.

Lemma stepped_enqueue :
  (forall q qd, pos !! q = Some (S n, i `div` 2) -> m_nodes t !! q = Some qd -> n_mark qd = m_merkle_update_nonce t ->
     exists l', (l', q) ∈ rest) ->
  exists t', enqueue_parent l p with_hash = Done t' /\ stepped t pos l p n i h rest t'.
Proof.
  intros Hmk. destruct (enqueue_parent_spec with_hash pos l p n i with_hash_shape Hp) as (t' & -> & Hcase).
  exists t'. split; [done|]. destruct Hcase as [[Hn ->]|(q & qd & Hn & Hqd & Hq & [[Hm ->]|[Hm ->]])].
  - apply stepped_same. intros q Hq. destruct (sh_range _ _ Hs _ _ _ Hq). lia.
  - apply stepped_same. intros q' Hq'. rewrite (sh_unique _ _ Hs q' q _ Hq' Hq).
    destruct (with_hash_nodes q qd Hqd) as (rd & Hrd & _ & _ & Hmark). apply (Hmk q rd); [done..|]. by rewrite <- Hmark.
  - by apply stepped_push.
Qed.
End update_node.

Section stepped.
Context t (pos : placement) g (Ht : propagating t pos g).
Context (l : Z) p (rest : list (Z * node_ptr)) (Hf : m_merkle_update_fifo t = (l, p) :: rest).
Context (n : nat) (i : Z) (Hp : pos !! p = Some (S n, i)) (Hl : l = 12 + Z.of_nat n + 1).
Context nd (Hnd : m_nodes t !! p = Some nd) (h : hash_type) (Hh : inner_node_hash t (12 + Z.of_nat n + 1) nd = Done h).
Context t' (Ht' : stepped t pos l p (S n) i h rest t').

(** The queue is sorted: its front is the least. *)
Local Lemma front_least l' q : (l', q) ∈ rest -> l <= l' <= l + 1.
Proof.
  intros Hin. pose proof (pg_sorted _ _ _ Ht) as Hsort. rewrite Hf in Hsort. apply StronglySorted_inv in Hsort as [_ Hall].
  rewrite Forall_forall in Hall. by specialize (Hall _ Hin).
Qed.

Local Lemma stepped_represents : represents t' pos g.
Proof.
  split; [apply Ht'| | |by apply Ht].
  { intros a q. rewrite (st_map _ _ _ _ _ _ _ _ _ Ht'). apply (rp_map _ _ _ (pg_represents _ _ _ Ht)). }
  intros r rd' k Hr Hrd'. destruct (st_nodes _ _ _ _ _ _ _ _ _ Ht' r rd' Hrd') as (rd & Hrd & _ & -> & _).
  rewrite decide_False by (intros ->; congruence). by apply (rp_page _ _ _ (pg_represents _ _ _ Ht) r).
Qed.

Local Lemma stepped_marks : marks_below t' (m_merkle_update_nonce t').
Proof.
  intros r rd' Hr. rewrite (st_nonce _ _ _ _ _ _ _ _ _ Ht').
  destruct (st_nodes _ _ _ _ _ _ _ _ _ Ht' r rd' Hr) as (rd & Hrd & _ & _ & [->|[-> _]]); [by apply (pg_marks _ _ _ Ht r)|done].
Qed.

Local Lemma stepped_fifo : fifo_placed t' pos.
Proof.
  intros l' q Hin. destruct (st_new _ _ _ _ _ _ _ _ _ _ _ Ht' Hin) as [Hr|[-> Hq]].
  - apply (pg_fifo _ _ _ Ht). rewrite Hf. by right.
  - exists (S n), (i `div` 2). split; [done|]. lia.
Qed.

Local Lemma stepped_least l' q : (l', q) ∈ m_merkle_update_fifo t' -> l <= l'.
Proof.
  intros Hin. destruct (st_new _ _ _ _ _ _ _ _ _ _ _ Ht' Hin) as [Hr|[-> _]]; [|lia].
  by apply (front_least l' q).
Qed.

Local Lemma stepped_marked r rd' m j :
  m_nodes t' !! r = Some rd' -> pos !! r = Some (m, j) -> n_mark rd' = m_merkle_update_nonce t' ->
  queued t' r \/ forall l' q, (l', q) ∈ m_merkle_update_fifo t' -> 12 + Z.of_nat m <= l'.
Proof.
  intros Hr Hpos. rewrite (st_nonce _ _ _ _ _ _ _ _ _ Ht').
  destruct (st_nodes _ _ _ _ _ _ _ _ _ Ht' r rd' Hr) as (rd & Hrd & _ & _ & [->|[_ ?]]); [|by left].
  intros Hm. destruct (pg_marked _ _ _ Ht r rd m j Hrd Hpos Hm) as [[l' Hin]|Hall].
  - rewrite Hf in Hin. apply elem_of_cons in Hin as [[= -> ->]|Hin].
    + right. rewrite Hp in Hpos. injection Hpos as <- <-. intros l' q Hin. apply stepped_least in Hin. lia.
    + left. exists l'. by eapply st_keep.
  - right. intros l' q Hin. apply stepped_least in Hin. specialize (Hall l p). rewrite Hf in Hall. specialize (Hall ltac:(left)). lia.
Qed.

(** The children of a node that does not cover [p] keep their hashes. *)
Local Lemma stepped_consistent r rd rd' m j :
  m_nodes t !! r = Some rd -> m_nodes t' !! r = Some rd' -> same_links rd rd' -> r <> p -> n_hash rd' = n_hash rd ->
  pos !! r = Some (S m, j) -> ~ (S m = S (S n) /\ j = i `div` 2) -> consistent t m rd -> consistent t' m rd'.
Proof.
  intros Hr Hr' Hlk Hne Hhr Hpos Hnp. pose proof (rp_shape _ _ _ (pg_represents _ _ _ Ht)) as Hs.
  apply (consistent_ext t t' pos r rd rd' m j); try done.
  intros c cnd Hc Hcn. destruct (st_dom _ _ _ _ _ _ _ _ _ Ht' c cnd Hcn) as [cnd' Hcn'].
  exists cnd'. split; [done|]. destruct (st_nodes _ _ _ _ _ _ _ _ _ Ht' c cnd' Hcn') as (cnd0 & Hcn0 & _ & -> & _).
  rewrite Hcn in Hcn0. injection Hcn0 as <-. apply decide_False. intros ->. apply Hnp.
  destruct Hc as [Hc|Hc]; rewrite Hp in Hc; injection Hc as <- ->; (split; [done|Z.div_mod_to_equations; lia]).
Qed.

Local Lemma stepped_front rd' : m_nodes t' !! p = Some rd' -> consistent t' n rd'.
Proof.
  intros Hr'. pose proof (rp_shape _ _ _ (pg_represents _ _ _ Ht)) as Hs.
  destruct (st_nodes _ _ _ _ _ _ _ _ _ Ht' p rd' Hr') as (rd & Hrd & Hlk & Hhash & _).
  rewrite Hnd in Hrd. injection Hrd as <-. rewrite decide_True in Hhash by done. unfold consistent. rewrite Hhash, <- Hh.
  apply inner_node_hash_ext; [done|]. intros b c Hc.
  pose proof (sh_child _ _ Hs _ _ _ _ _ _ Hnd Hp Hc) as Hcp. destruct (placed t pos c _ Hs Hcp) as [cnd Hcn].
  destruct (st_dom _ _ _ _ _ _ _ _ _ Ht' c cnd Hcn) as [cnd' Hcn']. exists cnd, cnd'. split; [done|]. split; [done|].
  destruct (st_nodes _ _ _ _ _ _ _ _ _ Ht' c cnd' Hcn') as (cnd0 & Hcn0 & _ & -> & _). rewrite Hcn in Hcn0. injection Hcn0 as <-.
  apply decide_False. intros ->. rewrite Hp in Hcp. injection Hcp. lia.
Qed.

Local Lemma stepped_sorted : StronglySorted level_step (m_merkle_update_fifo t').
Proof.
  pose proof (pg_sorted _ _ _ Ht) as Hsort. rewrite Hf in Hsort. apply StronglySorted_inv in Hsort as [Hsort _].
  destruct (st_fifo _ _ _ _ _ _ _ _ _ Ht') as [->|(q & -> & _)]; [done|]. apply sorted_snoc; [done|].
  intros [l' q'] Hx. pose proof (front_least l' q' Hx). unfold level_step. cbn. lia.
Qed.

Local Lemma stepped_pending : pending t' pos.
Proof.
  intros r rd' m j Hr' Hpos. pose proof (rp_shape _ _ _ (pg_represents _ _ _ Ht)) as Hs.
  destruct (st_nodes _ _ _ _ _ _ _ _ _ Ht' r rd' Hr') as (rd & Hrd & Hlk & Hhash & _).
  destruct (decide (r = p)) as [->|Hne].
  { left. rewrite Hp in Hpos. injection Hpos as <- <-. by apply stepped_front. }
  destruct (decide (S m = S (S n) /\ j = i `div` 2)) as [[Em Ej]|Hnp].
  { right. exists r. split; [|by eapply covers_refl]. apply (st_parent _ _ _ _ _ _ _ _ _ Ht'). congruence. }
  destruct (pg_pending _ _ _ Ht r rd m j Hrd Hpos) as [Hc|(q & [l' Hq] & Hcov)].
  - left. by eapply stepped_consistent.
  - right. rewrite Hf in Hq. apply elem_of_cons in Hq as [[= -> ->]|Hq].
    + destruct (placed t pos p _ Hs Hp) as [pd Hpd]. destruct (sh_parent _ _ Hs _ _ _ _ Hpd Hp) as [[Hn _]|(_ & q & _ & _ & _ & Hq & _)].
      * exfalso. destruct Hcov as (a & b & c & d & Ha & Hb & Hle & Hd). rewrite Hp in Hb. injection Hb as <- <-.
        destruct (sh_range _ _ Hs _ _ _ Ha). apply Hne, (sh_unique _ _ Hs r p (a, b)); [done|]. rewrite Hp.
        assert (a = S n) as -> by lia. rewrite Nat.sub_diag, Z.div_1_r in Hd. congruence.
      * exists q. split; [by apply (st_parent _ _ _ _ _ _ _ _ _ Ht')|]. by eapply covers_parent.
    + exists q. split; [|done]. exists l'. by eapply st_keep.
Qed.

Lemma stepped_propagating : propagating t' pos g.
Proof.
  split.
  - apply stepped_represents.
  - apply stepped_marks.
  - apply stepped_fifo.
  - apply stepped_sorted.
  - apply stepped_marked.
  - apply stepped_pending.
Qed.
End stepped.

(** The parent of the front node is queued if it is marked. *)
Lemma marked_parent t pos g l p rest n i q qd :
  propagating t pos g -> m_merkle_update_fifo t = (l, p) :: rest -> pos !! p = Some (S n, i) -> l = 12 + Z.of_nat n + 1 ->
  pos !! q = Some (S (S n), i `div` 2) -> m_nodes t !! q = Some qd -> n_mark qd = m_merkle_update_nonce t ->
  exists l', (l', q) ∈ rest.
Proof.
  intros Ht Hf Hp Hl Hq Hqd Hm. destruct (pg_marked _ _ _ Ht q qd _ _ Hqd Hq Hm) as [[l' Hin]|Hall].
  - rewrite Hf in Hin. apply elem_of_cons in Hin as [[= -> ->]|Hin]; [|by exists l'].
    rewrite Hp in Hq. injection Hq. lia.
  - exfalso. specialize (Hall l p). rewrite Hf in Hall. specialize (Hall ltac:(left)). lia.
Qed.

Lemma propagate_spec fuel t pos g :
  propagating t pos g -> (size (unmarked t) + length (m_merkle_update_fifo t) <= fuel)%nat ->
  exists t', propagate fuel t = Done t' /\ represents t' pos g /\ all_consistent t' pos /\
    m_merkle_update_nonce t' = m_merkle_update_nonce t /\ marks_below t' (m_merkle_update_nonce t).
Proof.
  revert t. induction fuel as [|fuel IH]; intros t Ht Hfuel; destruct (m_merkle_update_fifo t) as [|[l p] rest] eqn:Hf; cbn [length] in Hfuel; try lia.
  1, 2: exists t; cbn [propagate]; rewrite Hf; (split; [done|]); (split; [apply Ht|]); (split; [|split; [done|apply Ht]]);
    intros r rd m j Hr Hpos; destruct (pg_pending _ _ _ Ht r rd m j Hr Hpos) as [|(q & [l Hq] & _)]; [done|];
    rewrite Hf in Hq; by apply not_elem_of_nil in Hq.
  pose proof (rp_shape _ _ _ (pg_represents _ _ _ Ht)) as Hs.
  destruct (pg_fifo _ _ _ Ht l p) as (n & i & Hp & Hl); [rewrite Hf; left|].
  destruct (placed t pos p _ Hs Hp) as [nd Hnd]. destruct (inner_node_hash_done t pos p nd n i Hs Hnd Hp) as [h Hh].
  destruct (stepped_enqueue t pos Hs l p rest (S n) i Hp nd Hnd h) as (t2 & E2 & Hst).
  { intros q qd. by apply (marked_parent t pos g l p rest n i). }
  cbn [propagate]. rewrite Hf. unfold update_inner_node_hash. rewrite (deref_done t p nd) by done.
  cbn [mbind outcome_bind mret outcome_ret]. rewrite Hl, Hh, <- Hl. cbn [mbind outcome_bind mret outcome_ret].
  fold (with_hash t p rest nd h). rewrite E2. cbn [mbind outcome_bind].
  destruct (IH t2) as (t' & E' & Hr & Hc & Hno & Hma).
  - exact (stepped_propagating t pos g Ht l p rest Hf n i Hp Hl nd Hnd h Hh t2 Hst).
  - pose proof (st_measure _ _ _ _ _ _ _ _ _ Hst). cbn [length] in *. lia.
  - exists t'. rewrite <- (st_nonce _ _ _ _ _ _ _ _ _ Hst). done.
Qed.

(** ** Creation of nodes *)

(** The position [(n, i)] is on the path from the root to the page [k]. *)
Definition on_path (k : Z) (n : nat) (i : Z) : Prop := i = k `div` 2 ^ Z.of_nat n.

(** Nodes were added on the path to the page [k]; the others are as they were. *)
Record grown (k : Z) t (pos : placement) t' (pos' : placement) : Prop := {
  gr_shape : shape t' pos';
  gr_pos : pos ⊆ pos';
  gr_new : forall q n i, pos !! q = None -> pos' !! q = Some (n, i) -> on_path k n i;
  gr_old : forall q nd, m_nodes t !! q = Some nd -> exists nd', m_nodes t' !! q = Some nd' /\
    n_hash nd' = n_hash nd /\ n_mark nd' = n_mark nd /\ (forall n i, pos !! q = Some (n, i) -> ~ on_path k n i -> nd' = nd);
  gr_mark : forall q nd', m_nodes t !! q = None -> m_nodes t' !! q = Some nd' -> n_mark nd' = 0;
  gr_root : m_root t' = m_root t;
  gr_nonce : m_merkle_update_nonce t' = m_merkle_update_nonce t;
  gr_fifo : m_merkle_update_fifo t' = m_merkle_update_fifo t;
}.

Lemma grown_refl k t pos : shape t pos -> grown k t pos t pos.
Proof.
  intros Hs. split; try done.
  - intros q n i H1 H2. congruence.
  - intros q nd Hq. by exists nd.
  - intros q nd H1 H2. congruence.
Qed.

Lemma grown_trans k t1 pos1 t2 pos2 t3 pos3 :
  shape t1 pos1 -> grown k t1 pos1 t2 pos2 -> grown k t2 pos2 t3 pos3 -> grown k t1 pos1 t3 pos3.
Proof.
  intros Hs1 [A1 A2 A3 A4 A5 A6 A7 A8] [B1 B2 B3 B4 B5 B6 B7 B8]. split; try congruence; try done.
  - by etrans.
  - intros q n i Hn Hp. destruct (pos2 !! q) as [[n' i']|] eqn:E; [|by apply (B3 q)].
    pose proof (lookup_weaken pos2 pos3 q (n', i') E B2) as E3. rewrite Hp in E3. injection E3 as <- <-. by apply (A3 q).
  - intros q nd Hq. destruct (A4 q nd Hq) as (nd2 & H2 & Eh & Em & Eo). destruct (B4 q nd2 H2) as (nd3 & H3 & Eh3 & Em3 & Eo3).
    exists nd3. split; [done|]. split; [congruence|]. split; [congruence|]. intros n i Hp Hnp.
    rewrite (Eo3 n i) by (done || by eapply lookup_weaken). by apply (Eo n i).
  - intros q nd' Hn Hq. destruct (m_nodes t2 !! q) as [nd2|] eqn:E; [|by eapply B5].
    destruct (B4 q nd2 E) as (nd3 & H3 & _ & Em & _). rewrite Hq in H3. injection H3 as <-. rewrite Em. by eapply A5.
Qed.

Lemma next_fresh t pos : shape t pos -> m_nodes t !! m_next t = None.
Proof.
  intros Hs. destruct (m_nodes t !! m_next t) as [nd|] eqn:E; [|done].
  pose proof (sh_next _ _ Hs (m_next t) ltac:(by eexists)). lia.
Qed.

(** The new child of [p] in the direction of the page [k] *)
Section new_child.
Context t (pos : placement) (k : Z) p (nd : tree_node) (n : nat) (b : bool).
Context (Hs : shape t pos) (Hp : pos !! p = Some (S n, k `div` 2 ^ Z.of_nat (S n))) (Hnd : m_nodes t !! p = Some nd).
Context (Hb : b = Z.odd (k `div` 2 ^ Z.of_nat n)) (Hno : child nd b = None).

Let c : node_ptr := m_next t.
Let i : Z := k `div` 2 ^ Z.of_nat n.
Let cnd : tree_node := TreeNode zero (Some p) None None 0.
Definition with_child : machine_merkle_tree :=
  set_node p (set_child b c nd) (set_node c cnd (snd (create_node zero t))).
Let pos' : placement := <[c := (n, i)]> pos.

Local Lemma fresh_ptr : m_nodes t !! c = None /\ pos !! c = None.
Proof.
  pose proof (next_fresh t pos Hs) as E. split; [done|]. destruct (pos !! c) as [x|] eqn:Ep; [|done].
  destruct (placed t pos c x Hs Ep). unfold c in *. congruence.
Qed.

Local Lemma parent_not_fresh : p <> c.
Proof. intros ->. destruct fresh_ptr. congruence. Qed.

Local Lemma with_child_lookup q :
  m_nodes with_child !! q = if decide (q = p) then Some (set_child b c nd) else if decide (q = c) then Some cnd else m_nodes t !! q.
Proof.
  pose proof parent_not_fresh. cbn [with_child create_node snd set_node m_nodes]. fold c. repeat case_decide; subst.
  - by rewrite lookup_insert_eq.
  - by rewrite lookup_insert_ne, lookup_insert_eq.
  - by rewrite !lookup_insert_ne.
Qed.

Local Lemma child_index : k `div` 2 ^ Z.of_nat (S n) = i `div` 2 /\ i = 2 * (k `div` 2 ^ Z.of_nat (S n)) + Z.b2z b.
Proof.
  rewrite Nat2Z.inj_succ, <- Z.add_1_r, div_pow2_succ by lia. fold i in Hb |- *. split; [done|].
  subst b. rewrite (Z.div_mod i 2) at 1 by lia. by rewrite Zmod_odd; destruct (Z.odd i).
Qed.

Local Lemma child_free q : pos !! q <> Some (n, i).
Proof. destruct child_index as [_ ->]. by eapply no_child. Qed.

Local Lemma with_child_root : m_root t <> c.
Proof. intros E. pose proof (sh_root _ _ Hs) as Hr. rewrite E in Hr. destruct fresh_ptr. congruence. Qed.

Local Lemma with_child_parent q qd m j :
  m_nodes with_child !! q = Some qd -> pos' !! q = Some (m, j) ->
  (m = depth /\ n_parent qd = None) \/
  ((m < depth)%nat /\ exists r rd, n_parent qd = Some r /\ m_nodes with_child !! r = Some rd /\
     pos' !! r = Some (S m, j `div` 2) /\ child rd (Z.odd j) = Some q).
Proof.
  pose proof parent_not_fresh as Hpc. destruct fresh_ptr as [Hc1 Hc2]. destruct (sh_range _ _ Hs _ _ _ Hp) as [Hn _].
  rewrite with_child_lookup. destruct (decide (q = c)) as [->|Hqc].
  - rewrite decide_False by congruence. intros [= <-]. unfold pos'. rewrite lookup_insert_eq. intros [= <- <-].
    right. split; [lia|]. exists p, (set_child b c nd). rewrite with_child_lookup, decide_True by done.
    rewrite lookup_insert_ne by congruence. fold i in Hb. split; [done|]. split; [done|].
    split; [rewrite Hp; do 2 f_equal; apply child_index|]. rewrite <- Hb. by destruct b.
  - intros Hq Hpos. unfold pos' in Hpos. rewrite lookup_insert_ne in Hpos by congruence.
    assert (exists qd0, m_nodes t !! q = Some qd0 /\ n_parent qd = n_parent qd0) as (qd0 & Hq0 & Epar).
    { case_decide as Hqp; [|by exists qd]. subst q. injection Hq as <-. by exists nd. }
    rewrite Epar. destruct (sh_parent _ _ Hs _ _ _ _ Hq0 Hpos) as [?|(Hm & r & rd & Hpar & Hr & Hrp & Hrc)]; [by left|right].
    split; [done|]. assert (r <> c) by congruence. unfold pos'.
    exists r, (if decide (r = p) then set_child b c nd else rd). rewrite lookup_insert_ne by congruence. rewrite with_child_lookup.
    split; [done|]. split; [|split; [done|]].
    + destruct (decide (r = p)); [done|]. by rewrite decide_False.
    + destruct (decide (r = p)) as [->|]; [|done]. rewrite Hnd in Hr. injection Hr as <-.
      destruct b eqn:Eb, (Z.odd j) eqn:Ej; cbn [child set_child n_child0 n_child1] in *; congruence.
Qed.

Local Lemma with_child_shape : shape with_child pos'.
Proof.
  pose proof parent_not_fresh as Hpc. destruct fresh_ptr as [Hc1 Hc2]. destruct (sh_range _ _ Hs _ _ _ Hp) as [Hn Hi].
  split.
  - intros q. rewrite with_child_lookup. unfold pos'. destruct (decide (q = c)) as [->|Hqc].
    + rewrite decide_False, lookup_insert_eq by congruence. split; intros _; by eexists.
    + rewrite lookup_insert_ne by congruence. case_decide as Hqp; [|apply Hs]. subst q.
      split; intros _; [by eexists|by eexists].
  - unfold pos'. rewrite lookup_insert_ne; [apply Hs|]. intros E. by apply with_child_root.
  - intros q r x. unfold pos'. destruct (decide (q = c)) as [->|Hq], (decide (r = c)) as [->|Hr];
      rewrite ?lookup_insert_eq, ?lookup_insert_ne by congruence; try done.
    + intros [= <-] Hr'. by apply child_free in Hr'.
    + intros Hq' [= <-]. by apply child_free in Hq'.
    + apply Hs.
  - intros q m j. unfold pos'. destruct (decide (q = c)) as [->|Hq];
      rewrite ?lookup_insert_eq, ?lookup_insert_ne by congruence; [|apply Hs].
    intros [= <- <-]. split; [lia|]. destruct child_index as [_ ->]. by apply child_range.
  - intros q qd m j bb cc. rewrite with_child_lookup. unfold pos'.
    destruct (decide (q = c)) as [->|Hqc].
    { rewrite decide_False by congruence. intros [= <-] _. by destruct bb. }
    rewrite (lookup_insert_ne pos) by congruence. case_decide as Hqp.
    + subst q. intros [= <-]. rewrite Hp. intros [= <- <-] Hcc. destruct (decide (bb = b)) as [->|Hbb].
      * assert (cc = c) as -> by (destruct b; cbn in Hcc; congruence). rewrite lookup_insert_eq. do 2 f_equal. apply child_index.
      * assert (child nd bb = Some cc) as Hcc' by (destruct b, bb; cbn in *; congruence).
        pose proof (sh_child _ _ Hs _ _ _ _ _ _ Hnd Hp Hcc') as Hpos. rewrite lookup_insert_ne by congruence. done.
    + intros Hq Hpos Hcc. pose proof (sh_child _ _ Hs _ _ _ _ _ _ Hq Hpos Hcc) as Hpos'.
      rewrite lookup_insert_ne by congruence. done.
  - apply with_child_parent.
  - intros q. rewrite with_child_lookup. cbn [with_child create_node snd set_node m_next]. fold c.
    repeat case_decide; subst; intros Hq.
    + pose proof (sh_next _ _ Hs p ltac:(by eexists)). unfold c in *. lia.
    + unfold c. lia.
    + pose proof (sh_next _ _ Hs q Hq). lia.
Qed.

Lemma with_child_grown : grown k t pos with_child pos'.
Proof.
  pose proof parent_not_fresh as Hpc. destruct fresh_ptr as [Hc1 Hc2]. split; try done.
  - apply with_child_shape.
  - by apply insert_subseteq.
  - intros q m j Hq. unfold pos'. destruct (decide (q = c)) as [->|]; [rewrite lookup_insert_eq; by intros [= <- <-]|].
    rewrite lookup_insert_ne by congruence. congruence.
  - intros q qd Hq. rewrite with_child_lookup. destruct (decide (q = p)) as [->|].
    + rewrite Hnd in Hq. injection Hq as <-. eexists. split; [done|]. split; [done|]. split; [done|].
      intros m j. rewrite Hp. intros [= <- <-] Hnp. by destruct Hnp.
    + rewrite decide_False by congruence. by exists qd.
  - intros q qd Hq. rewrite with_child_lookup. repeat case_decide; subst; try congruence. by intros [= <-].
Qed.
End new_child.

(** ** The descent to a page *)

Lemma path_test a k : 0 <= a -> 0 <= k < 64 -> negb ((a &ᵇ 2 ^ k) =? 0) = Z.odd (a `div` 2 ^ k).
Proof. intros Ha Hk. rewrite land_pow2 by lia. rewrite negb_involutive. apply testbit_div. lia. Qed.

Lemma path_below k n : 0 <= k -> (k `div` 2 ^ Z.of_nat (S n)) = (k `div` 2 ^ Z.of_nat n) `div` 2.
Proof. intros. rewrite Nat2Z.inj_succ, <- Z.add_1_r. apply div_pow2_succ. lia. Qed.

Lemma descend_child_spec t pos k p n :
  0 <= k -> shape t pos -> pos !! p = Some (S n, k `div` 2 ^ Z.of_nat (S n)) ->
  exists c t' pos', descend_child zero (k * 4096) (2 ^ (12 + Z.of_nat n)) p t = Done (c, t') /\
    grown k t pos t' pos' /\ pos' !! c = Some (n, k `div` 2 ^ Z.of_nat n) /\ m_page_node_map t' = m_page_node_map t.
Proof.
  intros Hk Hs Hp. destruct (placed t pos p _ Hs Hp) as [nd Hnd]. destruct (sh_range _ _ Hs _ _ _ Hp) as [Hn _]. unfold depth in Hn.
  unfold descend_child. rewrite (deref_done t p nd) by done. cbn [mbind outcome_bind].
  rewrite path_test by lia. rewrite (Z.pow_add_r 2 12), <- Z.div_div, Z.div_mul by lia.
  destruct (child nd (Z.odd (k `div` 2 ^ Z.of_nat n))) as [c|] eqn:Hc.
  - exists c, t, pos. split; [done|]. split; [by apply grown_refl|]. split; [|done].
    rewrite (sh_child _ _ Hs _ _ _ _ _ _ Hnd Hp Hc), path_below by done. do 2 f_equal.
    rewrite (Z.div_mod (k `div` 2 ^ Z.of_nat n) 2) at 3 by lia. by rewrite Zmod_odd; destruct (Z.odd _).
  - pose proof (with_child_grown t pos k p nd n _ Hs Hp Hnd eq_refl Hc) as Hg.
    assert (m_nodes t !! m_next t = None /\ p <> m_next t) as [Hfr Hne].
    { pose proof (next_fresh t pos Hs) as Hfr. split; [done|]. intros ->. congruence. }
    exists (m_next t), (with_child t p nd (Z.odd (k `div` 2 ^ Z.of_nat n))), (<[m_next t := (n, k `div` 2 ^ Z.of_nat n)]> pos).
    split; [|split; [done|by rewrite lookup_insert_eq]].
    unfold with_child, create_node, deref, set_node. cbn [m_nodes snd mbind outcome_bind].
    rewrite lookup_insert_eq. cbn [mbind outcome_bind m_nodes]. rewrite !lookup_insert_ne, Hnd by done. cbn. done.
Qed.

Lemma page_mask n : (n <= 51)%nat -> 2 ^ (12 + Z.of_nat n) &ᵇ m_page_index_mask = 2 ^ (12 + Z.of_nat n).
Proof.
  intros Hn. assert (forallb (fun n => (2 ^ (12 + Z.of_nat n) &ᵇ m_page_index_mask) =? 2 ^ (12 + Z.of_nat n)) (seq 0 52) = true) as E
    by (vm_compute; reflexivity).
  rewrite forallb_forall in E. apply Z.eqb_eq, E, in_seq. lia.
Qed.

Lemma descend_spec n fuel t pos k p :
  0 <= k -> (n < fuel)%nat -> shape t pos -> pos !! p = Some (S n, k `div` 2 ^ Z.of_nat (S n)) ->
  exists c t' pos', descend zero fuel (k * 4096) (2 ^ (12 + Z.of_nat n)) p t = Done (c, t') /\
    grown k t pos t' pos' /\ pos' !! c = Some (0%nat, k) /\ m_page_node_map t' = m_page_node_map t.
Proof.
  intros Hk. revert fuel t pos p. induction n as [|n IH]; intros fuel t pos p Hf Hs Hp; (destruct fuel as [|fuel]; [lia|]); cbn [descend];
    destruct (descend_child_spec t pos k p _ Hk Hs Hp) as (c & t1 & pos1 & -> & Hg & Hc & Hm1); cbn [mbind outcome_bind].
  - exists c, t1, pos1. rewrite Z.div_1_r in Hc. done.
  - rewrite Z.shiftr_div_pow2 by lia. change (2 ^ 1) with 2.
    replace (12 + Z.of_nat (S n)) with (Z.succ (12 + Z.of_nat n)) by lia. rewrite Z.pow_succ_r, Z.mul_comm, Z.div_mul by lia.
    destruct (sh_range _ _ Hs _ _ _ Hp) as [Hn _]. unfold depth in Hn. rewrite page_mask by lia.
    pose proof (pow2_pos (12 + Z.of_nat n) ltac:(lia)). rewrite (proj2 (Z.eqb_neq _ _)) by lia.
    destruct (IH fuel t1 pos1 c) as (c' & t' & pos' & -> & Hg' & Hc' & Hm'); [lia|apply Hg|done|].
    exists c', t', pos'. split; [done|]. split; [by eapply grown_trans|]. split; [done|congruence].
Qed.

Lemma new_page_node_spec t pos k :
  0 <= k < 2 ^ 52 -> shape t pos -> pages_mapped t pos ->
  exists c t' pos', new_page_node zero (k * 4096) t = Done (c, t') /\
    grown k t pos t' pos' /\ pos' !! c = Some (0%nat, k) /\ pages_mapped t' pos'.
Proof.
  intros Hk Hs Hm. unfold new_page_node.
  destruct (descend_spec 51 64 t pos k (m_root t)) as (c & t0 & pos' & E & Hg & Hc & Hm0); [lia|lia|done| |].
  { rewrite (sh_root _ _ Hs). unfold depth. by rewrite Z.div_small. }
  change (uint64 (Z.shiftl 1 (LOG2_ROOT_SIZE - 1))) with (2 ^ (12 + Z.of_nat 51)). rewrite E. cbn [mbind outcome_bind].
  exists c, (set_page_node_map (k * 4096) c t0), pos'. split; [done|].
  split; [destruct Hg as [? ? ? ? ? ? ? ?]; split; try done; by apply (shape_same t0)|]. split; [done|].
  intros a q. cbn [set_page_node_map m_page_node_map]. rewrite Hm0.
  destruct (decide (k * 4096 = a)) as [<-|Hne].
  - rewrite lookup_insert_eq. split; [intros [= <-]; by exists k|]. intros (k' & Ek & Hq). assert (k' = k) as -> by lia.
    f_equal. by apply (sh_unique _ _ (gr_shape _ _ _ _ _ Hg) c q (0%nat, k)).
  - rewrite lookup_insert_ne by done. rewrite (Hm a q). split; intros (k' & -> & Hq); exists k'; (split; [done|]).
    + eapply lookup_weaken; [done|apply Hg].
    + destruct (pos !! q) as [[n i]|] eqn:Eq.
      * pose proof (lookup_weaken pos pos' q (n, i) Eq (gr_pos _ _ _ _ _ Hg)) as E'. congruence.
      * pose proof (gr_new _ _ _ _ _ Hg q _ _ Eq Hq) as Hp. unfold on_path in Hp. rewrite Z.div_1_r in Hp. congruence.
Qed.

(** ** An update of the tree *)

(** The tree between updates, over the page hashes [g] *)
Definition tree_of g t : Prop := exists pos,
  represents t pos g /\ all_consistent t pos /\ 1 <= m_merkle_update_nonce t /\ marks_below t (m_merkle_update_nonce t - 1).

(** The tree during an update: only the parents of pages are queued, and every
    node that is marked is queued. *)
Definition updating g t : Prop := exists pos,
  represents t pos g /\ pending t pos /\ 1 <= m_merkle_update_nonce t /\ marks_below t (m_merkle_update_nonce t) /\
  (forall l q, (l, q) ∈ m_merkle_update_fifo t -> l = 13 /\ exists i, pos !! q = Some (1%nat, i)) /\
  (forall p nd, m_nodes t !! p = Some nd -> n_mark nd = m_merkle_update_nonce t -> queued t p).

Lemma begin_update_spec g t :
  tree_of g t -> exists t', begin_update t = (true, t') /\ updating g t' /\ m_merkle_update_nonce t' = m_merkle_update_nonce t.
Proof.
  intros (pos & Hr & Hc & Hn & Hm). eexists. split; [done|]. split; [|done]. exists pos.
  split; [by apply (represents_same t)|]. split; [intros p nd n i Hp Hpos; left; by apply (Hc p nd n i)|].
  split; [done|]. split; [intros p nd Hp; specialize (Hm p nd Hp); cbn; lia|].
  split; [intros l q Hq; by apply not_elem_of_nil in Hq|]. intros p nd Hp Hmark. specialize (Hm p nd Hp). cbn in Hmark. lia.
Qed.

Lemma sorted_same_level l : (forall x q, (x, q) ∈ l -> x = 13) -> StronglySorted level_step l.
Proof.
  induction l as [|[x p] l IH]; intros Hl; constructor.
  - apply IH. intros. eapply Hl. by right.
  - apply Forall_forall. intros [y q] Hy. unfold level_step. cbn.
    rewrite (Hl x p), (Hl y q) by (by left + by right). lia.
Qed.

Lemma end_update_spec g t :
  updating g t -> m_merkle_update_nonce t < 2 ^ 64 - 1 ->
  exists t', end_update t = Done (true, t') /\ tree_of g t' /\ m_merkle_update_nonce t' = m_merkle_update_nonce t + 1.
Proof.
  intros (pos & Hr & Hp & Hn & Hm & Hf & Hq) H64.
  destruct (propagate_spec (size (m_nodes t) + length (m_merkle_update_fifo t)) t pos g) as (t' & E & Hr' & Hc' & Hn' & Hm').
  - split; try done.
    + intros l q Hin. destruct (Hf l q Hin) as [-> [i Hi]]. by exists 0%nat, i.
    + apply sorted_same_level. intros x q Hin. by apply (Hf x q).
    + intros p nd n i Hnd Hpos Hmark. left. by eapply Hq.
  - pose proof (unmarked_size t). lia.
  - unfold end_update. rewrite E. cbn [mbind outcome_bind mret outcome_ret]. rewrite Hn', uint_id by (unfold is_uint; lia).
    eexists. split; [done|]. split; [|done]. exists pos. split; [by apply (represents_same t')|]. split; [done|].
    cbn. split; [lia|]. intros p nd Hnd. specialize (Hm' p nd Hnd). cbn in *. lia.
Qed.

(** ** The update of a page *)

Section page_update.
Context g t (pos : placement) (Hr : represents t pos g) (Hpend : pending t pos) (Hn : 1 <= m_merkle_update_nonce t).
Context (Hmarks : marks_below t (m_merkle_update_nonce t)).
Context (Hfifo : forall l q, (l, q) ∈ m_merkle_update_fifo t -> l = 13 /\ exists i, pos !! q = Some (1%nat, i)).
Context (Hqueued : forall p nd, m_nodes t !! p = Some nd -> n_mark nd = m_merkle_update_nonce t -> queued t p).
Context (k : Z) (Hk : 0 <= k < 2 ^ 52) (h : hash_type).
Context t1 (pos1 : placement) (Hg : grown k t pos t1 pos1) (Hm1 : pages_mapped t1 pos1).
Context c (Hc : pos1 !! c = Some (0%nat, k)).

Local Lemma page_parent q qd :
  m_nodes t1 !! q = Some qd -> n_mark qd = m_merkle_update_nonce t1 -> exists l', (l', q) ∈ m_merkle_update_fifo t1.
Proof.
  intros Hq Hm. rewrite (gr_nonce _ _ _ _ _ Hg) in Hm. rewrite (gr_fifo _ _ _ _ _ Hg).
  destruct (m_nodes t !! q) as [qd0|] eqn:E.
  - destruct (gr_old _ _ _ _ _ Hg q qd0 E) as (qd' & Hq' & _ & Em & _). rewrite Hq in Hq'. injection Hq' as <-.
    apply (Hqueued q qd0 E). congruence.
  - pose proof (gr_mark _ _ _ _ _ Hg q qd E Hq). lia.
Qed.

Context t2 (Ht2 : stepped t1 pos1 12 c 0%nat k h (m_merkle_update_fifo t1) t2).

Local Lemma page_represents : represents t2 pos1 (update g k h).
Proof.
  split.
  - apply Ht2.
  - intros a q. rewrite (st_map _ _ _ _ _ _ _ _ _ Ht2). apply Hm1.
  - intros q qd j Hq Hqd. destruct (st_nodes _ _ _ _ _ _ _ _ _ Ht2 q qd Hqd) as (qd1 & Hqd1 & _ & -> & _). unfold update.
    destruct (Z.eqb_spec j k) as [->|Hne].
    + rewrite decide_True; [done|]. by apply (sh_unique _ _ (gr_shape _ _ _ _ _ Hg) q c (0%nat, k)).
    + rewrite decide_False by congruence. destruct (pos !! q) as [[n i]|] eqn:E.
      * pose proof (lookup_weaken pos pos1 q (n, i) E (gr_pos _ _ _ _ _ Hg)) as E1. rewrite Hq in E1. injection E1 as <- <-.
        destruct (placed t pos q _ (rp_shape _ _ _ Hr) E) as [qd0 Hqd0].
        destruct (gr_old _ _ _ _ _ Hg q qd0 Hqd0) as (qd' & Hq' & Eh & _). rewrite Hqd1 in Hq'. injection Hq' as <-.
        rewrite Eh. by apply (rp_page _ _ _ Hr q).
      * pose proof (gr_new _ _ _ _ _ Hg q _ _ E Hq) as Hp. unfold on_path in Hp. rewrite Z.div_1_r in Hp. congruence.
  - intros j Hj Hno. unfold update. destruct (Z.eqb_spec j k) as [->|Hne]; [by destruct (Hno c)|].
    apply (rp_absent _ _ _ Hr); [done|]. intros q Hq. apply (Hno q). eapply lookup_weaken; [done|apply Hg].
Qed.

(** A node that is not on the path of the page is as it was. *)
Local Lemma page_off_path q qd n i :
  m_nodes t2 !! q = Some qd -> pos1 !! q = Some (n, i) -> ~ on_path k n i ->
  exists qd0, m_nodes t !! q = Some qd0 /\ pos !! q = Some (n, i) /\ same_links qd0 qd /\ n_hash qd = n_hash qd0.
Proof.
  intros Hq Hpos Hoff. destruct (st_nodes _ _ _ _ _ _ _ _ _ Ht2 q qd Hq) as (qd1 & Hqd1 & Hl & Hh & _).
  rewrite decide_False in Hh.
  2: { intros ->. apply Hoff. rewrite Hc in Hpos. injection Hpos as <- <-. unfold on_path. by rewrite Z.div_1_r. }
  destruct (pos !! q) as [[n' i']|] eqn:E; [|by destruct Hoff; apply (gr_new _ _ _ _ _ Hg q)].
  pose proof (lookup_weaken pos pos1 q (n', i') E (gr_pos _ _ _ _ _ Hg)) as E1. rewrite Hpos in E1. injection E1 as <- <-.
  destruct (placed t pos q _ (rp_shape _ _ _ Hr) E) as [qd0 Hqd0].
  destruct (gr_old _ _ _ _ _ Hg q qd0 Hqd0) as (qd' & Hq' & Eh & _ & Eo). rewrite Hqd1 in Hq'. injection Hq' as <-.
  pose proof (Eo n i E Hoff) as ->. by exists qd0.
Qed.

Local Lemma off_path_child n i b : ~ on_path k (S n) i -> ~ on_path k n (2 * i + Z.b2z b).
Proof.
  unfold on_path. intros Hoff E. apply Hoff. rewrite path_below, <- E by lia.
  destruct b; cbn [Z.b2z]; Z.div_mod_to_equations; lia.
Qed.

Local Lemma page_consistent q qd0 qd n i :
  m_nodes t !! q = Some qd0 -> m_nodes t2 !! q = Some qd -> pos !! q = Some (S n, i) -> ~ on_path k (S n) i ->
  same_links qd0 qd -> n_hash qd = n_hash qd0 -> consistent t n qd0 -> consistent t2 n qd.
Proof.
  intros Hq0 Hq Hpos Hoff Hl Hh. apply (consistent_ext t t2 pos q qd0 qd n i); try done; [apply Hr|].
  intros cc ccd Hcc Hccd.
  assert (exists b, pos !! cc = Some (n, 2 * i + Z.b2z b)) as [b Hcb].
  { destruct Hcc as [E|E]; [exists false; by rewrite Z.add_0_r|by exists true]. }
  destruct (gr_old _ _ _ _ _ Hg cc ccd Hccd) as (cc1 & Hcc1 & _).
  destruct (st_dom _ _ _ _ _ _ _ _ _ Ht2 cc cc1 Hcc1) as [cc2 Hcc2]. exists cc2. split; [done|].
  destruct (page_off_path cc cc2 n (2 * i + Z.b2z b)) as (cc0 & Hcc0 & _ & _ & E); [done| |by apply off_path_child|congruence].
  eapply lookup_weaken; [done|apply Hg].
Qed.

Local Lemma page_pending : pending t2 pos1.
Proof.
  intros q qd n i Hq Hpos. destruct (decide (i = k `div` 2 ^ Z.of_nat (S n))) as [Hon|Hoff].
  - right. destruct (placed t1 pos1 c _ (gr_shape _ _ _ _ _ Hg) Hc) as [cd Hcd].
    destruct (sh_parent _ _ (gr_shape _ _ _ _ _ Hg) _ _ _ _ Hcd Hc) as [[? _]|(_ & r & _ & _ & _ & Hrp & _)]; [done|].
    exists r. split; [by apply (st_parent _ _ _ _ _ _ _ _ _ Ht2)|].
    exists (S n), i, 1%nat, (k `div` 2). split; [done|]. split; [done|]. split; [lia|].
    rewrite Hon, Z.div_div by lia. f_equal. rewrite <- Z.pow_succ_r by lia. f_equal. lia.
  - destruct (page_off_path q qd (S n) i Hq Hpos Hoff) as (qd0 & Hq0 & Hpos0 & Hl & Hh).
    destruct (Hpend q qd0 n i Hq0 Hpos0) as [Hcon|(r & [l Hin] & Hcov)].
    + left. by eapply page_consistent.
    + right. exists r. split; [exists l; eapply st_keep; [exact Ht2|by rewrite (gr_fifo _ _ _ _ _ Hg)]|].
      destruct Hcov as (a & b & a' & b' & H1 & H2 & H3). exists a, b, a', b'.
      split; [eapply lookup_weaken; [done|apply Hg]|]. split; [eapply lookup_weaken; [done|apply Hg]|done].
Qed.

Local Lemma page_fifo l q : (l, q) ∈ m_merkle_update_fifo t2 -> l = 13 /\ exists i, pos1 !! q = Some (1%nat, i).
Proof.
  intros Hin. destruct (st_new _ _ _ _ _ _ _ _ _ _ _ Ht2 Hin) as [Hx|[-> Hq]]; [|split; [done|by eexists]].
  rewrite (gr_fifo _ _ _ _ _ Hg) in Hx. destruct (Hfifo l q Hx) as [-> [i Hi]]. split; [done|]. exists i.
  eapply lookup_weaken; [done|apply Hg].
Qed.

Local Lemma page_marks q qd :
  m_nodes t2 !! q = Some qd ->
  n_mark qd <= m_merkle_update_nonce t2 /\ (n_mark qd = m_merkle_update_nonce t2 -> queued t2 q).
Proof.
  intros Hq. rewrite (st_nonce _ _ _ _ _ _ _ _ _ Ht2).
  destruct (st_nodes _ _ _ _ _ _ _ _ _ Ht2 q qd Hq) as (qd1 & Hqd1 & _ & _ & [->|[-> Hin]]); [|by split].
  split.
  - rewrite (gr_nonce _ _ _ _ _ Hg). destruct (m_nodes t !! q) as [qd0|] eqn:E.
    + destruct (gr_old _ _ _ _ _ Hg q qd0 E) as (qd' & Hq' & _ & Em & _). rewrite Hqd1 in Hq'. injection Hq' as <-.
      rewrite Em. by apply (Hmarks q).
    + rewrite (gr_mark _ _ _ _ _ Hg q qd1 E Hqd1). lia.
  - intros Hm. destruct (page_parent q qd1 Hqd1 Hm) as [l' Hin]. exists l'. by eapply st_keep.
Qed.

Lemma page_updating : updating (update g k h) t2 /\ m_merkle_update_nonce t2 = m_merkle_update_nonce t.
Proof.
  assert (m_merkle_update_nonce t2 = m_merkle_update_nonce t) as E.
  { rewrite (st_nonce _ _ _ _ _ _ _ _ _ Ht2). apply Hg. }
  split; [|done]. exists pos1. split; [apply page_represents|]. split; [apply page_pending|]. split; [by rewrite E|].
  split; [intros q qd Hq; by apply (page_marks q qd Hq)|]. split; [apply page_fifo|]. intros q qd Hq. by apply (page_marks q qd Hq).
Qed.
End page_update.

Lemma page_index_spec k : 0 <= k < 2 ^ 52 -> get_page_index (k * 4096) = k * 4096.
Proof.
  intros Hk. unfold get_page_index. change m_page_index_mask with (uint64 (Z.lnot 4095)). rewrite land_not_uint by (lia || (unfold is_uint; lia)).
  change 4095 with (2 ^ 12 - 1). rewrite ldiff_low by lia. change (2 ^ 12) with 4096. by rewrite Z.div_mul, Z.mul_comm by lia.
Qed.

Lemma update_page_node_hash_spec g t k h :
  updating g t -> 0 <= k < 2 ^ 52 ->
  exists t', update_page_node_hash zero (k * 4096) h t = Done (true, t') /\ updating (update g k h) t' /\
    m_merkle_update_nonce t' = m_merkle_update_nonce t.
Proof.
  intros (pos & Hr & Hpend & Hn & Hm & Hf & Hq) Hk. unfold update_page_node_hash.
  rewrite page_index_spec, Z.eqb_refl by done. cbn [negb throw_if mbind outcome_bind].
  pose proof (rp_shape _ _ _ Hr) as Hs.
  assert (exists c t1 pos1, (match get_page_node t (k * 4096) with
      | Some node => mret (node, t) | None => new_page_node zero (k * 4096) t end) = Done (c, t1) /\
    grown k t pos t1 pos1 /\ pos1 !! c = Some (0%nat, k) /\ pages_mapped t1 pos1) as (c & t1 & pos1 & -> & Hg & Hc & Hm1).
  { destruct (get_page_node t (k * 4096)) as [c|] eqn:E; [|by apply new_page_node_spec; [|done|apply Hr]].
    exists c, t, pos. split; [done|]. split; [by apply grown_refl|]. split; [|apply Hr].
    apply (rp_map _ _ _ Hr) in E as (k' & Ek & E). by assert (k' = k) as -> by lia. }
  cbn [mbind outcome_bind]. destruct (placed t1 pos1 c _ (gr_shape _ _ _ _ _ Hg) Hc) as [nd Hnd].
  rewrite (deref_done t1 c nd) by done. cbn [mbind outcome_bind].
  destruct (stepped_enqueue t1 pos1 (gr_shape _ _ _ _ _ Hg) 12 c (m_merkle_update_fifo t1) 0%nat k Hc nd Hnd h) as (t2 & E2 & Ht2).
  { intros q qd _. by apply (page_parent t pos Hn Hq k t1 pos1 Hg). }
  replace (with_hash t1 c (m_merkle_update_fifo t1) nd h) with (set_node c (set_hash h nd) t1) in E2 by (unfold with_hash; by destruct t1).
  change LOG2_PAGE_SIZE with 12. rewrite E2. cbn [mbind outcome_bind mret outcome_ret]. exists t2. split; [done|].
  exact (page_updating g t pos Hr Hpend Hn Hm Hf Hq k Hk h t1 pos1 Hg Hm1 c Hc t2 Ht2).
Qed.

End spec.
