(* ===== verification/MachineTreeProofs.v ===== *)
(** * Nodes and proofs of the Merkle tree of the machine

    What the tree answers between updates: the hash of any node of at least the
    size of a page, and the proof of any node, whose siblings come from the
    stored nodes above the page and from the data of the page below it. *)

From S2P Require Import Prelude CppInt Hasher MerkleProof PristineMerkleTree MachineMerkleTree MachineMerkleTreeSpec.

Section nodes.
Context `{i_hasher} (zero : hash_type).
Implicit Types (t : machine_merkle_tree) (p q : node_ptr) (g : Z -> hash_type).

(** ** The nodes of the tree *)

(** The node at a position, or none *)
Definition stored_at (pos : placement) (n : nat) (i : Z) (r : option node_ptr) : Prop :=
  match r with Some q => pos !! q = Some (n, i) | None => forall q, pos !! q <> Some (n, i) end.

Lemma stored_hash t pos g n i r :
  represents t pos g -> all_consistent t pos -> (n <= depth)%nat -> 0 <= i < 2 ^ Z.of_nat (depth - n) -> stored_at pos n i r ->
  match r with None => get_pristine_hash (12 + Z.of_nat n) | Some p => nd ← deref t p; mret (n_hash nd) end = Done (node g n i).
Proof.
  intros Hr Hc Hn Hi. destruct r as [q|]; cbn [stored_at].
  - intros Hq. destruct (placed t pos q _ (rp_shape _ _ _ Hr) Hq) as [qd Hqd]. rewrite (deref_done t q qd) by done. cbn.
    f_equal. by eapply stored_node.
  - intros Hno. unfold depth in Hn. rewrite get_pristine_hash_spec by lia. f_equal. symmetry. by eapply pristine_node.
Qed.

Lemma tree_root_hash_answer g t : tree_of g t -> get_root_hash t = Done (node g depth 0).
Proof.
  intros (pos & Hr & Hc & _). pose proof (sh_root _ _ (rp_shape _ _ _ Hr)) as Hroot.
  exact (stored_hash t pos g depth 0 (Some (m_root t)) Hr Hc (le_n _) ltac:(done) Hroot).
Qed.

Lemma get_page_node_hash_spec g t k : tree_of g t -> 0 <= k < 2 ^ 52 -> get_page_node_hash t (k * 4096) = Done (g k).
Proof.
  intros (pos & Hr & Hc & _) Hk. unfold get_page_node_hash. rewrite page_index_spec, Z.eqb_refl by done. cbn [negb throw_if mbind outcome_bind].
  apply (stored_hash t pos g 0 k (get_page_node t (k * 4096)) Hr Hc ltac:(unfold depth; lia) Hk).
  destruct (get_page_node t (k * 4096)) as [q|] eqn:E; cbn [stored_at].
  - apply (rp_map _ _ _ Hr) in E as (k' & Ek & E). by assert (k' = k) as -> by lia.
  - intros q Hq. assert (m_page_node_map t !! (k * 4096) = Some q) as E' by (apply (rp_map _ _ _ Hr); by exists k).
    unfold get_page_node in E. congruence.
Qed.

Lemma path_bit_spec a n : 0 <= a -> (n < 52)%nat -> path_bit a (12 + Z.of_nat n) = Z.odd (a `div` 2 ^ (12 + Z.of_nat n)).
Proof.
  intros Ha Hn. unfold path_bit. rewrite Z.shiftl_1_l, uint_id; [by apply path_test; lia|].
  unfold is_uint. split; [apply Z.pow_nonneg; lia|apply Z.pow_lt_mono_r; lia].
Qed.

(** One step down the path of an address *)
Lemma step_down t pos p nd n a (b := Z.odd (a `div` 2 ^ (12 + Z.of_nat n))) :
  shape t pos -> m_nodes t !! p = Some nd -> pos !! p = Some (S n, a `div` 2 ^ (12 + Z.of_nat (S n))) ->
  a `div` 2 ^ (12 + Z.of_nat n) = 2 * (a `div` 2 ^ (12 + Z.of_nat (S n))) + Z.b2z b /\
  stored_at pos n (a `div` 2 ^ (12 + Z.of_nat n)) (child nd b).
Proof.
  intros Hs Hp Hpos. set (j := a `div` 2 ^ (12 + Z.of_nat n)) in *.
  assert (a `div` 2 ^ (12 + Z.of_nat (S n)) = j `div` 2) as Ej.
  { replace (12 + Z.of_nat (S n)) with (12 + Z.of_nat n + 1) by lia. by rewrite div_pow2_succ by lia. }
  assert (j = 2 * (j `div` 2) + Z.b2z b) as E by (rewrite (Z.div_mod j 2) at 1 by lia; rewrite Zmod_odd; unfold b; by destruct (Z.odd j)).
  rewrite Ej in Hpos |- *. split; [done|]. destruct (child nd b) as [c|] eqn:Hc; cbn [stored_at]; rewrite E.
  - by eapply sh_child.
  - by eapply no_child.
Qed.

Lemma walk_to_spec t pos a m n r :
  shape t pos -> 0 <= a < 2 ^ 64 -> (m + n <= depth)%nat -> stored_at pos (m + n) (a `div` 2 ^ (12 + Z.of_nat (m + n))) r ->
  exists r', walk_to m t a (12 + Z.of_nat (m + n)) r = Done r' /\ stored_at pos n (a `div` 2 ^ (12 + Z.of_nat n)) r'.
Proof.
  intros Hs Ha. revert r. induction m as [|m IH]; intros r Hmn Hr; [by exists r|].
  cbn [walk_to]. destruct r as [p|].
  - cbn [stored_at] in Hr. destruct (placed t pos p _ Hs Hr) as [nd Hnd]. rewrite (deref_done t p nd) by done. cbn [mbind outcome_bind].
    replace (12 + Z.of_nat (S m + n) - 1) with (12 + Z.of_nat (m + n)) by lia. unfold depth in Hmn. rewrite path_bit_spec by lia.
    apply IH; [unfold depth; lia|]. by eapply step_down.
  - exists None. split; [done|]. cbn [stored_at] in *. intros q Hq. unfold depth in Hmn.
    destruct (stored_above t pos q n _ (S m + n) Hs Hq) as [q' Hq']; [unfold depth; lia|]. apply (Hr q'). rewrite Hq'. do 2 f_equal.
    rewrite Z.div_div by lia. f_equal. rewrite <- Z.pow_add_r by lia. f_equal. lia.
Qed.

Lemma tree_node_hash_spec g t a n :
  tree_of g t -> 0 <= a < 2 ^ 64 -> (n < depth)%nat -> a `mod` 2 ^ (12 + Z.of_nat n) = 0 ->
  get_node_hash t a (12 + Z.of_nat n) = Done (node g n (a `div` 2 ^ (12 + Z.of_nat n))).
Proof.
  intros (pos & Hr & Hc & _) Ha Hn Hal. unfold get_node_hash. unfold depth in Hn.
  change LOG2_ROOT_SIZE with 64. change LOG2_WORD_SIZE with 5. change LOG2_PAGE_SIZE with 12.
  test ((64 <? 12 + Z.of_nat n) || (12 + Z.of_nat n <? 5)) is false. test (12 + Z.of_nat n <? 12) is false. test (64 <=? 12 + Z.of_nat n) is false.
  cbn [throw_if mbind outcome_bind]. pose proof (Z.pow_lt_mono_r 2 (12 + Z.of_nat n) 64 ltac:(lia) ltac:(lia) ltac:(lia)) as Hlt.
  pose proof (pow2_pos (12 + Z.of_nat n) ltac:(lia)).
  rewrite Z.shiftl_1_l, uint_id by (unfold is_uint; lia). rewrite land_ones_mod, Hal by lia. cbn [Z.eqb negb throw_if mbind outcome_bind].
  destruct (walk_to_spec t pos a (52 - n) n (Some (m_root t))) as (r & E & Hst); [apply Hr|done|unfold depth; lia| |].
  { cbn [stored_at]. rewrite (sh_root _ _ (rp_shape _ _ _ Hr)). replace (52 - n + n)%nat with depth by (unfold depth; lia).
    rewrite Z.div_small; [done|]. exact Ha. }
  replace (Z.to_nat (64 - (12 + Z.of_nat n))) with (52 - n)%nat by lia.
  replace 64 with (12 + Z.of_nat (52 - n + n)) at 1 by lia. rewrite E. cbn [mbind outcome_bind].
  apply (stored_hash t pos g); [done|done|unfold depth; lia| |done].
  assert (2 ^ 64 = 2 ^ Z.of_nat (depth - n) * 2 ^ (12 + Z.of_nat n)) as E64 by (rewrite <- Z.pow_add_r by lia; f_equal; unfold depth; lia).
  split; [apply Z.div_pos; lia|]. apply Z.div_lt_upper_bound; lia.
Qed.

(** ** Verification of the tree *)

Lemma verify_node_spec t pos g n i r :
  represents t pos g -> all_consistent t pos -> stored_at pos n i r -> verify_node n t r = Done true.
Proof.
  intros Hr Hc. revert i r. induction n as [|n IH]; intros i r Hst; (destruct r as [p|]; [|done]); cbn [verify_node stored_at] in *; [done|].
  pose proof (rp_shape _ _ _ Hr) as Hs. destruct (placed t pos p _ Hs Hst) as [nd Hnd]. rewrite (deref_done t p nd) by done.
  assert (forall b, verify_node n t (child nd b) = Done true) as Hb.
  { intros b. apply (IH (2 * i + Z.b2z b)). destruct (child nd b) as [c|] eqn:E; cbn [stored_at]; [by eapply sh_child|by eapply no_child]. }
  cbn [mbind outcome_bind]. rewrite !Hb. cbn [mbind outcome_bind negb orb]. change LOG2_PAGE_SIZE with 12.
  pose proof (Hc p nd n i Hnd Hst) as E. unfold consistent in E. rewrite E. cbn. by rewrite bool_decide_eq_true_2.
Qed.

Lemma verify_tree_spec g t : tree_of g t -> verify_tree t = Done true.
Proof.
  intros (pos & Hr & Hc & _). apply (verify_node_spec t pos g depth 0); [done|done|]. apply (sh_root _ _ (rp_shape _ _ _ Hr)).
Qed.

(** ** A new tree *)

Lemma pristine_page k : pristine_root 5 12 = node (fun _ => digest (pristine_word 5)) 7 k.
Proof. symmetry. by apply node_pristine. Qed.

Lemma make_machine_merkle_tree_spec :
  exists t, make_machine_merkle_tree = Done t /\ tree_of (fun _ => pristine_root 5 12) t /\ m_merkle_update_nonce t = 1 /\
    m_page_node_map t = ∅.
Proof.
  unfold make_machine_merkle_tree. change LOG2_ROOT_SIZE with 64. rewrite get_pristine_hash_spec by lia. cbn [mbind outcome_bind mret outcome_ret].
  eexists. split; [done|]. split; [|done]. exists {[ 0%nat := (depth, 0) ]}.
  assert (forall q x, ({[ 0%nat := (depth, 0) ]} : placement) !! q = Some x -> q = 0%nat /\ x = (depth, 0)) as Hpos.
  { intros q x Hq. apply lookup_singleton_Some in Hq as [<- <-]. done. }
  assert (forall q nd, ({[ 0%nat := TreeNode (pristine_root 5 64) None None None 0 ]} : gmap node_ptr tree_node) !! q = Some nd ->
    q = 0%nat /\ nd = TreeNode (pristine_root 5 64) None None None 0) as Hnd.
  { intros q nd Hq. apply lookup_singleton_Some in Hq as [<- <-]. done. }
  split; [split; [split| | |]|split; [|split; [done|]]]; cbn [m_nodes m_root m_next m_merkle_update_nonce m_page_node_map].
  - intros p. split; intros [x Hx]; [apply Hnd in Hx as [-> _]|apply Hpos in Hx as [-> _]]; by eexists.
  - done.
  - intros p q x Hp Hq. apply Hpos in Hp as [-> _]. by apply Hpos in Hq as [-> _].
  - intros p n i Hp. apply Hpos in Hp as [_ [= -> ->]]. done.
  - intros p nd n i b c Hp _ Hc. apply Hnd in Hp as [_ ->]. by destruct b.
  - intros p nd n i Hp Hq. apply Hnd in Hp as [_ ->]. apply Hpos in Hq as [_ [= -> _]]. by left.
  - intros p [x Hx]. apply Hnd in Hx as [-> _]. lia.
  - intros a p. split; [done|]. intros (k & _ & Hk). by apply Hpos in Hk as [_ [=]].
  - intros p nd k Hp. by apply Hpos in Hp as [_ [=]].
  - done.
  - intros p nd n i Hp Hq. apply Hnd in Hp as [_ ->]. apply Hpos in Hq as [_ [= -> _]].
    unfold consistent, inner_node_hash. rewrite !get_child_hash_none by (done || lia). reflexivity.
  - intros p nd Hp. apply Hnd in Hp as [_ ->]. done.
Qed.

End nodes.

Section proofs.
Context `{i_hasher} (zero : hash_type).
Implicit Types (t : machine_merkle_tree) (g : Z -> hash_type) (p q r : merkle_tree_proof).

(** ** Proofs

    The leaves of the whole tree are the hashes [f] of the words of 32 bytes. *)

Definition zero_word : hash_type := digest (pristine_word 5).

(** The words of a buffer, from the word [w] of the address space on *)
Definition words_of (f : Z -> hash_type) (w : Z) (n : nat) (data : list Z) : Prop :=
  forall j, 0 <= j < 2 ^ Z.of_nat n -> f (w + j) = digest (take 32 (drop (Z.to_nat (32 * j)) data)).

(** The data of the page [k], or none for a page of zeros *)
Definition page_contents (f : Z -> hash_type) (k : Z) (page_data : option (list Z)) : Prop :=
  match page_data with
  | Some data => words_of f (k * 2 ^ 7) 7 data
  | None => forall j, 0 <= j < 2 ^ 7 -> f (k * 2 ^ 7 + j) = zero_word
  end.

(** The pages without a node hold zeros. *)
Definition missing_zero (f : Z -> hash_type) t : Prop := forall k, 0 <= k < 2 ^ 52 ->
  get_page_node t (k * 4096) = None -> page_contents f k None.

Lemma words_of_split f w n data :
  words_of f w (S n) data -> words_of f w n data /\ words_of f (w + 2 ^ Z.of_nat n) n (drop (Z.to_nat (2 ^ (5 + Z.of_nat n))) data).
Proof.
  intros Hw. unfold words_of in *. rewrite Nat2Z.inj_succ, Z.pow_succ_r in Hw by lia. split.
  - intros j Hj. apply Hw. lia.
  - intros j Hj. rewrite <- Z.add_assoc, Hw by lia. rewrite drop_drop, Z.pow_add_r by lia. do 3 f_equal. change (2 ^ 5) with 32. nia.
Qed.

Lemma get_buffer_hash_spec f n i data : words_of f (i * 2 ^ Z.of_nat n) n data -> get_buffer_hash n data = node f n i.
Proof.
  revert i data. induction n as [|n IH]; intros i data Hw; cbn [get_buffer_hash node].
  - change (Z.to_nat m_word_size) with 32%nat. specialize (Hw 0 ltac:(cbn; lia)). rewrite Z.add_0_r, Z.mul_1_r in Hw. rewrite Hw. done.
  - destruct (words_of_split _ _ _ _ Hw) as [H0 H1]. rewrite Z.shiftl_1_l. change LOG2_WORD_SIZE with 5.
    rewrite Nat2Z.inj_succ, Z.pow_succ_r in H0, H1 by lia. f_equal; apply IH.
    + by replace (2 * i * 2 ^ Z.of_nat n) with (i * (2 * 2 ^ Z.of_nat n)) by lia.
    + by replace ((2 * i + 1) * 2 ^ Z.of_nat n) with (i * (2 * 2 ^ Z.of_nat n) + 2 ^ Z.of_nat n) by lia.
Qed.

Lemma page_hash_spec f k page_data :
  page_contents f k page_data -> get_page_data_hash page_data = Done (node f 7 k).
Proof.
  intros Hp. destruct page_data as [data|]; cbn [get_page_data_hash page_contents] in *.
  - unfold mret, outcome_ret. f_equal. by apply (get_buffer_hash_spec f 7).
  - change LOG2_PAGE_SIZE with 12. rewrite get_pristine_hash_spec by lia. f_equal. symmetry. apply node_pristine.
    intros j Hj. assert (k * 2 ^ 7 <= j < (k + 1) * 2 ^ 7) by exact Hj.
    replace j with (k * 2 ^ 7 + (j - k * 2 ^ 7)) by lia. apply Hp. lia.
Qed.

(** [q] is [p] with the siblings of the path of [a] at the sizes in [sizes]. *)
Record filled (f : Z -> hash_type) (a : Z) (sizes : Z -> bool) (p q : merkle_tree_proof) : Prop := {
  fi_wf : proof_wf q;
  fi_target_size : m_log2_target_size q = m_log2_target_size p;
  fi_root_size : m_log2_root_size q = m_log2_root_size p;
  fi_sibling : forall j, m_log2_target_size p <= j < m_log2_root_size p ->
    sibling q j = if sizes j then node f (Z.to_nat (j - 5)) (Z.lxor (a `div` 2 ^ j) 1) else sibling p j;
}.

Lemma filled_none f a sizes p :
  proof_wf p -> (forall j, m_log2_target_size p <= j < m_log2_root_size p -> sizes j = false) -> filled f a sizes p p.
Proof. intros Hp Hs. split; try done. intros j Hj. by rewrite Hs. Qed.

Lemma filled_ext f a sizes sizes' p q :
  (forall j, m_log2_target_size p <= j < m_log2_root_size p -> sizes' j = sizes j) -> filled f a sizes p q -> filled f a sizes' p q.
Proof. intros E [H1 H2 H3 H4]. split; try done. intros j Hj. by rewrite E, H4. Qed.

Lemma filled_trans f a sizes1 sizes2 p q r :
  filled f a sizes1 p q -> filled f a sizes2 q r -> filled f a (fun j => sizes1 j || sizes2 j) p r.
Proof.
  intros [A1 A2 A3 A4] [B1 B2 B3 B4]. split; [done|congruence|congruence|].
  intros j Hj. rewrite B4 by congruence. rewrite A4 by done. by destruct (sizes1 j), (sizes2 j).
Qed.

Lemma filled_set f a p k :
  proof_wf p -> m_log2_target_size p <= k < m_log2_root_size p ->
  exists q, set_sibling_hash (node f (Z.to_nat (k - 5)) (Z.lxor (a `div` 2 ^ k) 1)) k p = Done q /\ filled f a (fun j => j =? k) p q.
Proof.
  intros Hp Hk. destruct (set_sibling_hash_spec p k (node f (Z.to_nat (k - 5)) (Z.lxor (a `div` 2 ^ k) 1)) Hp Hk)
    as (q & -> & Hq & E1 & E2 & _ & _ & _ & Hs). exists q. split; [done|]. split; try done.
  intros j Hj. rewrite Hs by done. by destruct (Z.eqb_spec j k) as [->|].
Qed.

(** *** Inside of a page *)

Section inside.
Context (f : Z -> hash_type) (a : Z) (Ha : 0 <= a).

Lemma child_words i n data :
  words_of f (i * 2 ^ Z.of_nat (S n)) (S n) data ->
  words_of f (2 * i * 2 ^ Z.of_nat n) n data /\ words_of f ((2 * i + 1) * 2 ^ Z.of_nat n) n (drop (Z.to_nat (2 ^ (5 + Z.of_nat n))) data).
Proof.
  intros Hw. apply words_of_split in Hw. rewrite Nat2Z.inj_succ, Z.pow_succ_r in Hw by lia.
  replace (2 * i * 2 ^ Z.of_nat n) with (i * (2 * 2 ^ Z.of_nat n)) by lia.
  by replace ((2 * i + 1) * 2 ^ Z.of_nat n) with (i * (2 * 2 ^ Z.of_nat n) + 2 ^ Z.of_nat n) by lia.
Qed.

Lemma word_digest i data : words_of f (i * 2 ^ Z.of_nat 0) 0 data -> digest (take (Z.to_nat m_word_size) data) = f i.
Proof. intros Hw. specialize (Hw 0 ltac:(cbn; lia)). rewrite Z.add_0_r, Z.mul_1_r in Hw. by rewrite Hw. Qed.

Lemma child_size n : (n < 7)%nat -> uint64 (Z.shiftl 1 (5 + Z.of_nat (S n) - 1)) = 2 ^ (5 + Z.of_nat n).
Proof.
  intros Hn. replace (5 + Z.of_nat (S n) - 1) with (5 + Z.of_nat n) by lia. rewrite Z.shiftl_1_l. apply uint_id. unfold is_uint.
  split; [apply Z.pow_nonneg; lia|apply Z.pow_lt_mono_r; lia].
Qed.

(** Below a sibling nothing is recorded. *)
Lemma inside_diverged n log2_size hash i data cd p :
  (n <= 7)%nat -> words_of f (i * 2 ^ Z.of_nat n) n data ->
  inside_page_siblings n a log2_size hash data true cd p = Done (node f n i, hash, p).
Proof.
  revert i data cd. induction n as [|n IH]; intros i data cd Hn Hw; cbn [inside_page_siblings].
  - cbn [mbind outcome_bind mret outcome_ret]. by rewrite word_digest with (i := i).
  - change LOG2_WORD_SIZE with 5. rewrite child_size by lia. destruct (child_words i n data Hw) as [H0 H1]. cbn [orb].
    rewrite (IH (2 * i)) by (done || lia). cbn [mbind outcome_bind]. rewrite (IH (2 * i + 1)) by (done || lia). done.
Qed.

Lemma inside_sibling n hash i data p :
  (n <= 7)%nat -> words_of f (i * 2 ^ Z.of_nat n) n data -> proof_wf p -> m_log2_root_size p = 64 -> 5 <= m_log2_target_size p ->
  i = Z.lxor (a `div` 2 ^ (5 + Z.of_nat n)) 1 ->
  exists q, inside_page_siblings n a (m_log2_target_size p) hash data false true p = Done (node f n i, hash, q) /\
    filled f a (fun j => j =? 5 + Z.of_nat n) p q.
Proof.
  intros Hn Hw Hp H64 Ht Hi.
  assert (exists q, (if true && (m_log2_target_size p <=? 5 + Z.of_nat n)
      then p ← set_sibling_hash (node f n i) (5 + Z.of_nat n) p; mret (node f n i, hash, p)
      else if 5 + Z.of_nat n =? m_log2_target_size p then mret (node f n i, node f n i, p) else mret (node f n i, hash, p))
      = Done (node f n i, hash, q) /\ filled f a (fun j => j =? 5 + Z.of_nat n) p q) as (q & E & Hq).
  { cbn [andb]. destruct (Z.leb_spec (m_log2_target_size p) (5 + Z.of_nat n)) as [Hle|Hlt].
    - destruct (filled_set f a p (5 + Z.of_nat n) Hp) as (q & E & Hq); [lia|]. exists q. split; [|done].
      replace (Z.to_nat (5 + Z.of_nat n - 5)) with n in E by lia. rewrite Hi, E. done.
    - exists p. test (5 + Z.of_nat n =? m_log2_target_size p) is false. split; [done|]. apply filled_none; [done|].
      intros j Hj. apply Z.eqb_neq. lia. }
  exists q. split; [|done]. destruct n as [|n]; cbn [inside_page_siblings]; change LOG2_WORD_SIZE with 5.
  - cbn [mbind outcome_bind mret outcome_ret]. rewrite word_digest with (i := i) by done. exact E.
  - rewrite child_size by lia. destruct (child_words i n data Hw) as [H0 H1]. cbn [orb].
    rewrite (inside_diverged n _ _ (2 * i)) by (done || lia). cbn [mbind outcome_bind].
    rewrite (inside_diverged n _ _ (2 * i + 1)) by (done || lia). cbn [mbind outcome_bind mret outcome_ret].
    exact E.
Qed.

Lemma inside_path n hash i data p :
  (n <= 7)%nat -> words_of f (i * 2 ^ Z.of_nat n) n data -> proof_wf p -> m_log2_root_size p = 64 -> 5 <= m_log2_target_size p ->
  i = a `div` 2 ^ (5 + Z.of_nat n) -> let s := m_log2_target_size p in
  exists q, inside_page_siblings n a s hash data false false p =
      Done (node f n i, if s <=? 5 + Z.of_nat n then node f (Z.to_nat (s - 5)) (a `div` 2 ^ s) else hash, q) /\
    filled f a (fun j => j <? 5 + Z.of_nat n) p q.
Proof.
  intros Hn Hw Hp H64 Ht Hi s. revert i data hash p s Hn Hw Hp H64 Ht Hi.
  induction n as [|n IH]; intros i data hash p s Hn Hw Hp H64 Ht Hi; cbn [inside_page_siblings]; change LOG2_WORD_SIZE with 5; fold s in Ht.
  - cbn [mbind outcome_bind mret outcome_ret andb]. rewrite word_digest with (i := i) by done. exists p. split.
    + destruct (Z.eqb_spec (5 + Z.of_nat 0) s) as [E|E]; [test (s <=? 5 + Z.of_nat 0) is true|by test (s <=? 5 + Z.of_nat 0) is false].
      rewrite <- E, Hi. done.
    + apply filled_none; [done|]. intros j Hj. apply Z.ltb_ge. lia.
  - rewrite child_size, path_test by lia. destruct (child_words i n data Hw) as [H0 H1]. cbn [orb andb].
    set (j := a `div` 2 ^ (5 + Z.of_nat n)) in *.
    assert (i = j `div` 2) as Hij by (rewrite Hi; unfold j; replace (5 + Z.of_nat (S n)) with (5 + Z.of_nat n + 1) by lia; by rewrite div_pow2_succ by lia).
    pose proof (Z.div_mod j 2 ltac:(lia)) as Hj. rewrite Zmod_odd, <- Hij in Hj.
    assert (exists q, ('(first_hash, hash, proof) ← inside_page_siblings n a s hash data false (Z.odd j) p;
        '(second_hash, hash, proof) ← inside_page_siblings n a s hash (drop (Z.to_nat (2 ^ (5 + Z.of_nat n))) data) false (negb (Z.odd j)) proof;
        mret (get_concat_hash first_hash second_hash, hash, proof)) =
        Done (node f (S n) i, if s <=? 5 + Z.of_nat n then node f (Z.to_nat (s - 5)) (a `div` 2 ^ s) else hash, q) /\
        filled f a (fun k => k <? 5 + Z.of_nat (S n)) p q) as (q & E & Hq).
    { destruct (Z.odd j) eqn:Eb; cbn [negb].
      - destruct (inside_sibling n hash (2 * i) data p) as (q1 & E1 & Hq1);
          try first [done|lia|rewrite lxor_1; fold j; rewrite Eb; lia].
        pose proof Hq1 as [W1 S1 R1 _]. destruct (IH (2 * i + 1) (drop (Z.to_nat (2 ^ (5 + Z.of_nat n))) data) hash q1)
          as (q2 & E2 & Hq2); try first [done|lia|congruence]. rewrite S1 in E2. fold s in E1, E2. rewrite E1. cbn [mbind outcome_bind]. rewrite E2.
        exists q2. split; [done|]. eapply filled_ext; [|exact (filled_trans _ _ _ _ _ _ _ Hq1 Hq2)].
        intros k Hk. cbv beta. rewrite Nat2Z.inj_succ. bool_cases.
      - destruct (IH (2 * i) data hash p) as (q1 & E1 & Hq1); try first [done|lia]. fold s in E1. rewrite E1. cbn [mbind outcome_bind].
        pose proof Hq1 as [W1 S1 R1 _].
        destruct (inside_sibling n (if s <=? 5 + Z.of_nat n then node f (Z.to_nat (s - 5)) (a `div` 2 ^ s) else hash) (2 * i + 1)
          (drop (Z.to_nat (2 ^ (5 + Z.of_nat n))) data) q1) as (q2 & E2 & Hq2);
          try first [done|lia|congruence|rewrite lxor_1; fold j; rewrite Eb; lia].
        rewrite S1 in E2. fold s in E2. rewrite E2. exists q2. split; [done|]. eapply filled_ext; [|exact (filled_trans _ _ _ _ _ _ _ Hq1 Hq2)].
        intros k Hk. cbv beta. rewrite Nat2Z.inj_succ. bool_cases. }
    rewrite E. cbn [mbind outcome_bind]. exists q. split; [|done].
    destruct (Z.eqb_spec (5 + Z.of_nat (S n)) s) as [Es|Es].
    + test (s <=? 5 + Z.of_nat (S n)) is true. rewrite <- Es. replace (Z.to_nat (5 + Z.of_nat (S n) - 5)) with (S n) by lia.
      by rewrite <- Hi.
    + by replace (s <=? 5 + Z.of_nat (S n)) with (s <=? 5 + Z.of_nat n) by bool_cases.
Qed.
End inside.

(** *** Above the pages *)

Section proof.
Context (f : Z -> hash_type) (a : Z) (Ha : 0 <= a < 2 ^ 64).
Context t (pos : placement) (Hr : represents t pos (node f 7)) (Hc : all_consistent t pos) (Hz : missing_zero f t).

(** A node of the tree of pages is a node of the tree of words. *)
Lemma page_node n i : node (node f 7) n i = node f (7 + n) i.
Proof. apply node_add. Qed.

(** All words below a node are zero. *)
Definition zeros_below (n : nat) (i : Z) : Prop :=
  forall w, i * 2 ^ Z.of_nat (7 + n) <= w < (i + 1) * 2 ^ Z.of_nat (7 + n) -> f w = zero_word.

Lemma zeros_node n i m j :
  zeros_below n i -> (m <= 7 + n)%nat -> i * 2 ^ Z.of_nat (7 + n - m) <= j < (i + 1) * 2 ^ Z.of_nat (7 + n - m) ->
  node f m j = pristine_root 5 (5 + Z.of_nat m).
Proof.
  intros Hzero Hm Hj. unfold pristine_root. replace (Z.to_nat (5 + Z.of_nat m - 5)) with m by lia. apply node_pristine.
  intros w Hw. apply Hzero.
  assert (2 ^ Z.of_nat (7 + n - m) * 2 ^ Z.of_nat m = 2 ^ Z.of_nat (7 + n)) as <- by (rewrite <- !Z.pow_add_r by lia; f_equal; lia).
  pose proof (pow2_pos (Z.of_nat m) ltac:(lia)). nia.
Qed.

Lemma zeros_page k : page_contents f k None -> zeros_below 0 k.
Proof.
  intros Hp w Hw. change (Z.of_nat (7 + 0)) with 7 in Hw. replace w with (k * 2 ^ 7 + (w - k * 2 ^ 7)) by lia. apply Hp. lia.
Qed.

Lemma zeros_missing n i :
  (n <= depth)%nat -> 0 <= i < 2 ^ Z.of_nat (depth - n) -> stored_at pos n i None -> zeros_below n i.
Proof.
  intros Hn Hi Hst w Hw. set (k := w `div` 2 ^ 7). pose proof (pow2_pos (Z.of_nat n) ltac:(lia)).
  replace (2 ^ Z.of_nat (7 + n)) with (2 ^ 7 * 2 ^ Z.of_nat n) in Hw by (rewrite <- Z.pow_add_r by lia; f_equal; lia).
  assert (i * 2 ^ Z.of_nat n <= k < (i + 1) * 2 ^ Z.of_nat n) as Hk.
  { unfold k. split; [apply Z.div_le_lower_bound; lia|apply Z.div_lt_upper_bound; lia]. }
  assert (0 <= k < 2 ^ 52) as Hk52.
  { assert (2 ^ 52 = 2 ^ Z.of_nat (depth - n) * 2 ^ Z.of_nat n) as -> by (rewrite <- Z.pow_add_r by lia; f_equal; unfold depth in *; lia). nia. }
  assert (get_page_node t (k * 4096) = None) as Hno.
  { destruct (get_page_node t (k * 4096)) as [q|] eqn:E; [|done]. exfalso.
    apply (rp_map _ _ _ Hr) in E as (k' & Ek & E). assert (k' = k) as -> by lia.
    destruct (stored_above t pos q 0 k n (rp_shape _ _ _ Hr) E) as [q' Hq']; [lia|]. apply (Hst q'). rewrite Hq', Nat.sub_0_r. do 2 f_equal.
    symmetry. apply (Z.div_unique_pos k _ i (k - i * 2 ^ Z.of_nat n)); nia. }
  replace w with (k * 2 ^ 7 + w `mod` 2 ^ 7) by (unfold k; pose proof (Z.div_mod w (2 ^ 7) ltac:(lia)); lia).
  apply (Hz k Hk52 Hno). apply Z.mod_pos_bound. lia.
Qed.

Lemma path_range n : (n <= depth)%nat -> 0 <= a `div` 2 ^ (12 + Z.of_nat n) < 2 ^ Z.of_nat (depth - n).
Proof.
  intros Hn. assert (2 ^ 64 = 2 ^ Z.of_nat (depth - n) * 2 ^ (12 + Z.of_nat n)) as E64
    by (rewrite <- Z.pow_add_r by lia; f_equal; unfold depth in *; lia).
  pose proof (pow2_pos (12 + Z.of_nat n) ltac:(lia)). split; [apply Z.div_pos; lia|]. apply Z.div_lt_upper_bound; lia.
Qed.

(** The sibling of the path at a size is in the same subtree. *)
Lemma sibling_in_subtree lo hi :
  0 <= lo < hi -> (a `div` 2 ^ hi) * 2 ^ (hi - lo) <= Z.lxor (a `div` 2 ^ lo) 1 < (a `div` 2 ^ hi + 1) * 2 ^ (hi - lo).
Proof.
  intros Hlh. rewrite lxor_1. set (j := a `div` 2 ^ lo).
  assert (a `div` 2 ^ hi = (j `div` 2) `div` 2 ^ (hi - lo - 1)) as ->.
  { unfold j. rewrite !Z.div_div by lia. f_equal. replace hi with (lo + 1 + (hi - lo - 1)) at 1 by lia. rewrite !Z.pow_add_r by lia. ring. }
  replace (2 ^ (hi - lo)) with (2 * 2 ^ (hi - lo - 1)) by (rewrite <- Z.pow_succ_r by lia; f_equal; lia).
  pose proof (pow2_pos (hi - lo - 1) ltac:(lia)). pose proof (Z.div_mod (j `div` 2) (2 ^ (hi - lo - 1)) ltac:(lia)).
  pose proof (Z.mod_pos_bound (j `div` 2) (2 ^ (hi - lo - 1)) ltac:(lia)).
  pose proof (Z.div_mod j 2 ltac:(lia)) as Hj. rewrite Zmod_odd in Hj. destruct (Z.odd j); nia.
Qed.

(** The loop over the stored nodes fills the siblings down to the size it stops at. *)
Lemma node_siblings_spec m n (r : option node_ptr) p :
  (m + n <= depth)%nat -> proof_wf p -> m_log2_root_size p = 64 -> 5 <= m_log2_target_size p <= 12 + Z.of_nat n ->
  stored_at pos (m + n) (a `div` 2 ^ (12 + Z.of_nat (m + n))) r ->
  exists n' (r' : option node_ptr) q, node_siblings m t a (12 + Z.of_nat (m + n)) r p = Done (12 + Z.of_nat n', r', q) /\
    (n <= n' <= m + n)%nat /\ (r' <> None -> n' = n) /\ stored_at pos n' (a `div` 2 ^ (12 + Z.of_nat n')) r' /\
    filled f a (fun j => (12 + Z.of_nat n' <=? j) && (j <? 12 + Z.of_nat (m + n))) p q.
Proof.
  revert r p. induction m as [|m IH]; intros r p Hmn Hp H64 Ht Hst.
  - exists n, r, p. split; [done|]. split; [lia|]. split; [done|]. split; [done|]. apply filled_none; [done|].
    intros j _. bool_cases.
  - cbn [node_siblings]. destruct r as [pt|].
    2: { exists (S m + n)%nat, None, p. split; [done|]. split; [lia|]. split; [done|]. split; [done|]. apply filled_none; [done|].
         intros j _. bool_cases. }
    cbn [stored_at] in Hst. pose proof (rp_shape _ _ _ Hr) as Hs. destruct (placed t pos pt _ Hs Hst) as [nd Hnd].
    rewrite (deref_done t pt nd) by done. cbn [mbind outcome_bind]. unfold depth in Hmn.
    replace (12 + Z.of_nat (S m + n) - 1) with (12 + Z.of_nat (m + n)) by lia. rewrite path_bit_spec by lia.
    change (S m + n)%nat with (S (m + n)) in Hst. destruct (step_down t pos pt nd (m + n) a Hs Hnd Hst) as [Ei Hst'].
    set (b := Z.odd (a `div` 2 ^ (12 + Z.of_nat (m + n)))) in *.
    rewrite (child_hash_consistent t pos (node f 7) pt nd (m + n) _ (negb b) Hr Hc Hnd Hst). cbn [mbind outcome_bind].
    destruct (filled_set f a p (12 + Z.of_nat (m + n)) Hp) as (p1 & E1 & Hp1); [lia|].
    replace (2 * (a `div` 2 ^ (12 + Z.of_nat (S (m + n)))) + Z.b2z (negb b)) with (Z.lxor (a `div` 2 ^ (12 + Z.of_nat (m + n))) 1)
      by (rewrite lxor_1; fold b; destruct b; cbn [negb Z.b2z] in *; lia).
    rewrite page_node. replace (7 + (m + n))%nat with (Z.to_nat (12 + Z.of_nat (m + n) - 5)) by lia. rewrite E1. cbn [mbind outcome_bind].
    pose proof Hp1 as [W1 S1 R1 _].
    destruct (IH (child nd b) p1) as (n' & r' & q & E & Hn' & Hr' & Hst2 & Hq); try done; [unfold depth; lia|congruence|by rewrite S1|].
    exists n', r', q. split; [exact E|]. split; [lia|]. split; [done|]. split; [done|].
    eapply filled_ext; [|exact (filled_trans _ _ _ _ _ _ _ Hp1 Hq)]. intros j Hj. cbv beta. bool_cases.
Qed.

(** The loop over the sizes below a missing node *)
Lemma pristine_siblings_spec m hi p :
  proof_wf p -> m_log2_root_size p = 64 -> 5 <= m_log2_target_size p -> hi <= 64 -> hi - Z.of_nat m = m_log2_target_size p ->
  (forall j, m_log2_target_size p <= j < hi -> node f (Z.to_nat (j - 5)) (Z.lxor (a `div` 2 ^ j) 1) = pristine_root 5 j) ->
  exists q, pristine_siblings m hi p = Done q /\ filled f a (fun j => j <? hi) p q.
Proof.
  revert hi p. induction m as [|m IH]; intros hi p Hp H64 Ht Hhi Hm Hno; cbn [pristine_siblings].
  - exists p. split; [done|]. apply filled_none; [done|]. intros j Hj. apply Z.ltb_ge. lia.
  - rewrite get_pristine_hash_spec by lia. cbn [mbind outcome_bind].
    destruct (filled_set f a p (hi - 1) Hp) as (p1 & E1 & Hp1); [lia|]. rewrite Hno in E1 by lia. rewrite E1. cbn [mbind outcome_bind].
    pose proof Hp1 as [W1 S1 R1 _].
    destruct (IH (hi - 1) p1) as (q & E & Hq); try first [done|congruence|lia].
    { intros j Hj. apply Hno. lia. }
    exists q. split; [exact E|]. eapply filled_ext; [|exact (filled_trans _ _ _ _ _ _ _ Hp1 Hq)]. intros j Hj. cbv beta. bool_cases.
Qed.

(** The siblings and the target below a node of zeros *)
Lemma pristine_below n lo :
  zeros_below n (a `div` 2 ^ (12 + Z.of_nat n)) -> 5 <= lo < 12 + Z.of_nat n ->
  node f (Z.to_nat (lo - 5)) (Z.lxor (a `div` 2 ^ lo) 1) = pristine_root 5 lo.
Proof.
  intros Hzero Hlo. pose proof (sibling_in_subtree lo (12 + Z.of_nat n) ltac:(lia)) as Hin.
  rewrite (zeros_node n (a `div` 2 ^ (12 + Z.of_nat n)) (Z.to_nat (lo - 5))); [f_equal; lia|done|lia|].
  replace (Z.of_nat (7 + n - Z.to_nat (lo - 5))) with (12 + Z.of_nat n - lo) by lia. exact Hin.
Qed.

Lemma pristine_target n s :
  zeros_below n (a `div` 2 ^ (12 + Z.of_nat n)) -> 5 <= s <= 12 + Z.of_nat n ->
  node f (Z.to_nat (s - 5)) (a `div` 2 ^ s) = pristine_root 5 s.
Proof.
  intros Hzero Hs. rewrite (zeros_node n (a `div` 2 ^ (12 + Z.of_nat n)) (Z.to_nat (s - 5))); [f_equal; lia|done|lia|].
  replace (Z.of_nat (7 + n - Z.to_nat (s - 5))) with (12 + Z.of_nat n - s) by lia.
  assert (a `div` 2 ^ (12 + Z.of_nat n) = (a `div` 2 ^ s) `div` 2 ^ (12 + Z.of_nat n - s)) as ->.
  { rewrite Z.div_div by lia. rewrite <- Z.pow_add_r by lia. do 2 f_equal. lia. }
  pose proof (pow2_pos (12 + Z.of_nat n - s) ltac:(lia)). pose proof (Z.div_mod (a `div` 2 ^ s) (2 ^ (12 + Z.of_nat n - s)) ltac:(lia)).
  pose proof (Z.mod_pos_bound (a `div` 2 ^ s) (2 ^ (12 + Z.of_nat n - s)) ltac:(lia)). nia.
Qed.

(** The rest of the proof below a node of zeros *)
Lemma pristine_rest n p s :
  (n <= depth)%nat -> zeros_below n (a `div` 2 ^ (12 + Z.of_nat n)) -> proof_wf p -> m_log2_root_size p = 64 ->
  m_log2_target_size p = s -> 5 <= s <= 12 + Z.of_nat n ->
  exists q, (proof ← pristine_siblings (Z.to_nat (12 + Z.of_nat n - s)) (12 + Z.of_nat n) p;
             h ← get_pristine_hash s; mret (set_target_hash h proof)) = Done (set_target_hash (node f (Z.to_nat (s - 5)) (a `div` 2 ^ s)) q) /\
    filled f a (fun j => j <? 12 + Z.of_nat n) p q.
Proof.
  intros Hn Hzero Hp H64 Ets Hs. unfold depth in Hn.
  destruct (pristine_siblings_spec (Z.to_nat (12 + Z.of_nat n - s)) (12 + Z.of_nat n) p) as (q & E & Hq); try first [done|lia].
  { intros j Hj. apply (pristine_below n); [done|lia]. }
  exists q. split; [|done]. rewrite E. cbn [mbind outcome_bind]. rewrite get_pristine_hash_spec by lia. cbn [mbind outcome_bind].
  by rewrite (pristine_target n s).
Qed.

(** What [get_proof] is given of a page: its contents if the target is smaller, and nothing otherwise *)
Definition page_data_for (s : Z) (page_data : option (list Z)) : Prop :=
  (s < 12 -> page_contents f (a `div` 2 ^ 12) page_data) /\ (12 <= s -> page_data = None) /\
  (page_data <> None -> get_page_node t (a `div` 2 ^ 12 * 4096) <> None).

Lemma missing_no_data n s page_data :
  (n <= depth)%nat -> stored_at pos n (a `div` 2 ^ (12 + Z.of_nat n)) None -> page_data_for s page_data -> page_data = None.
Proof.
  intros Hn Hst (_ & _ & Hd). destruct page_data as [data|]; [|done]. exfalso. specialize (Hd ltac:(done)).
  destruct (get_page_node t (a `div` 2 ^ 12 * 4096)) as [q|] eqn:E; [|done].
  apply (rp_map _ _ _ Hr) in E as (k & Ek & E). assert (k = a `div` 2 ^ 12) as -> by lia.
  destruct (stored_above t pos q 0 _ n (rp_shape _ _ _ Hr) E) as [q' Hq']; [lia|]. apply (Hst q'). rewrite Hq', Nat.sub_0_r. do 2 f_equal.
  rewrite Z.div_div by lia. by rewrite <- Z.pow_add_r by lia.
Qed.

Lemma proof_below_spec n (r : option node_ptr) p s page_data :
  (n <= depth)%nat -> proof_wf p -> m_log2_root_size p = 64 -> m_log2_target_size p = s ->
  5 <= s <= 12 + Z.of_nat n -> (r <> None -> 12 + Z.of_nat n = Z.max s 12) ->
  stored_at pos n (a `div` 2 ^ (12 + Z.of_nat n)) r -> page_data_for s page_data ->
  exists q, proof_below t a s page_data (12 + Z.of_nat n) r p = Done (set_target_hash (node f (Z.to_nat (s - 5)) (a `div` 2 ^ s)) q) /\
    filled f a (fun j => j <? 12 + Z.of_nat n) p q.
Proof.
  intros Hn Hp H64 Ets Hs Hmax Hst Hd. unfold proof_below. change LOG2_PAGE_SIZE with 12. destruct r as [pt|].
  2: { rewrite (missing_no_data n s page_data) by done. cbn [throw_if]. cbn [mbind outcome_bind].
       apply pristine_rest; try done. apply zeros_missing; [done|by apply path_range|done]. }
  specialize (Hmax ltac:(done)). cbn [stored_at] in Hst. destruct (placed t pos pt _ (rp_shape _ _ _ Hr) Hst) as [nd Hnd].
  rewrite (deref_done t pt nd) by done. cbn [mbind outcome_bind].
  pose proof (stored_node t pos (node f 7) pt nd n _ Hr Hc Hst Hnd) as Hhash. rewrite page_node in Hhash.
  destruct (Z.eqb_spec (12 + Z.of_nat n) 12) as [En|En].
  - assert (n = 0%nat) as -> by lia. change (12 + Z.of_nat 0) with 12 in *.
    destruct (Z.ltb_spec s 12) as [Hlt|Hge].
    + destruct Hd as (Hcont & _ & _). specialize (Hcont Hlt).
      assert (forall q, throw_if (negb (bool_decide (n_hash nd = node f 7 (a `div` 2 ^ 12)))) inconsistent_tree ≫= (fun _ => mret q) = Done q)
        as Hok by (intros q; rewrite bool_decide_eq_true_2 by done; done).
      destruct page_data as [data|]; cbn [page_contents] in Hcont.
      * destruct (inside_path f a (proj1 Ha) 7 (m_target_hash p) (a `div` 2 ^ 12) data p) as (q & E & Hq); try first [done|lia].
        rewrite Ets in E. unfold get_inside_page_sibling_hashes. change (Z.to_nat (LOG2_PAGE_SIZE - LOG2_WORD_SIZE)) with 7%nat.
        rewrite E. cbn [mbind outcome_bind mret outcome_ret]. exists q. split; [|exact Hq].
        test (s <=? 5 + Z.of_nat 7) is true. apply Hok.
      * rewrite (get_pristine_hash_spec 12) by lia. cbn [mbind outcome_bind].
        destruct (pristine_rest 0 p s Hn (zeros_page _ Hcont) Hp H64 Ets Hs) as (q & E & Hq). exists q. split; [|exact Hq].
        change (12 + Z.of_nat 0) with 12 in E. apply outcome_bind_done in E as (q1 & -> & E). cbn [mbind outcome_bind].
        apply outcome_bind_done in E as (h1 & -> & E). apply (inj Done) in E. cbn [mbind outcome_bind mret outcome_ret]. rewrite E.
        rewrite <- (pristine_target 0 12 (zeros_page _ Hcont)) by lia. apply Hok.
    + assert (s = 12) as Es by lia. exists p. split.
      * rewrite Es. change (7 + 0)%nat with 7%nat in Hhash. change (Z.to_nat (12 - 5)) with 7%nat. by rewrite <- Hhash.
      * apply filled_none; [done|]. intros j Hj. apply Z.ltb_ge. lia.
  - assert (s = 12 + Z.of_nat n) as Es by lia. test (12 + Z.of_nat n =? s) is true. cbn [negb throw_if mbind outcome_bind].
    exists p. split.
    + rewrite Hhash, Es. replace (Z.to_nat (12 + Z.of_nat n - 5)) with (7 + n)%nat by lia. done.
    + apply filled_none; [done|]. intros j Hj. apply Z.ltb_ge. lia.
Qed.

(** The whole proof *)
Lemma get_proof_tree s page_data :
  get_root_hash t = Done (node f 59 0) -> 5 <= s <= 64 -> a `mod` 2 ^ s = 0 -> page_data_for s page_data ->
  get_proof zero t a s page_data = Done (tree_proof f 5 64 s a).
Proof.
  intros Hroot Hs Hal Hd. unfold get_proof. change LOG2_ROOT_SIZE with 64. change LOG2_WORD_SIZE with 5. change LOG2_PAGE_SIZE with 12.
  test ((64 <? s) || (s <? 5)) is false. cbn [throw_if mbind outcome_bind].
  assert (Z.shiftr (uint64 (Z.lnot 0)) (64 - s) = 2 ^ s - 1) as ->.
  { rewrite Z.shiftr_div_pow2 by lia. change (uint64 (Z.lnot 0)) with (2 ^ 64 - 1). pose proof (pow2_pos (64 - s) ltac:(lia)).
    assert (2 ^ 64 = 2 ^ s * 2 ^ (64 - s)) as -> by (rewrite <- Z.pow_add_r by lia; f_equal; lia).
    symmetry. apply (Z.div_unique_pos _ _ _ (2 ^ (64 - s) - 1)); lia. }
  rewrite land_ones_mod, Hal by lia. cbn [Z.eqb negb throw_if mbind outcome_bind]. unfold make_proof.
  test (64 <=? 0) is false. test (s <? 0) is false. test (64 <? s) is false. cbn [throw_if mbind outcome_bind mret outcome_ret].
  set (p0 := MerkleTreeProof 0 s zero 64 zero _).
  assert (proof_wf p0) as Hp0 by (split; cbn [p0 m_log2_target_size m_log2_root_size m_sibling_hashes]; rewrite ?length_replicate; lia).
  set (n := Z.to_nat (Z.max s 12 - 12)). replace (Z.to_nat (64 - Z.max s 12)) with (52 - n)%nat by lia.
  destruct (node_siblings_spec (52 - n) n (Some (m_root t)) p0) as (n' & r & p1 & E1 & Hn' & Hr' & Hst & Hp1); try first [done|unfold depth; lia].
  { cbn [p0 m_log2_target_size]. lia. }
  { cbn [stored_at]. rewrite (sh_root _ _ (rp_shape _ _ _ Hr)). replace (52 - n + n)%nat with depth by (unfold depth; lia).
    rewrite Z.div_small; [done|]. exact Ha. }
  replace (12 + Z.of_nat (52 - n + n)) with 64 in E1, Hp1 by lia. rewrite E1. cbn [mbind outcome_bind].
  pose proof Hp1 as [W1 S1 R1 _].
  destruct (proof_below_spec n' r p1 s page_data) as (p2 & E2 & Hp2); try first [done|unfold depth; lia].
  { intros Hne. rewrite (Hr' Hne). lia. }
  rewrite E2, Hroot. cbn [mbind outcome_bind].
  pose proof (filled_trans _ _ _ _ _ _ _ Hp1 Hp2) as [W S R Hsib]. set (p3 := set_root_hash _ _).
  assert (p3 = tree_proof f 5 64 s a) as ->.
  { apply (proof_for_ext f 5); try done; [|apply tree_proof_for; lia]. split; try done.
    - destruct W. by split.
    - cbn [p3 set_root_hash set_target_address set_target_hash m_log2_target_size]. rewrite S. cbn. lia.
    - cbn [p3 set_root_hash set_target_address set_target_hash m_target_address m_log2_root_size]. by rewrite R.
    - cbn [p3 set_root_hash set_target_address set_target_hash m_target_hash m_log2_target_size m_target_address]. by rewrite S.
    - cbn [p3 set_root_hash set_target_address set_target_hash m_root_hash m_log2_root_size]. by rewrite R.
    - cbn [p3 set_root_hash set_target_address set_target_hash m_log2_target_size m_log2_root_size m_target_address].
      intros j Hj. rewrite (sibling_ext p2 p3) by done. rewrite Hsib by (by rewrite S in Hj; rewrite R in Hj).
      cbv beta. rewrite S, R in Hj. cbn [p0 m_log2_target_size m_log2_root_size] in Hj.
      replace ((12 + Z.of_nat n' <=? j) && (j <? 64) || (j <? 12 + Z.of_nat n')) with true by bool_cases. done. }
  rewrite (verify_spec f 5) by (apply tree_proof_for; lia). done.
Qed.
End proof.

(** The proof of a tree between updates *)
Lemma tree_get_proof_spec f t a s page_data :
  tree_of (node f 7) t -> missing_zero f t -> 0 <= a < 2 ^ 64 -> 5 <= s <= 64 -> a `mod` 2 ^ s = 0 ->
  page_data_for f a t s page_data -> get_proof zero t a s page_data = Done (tree_proof f 5 64 s a).
Proof.
  intros Ht Hz Ha Hs Hal Hd. pose proof (tree_root_hash_answer (node f 7) t Ht) as Hroot. unfold depth in Hroot. rewrite (page_node f 52 0) in Hroot.
  destruct Ht as (pos & Hr & Hc & _). exact (get_proof_tree f a Ha t pos Hr Hc Hz s page_data Hroot Hs Hal Hd).
Qed.

End proofs.
