(* ===== verification/AccessLog.v ===== *)
(** * Access logs (access-log.h, bracket-note.h)

    A log lists the accesses of a computation to the state of the machine: the
    data before and after each access, its hashes, and the hashes of the siblings
    on its path to the root of the Merkle tree of the state. *)

From S2P Require Import Prelude CppInt Bytes Pma Hasher MerkleProof.

(** ** Word access data *)

(** machine-merkle-tree.h *)
Definition LOG2_ROOT_SIZE : Z := 64.
Definition LOG2_WORD_SIZE : Z := 5.
Definition tree_word_size : Z := 2 ^ LOG2_WORD_SIZE.

Definition access_data_bounds (ad : list Z) (offset : Z) : outcome unit :=
  throw_if (negb (offset + 8 <=? Z.of_nat (length ad)))
    (assertion_failure "ad.size() >= offset + sizeof(uint64_t)").

Definition set_word_access_data (w : Z) : list Z := le_bytes 8 w.

Definition replace_word_access_data (w : Z) (ad : list Z) (offset : Z) : outcome (list Z) :=
  access_data_bounds ad offset ≫= fun _ => mret (splice (Z.to_nat offset) (le_bytes 8 w) ad).

Definition get_word_access_data (ad : list Z) (offset : Z) : outcome Z :=
  access_data_bounds ad offset ≫= fun _ => mret (le_val (Pma.slice offset 8 ad)).

(** ** Accesses *)

Inductive access_type := access_read | access_write.

#[export] Instance access_type_eq_dec : EqDecision access_type.
Proof. solve_decision. Defined.

Section access.
Context `{i_hasher}.
(** The value of a [hash_type] without a value *)
Context (zero : hash_type).

Record access := Access {
  a_type : access_type;
  a_address : Z;
  a_log2_size : Z;
  a_read : option (list Z);
  a_read_hash : hash_type;
  a_written : option (list Z);
  a_written_hash : option hash_type;
  a_sibling_hashes : option (list hash_type);
}.

(** Whether data does not have the size of the proof; the shift is undefined for
    sizes from 64 on. *)
Definition wrong_size (data : option (list Z)) (log2_size : Z) : outcome bool :=
  match data with
  | None => Done false
  | Some d =>
      throw_if (64 <=? log2_size) (undefined_behaviour "1 << proof_log2_size") ≫= fun _ =>
      mret (negb (Z.of_nat (length d) =? 2 ^ log2_size))
  end.

(** The loop that fills the siblings of a proof *)
Fixpoint set_siblings (siblings : list hash_type) (log2_size : Z) (proof : merkle_tree_proof) :
    outcome merkle_tree_proof :=
  match siblings with
  | [] => Done proof
  | h :: siblings => proof ← set_sibling_hash h log2_size proof; set_siblings siblings (log2_size + 1) proof
  end.

(** [access::make_proof] *)
Definition access_make_proof (a : access) (root_hash : hash_type) : outcome merkle_tree_proof :=
  let proof_log2_size := Z.max (a_log2_size a) LOG2_WORD_SIZE in
  let proof_address := a_address a &ᵇ uint64 (Z.lnot (tree_word_size - 1)) in
  match a_sibling_hashes a with
  | None => Exn (runtime_error "can't make proof if access doesn't have sibling hashes")
  | Some sibling_hashes =>
      let log2_root_size := proof_log2_size + Z.of_nat (length sibling_hashes) in
      bad ← wrong_size (a_read a) proof_log2_size;
      throw_if bad (runtime_error "access read data size is inconsistent with proof size") ≫= fun _ =>
      bad ← wrong_size (a_written a) proof_log2_size;
      throw_if bad (runtime_error "access written data size is inconsistent with proof size") ≫= fun _ =>
      proof ← make_proof zero log2_root_size proof_log2_size;
      let proof := set_root_hash root_hash proof in
      let proof := set_target_address proof_address proof in
      let proof := set_target_hash (a_read_hash a) proof in
      set_siblings sibling_hashes proof_log2_size proof
  end.

(** ** Logs *)

Record log_type := LogType { m_annotations : bool; m_large_data : bool }.

Inductive bracket_type := bracket_begin | bracket_end.

Record bracket_note := BracketNote { note_type : bracket_type; note_where : nat; note_text : string }.

Record access_log := AccessLog {
  m_accesses : list access;
  m_brackets : list bracket_note;
  m_notes : list string;
  m_log_type : log_type;
}.

Definition empty_log (t : log_type) : access_log := AccessLog [] [] [] t.

Definition clear_log (l : access_log) : access_log := AccessLog [] [] [] (m_log_type l).

(** Reserving room for the end bracket is not modelled. *)
Definition push_bracket (t : bracket_type) (text : string) (l : access_log) : access_log :=
  if m_annotations (m_log_type l) then
    AccessLog (m_accesses l) (m_brackets l ++ [BracketNote t (length (m_accesses l)) text]) (m_notes l) (m_log_type l)
  else l.

Definition push_access (a : access) (text : string) (l : access_log) : access_log :=
  AccessLog (m_accesses l ++ [a]) (m_brackets l)
    (if m_annotations (m_log_type l) then m_notes l ++ [text] else m_notes l) (m_log_type l).
End access.
Arguments access {_}.
Arguments access_log {_}.

(** ** Specification *)

Section spec.
Context `{i_hasher} (zero : hash_type).

Lemma set_siblings_spec siblings k p :
  proof_wf p -> m_log2_target_size p <= k -> k + Z.of_nat (length siblings) <= m_log2_root_size p ->
  exists q, set_siblings siblings k p = Done q /\ proof_wf q /\
    m_log2_target_size q = m_log2_target_size p /\ m_log2_root_size q = m_log2_root_size p /\
    m_target_address q = m_target_address p /\ m_target_hash q = m_target_hash p /\ m_root_hash q = m_root_hash p /\
    forall j, m_log2_target_size p <= j < m_log2_root_size p -> sibling q j =
      if (k <=? j) && (j <? k + Z.of_nat (length siblings)) then nth (Z.to_nat (j - k)) siblings (m_target_hash p)
      else sibling p j.
Proof.
  revert k p. induction siblings as [|h l IH]; intros k p Hp Hk Hl; cbn [set_siblings length].
  - exists p. repeat (split; [done|]). intros j Hj.
    replace ((k <=? j) && (j <? k + Z.of_nat 0)) with false by (symmetry; apply andb_false_iff; rewrite Z.leb_gt, Z.ltb_ge; lia).
    done.
  - cbn [length] in Hl. rewrite Nat2Z.inj_succ in Hl.
    destruct (set_sibling_hash_spec p k h Hp) as (p1 & -> & Hp1 & Ht & Hr & Ha & Hth & Hrh & Hs); [lia|].
    cbn [mbind outcome_bind]. destruct (IH (k + 1) p1) as (q & -> & Hq & Hqt & Hqr & Hqa & Hqth & Hqrh & Hqs); [done|lia|lia|].
    exists q. split; [done|]. split; [done|]. do 5 (split; [congruence|]). intros j Hj. rewrite Hqs, Hs, Hth by lia.
    destruct (Z.eqb_spec j k) as [->|Hne].
    + replace ((k + 1 <=? k) && _) with false by (symmetry; apply andb_false_iff; rewrite Z.leb_gt; lia).
      replace ((k <=? k) && _) with true by (symmetry; apply andb_true_iff; rewrite Z.leb_le, Z.ltb_lt; lia).
      by rewrite Z.sub_diag.
    + replace ((k + 1 <=? j) && (j <? k + 1 + Z.of_nat (length l)))
        with ((k <=? j) && (j <? k + Z.of_nat (S (length l)))) by (rewrite Nat2Z.inj_succ; bool_cases).
      destruct ((k <=? j) && (j <? k + Z.of_nat (S (length l)))) eqn:E; [|done]. reflect_bools.
      replace (Z.to_nat (j - k)) with (S (Z.to_nat (j - (k + 1)))) by lia. done.
Qed.

(** The proof of an access with the siblings of a whole path *)
Lemma access_make_proof_spec a root_hash siblings q :
  let k := Z.max (a_log2_size a) LOG2_WORD_SIZE in
  a_sibling_hashes a = Some siblings -> k + Z.of_nat (length siblings) = LOG2_ROOT_SIZE ->
  access_make_proof zero a root_hash = Done q ->
  proof_wf q /\ m_log2_target_size q = k /\ m_log2_root_size q = LOG2_ROOT_SIZE /\
  m_target_address q = a_address a &ᵇ uint64 (Z.lnot (tree_word_size - 1)) /\
  m_target_hash q = a_read_hash a /\ m_root_hash q = root_hash /\
  (forall j, k <= j < LOG2_ROOT_SIZE -> sibling q j = nth (Z.to_nat (j - k)) siblings (a_read_hash a)).
Proof.
  intros k Hs Hlen Hq. unfold access_make_proof in Hq. rewrite Hs in Hq. fold k in Hq.
  unfold LOG2_ROOT_SIZE in *. rewrite Hlen in Hq. assert (5 <= k) by (unfold k, LOG2_WORD_SIZE; lia).
  invert_outcome. unfold make_proof in *. cbn [throw_if] in *. invert_outcome.
  reflect_bools. match goal with Hx : MerkleTreeProof _ _ _ _ _ _ = _ |- _ => rewrite <- Hx in * end.
  match goal with Hd : set_siblings _ _ ?p0 = Done _ |- _ => set (p := p0) in *; rename Hd into Hd0 end.
  destruct (set_siblings_spec siblings k p) as (q' & E & Hq' & Ht & Hr & Ha & Hth & Hrh & Hsib).
  - constructor; unfold p, set_target_hash, set_target_address, set_root_hash; cbn; rewrite ?length_replicate; lia.
  - unfold p; cbn; lia.
  - unfold p; cbn; lia.
  - rewrite E in Hd0. injection Hd0 as <-. cbn in *. do 6 (split; [done|]). intros j Hj. rewrite Hsib by lia.
    replace ((k <=? j) && _) with true by (symmetry; apply andb_true_iff; rewrite Z.leb_le, Z.ltb_lt; lia). done.
Qed.
End spec.
