(* ===== verification/UarchReplay.v ===== *)
(** * Replaying access logs (uarch-replay-state-access.h, machine.cpp)

    The class that runs the microarchitecture without its state: every access is
    the next one of a log, which is checked against the root hash of the state
    before it is believed.  [verify_step_uarch] and [verify_reset_uarch] replay
    the log of a step and of a reset. *)

From stdpp Require Import pretty.
From S2P Require Import Prelude CppInt Constants UarchAccess UarchStep Bytes Pma MachineState UarchBridge Hasher MerkleProof AccessLog.

(** ** Texts of exceptions *)

Definition hex_digit (d : Z) : string :=
  nth (Z.to_nat d) ["0"; "1"; "2"; "3"; "4"; "5"; "6"; "7"; "8"; "9"; "a"; "b"; "c"; "d"; "e"; "f"]%string "".

(** Sixteen digits are those of a 64-bit number. *)
Fixpoint hex_digits (fuel : nat) (z : Z) : string :=
  match fuel with
  | O => ""
  | S fuel => (if z <? 16 then "" else hex_digits fuel (z / 16)) +:+ hex_digit (z mod 16)
  end.

Definition to_hex (z : Z) : string := hex_digits 16 z.

(** [machine_reg_address(reg, i)] *)
Definition machine_reg_address_at (r : machine_reg) (i : Z) : Z := uint64 (machine_reg_address r + i * 8).

(** Depth enough for the bits of the size of a buffer *)
Definition hash_fuel : nat := 65.

Section replay.
Context `{i_hasher}.
(** The value of a [hash_type] without a value, and the hash of
    [get_uarch_pristine_state_hash], which the build generates *)
Context (zero uarch_pristine_state_hash : hash_type).

(** ** State *)

(** The fields of the class, and what was written to the console *)
Record uarch_replay := UarchReplay {
  rp_accesses : list access;
  rp_next_access : Z;
  rp_root_hash : hash_type;
  rp_console : list Z;
}.

(** The constructor *)
Definition make_uarch_replay (log : access_log) (initial_hash : hash_type) : outcome uarch_replay :=
  throw_if (bool_decide (m_accesses log = [])) (invalid_argument "the access log has no accesses") ≫= fun _ =>
  mret (UarchReplay (m_accesses log) 0 initial_hash []).

Definition finish (r : uarch_replay) : outcome unit :=
  throw_if (negb (rp_next_access r =? Z.of_nat (length (rp_accesses r))))
    (invalid_argument "access log was not fully consumed").

Definition access_to_report (r : uarch_replay) : string :=
  let index := uint32 (rp_next_access r + 1) in
  if index =? 1 then "1st access" else if index =? 2 then "2nd access" else if index =? 3 then "3rd access"
  else pretty index +:+ "th access".

(** [get_hash] *)
Definition get_data_hash (data : list Z) : outcome hash_type :=
  get_merkle_tree_hash hash_fuel data (Z.of_nat (length data)) tree_word_size.

Definition next_access (r : uarch_replay) : outcome access :=
  match rp_accesses r !! Z.to_nat (rp_next_access r) with
  | Some a => Done a
  | None => Exn (invalid_argument "too few accesses in log")
  end.

(** [m_next_access++], once the root hash is set *)
Definition advance (root_hash : hash_type) (r : uarch_replay) : uarch_replay :=
  UarchReplay (rp_accesses r) (uint32 (rp_next_access r + 1)) root_hash (rp_console r).

(** [value()] of an optional that was found to have one *)
Definition get_value {A} (o : option A) (missing : string) : outcome A :=
  match o with Some v => Done v | None => Exn (invalid_argument missing) end.

Definition pleaf_aligned (paligned : Z) : Z := paligned &ᵇ uint64 (Z.lnot (tree_word_size - 1)).

(** ** Words *)

Definition check_read (paligned : Z) (text : string) (r : uarch_replay) : outcome (Z * uarch_replay) :=
  throw_if (negb ((paligned &ᵇ 7) =? 0)) (invalid_argument "address not aligned to word size") ≫= fun _ =>
  a ← next_access r;
  throw_if (negb (bool_decide (a_type a = access_read)))
    (invalid_argument ("expected " +:+ access_to_report r +:+ " to read " +:+ text)) ≫= fun _ =>
  throw_if (negb (a_address a =? paligned))
    (invalid_argument ("expected " +:+ access_to_report r +:+ " to read " +:+ text +:+ " address 0x"
      +:+ to_hex paligned +:+ "(" +:+ pretty paligned +:+ ")")) ≫= fun _ =>
  throw_if (negb (a_log2_size a =? 3))
    (invalid_argument ("expected " +:+ access_to_report r +:+ " to read 2^" +:+ pretty LOG2_WORD_SIZE
      +:+ " bytes from " +:+ text)) ≫= fun _ =>
  read_data ← get_value (a_read a) ("missing read " +:+ text +:+ " data at " +:+ access_to_report r);
  throw_if (negb (Z.of_nat (length read_data) =? tree_word_size))
    (invalid_argument ("expected read " +:+ text +:+ " data to contain 2^" +:+ pretty LOG2_WORD_SIZE
      +:+ " bytes at " +:+ access_to_report r)) ≫= fun _ =>
  computed_read_hash ← get_data_hash read_data;
  throw_if (negb (bool_decide (a_read_hash a = computed_read_hash)))
    (invalid_argument ("logged read data of " +:+ text +:+ " data does not hash to the logged read hash at "
      +:+ access_to_report r)) ≫= fun _ =>
  proof ← access_make_proof zero a (rp_root_hash r);
  ok ← verify proof;
  throw_if (negb ok) (invalid_argument ("Mismatch in root hash of " +:+ access_to_report r)) ≫= fun _ =>
  let r' := advance (rp_root_hash r) r in
  let word_offset := paligned - pleaf_aligned paligned in
  word ← get_word_access_data read_data word_offset;
  mret (word, r').

Definition check_write (paligned word : Z) (text : string) (r : uarch_replay) : outcome uarch_replay :=
  throw_if (negb ((paligned &ᵇ 7) =? 0)) (invalid_argument "paligned not aligned to word size") ≫= fun _ =>
  a ← next_access r;
  throw_if (negb (bool_decide (a_type a = access_write)))
    (invalid_argument ("expected " +:+ access_to_report r +:+ " to write " +:+ text)) ≫= fun _ =>
  throw_if (negb (a_address a =? paligned))
    (invalid_argument ("expected " +:+ access_to_report r +:+ " to write " +:+ text +:+ " to address 0x"
      +:+ to_hex paligned +:+ "(" +:+ pretty paligned +:+ ")")) ≫= fun _ =>
  throw_if (negb (a_log2_size a =? 3))
    (invalid_argument ("expected " +:+ access_to_report r +:+ " to write 2^" +:+ pretty LOG2_WORD_SIZE
      +:+ " bytes to " +:+ text)) ≫= fun _ =>
  read_data ← get_value (a_read a) ("missing read " +:+ text +:+ " data at " +:+ access_to_report r);
  throw_if (negb (Z.of_nat (length read_data) =? tree_word_size))
    (invalid_argument ("expected overwritten data from " +:+ text +:+ " to contain 2^" +:+ pretty (a_log2_size a)
      +:+ " bytes at " +:+ access_to_report r)) ≫= fun _ =>
  computed_read_hash ← get_data_hash read_data;
  throw_if (negb (bool_decide (a_read_hash a = computed_read_hash)))
    (invalid_argument ("logged read data of " +:+ text +:+ " does not hash to the logged read hash at "
      +:+ access_to_report r)) ≫= fun _ =>
  written_hash ← get_value (a_written_hash a) ("missing written " +:+ text +:+ " hash at " +:+ access_to_report r);
  written_data ← get_value (a_written a) ("missing written " +:+ text +:+ " data at " +:+ access_to_report r);
  throw_if (negb (Z.of_nat (length written_data) =? Z.of_nat (length read_data)))
    (invalid_argument ("expected written " +:+ text +:+ " data to contain 2^" +:+ pretty (a_log2_size a)
      +:+ " bytes at " +:+ access_to_report r)) ≫= fun _ =>
  computed_written_hash ← get_data_hash written_data;
  throw_if (negb (bool_decide (written_hash = computed_written_hash)))
    (invalid_argument ("logged written data of " +:+ text +:+ " does not hash to the logged written hash at "
      +:+ access_to_report r)) ≫= fun _ =>
  let word_offset := paligned - pleaf_aligned paligned in
  logged_word ← get_word_access_data written_data word_offset;
  throw_if (negb (word =? logged_word))
    (invalid_argument ("value being written to " +:+ text +:+ " does not match the logged written value at "
      +:+ access_to_report r)) ≫= fun _ =>
  expected_written_data ← replace_word_access_data word read_data word_offset;
  throw_if (negb (bool_decide (written_data = expected_written_data)))
    (invalid_argument ("logged written data of " +:+ text
      +:+ " doesn't differ from the logged read data only by the written word at " +:+ access_to_report r)) ≫= fun _ =>
  proof ← access_make_proof zero a (rp_root_hash r);
  ok ← verify proof;
  throw_if (negb ok) (invalid_argument ("Mismatch in root hash of " +:+ access_to_report r)) ≫= fun _ =>
  root_hash ← bubble_up proof written_hash;
  mret (advance root_hash r).

(** ** Resetting the state *)

(** Data that is there must have the logged hash. *)
Definition check_data_hash (data : option (list Z)) (hash : hash_type) (mismatch : string) : outcome unit :=
  match data with
  | None => Done tt
  | Some data =>
      computed_hash ← get_data_hash data;
      throw_if (negb (bool_decide (computed_hash = hash))) (invalid_argument mismatch)
  end.

Definition rp_reset_state (r : uarch_replay) : outcome uarch_replay :=
  a ← next_access r;
  throw_if (negb (a_address a =? UARCH_STATE_START_ADDRESS))
    (invalid_argument ("expected address of " +:+ access_to_report r
      +:+ " to be the start address of the uarch state")) ≫= fun _ =>
  throw_if (negb (a_log2_size a =? UARCH_STATE_LOG2_SIZE))
    (invalid_argument ("expected " +:+ access_to_report r +:+ " to write 2^" +:+ pretty UARCH_STATE_LOG2_SIZE
      +:+ " bytes to uarchState")) ≫= fun _ =>
  throw_if (negb (bool_decide (a_type a = access_write)))
    (invalid_argument ("expected " +:+ access_to_report r +:+ " to write uarchState")) ≫= fun _ =>
  check_data_hash (a_read a) (a_read_hash a)
    ("hash of read data and read hash at " +:+ access_to_report r +:+ " does not match read hash") ≫= fun _ =>
  written_hash ← get_value (a_written_hash a) ("write " +:+ access_to_report r +:+ " has no written hash");
  throw_if (negb (bool_decide (written_hash = uarch_pristine_state_hash)))
    (invalid_argument ("expected written hash of " +:+ access_to_report r
      +:+ " to be the start hash of the pristine uarch state")) ≫= fun _ =>
  check_data_hash (a_written a) written_hash
    ("written hash and written data mismatch at " +:+ access_to_report r) ≫= fun _ =>
  proof ← access_make_proof zero a (rp_root_hash r);
  ok ← verify proof;
  throw_if (negb ok) (invalid_argument ("Mismatch in root hash of " +:+ access_to_report r)) ≫= fun _ =>
  root_hash ← bubble_up proof written_hash;
  mret (advance root_hash r).

(** ** The class *)

(** A method that throws leaves the object as it was. *)
Definition rp_read {A} (f : Z -> A) (m : outcome (Z * uarch_replay)) (r : uarch_replay) : outcome A * uarch_replay :=
  match m with Done (v, r') => (Done (f v), r') | Exn e => (Exn e, r) end.

Definition rp_write (m : outcome uarch_replay) (r : uarch_replay) : outcome unit * uarch_replay :=
  match m with Done r' => (Done tt, r') | Exn e => (Exn e, r) end.

(** The name of the register at an address, or of the memory *)
Definition word_name (paddr : Z) : string := default "memory"%string (get_register_name paddr).

Definition aligned_word : exn := assertion_failure "(paddr & (sizeof(uint64_t) - 1)) == 0".

Definition rp_op {A} (o : uop A) : uarch_replay -> outcome A * uarch_replay :=
  match o in uop A return uarch_replay -> outcome A * uarch_replay with
  | ReadX reg => fun r => rp_read id (check_read (machine_reg_address_at reg_uarch_x0 reg) "uarch.x" r) r
  | WriteX reg val => fun r =>
      if reg =? 0 then (Exn (assertion_failure "reg != 0"), r)
      else rp_write (check_write (machine_reg_address_at reg_uarch_x0 reg) val "uarch.x" r) r
  | ReadPc => fun r => rp_read id (check_read (machine_reg_address reg_uarch_pc) "uarch.pc" r) r
  | WritePc val => fun r => rp_write (check_write (machine_reg_address reg_uarch_pc) val "uarch.pc" r) r
  | ReadCycle => fun r => rp_read id (check_read (machine_reg_address reg_uarch_cycle) "uarch.uarch_cycle" r) r
  | WriteCycle val => fun r =>
      rp_write (check_write (machine_reg_address reg_uarch_cycle) val "uarch.cycle" r) r
  | ReadHaltFlag => fun r =>
      rp_read (fun v => negb (v =? 0)) (check_read (machine_reg_address reg_uarch_halt_flag) "uarch.halt_flag" r) r
  | SetHaltFlag => fun r =>
      rp_write (check_write (machine_reg_address reg_uarch_halt_flag) 1 "uarch.halt_flag" r) r
  | ResetHaltFlag => fun r =>
      rp_write (check_write (machine_reg_address reg_uarch_halt_flag) 0 "uarch.halt_flag" r) r
  | ReadWord paddr => fun r =>
      if negb ((paddr &ᵇ 7) =? 0) then (Exn aligned_word, r)
      else rp_read id (check_read paddr (word_name paddr) r) r
  | WriteWord paddr val => fun r =>
      if negb ((paddr &ᵇ 7) =? 0) then (Exn aligned_word, r)
      else rp_write (check_write paddr val (word_name paddr) r) r
  | ResetState => fun r => rp_write (rp_reset_state r) r
  | PutChar c => fun r =>
      (Done tt, UarchReplay (rp_accesses r) (rp_next_access r) (rp_root_hash r) (rp_console r ++ [c]))
  end.

Definition uarch_replay_state_access : access_handler uarch_replay := {|
  do_op := @rp_op;
  do_begin := fun _ r => r;
  do_end := fun _ r => r;
|}.

(** ** Verification of logs (machine.cpp) *)

(** The part the two functions share: replay, and compare the hash it ends at.
    What the replay writes to the console is dropped. *)
Definition replay_log {A} (p : prog A) (root_hash_before : hash_type) (log : access_log)
    (root_hash_after : hash_type) : outcome unit :=
  throw_if (bool_decide (m_accesses log = [])) (invalid_argument "too few accesses in log") ≫= fun _ =>
  a ← make_uarch_replay log root_hash_before;
  let '(res, a) := run uarch_replay_state_access p a in
  res ≫= fun _ =>
  finish a ≫= fun _ =>
  throw_if (negb (bool_decide (rp_root_hash a = root_hash_after)))
    (invalid_argument "mismatch in root hash after replay").

Definition verify_step_uarch : hash_type -> access_log -> hash_type -> outcome unit := replay_log uarch_step.
Definition verify_reset_uarch : hash_type -> access_log -> hash_type -> outcome unit := replay_log uarch_reset_state.
End replay.
Arguments uarch_replay {_}.
