(* ===== verification/StateImage.v ===== *)
(** * The image of the state

    The state of the machine as the Merkle tree sees it: the [2^61] words of its
    address space, in which the registers have addresses.  The trees, the logs and
    the verifier of logs are specified over images; [image_access] is what the
    methods of the microarchitecture mean on an image. *)

From S2P Require Import Prelude CppInt Constants UarchAccess Bytes Pma MachineState Hasher MerkleProof AccessLog UarchReplay.

(** ** Images *)

(** The word at each index: address [8 * i] *)
Definition image : Type := Z -> Z.

Definition image_valid (im : image) : Prop := forall i, is_uint 64 (im i).

Definition image_word (im : image) (a : Z) : Z := im (a / 8).
Definition image_set (a v : Z) (im : image) : image := fun i => if i =? a / 8 then v else im i.

(** The bytes of the leaf at an index: address [32 * i] *)
Definition leaf_data (im : image) (i : Z) : list Z :=
  le_bytes 8 (im (4 * i)) ++ le_bytes 8 (im (4 * i + 1)) ++ le_bytes 8 (im (4 * i + 2)) ++ le_bytes 8 (im (4 * i + 3)).

Lemma length_leaf_data im i : length (leaf_data im i) = 32%nat.
Proof. done. Qed.

Lemma leaf_data_bytes im i : Forall is_byte (leaf_data im i).
Proof. unfold leaf_data. rewrite !Forall_app. auto using le_bytes_bytes. Qed.

Lemma leaf_data_ext im im' i :
  (forall j, 0 <= j < 4 -> im (4 * i + j) = im' (4 * i + j)) -> leaf_data im i = leaf_data im' i.
Proof. intros H. unfold leaf_data. rewrite <- (Z.add_0_r (4 * i)) at 1 5. by rewrite !H by lia. Qed.

Lemma image_set_valid a v im : is_uint 64 v -> image_valid im -> image_valid (image_set a v im).
Proof. intros Hv Him i. unfold image_set. by destruct (_ =? _). Qed.

Lemma image_word_set a b v im :
  image_word (image_set a v im) b = if b / 8 =? a / 8 then v else image_word im b.
Proof. done. Qed.

(** ** Addresses of words and of leaves *)

Record word_at (a : Z) : Prop := { wa_uint : is_uint 64 a; wa_aligned : a mod 8 = 0 }.

Lemma pleaf_aligned_spec a : is_uint 64 a -> pleaf_aligned a = 32 * (a / 32).
Proof. intros. unfold pleaf_aligned. rewrite land_not_uint by (lia || done). apply (ldiff_low a 5). lia. Qed.

(** The index of a word in its leaf *)
Lemma word_in_leaf a :
  word_at a -> exists j, 0 <= j < 4 /\ a - pleaf_aligned a = 8 * j /\ a / 8 = 4 * (a / 32) + j.
Proof.
  intros [Ha Hal]. exists ((a / 8) mod 4). rewrite pleaf_aligned_spec by done.
  Z.div_mod_to_equations; lia.
Qed.

Lemma get_word_leaf im i j :
  0 <= j < 4 -> image_valid im -> get_word_access_data (leaf_data im i) (8 * j) = Done (im (4 * i + j)).
Proof.
  intros Hj Him. unfold get_word_access_data, access_data_bounds. rewrite length_leaf_data.
  test (8 * j + 8 <=? Z.of_nat 32) is true. cbn [negb throw_if mbind outcome_bind mret outcome_ret]. f_equal.
  rewrite <- (uint_id 64 (im (4 * i + j))) by apply Him.
  rewrite <- (le_val_le_bytes 8). f_equal.
  assert (j = 0 \/ j = 1 \/ j = 2 \/ j = 3) as [-> | [-> | [-> | ->] ] ] by lia; rewrite ?Z.add_0_r; reflexivity.
Qed.

Lemma splice_leaf im i j v :
  0 <= j < 4 ->
  splice (Z.to_nat (8 * j)) (le_bytes 8 v) (leaf_data im i) =
  leaf_data (fun k => if k =? 4 * i + j then v else im k) i.
Proof.
  intros Hj. unfold leaf_data.
  assert (j = 0 \/ j = 1 \/ j = 2 \/ j = 3) as [-> | [-> | [-> | ->] ] ] by lia; rewrite ?Z.add_0_r;
    rewrite ?Z.eqb_refl; rewrite !(proj2 (Z.eqb_neq _ _)) by lia; reflexivity.
Qed.

Lemma replace_word_leaf im a v :
  word_at a ->
  replace_word_access_data v (leaf_data im (a / 32)) (a - pleaf_aligned a) =
  Done (leaf_data (image_set a v im) (a / 32)).
Proof.
  intros Ha. destruct (word_in_leaf a Ha) as (j & Hj & -> & Hw).
  unfold replace_word_access_data, access_data_bounds. rewrite length_leaf_data.
  test (8 * j + 8 <=? Z.of_nat 32) is true. cbn [negb throw_if mbind outcome_bind mret outcome_ret]. f_equal.
  rewrite splice_leaf by done. unfold image_set. by rewrite Hw.
Qed.

Lemma get_word_leaf_at im a :
  word_at a -> image_valid im ->
  get_word_access_data (leaf_data im (a / 32)) (a - pleaf_aligned a) = Done (image_word im a).
Proof.
  intros Ha Him. destruct (word_in_leaf a Ha) as (j & Hj & -> & Hw).
  rewrite get_word_leaf by done. unfold image_word. by rewrite Hw.
Qed.

(** ** The tree of an image *)

Section tree.
Context `{i_hasher}.

Definition leaf_hash (im : image) (i : Z) : hash_type := digest (leaf_data im i).

(** The root of the tree over the [2^59] leaves *)
Definition image_root (im : image) : hash_type := node (leaf_hash im) 59 0.

Lemma leaf_hash_set im a v :
  forall i, leaf_hash (image_set a v im) i = update (leaf_hash im) (a / 32) (digest (leaf_data (image_set a v im) (a / 32))) i.
Proof.
  intros i. unfold update, leaf_hash. destruct (Z.eqb_spec i (a / 32)) as [->|Hne]; [done|].
  f_equal. apply leaf_data_ext. intros j Hj. unfold image_set.
  rewrite (proj2 (Z.eqb_neq _ _)); [done|]. Z.div_mod_to_equations; lia.
Qed.

Lemma image_root_set im a v :
  image_root (image_set a v im) =
  node (update (leaf_hash im) (a / 32) (digest (leaf_data (image_set a v im) (a / 32)))) 59 0.
Proof. apply node_ext. intros. apply leaf_hash_set. Qed.

(** The hash that the verifier computes for data of the size of a leaf *)
Lemma get_data_hash_leaf data :
  length data = 32%nat -> get_data_hash data = Done (digest data).
Proof.
  intros Hl. unfold get_data_hash, hash_fuel. rewrite get_merkle_tree_hash_S, Hl.
  change (tree_word_size <? Z.of_nat 32) with false. cbn [negb throw_if mbind outcome_bind mret outcome_ret].
  change (Z.of_nat 32 =? tree_word_size) with true. cbn. by rewrite take_ge by lia.
Qed.
End tree.

(** ** The methods of the microarchitecture on an image *)

(** An image and what was written to the console *)
Record image_state := ImageState { is_image : image; is_console : list Z }.

Section access.
(** The image whose words a reset puts in the part of the state that belongs to
    the microarchitecture *)
Context (pristine : image).

Definition uarch_state_words : Z * Z := (UARCH_STATE_START_ADDRESS / 8, 2 ^ (UARCH_STATE_LOG2_SIZE - 3)).

Definition image_reset (im : image) : image := fun i =>
  if (fst uarch_state_words <=? i) && (i <? fst uarch_state_words + snd uarch_state_words) then pristine i else im i.

Definition im_read {A} (f : Z -> A) (a : Z) (s : image_state) : outcome A * image_state :=
  (Done (f (image_word (is_image s) a)), s).

Definition im_write (a v : Z) (s : image_state) : outcome unit * image_state :=
  (Done tt, ImageState (image_set a v (is_image s)) (is_console s)).

Definition im_op {A} (o : uop A) : image_state -> outcome A * image_state :=
  match o in uop A return image_state -> outcome A * image_state with
  | ReadX reg => im_read id (machine_reg_address_at reg_uarch_x0 reg)
  | WriteX reg val => fun s =>
      if reg =? 0 then (Exn (assertion_failure "reg != 0"), s)
      else im_write (machine_reg_address_at reg_uarch_x0 reg) val s
  | ReadPc => im_read id (machine_reg_address reg_uarch_pc)
  | WritePc val => im_write (machine_reg_address reg_uarch_pc) val
  | ReadCycle => im_read id (machine_reg_address reg_uarch_cycle)
  | WriteCycle val => im_write (machine_reg_address reg_uarch_cycle) val
  | ReadHaltFlag => im_read (fun v => negb (v =? 0)) (machine_reg_address reg_uarch_halt_flag)
  | SetHaltFlag => im_write (machine_reg_address reg_uarch_halt_flag) 1
  | ResetHaltFlag => im_write (machine_reg_address reg_uarch_halt_flag) 0
  | ReadWord paddr => fun s =>
      if negb ((paddr &ᵇ 7) =? 0) then (Exn aligned_word, s) else im_read id paddr s
  | WriteWord paddr val => fun s =>
      if negb ((paddr &ᵇ 7) =? 0) then (Exn aligned_word, s) else im_write paddr val s
  | ResetState => fun s => (Done tt, ImageState (image_reset (is_image s)) (is_console s))
  | PutChar c => fun s => (Done tt, ImageState (is_image s) (is_console s ++ [c]))
  end.

Definition image_access : access_handler image_state := {|
  do_op := @im_op;
  do_begin := fun _ s => s;
  do_end := fun _ s => s;
|}.
End access.

Section reset.
Context `{i_hasher} (pristine : image).

(** The node of the state of the microarchitecture: index 1 at its level *)
Definition uarch_state_node (im : image) : hash_type := node (leaf_hash im) 17 1.

Lemma image_root_reset im :
  image_root (image_reset pristine im) =
  node (update (node (leaf_hash im) 17) 1 (uarch_state_node pristine)) 42 0.
Proof.
  unfold image_root. rewrite <- (node_add _ 17 42). apply node_ext. intros i _. unfold update, uarch_state_node.
  destruct (Z.eqb_spec i 1) as [->|Hne]; apply node_ext; intros k Hk;
    unfold leaf_hash; f_equal; apply leaf_data_ext; intros j Hj; unfold image_reset;
    change uarch_state_words with (524288, 524288); cbn [fst snd]; change (2 ^ Z.of_nat 17) with 131072 in Hk.
  - test ((_ <=? _) && _) is true. done.
  - replace ((_ <=? _) && _) with false; [done|]. symmetry. apply andb_false_iff. rewrite Z.leb_gt, Z.ltb_ge. lia.
Qed.
End reset.
