(* ===== verification/UarchReplaySpec.v ===== *)
(** * Soundness of the replay of access logs

    A log that replays from the root hash of an image to another root hash proves
    the run of the microarchitecture on the image.  Hash functions have
    collisions: the alternative is an access of the log that shows one, by hashing
    to the hash of the image something that is not in the image.

    The section [accepted] has the converse for one access: what the recorder logs
    of an image is accepted. *)

From S2P Require Import Prelude CppInt Constants UarchAccess UarchStep Bytes MachineState Hasher MerkleProof PristineMerkleTree AccessLog UarchReplay StateImage.

(** ** What a check establishes *)

Section checks.
Context `{i_hasher}.

Lemma next_access_in r a : next_access r = Done a -> a ∈ rp_accesses r.
Proof.
  unfold next_access. destruct (_ !! _) eqn:E; [|done]. intros [= ->]. by eapply list_elem_of_lookup_2.
Qed.

Lemma get_value_done {A} (o : option A) missing v : get_value o missing = Done v -> o = Some v.
Proof. destruct o; cbn; congruence. Qed.
End checks.

(** What the checks of an access establish: a name for each hypothesis *)
Ltac open_checks :=
  invert_outcome; reflect_bools;
  repeat match goal with
  | Hv : get_value _ _ = Done _ |- _ => apply get_value_done in Hv
  | Hn : next_access _ = Done ?a |- _ => is_var a; apply next_access_in in Hn; rename Hn into Hin
  | Hl : Z.of_nat (length ?d) = tree_word_size, Hw : Z.of_nat (length ?w) = Z.of_nat (length ?d) |- _ =>
      rewrite Hl in Hw
  | Hl : Z.of_nat (length ?d) = tree_word_size, Hd : get_data_hash ?d = Done _ |- _ =>
      rewrite get_data_hash_leaf in Hd by (unfold tree_word_size, LOG2_WORD_SIZE in Hl; lia);
      injection Hd as Hd
  end.

Section replay.
Context `{i_hasher} (zero uarch_pristine_state_hash : hash_type) (pristine : image).

Notation rsa := (uarch_replay_state_access zero uarch_pristine_state_hash).
Notation ima := (image_access pristine).

(** ** Accesses of a log *)

(** What the types of the fields and the parser of logs ensure: the bytes are
    bytes, and there is a sibling for each level up to the root of the state
    (json-util.cpp) *)
Record access_wf (a : access) : Prop := {
  aw_address : is_uint 64 (a_address a);
  aw_log2_size : 0 <= a_log2_size a < 64;
  aw_read data : a_read a = Some data -> Forall is_byte data;
  aw_written data : a_written a = Some data -> Forall is_byte data;
  aw_siblings l : a_sibling_hashes a = Some l ->
    Z.max (a_log2_size a) LOG2_WORD_SIZE + Z.of_nat (length l) = LOG2_ROOT_SIZE;
}.

(** A collision between the hashes of an access and those of an image: different
    data for the leaf, or a different pair of children on the path to the root *)
Definition access_clash (im : image) (a : access) : Prop :=
  (exists data, a_read a = Some data /\ data <> leaf_data im (a_address a / 32) /\
     digest data = leaf_hash im (a_address a / 32)) \/
  (exists q k, access_make_proof zero a (image_root im) = Done q /\
     m_log2_target_size q <= k < LOG2_ROOT_SIZE /\
     collision (proof_pair q k) (tree_pair (leaf_hash im) LOG2_WORD_SIZE (m_target_address q) k)).

(** A proof of the access that verifies is the proof of the tree of the image. *)
Lemma verified_proof im a q :
  access_wf a ->
  access_make_proof zero a (image_root im) = Done q -> verify q = Done true ->
  access_clash im a \/
  proof_for (leaf_hash im) LOG2_WORD_SIZE q /\ m_log2_target_size q = Z.max (a_log2_size a) LOG2_WORD_SIZE /\
    m_log2_root_size q = LOG2_ROOT_SIZE /\ m_target_address q = pleaf_aligned (a_address a) /\
    m_target_hash q = a_read_hash a.
Proof.
  intros Ha Hq Hv. pose proof Ha as [Haddr Hlog _ _ Hsib].
  destruct (a_sibling_hashes a) as [l|] eqn:El; [|unfold access_make_proof in Hq; by rewrite El in Hq].
  destruct (access_make_proof_spec zero a (image_root im) l q El (Hsib l eq_refl) Hq)
    as (Hwf & Ht & Hr & Htgt & Hth & Hrh & Hsq).
  unfold LOG2_WORD_SIZE, LOG2_ROOT_SIZE in *. set (k := Z.max (a_log2_size a) 5) in *.
  assert (5 <= k <= 64) as Hk by (unfold k; destruct Hwf; lia).
  pose proof Haddr as Haddr'. fold (pleaf_aligned (a_address a)) in Htgt.
  unfold is_uint in Haddr'. assert (0 <= m_target_address q < 2 ^ 64) as Hta.
  { rewrite Htgt, pleaf_aligned_spec by done. Z.div_mod_to_equations; lia. }
  assert (parents (height q) q k (m_target_hash q) =
    node (leaf_hash im) (Z.to_nat (k + Z.of_nat (height q) - 5)) (m_target_address q / 2 ^ (k + Z.of_nat (height q)))) as Hpar.
  { unfold verify in Hv. rewrite bubble_up_parents in Hv by done. cbn [mbind outcome_bind mret outcome_ret] in Hv.
    injection Hv as Hv. apply bool_decide_eq_true_1 in Hv. rewrite Ht in Hv. rewrite Hv, Hrh.
    unfold height. rewrite Ht, Hr. replace (k + Z.of_nat (Z.to_nat (64 - k))) with 64 by lia.
    rewrite (Z.div_small (m_target_address q)) by lia. reflexivity. }
  rewrite <- Ht in Hpar.
  destruct (parents_sound (leaf_hash im) 5 (height q) q Hwf) as [(j & Hj & Hc)|[Htn Hsn]]; [lia| |done| |].
  - unfold height. rewrite Ht, Hr. lia.
  - left. right. exists q, j. split; [done|]. split; [|done]. unfold height, LOG2_ROOT_SIZE in *. rewrite Ht, Hr in Hj. lia.
  - right. split; [|done]. constructor; [exact Hwf|lia|rewrite Hr; lia|exact Htn|rewrite Hrh, Hr; reflexivity|].
    intros j Hj. apply Hsn. unfold height. lia.
Qed.

(** The data of an access to a word is the data of the leaf. *)
Lemma verified_leaf im a q data :
  access_wf a -> a_log2_size a = 3 ->
  access_make_proof zero a (image_root im) = Done q -> verify q = Done true ->
  a_read a = Some data -> a_read_hash a = digest data ->
  access_clash im a \/
  data = leaf_data im (a_address a / 32) /\ proof_for (leaf_hash im) LOG2_WORD_SIZE q /\
    m_log2_target_size q = 5 /\ m_log2_root_size q = 64 /\ m_target_address q / 2 ^ 5 = a_address a / 32.
Proof.
  intros Ha Hlog Hq Hv Hd Hh.
  destruct (verified_proof im a q Ha Hq Hv) as [Hc|(Hp & Ht & Hr & Hta & Hth)]; [by left|].
  rewrite Hlog in Ht. change (Z.max 3 LOG2_WORD_SIZE) with 5 in Ht.
  assert (m_target_address q / 2 ^ 5 = a_address a / 32) as Hdiv.
  { rewrite Hta, pleaf_aligned_spec by apply Ha. rewrite Z.mul_comm. by apply Z.div_mul. }
  destruct (decide (data = leaf_data im (a_address a / 32))) as [->|Hne]; [by right|].
  left. left. exists data. split; [done|]. split; [done|].
  rewrite <- Hh, <- Hth, (pf_target _ _ _ Hp), Ht, Hdiv. done.
Qed.

(** ** Checked accesses *)

Lemma word_at_checked paligned : (paligned &ᵇ 7 =? 0) = true -> is_uint 64 paligned -> word_at paligned.
Proof. intros Hal Ha. constructor; [done|]. change 7 with (2 ^ 3 - 1) in Hal. rewrite land_ones_mod in Hal by lia. by apply Z.eqb_eq in Hal. Qed.

Lemma check_read_sound r im paligned text v r' :
  image_valid im -> Forall access_wf (rp_accesses r) -> rp_root_hash r = image_root im ->
  check_read zero paligned text r = Done (v, r') ->
  (v = image_word im paligned /\ r' = advance (rp_root_hash r) r) \/
  (exists a, a ∈ rp_accesses r /\ access_clash im a).
Proof.
  intros Him Hlog Hroot Hc. unfold check_read in Hc. open_checks.
  match goal with Hq : access_make_proof _ ?a0 _ = Done ?q0, Hd : a_read _ = Some ?d |- _ =>
    rename Hq into Hproof, Hd into Hread; set (a := a0) in *; set (q := q0) in *; set (data := d) in * end.
  rewrite Forall_forall in Hlog. pose proof (Hlog a Hin) as Ha. rewrite Hroot in Hproof.
  destruct (verified_leaf im a q data Ha) as [Hcl|(Hdata & _)]; [lia|done|congruence|done|congruence|right; by exists a|].
  left. pose proof (aw_address _ Ha).
  assert (word_at paligned) as Hw by (apply word_at_checked; [by apply Z.eqb_eq|congruence]).
  match goal with Hg : get_word_access_data _ _ = Done _ |- _ => rename Hg into Hget end.
  rewrite Hdata in Hget. replace (a_address a) with paligned in Hget by congruence.
  rewrite get_word_leaf_at in Hget by done. split; congruence.
Qed.

(** The hash that the verifier continues with is the root of the image with the
    leaf replaced. *)
Lemma bubble_up_leaf im q i h :
  proof_for (leaf_hash im) LOG2_WORD_SIZE q -> m_log2_target_size q = 5 -> m_log2_root_size q = 64 ->
  m_target_address q / 2 ^ 5 = i -> bubble_up q h = Done (node (update (leaf_hash im) i h) 59 0).
Proof.
  intros Hq Ht Hr Hi. rewrite (bubble_up_spec _ _ _ h Hq). unfold height. rewrite Ht, Hr, Hi. reflexivity.
Qed.

Lemma get_word_uint data o w : Forall is_byte data -> get_word_access_data data o = Done w -> is_uint 64 w.
Proof.
  intros Hd Hw. unfold get_word_access_data in Hw. invert_outcome. subst.
  eapply (uint_mono (8 * Z.of_nat (length (Pma.slice o 8 data)))); [|apply le_val_range].
  - unfold Pma.slice. rewrite length_take. lia.
  - unfold Pma.slice. auto using Forall_take, Forall_drop.
Qed.

Lemma check_write_sound r im paligned word text r' :
  image_valid im -> Forall access_wf (rp_accesses r) -> rp_root_hash r = image_root im ->
  check_write zero paligned word text r = Done r' ->
  (is_uint 64 word /\ r' = advance (image_root (image_set paligned word im)) r) \/
  (exists a, a ∈ rp_accesses r /\ access_clash im a).
Proof.
  intros Him Hlog Hroot Hc. unfold check_write in Hc. open_checks.
  match goal with Hq : access_make_proof _ ?a0 _ = Done ?q0, Hd : a_read _ = Some ?d, Hw : a_written _ = Some ?w |- _ =>
    rename Hq into Hproof, Hd into Hread, Hw into Hwr;
    set (a := a0) in *; set (q := q0) in *; set (data := d) in *; set (written := w) in * end.
  rewrite Forall_forall in Hlog. pose proof (Hlog a Hin) as Ha. rewrite Hroot in Hproof.
  destruct (verified_leaf im a q data Ha) as [Hcl|(Hdata & Hp & Ht & Hr & Hi)];
    [lia|done|congruence|done|congruence|right; by exists a|].
  left. pose proof (aw_address _ Ha). assert (a_address a = paligned) as Haddr by congruence.
  assert (word_at paligned) as Hw by (apply word_at_checked; [by apply Z.eqb_eq|congruence]).
  match goal with Hg : get_word_access_data _ _ = Done _ |- _ => apply get_word_uint in Hg; [|by apply (aw_written _ Ha)] end.
  match goal with He : replace_word_access_data _ _ _ = Done _ |- _ => rename He into Hset end.
  rewrite Hdata, Haddr, replace_word_leaf in Hset by done. injection Hset as Hset.
  split; [congruence|]. subst r'. f_equal.
  match goal with Hb : bubble_up q _ = Done _ |- _ => rewrite (bubble_up_leaf im q _ _ Hp Ht Hr Hi) in Hb; apply Done_inj in Hb end.
  rewrite image_root_set, Haddr in *. congruence.
Qed.

(** The hash that the build generates is that of the pristine state. *)
Context (Hpristine : uarch_pristine_state_hash = uarch_state_node pristine).

Lemma reset_state_sound r im r' :
  image_valid im -> Forall access_wf (rp_accesses r) -> rp_root_hash r = image_root im ->
  rp_reset_state zero uarch_pristine_state_hash r = Done r' ->
  r' = advance (image_root (image_reset pristine im)) r \/
  (exists a, a ∈ rp_accesses r /\ access_clash im a).
Proof.
  intros Him Hlog Hroot Hc. unfold rp_reset_state in Hc. open_checks.
  match goal with Hq : access_make_proof _ ?a0 _ = Done ?q0 |- _ =>
    rename Hq into Hproof; set (a := a0) in *; set (q := q0) in * end.
  rewrite Forall_forall in Hlog. pose proof (Hlog a Hin) as Ha. rewrite Hroot in Hproof.
  destruct (verified_proof im a q Ha) as [Hcl|(Hp & Ht & Hr & Hta & _)]; [done|congruence|right; by exists a|].
  left. match goal with Hb : bubble_up q _ = Done _ |- _ => rewrite (bubble_up_spec _ _ _ _ Hp) in Hb end.
  assert (m_log2_target_size q = 22) as Et
    by (rewrite Ht; replace (a_log2_size a) with UARCH_STATE_LOG2_SIZE by congruence; reflexivity).
  assert (m_target_address q = 0x400000) as Eta
    by (rewrite Hta; replace (a_address a) with UARCH_STATE_START_ADDRESS by congruence; reflexivity).
  unfold height in *. rewrite Et, Hr, Eta in *. subst r'. f_equal.
  match goal with Hb : Done _ = Done _ |- _ => apply Done_inj in Hb end.
  change (Z.to_nat (22 - LOG2_WORD_SIZE)) with 17%nat in *. change (0x400000 / 2 ^ 22) with 1 in *.
  change (Z.to_nat (LOG2_ROOT_SIZE - 22)) with 42%nat in *. rewrite image_root_reset. congruence.
Qed.

(** ** The simulation *)

#[local] Opaque image_root machine_reg_address_at machine_reg_address.

Section simulation.
Context (log : list access) (Hlog : Forall access_wf log) (Hpv : image_valid pristine).

Record replays (r : uarch_replay) (s : image_state) : Prop := {
  rs_root : rp_root_hash r = image_root (is_image s);
  rs_console : rp_console r = is_console s;
  rs_valid : image_valid (is_image s);
  rs_log : rp_accesses r = log;
}.

(** An access of the log clashes with the image. *)
Definition log_clash (r : uarch_replay) (s : image_state) : Prop :=
  exists a, a ∈ log /\ access_clash (is_image s) a.

Lemma replay_read {A} (f : Z -> A) paligned text r s x r' :
  replays r s -> rp_read f (check_read zero paligned text r) r = (Done x, r') ->
  (exists s', im_read f paligned s = (Done x, s') /\ replays r' s') \/ log_clash r s.
Proof.
  intros [Hroot Hcon Hv Hl] Hr. unfold rp_read in Hr. unfold log_clash. rewrite <- Hl in *.
  destruct (check_read zero paligned text r) as [[v r1]|e] eqn:E; [|done]. injection Hr as <- <-.
  destruct (check_read_sound r (is_image s) paligned text v r1 Hv Hlog Hroot E) as [[-> ->]|Hc]; [left|by right].
  exists s. split; [done|]. by constructor.
Qed.

Lemma replay_write paligned v text r s x r' :
  replays r s -> rp_write (check_write zero paligned v text r) r = (Done x, r') ->
  (exists s', im_write paligned v s = (Done x, s') /\ replays r' s') \/ log_clash r s.
Proof.
  intros [Hroot Hcon Hv Hl] Hr. unfold rp_write in Hr. unfold log_clash. rewrite <- Hl in *.
  destruct (check_write zero paligned v text r) as [r1|e] eqn:E; [|done]. injection Hr as <- <-.
  destruct (check_write_sound r (is_image s) paligned v text r1 Hv Hlog Hroot E) as [[Hu ->]|Hc]; [left|by right].
  eexists. split; [done|]. constructor; [done|done|by apply image_set_valid|done].
Qed.

Lemma replay_reset r s x r' :
  replays r s -> rp_write (rp_reset_state zero uarch_pristine_state_hash r) r = (Done x, r') ->
  replays r' (ImageState (image_reset pristine (is_image s)) (is_console s)) \/ log_clash r s.
Proof.
  intros [Hroot Hcon Hv Hl] Hr. unfold rp_write in Hr. unfold log_clash. rewrite <- Hl in *.
  destruct (rp_reset_state zero uarch_pristine_state_hash r) as [r1|e] eqn:E; [|done]. injection Hr as <- <-.
  destruct (reset_state_sound r (is_image s) r1 Hv Hlog Hroot E) as [->|Hc]; [left|by right].
  constructor; [reflexivity|exact Hcon| |exact Hl]. intros i. unfold image_reset. cbn [is_image]. by destruct (_ && _).
Qed.

Lemma replay_op_sound : op_simulated_or rsa ima replays log_clash.
Proof.
  intros X o r s x r' HR Hop.
  destruct o; cbn [do_op uarch_replay_state_access rp_op image_access im_op] in *;
    try (by eapply replay_read); try (by eapply replay_write);
    try (case_if; [done|by eapply replay_write || by eapply replay_read]).
  - destruct x. destruct (replay_reset r s tt r' HR Hop); [left; by eexists|by right].
  - left. injection Hop as <- <-. eexists. split; [done|]. destruct HR as [Hroot Hcon Hv Hl].
    constructor; [done| |done|done]. cbn. by rewrite Hcon.
Qed.
End simulation.

Lemma replay_log_sound {A} (p : prog A) (Hpv : image_valid pristine) im log root_hash_after :
  image_valid im -> Forall access_wf (m_accesses log) ->
  replay_log zero uarch_pristine_state_hash p (image_root im) log root_hash_after = Done tt ->
  (exists a s, run ima p (ImageState im []) = (Done a, s) /\ image_root (is_image s) = root_hash_after) \/
  (exists s a, visits ima p (ImageState im []) s /\ a ∈ m_accesses log /\ access_clash (is_image s) a).
Proof.
  intros Him Hlog Hr. unfold replay_log in Hr. invert_outcome.
  unfold make_uarch_replay in *. invert_outcome.
  match goal with Hm : UarchReplay _ _ _ _ = ?r0 |- _ => subst r0 end.
  destruct (run rsa p _) as [res r'] eqn:E. invert_outcome.
  match goal with Hm : res = Done _ |- _ => subst res end.
  set (log0 := m_accesses log) in *.
  assert (replays log0 (UarchReplay log0 0 (image_root im) []) (ImageState im [])) as HR by done.
  destruct (run_simulated_or rsa ima (replays log0) (log_clash log0) (replay_op_sound log0 Hlog Hpv) ltac:(done)
    A p _ _ _ _ HR E) as [(s' & Hs & HR')|(r1 & s1 & _ & Hv & _ & (a & Ha & Hc))].
  - left. eexists _, s'. split; [done|]. rewrite <- (rs_root _ _ _ HR'). by reflect_bools.
  - right. by exists s1, a.
Qed.

(** C23: a log that [verify_step_uarch] accepts proves the step: from the state
    with the root hash before, [uarch_step] returns, and leaves a state with the
    root hash after - unless in a state of that run an access of the log shows a
    collision of the hash function. *)
Theorem verify_step_uarch_sound im log root_hash_after :
  image_valid pristine -> image_valid im -> Forall access_wf (m_accesses log) ->
  verify_step_uarch zero uarch_pristine_state_hash (image_root im) log root_hash_after = Done tt ->
  (exists status s, run ima uarch_step (ImageState im []) = (Done status, s) /\
     image_root (is_image s) = root_hash_after) \/
  (exists s a, visits ima uarch_step (ImageState im []) s /\ a ∈ m_accesses log /\ access_clash (is_image s) a).
Proof. intros Hpv Him Hlog Hv. by apply (replay_log_sound uarch_step Hpv im log root_hash_after Him Hlog). Qed.

(** C24: a log that [verify_reset_uarch] accepts proves the reset: the root hash
    after is that of the state in which the part of the microarchitecture is the
    pristine one and the rest is as before - unless an access of the log shows a
    collision of the hash function. *)
Theorem verify_reset_uarch_sound im log root_hash_after :
  image_valid pristine -> image_valid im -> Forall access_wf (m_accesses log) ->
  verify_reset_uarch zero uarch_pristine_state_hash (image_root im) log root_hash_after = Done tt ->
  image_root (image_reset pristine im) = root_hash_after \/
  (exists a, a ∈ m_accesses log /\ access_clash im a).
Proof.
  intros Hpv Him Hlog Hv.
  destruct (replay_log_sound uarch_reset_state Hpv im log root_hash_after Him Hlog Hv)
    as [(a & s & Hr & Hroot)|(s & a & Hvis & Ha & Hc)].
  - left. cbn [run uarch_reset_state resetState do_op image_access im_op] in Hr. by injection Hr as <- <-.
  - right. exists a. split; [done|]. apply visits_inv in Hvis. cbn in Hvis.
    destruct Hvis as [->|(x & s' & _ & Hk)]; [done|]. by apply visits_inv in Hk.
Qed.
End replay.

(** ** Accesses that the verifier accepts *)

Section accepted.
Context `{i_hasher} (zero uarch_pristine_state_hash : hash_type).
Implicit Types (im : image) (r : uarch_replay).

(** The hashes of the siblings of the node of [2^s] bytes at an address *)
Definition siblings_of im (s a : Z) : list hash_type := m_sibling_hashes (tree_proof (leaf_hash im) LOG2_WORD_SIZE LOG2_ROOT_SIZE s a).

Definition read_access im (a : Z) : access :=
  Access access_read a 3 (Some (leaf_data im (a / 32))) (leaf_hash im (a / 32)) None None (Some (siblings_of im 5 (pleaf_aligned a))).

Definition write_access im (a v : Z) : access :=
  let written := leaf_data (image_set a v im) (a / 32) in
  Access access_write a 3 (Some (leaf_data im (a / 32))) (leaf_hash im (a / 32)) (Some written) (Some (digest written))
    (Some (siblings_of im 5 (pleaf_aligned a))).

Lemma length_siblings_of im s a : 5 <= s <= 64 -> Z.of_nat (length (siblings_of im s a)) = 64 - s.
Proof. intros Hs. unfold siblings_of, tree_proof. cbn. rewrite length_map, length_seqZ. unfold LOG2_ROOT_SIZE. lia. Qed.

(** The proof made of a logged access is that of the tree of the image. *)
Lemma logged_proof im (x : access) s a bad1 bad2 :
  s = Z.max (a_log2_size x) LOG2_WORD_SIZE -> s <= 64 -> is_uint 64 a ->
  pleaf_aligned (a_address x) = a -> a_read_hash x = node (leaf_hash im) (Z.to_nat (s - 5)) (a / 2 ^ s) ->
  a_sibling_hashes x = Some (siblings_of im s a) ->
  wrong_size (a_read x) s = Done bad1 -> bad1 = false -> wrong_size (a_written x) s = Done bad2 -> bad2 = false ->
  exists q, access_make_proof zero x (image_root im) = Done q /\ proof_for (leaf_hash im) LOG2_WORD_SIZE q /\
    m_log2_target_size q = s /\ m_log2_root_size q = 64 /\ m_target_address q = a.
Proof.
  intros Es Hs Ha Haddr Hh Hsib Hb1 -> Hb2 ->. assert (5 <= s) by (unfold LOG2_WORD_SIZE in Es; lia).
  pose proof (length_siblings_of im s a ltac:(lia)) as Hlen.
  assert (exists q, access_make_proof zero x (image_root im) = Done q) as [q Hq].
  { unfold access_make_proof. rewrite Hsib, <- Es, Hb1, Hb2, Hlen. replace (s + (64 - s)) with 64 by lia.
    unfold make_proof. change (64 <=? 0) with false. test (s <? 0) is false. test (64 <? s) is false.
    cbn [throw_if mbind outcome_bind mret outcome_ret].
    match goal with |- context [set_siblings _ _ ?p0] => destruct (set_siblings_spec (siblings_of im s a) s p0) as (q & -> & _) end;
      [|cbn; lia|rewrite Hlen; cbn; lia|by exists q].
    split; cbn; rewrite ?length_replicate; lia. }
  exists q. split; [done|].
  destruct (access_make_proof_spec zero x (image_root im) (siblings_of im s a) q) as (Hwf & Ht & Hr & Hta & Hth & Hrh & Hsq);
    [done|unfold LOG2_ROOT_SIZE; lia|done|].
  rewrite <- Es in *. fold (pleaf_aligned (a_address x)) in Hta. rewrite Haddr in Hta. unfold is_uint in Ha.
  split; [|done]. split; rewrite ?Ht, ?Hr, ?Hta; [exact Hwf|unfold LOG2_WORD_SIZE; lia|exact Ha|rewrite Hth; exact Hh|rewrite Hrh; reflexivity|].
  intros k Hk. rewrite Hsq by (unfold LOG2_ROOT_SIZE in *; lia). unfold siblings_of, tree_proof. cbn [m_sibling_hashes].
  apply nth_lookup_Some. rewrite list_lookup_fmap, lookup_seqZ_lt by (unfold LOG2_ROOT_SIZE in *; lia). cbn [fmap option_fmap option_map]. by rewrite Z2Nat.id, Zplus_minus by lia.
Qed.

Lemma pleaf_aligned_uint a : is_uint 64 a -> is_uint 64 (pleaf_aligned a).
Proof. intros Ha. rewrite pleaf_aligned_spec by done. unfold is_uint in *. Z.div_mod_to_equations; lia. Qed.

Lemma pleaf_index a : is_uint 64 a -> pleaf_aligned a / 2 ^ 5 = a / 32.
Proof. intros Ha. rewrite pleaf_aligned_spec by done. rewrite Z.mul_comm. by apply Z.div_mul. Qed.

(** The verifier is at the access [x] of the log, with the root hash of the image. *)
Definition at_access im (x : access) r : Prop :=
  rp_accesses r !! Z.to_nat (rp_next_access r) = Some x /\ rp_root_hash r = image_root im.

Lemma at_next im x r : at_access im x r -> next_access r = Done x.
Proof. intros [E _]. unfold next_access. by rewrite E. Qed.

(** A check that passes; the steps are rewritten rather than computed, since the
    hashes of a tree must not be. *)
Lemma pass {A} c e (f : unit -> outcome A) : c = false -> throw_if c e ≫= f = f tt.
Proof. by intros ->. Qed.

Lemma bind_done {A B} (x : A) (f : A -> outcome B) : Done x ≫= f = f x.
Proof. done. Qed.

Ltac check_passes := rewrite pass by (rewrite ?length_leaf_data, ?bool_decide_eq_true_2, ?Z.eqb_refl by done; done).

Lemma read_accepted im a text r :
  image_valid im -> word_at a -> at_access im (read_access im a) r ->
  check_read zero a text r = Done (image_word im a, advance (rp_root_hash r) r).
Proof.
  intros Him Ha Hx. pose proof Ha as [Hu Hal]. unfold check_read.
  rewrite pass by (change 7 with (2 ^ 3 - 1); rewrite land_ones_mod by lia; change (2 ^ 3) with 8; by rewrite Hal).
  rewrite (at_next _ _ _ Hx), bind_done. do 3 check_passes. change (a_read (read_access im a)) with (Some (leaf_data im (a / 32))).
  unfold get_value. rewrite bind_done. check_passes. rewrite get_data_hash_leaf, bind_done by done. check_passes.
  destruct Hx as [_ Hr]. rewrite Hr.
  destruct (logged_proof im (read_access im a) 5 (pleaf_aligned a) false false) as (q & -> & Hq & _);
    [done|done|by apply pleaf_aligned_uint|done| |done..|].
  { rewrite pleaf_index by done. exact (eq_refl (leaf_hash im (a / 32))). }
  rewrite bind_done, (verify_spec _ _ _ Hq), bind_done. rewrite pass by done. rewrite get_word_leaf_at, bind_done by done. done.
Qed.

Lemma write_accepted im a v text r :
  image_valid im -> word_at a -> is_uint 64 v -> at_access im (write_access im a v) r ->
  check_write zero a v text r = Done (advance (image_root (image_set a v im)) r).
Proof.
  intros Him Ha Hv Hx. pose proof Ha as [Hu Hal]. unfold check_write.
  rewrite pass by (change 7 with (2 ^ 3 - 1); rewrite land_ones_mod by lia; change (2 ^ 3) with 8; by rewrite Hal).
  rewrite (at_next _ _ _ Hx), bind_done. do 3 check_passes. change (a_read (write_access im a v)) with (Some (leaf_data im (a / 32))).
  set (written := leaf_data (image_set a v im) (a / 32)).
  change (a_written (write_access im a v)) with (Some written). change (a_written_hash (write_access im a v)) with (Some (digest written)).
  unfold get_value. rewrite bind_done. check_passes. rewrite get_data_hash_leaf, bind_done by done. check_passes.
  rewrite !bind_done. check_passes. rewrite get_data_hash_leaf, bind_done by done. check_passes.
  subst written. rewrite get_word_leaf_at, bind_done by (done || by apply image_set_valid). rewrite image_word_set, Z.eqb_refl. check_passes.
  rewrite replace_word_leaf, bind_done by done. check_passes. destruct Hx as [_ Hr]. rewrite Hr.
  destruct (logged_proof im (write_access im a v) 5 (pleaf_aligned a) false false) as (q & -> & Hq & Ht & Hrs & Hta);
    [done|done|by apply pleaf_aligned_uint|done| |done..|].
  { rewrite pleaf_index by done. exact (eq_refl (leaf_hash im (a / 32))). }
  rewrite bind_done, (verify_spec _ _ _ Hq), bind_done. rewrite pass by done.
  rewrite (bubble_up_leaf im q (a / 32)); [|done..|by rewrite Hta, pleaf_index]. rewrite bind_done, <- image_root_set. done.
Qed.
End accepted.

(** ** Witnesses *)

(** A small hash function for examples *)
Definition small_hasher : i_hasher := {|
  hash_type := Z;
  bytes := le_bytes 8;
  digest := fun l => fold_left (fun h b => (h * 257 + b + 1) mod 2305843009213693951) l 0;
|}.

Section witness.
#[local] Existing Instance small_hasher.

Definition zero_leaf : hash_type := digest (replicate 32 0).

(** The siblings of the one leaf that is not zero *)
Definition zero_siblings (from : nat) : list hash_type := drop from (pristine_hashes 59 zero_leaf).

(** A state in which the microarchitecture is halted, and its root *)
Definition halted_image : image := image_set 0x400000 1 (fun _ => 0).

Lemma zero_image_proof a :
  is_uint 64 a -> proof_for (leaf_hash (fun _ => 0)) 5 (MerkleTreeProof a 5 zero_leaf 64 (pristine zero_leaf 59) (zero_siblings 0)).
Proof.
  intros Ha. constructor; cbn [m_target_address m_log2_target_size m_target_hash m_log2_root_size m_root_hash].
  - constructor; cbn; lia.
  - lia.
  - exact Ha.
  - reflexivity.
  - symmetry. apply (node_pristine _ zero_leaf). intros. reflexivity.
  - intros k Hk. unfold sibling. cbn [m_sibling_hashes m_log2_target_size m_target_hash].
    rewrite (node_pristine _ zero_leaf) by (intros; reflexivity). unfold zero_siblings.
    rewrite drop_0. apply pristine_hashes_nth. lia.
Qed.

(** The root of the zero state with one word set *)
Lemma sparse_root a v :
  word_at a ->
  bubble_up (MerkleTreeProof a 5 zero_leaf 64 (pristine zero_leaf 59) (zero_siblings 0))
    (digest (leaf_data (image_set a v (fun _ => 0)) (a / 32))) = Done (image_root (image_set a v (fun _ => 0))).
Proof.
  intros [Ha _]. rewrite image_root_set. eapply bubble_up_leaf; [by apply zero_image_proof|reflexivity..].
Qed.

Definition halted_hash : hash_type := 1382521832922457340.

Lemma halted_root : image_root halted_image = halted_hash.
Proof.
  apply Done_inj. unfold halted_image. rewrite <- sparse_root by (by constructor). vm_compute. reflexivity.
Qed.

Definition pristine_hash : hash_type := pristine zero_leaf 17.

Lemma pristine_hash_spec : pristine_hash = uarch_state_node (fun _ => 0).
Proof. symmetry. apply (node_pristine _ zero_leaf). intros. reflexivity. Qed.

(** The log of a step of that state: the cycle and the flag are read. *)
Definition halted_leaf : list Z := le_bytes 8 1 ++ replicate 24 0.
Definition halted_read (a : Z) : access :=
  Access access_read a 3 (Some halted_leaf) (digest halted_leaf) None None (Some (zero_siblings 0)).
Definition halted_log : access_log :=
  AccessLog [halted_read 0x400008; halted_read 0x400000] [] [] (LogType false false).

(** The log of its reset *)
Definition halted_state_hash : hash_type :=
  match bubble_up (MerkleTreeProof 0x400000 5 zero_leaf 22 zero_leaf (take 17 (zero_siblings 0))) (digest halted_leaf) with
  | Done h => h
  | Exn _ => zero_leaf
  end.
Definition reset_log : access_log :=
  AccessLog [Access access_write 0x400000 22 None halted_state_hash None (Some pristine_hash) (Some (zero_siblings 17))]
    [] [] (LogType false false).

Lemma halted_image_valid : image_valid halted_image.
Proof. apply image_set_valid; unfold is_uint; [lia|intros i; unfold is_uint; lia]. Qed.

Lemma halted_read_wf a : is_uint 64 a -> access_wf (halted_read a).
Proof.
  intros Ha. constructor; cbn [a_address a_log2_size a_read a_written a_sibling_hashes halted_read].
  - exact Ha.
  - lia.
  - intros data [= <-]. apply Forall_app. split; [apply le_bytes_bytes|]. apply Forall_replicate. unfold is_byte, is_uint. lia.
  - done.
  - intros l [= <-]. reflexivity.
Qed.

Lemma verify_step_uarch_sound_witness :
  let ima := image_access (fun _ => 0) in
  verify_step_uarch zero_leaf pristine_hash halted_hash halted_log halted_hash = Done tt /\
  ((exists status s, run ima uarch_step (ImageState halted_image []) = (Done status, s) /\
     image_root (is_image s) = halted_hash) \/
   (exists s a, visits ima uarch_step (ImageState halted_image []) s /\ a ∈ m_accesses halted_log /\
     access_clash zero_leaf (is_image s) a)).
Proof.
  assert (verify_step_uarch zero_leaf pristine_hash halted_hash halted_log halted_hash = Done tt) as Hv
    by (vm_compute; reflexivity).
  split; [exact Hv|]. rewrite <- halted_root in Hv at 1.
  apply (verify_step_uarch_sound zero_leaf pristine_hash (fun _ => 0) pristine_hash_spec halted_image halted_log halted_hash).
  - intros i. unfold is_uint. lia.
  - exact halted_image_valid.
  - repeat constructor; apply halted_read_wf; unfold is_uint; lia.
  - exact Hv.
Defined.

Lemma verify_reset_uarch_sound_witness :
  let after := pristine zero_leaf 59 in
  verify_reset_uarch zero_leaf pristine_hash halted_hash reset_log after = Done tt /\
  (image_root (image_reset (fun _ => 0) halted_image) = after \/
   (exists a, a ∈ m_accesses reset_log /\ access_clash zero_leaf halted_image a)).
Proof.
  intros after. assert (verify_reset_uarch zero_leaf pristine_hash halted_hash reset_log after = Done tt) as Hv
    by (vm_compute; reflexivity).
  split; [exact Hv|]. rewrite <- halted_root in Hv at 1.
  apply (verify_reset_uarch_sound zero_leaf pristine_hash (fun _ => 0) pristine_hash_spec halted_image reset_log after).
  - intros i. unfold is_uint. lia.
  - exact halted_image_valid.
  - constructor; [|constructor]. constructor; cbn [a_address a_log2_size a_read a_written a_sibling_hashes];
      [unfold is_uint; lia|lia|done|done|intros l [= <-]; reflexivity].
  - exact Hv.
Defined.
End witness.
