(* ===== verification/DeviceAccess.v ===== *)
(** * The state that devices reach (i-device-state-access.h, device-state-access.h, state-access.h)

    A device is a pair of callbacks, for the loads and the stores in its range.
    They reach the state of the machine through a virtual interface; the class
    that implements it for the machine reads and writes the state directly.  The
    console is the one input and output. *)

From S2P Require Import Prelude CppInt Constants RiscvConstants MachineState.

(** ** Status of an instruction (interpret.h) *)

Inductive execute_status :=
  | success | failure | success_and_flush_fetch | success_and_serve_interrupts
  | success_and_yield | success_and_halt.

#[export] Instance execute_status_eq_dec : EqDecision execute_status.
Proof. solve_decision. Defined.

(** ** The class *)

(** The state, the cycle of the access, the characters that wait at the console
    and those written to it *)
Record device_access := DeviceAccess {
  da_s : machine_state;
  da_mcycle : Z;
  da_input : list Z;
  da_output : list Z;
}.

Definition on_s (f : machine_state -> machine_state) (a : device_access) : device_access :=
  DeviceAccess (f (da_s a)) (da_mcycle a) (da_input a) (da_output a).

Definition read_mip (a : device_access) : Z := s_mip (da_s a).
Definition set_mip (mask : Z) (a : device_access) : device_access :=
  on_s (upd_mip (fun mip => mip |ᵇ mask)) a.
Definition reset_mip (mask : Z) (a : device_access) : device_access :=
  on_s (upd_mip (fun mip => mip &ᵇ uint64 (Z.lnot mask))) a.
Definition read_mcycle (a : device_access) : Z := da_mcycle a.
Definition write_iflags_H (v : Z) : device_access -> device_access := on_s (set_iflags_H v).
Definition write_iflags_Y (v : Z) : device_access -> device_access := on_s (set_iflags_Y v).
Definition write_iflags_X (v : Z) : device_access -> device_access := on_s (set_iflags_X v).
Definition read_clint_mtimecmp (a : device_access) : Z := mtimecmp (s_clint (da_s a)).
Definition write_clint_mtimecmp (v : Z) : device_access -> device_access := on_s (set_mtimecmp v).
Definition read_plic_girqpend (a : device_access) : Z := girqpend (s_plic (da_s a)).
Definition write_plic_girqpend (v : Z) : device_access -> device_access := on_s (set_girqpend v).
Definition read_plic_girqsrvd (a : device_access) : Z := girqsrvd (s_plic (da_s a)).
Definition write_plic_girqsrvd (v : Z) : device_access -> device_access := on_s (set_girqsrvd v).
Definition read_htif_tohost (a : device_access) : Z := tohost (s_htif (da_s a)).
Definition write_htif_tohost (v : Z) : device_access -> device_access := on_s (set_tohost v).
Definition read_htif_fromhost (a : device_access) : Z := fromhost (s_htif (da_s a)).
Definition write_htif_fromhost (v : Z) : device_access -> device_access := on_s (set_fromhost v).
Definition read_htif_ihalt (a : device_access) : Z := ihalt (s_htif (da_s a)).
Definition read_htif_iconsole (a : device_access) : Z := iconsole (s_htif (da_s a)).
Definition read_htif_iyield (a : device_access) : Z := iyield (s_htif (da_s a)).

(** The console (os.cpp): the next character, or -1 *)
Definition os_getchar (a : device_access) : Z * device_access :=
  match da_input a with
  | [] => (-1, a)
  | c :: input => (c, DeviceAccess (da_s a) (da_mcycle a) input (da_output a))
  end.
Definition os_putchar (c : Z) (a : device_access) : device_access :=
  DeviceAccess (da_s a) (da_mcycle a) (da_input a) (da_output a ++ [c]).

(** ** Drivers (pma-driver.h) *)

(** A load returns the value, or [None] where the callback returns false. *)
Record pma_driver := PmaDriver {
  drv_name : string;
  drv_read : Z -> Z -> device_access -> option Z * device_access;
  drv_write : Z -> Z -> Z -> device_access -> execute_status * device_access;
}.

(** The default callbacks (pma-driver.cpp) *)
Definition device_read_error (offset log2_size : Z) (a : device_access) : option Z * device_access := (None, a).
Definition device_write_error (offset val log2_size : Z) (a : device_access) : execute_status * device_access :=
  (failure, a).

(** ** Bits of [mip] *)

Lemma set_mip_bit mask a i : Z.testbit (read_mip (set_mip mask a)) i = Z.testbit (read_mip a) i || Z.testbit mask i.
Proof. apply Z.lor_spec. Qed.

Lemma reset_mip_bit mask a i :
  is_uint 64 (read_mip a) -> Z.testbit (read_mip (reset_mip mask a)) i = Z.testbit (read_mip a) i && negb (Z.testbit mask i).
Proof.
  intros Hm. change (read_mip (reset_mip mask a)) with (read_mip a &ᵇ uint64 (Z.lnot mask)).
  rewrite land_not_uint by (lia || done). apply Z.ldiff_spec.
Qed.

Lemma set_mip_uint mask a : is_uint 64 (read_mip a) -> is_uint 64 mask -> is_uint 64 (read_mip (set_mip mask a)).
Proof. intros. by apply lor_uint. Qed.

Lemma reset_mip_uint mask a : is_uint 64 (read_mip a) -> is_uint 64 (read_mip (reset_mip mask a)).
Proof. intros. by apply land_uint. Qed.
