(* ===== verification/Clint.v ===== *)
(** * The clock interruptor (clint.cpp, rtc.h) *)

From S2P Require Import Prelude CppInt Constants RiscvConstants MachineState DeviceAccess.

(** ** Real-time clock (rtc.h) *)

Definition RTC_FREQ_DIV : Z := 8192.

Definition rtc_cycle_to_time (cycle : Z) : Z := cycle / RTC_FREQ_DIV.
Definition rtc_time_to_cycle (time : Z) : Z := uint64 (time * RTC_FREQ_DIV).
Definition rtc_is_tick (cycle : Z) : bool := cycle mod RTC_FREQ_DIV =? 0.

(** ** The device *)

Definition clint_msip0_rel_addr : Z := 0.
Definition clint_mtimecmp_rel_addr : Z := 0x4000.
Definition clint_mtime_rel_addr : Z := 0xbff8.

Definition clint_read_msip (log2_size : Z) (a : device_access) : option Z :=
  if log2_size =? 2 then Some (Z.b2z ((read_mip a &ᵇ MIP_MSIP_MASK) =? MIP_MSIP_MASK)) else None.

Definition clint_read_mtime (log2_size : Z) (a : device_access) : option Z :=
  if log2_size =? 3 then Some (rtc_cycle_to_time (read_mcycle a)) else None.

Definition clint_read_mtimecmp (log2_size : Z) (a : device_access) : option Z :=
  if log2_size =? 3 then Some (read_clint_mtimecmp a) else None.

Definition clint_read (offset log2_size : Z) (a : device_access) : option Z * device_access :=
  if offset =? clint_msip0_rel_addr then (clint_read_msip log2_size a, a)
  else if offset =? clint_mtimecmp_rel_addr then (clint_read_mtimecmp log2_size a, a)
  else if offset =? clint_mtime_rel_addr then (clint_read_mtime log2_size a, a)
  else (None, a).

Definition clint_write (offset val log2_size : Z) (a : device_access) : execute_status * device_access :=
  if offset =? clint_msip0_rel_addr then
    if log2_size =? 2 then
      if negb ((val &ᵇ 1) =? 0) then (success_and_serve_interrupts, set_mip MIP_MSIP_MASK a)
      else (success, reset_mip MIP_MSIP_MASK a)
    else (failure, a)
  else if offset =? clint_mtimecmp_rel_addr then
    if log2_size =? 3 then (success, reset_mip MIP_MTIP_MASK (write_clint_mtimecmp val a)) else (failure, a)
  else (failure, a).

Definition clint_driver : pma_driver := PmaDriver "CLINT" clint_read clint_write.

(** ** Specification *)

(** Times and cycles: a time is the first of its cycles, and ticks are the cycles
    at which the time changes. *)
Lemma rtc_time_cycle cycle :
  is_uint 64 cycle ->
  rtc_time_to_cycle (rtc_cycle_to_time cycle) <= cycle < rtc_time_to_cycle (rtc_cycle_to_time cycle) + RTC_FREQ_DIV.
Proof.
  intros Hc. unfold is_uint, rtc_time_to_cycle, rtc_cycle_to_time, RTC_FREQ_DIV in *.
  rewrite uint_id by (unfold is_uint; Z.div_mod_to_equations; lia). Z.div_mod_to_equations. lia.
Qed.

Lemma rtc_tick cycle :
  0 < cycle -> rtc_is_tick cycle = negb (rtc_cycle_to_time cycle =? rtc_cycle_to_time (cycle - 1)).
Proof.
  intros Hc. unfold rtc_is_tick, rtc_cycle_to_time, RTC_FREQ_DIV. bool_cases; exfalso; Z.div_mod_to_equations; lia.
Qed.

(** What a load at an offset sees: the software interrupt bit, the comparator or
    the time *)
Definition clint_register (offset log2_size : Z) (a : device_access) : option Z :=
  if (offset =? 0) && (log2_size =? 2) then Some (Z.b2z (Z.testbit (read_mip a) MIP_MSIP_SHIFT))
  else if (offset =? 0x4000) && (log2_size =? 3) then Some (read_clint_mtimecmp a)
  else if (offset =? 0xbff8) && (log2_size =? 3) then Some (da_mcycle a / RTC_FREQ_DIV)
  else None.

Lemma land_bit_mask b i : 0 <= i -> ((b &ᵇ Z.shiftl 1 i) =? Z.shiftl 1 i) = Z.testbit b i.
Proof.
  intros Hi. rewrite Z.shiftl_1_l. destruct (Z.testbit b i) eqn:E.
  - apply Z.eqb_eq, Z.bits_inj'. intros n Hn. rewrite Z.land_spec, Z.pow2_bits_eqb by done.
    destruct (Z.eqb_spec i n) as [->|]; [by rewrite E|apply andb_false_r].
  - apply Z.eqb_neq. intros Heq. apply (f_equal (fun z => Z.testbit z i)) in Heq.
    rewrite Z.land_spec, Z.pow2_bits_eqb, Z.eqb_refl, E in Heq by done. done.
Qed.

Lemma clint_read_spec offset log2_size a : clint_read offset log2_size a = (clint_register offset log2_size a, a).
Proof.
  unfold clint_read, clint_read_msip, clint_read_mtime, clint_read_mtimecmp, clint_register,
    clint_msip0_rel_addr, clint_mtimecmp_rel_addr, clint_mtime_rel_addr, MIP_MSIP_MASK.
  rewrite land_bit_mask by (unfold MIP_MSIP_SHIFT; lia).
  destruct (Z.eqb_spec offset 0) as [->|]; [by destruct (log2_size =? 2)|].
  destruct (Z.eqb_spec offset 0x4000) as [->|]; [by destruct (log2_size =? 3)|].
  destruct (Z.eqb_spec offset 0xbff8) as [->|]; by destruct (log2_size =? 3).
Qed.

Lemma shiftl_1_bit k i : 0 <= k -> Z.testbit (Z.shiftl 1 k) i = (k =? i).
Proof. intros. rewrite Z.shiftl_1_l. by apply Z.pow2_bits_eqb. Qed.

(** One bit of [mip] is set or cleared, and the others stay. *)
Lemma set_mip_only k a :
  0 <= k -> let a' := set_mip (Z.shiftl 1 k) a in
  Z.testbit (read_mip a') k = true /\ forall i, i <> k -> Z.testbit (read_mip a') i = Z.testbit (read_mip a) i.
Proof.
  intros Hk a'. unfold a'. split; [|intros i Hi]; rewrite set_mip_bit, shiftl_1_bit by done.
  - by rewrite Z.eqb_refl, orb_true_r.
  - rewrite (proj2 (Z.eqb_neq _ _)) by congruence. apply orb_false_r.
Qed.

Lemma reset_mip_only k a :
  0 <= k -> is_uint 64 (read_mip a) -> let a' := reset_mip (Z.shiftl 1 k) a in
  Z.testbit (read_mip a') k = false /\ forall i, i <> k -> Z.testbit (read_mip a') i = Z.testbit (read_mip a) i.
Proof.
  intros Hk Hm a'. unfold a'. split; [|intros i Hi]; rewrite reset_mip_bit, shiftl_1_bit by done.
  - by rewrite Z.eqb_refl, andb_false_r.
  - rewrite (proj2 (Z.eqb_neq _ _)) by congruence. apply andb_true_r.
Qed.

(** The stores that the device takes *)
Definition clint_accepts (offset log2_size : Z) : bool :=
  ((offset =? 0) && (log2_size =? 2)) || ((offset =? 0x4000) && (log2_size =? 3)).

Lemma clint_write_refused offset val log2_size a :
  clint_accepts offset log2_size = false -> clint_write offset val log2_size a = (failure, a).
Proof.
  unfold clint_accepts, clint_write, clint_msip0_rel_addr, clint_mtimecmp_rel_addr.
  by destruct (offset =? 0), (offset =? 0x4000), (log2_size =? 2), (log2_size =? 3).
Qed.

(** C36: the clock interruptor.  A load never changes the state and sees the
    software interrupt bit, the comparator or the time of its cycle.  A store
    with the size of the register sets the software interrupt bit from the low bit
    of the value, and asks that interrupts be served if it is set, or sets the
    comparator and clears the timer interrupt; no other bit of [mip] changes.  Any
    other store fails and changes nothing. *)
Theorem clint_correct offset val log2_size a :
  is_uint 64 (read_mip a) ->
  clint_read offset log2_size a = (clint_register offset log2_size a, a) /\
  (clint_accepts offset log2_size = false -> clint_write offset val log2_size a = (failure, a)) /\
  (let '(status, a') := clint_write clint_msip0_rel_addr val 2 a in
   status = (if Z.testbit val 0 then success_and_serve_interrupts else success) /\
   Z.testbit (read_mip a') MIP_MSIP_SHIFT = Z.testbit val 0 /\ read_clint_mtimecmp a' = read_clint_mtimecmp a /\
   forall i, i <> MIP_MSIP_SHIFT -> Z.testbit (read_mip a') i = Z.testbit (read_mip a) i) /\
  (let '(status, a') := clint_write clint_mtimecmp_rel_addr val 3 a in
   status = success /\ read_clint_mtimecmp a' = val /\ Z.testbit (read_mip a') MIP_MTIP_SHIFT = false /\
   forall i, i <> MIP_MTIP_SHIFT -> Z.testbit (read_mip a') i = Z.testbit (read_mip a) i).
Proof.
  intros Hm. split; [apply clint_read_spec|]. split; [apply clint_write_refused|]. split.
  - change (clint_write clint_msip0_rel_addr val 2 a) with
      (if negb ((val &ᵇ 2 ^ 0) =? 0) then (success_and_serve_interrupts, set_mip MIP_MSIP_MASK a)
       else (success, reset_mip MIP_MSIP_MASK a)).
    rewrite land_pow2, negb_involutive by lia. destruct (Z.testbit val 0).
    + destruct (set_mip_only MIP_MSIP_SHIFT a ltac:(done)) as [H1 H2]. done.
    + destruct (reset_mip_only MIP_MSIP_SHIFT a ltac:(done) Hm) as [H1 H2]. done.
  - destruct (reset_mip_only MIP_MTIP_SHIFT (write_clint_mtimecmp val a) ltac:(done) Hm) as [H1 H2]. done.
Qed.

(** ** Witness *)

(** At cycle 16384, with the timer interrupt pending *)
Definition clint_example : device_access :=
  DeviceAccess (upd_mip (fun _ => 0x80) (upd_clint (fun _ => ClintState 7) blank_machine)) 16384 [] [].

Lemma clint_correct_witness :
  clint_read 0xbff8 3 clint_example = (Some 2, clint_example) /\
  read_mip (clint_write 0x4000 9 3 clint_example).2 = 0 /\
  clint_write 0x4000 9 2 clint_example = (failure, clint_example).
Proof.
  destruct (clint_correct 0xbff8 0 3 clint_example) as (Hr & _); [by vm_compute|].
  destruct (clint_correct 0x4000 9 2 clint_example) as (_ & Hf & _); [by vm_compute|].
  split; [exact Hr|]. split; [reflexivity|]. apply Hf. reflexivity.
Defined.
