(* ===== verification/Plic.v ===== *)
(** * The interrupt controller (plic.cpp, plic.h)

    Devices raise and lower requests from sources 1 to 31; the driver claims the
    request it serves and completes it.  A request stays pending while it is
    served, and is masked until its completion.

    The specification is an abstract controller with two sets of sources, the
    pending ones and those in service: what each callback does to the sets, that
    the external interrupt bits of [mip] say whether a source waits to be served,
    and that a source in service is not claimed again before its completion. *)

From S2P Require Import Prelude CppInt Constants RiscvConstants MachineState DeviceAccess.

Definition PLIC_ENABLED_IRQ_MASK : Z := 0xfffffffe.
Definition PLIC_LOWEST_IRQ_PRIORITY : Z := 1.

(** Relative addresses; the priorities are at [4], [8], ..., [0x7c]. *)
Definition plic_priority1 : Z := 0x4.
Definition plic_priority31 : Z := 0x7c.
Definition plic_pending : Z := 0x1000.
Definition plic_enabled : Z := 0x2000.
Definition plic_claim_complete : Z := 0x200004.

(** [31 - __builtin_clz(v)] *)
Definition ilog2 (v : Z) : Z := Z.log2 v.

(** [girqpend & ~girqsrvd] on [uint32_t] *)
Definition pending_not_served (pend srvd : Z) : Z := pend &ᵇ uint32 (Z.lnot srvd).

Definition EIP_MASK : Z := MIP_MEIP_MASK |ᵇ MIP_SEIP_MASK.

Definition plic_read_pending (a : device_access) : Z :=
  pending_not_served (uint32 (read_plic_girqpend a)) (uint32 (read_plic_girqsrvd a)).

Definition plic_read_claim_complete (a : device_access) : Z * device_access :=
  let girqpend := uint32 (read_plic_girqpend a) in
  let girqsrvd := uint32 (read_plic_girqsrvd a) in
  let ipmask := pending_not_served girqpend girqsrvd in
  if negb (ipmask =? 0) then
    let irq_id := ilog2 ipmask in
    let irq_mask := uint32 (Z.shiftl 1 irq_id) in
    let girqsrvd := girqsrvd |ᵇ irq_mask in
    let a := write_plic_girqsrvd girqsrvd a in
    let ipmask := pending_not_served girqpend girqsrvd in
    (irq_id, if ipmask =? 0 then reset_mip EIP_MASK a else a)
  else (0, a).

Definition plic_write_claim_complete (val : Z) (a : device_access) : execute_status * device_access :=
  if (1 <=? val) && (val <=? PMA_PLIC_MAX_IRQ) then
    let girqpend := uint32 (read_plic_girqpend a) in
    let girqsrvd := uint32 (read_plic_girqsrvd a) in
    let irq_mask := uint32 (Z.shiftl 1 val) in
    let girqsrvd := girqsrvd &ᵇ uint32 (Z.lnot irq_mask) in
    let a := write_plic_girqsrvd girqsrvd a in
    let ipmask := pending_not_served girqpend girqsrvd in
    if ipmask =? 0 then (success, reset_mip EIP_MASK a)
    else (success_and_serve_interrupts, set_mip EIP_MASK a)
  else (success, a).

(** Aligned accesses of 32 bits; the range includes its end. *)
Definition plic_unsupported (offset log2_size : Z) : bool :=
  negb ((offset &ᵇ 3) =? 0) || negb (log2_size =? 2) || (PMA_PLIC_LENGTH <? offset).

Definition plic_read (offset log2_size : Z) (a : device_access) : option Z * device_access :=
  if plic_unsupported offset log2_size then (None, a)
  else if (plic_priority1 <=? offset) && (offset <=? plic_priority31) then (Some PLIC_LOWEST_IRQ_PRIORITY, a)
  else if offset =? plic_pending then (Some (plic_read_pending a), a)
  else if offset =? plic_enabled then (Some PLIC_ENABLED_IRQ_MASK, a)
  else if offset =? plic_claim_complete then
    let '(val, a) := plic_read_claim_complete a in (Some val, a)
  else (Some 0, a).

(** The value is truncated by the parameter of [plic_write_claim_complete]. *)
Definition plic_write (offset val log2_size : Z) (a : device_access) : execute_status * device_access :=
  if plic_unsupported offset log2_size then (failure, a)
  else if offset =? plic_claim_complete then plic_write_claim_complete (uint32 val) a
  else (success, a).

Definition plic_set_pending_irq (irq_id : Z) (a : device_access) : device_access :=
  let irq_mask := uint32 (Z.shiftl 1 irq_id) in
  let girqsrvd := uint32 (read_plic_girqsrvd a) in
  let girqpend := uint32 (read_plic_girqpend a) in
  let girqpend := girqpend |ᵇ irq_mask in
  let a := write_plic_girqpend girqpend a in
  let ipmask := pending_not_served girqpend girqsrvd in
  if negb (ipmask =? 0) then set_mip EIP_MASK a else a.

Definition plic_reset_pending_irq (irq_id : Z) (a : device_access) : device_access :=
  let irq_mask := uint32 (Z.shiftl 1 irq_id) in
  let girqsrvd := uint32 (read_plic_girqsrvd a) in
  let girqpend := uint32 (read_plic_girqpend a) in
  let girqpend := girqpend &ᵇ uint32 (Z.lnot irq_mask) in
  let a := write_plic_girqpend girqpend a in
  let ipmask := pending_not_served girqpend girqsrvd in
  if ipmask =? 0 then reset_mip EIP_MASK a else a.

Definition plic_driver : pma_driver := PmaDriver "PLIC" plic_read plic_write.

(** ** The two sets *)

Definition pending (a : device_access) (i : Z) : bool := Z.testbit (read_plic_girqpend a) i.
Definition in_service (a : device_access) (i : Z) : bool := Z.testbit (read_plic_girqsrvd a) i.
Definition waiting (a : device_access) (i : Z) : bool := pending a i && negb (in_service a i).

(** The interrupt lines of the machine and supervisor modes *)
Definition is_eip (i : Z) : bool := (i =? MIP_MEIP_SHIFT) || (i =? MIP_SEIP_SHIFT).

Record plic_wf (a : device_access) : Prop := {
  pw_pend : is_uint 32 (read_plic_girqpend a);
  pw_srvd : is_uint 32 (read_plic_girqsrvd a);
  pw_mip : is_uint 64 (read_mip a);
  pw_zero : pending a 0 = false;
  pw_line i : is_eip i = true -> Z.testbit (read_mip a) i = negb (plic_read_pending a =? 0);
}.

(** ** Bits *)

Lemma pns_bit p s i : is_uint 32 p -> Z.testbit (pending_not_served p s) i = Z.testbit p i && negb (Z.testbit s i).
Proof. intros Hp. unfold pending_not_served. rewrite land_not_uint by (lia || done). apply Z.ldiff_spec. Qed.

Lemma pns_range p s : is_uint 32 p -> is_uint 32 (pending_not_served p s).
Proof. intros. unfold pending_not_served. apply land_uint; [lia|done]. Qed.

Lemma mask_bit k i : 0 <= k < 32 -> Z.testbit (uint32 (Z.shiftl 1 k)) i = (k =? i).
Proof.
  intros Hk. rewrite Z.shiftl_1_l, uint_id; [apply Z.pow2_bits_eqb; lia|].
  unfold is_uint. pose proof (pow2_pos k). pose proof (Z.pow_lt_mono_r 2 k 32). lia.
Qed.

Lemma mask_uint k : is_uint 32 (uint32 (Z.shiftl 1 k)).
Proof. apply uint_range. lia. Qed.

Lemma EIP_MASK_bit i : 0 <= i -> Z.testbit EIP_MASK i = is_eip i.
Proof.
  intros Hi. unfold EIP_MASK, MIP_MEIP_MASK, MIP_SEIP_MASK, is_eip. rewrite Z.lor_spec, !Z.shiftl_1_l, !Z.pow2_bits_eqb by done.
  f_equal; apply Z.eqb_sym.
Qed.

Lemma is_eip_nonneg i : is_eip i = true -> 0 <= i.
Proof. unfold is_eip, MIP_MEIP_SHIFT, MIP_SEIP_SHIFT. intros H. apply orb_true_iff in H. lia. Qed.

Lemma read_pending_bit a i : plic_wf a -> Z.testbit (plic_read_pending a) i = waiting a i.
Proof.
  intros [Hp Hs _ _ _]. unfold plic_read_pending. rewrite !uint_id by done. by apply pns_bit.
Qed.

Lemma read_pending_zero a : plic_wf a -> plic_read_pending a = 0 <-> forall i, waiting a i = false.
Proof.
  intros Ha. split.
  - intros H0 i. by rewrite <- read_pending_bit, H0, Z.testbit_0_l.
  - intros H. apply Z.bits_inj_0. intros i. by rewrite read_pending_bit.
Qed.

(** ** The lines follow the sets *)

(** The state after the sets change and [mip] follows: the lines are raised if
    [up], lowered if [down], and otherwise stay. *)
Lemma plic_wf_update a p s (up : bool) m :
  plic_wf a -> is_uint 32 p -> is_uint 32 s -> Z.testbit p 0 = false ->
  (m = read_mip a /\ negb (plic_read_pending a =? 0) = up \/
   m = (if up then read_mip a |ᵇ EIP_MASK else read_mip a &ᵇ uint64 (Z.lnot EIP_MASK))) ->
  up = negb (pending_not_served p s =? 0) ->
  plic_wf (on_s (upd_mip (fun _ => m)) (write_plic_girqsrvd s (write_plic_girqpend p a))).
Proof.
  intros Ha Hp Hs H0 Hm Hup. constructor.
  - exact Hp.
  - exact Hs.
  - change (is_uint 64 m). pose proof (pw_mip _ Ha).
    destruct Hm as [[-> _]| ->]; [done|]. destruct up; [by apply lor_uint|by apply land_uint].
  - exact H0.
  - intros i Hi. change (Z.testbit m i = negb (pending_not_served (uint32 p) (uint32 s) =? 0)).
    rewrite !uint_id, <- Hup by done. pose proof (is_eip_nonneg i Hi).
    destruct Hm as [[-> <-]| ->]; [by apply pw_line|]. destruct up.
    + rewrite Z.lor_spec, EIP_MASK_bit, Hi by done. apply orb_true_r.
    + rewrite land_not_uint, Z.ldiff_spec, EIP_MASK_bit, Hi by (lia || done || apply Ha). apply andb_false_r.
Qed.

(** ** The calls *)

Inductive plic_call :=
  | Raise (irq_id : Z) | Lower (irq_id : Z)
  | Load (offset log2_size : Z) | Store (offset val log2_size : Z).

(** The calls of devices are for sources of the controller. *)
Definition call_ok (c : plic_call) : Prop :=
  match c with Raise i | Lower i => 1 <= i <= PMA_PLIC_MAX_IRQ | Load _ _ | Store _ _ _ => True end.

Definition plic_do (c : plic_call) (a : device_access) : option Z * device_access :=
  match c with
  | Raise i => (None, plic_set_pending_irq i a)
  | Lower i => (None, plic_reset_pending_irq i a)
  | Load offset log2_size => plic_read offset log2_size a
  | Store offset val log2_size => (None, (plic_write offset val log2_size a).2)
  end.

(** ** The four operations *)

Lemma plic_wf_apply a p s up a' :
  plic_wf a -> is_uint 32 p -> is_uint 32 s -> Z.testbit p 0 = false ->
  up = negb (pending_not_served p s =? 0) ->
  a' = on_s (upd_mip (fun _ => if up then read_mip a |ᵇ EIP_MASK else read_mip a &ᵇ uint64 (Z.lnot EIP_MASK)))
         (write_plic_girqsrvd s (write_plic_girqpend p a)) \/
  a' = on_s (upd_mip (fun _ => read_mip a)) (write_plic_girqsrvd s (write_plic_girqpend p a)) /\
    negb (plic_read_pending a =? 0) = up ->
  plic_wf a' /\ (forall i, pending a' i = Z.testbit p i) /\ (forall i, in_service a' i = Z.testbit s i).
Proof. intros Ha Hp Hs H0 Hup [->|[-> Hl]]; (split; [|done]); by eapply plic_wf_update; eauto. Qed.

(** More sources wait, or fewer. *)
Lemma waiting_zero a p s :
  plic_wf a -> is_uint 32 p ->
  (forall i, Z.testbit p i && negb (Z.testbit s i) = true -> waiting a i = true) ->
  plic_read_pending a = 0 -> pending_not_served p s = 0.
Proof.
  intros Ha Hp Hi H0. pose proof (proj1 (read_pending_zero a Ha) H0) as Hw.
  apply Z.bits_inj_0. intros i. rewrite pns_bit by done.
  destruct (Z.testbit p i && negb (Z.testbit s i)) eqn:E; [|done]. apply Hi in E. congruence.
Qed.

Lemma set_pending_spec k a :
  plic_wf a -> 1 <= k <= 31 -> let a' := plic_set_pending_irq k a in
  plic_wf a' /\ (forall i, pending a' i = (i =? k) || pending a i) /\ (forall i, in_service a' i = in_service a i).
Proof.
  intros Ha Hk a'. pose proof Ha as [Hp Hs Hm H0 _].
  set (p := read_plic_girqpend a |ᵇ uint32 (Z.shiftl 1 k)). set (s := read_plic_girqsrvd a).
  assert (is_uint 32 p) as Hp' by (apply lor_uint; [lia|done|apply mask_uint]).
  assert (forall i, Z.testbit p i = (i =? k) || pending a i) as Hbit.
  { intros i. unfold p. by rewrite Z.lor_spec, mask_bit, orb_comm, Z.eqb_sym by lia. }
  destruct (plic_wf_apply a p s (negb (pending_not_served p s =? 0)) a') as (Hwf & Hpe & Hse); [done|done|done| |done| |].
  - rewrite Hbit. rewrite (proj2 (Z.eqb_neq _ _)) by lia. exact H0.
  - unfold a', plic_set_pending_irq. rewrite (uint_id 32 (read_plic_girqsrvd a)), (uint_id 32 (read_plic_girqpend a)) by done. fold p s.
    destruct (pending_not_served p s =? 0) eqn:E; cbn [negb]; [right|by left].
    split; [done|]. apply Z.eqb_eq in E. apply negb_false_iff, Z.eqb_eq, read_pending_zero; [done|].
    intros i. apply (f_equal (fun z => Z.testbit z i)) in E. rewrite pns_bit, Hbit, Z.testbit_0_l in E by done.
    unfold waiting. change (in_service a i) with (Z.testbit s i). by destruct (i =? k), (pending a i).
  - split; [done|]. split; [by intros; rewrite Hpe|done].
Qed.

Lemma reset_pending_spec k a :
  plic_wf a -> 1 <= k <= 31 -> let a' := plic_reset_pending_irq k a in
  plic_wf a' /\ (forall i, pending a' i = negb (i =? k) && pending a i) /\ (forall i, in_service a' i = in_service a i).
Proof.
  intros Ha Hk a'. pose proof Ha as [Hp Hs Hm H0 _].
  set (p := read_plic_girqpend a &ᵇ uint32 (Z.lnot (uint32 (Z.shiftl 1 k)))). set (s := read_plic_girqsrvd a).
  assert (is_uint 32 p) as Hp' by (by apply land_uint).
  assert (forall i, Z.testbit p i = negb (i =? k) && pending a i) as Hbit.
  { intros i. unfold p. rewrite land_not_uint, Z.ldiff_spec, mask_bit by (lia || done).
    by rewrite andb_comm, Z.eqb_sym. }
  destruct (plic_wf_apply a p s (negb (pending_not_served p s =? 0)) a') as (Hwf & Hpe & Hse); [done|done|done| |done| |].
  - rewrite Hbit. rewrite H0. apply andb_false_r.
  - unfold a', plic_reset_pending_irq. rewrite (uint_id 32 (read_plic_girqsrvd a)), (uint_id 32 (read_plic_girqpend a)) by done. fold p s.
    destruct (pending_not_served p s =? 0) eqn:E; cbn [negb]; [by left|right]. split; [done|].
    apply negb_true_iff, Z.eqb_neq. intros Hz. apply Z.eqb_neq in E. apply E. apply (waiting_zero a); [done|done| |done].
    intros i. rewrite Hbit. unfold waiting. change (in_service a i) with (Z.testbit s i). by destruct (i =? k).
  - split; [done|]. split; [by intros; rewrite Hpe|done].
Qed.

(** A claim takes the highest source that waits, and puts it in service. *)
Lemma claim_spec a :
  plic_wf a -> let '(id, a') := plic_read_claim_complete a in
  plic_wf a' /\ (forall i, pending a' i = pending a i) /\
  (forall i, in_service a' i = ((1 <=? id) && (i =? id)) || in_service a i) /\
  if id =? 0 then forall i, waiting a i = false
  else 1 <= id <= 31 /\ waiting a id = true /\ forall i, id < i -> waiting a i = false.
Proof.
  intros Ha. pose proof Ha as [Hp Hs Hm H0 _].
  unfold plic_read_claim_complete. fold (plic_read_pending a). rewrite (uint_id 32 (read_plic_girqpend a)) by done.
  destruct (Z.eqb_spec (plic_read_pending a) 0) as [Hz|Hnz]; cbn [negb].
  { cbn. split; [done|]. split; [done|]. split; [done|]. by apply read_pending_zero. }
  assert (is_uint 32 (plic_read_pending a)) as Hr by (apply pns_range, uint_range; lia).
  assert (0 < plic_read_pending a < 2 ^ 32) as Hr' by (unfold is_uint in Hr; lia).
  set (id := ilog2 (plic_read_pending a)).
  assert (waiting a id = true) as Hid by (rewrite <- read_pending_bit by done; apply Z.bit_log2; lia).
  assert (0 <= id < 32) as Hrange.
  { unfold id, ilog2. split; [apply Z.log2_nonneg|]. apply Z.log2_lt_pow2; lia. }
  assert (id <> 0) as Hid0 by (intros ->; unfold waiting in Hid; by rewrite H0 in Hid).
  rewrite (uint_id 32 (read_plic_girqsrvd a)) by done.
  set (p := read_plic_girqpend a). set (s := read_plic_girqsrvd a |ᵇ uint32 (Z.shiftl 1 id)).
  assert (is_uint 32 s) as Hs' by (apply lor_uint; [lia|done|apply mask_uint]).
  assert (forall i, Z.testbit s i = ((1 <=? id) && (i =? id)) || in_service a i) as Hbit.
  { intros i. unfold s. rewrite Z.lor_spec, mask_bit, orb_comm, Z.eqb_sym by lia. by test (1 <=? id) is true. }
  set (a' := if pending_not_served p s =? 0 then _ else _).
  destruct (plic_wf_apply a p s (negb (pending_not_served p s =? 0)) a') as (Hwf & Hpe & Hse); [done|done|done|done|done| |].
  - unfold a'. destruct (pending_not_served p s =? 0); cbn [negb]; [by left|right]. split; [done|].
    by apply negb_true_iff, Z.eqb_neq.
  - split; [done|]. split; [done|]. split; [intros; by rewrite Hse|]. rewrite (proj2 (Z.eqb_neq _ _)) by done.
    split; [lia|]. split; [done|]. intros i Hi. rewrite <- read_pending_bit by done. by apply Z.bits_above_log2; [lia|].
Qed.

(** A completion takes the source out of service. *)
Lemma complete_spec v a :
  plic_wf a -> let '(status, a') := plic_write_claim_complete v a in
  plic_wf a' /\ (forall i, pending a' i = pending a i) /\
  (forall i, in_service a' i = if (v =? i) && (1 <=? i) && (i <=? PMA_PLIC_MAX_IRQ) then false else in_service a i) /\
  (1 <= v <= PMA_PLIC_MAX_IRQ -> status = if plic_read_pending a' =? 0 then success else success_and_serve_interrupts).
Proof.
  intros Ha. pose proof Ha as [Hp Hs Hm H0 _]. unfold plic_write_claim_complete, PMA_PLIC_MAX_IRQ.
  destruct ((1 <=? v) && (v <=? 31)) eqn:E.
  2:{ split; [done|]. split; [done|]. split; [|intros Hv; exfalso; bool_cases].
      intros i. destruct (Z.eqb_spec v i) as [->|]; [|done]. cbn [andb]. by rewrite E. }
  reflect_bools. rewrite (uint_id 32 (read_plic_girqsrvd a)), (uint_id 32 (read_plic_girqpend a)) by done.
  set (p := read_plic_girqpend a). set (s := read_plic_girqsrvd a &ᵇ uint32 (Z.lnot (uint32 (Z.shiftl 1 v)))).
  assert (is_uint 32 s) as Hs' by (by apply land_uint).
  assert (forall i, Z.testbit s i = if (v =? i) && (1 <=? i) && (i <=? 31) then false else in_service a i) as Hbit.
  { intros i. unfold s. rewrite land_not_uint, Z.ldiff_spec, mask_bit by (lia || done).
    destruct (Z.eqb_spec v i) as [<-|]; [|apply andb_true_r].
    test (1 <=? v) is true. test (v <=? 31) is true. apply andb_false_r. }
  set (r := if pending_not_served p s =? 0 then _ else _).
  destruct (plic_wf_apply a p s (negb (pending_not_served p s =? 0)) r.2) as (Hwf & Hpe & Hse); [done|done|done|done|done| |].
  - unfold r. destruct (pending_not_served p s =? 0); cbn [negb snd]; by left.
  - destruct r as [status a'] eqn:Er. cbn [snd] in *. split; [done|]. split; [done|]. split; [intros; by rewrite Hse|].
    intros _. assert (plic_read_pending a' = pending_not_served p s) as ->.
    { apply Z.bits_inj. intros i. rewrite read_pending_bit, pns_bit by done. unfold waiting. by rewrite Hpe, Hse. }
    unfold r in Er. destruct (pending_not_served p s =? 0); congruence.
Qed.
(** The loads that claim and the stores that complete *)
Definition is_claim (c : plic_call) : bool :=
  match c with Load offset log2_size => (offset =? plic_claim_complete) && (log2_size =? 2) | _ => false end.
Definition completes (c : plic_call) (i : Z) : bool :=
  match c with
  | Store offset val log2_size => (offset =? plic_claim_complete) && (log2_size =? 2) && (uint32 val =? i)
  | _ => false
  end.

(** The abstract controller: the set of pending sources and that of sources in
    service after a call; [id] is the source it claims, if any *)
Definition pending_after (c : plic_call) (a : device_access) (i : Z) : bool :=
  match c with
  | Raise j => (i =? j) || pending a i
  | Lower j => negb (i =? j) && pending a i
  | Load _ _ | Store _ _ _ => pending a i
  end.
Definition in_service_after (c : plic_call) (id : Z) (a : device_access) (i : Z) : bool :=
  if is_claim c then ((1 <=? id) && (i =? id)) || in_service a i
  else if completes c i && (1 <=? i) && (i <=? PMA_PLIC_MAX_IRQ) then false
  else in_service a i.

(** ** What a load sees *)

Definition load_result (offset log2_size : Z) (a : device_access) (v : option Z) : Prop :=
  if plic_unsupported offset log2_size then v = None
  else if (plic_priority1 <=? offset) && (offset <=? plic_priority31) then v = Some PLIC_LOWEST_IRQ_PRIORITY
  else if offset =? plic_pending then exists p, v = Some p /\ forall i, Z.testbit p i = waiting a i
  else if offset =? plic_enabled then v = Some PLIC_ENABLED_IRQ_MASK
  else if offset =? plic_claim_complete then
    (v = Some 0 /\ forall i, waiting a i = false) \/
    (exists id, v = Some id /\ 1 <= id <= 31 /\ waiting a id = true /\ forall i, id < i -> waiting a i = false)
  else v = Some 0.

Definition call_result (c : plic_call) (a : device_access) (v : option Z) : Prop :=
  match c with Load offset log2_size => load_result offset log2_size a v | _ => v = None end.

Lemma claim_offset log2_size :
  plic_unsupported plic_claim_complete log2_size = negb (log2_size =? 2).
Proof. unfold plic_unsupported. by destruct (log2_size =? 2). Qed.

Lemma not_claim offset log2_size :
  plic_unsupported offset log2_size || negb (offset =? plic_claim_complete) = true ->
  (offset =? plic_claim_complete) && (log2_size =? 2) = false.
Proof.
  intros H. destruct (Z.eqb_spec offset plic_claim_complete) as [->|]; [|done].
  rewrite claim_offset in H. by destruct (log2_size =? 2).
Qed.

Lemma plic_load_spec offset log2_size a :
  plic_wf a -> let '(v, a') := plic_read offset log2_size a in
  plic_wf a' /\ (forall i, pending a' i = pending a i) /\
  (forall i, in_service a' i = in_service_after (Load offset log2_size) (default 0 v) a i) /\
  load_result offset log2_size a v.
Proof.
  intros Ha. unfold plic_read, load_result, in_service_after. cbn [is_claim completes].
  destruct (plic_unsupported offset log2_size) eqn:Eu.
  { rewrite not_claim by (by rewrite Eu). done. }
  destruct ((plic_priority1 <=? offset) && (offset <=? plic_priority31)) eqn:Ep.
  { rewrite not_claim; [done|]. reflect_bools. unfold plic_priority31, plic_claim_complete in *.
    rewrite (proj2 (Z.eqb_neq _ _)) by lia. apply orb_true_r. }
  destruct (Z.eqb_spec offset plic_pending) as [->|]; [split_and!; try done; exists (plic_read_pending a);
    split; [done|]; intros; by apply read_pending_bit|].
  destruct (Z.eqb_spec offset plic_enabled) as [->|]; [done|].
  destruct (Z.eqb_spec offset plic_claim_complete) as [->|]; [|done].
  rewrite claim_offset in Eu. apply negb_false_iff in Eu. rewrite Eu.
  pose proof (claim_spec a Ha) as Hc. destruct (plic_read_claim_complete a) as [id a'].
  destruct Hc as (Hwf & Hp & Hs & Hid). split_and!; try done.
  destruct (Z.eqb_spec id 0) as [->|]; [by left|right; by exists id].
Qed.

Lemma plic_store_spec offset val log2_size a :
  plic_wf a -> let a' := (plic_write offset val log2_size a).2 in
  plic_wf a' /\ (forall i, pending a' i = pending a i) /\
  (forall i, in_service a' i = in_service_after (Store offset val log2_size) 0 a i).
Proof.
  intros Ha. unfold plic_write, in_service_after. cbn [is_claim completes].
  destruct (plic_unsupported offset log2_size) eqn:Eu.
  { rewrite not_claim by (by rewrite Eu). done. }
  destruct (Z.eqb_spec offset plic_claim_complete) as [->|]; [|done].
  rewrite claim_offset in Eu. apply negb_false_iff in Eu. rewrite Eu. cbn [andb].
  pose proof (complete_spec (uint32 val) a Ha) as Hc. destruct (plic_write_claim_complete (uint32 val) a) as [st a'].
  cbn [snd]. destruct Hc as (Hwf & Hp & Hs & _). done.
Qed.

(** C29: the interrupt controller implements the abstract one.  Every call keeps
    the state well formed - in particular the external interrupt bits of [mip]
    are set exactly while a source waits - and changes the sets of pending
    sources and of sources in service as the abstract call does; a claim returns
    the highest source that waits, or zero if none does. *)
Theorem plic_refines c a :
  plic_wf a -> call_ok c ->
  let '(v, a') := plic_do c a in
  plic_wf a' /\ (forall i, pending a' i = pending_after c a i) /\
  (forall i, in_service a' i = in_service_after c (default 0 v) a i) /\ call_result c a v.
Proof.
  intros Ha Hc. destruct c as [k|k|offset log2_size|offset val log2_size]; cbn [plic_do call_ok] in *; unfold PMA_PLIC_MAX_IRQ in *.
  - destruct (set_pending_spec k a Ha Hc) as (Hwf & Hp & Hs). done.
  - destruct (reset_pending_spec k a Ha Hc) as (Hwf & Hp & Hs). done.
  - pose proof (plic_load_spec offset log2_size a Ha) as H. by destruct (plic_read offset log2_size a).
  - destruct (plic_store_spec offset val log2_size a Ha) as (Hwf & Hp & Hs). done.
Qed.

(** ** Sequences of calls *)

(** The state after a sequence, and what its calls returned *)
Fixpoint plic_run (cs : list plic_call) (a : device_access) : list (option Z) * device_access :=
  match cs with
  | [] => ([], a)
  | c :: cs => let '(v, a) := plic_do c a in let '(vs, a) := plic_run cs a in (v :: vs, a)
  end.

Definition claims (c : plic_call) (v : option Z) (i : Z) : bool := is_claim c && bool_decide (v = Some i).

Lemma plic_step_spec c a : plic_wf a -> call_ok c ->
  plic_wf (plic_do c a).2 /\
  forall i, 1 <= i -> in_service a i = true -> completes c i = false ->
    in_service (plic_do c a).2 i = true /\ claims c (plic_do c a).1 i = false.
Proof.
  intros Ha Hc. destruct c as [k|k|offset log2_size|offset val log2_size]; cbn [plic_do call_ok claims is_claim] in *; unfold PMA_PLIC_MAX_IRQ in *.
  - destruct (set_pending_spec k a Ha Hc) as (Hwf & _ & Hs). split; [done|]. intros i _ Hi _. by rewrite Hs.
  - destruct (reset_pending_spec k a Ha Hc) as (Hwf & _ & Hs). split; [done|]. intros i _ Hi _. by rewrite Hs.
  - pose proof (plic_load_spec offset log2_size a Ha) as H. destruct (plic_read offset log2_size a) as [v a'].
    destruct H as (Hwf & _ & Hs & Hr). split; [done|]. intros i Hi1 Hi _. cbn [fst snd]. split.
    + rewrite Hs. unfold in_service_after. rewrite Hi. destruct (is_claim _); [apply orb_true_r|done].
    + unfold claims. destruct (is_claim (Load offset log2_size)) eqn:Ec; [|done]. cbn [is_claim] in Ec. cbn [andb].
      apply bool_decide_eq_false. intros ->. apply andb_true_iff in Ec as [->%Z.eqb_eq E2].
      unfold load_result in Hr. rewrite claim_offset, E2 in Hr. cbn in Hr.
      destruct Hr as [[[= ->] Hn]|(id & [= ->] & _ & Hw & _)].
      * lia.
      * unfold waiting in Hw. rewrite Hi in Hw. by rewrite andb_false_r in Hw.
  - destruct (plic_store_spec offset val log2_size a Ha) as (Hwf & _ & Hs). split; [done|]. intros i _ Hi Hno. split; [|done].
    cbn [snd]. rewrite Hs. unfold in_service_after. by rewrite Hno.
Qed.

(** C30: a source in service is not claimed again, and stays in service, as long
    as no call of a sequence completes it. *)
Theorem plic_no_double_claim cs a i :
  plic_wf a -> Forall call_ok cs -> 1 <= i -> in_service a i = true ->
  Forall (fun c => completes c i = false) cs ->
  let '(vs, a') := plic_run cs a in
  in_service a' i = true /\ Forall2 (fun c v => claims c v i = false) cs vs.
Proof.
  intros Ha Hcs Hi1. revert a Ha. induction Hcs as [|c cs Hc _ IH]; intros a Ha Hi Hno; [done|].
  apply Forall_cons_1 in Hno as [Hno1 Hno]. cbn [plic_run].
  destruct (plic_step_spec c a Ha Hc) as [Hwf Hstep]. specialize (Hstep i Hi1 Hi Hno1) as [Hi' Hcl].
  destruct (plic_do c a) as [v a1]. cbn [fst snd] in *. specialize (IH a1 Hwf Hi' Hno).
  destruct (plic_run cs a1) as [vs a2]. destruct IH as [H1 H2]. split; [done|by constructor].
Qed.

(** ** Witnesses *)

(** Source 3 is in service and source 5 waits. *)
Definition plic_example : device_access :=
  DeviceAccess (upd_mip (fun _ => 0xa00) (upd_plic (fun _ => PlicState 0x28 0x8) blank_machine)) 0 [] [].

Lemma plic_example_wf : plic_wf plic_example.
Proof.
  constructor; [unfold is_uint; vm_compute; split; congruence..|reflexivity|].
  intros i Hi. unfold is_eip in Hi. apply orb_true_iff in Hi as [->%Z.eqb_eq| ->%Z.eqb_eq]; reflexivity.
Qed.

Lemma plic_refines_witness :
  let '(v, a') := plic_do (Load plic_claim_complete 2) plic_example in
  v = Some 5 /\ in_service a' 5 = true /\ Z.testbit (read_mip a') MIP_SEIP_SHIFT = false.
Proof.
  pose proof (plic_refines (Load plic_claim_complete 2) plic_example plic_example_wf I) as H.
  destruct (plic_do (Load plic_claim_complete 2) plic_example) as [v a'] eqn:E.
  assert (v = Some 5) as -> by (apply (f_equal fst) in E; vm_compute in E; congruence).
  destruct H as (Hwf & _ & Hs & _). split; [reflexivity|]. split; [rewrite Hs; reflexivity|].
  rewrite (pw_line _ Hwf) by reflexivity. apply (f_equal (fun r => plic_read_pending r.2)) in E.
  cbn [snd] in E. rewrite <- E. reflexivity.
Defined.

Lemma plic_no_double_claim_witness :
  in_service (plic_run [Load plic_claim_complete 2; Raise 3; Load plic_claim_complete 2] plic_example).2 3 = true.
Proof.
  pose proof (plic_no_double_claim [Load plic_claim_complete 2; Raise 3; Load plic_claim_complete 2] plic_example 3 plic_example_wf) as H.
  destruct (plic_run _ plic_example) as [vs a']. apply H;
    [repeat constructor; unfold PMA_PLIC_MAX_IRQ; lia|lia|reflexivity|repeat constructor].
Defined.
