(* ===== verification/Htif.v ===== *)
(** * The host-target interface (htif.cpp, htif.h)

    The program asks the host to halt, to print and read characters and to yield
    by writing a command to [tohost]; the acknowledgement is in [fromhost]. *)

From S2P Require Import Prelude CppInt Constants RiscvConstants MachineState DeviceAccess.

(** ** Fields of the registers *)

Definition HTIF_DEV_SHIFT : Z := 56.
Definition HTIF_CMD_SHIFT : Z := 48.
Definition HTIF_REASON_SHIFT : Z := 32.
Definition HTIF_DATA_SHIFT : Z := 0.
Definition HTIF_DEV_MASK : Z := 0xFF00000000000000.
Definition HTIF_CMD_MASK : Z := 0x00FF000000000000.
Definition HTIF_REASON_MASK : Z := 0x0000FFFF00000000.
Definition HTIF_DATA_MASK : Z := 0x00000000FFFFFFFF.

Definition HTIF_BUILD (dev cmd reason data : Z) : Z :=
  (uint64 (Z.shiftl dev HTIF_DEV_SHIFT) &ᵇ HTIF_DEV_MASK) |ᵇ (uint64 (Z.shiftl cmd HTIF_CMD_SHIFT) &ᵇ HTIF_CMD_MASK)
  |ᵇ (uint64 (Z.shiftl reason HTIF_REASON_SHIFT) &ᵇ HTIF_REASON_MASK)
  |ᵇ (uint64 (Z.shiftl data HTIF_DATA_SHIFT) &ᵇ HTIF_DATA_MASK).

Definition HTIF_DEV_FIELD (reg : Z) : Z := Z.shiftr (reg &ᵇ HTIF_DEV_MASK) HTIF_DEV_SHIFT.
Definition HTIF_CMD_FIELD (reg : Z) : Z := Z.shiftr (reg &ᵇ HTIF_CMD_MASK) HTIF_CMD_SHIFT.
Definition HTIF_REASON_FIELD (reg : Z) : Z := Z.shiftr (reg &ᵇ HTIF_REASON_MASK) HTIF_REASON_SHIFT.
Definition HTIF_DATA_FIELD (reg : Z) : Z := Z.shiftr (reg &ᵇ HTIF_DATA_MASK) HTIF_DATA_SHIFT.

Definition HTIF_REPLACE_DEV (reg dev : Z) : Z :=
  (reg &ᵇ uint64 (Z.lnot HTIF_DEV_MASK)) |ᵇ (uint64 (Z.shiftl dev HTIF_DEV_SHIFT) &ᵇ HTIF_DEV_MASK).
Definition HTIF_REPLACE_CMD (reg cmd : Z) : Z :=
  (reg &ᵇ uint64 (Z.lnot HTIF_CMD_MASK)) |ᵇ (uint64 (Z.shiftl cmd HTIF_CMD_SHIFT) &ᵇ HTIF_CMD_MASK).
Definition HTIF_REPLACE_REASON (reg reason : Z) : Z :=
  (reg &ᵇ uint64 (Z.lnot HTIF_REASON_MASK)) |ᵇ (uint64 (Z.shiftl reason HTIF_REASON_SHIFT) &ᵇ HTIF_REASON_MASK).
Definition HTIF_REPLACE_DATA (reg data : Z) : Z :=
  (reg &ᵇ uint64 (Z.lnot HTIF_DATA_MASK)) |ᵇ (uint64 (Z.shiftl data HTIF_DATA_SHIFT) &ᵇ HTIF_DATA_MASK).

(** Devices and commands (htif-defines.h) *)
Definition HTIF_DEV_HALT : Z := 0.
Definition HTIF_DEV_CONSOLE : Z := 1.
Definition HTIF_DEV_YIELD : Z := 2.
Definition HTIF_HALT_CMD_HALT : Z := 0.
Definition HTIF_CONSOLE_CMD_GETCHAR : Z := 0.
Definition HTIF_CONSOLE_CMD_PUTCHAR : Z := 1.
Definition HTIF_YIELD_CMD_AUTOMATIC : Z := 0.
Definition HTIF_YIELD_CMD_MANUAL : Z := 1.

(** ** The device *)

Definition htif_tohost_rel_addr : Z := 0x0.
Definition htif_fromhost_rel_addr : Z := 0x8.
Definition htif_ihalt_rel_addr : Z := 0x10.
Definition htif_iconsole_rel_addr : Z := 0x18.
Definition htif_iyield_rel_addr : Z := 0x20.

Definition htif_read (offset log2_size : Z) (a : device_access) : option Z * device_access :=
  if negb (log2_size =? 3) then (None, a)
  else if offset =? htif_tohost_rel_addr then (Some (read_htif_tohost a), a)
  else if offset =? htif_fromhost_rel_addr then (Some (read_htif_fromhost a), a)
  else if offset =? htif_ihalt_rel_addr then (Some (read_htif_ihalt a), a)
  else if offset =? htif_iconsole_rel_addr then (Some (read_htif_iconsole a), a)
  else if offset =? htif_iyield_rel_addr then (Some (read_htif_iyield a), a)
  else (None, a).

Definition htif_halt (cmd data : Z) (a : device_access) : execute_status * device_access :=
  if (cmd =? HTIF_HALT_CMD_HALT) && negb ((data &ᵇ 1) =? 0) then (success_and_halt, write_iflags_H 1 a)
  else (success, a).

(** Whether a command is enabled in a mask *)
Definition command_enabled (mask cmd : Z) : bool := (cmd <? 64) && negb ((Z.shiftr mask cmd &ᵇ 1) =? 0).

Definition htif_yield (cmd data : Z) (a : device_access) : execute_status * device_access :=
  if command_enabled (read_htif_iyield a) cmd then
    if cmd =? HTIF_YIELD_CMD_MANUAL then
      (success_and_yield, write_htif_fromhost (HTIF_BUILD HTIF_DEV_YIELD cmd 0 0) (write_iflags_Y 1 a))
    else if cmd =? HTIF_YIELD_CMD_AUTOMATIC then
      (success_and_yield, write_htif_fromhost (HTIF_BUILD HTIF_DEV_YIELD cmd 0 0) (write_iflags_X 1 a))
    else (success, a)
  else (success, a).

(** The poll before a read of the console is input and output of the host. *)
Definition htif_console (cmd data : Z) (a : device_access) : execute_status * device_access :=
  if command_enabled (read_htif_iconsole a) cmd then
    if cmd =? HTIF_CONSOLE_CMD_PUTCHAR then
      let ch := data &ᵇ 0xff in
      (success, write_htif_fromhost (HTIF_BUILD HTIF_DEV_CONSOLE cmd 0 0) (os_putchar ch a))
    else if cmd =? HTIF_CONSOLE_CMD_GETCHAR then
      let '(ch, a) := os_getchar a in
      (success, write_htif_fromhost (HTIF_BUILD HTIF_DEV_CONSOLE cmd 0 (uint32 (ch + 1))) a)
    else (success, a)
  else (success, a).

Definition htif_write_tohost (tohost : Z) (a : device_access) : execute_status * device_access :=
  let device := uint32 (HTIF_DEV_FIELD tohost) in
  let cmd := uint32 (HTIF_CMD_FIELD tohost) in
  let data := HTIF_DATA_FIELD tohost in
  let a := write_htif_tohost tohost a in
  if device =? HTIF_DEV_HALT then htif_halt cmd data a
  else if device =? HTIF_DEV_CONSOLE then htif_console cmd data a
  else if device =? HTIF_DEV_YIELD then htif_yield cmd data a
  else (success, a).

Definition htif_write (offset val log2_size : Z) (a : device_access) : execute_status * device_access :=
  if negb (log2_size =? 3) then (failure, a)
  else if offset =? htif_tohost_rel_addr then htif_write_tohost val a
  else if offset =? htif_fromhost_rel_addr then (success, write_htif_fromhost val a)
  else (failure, a).

Definition htif_driver : pma_driver := PmaDriver "HTIF" htif_read htif_write.

(** ** Fields *)

(** A field of [w] bits at [s] *)
Lemma field_spec reg s w :
  0 <= s -> 0 <= w -> Z.shiftr (reg &ᵇ Z.shiftl (Z.ones w) s) s = (reg / 2 ^ s) mod 2 ^ w.
Proof.
  intros Hs Hw. rewrite Z.shiftr_land, Z.shiftr_shiftl_l, Z.sub_diag, Z.shiftl_0_r, Z.land_ones by lia.
  by rewrite Z.shiftr_div_pow2.
Qed.

Lemma place_field v s w :
  0 <= s -> 0 <= w -> s + w <= 64 -> uint64 (Z.shiftl v s) &ᵇ Z.shiftl (Z.ones w) s = uint w v * 2 ^ s.
Proof.
  intros Hs Hw H64. rewrite <- Z.shiftl_mul_pow2 by done. apply Z.bits_inj'. intros n Hn.
  rewrite Z.land_spec, !Z.shiftl_spec, uint_testbit, Z.shiftl_spec by lia.
  destruct (Z.ltb_spec n s).
  - rewrite !(Z.testbit_neg_r _ (n - s)) by lia. apply andb_false_r.
  - rewrite uint_testbit by lia. rewrite Z.testbit_ones by lia.
    test (0 <=? n - s) is true. destruct (Z.ltb_spec (n - s) w).
    + test (n <? 64) is true. cbn. apply andb_true_r.
    + by rewrite !andb_false_r.
Qed.

Lemma HTIF_BUILD_sum dev cmd reason data :
  HTIF_BUILD dev cmd reason data =
  uint 8 dev * 2 ^ 56 + uint 8 cmd * 2 ^ 48 + uint 16 reason * 2 ^ 32 + uint 32 data.
Proof.
  unfold HTIF_BUILD.
  change HTIF_DEV_MASK with (Z.shiftl (Z.ones 8) HTIF_DEV_SHIFT). change HTIF_CMD_MASK with (Z.shiftl (Z.ones 8) HTIF_CMD_SHIFT).
  change HTIF_REASON_MASK with (Z.shiftl (Z.ones 16) HTIF_REASON_SHIFT). change HTIF_DATA_MASK with (Z.shiftl (Z.ones 32) HTIF_DATA_SHIFT).
  rewrite !place_field by done. unfold HTIF_DEV_SHIFT, HTIF_CMD_SHIFT, HTIF_REASON_SHIFT, HTIF_DATA_SHIFT.
  pose proof (uint_range 8 cmd). pose proof (uint_range 16 reason). pose proof (uint_range 32 data). unfold is_uint in *.
  rewrite Z.pow_0_r, Z.mul_1_r.
  rewrite (lor_add_low (uint 8 dev) _ 56) by lia.
  replace (uint 8 dev * 2 ^ 56 + uint 8 cmd * 2 ^ 48) with ((uint 8 dev * 2 ^ 8 + uint 8 cmd) * 2 ^ 48) by lia.
  rewrite (lor_add_low _ _ 48) by lia.
  replace ((uint 8 dev * 2 ^ 8 + uint 8 cmd) * 2 ^ 48 + uint 16 reason * 2 ^ 32)
    with (((uint 8 dev * 2 ^ 8 + uint 8 cmd) * 2 ^ 16 + uint 16 reason) * 2 ^ 32) by lia.
  rewrite (lor_add_low _ _ 32) by lia. lia.
Qed.

Lemma HTIF_FIELDS reg :
  HTIF_DEV_FIELD reg = (reg / 2 ^ 56) mod 2 ^ 8 /\ HTIF_CMD_FIELD reg = (reg / 2 ^ 48) mod 2 ^ 8 /\
  HTIF_REASON_FIELD reg = (reg / 2 ^ 32) mod 2 ^ 16 /\ HTIF_DATA_FIELD reg = reg mod 2 ^ 32.
Proof.
  split_and!; [apply (field_spec reg 56 8)|apply (field_spec reg 48 8)|apply (field_spec reg 32 16)|]; try done.
  etransitivity; [by apply (field_spec reg 0 32)|]. by rewrite Z.div_1_r.
Qed.

Lemma replace_field reg v s w :
  0 <= s -> 0 <= w -> s + w <= 64 -> is_uint 64 reg ->
  (reg &ᵇ uint64 (Z.lnot (Z.shiftl (Z.ones w) s))) |ᵇ (uint64 (Z.shiftl v s) &ᵇ Z.shiftl (Z.ones w) s) =
  reg mod 2 ^ s + 2 ^ (s + w) * (reg / 2 ^ (s + w)) + uint w v * 2 ^ s.
Proof.
  intros Hs Hw H64 Hr. rewrite land_not_uint by (lia || done).
  set (m := Z.shiftl (Z.ones w) s). set (b := uint64 (Z.shiftl v s) &ᵇ m).
  assert (Z.land (Z.ldiff reg m) b = 0) as Hdis.
  { apply Z.bits_inj_0. intros n. unfold b. rewrite !Z.land_spec, Z.ldiff_spec. destruct (Z.testbit m n); rewrite ?andb_false_r; done. }
  rewrite <- Z.lxor_lor, <- Z.add_nocarry_lxor by done. unfold b, m. by rewrite ldiff_field, place_field by lia.
Qed.

(** building an HTIF register and reading its fields are inverse, and
    replacing a field changes that field alone. *)
Theorem htif_fields_roundtrip dev cmd reason data v :
  is_uint 8 dev -> is_uint 8 cmd -> is_uint 16 reason -> is_uint 32 data ->
  let reg := HTIF_BUILD dev cmd reason data in
  is_uint 64 reg /\
  HTIF_DEV_FIELD reg = dev /\ HTIF_CMD_FIELD reg = cmd /\ HTIF_REASON_FIELD reg = reason /\ HTIF_DATA_FIELD reg = data /\
  (is_uint 8 v -> HTIF_REPLACE_DEV reg v = HTIF_BUILD v cmd reason data) /\
  (is_uint 8 v -> HTIF_REPLACE_CMD reg v = HTIF_BUILD dev v reason data) /\
  (is_uint 16 v -> HTIF_REPLACE_REASON reg v = HTIF_BUILD dev cmd v data) /\
  (is_uint 32 v -> HTIF_REPLACE_DATA reg v = HTIF_BUILD dev cmd reason v) /\
  (forall r, is_uint 64 r ->
     HTIF_BUILD (HTIF_DEV_FIELD r) (HTIF_CMD_FIELD r) (HTIF_REASON_FIELD r) (HTIF_DATA_FIELD r) = r).
Proof.
  intros Hd Hc Hr Hx reg.
  assert (forall d c r x, is_uint 8 d -> is_uint 8 c -> is_uint 16 r -> is_uint 32 x ->
    HTIF_BUILD d c r x = d * 2 ^ 56 + c * 2 ^ 48 + r * 2 ^ 32 + x) as Hb
    by (intros; by rewrite HTIF_BUILD_sum, !uint_id by done).
  assert (reg = dev * 2 ^ 56 + cmd * 2 ^ 48 + reason * 2 ^ 32 + data) as Hreg by (by apply Hb).
  pose proof (HTIF_FIELDS reg) as (-> & -> & -> & ->).
  assert (is_uint 64 reg) as H64 by (unfold is_uint in *; lia).
  split; [done|].
  assert (forall w u, is_uint w u -> uint w u = u) as Hid by (intros; by apply uint_id).
  split_and!; try (intros Hv; unfold HTIF_REPLACE_DEV, HTIF_REPLACE_CMD, HTIF_REPLACE_REASON, HTIF_REPLACE_DATA;
    rewrite Hb by done).
  1-4: unfold is_uint in *; Z.div_mod_to_equations; lia.
  - pose proof (replace_field reg v 56 8 ltac:(lia) ltac:(lia) ltac:(lia) H64) as E. rewrite (Hid 8 v) in E by done.
    etransitivity; [exact E|]. unfold is_uint in *. Z.div_mod_to_equations; lia.
  - pose proof (replace_field reg v 48 8 ltac:(lia) ltac:(lia) ltac:(lia) H64) as E. rewrite (Hid 8 v) in E by done.
    etransitivity; [exact E|]. unfold is_uint in *. Z.div_mod_to_equations; lia.
  - pose proof (replace_field reg v 32 16 ltac:(lia) ltac:(lia) ltac:(lia) H64) as E. rewrite (Hid 16 v) in E by done.
    etransitivity; [exact E|]. unfold is_uint in *. Z.div_mod_to_equations; lia.
  - pose proof (replace_field reg v 0 32 ltac:(lia) ltac:(lia) ltac:(lia) H64) as E. rewrite (Hid 32 v) in E by done.
    etransitivity; [exact E|]. unfold is_uint in *. Z.div_mod_to_equations; lia.
  - intros r Hr64. pose proof (HTIF_FIELDS r) as (-> & -> & -> & ->). rewrite HTIF_BUILD_sum.
    unfold uint. rewrite !Z.mod_mod by lia. unfold is_uint in *. Z.div_mod_to_equations; lia.
Qed.

(** ** Requests *)

(** What a value written to [tohost] asks for; commands that are not enabled and
    unknown devices are ignored *)
Inductive htif_request := ReqHalt | ReqPutChar (c : Z) | ReqGetChar | ReqYieldManual | ReqYieldAutomatic | ReqNone.

Definition request (consoles yields tohost : Z) : htif_request :=
  let dev := (tohost / 2 ^ 56) mod 2 ^ 8 in
  let cmd := (tohost / 2 ^ 48) mod 2 ^ 8 in
  if dev =? 0 then if (cmd =? 0) && Z.odd tohost then ReqHalt else ReqNone
  else if dev =? 1 then
    if (cmd =? 0) && Z.testbit consoles 0 then ReqGetChar
    else if (cmd =? 1) && Z.testbit consoles 1 then ReqPutChar (tohost mod 256)
    else ReqNone
  else if dev =? 2 then
    if (cmd =? 0) && Z.testbit yields 0 then ReqYieldAutomatic
    else if (cmd =? 1) && Z.testbit yields 1 then ReqYieldManual
    else ReqNone
  else ReqNone.

(** The effect of a request on the state after [tohost] is written *)
Definition serve (q : htif_request) (a : device_access) : execute_status * device_access :=
  match q with
  | ReqHalt => (success_and_halt, write_iflags_H 1 a)
  | ReqPutChar c => (success, write_htif_fromhost (1 * 2 ^ 56 + 1 * 2 ^ 48) (os_putchar c a))
  | ReqGetChar =>
      let '(c, a) := os_getchar a in (success, write_htif_fromhost (1 * 2 ^ 56 + uint32 (c + 1)) a)
  | ReqYieldManual => (success_and_yield, write_htif_fromhost (2 * 2 ^ 56 + 1 * 2 ^ 48) (write_iflags_Y 1 a))
  | ReqYieldAutomatic => (success_and_yield, write_htif_fromhost (2 * 2 ^ 56) (write_iflags_X 1 a))
  | ReqNone => (success, a)
  end.

Lemma command_enabled_spec mask cmd :
  0 <= cmd -> command_enabled mask cmd = (cmd <? 64) && Z.testbit mask cmd.
Proof.
  intros Hc. unfold command_enabled. f_equal. change 1 with (2 ^ 0). rewrite land_pow2, Z.shiftr_spec by lia.
  by rewrite negb_involutive, Z.add_0_l.
Qed.

(** C35: a store of 64 bits to [tohost] records the value and serves the request
    it encodes, if it is enabled: halting raises H and stops the machine; a
    character is printed, or read and acknowledged in [fromhost] with its code
    plus one (zero if there is none); a yield raises Y or X, is acknowledged, and
    stops the interpreter.  A store to [fromhost] sets it, every other store
    fails, and loads see the five registers. *)
Theorem htif_correct offset val log2_size a :
  is_uint 64 val ->
  htif_write offset val log2_size a =
    (if negb (log2_size =? 3) then (failure, a)
     else if offset =? 0 then serve (request (read_htif_iconsole a) (read_htif_iyield a) val) (write_htif_tohost val a)
     else if offset =? 8 then (success, write_htif_fromhost val a)
     else (failure, a)) /\
  htif_read offset log2_size a =
    ((if log2_size =? 3 then
        if offset =? 0 then Some (read_htif_tohost a) else if offset =? 8 then Some (read_htif_fromhost a)
        else if offset =? 16 then Some (read_htif_ihalt a) else if offset =? 24 then Some (read_htif_iconsole a)
        else if offset =? 32 then Some (read_htif_iyield a) else None
      else None), a).
Proof.
  intros Hv. split.
  2:{ unfold htif_read, htif_tohost_rel_addr, htif_fromhost_rel_addr, htif_ihalt_rel_addr, htif_iconsole_rel_addr, htif_iyield_rel_addr.
      by repeat case_if. }
  unfold htif_write, htif_tohost_rel_addr, htif_fromhost_rel_addr. destruct (negb (log2_size =? 3)); [done|].
  destruct (offset =? 0); [|done]. unfold htif_write_tohost. pose proof (HTIF_FIELDS val) as (-> & -> & _ & ->).
  unfold request. set (dev := (val / 2 ^ 56) mod 2 ^ 8). set (cmd := (val / 2 ^ 48) mod 2 ^ 8).
  assert (0 <= dev < 256) as Hdev by (apply Z.mod_pos_bound; lia). assert (0 <= cmd < 256) as Hcmd by (apply Z.mod_pos_bound; lia).
  rewrite (uint_id 32 dev), (uint_id 32 cmd) by (unfold is_uint; lia).
  unfold HTIF_DEV_HALT, HTIF_DEV_CONSOLE, HTIF_DEV_YIELD. set (a1 := write_htif_tohost val a).
  assert (read_htif_iconsole a = read_htif_iconsole a1) as -> by done. assert (read_htif_iyield a = read_htif_iyield a1) as -> by done.
  generalize a1. clear a1. intros a1.
  destruct (dev =? 0); [|destruct (dev =? 1); [|destruct (dev =? 2); [|done]]].
  - unfold htif_halt, HTIF_HALT_CMD_HALT. change (val mod 2 ^ 32 &ᵇ 1) with (val mod 2 ^ 32 &ᵇ 2 ^ 0).
    rewrite land_pow2, negb_involutive, Z.mod_pow2_bits_low, Z.bit0_odd by lia. by destruct ((cmd =? 0) && Z.odd val).
  - unfold htif_console. rewrite command_enabled_spec by lia. unfold HTIF_CONSOLE_CMD_PUTCHAR, HTIF_CONSOLE_CMD_GETCHAR.
    destruct (Z.eqb_spec cmd 0) as [->|]; [|destruct (Z.eqb_spec cmd 1) as [->|]].
    + cbn [Z.ltb Z.compare andb Z.eqb]. destruct (Z.testbit _ 0); [|done]. cbn [serve]. destruct (os_getchar a1) as [c a2].
      rewrite HTIF_BUILD_sum, uint_uint by lia. done.
    + cbn [Z.ltb Z.compare andb Z.eqb Pos.compare Pos.compare_cont Pos.eqb]. destruct (Z.testbit _ 1); [|done]. cbn [serve].
      do 3 f_equal. change 0xff with (2 ^ 8 - 1). rewrite land_ones_mod by lia.
      by apply (uint_uint_le 8 32 val).
    + cbn [andb]. by destruct ((cmd <? 64) && _).
  - unfold htif_yield. rewrite command_enabled_spec by lia. unfold HTIF_YIELD_CMD_MANUAL, HTIF_YIELD_CMD_AUTOMATIC.
    destruct (Z.eqb_spec cmd 0) as [->|]; [|destruct (Z.eqb_spec cmd 1) as [->|]].
    + cbn [Z.ltb Z.compare andb Z.eqb]. by destruct (Z.testbit _ 0).
    + cbn [Z.ltb Z.compare andb Z.eqb Pos.compare Pos.compare_cont Pos.eqb]. by destruct (Z.testbit _ 1).
    + cbn [andb]. by destruct ((cmd <? 64) && _).
Qed.

(** ** Witnesses *)

Lemma htif_fields_roundtrip_witness :
  HTIF_CMD_FIELD (HTIF_BUILD 2 1 4 0x12345678) = 1 /\
  HTIF_REPLACE_REASON (HTIF_BUILD 2 1 4 0x12345678) 5 = HTIF_BUILD 2 1 5 0x12345678.
Proof.
  destruct (htif_fields_roundtrip 2 1 4 0x12345678 5) as (_ & _ & Hc & _ & _ & _ & _ & Hr & _);
    [unfold is_uint; lia..|]. split; [exact Hc|]. apply Hr. unfold is_uint. lia.
Defined.

(** The console takes characters: ['A'] is printed. *)
Lemma htif_correct_witness :
  let a := DeviceAccess (upd_htif (fun _ => HtifState 0 0 0 2 0) blank_machine) 0 [] [] in
  da_output (htif_write 0 (HTIF_BUILD 1 1 0 65) 3 a).2 = [65].
Proof.
  intros a. destruct (htif_correct 0 (HTIF_BUILD 1 1 0 65) 3 a) as [H _]; [unfold is_uint; vm_compute; split; congruence|].
  rewrite H. reflexivity.
Defined.
