(* ===== verification/Tlb.v ===== *)
(** * The translation cache (shadow-tlb.h, state-access.h)

    For each kind of access, 256 entries that map the page of a virtual address
    to the host memory that holds it.  Each entry has a hot part, read at every
    access, and a cold part that tells the physical page; a page reached through
    a write entry is marked dirty when the entry is replaced or flushed.

    Flushes are total on well-formed states: they invalidate the entries of
    their type, mark the pages of the write entries dirty and change nothing
    else. *)

From S2P Require Import Prelude CppInt Constants RiscvConstants UarchAccess Bytes RV64IM UarchStepSpec Pma PmaSpec MachineState UarchBridge UarchBridgeSpec UarchState UarchStateSpec.

(** ** Entries (shadow-tlb.h) *)

Definition tlb_get_entry_index (vaddr : Z) : Z := Z.shiftr vaddr PMA_PAGE_SIZE_LOG2 &ᵇ (PMA_TLB_SIZE - 1).

(** [size] is [sizeof(T)]; an address that is not aligned to it never hits. *)
Definition tlb_is_hit (size vaddr_page vaddr : Z) : bool :=
  vaddr_page =? vaddr &ᵇ uint64 (Z.lnot (PAGE_OFFSET_MASK &ᵇ uint64 (Z.lnot (size - 1)))).

(** ** Host memory

    A pointer to the memory of the host is its address; it is valid within the
    buffer of a memory range of the machine. *)

Definition in_host (haddr size : Z) (p : pma_entry) : bool :=
  match m_data p with
  | data_memory m => (host_base m <=? haddr) && (haddr + size <=? host_base m + Z.of_nat (length (host_memory m)))
  | _ => false
  end.

Fixpoint find_host (pmas : list pma_entry) (i : nat) (haddr size : Z) : option nat :=
  match pmas with
  | [] => None
  | p :: pmas => if in_host haddr size p then Some i else find_host pmas (S i) haddr size
  end.

Definition invalid_pointer : exn := undefined_behaviour "pointer".

(** A pointer aligned to [align] *)
Definition host_range (s : machine_state) (haddr align size : Z) : outcome (nat * pma_entry * Z) :=
  throw_if (negb (haddr mod align =? 0)) misaligned_word ≫= fun _ =>
  match find_host (s_pmas s) 0 haddr size with
  | None => Exn invalid_pointer
  | Some i =>
      match s_pmas s !! i with
      | None => Exn invalid_pointer
      | Some p => m ← get_memory p; Done (i, p, haddr - host_base m)
      end
  end.

(** [aliased_unaligned_read], [aliased_aligned_read] and [aliased_aligned_write] of
    a [size]-byte word *)
Definition host_read_unaligned (s : machine_state) (haddr align size : Z) : outcome Z :=
  '(_, p, o) ← host_range s haddr align size;
  m ← get_memory p; mret (le_val (slice o size (host_memory m))).

Definition host_read (s : machine_state) (haddr size : Z) : outcome Z := host_read_unaligned s haddr size size.

Definition host_write (s : machine_state) (haddr size val : Z) : outcome machine_state :=
  '(i, p, o) ← host_range s haddr size size;
  m ← get_memory p;
  let p' := set_host_memory (splice (Z.to_nat o) (le_bytes (Z.to_nat size) val) (host_memory m)) p in
  mret (upd_pmas (fun l => <[i := p']> l) s).

(** ** The state access class (state-access.h) *)

Definition do_read_pma_entry (s : machine_state) (index : Z) : outcome (nat * pma_entry) :=
  throw_if (negb (index <? PMA_MAX)) (assertion_failure "index < PMA_MAX") ≫= fun _ =>
  match s_pmas s !! Z.to_nat index with
  | Some p => Done (Z.to_nat index, p)
  | None => Exn past_the_map
  end.

Definition read_memory_word_via_tlb (s : machine_state) (etype size vaddr : Z) : outcome (option Z) :=
  let tlbhe := get_hot (s_tlb s) etype (tlb_get_entry_index vaddr) in
  if negb (tlb_is_hit size (vaddr_page tlbhe) vaddr) then mret None
  else v ← host_read s (uint64 (vh_offset tlbhe + vaddr)) size; mret (Some v).

Definition write_memory_word_via_tlb (s : machine_state) (etype size vaddr val : Z) : outcome (option machine_state) :=
  let tlbhe := get_hot (s_tlb s) etype (tlb_get_entry_index vaddr) in
  if negb (tlb_is_hit size (vaddr_page tlbhe) vaddr) then mret None
  else s ← host_write s (uint64 (vh_offset tlbhe + vaddr)) size val; mret (Some s).

(** The host pointer *)
Definition translate_vaddr_via_tlb (s : machine_state) (etype size vaddr : Z) : option Z :=
  let tlbhe := get_hot (s_tlb s) etype (tlb_get_entry_index vaddr) in
  if negb (tlb_is_hit size (vaddr_page tlbhe) vaddr) then None else Some (uint64 (vh_offset tlbhe + vaddr)).

(** The page of the write entry at [eidx], if it holds one, is marked dirty. *)
Definition mark_written_page (s : machine_state) (eidx : Z) : outcome machine_state :=
  let tlbce := get_cold (s_tlb s) TLB_WRITE eidx in
  '(i, pma) ← do_read_pma_entry s (pma_index tlbce);
  pma ← mark_dirty_page pma (uint64 (paddr_page tlbce - m_start pma));
  mret (upd_pmas (fun l => <[i := pma]> l) s).

Definition set_tlb_hot (etype eidx : Z) (e : tlb_hot_entry) (s : machine_state) : machine_state :=
  upd_tlb (set_hot etype eidx e) s.
Definition set_tlb_cold (etype eidx : Z) (e : tlb_cold_entry) (s : machine_state) : machine_state :=
  upd_tlb (set_cold etype eidx e) s.

(** [pma] is the entry of the map the address was found in; returns the host
    address of the page. *)
Definition replace_tlb_entry (s : machine_state) (etype vaddr paddr : Z) (pma : pma_entry) : outcome (Z * machine_state) :=
  let eidx := tlb_get_entry_index vaddr in
  s ← (if (etype =? TLB_WRITE) && negb (vaddr_page (get_hot (s_tlb s) etype eidx) =? TLB_INVALID_PAGE)
       then mark_written_page s eidx else mret s);
  let vpage := vaddr &ᵇ uint64 (Z.lnot PAGE_OFFSET_MASK) in
  let ppage := paddr &ᵇ uint64 (Z.lnot PAGE_OFFSET_MASK) in
  m ← get_memory pma;
  let hpage := uint64 (host_base m + uint64 (ppage - m_start pma)) in
  let s := set_tlb_hot etype eidx (TlbHotEntry vpage (uint64 (hpage - vpage))) s in
  let s := set_tlb_cold etype eidx (TlbColdEntry ppage (m_index pma)) s in
  mret (hpage, s).

Definition invalidate_hot (etype eidx : Z) (s : machine_state) : machine_state :=
  set_tlb_hot etype eidx (TlbHotEntry TLB_INVALID_PAGE (vh_offset (get_hot (s_tlb s) etype eidx))) s.

Definition flush_tlb_entry (etype : Z) (s : machine_state) (eidx : Z) : outcome machine_state :=
  if etype =? TLB_WRITE then
    if negb (vaddr_page (get_hot (s_tlb s) etype eidx) =? TLB_INVALID_PAGE)
    then mark_written_page (invalidate_hot etype eidx s) eidx
    else mret (invalidate_hot etype eidx s)
  else mret (invalidate_hot etype eidx s).

(** A loop over the entries, in order *)
Fixpoint flush_entries (etype : Z) (entries : list Z) (s : machine_state) : outcome machine_state :=
  match entries with
  | [] => Done s
  | eidx :: entries => s ← flush_tlb_entry etype s eidx; flush_entries etype entries s
  end.

Definition flush_tlb_type (etype : Z) (s : machine_state) : outcome machine_state :=
  flush_entries etype (seqZ 0 PMA_TLB_SIZE) s.

Definition flush_all_tlb (s : machine_state) : outcome machine_state :=
  s ← flush_tlb_type TLB_CODE s; s ← flush_tlb_type TLB_READ s; flush_tlb_type TLB_WRITE s.

Definition flush_tlb_vaddr (vaddr : Z) (s : machine_state) : outcome machine_state :=
  s ← flush_tlb_type TLB_CODE s; s ← flush_tlb_type TLB_READ s; flush_tlb_type TLB_WRITE s.

(** ** Well-formed caches *)

Definition tlb_type (t : Z) : Prop := 0 <= t <= 2.
Definition tlb_slot (i : Z) : Prop := 0 <= i < 256.

Definition hot_at (s : machine_state) (t i : Z) : tlb_hot_entry := get_hot (s_tlb s) t i.
Definition cold_at (s : machine_state) (t i : Z) : tlb_cold_entry := get_cold (s_tlb s) t i.
Definition valid_at (s : machine_state) (t i : Z) : Prop := vaddr_page (hot_at s t i) <> TLB_INVALID_PAGE.

(** The page of an entry lies in the memory range it refers to. *)
Definition page_in (s : machine_state) (c : tlb_cold_entry) : Prop :=
  0 <= pma_index c < PMA_MAX /\
  exists p, s_pmas s !! Z.to_nat (pma_index c) = Some p /\ memory_ok p /\
    m_start p <= paddr_page c /\ paddr_page c + PMA_PAGE_SIZE <= m_start p + m_length p.

Record tlb_wf (s : machine_state) : Prop := {
  tw_machine : machine_wf s;
  tw_write : forall i, tlb_slot i -> valid_at s TLB_WRITE i -> page_in s (cold_at s TLB_WRITE i);
}.

(** ** What flushes keep *)

(** The same range and contents, with more pages marked *)
Definition dirtier (p p' : pma_entry) : Prop :=
  same_memory p p' /\ forall k, 0 <= k -> page_dirty p k = true -> page_dirty p' k = true.

#[export] Instance dirtier_preorder : PreOrder dirtier.
Proof.
  split; [by split|]. intros p q r [H1 H2] [H3 H4]. split; [by etrans|]. auto.
Qed.

Lemma dirtier_ok p p' : dirtier p p' -> memory_ok p -> memory_ok p'.
Proof.
  intros [Hs _] [H1 H2 H3]. split; [by eapply same_memory_wf|by rewrite (same_memory_host _ _ Hs)|].
  by destruct Hs as [-> _].
Qed.

(** Registers and memory are kept; the cache and the dirty maps may change. *)
Record kept (s s' : machine_state) : Prop := {
  kept_registers : s' = upd_tlb (fun _ => s_tlb s') (upd_pmas (fun _ => s_pmas s') s);
  kept_pmas : Forall2 dirtier (s_pmas s) (s_pmas s');
}.

#[export] Instance kept_preorder : PreOrder kept.
Proof.
  split.
  - intros s. split; [by destruct s|reflexivity].
  - intros s1 s2 s3 [H1 H2] [H3 H4]. split; [|by etrans].
    rewrite H3, H1. by destruct s1, s2, s3.
Qed.

Lemma kept_wf s s' : kept s s' -> length (s_x s') = length (s_x s) /\ length (s_f s') = length (s_f s).
Proof. intros [-> _]. by destruct s. Qed.

Lemma page_in_kept s s' c : kept s s' -> page_in s c -> page_in s' c.
Proof.
  intros [_ Hp] (Hi & p & Hl & Hok & Hlo & Hhi). split; [done|].
  destruct (Forall2_lookup_l _ _ _ _ _ Hp Hl) as (p' & Hl' & Hd).
  exists p'. split; [done|]. split; [by eapply dirtier_ok|]. by destruct Hd as [[-> _] _].
Qed.

(** ** Marking a page *)

(** The page of the entry is marked in [s]. *)
Definition marked_in (s : machine_state) (c : tlb_cold_entry) : Prop :=
  exists p, s_pmas s !! Z.to_nat (pma_index c) = Some p /\
    page_dirty p ((paddr_page c - m_start p) `div` PMA_PAGE_SIZE) = true.

Lemma marked_in_kept s s' c : kept s s' -> (exists p, s_pmas s !! Z.to_nat (pma_index c) = Some p /\ m_start p <= paddr_page c) ->
  marked_in s c -> marked_in s' c.
Proof.
  intros [_ Hp] (q & Hq & Hlo) (p & Hl & Hd). rewrite Hl in Hq. injection Hq as <-.
  destruct (Forall2_lookup_l _ _ _ _ _ Hp Hl) as (p' & Hl' & Hs & Hm). exists p'. split; [done|].
  replace (m_start p') with (m_start p) by (by destruct Hs as [-> _]).
  apply Hm; [|done]. apply Z.div_pos; [lia|done].
Qed.

Lemma mark_written_page_spec s i :
  page_in s (cold_at s TLB_WRITE i) ->
  exists s', mark_written_page s i = Done s' /\ s_tlb s' = s_tlb s /\ kept s s' /\ marked_in s' (cold_at s TLB_WRITE i).
Proof.
  intros (Hi & p & Hl & Hok & Hlo & Hhi). unfold mark_written_page, do_read_pma_entry. fold (cold_at s TLB_WRITE i).
  set (c := cold_at s TLB_WRITE i) in *.
  test (pma_index c <? PMA_MAX) is true. cbn [negb throw_if mbind outcome_bind]. rewrite Hl. cbn [mbind outcome_bind].
  pose proof (ok_wf _ Hok) as Hwf. pose proof (wf_end _ Hwf). pose proof (wf_start _ Hwf).
  assert (0 < PMA_PAGE_SIZE) by done.
  rewrite uint_id by (unfold is_uint; lia).
  destruct (mark_dirty_page_spec p (paddr_page c - m_start p) Hwf) as (p' & -> & Hs & Hd); [unfold PMA_PAGE_SIZE in *; lia|].
  cbn. eexists. split; [done|]. split; [done|].
  assert (dirtier p p') as Hdp by (split; [done|]; intros k Hk Hpk; rewrite Hd, Hpk by done; done).
  split.
  - split; [by destruct s|]. change (s_pmas (upd_pmas ?f s)) with (f (s_pmas s)). cbv beta.
    apply Forall2_same_length_lookup_2; [by rewrite length_insert|].
    intros j q q' Hq Hq'. destruct (decide (Z.to_nat (pma_index c) = j)) as [<-|].
    + rewrite list_lookup_insert_eq in Hq' by (by eapply lookup_lt_Some). simplify_eq. done.
    + rewrite list_lookup_insert_ne in Hq' by done. by simplify_eq.
  - exists p'. split; [apply list_lookup_insert_eq; by eapply lookup_lt_Some|].
    replace (m_start p') with (m_start p) by (by destruct Hs as [-> _]).
    rewrite Hd by (apply Z.div_pos; [lia|done]). rewrite Z.eqb_refl. apply orb_true_r.
Qed.

(** ** Changes of one entry *)

Lemma hot_at_set s t i e t' i' :
  machine_wf s -> tlb_type t -> tlb_type t' -> tlb_slot i -> tlb_slot i' ->
  hot_at (set_tlb_hot t i e s) t' i' = if bool_decide (t' = t /\ i' = i) then e else hot_at s t' i'.
Proof. intros Hs **. exact (tlb_get_set no_hot_entry (hot (s_tlb s)) t i e t' i' (wf_hot _ Hs) H H0 H1 H2). Qed.

Lemma cold_at_set s t i e t' i' :
  machine_wf s -> tlb_type t -> tlb_type t' -> tlb_slot i -> tlb_slot i' ->
  cold_at (set_tlb_cold t i e s) t' i' = if bool_decide (t' = t /\ i' = i) then e else cold_at s t' i'.
Proof. intros Hs **. exact (tlb_get_set no_cold_entry (cold (s_tlb s)) t i e t' i' (wf_cold _ Hs) H H0 H1 H2). Qed.

Lemma set_tlb_hot_wf s t i e : machine_wf s -> machine_wf (set_tlb_hot t i e s).
Proof. intros [? ? ? ?]. split; try done. by apply tlb_set_ok. Qed.

Lemma set_tlb_cold_wf s t i e : machine_wf s -> machine_wf (set_tlb_cold t i e s).
Proof. intros [? ? ? ?]. split; try done. by apply tlb_set_ok. Qed.

Lemma upd_tlb_kept f s : kept s (upd_tlb f s).
Proof. split; [by destruct s|reflexivity]. Qed.

Lemma machine_wf_kept s s' : kept s s' -> s_tlb s' = s_tlb s -> machine_wf s -> machine_wf s'.
Proof. intros Hk Ht [? ? ? ?]. destruct (kept_wf _ _ Hk). split; congruence. Qed.

(** ** Flushes *)

(** [s'] is [s] after a flush of the entries [flushed] of type [t]. *)
Record flush_of (t : Z) (flushed : Z -> Prop) (s s' : machine_state) : Prop := {
  fl_kept : kept s s';
  fl_wf : tlb_wf s';
  fl_cold : forall t' i, tlb_type t' -> tlb_slot i -> cold_at s' t' i = cold_at s t' i;
  fl_other : forall t' i, tlb_type t' -> tlb_slot i -> t' <> t \/ ~ flushed i -> hot_at s' t' i = hot_at s t' i;
  fl_flushed : forall i, tlb_slot i -> flushed i -> ~ valid_at s' t i;
  fl_marked : forall i, tlb_slot i -> flushed i -> t = TLB_WRITE -> valid_at s t i -> marked_in s' (cold_at s t i);
}.

Lemma flush_tlb_entry_spec t s i :
  tlb_wf s -> tlb_type t -> tlb_slot i ->
  exists s', flush_tlb_entry t s i = Done s' /\ flush_of t (fun j => j = i) s s'.
Proof.
  intros [Hs Hw] Ht Hi. unfold flush_tlb_entry. fold (hot_at s t i).
  set (s1 := invalidate_hot t i s).
  assert (machine_wf s1) as Hs1 by by apply set_tlb_hot_wf.
  assert (kept s s1) as Hk1 by apply upd_tlb_kept.
  assert (forall t' j, cold_at s1 t' j = cold_at s t' j) as Hc1 by done.
  assert (forall t' j, tlb_type t' -> tlb_slot j -> t' <> t \/ j <> i -> hot_at s1 t' j = hot_at s t' j) as Ho1.
  { intros t' j Ht' Hj Hne. unfold s1, invalidate_hot. rewrite hot_at_set by done. rewrite bool_decide_eq_false_2; naive_solver. }
  assert (~ valid_at s1 t i) as Hf1.
  { unfold valid_at, s1, invalidate_hot. rewrite hot_at_set, bool_decide_eq_true_2 by done. cbn. tauto. }
  assert (forall j, tlb_slot j -> valid_at s1 TLB_WRITE j -> page_in s1 (cold_at s1 TLB_WRITE j) /\ valid_at s TLB_WRITE j) as Hw1.
  { intros j Hj Hv. destruct (decide (TLB_WRITE = t /\ j = i)) as [[<- ->]|Hne]; [done|].
    unfold valid_at in Hv. rewrite Ho1 in Hv by (done || (unfold TLB_WRITE, tlb_type; lia) || (destruct (decide (j = i)); naive_solver)).
    split; [|done]. eapply page_in_kept; [exact Hk1|]. by apply Hw. }
  destruct (Z.eqb_spec t TLB_WRITE) as [->|Hne].
  2: { exists s1. split; [done|]. split.
       - done.
       - split; [done|]. intros. by apply Hw1.
       - done.
       - intros. apply Ho1; naive_solver.
       - by intros j _ ->.
       - naive_solver. }
  destruct (Z.eqb_spec (vaddr_page (hot_at s TLB_WRITE i)) TLB_INVALID_PAGE) as [He|He]; cbn [negb].
  - exists s1. split; [done|]. split.
    + done.
    + split; [done|]. intros. by apply Hw1.
    + done.
    + intros. apply Ho1; naive_solver.
    + by intros j _ ->.
    + intros j _ -> _ Hv. by destruct Hv.
  - destruct (mark_written_page_spec s1 i) as (s2 & -> & Ht2 & Hk2 & Hm2).
    { eapply page_in_kept; [exact Hk1|]. by apply Hw. }
    exists s2. split; [done|].
    assert (forall t' j, hot_at s2 t' j = hot_at s1 t' j) as Hh2 by (intros; unfold hot_at; by rewrite Ht2).
    assert (forall t' j, cold_at s2 t' j = cold_at s1 t' j) as Hc2 by (intros; unfold cold_at; by rewrite Ht2).
    split.
    + by etrans.
    + split; [by eapply machine_wf_kept|]. intros j Hj Hv. rewrite Hc2. eapply page_in_kept; [exact Hk2|].
      apply Hw1; [done|]. unfold valid_at in *. by rewrite <- Hh2.
    + intros. by rewrite Hc2.
    + intros. rewrite Hh2. apply Ho1; naive_solver.
    + intros j Hj ->. unfold valid_at. rewrite Hh2. exact Hf1.
    + intros j Hj -> _ _. exact Hm2.
Qed.

Lemma flush_entries_spec t l s :
  tlb_wf s -> tlb_type t -> Forall tlb_slot l ->
  exists s', flush_entries t l s = Done s' /\ flush_of t (fun j => j ∈ l) s s'.
Proof.
  intros Hs Ht Hl. revert s Hs. induction Hl as [|i l Hi Hl IH]; intros s Hs; cbn.
  - exists s. split; [done|]. split; [reflexivity|done|done|done| |]; intros j Hj Hin; by apply not_elem_of_nil in Hin.
  - destruct (flush_tlb_entry_spec t s i Hs Ht Hi) as (s1 & -> & H1). cbn.
    destruct (IH s1 (fl_wf _ _ _ _ H1)) as (s2 & -> & H2). exists s2. split; [done|].
    assert (forall j, j ∈ i :: l <-> j = i \/ j ∈ l) as Hin by (intros; apply elem_of_cons).
    split.
    + etrans; [apply H1|apply H2].
    + apply H2.
    + intros t' j Ht' Hj. by rewrite (fl_cold _ _ _ _ H2), (fl_cold _ _ _ _ H1).
    + intros t' j Ht' Hj Hne. rewrite (fl_other _ _ _ _ H2), (fl_other _ _ _ _ H1); naive_solver.
    + intros j Hj Hin'. destruct (decide (j ∈ l)) as [|Hnl]; [by apply H2|].
      apply Hin in Hin' as [->|]; [|done]. unfold valid_at. rewrite (fl_other _ _ _ _ H2) by auto. by apply H1.
    + intros j Hj Hin' -> Hv. destruct (decide (j = i)) as [->|Hne].
      * eapply marked_in_kept; [apply H2| |by apply H1].
        destruct (tw_write _ Hs i Hi Hv) as (_ & p & Hp & _ & Hlo & _).
        destruct (Forall2_lookup_l _ _ _ _ _ (kept_pmas _ _ (fl_kept _ _ _ _ H1)) Hp) as (p' & Hp' & Hd).
        exists p'. split; [done|]. by destruct Hd as [[-> _] _].
      * rewrite <- (fl_cold _ _ _ _ H1) by done. apply H2; try done.
        -- apply Hin in Hin' as [|]; done.
        -- unfold valid_at. rewrite (fl_other _ _ _ _ H1) by auto. exact Hv.
Qed.

(** [s'] is [s] after a flush of the entries of the types in [ts]. *)
Record flushes (ts : Z -> Prop) (s s' : machine_state) : Prop := {
  fs_kept : kept s s';
  fs_wf : tlb_wf s';
  fs_cold : forall t i, tlb_type t -> tlb_slot i -> cold_at s' t i = cold_at s t i;
  fs_other : forall t i, tlb_type t -> tlb_slot i -> ~ ts t -> hot_at s' t i = hot_at s t i;
  fs_flushed : forall t i, tlb_type t -> tlb_slot i -> ts t -> ~ valid_at s' t i;
  fs_marked : forall i, tlb_slot i -> ts TLB_WRITE -> valid_at s TLB_WRITE i -> marked_in s' (cold_at s TLB_WRITE i);
}.

Lemma flush_tlb_type_spec t s :
  tlb_wf s -> tlb_type t -> exists s', flush_tlb_type t s = Done s' /\ flushes (fun t' => t' = t) s s'.
Proof.
  intros Hs Ht. assert (forall i, i ∈ seqZ 0 PMA_TLB_SIZE <-> tlb_slot i) as Hin.
  { intros i. rewrite elem_of_seqZ. unfold tlb_slot, PMA_TLB_SIZE. lia. }
  destruct (flush_entries_spec t (seqZ 0 PMA_TLB_SIZE) s Hs Ht) as (s' & Hf & [H1 H2 H3 H4 H5 H6]).
  { apply Forall_forall. intros i. apply Hin. }
  exists s'. split; [exact Hf|]. split; try done.
  - intros t' i Ht' Hi Hne. apply H4; auto.
  - intros t' i _ Hi ->. apply H5; [done|by apply Hin].
  - intros i Hi <- Hv. by apply H6; [|apply Hin| |].
Qed.

Lemma flushes_weaken P Q s s' : (forall t, P t <-> Q t) -> flushes P s s' -> flushes Q s s'.
Proof. intros HPQ [H1 H2 H3 H4 H5 H6]. split; try done; intros; [apply H4|eapply H5|apply H6]; naive_solver. Qed.

Lemma flushes_trans P Q s1 s2 s3 :
  (forall t, Decision (P t)) -> (forall t, Decision (Q t)) -> tlb_wf s1 ->
  flushes P s1 s2 -> flushes Q s2 s3 -> flushes (fun t => P t \/ Q t) s1 s3.
Proof.
  intros HP HQ Hs [H1 H2 H3 H4 H5 H6] [G1 G2 G3 G4 G5 G6]. split.
  - by etrans.
  - done.
  - intros. by rewrite G3, H3.
  - intros t i Ht Hi Hn. rewrite G4, H4 by tauto. done.
  - intros t i Ht Hi Hor. destruct (decide (Q t)); [by apply G5|]. destruct Hor as [Hp|]; [|done].
    unfold valid_at. rewrite G4 by done. by apply H5.
  - intros i Hi Hor Hv. assert (tlb_type TLB_WRITE) as Hw by done.
    destruct (decide (P TLB_WRITE)) as [Hp|Hn].
    + eapply marked_in_kept; [exact G1| |by apply H6].
      destruct (tw_write _ Hs i Hi Hv) as (_ & p & Hp' & _ & Hlo & _).
      destruct (Forall2_lookup_l _ _ _ _ _ (kept_pmas _ _ H1) Hp') as (p' & Hl & Hd).
      exists p'. split; [done|]. by destruct Hd as [[-> _] _].
    + destruct Hor as [|Hq]; [done|]. rewrite <- H3 by done. apply G6; [done|done|]. unfold valid_at.
      rewrite H4 by done. exact Hv.
Qed.

Lemma flush_all_tlb_spec s :
  tlb_wf s -> exists s', flush_all_tlb s = Done s' /\ flushes (fun _ => True) s s'.
Proof.
  intros Hs. unfold flush_all_tlb.
  destruct (flush_tlb_type_spec TLB_CODE s Hs) as (s1 & -> & H1); [done|]. cbn [mbind outcome_bind].
  destruct (flush_tlb_type_spec TLB_READ s1 (fs_wf _ _ _ H1)) as (s2 & -> & H2); [done|]. cbn [mbind outcome_bind].
  destruct (flush_tlb_type_spec TLB_WRITE s2 (fs_wf _ _ _ H2)) as (s3 & -> & H3); [done|].
  exists s3. split; [done|].
  pose proof (flushes_trans (fun t => t = TLB_CODE) (fun t => t = TLB_READ) s s1 s2 _ _ Hs H1 H2) as H12.
  pose proof (flushes_trans (fun t => t = TLB_CODE \/ t = TLB_READ) (fun t => t = TLB_WRITE) s s2 s3 _ _ Hs H12 H3) as H123.
  split; try apply H123.
  - by intros.
  - intros t i Ht Hi _. apply H123; [done|done|]. unfold tlb_type, TLB_CODE, TLB_READ, TLB_WRITE in *. lia.
  - intros i Hi _. apply H123; auto.
Qed.
