(* ===== verification/Trap.v ===== *)
(** * Traps (interpret.cpp)

    Exceptions, interrupts and the instructions that return from their
    handlers. *)

From S2P Require Import Prelude CppInt Constants RiscvConstants MachineState DeviceAccess Clint Tlb.

(** [~mask] on [uint64_t] *)
Definition not64 (mask : Z) : Z := uint64 (Z.lnot mask).

Definition insn_is_uncompressed (insn : Z) : bool := (insn &ᵇ 3) =? 3.

(** [-1] is converted to the width of the register. *)
Definition set_prv (s : machine_state) (new_prv : Z) : outcome machine_state :=
  let s := assign upd_iprv new_prv s in
  s ← flush_all_tlb s;
  mret (assign upd_ilrsc (uint64 (-1)) s).

(** Whether the trap is taken in supervisor mode *)
Definition delegated (s : machine_state) (cause : Z) : bool :=
  if s_iprv s <=? PRV_S then
    if negb ((cause &ᵇ MCAUSE_INTERRUPT_FLAG) =? 0)
    then negb ((Z.shiftr (s_mideleg s) (cause &ᵇ (XLEN - 1)) &ᵇ 1) =? 0)
    else negb ((Z.shiftr (s_medeleg s) (cause &ᵇ (XLEN - 1)) &ᵇ 1) =? 0)
  else false.

(** The new value of [mstatus] for each mode *)
Definition trap_mstatus_S (mstatus prv : Z) : Z :=
  let mstatus := (mstatus &ᵇ not64 MSTATUS_SPIE_MASK)
    |ᵇ uint64 (Z.shiftl (Z.shiftr mstatus MSTATUS_SIE_SHIFT &ᵇ 1) MSTATUS_SPIE_SHIFT) in
  let mstatus := (mstatus &ᵇ not64 MSTATUS_SPP_MASK) |ᵇ uint64 (Z.shiftl prv MSTATUS_SPP_SHIFT) in
  mstatus &ᵇ not64 MSTATUS_SIE_MASK.

Definition trap_mstatus_M (mstatus prv : Z) : Z :=
  let mstatus := (mstatus &ᵇ not64 MSTATUS_MPIE_MASK)
    |ᵇ uint64 (Z.shiftl (Z.shiftr mstatus MSTATUS_MIE_SHIFT &ᵇ 1) MSTATUS_MPIE_SHIFT) in
  let mstatus := (mstatus &ᵇ not64 MSTATUS_MPP_MASK) |ᵇ uint64 (Z.shiftl prv MSTATUS_MPP_SHIFT) in
  mstatus &ᵇ not64 MSTATUS_MIE_MASK.

(** Returns the address of the handler. *)
Definition raise_exception (s : machine_state) (pc cause tval : Z) : outcome (Z * machine_state) :=
  let tval := if (cause =? MCAUSE_ILLEGAL_INSN) && negb (insn_is_uncompressed (uint32 tval)) then uint16 tval else tval in
  let prv := s_iprv s in
  let deleg := delegated s cause in
  let s := assign upd_icycleinstret (uint64 (s_icycleinstret s + 1)) s in
  if deleg then
    let s := assign upd_scause cause s in
    let s := assign upd_sepc pc s in
    let s := assign upd_stval tval s in
    let s := assign upd_mstatus (trap_mstatus_S (s_mstatus s) prv) s in
    s ← (if negb (prv =? PRV_S) then set_prv s PRV_S else mret s);
    mret (s_stvec s, s)
  else
    let s := assign upd_mcause cause s in
    let s := assign upd_mepc pc s in
    let s := assign upd_mtval tval s in
    let s := assign upd_mstatus (trap_mstatus_M (s_mstatus s) prv) s in
    s ← (if negb (prv =? PRV_M) then set_prv s PRV_M else mret s);
    mret (s_mtvec s, s).

(** ** Interrupts *)

Definition get_pending_irq_mask (s : machine_state) : Z :=
  let pending_ints := uint32 (s_mip s &ᵇ s_mie s) in
  if pending_ints =? 0 then 0
  else
    let prv := s_iprv s in
    let enabled_ints :=
      if prv =? PRV_M then
        if negb ((s_mstatus s &ᵇ MSTATUS_MIE_MASK) =? 0) then uint32 (not64 (s_mideleg s)) else 0
      else if prv =? PRV_S then
        if negb ((s_mstatus s &ᵇ MSTATUS_SIE_MASK) =? 0) then uint32 (-1) else uint32 (not64 (s_mideleg s))
      else uint32 (-1) in
    pending_ints &ᵇ enabled_ints.

(** [31 - __builtin_clz(v)] *)
Definition irq_ilog2 (v : Z) : Z := Z.log2 v.

Definition interrupts_priority : list Z :=
  [MIP_MEIP_MASK; MIP_MSIP_MASK; MIP_MTIP_MASK; MIP_SEIP_MASK; MIP_SSIP_MASK; MIP_STIP_MASK].

Definition get_highest_priority_irq_num (v : Z) : outcome Z :=
  match list_find (fun mask => (v &ᵇ mask) <> 0) interrupts_priority with
  | Some (_, mask) => Done (irq_ilog2 mask)
  | None => Exn (assertion_failure "false")
  end.

Definition raise_interrupt_if_any (s : machine_state) (pc : Z) : outcome (Z * machine_state) :=
  let mask := get_pending_irq_mask s in
  if negb (mask =? 0) then
    irq_num ← get_highest_priority_irq_num mask;
    raise_exception s pc (irq_num |ᵇ MCAUSE_INTERRUPT_FLAG) 0
  else mret (pc, s).

Definition set_rtc_interrupt (s : machine_state) (mcycle : Z) : machine_state :=
  let timecmp_cycle := rtc_time_to_cycle (mtimecmp (s_clint s)) in
  if (timecmp_cycle <=? mcycle) && negb (timecmp_cycle =? 0)
  then assign upd_mip (s_mip s |ᵇ MIP_MTIP_MASK) s else s.

(** ** Results of instructions

    An instruction returns its status and the new program counter with the new
    state. *)

Definition raise_illegal_insn_exception (s : machine_state) (pc insn : Z) : outcome (execute_status * Z * machine_state) :=
  '(pc, s) ← raise_exception s pc MCAUSE_ILLEGAL_INSN insn; mret (failure, pc, s).

Definition raise_misaligned_fetch_exception (s : machine_state) (pc new_pc : Z) :
    outcome (execute_status * Z * machine_state) :=
  '(pc, s) ← raise_exception s pc MCAUSE_INSN_ADDRESS_MISALIGNED new_pc; mret (failure, pc, s).

Definition advance_to_next_insn (s : machine_state) (pc size : Z) (status : execute_status) :
    outcome (execute_status * Z * machine_state) :=
  Done (status, uint64 (pc + size), s).

Definition execute_jump (s : machine_state) (new_pc : Z) : outcome (execute_status * Z * machine_state) :=
  Done (success, new_pc, s).

(** ** Environment calls and returns *)

Definition execute_ECALL (s : machine_state) (pc insn : Z) : outcome (execute_status * Z * machine_state) :=
  '(pc, s) ← raise_exception s pc (MCAUSE_ECALL_BASE + s_iprv s) 0; mret (failure, pc, s).

Definition execute_EBREAK (s : machine_state) (pc insn : Z) : outcome (execute_status * Z * machine_state) :=
  '(pc, s) ← raise_exception s pc MCAUSE_BREAKPOINT pc; mret (failure, pc, s).

Definition sret_mstatus (mstatus : Z) : Z :=
  let spp := Z.shiftr (mstatus &ᵇ MSTATUS_SPP_MASK) MSTATUS_SPP_SHIFT in
  let spie := Z.shiftr (mstatus &ᵇ MSTATUS_SPIE_MASK) MSTATUS_SPIE_SHIFT in
  let mstatus := (mstatus &ᵇ not64 MSTATUS_SIE_MASK) |ᵇ uint64 (Z.shiftl spie MSTATUS_SIE_SHIFT) in
  let mstatus := mstatus |ᵇ MSTATUS_SPIE_MASK in
  let mstatus := mstatus &ᵇ not64 MSTATUS_SPP_MASK in
  if spp <? PRV_M then mstatus &ᵇ not64 MSTATUS_MPRV_MASK else mstatus.

Definition execute_SRET (s : machine_state) (pc insn : Z) : outcome (execute_status * Z * machine_state) :=
  let prv := s_iprv s in
  let mstatus := s_mstatus s in
  if (prv <? PRV_S) || ((prv =? PRV_S) && negb ((mstatus &ᵇ MSTATUS_TSR_MASK) =? 0))
  then raise_illegal_insn_exception s pc insn
  else
    let spp := Z.shiftr (mstatus &ᵇ MSTATUS_SPP_MASK) MSTATUS_SPP_SHIFT in
    let s := assign upd_mstatus (sret_mstatus mstatus) s in
    s ← (if negb (prv =? spp) then set_prv s spp else mret s);
    mret (success_and_serve_interrupts, s_sepc s, s).

Definition mret_mstatus (mstatus : Z) : Z :=
  let mpp := Z.shiftr (mstatus &ᵇ MSTATUS_MPP_MASK) MSTATUS_MPP_SHIFT in
  let mpie := Z.shiftr (mstatus &ᵇ MSTATUS_MPIE_MASK) MSTATUS_MPIE_SHIFT in
  let mstatus := (mstatus &ᵇ not64 MSTATUS_MIE_MASK) |ᵇ uint64 (Z.shiftl mpie MSTATUS_MIE_SHIFT) in
  let mstatus := mstatus |ᵇ MSTATUS_MPIE_MASK in
  let mstatus := mstatus &ᵇ not64 MSTATUS_MPP_MASK in
  if mpp <? PRV_M then mstatus &ᵇ not64 MSTATUS_MPRV_MASK else mstatus.

Definition execute_MRET (s : machine_state) (pc insn : Z) : outcome (execute_status * Z * machine_state) :=
  let prv := s_iprv s in
  if prv <? PRV_M then raise_illegal_insn_exception s pc insn
  else
    let mstatus := s_mstatus s in
    let mpp := Z.shiftr (mstatus &ᵇ MSTATUS_MPP_MASK) MSTATUS_MPP_SHIFT in
    let s := assign upd_mstatus (mret_mstatus mstatus) s in
    s ← (if negb (prv =? mpp) then set_prv s mpp else mret s);
    mret (success_and_serve_interrupts, s_mepc s, s).
