(* ===== verification/Csr.v ===== *)
(** * Control and status registers (interpret.cpp)

    Reads return [None] where the code reports a failure; writes return the
    status of the instruction, [failure] for an illegal access. *)

From S2P Require Import Prelude CppInt Constants RiscvConstants MachineState DeviceAccess Clint Tlb Trap.

(** ** Addresses *)

Definition csr_is_read_only (csraddr : Z) : bool := (csraddr &ᵇ 0xc00) =? 0xc00.
Definition csr_prv (csr : Z) : Z := Z.shiftr csr 8 &ᵇ 3.

(** ** Reads *)

Definition rdcounteren (s : machine_state) (mask : Z) : bool :=
  let counteren := MCOUNTEREN_R_MASK in
  let counteren :=
    if s_iprv s <=? PRV_S then
      let counteren := counteren &ᵇ s_mcounteren s in
      if s_iprv s <? PRV_S then counteren &ᵇ s_scounteren s else counteren
    else counteren in
  (counteren &ᵇ mask) =? mask.

Definition read_csr_cycle (s : machine_state) (mcycle : Z) : option Z :=
  if rdcounteren s MCOUNTEREN_CY_MASK then Some mcycle else None.
Definition read_csr_instret (s : machine_state) (mcycle : Z) : option Z :=
  if negb (rdcounteren s MCOUNTEREN_IR_MASK) then None else Some (uint64 (mcycle - s_icycleinstret s)).
Definition read_csr_time (s : machine_state) (mcycle : Z) : option Z :=
  if negb (rdcounteren s MCOUNTEREN_TM_MASK) then None else Some (rtc_cycle_to_time mcycle).
Definition read_csr_sstatus (s : machine_state) : option Z := Some (s_mstatus s &ᵇ SSTATUS_R_MASK).
Definition read_csr_senvcfg (s : machine_state) : option Z := Some (s_senvcfg s &ᵇ SENVCFG_R_MASK).
Definition read_csr_sie (s : machine_state) : option Z := Some (s_mie s &ᵇ s_mideleg s).
Definition read_csr_sip (s : machine_state) : option Z := Some (s_mip s &ᵇ s_mideleg s).
Definition read_csr_satp (s : machine_state) : option Z :=
  if (s_iprv s =? PRV_S) && negb ((s_mstatus s &ᵇ MSTATUS_TVM_MASK) =? 0) then None else Some (s_satp s).
Definition read_csr_mstatus (s : machine_state) : option Z := Some (s_mstatus s &ᵇ MSTATUS_R_MASK).
Definition read_csr_menvcfg (s : machine_state) : option Z := Some (s_menvcfg s &ᵇ MENVCFG_R_MASK).
Definition read_csr_minstret (s : machine_state) (mcycle : Z) : option Z := Some (uint64 (mcycle - s_icycleinstret s)).

(** Floating point is off *)
Definition fs_off (mstatus : Z) : bool := (mstatus &ᵇ MSTATUS_FS_MASK) =? MSTATUS_FS_OFF.

Definition read_csr_fflags (s : machine_state) : option Z :=
  if fs_off (s_mstatus s) then None else Some (Z.shiftr (s_fcsr s &ᵇ FCSR_FFLAGS_RW_MASK) FCSR_FFLAGS_SHIFT).
Definition read_csr_frm (s : machine_state) : option Z :=
  if fs_off (s_mstatus s) then None else Some (Z.shiftr (s_fcsr s &ᵇ FCSR_FRM_RW_MASK) FCSR_FRM_SHIFT).
Definition read_csr_fcsr (s : machine_state) : option Z :=
  if fs_off (s_mstatus s) then None else Some (s_fcsr s).

Definition within (lo hi a : Z) : bool := (lo <=? a) && (a <=? hi).

(** The counters and events of the performance monitor *)
Definition is_mhpm (csraddr : Z) : bool :=
  within CSR_mhpmcounter3 CSR_mhpmcounter31 csraddr || within CSR_mhpmevent3 CSR_mhpmevent31 csraddr.

(** The registers that read as zero *)
Definition csr_hardwired (csraddr : Z) : bool :=
  (csraddr =? CSR_mhartid) || (csraddr =? CSR_mcountinhibit) || (csraddr =? CSR_mconfigptr)
  || is_mhpm csraddr || within CSR_tselect CSR_tdata3 csraddr.

Definition read_csr (s : machine_state) (mcycle csraddr : Z) : option Z :=
  if s_iprv s <? csr_prv csraddr then None
  else if csraddr =? CSR_fflags then read_csr_fflags s
  else if csraddr =? CSR_frm then read_csr_frm s
  else if csraddr =? CSR_fcsr then read_csr_fcsr s
  else if csraddr =? CSR_ucycle then read_csr_cycle s mcycle
  else if csraddr =? CSR_uinstret then read_csr_instret s mcycle
  else if csraddr =? CSR_utime then read_csr_time s mcycle
  else if csraddr =? CSR_sstatus then read_csr_sstatus s
  else if csraddr =? CSR_senvcfg then read_csr_senvcfg s
  else if csraddr =? CSR_sie then read_csr_sie s
  else if csraddr =? CSR_stvec then Some (s_stvec s)
  else if csraddr =? CSR_scounteren then Some (s_scounteren s)
  else if csraddr =? CSR_sscratch then Some (s_sscratch s)
  else if csraddr =? CSR_sepc then Some (s_sepc s)
  else if csraddr =? CSR_scause then Some (s_scause s)
  else if csraddr =? CSR_stval then Some (s_stval s)
  else if csraddr =? CSR_sip then read_csr_sip s
  else if csraddr =? CSR_satp then read_csr_satp s
  else if csraddr =? CSR_mstatus then read_csr_mstatus s
  else if csraddr =? CSR_menvcfg then read_csr_menvcfg s
  else if csraddr =? CSR_misa then Some (s_misa s)
  else if csraddr =? CSR_medeleg then Some (s_medeleg s)
  else if csraddr =? CSR_mideleg then Some (s_mideleg s)
  else if csraddr =? CSR_mie then Some (s_mie s)
  else if csraddr =? CSR_mtvec then Some (s_mtvec s)
  else if csraddr =? CSR_mcounteren then Some (s_mcounteren s)
  else if csraddr =? CSR_mscratch then Some (s_mscratch s)
  else if csraddr =? CSR_mepc then Some (s_mepc s)
  else if csraddr =? CSR_mcause then Some (s_mcause s)
  else if csraddr =? CSR_mtval then Some (s_mtval s)
  else if csraddr =? CSR_mip then Some (s_mip s)
  else if csraddr =? CSR_mcycle then Some mcycle
  else if csraddr =? CSR_minstret then read_csr_minstret s mcycle
  else if csraddr =? CSR_mvendorid then Some MVENDORID_INIT
  else if csraddr =? CSR_marchid then Some MARCHID_INIT
  else if csraddr =? CSR_mimpid then Some MIMPID_INIT
  else if csr_hardwired csraddr then Some 0
  else None.

(** ** Writes *)

(** Replaces the bits of [mask] *)
Definition write_masked (old mask val : Z) : Z := (old &ᵇ not64 mask) |ᵇ (val &ᵇ mask).

Definition legal_mstatus (old val : Z) : Z :=
  let val := if PRV_HS =? Z.shiftr (val &ᵇ MSTATUS_MPP_MASK) MSTATUS_MPP_SHIFT then val &ᵇ not64 MSTATUS_MPP_MASK else val in
  let mstatus := write_masked old MSTATUS_W_MASK val in
  if negb (fs_off mstatus) then (mstatus |ᵇ MSTATUS_FS_DIRTY) |ᵇ MSTATUS_SD_MASK
  else mstatus &ᵇ not64 MSTATUS_SD_MASK.

Definition changed (mod_ mask : Z) : bool := negb ((mod_ &ᵇ mask) =? 0).

Definition write_csr_mstatus (s : machine_state) (val : Z) : outcome (execute_status * machine_state) :=
  let old_mstatus := s_mstatus s &ᵇ MSTATUS_R_MASK in
  let mstatus := legal_mstatus old_mstatus val in
  let s := assign upd_mstatus mstatus s in
  let mod_ := old_mstatus ^ᵇ mstatus in
  let privilege :=
    changed mod_ MSTATUS_SUM_MASK || changed mod_ MSTATUS_MPRV_MASK
    || (changed mstatus MSTATUS_MPRV_MASK && changed mod_ MSTATUS_MPP_MASK) in
  let flush_tlb_read := changed mod_ MSTATUS_MXR_MASK || privilege in
  let flush_tlb_write := privilege in
  s ← (if flush_tlb_read : bool then flush_tlb_type TLB_READ s else mret s);
  s ← (if flush_tlb_write : bool then flush_tlb_type TLB_WRITE s else mret s);
  mret (if changed mod_ (MSTATUS_SIE_MASK |ᵇ MSTATUS_MIE_MASK) then success_and_serve_interrupts else success, s).

Definition write_csr_sstatus (s : machine_state) (val : Z) : outcome (execute_status * machine_state) :=
  write_csr_mstatus s (write_masked (s_mstatus s) SSTATUS_W_MASK val).
Definition write_csr_senvcfg (s : machine_state) (val : Z) : outcome (execute_status * machine_state) :=
  Done (success, assign upd_senvcfg (write_masked (s_senvcfg s) SENVCFG_W_MASK val) s).
Definition write_csr_sie (s : machine_state) (val : Z) : outcome (execute_status * machine_state) :=
  Done (success_and_serve_interrupts, assign upd_mie (write_masked (s_mie s) (s_mideleg s) val) s).
Definition write_csr_stvec (s : machine_state) (val : Z) : outcome (execute_status * machine_state) :=
  Done (success, assign upd_stvec (val &ᵇ not64 1) s).
Definition write_csr_scounteren (s : machine_state) (val : Z) : outcome (execute_status * machine_state) :=
  Done (success, assign upd_scounteren (val &ᵇ SCOUNTEREN_RW_MASK) s).
Definition write_csr_sscratch (s : machine_state) (val : Z) : outcome (execute_status * machine_state) :=
  Done (success, assign upd_sscratch val s).
Definition write_csr_sepc (s : machine_state) (val : Z) : outcome (execute_status * machine_state) :=
  Done (success, assign upd_sepc (val &ᵇ not64 1) s).
Definition write_csr_scause (s : machine_state) (val : Z) : outcome (execute_status * machine_state) :=
  Done (success, assign upd_scause val s).
Definition write_csr_stval (s : machine_state) (val : Z) : outcome (execute_status * machine_state) :=
  Done (success, assign upd_stval val s).
Definition write_csr_sip (s : machine_state) (val : Z) : outcome (execute_status * machine_state) :=
  Done (success_and_serve_interrupts, assign upd_mip (write_masked (s_mip s) (s_mideleg s) val) s).

(** The Sv57 mode is disabled (NO_SATP_MODE_SV57). *)
Definition write_csr_satp (s : machine_state) (val : Z) : outcome (execute_status * machine_state) :=
  if (s_iprv s =? PRV_S) && negb ((s_mstatus s &ᵇ MSTATUS_TVM_MASK) =? 0) then Done (failure, s)
  else
    let old_satp := s_satp s in
    let mode := Z.shiftr val SATP_MODE_SHIFT in
    if (mode =? SATP_MODE_BARE) || (mode =? SATP_MODE_SV39) || (mode =? SATP_MODE_SV48) then
      let stap := (val &ᵇ SATP_PPN_MASK) |ᵇ (val &ᵇ SATP_ASID_MASK) |ᵇ (val &ᵇ SATP_MODE_MASK) in
      let s := assign upd_satp stap s in
      if changed (old_satp ^ᵇ stap) (SATP_ASID_MASK |ᵇ SATP_MODE_MASK)
      then s ← flush_all_tlb s; mret (success_and_flush_fetch, s)
      else Done (success, s)
    else Done (success, s).

Definition write_csr_menvcfg (s : machine_state) (val : Z) : outcome (execute_status * machine_state) :=
  Done (success, assign upd_menvcfg (write_masked (s_menvcfg s &ᵇ MENVCFG_R_MASK) MENVCFG_W_MASK val) s).
Definition write_csr_medeleg (s : machine_state) (val : Z) : outcome (execute_status * machine_state) :=
  Done (success, assign upd_medeleg (write_masked (s_medeleg s) MEDELEG_W_MASK val) s).

Definition SUPERVISOR_MASK : Z := MIP_SSIP_MASK |ᵇ MIP_STIP_MASK |ᵇ MIP_SEIP_MASK.

Definition write_csr_mideleg (s : machine_state) (val : Z) : outcome (execute_status * machine_state) :=
  Done (success_and_serve_interrupts, assign upd_mideleg (write_masked (s_mideleg s) SUPERVISOR_MASK val) s).
Definition write_csr_mie (s : machine_state) (val : Z) : outcome (execute_status * machine_state) :=
  let mask := MIP_MSIP_MASK |ᵇ MIP_MTIP_MASK |ᵇ MIP_MEIP_MASK |ᵇ MIP_SSIP_MASK |ᵇ MIP_STIP_MASK |ᵇ MIP_SEIP_MASK in
  Done (success_and_serve_interrupts, assign upd_mie (write_masked (s_mie s) mask val) s).
Definition write_csr_mtvec (s : machine_state) (val : Z) : outcome (execute_status * machine_state) :=
  Done (success, assign upd_mtvec (val &ᵇ not64 1) s).
Definition write_csr_mcounteren (s : machine_state) (val : Z) : outcome (execute_status * machine_state) :=
  Done (success, assign upd_mcounteren (val &ᵇ MCOUNTEREN_RW_MASK) s).
Definition write_csr_minstret (s : machine_state) (mcycle val : Z) : outcome (execute_status * machine_state) :=
  Done (success, assign upd_icycleinstret (uint64 (uint64 (mcycle + 1) - val)) s).
Definition write_csr_mcycle (s : machine_state) (val : Z) : outcome (execute_status * machine_state) := Done (failure, s).
Definition write_csr_mscratch (s : machine_state) (val : Z) : outcome (execute_status * machine_state) :=
  Done (success, assign upd_mscratch val s).
Definition write_csr_mepc (s : machine_state) (val : Z) : outcome (execute_status * machine_state) :=
  Done (success, assign upd_mepc (val &ᵇ not64 1) s).
Definition write_csr_mcause (s : machine_state) (val : Z) : outcome (execute_status * machine_state) :=
  Done (success, assign upd_mcause val s).
Definition write_csr_mtval (s : machine_state) (val : Z) : outcome (execute_status * machine_state) :=
  Done (success, assign upd_mtval val s).
Definition write_csr_mip (s : machine_state) (val : Z) : outcome (execute_status * machine_state) :=
  Done (success_and_serve_interrupts, assign upd_mip (write_masked (s_mip s) SUPERVISOR_MASK val) s).

Definition write_csr_fflags (s : machine_state) (val : Z) : outcome (execute_status * machine_state) :=
  if fs_off (s_mstatus s) then Done (failure, s)
  else Done (success, assign upd_fcsr ((s_fcsr s &ᵇ not64 FCSR_FFLAGS_RW_MASK)
    |ᵇ (uint64 (Z.shiftl val FCSR_FFLAGS_SHIFT) &ᵇ FCSR_FFLAGS_RW_MASK)) s).
Definition write_csr_frm (s : machine_state) (val : Z) : outcome (execute_status * machine_state) :=
  if fs_off (s_mstatus s) then Done (failure, s)
  else Done (success, assign upd_fcsr ((s_fcsr s &ᵇ not64 FCSR_FRM_RW_MASK)
    |ᵇ (uint64 (Z.shiftl val FCSR_FRM_SHIFT) &ᵇ FCSR_FRM_RW_MASK)) s).
Definition write_csr_fcsr (s : machine_state) (val : Z) : outcome (execute_status * machine_state) :=
  if fs_off (s_mstatus s) then Done (failure, s)
  else Done (success, assign upd_fcsr (val &ᵇ FCSR_RW_MASK) s).

(** The registers that ignore writes *)
Definition csr_ignores_writes (csraddr : Z) : bool :=
  (csraddr =? CSR_misa) || is_mhpm csraddr || (csraddr =? CSR_mcountinhibit) || within CSR_tselect CSR_tdata3 csraddr.

Definition write_csr (s : machine_state) (mcycle csraddr val : Z) : outcome (execute_status * machine_state) :=
  if csr_is_read_only csraddr then Done (failure, s)
  else if s_iprv s <? csr_prv csraddr then Done (failure, s)
  else if csraddr =? CSR_fflags then write_csr_fflags s val
  else if csraddr =? CSR_frm then write_csr_frm s val
  else if csraddr =? CSR_fcsr then write_csr_fcsr s val
  else if csraddr =? CSR_sstatus then write_csr_sstatus s val
  else if csraddr =? CSR_senvcfg then write_csr_senvcfg s val
  else if csraddr =? CSR_sie then write_csr_sie s val
  else if csraddr =? CSR_stvec then write_csr_stvec s val
  else if csraddr =? CSR_scounteren then write_csr_scounteren s val
  else if csraddr =? CSR_sscratch then write_csr_sscratch s val
  else if csraddr =? CSR_sepc then write_csr_sepc s val
  else if csraddr =? CSR_scause then write_csr_scause s val
  else if csraddr =? CSR_stval then write_csr_stval s val
  else if csraddr =? CSR_sip then write_csr_sip s val
  else if csraddr =? CSR_satp then write_csr_satp s val
  else if csraddr =? CSR_mstatus then write_csr_mstatus s val
  else if csraddr =? CSR_menvcfg then write_csr_menvcfg s val
  else if csraddr =? CSR_medeleg then write_csr_medeleg s val
  else if csraddr =? CSR_mideleg then write_csr_mideleg s val
  else if csraddr =? CSR_mie then write_csr_mie s val
  else if csraddr =? CSR_mtvec then write_csr_mtvec s val
  else if csraddr =? CSR_mcounteren then write_csr_mcounteren s val
  else if csraddr =? CSR_mscratch then write_csr_mscratch s val
  else if csraddr =? CSR_mepc then write_csr_mepc s val
  else if csraddr =? CSR_mcause then write_csr_mcause s val
  else if csraddr =? CSR_mtval then write_csr_mtval s val
  else if csraddr =? CSR_mip then write_csr_mip s val
  else if csraddr =? CSR_mcycle then write_csr_mcycle s val
  else if csraddr =? CSR_minstret then write_csr_minstret s mcycle val
  else if csr_ignores_writes csraddr then Done (success, s)
  else Done (failure, s).
