(* ===== verification/CsrInsns.v ===== *)
(** * Fields of instructions and instructions on CSRs (interpret.cpp)

    The fields the interpreter extracts from an instruction, a [uint32_t], with
    the unsigned or signed integers of the code; the Zicsr instructions, and the
    ones that have no operand: WFI, FENCE and FENCE.I. *)

From S2P Require Import Prelude CppInt Constants RiscvConstants MachineState DeviceAccess Clint Tlb Trap Csr.

(** A mask complemented as a [uint32_t] *)
Definition not32 (mask : Z) : Z := uint32 (Z.lnot mask).

(** The shifts [insn << n] and [static_cast<int32_t>(insn << n) >> m] *)
Definition shl32 (insn n : Z) : Z := uint32 (Z.shiftl insn n).
Definition sra32 (insn n m : Z) : Z := Z.shiftr (int32 (shl32 insn n)) m.

Definition insn_get_id (insn : Z) : Z := insn &ᵇ 0xffff.
Definition insn_get_funct3_000000000000 (insn : Z) : Z := insn &ᵇ 0x7000.
Definition insn_get_funct2_0000000000000000000000000 (insn : Z) : Z := insn &ᵇ 0x6000000.
Definition insn_get_rd (insn : Z) : Z := Z.shiftr insn 7 &ᵇ 0x1f.
Definition insn_get_rs1 (insn : Z) : Z := Z.shiftr insn 15 &ᵇ 0x1f.
Definition insn_get_rs2 (insn : Z) : Z := Z.shiftr insn 20 &ᵇ 0x1f.
Definition insn_I_get_imm (insn : Z) : Z := Z.shiftr (int32 insn) 20.
Definition insn_I_get_uimm (insn : Z) : Z := Z.shiftr insn 20.
Definition insn_U_get_imm (insn : Z) : Z := int32 (insn &ᵇ 0xfffff000).
Definition insn_B_get_imm (insn : Z) : Z :=
  int32 (shl32 (uint32 (Z.shiftr (int32 insn) 31)) 12
    |ᵇ shl32 (Z.shiftr (shl32 insn 1) 26) 5
    |ᵇ shl32 (Z.shiftr (shl32 insn 20) 28) 1
    |ᵇ shl32 (Z.shiftr (shl32 insn 24) 31) 11).
Definition insn_J_get_imm (insn : Z) : Z :=
  int32 (shl32 (uint32 (Z.shiftr (int32 insn) 31)) 20
    |ᵇ shl32 (Z.shiftr (shl32 insn 1) 22) 1
    |ᵇ shl32 (Z.shiftr (shl32 insn 11) 31) 11
    |ᵇ shl32 (Z.shiftr (shl32 insn 12) 24) 12).
Definition insn_S_get_imm (insn : Z) : Z :=
  Z.shiftr (int32 (insn &ᵇ 0xfe000000)) (25 - 5) |ᵇ int32 (Z.shiftr insn 7 &ᵇ 0x1f).
Definition insn_get_funct7_sr2 (insn : Z) : Z := Z.shiftr insn 27.
Definition insn_get_funct7_sr1 (insn : Z) : Z := Z.shiftr insn 26.
Definition insn_get_funct7 (insn : Z) : Z := Z.shiftr insn 25.
Definition insn_get_funct7_rs2 (insn : Z) : Z := Z.shiftr insn 20.
Definition insn_get_funct3 (insn : Z) : Z := Z.shiftr insn 12 &ᵇ 7.
Definition insn_get_rm (insn fcsr : Z) : Z :=
  let rm := insn_get_funct3 insn in
  if rm =? FRM_DYN then Z.shiftr fcsr FCSR_FRM_SHIFT else rm.
Definition insn_get_rs3 (insn : Z) : Z := Z.shiftr insn 27.

(** ** Compressed instructions *)

Definition insn_get_CIW_CL_rd_CS_CA_rs2 (insn : Z) : Z := (Z.shiftr insn 2 &ᵇ 7) |ᵇ 8.
Definition insn_get_CL_CS_CA_CB_rs1 (insn : Z) : Z := (Z.shiftr insn 7 &ᵇ 7) |ᵇ 8.
Definition insn_get_CR_CSS_rs2 (insn : Z) : Z := Z.shiftr insn 2 &ᵇ 0x1f.
Definition insn_get_C_J_imm (insn : Z) : Z :=
  int32 ((uint32 (sra32 insn 19 20) &ᵇ not32 0x7ff)
    |ᵇ (Z.shiftr insn (11 - 4) &ᵇ 0x10)
    |ᵇ (Z.shiftr insn (9 - 8) &ᵇ 0x300)
    |ᵇ (shl32 insn (10 - 8) &ᵇ 0x400)
    |ᵇ (Z.shiftr insn (7 - 6) &ᵇ 0x40)
    |ᵇ (shl32 insn (7 - 6) &ᵇ 0x80)
    |ᵇ (Z.shiftr insn (3 - 1) &ᵇ 0xe)
    |ᵇ (shl32 insn (5 - 2) &ᵇ 0x20)).
Definition insn_get_C_BEQZ_BNEZ_imm (insn : Z) : Z :=
  int32 ((uint32 (sra32 insn 19 23) &ᵇ not32 0xff)
    |ᵇ (Z.shiftr insn 7 &ᵇ 0x18)
    |ᵇ (shl32 insn 1 &ᵇ 0xc0)
    |ᵇ (Z.shiftr insn 2 &ᵇ 6)
    |ᵇ (shl32 insn 3 &ᵇ 0x20)).
Definition insn_get_CL_CS_imm (insn : Z) : Z :=
  int32 ((Z.shiftr insn (10 - 3) &ᵇ 0x38) |ᵇ (shl32 insn (6 - 5) &ᵇ 0xc0)).
Definition insn_get_CI_CB_imm (insn : Z) : Z := (Z.shiftr insn (12 - 5) &ᵇ 0x20) |ᵇ (Z.shiftr insn 2 &ᵇ 0x1f).
Definition insn_get_CI_CB_imm_se (insn : Z) : Z :=
  int32 ((uint32 (sra32 insn 19 26) &ᵇ not32 0x1f) |ᵇ (Z.shiftr insn 2 &ᵇ 0x1f)).
Definition insn_get_C_LW_C_SW_imm (insn : Z) : Z :=
  int32 ((Z.shiftr insn (10 - 3) &ᵇ 0x38) |ᵇ (Z.shiftr insn (6 - 2) &ᵇ 4) |ᵇ (shl32 insn (6 - 5) &ᵇ 0x40)).
Definition insn_get_CIW_imm (insn : Z) : Z :=
  (Z.shiftr insn (11 - 4) &ᵇ 0x30) |ᵇ (Z.shiftr insn (7 - 6) &ᵇ 0x3c0) |ᵇ (Z.shiftr insn (6 - 2) &ᵇ 4)
  |ᵇ (Z.shiftr insn (5 - 3) &ᵇ 8).
Definition insn_get_C_ADDI16SP_imm (insn : Z) : Z :=
  int32 ((uint32 (sra32 insn 19 22) &ᵇ not32 0x1ff)
    |ᵇ (Z.shiftr insn 2 &ᵇ 0x10)
    |ᵇ (shl32 insn 1 &ᵇ 0x40)
    |ᵇ (shl32 insn 4 &ᵇ 0x180)
    |ᵇ (shl32 insn 3 &ᵇ 0x20)).
Definition insn_get_C_LUI_imm (insn : Z) : Z :=
  int32 ((uint32 (sra32 insn 19 14) &ᵇ not32 0x1ffff) |ᵇ (shl32 insn 10 &ᵇ 0x1f000)).
Definition insn_get_C_FLDSP_LDSP_imm (insn : Z) : Z :=
  int32 ((Z.shiftr insn (12 - 5) &ᵇ 0x20) |ᵇ (shl32 insn (6 - 2) &ᵇ 0x1c0) |ᵇ (Z.shiftr insn (5 - 3) &ᵇ 0x18)).
Definition insn_get_C_LWSP_imm (insn : Z) : Z :=
  int32 ((Z.shiftr insn (12 - 5) &ᵇ 0x20) |ᵇ (shl32 insn (6 - 2) &ᵇ 0xc0) |ᵇ (Z.shiftr insn (4 - 2) &ᵇ 0x1c)).
Definition insn_get_C_FSDSP_SDSP_imm (insn : Z) : Z :=
  int32 ((Z.shiftr insn (10 - 3) &ᵇ 0x38) |ᵇ (Z.shiftr insn (7 - 6) &ᵇ 0x1c0)).
Definition insn_get_C_SWSP_imm (insn : Z) : Z :=
  int32 ((Z.shiftr insn (9 - 2) &ᵇ 0x3c) |ᵇ (Z.shiftr insn (7 - 6) &ᵇ 0xc0)).

(** ** Registers (state-access.h) *)

Definition read_x (s : machine_state) (reg : Z) : Z := nth (Z.to_nat reg) (s_x s) 0.

Definition write_x (s : machine_state) (reg val : Z) : outcome machine_state :=
  throw_if (reg =? 0) (assertion_failure "reg != 0") ≫= fun _ =>
  mret (assign_at upd_x (Z.to_nat reg) val s).

(** The result goes to [rd] unless it is [x0]. *)
Definition write_rd (s : machine_state) (pc insn val size : Z) (status : execute_status) :
    outcome (execute_status * Z * machine_state) :=
  let rd := insn_get_rd insn in
  if rd =? 0 then advance_to_next_insn s pc size status
  else s ← write_x s rd val; advance_to_next_insn s pc size status.

(** ** Zicsr *)

Definition execute_csr_RW (rs1val : machine_state -> Z -> Z) (s : machine_state) (pc mcycle insn : Z) :
    outcome (execute_status * Z * machine_state) :=
  let csraddr := insn_I_get_uimm insn in
  let rd := insn_get_rd insn in
  match (if negb (rd =? 0) then read_csr s mcycle csraddr else Some 0) with
  | None => raise_illegal_insn_exception s pc insn
  | Some csrval =>
      '(wstatus, s) ← write_csr s mcycle csraddr (rs1val s insn);
      if bool_decide (wstatus = failure) then raise_illegal_insn_exception s pc insn
      else write_rd s pc insn csrval 4 wstatus
  end.

Definition execute_CSRRW := execute_csr_RW (fun s insn => read_x s (insn_get_rs1 insn)).
Definition execute_CSRRWI := execute_csr_RW (fun _ insn => insn_get_rs1 insn).

Definition execute_csr_SC (f : Z -> Z -> Z) (s : machine_state) (pc mcycle insn : Z) :
    outcome (execute_status * Z * machine_state) :=
  let csraddr := insn_I_get_uimm insn in
  match read_csr s mcycle csraddr with
  | None => raise_illegal_insn_exception s pc insn
  | Some csrval =>
      let rs1 := insn_get_rs1 insn in
      let rs1val := read_x s rs1 in
      '(wstatus, s) ← (if negb (rs1 =? 0) then write_csr s mcycle csraddr (f csrval rs1val) else mret (success, s));
      if bool_decide (wstatus = failure) then raise_illegal_insn_exception s pc insn
      else write_rd s pc insn csrval 4 wstatus
  end.

Definition execute_CSRRS := execute_csr_SC (fun csr rs1 => csr |ᵇ rs1).
Definition execute_CSRRC := execute_csr_SC (fun csr rs1 => csr &ᵇ not64 rs1).

(** [f] takes the immediate as a [uint32_t]. *)
Definition execute_csr_SCI (f : Z -> Z -> Z) (s : machine_state) (pc mcycle insn : Z) :
    outcome (execute_status * Z * machine_state) :=
  let csraddr := insn_I_get_uimm insn in
  match read_csr s mcycle csraddr with
  | None => raise_illegal_insn_exception s pc insn
  | Some csrval =>
      let rs1 := insn_get_rs1 insn in
      '(wstatus, s) ← (if negb (rs1 =? 0) then write_csr s mcycle csraddr (f csrval rs1) else mret (success, s));
      if bool_decide (wstatus = failure) then raise_illegal_insn_exception s pc insn
      else write_rd s pc insn csrval 4 wstatus
  end.

Definition execute_CSRRSI := execute_csr_SCI (fun csr rs1 => csr |ᵇ rs1).
Definition execute_CSRRCI := execute_csr_SCI (fun csr rs1 => csr &ᵇ not32 rs1).
