(* ===== verification/TranslateVirtualAddress.v ===== *)
(** * Address translation (translate-virtual-address.h, find-pma-entry.h)

    The walk of the page tables of the Sv39 and Sv48 modes, with the access to
    physical memory through the map of the machine (state-access.h).

    The second part is what the walk relies on: a load of a word from the map of
    the machine returns the little-endian word of the range that holds it, and a
    store changes that word and no other. *)

From S2P Require Import Prelude CppInt Constants RiscvConstants UarchAccess Bytes RV64IM UarchStepSpec Pma PmaSpec MachineState UarchBridge UarchBridgeSpec UarchState UarchStateSpec.

(** ** Physical memory *)

(** The search of find-pma-entry.h for a word of [size] bytes: the first entry
    that holds it, or the sentinel; [None] when it runs past the end of a map
    without one *)
Fixpoint find_pma_index (pmas : list pma_entry) (i : nat) (paddr size : Z) : option nat :=
  match pmas with
  | [] => None
  | pma :: pmas =>
      if m_length pma =? 0 then Some i
      else if (m_start pma <=? paddr) && (uint64 (paddr - m_start pma) <=? uint64 (m_length pma - size)) then Some i
      else find_pma_index pmas (S i) paddr size
  end.

Definition find_pma_entry_sized (s : machine_state) (size paddr : Z) : outcome (nat * pma_entry) :=
  match find_pma_index (s_pmas s) 0 paddr size with
  | Some i => match s_pmas s !! i with Some pma => Done (i, pma) | None => Exn past_the_map end
  | None => Exn past_the_map
  end.

(** The offset of [paddr] from the host memory is that from the start of the
    range: [hpage + hoffset]. *)
Definition read_ram_uint64 (s : machine_state) (paddr : Z) : outcome (option Z) :=
  '(_, pma) ← find_pma_entry_sized s 8 paddr;
  if negb (get_istart_M pma) || negb (flag_R (m_flags pma)) then mret None
  else v ← aliased_aligned_read pma (uint64 (paddr - m_start pma)); mret (Some v).

Definition write_ram_uint64 (s : machine_state) (paddr val : Z) : outcome (bool * machine_state) :=
  '(i, pma) ← find_pma_entry_sized s 8 paddr;
  if negb (get_istart_M pma) || negb (flag_W (m_flags pma)) then mret (false, s)
  else
    pma ← aliased_aligned_write pma (uint64 (paddr - m_start pma)) val;
    pma ← mark_dirty_page pma (uint64 (paddr - m_start pma));
    mret (true, upd_pmas (fun l => <[i := pma]> l) s).

(** ** The walk *)

(** Whether the privilege mode may not use the page *)
Definition privilege_fault (prv mstatus pte xwr_shift : Z) : bool :=
  if prv =? PRV_S then
    if negb ((pte &ᵇ PTE_U_MASK) =? 0) then
      if xwr_shift =? PTE_XWR_X_SHIFT then true else (mstatus &ᵇ MSTATUS_SUM_MASK) =? 0
    else false
  else (pte &ᵇ PTE_U_MASK) =? 0.

(** The entry with its accessed and dirty bits set *)
Definition update_access_bits (pte xwr_shift : Z) : Z :=
  let update_pte := pte |ᵇ PTE_A_MASK in
  if xwr_shift =? PTE_XWR_W_SHIFT then update_pte |ᵇ PTE_D_MASK else update_pte.

(** The end of the walk, at an entry with protection bits: the physical address,
    or [None] for a fault *)
Definition translate_leaf (UPDATE_PTE : bool) (s : machine_state)
    (prv mstatus vaddr xwr_shift pte pte_addr ppn xwr vaddr_shift : Z) : outcome (option Z * machine_state) :=
  if (xwr =? PTE_XWR_W_MASK) || (xwr =? PTE_XWR_W_MASK |ᵇ PTE_XWR_X_MASK) then mret (None, s)
  else if privilege_fault prv mstatus pte xwr_shift then mret (None, s)
  else
    let xwr := if negb ((mstatus &ᵇ MSTATUS_MXR_MASK) =? 0) then xwr |ᵇ Z.shiftr xwr PTE_XWR_X_SHIFT else xwr in
    if (Z.shiftr xwr xwr_shift &ᵇ 1) =? 0 then mret (None, s)
    else
      let vaddr_mask := uint64 (uint64 (Z.shiftl 1 vaddr_shift) - 1) in
      if negb ((ppn &ᵇ vaddr_mask) =? 0) then mret (None, s)
      else
        s ← (if UPDATE_PTE then
               let update_pte := update_access_bits pte xwr_shift in
               if negb (pte =? update_pte) then snd <$> write_ram_uint64 s pte_addr update_pte else mret s
             else mret s);
        mret (Some ((vaddr &ᵇ vaddr_mask) |ᵇ (ppn &ᵇ uint64 (Z.lnot vaddr_mask))), s).

(** The loop, with [n] levels left *)
Fixpoint walk (UPDATE_PTE : bool) (n : nat) (s : machine_state) (prv mstatus vaddr xwr_shift pte_addr : Z) :
    outcome (option Z * machine_state) :=
  match n with
  | O => mret (None, s)
  | S n =>
      let vaddr_shift := LOG2_PAGE_SIZE + LOG2_VPN_SIZE * Z.of_nat n in
      let vpn := Z.shiftr vaddr vaddr_shift &ᵇ VPN_MASK in
      let pte_addr := uint64 (pte_addr + uint64 (Z.shiftl vpn LOG2_PTE_SIZE)) in
      pte ← read_ram_uint64 s pte_addr;
      match pte with
      | None => mret (None, s)
      | Some pte =>
          if (pte &ᵇ PTE_V_MASK) =? 0 then mret (None, s)
          else if negb ((pte &ᵇ (PTE_60_54_MASK |ᵇ PTE_PBMT_MASK |ᵇ PTE_N_MASK)) =? 0) then mret (None, s)
          else
            let ppn := uint64 (Z.shiftl (pte &ᵇ PTE_PPN_MASK) (LOG2_PAGE_SIZE - PTE_PPN_SHIFT)) in
            let xwr := Z.shiftr pte PTE_R_SHIFT &ᵇ (PTE_XWR_R_MASK |ᵇ PTE_XWR_W_MASK |ᵇ PTE_XWR_X_MASK) in
            if negb (xwr =? 0) then
              translate_leaf UPDATE_PTE s prv mstatus vaddr xwr_shift pte pte_addr ppn xwr vaddr_shift
            else walk UPDATE_PTE n s prv mstatus vaddr xwr_shift ppn
      end
  end.

(** The effective privilege: data accesses use MPP while MPRV is set. *)
Definition effective_prv (s : machine_state) (xwr_shift : Z) : Z :=
  if negb (xwr_shift =? PTE_XWR_X_SHIFT) && negb ((s_mstatus s &ᵇ MSTATUS_MPRV_MASK) =? 0)
  then Z.shiftr (s_mstatus s &ᵇ MSTATUS_MPP_MASK) MSTATUS_MPP_SHIFT
  else s_iprv s.

(** The Sv57 mode is disabled (NO_SATP_MODE_SV57). *)
Definition translate_virtual_address (UPDATE_PTE : bool) (s : machine_state) (vaddr xwr_shift : Z) :
    outcome (option Z * machine_state) :=
  let prv := effective_prv s xwr_shift in
  let mstatus := s_mstatus s in
  if PRV_S <? prv then mret (Some vaddr, s)
  else
    let satp := s_satp s in
    let mode := Z.shiftr satp SATP_MODE_SHIFT in
    if mode =? SATP_MODE_BARE then mret (Some vaddr, s)
    else if (mode =? SATP_MODE_SV39) || (mode =? SATP_MODE_SV48) then
      let levels := int32 (uint64 (mode - SATP_MODE_SV39)) + 3 in
      let vaddr_bits := XLEN - (LOG2_PAGE_SIZE + levels * LOG2_VPN_SIZE) in
      if negb (Z.shiftr (int64 (uint64 (Z.shiftl vaddr vaddr_bits))) vaddr_bits =? int64 vaddr) then mret (None, s)
      else
        walk UPDATE_PTE (Z.to_nat levels) s prv mstatus vaddr xwr_shift
          (uint64 (Z.shiftl (satp &ᵇ SATP_PPN_MASK) LOG2_PAGE_SIZE))
    else mret (None, s).

(** ** Valid maps *)

(** An entry of the map: the sentinel, or a range of whole pages that does not
    wrap around. *)
Record range_ok (p : pma_entry) : Prop := {
  rg_memory : get_istart_M p = true -> memory_ok p;
  rg_start : is_uint 64 (m_start p);
  rg_aligned : m_start p `mod` PMA_PAGE_SIZE = 0;
  rg_pages : m_length p `mod` PMA_PAGE_SIZE = 0;
  rg_length : 0 <= m_length p < 2 ^ 64;
}.

Record map_ok (l : list pma_entry) : Prop := {
  map_ranges : Forall range_ok l;
  map_sentinel : Exists (fun p => m_length p = 0) l;
}.

(** ** Specification *)

Definition holds (a : Z) (p : pma_entry) : Prop :=
  m_length p = 0 \/ (m_start p <= a < m_start p + m_length p).

(** The sizes of words, and addresses aligned to them *)
Definition word_size (size : Z) : Prop := size = 1 \/ size = 2 \/ size = 4 \/ size = 8.

#[export] Instance holds_dec a p : Decision (holds a p).
Proof. unfold holds. apply _. Defined.

(** The entry an address belongs to, and its position *)
Definition range_of (l : list pma_entry) (a : Z) : option (nat * pma_entry) := list_find (holds a) l.

Definition loadable (p : pma_entry) : bool := get_istart_M p && flag_R (m_flags p).
Definition storable (p : pma_entry) : bool := get_istart_M p && flag_W (m_flags p).

Definition word_of (p : pma_entry) (a : Z) : Z := le_val (slice (a - m_start p) 8 (host p)).

Definition phys_load (l : list pma_entry) (a : Z) : option Z :=
  '(_, p) ← range_of l a; if loadable p then Some (word_of p a) else None.

Definition phys_storable (l : list pma_entry) (a : Z) : bool :=
  match range_of l a with Some (_, p) => storable p | None => false end.

(** [l'] is [l] after a store of [v] at [a]. *)
Record stored (l : list pma_entry) (a v : Z) (l' : list pma_entry) : Prop := {
  st_map : map_ok l';
  st_word : phys_load l' a = Some v;
  st_frame : forall b, is_uint 64 b -> b `mod` 8 = 0 -> b <> a -> phys_load l' b = phys_load l b;
  st_storable : forall b, phys_storable l' b = phys_storable l b;
}.

(** ** The search *)

(** A word that starts in a range of pages and is aligned lies in it. *)
Lemma aligned_end p a size :
  range_ok p -> word_size size -> a `mod` size = 0 -> m_start p <= a < m_start p + m_length p ->
  a + size <= m_start p + m_length p.
Proof.
  intros [_ _ H1 H2 _] Hsz Ha Hin. change PMA_PAGE_SIZE with 4096 in *.
  destruct Hsz as [->|[->|[->| ->]]]; Z.div_mod_to_equations; lia.
Qed.

Lemma holds_code p a size :
  range_ok p -> is_uint 64 a -> word_size size -> a `mod` size = 0 -> m_length p <> 0 ->
  (m_start p <=? a) && (uint64 (a - m_start p) <=? uint64 (m_length p - size)) = bool_decide (holds a p).
Proof.
  intros Hp Ha Hsz Hal Hz. pose proof (aligned_end p a size Hp Hsz Hal) as He. destruct Hp as [_ Hs _ Hl Hlen].
  unfold holds, is_uint in *. assert (size <= m_length p) as Hsl.
  { change PMA_PAGE_SIZE with 4096 in *. destruct Hsz as [->|[->|[->| ->]]]; Z.div_mod_to_equations; lia. }
  assert (0 < size) by (destruct Hsz as [->|[->|[->| ->]]]; lia).
  rewrite (uint_id 64 (m_length p - size)) by (unfold is_uint; lia).
  destruct (Z.leb_spec (m_start p) a); cbn [andb].
  - rewrite (uint_id 64 (a - m_start p)) by (unfold is_uint; lia).
    case_bool_decide; [apply Z.leb_le|apply Z.leb_gt]; lia.
  - symmetry. apply bool_decide_eq_false. lia.
Qed.

Lemma find_pma_index_spec l j a size :
  Forall range_ok l -> is_uint 64 a -> word_size size -> a `mod` size = 0 ->
  find_pma_index l j a size = (fun ip => (j + fst ip)%nat) <$> range_of l a.
Proof.
  intros Hl Ha Hsz Hal. unfold range_of. revert j. induction Hl as [|p l Hp Hl IH]; intros j; [done|].
  cbn [find_pma_index list_find]. destruct (Z.eqb_spec (m_length p) 0) as [Hz|Hz].
  - rewrite decide_True by by left. cbn. by rewrite Nat.add_0_r.
  - rewrite holds_code by done. case_bool_decide; case_decide; try done.
    + cbn. by rewrite Nat.add_0_r.
    + rewrite IH. destruct (list_find _ l) as [[i q]|]; cbn; [|done]. f_equal. lia.
Qed.

Lemma range_of_some l a : map_ok l -> exists i p, range_of l a = Some (i, p) /\ l !! i = Some p /\ range_ok p /\ holds a p.
Proof.
  intros [Hl Hs]. apply Exists_exists in Hs as (p & Hp & Hz).
  destruct (list_find_elem_of (holds a) l p Hp) as [[i q] Hi]; [by left|].
  exists i, q. unfold range_of. rewrite Hi. apply list_find_Some in Hi as (Hi & Hh & _).
  split; [done|]. split; [done|]. split; [|done]. by eapply Forall_lookup_1.
Qed.

Lemma find_pma_entry_spec s a size i p :
  map_ok (s_pmas s) -> is_uint 64 a -> word_size size -> a `mod` size = 0 -> range_of (s_pmas s) a = Some (i, p) ->
  find_pma_entry_sized s size a = Done (i, p).
Proof.
  intros Hs Ha Hsz Hal E. unfold find_pma_entry_sized. rewrite find_pma_index_spec, E by (apply Hs || done). cbn.
  apply list_find_Some in E as (-> & _). done.
Qed.

(** A memory range is not the sentinel, so it holds the whole word. *)
Lemma held_word p a size :
  range_ok p -> holds a p -> get_istart_M p = true -> is_uint 64 a -> word_size size -> a `mod` size = 0 ->
  memory_ok p /\ 0 <= a - m_start p <= m_length p - size /\ uint64 (a - m_start p) = a - m_start p /\
  (a - m_start p) `mod` size = 0 /\ contains p a size = true.
Proof.
  intros Hr Hh Hm Ha Hsz Hal. pose proof (rg_memory _ Hr Hm) as HM. pose proof (ok_wf _ HM) as Hwf.
  pose proof (wf_length p Hwf). pose proof (wf_end p Hwf). pose proof (rg_start _ Hr) as Hs.
  destruct Hh as [|Hh]; [lia|]. pose proof (aligned_end p a size Hr Hsz Hal Hh) as He. unfold is_uint in *.
  assert (0 < size <= 8) by (destruct Hsz as [->|[->|[->| ->]]]; lia).
  split; [done|]. split; [lia|]. split; [apply uint_id; unfold is_uint; lia|]. split.
  - pose proof (rg_aligned _ Hr) as Hst. change PMA_PAGE_SIZE with 4096 in Hst. clear - Hsz Hal Hst.
    destruct Hsz as [->|[->|[->| ->]]]; Z.div_mod_to_equations; lia.
  - rewrite contains_spec by (done || (unfold is_uint; lia)). apply bool_decide_eq_true. lia.
Qed.

Lemma word_size_8 : word_size 8.
Proof. unfold word_size. tauto. Qed.
#[local] Hint Resolve word_size_8 : core.

(** ** Loads and stores *)

Lemma read_ram_uint64_spec s a :
  map_ok (s_pmas s) -> is_uint 64 a -> a `mod` 8 = 0 ->
  read_ram_uint64 s a = Done (phys_load (s_pmas s) a).
Proof.
  intros Hs Ha Ha8. destruct (range_of_some _ a Hs) as (i & p & E & _ & Hp & Hh).
  unfold read_ram_uint64, phys_load. rewrite (find_pma_entry_spec s a 8 i p), E by done. cbn. unfold loadable.
  destruct (get_istart_M p) eqn:HM; [|done]. destruct (flag_R (m_flags p)); [|done]. cbn.
  destruct (held_word p a 8 Hp Hh HM Ha word_size_8 Ha8) as (Hok & _ & -> & Hal & _).
  rewrite aliased_read_spec by apply Hok. by rewrite Hal.
Qed.

Lemma phys_load_range s a v : map_ok (s_pmas s) -> phys_load (s_pmas s) a = Some v -> is_uint 64 v.
Proof.
  intros Hs. destruct (range_of_some _ a Hs) as (i & p & E & _ & Hp & Hh). unfold phys_load. rewrite E. cbn.
  unfold loadable. destruct (get_istart_M p) eqn:HM; [|done]. destruct (flag_R _); [|done]. intros [= <-].
  apply slice_word_range, (ok_bytes _ (rg_memory _ Hp HM)).
Qed.

(** Replacing an entry by one of the same shape *)
Lemma range_of_insert l i p p' a :
  l !! i = Some p -> same_shape p p' ->
  range_of (<[i := p']> l) a = (fun jq => (jq.1, if decide (jq.1 = i) then p' else jq.2)) <$> range_of l a.
Proof.
  intros Hi Hp. unfold range_of. revert i Hi. induction l as [|q l IH]; intros [|i] Hi; cbn in *; try done.
  - injection Hi as ->. destruct Hp as (_ & _ & _ & Hs & Hl & _).
    assert (holds a p' <-> holds a p) as Hh by (unfold holds; by rewrite Hs, Hl).
    repeat case_decide; try tauto; try done. by destruct (list_find _ l) as [[]|].
  - case_decide; [done|]. rewrite IH by done. destruct (list_find _ l) as [[j r]|]; cbn; [|done].
    repeat case_decide; done || lia.
Qed.

Lemma map_ok_insert l i p p' : map_ok l -> l !! i = Some p -> same_shape p p' -> memory_ok p' -> map_ok (<[i := p']> l).
Proof.
  intros [Hl Hs] Hi Hp Hok. pose proof Hp as (HM & _ & _ & Hst & Hln & _). split.
  - apply Forall_insert; [done|]. destruct (Forall_lookup_1 _ _ _ _ Hl Hi) as [_ H1 H2 H3 H4].
    split; rewrite ?Hst, ?Hln; done.
  - apply Exists_exists in Hs as (q & [j Hj]%list_elem_of_lookup & Hz). apply Exists_exists.
    destruct (decide (i = j)) as [->|].
    + pose proof (wf_length p' (ok_wf _ Hok)). rewrite Hi in Hj. injection Hj as ->. lia.
    + exists q. split; [|done]. apply list_elem_of_lookup. exists j. by rewrite list_lookup_insert_ne.
Qed.

Lemma stored_insert l i p p' a v :
  map_ok l -> is_uint 64 a -> a `mod` 8 = 0 -> is_uint 64 v ->
  range_of l a = Some (i, p) -> storable p = true -> memory_ok p' -> same_shape p p' ->
  host p' = splice (Z.to_nat (uint64 (a - m_start p))) (le_bytes 8 v) (host p) ->
  stored l a v (<[i := p']> l).
Proof.
  intros Hl Ha Ha8 Hv E Hw Hok' Hp Hh. pose proof E as (Hi & Hha & _)%list_find_Some.
  unfold storable in Hw. apply andb_prop in Hw as [HM HW].
  pose proof (Forall_lookup_1 _ _ _ _ (map_ranges _ Hl) Hi) as Hr.
  destruct (held_word p a 8 Hr Hha HM Ha word_size_8 Ha8) as (Hok & Ho & Hu & Hal & Hc).
  pose proof Hp as (HM' & _ & _ & Hst & _ & Hfl).
  assert (loadable p' = true /\ loadable p = true) as [HR' HR].
  { unfold loadable. rewrite HM', HM, Hfl. by rewrite ok_flags. }
  split.
  - by eapply map_ok_insert.
  - unfold phys_load. rewrite (range_of_insert _ _ _ _ _ Hi Hp), E. cbn. rewrite decide_True by done.
    rewrite HR'. f_equal. unfold word_of. rewrite Hst, <- Hu. by eapply read_stored_word.
  - intros b Hb Hb8 Hne. unfold phys_load. rewrite (range_of_insert _ _ _ _ _ Hi Hp).
    destruct (range_of l b) as [[j q]|] eqn:Eb; [|done]. cbn. case_decide as Hj; [|done]. subst j.
    apply list_find_Some in Eb as (Hq & Hhb & _). rewrite Hi in Hq. injection Hq as <-.
    destruct (held_word p b 8 Hr Hhb HM Hb word_size_8 Hb8) as (_ & _ & Hub & Halb & Hcb).
    rewrite HR, HR'. f_equal. unfold word_of. rewrite Hst, <- Hub. f_equal.
    eapply (read_other_word p p' a b v); try done; rewrite ?Hu, ?Hub; done || lia.
  - intros b. unfold phys_storable. rewrite (range_of_insert _ _ _ _ _ Hi Hp).
    destruct (range_of l b) as [[j q]|] eqn:Eb; [|done]. cbn. case_decide as Hj; [|done]. subst j.
    apply list_find_Some in Eb as (Hq & _). rewrite Hi in Hq. injection Hq as <-. unfold storable.
    by rewrite HM', Hfl.
Qed.

(** A store replaces the entries of the map and keeps the registers. *)
Lemma write_ram_uint64_spec s a v :
  map_ok (s_pmas s) -> is_uint 64 a -> a `mod` 8 = 0 -> is_uint 64 v ->
  if phys_storable (s_pmas s) a
  then exists l, write_ram_uint64 s a v = Done (true, upd_pmas (fun _ => l) s) /\ stored (s_pmas s) a v l
  else write_ram_uint64 s a v = Done (false, s).
Proof.
  intros Hs Ha Ha8 Hv. destruct (range_of_some _ a Hs) as (i & p & E & Hi & Hp & Hh).
  unfold phys_storable, write_ram_uint64. rewrite (find_pma_entry_spec s a 8 i p), E by done. cbn [mbind outcome_bind].
  destruct (storable p) eqn:Hw; unfold storable in Hw.
  2: { destruct (get_istart_M p), (flag_W _); done. }
  pose proof Hw as [HM HW]%andb_prop. rewrite HM, HW. cbn [negb orb].
  destruct (held_word p a 8 Hp Hh HM Ha word_size_8 Ha8) as (Hok & Ho & Hu & Hal & Hc). pose proof (ok_wf _ Hok) as Hwf.
  pose proof (store_word_spec p a (uint64 (a - m_start p)) v) as Hst.
  assert (exists p1, aliased_aligned_write p (uint64 (a - m_start p)) v = Done p1 /\ memory_wf p1 /\ m_length p1 = m_length p)
    as (p1 & Hp1 & Hwf1 & Hl1).
  { unfold aliased_aligned_write. rewrite Hu, Hal. cbn. destruct (get_memory_host p Hwf) as (m & -> & Hm). cbn.
    eexists. split; [done|]. split; [|done]. apply set_host_memory_wf; [done|]. pose proof (wf_host p Hwf).
    rewrite length_splice, Hm; [done|]. rewrite length_le_bytes, Hm. lia. }
  rewrite Hp1. cbn [mbind outcome_bind].
  replace (m_start p1) with (m_start p).
  2: { unfold aliased_aligned_write in Hp1. invert_outcome. by subst. }
  destruct (mark_dirty_page_spec p1 (uint64 (a - m_start p)) Hwf1) as (p2 & Hp2 & _ & _); [lia|].
  rewrite Hp2. cbn. destruct (Hst p1 p2 Hok Hc Hp1 Hp2) as (Hok2 & Hsh & Hhost & _).
  exists (<[i := p2]> (s_pmas s)). split; [done|]. by eapply stored_insert.
Qed.
