(* ===== verification/TranslateSpec.v ===== *)
(** * Correctness of the address translation

    The translation of a virtual address as the privileged architecture
    describes it, in terms of the fields of the page table entries and over a
    function that loads words, and the proof that the walk of the code computes
    it, sets the accessed and dirty bits and changes nothing else. *)

From S2P Require Import Prelude CppInt Constants RiscvConstants UarchAccess Bytes RV64IM UarchStepSpec Pma PmaSpec MachineState UarchBridge UarchBridgeSpec UarchState UarchStateSpec TranslateVirtualAddress.

(** ** Specification *)

Inductive access_mode := load | store | fetch.

#[export] Instance access_mode_eq_dec : EqDecision access_mode.
Proof. solve_decision. Defined.

(** The argument [xwr_shift] that stands for an access *)
Definition shift_of (acc : access_mode) : Z :=
  match acc with load => PTE_XWR_R_SHIFT | store => PTE_XWR_W_SHIFT | fetch => PTE_XWR_X_SHIFT end.

(** The fields of a page table entry *)
Definition pte_V (pte : Z) : bool := Z.testbit pte 0.
Definition pte_R (pte : Z) : bool := Z.testbit pte 1.
Definition pte_W (pte : Z) : bool := Z.testbit pte 2.
Definition pte_X (pte : Z) : bool := Z.testbit pte 3.
Definition pte_U (pte : Z) : bool := Z.testbit pte 4.
Definition pte_ppn (pte : Z) : Z := (pte `div` 2 ^ 10) `mod` 2 ^ 44.
Definition pte_reserved (pte : Z) : Z := pte `div` 2 ^ 54.
Definition pte_leaf (pte : Z) : bool := pte_R pte || pte_W pte || pte_X pte.

(** The translation in force: a data access uses the previous privilege while
    MPRV is set. *)
Record context := Context { cx_user : bool; cx_sum : bool; cx_mxr : bool; cx_acc : access_mode }.

Definition permitted (cx : context) (pte : Z) : bool :=
  (if pte_U pte then cx_user cx || (cx_sum cx && bool_decide (cx_acc cx <> fetch)) else negb (cx_user cx))
  && match cx_acc cx with
     | load => pte_R pte || (cx_mxr cx && pte_X pte)
     | store => pte_W pte
     | fetch => pte_X pte
     end.

(** A successful walk: the physical address and the leaf entry used *)
Record walked := Walked { w_paddr : Z; w_pte_addr : Z; w_pte : Z }.

(** The offset within the page of level [n], a page of [512 ^ n] small pages *)
Definition page_bits (n : nat) : Z := 12 + 9 * Z.of_nat n.

Fixpoint page_walk (ld : Z -> option Z) (cx : context) (vaddr : Z) (n : nat) (table : Z) : option walked :=
  match n with
  | O => None
  | S n =>
      let pte_addr := table + 8 * ((vaddr `div` 2 ^ page_bits n) `mod` 512) in
      pte ← ld pte_addr;
      if negb (pte_V pte) || negb (pte_reserved pte =? 0) || (pte_W pte && negb (pte_R pte)) then None
      else if pte_leaf pte then
        if permitted cx pte && (pte_ppn pte `mod` 2 ^ (9 * Z.of_nat n) =? 0)
        then Some (Walked (pte_ppn pte * 2 ^ 12 + vaddr `mod` 2 ^ page_bits n) pte_addr pte)
        else None
      else page_walk ld cx vaddr n (pte_ppn pte * 2 ^ 12)
  end.

(** The entry after the access *)
Definition accessed (acc : access_mode) (pte : Z) : Z :=
  Z.setbit (if bool_decide (acc = store) then Z.setbit pte 7 else pte) 6.

(** Number of levels of a mode *)
Definition mode_levels (mode : Z) : option nat :=
  if mode =? SATP_MODE_SV39 then Some 3%nat else if mode =? SATP_MODE_SV48 then Some 4%nat else None.

Inductive translation :=
  | untranslated
  | page_fault
  | through (w : walked).

Definition context_of (mstatus prv : Z) (acc : access_mode) : context :=
  Context (prv =? PRV_U) (Z.testbit mstatus 18) (Z.testbit mstatus 19) acc.

Definition translate (ld : Z -> option Z) (iprv mstatus satp vaddr : Z) (acc : access_mode) : translation :=
  let prv := if bool_decide (acc <> fetch) && Z.testbit mstatus 17 then (mstatus `div` 2 ^ 11) `mod` 4 else iprv in
  let mode := satp `div` 2 ^ 60 in
  if (PRV_S <? prv) || (mode =? SATP_MODE_BARE) then untranslated
  else
    match mode_levels mode with
    | None => page_fault
    | Some n =>
        if sint (page_bits n) vaddr =? sint 64 vaddr then
          match page_walk ld (context_of mstatus prv acc) vaddr n (satp `mod` 2 ^ 44 * 2 ^ 12) with
          | Some w => through w
          | None => page_fault
          end
        else page_fault
    end.

(** ** Fields *)

Lemma land_shifted_mask x k o : 0 <= k -> 0 <= o -> Z.land x (Z.shiftl (2 ^ k - 1) o) = (x `div` 2 ^ o) `mod` 2 ^ k * 2 ^ o.
Proof.
  intros Hk Ho. apply Z.bits_inj_iff'. intros i Hi.
  rewrite Z.land_spec, <- Z.shiftl_mul_pow2, <- Z.shiftr_div_pow2, !Z.shiftl_spec by done.
  replace (2 ^ k - 1) with (Z.ones k) by (rewrite Z.ones_equiv; lia).
  destruct (Z.lt_ge_cases i o).
  - rewrite !(Z.testbit_neg_r _ (i - o)) by lia. apply andb_false_r.
  - rewrite <- Z.land_ones, Z.land_spec, Z.shiftr_spec by lia. do 2 f_equal. lia.
Qed.

Lemma field_zero x k o : 0 <= k -> 0 <= o -> (Z.land x (Z.shiftl (2 ^ k - 1) o) =? 0) = ((x `div` 2 ^ o) `mod` 2 ^ k =? 0).
Proof. intros. rewrite land_shifted_mask by done. pose proof (pow2_pos o). bool_cases; exfalso; nia. Qed.

Section pte.
Context (pte : Z) (Hpte : is_uint 64 pte).

Lemma V_bit : ((pte &ᵇ PTE_V_MASK) =? 0) = negb (pte_V pte).
Proof. exact (land_pow2 pte 0 ltac:(lia)). Qed.

Lemma U_bit : ((pte &ᵇ PTE_U_MASK) =? 0) = negb (pte_U pte).
Proof. exact (land_pow2 pte 4 ltac:(lia)). Qed.

Lemma reserved_bits : ((pte &ᵇ (PTE_60_54_MASK |ᵇ PTE_PBMT_MASK |ᵇ PTE_N_MASK)) =? 0) = (pte_reserved pte =? 0).
Proof.
  change (PTE_60_54_MASK |ᵇ PTE_PBMT_MASK |ᵇ PTE_N_MASK) with (Z.shiftl (2 ^ 10 - 1) 54).
  rewrite field_zero by done. unfold pte_reserved. unfold is_uint in Hpte.
  rewrite (Z.mod_small (pte `div` _)); [done|]. change (2 ^ 64) with (2 ^ 54 * 2 ^ 10) in Hpte.
  split; [apply Z.div_pos; lia|apply Z.div_lt_upper_bound; lia].
Qed.

Lemma ppn_field :
  uint64 (Z.shiftl (pte &ᵇ PTE_PPN_MASK) (LOG2_PAGE_SIZE - PTE_PPN_SHIFT)) = pte_ppn pte * 2 ^ 12.
Proof.
  change PTE_PPN_MASK with (Z.shiftl (2 ^ 44 - 1) 10).
  rewrite land_shifted_mask, Z.shiftl_mul_pow2 by done. fold (pte_ppn pte).
  change (LOG2_PAGE_SIZE - PTE_PPN_SHIFT) with 2. rewrite <- Z.mul_assoc. apply uint_id.
  pose proof (Z.mod_pos_bound (pte `div` 2 ^ 10) (2 ^ 44)). unfold is_uint, pte_ppn. lia.
Qed.

Lemma xwr_bits :
  Z.shiftr pte PTE_R_SHIFT &ᵇ (PTE_XWR_R_MASK |ᵇ PTE_XWR_W_MASK |ᵇ PTE_XWR_X_MASK)
  = Z.b2z (pte_R pte) + 2 * Z.b2z (pte_W pte) + 4 * Z.b2z (pte_X pte).
Proof.
  change (PTE_XWR_R_MASK |ᵇ PTE_XWR_W_MASK |ᵇ PTE_XWR_X_MASK) with (2 ^ 3 - 1). unfold PTE_R_SHIFT.
  rewrite land_ones_mod, Z.shiftr_div_pow2 by done. unfold pte_R, pte_W, pte_X. rewrite !Z.testbit_spec' by done.
  change (2 ^ 3) with 8. change (2 ^ 1) with 2. change (2 ^ 2) with 4. Z.div_mod_to_equations. lia.
Qed.

Lemma accessed_bits acc : update_access_bits pte (shift_of acc) = accessed acc pte.
Proof.
  unfold update_access_bits, accessed, Z.setbit. destruct acc; cbn [shift_of]; try done.
  change (PTE_XWR_W_SHIFT =? PTE_XWR_W_SHIFT) with true. cbn [bool_decide]. rewrite bool_decide_true by done.
  rewrite <- !Z.lor_assoc, (Z.lor_comm PTE_A_MASK). done.
Qed.

Lemma accessed_range acc : is_uint 64 (accessed acc pte).
Proof.
  unfold accessed, Z.setbit. case_bool_decide; repeat apply lor_uint; try done; by unfold is_uint; cbn.
Qed.

Lemma ppn_range : 0 <= pte_ppn pte < 2 ^ 44.
Proof. by apply Z.mod_pos_bound. Qed.
End pte.

(** The bits of an entry that setting the accessed and dirty bits keeps *)
Lemma accessed_testbit acc pte i :
  0 <= i -> i <> 6 -> i <> 7 -> Z.testbit (accessed acc pte) i = Z.testbit pte i.
Proof. intros. unfold accessed. rewrite Z.setbit_neq by lia. case_bool_decide; [|done]. by rewrite Z.setbit_neq by lia. Qed.

Lemma accessed_field acc pte o : 8 <= o -> accessed acc pte `div` 2 ^ o = pte `div` 2 ^ o.
Proof.
  intros. rewrite <- !Z.shiftr_div_pow2 by lia. apply Z.bits_inj_iff'. intros i Hi.
  rewrite !Z.shiftr_spec by done. apply accessed_testbit; lia.
Qed.

Lemma accessed_idem acc pte : accessed acc (accessed acc pte) = accessed acc pte.
Proof.
  apply Z.bits_inj_iff'. intros i Hi. unfold accessed.
  destruct (decide (i = 6)) as [->|]; [by rewrite !Z.setbit_eq|].
  rewrite !(Z.setbit_neq _ 6) by lia. case_bool_decide; [|by rewrite Z.setbit_neq by lia].
  destruct (decide (i = 7)) as [->|]; [by rewrite !Z.setbit_eq|].
  by rewrite !(Z.setbit_neq _ 7), Z.setbit_neq, Z.setbit_neq by lia.
Qed.

(** ** The walk *)

Section walk.
Context (UPDATE_PTE : bool) (prv mstatus vaddr : Z) (acc : access_mode).
Context (Hprv : is_uint 1 prv) (Hvaddr : is_uint 64 vaddr).

Let cx : context := context_of mstatus prv acc.

(** What the code does at the end of a walk *)
Definition touch (s : machine_state) (w : walked) : outcome (option Z * machine_state) :=
  s ← (if UPDATE_PTE then
         if negb (w_pte w =? accessed acc (w_pte w)) then snd <$> write_ram_uint64 s (w_pte_addr w) (accessed acc (w_pte w))
         else mret s
       else mret s);
  mret (Some (w_paddr w), s).

Lemma vpn_field n :
  uint64 (Z.shiftl (Z.shiftr vaddr (page_bits n) &ᵇ VPN_MASK) LOG2_PTE_SIZE) = 8 * ((vaddr `div` 2 ^ page_bits n) `mod` 512).
Proof.
  change VPN_MASK with (2 ^ 9 - 1). rewrite land_ones_mod, Z.shiftr_div_pow2 by (unfold page_bits; lia).
  rewrite Z.shiftl_mul_pow2 by done. change (2 ^ LOG2_PTE_SIZE) with 8. change (2 ^ 9) with 512.
  pose proof (Z.mod_pos_bound (vaddr `div` 2 ^ page_bits n) 512).
  rewrite uint_id by (unfold is_uint; lia). lia.
Qed.

Lemma privilege_spec pte :
  privilege_fault prv mstatus pte (shift_of acc)
  = negb (if pte_U pte then cx_user cx || (cx_sum cx && bool_decide (cx_acc cx <> fetch)) else negb (cx_user cx)).
Proof.
  unfold privilege_fault. rewrite U_bit. unfold cx, context_of. cbn [cx_user cx_sum cx_acc].
  replace ((mstatus &ᵇ MSTATUS_SUM_MASK) =? 0) with (negb (Z.testbit mstatus 18))
    by (symmetry; exact (land_pow2 mstatus 18 ltac:(lia))).
  assert (prv = 0 \/ prv = 1) as [-> | ->] by (unfold is_uint in Hprv; lia);
    destruct (pte_U pte), acc, (Z.testbit mstatus 18); reflexivity.
Qed.

(** The protection bits against the access, with MXR *)
Lemma protection_spec pte (R := pte_R pte) (W := pte_W pte) (X := pte_X pte) :
  let xwr := Z.b2z R + 2 * Z.b2z W + 4 * Z.b2z X in
  let xwr' := if negb ((mstatus &ᵇ MSTATUS_MXR_MASK) =? 0) then xwr |ᵇ Z.shiftr xwr PTE_XWR_X_SHIFT else xwr in
  ((Z.shiftr xwr' (shift_of acc) &ᵇ 1) =? 0)
  = negb (match acc with load => R || (cx_mxr cx && X) | store => W | fetch => X end) /\
  ((xwr =? PTE_XWR_W_MASK) || (xwr =? PTE_XWR_W_MASK |ᵇ PTE_XWR_X_MASK)) = W && negb R /\
  (xwr =? 0) = negb (pte_leaf pte).
Proof.
  cbv zeta. replace ((mstatus &ᵇ MSTATUS_MXR_MASK) =? 0) with (negb (Z.testbit mstatus 19))
    by (symmetry; exact (land_pow2 mstatus 19 ltac:(lia))).
  unfold pte_leaf. fold R W X. unfold cx, context_of. cbn [cx_mxr].
  destruct R, W, X, acc, (Z.testbit mstatus 19); done.
Qed.

Lemma mask_value n : (n <= 5)%nat -> uint64 (uint64 (Z.shiftl 1 (page_bits n)) - 1) = 2 ^ page_bits n - 1.
Proof.
  intros Hn. rewrite Z.shiftl_1_l. assert (0 < 2 ^ page_bits n <= 2 ^ 57) as Hp.
  { unfold page_bits. split; [apply pow2_pos; lia|]. apply Z.pow_le_mono_r; lia. }
  rewrite !uint_id by (unfold is_uint; rewrite ?uint_id by (unfold is_uint; lia); lia). done.
Qed.

Lemma offset_spec n k :
  (n <= 5)%nat -> 0 <= k < 2 ^ 44 ->
  ((k * 2 ^ 12 &ᵇ (2 ^ page_bits n - 1)) =? 0) = (k `mod` 2 ^ (9 * Z.of_nat n) =? 0) /\
  (k `mod` 2 ^ (9 * Z.of_nat n) = 0 ->
   (vaddr &ᵇ (2 ^ page_bits n - 1)) |ᵇ (k * 2 ^ 12 &ᵇ uint64 (Z.lnot (2 ^ page_bits n - 1)))
   = k * 2 ^ 12 + vaddr `mod` 2 ^ page_bits n).
Proof.
  intros Hn Hk. unfold page_bits. pose proof (pow2_pos (9 * Z.of_nat n) ltac:(lia)) as H9.
  pose proof (pow2_pos (12 + 9 * Z.of_nat n) ltac:(lia)) as H12. rewrite !land_ones_mod by lia.
  assert ((k * 2 ^ 12) `mod` 2 ^ (12 + 9 * Z.of_nat n) = k `mod` 2 ^ (9 * Z.of_nat n) * 2 ^ 12) as E.
  { rewrite Z.add_comm, Z.pow_add_r by lia. apply Z.mul_mod_distr_r; lia. }
  split; [rewrite E; bool_cases|]. intros Hz.
  rewrite land_not_uint by (unfold is_uint; lia). rewrite ldiff_low by lia.
  assert (k * 2 ^ 12 = 2 ^ (12 + 9 * Z.of_nat n) * ((k * 2 ^ 12) `div` 2 ^ (12 + 9 * Z.of_nat n))) as Hx.
  { apply Z.div_exact; [lia|]. rewrite E, Hz. lia. }
  rewrite <- Hx, Z.lor_comm. apply (lor_add _ _ (12 + 9 * Z.of_nat n)); [lia|apply Z.mod_pos_bound; lia|].
  eexists. rewrite Hx at 1. apply Z.mul_comm.
Qed.

Lemma leaf_spec s pte pte_addr n :
  is_uint 64 pte -> (n <= 5)%nat -> (pte_W pte && negb (pte_R pte)) = false ->
  translate_leaf UPDATE_PTE s prv mstatus vaddr (shift_of acc) pte pte_addr (pte_ppn pte * 2 ^ 12)
    (Z.b2z (pte_R pte) + 2 * Z.b2z (pte_W pte) + 4 * Z.b2z (pte_X pte)) (page_bits n)
  = if permitted cx pte && (pte_ppn pte `mod` 2 ^ (9 * Z.of_nat n) =? 0)
    then touch s (Walked (pte_ppn pte * 2 ^ 12 + vaddr `mod` 2 ^ page_bits n) pte_addr pte)
    else Done (None, s).
Proof.
  intros Hpte Hn Hwr. unfold translate_leaf. destruct (protection_spec pte) as (Hx & Hr & _). cbv zeta in Hx, Hr.
  rewrite Hr, Hwr, privilege_spec, Hx, mask_value by done.
  destruct (offset_spec n (pte_ppn pte) Hn (ppn_range pte)) as [Hmis Hpa]. rewrite Hmis. unfold permitted, touch.
  cbn [w_pte w_pte_addr w_paddr]. rewrite accessed_bits.
  change (cx_acc cx) with acc. destruct (if pte_U pte then _ else _); [|done]. cbn [negb andb].
  destruct (match acc with load => _ | store => _ | fetch => _ end); [|done]. cbn [negb andb].
  destruct (Z.eqb_spec (pte_ppn pte `mod` 2 ^ (9 * Z.of_nat n)) 0) as [Hz|]; [|done]. cbn [negb].
  by rewrite Hpa.
Qed.

Lemma table_address k n (v := (vaddr `div` 2 ^ page_bits n) `mod` 512) :
  0 <= k < 2 ^ 44 -> let a := k * 2 ^ 12 + 8 * v in uint64 a = a /\ is_uint 64 a /\ a `mod` 8 = 0.
Proof.
  intros Hk a. assert (0 <= v < 512) by (by apply Z.mod_pos_bound).
  assert (is_uint 64 a) by (unfold is_uint, a; lia). split; [by apply uint_id|]. split; [done|].
  unfold a. replace (k * 2 ^ 12 + 8 * v) with ((k * 512 + v) * 8) by lia. by apply Z.mod_mul.
Qed.

Lemma walk_spec s n k :
  map_ok (s_pmas s) -> (n <= 5)%nat -> 0 <= k < 2 ^ 44 ->
  walk UPDATE_PTE n s prv mstatus vaddr (shift_of acc) (k * 2 ^ 12)
  = match page_walk (phys_load (s_pmas s)) cx vaddr n (k * 2 ^ 12) with
    | Some w => touch s w
    | None => Done (None, s)
    end.
Proof.
  intros Hs. revert k. induction n as [|n IH]; intros k Hn Hk; [done|]. cbn [walk page_walk].
  change (LOG2_PAGE_SIZE + LOG2_VPN_SIZE * Z.of_nat n) with (page_bits n). rewrite vpn_field.
  destruct (table_address k n Hk) as (-> & Ha & Ha8). rewrite read_ram_uint64_spec by done.
  cbn [mbind outcome_bind option_bind]. destruct (phys_load _ _) as [pte|] eqn:Hp; [|done]. cbn [mbind option_bind].
  pose proof (phys_load_range _ _ _ Hs Hp) as Hpte.
  rewrite V_bit, reserved_bits, ppn_field, xwr_bits by done. destruct (protection_spec pte) as (_ & Hwr & ->).
  destruct (pte_V pte); [|done]. cbn [negb orb]. destruct (pte_reserved pte =? 0); [|done]. cbn [negb orb].
  rewrite negb_involutive. destruct (pte_W pte && negb (pte_R pte)) eqn:Ewr.
  - assert (pte_leaf pte = true) as -> by (unfold pte_leaf; destruct (pte_R pte), (pte_W pte); done).
    cbn [negb]. unfold translate_leaf. by rewrite Hwr.
  - destruct (pte_leaf pte); cbn [negb]; [|apply IH; [lia|apply ppn_range]].
    rewrite leaf_spec by (done || lia). by destruct (permitted cx pte && _).
Qed.
End walk.

(** ** The translation *)

(** Facts of a successful walk *)
Record walked_ok (ld : Z -> option Z) (w : walked) : Prop := {
  wk_paddr : is_uint 56 (w_paddr w);
  wk_addr : is_uint 64 (w_pte_addr w);
  wk_aligned : w_pte_addr w `mod` 8 = 0;
  wk_load : ld (w_pte_addr w) = Some (w_pte w);
  wk_leaf : pte_leaf (w_pte w) = true;
}.

Lemma leaf_paddr k vaddr n :
  0 <= k < 2 ^ 44 -> (n <= 4)%nat -> k `mod` 2 ^ (9 * Z.of_nat n) = 0 ->
  is_uint 56 (k * 2 ^ 12 + vaddr `mod` 2 ^ page_bits n).
Proof.
  intros Hk Hn Hz. unfold page_bits. rewrite Z.pow_add_r by lia.
  pose proof (pow2_pos (9 * Z.of_nat n) ltac:(lia)) as Hq.
  pose proof (Z.mod_pos_bound vaddr (2 ^ 12 * 2 ^ (9 * Z.of_nat n)) ltac:(lia)).
  apply Z.div_exact in Hz; [|lia]. set (q := 2 ^ (9 * Z.of_nat n)) in *.
  assert (exists c, 2 ^ 44 = q * c) as [c Hc].
  { exists (2 ^ (44 - 9 * Z.of_nat n)). unfold q. rewrite <- Z.pow_add_r by lia. f_equal. lia. }
  set (d := k `div` q) in *. assert (d + 1 <= c) by nia. unfold is_uint. nia.
Qed.

Lemma page_walk_ok ld cx vaddr n k w :
  (n <= 5)%nat -> 0 <= k < 2 ^ 44 -> page_walk ld cx vaddr n (k * 2 ^ 12) = Some w -> walked_ok ld w.
Proof.
  revert k. induction n as [|n IH]; intros k Hn Hk Hw; [done|]. cbn [page_walk] in Hw.
  destruct (table_address vaddr k n Hk) as (_ & Ha & Ha8).
  destruct (ld _) as [pte|] eqn:Hp; [|done]. cbn [mbind option_bind] in Hw.
  case_if; [done|]. destruct (pte_leaf pte) eqn:Hl.
  - case_if; [|done]. reflect_bools. injection Hw as <-. split; cbn; try done.
    apply leaf_paddr; [apply ppn_range|lia|done].
  - apply (IH _ ltac:(lia) (ppn_range pte) Hw).
Qed.

Lemma effective_prv_spec s acc :
  effective_prv s (shift_of acc)
  = if bool_decide (acc <> fetch) && Z.testbit (s_mstatus s) 17 then (s_mstatus s `div` 2 ^ 11) `mod` 4 else s_iprv s.
Proof.
  unfold effective_prv. replace ((s_mstatus s &ᵇ MSTATUS_MPRV_MASK) =? 0) with (negb (Z.testbit (s_mstatus s) 17))
    by (symmetry; exact (land_pow2 _ 17 ltac:(lia))).
  rewrite negb_involutive. change MSTATUS_MPP_MASK with (Z.shiftl (2 ^ 2 - 1) 11). rewrite land_shifted_mask by done.
  rewrite Z.shiftr_div_pow2 by done. change (2 ^ MSTATUS_MPP_SHIFT) with (2 ^ 11). rewrite Z.div_mul by done.
  by destruct acc.
Qed.

Lemma canonical_spec vaddr k :
  0 <= k < 64 -> Z.shiftr (int64 (uint64 (Z.shiftl vaddr k))) k = sint (64 - k) vaddr.
Proof.
  intros. rewrite sint_uint, sint_shiftr, Z.shiftl_mul_pow2, Z.div_mul by lia || (pose proof (pow2_pos k); lia). done.
Qed.

Lemma root_spec satp : uint64 (Z.shiftl (satp &ᵇ SATP_PPN_MASK) LOG2_PAGE_SIZE) = satp `mod` 2 ^ 44 * 2 ^ 12.
Proof.
  change SATP_PPN_MASK with (2 ^ 44 - 1). rewrite land_ones_mod, Z.shiftl_mul_pow2 by done. apply uint_id.
  pose proof (Z.mod_pos_bound satp (2 ^ 44)). unfold is_uint. change (2 ^ LOG2_PAGE_SIZE) with (2 ^ 12). lia.
Qed.

(** What the code returns, for a result of the specification *)
Definition outcome_of (UPDATE_PTE : bool) (s : machine_state) (vaddr : Z) (acc : access_mode) (t : translation) :
    outcome (option Z * machine_state) :=
  match t with
  | untranslated => Done (Some vaddr, s)
  | page_fault => Done (None, s)
  | through w => touch UPDATE_PTE acc s w
  end.

Lemma translate_spec UPDATE_PTE s vaddr acc :
  map_ok (s_pmas s) -> is_uint 64 vaddr -> is_uint 64 (s_iprv s) ->
  translate_virtual_address UPDATE_PTE s vaddr (shift_of acc)
  = outcome_of UPDATE_PTE s vaddr acc
      (translate (phys_load (s_pmas s)) (s_iprv s) (s_mstatus s) (s_satp s) vaddr acc).
Proof.
  intros Hs Hv Hi. unfold translate_virtual_address, translate. rewrite effective_prv_spec.
  set (prv := if _ && _ then _ else _). assert (0 <= prv) as Hprv.
  { unfold prv. case_if; [by apply Z.mod_pos_bound|apply Hi]. }
  destruct (Z.ltb_spec PRV_S prv) as [|Hle]; [done|]. change PRV_S with 1 in Hle. cbn [orb].
  rewrite Z.shiftr_div_pow2 by done. change (2 ^ SATP_MODE_SHIFT) with (2 ^ 60).
  destruct (_ =? SATP_MODE_BARE); [done|]. unfold mode_levels.
  assert (is_uint 1 prv) as Hp1 by (unfold is_uint; lia).
  destruct (Z.eqb_spec (s_satp s `div` 2 ^ 60) SATP_MODE_SV39) as [->|];
    [|destruct (Z.eqb_spec (s_satp s `div` 2 ^ 60) SATP_MODE_SV48) as [->|]; [|done]];
    cbn [orb]; rewrite canonical_spec, root_spec by done.
  - change (sint (64 - _) vaddr) with (sint (page_bits 3) vaddr). destruct (_ =? _); [|done]. cbn [negb].
    change (Z.to_nat _) with 3%nat. rewrite walk_spec by (done || lia || by apply Z.mod_pos_bound).
    by destruct (page_walk _ _ _ _ _).
  - change (sint (64 - _) vaddr) with (sint (page_bits 4) vaddr). destruct (_ =? _); [|done]. cbn [negb].
    change (Z.to_nat _) with 4%nat. rewrite walk_spec by (done || lia || by apply Z.mod_pos_bound).
    by destruct (page_walk _ _ _ _ _).
Qed.

Lemma translate_walked ld iprv mstatus satp vaddr acc w :
  translate ld iprv mstatus satp vaddr acc = through w -> walked_ok ld w.
Proof.
  unfold translate. set (prv := if _ && _ then _ else _). case_if; [done|].
  unfold mode_levels. repeat case_if; try done;
    (destruct (page_walk _ _ _ _ _) eqn:Hw; [|done]); intros [= <-];
    (eapply page_walk_ok; [|by apply Z.mod_pos_bound|exact Hw]); lia.
Qed.

(** Whether a translation writes the entry back *)
Definition writes_back (UPDATE_PTE : bool) (l : list pma_entry) (acc : access_mode) (w : walked) : bool :=
  UPDATE_PTE && phys_storable l (w_pte_addr w) && negb (w_pte w =? accessed acc (w_pte w)).

Lemma upd_pmas_same s : upd_pmas (fun _ => s_pmas s) s = s.
Proof. by destruct s. Qed.

Lemma touch_spec UPDATE_PTE s acc w :
  map_ok (s_pmas s) -> walked_ok (phys_load (s_pmas s)) w ->
  exists l, touch UPDATE_PTE acc s w = Done (Some (w_paddr w), upd_pmas (fun _ => l) s) /\
    if writes_back UPDATE_PTE (s_pmas s) acc w
    then stored (s_pmas s) (w_pte_addr w) (accessed acc (w_pte w)) l else l = s_pmas s.
Proof.
  intros Hs [_ Ha Ha8 Hld _]. unfold touch, writes_back. pose proof (phys_load_range _ _ _ Hs Hld) as Hpte.
  pose proof (write_ram_uint64_spec s _ _ Hs Ha Ha8 (accessed_range _ Hpte acc)) as Hw.
  destruct UPDATE_PTE; [|exists (s_pmas s); by rewrite upd_pmas_same].
  destruct (_ =? _); cbn [negb]; rewrite ?andb_false_r, ?andb_true_r; [exists (s_pmas s); by rewrite upd_pmas_same|].
  cbn [andb]. destruct (phys_storable _ _).
  - destruct Hw as (l & -> & Hl). by exists l.
  - rewrite Hw. exists (s_pmas s). by rewrite upd_pmas_same.
Qed.

(** C27: The page-table walk is the translation of the architecture: for every
    state, address and access, the code returns the address untranslated, a
    page fault or the 56-bit physical address exactly as the specification over
    the loads of physical memory says; the only change to the state is that of
    the leaf entry, whose accessed (and, for a store, dirty) bits are set where
    the access asks for it and the range of the entry can be written.  A walk
    that reaches an entry outside the memory is a page fault, in the code and in
    this specification; the architecture asks for an access fault there. *)
Theorem translate_correct UPDATE_PTE s vaddr acc :
  map_ok (s_pmas s) -> is_uint 64 vaddr -> is_uint 64 (s_iprv s) ->
  match translate (phys_load (s_pmas s)) (s_iprv s) (s_mstatus s) (s_satp s) vaddr acc with
  | untranslated => translate_virtual_address UPDATE_PTE s vaddr (shift_of acc) = Done (Some vaddr, s)
  | page_fault => translate_virtual_address UPDATE_PTE s vaddr (shift_of acc) = Done (None, s)
  | through w =>
      is_uint 56 (w_paddr w) /\
      exists l,
        translate_virtual_address UPDATE_PTE s vaddr (shift_of acc)
        = Done (Some (w_paddr w), upd_pmas (fun _ => l) s) /\
        if writes_back UPDATE_PTE (s_pmas s) acc w
        then stored (s_pmas s) (w_pte_addr w) (accessed acc (w_pte w)) l
        else l = s_pmas s
  end.
Proof.
  intros Hs Hv Hi. pose proof (translate_spec UPDATE_PTE s vaddr acc Hs Hv Hi) as E.
  destruct (translate _ _ _ _ _ _) as [| |w] eqn:Ht; [done|done|].
  apply translate_walked in Ht. split; [apply Ht|].
  destruct (touch_spec UPDATE_PTE s acc w Hs Ht) as (l & Hl & Hst). exists l. by rewrite E.
Qed.

(** ** Repeated translations *)

Lemma accessed_fields acc pte (pte' := accessed acc pte) :
  pte_V pte' = pte_V pte /\ pte_R pte' = pte_R pte /\ pte_W pte' = pte_W pte /\ pte_X pte' = pte_X pte /\
  pte_U pte' = pte_U pte /\ pte_ppn pte' = pte_ppn pte /\ pte_reserved pte' = pte_reserved pte.
Proof.
  unfold pte_V, pte_R, pte_W, pte_X, pte_U, pte_ppn, pte_reserved, pte'.
  rewrite !accessed_testbit, !accessed_field by lia. done.
Qed.

(** Setting the bits of the leaf entry does not disturb the walk: no entry of
    the path to it is the leaf itself. *)
Lemma page_walk_accessed ld ld' cx vaddr n k w (w' := Walked (w_paddr w) (w_pte_addr w) (accessed (cx_acc cx) (w_pte w))) :
  (n <= 5)%nat -> 0 <= k < 2 ^ 44 ->
  ld' (w_pte_addr w) = Some (w_pte w') ->
  (forall a, is_uint 64 a -> a `mod` 8 = 0 -> a <> w_pte_addr w -> ld' a = ld a) ->
  page_walk ld cx vaddr n (k * 2 ^ 12) = Some w -> page_walk ld' cx vaddr n (k * 2 ^ 12) = Some w'.
Proof.
  intros Hn Hk Hleaf Hne Hw. pose proof (page_walk_ok _ _ _ _ _ _ Hn Hk Hw) as [_ _ _ Hld Hl].
  revert k Hk Hw. induction n as [|n IH]; intros k Hk Hw; [done|]. cbn [page_walk] in Hw |- *.
  destruct (table_address vaddr k n Hk) as (_ & Ha & Ha8). set (a := _ + _) in *.
  destruct (decide (a = w_pte_addr w)) as [E|Hd].
  - rewrite E, Hld in Hw. rewrite E, Hleaf. cbn [mbind option_bind w_pte w'] in Hw |- *.
    destruct (accessed_fields (cx_acc cx) (w_pte w)) as (HV & HR & HW & HX & HU & Hp & Hr).
    unfold pte_leaf, permitted in *. rewrite HV, HR, HW, HX, HU, Hp, Hr.
    case_if; [done|]. rewrite Hl in Hw |- *. case_if; [|done]. injection Hw as Hw. unfold w'. by rewrite <- Hw.
  - rewrite Hne by done. destruct (ld a) as [pte|] eqn:Hp; [|done]. cbn [mbind option_bind] in Hw |- *.
    case_if; [done|]. destruct (pte_leaf pte).
    + case_if; [|done]. injection Hw as <-. done.
    + apply IH; [lia|apply ppn_range|done].
Qed.

Lemma translate_accessed ld ld' iprv mstatus satp vaddr acc w :
  ld' (w_pte_addr w) = Some (accessed acc (w_pte w)) ->
  (forall a, is_uint 64 a -> a `mod` 8 = 0 -> a <> w_pte_addr w -> ld' a = ld a) ->
  translate ld iprv mstatus satp vaddr acc = through w ->
  translate ld' iprv mstatus satp vaddr acc = through (Walked (w_paddr w) (w_pte_addr w) (accessed acc (w_pte w))).
Proof.
  intros Hleaf Hne. unfold translate. set (prv := if _ && _ then _ else _). case_if; [done|].
  unfold mode_levels. repeat case_if; try done;
    (destruct (page_walk ld _ _ _ _) as [w0|] eqn:Hw; [|done]); intros [= ->];
    erewrite page_walk_accessed; try done; lia || by apply Z.mod_pos_bound.
Qed.

(** C28: A translation is stable: once an access has been translated, with its
    accessed and dirty bits set, translating it again (with or without updates)
    returns the same address and changes nothing. *)
Theorem translate_stable UPDATE_PTE s vaddr acc paddr s' :
  map_ok (s_pmas s) -> is_uint 64 vaddr -> is_uint 64 (s_iprv s) ->
  translate_virtual_address true s vaddr (shift_of acc) = Done (Some paddr, s') ->
  translate_virtual_address UPDATE_PTE s' vaddr (shift_of acc) = Done (Some paddr, s').
Proof.
  intros Hs Hv Hi. rewrite translate_spec by done.
  destruct (translate _ _ _ _ _ _) as [| |w] eqn:Ht; cbn [outcome_of]; [|done|].
  { intros [= <- <-]. rewrite translate_spec by done. by rewrite Ht. }
  pose proof (translate_walked _ _ _ _ _ _ _ Ht) as Hw.
  destruct (touch_spec true s acc w Hs Hw) as (l & -> & Hl). intros [= <- <-].
  destruct (writes_back true (s_pmas s) acc w) eqn:Hwb.
  - rewrite translate_spec by (done || apply Hl). change (s_pmas (upd_pmas (fun _ => l) s)) with l.
    erewrite (translate_accessed (phys_load (s_pmas s))); [|apply Hl|apply Hl|exact Ht].
    cbn [outcome_of]. unfold touch. cbn [w_pte w_paddr]. rewrite accessed_idem, Z.eqb_refl. by destruct UPDATE_PTE.
  - subst l. rewrite upd_pmas_same, translate_spec, Ht by done. cbn [outcome_of].
    destruct (touch_spec UPDATE_PTE s acc w Hs Hw) as (l & -> & Hl').
    replace (writes_back UPDATE_PTE _ _ _) with false in Hl'; [by rewrite Hl', upd_pmas_same|].
    unfold writes_back in *. by destruct UPDATE_PTE.
Qed.

(** ** A machine with two page tables *)

Definition example_tables : list Z :=
  le_bytes 8 (0x80001 * 2 ^ 10 + 1) ++ replicate (Z.to_nat 4088) 0
  ++ le_bytes 8 (0x80200 * 2 ^ 10 + 0x17) ++ replicate (Z.to_nat 4088) 0.

Definition example_ram : pma_entry :=
  set_flags (PmaFlags true true true true true 0)
    (memory_entry "RAM" 0x80000000 0x2000 (PmaMemory 0x2000 0 example_tables) memory_peek_cb).

(** Supervisor mode with SUM set, Sv39 translation with its root at the start of the RAM *)
Definition example_machine : machine_state :=
  upd_pmas (fun l => example_ram :: l)
    (upd_iprv (fun _ => PRV_S) (upd_mstatus (fun _ => Z.shiftl 1 18)
       (upd_satp (fun _ => SATP_MODE_SV39 * 2 ^ 60 + 0x80000) blank_machine))).

Lemma example_machine_ok : map_ok (s_pmas example_machine).
Proof.
  split.
  - apply Forall_cons. split; [|apply Forall_cons; split; [|done]].
    + split; [intros _|done|done|done|done]. split.
      * split; vm_compute; congruence.
      * apply (bool_decide_unpack _). vm_compute. exact I.
      * done.
    + split; done.
  - apply Exists_cons_tl, Exists_cons_hd. done.
Qed.

Lemma translate_correct_witness :
  exists l,
    translate_virtual_address true example_machine 0x1abc (shift_of store)
    = Done (Some 0x80201abc, upd_pmas (fun _ => l) example_machine) /\
    stored (s_pmas example_machine) 0x80001000 (0x80200 * 2 ^ 10 + 0xd7) l.
Proof.
  pose proof (translate_correct true example_machine 0x1abc store example_machine_ok ltac:(done) ltac:(done)) as H.
  assert (translate (phys_load (s_pmas example_machine)) (s_iprv example_machine) (s_mstatus example_machine)
    (s_satp example_machine) 0x1abc store
    = through (Walked 0x80201abc 0x80001000 (0x80200 * 2 ^ 10 + 0x17))) as E by (vm_compute; reflexivity).
  rewrite E in H. destruct H as (_ & l & H & Hl). exists l. split; [exact H|].
  change (writes_back _ _ _ _) with true in Hl. exact Hl.
Defined.

Lemma translate_stable_witness :
  exists paddr s', translate_virtual_address true example_machine 0x1abc (shift_of store) = Done (Some paddr, s') /\
    translate_virtual_address true s' 0x1abc (shift_of store) = Done (Some paddr, s').
Proof.
  assert (is_uint 64 0x1abc /\ is_uint 64 (s_iprv example_machine)) as [Hv Hi] by done.
  assert (match translate_virtual_address true example_machine 0x1abc (shift_of store) with
          | Done (Some _, _) => true | _ => false end = true) as Hd by (vm_compute; reflexivity).
  destruct (translate_virtual_address true example_machine 0x1abc (shift_of store)) as [[[paddr|] s']|] eqn:H; try discriminate Hd.
  exists paddr, s'. split; [reflexivity|].
  exact (translate_stable true example_machine 0x1abc store paddr s' example_machine_ok Hv Hi H).
Defined.
