(* ===== verification/HostMemory.v ===== *)
(** * Pointers to the memory of the host

    The buffers of the memory ranges are disjoint pieces of the memory of the
    host.  The entries of the translation cache hold pointers to their pages;
    this file states the invariant that makes these pointers valid, proves that
    reads and writes through them are those of the buffer they point to, and
    that replacements and flushes keep it. *)

From S2P Require Import Prelude CppInt Constants RiscvConstants UarchAccess Bytes RV64IM UarchStepSpec Pma PmaSpec MachineState UarchBridge UarchBridgeSpec UarchState UarchStateSpec Tlb TranslateVirtualAddress.

(** ** Maps with buffers *)

Definition base (p : pma_entry) : Z := match m_data p with data_memory m => host_base m | _ => 0 end.

(** The allocator aligns buffers to words. *)
Record buffer_ok (p : pma_entry) : Prop := {
  bf_memory : memory_ok p;
  bf_base : 0 <= base p;
  bf_end : base p + m_length p <= 2 ^ 64;
  bf_aligned : base p `mod` 8 = 0;
}.

Record host_map_ok (l : list pma_entry) : Prop := {
  hm_map : map_ok l;
  hm_buffers : forall i p, l !! i = Some p -> get_istart_M p = true ->
    buffer_ok p /\ m_index p = Z.of_nat i /\ Z.of_nat i < PMA_MAX;
  hm_disjoint : forall i j p q, l !! i = Some p -> l !! j = Some q ->
    get_istart_M p = true -> get_istart_M q = true -> i <> j ->
    base p + m_length p <= base q \/ base q + m_length q <= base p;
}.

(** The same place in the map and in the memory of the host, with the same callback *)
Definition same_layout (p p' : pma_entry) : Prop :=
  same_shape p p' /\ base p' = base p /\ m_index p' = m_index p /\
  m_peek p' = m_peek p /\ length (m_dirty_page_map p') = length (m_dirty_page_map p).

#[export] Instance same_layout_preorder : PreOrder same_layout.
Proof.
  split; [done|]. intros p q r (H1 & H2 & H3 & H4 & H5) (H6 & H7 & H8 & H9 & H10).
  split; [by etrans|]. repeat split; congruence.
Qed.

Lemma set_host_memory_layout l p : same_layout p (set_host_memory l p).
Proof. split; [apply set_host_memory_shape|]. unfold base, set_host_memory. cbn. by destruct (m_data p). Qed.

Lemma same_memory_layout p p' : same_memory p p' -> same_layout p p'.
Proof. intros H. split; [by apply same_memory_shape|]. destruct H as [-> Hl]. repeat split; [done..|]. exact Hl. Qed.

(** A map that evolved from another has its ranges, with other contents. *)
Definition evolves (l l' : list pma_entry) : Prop := Forall2 same_layout l l'.

#[export] Instance evolves_preorder : PreOrder evolves.
Proof. change (PreOrder (Forall2 same_layout)). split; apply _. Qed.

Lemma evolves_insert l i p p' : l !! i = Some p -> same_layout p p' -> evolves l (<[i := p']> l).
Proof.
  intros Hi Hp. apply Forall2_same_length_lookup_2; [by rewrite length_insert|].
  intros j q q' Hq Hq'. destruct (decide (i = j)) as [<-|Hne].
  - rewrite list_lookup_insert_eq in Hq' by (by eapply lookup_lt_Some). by simplify_eq.
  - rewrite list_lookup_insert_ne in Hq' by done. by simplify_eq.
Qed.

Lemma evolves_lookup l l' i p : evolves l l' -> l !! i = Some p -> exists p', l' !! i = Some p' /\ same_layout p p'.
Proof. intros. by eapply Forall2_lookup_l. Qed.

Lemma evolves_map_ok l l' : evolves l l' ->
  (forall i p, l' !! i = Some p -> get_istart_M p = true -> memory_ok p) -> host_map_ok l -> host_map_ok l'.
Proof.
  intros Hl Hok [[H1 H2] H3 H4]. unfold evolves in Hl.
  assert (forall i p', l' !! i = Some p' -> exists p, l !! i = Some p /\ same_layout p p') as Hback
    by (intros; by eapply Forall2_lookup_r).
  split; [split| |].
  - apply Forall_lookup. intros i p' Hi. destruct (Hback i p' Hi) as (p & Hp & (HM & _ & _ & Hs & Hn & _) & _).
    destruct (Forall_lookup_1 _ _ _ _ H1 Hp). split; rewrite ?Hs, ?Hn; try done. intros. by eapply Hok.
  - apply Exists_exists in H2 as (p & [i Hi]%list_elem_of_lookup & Hz).
    destruct (evolves_lookup _ _ _ _ Hl Hi) as (p' & Hi' & (_ & _ & _ & _ & Hn & _) & _).
    apply Exists_exists. exists p'. split; [|congruence]. apply list_elem_of_lookup. by exists i.
  - intros i p' Hi HM'. destruct (Hback i p' Hi) as (p & Hp & (HM & _ & _ & _ & Hn & _) & Hb & Hx & _).
    destruct (H3 i p Hp) as ([] & Hix & Hlt); [congruence|]. split; [|split; congruence]. split; rewrite ?Hb, ?Hn; auto.
    by eapply Hok.
  - intros i j p' q' Hi Hj Hp' Hq' Hne. destruct (Hback i p' Hi) as (p & Hp & (HM & _ & _ & _ & -> & _) & -> & _).
    destruct (Hback j q' Hj) as (q & Hq & (HM' & _ & _ & _ & -> & _) & -> & _). eapply (H4 i j); congruence.
Qed.

Lemma host_map_ok_insert l i p p' :
  host_map_ok l -> l !! i = Some p -> same_layout p p' -> memory_ok p' -> host_map_ok (<[i := p']> l).
Proof.
  intros Hl Hi Hp Hok. eapply evolves_map_ok; [by eapply evolves_insert| |done].
  intros j q Hq HM. destruct (decide (i = j)) as [<-|Hne].
  - rewrite list_lookup_insert_eq in Hq by (by eapply lookup_lt_Some). by simplify_eq.
  - rewrite list_lookup_insert_ne in Hq by done. by apply (hm_buffers _ Hl) in Hq as ([] & _).
Qed.

(** ** Pointers *)

(** [n] bytes at the address [a] of the host lie in the buffer of the entry [i]. *)
Definition points (l : list pma_entry) (a n : Z) (i : nat) (p : pma_entry) : Prop :=
  l !! i = Some p /\ get_istart_M p = true /\ base p <= a /\ a + n <= base p + m_length p.

Lemma host_length p : memory_ok p -> Z.of_nat (length (host p)) = m_length p.
Proof. intros [[_ -> ? ? _ _] _ _]. lia. Qed.

Lemma buffer_memory p : get_istart_M p = true ->
  exists m, get_memory p = Done m /\ host_memory m = host p /\ host_base m = base p.
Proof. unfold get_istart_M, get_memory, host, base. destruct (m_data p); try done. by eexists. Qed.

Lemma in_host_spec l i p a n :
  host_map_ok l -> l !! i = Some p ->
  in_host a n p = true <-> points l a n i p.
Proof.
  intros Hl Hi. unfold in_host, points.
  destruct (get_istart_M p) eqn:HM.
  - destruct (hm_buffers _ Hl i p Hi HM) as ([Hm _ _ _] & _). pose proof (host_length p Hm) as Hh.
    unfold get_istart_M, base, host in *. destruct (m_data p); try done. rewrite Hh, andb_true_iff, !Z.leb_le. tauto.
  - unfold get_istart_M in HM. destruct (m_data p); naive_solver.
Qed.

Lemma points_unique l a n i j p q : host_map_ok l -> 0 < n -> points l a n i p -> points l a n j q -> i = j.
Proof.
  intros Hl Hn (Hi & Hp & ? & ?) (Hj & Hq & ? & ?). destruct (decide (i = j)) as [|Hne]; [done|].
  destruct (hm_disjoint _ Hl i j p q Hi Hj Hp Hq Hne); lia.
Qed.

Lemma find_host_spec l k a n i p :
  host_map_ok (l) -> 0 < n -> points l a n i p ->
  forall l1 l2, l = l1 ++ l2 -> k = length l1 -> (k <= i)%nat -> find_host l2 k a n = Some i.
Proof.
  intros Hl Hn Hp l1 l2. revert l1 k. induction l2 as [|q l2 IH]; intros l1 k -> -> Hki.
  - destruct Hp as (Hi%lookup_lt_Some & _). rewrite app_nil_r in Hi. lia.
  - cbn. assert ((l1 ++ q :: l2) !! length l1 = Some q) as Hq by (by rewrite lookup_app_r, Nat.sub_diag).
    destruct (in_host a n q) eqn:Eq.
    + apply (in_host_spec _ _ _ _ _ Hl Hq) in Eq. f_equal. by eapply points_unique.
    + rewrite (IH (l1 ++ [q])); [done|by rewrite <- app_assoc|rewrite length_app; cbn; lia|].
      enough (i <> length l1) by lia. intros ->. assert (p = q) as <- by (destruct Hp as [Hp _]; congruence).
      apply (in_host_spec _ _ _ _ _ Hl Hq) in Hp. congruence.
Qed.

Section access.
Context (s : machine_state) (Hs : host_map_ok (s_pmas s)).

Lemma host_range_spec a align n i p :
  a `mod` align = 0 -> 0 < n -> points (s_pmas s) a n i p -> host_range s a align n = Done (i, p, a - base p).
Proof.
  intros Ha Hn Hp. unfold host_range. rewrite Ha, Z.eqb_refl. cbn [negb throw_if mbind outcome_bind].
  rewrite (find_host_spec (s_pmas s) 0 a n i p Hs Hn Hp [] (s_pmas s)) by (done || lia).
  destruct Hp as (Hi & HM & _). rewrite Hi. destruct (buffer_memory p HM) as (m & -> & _ & <-). done.
Qed.

Lemma host_read_unaligned_spec a align n i p :
  a `mod` align = 0 -> 0 < n -> points (s_pmas s) a n i p ->
  host_read_unaligned s a align n = Done (le_val (slice (a - base p) n (host p))).
Proof.
  intros Ha Hn Hp. unfold host_read_unaligned. rewrite (host_range_spec a align n i p) by done. cbn [mbind outcome_bind].
  destruct Hp as (Hi & HM & _). destruct (buffer_memory p HM) as (m & -> & <- & _). done.
Qed.

Lemma slice_range i p o n : s_pmas s !! i = Some p -> get_istart_M p = true -> 0 <= n -> is_uint (8 * n) (le_val (slice o n (host p))).
Proof.
  intros Hi HM Hn. destruct (hm_buffers _ Hs i p Hi HM) as ([[_ Hb _] _ _ _] & _).
  apply (uint_mono (8 * Z.of_nat (length (slice o n (host p))))).
  - unfold slice. rewrite length_take. lia.
  - apply le_val_range. unfold slice. by apply Forall_take, Forall_drop.
Qed.

(** The entry after a write of [n] bytes at the address [a] of the host *)
Definition host_written (a n v : Z) (p : pma_entry) : pma_entry :=
  set_host_memory (splice (Z.to_nat (a - base p)) (le_bytes (Z.to_nat n) v) (host p)) p.

Lemma host_write_spec a n v i p :
  a `mod` n = 0 -> 0 < n -> points (s_pmas s) a n i p ->
  host_write s a n v = Done (upd_pmas (fun l => <[i := host_written a n v p]> l) s).
Proof.
  intros Ha Hn Hp. unfold host_write. rewrite (host_range_spec a n n i p) by done. cbn [mbind outcome_bind].
  destruct Hp as (Hi & HM & _). destruct (buffer_memory p HM) as (m & -> & Hm & _). cbn [mbind outcome_bind].
  unfold host_written. by rewrite <- Hm.
Qed.

Lemma host_written_ok a n v i p :
  0 < n -> points (s_pmas s) a n i p ->
  same_layout p (host_written a n v p) /\ memory_ok (host_written a n v p) /\
  host (host_written a n v p) = splice (Z.to_nat (a - base p)) (le_bytes (Z.to_nat n) v) (host p).
Proof.
  intros Hn (Hi & HM & Ha & He). destruct (hm_buffers _ Hs i p Hi HM) as ([Hok _ _ _] & _).
  split; [apply set_host_memory_layout|]. pose proof (wf_host p (ok_wf _ Hok)) as Hh.
  pose proof (wf_length _ (ok_wf _ Hok)).
  destruct (set_host_memory_wf p (splice (Z.to_nat (a - base p)) (le_bytes (Z.to_nat n) v) (host p)) (ok_wf _ Hok)) as [Hwf Hw].
  { rewrite length_splice; [done|]. rewrite length_le_bytes, Hh. lia. }
  fold (host_written a n v p) in *. split; [|done]. split; [done| |].
  - rewrite Hw. apply splice_bytes; [apply le_bytes_bytes|apply Hok].
  - destruct (set_host_memory_shape p (splice (Z.to_nat (a - base p)) (le_bytes (Z.to_nat n) v) (host p))) as (_ & _ & _ & _ & _ & E).
    unfold host_written. rewrite E. apply Hok.
Qed.

End access.
