(* ===== verification/HostTlb.v ===== *)
(** * The translation cache points to the memory of the machine

    The invariant of the entries: a valid entry maps a virtual page to the part
    of a buffer that holds its physical page.  A hit then reads or writes the
    word of physical memory at the page of the entry, and the pointers stay
    within the buffers.

    The second part is about dirty pages.  The Merkle tree of the machine holds
    the hash of every page as it was when the tree was last updated.  A page that
    changed since is either marked in the dirty map of its range or written
    through a write entry of the translation cache, which marks it when the entry
    is replaced or flushed.  The operations on the cache and on the words of the
    memory keep that invariant. *)

From S2P Require Import Prelude CppInt Constants RiscvConstants UarchAccess Bytes RV64IM UarchStepSpec Pma PmaSpec MachineState UarchBridge UarchBridgeSpec UarchState UarchStateSpec Tlb TranslateVirtualAddress HostMemory.

(** ** Hits *)

Lemma word_size_divides n : word_size n -> 0 < n <= 8 /\ 4096 `mod` n = 0 /\ 8 `mod` n = 0.
Proof. by intros [->|[->|[->| ->]]]. Qed.

Lemma page_of_spec v : is_uint 64 v -> v &ᵇ uint64 (Z.lnot PAGE_OFFSET_MASK) = v - v `mod` 4096.
Proof.
  intros Hv. rewrite land_not_uint by (done || lia). change PAGE_OFFSET_MASK with (2 ^ 12 - 1).
  rewrite ldiff_low by lia. change (2 ^ 12) with 4096. pose proof (Z.div_mod v 4096 ltac:(lia)). lia.
Qed.

Lemma page_offset_spec v : v &ᵇ PAGE_OFFSET_MASK = v `mod` 4096.
Proof. exact (land_ones_mod v 12 ltac:(lia)). Qed.

Lemma tlb_is_hit_spec n vpage v :
  word_size n -> is_uint 64 v -> tlb_is_hit n vpage v = (vpage =? v - v `mod` 4096 + v `mod` n).
Proof.
  intros Hn Hv. unfold tlb_is_hit. f_equal.
  assert (uint64 (Z.lnot (PAGE_OFFSET_MASK &ᵇ uint64 (Z.lnot (n - 1)))) = uint64 (Z.lnot PAGE_OFFSET_MASK) |ᵇ (n - 1)) as ->
    by by destruct Hn as [->|[->|[->| ->]]].
  rewrite Z.land_lor_distr_r, page_of_spec by done.
  assert (v &ᵇ (n - 1) = v `mod` n) as ->
    by (destruct Hn as [->|[->|[->| ->]]]; [exact (land_ones_mod v 0 ltac:(lia))|exact (land_ones_mod v 1 ltac:(lia))
       |exact (land_ones_mod v 2 ltac:(lia))|exact (land_ones_mod v 3 ltac:(lia))]).
  replace (v - v `mod` 4096) with (v `div` 4096 * 2 ^ 12) by (Z.div_mod_to_equations; lia).
  apply lor_add_low; [lia|]. destruct (word_size_divides n Hn). pose proof (Z.mod_pos_bound v n ltac:(lia)). lia.
Qed.

Lemma aligned_in_page v n : word_size n -> v `mod` 4096 `mod` n = v `mod` n.
Proof.
  intros Hn. replace v with (v `mod` 4096 + v `div` 4096 * (4096 `div` n) * n) at 2.
  - by rewrite Z_mod_plus_full.
  - rewrite <- Z.mul_assoc, (Z.mul_comm (4096 `div` n)). destruct (word_size_divides n Hn) as (? & H & _).
    rewrite (Z.div_mod v 4096) at 3 by lia.
    replace (n * (4096 `div` n)) with 4096; [lia|]. rewrite (Z.div_mod 4096 n) at 1 by lia. lia.
Qed.

(** A hit tells the page and that the address is aligned. *)
Lemma hit_page n vpage v :
  word_size n -> is_uint 64 v -> vpage `mod` 4096 = 0 -> tlb_is_hit n vpage v = true ->
  v = vpage + v `mod` 4096 /\ v `mod` n = 0 /\ v `mod` 4096 + n <= 4096.
Proof.
  intros Hn Hv Hp. rewrite tlb_is_hit_spec by done. rewrite Z.eqb_eq. intros ->.
  destruct (word_size_divides n Hn) as (H1 & H2 & _). pose proof (Z.mod_pos_bound v n ltac:(lia)).
  assert (v `mod` n = 0) as E.
  { pose proof (Z.div_mod v 4096 ltac:(lia)).
    replace (v - v `mod` 4096 + v `mod` n) with (v `mod` n + v `div` 4096 * 4096) in Hp by lia.
    rewrite Z_mod_plus_full, Z.mod_small in Hp; lia. }
  split; [lia|]. split; [done|]. pose proof (aligned_in_page v n Hn) as E'. rewrite E in E'.
  pose proof (Z.mod_pos_bound v 4096 ltac:(lia)). set (o := v `mod` 4096) in *. clear - Hn E' H1 H0.
  destruct Hn as [->|[->|[->| ->]]]; Z.div_mod_to_equations; lia.
Qed.

Lemma hit_valid n v : word_size n -> is_uint 64 v -> tlb_is_hit n TLB_INVALID_PAGE v = false.
Proof.
  intros Hn Hv. rewrite tlb_is_hit_spec by done. apply Z.eqb_neq. intros E.
  destruct (word_size_divides n Hn). pose proof (Z.mod_pos_bound v n ltac:(lia)).
  replace (v - v `mod` 4096 + v `mod` n) with (v `mod` n + v `div` 4096 * 4096) in E
    by (pose proof (Z.div_mod v 4096 ltac:(lia)); lia).
  apply (f_equal (fun z => z `mod` 4096)) in E.
  change (TLB_INVALID_PAGE `mod` 4096) with 4095 in E. rewrite Z_mod_plus_full, Z.mod_small in E by lia. lia.
Qed.

(** ** Entries *)

Record entry_ok (l : list pma_entry) (h : tlb_hot_entry) (c : tlb_cold_entry) (p : pma_entry) : Prop := {
  en_index : 0 <= pma_index c;
  en_range : l !! Z.to_nat (pma_index c) = Some p;
  en_memory : get_istart_M p = true;
  en_vpage : vaddr_page h `mod` 4096 = 0;
  en_ppage : paddr_page c `mod` 4096 = 0;
  en_within : m_start p <= paddr_page c /\ paddr_page c + 4096 <= m_start p + m_length p;
  en_offset : uint64 (vh_offset h + vaddr_page h) = base p + (paddr_page c - m_start p);
}.

(** The machine as the cache relies on it *)
Record tlb_ok (s : machine_state) : Prop := {
  to_machine : machine_wf s;
  to_map : host_map_ok (s_pmas s);
  to_entries : forall t i, tlb_type t -> tlb_slot i -> valid_at s t i ->
    exists p, entry_ok (s_pmas s) (hot_at s t i) (cold_at s t i) p;
}.

Lemma entry_ok_evolves l l' h c p : evolves l l' -> entry_ok l h c p -> exists p', entry_ok l' h c p'.
Proof.
  intros Hl [H1 H2 H3 H4 H5 H6 H7].
  destruct (evolves_lookup _ _ _ _ Hl H2) as (p' & Hp' & (HM & _ & _ & Hs & Hn & _) & Hb & _).
  exists p'. split; rewrite ?Hs, ?Hn, ?Hb; congruence.
Qed.

Lemma tlb_ok_wf s : tlb_ok s -> tlb_wf s.
Proof.
  intros [H1 H2 H3]. split; [done|]. intros i Hi Hv. destruct (H3 TLB_WRITE i ltac:(done) Hi Hv) as (p & [Hx Hr HM _ _ Hw _]).
  destruct (hm_buffers _ H2 _ _ Hr HM) as ([] & _ & Hlt). split; [lia|]. exists p.
  change PMA_PAGE_SIZE with 4096. tauto.
Qed.

Lemma dirtier_evolves l l' : Forall2 dirtier l l' -> evolves l l'.
Proof. intros H. eapply Forall2_impl; [exact H|]. intros p q [Hs _]. by apply same_memory_layout. Qed.

Lemma dirtier_map_ok l l' : Forall2 dirtier l l' -> host_map_ok l -> host_map_ok l'.
Proof.
  intros H Hl. eapply evolves_map_ok; [by apply dirtier_evolves| |done].
  intros i p' Hi HM. destruct (Forall2_lookup_r _ _ _ _ _ H Hi) as (p & Hp & Hd). eapply dirtier_ok; [done|].
  destruct (hm_buffers _ Hl i p Hp) as ([] & _); [|done]. destruct Hd as [Hd _].
  by apply same_memory_shape in Hd as [<- _].
Qed.

(** A change of the contents of the map *)
Lemma tlb_ok_evolves s l :
  tlb_ok s -> evolves (s_pmas s) l -> host_map_ok l -> tlb_ok (upd_pmas (fun _ => l) s).
Proof.
  intros [[] H2 H3] Hl Hok. split; [done|done|]. intros t i Ht Hi Hv. destruct (H3 t i Ht Hi Hv) as (p & Hp).
  by eapply entry_ok_evolves.
Qed.

Lemma tlb_ok_flushes ts s s' : (forall t, Decision (ts t)) -> tlb_ok s -> flushes ts s s' -> tlb_ok s'.
Proof.
  intros Hdec [H1 H2 H3] [[_ Hk] G2 G3 G4 G5 _]. split.
  - apply G2.
  - by eapply dirtier_map_ok.
  - intros t i Ht Hi Hv. destruct (decide (ts t)) as [Hin|Hn]; [by destruct (G5 t i Ht Hi Hin)|].
    unfold valid_at in Hv. rewrite G4 in * by done. rewrite G3 by done. destruct (H3 t i Ht Hi Hv) as (p & Hp).
    eapply entry_ok_evolves; [by apply dirtier_evolves|done].
Qed.

(** ** Accesses that hit *)

Lemma index_slot v : tlb_slot (tlb_get_entry_index v).
Proof.
  unfold tlb_get_entry_index, tlb_slot. change (PMA_TLB_SIZE - 1) with (2 ^ 8 - 1). rewrite land_ones_mod by lia.
  apply Z.mod_pos_bound. lia.
Qed.

(** The entry an address is looked up in *)
Definition hot_of (s : machine_state) (t v : Z) : tlb_hot_entry := hot_at s t (tlb_get_entry_index v).
Definition cold_of (s : machine_state) (t v : Z) : tlb_cold_entry := cold_at s t (tlb_get_entry_index v).
Definition hits (s : machine_state) (t n v : Z) : bool := tlb_is_hit n (vaddr_page (hot_of s t v)) v.

(** The physical address of a hit *)
Definition hit_paddr (s : machine_state) (t v : Z) : Z := paddr_page (cold_of s t v) + v `mod` 4096.

(** The [n] bytes at the physical address [a] of a range *)
Definition bytes_at (p : pma_entry) (a n : Z) : Z := le_val (slice (a - m_start p) n (host p)).

Lemma pointer_aligned p c a n :
  word_size n -> base p `mod` 8 = 0 -> m_start p `mod` 4096 = 0 -> c `mod` 4096 = 0 -> a `mod` n = 0 ->
  (base p + (c - m_start p) + a `mod` 4096) `mod` n = 0.
Proof.
  intros Hn Hb Hs Hc Ha. pose proof (aligned_in_page a n Hn) as Hp. rewrite Ha in Hp.
  set (o := a `mod` 4096) in *. clearbody o. clear Ha.
  destruct Hn as [->|[->|[->| ->]]]; Z.div_mod_to_equations; lia.
Qed.

Lemma hit_points s t n v :
  tlb_ok s -> tlb_type t -> word_size n -> is_uint 64 v -> hits s t n v = true ->
  exists i p, let a := uint64 (vh_offset (hot_of s t v) + v) in
    entry_ok (s_pmas s) (hot_of s t v) (cold_of s t v) p /\ i = Z.to_nat (pma_index (cold_of s t v)) /\
    v `mod` n = 0 /\ a `mod` n = 0 /\ points (s_pmas s) a n i p /\ a - base p = hit_paddr s t v - m_start p.
Proof.
  intros [H1 H2 H3] Ht Hn Hv Hh. unfold hits in Hh.
  destruct (H3 t _ Ht (index_slot v)) as (p & Hp).
  { intros E. unfold hot_of in Hh. rewrite E in Hh. by rewrite hit_valid in Hh. }
  fold (hot_of s t v) (cold_of s t v) in Hp. exists (Z.to_nat (pma_index (cold_of s t v))), p.
  pose proof Hp as [Hx Hr HM Hvp Hpp Hw Ho].
  destruct (hit_page n _ v Hn Hv Hvp Hh) as (Ev & Hvn & Hon).
  destruct (hm_buffers _ H2 _ p Hr HM) as ([Hok Hb1 Hb2 Hb3] & _).
  pose proof (Z.mod_pos_bound v 4096 ltac:(lia)).
  assert (uint64 (vh_offset (hot_of s t v) + v) = base p + (paddr_page (cold_of s t v) - m_start p) + v `mod` 4096) as ->.
  { replace (vh_offset (hot_of s t v) + v) with (vh_offset (hot_of s t v) + vaddr_page (hot_of s t v) + v `mod` 4096) by lia.
    rewrite <- uint_add_l, Ho by lia. apply uint_id. unfold is_uint.
    destruct (word_size_divides n Hn). lia. }
  split; [done|]. split; [done|]. split; [done|]. split.
  - apply pointer_aligned; try done. destruct (Forall_lookup_1 _ _ _ _ (map_ranges _ (hm_map _ H2)) Hr) as [_ _ E _ _]. exact E.
  - unfold points, hit_paddr. repeat split; try done; lia.
Qed.

(** A load through the cache is a load of the physical word. *)
Lemma read_via_tlb_spec s t n v :
  tlb_ok s -> tlb_type t -> word_size n -> is_uint 64 v ->
  returns (read_memory_word_via_tlb s t n v) (fun o =>
    if hits s t n v then exists p, entry_ok (s_pmas s) (hot_of s t v) (cold_of s t v) p /\ v `mod` n = 0 /\
      o = Some (bytes_at p (hit_paddr s t v) n) /\ is_uint (8 * n) (bytes_at p (hit_paddr s t v) n)
    else o = None).
Proof.
  intros Hs Ht Hn Hv. unfold read_memory_word_via_tlb. fold (hot_at s t (tlb_get_entry_index v)). fold (hot_of s t v).
  fold (hits s t n v). destruct (hits s t n v) eqn:Hh; [|done]. cbn [negb].
  destruct (hit_points s t n v Hs Ht Hn Hv Hh) as (i & p & He & -> & Hvn & Ha & Hp & Hpa). pose proof (word_size_divides n Hn).
  unfold host_read. erewrite host_read_unaligned_spec; [|apply Hs|done|lia|exact Hp]. cbn. exists p.
  unfold bytes_at. rewrite <- Hpa. split; [done|]. split; [done|]. split; [done|].
  eapply slice_range; [apply Hs|apply Hp|apply Hp|lia].
Qed.

Lemma upd_pmas_const f s : upd_pmas f s = upd_pmas (fun _ => f (s_pmas s)) s.
Proof. done. Qed.

Lemma tlb_ok_host_written s a n v i p :
  tlb_ok s -> 0 < n -> points (s_pmas s) a n i p -> tlb_ok (upd_pmas (fun l => <[i := host_written a n v p]> l) s).
Proof.
  intros Hs Hn Hp. rewrite upd_pmas_const. destruct (host_written_ok s (to_map _ Hs) a n v i p Hn Hp) as (H1 & H2 & _).
  apply tlb_ok_evolves; [done| |].
  - apply (evolves_insert (s_pmas s) i p); [apply Hp|done].
  - apply (host_map_ok_insert (s_pmas s) i p); [apply Hs|apply Hp|done|done].
Qed.

(** A store through the cache *)
Lemma write_via_tlb_spec s t n v val :
  tlb_ok s -> tlb_type t -> word_size n -> is_uint 64 v ->
  returns (write_memory_word_via_tlb s t n v val) (fun o =>
    if hits s t n v then exists i p, let a := uint64 (vh_offset (hot_of s t v) + v) in
      entry_ok (s_pmas s) (hot_of s t v) (cold_of s t v) p /\ v `mod` n = 0 /\ points (s_pmas s) a n i p /\
      a - base p = hit_paddr s t v - m_start p /\
      o = Some (upd_pmas (fun l => <[i := host_written a n val p]> l) s)
    else o = None).
Proof.
  intros Hs Ht Hn Hv. unfold write_memory_word_via_tlb. fold (hot_at s t (tlb_get_entry_index v)). fold (hot_of s t v).
  fold (hits s t n v). destruct (hits s t n v) eqn:Hh; [|done]. cbn [negb].
  destruct (hit_points s t n v Hs Ht Hn Hv Hh) as (i & p & He & -> & Hvn & Ha & Hp & Hpa). pose proof (word_size_divides n Hn).
  erewrite host_write_spec; [|apply Hs|done|lia|exact Hp]. cbn. by exists (Z.to_nat (pma_index (cold_of s t v))), p.
Qed.

(** ** Replacement *)

Lemma page_within p a :
  range_ok p -> m_start p <= a < m_start p + m_length p ->
  m_start p <= a - a `mod` 4096 /\ a - a `mod` 4096 + 4096 <= m_start p + m_length p /\ (a - a `mod` 4096) `mod` 4096 = 0.
Proof. intros [_ _ H1 H2 _] Ha. change PMA_PAGE_SIZE with 4096 in *. Z.div_mod_to_equations; lia. Qed.

Lemma replace_tlb_entry_spec s t v paddr i p :
  tlb_ok s -> tlb_type t -> is_uint 64 v -> is_uint 64 paddr ->
  s_pmas s !! i = Some p -> get_istart_M p = true -> m_start p <= paddr < m_start p + m_length p ->
  returns (replace_tlb_entry s t v paddr p) (fun '(hpage, s') =>
    tlb_ok s' /\ kept s s' /\ hpage = base p + (paddr - paddr `mod` 4096 - m_start p) /\
    hot_of s' t v = TlbHotEntry (v - v `mod` 4096) (uint64 (hpage - (v - v `mod` 4096))) /\
    cold_of s' t v = TlbColdEntry (paddr - paddr `mod` 4096) (Z.of_nat i)).
Proof.
  intros Hs Ht Hv Hpa Hi HM Hin. unfold replace_tlb_entry. set (e := tlb_get_entry_index v).
  pose proof (index_slot v : tlb_slot e) as He. fold (hot_at s t e).
  set (m := if _ && _ then _ else _).
  assert (exists s1, m = Done s1 /\ s_tlb s1 = s_tlb s /\ kept s s1) as (s1 & -> & Ht1 & Hk1).
  { unfold m. destruct ((t =? TLB_WRITE) && negb (vaddr_page (hot_at s t e) =? TLB_INVALID_PAGE)) eqn:Ew.
    - reflect_bools. subst t. destruct (mark_written_page_spec s e) as (s1 & -> & ? & ? & _); [|by exists s1].
      by apply (tw_write _ (tlb_ok_wf _ Hs)).
    - by exists s. }
  cbn [mbind outcome_bind]. destruct (buffer_memory p HM) as (mem & -> & _ & Hbase). cbn [mbind outcome_bind].
  rewrite !page_of_spec, Hbase by done. cbn [returns mret outcome_ret].
  destruct (hm_buffers _ (to_map _ Hs) i p Hi HM) as ([Hok Hb1 Hb2 _] & Hix & Hlt).
  pose proof (Forall_lookup_1 _ _ _ _ (map_ranges _ (hm_map _ (to_map _ Hs))) Hi) as Hr.
  destruct (page_within p paddr Hr Hin) as (Hp1 & Hp2 & Hp3). pose proof (wf_end _ (ok_wf _ Hok)). pose proof (rg_start _ Hr) as Hst.
  unfold is_uint in Hpa, Hst. rewrite (uint_id 64 (paddr - _ - _)) by (unfold is_uint; lia).
  rewrite (uint_id 64 (base p + _)) by (unfold is_uint; lia).
  set (hpage := base p + _). set (h := TlbHotEntry _ _). set (c := TlbColdEntry _ _).
  assert (machine_wf s1) as Hwf1 by (eapply machine_wf_kept; [exact Hk1|done|apply Hs]).
  assert (forall t' j, tlb_type t' -> tlb_slot j ->
    hot_at (set_tlb_cold t e c (set_tlb_hot t e h s1)) t' j = (if bool_decide (t' = t /\ j = e) then h else hot_at s t' j) /\
    cold_at (set_tlb_cold t e c (set_tlb_hot t e h s1)) t' j = (if bool_decide (t' = t /\ j = e) then c else cold_at s t' j))
    as Hlook.
  { intros t' j Ht' Hj. rewrite cold_at_set by (done || by apply set_tlb_hot_wf).
    change (hot_at (set_tlb_cold ?a ?b ?d ?x) t' j) with (hot_at x t' j). rewrite hot_at_set by done.
    change (cold_at (set_tlb_hot ?a ?b ?d ?x) t' j) with (cold_at x t' j). unfold hot_at, cold_at. by rewrite Ht1. }
  assert (kept s (set_tlb_cold t e c (set_tlb_hot t e h s1))) as Hk2.
  { etrans; [exact Hk1|]. unfold set_tlb_cold, set_tlb_hot. etrans; apply upd_tlb_kept. }
  split; [|split; [done|split; [done|]]].
  - split.
    + apply set_tlb_cold_wf, set_tlb_hot_wf, Hwf1.
    + eapply dirtier_map_ok; [apply Hk2|apply Hs].
    + intros t' j Ht' Hj. unfold valid_at. destruct (Hlook t' j Ht' Hj) as [-> ->]. case_bool_decide as Ej.
      * intros _. eapply entry_ok_evolves; [apply dirtier_evolves, Hk2|]. split; cbn; rewrite ?Hix, ?Nat2Z.id; try done; try lia.
        -- Z.div_mod_to_equations; lia.
        -- rewrite uint_add_l by lia. replace (hpage - _ + _) with hpage by lia. apply uint_id. unfold is_uint, hpage. lia.
      * intros Hval. destruct (to_entries _ Hs t' j Ht' Hj Hval) as (q & Hq).
        eapply entry_ok_evolves; [apply dirtier_evolves, Hk2|exact Hq].
  - unfold hot_of, cold_of. fold e. destruct (Hlook t e Ht He) as [-> ->]. rewrite bool_decide_eq_true_2 by done.
    unfold c. by rewrite Hix.
Qed.

(** ** The invariant *)

(** The contents of the pages of each entry of the map at an earlier time *)
Definition page_image : Type := nat -> Z -> list Z.

Definition pages_of (l : list pma_entry) : page_image :=
  fun i k => match l !! i with Some p => page p k | None => [] end.

(** A write entry of the cache holds the page [k] of the entry [i] of the map. *)
Definition in_write_tlb (s : machine_state) (i : nat) (p : pma_entry) (k : Z) : Prop :=
  exists j, tlb_slot j /\ valid_at s TLB_WRITE j /\ Z.to_nat (pma_index (cold_at s TLB_WRITE j)) = i /\
    paddr_page (cold_at s TLB_WRITE j) = m_start p + k * PMA_PAGE_SIZE.

Definition tracked_since (old : page_image) (s : machine_state) : Prop := forall i p k,
  s_pmas s !! i = Some p -> get_istart_M p = true -> 0 <= k ->
  page_dirty p k = true \/ in_write_tlb s i p k \/ page p k = old i k.

Lemma tracked_since_refl s : tracked_since (pages_of (s_pmas s)) s.
Proof. intros i p k Hi _ _. right. right. unfold pages_of. by rewrite Hi. Qed.

Lemma tracked_since_same old s s' : s_tlb s' = s_tlb s -> s_pmas s' = s_pmas s -> tracked_since old s -> tracked_since old s'.
Proof. intros Ht Hp H i p k. unfold in_write_tlb, valid_at, hot_at, cold_at. rewrite Ht, Hp. apply H. Qed.

(** ** Changes of the cache *)

(** Every write entry is kept, or its page is marked. *)
Definition written_kept (s s' : machine_state) : Prop := forall j, tlb_slot j -> valid_at s TLB_WRITE j ->
  (valid_at s' TLB_WRITE j /\ cold_at s' TLB_WRITE j = cold_at s TLB_WRITE j) \/ marked_in s' (cold_at s TLB_WRITE j).

Lemma tracked_since_kept old s s' :
  kept s s' -> written_kept s s' -> tracked_since old s -> tracked_since old s'.
Proof.
  intros [_ Hp] Hw H i p' k Hi HM Hk. destruct (Forall2_lookup_r _ _ _ _ _ Hp Hi) as (p & Hi0 & Hs & Hd).
  pose proof Hs as Hm. apply same_memory_shape in Hm as (EM & _ & _ & Est & _).
  destruct (H i p k Hi0) as [Hdp|[(j & Hj & Hv & Hx & Hpp)|Ho]]; [congruence|done|..].
  - left. by apply Hd.
  - destruct (Hw j Hj Hv) as [[Hv' Ec]|(q & Hq & Hm)].
    + right. left. exists j. rewrite Ec, Est. done.
    + left. rewrite Hx, Hi in Hq. injection Hq as <-. rewrite Hpp, Est in Hm.
      rewrite (Z.add_comm (m_start p)), Z.add_simpl_r, Z.div_mul in Hm by done. exact Hm.
  - right. right. rewrite <- Ho. unfold page. by rewrite (same_memory_host _ _ Hs).
Qed.

Lemma written_kept_flushes ts s s' : (forall t, Decision (ts t)) -> flushes ts s s' -> written_kept s s'.
Proof.
  intros Hdec Hf j Hj Hv. destruct (decide (ts TLB_WRITE)) as [Hin|Hn].
  - right. by apply (fs_marked ts s s' Hf).
  - left. split; [|by apply (fs_cold ts s s' Hf)]. unfold valid_at. by rewrite (fs_other ts s s' Hf).
Qed.

Lemma mark_written_page_image s i s1 :
  tlb_ok s -> tlb_slot i -> valid_at s TLB_WRITE i -> mark_written_page s i = Done s1 ->
  s_tlb s1 = s_tlb s /\ machine_wf s1 /\ marked_in s1 (cold_at s TLB_WRITE i).
Proof.
  intros Hs Hi Hv E. destruct (mark_written_page_spec s i) as (s2 & E2 & Ht & Hk & Hm).
  - by apply (tw_write _ (tlb_ok_wf _ Hs)).
  - rewrite E in E2. injection E2 as <-. split; [done|]. split; [|done]. eapply machine_wf_kept; [exact Hk|done|apply Hs].
Qed.

(** The replacement of a write entry marks the page of the one it replaces. *)
Lemma written_kept_replace s t v paddr p hpage s' :
  tlb_ok s -> tlb_type t -> replace_tlb_entry s t v paddr p = Done (hpage, s') -> written_kept s s'.
Proof.
  intros Hs Ht E j Hj Hv. unfold replace_tlb_entry in E. set (e := tlb_get_entry_index v) in *.
  fold (hot_at s t e) in E. pose proof (index_slot v : tlb_slot e) as He. cbv zeta in E.
  apply outcome_bind_done in E as (s1 & E1 & E). apply outcome_bind_done in E as (m & _ & E). injection E as _ <-.
  assert (s_tlb s1 = s_tlb s /\ machine_wf s1 /\ (t = TLB_WRITE /\ j = e -> marked_in s1 (cold_at s TLB_WRITE j)))
    as (Etlb & Hwf & Hm).
  { destruct ((t =? TLB_WRITE) && negb (vaddr_page (hot_at s t e) =? TLB_INVALID_PAGE)) eqn:Ew.
    - reflect_bools. subst t. destruct (mark_written_page_image s e s1) as (? & ? & ?); try done.
      split; [done|]. split; [done|]. by intros [_ ->].
    - injection E1 as <-. split; [done|]. split; [apply Hs|]. intros [-> ->]. exfalso.
      apply andb_false_iff in Ew as [?|Ew]; [done|]. apply negb_false_iff, Z.eqb_eq in Ew. by destruct Hv. }
  destruct (decide (t = TLB_WRITE /\ j = e)) as [He'|Hne].
  - right. destruct (Hm He') as (q & Hq & Hd). by exists q.
  - left. unfold valid_at. rewrite cold_at_set by (done || by apply set_tlb_hot_wf).
    change (hot_at (set_tlb_cold ?a ?b ?d ?x) TLB_WRITE j) with (hot_at x TLB_WRITE j). rewrite hot_at_set by done.
    change (cold_at (set_tlb_hot ?a ?b ?d ?x) TLB_WRITE j) with (cold_at x TLB_WRITE j).
    rewrite !bool_decide_eq_false_2 by naive_solver. unfold hot_at, cold_at. rewrite Etlb. done.
Qed.

(** ** Changes of the contents *)

(** The pages of a range that are clean after the change were clean before, and
    have the same contents. *)
Definition tracked_map (l l' : list pma_entry) : Prop :=
  Forall2 (fun p p' => get_istart_M p' = true -> tracked p p') l l'.

Lemma tracked_map_insert l i p p' : l !! i = Some p -> tracked p p' -> tracked_map l (<[i := p']> l).
Proof.
  intros Hi Hp. apply Forall2_same_length_lookup_2; [by rewrite length_insert|].
  intros j q q' Hq Hq' _. destruct (decide (i = j)) as [<-|Hne].
  - rewrite list_lookup_insert_eq in Hq' by (by eapply lookup_lt_Some). by simplify_eq.
  - rewrite list_lookup_insert_ne in Hq' by done. by simplify_eq.
Qed.

Lemma tracked_map_refl l : tracked_map l l.
Proof. apply Forall2_same_length_lookup_2; [done|]. intros i p q Hp Hq _. by simplify_eq. Qed.

Lemma tracked_since_pmas old s l :
  evolves (s_pmas s) l -> tracked_map (s_pmas s) l -> tracked_since old s -> tracked_since old (upd_pmas (fun _ => l) s).
Proof.
  intros He Hl H i p' k Hi HM Hk. change (l !! i = Some p') in Hi.
  destruct (Forall2_lookup_r _ _ _ _ _ He Hi) as (p & Hi0 & (EM & _ & _ & Est & _) & _).
  destruct (Forall2_lookup_r _ _ _ _ _ Hl Hi) as (p0 & Hi1 & Ht). rewrite Hi0 in Hi1. injection Hi1 as <-.
  destruct (page_dirty p' k) eqn:Hd; [by left|]. right. destruct (Ht HM k Hk Hd) as [Hd0 ->].
  destruct (H i p k Hi0) as [?|[Hw|Ho]]; [congruence|done|congruence| |by right].
  left. destruct Hw as (j & Hj & Hv & Hx & Hpp). exists j. by rewrite Est.
Qed.

(** A store to a page that a write entry holds *)
Lemma tracked_since_written old s a n v i p k :
  tlb_ok s -> 0 < n -> points (s_pmas s) a n i p -> (a - base p) `div` PMA_PAGE_SIZE = k ->
  (a - base p) `mod` PMA_PAGE_SIZE + n <= PMA_PAGE_SIZE -> in_write_tlb s i p k ->
  tracked_since old s -> tracked_since old (upd_pmas (fun l => <[i := host_written a n v p]> l) s).
Proof.
  intros Hs Hn Hp Ek Hin Hw H i' q k' Hi' HM Hk'.
  change (<[i := host_written a n v p]> (s_pmas s) !! i' = Some q) in Hi'.
  destruct (host_written_ok s (to_map _ Hs) a n v i p Hn Hp) as (_ & _ & Hh).
  destruct (decide (i = i')) as [<-|Hne].
  - rewrite list_lookup_insert_eq in Hi' by (eapply lookup_lt_Some; apply Hp). injection Hi' as <-.
    change (page_dirty (host_written a n v p) k') with (page_dirty p k').
    destruct (decide (k' = k)) as [->|Hk]; [by right; left|].
    destruct Hp as (Hi & HM0 & Hlo & Hhi). destruct (H i p k' Hi HM0 Hk') as [?|[?|Ho]]; [by left|by right; left|].
    right. right. rewrite <- Ho. unfold page. rewrite Hh. unfold slice.
    pose proof (host_length p (bf_memory _ (proj1 (hm_buffers _ (to_map _ Hs) i p Hi HM0)))) as Hlen.
    apply splice_read_ne.
    + rewrite length_le_bytes. lia.
    + rewrite length_le_bytes. clear - Ek Hin Hk Hk' Hn Hlo. page_lia.
  - rewrite list_lookup_insert_ne in Hi' by done. by apply H.
Qed.

(** A word written and marked *)
Lemma tracked_store p a v p1 p2 (o := uint64 (a - m_start p)) :
  memory_ok p -> contains p a 8 = true -> aliased_aligned_write p o v = Done p1 -> mark_dirty_page p1 o = Done p2 ->
  tracked p p2.
Proof.
  intros Hok Hc Hw Hm. destruct (store_word_spec p a o v p1 p2 Hok Hc Hw Hm) as (_ & _ & Hh & Ho).
  destruct (contains_offset p a (ok_wf _ Hok) Hc) as [_ Hin]. fold o in Hin, Ho.
  pose proof (ok_wf _ Hok) as Hwf. pose proof (wf_host p Hwf) as Hl.
  assert (memory_wf p1 /\ m_dirty_page_map p1 = m_dirty_page_map p /\ m_length p1 = m_length p) as (Hwf1 & Emap & El).
  { unfold aliased_aligned_write in Hw. apply outcome_bind_done in Hw as (u & Hu & Hw). apply outcome_bind_done in Hw as (m & Hg & Hw).
    injection Hw as <-. split; [|done]. apply set_host_memory_wf; [done|].
    destruct (get_memory_host p Hwf) as (m' & Hg' & Hm'). rewrite Hg in Hg'. injection Hg' as <-. rewrite Hm'.
    rewrite length_splice; [done|]. rewrite length_le_bytes. lia. }
  destruct (mark_dirty_page_spec p1 o Hwf1) as (p2' & Hm2 & _ & Hd); [lia|]. rewrite Hm in Hm2. injection Hm2 as <-.
  intros k Hk Hc2. rewrite Hd in Hc2 by done. apply orb_false_iff in Hc2 as [Hc1 Hne]. apply Z.eqb_neq in Hne. split.
  - unfold page_dirty in *. by rewrite <- Emap.
  - unfold page. rewrite Hh. apply splice_read_ne.
    + rewrite length_le_bytes. lia.
    + rewrite length_le_bytes. clear - Hne Hk Hin Ho. page_lia.
Qed.
