(* ===== verification/VirtualMemory.v ===== *)
(** * Virtual memory (interpret.cpp)

    Loads, stores and instruction fetches: through the translation cache when
    the address hits, through the page tables, the memory map and the devices
    when it does not. *)

From S2P Require Import Prelude CppInt Constants RiscvConstants Bytes Pma MachineState UarchState DeviceAccess Tlb Trap TranslateVirtualAddress.

(** ** The state of the interpreter

    The state of the machine, and the console its devices reach *)

Record hart := Hart { h_s : machine_state; h_input : list Z; h_output : list Z }.

Definition set_s (s : machine_state) (h : hart) : hart := Hart s (h_input h) (h_output h).

(** [device_state_access da(a, mcycle)], and the state after the device ran *)
Definition device_state_access (h : hart) (mcycle : Z) : device_access :=
  DeviceAccess (h_s h) mcycle (h_input h) (h_output h).
Definition after_device (da : device_access) : hart := Hart (da_s da) (da_input da) (da_output da).

(** ** Word types

    The type argument [T] of the accesses *)

Record word_type := WordType { sizeof : Z; is_signed : bool }.

Definition uint8_t : word_type := WordType 1 false.
Definition uint16_t : word_type := WordType 2 false.
Definition uint32_t : word_type := WordType 4 false.
Definition uint64_t : word_type := WordType 8 false.
Definition int8_t : word_type := WordType 1 true.
Definition int16_t : word_type := WordType 2 true.
Definition int32_t : word_type := WordType 4 true.
Definition int64_t : word_type := WordType 8 true.

(** [static_cast<T>] *)
Definition cast (T : word_type) (v : Z) : Z :=
  if is_signed T then sint (8 * sizeof T) v else uint (8 * sizeof T) v.
Definition log2_size (T : word_type) : Z := Z.log2 (sizeof T).

(** A trap in the course of an access *)
Definition raise_at (h : hart) (pc cause tval : Z) : outcome (Z * hart) :=
  '(pc, s) ← raise_exception (h_s h) pc cause tval; mret (pc, set_s s h).

Section access.

(** The callbacks of a device, by the name of its driver *)
Context (driver : string -> pma_driver).

Definition device_driver (pma : pma_entry) : pma_driver :=
  driver match m_data pma with pma_device name => name | _ => EmptyString end.

(** ** Loads

    The value, or [None] with the address of the handler *)

Definition load_fault (h : hart) (pc cause vaddr : Z) : outcome (option Z * Z * hart) :=
  '(pc, h) ← raise_at h pc cause vaddr; mret (None, pc, h).

Definition read_virtual_memory_slow (T : word_type) (RAISE_STORE_EXCEPTIONS : bool)
    (h : hart) (pc mcycle vaddr : Z) : outcome (option Z * Z * hart) :=
  let misaligned_cause :=
    if RAISE_STORE_EXCEPTIONS then MCAUSE_STORE_AMO_ADDRESS_MISALIGNED else MCAUSE_LOAD_ADDRESS_MISALIGNED in
  let page_fault := if RAISE_STORE_EXCEPTIONS then MCAUSE_STORE_AMO_PAGE_FAULT else MCAUSE_LOAD_PAGE_FAULT in
  let access_fault := if RAISE_STORE_EXCEPTIONS then MCAUSE_STORE_AMO_ACCESS_FAULT else MCAUSE_LOAD_ACCESS_FAULT in
  if negb ((vaddr &ᵇ (sizeof T - 1)) =? 0) then load_fault h pc misaligned_cause vaddr
  else
    '(paddr, s) ← translate_virtual_address true (h_s h) vaddr PTE_XWR_R_SHIFT;
    let h := set_s s h in
    match paddr with
    | None => load_fault h pc page_fault vaddr
    | Some paddr =>
        '(_, pma) ← find_pma_entry_sized s (sizeof T) paddr;
        if flag_R (m_flags pma) && get_istart_M pma then
          '(hpage, s) ← replace_tlb_entry s TLB_READ vaddr paddr pma;
          let hoffset := vaddr &ᵇ PAGE_OFFSET_MASK in
          val ← host_read s (uint64 (hpage + hoffset)) (sizeof T);
          mret (Some (cast T val), pc, set_s s h)
        else if flag_R (m_flags pma) && get_istart_IO pma then
          let offset := uint64 (paddr - m_start pma) in
          let '(val, da) := drv_read (device_driver pma) offset (log2_size T) (device_state_access h mcycle) in
          match val with
          | Some val => mret (Some (cast T val), pc, after_device da)
          | None => load_fault (after_device da) pc access_fault vaddr
          end
        else load_fault h pc access_fault vaddr
    end.

Definition read_virtual_memory (T : word_type) (RAISE_STORE_EXCEPTIONS : bool)
    (h : hart) (pc mcycle vaddr : Z) : outcome (option Z * Z * hart) :=
  val ← read_memory_word_via_tlb (h_s h) TLB_READ (sizeof T) vaddr;
  match val with
  | Some val => mret (Some (cast T val), pc, h)
  | None => read_virtual_memory_slow T RAISE_STORE_EXCEPTIONS h pc mcycle vaddr
  end.

(** ** Stores

    The status of the store; the address of the handler after a [failure] *)

Definition store_fault (h : hart) (pc cause vaddr : Z) : outcome (execute_status * Z * hart) :=
  '(pc, h) ← raise_at h pc cause vaddr; mret (failure, pc, h).

Definition write_virtual_memory_slow (T : word_type) (h : hart) (pc mcycle vaddr val64 : Z) :
    outcome (execute_status * Z * hart) :=
  if negb ((vaddr &ᵇ (sizeof T - 1)) =? 0) then store_fault h pc MCAUSE_STORE_AMO_ADDRESS_MISALIGNED vaddr
  else
    '(paddr, s) ← translate_virtual_address true (h_s h) vaddr PTE_XWR_W_SHIFT;
    let h := set_s s h in
    match paddr with
    | None => store_fault h pc MCAUSE_STORE_AMO_PAGE_FAULT vaddr
    | Some paddr =>
        '(_, pma) ← find_pma_entry_sized s (sizeof T) paddr;
        if flag_W (m_flags pma) && get_istart_M pma then
          '(hpage, s) ← replace_tlb_entry s TLB_WRITE vaddr paddr pma;
          let hoffset := vaddr &ᵇ PAGE_OFFSET_MASK in
          s ← host_write s (uint64 (hpage + hoffset)) (sizeof T) (cast T val64);
          mret (success, pc, set_s s h)
        else if flag_W (m_flags pma) && get_istart_IO pma then
          let offset := uint64 (paddr - m_start pma) in
          let '(status, da) := drv_write (device_driver pma) offset (uint (8 * sizeof T) (cast T val64)) (log2_size T)
                                 (device_state_access h mcycle) in
          if negb (bool_decide (status = failure)) then mret (status, pc, after_device da)
          else store_fault (after_device da) pc MCAUSE_STORE_AMO_ACCESS_FAULT vaddr
        else store_fault h pc MCAUSE_STORE_AMO_ACCESS_FAULT vaddr
    end.

Definition write_virtual_memory (T : word_type) (h : hart) (pc mcycle vaddr val64 : Z) :
    outcome (execute_status * Z * hart) :=
  s ← write_memory_word_via_tlb (h_s h) TLB_WRITE (sizeof T) vaddr (cast T val64);
  match s with
  | Some s => mret (success, pc, set_s s h)
  | None => write_virtual_memory_slow T h pc mcycle vaddr val64
  end.

End access.

(** ** Fetches *)

(** The host pointer, or [None] with the address of the handler *)
Definition fetch_translate_pc_slow (s : machine_state) (pc vaddr : Z) : outcome (option Z * Z * machine_state) :=
  '(paddr, s) ← translate_virtual_address true s vaddr PTE_XWR_X_SHIFT;
  match paddr with
  | None => '(pc, s) ← raise_exception s pc MCAUSE_FETCH_PAGE_FAULT vaddr; mret (None, pc, s)
  | Some paddr =>
      '(_, pma) ← find_pma_entry_sized s 2 paddr;
      if negb (get_istart_M pma) || negb (flag_X (m_flags pma)) then
        '(pc, s) ← raise_exception s pc MCAUSE_INSN_ACCESS_FAULT vaddr; mret (None, pc, s)
      else
        '(hpage, s) ← replace_tlb_entry s TLB_CODE vaddr paddr pma;
        let hoffset := vaddr &ᵇ PAGE_OFFSET_MASK in
        mret (Some (uint64 (hpage + hoffset)), pc, s)
  end.

Definition fetch_translate_pc (s : machine_state) (pc vaddr : Z) : outcome (option Z * Z * machine_state) :=
  match translate_vaddr_via_tlb s TLB_CODE 2 vaddr with
  | Some hptr => Done (Some hptr, pc, s)
  | None => fetch_translate_pc_slow s pc vaddr
  end.

(** The cache of the last fetch: its page, and what to add to an address of the
    page to get the host pointer *)
Record fetch_cache := FetchCache { fetch_vaddr_page : Z; fetch_vh_offset : Z }.

(** The instruction, or [None] after an exception *)
Definition fetch_insn (s : machine_state) (pc : Z) (c : fetch_cache) : outcome (option Z * Z * fetch_cache * machine_state) :=
  if (pc ^ᵇ fetch_vaddr_page c) <? PMA_PAGE_SIZE - 2 then
    insn ← host_read_unaligned s (uint64 (pc + fetch_vh_offset c)) 2 4;
    mret (Some insn, pc, c, s)
  else
    '(hptr, new_pc, s) ← fetch_translate_pc s pc pc;
    match hptr with
    | None => mret (None, new_pc, c, s)
    | Some hptr =>
        let c := FetchCache (pc &ᵇ not64 PAGE_OFFSET_MASK) (uint64 (hptr - pc)) in
        if Z.shiftr (not64 pc &ᵇ PAGE_OFFSET_MASK) 1 =? 0 then
          insn ← host_read s hptr 2;
          if insn_is_uncompressed insn then
            let vaddr := uint64 (pc + 2) in
            '(hptr, new_pc, s) ← fetch_translate_pc s pc vaddr;
            match hptr with
            | None => mret (None, new_pc, c, s)
            | Some hptr =>
                let c := FetchCache vaddr (uint64 (hptr - vaddr)) in
                high ← host_read s hptr 2;
                mret (Some (insn |ᵇ Z.shiftl high 16), pc, c, s)
            end
          else mret (Some insn, pc, c, s)
        else
          insn ← host_read_unaligned s hptr 2 4;
          mret (Some insn, pc, c, s)
    end.
