(* ===== verification/MachineOk.v ===== *)
(** * Well-formed machines

    The invariant of the interpreter: the registers hold values of their width,
    the privilege modes exist, the trap vectors are even, the delegated and
    enabled interrupts are those the machine has, the translation cache points to
    the memory, and every page that changed since the Merkle tree was last
    updated is marked dirty or reached through a write entry of the cache.  One
    lemma per register says which assignments keep the invariant; together they
    are the hint database [machine].

    The file ends with a small machine, of four pages of memory and a host-target
    interface at the addresses of the real one, for the concrete runs of the
    theorems. *)

From S2P Require Import Prelude CppInt Constants RiscvConstants UarchAccess Bytes RV64IM Pma PmaSpec MachineState UarchBridge UarchBridgeSpec UarchState UarchStateSpec DeviceAccess Clint Htif Tlb Trap Csr CsrInsns TranslateVirtualAddress HostMemory HostTlb VirtualMemory.

(** ** Values *)

Definition is_even (v : Z) : Prop := v `mod` 2 = 0.
Definition is_prv (p : Z) : Prop := p = PRV_U \/ p = PRV_S \/ p = PRV_M.

(** The field MPP of [mstatus] is a mode: it is not 2. *)
Definition legal_mpp (mstatus : Z) : Prop := Z.testbit mstatus 12 = true -> Z.testbit mstatus 11 = true.

Definition bits_within (v mask : Z) : Prop := forall i, 0 <= i -> Z.testbit v i = true -> Z.testbit mask i = true.

(** The interrupts of the machine, and those that can be delegated *)
Definition IE_MASK : Z :=
  MIP_MSIP_MASK |ᵇ MIP_MTIP_MASK |ᵇ MIP_MEIP_MASK |ᵇ MIP_SSIP_MASK |ᵇ MIP_STIP_MASK |ᵇ MIP_SEIP_MASK.

Create HintDb machine.
#[export] Hint Resolve uint_range land_uint lor_uint lxor_uint : machine.
#[export] Hint Extern 1 (_ <= _) => lia : machine.
#[export] Hint Extern 1 (_ < _) => lia : machine.
#[export] Hint Extern 1 (is_uint _ (not64 _)) => apply uint_range; lia : machine.
#[export] Hint Extern 2 (is_uint _ _) => split; [discriminate 1|reflexivity] : machine.

(** Computes the bits of constants. *)
Ltac const_bits :=
  repeat match goal with
  | |- context [Z.testbit ?c ?i] =>
      let b := eval vm_compute in (Z.testbit c i) in
      match b with
      | true => change (Z.testbit c i) with true
      | false => change (Z.testbit c i) with false
      end
  end.

(** Bits of expressions over masks *)
Ltac bit_rules :=
  rewrite ?Z.land_spec, ?Z.lor_spec, ?Z.lxor_spec;
  const_bits; cbn [andb orb xorb negb]; rewrite ?andb_true_r, ?andb_false_r, ?orb_false_r, ?orb_true_r.

Lemma not64_testbit m i : 0 <= i -> Z.testbit (not64 m) i = (i <? 64) && negb (Z.testbit m i).
Proof. intros. unfold not64. rewrite uint_testbit by lia. by rewrite Z.lnot_spec. Qed.

Lemma testbit_within w v i : is_uint w v -> 0 <= w -> 0 <= i -> Z.testbit v i = true -> i < w.
Proof. intros Hv Hw Hi Hb. destruct (Z.lt_ge_cases i w); [done|]. by rewrite (testbit_above v w i) in Hb. Qed.

(** ** The invariant *)

(** What does not change while the machine runs: the mode (reproducible or not)
    it was started in, the layout of its memory, the empty entry, and the pages as
    the Merkle tree has them *)
Record fixed := Fixed { fx_iunrep : Z; fx_map : list pma_entry; fx_empty : pma_entry; fx_pages : page_image }.

Record machine_ok (u : fixed) (s : machine_state) : Prop := {
  ok_tlb : tlb_ok s;
  ok_layout : evolves (fx_map u) (s_pmas s);
  ok_tracked : tracked_since (fx_pages u) s;
  ok_empty : s_empty_pma s = fx_empty u;
  ok_x : Forall (is_uint 64) (s_x s);
  ok_x0 : read_x s 0 = 0;
  ok_f : Forall (is_uint 64) (s_f s);
  ok_prv : is_prv (s_iprv s);
  ok_mpp : legal_mpp (s_mstatus s);
  ok_mie : is_uint 64 (s_mie s) /\ bits_within (s_mie s) IE_MASK;
  ok_mideleg : is_uint 64 (s_mideleg s) /\ bits_within (s_mideleg s) SUPERVISOR_MASK;
  ok_mtimecmp : is_uint 64 (mtimecmp (s_clint s));
  ok_iunrep : s_iunrep s = fx_iunrep u;
  ok_fcsr : is_uint 64 (s_fcsr s);
  ok_mstatus : is_uint 64 (s_mstatus s);
  ok_mscratch : is_uint 64 (s_mscratch s);
  ok_mcause : is_uint 64 (s_mcause s);
  ok_mtval : is_uint 64 (s_mtval s);
  ok_misa : is_uint 64 (s_misa s);
  ok_mip : is_uint 64 (s_mip s);
  ok_medeleg : is_uint 64 (s_medeleg s);
  ok_mcounteren : is_uint 64 (s_mcounteren s);
  ok_menvcfg : is_uint 64 (s_menvcfg s);
  ok_sscratch : is_uint 64 (s_sscratch s);
  ok_scause : is_uint 64 (s_scause s);
  ok_stval : is_uint 64 (s_stval s);
  ok_satp : is_uint 64 (s_satp s);
  ok_scounteren : is_uint 64 (s_scounteren s);
  ok_senvcfg : is_uint 64 (s_senvcfg s);
  ok_ilrsc : is_uint 64 (s_ilrsc s);
  ok_icycleinstret : is_uint 64 (s_icycleinstret s);
  ok_mtvec : is_uint 64 (s_mtvec s) /\ is_even (s_mtvec s);
  ok_mepc : is_uint 64 (s_mepc s) /\ is_even (s_mepc s);
  ok_stvec : is_uint 64 (s_stvec s) /\ is_even (s_stvec s);
  ok_sepc : is_uint 64 (s_sepc s) /\ is_even (s_sepc s);
}.

Lemma tlb_ok_same s s' :
  s_tlb s' = s_tlb s -> s_pmas s' = s_pmas s -> length (s_x s') = length (s_x s) -> length (s_f s') = length (s_f s) ->
  tlb_ok s -> tlb_ok s'.
Proof.
  intros Ht Hp Hx Hf [[] H2 H3]. split; [split; congruence|congruence|].
  intros t i. unfold valid_at, hot_at, cold_at. rewrite Ht, Hp. apply H3.
Qed.

(** The memory and the cache may change with the registers kept. *)
Lemma machine_ok_memory u s s' :
  machine_ok u s -> s' = upd_tlb (fun _ => s_tlb s') (upd_pmas (fun _ => s_pmas s') s) ->
  evolves (s_pmas s) (s_pmas s') -> tlb_ok s' -> tracked_since (fx_pages u) s' -> machine_ok u s'.
Proof. intros [? Hl] E He Ht Hd. rewrite E in *. constructor; try done. cbn. by etrans. Qed.

Lemma machine_ok_kept u s s' : machine_ok u s -> kept s s' -> written_kept s s' -> tlb_ok s' -> machine_ok u s'.
Proof.
  intros H Hk Hw Ht. apply (machine_ok_memory u s); try done; [apply Hk|apply dirtier_evolves, Hk|].
  eapply tracked_since_kept; [done..|apply H].
Qed.

(** ** Assignments *)

Section assignments.
Context (u : fixed) (s : machine_state) (Hs : machine_ok u s).

Local Ltac assign_ok := intros; destruct Hs; constructor; try done; (by apply (tlb_ok_same s)) || by apply (tracked_since_same _ s).

Lemma ok_assign_fcsr v : is_uint 64 v -> machine_ok u (assign upd_fcsr v s).
Proof. assign_ok. Qed.
Lemma ok_assign_mstatus v : is_uint 64 v -> legal_mpp v -> machine_ok u (assign upd_mstatus v s).
Proof. assign_ok. Qed.
Lemma ok_assign_mscratch v : is_uint 64 v -> machine_ok u (assign upd_mscratch v s).
Proof. assign_ok. Qed.
Lemma ok_assign_mcause v : is_uint 64 v -> machine_ok u (assign upd_mcause v s).
Proof. assign_ok. Qed.
Lemma ok_assign_mtval v : is_uint 64 v -> machine_ok u (assign upd_mtval v s).
Proof. assign_ok. Qed.
Lemma ok_assign_misa v : is_uint 64 v -> machine_ok u (assign upd_misa v s).
Proof. assign_ok. Qed.
Lemma ok_assign_mip v : is_uint 64 v -> machine_ok u (assign upd_mip v s).
Proof. assign_ok. Qed.
Lemma ok_assign_medeleg v : is_uint 64 v -> machine_ok u (assign upd_medeleg v s).
Proof. assign_ok. Qed.
Lemma ok_assign_mcounteren v : is_uint 64 v -> machine_ok u (assign upd_mcounteren v s).
Proof. assign_ok. Qed.
Lemma ok_assign_menvcfg v : is_uint 64 v -> machine_ok u (assign upd_menvcfg v s).
Proof. assign_ok. Qed.
Lemma ok_assign_sscratch v : is_uint 64 v -> machine_ok u (assign upd_sscratch v s).
Proof. assign_ok. Qed.
Lemma ok_assign_scause v : is_uint 64 v -> machine_ok u (assign upd_scause v s).
Proof. assign_ok. Qed.
Lemma ok_assign_stval v : is_uint 64 v -> machine_ok u (assign upd_stval v s).
Proof. assign_ok. Qed.
Lemma ok_assign_satp v : is_uint 64 v -> machine_ok u (assign upd_satp v s).
Proof. assign_ok. Qed.
Lemma ok_assign_scounteren v : is_uint 64 v -> machine_ok u (assign upd_scounteren v s).
Proof. assign_ok. Qed.
Lemma ok_assign_senvcfg v : is_uint 64 v -> machine_ok u (assign upd_senvcfg v s).
Proof. assign_ok. Qed.
Lemma ok_assign_ilrsc v : is_uint 64 v -> machine_ok u (assign upd_ilrsc v s).
Proof. assign_ok. Qed.
Lemma ok_assign_icycleinstret v : is_uint 64 v -> machine_ok u (assign upd_icycleinstret v s).
Proof. assign_ok. Qed.
Lemma ok_assign_mtvec v : is_uint 64 v -> is_even v -> machine_ok u (assign upd_mtvec v s).
Proof. assign_ok. Qed.
Lemma ok_assign_mepc v : is_uint 64 v -> is_even v -> machine_ok u (assign upd_mepc v s).
Proof. assign_ok. Qed.
Lemma ok_assign_stvec v : is_uint 64 v -> is_even v -> machine_ok u (assign upd_stvec v s).
Proof. assign_ok. Qed.
Lemma ok_assign_sepc v : is_uint 64 v -> is_even v -> machine_ok u (assign upd_sepc v s).
Proof. assign_ok. Qed.
Lemma ok_assign_iprv v : is_prv v -> machine_ok u (assign upd_iprv v s).
Proof. assign_ok. Qed.
Lemma ok_assign_mie v : is_uint 64 v -> bits_within v IE_MASK -> machine_ok u (assign upd_mie v s).
Proof. assign_ok. Qed.
Lemma ok_assign_mideleg v : is_uint 64 v -> bits_within v SUPERVISOR_MASK -> machine_ok u (assign upd_mideleg v s).
Proof. assign_ok. Qed.
Lemma ok_assign_mcycle v : machine_ok u (assign upd_mcycle v s).
Proof. assign_ok. Qed.
Lemma ok_assign_pc v : machine_ok u (assign upd_pc v s).
Proof. assign_ok. Qed.
Lemma ok_upd_iflags f : machine_ok u (upd_iflags f s).
Proof. assign_ok. Qed.
Lemma ok_upd_htif f : machine_ok u (upd_htif f s).
Proof. assign_ok. Qed.
Lemma ok_upd_plic f : machine_ok u (upd_plic f s).
Proof. assign_ok. Qed.
Lemma ok_set_mtimecmp v : is_uint 64 v -> machine_ok u (set_mtimecmp v s).
Proof. assign_ok. Qed.
Lemma ok_upd_pmas l :
  evolves (s_pmas s) l -> host_map_ok l -> tracked_since (fx_pages u) (upd_pmas (fun _ => l) s) ->
  machine_ok u (upd_pmas (fun _ => l) s).
Proof. intros He Hl Ht. destruct Hs. constructor; try done; [by apply tlb_ok_evolves|]. cbn. by etrans. Qed.

Lemma ok_assign_x r v : 0 < r < 32 -> is_uint 64 v -> machine_ok u (assign_at upd_x (Z.to_nat r) v s).
Proof.
  intros Hr Hv. pose proof (wf_x _ (to_machine _ (ok_tlb _ _ Hs))) as Hl.
  pose proof (tracked_since_same _ s (assign_at upd_x (Z.to_nat r) v s) eq_refl eq_refl (ok_tracked _ _ Hs)).
  constructor; try apply Hs; try done.
  - apply (tlb_ok_same s); [done|done|apply length_insert|done|apply Hs].
  - apply (Forall_insert (is_uint 64) (s_x s)); [apply Hs|done].
  - unfold read_x. change (s_x (assign_at upd_x (Z.to_nat r) v s)) with (<[Z.to_nat r := v]> (s_x s)).
    rewrite nth_insert_ne by lia. exact (ok_x0 _ _ Hs).
Qed.

Lemma ok_write_f r v : is_uint 64 v -> machine_ok u (assign_at upd_f (Z.to_nat r) v s).
Proof.
  intros Hv. pose proof (tracked_since_same _ s (assign_at upd_f (Z.to_nat r) v s) eq_refl eq_refl (ok_tracked _ _ Hs)).
  constructor; try apply Hs; try done.
  - apply (tlb_ok_same s); [done|done|done|apply length_insert|apply Hs].
  - change (s_f (assign_at upd_f (Z.to_nat r) v s)) with (<[Z.to_nat r := v]> (s_f s)).
    destruct (decide (Z.to_nat r < length (s_f s))%nat); [apply Forall_insert; [apply Hs|done]|].
    rewrite list_insert_ge by lia. apply Hs.
Qed.

Lemma read_x_range r : is_uint 64 (read_x s r).
Proof.
  unfold read_x. destruct (decide (Z.to_nat r < length (s_x s))%nat) as [Hlt|].
  - eapply Forall_lookup_1; [apply Hs|]. by apply lookup_total_nth_Z.
  - rewrite nth_overflow by lia. done.
Qed.

Lemma flush_tlb_type_ok t : tlb_type t -> returns (flush_tlb_type t s) (machine_ok u).
Proof.
  intros Ht. destruct (flush_tlb_type_spec t s (tlb_ok_wf _ (ok_tlb _ _ Hs)) Ht) as (s' & -> & Hf). cbn.
  eapply machine_ok_kept; [exact Hs|apply Hf|apply (written_kept_flushes _ _ _ _ Hf)|].
  eapply tlb_ok_flushes; [|apply Hs|exact Hf]. intros t'. apply _.
Qed.

Lemma flush_all_tlb_ok : returns (flush_all_tlb s) (machine_ok u).
Proof.
  destruct (flush_all_tlb_spec s (tlb_ok_wf _ (ok_tlb _ _ Hs))) as (s' & -> & Hf). cbn.
  eapply machine_ok_kept; [exact Hs|apply Hf|apply (written_kept_flushes (fun _ => True) _ _ _ Hf)|].
  eapply tlb_ok_flushes; [|apply Hs|exact Hf]. intros t'. left. done.
Qed.

End assignments.

#[export] Hint Resolve read_x_range ok_assign_x ok_write_f flush_tlb_type_ok flush_all_tlb_ok : machine.
#[export] Hint Resolve ok_assign_fcsr ok_assign_mstatus ok_assign_mscratch ok_assign_mcause ok_assign_mtval
  ok_assign_misa ok_assign_mip ok_assign_medeleg ok_assign_mcounteren ok_assign_menvcfg
  ok_assign_sscratch ok_assign_scause ok_assign_stval ok_assign_satp ok_assign_scounteren
  ok_assign_senvcfg ok_assign_ilrsc ok_assign_icycleinstret ok_assign_mtvec ok_assign_mepc
  ok_assign_stvec ok_assign_sepc ok_assign_iprv ok_assign_mie ok_assign_mideleg
  ok_assign_mcycle ok_assign_pc ok_upd_iflags ok_upd_htif ok_upd_plic
  ok_set_mtimecmp
  : machine.
#[export] Hint Resolve ok_x ok_x0 ok_f ok_prv ok_mpp ok_mtimecmp ok_iunrep
  ok_fcsr ok_mstatus ok_mscratch ok_mcause ok_mtval ok_misa ok_mip
  ok_medeleg ok_mcounteren ok_menvcfg ok_sscratch ok_scause ok_stval ok_satp
  ok_scounteren ok_senvcfg ok_ilrsc ok_icycleinstret
  : machine.

(** ** Memory *)

Definition RAM_START : Z := 0x80000000.
Definition RAM_LENGTH : Z := 0x5000.
Definition HTIF_START : Z := 0x40008000.

(** The bytes of a list of words, followed by zeros up to [n] bytes *)
Definition pad (n : nat) (l : list Z) : list Z := take n (l ++ replicate n 0).
Definition words (n : nat) (l : list Z) : list Z := List.flat_map (le_bytes n) l.

Definition ram_entry (l : list Z) : pma_entry :=
  set_index 0 (set_flags (PmaFlags true true true true true 0)
    (memory_entry "RAM" RAM_START RAM_LENGTH (PmaMemory RAM_LENGTH 0x10000 (pad (Z.to_nat RAM_LENGTH) l)) memory_peek_cb)).

Definition htif_entry : pma_entry :=
  set_index 1 (set_flags (PmaFlags true true false false false 0)
    (device_entry "HTIF device" HTIF_START 0x1000 "HTIF" htif_peek_cb)).

Definition example_map (l : list Z) : list pma_entry := [ram_entry l; htif_entry; empty_entry "sentinel" 0 0].

(** All entries of the translation cache are invalid. *)
Definition empty_tlb : shadow_tlb_state :=
  ShadowTlbState (replicate 3 (replicate 256 (TlbHotEntry TLB_INVALID_PAGE 0))) (replicate 3 (replicate 256 no_cold_entry)).

(** The machine with [l] at the start of its memory, in machine mode *)
Definition boot (l : list Z) : machine_state :=
  upd_tlb (fun _ => empty_tlb) (upd_pmas (fun _ => example_map l) (assign upd_pc RAM_START (assign upd_iprv PRV_M blank_machine))).

Definition boot_fixed (l : list Z) : fixed := Fixed 0 (example_map l) (empty_entry "empty" 0 0) (pages_of (example_map l)).

(** ** Well-formedness *)

Lemma pad_length n l : length (pad n l) = n.
Proof. unfold pad. rewrite length_take, length_app, length_replicate. lia. Qed.

Lemma pad_bytes n l : Forall is_byte l -> Forall is_byte (pad n l).
Proof. intros. unfold pad. apply Forall_take, Forall_app. split; [done|]. by apply Forall_replicate. Qed.

Lemma words_bytes n l : Forall is_byte (words n l).
Proof. induction l as [|v l IH]; [by apply Forall_nil|]. apply Forall_app. split; [apply le_bytes_bytes|exact IH]. Qed.

Lemma ram_entry_ok l : Forall is_byte l -> memory_ok (ram_entry l).
Proof.
  intros Hl. split.
  - split; try done. unfold host, ram_entry. cbn [m_data set_index set_flags memory_entry m_length host_memory].
    apply pad_length.
  - by apply pad_bytes.
  - done.
Qed.

Lemma example_map_ok l : Forall is_byte l -> host_map_ok (example_map l).
Proof.
  intros Hl. pose proof (ram_entry_ok l Hl) as Hr. split; [split| |].
  - repeat (apply Forall_cons; split); [..|by apply Forall_nil]; by split.
  - apply Exists_cons_tl, Exists_cons_tl, Exists_cons_hd. done.
  - intros [|[|[|]]] p Hp HM; try discriminate Hp; injection Hp as <-; try discriminate HM. split; [|done]. by split.
  - intros [|[|[|]]] j p q Hi Hj Hp Hq Hne; try discriminate Hi; injection Hi as <-; try discriminate Hp.
    destruct j as [|[|[|]]]; try discriminate Hj; [done|injection Hj as <-; discriminate Hq..].
Qed.

Lemma empty_tlb_invalid t i : tlb_type t -> tlb_slot i -> vaddr_page (get_hot empty_tlb t i) = TLB_INVALID_PAGE.
Proof.
  intros Ht Hi. unfold get_hot, empty_tlb. cbn [hot].
  rewrite nth_replicate by (unfold tlb_type in Ht; lia).
  rewrite nth_replicate by (unfold tlb_slot in Hi; lia). done.
Qed.

Lemma boot_ok l : Forall is_byte l -> machine_ok (boot_fixed l) (boot l).
Proof.
  intros Hl. constructor; try (split; [discriminate 1|reflexivity]); try reflexivity; try (by split).
  - split; [by constructor|by apply example_map_ok|]. intros t i Ht Hi Hv. destruct Hv. exact (empty_tlb_invalid t i Ht Hi).
  - apply tracked_since_refl.
  - change (Forall (is_uint 64) (replicate 32 0)). by apply Forall_replicate.
  - change (Forall (is_uint 64) (replicate 32 0)). by apply Forall_replicate.
  - right; right; done.
  - intros H. discriminate H.
  - split; [done|]. intros i Hi. change (s_mie (boot l)) with 0. by rewrite Z.testbit_0_l.
  - split; [done|]. intros i Hi. change (s_mideleg (boot l)) with 0. by rewrite Z.testbit_0_l.
Qed.
