(* ===== verification/TrapSpec.v ===== *)
(** * Traps and returns

    What a trap writes, bit by bit; a return from the handler undoes it; traps
    and returns keep the invariant of the machine; and which interrupt is taken. *)

From S2P Require Import Prelude CppInt Constants RiscvConstants UarchAccess Bytes RV64IM Pma MachineState UarchBridge UarchBridgeSpec DeviceAccess Clint Tlb Trap Csr CsrInsns HostMemory HostTlb VirtualMemory MachineOk.

(** ** Fields *)

(** Replacing the [w] bits from [k] *)
Lemma insert_field_testbit m k w v i :
  0 <= k -> 0 <= w -> k + w <= 64 -> is_uint 64 m -> 0 <= v < 2 ^ w -> 0 <= i ->
  Z.testbit ((m &ᵇ not64 (Z.shiftl (2 ^ w - 1) k)) |ᵇ uint64 (Z.shiftl v k)) i =
  if (k <=? i) && (i <? k + w) then Z.testbit v (i - k) else Z.testbit m i.
Proof.
  intros Hk Hw Hkw Hm Hv Hi. rewrite Z.lor_spec, Z.land_spec, not64_testbit, uint_testbit, !Z.shiftl_spec by lia.
  replace (2 ^ w - 1) with (Z.ones w) by (rewrite Z.ones_equiv; lia).
  destruct (Z.leb_spec k i) as [Hki|Hki]; cbn [andb].
  - rewrite Z.testbit_ones by lia. test (0 <=? i - k) is true. cbn [andb].
    destruct (Z.ltb_spec i (k + w)).
    + test (i - k <? w) is true. test (i <? 64) is true. cbn [andb negb]. by rewrite andb_false_r.
    + test (i - k <? w) is false. rewrite (testbit_above v w (i - k)) by lia. cbn [negb]. rewrite andb_false_r, orb_false_r, andb_true_r.
      destruct (Z.ltb_spec i 64); [by rewrite andb_true_r|]. rewrite (testbit_above m 64 i) by done. done.
  - rewrite !(Z.testbit_neg_r _ (i - k)) by lia. test (i <? 64) is true. cbn [andb negb]. by rewrite andb_true_r, orb_false_r.
Qed.

Lemma clear_field_testbit m k w i :
  0 <= k -> 0 <= w -> k + w <= 64 -> is_uint 64 m -> 0 <= i ->
  Z.testbit (m &ᵇ not64 (Z.shiftl (2 ^ w - 1) k)) i = negb ((k <=? i) && (i <? k + w)) && Z.testbit m i.
Proof.
  intros Hk Hw Hkw Hm Hi. pose proof (insert_field_testbit m k w 0 i Hk Hw Hkw Hm) as H.
  rewrite Z.shiftl_0_l, Z.lor_0_r in H. rewrite H by (try lia; pose proof (pow2_pos w Hw); lia).
  rewrite Z.testbit_0_l. by destruct (_ && _).
Qed.

Lemma field_value m k w : 0 <= k -> 0 <= w -> Z.shiftr (m &ᵇ Z.shiftl (2 ^ w - 1) k) k = (m `div` 2 ^ k) `mod` 2 ^ w.
Proof.
  intros Hk Hw. rewrite Z.shiftr_land, Z.shiftr_shiftl_l, Z.sub_diag, Z.shiftl_0_r by lia.
  by rewrite land_ones_mod, Z.shiftr_div_pow2.
Qed.

Lemma field_testbit m k w i : 0 <= k -> 0 <= w -> 0 <= i -> Z.testbit ((m `div` 2 ^ k) `mod` 2 ^ w) i = (i <? w) && Z.testbit m (i + k).
Proof. intros Hk Hw Hi. rewrite <- Z.shiftr_div_pow2 by done. fold (uint w (Z.shiftr m k)). rewrite uint_testbit by done. by rewrite Z.shiftr_spec. Qed.

Lemma bit_value m k : 0 <= k -> Z.shiftr m k &ᵇ 1 = Z.b2z (Z.testbit m k).
Proof.
  intros. change 1 with (2 ^ 1 - 1) at 1. rewrite land_ones_mod by lia. change (2 ^ 1) with 2. rewrite <- Z.bit0_mod.
  by rewrite Z.shiftr_spec.
Qed.

(** ** Modes *)

Lemma is_prv_range p : is_prv p -> is_uint 64 p /\ 0 <= p < 2 ^ 2.
Proof. unfold is_prv, is_uint, PRV_U, PRV_S, PRV_M. lia. Qed.

(** The mode MPP, SPP hold *)
Definition mpp (mstatus : Z) : Z := (mstatus `div` 2 ^ 11) `mod` 2 ^ 2.
Definition spp (mstatus : Z) : Z := (mstatus `div` 2 ^ 8) `mod` 2 ^ 1.

Lemma mpp_spec m : Z.shiftr (m &ᵇ MSTATUS_MPP_MASK) MSTATUS_MPP_SHIFT = mpp m.
Proof. exact (field_value m 11 2 ltac:(lia) ltac:(lia)). Qed.
Lemma spp_spec m : Z.shiftr (m &ᵇ MSTATUS_SPP_MASK) MSTATUS_SPP_SHIFT = spp m.
Proof. exact (field_value m 8 1 ltac:(lia) ltac:(lia)). Qed.

Lemma mpie_spec m : Z.shiftr (m &ᵇ MSTATUS_MPIE_MASK) MSTATUS_MPIE_SHIFT = (m `div` 2 ^ 7) `mod` 2 ^ 1.
Proof. exact (field_value m 7 1 ltac:(lia) ltac:(lia)). Qed.
Lemma spie_spec m : Z.shiftr (m &ᵇ MSTATUS_SPIE_MASK) MSTATUS_SPIE_SHIFT = (m `div` 2 ^ 5) `mod` 2 ^ 1.
Proof. exact (field_value m 5 1 ltac:(lia) ltac:(lia)). Qed.

Lemma spp_prv m : is_prv (spp m).
Proof. pose proof (Z.mod_pos_bound (m `div` 2 ^ 8) (2 ^ 1) ltac:(lia)). unfold is_prv, spp, PRV_U, PRV_S, PRV_M. lia. Qed.

Lemma mpp_prv m : legal_mpp m -> is_prv (mpp m).
Proof.
  intros Hm. pose proof (Z.mod_pos_bound (m `div` 2 ^ 11) (2 ^ 2) ltac:(lia)) as Hr. fold (mpp m) in Hr.
  destruct (decide (mpp m = 2)) as [E|]; [|unfold is_prv, PRV_U, PRV_S, PRV_M; lia].
  pose proof (field_testbit m 11 2 0 ltac:(lia) ltac:(lia) ltac:(lia)) as H0.
  pose proof (field_testbit m 11 2 1 ltac:(lia) ltac:(lia) ltac:(lia)) as H1.
  fold (mpp m) in H0, H1. rewrite E in H0, H1.
  specialize (Hm (eq_sym H1)). change (0 + 11) with 11 in H0. rewrite Hm in H0. discriminate H0.
Qed.

(** ** Traps on [mstatus] *)

Section mstatus.
Context (m : Z) (Hm : is_uint 64 m).

Lemma trap_mstatus_M_bits p i : is_prv p -> 0 <= i ->
  Z.testbit (trap_mstatus_M m p) i =
    if i =? MSTATUS_MIE_SHIFT then false
    else if i =? MSTATUS_MPIE_SHIFT then Z.testbit m MSTATUS_MIE_SHIFT
    else if (i =? 11) || (i =? 12) then Z.testbit p (i - 11)
    else Z.testbit m i.
Proof.
  intros Hp Hi. unfold trap_mstatus_M. rewrite bit_value by done. set (m1 := (m &ᵇ _) |ᵇ _).
  assert (is_uint 64 m1) as Hm1 by (unfold m1; auto with machine).
  set (m2 := (m1 &ᵇ _) |ᵇ _). assert (is_uint 64 m2) as Hm2 by (unfold m2; auto with machine).
  rewrite (clear_field_testbit m2 3 1) by (done || lia). unfold m2.
  rewrite (insert_field_testbit m1 11 2) by (done || lia || by apply is_prv_range). unfold m1.
  rewrite (insert_field_testbit m 7 1) by (done || lia || (destruct (Z.testbit m _); cbn; lia)).
  unfold MSTATUS_MIE_SHIFT, MSTATUS_MPIE_SHIFT. clear.
  bool_cases; try (f_equal; lia). replace (i - 7) with 0 by lia. by destruct (Z.testbit m 3).
Qed.

Lemma trap_mstatus_S_bits p i : p = PRV_U \/ p = PRV_S -> 0 <= i ->
  Z.testbit (trap_mstatus_S m p) i =
    if i =? MSTATUS_SIE_SHIFT then false
    else if i =? MSTATUS_SPIE_SHIFT then Z.testbit m MSTATUS_SIE_SHIFT
    else if i =? 8 then Z.testbit p 0
    else Z.testbit m i.
Proof.
  intros Hp Hi. unfold trap_mstatus_S. rewrite bit_value by done. set (m1 := (m &ᵇ _) |ᵇ _).
  assert (is_uint 64 m1) as Hm1 by (unfold m1; auto with machine).
  set (m2 := (m1 &ᵇ _) |ᵇ _). assert (is_uint 64 m2) as Hm2 by (unfold m2; auto with machine).
  rewrite (clear_field_testbit m2 1 1) by (done || lia). unfold m2.
  rewrite (insert_field_testbit m1 8 1) by (done || lia || (unfold PRV_U, PRV_S in Hp; lia)). unfold m1.
  rewrite (insert_field_testbit m 5 1) by (done || lia || (destruct (Z.testbit m _); cbn; lia)).
  unfold MSTATUS_SIE_SHIFT, MSTATUS_SPIE_SHIFT. clear.
  bool_cases; try (f_equal; lia). replace (i - 5) with 0 by lia. by destruct (Z.testbit m 1).
Qed.

Lemma trap_mstatus_M_range p : is_uint 64 (trap_mstatus_M m p).
Proof. unfold trap_mstatus_M. cbv zeta. auto 10 with machine. Qed.
Lemma trap_mstatus_S_range p : is_uint 64 (trap_mstatus_S m p).
Proof. unfold trap_mstatus_S. cbv zeta. auto 10 with machine. Qed.

(** The clearing of MPRV *)
Lemma clear_mprv_bits (b : bool) v i : is_uint 64 v -> 0 <= i ->
  Z.testbit (if b then v &ᵇ not64 MSTATUS_MPRV_MASK else v) i = negb (b && (i =? 17)) && Z.testbit v i.
Proof.
  intros Hv Hi. destruct b; [|done]. rewrite (clear_field_testbit v 17 1) by (done || lia). f_equal. bool_cases.
Qed.

Lemma mret_mstatus_bits i : 0 <= i ->
  Z.testbit (mret_mstatus m) i =
    if i =? MSTATUS_MIE_SHIFT then Z.testbit m MSTATUS_MPIE_SHIFT
    else if i =? MSTATUS_MPIE_SHIFT then true
    else if (i =? 11) || (i =? 12) then false
    else negb ((mpp m <? PRV_M) && (i =? MSTATUS_MPRV_SHIFT)) && Z.testbit m i.
Proof.
  intros Hi. unfold mret_mstatus. rewrite mpp_spec, mpie_spec.
  set (m1 := (m &ᵇ _) |ᵇ _). assert (is_uint 64 m1) as Hm1 by (unfold m1; auto with machine).
  set (m2 := m1 |ᵇ _). assert (is_uint 64 m2) as Hm2 by (apply lor_uint; done || lia).
  rewrite clear_mprv_bits by auto with machine. rewrite (clear_field_testbit m2 11 2) by (done || lia).
  unfold m2. rewrite Z.lor_spec. change MSTATUS_MPIE_MASK with (2 ^ 7). rewrite Z.pow2_bits_eqb by lia. unfold m1.
  rewrite (insert_field_testbit m 3 1) by (done || lia || by apply Z.mod_pos_bound).
  unfold MSTATUS_MIE_SHIFT, MSTATUS_MPIE_SHIFT, MSTATUS_MPRV_SHIFT. clear.
  destruct (mpp m <? PRV_M); bool_cases; rewrite ?orb_true_r, ?orb_false_r; try done.
  - subst. rewrite field_testbit by lia. done.
  - subst. rewrite field_testbit by lia. done.
Qed.

Lemma sret_mstatus_bits i : 0 <= i ->
  Z.testbit (sret_mstatus m) i =
    if i =? MSTATUS_SIE_SHIFT then Z.testbit m MSTATUS_SPIE_SHIFT
    else if i =? MSTATUS_SPIE_SHIFT then true
    else if i =? 8 then false
    else negb (i =? MSTATUS_MPRV_SHIFT) && Z.testbit m i.
Proof.
  intros Hi. unfold sret_mstatus. rewrite spp_spec, spie_spec.
  assert (spp m <? PRV_M = true) as -> by (apply Z.ltb_lt; pose proof (Z.mod_pos_bound (m `div` 2 ^ 8) (2 ^ 1) ltac:(lia)); unfold spp, PRV_M; lia).
  set (m1 := (m &ᵇ _) |ᵇ _). assert (is_uint 64 m1) as Hm1 by (unfold m1; auto with machine).
  set (m2 := m1 |ᵇ _). assert (is_uint 64 m2) as Hm2 by (apply lor_uint; done || lia).
  rewrite (clear_mprv_bits true) by auto with machine. rewrite (clear_field_testbit m2 8 1) by (done || lia).
  unfold m2. rewrite Z.lor_spec. change MSTATUS_SPIE_MASK with (2 ^ 5). rewrite Z.pow2_bits_eqb by lia. unfold m1.
  rewrite (insert_field_testbit m 1 1) by (done || lia || by apply Z.mod_pos_bound).
  unfold MSTATUS_SIE_SHIFT, MSTATUS_SPIE_SHIFT, MSTATUS_MPRV_SHIFT. clear.
  bool_cases; rewrite ?orb_true_r, ?orb_false_r; try done.
  subst. rewrite field_testbit by lia. done.
Qed.

Lemma mret_mstatus_range : is_uint 64 (mret_mstatus m).
Proof. unfold mret_mstatus. case_if; auto 12 with machine. Qed.
Lemma sret_mstatus_range : is_uint 64 (sret_mstatus m).
Proof. unfold sret_mstatus. case_if; auto 12 with machine. Qed.

End mstatus.

(** ** The invariant *)

Definition pc_ok (pc : Z) : Prop := is_uint 64 pc /\ is_even pc.

Lemma even_bit v : is_even v <-> Z.testbit v 0 = false.
Proof. unfold is_even. rewrite <- Z.bit0_mod. destruct (Z.testbit v 0); naive_solver. Qed.

Lemma is_even_uint v : is_even v -> is_even (uint64 v).
Proof. rewrite !even_bit. rewrite uint_testbit by lia. by intros ->. Qed.

Lemma is_even_add a b : is_even a -> is_even b -> is_even (a + b).
Proof. unfold is_even. intros. Z.div_mod_to_equations; lia. Qed.

Lemma pc_ok_add pc d : pc_ok pc -> is_even d -> pc_ok (uint64 (pc + d)).
Proof. intros [_ Hp] Hd. split; [apply uint_range; lia|]. by apply is_even_uint, is_even_add. Qed.

(** What a handler keeps; only a device halts the machine. *)
Definition insn_ok (u : fixed) : execute_status * Z * machine_state -> Prop :=
  fun '(status, pc, s) => status <> success_and_halt /\ pc_ok pc /\ machine_ok u s.
Definition trap_ok (u : fixed) : Z * machine_state -> Prop := fun '(pc, s) => pc_ok pc /\ machine_ok u s.

Lemma set_prv_ok u s p : machine_ok u s -> is_prv p -> returns (set_prv s p) (machine_ok u).
Proof.
  intros Hs Hp. unfold set_prv. eapply returns_then; [apply (flush_all_tlb_ok u); eauto with machine|].
  intros s' Hs'. cbn. apply ok_assign_ilrsc; [done|]. apply uint_range. lia.
Qed.

Lemma set_prv_if_ok u s p (b : bool) :
  machine_ok u s -> is_prv p -> returns (if b then set_prv s p else mret s) (machine_ok u).
Proof. intros. destruct b; [by apply set_prv_ok|done]. Qed.

Lemma legal_mpp_trap_M m p : is_uint 64 m -> is_prv p -> legal_mpp (trap_mstatus_M m p).
Proof. intros Hm Hp. unfold legal_mpp. rewrite !trap_mstatus_M_bits by (done || lia). by destruct Hp as [->|[->| ->]]. Qed.

Lemma legal_mpp_trap_S m p : is_uint 64 m -> p = PRV_U \/ p = PRV_S -> legal_mpp m -> legal_mpp (trap_mstatus_S m p).
Proof. intros Hm Hp. unfold legal_mpp. by rewrite !trap_mstatus_S_bits by (done || lia). Qed.

Lemma legal_mpp_mret m : is_uint 64 m -> legal_mpp (mret_mstatus m).
Proof. intros Hm. unfold legal_mpp. by rewrite !mret_mstatus_bits by (done || lia). Qed.

Lemma legal_mpp_sret m : is_uint 64 m -> legal_mpp m -> legal_mpp (sret_mstatus m).
Proof. intros Hm. unfold legal_mpp. by rewrite !sret_mstatus_bits by (done || lia). Qed.

#[export] Hint Resolve trap_mstatus_M_range trap_mstatus_S_range mret_mstatus_range sret_mstatus_range
  legal_mpp_trap_M legal_mpp_mret legal_mpp_sret : machine.
#[export] Hint Extern 1 (is_prv _) => unfold is_prv; tauto : machine.

Lemma delegated_prv s cause : is_prv (s_iprv s) -> delegated s cause = true -> s_iprv s = PRV_U \/ s_iprv s = PRV_S.
Proof.
  unfold delegated. intros [->|[->| ->]]; try tauto. done.
Qed.

Lemma raise_exception_ok u s pc cause tval :
  machine_ok u s -> pc_ok pc -> is_uint 64 cause -> is_uint 64 tval -> returns (raise_exception s pc cause tval) (trap_ok u).
Proof.
  intros Hs [Hpc Hev] Hc Ht. unfold raise_exception. cbv zeta.
  set (tval' := if _ && _ then _ else tval).
  assert (is_uint 64 tval') as Ht'
    by (unfold tval'; case_if; [eapply (uint_mono 16); [lia|apply uint_range; lia]|done]).
  set (s0 := assign upd_icycleinstret _ s).
  assert (machine_ok u s0) as Hs0 by (apply ok_assign_icycleinstret; eauto with machine).
  pose proof (ok_prv _ _ Hs) as Hp.
  destruct (delegated s cause) eqn:Ed.
  - pose proof (delegated_prv _ _ Hp Ed) as Hp'.
    set (s1 := assign upd_stval _ _). assert (machine_ok u s1) as Hs1 by (unfold s1; eauto with machine).
    eapply returns_then; [apply (set_prv_if_ok u)|].
    + apply ok_assign_mstatus; [done| |].
      * apply trap_mstatus_S_range. apply Hs1.
      * apply legal_mpp_trap_S; [apply Hs1|done|apply Hs1].
    + right; left; done.
    + intros s2 Hs2. cbn. split; [apply Hs2|done].
  - set (s1 := assign upd_mtval _ _). assert (machine_ok u s1) as Hs1 by (unfold s1; eauto with machine).
    eapply returns_then; [apply (set_prv_if_ok u)|].
    + apply ok_assign_mstatus; [done| |].
      * apply trap_mstatus_M_range. apply Hs1.
      * apply legal_mpp_trap_M; [apply Hs1|done].
    + right; right; done.
    + intros s2 Hs2. cbn. split; [apply Hs2|done].
Qed.

Lemma raise_illegal_insn_exception_ok u s pc insn :
  machine_ok u s -> pc_ok pc -> is_uint 64 insn -> returns (raise_illegal_insn_exception s pc insn) (insn_ok u).
Proof.
  intros Hs Hpc Hi. unfold raise_illegal_insn_exception.
  eapply returns_then; [by apply (raise_exception_ok u)|]. by intros [pc' s'] [? ?].
Qed.

(** ** Interrupts *)

(** Of the six interrupts, at least one is pending when the mask is not zero. *)
Lemma pending_irq_known u s : machine_ok u s -> get_pending_irq_mask s <> 0 ->
  exists i, In i [11; 3; 7; 9; 1; 5] /\ Z.testbit (get_pending_irq_mask s) i = true.
Proof.
  intros Hs Hne. pose proof (ok_mie _ _ Hs) as [_ Hm].
  assert (exists i, 0 <= i /\ Z.testbit (get_pending_irq_mask s) i = true) as (i & Hi & Hb).
  { assert (0 <= get_pending_irq_mask s) as Hpos.
    { unfold get_pending_irq_mask. cbv zeta. case_if; [lia|]. apply Z.land_nonneg. left. apply uint_range. lia. }
    exists (Z.log2 (get_pending_irq_mask s)). split; [apply Z.log2_nonneg|]. apply Z.bit_log2. lia. }
  exists i. split; [|done].
  assert (Z.testbit (s_mie s) i = true) as Hie.
  { unfold get_pending_irq_mask in Hb. cbv zeta in Hb. case_if; [by rewrite Z.testbit_0_l in Hb|].
    rewrite Z.land_spec, uint_testbit, Z.land_spec in Hb by lia. apply andb_prop in Hb as [Hb _].
    apply andb_prop in Hb as [_ Hb]. by apply andb_prop in Hb as [_ Hb]. }
  specialize (Hm i Hi Hie).
  assert (i < 12) as Hlt.
  { destruct (Z.lt_ge_cases i 12); [done|]. rewrite (testbit_above IE_MASK 12) in Hm by (done || (split; [by vm_compute|done])). done. }
  clear - Hi Hlt Hm. assert (i = 0 \/ i = 1 \/ i = 2 \/ i = 3 \/ i = 4 \/ i = 5 \/ i = 6 \/ i = 7 \/ i = 8 \/ i = 9 \/ i = 10 \/ i = 11)
    as Hc by lia.
  repeat destruct Hc as [->|Hc]; try (vm_compute in Hm; discriminate Hm); try subst i; cbn; tauto.
Qed.

Lemma land_shift_bit v i : 0 <= i -> (v &ᵇ Z.shiftl 1 i) <> 0 <-> Z.testbit v i = true.
Proof.
  intros Hi. rewrite Z.shiftl_1_l. pose proof (land_pow2 v i Hi) as H.
  destruct (Z.eqb_spec (v &ᵇ 2 ^ i) 0), (Z.testbit v i); naive_solver.
Qed.

Lemma get_highest_priority_irq_num_spec v :
  (exists i, In i [11; 3; 7; 9; 1; 5] /\ Z.testbit v i = true) ->
  returns (get_highest_priority_irq_num v) (fun i =>
    In i [11; 3; 7; 9; 1; 5] /\ Z.testbit v i = true /\
    exists l1 l2, [11; 3; 7; 9; 1; 5] = l1 ++ i :: l2 /\ Forall (fun j => Z.testbit v j = false) l1).
Proof.
  intros (i & Hi & Hb). unfold get_highest_priority_irq_num.
  destruct (list_find _ interrupts_priority) as [[k mask]|] eqn:E.
  - apply list_find_Some in E as (Hk & Hm & Hlt). cbn [returns].
    assert (exists j, [11; 3; 7; 9; 1; 5] !! k = Some j /\ mask = Z.shiftl 1 j /\ irq_ilog2 mask = j /\ 0 <= j) as (j & Hj & -> & -> & Hj0).
    { do 6 (destruct k as [|k]; [injection Hk as <-; by eexists|]). done. }
    split; [rewrite <- list_elem_of_In; by eapply list_elem_of_lookup_2|]. split; [by apply land_shift_bit|].
    exists (take k [11; 3; 7; 9; 1; 5]), (drop (S k) [11; 3; 7; 9; 1; 5]). split; [symmetry; by apply take_drop_middle|].
    apply Forall_lookup. intros n x Hx. apply lookup_take_Some in Hx as [Hx Hnk].
    assert (interrupts_priority !! n = Some (Z.shiftl 1 x) /\ 0 <= x) as [Hn Hx0].
    { do 6 (destruct n as [|n]; [injection Hx as <-; done|]). done. }
    specialize (Hlt n (Z.shiftl 1 x) Hn Hnk). cbv beta in Hlt. rewrite land_shift_bit in Hlt by done.
    by destruct (Z.testbit v x).
  - apply list_find_None in E. rewrite Forall_forall in E. destruct (E (Z.shiftl 1 i)).
    + clear - Hi. cbn in Hi. repeat destruct Hi as [<-|Hi]; try done; cbn; set_solver.
    + apply land_shift_bit; [|done]. cbn in Hi. lia.
Qed.

Lemma raise_interrupt_if_any_ok u s pc : machine_ok u s -> pc_ok pc -> returns (raise_interrupt_if_any s pc) (trap_ok u).
Proof.
  intros Hs Hpc. unfold raise_interrupt_if_any. destruct (Z.eqb_spec (get_pending_irq_mask s) 0) as [_|Hne]; [done|]. cbn [negb].
  eapply returns_then; [by apply get_highest_priority_irq_num_spec, (pending_irq_known u)|].
  intros i (Hi & _). apply raise_exception_ok; try done. apply lor_uint; [lia| |done].
  unfold is_uint. cbn in Hi. lia.
Qed.

Lemma set_rtc_interrupt_ok u s mcycle : machine_ok u s -> machine_ok u (set_rtc_interrupt s mcycle).
Proof. intros Hs. unfold set_rtc_interrupt. cbv zeta. case_if; eauto with machine. Qed.

(** ** Instructions *)

Lemma execute_ECALL_ok u s pc insn : machine_ok u s -> pc_ok pc -> returns (execute_ECALL s pc insn) (insn_ok u).
Proof.
  intros Hs Hpc. unfold execute_ECALL. eapply returns_then; [apply (raise_exception_ok u); try done|by intros [] []].
  destruct (ok_prv _ _ Hs) as [->|[->| ->]]; done.
Qed.

Lemma execute_EBREAK_ok u s pc insn : machine_ok u s -> pc_ok pc -> returns (execute_EBREAK s pc insn) (insn_ok u).
Proof.
  intros Hs Hpc. unfold execute_EBREAK. eapply returns_then; [apply (raise_exception_ok u); try done; apply Hpc|by intros [] []].
Qed.

Lemma execute_SRET_ok u s pc insn :
  machine_ok u s -> pc_ok pc -> is_uint 64 insn -> returns (execute_SRET s pc insn) (insn_ok u).
Proof.
  intros Hs Hpc Hi. unfold execute_SRET. cbv zeta. case_if; [by apply raise_illegal_insn_exception_ok|]. rewrite spp_spec.
  eapply returns_then; [apply (set_prv_if_ok u)|].
  - apply ok_assign_mstatus; eauto with machine.
  - apply spp_prv.
  - intros s' Hs'. split; [done|]. cbn. split; [apply Hs'|done].
Qed.

Lemma execute_MRET_ok u s pc insn :
  machine_ok u s -> pc_ok pc -> is_uint 64 insn -> returns (execute_MRET s pc insn) (insn_ok u).
Proof.
  intros Hs Hpc Hi. unfold execute_MRET. cbv zeta. case_if; [by apply raise_illegal_insn_exception_ok|]. rewrite mpp_spec.
  eapply returns_then; [apply (set_prv_if_ok u)|].
  - apply ok_assign_mstatus; eauto with machine.
  - apply mpp_prv. eauto with machine.
  - intros s' Hs'. split; [done|]. cbn. split; [apply Hs'|done].
Qed.
