(* ===== verification/VirtualMemorySpec.v ===== *)
(** * Accesses through virtual memory keep the machine well formed

    Every load, store and fetch returns: no pointer of the host is used outside
    of its buffer, and the invariant of the machine holds after the access,
    whether it hit the translation cache, walked the page tables, reached a
    device or raised an exception.  The law a device has to obey is stated as a
    class; the clock interruptor, the interrupt controller and the host-target
    interface obey it, and a name without a driver is that of the driver without
    callbacks. *)

From S2P Require Import Prelude CppInt Constants RiscvConstants UarchAccess Bytes RV64IM Pma PmaSpec MachineState UarchBridge UarchBridgeSpec UarchState UarchStateSpec DeviceAccess Clint Plic Htif Tlb Trap TranslateVirtualAddress TranslateSpec HostMemory HostTlb VirtualMemory MachineOk TrapSpec.

(** ** The walk of the page tables *)

(** The change of a page table entry keeps the layout of the memory. *)
Lemma write_ram_uint64_ok s a v :
  host_map_ok (s_pmas s) -> is_uint 64 a -> a `mod` 8 = 0 -> is_uint 64 v ->
  returns (write_ram_uint64 s a v) (fun '(_, s') =>
    exists l, s' = upd_pmas (fun _ => l) s /\ evolves (s_pmas s) l /\ tracked_map (s_pmas s) l /\ host_map_ok l).
Proof.
  intros Hs Ha Ha8 Hv. pose proof (write_ram_uint64_spec s a v (hm_map _ Hs) Ha Ha8 Hv) as Hw.
  destruct (phys_storable (s_pmas s) a).
  2: { rewrite Hw. exists (s_pmas s). rewrite upd_pmas_same. split; [done|]. split; [done|]. split; [apply tracked_map_refl|done]. }
  destruct Hw as (l & Hw & _). rewrite Hw. exists l. split; [done|].
  destruct (range_of_some _ a (hm_map _ Hs)) as (i & p & E & Hi & Hp & Hh).
  unfold write_ram_uint64 in Hw. rewrite (find_pma_entry_spec s a 8 i p (hm_map _ Hs) Ha word_size_8 Ha8 E) in Hw.
  cbn [mbind outcome_bind] in Hw. destruct (get_istart_M p) eqn:HM; [|done]. destruct (flag_W _); [|done].
  destruct (held_word p a 8 Hp Hh HM Ha word_size_8 Ha8) as (Hok & _ & _ & _ & Hc).
  cbn [negb orb] in Hw. apply outcome_bind_done in Hw as (p1 & Hp1 & Hw). apply outcome_bind_done in Hw as (p2 & Hp2 & Hw).
  injection Hw as Hw. destruct (store_word_spec p a _ v p1 p2 Hok Hc Hp1 Hp2) as (Hok2 & _).
  assert (same_layout p p2) as Hl.
  { etrans; [|by eapply same_memory_layout, mark_dirty_page_same].
    unfold aliased_aligned_write in Hp1. invert_outcome. subst p1. apply set_host_memory_layout. }
  assert (l = <[i := p2]> (s_pmas s)) as -> by (symmetry; exact Hw).
  split; [by eapply evolves_insert|]. split; [|by eapply host_map_ok_insert].
  eapply tracked_map_insert; [done|]. eapply tracked_store; [done|exact Hc|exact Hp1|].
  replace (m_start p) with (m_start p1); [exact Hp2|]. unfold aliased_aligned_write in Hp1. invert_outcome. by subst p1.
Qed.

Lemma walked_offset ld cx vaddr n k w :
  page_walk ld cx vaddr n (k * 2 ^ 12) = Some w -> w_paddr w `mod` 4096 = vaddr `mod` 4096.
Proof.
  revert k. induction n as [|n IH]; intros k Hw; [done|]. cbn [page_walk] in Hw.
  destruct (ld _) as [pte|]; [|done]. cbn [mbind option_bind] in Hw. case_if; [done|]. destruct (pte_leaf pte).
  - case_if; [|done]. injection Hw as <-. cbn [w_paddr]. change (2 ^ 12) with 4096.
    rewrite Z.add_comm, Z_mod_plus_full. unfold page_bits. rewrite Z.pow_add_r by lia. change (2 ^ 12) with 4096.
    rewrite Z.rem_mul_r by (pose proof (pow2_pos (9 * Z.of_nat n)); lia).
    rewrite (Z.mul_comm 4096), Z_mod_plus_full. apply Z.mod_mod. lia.
  - by apply IH in Hw.
Qed.

Lemma translate_offset ld iprv mstatus satp vaddr acc w :
  translate ld iprv mstatus satp vaddr acc = through w -> w_paddr w `mod` 4096 = vaddr `mod` 4096.
Proof.
  unfold translate. set (prv := if _ && _ then _ else _). case_if; [done|].
  unfold mode_levels. repeat case_if; try done;
    (destruct (page_walk _ _ _ _ _) eqn:Hw; [|done]); intros [= <-]; by eapply walked_offset.
Qed.

(** A translation changes at most the page tables, and keeps the offset in the page. *)
Lemma translate_ok s vaddr acc :
  host_map_ok (s_pmas s) -> is_uint 64 vaddr -> is_uint 64 (s_iprv s) ->
  returns (translate_virtual_address true s vaddr (shift_of acc)) (fun '(paddr, s') =>
    (exists l, s' = upd_pmas (fun _ => l) s /\ evolves (s_pmas s) l /\ tracked_map (s_pmas s) l /\ host_map_ok l) /\
    forall a, paddr = Some a -> is_uint 64 a /\ a `mod` 4096 = vaddr `mod` 4096).
Proof.
  intros Hs Hv Hi. rewrite translate_spec by (done || apply Hs).
  assert (exists l, s = upd_pmas (fun _ => l) s /\ evolves (s_pmas s) l /\ tracked_map (s_pmas s) l /\ host_map_ok l) as Hsame.
  { exists (s_pmas s). rewrite upd_pmas_same. split; [done|]. split; [done|]. split; [apply tracked_map_refl|done]. }
  destruct (translate _ _ _ _ _ _) as [| |w] eqn:Ht; cbn [outcome_of returns].
  - split; [done|]. intros a [= <-]. done.
  - done.
  - pose proof (translate_offset _ _ _ _ _ _ _ Ht) as Ho. apply translate_walked in Ht. destruct Ht as [Hp Ha Ha8 Hld _].
    pose proof (phys_load_range _ _ _ (hm_map _ Hs) Hld) as Hpte.
    unfold touch. eapply returns_then.
    2: { intros s' H. split; [exact H|]. intros a [= <-]. split; [eapply uint_mono; [|exact Hp]; lia|exact Ho]. }
    destruct (negb (w_pte w =? _)); [|exact Hsame].
    pose proof (write_ram_uint64_ok s _ _ Hs Ha Ha8 (accessed_range _ Hpte acc)) as Hw.
    destruct (write_ram_uint64 _ _ _) as [[b s']|]; [|done]. exact Hw.
Qed.

Section accesses.
Context (u : fixed).

Lemma is_prv_uint p : is_prv p -> is_uint 64 p.
Proof. by intros [->|[->| ->]]. Qed.

Lemma translate_machine_ok s vaddr acc :
  machine_ok u s -> is_uint 64 vaddr ->
  returns (translate_virtual_address true s vaddr (shift_of acc)) (fun '(paddr, s') =>
    machine_ok u s' /\ forall a, paddr = Some a -> is_uint 64 a /\ a `mod` 4096 = vaddr `mod` 4096).
Proof.
  intros Hs Hv. eapply returns_weaken.
  - apply translate_ok; [apply Hs|done|by apply is_prv_uint, Hs].
  - intros [paddr s'] [(l & -> & He & Ht & Hl) Ha]. split; [|done]. apply ok_upd_pmas; try done.
    apply tracked_since_pmas; try done. apply Hs.
Qed.

(** ** Host pages *)

Lemma find_ok s n a :
  host_map_ok (s_pmas s) -> is_uint 64 a -> word_size n -> a `mod` n = 0 ->
  returns (find_pma_entry_sized s n a) (fun '(i, p) => s_pmas s !! i = Some p /\ range_ok p /\ holds a p).
Proof.
  intros Hs Ha Hn Han. destruct (range_of_some _ a (hm_map _ Hs)) as (i & p & E & Hi & Hp & Hh).
  rewrite (find_pma_entry_spec s a n i p) by (done || apply Hs). done.
Qed.

(** The address [hpage] of the host is that of a page of a buffer. *)
Definition host_page (l : list pma_entry) (hpage : Z) : Prop :=
  hpage `mod` 8 = 0 /\ exists i p, points l hpage 4096 i p.

Lemma points_evolves l l' a n i p : evolves l l' -> points l a n i p -> exists p', points l' a n i p'.
Proof.
  intros Hl (Hi & HM & H1 & H2). destruct (evolves_lookup _ _ _ _ Hl Hi) as (p' & Hp' & (E & _ & _ & _ & En & _) & Eb & _).
  exists p'. unfold points. by rewrite E, Eb, En.
Qed.

Lemma points_evolves_back l l' a n i p : evolves l l' -> points l' a n i p -> exists p', points l a n i p'.
Proof.
  intros Hl (Hi & HM & H1 & H2). destruct (Forall2_lookup_r _ _ _ _ _ Hl Hi) as (p' & Hp' & (E & _ & _ & _ & En & _) & Eb & _).
  exists p'. unfold points. by rewrite <- E, <- Eb, <- En.
Qed.

(** A word at an offset of the page *)
Lemma page_word l hpage n o :
  host_map_ok l -> host_page l hpage -> 0 <= o -> 0 < n -> o + n <= 4096 ->
  uint64 (hpage + o) = hpage + o /\ exists i p, points l (hpage + o) n i p.
Proof.
  intros Hl (_ & i & p & Hi & HM & H1 & H2) Ho Hn Hon. destruct (hm_buffers _ Hl i p Hi HM) as ([_ H3 H4 _] & _).
  split; [apply uint_id; unfold is_uint; lia|]. exists i, p. unfold points. repeat split; try done; lia.
Qed.

Lemma page_word_aligned hpage n o : word_size n -> hpage `mod` 8 = 0 -> o `mod` n = 0 -> (hpage + o) `mod` n = 0.
Proof. intros [->|[->|[->| ->]]]; Z.div_mod_to_equations; lia. Qed.

Lemma word_in_page v n : word_size n -> v `mod` n = 0 -> 0 <= v `mod` 4096 /\ v `mod` 4096 + n <= 4096 /\ v `mod` 4096 `mod` n = 0.
Proof.
  intros Hn Hv. rewrite aligned_in_page, Hv by done. destruct Hn as [->|[->|[->| ->]]]; Z.div_mod_to_equations; lia.
Qed.

(** The pointer of the entry that [v] is looked up in *)
Definition hit_pointer_of (s : machine_state) (t v : Z) : Z := uint64 (vh_offset (hot_of s t v) + v).

(** The replacement of an entry returns a page of the host, and [v] then hits it. *)
Lemma replace_ok s t n v paddr i p :
  machine_ok u s -> tlb_type t -> word_size n -> is_uint 64 v -> is_uint 64 paddr -> paddr `mod` n = 0 -> v `mod` n = 0 ->
  s_pmas s !! i = Some p -> range_ok p -> holds paddr p -> get_istart_M p = true ->
  returns (replace_tlb_entry s t v paddr p) (fun '(hpage, s') => machine_ok u s' /\ host_page (s_pmas s') hpage /\
    hits s' t n v = true /\ hit_pointer_of s' t v = uint64 (hpage + (v &ᵇ PAGE_OFFSET_MASK))).
Proof.
  intros Hs Ht Hn Hv Ha Han Hvn Hi Hr Hh HM.
  destruct (held_word p paddr n Hr Hh HM Ha Hn Han) as (Hok & Ho & _).
  assert (m_start p <= paddr < m_start p + m_length p) as Hin
    by (pose proof (wf_length p (ok_wf _ Hok)); destruct Hn as [->|[->|[->| ->]]]; lia).
  pose proof (replace_tlb_entry_spec s t v paddr i p (ok_tlb _ _ Hs) Ht Hv Ha Hi HM Hin) as Hrep.
  destruct (replace_tlb_entry s t v paddr p) as [[hpage s']|] eqn:E; [|done]. cbn [returns] in *.
  destruct Hrep as (Hs' & Hk & Epage & Ehot & _).
  split; [by eapply machine_ok_kept; [exact Hs| |eapply (written_kept_replace s t); [apply Hs|..]|]|].
  assert (hits s' t n v = true /\ hit_pointer_of s' t v = uint64 (hpage + (v &ᵇ PAGE_OFFSET_MASK))) as Hhit.
  { unfold hits, hit_pointer_of. rewrite Ehot. cbn [vaddr_page vh_offset]. split.
    - rewrite tlb_is_hit_spec, Hvn by done. apply Z.eqb_eq. lia.
    - rewrite uint_add_l, page_offset_spec by lia. f_equal. lia. }
  split; [|exact Hhit]. subst hpage.
  destruct (page_within p paddr Hr Hin) as (H1 & H2 & H3).
  destruct (hm_buffers _ (to_map _ (ok_tlb _ _ Hs)) i p Hi HM) as ([_ _ _ Hb] & _).
  split.
  - pose proof (rg_aligned _ Hr) as Hst. change PMA_PAGE_SIZE with 4096 in Hst. clear - Hb Hst H3.
    set (q := paddr - _) in *. clearbody q. Z.div_mod_to_equations; lia.
  - destruct (points_evolves (s_pmas s) (s_pmas s') (base p + (paddr - paddr `mod` 4096 - m_start p)) 4096 i p) as [p' Hp'].
    + by apply dirtier_evolves, Hk.
    + unfold points. repeat split; try done; lia.
    + by exists i, p'.
Qed.

(** ** Traps of accesses *)

Definition hart_ok (pc : Z) (h : hart) : Prop := pc_ok pc /\ machine_ok u (h_s h).

Lemma raise_at_ok h pc cause tval :
  machine_ok u (h_s h) -> pc_ok pc -> is_uint 64 cause -> is_uint 64 tval ->
  returns (raise_at h pc cause tval) (fun '(pc', h') => hart_ok pc' h').
Proof.
  intros. unfold raise_at. eapply returns_then; [by apply (raise_exception_ok u)|]. by intros [pc' s'].
Qed.

(** ** Loads and stores *)

(** The law of a device: its callbacks keep the machine well formed, and it
    asks to stop only after it has set the flag that tells the halt. *)
Class DeviceOk (drv : pma_driver) : Prop := {
  device_read_ok offset log2_size h mcycle :
    machine_ok u (h_s h) -> is_uint 64 offset ->
    machine_ok u (da_s (snd (drv_read drv offset log2_size (device_state_access h mcycle))));
  device_write_ok offset val log2_size h mcycle :
    machine_ok u (h_s h) -> is_uint 64 offset -> is_uint 64 val ->
    let '(status, da) := drv_write drv offset val log2_size (device_state_access h mcycle) in
    machine_ok u (da_s da) /\ (status = success_and_halt -> iflags_H (s_iflags (da_s da)) <> 0);
}.

Context (driver : string -> pma_driver) (Hdriver : forall name, DeviceOk (driver name)).

#[local] Instance device_driver_ok p : DeviceOk (device_driver driver p).
Proof. apply Hdriver. Qed.

(** The words that loads and stores have *)
Definition word_type_ok (T : word_type) : Prop := word_size (sizeof T).

Definition load_ok (T : word_type) : option Z * Z * hart -> Prop :=
  fun '(val, pc, h) => hart_ok pc h /\ forall v, val = Some v -> exists w, v = cast T w.

(** A status that is not of this instruction alone halts a machine whose flag is set. *)
Definition halts (status : execute_status) (h : hart) : Prop :=
  status = success_and_halt -> iflags_H (s_iflags (h_s h)) <> 0.

Definition store_ok : execute_status * Z * hart -> Prop :=
  fun '(status, pc, h) => hart_ok pc h /\ halts status h.

Lemma load_fault_ok T h pc cause vaddr :
  machine_ok u (h_s h) -> pc_ok pc -> is_uint 64 cause -> is_uint 64 vaddr ->
  returns (load_fault h pc cause vaddr) (load_ok T).
Proof. intros. eapply returns_then; [by apply raise_at_ok|]. by intros [pc' h'] H'. Qed.

Lemma store_fault_ok h pc cause vaddr :
  machine_ok u (h_s h) -> pc_ok pc -> is_uint 64 cause -> is_uint 64 vaddr ->
  returns (store_fault h pc cause vaddr) store_ok.
Proof. intros. eapply returns_then; [by apply raise_at_ok|]. by intros [pc' h'] H'. Qed.

Lemma word_aligned_spec n v : word_size n -> v &ᵇ (n - 1) = v `mod` n.
Proof.
  intros [->|[->|[->| ->]]]; [exact (land_ones_mod v 0 ltac:(lia))|exact (land_ones_mod v 1 ltac:(lia))
    |exact (land_ones_mod v 2 ltac:(lia))|exact (land_ones_mod v 3 ltac:(lia))].
Qed.

Lemma same_page_aligned n a v : word_size n -> a `mod` 4096 = v `mod` 4096 -> v `mod` n = 0 -> a `mod` n = 0.
Proof. intros Hn E Hv. by rewrite <- (aligned_in_page a), E, aligned_in_page. Qed.

(** A word of a page of the host, as the accesses reach it *)
Lemma host_word_ok s hpage v n :
  machine_ok u s -> host_page (s_pmas s) hpage -> word_size n -> v `mod` n = 0 ->
  let a := uint64 (hpage + (v &ᵇ PAGE_OFFSET_MASK)) in
  a `mod` n = 0 /\ 0 < n /\ exists i p, points (s_pmas s) a n i p.
Proof.
  intros Hs Hp Hn Hv. cbv zeta. rewrite page_offset_spec. destruct (word_in_page v n Hn Hv) as (H1 & H2 & H3).
  assert (0 < n) as Hn0 by (destruct Hn as [->|[->|[->| ->]]]; lia).
  destruct (page_word (s_pmas s) hpage n (v `mod` 4096)) as (-> & Hi); try done; [apply Hs|].
  split; [|done]. apply page_word_aligned; [done|apply Hp|done].
Qed.

(** A store through a write entry *)
Lemma store_hit_ok s n v val :
  machine_ok u s -> word_size n -> is_uint 64 v -> hits s TLB_WRITE n v = true ->
  returns (host_write s (hit_pointer_of s TLB_WRITE v) n val) (machine_ok u).
Proof.
  intros Hs Hn Hv Hh. pose proof (ok_tlb _ _ Hs) as Ht.
  destruct (hit_points s TLB_WRITE n v Ht ltac:(done) Hn Hv Hh) as (i & p & He & Ei & Hvn & Ha & Hp & Hpa).
  fold (hit_pointer_of s TLB_WRITE v) in Ha, Hp, Hpa. set (a := hit_pointer_of s TLB_WRITE v) in *.
  assert (0 < n) as Hn0 by (destruct (word_size_divides n Hn); lia).
  rewrite (host_write_spec s (to_map _ Ht) a n val i p Ha Hn0 Hp). cbn [returns]. rewrite upd_pmas_const.
  destruct (host_written_ok s (to_map _ Ht) a n val i p Hn0 Hp) as (H1 & H2 & _).
  apply ok_upd_pmas; [done|by eapply evolves_insert; [apply Hp|]|by eapply host_map_ok_insert; [apply Ht|apply Hp|..]|].
  destruct He as [_ _ _ _ Hpp [Hlo Hhi] _]. destruct (word_in_page v n Hn Hvn) as (Ho1 & Ho2 & _).
  pose proof (Forall_lookup_1 _ _ _ _ (map_ranges _ (hm_map _ (to_map _ Ht))) (proj1 Hp)) as [_ _ Hst _ _].
  change PMA_PAGE_SIZE with 4096 in Hst. unfold hit_paddr in Hpa.
  rewrite <- upd_pmas_const. eapply (tracked_since_written _ s a n val i p ((a - base p) `div` PMA_PAGE_SIZE)); try done; try apply Hs.
  - change PMA_PAGE_SIZE with 4096. rewrite Hpa. clear - Ho1 Ho2 Hpp Hst. Z.div_mod_to_equations; lia.
  - exists (tlb_get_entry_index v). fold (cold_of s TLB_WRITE v). split; [apply index_slot|]. split; [|split; [done|]].
    + intros E. unfold hits, hot_of in Hh. rewrite E in Hh. by rewrite hit_valid in Hh.
    + change PMA_PAGE_SIZE with 4096. rewrite Hpa. clear - Ho1 Ho2 Hpp Hst Hn0. Z.div_mod_to_equations; lia.
Qed.

Lemma read_virtual_memory_slow_ok T r h pc mcycle vaddr :
  word_type_ok T -> machine_ok u (h_s h) -> pc_ok pc -> is_uint 64 vaddr ->
  returns (read_virtual_memory_slow driver T r h pc mcycle vaddr) (load_ok T).
Proof.
  intros HT Hs Hpc Hv. unfold read_virtual_memory_slow. cbv zeta. rewrite word_aligned_spec by done.
  destruct (Z.eqb_spec (vaddr `mod` sizeof T) 0) as [Hal|]; cbn [negb];
    [|apply load_fault_ok; try done; by destruct r].
  eapply returns_then; [by apply (translate_machine_ok (h_s h) vaddr load)|]. intros [[paddr|] s] [Hs1 Ha];
    [|apply load_fault_ok; try done; by destruct r].
  destruct (Ha paddr eq_refl) as [Hpa Hoff]. pose proof (same_page_aligned _ _ _ HT Hoff Hal) as Hpal.
  eapply returns_then; [apply find_ok; try done; apply Hs1|]. intros [i p] (Hi & Hr & Hh).
  destruct (flag_R _) eqn:HR; cbn [andb]; [|apply load_fault_ok; try done; by destruct r].
  destruct (get_istart_M p) eqn:HM.
  - eapply returns_then; [by eapply (replace_ok s TLB_READ (sizeof T))|]. intros [hpage s'] (Hs2 & Hp & _).
    destruct (host_word_ok s' hpage vaddr _ Hs2 Hp HT Hal) as (Hw1 & Hw2 & j & q & Hw3).
    unfold host_read. erewrite host_read_unaligned_spec; [|apply Hs2|exact Hw1|exact Hw2|exact Hw3].
    split; [by split|]. intros v [= <-]. by eexists.
  - destruct (get_istart_IO p); [|apply load_fault_ok; try done; by destruct r].
    pose proof (device_read_ok (drv := device_driver driver p) (uint64 (paddr - m_start p)) (log2_size T) (set_s s h) mcycle
      Hs1 (uint_range 64 _ ltac:(lia))) as Hd. destruct (drv_read _ _ _ _) as [[val|] da].
    + split; [by split|]. intros v [= <-]. by eexists.
    + apply load_fault_ok; try done; by destruct r.
Qed.

Lemma read_virtual_memory_ok T r h pc mcycle vaddr :
  word_type_ok T -> machine_ok u (h_s h) -> pc_ok pc -> is_uint 64 vaddr ->
  returns (read_virtual_memory driver T r h pc mcycle vaddr) (load_ok T).
Proof.
  intros HT Hs Hpc Hv. unfold read_virtual_memory.
  eapply returns_then; [apply (read_via_tlb_spec (h_s h) TLB_READ (sizeof T) vaddr); try done; apply Hs|].
  intros o Ho. destruct (hits _ _ _ _).
  - destruct Ho as (p & _ & _ & -> & _). split; [done|]. intros v [= <-]. by eexists.
  - subst o. by apply read_virtual_memory_slow_ok.
Qed.

Lemma write_virtual_memory_slow_ok T h pc mcycle vaddr val :
  word_type_ok T -> machine_ok u (h_s h) -> pc_ok pc -> is_uint 64 vaddr ->
  returns (write_virtual_memory_slow driver T h pc mcycle vaddr val) store_ok.
Proof.
  intros HT Hs Hpc Hv. unfold write_virtual_memory_slow. cbv zeta. rewrite word_aligned_spec by done.
  destruct (Z.eqb_spec (vaddr `mod` sizeof T) 0) as [Hal|]; cbn [negb]; [|by apply store_fault_ok].
  eapply returns_then; [by apply (translate_machine_ok (h_s h) vaddr store)|]. intros [[paddr|] s] [Hs1 Ha];
    [|by apply store_fault_ok].
  destruct (Ha paddr eq_refl) as [Hpa Hoff]. pose proof (same_page_aligned _ _ _ HT Hoff Hal) as Hpal.
  eapply returns_then; [apply find_ok; try done; apply Hs1|]. intros [i p] (Hi & Hr & Hh).
  destruct (flag_W _) eqn:HR; cbn [andb]; [|by apply store_fault_ok].
  destruct (get_istart_M p) eqn:HM.
  - eapply returns_then; [by eapply (replace_ok s TLB_WRITE (sizeof T))|]. intros [hpage s'] (Hs2 & _ & Hit & Ep).
    rewrite <- Ep. eapply returns_then; [by apply (store_hit_ok s' (sizeof T) vaddr)|]. done.
  - destruct (get_istart_IO p); [|by apply store_fault_ok].
    assert (is_uint 64 (uint (8 * sizeof T) (cast T val))) as Hval.
    { eapply uint_mono; [|apply uint_range]; destruct HT as [->|[->|[->| ->]]]; lia. }
    pose proof (device_write_ok (drv := device_driver driver p) (uint64 (paddr - m_start p)) _ (log2_size T) (set_s s h) mcycle
      Hs1 (uint_range 64 _ ltac:(lia)) Hval) as Hd. destruct (drv_write _ _ _ _ _) as [status da].
    destruct Hd as [Hs2 Hd]. case_if; [split; [by split|exact Hd]|by apply store_fault_ok].
Qed.

Lemma write_virtual_memory_ok T h pc mcycle vaddr val :
  word_type_ok T -> machine_ok u (h_s h) -> pc_ok pc -> is_uint 64 vaddr ->
  returns (write_virtual_memory driver T h pc mcycle vaddr val) store_ok.
Proof.
  intros HT Hs Hpc Hv. unfold write_virtual_memory, write_memory_word_via_tlb.
  fold (hot_at (h_s h) TLB_WRITE (tlb_get_entry_index vaddr)). fold (hot_of (h_s h) TLB_WRITE vaddr).
  fold (hits (h_s h) TLB_WRITE (sizeof T) vaddr).
  destruct (hits _ _ _ _) eqn:Hh; cbn [negb]; [|by apply write_virtual_memory_slow_ok].
  pose proof (store_hit_ok (h_s h) (sizeof T) vaddr (cast T val) Hs HT Hv Hh) as Hw. unfold hit_pointer_of in Hw.
  by destruct (host_write _ _ _ _).
Qed.

(** ** Fetches *)

Lemma host_page_fixed s hpage : machine_ok u s -> host_page (s_pmas s) hpage -> host_page (fx_map u) hpage.
Proof.
  intros Hs (H1 & i & p & Hp). split; [done|]. destruct (points_evolves_back _ _ _ _ _ _ (ok_layout _ _ Hs) Hp) as [p' Hp'].
  by exists i, p'.
Qed.

(** The pages that the pointer of a fetch can lie in *)
Definition fetch_pointer_ok (vaddr hptr : Z) : Prop :=
  exists hpage, host_page (fx_map u) hpage /\ hptr = hpage + vaddr `mod` 4096.

Definition fetch_translated (vaddr : Z) : option Z * Z * machine_state -> Prop :=
  fun '(hptr, pc, s) => machine_ok u s /\ pc_ok pc /\ forall p, hptr = Some p -> fetch_pointer_ok vaddr p.

Lemma fetch_translate_pc_slow_ok s pc vaddr :
  machine_ok u s -> pc_ok pc -> is_uint 64 vaddr -> is_even vaddr ->
  returns (fetch_translate_pc_slow s pc vaddr) (fetch_translated vaddr).
Proof.
  intros Hs Hpc Hv Hev. unfold fetch_translate_pc_slow.
  assert (forall s cause, machine_ok u s -> is_uint 64 cause ->
    returns ('(pc, s) ← raise_exception s pc cause vaddr; mret (None, pc, s)) (fetch_translated vaddr)) as Hfault.
  { intros s1 cause Hs1 Hc. eapply returns_then; [by apply (raise_exception_ok u)|]. by intros [pc' s'] [? ?]. }
  eapply returns_then; [by apply (translate_machine_ok s vaddr fetch)|]. intros [[paddr|] s1] [Hs1 Ha]; [|by apply Hfault].
  destruct (Ha paddr eq_refl) as [Hpa Hoff]. assert (word_size 2) as H2 by (unfold word_size; tauto).
  pose proof (same_page_aligned 2 _ _ H2 Hoff Hev) as Hpal.
  eapply returns_then; [apply find_ok; try done; apply Hs1|]. intros [i p] (Hi & Hr & Hh).
  destruct (get_istart_M p) eqn:HM; cbn [negb orb]; [|by apply Hfault].
  destruct (flag_X _); cbn [negb]; [|by apply Hfault].
  eapply returns_then; [by eapply (replace_ok s1 TLB_CODE 2)|]. intros [hpage s2] (Hs2 & Hp & _).
  split; [done|]. split; [done|]. intros q [= <-]. exists hpage. split; [by apply (host_page_fixed s2)|].
  rewrite page_offset_spec. destruct (word_in_page vaddr 2 H2 Hev) as (H3 & H4 & _).
  destruct (page_word (s_pmas s2) hpage 2 (vaddr `mod` 4096)) as (-> & _); try done. apply Hs2.
Qed.

(** The pointer of a hit *)
Lemma hit_pointer s t n v :
  machine_ok u s -> tlb_type t -> word_size n -> is_uint 64 v -> hits s t n v = true ->
  exists hpage, host_page (s_pmas s) hpage /\ uint64 (vh_offset (hot_of s t v) + v) = hpage + v `mod` 4096.
Proof.
  intros Hs Ht Hn Hv Hh. destruct (hit_points s t n v (ok_tlb _ _ Hs) Ht Hn Hv Hh) as (i & p & He & _ & _ & _ & Hp & Ha).
  destruct He as [_ _ _ _ Hpp Hw _]. destruct Hp as (Hi & HM & _). set (a := uint64 _) in *.
  exists (base p + (paddr_page (cold_of s t v) - m_start p)). unfold hit_paddr in Ha. split; [|lia].
  destruct (hm_buffers _ (to_map _ (ok_tlb _ _ Hs)) i p Hi HM) as ([_ _ _ Hb] & _).
  pose proof (Forall_lookup_1 _ _ _ _ (map_ranges _ (hm_map _ (to_map _ (ok_tlb _ _ Hs)))) Hi) as [_ _ Hst _ _].
  change PMA_PAGE_SIZE with 4096 in Hst. split.
  - set (q := paddr_page _) in *. clearbody q. Z.div_mod_to_equations; lia.
  - exists i, p. unfold points. repeat split; try done; lia.
Qed.

Lemma fetch_translate_pc_ok s pc vaddr :
  machine_ok u s -> pc_ok pc -> is_uint 64 vaddr -> is_even vaddr ->
  returns (fetch_translate_pc s pc vaddr) (fetch_translated vaddr).
Proof.
  intros Hs Hpc Hv Hev. unfold fetch_translate_pc, translate_vaddr_via_tlb.
  fold (hot_at s TLB_CODE (tlb_get_entry_index vaddr)). fold (hot_of s TLB_CODE vaddr). fold (hits s TLB_CODE 2 vaddr).
  destruct (hits s TLB_CODE 2 vaddr) eqn:Hh; cbn [negb]; [|by apply fetch_translate_pc_slow_ok].
  split; [done|]. split; [done|]. intros q [= <-].
  destruct (hit_pointer s TLB_CODE 2 vaddr) as (hpage & Hp & ->); try done; [unfold word_size; tauto|].
  exists hpage. split; [by apply (host_page_fixed s)|done].
Qed.

(** ** The cache of the last fetch *)

(** The invariant of a cache in use: an address of its page, plus its offset, is
    in the page of the host that holds it. *)
Definition fetch_cache_ok (c : fetch_cache) : Prop :=
  fetch_vaddr_page c `mod` 4096 = 0 /\ is_uint 64 (fetch_vaddr_page c) /\
  host_page (fx_map u) (uint64 (fetch_vaddr_page c + fetch_vh_offset c)).

(** The test of [fetch_insn]; an invalidated cache has an odd page, the
    complement of a program counter. *)
Definition fetch_hits (c : fetch_cache) (pc : Z) : bool := (pc ^ᵇ fetch_vaddr_page c) <? PMA_PAGE_SIZE - 2.

Definition fetch_safe (c : fetch_cache) (pc : Z) : Prop := fetch_hits c pc = true -> fetch_cache_ok c.

Lemma land_mul_low q x w : 0 <= w -> 0 <= x < 2 ^ w -> Z.land (q * 2 ^ w) x = 0.
Proof.
  intros Hw Hx. apply Z.bits_inj_iff'. intros i Hi. rewrite Z.land_spec, Z.bits_0.
  destruct (Z.lt_ge_cases i w); [by rewrite Z.mul_pow2_bits_low|]. rewrite (testbit_above x w) by lia. apply andb_false_r.
Qed.

Lemma fetch_hits_spec c pc :
  fetch_vaddr_page c `mod` 4096 = 0 -> is_uint 64 (fetch_vaddr_page c) -> pc_ok pc -> fetch_hits c pc = true ->
  exists o, pc = fetch_vaddr_page c + o /\ 0 <= o <= 4092 /\ o `mod` 2 = 0.
Proof.
  intros Hp Hu [Hpc Hev] Hh. apply Z.ltb_lt in Hh. change (PMA_PAGE_SIZE - 2) with 4094 in Hh.
  set (x := pc ^ᵇ fetch_vaddr_page c) in *.
  assert (0 <= x) as Hx by (apply Z.lxor_nonneg; split; intros _; [apply Hu|apply Hpc]).
  assert (pc = Z.lxor (fetch_vaddr_page c) x) as E.
  { unfold x. by rewrite (Z.lxor_comm pc), <- Z.lxor_assoc, Z.lxor_nilpotent. }
  apply Z.div_exact in Hp; [|lia]. set (q := fetch_vaddr_page c `div` 4096) in *.
  assert (Z.lxor (fetch_vaddr_page c) x = fetch_vaddr_page c + x) as E2.
  { symmetry. apply Z.add_nocarry_lxor. rewrite Hp, Z.mul_comm. apply (land_mul_low q x 12); lia. }
  exists x. unfold is_even in Hev. rewrite E, E2, Hp in Hev |- *. split; [done|]. Z.div_mod_to_equations; lia.
Qed.

Lemma fixed_host_page s hpage : machine_ok u s -> host_page (fx_map u) hpage -> host_page (s_pmas s) hpage.
Proof.
  intros Hs (Hm & i & p & Hp). split; [done|]. destruct (points_evolves _ _ _ _ _ _ (ok_layout _ _ Hs) Hp) as [p' Hp'].
  by exists i, p'.
Qed.

Lemma fetch_pointer_word s vaddr hptr n :
  machine_ok u s -> fetch_pointer_ok vaddr hptr -> 0 < n -> vaddr `mod` 4096 + n <= 4096 ->
  exists i p, points (s_pmas s) hptr n i p.
Proof.
  intros Hs (hpage & Hp & ->) Hn Hle. pose proof (Z.mod_pos_bound vaddr 4096 ltac:(lia)).
  destruct (page_word (s_pmas s) hpage n (vaddr `mod` 4096)) as (_ & Hq); try lia; [apply Hs|by apply fixed_host_page|done].
Qed.

Lemma fetch_pointer_even vaddr hptr : fetch_pointer_ok vaddr hptr -> is_even vaddr -> hptr `mod` 2 = 0.
Proof. intros (hpage & (Hm & _) & ->). unfold is_even. Z.div_mod_to_equations; lia. Qed.

(** The cache after a translation *)
Lemma fetch_cache_set s vaddr hptr page :
  machine_ok u s -> is_uint 64 vaddr -> fetch_pointer_ok vaddr hptr -> page = vaddr - vaddr `mod` 4096 ->
  fetch_cache_ok (FetchCache page (uint64 (hptr - vaddr))).
Proof.
  intros Hs Hv (hpage & Hp & ->) ->. split; [|split]; cbn [fetch_vaddr_page fetch_vh_offset].
  - Z.div_mod_to_equations; lia.
  - unfold is_uint in *. Z.div_mod_to_equations; lia.
  - rewrite uint_add_r by lia. replace (vaddr - _ + (_ - vaddr)) with hpage by lia.
    destruct (page_word (s_pmas s) hpage 1 0) as (E & _); try lia; [apply Hs|by apply fixed_host_page|].
    rewrite Z.add_0_r in E. by rewrite E.
Qed.

Definition fetched (c : fetch_cache) (pc : Z) : option Z * Z * fetch_cache * machine_state -> Prop :=
  fun '(insn, pc', c', s) => machine_ok u s /\ pc_ok pc' /\ (c' = c \/ fetch_cache_ok c') /\
    forall i, insn = Some i -> is_uint 32 i /\ pc' = pc /\ fetch_cache_ok c'.

Lemma uint64_page v : uint64 v `mod` 4096 = v `mod` 4096.
Proof.
  unfold uint. rewrite (Z.mod_eq v (2 ^ 64)) by lia. change (2 ^ 64) with (4096 * 2 ^ 52) at 1.
  replace (v - _) with (v + - (2 ^ 52 * (v `div` 2 ^ 64)) * 4096) by lia. by rewrite Z_mod_plus_full.
Qed.

Lemma page_end pc : pc_ok pc -> (Z.shiftr (not64 pc &ᵇ PAGE_OFFSET_MASK) 1 =? 0) = (pc `mod` 4096 =? 4094).
Proof.
  intros [Hpc Hev]. rewrite page_offset_spec, Z.shiftr_div_pow2 by lia. unfold not64, Z.lnot. rewrite uint64_page.
  replace (Z.pred (- pc) `mod` 4096) with (4095 - pc `mod` 4096) by (Z.div_mod_to_equations; lia).
  unfold is_even in Hev. change (2 ^ 1) with 2. bool_cases; Z.div_mod_to_equations; lia.
Qed.

(** A word read from a valid pointer *)
Lemma host_read_at s a align n i p :
  machine_ok u s -> a `mod` align = 0 -> 0 < n -> points (s_pmas s) a n i p ->
  exists v, host_read_unaligned s a align n = Done v /\ is_uint (8 * n) v.
Proof.
  intros Hs Ha Hn Hp. eexists. split; [by apply (host_read_unaligned_spec s (to_map _ (ok_tlb _ _ Hs)) a align n i p)|].
  eapply slice_range; [apply Hs|apply Hp|apply Hp|lia].
Qed.

(** The rest of a fetch, once the first pointer is known *)
Definition fetch_miss (s : machine_state) (pc hptr : Z) : outcome (option Z * Z * fetch_cache * machine_state) :=
  let c := FetchCache (pc &ᵇ not64 PAGE_OFFSET_MASK) (uint64 (hptr - pc)) in
  if Z.shiftr (not64 pc &ᵇ PAGE_OFFSET_MASK) 1 =? 0 then
    insn ← host_read s hptr 2;
    if insn_is_uncompressed insn then
      let vaddr := uint64 (pc + 2) in
      '(hptr, new_pc, s) ← fetch_translate_pc s pc vaddr;
      match hptr with
      | None => mret (None, new_pc, c, s)
      | Some hptr =>
          let c := FetchCache vaddr (uint64 (hptr - vaddr)) in
          high ← host_read s hptr 2;
          mret (Some (insn |ᵇ Z.shiftl high 16), pc, c, s)
      end
    else mret (Some insn, pc, c, s)
  else
    insn ← host_read_unaligned s hptr 2 4;
    mret (Some insn, pc, c, s).

Lemma fetch_miss_ok s pc hptr c :
  machine_ok u s -> pc_ok pc -> fetch_pointer_ok pc hptr -> returns (fetch_miss s pc hptr) (fetched c pc).
Proof.
  intros Hs [Hpc Hev] Hptr. unfold fetch_miss. cbv zeta. rewrite page_end by done.
  assert (fetch_cache_ok (FetchCache (pc &ᵇ not64 PAGE_OFFSET_MASK) (uint64 (hptr - pc)))) as Hc
    by (apply (fetch_cache_set s pc); try done; by apply page_of_spec).
  pose proof (fetch_pointer_even pc hptr Hptr Hev) as Hpe.
  destruct (Z.eqb_spec (pc `mod` 4096) 4094) as [E|E].
  - destruct (fetch_pointer_word s pc hptr 2 Hs Hptr) as (i & p & Hp); [lia..|].
    destruct (host_read_at s hptr 2 2 i p Hs Hpe ltac:(lia) Hp) as (low & Hread & Hlow). unfold host_read. rewrite Hread.
    cbn [mbind outcome_bind]. case_if.
    2: { split; [done|]. split; [done|]. split; [by right|]. intros v [= <-]. split; [|done]. eapply uint_mono; [|exact Hlow]. lia. }
    assert (pc_ok (uint64 (pc + 2))) as [Hv Hve] by (apply pc_ok_add; done).
    eapply returns_then; [by apply (fetch_translate_pc_ok s pc)|]. intros [[[hptr'|] pc'] s1] (Hs1 & Hpc' & Hptr1).
    2: { split; [done|]. split; [done|]. split; [by right|done]. }
    specialize (Hptr1 hptr' eq_refl). pose proof (fetch_pointer_even _ _ Hptr1 Hve) as Hpe1.
    assert (uint64 (pc + 2) `mod` 4096 = 0) as Ez.
    { rewrite uint64_page. Z.div_mod_to_equations; lia. }
    destruct (fetch_pointer_word s1 _ hptr' 2 Hs1 Hptr1) as (i' & p' & Hp'); [lia..|].
    destruct (host_read_at s1 hptr' 2 2 i' p' Hs1 Hpe1 ltac:(lia) Hp') as (high & Hread' & Hhigh). rewrite Hread'.
    assert (fetch_cache_ok (FetchCache (uint64 (pc + 2)) (uint64 (hptr' - uint64 (pc + 2))))) as Hc1
      by (apply (fetch_cache_set s1 (uint64 (pc + 2))); try done; lia).
    split; [done|]. split; [done|]. split; [by right|]. intros v [= <-]. split; [|done].
    apply lor_uint; [lia|eapply uint_mono; [|exact Hlow]; lia|].
    unfold is_uint in *. rewrite Z.shiftl_mul_pow2 by lia. lia.
  - assert (pc `mod` 4096 + 4 <= 4096) as Hle by (unfold is_even in Hev; Z.div_mod_to_equations; lia).
    destruct (fetch_pointer_word s pc hptr 4 Hs Hptr) as (i & p & Hp); [lia..|].
    destruct (host_read_at s hptr 2 4 i p Hs Hpe ltac:(lia) Hp) as (v & Hread & Hvr). rewrite Hread.
    split; [done|]. split; [done|]. split; [by right|]. by intros ? [= <-].
Qed.

Lemma fetch_insn_ok s pc c :
  machine_ok u s -> pc_ok pc -> fetch_safe c pc -> returns (fetch_insn s pc c) (fetched c pc).
Proof.
  intros Hs Hpc Hc. unfold fetch_insn. fold (fetch_hits c pc). unfold fetch_safe in Hc.
  destruct (fetch_hits c pc) eqn:Hh.
  - specialize (Hc eq_refl). pose proof Hc as (Hp & Hu & Hpage).
    destruct (fetch_hits_spec c pc Hp Hu Hpc Hh) as (o & Eo & Ho & Ho2).
    assert (uint64 (pc + fetch_vh_offset c) = uint64 (fetch_vaddr_page c + fetch_vh_offset c) + o) as Ea.
    { destruct (page_word (s_pmas s) _ 4 o (to_map _ (ok_tlb _ _ Hs)) (fixed_host_page _ _ Hs Hpage)) as (<- & _); try lia.
      rewrite uint_add_l, Eo by lia. f_equal. lia. }
    destruct (page_word (s_pmas s) _ 4 o (to_map _ (ok_tlb _ _ Hs)) (fixed_host_page _ _ Hs Hpage)) as (_ & i & p & Hip); try lia.
    rewrite Ea. assert ((uint64 (fetch_vaddr_page c + fetch_vh_offset c) + o) `mod` 2 = 0) as Ha.
    { destruct Hpage as [Hm _]. Z.div_mod_to_equations; lia. }
    destruct (host_read_at s _ 2 4 i p Hs Ha ltac:(lia) Hip) as (v & -> & Hvr).
    split; [done|]. split; [done|]. split; [by left|]. by intros ? [= <-].
  - eapply returns_then; [apply (fetch_translate_pc_ok s pc pc); try done; apply Hpc|].
    intros [[[hptr|] pc'] s1] (Hs1 & Hpc' & Hptr).
    2: { split; [done|]. split; [done|]. split; [by left|done]. }
    apply (fetch_miss_ok s1 pc hptr c); auto.
Qed.

End accesses.

(** ** The devices *)

(** The drivers of the devices that are modelled, by name *)
Definition error_driver : pma_driver := PmaDriver "DEVICE" device_read_error device_write_error.

Definition machine_driver (name : string) : pma_driver :=
  if String.eqb name (drv_name clint_driver) then clint_driver
  else if String.eqb name (drv_name plic_driver) then plic_driver
  else if String.eqb name (drv_name htif_driver) then htif_driver
  else error_driver.

Section devices.
Context (u : fixed).

Definition da_ok (a : device_access) : Prop := machine_ok u (da_s a).

Lemma set_mip_ok m a : da_ok a -> is_uint 64 m -> da_ok (set_mip m a).
Proof. intros Ha Hm. apply (ok_assign_mip u _ Ha). apply lor_uint; [lia|apply Ha|done]. Qed.

Lemma reset_mip_ok m a : da_ok a -> da_ok (reset_mip m a).
Proof. intros Ha. apply (ok_assign_mip u _ Ha). apply land_uint; [lia|apply Ha]. Qed.

Lemma write_iflags_ok a : da_ok a ->
  da_ok (write_iflags_H 1 a) /\ da_ok (write_iflags_Y 1 a) /\ da_ok (write_iflags_X 1 a).
Proof. intros Ha. split; [|split]; by apply ok_upd_iflags. Qed.

Lemma write_mtimecmp_ok v a : da_ok a -> is_uint 64 v -> da_ok (write_clint_mtimecmp v a).
Proof. intros Ha Hv. by apply (ok_set_mtimecmp u _ Ha). Qed.

Lemma write_plic_ok v a : da_ok a -> da_ok (write_plic_girqpend v a) /\ da_ok (write_plic_girqsrvd v a).
Proof. intros Ha. split; by apply ok_upd_plic. Qed.

Lemma write_htif_ok v a : da_ok a -> da_ok (write_htif_tohost v a) /\ da_ok (write_htif_fromhost v a).
Proof. intros Ha. split; by apply ok_upd_htif. Qed.

Create HintDb device.
#[local] Hint Resolve set_mip_ok reset_mip_ok : device.
#[local] Hint Extern 1 (da_ok (write_iflags_H _ _)) => apply write_iflags_ok : device.
#[local] Hint Extern 1 (da_ok (write_iflags_Y _ _)) => apply write_iflags_ok : device.
#[local] Hint Extern 1 (da_ok (write_iflags_X _ _)) => apply write_iflags_ok : device.
#[local] Hint Extern 1 (da_ok (write_plic_girqsrvd _ _)) => apply write_plic_ok : device.
#[local] Hint Extern 1 (da_ok (write_htif_tohost _ _)) => apply write_htif_ok : device.
#[local] Hint Extern 1 (da_ok (write_htif_fromhost _ _)) => apply write_htif_ok : device.
#[local] Hint Extern 1 (da_ok (os_putchar _ ?a)) => change (da_ok a) : device.
#[local] Hint Extern 1 (da_ok (DeviceAccess (da_s ?a) _ _ _)) => change (da_ok a) : device.
#[local] Hint Extern 2 (is_uint _ _) => split; [discriminate 1|reflexivity] : device.

Ltac fold_ok := lazymatch goal with |- machine_ok _ (da_s ?a) => change (da_ok a) end.

#[export] Instance clint_ok : DeviceOk u clint_driver.
Proof.
  split.
  - intros offset log2_size h mcycle Hs _. cbn. unfold clint_read. by repeat case_if.
  - intros offset val log2_size h mcycle Hs _ Hv. assert (da_ok (device_state_access h mcycle)) as Ha by done. cbn.
    unfold clint_write. repeat case_if; (split; [fold_ok|done]); auto with device.
    apply reset_mip_ok. by apply write_mtimecmp_ok.
Qed.

#[export] Instance plic_ok : DeviceOk u plic_driver.
Proof.
  split.
  - intros offset log2_size h mcycle Hs _. assert (da_ok (device_state_access h mcycle)) as Ha by done. cbn.
    unfold plic_read, plic_read_claim_complete. cbv zeta. repeat case_if; cbn [snd]; fold_ok; auto with device.
  - intros offset val log2_size h mcycle Hs _ _. assert (da_ok (device_state_access h mcycle)) as Ha by done. cbn.
    unfold plic_write, plic_write_claim_complete. cbv zeta. repeat case_if; (split; [fold_ok|done]); auto with device.
Qed.

#[export] Instance htif_ok : DeviceOk u htif_driver.
Proof.
  split.
  - intros offset log2_size h mcycle Hs _. cbn. unfold htif_read. by repeat case_if.
  - intros offset val log2_size h mcycle Hs _ _. assert (da_ok (device_state_access h mcycle)) as Ha by done. cbn.
    unfold htif_write, htif_write_tohost, htif_halt, htif_yield, htif_console, os_getchar. cbv zeta.
    repeat (case_if || case_match); simplify_eq; (split; [fold_ok; auto 6 with device|done]).
Qed.

Lemma error_ok : DeviceOk u error_driver.
Proof. split; [done|]. intros. by split. Qed.

Lemma machine_driver_ok name : DeviceOk u (machine_driver name).
Proof.
  unfold machine_driver. repeat case_if; [apply clint_ok|apply plic_ok|apply htif_ok|apply error_ok].
Qed.

End devices.
