(* ===== verification/PrivilegedSpec.v ===== *)
(** * Control and status registers, traps, returns and interrupts

    Reads of registers return values of 64 bits; writes keep the invariant of the
    machine, whatever the value written; a failed access changes nothing.

    A trap saves what the return needs: the instructions MRET and SRET resume
    the program where it was interrupted, in its mode.  An interrupt is taken
    exactly when one is pending and enabled in the mode of the machine; which one
    is chosen by one order for all, where the architecture first takes those for
    machine mode.  The accesses to control and status
    registers that the mode does not allow are illegal instructions. *)

From S2P Require Import Prelude CppInt Constants RiscvConstants UarchAccess Bytes RV64IM UarchOps Pma MachineState UarchBridge UarchBridgeSpec DeviceAccess Clint Tlb Trap Csr CsrInsns HostMemory HostTlb VirtualMemory MachineOk TrapSpec.

(** ** Reads *)

Lemma read_csr_range u s mcycle csraddr v :
  machine_ok u s -> is_uint 64 mcycle -> read_csr s mcycle csraddr = Some v -> is_uint 64 v.
Proof.
  intros Hs Hm. unfold read_csr. case_if; [done|].
  unfold read_csr_fflags, read_csr_frm, read_csr_fcsr, read_csr_cycle, read_csr_instret, read_csr_time, read_csr_sstatus,
    read_csr_senvcfg, read_csr_sie, read_csr_sip, read_csr_satp, read_csr_mstatus, read_csr_menvcfg, read_csr_minstret.
  repeat (case_if; [repeat case_if; intros [= <-]; first [done|by apply Hs|apply uint_range; lia|idtac]|]);
    try (intros [= <-]; done); try done; try (apply land_uint; [lia|by apply Hs]).
  - apply shiftr_uint; [lia|done|]. apply land_uint; [lia|apply Hs].
  - unfold rtc_cycle_to_time. unfold is_uint in *. change RTC_FREQ_DIV with 8192. Z.div_mod_to_equations; lia.
Qed.

(** ** Values written *)

Section values.
Context (old mask val : Z) (Hold : is_uint 64 old) (Hval : is_uint 64 val).

Lemma write_masked_range : is_uint 64 (write_masked old mask val).
Proof. unfold write_masked. auto with machine. Qed.

Lemma write_masked_testbit i : 0 <= i -> Z.testbit (write_masked old mask val) i = if Z.testbit mask i then Z.testbit val i else Z.testbit old i.
Proof.
  intros Hi. unfold write_masked. rewrite Z.lor_spec, !Z.land_spec, not64_testbit by done.
  destruct (Z.testbit mask i) eqn:E; cbn [negb]; rewrite ?andb_false_r, ?andb_true_r; [done|]. rewrite orb_false_r.
  destruct (Z.ltb_spec i 64); [by rewrite andb_true_r|]. by rewrite (testbit_above old 64 i).
Qed.

Lemma write_masked_within within : bits_within old within -> bits_within mask within -> bits_within (write_masked old mask val) within.
Proof.
  intros Ho Hm i Hi. rewrite write_masked_testbit by done. destruct (Z.testbit mask i) eqn:E; [|by apply Ho]. intros _. by apply Hm.
Qed.

Lemma clear_bit0 : is_uint 64 (val &ᵇ not64 1) /\ is_even (val &ᵇ not64 1).
Proof.
  split; [auto with machine|]. unfold is_even. unfold not64. rewrite land_not_uint by (done || lia).
  change 1 with (2 ^ 1 - 1). rewrite ldiff_low by lia. change (2 ^ 1) with 2. rewrite Z.mul_comm. apply Z_mod_mult.
Qed.

Lemma legal_mstatus_range : is_uint 64 (legal_mstatus old val).
Proof.
  unfold legal_mstatus. cbv zeta. set (v := if _ =? _ then _ else val).
  assert (is_uint 64 v) by (unfold v; case_if; auto with machine). set (m := write_masked _ _ _).
  assert (is_uint 64 m) by (unfold m, write_masked; auto with machine). case_if; auto with machine.
Qed.

(** The value 2 is not written to MPP. *)
Lemma legal_mstatus_mpp : legal_mpp (legal_mstatus old val).
Proof.
  assert (forall m, is_uint 64 m -> legal_mpp m -> legal_mpp (m &ᵇ not64 MSTATUS_SD_MASK)) as Hclear.
  { intros m Hm H. unfold legal_mpp in *. rewrite !(clear_field_testbit m 63 1) by (done || lia). exact H. }
  assert (forall m, legal_mpp m -> legal_mpp (m |ᵇ MSTATUS_FS_DIRTY |ᵇ MSTATUS_SD_MASK)) as Hset.
  { intros m H. unfold legal_mpp in *. rewrite !Z.lor_spec. const_bits. rewrite ?orb_false_r, ?orb_true_r in *. auto. }
  unfold legal_mstatus. cbv zeta. rewrite mpp_spec. set (v := if _ =? _ then _ else val).
  assert (is_uint 64 v /\ legal_mpp v) as [Hv Hl].
  { unfold v. case_if; reflect_bools.
    - split; [auto with machine|]. unfold legal_mpp. rewrite !(clear_field_testbit val 11 2) by (done || lia). done.
    - split; [done|]. intros H12. pose proof (field_testbit val 11 2 0 ltac:(lia) ltac:(lia) ltac:(lia)) as H0.
      pose proof (field_testbit val 11 2 1 ltac:(lia) ltac:(lia) ltac:(lia)) as H1. fold (mpp val) in H0, H1.
      change (1 + 11) with 12 in H1. change (0 + 11) with 11 in H0. rewrite H12 in H1. cbn [andb] in H0, H1.
      change (0 <? 2) with true in H0. change (1 <? 2) with true in H1. cbn [andb] in H0, H1. rewrite <- H0.
      pose proof (Z.mod_pos_bound (val `div` 2 ^ 11) (2 ^ 2) ltac:(lia)) as Hr. fold (mpp val) in Hr.
      change PRV_HS with 2 in E.
      assert (mpp val = 0 \/ mpp val = 1 \/ mpp val = 3) as [E'|[E'|E']] by lia; rewrite E' in *; done. }
  clearbody v. set (m := write_masked _ _ _). assert (is_uint 64 m /\ legal_mpp m) as [Hm Hlm].
  { split; [unfold m, write_masked; auto with machine|]. unfold m, legal_mpp, write_masked.
    rewrite !Z.lor_spec, !Z.land_spec, !not64_testbit by lia. const_bits. cbn [negb andb].
    rewrite ?andb_false_r, ?andb_true_r. exact Hl. }
  case_if; auto.
Qed.

End values.

#[export] Hint Resolve write_masked_range legal_mstatus_range legal_mstatus_mpp : machine.

(** ** Writes *)

Definition csr_ok (u : fixed) : execute_status * machine_state -> Prop :=
  fun '(status, s) => status <> success_and_halt /\ machine_ok u s.

Lemma flush_tlb_type_if_ok u s t (b : bool) : machine_ok u s -> tlb_type t -> returns (if b then flush_tlb_type t s else mret s) (machine_ok u).
Proof. intros. destruct b; [by apply flush_tlb_type_ok|done]. Qed.

Lemma write_csr_mstatus_ok u s val : machine_ok u s -> is_uint 64 val -> returns (write_csr_mstatus s val) (csr_ok u).
Proof.
  intros Hs Hv. unfold write_csr_mstatus. cbv zeta. set (old := s_mstatus s &ᵇ MSTATUS_R_MASK).
  assert (is_uint 64 old) as Ho by (unfold old; eauto with machine).
  set (s1 := assign upd_mstatus _ s). assert (machine_ok u s1) as Hs1 by (unfold s1; auto with machine).
  eapply returns_then; [by apply (flush_tlb_type_if_ok u)|]. intros s2 Hs2.
  eapply returns_then; [by apply (flush_tlb_type_if_ok u)|]. intros s3 Hs3. split; [by case_if|exact Hs3].
Qed.

Lemma write_csr_satp_ok u s val : machine_ok u s -> is_uint 64 val -> returns (write_csr_satp s val) (csr_ok u).
Proof.
  intros Hs Hv. unfold write_csr_satp. cbv zeta. case_if; [done|]. case_if; [|done].
  set (s1 := assign upd_satp _ s). assert (machine_ok u s1) as Hs1 by (unfold s1; auto 6 with machine).
  case_if; [|done]. eapply returns_then; [by apply (flush_all_tlb_ok u)|]. intros s2 Hs2. by split.
Qed.

Lemma mie_bits u s : machine_ok u s -> is_uint 64 (s_mie s) /\ bits_within (s_mie s) IE_MASK.
Proof. apply ok_mie. Qed.

Lemma within_trans a b c : bits_within a b -> bits_within b c -> bits_within a c.
Proof. intros H1 H2 i Hi Hb. auto. Qed.

Lemma supervisor_within : bits_within SUPERVISOR_MASK IE_MASK.
Proof.
  intros i Hi. unfold IE_MASK. rewrite !Z.lor_spec. unfold SUPERVISOR_MASK. rewrite !Z.lor_spec.
  intros H. destruct (Z.testbit MIP_SSIP_MASK i), (Z.testbit MIP_STIP_MASK i), (Z.testbit MIP_SEIP_MASK i); try discriminate H;
    rewrite ?orb_true_r; done.
Qed.

Lemma write_csr_ok u s mcycle csraddr val :
  machine_ok u s -> is_uint 64 val -> returns (write_csr s mcycle csraddr val) (csr_ok u).
Proof.
  intros Hs Hv. unfold write_csr. case_if; [done|]. case_if; [done|].
  pose proof (ok_mie _ _ Hs) as [Hmie Hmieb]. pose proof (ok_mideleg _ _ Hs) as [Hdel Hdelb].
  pose proof (clear_bit0 val Hv) as [He1 He2].
  unfold write_csr_fflags, write_csr_frm, write_csr_fcsr, write_csr_sstatus, write_csr_senvcfg, write_csr_sie, write_csr_stvec,
    write_csr_scounteren, write_csr_sscratch, write_csr_sepc, write_csr_scause, write_csr_stval, write_csr_sip, write_csr_menvcfg,
    write_csr_medeleg, write_csr_mideleg, write_csr_mie, write_csr_mtvec, write_csr_mcounteren, write_csr_mscratch, write_csr_mepc,
    write_csr_mcause, write_csr_mtval, write_csr_mip, write_csr_mcycle, write_csr_minstret.
  repeat (case_if; [try case_if; cbn [returns csr_ok]; try done; try (split; [done|]); eauto 6 with machine|]);
    try (cbn [returns csr_ok]; done).
  - apply write_csr_mstatus_ok; eauto with machine.
  - apply ok_assign_mie; [done|auto with machine|]. apply write_masked_within; [done..|]. eapply within_trans; [done|].
    apply supervisor_within.
  - by apply write_csr_satp_ok.
  - by apply write_csr_mstatus_ok.
  - apply ok_assign_mideleg; [done|auto with machine|]. apply write_masked_within; [done..|]. by intros i.
  - apply ok_assign_mie; [done|auto with machine|]. apply write_masked_within; [done..|]. by intros i.
Qed.

(** ** What a change of mode keeps *)

(** The registers of the program, its address space, and the interrupts *)
Record same_context (s s' : machine_state) : Prop := {
  sc_x : s_x s' = s_x s;
  sc_f : s_f s' = s_f s;
  sc_fcsr : s_fcsr s' = s_fcsr s;
  sc_satp : s_satp s' = s_satp s;
  sc_mip : s_mip s' = s_mip s;
  sc_mie : s_mie s' = s_mie s;
  sc_mideleg : s_mideleg s' = s_mideleg s;
}.

#[export] Instance same_context_preorder : PreOrder same_context.
Proof. split; [done|]. intros s1 s2 s3 [] []. constructor; congruence. Qed.

(** The registers a return reads *)
Record same_trap (s s' : machine_state) : Prop := {
  st_mstatus : s_mstatus s' = s_mstatus s;
  st_mepc : s_mepc s' = s_mepc s;
  st_sepc : s_sepc s' = s_sepc s;
  st_mtvec : s_mtvec s' = s_mtvec s;
  st_stvec : s_stvec s' = s_stvec s;
}.

Lemma set_prv_spec s p (b : bool) :
  tlb_ok s -> (b = false -> s_iprv s = p) ->
  exists s', (if b then set_prv s p else mret s) = Done s' /\ s_iprv s' = p /\ same_context s s' /\ same_trap s s'.
Proof.
  intros Hs Hb. destruct b; [|exists s; split; [done|]; split; [by apply Hb|done]].
  unfold set_prv. cbv zeta. destruct (flush_all_tlb_spec (assign upd_iprv p s)) as (s' & E & Hf).
  { apply tlb_ok_wf. by apply (tlb_ok_same s). }
  rewrite E. assert (kept (assign upd_iprv p s) s') as [Hk _] by apply Hf. cbn [mbind outcome_bind]. eexists. split; [reflexivity|].
  rewrite Hk. by destruct s.
Qed.

(** ** The return from a trap *)

(** The bits of [mstatus] that a trap and its return do not restore: the ones
    that save the state (PIE, PP) and MPRV *)
Definition trap_bits (deleg : bool) : list Z :=
  if deleg then [MSTATUS_SPIE_SHIFT; 8; MSTATUS_MPRV_SHIFT] else [MSTATUS_MPIE_SHIFT; 11; 12; MSTATUS_MPRV_SHIFT].

Lemma mpp_trap m p : is_uint 64 m -> is_prv p -> mpp (trap_mstatus_M m p) = p.
Proof.
  intros Hm Hp. apply Z.bits_inj_iff'. intros i Hi. unfold mpp. rewrite field_testbit, trap_mstatus_M_bits by (done || lia).
  unfold MSTATUS_MIE_SHIFT, MSTATUS_MPIE_SHIFT. destruct (is_prv_range p Hp) as [_ Hr].
  destruct (Z.ltb_spec i 2); [|symmetry; apply (testbit_above p 2); [exact Hr|lia]].
  assert (i = 0 \/ i = 1) as [->| ->] by lia; done.
Qed.

Lemma spp_trap m p : is_uint 64 m -> p = PRV_U \/ p = PRV_S -> spp (trap_mstatus_S m p) = p.
Proof.
  intros Hm Hp. apply Z.bits_inj_iff'. intros i Hi. unfold spp. rewrite field_testbit, trap_mstatus_S_bits by (done || lia).
  unfold MSTATUS_SIE_SHIFT, MSTATUS_SPIE_SHIFT.
  destruct (Z.ltb_spec i 1); [|symmetry; apply (testbit_above p 1); [destruct Hp as [->| ->]; done|lia]].
  replace i with 0 by lia. done.
Qed.

Lemma mret_trap_bits m p i : is_uint 64 m -> is_prv p -> 0 <= i -> i ∉ trap_bits false ->
  Z.testbit (mret_mstatus (trap_mstatus_M m p)) i = Z.testbit m i.
Proof.
  intros Hm Hp Hi Hn. unfold trap_bits in Hn. rewrite !not_elem_of_cons in Hn. unfold MSTATUS_MPIE_SHIFT, MSTATUS_MPRV_SHIFT in Hn.
  rewrite mret_mstatus_bits, !trap_mstatus_M_bits by (done || lia || by apply trap_mstatus_M_range).
  unfold MSTATUS_MIE_SHIFT, MSTATUS_MPIE_SHIFT, MSTATUS_MPRV_SHIFT.
  destruct (Z.eqb_spec i 3) as [->|]; [done|]. bool_cases; lia || (by rewrite andb_false_r) || done.
Qed.

Lemma sret_trap_bits m p i : is_uint 64 m -> p = PRV_U \/ p = PRV_S -> 0 <= i -> i ∉ trap_bits true ->
  Z.testbit (sret_mstatus (trap_mstatus_S m p)) i = Z.testbit m i.
Proof.
  intros Hm Hp Hi Hn. unfold trap_bits in Hn. rewrite !not_elem_of_cons in Hn. unfold MSTATUS_SPIE_SHIFT, MSTATUS_MPRV_SHIFT in Hn.
  rewrite sret_mstatus_bits, !trap_mstatus_S_bits by (done || lia || by apply trap_mstatus_S_range).
  unfold MSTATUS_SIE_SHIFT, MSTATUS_SPIE_SHIFT, MSTATUS_MPRV_SHIFT.
  destruct (Z.eqb_spec i 1) as [->|]; [done|]. bool_cases; lia || done.
Qed.

(** What a trap leaves for the return *)
Lemma raise_exception_spec u s pc cause tval :
  machine_ok u s ->
  exists s1, let d := delegated s cause in
    raise_exception s pc cause tval = Done (if d then s_stvec s else s_mtvec s, s1) /\ same_context s s1 /\
    s_iprv s1 = (if d then PRV_S else PRV_M) /\ (if d then s_sepc s1 else s_mepc s1) = pc /\
    s_mstatus s1 = (if d then trap_mstatus_S else trap_mstatus_M) (s_mstatus s) (s_iprv s).
Proof.
  intros Hs. unfold raise_exception. cbv zeta. set (tval' := if _ && _ then _ else tval).
  destruct (delegated s cause).
  - set (s0 := assign upd_mstatus _ _).
    destruct (set_prv_spec s0 PRV_S (negb (s_iprv s =? PRV_S))) as (s1 & E & Hp & Hc & Ht).
    { apply (tlb_ok_same s); try done. apply Hs. } { by intros ?%negb_false_iff%Z.eqb_eq. }
    rewrite E. exists s1. destruct Hc, Ht. cbn [mbind outcome_bind]. split_and!; [by f_equal; f_equal|by constructor|done|done|done].
  - set (s0 := assign upd_mstatus _ _).
    destruct (set_prv_spec s0 PRV_M (negb (s_iprv s =? PRV_M))) as (s1 & E & Hp & Hc & Ht).
    { apply (tlb_ok_same s); try done. apply Hs. } { by intros ?%negb_false_iff%Z.eqb_eq. }
    rewrite E. exists s1. destruct Hc, Ht. cbn [mbind outcome_bind]. split_and!; [by f_equal; f_equal|by constructor|done|done|done].
Qed.

(** The program resumes: its registers, its mode, and the bits of [mstatus]
    but those of [l] *)
Definition resumes (l : list Z) (s : machine_state) (pc : Z) : execute_status * Z * machine_state -> Prop :=
  fun '(status, pc', s') =>
    status = success_and_serve_interrupts /\ pc' = pc /\ same_context s s' /\ s_iprv s' = s_iprv s /\
    forall i, 0 <= i -> i ∉ l -> Z.testbit (s_mstatus s') i = Z.testbit (s_mstatus s) i.

Lemma assign_mstatus_context s v : same_context s (assign upd_mstatus v s).
Proof. done. Qed.

Lemma mret_resumes s s1 pc handler insn :
  tlb_ok s1 -> is_uint 64 (s_mstatus s) -> is_prv (s_iprv s) -> same_context s s1 -> s_iprv s1 = PRV_M -> s_mepc s1 = pc ->
  s_mstatus s1 = trap_mstatus_M (s_mstatus s) (s_iprv s) ->
  returns (execute_MRET s1 handler insn) (resumes (trap_bits false) s pc).
Proof.
  intros Hs1 Hm Hprv Hc Hp Hpc Hst. unfold execute_MRET. rewrite Hp, Hst, mpp_spec, mpp_trap by done. cbv zeta.
  change (PRV_M <? PRV_M) with false. cbv iota.
  set (s2 := assign upd_mstatus _ s1).
  destruct (set_prv_spec s2 (s_iprv s) (negb (PRV_M =? s_iprv s))) as (s3 & -> & H3 & Hc3 & Ht3).
  { by apply (tlb_ok_same s1). } { intros E%negb_false_iff%Z.eqb_eq. by rewrite <- E. }
  cbn [mbind outcome_bind]. split; [done|]. split; [by rewrite (st_mepc _ _ Ht3)|].
  split; [etrans; [exact Hc|]; etrans; [|exact Hc3]; apply assign_mstatus_context|].
  split; [done|]. intros i Hi Hn. rewrite (st_mstatus _ _ Ht3). by apply mret_trap_bits.
Qed.

Lemma sret_resumes s s1 pc handler insn :
  tlb_ok s1 -> is_uint 64 (s_mstatus s) -> s_iprv s = PRV_U \/ s_iprv s = PRV_S ->
  Z.testbit (s_mstatus s) MSTATUS_TSR_SHIFT = false -> same_context s s1 -> s_iprv s1 = PRV_S -> s_sepc s1 = pc ->
  s_mstatus s1 = trap_mstatus_S (s_mstatus s) (s_iprv s) ->
  returns (execute_SRET s1 handler insn) (resumes (trap_bits true) s pc).
Proof.
  intros Hs1 Hm Hprv Htsr Hc Hp Hpc Hst. unfold execute_SRET. rewrite Hp, Hst, spp_spec, spp_trap by done. cbv zeta.
  assert (trap_mstatus_S (s_mstatus s) (s_iprv s) &ᵇ MSTATUS_TSR_MASK =? 0 = true) as ->.
  { change MSTATUS_TSR_MASK with (2 ^ 22). rewrite land_pow2, trap_mstatus_S_bits by (done || lia).
    unfold MSTATUS_TSR_SHIFT in Htsr. by rewrite Htsr. }
  change ((PRV_S <? PRV_S) || (PRV_S =? PRV_S) && negb true) with false. cbv iota.
  set (s2 := assign upd_mstatus _ s1).
  destruct (set_prv_spec s2 (s_iprv s) (negb (PRV_S =? s_iprv s))) as (s3 & -> & H3 & Hc3 & Ht3).
  { by apply (tlb_ok_same s1). } { intros E%negb_false_iff%Z.eqb_eq. by rewrite <- E. }
  cbn [mbind outcome_bind]. split; [done|]. split; [by rewrite (st_sepc _ _ Ht3)|].
  split; [etrans; [exact Hc|]; etrans; [|exact Hc3]; apply assign_mstatus_context|].
  split; [done|]. intros i Hi Hn. rewrite (st_mstatus _ _ Ht3). by apply sret_trap_bits.
Qed.

(** With TSR set the supervisor may not return. *)
Lemma sret_trapped s s1 handler insn :
  is_uint 64 (s_mstatus s) -> s_iprv s = PRV_U \/ s_iprv s = PRV_S ->
  Z.testbit (s_mstatus s) MSTATUS_TSR_SHIFT = true -> s_iprv s1 = PRV_S ->
  s_mstatus s1 = trap_mstatus_S (s_mstatus s) (s_iprv s) ->
  execute_SRET s1 handler insn = raise_illegal_insn_exception s1 handler insn.
Proof.
  intros Hm Hprv Htsr Hp Hst. unfold execute_SRET. rewrite Hp, Hst.
  assert (trap_mstatus_S (s_mstatus s) (s_iprv s) &ᵇ MSTATUS_TSR_MASK =? 0 = false) as ->; [|done].
  change MSTATUS_TSR_MASK with (2 ^ 22). rewrite land_pow2, trap_mstatus_S_bits by (done || lia).
  unfold MSTATUS_TSR_SHIFT in Htsr. by rewrite Htsr.
Qed.

(** C7: A trap is undone by the return from it: after any exception or interrupt,
    in any mode, MRET (when the trap is taken in machine mode) or SRET (when it is
    delegated, and mstatus.TSR is clear) resumes the program at the address where it
    was interrupted, in its mode, with its registers, its address space and its
    interrupt enable bits; of [mstatus] only the fields that the trap itself uses,
    and MPRV, differ.  When the trap is delegated and TSR is set, SRET is an illegal
    instruction in the handler, as the architecture asks. *)
Theorem trap_return u s pc cause tval insn :
  machine_ok u s -> pc_ok pc -> is_uint 64 cause -> is_uint 64 tval ->
  exists handler s1, raise_exception s pc cause tval = Done (handler, s1) /\
  if delegated s cause && Z.testbit (s_mstatus s) MSTATUS_TSR_SHIFT
  then execute_SRET s1 handler insn = raise_illegal_insn_exception s1 handler insn
  else returns ((if delegated s cause then execute_SRET else execute_MRET) s1 handler insn)
    (resumes (trap_bits (delegated s cause)) s pc).
Proof.
  intros Hs Hpc Hc Ht. pose proof (raise_exception_ok u s pc cause tval Hs Hpc Hc Ht) as Hok.
  destruct (raise_exception_spec u s pc cause tval Hs) as (s1 & E & H1 & H2 & H3 & H4). rewrite E in Hok.
  destruct Hok as [_ Hok]. pose proof (ok_mstatus _ _ Hs) as Hm. pose proof (ok_prv _ _ Hs) as Hp.
  eexists _, s1. split; [exact E|]. destruct (delegated s cause) eqn:Ed; cbn [andb].
  - case_if; [by apply (sret_trapped s); try done; eapply delegated_prv|].
    apply sret_resumes; try done; [apply Hok|by eapply delegated_prv].
  - apply mret_resumes; try done. apply Hok.
Qed.

(** ** Interrupts *)

(** The condition of the privileged architecture: the interrupt is pending and
    enabled, and the mode it is taken in is above the mode of the machine, or is
    that mode and has interrupts enabled. *)
Definition takes (s : machine_state) (i : Z) : bool :=
  Z.testbit (s_mip s) i && Z.testbit (s_mie s) i &&
  (if Z.testbit (s_mideleg s) i
   then (s_iprv s <? PRV_S) || ((s_iprv s =? PRV_S) && Z.testbit (s_mstatus s) MSTATUS_SIE_SHIFT)
   else (s_iprv s <? PRV_M) || Z.testbit (s_mstatus s) MSTATUS_MIE_SHIFT).

(** The interrupts, the one of the highest priority first *)
Definition irqs : list Z := [11; 3; 7; 9; 1; 5].

Lemma testbit_not64_32 v i : 0 <= i < 32 -> Z.testbit (uint32 (not64 v)) i = negb (Z.testbit v i).
Proof. intros Hi. rewrite uint_testbit, not64_testbit by lia. bool_cases. Qed.

Lemma pending_takes u s i : machine_ok u s -> 0 <= i < 32 -> Z.testbit (get_pending_irq_mask s) i = takes s i.
Proof.
  intros Hs Hi. unfold get_pending_irq_mask, takes. cbv zeta.
  assert (Z.testbit (uint32 (s_mip s &ᵇ s_mie s)) i = Z.testbit (s_mip s) i && Z.testbit (s_mie s) i) as Hp
    by (rewrite uint_testbit, Z.land_spec by lia; bool_cases).
  destruct (Z.eqb_spec (uint32 (s_mip s &ᵇ s_mie s)) 0) as [E|_].
  { rewrite E in Hp. rewrite Z.testbit_0_l in *. rewrite <- Hp. done. }
  rewrite Z.land_spec, Hp. f_equal.
  change MSTATUS_MIE_MASK with (2 ^ 3). change MSTATUS_SIE_MASK with (2 ^ 1). rewrite !land_pow2, !negb_involutive by lia.
  change MSTATUS_SIE_SHIFT with 1. change MSTATUS_MIE_SHIFT with 3.
  assert (Z.testbit (uint32 (-1)) i = true) as Hones.
  { rewrite uint_testbit, Z.bits_m1 by lia. bool_cases. }
  destruct (ok_prv _ _ Hs) as [->|[->| ->]]; unfold PRV_U, PRV_S, PRV_M; cbn [Z.eqb Z.ltb Z.compare Pos.compare Pos.compare_cont Pos.eqb orb andb];
    destruct (Z.testbit (s_mstatus s) 3), (Z.testbit (s_mstatus s) 1); rewrite ?Hones, ?testbit_not64_32, ?Z.testbit_0_l by lia;
    by destruct (Z.testbit (s_mideleg s) i).
Qed.

Lemma irqs_range i : In i irqs -> 0 <= i < 32.
Proof. cbn. lia. Qed.

(** The first of the interrupts that the mode takes, in an order *)
Definition first_taken (s : machine_state) (order : list Z) : option Z := find (takes s) order.

(** The order of the architecture: those for machine mode come before those that
    are delegated to the supervisor. *)
Definition architecture_order (s : machine_state) : list Z :=
  List.filter (fun i => negb (Z.testbit (s_mideleg s) i)) irqs ++ List.filter (fun i => Z.testbit (s_mideleg s) i) irqs.

Lemma find_app {A} (f : A -> bool) l1 l2 : find f (l1 ++ l2) = match find f l1 with Some x => Some x | None => find f l2 end.
Proof. induction l1 as [|x l1 IH]; [done|]. cbn. by destruct (f x). Qed.

Lemma find_filter {A} (f g : A -> bool) l : find f (List.filter g l) = find (fun x => g x && f x) l.
Proof. induction l as [|x l IH]; [done|]. cbn. destruct (g x); [|done]. cbn. by destruct (f x). Qed.

Lemma find_weaken {A} (f g : A -> bool) l x : find f l = Some x -> g x = true -> (forall y, g y = true -> f y = true) -> find g l = Some x.
Proof.
  intros Hf Hg Hw. induction l as [|y l IH]; [done|]. cbn in *. destruct (f y) eqn:E; [injection Hf as ->; by rewrite Hg|].
  destruct (g y) eqn:Eg; [by rewrite Hw in E|]. by apply IH.
Qed.

(** The two orders choose the same interrupt unless the one chosen is delegated
    and another, for machine mode, is taken too. *)
Lemma architecture_agrees s i : first_taken s irqs = Some i ->
  first_taken s (architecture_order s) = Some i <->
  Z.testbit (s_mideleg s) i = false \/ forall j, In j irqs -> Z.testbit (s_mideleg s) j = false -> takes s j = false.
Proof.
  unfold first_taken, architecture_order. intros Hf. rewrite find_app, !find_filter. pose proof (find_some _ _ Hf) as [Hin Ht].
  destruct (Z.testbit (s_mideleg s) i) eqn:Ed.
  - rewrite (find_weaken _ (fun j => Z.testbit (s_mideleg s) j && takes s j) _ _ Hf) by (rewrite ?Ed, ?Ht; done || by intros j []%andb_prop).
    destruct (find (fun j => negb (Z.testbit (s_mideleg s) j) && takes s j) irqs) as [j|] eqn:Ej.
    + apply find_some in Ej as [Hj Hb]. cbn beta in Hb. apply andb_prop in Hb as [H1%negb_true_iff H2]. split; [intros [= ->]; congruence|].
      intros [?|Hno]; [done|]. by rewrite (Hno j Hj H1) in H2.
    + split; [|done]. intros _. right. intros j Hj Hd. pose proof (find_none _ _ Ej j Hj) as Hn. cbn in Hn. by rewrite Hd in Hn.
  - split; [by left|]. intros _. by rewrite (find_weaken _ (fun j => negb (Z.testbit (s_mideleg s) j) && takes s j) _ _ Hf)
      by (rewrite ?Ed, ?Ht; done || by intros j []%andb_prop).
Qed.

Lemma first_taken_split s l1 i l2 : irqs = l1 ++ i :: l2 -> takes s i = true -> Forall (fun j => takes s j = false) l1 -> first_taken s irqs = Some i.
Proof.
  intros -> Ht Hl. unfold first_taken. rewrite find_app. induction Hl as [|j l1 Hj _ IH]; cbn; [by rewrite Ht|by rewrite Hj].
Qed.

Lemma interrupt_raised u s pc :
  machine_ok u s ->
  match first_taken s irqs with
  | None => raise_interrupt_if_any s pc = Done (pc, s) /\ forall i, In i irqs -> takes s i = false
  | Some i => raise_interrupt_if_any s pc = raise_exception s pc (2 ^ 63 + i) 0
  end.
Proof.
  intros Hs. unfold raise_interrupt_if_any. destruct (Z.eqb_spec (get_pending_irq_mask s) 0) as [E|Hne]; cbn [negb].
  - assert (forall i, In i irqs -> takes s i = false) as Hno.
    { intros i Hi%irqs_range. rewrite <- (pending_takes u s i Hs Hi), E. apply Z.testbit_0_l. }
    destruct (first_taken s irqs) as [i|] eqn:Ef; [apply find_some in Ef as [Hi Ht]; by rewrite Hno in Ht|done].
  - pose proof (get_highest_priority_irq_num_spec _ (pending_irq_known u s Hs Hne)) as Hg.
    destruct (get_highest_priority_irq_num _) as [i|e]; [|done]. cbn [returns] in Hg.
    destruct Hg as (Hi & Hb & l1 & l2 & El & Hl). pose proof (irqs_range i Hi) as Hr. rewrite (pending_takes u s i Hs Hr) in Hb.
    assert (first_taken s irqs = Some i) as ->.
    { eapply first_taken_split; [exact El|exact Hb|]. rewrite Forall_forall in Hl |- *. intros j Hj.
      rewrite <- (pending_takes u s j Hs); [by apply Hl|]. apply irqs_range, list_elem_of_In. unfold irqs. rewrite El. by apply elem_of_app; left. }
    cbn [mbind outcome_bind]. f_equal. rewrite Z.lor_comm. apply (lor_add MCAUSE_INTERRUPT_FLAG i 63); [lia|lia|]. by exists 1.
Qed.

(** C8: When interrupts are taken, and which: at the start of a tick the machine
    takes an interrupt exactly if the architecture lets its mode take one (pending,
    enabled, and not masked in the mode, with the delegation); it takes the first of
    these in one order for all, MEI, MSI, MTI, SEI, SSI, STI.  That is the interrupt
    the architecture wants unless it is delegated to the supervisor while another
    that the machine could take is not: the architecture, and the comment above the
    order in the code, ask for that other one, as it is for a mode of higher
    privilege. *)
Theorem interrupt_taken u s pc :
  machine_ok u s ->
  match first_taken s irqs with
  | None => raise_interrupt_if_any s pc = Done (pc, s) /\ first_taken s (architecture_order s) = None
  | Some i => raise_interrupt_if_any s pc = raise_exception s pc (2 ^ 63 + i) 0 /\
      (first_taken s (architecture_order s) = Some i <->
       Z.testbit (s_mideleg s) i = false \/ forall j, In j irqs -> Z.testbit (s_mideleg s) j = false -> takes s j = false)
  end.
Proof.
  intros Hs. pose proof (interrupt_raised u s pc Hs) as Hr. destruct (first_taken s irqs) as [i|] eqn:Ef.
  - split; [exact Hr|by apply architecture_agrees].
  - destruct Hr as [Hr Hno]. split; [exact Hr|].
    destruct (first_taken s (architecture_order s)) as [i|] eqn:Ea; [|done]. apply find_some in Ea as [Hi Ht].
    rewrite Hno in Ht; [done|]. apply in_app_or in Hi as [[Hi _]%filter_In|[Hi _]%filter_In]; done.
Qed.

(** The interrupt of the supervisor, when another is pending for machine mode:
    the handler of the supervisor is entered with that one still to be taken. *)
Lemma delegated_irq s i : In i irqs -> is_prv (s_iprv s) -> takes s i = true -> Z.testbit (s_mideleg s) i = true ->
  delegated s (2 ^ 63 + i) = true.
Proof.
  intros Hi Hp Ht Hd. unfold takes in Ht. rewrite Hd in Ht. apply andb_prop in Ht as [_ Ht]. unfold delegated.
  assert (s_iprv s <=? PRV_S = true) as ->.
  { apply orb_prop in Ht as [Ht|Ht]; [apply Z.ltb_lt in Ht|apply andb_prop in Ht as [Ht%Z.eqb_eq _] ]; apply Z.leb_le; lia. }
  assert (((2 ^ 63 + i) &ᵇ MCAUSE_INTERRUPT_FLAG) =? 0 = false) as -> by (cbn in Hi; repeat destruct Hi as [<-|Hi]; done).
  assert ((2 ^ 63 + i) &ᵇ (XLEN - 1) = i) as -> by (cbn in Hi; repeat destruct Hi as [<-|Hi]; done).
  cbn [negb]. change 1 with (2 ^ 0) at 1. by rewrite land_pow2, Z.shiftr_spec, Z.add_0_l, Hd by lia.
Qed.

Lemma lower_interrupt_first u s pc i j :
  machine_ok u s -> pc_ok pc -> first_taken s irqs = Some i -> Z.testbit (s_mideleg s) i = true ->
  In j irqs -> takes s j = true -> Z.testbit (s_mideleg s) j = false ->
  exists s', raise_interrupt_if_any s pc = Done (s_stvec s, s') /\ s_iprv s' = PRV_S /\ takes s' j = true /\
    get_pending_irq_mask s' <> 0.
Proof.
  intros Hs Hpc Hf Hd Hj Htj Hdj. pose proof (interrupt_raised u s pc Hs) as Ht. rewrite Hf in Ht.
  pose proof (find_some _ _ Hf) as [Hi Hti].
  pose proof (raise_exception_spec u s pc (2 ^ 63 + i) 0 Hs) as (s' & E & Hc & Hprv & _). rewrite delegated_irq in E, Hprv by (done || apply Hs).
  exists s'. rewrite Ht. split; [exact E|]. split; [exact Hprv|].
  assert (takes s' j = true) as Htj'.
  { unfold takes in *. rewrite (sc_mip _ _ Hc), (sc_mie _ _ Hc), (sc_mideleg _ _ Hc), Hdj, Hprv in *. apply andb_prop in Htj as [-> _]. done. }
  split; [done|]. intros E0.
  assert (is_uint 64 (2 ^ 63 + i)) as Hcause by (pose proof (irqs_range i Hi); unfold is_uint; lia).
  pose proof (raise_exception_ok u s pc (2 ^ 63 + i) 0 Hs Hpc Hcause ltac:(done)) as Hok. rewrite E in Hok. destruct Hok as [_ Hok].
  by rewrite <- (pending_takes u s' j Hok (irqs_range j Hj)), E0, Z.testbit_0_l in Htj'.
Qed.

(** ** Access control *)

(** An access to a register of a more privileged mode, or a write of a read-only
    one *)
Definition csr_forbidden (s : machine_state) (insn : Z) (writes : bool) : bool :=
  let csraddr := insn_I_get_uimm insn in
  (s_iprv s <? csr_prv csraddr) || (writes && csr_is_read_only csraddr).

(** The instructions on control and status registers, and whether they write *)
Definition csr_insns : list ((machine_state -> Z -> Z -> Z -> outcome (execute_status * Z * machine_state)) * (Z -> bool)) :=
  let not_x0 insn := negb (insn_get_rs1 insn =? 0) in
  [(execute_CSRRW, fun _ => true); (execute_CSRRWI, fun _ => true); (execute_CSRRS, not_x0); (execute_CSRRC, not_x0);
   (execute_CSRRSI, not_x0); (execute_CSRRCI, not_x0)].

Lemma read_csr_forbidden s mcycle csraddr : s_iprv s <? csr_prv csraddr = true -> read_csr s mcycle csraddr = None.
Proof. intros H. unfold read_csr. by rewrite H. Qed.

Lemma write_csr_forbidden s mcycle csraddr val :
  (s_iprv s <? csr_prv csraddr) || csr_is_read_only csraddr = true -> write_csr s mcycle csraddr val = Done (failure, s).
Proof. intros H. unfold write_csr. destruct (csr_is_read_only _); [done|]. rewrite orb_false_r in H. by rewrite H. Qed.

Lemma csr_RW_forbidden f s pc mcycle insn :
  csr_forbidden s insn true = true -> execute_csr_RW f s pc mcycle insn = raise_illegal_insn_exception s pc insn.
Proof.
  intros H. unfold execute_csr_RW, csr_forbidden in *. cbv zeta in *. rewrite write_csr_forbidden by done.
  by destruct (if negb _ then _ else _).
Qed.

Lemma csr_SC_forbidden f s pc mcycle insn :
  csr_forbidden s insn (negb (insn_get_rs1 insn =? 0)) = true ->
  execute_csr_SC f s pc mcycle insn = raise_illegal_insn_exception s pc insn.
Proof.
  intros H. unfold execute_csr_SC, csr_forbidden in *. cbv zeta in *.
  destruct (s_iprv s <? csr_prv (insn_I_get_uimm insn)) eqn:E; [by rewrite read_csr_forbidden|]. cbn [orb] in H.
  apply andb_prop in H as [-> Hro]. destruct (read_csr _ _ _); [|done]. by rewrite write_csr_forbidden by (by rewrite E).
Qed.

Lemma csr_SCI_forbidden f s pc mcycle insn :
  csr_forbidden s insn (negb (insn_get_rs1 insn =? 0)) = true ->
  execute_csr_SCI f s pc mcycle insn = raise_illegal_insn_exception s pc insn.
Proof.
  intros H. unfold execute_csr_SCI, csr_forbidden in *. cbv zeta in *.
  destruct (s_iprv s <? csr_prv (insn_I_get_uimm insn)) eqn:E; [by rewrite read_csr_forbidden|]. cbn [orb] in H.
  apply andb_prop in H as [-> Hro]. destruct (read_csr _ _ _); [|done]. by rewrite write_csr_forbidden by (by rewrite E).
Qed.

(** C10: The privilege modes are isolated: none of the six instructions on
    control and status registers reads or writes a register of a more
    privileged mode, and none writes a read-only one; they raise the exception of
    illegal instructions, with the state as it was before the access. *)
Theorem csr_protected execute writes s pc mcycle insn :
  (execute, writes) ∈ csr_insns -> csr_forbidden s insn (writes insn) = true ->
  execute s pc mcycle insn = raise_illegal_insn_exception s pc insn.
Proof.
  unfold csr_insns. cbv zeta. rewrite !elem_of_cons, elem_of_nil.
  intros Hin Hf. destruct Hin as [[= -> ->]|[[= -> ->]|[[= -> ->]|[[= -> ->]|[[= -> ->]|[[= -> ->]|[]]]]]]].
  - exact (csr_RW_forbidden _ s pc mcycle insn Hf).
  - exact (csr_RW_forbidden _ s pc mcycle insn Hf).
  - exact (csr_SC_forbidden _ s pc mcycle insn Hf).
  - exact (csr_SC_forbidden _ s pc mcycle insn Hf).
  - exact (csr_SCI_forbidden _ s pc mcycle insn Hf).
  - exact (csr_SCI_forbidden _ s pc mcycle insn Hf).
Qed.

(** ** A defect of CSRRCI *)

(** What the architecture asks of the instructions that clear bits: the value read
    is written back without those of a mask, and goes to the destination. *)
Definition read_and_clear (s : machine_state) (pc mcycle insn mask : Z) : outcome (execute_status * Z * machine_state) :=
  let csraddr := insn_I_get_uimm insn in
  match read_csr s mcycle csraddr with
  | None => raise_illegal_insn_exception s pc insn
  | Some v =>
      '(status, s) ← write_csr s mcycle csraddr (Z.ldiff v mask);
      if bool_decide (status = failure) then raise_illegal_insn_exception s pc insn else write_rd s pc insn v 4 status
  end.

(** The upper half of a register *)
Definition UPPER_HALF : Z := 0xffffffff00000000.

Lemma source_range insn : is_uint 5 (insn_get_rs1 insn).
Proof. unfold insn_get_rs1. change 0x1f with (2 ^ 5 - 1). rewrite land_ones_mod by lia. by apply Z.mod_pos_bound. Qed.

Lemma land_not32 v imm : is_uint 64 v -> is_uint 5 imm -> v &ᵇ not32 imm = Z.ldiff v (imm |ᵇ UPPER_HALF).
Proof.
  intros Hv Hi. apply Z.bits_inj_iff'. intros i Hi0. unfold not32. change UPPER_HALF with (Z.shiftl (Z.ones 32) 32).
  rewrite Z.land_spec, uint_testbit, Z.ldiff_spec, Z.lor_spec, Z.lnot_spec, Z.shiftl_spec by lia.
  destruct (Z.ltb_spec i 32); [by rewrite (Z.testbit_neg_r (Z.ones 32)), orb_false_r by lia|].
  rewrite andb_false_r. destruct (Z.lt_ge_cases i 64); [|by rewrite (testbit_above v 64) by done].
  by rewrite (Z.ones_spec_low 32), orb_true_r, andb_false_r by lia.
Qed.

Lemma read_mscratch s mcycle : s_iprv s = PRV_M -> read_csr s mcycle CSR_mscratch = Some (s_mscratch s).
Proof. intros Hp. unfold read_csr. rewrite Hp. reflexivity. Qed.

Lemma write_mscratch s mcycle v : s_iprv s = PRV_M -> write_csr s mcycle CSR_mscratch v = Done (success, assign upd_mscratch v s).
Proof. intros Hp. unfold write_csr. rewrite Hp. reflexivity. Qed.

(** C11: CSRRCI clears more bits than its immediate: as that is negated as a word of
    32 bits, the instruction clears also the upper half of the value, on any
    register that it may access and in any mode (the value goes then, like that of
    any write, through the mask of the register, if it has one).  CSRRC clears only
    the bits in its operand, as the architecture asks of both.
    (With a zero in the field of their operand neither instruction writes.)  So the upper half
    of [mscratch], which has no mask, is lost. *)
Theorem csrrci_clears_upper_half u s pc mcycle insn :
  machine_ok u s -> is_uint 64 mcycle -> insn_get_rs1 insn <> 0 ->
  execute_CSRRC s pc mcycle insn = read_and_clear s pc mcycle insn (read_x s (insn_get_rs1 insn)) /\
  execute_CSRRCI s pc mcycle insn = read_and_clear s pc mcycle insn (insn_get_rs1 insn |ᵇ UPPER_HALF) /\
  (insn_I_get_uimm insn = CSR_mscratch -> s_iprv s = PRV_M ->
   returns (execute_CSRRCI s pc mcycle insn) (fun '(status, _, s') =>
     status = success /\ s_mscratch s' = Z.ldiff (s_mscratch s) (insn_get_rs1 insn) mod 2 ^ 32)).
Proof.
  intros Hs Hm Hi. pose proof (source_range insn) as Hr. apply Z.eqb_neq in Hi.
  assert (execute_CSRRCI s pc mcycle insn = read_and_clear s pc mcycle insn (insn_get_rs1 insn |ᵇ UPPER_HALF)) as E.
  { unfold execute_CSRRCI, execute_csr_SCI, read_and_clear. cbv zeta. rewrite Hi. cbn [negb].
    destruct (read_csr s mcycle (insn_I_get_uimm insn)) as [v|] eqn:Ev; [|done].
    by rewrite land_not32 by (done || by eapply read_csr_range). }
  split; [|split; [exact E|] ].
  - unfold execute_CSRRC, execute_csr_SC, read_and_clear. cbv zeta. rewrite Hi. cbn [negb].
    destruct (read_csr s mcycle (insn_I_get_uimm insn)) as [v|] eqn:Ev; [|done].
    unfold not64. by rewrite (land_not_uint 64) by (lia || by eapply read_csr_range).
  - intros Hc Hp. rewrite E. unfold read_and_clear. rewrite Hc, read_mscratch by done. cbv zeta. rewrite write_mscratch by done.
    cbn [mbind outcome_bind]. rewrite bool_decide_eq_false_2 by done.
    assert (Z.ldiff (s_mscratch s) (insn_get_rs1 insn |ᵇ UPPER_HALF) = Z.ldiff (s_mscratch s) (insn_get_rs1 insn) mod 2 ^ 32) as ->.
    { rewrite <- land_not32 by (done || apply (ok_mscratch _ _ Hs)). rewrite <- Z.land_ones by lia.
      unfold not32. apply Z.bits_inj_iff'. intros i Hi0. rewrite !Z.land_spec, uint_testbit, Z.ldiff_spec, Z.lnot_spec by lia.
      destruct (Z.ltb_spec i 32); [by rewrite Z.ones_spec_low, andb_true_r by lia|by rewrite Z.ones_spec_high, !andb_false_r by lia]. }
    unfold write_rd. case_if; [by split|]. unfold write_x. rewrite E0. by split.
Qed.

(** ** Concrete runs *)

(** A program in user mode whose environment calls go to the supervisor *)
Definition user_machine : machine_state := assign upd_medeleg 0x100 (assign upd_iprv PRV_U (boot [])).

Lemma user_machine_ok : machine_ok (boot_fixed []) user_machine.
Proof.
  unfold user_machine. apply ok_assign_medeleg; [|split; done]. apply ok_assign_iprv; [|by left].
  apply boot_ok. by apply Forall_nil_2.
Qed.

Lemma trap_return_witness :
  delegated user_machine 8 = true /\
  exists handler s1, raise_exception user_machine 0x1000 8 0 = Done (handler, s1) /\
    returns (execute_SRET s1 handler 0x10200073) (resumes (trap_bits true) user_machine 0x1000).
Proof.
  split; [reflexivity|].
  destruct (trap_return (boot_fixed []) user_machine 0x1000 8 0 0x10200073) as (handler & s1 & E & H);
    [exact user_machine_ok|split; [split|]; done|split; done|split; done|]. exists handler, s1. split; [exact E|exact H].
Defined.

(** A timer interrupt is pending, but disabled in machine mode. *)
Lemma interrupt_taken_witness :
  let s := assign upd_mie 0x80 (assign upd_mip 0x80 (boot [])) in
  raise_interrupt_if_any s 0x1000 = Done (0x1000, s).
Proof.
  intros s. refine (proj1 (interrupt_taken (boot_fixed []) s 0x1000 _)).
  unfold s. apply ok_assign_mie; [|split; done|].
  - apply ok_assign_mip; [|split; done]. apply boot_ok. by apply Forall_nil_2.
  - intros i Hi Hb. change 0x80 with (2 ^ 7) in Hb. rewrite Z.pow2_bits_eqb in Hb by done. apply Z.eqb_eq in Hb as <-. reflexivity.
Defined.

(** A program in user mode reads a register of the supervisor: [csrr a0, sscratch] *)
Lemma csr_protected_witness :
  execute_CSRRS user_machine 0x1000 0 0x14002573 = raise_illegal_insn_exception user_machine 0x1000 0x14002573.
Proof.
  apply (csr_protected execute_CSRRS (fun insn => negb (insn_get_rs1 insn =? 0)) user_machine 0x1000 0 0x14002573); [|reflexivity].
  unfold csr_insns. cbv zeta. right; right; left.
Defined.

(** [csrrci a0, mscratch, 1] *)
Lemma csrrci_clears_upper_half_witness :
  let s := assign upd_mscratch (2 ^ 63 + 1) (boot []) in
  returns (execute_CSRRCI s 0x1000 0 0x3400f573) (fun '(status, _, s') => status = success /\ s_mscratch s' = 0).
Proof.
  intros s. assert (machine_ok (boot_fixed []) s) as Hs.
  { unfold s. apply ok_assign_mscratch; [apply boot_ok; by apply Forall_nil_2|split; done]. }
  destruct (csrrci_clears_upper_half (boot_fixed []) s 0x1000 0 0x3400f573 Hs) as (_ & _ & H); [split; done|done|].
  exact (H eq_refl eq_refl).
Defined.
