(* ===== verification/IntegerInsns.v ===== *)
(** * Integer instructions (interpret.cpp)

    The arithmetic of RV64I and of the M extension, the branches and jumps, and
    the groups of instructions that share an entry of the jump table.  A handler
    is instantiated for the instructions whose destination is [x0] and for the
    others.  The second part holds the instructions of the C extension that do
    not access memory. *)

From S2P Require Import Prelude CppInt Constants RiscvConstants MachineState DeviceAccess Tlb Trap CsrInsns.

Abbreviation insn_result := (outcome (execute_status * Z * machine_state)).

(** [rd_kind::x0] and [rd_kind::xN] *)
Inductive rd_kind := rd_x0 | rd_xN.

(** [if constexpr (rd_kind == rd_kind::x0) { return advance_to_next_insn(a, pc); }] *)
Definition unless_x0 (k : rd_kind) (s : machine_state) (pc : Z) (m : insn_result) : insn_result :=
  match k with rd_x0 => advance_to_next_insn s pc 4 success | rd_xN => m end.

Definition b2u (b : bool) : Z := if b then 1 else 0.

Definition execute_arithmetic (f : Z -> Z -> Z) (s : machine_state) (pc insn : Z) : insn_result :=
  let rd := insn_get_rd insn in
  let rs1 := read_x s (insn_get_rs1 insn) in
  let rs2 := read_x s (insn_get_rs2 insn) in
  s ← write_x s rd (f rs1 rs2); advance_to_next_insn s pc 4 success.

Definition arithmetic (f : Z -> Z -> Z) (k : rd_kind) (s : machine_state) (pc insn : Z) : insn_result :=
  unless_x0 k s pc (execute_arithmetic f s pc insn).

(** An instruction whose other bits are fixed *)
Definition checked (mask value : Z) (m : rd_kind -> machine_state -> Z -> Z -> insn_result)
    (k : rd_kind) (s : machine_state) (pc insn : Z) : insn_result :=
  if negb ((insn &ᵇ mask) =? value) then raise_illegal_insn_exception s pc insn else m k s pc insn.

(** ** Register operations on words *)

Definition execute_ADDW := arithmetic (fun rs1 rs2 => uint64 (int32 (int32 rs1 + int32 rs2))).
Definition execute_SUBW := arithmetic (fun rs1 rs2 => uint64 (int32 (int32 rs1 - int32 rs2))).
Definition execute_SLLW := checked 0xfe00707f 0x0000103b
  (arithmetic (fun rs1 rs2 => uint64 (int32 (uint32 (Z.shiftl (uint32 rs1) (rs2 &ᵇ 31)))))).
Definition execute_SRLW := arithmetic (fun rs1 rs2 => uint64 (int32 (Z.shiftr (uint32 rs1) (rs2 &ᵇ 31)))).
Definition execute_SRAW := arithmetic (fun rs1 rs2 => uint64 (Z.shiftr (int32 rs1) (rs2 &ᵇ 31))).
Definition execute_MULW := arithmetic (fun rs1 rs2 => uint64 (int32 (int32 rs1 * int32 rs2))).
Definition execute_DIVW := checked 0xfe00707f 0x0200403b
  (arithmetic (fun rs1 rs2 =>
    let rs1w := int32 rs1 in
    let rs2w := int32 rs2 in
    if rs2w =? 0 then uint64 (-1)
    else if (rs2w =? -1) && (rs1w =? int32 (Z.shiftl 1 31)) then uint64 rs1w
    else uint64 (Z.quot rs1w rs2w))).
Definition execute_DIVUW := arithmetic (fun rs1 rs2 =>
  let rs1w := uint32 rs1 in
  let rs2w := uint32 rs2 in
  if rs2w =? 0 then uint64 (-1) else uint64 (int32 (rs1w / rs2w))).
Definition execute_REMW := checked 0xfe00707f 0x0200603b
  (arithmetic (fun rs1 rs2 =>
    let rs1w := int32 rs1 in
    let rs2w := int32 rs2 in
    if rs2w =? 0 then uint64 rs1w
    else if (rs2w =? -1) && (rs1w =? int32 (Z.shiftl 1 31)) then 0
    else uint64 (Z.rem rs1w rs2w))).
Definition execute_REMUW := checked 0xfe00707f 0x0200703b
  (arithmetic (fun rs1 rs2 =>
    let rs1w := uint32 rs1 in
    let rs2w := uint32 rs2 in
    if rs2w =? 0 then uint64 (int32 rs1w) else uint64 (int32 (rs1w mod rs2w)))).

(** ** Register operations on double words *)

Definition execute_ADD := arithmetic (fun rs1 rs2 => uint64 (rs1 + rs2)).
Definition execute_SUB := arithmetic (fun rs1 rs2 => uint64 (rs1 - rs2)).
Definition execute_SLL := arithmetic (fun rs1 rs2 => uint64 (Z.shiftl rs1 (rs2 &ᵇ (XLEN - 1)))).
Definition execute_SLT := arithmetic (fun rs1 rs2 => b2u (int64 rs1 <? int64 rs2)).
Definition execute_SLTU := arithmetic (fun rs1 rs2 => b2u (rs1 <? rs2)).
Definition execute_XOR := arithmetic (fun rs1 rs2 => rs1 ^ᵇ rs2).
Definition execute_SRL := arithmetic (fun rs1 rs2 => Z.shiftr rs1 (rs2 &ᵇ (XLEN - 1))).
Definition execute_SRA := arithmetic (fun rs1 rs2 => uint64 (Z.shiftr (int64 rs1) (rs2 &ᵇ (XLEN - 1)))).
Definition execute_OR := arithmetic (fun rs1 rs2 => rs1 |ᵇ rs2).
Definition execute_AND := arithmetic (fun rs1 rs2 => rs1 &ᵇ rs2).
Definition execute_MUL := arithmetic (fun rs1 rs2 => uint64 (int64 (int64 rs1 * int64 rs2))).
Definition execute_MULH := arithmetic (fun rs1 rs2 => uint64 (int64 (Z.shiftr (int64 rs1 * int64 rs2) 64))).
Definition execute_MULHSU := arithmetic (fun rs1 rs2 => uint64 (int64 (Z.shiftr (int64 rs1 * rs2) 64))).
Definition execute_MULHU := arithmetic (fun rs1 rs2 => uint64 (Z.shiftr (rs1 * rs2) 64)).
Definition execute_DIV := arithmetic (fun rs1 rs2 =>
  let srs1 := int64 rs1 in
  let srs2 := int64 rs2 in
  if srs2 =? 0 then uint64 (-1)
  else if (srs2 =? -1) && (srs1 =? int64 (Z.shiftl 1 (XLEN - 1))) then uint64 srs1
  else uint64 (Z.quot srs1 srs2)).
Definition execute_DIVU := arithmetic (fun rs1 rs2 => if rs2 =? 0 then uint64 (-1) else rs1 / rs2).
Definition execute_REM := arithmetic (fun rs1 rs2 =>
  let srs1 := int64 rs1 in
  let srs2 := int64 rs2 in
  if srs2 =? 0 then uint64 srs1
  else if (srs2 =? -1) && (srs1 =? int64 (Z.shiftl 1 (XLEN - 1))) then 0
  else uint64 (Z.rem srs1 srs2)).
Definition execute_REMU := arithmetic (fun rs1 rs2 => if rs2 =? 0 then rs1 else rs1 mod rs2).

(** ** Immediate operations *)

Definition execute_arithmetic_immediate (f : Z -> Z -> Z) (s : machine_state) (pc insn : Z) : insn_result :=
  let rd := insn_get_rd insn in
  let rs1 := read_x s (insn_get_rs1 insn) in
  let imm := insn_I_get_imm insn in
  s ← write_x s rd (f rs1 imm); advance_to_next_insn s pc 4 success.

Definition arithmetic_immediate (f : Z -> Z -> Z) (k : rd_kind) (s : machine_state) (pc insn : Z) : insn_result :=
  unless_x0 k s pc (execute_arithmetic_immediate f s pc insn).

Definition execute_SRLI := arithmetic_immediate (fun rs1 imm => Z.shiftr rs1 (imm &ᵇ (XLEN - 1))).
Definition execute_SRAI := arithmetic_immediate (fun rs1 imm => uint64 (Z.shiftr (int64 rs1) (imm &ᵇ (XLEN - 1)))).
Definition execute_ADDI := arithmetic_immediate (fun rs1 imm => uint64 (int64 (int64 rs1 + imm))).
Definition execute_SLTI := arithmetic_immediate (fun rs1 imm => b2u (int64 rs1 <? imm)).
Definition execute_SLTIU := arithmetic_immediate (fun rs1 imm => b2u (rs1 <? uint64 imm)).
Definition execute_XORI := arithmetic_immediate (fun rs1 imm => rs1 ^ᵇ uint64 imm).
Definition execute_ORI := arithmetic_immediate (fun rs1 imm => rs1 |ᵇ uint64 imm).
Definition execute_ANDI := arithmetic_immediate (fun rs1 imm => rs1 &ᵇ uint64 imm).
Definition execute_SLLI := checked 0xfc000000 0
  (arithmetic_immediate (fun rs1 imm => uint64 (Z.shiftl rs1 (imm &ᵇ 63)))).
Definition execute_ADDIW := arithmetic_immediate (fun rs1 imm => uint64 (int32 (int32 rs1 + imm))).
Definition execute_SLLIW (k : rd_kind) (s : machine_state) (pc insn : Z) : insn_result :=
  if negb (insn_get_funct7 insn =? 0) then raise_illegal_insn_exception s pc insn
  else arithmetic_immediate (fun rs1 imm => uint64 (int32 (uint32 (Z.shiftl (uint32 rs1) (imm &ᵇ 31))))) k s pc insn.
Definition execute_SRLIW := arithmetic_immediate (fun rs1 imm => uint64 (int32 (Z.shiftr (uint32 rs1) (imm &ᵇ 31)))).

(** With [x0] as its destination and [x31] as its source, a soft yield *)
Definition execute_SRAIW (k : rd_kind) (s : machine_state) (pc insn : Z) : insn_result :=
  match k with
  | rd_x0 =>
      if (insn_get_rs1 insn =? 31) && s_soft_yield s then advance_to_next_insn s pc 4 success_and_yield
      else advance_to_next_insn s pc 4 success
  | rd_xN => execute_arithmetic_immediate (fun rs1 imm => uint64 (Z.shiftr (int32 rs1) (imm &ᵇ 31))) s pc insn
  end.

(** ** Branches and jumps *)

Definition execute_branch (f : Z -> Z -> bool) (s : machine_state) (pc insn : Z) : insn_result :=
  let rs1 := read_x s (insn_get_rs1 insn) in
  let rs2 := read_x s (insn_get_rs2 insn) in
  if f rs1 rs2 then execute_jump s (uint64 (pc + insn_B_get_imm insn)) else advance_to_next_insn s pc 4 success.

Definition execute_BEQ := execute_branch (fun rs1 rs2 => rs1 =? rs2).
Definition execute_BNE := execute_branch (fun rs1 rs2 => negb (rs1 =? rs2)).
Definition execute_BLT := execute_branch (fun rs1 rs2 => int64 rs1 <? int64 rs2).
Definition execute_BGE := execute_branch (fun rs1 rs2 => int64 rs2 <=? int64 rs1).
Definition execute_BLTU := execute_branch (fun rs1 rs2 => rs1 <? rs2).
Definition execute_BGEU := execute_branch (fun rs1 rs2 => rs2 <=? rs1).

Definition execute_LUI (k : rd_kind) (s : machine_state) (pc insn : Z) : insn_result :=
  unless_x0 k s pc
    (s ← write_x s (insn_get_rd insn) (uint64 (insn_U_get_imm insn)); advance_to_next_insn s pc 4 success).

Definition execute_AUIPC (k : rd_kind) (s : machine_state) (pc insn : Z) : insn_result :=
  unless_x0 k s pc
    (s ← write_x s (insn_get_rd insn) (uint64 (pc + insn_U_get_imm insn)); advance_to_next_insn s pc 4 success).

Definition execute_JAL (k : rd_kind) (s : machine_state) (pc insn : Z) : insn_result :=
  let new_pc := uint64 (pc + insn_J_get_imm insn) in
  match k with
  | rd_x0 => execute_jump s new_pc
  | rd_xN => s ← write_x s (insn_get_rd insn) (uint64 (pc + 4)); execute_jump s new_pc
  end.

Definition execute_JALR (k : rd_kind) (s : machine_state) (pc insn : Z) : insn_result :=
  let val := uint64 (pc + 4) in
  let new_pc := uint64 (read_x s (insn_get_rs1 insn) + insn_I_get_imm insn) &ᵇ not64 1 in
  match k with
  | rd_x0 => execute_jump s new_pc
  | rd_xN => s ← write_x s (insn_get_rd insn) val; execute_jump s new_pc
  end.

Definition execute_FENCE (s : machine_state) (pc insn : Z) : insn_result := advance_to_next_insn s pc 4 success.
Definition execute_FENCE_I (s : machine_state) (pc insn : Z) : insn_result := advance_to_next_insn s pc 4 success.

Definition execute_SFENCE_VMA (s : machine_state) (pc insn : Z) : insn_result :=
  if negb ((insn &ᵇ 0xfe007fff) =? 0x12000073) then raise_illegal_insn_exception s pc insn
  else
    let prv := s_iprv s in
    let mstatus := s_mstatus s in
    if (prv =? PRV_U) || ((prv =? PRV_S) && negb ((mstatus &ᵇ MSTATUS_TVM_MASK) =? 0))
    then raise_illegal_insn_exception s pc insn
    else
      let rs1 := insn_get_rs1 insn in
      s ← (if rs1 =? 0 then flush_all_tlb s else flush_tlb_vaddr (read_x s rs1) s);
      advance_to_next_insn s pc 4 success_and_flush_fetch.

(** ** Groups *)

Definition by_funct7 (l : list (Z * (rd_kind -> machine_state -> Z -> Z -> insn_result)))
    (k : rd_kind) (s : machine_state) (pc insn : Z) (funct7 : Z) : insn_result :=
  match list_find (fun p => fst p = funct7) l with
  | Some (_, (_, execute)) => execute k s pc insn
  | None => raise_illegal_insn_exception s pc insn
  end.

Definition execute_SRLI_SRAI (k : rd_kind) (s : machine_state) (pc insn : Z) : insn_result :=
  by_funct7 [(0x00, execute_SRLI); (0x10, execute_SRAI)] k s pc insn (insn_get_funct7_sr1 insn).
Definition execute_SRLIW_SRAIW (k : rd_kind) (s : machine_state) (pc insn : Z) : insn_result :=
  by_funct7 [(0x00, execute_SRLIW); (0x20, execute_SRAIW)] k s pc insn (insn_get_funct7 insn).
Definition execute_ADD_MUL_SUB (k : rd_kind) (s : machine_state) (pc insn : Z) : insn_result :=
  by_funct7 [(0x00, execute_ADD); (0x01, execute_MUL); (0x20, execute_SUB)] k s pc insn (insn_get_funct7 insn).
Definition execute_SLL_MULH (k : rd_kind) (s : machine_state) (pc insn : Z) : insn_result :=
  by_funct7 [(0x00, execute_SLL); (0x01, execute_MULH)] k s pc insn (insn_get_funct7 insn).
Definition execute_SLT_MULHSU (k : rd_kind) (s : machine_state) (pc insn : Z) : insn_result :=
  by_funct7 [(0x00, execute_SLT); (0x01, execute_MULHSU)] k s pc insn (insn_get_funct7 insn).
Definition execute_SLTU_MULHU (k : rd_kind) (s : machine_state) (pc insn : Z) : insn_result :=
  by_funct7 [(0x00, execute_SLTU); (0x01, execute_MULHU)] k s pc insn (insn_get_funct7 insn).
Definition execute_XOR_DIV (k : rd_kind) (s : machine_state) (pc insn : Z) : insn_result :=
  by_funct7 [(0x00, execute_XOR); (0x01, execute_DIV)] k s pc insn (insn_get_funct7 insn).
Definition execute_SRL_DIVU_SRA (k : rd_kind) (s : machine_state) (pc insn : Z) : insn_result :=
  by_funct7 [(0x00, execute_SRL); (0x20, execute_SRA); (0x01, execute_DIVU)] k s pc insn (insn_get_funct7 insn).
Definition execute_OR_REM (k : rd_kind) (s : machine_state) (pc insn : Z) : insn_result :=
  by_funct7 [(0x00, execute_OR); (0x01, execute_REM)] k s pc insn (insn_get_funct7 insn).
Definition execute_AND_REMU (k : rd_kind) (s : machine_state) (pc insn : Z) : insn_result :=
  by_funct7 [(0x00, execute_AND); (0x01, execute_REMU)] k s pc insn (insn_get_funct7 insn).
Definition execute_ADDW_MULW_SUBW (k : rd_kind) (s : machine_state) (pc insn : Z) : insn_result :=
  by_funct7 [(0x00, execute_ADDW); (0x01, execute_MULW); (0x20, execute_SUBW)] k s pc insn (insn_get_funct7 insn).
Definition execute_SRLW_DIVUW_SRAW (k : rd_kind) (s : machine_state) (pc insn : Z) : insn_result :=
  by_funct7 [(0x00, execute_SRLW); (0x01, execute_DIVUW); (0x20, execute_SRAW)] k s pc insn (insn_get_funct7 insn).

(** Writes [rd] and advances over a compressed instruction. *)
Definition set_and_advance (s : machine_state) (pc rd val : Z) : insn_result :=
  s ← write_x s rd val; advance_to_next_insn s pc 2 success.

Definition execute_C_ADDI4SPN (s : machine_state) (pc insn : Z) : insn_result :=
  let rd := insn_get_CIW_CL_rd_CS_CA_rs2 insn in
  let imm := insn_get_CIW_imm insn in
  let rs1 := read_x s 2 in
  set_and_advance s pc rd (uint64 (int64 (int64 rs1 + imm))).
Definition execute_C_NOP (s : machine_state) (pc insn : Z) : insn_result := advance_to_next_insn s pc 2 success.
Definition execute_C_ADDI (s : machine_state) (pc insn : Z) : insn_result :=
  let rd := insn_get_rd insn in
  let imm := insn_get_CI_CB_imm_se insn in
  set_and_advance s pc rd (uint64 (int64 (int64 (read_x s rd) + imm))).
Definition execute_C_ADDIW (s : machine_state) (pc insn : Z) : insn_result :=
  let rd := insn_get_rd insn in
  let imm := insn_get_CI_CB_imm_se insn in
  set_and_advance s pc rd (uint64 (int32 (int32 (read_x s rd) + imm))).
Definition execute_C_LI (s : machine_state) (pc insn : Z) : insn_result :=
  set_and_advance s pc (insn_get_rd insn) (uint64 (insn_get_CI_CB_imm_se insn)).
Definition execute_C_ADDI16SP (s : machine_state) (pc insn : Z) : insn_result :=
  let imm := insn_get_C_ADDI16SP_imm insn in
  set_and_advance s pc 2 (uint64 (int64 (int64 (read_x s 2) + imm))).
Definition execute_C_LUI (s : machine_state) (pc insn : Z) : insn_result :=
  set_and_advance s pc (insn_get_rd insn) (uint64 (insn_get_C_LUI_imm insn)).
Definition execute_C_SRLI (s : machine_state) (pc insn : Z) : insn_result :=
  let rs1 := insn_get_CL_CS_CA_CB_rs1 insn in
  set_and_advance s pc rs1 (Z.shiftr (read_x s rs1) (insn_get_CI_CB_imm insn)).
Definition execute_C_SRAI (s : machine_state) (pc insn : Z) : insn_result :=
  let rs1 := insn_get_CL_CS_CA_CB_rs1 insn in
  set_and_advance s pc rs1 (uint64 (Z.shiftr (int64 (read_x s rs1)) (insn_get_CI_CB_imm insn))).
Definition execute_C_ANDI (s : machine_state) (pc insn : Z) : insn_result :=
  let rs1 := insn_get_CL_CS_CA_CB_rs1 insn in
  set_and_advance s pc rs1 (read_x s rs1 &ᵇ uint64 (insn_get_CI_CB_imm_se insn)).

Definition execute_C_arithmetic (f : Z -> Z -> Z) (s : machine_state) (pc insn : Z) : insn_result :=
  let rs1 := insn_get_CL_CS_CA_CB_rs1 insn in
  let rs1_value := read_x s rs1 in
  let rs2_value := read_x s (insn_get_CIW_CL_rd_CS_CA_rs2 insn) in
  set_and_advance s pc rs1 (f rs1_value rs2_value).

Definition execute_C_SUB := execute_C_arithmetic (fun rs1 rs2 => uint64 (rs1 - rs2)).
Definition execute_C_XOR := execute_C_arithmetic (fun rs1 rs2 => rs1 ^ᵇ rs2).
Definition execute_C_OR := execute_C_arithmetic (fun rs1 rs2 => rs1 |ᵇ rs2).
Definition execute_C_AND := execute_C_arithmetic (fun rs1 rs2 => rs1 &ᵇ rs2).
Definition execute_C_SUBW := execute_C_arithmetic (fun rs1 rs2 => uint64 (int32 (int32 rs1 - int32 rs2))).
Definition execute_C_ADDW := execute_C_arithmetic (fun rs1 rs2 => uint64 (int32 (int32 rs1 + int32 rs2))).

Definition execute_C_J (s : machine_state) (pc insn : Z) : insn_result :=
  execute_jump s (uint64 (pc + uint64 (insn_get_C_J_imm insn))).

Definition execute_C_branch (f : Z -> bool) (s : machine_state) (pc insn : Z) : insn_result :=
  let rs1 := insn_get_CL_CS_CA_CB_rs1 insn in
  if f (read_x s rs1) then execute_jump s (uint64 (pc + uint64 (insn_get_C_BEQZ_BNEZ_imm insn)))
  else advance_to_next_insn s pc 2 success.

Definition execute_C_BEQZ := execute_C_branch (fun rs1 => rs1 =? 0).
Definition execute_C_BNEZ := execute_C_branch (fun rs1 => negb (rs1 =? 0)).

Definition execute_C_SLLI (s : machine_state) (pc insn : Z) : insn_result :=
  let rd := insn_get_rd insn in
  set_and_advance s pc rd (uint64 (Z.shiftl (read_x s rd) (insn_get_CI_CB_imm insn))).
Definition execute_C_JR (s : machine_state) (pc insn : Z) : insn_result :=
  let rs1 := insn_get_rd insn in
  execute_jump s (read_x s rs1 &ᵇ not64 1).
Definition execute_C_MV (s : machine_state) (pc insn : Z) : insn_result :=
  let rd := insn_get_rd insn in
  let rs2 := insn_get_CR_CSS_rs2 insn in
  set_and_advance s pc rd (read_x s rs2).
Definition execute_C_EBREAK (s : machine_state) (pc insn : Z) : insn_result :=
  '(pc, s) ← raise_exception s pc MCAUSE_BREAKPOINT pc; mret (failure, pc, s).
Definition execute_C_JALR (s : machine_state) (pc insn : Z) : insn_result :=
  let rs1 := insn_get_rd insn in
  let new_pc := read_x s rs1 &ᵇ not64 1 in
  let val := uint64 (pc + 2) in
  s ← write_x s 1 val; execute_jump s new_pc.
Definition execute_C_ADD (s : machine_state) (pc insn : Z) : insn_result :=
  let rd := insn_get_rd insn in
  let rs2 := insn_get_CR_CSS_rs2 insn in
  set_and_advance s pc rd (uint64 (read_x s rd + read_x s rs2)).
