(* ===== verification/IntegerInsnsSpec.v ===== *)
(** * Integer instructions keep the invariant

    Every handler of the I and M extensions, of the compressed instructions and
    of the Zicsr instructions returns, from a well-formed machine, with a
    well-formed machine and an even program counter, provided that the handlers
    for a destination other than [x0] are given such a destination. *)

From S2P Require Import Prelude CppInt Constants RiscvConstants UarchAccess Bytes RV64IM UarchOps Pma MachineState UarchBridge UarchBridgeSpec DeviceAccess Clint Tlb Trap Csr CsrInsns HostMemory HostTlb VirtualMemory MachineOk TrapSpec PrivilegedSpec IntegerInsns.

(** ** Program counters *)

Lemma pc_ok_masked v : is_uint 64 v -> pc_ok (v &ᵇ not64 1).
Proof. intros Hv. destruct (clear_bit0 v Hv) as [H1 H2]. by split. Qed.

Lemma sint_testbit_low w z i : 0 <= i < w -> Z.testbit (sint w z) i = Z.testbit z i.
Proof.
  intros Hi. pose proof (uint_sint w z ltac:(lia)) as E. apply (f_equal (fun v => Z.testbit v i)) in E.
  rewrite !uint_testbit in E by lia. revert E. test (i <? w) is true. done.
Qed.

Lemma shl32_bit0 v n : 0 < n -> Z.testbit (shl32 v n) 0 = false.
Proof. intros Hn. unfold shl32. rewrite uint_testbit, Z.shiftl_spec, Z.testbit_neg_r by lia. done. Qed.

Lemma insn_B_get_imm_even insn : is_even (insn_B_get_imm insn).
Proof.
  apply even_bit. unfold insn_B_get_imm. rewrite sint_testbit_low, !Z.lor_spec, !shl32_bit0 by lia. done.
Qed.

Lemma insn_J_get_imm_even insn : is_even (insn_J_get_imm insn).
Proof.
  apply even_bit. unfold insn_J_get_imm. rewrite sint_testbit_low, !Z.lor_spec, !shl32_bit0 by lia. done.
Qed.

Lemma land_bit0 a m : Z.testbit m 0 = false -> Z.testbit (a &ᵇ m) 0 = false.
Proof. intros H. rewrite Z.land_spec, H. apply andb_false_r. Qed.

Lemma insn_get_C_J_imm_even insn : is_even (insn_get_C_J_imm insn).
Proof.
  apply even_bit. unfold insn_get_C_J_imm. rewrite sint_testbit_low, !Z.lor_spec by lia. by rewrite !land_bit0.
Qed.

Lemma insn_get_C_BEQZ_BNEZ_imm_even insn : is_even (insn_get_C_BEQZ_BNEZ_imm insn).
Proof.
  apply even_bit. unfold insn_get_C_BEQZ_BNEZ_imm. rewrite sint_testbit_low, !Z.lor_spec by lia. by rewrite !land_bit0.
Qed.

(** ** Destinations *)

Lemma land_field_range v n : 0 <= n -> 0 <= v &ᵇ (2 ^ n - 1) < 2 ^ n.
Proof. intros. rewrite land_ones_mod by done. by apply Z.mod_pos_bound, pow2_pos. Qed.

Lemma insn_get_rd_range insn : 0 <= insn_get_rd insn < 32.
Proof. exact (land_field_range (Z.shiftr insn 7) 5 ltac:(lia)). Qed.

(** A register of a compressed format: 8 to 15 *)
Lemma compressed_register v : 8 <= (v &ᵇ 7) |ᵇ 8 < 16.
Proof.
  pose proof (land_field_range v 3 ltac:(lia)) as H. change (2 ^ 3 - 1) with 7 in H.
  rewrite Z.lor_comm. change 8 with (1 * 2 ^ 3) at 2 3. rewrite lor_add_low by lia. lia.
Qed.

Lemma write_x_ok u s r v : machine_ok u s -> 0 < r < 32 -> is_uint 64 v -> returns (write_x s r v) (machine_ok u).
Proof.
  intros Hs Hr Hv. unfold write_x. test (r =? 0) is false. cbn. by apply ok_assign_x.
Qed.

(** What a handler of an instruction at [pc] guarantees *)
Definition handler_ok (u : fixed) (k : rd_kind) (f : machine_state -> Z -> Z -> insn_result) : Prop :=
  forall s pc insn, machine_ok u s -> pc_ok pc -> is_uint 32 insn -> (k = rd_xN -> insn_get_rd insn <> 0) ->
  returns (f s pc insn) (insn_ok u).

Section handlers.
Context (u : fixed).

Lemma advance_ok s pc n status :
  machine_ok u s -> pc_ok pc -> is_even n -> status <> success_and_halt -> returns (advance_to_next_insn s pc n status) (insn_ok u).
Proof. intros. split; [done|]. split; [by apply pc_ok_add|done]. Qed.

Lemma write_advance_ok s pc r v n status :
  machine_ok u s -> pc_ok pc -> 0 < r < 32 -> is_uint 64 v -> is_even n -> status <> success_and_halt ->
  returns (s ← write_x s r v; advance_to_next_insn s pc n status) (insn_ok u).
Proof. intros. eapply returns_then; [by apply (write_x_ok u)|]. intros s' Hs'. by apply advance_ok. Qed.

Lemma write_rd_ok s pc insn v n status :
  machine_ok u s -> pc_ok pc -> is_uint 64 v -> is_even n -> status <> success_and_halt -> returns (write_rd s pc insn v n status) (insn_ok u).
Proof.
  intros. unfold write_rd. pose proof (insn_get_rd_range insn). destruct (Z.eqb_spec (insn_get_rd insn) 0); [by apply advance_ok|].
  apply write_advance_ok; try done. lia.
Qed.

Lemma is_uint_32_64 v : is_uint 32 v -> is_uint 64 v.
Proof. apply uint_mono. lia. Qed.

Lemma illegal_ok s pc insn : machine_ok u s -> pc_ok pc -> is_uint 32 insn -> returns (raise_illegal_insn_exception s pc insn) (insn_ok u).
Proof. intros. apply raise_illegal_insn_exception_ok; try done. by apply is_uint_32_64. Qed.

(** ** Register operations *)

Lemma rd_destination k insn : (k = rd_xN -> insn_get_rd insn <> 0) -> k = rd_xN -> 0 < insn_get_rd insn < 32.
Proof. intros H Hk. specialize (H Hk). pose proof (insn_get_rd_range insn). lia. Qed.

Lemma arithmetic_ok f k : (forall a b, is_uint 64 a -> is_uint 64 b -> is_uint 64 (f a b)) -> handler_ok u k (arithmetic f k).
Proof.
  intros Hf s pc insn Hs Hpc Hi Hk. unfold arithmetic, unless_x0. destruct k; [by apply advance_ok|].
  unfold execute_arithmetic. apply write_advance_ok; try done; [by eapply rd_destination|]. apply Hf; by eapply read_x_range.
Qed.

Lemma arithmetic_immediate_ok f k : (forall a b, is_uint 64 a -> is_uint 64 (f a b)) -> handler_ok u k (arithmetic_immediate f k).
Proof.
  intros Hf s pc insn Hs Hpc Hi Hk. unfold arithmetic_immediate, unless_x0. destruct k; [by apply advance_ok|].
  unfold execute_arithmetic_immediate. apply write_advance_ok; try done; [by eapply rd_destination|]. apply Hf; by eapply read_x_range.
Qed.

Lemma checked_ok mask value m k : handler_ok u k (m k) -> handler_ok u k (checked mask value m k).
Proof. intros Hm s pc insn **. unfold checked. case_if; [by apply illegal_ok|by apply Hm]. Qed.

Lemma by_funct7_ok l k funct7 :
  Forall (fun p => handler_ok u k (snd p k)) l -> handler_ok u k (fun s pc insn => by_funct7 l k s pc insn (funct7 insn)).
Proof.
  intros Hl s pc insn **. unfold by_funct7. destruct (list_find _ l) as [[i [f m]]|] eqn:E; [|by apply illegal_ok].
  apply list_find_Some in E as (E & _). apply (Forall_lookup_1 _ _ _ _ Hl E); done.
Qed.

Lemma b2u_range b : is_uint 64 (b2u b).
Proof. by destruct b. Qed.

Lemma div_range a b : is_uint 64 a -> is_uint 64 b -> b <> 0 -> is_uint 64 (a `div` b) /\ is_uint 64 (a `mod` b).
Proof.
  unfold is_uint. intros Ha Hb Hne. pose proof (Z.mod_pos_bound a b ltac:(lia)).
  split; [split; [apply Z.div_pos; lia|]|lia]. apply Z.div_lt_upper_bound; [lia|]. nia.
Qed.

End handlers.

#[export] Hint Resolve advance_ok illegal_ok b2u_range shiftr_uint : machine.
#[export] Hint Extern 1 (0 <= _ &ᵇ _) => (apply Z.land_nonneg; right; done) : machine.

(** The range of the result of an operation *)
Ltac op_range :=
  intros; cbv zeta; repeat case_if; reflect_bools; unfold XLEN;
  first [assumption|apply uint_range; lia|apply b2u_range|by apply div_range|auto 6 with machine].

(** The hypothesis that is the goal, without conversion *)
Ltac same_hypothesis := match goal with H : ?G |- ?G => exact H end.

(** The elements of lists known to satisfy a property *)
Ltac split_all := repeat match goal with H : Forall _ (_ :: _) |- _ => apply Forall_cons in H as [? H] end.

Ltac arith := first [apply checked_ok; arith | apply arithmetic_ok; op_range | apply arithmetic_immediate_ok; op_range].

Section handlers.
Context (u : fixed) (k : rd_kind).

Lemma word_handlers_ok :
  Forall (handler_ok u k) (map (fun f => f k) [execute_ADDW; execute_SUBW; execute_SLLW; execute_SRLW; execute_SRAW; execute_MULW;
    execute_DIVW; execute_DIVUW; execute_REMW; execute_REMUW; execute_ADDIW; execute_SRLIW; execute_SLLIW]).
Proof.
  cbn [map]. repeat (apply Forall_cons; split); try arith; [|by apply Forall_nil].
  intros s pc insn **. unfold execute_SLLIW. case_if; [by apply illegal_ok|].
  revert s pc insn H H0 H1 H2 E. intros s pc insn **. apply arithmetic_immediate_ok; [op_range|done..].
Qed.

Lemma double_handlers_ok :
  Forall (handler_ok u k) (map (fun f => f k) [execute_ADD; execute_SUB; execute_SLL; execute_SLT; execute_SLTU; execute_XOR;
    execute_SRL; execute_SRA; execute_OR; execute_AND; execute_MUL; execute_MULH; execute_MULHSU; execute_MULHU;
    execute_DIV; execute_DIVU; execute_REM; execute_REMU; execute_SRLI; execute_SRAI; execute_ADDI; execute_SLTI;
    execute_SLTIU; execute_XORI; execute_ORI; execute_ANDI; execute_SLLI]).
Proof. cbn [map]. repeat (apply Forall_cons; split); try arith. by apply Forall_nil. Qed.

End handlers.

Lemma execute_SRAIW_ok u k : handler_ok u k (execute_SRAIW k).
Proof.
  intros s pc insn **. unfold execute_SRAIW. destruct k; [case_if; by apply advance_ok|].
  apply write_advance_ok; try done; [by eapply rd_destination|]. apply uint_range. lia.
Qed.

(** ** Branches and jumps *)

Section handlers.
Context (u : fixed).

Lemma jump_ok s pc : machine_ok u s -> pc_ok pc -> returns (execute_jump s pc) (insn_ok u).
Proof. by intros. Qed.

Lemma execute_branch_ok f s pc insn : machine_ok u s -> pc_ok pc -> returns (execute_branch f s pc insn) (insn_ok u).
Proof.
  intros. unfold execute_branch. cbv zeta. case_if; [|by apply advance_ok]. apply jump_ok; [done|].
  apply pc_ok_add; [done|apply insn_B_get_imm_even].
Qed.

Lemma write_jump_ok s r v pc : machine_ok u s -> 0 < r < 32 -> is_uint 64 v -> pc_ok pc ->
  returns (s ← write_x s r v; execute_jump s pc) (insn_ok u).
Proof. intros. eapply returns_then; [by apply (write_x_ok u)|]. intros s' Hs'. by apply jump_ok. Qed.

Lemma jumps_ok k :
  Forall (handler_ok u k) (map (fun f => f k) [execute_LUI; execute_AUIPC; execute_JAL; execute_JALR]).
Proof.
  repeat (apply Forall_cons; split); [..|by apply Forall_nil]; intros s pc insn Hs Hpc Hi Hk; destruct k;
    try (by apply advance_ok).
  - apply write_advance_ok; try done; [by eapply rd_destination|apply uint_range; lia].
  - apply write_advance_ok; try done; [by eapply rd_destination|apply uint_range; lia].
  - apply jump_ok; [done|]. apply pc_ok_add; [done|apply insn_J_get_imm_even].
  - apply write_jump_ok; try done; [by eapply rd_destination|apply uint_range; lia|].
    apply pc_ok_add; [done|apply insn_J_get_imm_even].
  - apply jump_ok; [done|]. apply pc_ok_masked, uint_range. lia.
  - apply write_jump_ok; try done; [by eapply rd_destination|apply uint_range; lia|]. apply pc_ok_masked, uint_range. lia.
Qed.

Lemma flush_tlb_vaddr_all vaddr s : flush_tlb_vaddr vaddr s = flush_all_tlb s.
Proof. unfold flush_tlb_vaddr, flush_all_tlb. reflexivity. Qed.

Lemma execute_SFENCE_VMA_ok s pc insn :
  machine_ok u s -> pc_ok pc -> is_uint 32 insn -> returns (execute_SFENCE_VMA s pc insn) (insn_ok u).
Proof.
  intros Hs Hpc Hi. unfold execute_SFENCE_VMA. cbv zeta. case_if; [by apply illegal_ok|]. case_if; [by apply illegal_ok|].
  eapply returns_then.
  - instantiate (1 := machine_ok u). rewrite flush_tlb_vaddr_all. case_if; by apply flush_all_tlb_ok.
  - intros s' Hs'. by apply advance_ok.
Qed.

(** ** Groups *)

Lemma groups_ok k :
  Forall (handler_ok u k) (map (fun f => f k) [execute_SRLI_SRAI; execute_SRLIW_SRAIW; execute_ADD_MUL_SUB; execute_SLL_MULH;
    execute_SLT_MULHSU; execute_SLTU_MULHU; execute_XOR_DIV; execute_SRL_DIVU_SRA; execute_OR_REM; execute_AND_REMU;
    execute_ADDW_MULW_SUBW; execute_SRLW_DIVUW_SRAW]).
Proof.
  pose proof (word_handlers_ok u k) as Hw. pose proof (double_handlers_ok u k) as Hd. pose proof (execute_SRAIW_ok u k) as Hs.
  cbn [map] in *. split_all.
  repeat (apply Forall_cons; split); [..|by apply Forall_nil];
    [apply (by_funct7_ok u _ k insn_get_funct7_sr1)|apply (by_funct7_ok u _ k insn_get_funct7)..];
    repeat (apply Forall_cons; split; [cbn [snd]; same_hypothesis|]); by apply Forall_nil.
Qed.

(** ** Compressed instructions *)

Lemma set_and_advance_ok s pc r v : machine_ok u s -> pc_ok pc -> 0 < r < 32 -> is_uint 64 v -> returns (set_and_advance s pc r v) (insn_ok u).
Proof. intros. by apply write_advance_ok. Qed.

Lemma CI_CB_imm_nonneg insn : 0 <= insn_get_CI_CB_imm insn.
Proof. unfold insn_get_CI_CB_imm. apply Z.lor_nonneg. split; apply Z.land_nonneg; by right. Qed.

(** The instructions whose destination is a register of a compressed format *)
Lemma compressed_handlers_ok :
  Forall (handler_ok u rd_x0) [execute_C_ADDI4SPN; execute_C_NOP; execute_C_ADDI16SP; execute_C_SRLI; execute_C_SRAI;
    execute_C_ANDI; execute_C_SUB; execute_C_XOR; execute_C_OR; execute_C_AND; execute_C_SUBW; execute_C_ADDW;
    execute_C_J; execute_C_BEQZ; execute_C_BNEZ; execute_C_JR; execute_C_JALR; execute_C_EBREAK].
Proof.
  assert (forall v, 0 < (v &ᵇ 7) |ᵇ 8 < 32) as Hc by (intros v; pose proof (compressed_register v); lia).
  repeat (apply Forall_cons; split); [..|by apply Forall_nil]; intros s pc insn Hs Hpc Hi _;
    pose proof (fun r => read_x_range u s Hs r) as Hx.
  1,3-12: apply set_and_advance_ok; try done; try apply Hc; try (apply uint_range; lia); auto using CI_CB_imm_nonneg with machine.
  - by apply advance_ok.
  - apply jump_ok; [done|]. apply pc_ok_add; [done|]. apply is_even_uint, insn_get_C_J_imm_even.
  - unfold execute_C_BEQZ, execute_C_branch. cbv zeta. case_if; [|by apply advance_ok]. apply jump_ok; [done|].
    apply pc_ok_add; [done|]. apply is_even_uint, insn_get_C_BEQZ_BNEZ_imm_even.
  - unfold execute_C_BNEZ, execute_C_branch. cbv zeta. case_if; [|by apply advance_ok]. apply jump_ok; [done|].
    apply pc_ok_add; [done|]. apply is_even_uint, insn_get_C_BEQZ_BNEZ_imm_even.
  - apply jump_ok; [done|]. by apply pc_ok_masked.
  - apply write_jump_ok; [done|lia|apply uint_range; lia|by apply pc_ok_masked].
  - unfold execute_C_EBREAK. eapply returns_then; [apply (raise_exception_ok u); try done; apply Hpc|by intros [] []].
Qed.

(** The instructions whose destination is the field [rd] *)
Lemma compressed_rd_handlers_ok :
  Forall (handler_ok u rd_xN) [execute_C_ADDI; execute_C_ADDIW; execute_C_LI; execute_C_LUI; execute_C_SLLI; execute_C_MV; execute_C_ADD].
Proof.
  repeat (apply Forall_cons; split); [..|by apply Forall_nil]; intros s pc insn Hs Hpc Hi Hk;
    pose proof (fun r => read_x_range u s Hs r) as Hx; apply set_and_advance_ok; try done;
    try (by eapply (rd_destination rd_xN)); try (apply uint_range; lia); done.
Qed.

(** ** Zicsr *)

Lemma csr_handler_tail s pc insn mcycle csraddr (b : bool) v csrval :
  machine_ok u s -> pc_ok pc -> is_uint 32 insn -> is_uint 64 v -> is_uint 64 csrval ->
  returns ('(wstatus, s) ← (if b then write_csr s mcycle csraddr v else mret (success, s));
    if bool_decide (wstatus = failure) then raise_illegal_insn_exception s pc insn
    else write_rd s pc insn csrval 4 wstatus) (insn_ok u).
Proof.
  intros Hs Hpc Hi Hv Hc. eapply returns_then.
  - instantiate (1 := csr_ok u). destruct b; [by apply write_csr_ok|done].
  - intros [status s'] [? Hs']. case_if; [by apply illegal_ok|by apply write_rd_ok].
Qed.

Lemma insn_get_rs1_range insn : 0 <= insn_get_rs1 insn < 32.
Proof. exact (land_field_range (Z.shiftr insn 15) 5 ltac:(lia)). Qed.

Lemma csr_handlers_ok mcycle : is_uint 64 mcycle ->
  Forall (fun f => handler_ok u rd_x0 (fun s pc insn => f s pc mcycle insn))
    [execute_CSRRW; execute_CSRRWI; execute_CSRRS; execute_CSRRC; execute_CSRRSI; execute_CSRRCI].
Proof.
  intros Hm. assert (forall insn, is_uint 64 (insn_get_rs1 insn)) as Hr
    by (intros insn; pose proof (insn_get_rs1_range insn); unfold is_uint; lia).
  repeat (apply Forall_cons; split); [..|by apply Forall_nil]; intros s pc insn Hs Hpc Hi _;
    pose proof (fun r => read_x_range u s Hs r) as Hx.
  1-2: unfold execute_CSRRW, execute_CSRRWI, execute_csr_RW; cbv zeta;
    destruct (if negb (insn_get_rd insn =? 0) then _ else _) as [csrval|] eqn:E; [|by apply illegal_ok];
    apply (csr_handler_tail s pc insn mcycle (insn_I_get_uimm insn) true); try done;
    case_if; [by eapply read_csr_range|by injection E as <-].
  all: unfold execute_CSRRS, execute_CSRRC, execute_CSRRSI, execute_CSRRCI, execute_csr_SC, execute_csr_SCI; cbv zeta;
    destruct (read_csr s mcycle _) as [csrval|] eqn:E; [|by apply illegal_ok];
    assert (is_uint 64 csrval) by (by eapply read_csr_range); apply csr_handler_tail; auto with machine.
Qed.

End handlers.
