(* ===== verification/MemoryInsns.v ===== *)
(** * Instructions that access memory (interpret.cpp)

    Loads and stores, atomic operations, and the compressed and floating-point
    loads and stores. *)

From S2P Require Import Prelude CppInt Constants RiscvConstants MachineState DeviceAccess Tlb Trap Csr CsrInsns VirtualMemory IntegerInsns.

Abbreviation hart_result := (outcome (execute_status * Z * hart)).

Definition on_machine (h : hart) (m : insn_result) : hart_result :=
  '(status, pc, s) ← m; mret (status, pc, set_s s h).

(** [advance_to_raised_exception]: the program counter is that of the handler. *)
Definition advance_to_raised_exception (h : hart) (pc : Z) : hart_result := Done (failure, pc, h).

Definition advance (h : hart) (pc size : Z) (status : execute_status) : hart_result :=
  on_machine h (advance_to_next_insn (h_s h) pc size status).

Definition write_x_h (h : hart) (reg val : Z) : outcome hart := s ← write_x (h_s h) reg val; mret (set_s s h).

(** ** Floating-point registers (state-access.h) *)

Definition read_f (s : machine_state) (reg : Z) : Z := nth (Z.to_nat reg) (s_f s) 0.
Definition write_f (s : machine_state) (reg val : Z) : machine_state := assign_at upd_f (Z.to_nat reg) val s.

(** NaN-boxing of a value of [TLEN] bits *)
Definition float_box (TLEN val : Z) : Z :=
  if TLEN <? FLEN then val |ᵇ uint64 (Z.shiftl UINT64_MAX TLEN) else val.

Section access.

Context (driver : string -> pma_driver).

(** ** Loads and stores *)

(** A load of [T] to the integer register [rd] *)
Definition load_x (T : word_type) (h : hart) (pc mcycle vaddr rd size : Z) (k : rd_kind) : hart_result :=
  '(val, pc, h) ← read_virtual_memory driver T false h pc mcycle vaddr;
  match val with
  | None => advance_to_raised_exception h pc
  | Some val =>
      match k with
      | rd_x0 => advance h pc size success
      | rd_xN => h ← write_x_h h rd (uint64 val); advance h pc size success
      end
  end.

(** A store of [val] *)
Definition store_x (T : word_type) (h : hart) (pc mcycle vaddr val size : Z) : hart_result :=
  '(status, pc, h) ← write_virtual_memory driver T h pc mcycle vaddr val;
  if negb (bool_decide (status = success)) then
    if bool_decide (status = failure) then advance_to_raised_exception h pc else advance h pc size status
  else advance h pc size success.

Definition execute_S (T : word_type) (h : hart) (pc mcycle insn : Z) : hart_result :=
  let vaddr := read_x (h_s h) (insn_get_rs1 insn) in
  let imm := insn_S_get_imm insn in
  let val := read_x (h_s h) (insn_get_rs2 insn) in
  store_x T h pc mcycle (uint64 (vaddr + imm)) val 4.

Definition execute_SB := execute_S uint8_t.
Definition execute_SH := execute_S uint16_t.
Definition execute_SW := execute_S uint32_t.
Definition execute_SD := execute_S uint64_t.

Definition execute_L (T : word_type) (k : rd_kind) (h : hart) (pc mcycle insn : Z) : hart_result :=
  let vaddr := read_x (h_s h) (insn_get_rs1 insn) in
  let imm := insn_I_get_imm insn in
  load_x T h pc mcycle (uint64 (vaddr + imm)) (insn_get_rd insn) 4 k.

Definition execute_LB := execute_L int8_t.
Definition execute_LH := execute_L int16_t.
Definition execute_LW := execute_L int32_t.
Definition execute_LD := execute_L int64_t.
Definition execute_LBU := execute_L uint8_t.
Definition execute_LHU := execute_L uint16_t.
Definition execute_LWU := execute_L uint32_t.

(** ** Atomics *)

Definition execute_LR (T : word_type) (h : hart) (pc mcycle insn : Z) : hart_result :=
  let vaddr := read_x (h_s h) (insn_get_rs1 insn) in
  '(val, pc, h) ← read_virtual_memory driver T false h pc mcycle vaddr;
  match val with
  | None => advance_to_raised_exception h pc
  | Some val =>
      let h := set_s (assign upd_ilrsc vaddr (h_s h)) h in
      let rd := insn_get_rd insn in
      if rd =? 0 then advance h pc 4 success
      else h ← write_x_h h rd (uint64 val); advance h pc 4 success
  end.

Definition execute_SC (T : word_type) (h : hart) (pc mcycle insn : Z) : hart_result :=
  let vaddr := read_x (h_s h) (insn_get_rs1 insn) in
  '(status, val, pc, h) ←
    (if s_ilrsc (h_s h) =? vaddr then
       '(status, pc, h) ← write_virtual_memory driver T h pc mcycle vaddr (uint64 (cast T (read_x (h_s h) (insn_get_rs2 insn))));
       mret (status, 0, pc, h)
     else mret (success, 1, pc, h));
  if bool_decide (status = failure) then advance_to_raised_exception h pc
  else
    let h := set_s (assign upd_ilrsc (uint64 (-1)) (h_s h)) h in
    let rd := insn_get_rd insn in
    if rd =? 0 then advance h pc 4 status
    else h ← write_x_h h rd val; advance h pc 4 status.

Definition execute_LR_checked (T : word_type) (h : hart) (pc mcycle insn : Z) : hart_result :=
  if negb ((insn &ᵇ 0x1f00000) =? 0) then on_machine h (raise_illegal_insn_exception (h_s h) pc insn)
  else execute_LR T h pc mcycle insn.

Definition execute_LR_W := execute_LR_checked int32_t.
Definition execute_SC_W := execute_SC int32_t.
Definition execute_LR_D := execute_LR_checked uint64_t.
Definition execute_SC_D := execute_SC uint64_t.

Definition execute_AMO (T : word_type) (f : Z -> Z -> Z) (h : hart) (pc mcycle insn : Z) : hart_result :=
  let vaddr := read_x (h_s h) (insn_get_rs1 insn) in
  '(valm, pc, h) ← read_virtual_memory driver T true h pc mcycle vaddr;
  match valm with
  | None => advance_to_raised_exception h pc
  | Some valm =>
      let valr := cast T (read_x (h_s h) (insn_get_rs2 insn)) in
      let valr := f valm valr in
      '(status, pc, h) ← write_virtual_memory driver T h pc mcycle vaddr (uint64 valr);
      if bool_decide (status = failure) then advance_to_raised_exception h pc
      else
        let rd := insn_get_rd insn in
        if rd =? 0 then advance h pc 4 status
        else h ← write_x_h h rd (uint64 valm); advance h pc 4 status
  end.

Definition execute_AMOSWAP_W := execute_AMO int32_t (fun _ valr => valr).
Definition execute_AMOADD_W := execute_AMO int32_t (fun valm valr => int32 (valm + valr)).
Definition execute_AMOXOR_W := execute_AMO int32_t (fun valm valr => valm ^ᵇ valr).
Definition execute_AMOAND_W := execute_AMO int32_t (fun valm valr => valm &ᵇ valr).
Definition execute_AMOOR_W := execute_AMO int32_t (fun valm valr => valm |ᵇ valr).
Definition execute_AMOMIN_W := execute_AMO int32_t (fun valm valr => if valm <? valr then valm else valr).
Definition execute_AMOMAX_W := execute_AMO int32_t (fun valm valr => if valr <? valm then valm else valr).
Definition execute_AMOMINU_W := execute_AMO int32_t (fun valm valr => if uint32 valm <? uint32 valr then valm else valr).
Definition execute_AMOMAXU_W := execute_AMO int32_t (fun valm valr => if uint32 valr <? uint32 valm then valm else valr).
Definition execute_AMOSWAP_D := execute_AMO int64_t (fun _ valr => valr).
Definition execute_AMOADD_D := execute_AMO int64_t (fun valm valr => int64 (valm + valr)).
Definition execute_AMOXOR_D := execute_AMO int64_t (fun valm valr => valm ^ᵇ valr).
Definition execute_AMOAND_D := execute_AMO int64_t (fun valm valr => valm &ᵇ valr).
Definition execute_AMOOR_D := execute_AMO int64_t (fun valm valr => valm |ᵇ valr).
Definition execute_AMOMIN_D := execute_AMO int64_t (fun valm valr => if valm <? valr then valm else valr).
Definition execute_AMOMAX_D := execute_AMO int64_t (fun valm valr => if valr <? valm then valm else valr).
Definition execute_AMOMINU_D := execute_AMO uint64_t (fun valm valr => if valm <? valr then valm else valr).
Definition execute_AMOMAXU_D := execute_AMO uint64_t (fun valm valr => if valr <? valm then valm else valr).

(** The [switch] on the operation *)
Definition by_funct7_sr2 (l : list (Z * (hart -> Z -> Z -> Z -> hart_result))) (h : hart) (pc mcycle insn : Z) : hart_result :=
  match list_find (fun p => fst p = insn_get_funct7_sr2 insn) l with
  | Some (_, (_, execute)) => execute h pc mcycle insn
  | None => on_machine h (raise_illegal_insn_exception (h_s h) pc insn)
  end.

Definition execute_AMO_W : hart -> Z -> Z -> Z -> hart_result := by_funct7_sr2
  [(0x00, execute_AMOADD_W); (0x01, execute_AMOSWAP_W); (0x02, execute_LR_W); (0x03, execute_SC_W);
   (0x04, execute_AMOXOR_W); (0x08, execute_AMOOR_W); (0x0c, execute_AMOAND_W); (0x10, execute_AMOMIN_W);
   (0x14, execute_AMOMAX_W); (0x18, execute_AMOMINU_W); (0x1c, execute_AMOMAXU_W)].

Definition execute_AMO_D : hart -> Z -> Z -> Z -> hart_result := by_funct7_sr2
  [(0x00, execute_AMOADD_D); (0x01, execute_AMOSWAP_D); (0x02, execute_LR_D); (0x03, execute_SC_D);
   (0x04, execute_AMOXOR_D); (0x08, execute_AMOOR_D); (0x0c, execute_AMOAND_D); (0x10, execute_AMOMIN_D);
   (0x14, execute_AMOMAX_D); (0x18, execute_AMOMINU_D); (0x1c, execute_AMOMAXU_D)].

(** ** Floating-point loads and stores *)

Definition unless_fs_off (h : hart) (pc insn : Z) (m : hart_result) : hart_result :=
  if fs_off (s_mstatus (h_s h)) then on_machine h (raise_illegal_insn_exception (h_s h) pc insn) else m.

Definition load_f (T : word_type) (h : hart) (pc mcycle vaddr rd size : Z) : hart_result :=
  '(val, pc, h) ← read_virtual_memory driver T false h pc mcycle vaddr;
  match val with
  | None => advance_to_raised_exception h pc
  | Some val => advance (set_s (write_f (h_s h) rd (float_box (8 * sizeof T) val)) h) pc size success
  end.

Definition execute_FS (T : word_type) (h : hart) (pc mcycle insn : Z) : hart_result :=
  let vaddr := read_x (h_s h) (insn_get_rs1 insn) in
  let imm := insn_S_get_imm insn in
  let val := cast T (read_f (h_s h) (insn_get_rs2 insn)) in
  store_x T h pc mcycle (uint64 (vaddr + imm)) val 4.

Definition execute_FL (T : word_type) (h : hart) (pc mcycle insn : Z) : hart_result :=
  let vaddr := read_x (h_s h) (insn_get_rs1 insn) in
  let imm := insn_I_get_imm insn in
  load_f T h pc mcycle (uint64 (vaddr + imm)) (insn_get_rd insn) 4.

Definition execute_FSW (h : hart) (pc mcycle insn : Z) := unless_fs_off h pc insn (execute_FS uint32_t h pc mcycle insn).
Definition execute_FSD (h : hart) (pc mcycle insn : Z) := unless_fs_off h pc insn (execute_FS uint64_t h pc mcycle insn).
Definition execute_FLW (h : hart) (pc mcycle insn : Z) := unless_fs_off h pc insn (execute_FL uint32_t h pc mcycle insn).
Definition execute_FLD (h : hart) (pc mcycle insn : Z) := unless_fs_off h pc insn (execute_FL uint64_t h pc mcycle insn).

(** ** Compressed loads and stores *)

Definition execute_C_L (T : word_type) (h : hart) (pc mcycle rd rs1 imm : Z) : hart_result :=
  load_x T h pc mcycle (uint64 (read_x (h_s h) rs1 + imm)) rd 2 rd_xN.

Definition execute_C_S (T : word_type) (h : hart) (pc mcycle rs2 rs1 imm : Z) : hart_result :=
  store_x T h pc mcycle (uint64 (read_x (h_s h) rs1 + imm)) (read_x (h_s h) rs2) 2.

Definition execute_C_FL (T : word_type) (h : hart) (pc mcycle rd rs1 imm : Z) : hart_result :=
  load_f T h pc mcycle (uint64 (read_x (h_s h) rs1 + imm)) rd 2.

Definition execute_C_FS (T : word_type) (h : hart) (pc mcycle rs2 rs1 imm : Z) : hart_result :=
  store_x T h pc mcycle (uint64 (read_x (h_s h) rs1 + imm)) (cast T (read_f (h_s h) rs2)) 2.

Definition execute_C_FLD (h : hart) (pc mcycle insn : Z) : hart_result :=
  unless_fs_off h pc insn
    (execute_C_FL uint64_t h pc mcycle (insn_get_CIW_CL_rd_CS_CA_rs2 insn) (insn_get_CL_CS_CA_CB_rs1 insn)
       (insn_get_CL_CS_imm insn)).
Definition execute_C_LW (h : hart) (pc mcycle insn : Z) : hart_result :=
  execute_C_L int32_t h pc mcycle (insn_get_CIW_CL_rd_CS_CA_rs2 insn) (insn_get_CL_CS_CA_CB_rs1 insn)
    (insn_get_C_LW_C_SW_imm insn).
Definition execute_C_LD (h : hart) (pc mcycle insn : Z) : hart_result :=
  execute_C_L int64_t h pc mcycle (insn_get_CIW_CL_rd_CS_CA_rs2 insn) (insn_get_CL_CS_CA_CB_rs1 insn)
    (insn_get_CL_CS_imm insn).
Definition execute_C_FSD (h : hart) (pc mcycle insn : Z) : hart_result :=
  unless_fs_off h pc insn
    (execute_C_FS uint64_t h pc mcycle (insn_get_CIW_CL_rd_CS_CA_rs2 insn) (insn_get_CL_CS_CA_CB_rs1 insn)
       (insn_get_CL_CS_imm insn)).
Definition execute_C_SW (h : hart) (pc mcycle insn : Z) : hart_result :=
  execute_C_S uint32_t h pc mcycle (insn_get_CIW_CL_rd_CS_CA_rs2 insn) (insn_get_CL_CS_CA_CB_rs1 insn)
    (insn_get_C_LW_C_SW_imm insn).
Definition execute_C_SD (h : hart) (pc mcycle insn : Z) : hart_result :=
  execute_C_S uint64_t h pc mcycle (insn_get_CIW_CL_rd_CS_CA_rs2 insn) (insn_get_CL_CS_CA_CB_rs1 insn)
    (insn_get_CL_CS_imm insn).
Definition execute_C_FLDSP (h : hart) (pc mcycle insn : Z) : hart_result :=
  unless_fs_off h pc insn (execute_C_FL uint64_t h pc mcycle (insn_get_rd insn) 2 (insn_get_C_FLDSP_LDSP_imm insn)).
Definition execute_C_LWSP (h : hart) (pc mcycle insn : Z) : hart_result :=
  execute_C_L int32_t h pc mcycle (insn_get_rd insn) 2 (insn_get_C_LWSP_imm insn).
Definition execute_C_LDSP (h : hart) (pc mcycle insn : Z) : hart_result :=
  execute_C_L int64_t h pc mcycle (insn_get_rd insn) 2 (insn_get_C_FLDSP_LDSP_imm insn).
Definition execute_C_FSDSP (h : hart) (pc mcycle insn : Z) : hart_result :=
  unless_fs_off h pc insn (execute_C_FS uint64_t h pc mcycle (insn_get_CR_CSS_rs2 insn) 2 (insn_get_C_FSDSP_SDSP_imm insn)).
Definition execute_C_SWSP (h : hart) (pc mcycle insn : Z) : hart_result :=
  execute_C_S uint32_t h pc mcycle (insn_get_CR_CSS_rs2 insn) 2 (insn_get_C_SWSP_imm insn).
Definition execute_C_SDSP (h : hart) (pc mcycle insn : Z) : hart_result :=
  execute_C_S uint64_t h pc mcycle (insn_get_CR_CSS_rs2 insn) 2 (insn_get_C_FSDSP_SDSP_imm insn).

End access.
