(* ===== verification/MemoryInsnsSpec.v ===== *)
(** * The memory instructions keep the machine well formed

    Loads, stores and atomic operations, integer, floating-point and
    compressed: over devices that obey their law, each returns, with the
    program counter of the next instruction or of a handler. *)

From S2P Require Import Prelude CppInt Constants RiscvConstants UarchAccess Bytes RV64IM Pma MachineState UarchBridge UarchBridgeSpec DeviceAccess Tlb Trap Csr CsrInsns TranslateVirtualAddress TranslateSpec HostMemory HostTlb VirtualMemory MachineOk TrapSpec VirtualMemorySpec PrivilegedSpec IntegerInsns IntegerInsnsSpec MemoryInsns.

#[export] Hint Extern 1 (word_type_ok _) => cbv [word_type_ok word_size sizeof]; tauto : machine.

Section handlers.
Context (u : fixed) (driver : string -> pma_driver) (Hdriver : forall name, DeviceOk u (driver name)).

(** What a handler that reaches the memory keeps *)
Definition memory_handler_ok (k : rd_kind) (f : hart -> Z -> Z -> Z -> hart_result) : Prop :=
  forall h pc mcycle insn, machine_ok u (h_s h) -> pc_ok pc -> is_uint 32 insn -> (k = rd_xN -> insn_get_rd insn <> 0) ->
  returns (f h pc mcycle insn) (store_ok u).

Lemma on_machine_ok h m : returns m (insn_ok u) -> returns (on_machine h m) (store_ok u).
Proof. intros Hm. eapply returns_then; [exact Hm|]. intros [[status pc] s] (H1 & H2 & H3). split; [by split|]. intros E. by destruct (H1 E). Qed.

Lemma advance_h_ok h pc n status :
  hart_ok u pc h -> is_even n -> halts status h -> returns (advance h pc n status) (store_ok u).
Proof. intros [Hpc Hs] Hn Hh. split; [|exact Hh]. split; [by apply pc_ok_add|done]. Qed.

Lemma raised_ok h pc : hart_ok u pc h -> returns (advance_to_raised_exception h pc) (store_ok u).
Proof. by split. Qed.

(** Writing a register keeps the flag of a halt. *)
Lemma write_x_h_ok h r v pc status :
  hart_ok u pc h -> 0 < r < 32 -> is_uint 64 v -> halts status h ->
  returns (write_x_h h r v) (fun h' => hart_ok u pc h' /\ halts status h').
Proof.
  intros [Hpc Hs] Hr Hv Hh. unfold write_x_h, write_x. test (r =? 0) is false. cbn. split; [|exact Hh].
  split; [done|]. by apply ok_assign_x.
Qed.

Lemma illegal_h_ok h pc insn : hart_ok u pc h -> is_uint 32 insn ->
  returns (on_machine h (raise_illegal_insn_exception (h_s h) pc insn)) (store_ok u).
Proof. intros [? ?] ?. by apply on_machine_ok, illegal_ok. Qed.

(** ** Loads and stores *)

Lemma load_x_ok T h pc mcycle vaddr rd n k :
  word_type_ok T -> hart_ok u pc h -> is_uint 64 vaddr -> (k = rd_xN -> 0 < rd < 32) -> is_even n ->
  returns (load_x driver T h pc mcycle vaddr rd n k) (store_ok u).
Proof.
  intros HT [Hpc Hs] Hv Hrd Hn. unfold load_x. eapply returns_then; [by apply (read_virtual_memory_ok u driver Hdriver)|].
  intros [[[val|] pc'] h'] [Hh _]; [|by apply raised_ok]. destruct k; [by apply advance_h_ok|].
  eapply returns_then; [apply (write_x_h_ok h' rd (uint64 val) pc' success); try done; [by apply Hrd|apply uint_range; lia]|].
  intros h2 [? ?]. by apply advance_h_ok.
Qed.

Lemma store_x_ok T h pc mcycle vaddr val n :
  word_type_ok T -> hart_ok u pc h -> is_uint 64 vaddr -> is_even n ->
  returns (store_x driver T h pc mcycle vaddr val n) (store_ok u).
Proof.
  intros HT [Hpc Hs] Hv Hn. unfold store_x. eapply returns_then; [by apply (write_virtual_memory_ok u driver Hdriver)|].
  intros [[status pc'] h'] [Hh Hst]. case_if; [case_if|]; [by apply raised_ok|by apply advance_h_ok..].
Qed.

Lemma load_f_ok T h pc mcycle vaddr rd n :
  T = uint32_t \/ T = uint64_t -> hart_ok u pc h -> is_uint 64 vaddr -> is_even n ->
  returns (load_f driver T h pc mcycle vaddr rd n) (store_ok u).
Proof.
  intros HT [Hpc Hs] Hv Hn. unfold load_f.
  eapply returns_then; [apply (read_virtual_memory_ok u driver Hdriver); try done; destruct HT as [->| ->]; auto with machine|].
  intros [[[val|] pc'] h'] [[Hpc' Hs'] Hw]; [|by apply raised_ok]. destruct (Hw val eq_refl) as [w ->].
  apply advance_h_ok; [|done|done]. split; [done|]. apply ok_write_f; [done|].
  destruct HT as [->| ->]; cbn; unfold float_box; cbn; [|apply uint_range; lia].
  apply lor_uint; [lia|eapply uint_mono; [|apply uint_range]; lia|done].
Qed.

(** ** Atomic operations *)

Lemma write_rd_h_ok h pc insn v status :
  hart_ok u pc h -> is_uint 64 v -> halts status h ->
  returns (if insn_get_rd insn =? 0 then advance h pc 4 status
           else h ← write_x_h h (insn_get_rd insn) v; advance h pc 4 status) (store_ok u).
Proof.
  intros Hh Hv Hst. pose proof (insn_get_rd_range insn). destruct (Z.eqb_spec (insn_get_rd insn) 0); [by apply advance_h_ok|].
  eapply returns_then; [apply (write_x_h_ok h (insn_get_rd insn) v pc status); try done; lia|]. intros h2 [? ?]. by apply advance_h_ok.
Qed.

Lemma execute_LR_ok T k : word_type_ok T -> memory_handler_ok k (execute_LR_checked driver T).
Proof.
  intros HT h pc mcycle insn Hs Hpc Hi _. unfold execute_LR_checked. case_if; [by apply illegal_h_ok|].
  unfold execute_LR. cbv zeta. pose proof (read_x_range u _ Hs (insn_get_rs1 insn)) as Hv.
  eapply returns_then; [by apply (read_virtual_memory_ok u driver Hdriver)|].
  intros [[[val|] pc'] h'] [[Hpc' Hs'] _]; [|by apply raised_ok].
  apply write_rd_h_ok; [|apply uint_range; lia|done]. split; [done|]. by apply ok_assign_ilrsc.
Qed.

Lemma execute_SC_ok T k : word_type_ok T -> memory_handler_ok k (execute_SC driver T).
Proof.
  intros HT h pc mcycle insn Hs Hpc Hi _. unfold execute_SC. cbv zeta. pose proof (read_x_range u _ Hs (insn_get_rs1 insn)) as Hv.
  eapply (returns_then _ _ (fun '(status, val, pc, h) => store_ok u (status, pc, h) /\ is_uint 64 val)).
  - case_if; [|by split]. eapply returns_then; [by apply (write_virtual_memory_ok u driver Hdriver)|].
    intros [[status pc'] h'] Hh. by split.
  - intros [[[status val] pc'] h'] [[[Hpc' Hs'] Hst] Hval]. case_if; [by apply raised_ok|].
    apply write_rd_h_ok; [|done|exact Hst]. split; [done|]. apply ok_assign_ilrsc; [done|apply uint_range; lia].
Qed.

Lemma execute_AMO_ok T f k : word_type_ok T -> memory_handler_ok k (execute_AMO driver T f).
Proof.
  intros HT h pc mcycle insn Hs Hpc Hi _. unfold execute_AMO. cbv zeta. pose proof (read_x_range u _ Hs (insn_get_rs1 insn)) as Hv.
  eapply returns_then; [by apply (read_virtual_memory_ok u driver Hdriver)|].
  intros [[[val|] pc'] h'] [[Hpc' Hs'] _]; [|by apply raised_ok].
  eapply returns_then; [by apply (write_virtual_memory_ok u driver Hdriver)|]. intros [[status pc2] h2] [Hh Hst].
  case_if; [by apply raised_ok|]. apply write_rd_h_ok; [done|apply uint_range; lia|exact Hst].
Qed.

Lemma by_funct7_sr2_ok l k : Forall (fun p => memory_handler_ok k (snd p)) l -> memory_handler_ok k (by_funct7_sr2 l).
Proof.
  intros Hl h pc mcycle insn Hs Hpc Hi Hk. unfold by_funct7_sr2. destruct (list_find _ l) as [[i [c f]]|] eqn:E.
  - apply list_find_Some in E as (E & _). apply (Forall_lookup_1 _ _ _ _ Hl) in E. by apply E.
  - by apply illegal_h_ok.
Qed.

Lemma atomics_ok k : Forall (memory_handler_ok k) [execute_AMO_W driver; execute_AMO_D driver].
Proof.
  repeat (apply Forall_cons; split); [..|by apply Forall_nil]; apply by_funct7_sr2_ok;
    repeat (apply Forall_cons; split; [first [apply execute_LR_ok|apply execute_SC_ok|apply execute_AMO_ok]; auto with machine|]);
    by apply Forall_nil.
Qed.

(** ** The handlers *)

Lemma unless_fs_off_ok h pc insn m :
  hart_ok u pc h -> is_uint 32 insn -> returns m (store_ok u) -> returns (unless_fs_off h pc insn m) (store_ok u).
Proof. intros. unfold unless_fs_off. case_if; [by apply illegal_h_ok|done]. Qed.

Lemma loads_ok k :
  Forall (memory_handler_ok k) (map (fun f => f driver k)
    [execute_LB; execute_LH; execute_LW; execute_LD; execute_LBU; execute_LHU; execute_LWU]).
Proof.
  repeat (apply Forall_cons; split); [..|by apply Forall_nil]; intros h pc mcycle insn Hs Hpc Hi Hk;
    (apply load_x_ok; [auto with machine|by split|apply uint_range; lia|by eapply rd_destination|done]).
Qed.

Lemma stores_ok k :
  Forall (memory_handler_ok k) (map (fun f => f driver) [execute_SB; execute_SH; execute_SW; execute_SD;
    execute_FSW; execute_FSD; execute_C_FSD; execute_C_SW; execute_C_SD; execute_C_FSDSP; execute_C_SWSP; execute_C_SDSP]).
Proof.
  repeat (apply Forall_cons; split); [..|by apply Forall_nil]; intros h pc mcycle insn Hs Hpc Hi Hk;
    try (apply unless_fs_off_ok; [by split|done|]);
    (apply store_x_ok; [auto with machine|by split|apply uint_range; lia|done]).
Qed.

Lemma float_loads_ok k :
  Forall (memory_handler_ok k) (map (fun f => f driver) [execute_FLW; execute_FLD; execute_C_FLD; execute_C_FLDSP]).
Proof.
  repeat (apply Forall_cons; split); [..|by apply Forall_nil]; intros h pc mcycle insn Hs Hpc Hi Hk;
    (apply unless_fs_off_ok; [by split|done|]);
    (apply load_f_ok; [tauto|by split|apply uint_range; lia|done]).
Qed.

Lemma compressed_loads_ok k : Forall (memory_handler_ok k) (map (fun f => f driver) [execute_C_LW; execute_C_LD]).
Proof.
  repeat (apply Forall_cons; split); [..|by apply Forall_nil]; intros h pc mcycle insn Hs Hpc Hi Hk;
    (apply load_x_ok; [auto with machine|by split|apply uint_range; lia| |done]);
    intros _; unfold insn_get_CIW_CL_rd_CS_CA_rs2; pose proof (compressed_register (Z.shiftr insn 2)); lia.
Qed.

Lemma compressed_rd_loads_ok : Forall (memory_handler_ok rd_xN) (map (fun f => f driver) [execute_C_LWSP; execute_C_LDSP]).
Proof.
  repeat (apply Forall_cons; split); [..|by apply Forall_nil]; intros h pc mcycle insn Hs Hpc Hi Hk;
    (apply load_x_ok; [auto with machine|by split|apply uint_range; lia| |done]); by eapply rd_destination.
Qed.

End handlers.
