(* ===== verification/SoftFloat.v ===== *)
(** * Software floating point (soft-float.h)

    The operations of IEEE 754 on the encodings of floats, parametrised like the
    template by the widths of the format.  The exception flags accumulate: an
    operation takes them and returns its result with the new flags.  The assertions of
    the normalisation are kept: what normalises returns an [outcome]. *)

From S2P Require Import Prelude CppInt Constants RiscvConstants.

(** ** Double-word arithmetic *)

(** The number of leading zeros of a word of [size] bits *)
Definition clz (size x : Z) : Z := if x =? 0 then size else size - 1 - Z.log2 x.

(** The high and the low word of a product *)
Definition mul_u (size a b : Z) : Z * Z :=
  let r := a * b in (uint size (Z.shiftr r size), uint size r).

(** The quotient and the remainder *)
Definition divrem_u (size ah al bl : Z) : Z * Z :=
  let a := Z.shiftl ah size |ᵇ al in
  (uint size (a / bl), uint size (a mod bl)).

(** The loop of the square root; it runs while its estimate decreases. *)
Fixpoint sqrt_loop (fuel : nat) (long a u : Z) : Z :=
  match fuel with
  | O => u
  | S fuel =>
      let s := u in
      let u := Z.shiftr (uint long (a / s + s)) 1 in
      if u <? s then sqrt_loop fuel long a u else s
  end.

(** The root and whether it is inexact *)
Definition sqrtrem_u (size ah al : Z) : Z * bool :=
  let a := Z.shiftl ah size |ᵇ al in
  if (ah =? 0) && (al =? 0) then (0, false)
  else
    let l := if negb (ah =? 0) then 2 * size - clz size (ah - 1) else size - clz size (al - 1) in
    let u := uint (2 * size) (Z.shiftl 1 ((l + 1) / 2)) in
    let s := sqrt_loop (Z.to_nat (2 * size)) (2 * size) a u in
    (uint size s, negb (uint (2 * size) (a - s * s) =? 0)).

(** ** Formats *)

(** [i_sfloat<T, MANT, EXP>], with [F_SIZE] the width of [T] *)
Record i_sfloat := ISfloat { F_SIZE : Z; MANT_SIZE : Z; EXP_SIZE : Z }.

Definition i_sfloat32 : i_sfloat := ISfloat 32 23 8.
Definition i_sfloat64 : i_sfloat := ISfloat 64 52 11.

(** The value of a condition as an integer *)
Definition bit (b : bool) : Z := if b then 1 else 0.

Module Sfloat.
Section operations.

Context (F : i_sfloat).

Definition IMANT_SIZE : Z := F_SIZE F - 2.
Definition RND_SIZE : Z := IMANT_SIZE - MANT_SIZE F.
Definition EXP_MASK : Z := Z.shiftl 1 (EXP_SIZE F) - 1.
Definition MANT_MASK : Z := Z.shiftl 1 (MANT_SIZE F) - 1.
Definition SIGN_MASK : Z := Z.shiftl 1 (F_SIZE F - 1).
Definition QNAN_MASK : Z := Z.shiftl 1 (MANT_SIZE F - 1).
Definition F_QNAN : Z := Z.shiftl EXP_MASK (MANT_SIZE F) |ᵇ Z.shiftl 1 (MANT_SIZE F - 1).

(** Arithmetic of [F_UINT] *)
Definition f_uint (z : Z) : Z := uint (F_SIZE F) z.
Definition f_shl (z n : Z) : Z := f_uint (Z.shiftl z n).
Definition f_not (z : Z) : Z := f_uint (Z.lnot z).

Definition pack (a_sign a_exp a_mant : Z) : Z :=
  f_shl (f_uint a_sign) (F_SIZE F - 1) |ᵇ f_shl (f_uint (uint32 a_exp)) (MANT_SIZE F) |ᵇ (a_mant &ᵇ MANT_MASK).

(** The fields of an encoding *)
Definition sign_of (a : Z) : Z := Z.shiftr a (F_SIZE F - 1).
Definition exp_of (a : Z) : Z := Z.shiftr a (MANT_SIZE F) &ᵇ EXP_MASK.
Definition mant_of (a : Z) : Z := a &ᵇ MANT_MASK.

Definition unpack (a : Z) : Z * Z * Z := (sign_of a, exp_of a, mant_of a).

Definition mant_rshift_rnd (a d : Z) : Z :=
  if 0 <? d then
    if F_SIZE F <=? d then bit (negb (a =? 0))
    else
      let mask := f_shl 1 d - 1 in
      Z.shiftr a d |ᵇ bit (negb ((a &ᵇ mask) =? 0))
  else a.

(** The exponent and the mantissa *)
Definition mant_normalize_subnormal (a_mant : Z) : Z * Z :=
  let shift := MANT_SIZE F - (F_SIZE F - 1 - clz (F_SIZE F) a_mant) in
  (1 - shift, f_shl a_mant shift).

(** What rounding adds below the last bit that is kept *)
Definition round_addend (a_sign rm : Z) : Z :=
  if (rm =? FRM_RNE) || (rm =? FRM_RMM) then Z.shiftl 1 (RND_SIZE - 1)
  else if rm =? FRM_RTZ then 0
  else if negb ((a_sign ^ᵇ (rm &ᵇ 1)) =? 0) then Z.shiftl 1 RND_SIZE - 1 else 0.

Definition round_pack (a_sign a_exp a_mant rm fflags : Z) : Z * Z :=
  let addend := round_addend a_sign rm in
  let rnd_mask := Z.shiftl 1 RND_SIZE - 1 in
  let '(a_mant, a_exp, rnd_bits, fflags) :=
    if a_exp <=? 0 then
      let is_subnormal := (a_exp <? 0) || (f_uint (a_mant + addend) <? f_shl 1 (F_SIZE F - 1)) in
      let diff := 1 - a_exp in
      let a_mant := mant_rshift_rnd a_mant diff in
      let rnd_bits := a_mant &ᵇ rnd_mask in
      let fflags := if is_subnormal && negb (rnd_bits =? 0) then fflags |ᵇ FFLAGS_UF_MASK else fflags in
      (a_mant, 1, rnd_bits, fflags)
    else (a_mant, a_exp, a_mant &ᵇ rnd_mask, fflags) in
  let fflags := if negb (rnd_bits =? 0) then fflags |ᵇ FFLAGS_NX_MASK else fflags in
  let a_mant := Z.shiftr (f_uint (a_mant + addend)) RND_SIZE in
  let a_mant := if (rm =? FRM_RNE) && (rnd_bits =? Z.shiftl 1 (RND_SIZE - 1)) then a_mant &ᵇ f_not 1 else a_mant in
  let a_exp := a_exp + Z.shiftr a_mant (MANT_SIZE F + 1) in
  if a_mant <=? MANT_MASK then (pack a_sign 0 a_mant, fflags)
  else if EXP_MASK <=? a_exp then
    let fflags := fflags |ᵇ FFLAGS_OF_MASK |ᵇ FFLAGS_NX_MASK in
    if addend =? 0 then (pack a_sign (EXP_MASK - 1) MANT_MASK, fflags) else (pack a_sign EXP_MASK 0, fflags)
  else (pack a_sign a_exp a_mant, fflags).

Definition normalize (a_sign a_exp a_mant rm fflags : Z) : outcome (Z * Z) :=
  let shift := clz (F_SIZE F) a_mant - (F_SIZE F - 1 - IMANT_SIZE) in
  _ ← throw_if (shift <? 0) (assertion_failure "shift >= 0");
  mret (round_pack a_sign (a_exp - shift) (f_shl a_mant shift) rm fflags).

Definition normalize2 (a_sign a_exp a_mant1 a_mant0 rm fflags : Z) : outcome (Z * Z) :=
  let l := if a_mant1 =? 0 then F_SIZE F + clz (F_SIZE F) a_mant0 else clz (F_SIZE F) a_mant1 in
  let shift := l - (F_SIZE F - 1 - IMANT_SIZE) in
  _ ← throw_if (shift <? 0) (assertion_failure "shift >= 0");
  let a_exp := a_exp - shift in
  let a_mant1 :=
    if shift =? 0 then a_mant1 |ᵇ bit (negb (a_mant0 =? 0))
    else if shift <? F_SIZE F then
      f_shl a_mant1 shift |ᵇ Z.shiftr a_mant0 (F_SIZE F - shift) |ᵇ bit (negb (f_shl a_mant0 shift =? 0))
    else f_shl a_mant0 (shift - F_SIZE F) in
  mret (round_pack a_sign a_exp a_mant1 rm fflags).

Definition issignan (a : Z) : bool :=
  let a_exp1 := Z.shiftr a (MANT_SIZE F - 1) &ᵇ (Z.shiftl 1 (EXP_SIZE F + 1) - 1) in
  (a_exp1 =? 2 * EXP_MASK) && negb (mant_of a =? 0).

Definition isnan (a : Z) : bool := (exp_of a =? EXP_MASK) && negb (mant_of a =? 0).

(** [*pfflags |= mask] under a condition *)
Definition flag_if (b : bool) (mask fflags : Z) : Z := if b then fflags |ᵇ mask else fflags.

(** The implicit bit of a normal number *)
Definition implicit_one : Z := f_shl 1 (MANT_SIZE F).

(** ** Addition *)

Definition add_ordered (a b rm fflags : Z) : outcome (Z * Z) :=
  let a_sign := sign_of a in
  let b_sign := sign_of b in
  let a_exp := exp_of a in
  let b_exp := exp_of b in
  let a_mant := f_shl (mant_of a) 3 in
  let b_mant := f_shl (mant_of b) 3 in
  if a_exp =? EXP_MASK then
    if negb (a_mant =? 0) then
      Done (F_QNAN, flag_if (((a_mant &ᵇ f_shl QNAN_MASK 3) =? 0) || issignan b) FFLAGS_NV_MASK fflags)
    else if (b_exp =? EXP_MASK) && negb (a_sign =? b_sign) then Done (F_QNAN, fflags |ᵇ FFLAGS_NV_MASK)
    else Done (a, fflags)
  else
    let '(a_exp, a_mant) := if a_exp =? 0 then (1, a_mant) else (a_exp, a_mant |ᵇ f_shl 1 (MANT_SIZE F + 3)) in
    let '(b_exp, b_mant) := if b_exp =? 0 then (1, b_mant) else (b_exp, b_mant |ᵇ f_shl 1 (MANT_SIZE F + 3)) in
    let b_mant := mant_rshift_rnd b_mant (a_exp - b_exp) in
    let '(a_sign, a_mant) :=
      if a_sign =? b_sign then (a_sign, f_uint (a_mant + b_mant))
      else
        let a_mant := f_uint (a_mant - b_mant) in
        ((if a_mant =? 0 then bit (rm =? FRM_RDN) else a_sign), a_mant) in
    normalize a_sign (a_exp + (RND_SIZE - 3)) a_mant rm fflags.

(** The operands are swapped so that the first has the larger absolute value. *)
Definition add (a b rm fflags : Z) : outcome (Z * Z) :=
  if (a &ᵇ f_not SIGN_MASK) <? (b &ᵇ f_not SIGN_MASK) then add_ordered b a rm fflags else add_ordered a b rm fflags.

(** ** Multiplication *)

(** The exponent and the mantissa of a finite number other than zero *)
Definition normalized (a : Z) : Z * Z :=
  if exp_of a =? 0 then mant_normalize_subnormal (mant_of a) else (exp_of a, mant_of a |ᵇ implicit_one).

Definition is_zero (a : Z) : bool := (exp_of a =? 0) && (mant_of a =? 0).
Definition is_inf (a : Z) : bool := (exp_of a =? EXP_MASK) && (mant_of a =? 0).

Definition mul (a b rm fflags : Z) : outcome (Z * Z) :=
  let r_sign := sign_of a ^ᵇ sign_of b in
  if (exp_of a =? EXP_MASK) || (exp_of b =? EXP_MASK) then
    if isnan a || isnan b then Done (F_QNAN, flag_if (issignan a || issignan b) FFLAGS_NV_MASK fflags)
    else if ((exp_of a =? EXP_MASK) && is_zero b) || ((exp_of b =? EXP_MASK) && is_zero a)
    then Done (F_QNAN, fflags |ᵇ FFLAGS_NV_MASK)
    else Done (pack r_sign EXP_MASK 0, fflags)
  else if is_zero a || is_zero b then Done (pack r_sign 0 0, fflags)
  else
    let '(a_exp, a_mant) := normalized a in
    let '(b_exp, b_mant) := normalized b in
    let r_exp := a_exp + b_exp - Z.shiftl 1 (EXP_SIZE F - 1) + 2 in
    let '(r_mant, r_mant_low) := mul_u (F_SIZE F) (f_shl a_mant RND_SIZE) (f_shl b_mant (RND_SIZE + 1)) in
    normalize r_sign r_exp (r_mant |ᵇ bit (negb (r_mant_low =? 0))) rm fflags.

(** ** Fused multiplication and addition *)

(** A two-word mantissa shifted right, with the bits that leave it kept in the
    last one *)
Definition shift_double (c_mant1 c_mant0 shift : Z) : Z * Z :=
  if 2 * F_SIZE F <=? shift then (0, bit (negb ((c_mant0 |ᵇ c_mant1) =? 0)))
  else if F_SIZE F + 1 <=? shift then (0, mant_rshift_rnd c_mant1 (shift - F_SIZE F))
  else if shift =? F_SIZE F then (0, c_mant1 |ᵇ bit (negb (c_mant0 =? 0)))
  else if negb (shift =? 0) then
    let mask := f_shl 1 shift - 1 in
    (Z.shiftr c_mant1 shift,
     f_shl c_mant1 (F_SIZE F - shift) |ᵇ Z.shiftr c_mant0 shift |ᵇ bit (negb ((c_mant0 &ᵇ mask) =? 0)))
  else (c_mant1, c_mant0).

(** The sum of two numbers of two-word mantissas, the first the larger *)
Definition add_double (r_sign r_exp r_mant1 r_mant0 c_sign c_exp c_mant1 c_mant0 rm fflags : Z) : outcome (Z * Z) :=
  let '(c_mant1, c_mant0) := shift_double c_mant1 c_mant0 (r_exp - c_exp) in
  if r_sign =? c_sign then
    let r_mant0 := f_uint (r_mant0 + c_mant0) in
    let r_mant1 := f_uint (r_mant1 + c_mant1 + bit (r_mant0 <? c_mant0)) in
    normalize2 r_sign r_exp r_mant1 r_mant0 rm fflags
  else
    let tmp := r_mant0 in
    let r_mant0 := f_uint (r_mant0 - c_mant0) in
    let r_mant1 := f_uint (r_mant1 - c_mant1 - bit (tmp <? r_mant0)) in
    let r_sign := if (r_mant0 |ᵇ r_mant1) =? 0 then bit (rm =? FRM_RDN) else r_sign in
    normalize2 r_sign r_exp r_mant1 r_mant0 rm fflags.

Definition fma (a b c rm fflags : Z) : outcome (Z * Z) :=
  let c_sign := sign_of c in
  let r_sign := sign_of a ^ᵇ sign_of b in
  if (exp_of a =? EXP_MASK) || (exp_of b =? EXP_MASK) || (exp_of c =? EXP_MASK) then
    if (is_inf a && is_zero b) || (is_inf b && is_zero a) then Done (F_QNAN, fflags |ᵇ FFLAGS_NV_MASK)
    else if isnan a || isnan b || isnan c
    then Done (F_QNAN, flag_if (issignan a || issignan b || issignan c) FFLAGS_NV_MASK fflags)
    else if ((exp_of a =? EXP_MASK) || (exp_of b =? EXP_MASK)) && ((exp_of c =? EXP_MASK) && negb (r_sign =? c_sign))
    then Done (F_QNAN, fflags |ᵇ FFLAGS_NV_MASK)
    else if exp_of c =? EXP_MASK then Done (pack c_sign EXP_MASK 0, fflags)
    else Done (pack r_sign EXP_MASK 0, fflags)
  else if is_zero a || is_zero b then
    if is_zero c then Done (pack (if negb (c_sign =? r_sign) then bit (rm =? FRM_RDN) else r_sign) 0 0, fflags)
    else Done (c, fflags)
  else
    let '(a_exp, a_mant) := normalized a in
    let '(b_exp, b_mant) := normalized b in
    let r_exp := a_exp + b_exp - Z.shiftl 1 (EXP_SIZE F - 1) + 3 in
    let '(r_mant1, r_mant0) := mul_u (F_SIZE F) (f_shl a_mant RND_SIZE) (f_shl b_mant RND_SIZE) in
    let '(r_mant1, r_mant0, r_exp) :=
      if r_mant1 <? f_shl 1 (F_SIZE F - 3)
      then (f_shl r_mant1 1 |ᵇ Z.shiftr r_mant0 (F_SIZE F - 1), f_shl r_mant0 1, r_exp - 1)
      else (r_mant1, r_mant0, r_exp) in
    if is_zero c then normalize r_sign r_exp (r_mant1 |ᵇ bit (negb (r_mant0 =? 0))) rm fflags
    else
      let '(c_exp, c_mant) := normalized c in
      let c_exp := c_exp + 1 in
      let c_mant1 := f_shl c_mant (RND_SIZE - 1) in
      let c_mant0 := 0 in
      if negb ((c_exp <? r_exp) || ((r_exp =? c_exp) && (c_mant1 <=? r_mant1)))
      then add_double c_sign c_exp c_mant1 c_mant0 r_sign r_exp r_mant1 r_mant0 rm fflags
      else add_double r_sign r_exp r_mant1 r_mant0 c_sign c_exp c_mant1 c_mant0 rm fflags.

(** ** Division and square root *)

Definition div (a b rm fflags : Z) : outcome (Z * Z) :=
  let r_sign := sign_of a ^ᵇ sign_of b in
  if exp_of a =? EXP_MASK then
    if negb (mant_of a =? 0) || isnan b then Done (F_QNAN, flag_if (issignan a || issignan b) FFLAGS_NV_MASK fflags)
    else if exp_of b =? EXP_MASK then Done (F_QNAN, fflags |ᵇ FFLAGS_NV_MASK)
    else Done (pack r_sign EXP_MASK 0, fflags)
  else if exp_of b =? EXP_MASK then
    if negb (mant_of b =? 0) then Done (F_QNAN, flag_if (issignan b) FFLAGS_NV_MASK fflags)
    else Done (pack r_sign 0 0, fflags)
  else if is_zero b then
    if is_zero a then Done (F_QNAN, fflags |ᵇ FFLAGS_NV_MASK)
    else Done (pack r_sign EXP_MASK 0, fflags |ᵇ FFLAGS_DZ_MASK)
  else if is_zero a then Done (pack r_sign 0 0, fflags)
  else
    let '(b_exp, b_mant) := normalized b in
    let '(a_exp, a_mant) := normalized a in
    let r_exp := a_exp - b_exp + Z.shiftl 1 (EXP_SIZE F - 1) - 1 in
    let '(r_mant, r) := divrem_u (F_SIZE F) a_mant 0 (f_shl b_mant 2) in
    normalize r_sign r_exp (if negb (r =? 0) then r_mant |ᵇ 1 else r_mant) rm fflags.

Definition sqrt (a rm fflags : Z) : outcome (Z * Z) :=
  let a_sign := sign_of a in
  if exp_of a =? EXP_MASK then
    if negb (mant_of a =? 0) then Done (F_QNAN, flag_if (issignan a) FFLAGS_NV_MASK fflags)
    else if negb (a_sign =? 0) then Done (F_QNAN, fflags |ᵇ FFLAGS_NV_MASK)
    else Done (a, fflags)
  else if negb (a_sign =? 0) then
    if is_zero a then Done (a, fflags) else Done (F_QNAN, fflags |ᵇ FFLAGS_NV_MASK)
  else if is_zero a then Done (pack 0 0 0, fflags)
  else
    let '(a_exp, a_mant) := normalized a in
    let a_exp := a_exp - EXP_MASK / 2 in
    let '(a_exp, a_mant) := if negb ((a_exp &ᵇ 1) =? 0) then (a_exp - 1, f_shl a_mant 1) else (a_exp, a_mant) in
    let a_exp := Z.shiftr a_exp 1 + EXP_MASK / 2 in
    let a_mant := f_shl a_mant (F_SIZE F - 4 - MANT_SIZE F) in
    let '(root, inexact) := sqrtrem_u (F_SIZE F) a_mant 0 in
    normalize a_sign a_exp (if inexact : bool then root |ᵇ 1 else root) rm fflags.

(** ** Comparisons *)

Definition min_max_nan (a b fflags : Z) : Z * Z :=
  let fflags := flag_if (issignan a || issignan b) FFLAGS_NV_MASK fflags in
  if isnan a then if isnan b then (F_QNAN, fflags) else (b, fflags) else (a, fflags).

(** [(a < b) ^ a_sign] *)
Definition less_magnitude (a b : Z) : bool := negb ((bit (a <? b) ^ᵇ sign_of a) =? 0).

Definition min (a b fflags : Z) : Z * Z :=
  if isnan a || isnan b then min_max_nan a b fflags
  else if negb (sign_of a =? sign_of b) then ((if negb (sign_of a =? 0) then a else b), fflags)
  else ((if less_magnitude a b then a else b), fflags).

Definition max (a b fflags : Z) : Z * Z :=
  if isnan a || isnan b then min_max_nan a b fflags
  else if negb (sign_of a =? sign_of b) then ((if negb (sign_of a =? 0) then b else a), fflags)
  else ((if less_magnitude a b then b else a), fflags).

Definition eq (a b fflags : Z) : bool * Z :=
  if isnan a || isnan b then (false, flag_if (issignan a || issignan b) FFLAGS_NV_MASK fflags)
  else if f_shl (a |ᵇ b) 1 =? 0 then (true, fflags)
  else (a =? b, fflags).

Definition le (a b fflags : Z) : bool * Z :=
  if isnan a || isnan b then (false, fflags |ᵇ FFLAGS_NV_MASK)
  else if negb (sign_of a =? sign_of b) then (negb (sign_of a =? 0) || (f_shl (a |ᵇ b) 1 =? 0), fflags)
  else ((if negb (sign_of a =? 0) then b <=? a else a <=? b), fflags).

Definition lt (a b fflags : Z) : bool * Z :=
  if isnan a || isnan b then (false, fflags |ᵇ FFLAGS_NV_MASK)
  else if negb (sign_of a =? sign_of b) then (negb (sign_of a =? 0) && negb (f_shl (a |ᵇ b) 1 =? 0), fflags)
  else ((if negb (sign_of a =? 0) then b <? a else a <? b), fflags).

Definition fclass (a : Z) : Z :=
  let a_sign := sign_of a in
  if exp_of a =? EXP_MASK then
    if negb (mant_of a =? 0) then if negb ((mant_of a &ᵇ QNAN_MASK) =? 0) then FCLASS_QNAN else FCLASS_SNAN
    else if negb (a_sign =? 0) then FCLASS_NINF else FCLASS_PINF
  else if exp_of a =? 0 then
    if mant_of a =? 0 then if negb (a_sign =? 0) then FCLASS_NZERO else FCLASS_PZERO
    else if negb (a_sign =? 0) then FCLASS_NSUBNORMAL else FCLASS_PSUBNORMAL
  else if negb (a_sign =? 0) then FCLASS_NNORMAL else FCLASS_PNORMAL.

(** ** Conversions *)

(** To an integer of [size] bits, signed or not: the bits of the result *)
Definition cvt_f_i (size : Z) (IS_UNSIGNED : bool) (a rm fflags : Z) : Z * Z :=
  let a_sign := if (exp_of a =? EXP_MASK) && negb (mant_of a =? 0) then 0 else sign_of a in
  let '(a_exp, a_mant) := if exp_of a =? 0 then (1, mant_of a) else (exp_of a, mant_of a |ᵇ implicit_one) in
  let a_mant := f_shl a_mant RND_SIZE in
  let a_exp := a_exp - EXP_MASK / 2 - MANT_SIZE F in
  let r_max := if IS_UNSIGNED then uint size (a_sign - 1) else Z.shiftl 1 (size - 1) - (a_sign ^ᵇ 1) in
  let signed r := if negb (a_sign =? 0) then uint size (- r) else r in
  if 0 <=? a_exp then
    if a_exp <=? size - 1 - MANT_SIZE F then
      let r := uint size (Z.shiftl (uint size (Z.shiftr a_mant RND_SIZE)) a_exp) in
      if r_max <? r then (r_max, fflags |ᵇ FFLAGS_NV_MASK) else (signed r, fflags)
    else (r_max, fflags |ᵇ FFLAGS_NV_MASK)
  else
    let a_mant := mant_rshift_rnd a_mant (- a_exp) in
    let addend := round_addend a_sign rm in
    let rnd_bits := a_mant &ᵇ (Z.shiftl 1 RND_SIZE - 1) in
    let a_mant := Z.shiftr (f_uint (a_mant + addend)) RND_SIZE in
    let a_mant := if (rm =? FRM_RNE) && (rnd_bits =? Z.shiftl 1 (RND_SIZE - 1)) then a_mant &ᵇ f_not 1 else a_mant in
    if r_max <? a_mant then (r_max, fflags |ᵇ FFLAGS_NV_MASK)
    else (signed (uint size a_mant), flag_if (negb (rnd_bits =? 0)) FFLAGS_NX_MASK fflags).

(** From an integer of [size] bits *)
Definition cvt_i_f (size : Z) (IS_UNSIGNED : bool) (a rm fflags : Z) : outcome (Z * Z) :=
  let '(a_sign, r) := if negb IS_UNSIGNED && (a <? 0) then (1, uint size (- uint size a)) else (0, uint size a) in
  let a_exp := EXP_MASK / 2 + F_SIZE F - 2 in
  let l := size - clz size r - (F_SIZE F - 1) in
  let '(r, a_exp) :=
    if 0 <? l then
      let mask := r &ᵇ (uint size (Z.shiftl 1 l) - 1) in
      (Z.shiftr r l |ᵇ bit (negb ((r &ᵇ mask) =? 0)), a_exp + l)
    else (r, a_exp) in
  normalize a_sign a_exp (f_uint r) rm fflags.

End operations.

Definition sfloat_cvt_f32_f64 (a fflags : Z) : Z * Z :=
  let '(a_sign, a_exp, a_mant) := unpack i_sfloat32 a in
  if a_exp =? 0xff then
    if negb (a_mant =? 0) then (F_QNAN i_sfloat64, flag_if (issignan i_sfloat32 a) FFLAGS_NV_MASK fflags)
    else (pack i_sfloat64 a_sign (EXP_MASK i_sfloat64) 0, fflags)
  else if (a_exp =? 0) && (a_mant =? 0) then (pack i_sfloat64 a_sign 0 0, fflags)
  else
    let '(a_exp, a_mant) := if a_exp =? 0 then mant_normalize_subnormal i_sfloat32 a_mant else (a_exp, a_mant) in
    let a_exp := a_exp - 0x7f + EXP_MASK i_sfloat64 / 2 in
    let a_mant := f_shl i_sfloat64 a_mant (MANT_SIZE i_sfloat64 - 23) in
    (pack i_sfloat64 a_sign a_exp a_mant, fflags).

(** The mantissa of a subnormal number is not normalised, only its exponent. *)
Definition sfloat_cvt_f64_f32 (a rm fflags : Z) : outcome (Z * Z) :=
  let '(a_sign, a_exp, a_mant) := unpack i_sfloat64 a in
  if a_exp =? EXP_MASK i_sfloat64 then
    if negb (a_mant =? 0) then Done (F_QNAN i_sfloat32, flag_if (issignan i_sfloat64 a) FFLAGS_NV_MASK fflags)
    else Done (pack i_sfloat32 a_sign 0xff 0, fflags)
  else if (a_exp =? 0) && (a_mant =? 0) then Done (pack i_sfloat32 a_sign 0 0, fflags)
  else
    let '(a_exp, a_mant) :=
      if a_exp =? 0 then (fst (mant_normalize_subnormal i_sfloat64 a_mant), a_mant)
      else (a_exp, a_mant |ᵇ implicit_one i_sfloat64) in
    let a_exp := a_exp - EXP_MASK i_sfloat64 / 2 + 0x7f in
    let a_mant := mant_rshift_rnd i_sfloat64 a_mant (MANT_SIZE i_sfloat64 - (32 - 2)) in
    normalize i_sfloat32 a_sign a_exp (uint32 a_mant) rm fflags.

End Sfloat.
