(* ===== verification/FloatInsns.v ===== *)
(** * Floating-point instructions (interpret.cpp)

    The registers hold the encodings of doubles, and of floats with the upper
    bits set (NaN-boxing).  The rounding mode comes from the instruction or from
    [fcsr], where the exception flags accumulate. *)

From S2P Require Import Prelude CppInt Constants RiscvConstants MachineState DeviceAccess Tlb Trap Csr CsrInsns VirtualMemory IntegerInsns MemoryInsns SoftFloat.

(** ** Operands *)

Definition float_unbox (F : i_sfloat) (val : Z) : Z :=
  if (F_SIZE F <? FLEN) && negb (Z.shiftr val (F_SIZE F) =? Z.shiftr UINT64_MAX (F_SIZE F)) then Sfloat.F_QNAN F
  else uint (F_SIZE F) val.

Definition box (F : i_sfloat) (val : Z) : Z := float_box (F_SIZE F) val.

Definition read_boxed (F : i_sfloat) (s : machine_state) (reg : Z) : Z := float_unbox F (read_f s reg).

(** The flags, and [fcsr] with new ones *)
Definition fflags_of (fcsr : Z) : Z := uint32 (fcsr &ᵇ FCSR_FFLAGS_RW_MASK).
Definition with_fflags (fcsr fflags : Z) : Z := (fcsr &ᵇ not64 FCSR_FFLAGS_RW_MASK) |ᵇ fflags.

(** The rounding mode, [None] when it is invalid *)
Definition rounding_mode (s : machine_state) (insn : Z) : option Z :=
  let rm := insn_get_rm insn (uint32 (s_fcsr s)) in
  if FRM_RMM <? rm then None else Some rm.

Definition illegal (s : machine_state) (pc insn : Z) : insn_result := raise_illegal_insn_exception s pc insn.

(** Writes the result of an operation to a register, and its flags. *)
Definition finish_f (F : i_sfloat) (s : machine_state) (pc insn : Z) (r : Z * Z) : insn_result :=
  let fcsr := s_fcsr s in
  let s := write_f s (insn_get_rd insn) (box F (fst r)) in
  let s := assign upd_fcsr (with_fflags fcsr (snd r)) s in
  advance_to_next_insn s pc 4 success.

Definition finish_x (s : machine_state) (pc insn : Z) (r : Z * Z) : insn_result :=
  let s := assign upd_fcsr (with_fflags (s_fcsr s) (snd r)) s in
  write_rd s pc insn (fst r) 4 success.

(** ** Shapes of instructions *)

Definition execute_float_ternary_op_rm (F : i_sfloat) (f : Z -> Z -> Z -> Z -> Z -> outcome (Z * Z))
    (s : machine_state) (pc insn : Z) : insn_result :=
  match rounding_mode s insn with
  | None => illegal s pc insn
  | Some rm =>
      let s1 := read_boxed F s (insn_get_rs1 insn) in
      let s2 := read_boxed F s (insn_get_rs2 insn) in
      let s3 := read_boxed F s (insn_get_rs3 insn) in
      r ← f s1 s2 s3 rm (fflags_of (s_fcsr s)); finish_f F s pc insn r
  end.

Definition execute_float_binary_op_rm (F : i_sfloat) (f : Z -> Z -> Z -> Z -> outcome (Z * Z))
    (s : machine_state) (pc insn : Z) : insn_result :=
  match rounding_mode s insn with
  | None => illegal s pc insn
  | Some rm =>
      let s1 := read_boxed F s (insn_get_rs1 insn) in
      let s2 := read_boxed F s (insn_get_rs2 insn) in
      r ← f s1 s2 rm (fflags_of (s_fcsr s)); finish_f F s pc insn r
  end.

Definition execute_float_unary_op_rm (F : i_sfloat) (f : Z -> Z -> Z -> outcome (Z * Z))
    (s : machine_state) (pc insn : Z) : insn_result :=
  if negb (insn_get_rs2 insn =? 0) then illegal s pc insn
  else
    match rounding_mode s insn with
    | None => illegal s pc insn
    | Some rm => r ← f (read_boxed F s (insn_get_rs1 insn)) rm (fflags_of (s_fcsr s)); finish_f F s pc insn r
    end.

Definition execute_FCLASS (F : i_sfloat) (s : machine_state) (pc insn : Z) : insn_result :=
  write_rd s pc insn (Sfloat.fclass F (read_boxed F s (insn_get_rs1 insn))) 4 success.

Definition execute_float_binary_op (F : i_sfloat) (f : Z -> Z -> Z -> Z * Z) (s : machine_state) (pc insn : Z) : insn_result :=
  let s1 := read_boxed F s (insn_get_rs1 insn) in
  let s2 := read_boxed F s (insn_get_rs2 insn) in
  finish_f F s pc insn (f s1 s2 (fflags_of (s_fcsr s))).

Definition execute_float_cmp_op (F : i_sfloat) (f : Z -> Z -> Z -> bool * Z) (s : machine_state) (pc insn : Z) : insn_result :=
  let s1 := read_boxed F s (insn_get_rs1 insn) in
  let s2 := read_boxed F s (insn_get_rs2 insn) in
  let '(val, fflags) := f s1 s2 (fflags_of (s_fcsr s)) in
  finish_x s pc insn (b2u val, fflags).

(** Between formats, to an integer register and from one *)
Definition execute_FCVT_F_F (ST DT : i_sfloat) (f : Z -> Z -> Z -> outcome (Z * Z)) (s : machine_state) (pc insn : Z) : insn_result :=
  match rounding_mode s insn with
  | None => illegal s pc insn
  | Some rm => r ← f (read_boxed ST s (insn_get_rs1 insn)) rm (fflags_of (s_fcsr s)); finish_f DT s pc insn r
  end.

Definition execute_FCVT_X_F (F : i_sfloat) (f : Z -> Z -> Z -> Z * Z) (s : machine_state) (pc insn : Z) : insn_result :=
  match rounding_mode s insn with
  | None => illegal s pc insn
  | Some rm => finish_x s pc insn (f (read_boxed F s (insn_get_rs1 insn)) rm (fflags_of (s_fcsr s)))
  end.

Definition execute_FCVT_F_X (F : i_sfloat) (f : Z -> Z -> Z -> outcome (Z * Z)) (s : machine_state) (pc insn : Z) : insn_result :=
  match rounding_mode s insn with
  | None => illegal s pc insn
  | Some rm => r ← f (read_x s (insn_get_rs1 insn)) rm (fflags_of (s_fcsr s)); finish_f F s pc insn r
  end.

(** ** Fused operations *)

Definition negated (F : i_sfloat) (a : Z) : Z := a ^ᵇ Sfloat.SIGN_MASK F.

Definition FMADD (F : i_sfloat) := execute_float_ternary_op_rm F (Sfloat.fma F).
Definition FMSUB (F : i_sfloat) := execute_float_ternary_op_rm F (fun s1 s2 s3 => Sfloat.fma F s1 s2 (negated F s3)).
Definition FNMADD (F : i_sfloat) := execute_float_ternary_op_rm F (fun s1 s2 s3 => Sfloat.fma F (negated F s1) s2 (negated F s3)).
Definition FNMSUB (F : i_sfloat) := execute_float_ternary_op_rm F (fun s1 s2 s3 => Sfloat.fma F (negated F s1) s2 s3).

Definition execute_FMADD_S := FMADD i_sfloat32.
Definition execute_FMADD_D := FMADD i_sfloat64.
Definition execute_FMSUB_S := FMSUB i_sfloat32.
Definition execute_FMSUB_D := FMSUB i_sfloat64.
Definition execute_FNMADD_S := FNMADD i_sfloat32.
Definition execute_FNMADD_D := FNMADD i_sfloat64.
Definition execute_FNMSUB_S := FNMSUB i_sfloat32.
Definition execute_FNMSUB_D := FNMSUB i_sfloat64.

(** The format is in the [funct2] field. *)
Definition by_funct2 (execute_S execute_D : machine_state -> Z -> Z -> insn_result) (s : machine_state) (pc insn : Z) : insn_result :=
  if fs_off (s_mstatus s) then illegal s pc insn
  else
    let funct2 := insn_get_funct2_0000000000000000000000000 insn in
    if funct2 =? 0 then execute_S s pc insn
    else if funct2 =? Z.shiftl 1 25 then execute_D s pc insn
    else illegal s pc insn.

Definition execute_FMADD := by_funct2 execute_FMADD_S execute_FMADD_D.
Definition execute_FMSUB := by_funct2 execute_FMSUB_S execute_FMSUB_D.
Definition execute_FNMADD := by_funct2 execute_FNMADD_S execute_FNMADD_D.
Definition execute_FNMSUB := by_funct2 execute_FNMSUB_S execute_FNMSUB_D.

(** ** Operations of a format *)

Definition FADD (F : i_sfloat) := execute_float_binary_op_rm F (Sfloat.add F).
Definition FSUB (F : i_sfloat) := execute_float_binary_op_rm F (fun s1 s2 => Sfloat.add F s1 (negated F s2)).
Definition FMUL (F : i_sfloat) := execute_float_binary_op_rm F (Sfloat.mul F).
Definition FDIV (F : i_sfloat) := execute_float_binary_op_rm F (Sfloat.div F).
Definition FSQRT (F : i_sfloat) := execute_float_unary_op_rm F (Sfloat.sqrt F).

Definition FSGNJ (F : i_sfloat) := execute_float_binary_op F (fun s1 s2 fflags =>
  ((s1 &ᵇ Sfloat.f_not F (Sfloat.SIGN_MASK F)) |ᵇ (s2 &ᵇ Sfloat.SIGN_MASK F), fflags)).
Definition FSGNJN (F : i_sfloat) := execute_float_binary_op F (fun s1 s2 fflags =>
  ((s1 &ᵇ Sfloat.f_not F (Sfloat.SIGN_MASK F)) |ᵇ ((s2 &ᵇ Sfloat.SIGN_MASK F) ^ᵇ Sfloat.SIGN_MASK F), fflags)).
Definition FSGNJX (F : i_sfloat) := execute_float_binary_op F (fun s1 s2 fflags =>
  (s1 ^ᵇ (s2 &ᵇ Sfloat.SIGN_MASK F), fflags)).
Definition FMIN (F : i_sfloat) := execute_float_binary_op F (Sfloat.min F).
Definition FMAX (F : i_sfloat) := execute_float_binary_op F (Sfloat.max F).
Definition FLE (F : i_sfloat) := execute_float_cmp_op F (Sfloat.le F).
Definition FLT (F : i_sfloat) := execute_float_cmp_op F (Sfloat.lt F).
Definition FEQ (F : i_sfloat) := execute_float_cmp_op F (Sfloat.eq F).

Definition execute_FADD_S := FADD i_sfloat32.
Definition execute_FADD_D := FADD i_sfloat64.
Definition execute_FSUB_S := FSUB i_sfloat32.
Definition execute_FSUB_D := FSUB i_sfloat64.
Definition execute_FMUL_S := FMUL i_sfloat32.
Definition execute_FMUL_D := FMUL i_sfloat64.
Definition execute_FDIV_S := FDIV i_sfloat32.
Definition execute_FDIV_D := FDIV i_sfloat64.
Definition execute_FSQRT_S := FSQRT i_sfloat32.
Definition execute_FSQRT_D := FSQRT i_sfloat64.
Definition execute_FSGNJ_S := FSGNJ i_sfloat32.
Definition execute_FSGNJ_D := FSGNJ i_sfloat64.
Definition execute_FSGNJN_S := FSGNJN i_sfloat32.
Definition execute_FSGNJN_D := FSGNJN i_sfloat64.
Definition execute_FSGNJX_S := FSGNJX i_sfloat32.
Definition execute_FSGNJX_D := FSGNJX i_sfloat64.
Definition execute_FMIN_S := FMIN i_sfloat32.
Definition execute_FMIN_D := FMIN i_sfloat64.
Definition execute_FMAX_S := FMAX i_sfloat32.
Definition execute_FMAX_D := FMAX i_sfloat64.
Definition execute_FLE_S := FLE i_sfloat32.
Definition execute_FLE_D := FLE i_sfloat64.
Definition execute_FLT_S := FLT i_sfloat32.
Definition execute_FLT_D := FLT i_sfloat64.
Definition execute_FEQ_S := FEQ i_sfloat32.
Definition execute_FEQ_D := FEQ i_sfloat64.

(** A [switch] on the [funct3] field, in place *)
Definition by_funct3 (l : list (Z * (machine_state -> Z -> Z -> insn_result))) (s : machine_state) (pc insn : Z) : insn_result :=
  match list_find (fun p => Z.shiftl (fst p) 12 = insn_get_funct3_000000000000 insn) l with
  | Some (_, (_, execute)) => execute s pc insn
  | None => illegal s pc insn
  end.

Definition execute_FSGN_S := by_funct3 [(0, execute_FSGNJ_S); (1, execute_FSGNJN_S); (2, execute_FSGNJX_S)].
Definition execute_FMINMAX_S := by_funct3 [(0, execute_FMIN_S); (1, execute_FMAX_S)].
Definition execute_FCMP_S := by_funct3 [(1, execute_FLT_S); (0, execute_FLE_S); (2, execute_FEQ_S)].
Definition execute_FSGN_D := by_funct3 [(0, execute_FSGNJ_D); (1, execute_FSGNJN_D); (2, execute_FSGNJX_D)].
Definition execute_FMINMAX_D := by_funct3 [(0, execute_FMIN_D); (1, execute_FMAX_D)].
Definition execute_FCMP_D := by_funct3 [(1, execute_FLT_D); (0, execute_FLE_D); (2, execute_FEQ_D)].

(** ** Conversions and moves *)

Definition execute_FCVT_S_D := execute_FCVT_F_F i_sfloat64 i_sfloat32 Sfloat.sfloat_cvt_f64_f32.
Definition execute_FCVT_D_S := execute_FCVT_F_F i_sfloat32 i_sfloat64 (fun s1 _ fflags => mret (Sfloat.sfloat_cvt_f32_f64 s1 fflags)).

(** To a word, which is sign-extended, and to a double word *)
Definition FCVT_W (F : i_sfloat) (IS_UNSIGNED : bool) := execute_FCVT_X_F F (fun s1 rm fflags =>
  let '(val, fflags) := Sfloat.cvt_f_i F 32 IS_UNSIGNED s1 rm fflags in (uint64 (int32 val), fflags)).
Definition FCVT_L (F : i_sfloat) (IS_UNSIGNED : bool) := execute_FCVT_X_F F (Sfloat.cvt_f_i F 64 IS_UNSIGNED).

(** From a word and from a double word *)
Definition FCVT_from_W (F : i_sfloat) := execute_FCVT_F_X F (fun s1 => Sfloat.cvt_i_f F 32 false (int32 s1)).
Definition FCVT_from_WU (F : i_sfloat) := execute_FCVT_F_X F (fun s1 => Sfloat.cvt_i_f F 32 true (uint32 s1)).
Definition FCVT_from_L (F : i_sfloat) := execute_FCVT_F_X F (fun s1 => Sfloat.cvt_i_f F 64 false (int64 s1)).
Definition FCVT_from_LU (F : i_sfloat) := execute_FCVT_F_X F (fun s1 => Sfloat.cvt_i_f F 64 true s1).

Definition execute_FCVT_W_S := FCVT_W i_sfloat32 false.
Definition execute_FCVT_WU_S := FCVT_W i_sfloat32 true.
Definition execute_FCVT_L_S := FCVT_L i_sfloat32 false.
Definition execute_FCVT_LU_S := FCVT_L i_sfloat32 true.
Definition execute_FCVT_W_D := FCVT_W i_sfloat64 false.
Definition execute_FCVT_WU_D := FCVT_W i_sfloat64 true.
Definition execute_FCVT_L_D := FCVT_L i_sfloat64 false.
Definition execute_FCVT_LU_D := FCVT_L i_sfloat64 true.
Definition execute_FCVT_S_W := FCVT_from_W i_sfloat32.
Definition execute_FCVT_S_WU := FCVT_from_WU i_sfloat32.
Definition execute_FCVT_S_L := FCVT_from_L i_sfloat32.
Definition execute_FCVT_S_LU := FCVT_from_LU i_sfloat32.
Definition execute_FCVT_D_W := FCVT_from_W i_sfloat64.
Definition execute_FCVT_D_WU := FCVT_from_WU i_sfloat64.
Definition execute_FCVT_D_L := FCVT_from_L i_sfloat64.
Definition execute_FCVT_D_LU := FCVT_from_LU i_sfloat64.

Definition execute_FMV_F_X (F : i_sfloat) (s : machine_state) (pc insn : Z) : insn_result :=
  if negb (insn_get_funct3 insn =? 0) then illegal s pc insn
  else
    let val := box F (uint (F_SIZE F) (read_x s (insn_get_rs1 insn))) in
    advance_to_next_insn (write_f s (insn_get_rd insn) val) pc 4 success.

Definition execute_FMV_W_X := execute_FMV_F_X i_sfloat32.
Definition execute_FMV_D_X := execute_FMV_F_X i_sfloat64.
Definition execute_FCLASS_S := execute_FCLASS i_sfloat32.
Definition execute_FCLASS_D := execute_FCLASS i_sfloat64.
Definition execute_FMV_X_W (s : machine_state) (pc insn : Z) : insn_result :=
  write_rd s pc insn (uint64 (int32 (uint32 (read_f s (insn_get_rs1 insn))))) 4 success.
Definition execute_FMV_X_D (s : machine_state) (pc insn : Z) : insn_result :=
  write_rd s pc insn (read_f s (insn_get_rs1 insn)) 4 success.

Definition execute_FMV_FCLASS_S := by_funct3 [(0, execute_FMV_X_W); (1, execute_FCLASS_S)].
Definition execute_FMV_FCLASS_D := by_funct3 [(0, execute_FMV_X_D); (1, execute_FCLASS_D)].

(** ** Dispatch *)

(** The [funct7] and [rs2] fields of the conversions and moves *)
Definition FCVT_FMV_FCLASS : list (Z * (machine_state -> Z -> Z -> insn_result)) := [
  (0xc00, execute_FCVT_W_S); (0xc01, execute_FCVT_WU_S);
  (0xc02, execute_FCVT_L_S); (0xc03, execute_FCVT_LU_S);
  (0xc20, execute_FCVT_W_D); (0xc21, execute_FCVT_WU_D);
  (0xc22, execute_FCVT_L_D); (0xc23, execute_FCVT_LU_D);
  (0x401, execute_FCVT_S_D);
  (0xd00, execute_FCVT_S_W); (0xd01, execute_FCVT_S_WU);
  (0xd02, execute_FCVT_S_L); (0xd03, execute_FCVT_S_LU);
  (0x420, execute_FCVT_D_S);
  (0xd20, execute_FCVT_D_W); (0xd21, execute_FCVT_D_WU);
  (0xd22, execute_FCVT_D_L); (0xd23, execute_FCVT_D_LU);
  (0xf00, execute_FMV_W_X); (0xf20, execute_FMV_D_X);
  (0xe00, execute_FMV_FCLASS_S); (0xe20, execute_FMV_FCLASS_D)].

Definition execute_FCVT_FMV_FCLASS (s : machine_state) (pc insn : Z) : insn_result :=
  match list_find (fun p => fst p = insn_get_funct7_rs2 insn) FCVT_FMV_FCLASS with
  | Some (_, (_, execute)) => execute s pc insn
  | None => illegal s pc insn
  end.

(** The [funct7] field of the operations *)
Definition FD_funct7 : list (Z * (machine_state -> Z -> Z -> insn_result)) := [
  (0x00, execute_FADD_S); (0x01, execute_FADD_D);
  (0x04, execute_FSUB_S); (0x05, execute_FSUB_D);
  (0x08, execute_FMUL_S); (0x09, execute_FMUL_D);
  (0x0c, execute_FDIV_S); (0x0d, execute_FDIV_D);
  (0x10, execute_FSGN_S); (0x11, execute_FSGN_D);
  (0x14, execute_FMINMAX_S); (0x15, execute_FMINMAX_D);
  (0x2c, execute_FSQRT_S); (0x2d, execute_FSQRT_D);
  (0x50, execute_FCMP_S); (0x51, execute_FCMP_D)].

Definition execute_FD (s : machine_state) (pc insn : Z) : insn_result :=
  if fs_off (s_mstatus s) then illegal s pc insn
  else
    match list_find (fun p => fst p = insn_get_funct7 insn) FD_funct7 with
    | Some (_, (_, execute)) => execute s pc insn
    | None => execute_FCVT_FMV_FCLASS s pc insn
    end.
