(* ===== verification/FloatInsnsSpec.v ===== *)
(** * The floating-point instructions keep the machine well formed

    The operations return encodings of their format, and the exception flags
    stay within the five bits of their field. *)

From S2P Require Import Prelude CppInt Constants RiscvConstants UarchAccess Bytes RV64IM UarchOps Pma MachineState UarchBridge UarchBridgeSpec DeviceAccess Clint Tlb Trap Csr CsrInsns HostMemory HostTlb VirtualMemory MachineOk TrapSpec PrivilegedSpec IntegerInsns IntegerInsnsSpec MemoryInsns SoftFloat FloatInsns.

(** ** Encodings *)

Definition format (F : i_sfloat) : Prop := F = i_sfloat32 \/ F = i_sfloat64.

(** An encoding and the flags *)
Definition result_ok (w : Z) (r : Z * Z) : Prop := is_uint w (fst r) /\ is_uint 5 (snd r).

Lemma flags_or f m : is_uint 5 f -> is_uint 5 m -> is_uint 5 (f |ᵇ m).
Proof. apply lor_uint. lia. Qed.

Create HintDb float.
#[export] Hint Resolve flags_or : float.
#[export] Hint Extern 2 (is_uint _ (if ?b then _ else _)) => destruct b : float.
#[export] Hint Extern 3 (is_uint _ _) => split; [discriminate 1|reflexivity] : float.

(** ** Mantissas

    The mantissas that are normalised are below [2 ^ (F_SIZE - 1)], so that their
    shift is to the left. *)

Lemma bit_ok w b : 1 <= w -> is_uint w (bit b).
Proof. intros Hw. pose proof (Z.pow_le_mono_r 2 1 w ltac:(lia) Hw). unfold is_uint. destruct b; cbn [bit]; lia. Qed.

Lemma clz_pos w x : 2 <= w -> is_uint (w - 1) x -> 1 <= clz w x.
Proof.
  intros Hw [H1 H2]. unfold clz. case_if; [lia|]. reflect_bools.
  apply Z.log2_lt_pow2 in H2; lia.
Qed.

Lemma clz_nonneg w x : 2 <= w -> is_uint w x -> 0 <= clz w x.
Proof. intros Hw Hx. pose proof (clz_pos (w + 1) x ltac:(lia)). rewrite Z.add_simpl_r in H. specialize (H Hx). unfold clz in *. case_if; lia. Qed.

Lemma shiftr_drop v w d : 0 <= d -> 0 <= w -> is_uint (w + d) v -> is_uint w (Z.shiftr v d).
Proof.
  unfold is_uint. intros Hd Hw [H1 H2]. rewrite Z.shiftr_div_pow2 by done. rewrite Z.pow_add_r in H2 by done.
  pose proof (pow2_pos d Hd). split; [by apply Z.div_pos|]. apply Z.div_lt_upper_bound; lia.
Qed.

Lemma shiftl_add v w d : 0 <= d -> 0 <= w -> is_uint w v -> is_uint (w + d) (Z.shiftl v d).
Proof.
  unfold is_uint. intros Hd Hw [H1 H2]. rewrite Z.shiftl_mul_pow2 by done. rewrite Z.pow_add_r by done.
  pose proof (pow2_pos d Hd). nia.
Qed.

Section mantissas.
Context (F : i_sfloat) (HF : format F).
Ltac by_format := destruct HF as [->| ->]; cbn [F_SIZE MANT_SIZE EXP_SIZE i_sfloat32 i_sfloat64] in *.

Lemma sizes : 24 <= F_SIZE F - 8 /\ 23 <= MANT_SIZE F <= F_SIZE F - 9 /\ 8 <= EXP_SIZE F /\ F_SIZE F = 1 + EXP_SIZE F + MANT_SIZE F.
Proof. by_format; lia. Qed.

Lemma f_shl_exact a w d : 0 <= d -> 0 <= w -> w + d <= F_SIZE F -> is_uint w a -> Sfloat.f_shl F a d = Z.shiftl a d.
Proof. intros Hd Hw Hs Ha. apply uint_id. apply (uint_mono (w + d)); [lia|]. by apply shiftl_add. Qed.

Lemma mant_of_ok a : is_uint (MANT_SIZE F) (Sfloat.mant_of F a).
Proof.
  pose proof sizes. unfold Sfloat.mant_of, Sfloat.MANT_MASK. rewrite Z.shiftl_1_l, land_ones_mod by lia.
  apply Z.mod_pos_bound, pow2_pos. lia.
Qed.

(** The sticky shift *)
Lemma rshift_rnd_ok w a d : 1 <= w -> is_uint w a -> is_uint w (Sfloat.mant_rshift_rnd F a d).
Proof.
  intros Hw Ha. unfold Sfloat.mant_rshift_rnd. case_if; [|done]. reflect_bools. case_if; [by apply bit_ok|].
  apply lor_uint; [lia| |by apply bit_ok]. apply shiftr_uint; [lia..|done].
Qed.

Lemma rshift_rnd_less w a d : 1 <= w -> 0 < d -> is_uint (w + 1) a -> is_uint w (Sfloat.mant_rshift_rnd F a d).
Proof.
  intros Hw Hd Ha. unfold Sfloat.mant_rshift_rnd. test (0 <? d) is true. case_if; [by apply bit_ok|].
  apply lor_uint; [lia| |by apply bit_ok]. apply shiftr_drop; [lia..|]. apply (uint_mono (w + 1)); [lia|done].
Qed.

(** With the implicit bit, or shifted to its place *)
Definition leading (m : Z) : Prop := 2 ^ MANT_SIZE F <= m < 2 ^ (MANT_SIZE F + 1).

Lemma leading_uint m : leading m -> is_uint (MANT_SIZE F + 1) m.
Proof. pose proof sizes. pose proof (pow2_pos (MANT_SIZE F)). unfold leading, is_uint. lia. Qed.

Lemma lor_one m w : 0 <= w -> is_uint w m -> m |ᵇ 2 ^ w = m + 2 ^ w.
Proof. intros Hw Hm. rewrite Z.lor_comm. pose proof (lor_add_low 1 m w Hw Hm) as H. rewrite Z.mul_1_l in H. rewrite H. lia. Qed.

Lemma normalized_leading a : Sfloat.is_zero F a = false -> leading (snd (Sfloat.normalized F a)).
Proof.
  pose proof sizes as Hs. pose proof (mant_of_ok a) as Hm. unfold Sfloat.is_zero, Sfloat.normalized, leading. intros Hz.
  rewrite Z.pow_add_r by lia. destruct (Sfloat.exp_of F a =? 0) eqn:E; cbn [snd andb] in *.
  - reflect_bools. unfold Sfloat.mant_normalize_subnormal, clz. cbn [snd]. set (m := Sfloat.mant_of F a) in *.
    rewrite (proj2 (Z.eqb_neq m 0)) by done. replace (F_SIZE F - 1 - (F_SIZE F - 1 - Z.log2 m)) with (Z.log2 m) by lia.
    assert (0 < m) as Hpos by (unfold is_uint in Hm; lia). pose proof (Z.log2_spec m Hpos) as [H1 H2].
    pose proof (Z.log2_nonneg m). assert (Z.log2 m < MANT_SIZE F) by (apply Z.log2_lt_pow2; [done|apply Hm]).
    rewrite (f_shl_exact m (Z.log2 m + 1)) by first [lia|split; [lia|by rewrite Z.add_1_r]].
    rewrite Z.shiftl_mul_pow2 by lia. rewrite Z.pow_succ_r in H2 by lia.
    assert (2 ^ MANT_SIZE F = 2 ^ Z.log2 m * 2 ^ (MANT_SIZE F - Z.log2 m)) as -> by (rewrite <- Z.pow_add_r by lia; f_equal; lia).
    pose proof (pow2_pos (MANT_SIZE F - Z.log2 m)). nia.
  - unfold Sfloat.implicit_one. rewrite (f_shl_exact 1 1) by first [lia|done]. rewrite Z.shiftl_1_l, lor_one by (done || lia).
    unfold is_uint in Hm. lia.
Qed.

(** The absolute value of an encoding *)
Lemma magnitude a : is_uint (F_SIZE F) a ->
  a &ᵇ Sfloat.f_not F (Sfloat.SIGN_MASK F) = Sfloat.exp_of F a * 2 ^ MANT_SIZE F + Sfloat.mant_of F a /\ 0 <= Sfloat.exp_of F a.
Proof.
  intros Ha. unfold Sfloat.exp_of, Sfloat.mant_of, Sfloat.EXP_MASK, Sfloat.MANT_MASK.
  rewrite !Z.shiftl_1_l, !land_ones_mod by (by_format; lia). rewrite Z.shiftr_div_pow2 by (by_format; lia).
  assert (Sfloat.f_not F (Sfloat.SIGN_MASK F) = 2 ^ (F_SIZE F - 1) - 1) as -> by (by_format; reflexivity).
  rewrite land_ones_mod by (by_format; lia). clear Ha.
  by_format; (split; [Z.div_mod_to_equations; lia|apply Z.mod_pos_bound; lia]).
Qed.
End mantissas.

(** ** Operations *)

Section operations.
Context (F : i_sfloat) (HF : format F).

Lemma F_SIZE_pos : 0 <= F_SIZE F.
Proof. by destruct HF as [->| ->]. Qed.
#[local] Hint Resolve F_SIZE_pos : float.

Lemma f_uint_ok z : is_uint (F_SIZE F) (Sfloat.f_uint F z).
Proof. apply uint_range. apply F_SIZE_pos. Qed.

Lemma pack_ok s e m : is_uint (F_SIZE F) (Sfloat.pack F s e m).
Proof.
  pose proof F_SIZE_pos. unfold Sfloat.pack. repeat apply lor_uint; try done; try apply f_uint_ok.
  apply (uint_mono (MANT_SIZE F)); [by destruct HF as [->| ->]|].
  unfold Sfloat.MANT_MASK. rewrite Z.shiftl_1_l, land_ones_mod by (by destruct HF as [->| ->]).
  apply Z.mod_pos_bound, pow2_pos. by destruct HF as [->| ->].
Qed.

Lemma qnan_ok : is_uint (F_SIZE F) (Sfloat.F_QNAN F).
Proof. by destruct HF as [->| ->]. Qed.

Lemma flag_if_ok b m f : is_uint 5 f -> is_uint 5 m -> is_uint 5 (Sfloat.flag_if b m f).
Proof. intros. destruct b; cbn; auto with float. Qed.
#[local] Hint Resolve f_uint_ok pack_ok qnan_ok flag_if_ok : float.

Lemma round_pack_ok s e m rm f : is_uint 5 f -> result_ok (F_SIZE F) (Sfloat.round_pack F s e m rm f).
Proof.
  intros Hf. unfold Sfloat.round_pack. cbv zeta.
  set (q := if e <=? 0 then _ else _). assert (is_uint 5 (snd q)) as Hq.
  { unfold q. case_if; cbn [snd]; [|done]. case_if; auto with float. }
  destruct q as [[[a_mant a_exp] rnd_bits] f1]. cbn [snd] in Hq.
  assert (is_uint 5 (if negb (rnd_bits =? 0) then f1 |ᵇ FFLAGS_NX_MASK else f1)) as Hf2 by (case_if; auto with float).
  repeat case_if; split; cbn [fst snd]; auto 6 with float.
Qed.

Lemma normalize_ok s e m rm f :
  is_uint (F_SIZE F - 1) m -> is_uint 5 f -> returns (Sfloat.normalize F s e m rm f) (result_ok (F_SIZE F)).
Proof.
  intros Hm Hf. pose proof (sizes F HF). pose proof (clz_pos (F_SIZE F) m ltac:(lia) Hm).
  unfold Sfloat.normalize, Sfloat.IMANT_SIZE. cbv zeta. test (_ <? 0) is false. by apply round_pack_ok.
Qed.

Lemma normalize2_ok s e m1 m0 rm f :
  is_uint (F_SIZE F - 1) m1 -> is_uint (F_SIZE F) m0 -> is_uint 5 f ->
  returns (Sfloat.normalize2 F s e m1 m0 rm f) (result_ok (F_SIZE F)).
Proof.
  intros Hm1 Hm0 Hf. pose proof (sizes F HF). pose proof (clz_pos (F_SIZE F) m1 ltac:(lia) Hm1).
  pose proof (clz_nonneg (F_SIZE F) m0 ltac:(lia) Hm0).
  unfold Sfloat.normalize2, Sfloat.IMANT_SIZE. cbv zeta. set (l := if m1 =? 0 then _ else _).
  assert (1 <= l) by (unfold l; case_if; lia). test (_ <? 0) is false. by apply round_pack_ok.
Qed.

Lemma pair_ok a f : is_uint (F_SIZE F) a -> is_uint 5 f -> result_ok (F_SIZE F) (a, f).
Proof. by split. Qed.
#[local] Hint Resolve normalize_ok normalize2_ok pair_ok : float.

(** Case analysis down to the results *)
Ltac results :=
  repeat (match goal with
  | |- result_ok _ (if ?c then _ else _) => destruct c
  | |- returns (if ?c then _ else _) _ => let E := fresh "E" in destruct c eqn:E
  | |- returns (Done _) _ => apply pair_ok
  | |- result_ok _ (let '(_, _) := ?p in _) => destruct p
  | |- result_ok _ (match ?p with _ => _ end) => destruct p
  end); auto with float.

(** Conversion to an integer *)
Lemma cvt_f_i_ok a rm f size uns : is_uint (F_SIZE F) a -> is_uint 5 f -> size = 32 \/ size = 64 -> result_ok size (Sfloat.cvt_f_i F size uns a rm f).
Proof.
  intros Ha Hf Hsz. assert (0 <= size) as Hs0 by lia. unfold Sfloat.cvt_f_i. cbv zeta.
  set (sg := if _ && _ then 0 else _). assert (0 <= sg <= 1) as Hsg.
  { unfold sg, Sfloat.sign_of. case_if; [lia|]. unfold is_uint in Ha. rewrite Z.shiftr_div_pow2 by (by destruct HF as [->| ->]).
    destruct HF as [->| ->]; cbn [F_SIZE i_sfloat32 i_sfloat64] in *; Z.div_mod_to_equations; lia. }
  set (r_max := if uns then _ else _). assert (is_uint size r_max) as Hmax.
  { unfold r_max. destruct uns; [by apply uint_range|]. unfold is_uint. rewrite Z.shiftl_1_l.
    assert (sg = 0 \/ sg = 1) as [-> | ->] by lia; destruct Hsz as [->| ->]; done. }
  destruct (if _ =? 0 then _ else _) as [a_exp a_mant].
  assert (forall z : Z, is_uint size (if negb (sg =? 0) then uint size (- z) else uint size z)) as Hsigned
    by (intros z; case_if; by apply uint_range).
  assert (forall z, is_uint size (if negb (sg =? 0) then uint size (- uint size z) else uint size z)) as Hsigned2
    by (intros z; case_if; by apply uint_range).
  repeat match goal with |- result_ok _ (if ?c then _ else _) => destruct c end;
    (split; cbn [fst snd]; [done || apply Hsigned2|auto with float]).
Qed.

Lemma negated_ok a : is_uint (F_SIZE F) a -> is_uint (F_SIZE F) (negated F a).
Proof. intros Ha. unfold negated. apply lxor_uint; [apply F_SIZE_pos|done|]. by destruct HF as [->| ->]. Qed.

(** *** Addition *)

Lemma guarded_mantissa x :
  Sfloat.f_shl F (Sfloat.mant_of F x) 3 = 8 * Sfloat.mant_of F x /\
  Sfloat.f_shl F (Sfloat.mant_of F x) 3 |ᵇ Sfloat.f_shl F 1 (MANT_SIZE F + 3) = 8 * Sfloat.mant_of F x + 8 * 2 ^ MANT_SIZE F.
Proof.
  pose proof (sizes F HF). pose proof (mant_of_ok F HF x) as Hm.
  rewrite (f_shl_exact F _ (MANT_SIZE F)), (f_shl_exact F 1 1) by first [lia|done].
  pose proof (shiftl_add _ (MANT_SIZE F) 3 ltac:(lia) ltac:(lia) Hm) as H1.
  rewrite Z.shiftl_1_l, lor_one by (done || lia). rewrite Z.shiftl_mul_pow2, Z.pow_add_r by lia. lia.
Qed.

(** The mantissa of the second operand, shifted to the exponent of the first, is
    at most that of the first. *)
Lemma aligned a b : is_uint (F_SIZE F) a -> is_uint (F_SIZE F) b ->
  b &ᵇ Sfloat.f_not F (Sfloat.SIGN_MASK F) <= a &ᵇ Sfloat.f_not F (Sfloat.SIGN_MASK F) ->
  let operand x := let m := Sfloat.f_shl F (Sfloat.mant_of F x) 3 in
    if Sfloat.exp_of F x =? 0 then (1, m) else (Sfloat.exp_of F x, m |ᵇ Sfloat.f_shl F 1 (MANT_SIZE F + 3)) in
  0 <= Sfloat.mant_rshift_rnd F (snd (operand b)) (fst (operand a) - fst (operand b)) <= snd (operand a) /\
  snd (operand a) < 2 ^ (MANT_SIZE F + 4).
Proof.
  intros Ha Hb Hle. pose proof (sizes F HF). destruct (magnitude F HF a Ha) as [Ea Ea0], (magnitude F HF b Hb) as [Eb Eb0].
  rewrite Ea, Eb in Hle. pose proof (mant_of_ok F HF a) as Hma. pose proof (mant_of_ok F HF b) as Hmb. unfold is_uint in Hma, Hmb.
  destruct (guarded_mantissa a) as [Ga0 Ga1], (guarded_mantissa b) as [Gb0 Gb1]. cbv beta zeta. rewrite Ga1, Gb1, Ga0, Gb0.
  assert (2 ^ (MANT_SIZE F + 4) = 16 * 2 ^ MANT_SIZE F) as E4 by (rewrite Z.pow_add_r by lia; lia).
  assert (2 ^ (MANT_SIZE F + 3) = 8 * 2 ^ MANT_SIZE F) as E3 by (rewrite Z.pow_add_r by lia; lia).
  assert (forall m, Sfloat.mant_rshift_rnd F m 0 = m) as E0 by done.
  pose proof (fun m d H1 => rshift_rnd_less F (MANT_SIZE F + 3) m d ltac:(lia) H1) as Hless.
  replace (MANT_SIZE F + 3 + 1) with (MANT_SIZE F + 4) in Hless by lia. unfold is_uint in Hless. rewrite E4, E3 in *.
  destruct (Z.eqb_spec (Sfloat.exp_of F a) 0) as [Za|Za], (Z.eqb_spec (Sfloat.exp_of F b) 0) as [Zb|Zb]; cbn [fst snd].
  - rewrite E0. nia.
  - exfalso. nia.
  - destruct (decide (Sfloat.exp_of F a = 1)) as [E1|]; [rewrite E1, E0; lia|].
    specialize (Hless (8 * Sfloat.mant_of F b) (Sfloat.exp_of F a - 1)). lia.
  - assert (Sfloat.exp_of F b <= Sfloat.exp_of F a) by nia.
    destruct (decide (Sfloat.exp_of F a = Sfloat.exp_of F b)) as [E1|]; [rewrite E1, Z.sub_diag, E0; nia|].
    specialize (Hless (8 * Sfloat.mant_of F b + 8 * 2 ^ MANT_SIZE F) (Sfloat.exp_of F a - Sfloat.exp_of F b)). lia.
Qed.

Lemma add_ordered_ok a b rm f : is_uint (F_SIZE F) a -> is_uint (F_SIZE F) b -> is_uint 5 f ->
  b &ᵇ Sfloat.f_not F (Sfloat.SIGN_MASK F) <= a &ᵇ Sfloat.f_not F (Sfloat.SIGN_MASK F) ->
  returns (Sfloat.add_ordered F a b rm f) (result_ok (F_SIZE F)).
Proof.
  intros Ha Hb Hf Hle. destruct (aligned a b Ha Hb Hle) as [H1 H2]. pose proof (sizes F HF).
  assert (2 ^ (MANT_SIZE F + 5) <= 2 ^ (F_SIZE F - 1)) as Hfit by (apply Z.pow_le_mono_r; lia).
  assert (2 ^ (F_SIZE F - 1) <= 2 ^ F_SIZE F) as Hfit2 by (apply Z.pow_le_mono_r; lia).
  replace (MANT_SIZE F + 5) with (MANT_SIZE F + 4 + 1) in Hfit by lia. rewrite (Z.pow_add_r 2 _ 1) in Hfit by lia.
  unfold Sfloat.add_ordered. cbv zeta. case_if; [results|]. cbv beta zeta in H1, H2.
  destruct (if Sfloat.exp_of F a =? 0 then _ else _) as [ea ma]. destruct (if Sfloat.exp_of F b =? 0 then _ else _) as [eb mb].
  cbn [fst snd] in *. set (mb' := Sfloat.mant_rshift_rnd F mb (ea - eb)) in *. unfold Sfloat.f_uint.
  case_if; (apply normalize_ok; [|done]); rewrite uint_id; unfold is_uint; lia.
Qed.

(** *** Multiplication *)

Lemma leading_shl m d : leading F m -> 0 <= d -> MANT_SIZE F + 1 + d <= F_SIZE F ->
  2 ^ (MANT_SIZE F + d) <= Sfloat.f_shl F m d < 2 ^ (MANT_SIZE F + 1 + d).
Proof.
  pose proof (sizes F HF). intros Hm Hd Hs. rewrite (f_shl_exact F m (MANT_SIZE F + 1)) by (lia || by apply leading_uint).
  unfold leading in Hm. pose proof (pow2_pos d Hd). rewrite Z.shiftl_mul_pow2, !Z.pow_add_r in * by lia. nia.
Qed.

(** The high word of a product of words of [n] and [k] bits *)
Lemma mul_high n k x y : is_uint n x -> is_uint k y -> 0 <= n -> 0 <= k -> F_SIZE F <= n + k <= 2 * F_SIZE F ->
  fst (mul_u (F_SIZE F) x y) = x * y / 2 ^ F_SIZE F /\ is_uint (n + k - F_SIZE F) (fst (mul_u (F_SIZE F) x y)).
Proof.
  pose proof (sizes F HF). intros Hx Hy Hn Hk Hs. cbn [mul_u fst].
  assert (is_uint (n + k - F_SIZE F + F_SIZE F) (x * y)) as Hxy.
  { rewrite Z.sub_add, <- (Z.shiftl_0_r (x * y)). unfold is_uint in *. rewrite Z.shiftl_0_r, Z.pow_add_r by lia. nia. }
  apply shiftr_drop in Hxy; [|lia..]. rewrite uint_id by (eapply uint_mono; [|exact Hxy]; lia).
  split; [by rewrite Z.shiftr_div_pow2 by lia|done].
Qed.

(** The mantissas of a product, at the top of their words *)
Lemma factors a b : Sfloat.is_zero F a || Sfloat.is_zero F b = false ->
  leading F (snd (Sfloat.normalized F a)) /\ leading F (snd (Sfloat.normalized F b)).
Proof. intros [Za Zb]%orb_false_iff. by split; apply normalized_leading. Qed.

Lemma mul_ok a b rm f : is_uint 5 f -> returns (Sfloat.mul F a b rm f) (result_ok (F_SIZE F)).
Proof.
  intros Hf. pose proof (sizes F HF). unfold Sfloat.mul. cbv zeta. case_if; [results|]. case_if; [results|].
  destruct (factors a b E0) as [Hla Hlb].
  destruct (Sfloat.normalized F a) as [ea ma], (Sfloat.normalized F b) as [eb mb]. cbn [snd] in *.
  assert (Sfloat.RND_SIZE F = F_SIZE F - 2 - MANT_SIZE F) as HR by done.
  pose proof (leading_shl ma (Sfloat.RND_SIZE F) Hla ltac:(lia) ltac:(lia)) as H1.
  pose proof (leading_shl mb (Sfloat.RND_SIZE F + 1) Hlb ltac:(lia) ltac:(lia)) as H2.
  replace (MANT_SIZE F + 1 + Sfloat.RND_SIZE F) with (F_SIZE F - 1) in H1 by lia.
  replace (MANT_SIZE F + 1 + (Sfloat.RND_SIZE F + 1)) with (F_SIZE F) in H2 by lia.
  destruct (mul_high (F_SIZE F - 1) (F_SIZE F) (Sfloat.f_shl F ma (Sfloat.RND_SIZE F)) (Sfloat.f_shl F mb (Sfloat.RND_SIZE F + 1)))
    as [_ Hp]; [split; [pose proof (pow2_pos (MANT_SIZE F + Sfloat.RND_SIZE F)); pose proof (pow2_pos (MANT_SIZE F + (Sfloat.RND_SIZE F + 1))); lia|lia]..|lia|lia|lia|].
  replace (F_SIZE F - 1 + F_SIZE F - F_SIZE F) with (F_SIZE F - 1) in Hp by lia.
  destruct (mul_u _ _ _) as [r1 r0]. cbn [fst] in Hp. apply normalize_ok; [|done]. apply lor_uint; [lia|done|apply bit_ok; lia].
Qed.

(** *** Fused multiplication and addition *)

Lemma shift_double_ok c1 c0 shift : is_uint (F_SIZE F - 2) c1 -> is_uint (F_SIZE F) c0 -> 0 < shift ->
  is_uint (F_SIZE F - 3) (fst (Sfloat.shift_double F c1 c0 shift)) /\ is_uint (F_SIZE F) (snd (Sfloat.shift_double F c1 c0 shift)).
Proof.
  intros H1 H0 Hs. pose proof (sizes F HF). assert (is_uint (F_SIZE F - 3) 0) as Hz by (split; [lia|apply pow2_pos; lia]).
  assert (is_uint (F_SIZE F) c1) as H1' by (eapply uint_mono; [|exact H1]; lia).
  unfold Sfloat.shift_double. repeat case_if; cbn [fst snd]; reflect_bools; try lia; (split; [first [done|idtac]|]).
  - apply bit_ok. lia.
  - apply rshift_rnd_ok; [lia|done].
  - apply lor_uint; [lia|done|apply bit_ok; lia].
  - apply shiftr_drop; [lia..|]. eapply uint_mono; [|exact H1]. lia.
  - repeat apply lor_uint; try lia; [apply f_uint_ok|apply shiftr_uint; [lia..|done]|apply bit_ok; lia].
Qed.

Lemma add_double_ok rs re r1 r0 cs ce c1 c0 rm f :
  2 ^ (F_SIZE F - 3) <= r1 < 2 ^ (F_SIZE F - 2) -> is_uint (F_SIZE F) r0 -> is_uint (F_SIZE F - 2) c1 -> is_uint (F_SIZE F) c0 ->
  ce < re \/ ce = re /\ (c1 < r1 \/ c1 = r1 /\ c0 <= r0) -> is_uint 5 f ->
  returns (Sfloat.add_double F rs re r1 r0 cs ce c1 c0 rm f) (result_ok (F_SIZE F)).
Proof.
  intros Hr1 Hr0 Hc1 Hc0 Hle Hf. pose proof (sizes F HF).
  assert (2 ^ (F_SIZE F - 1) = 4 * 2 ^ (F_SIZE F - 3) /\ 2 ^ (F_SIZE F - 2) = 2 * 2 ^ (F_SIZE F - 3) /\ 2 ^ F_SIZE F = 8 * 2 ^ (F_SIZE F - 3)) as (E1 & E2 & E3).
  { replace (F_SIZE F - 1) with (F_SIZE F - 3 + 2) by lia. replace (F_SIZE F - 2) with (F_SIZE F - 3 + 1) by lia.
    replace (F_SIZE F) with (F_SIZE F - 3 + 3) at 5 by lia. rewrite !Z.pow_add_r by lia. lia. }
  assert (exists d1 d0, Sfloat.shift_double F c1 c0 (re - ce) = (d1, d0) /\ is_uint (F_SIZE F - 2) d1 /\ is_uint (F_SIZE F) d0 /\
    (d1 < r1 \/ d1 = r1 /\ d0 <= r0)) as (d1 & d0 & E & Hd1 & Hd0 & Hd).
  { destruct Hle as [Hlt|[-> Hle]].
    - pose proof (shift_double_ok c1 c0 (re - ce) Hc1 Hc0 ltac:(lia)) as [H1 H0].
      destruct (Sfloat.shift_double _ _ _ _) as [d1 d0]. cbn [fst snd] in *. exists d1, d0.
      split_and!; [done|eapply uint_mono; [|exact H1]; lia|done|]. unfold is_uint in *. lia.
    - exists c1, c0. split; [|done]. rewrite Z.sub_diag. unfold Sfloat.shift_double.
      test (2 * _ <=? 0) is false. test (_ + 1 <=? 0) is false. test (0 =? F_SIZE F) is false. done. }
  unfold Sfloat.add_double. rewrite E. unfold is_uint in *. cbv zeta.
  assert (forall b, 0 <= bit b <= 1) as Hbit by (intros []; cbn; lia).
  case_if; (apply normalize2_ok; [|apply f_uint_ok|done]); unfold Sfloat.f_uint.
  - specialize (Hbit (uint (F_SIZE F) (r0 + d0) <? d0)). rewrite (uint_id _ (_ + _ + _)); unfold is_uint; lia.
  - specialize (Hbit (r0 <? uint (F_SIZE F) (r0 - d0))).
    assert (d0 <= r0 -> bit (r0 <? uint (F_SIZE F) (r0 - d0)) = 0) as Hb.
    { intros Hd'. rewrite uint_id by (unfold is_uint; lia). test (r0 <? _) is false. done. }
    rewrite (uint_id _ (_ - _ - _)); unfold is_uint; lia.
Qed.

(** The product of two mantissas, normalised to [F_SIZE - 2] bits *)
Lemma product_normalized ma mb : leading F ma -> leading F mb ->
  let '(r1, r0) := mul_u (F_SIZE F) (Sfloat.f_shl F ma (Sfloat.RND_SIZE F)) (Sfloat.f_shl F mb (Sfloat.RND_SIZE F)) in
  is_uint (F_SIZE F) r0 /\ r1 < 2 ^ (F_SIZE F - 2) /\
  (r1 < Sfloat.f_shl F 1 (F_SIZE F - 3) ->
   2 ^ (F_SIZE F - 3) <= Sfloat.f_shl F r1 1 |ᵇ Z.shiftr r0 (F_SIZE F - 1) < 2 ^ (F_SIZE F - 2)) /\
  Sfloat.f_shl F 1 (F_SIZE F - 3) = 2 ^ (F_SIZE F - 3).
Proof.
  intros Hla Hlb. pose proof (sizes F HF).
  assert (Sfloat.RND_SIZE F = F_SIZE F - 2 - MANT_SIZE F) as HR by done.
  pose proof (leading_shl ma (Sfloat.RND_SIZE F) Hla ltac:(lia) ltac:(lia)) as H1.
  pose proof (leading_shl mb (Sfloat.RND_SIZE F) Hlb ltac:(lia) ltac:(lia)) as H2.
  replace (MANT_SIZE F + 1 + Sfloat.RND_SIZE F) with (F_SIZE F - 1) in H1, H2 by lia.
  replace (MANT_SIZE F + Sfloat.RND_SIZE F) with (F_SIZE F - 2) in H1, H2 by lia.
  set (x := Sfloat.f_shl F ma _) in *. set (y := Sfloat.f_shl F mb _) in *. pose proof (pow2_pos (F_SIZE F - 2) ltac:(lia)).
  destruct (mul_high (F_SIZE F - 1) (F_SIZE F - 1) x y) as [Hd Hp]; [split; lia..|lia|lia|lia|].
  assert (is_uint (F_SIZE F) (snd (mul_u (F_SIZE F) x y))) as Hlow0 by apply f_uint_ok.
  destruct (mul_u _ _ _) as [r1 r0]. cbn [fst snd] in *.
  replace (F_SIZE F - 1 + (F_SIZE F - 1) - F_SIZE F) with (F_SIZE F - 2) in Hp by lia.
  assert (2 ^ (F_SIZE F - 4) <= r1) as Hlow.
  { rewrite Hd. apply Z.div_le_lower_bound; [apply pow2_pos; lia|]. rewrite <- Z.pow_add_r by lia.
    replace (F_SIZE F + (F_SIZE F - 4)) with (F_SIZE F - 2 + (F_SIZE F - 2)) by lia. rewrite Z.pow_add_r by lia. nia. }
  assert (Sfloat.f_shl F 1 (F_SIZE F - 3) = 2 ^ (F_SIZE F - 3)) as E3.
  { rewrite (f_shl_exact F 1 1) by first [lia|done]. by rewrite Z.shiftl_1_l. }
  split_and!; [done|apply Hp| |done]. rewrite E3. intros Hlt.
  rewrite (f_shl_exact F r1 (F_SIZE F - 3)) by first [lia|split; [pose proof (pow2_pos (F_SIZE F - 4)); lia|done]].
  assert (is_uint 1 (Z.shiftr r0 (F_SIZE F - 1))) as Hb.
  { apply shiftr_drop; [lia..|]. by replace (1 + (F_SIZE F - 1)) with (F_SIZE F) by lia. }
  rewrite Z.shiftl_mul_pow2 by lia. rewrite lor_add_low by (lia || exact Hb).
  replace (F_SIZE F - 2) with (F_SIZE F - 3 + 1) by lia. replace (F_SIZE F - 3) with (F_SIZE F - 4 + 1) in * by lia.
  rewrite !Z.pow_add_r in * by lia. unfold is_uint in Hb. lia.
Qed.

Lemma fma_ok a b c rm f : is_uint (F_SIZE F) c -> is_uint 5 f -> returns (Sfloat.fma F a b c rm f) (result_ok (F_SIZE F)).
Proof.
  intros Hc Hf. pose proof (sizes F HF). unfold Sfloat.fma. cbv zeta. case_if; [results|]. case_if; [results|].
  destruct (factors a b E0) as [Hla Hlb].
  destruct (Sfloat.normalized F a) as [ea ma], (Sfloat.normalized F b) as [eb mb]. cbn [snd] in *.
  pose proof (product_normalized ma mb Hla Hlb) as Hp. destruct (mul_u _ _ _) as [r1 r0]. destruct Hp as (Hr0 & Hr1 & Hnorm & E3).
  set (e := ea + eb - _ + 3).
  assert (exists s1 s0 e', (if r1 <? Sfloat.f_shl F 1 (F_SIZE F - 3)
      then (Sfloat.f_shl F r1 1 |ᵇ Z.shiftr r0 (F_SIZE F - 1), Sfloat.f_shl F r0 1, e - 1) else (r1, r0, e)) = (s1, s0, e') /\
    2 ^ (F_SIZE F - 3) <= s1 < 2 ^ (F_SIZE F - 2) /\ is_uint (F_SIZE F) s0) as (s1 & s0 & e' & -> & Hs1 & Hs0).
  { case_if; reflect_bools; eexists _, _, _; (split; [done|]); [split; [by apply Hnorm|apply f_uint_ok]|split; [lia|done]]. }
  pose proof (pow2_pos (F_SIZE F - 3) ltac:(lia)) as Hpos.
  case_if.
  - apply normalize_ok; [|done]. apply lor_uint; [lia| |apply bit_ok; lia]. eapply (uint_mono (F_SIZE F - 2)); [lia|]. unfold is_uint. lia.
  - pose proof (normalized_leading F HF c E1) as Hlc. destruct (Sfloat.normalized F c) as [ec mc]. cbn [snd] in Hlc.
    assert (Sfloat.RND_SIZE F = F_SIZE F - 2 - MANT_SIZE F) as HR by done.
    pose proof (leading_shl mc (Sfloat.RND_SIZE F - 1) Hlc ltac:(lia) ltac:(lia)) as H3.
    replace (MANT_SIZE F + 1 + (Sfloat.RND_SIZE F - 1)) with (F_SIZE F - 2) in H3 by lia.
    replace (MANT_SIZE F + (Sfloat.RND_SIZE F - 1)) with (F_SIZE F - 3) in H3 by lia.
    assert (is_uint (F_SIZE F) 0) by (split; [lia|apply pow2_pos; lia]).
    destruct (Z.ltb_spec (ec + 1) e'), (Z.eqb_spec e' (ec + 1)), (Z.leb_spec (Sfloat.f_shl F mc (Sfloat.RND_SIZE F - 1)) s1);
      cbn [negb orb andb]; apply add_double_ok; unfold is_uint in *; try done; lia.
Qed.

(** *** Division and square root *)

Lemma div_ok a b rm f : is_uint 5 f -> returns (Sfloat.div F a b rm f) (result_ok (F_SIZE F)).
Proof.
  intros Hf. pose proof (sizes F HF). unfold Sfloat.div. cbv zeta. repeat (case_if; [results|]).
  destruct (factors a b) as [Hla Hlb]; [by apply orb_false_iff|].
  destruct (Sfloat.normalized F a) as [ea ma], (Sfloat.normalized F b) as [eb mb]. cbn [snd divrem_u] in *.
  pose proof (leading_shl mb 2 Hlb ltac:(lia) ltac:(lia)) as Hb. set (y := Sfloat.f_shl F mb 2) in *.
  rewrite Z.lor_0_r, (Z.shiftl_mul_pow2 ma) by lia. pose proof (leading_uint F HF ma Hla) as Ha. unfold is_uint in Ha.
  assert (2 ^ (MANT_SIZE F + 1) = 2 * 2 ^ MANT_SIZE F /\ 2 ^ (MANT_SIZE F + 2) = 4 * 2 ^ MANT_SIZE F /\
    2 ^ F_SIZE F = 2 * 2 ^ (F_SIZE F - 1)) as (E1' & E2' & E3').
  { replace (F_SIZE F) with (F_SIZE F - 1 + 1) at 1 by lia. rewrite !Z.pow_add_r by lia. lia. }
  pose proof (pow2_pos (MANT_SIZE F)). pose proof (pow2_pos (F_SIZE F - 1)).
  assert (is_uint (F_SIZE F - 1) (ma * 2 ^ F_SIZE F / y)) as Hq.
  { split; [apply Z.div_pos; nia|]. apply Z.div_lt_upper_bound; [lia|]. rewrite E3'. nia. }
  rewrite (uint_id (F_SIZE F) (_ / _)) by (eapply uint_mono; [|exact Hq]; lia).
  apply normalize_ok; [|done]. case_if; [|done]. apply lor_uint; [lia|done|apply (bit_ok _ true); lia].
Qed.

Lemma sqrt_loop_le fuel long x s : 0 <= long -> 0 <= x -> 0 <= s -> 0 <= sqrt_loop fuel long x s <= s.
Proof.
  intros Hl Hx. revert s. induction fuel as [|fuel IH]; intros s Hs; [cbn; lia|]. cbn [sqrt_loop]. case_if; [|lia]. reflect_bools.
  pose proof (uint_range long (x / s + s) Hl) as Hu. unfold is_uint in Hu.
  specialize (IH (Z.shiftr (uint long (x / s + s)) 1)). rewrite Z.shiftr_nonneg in IH. lia.
Qed.

(** The first step goes below the start when that is above the root. *)
Lemma sqrt_loop_less fuel long x s : 0 <= long -> 0 <= x < s * s -> 0 < s -> sqrt_loop (S fuel) long x s < s.
Proof.
  intros Hl Hx Hs. cbn [sqrt_loop]. pose proof (uint_range long (x / s + s) Hl) as Hu. unfold is_uint in Hu.
  assert (x / s < s) as Hd by (apply Z.div_lt_upper_bound; lia).
  assert (0 <= x / s) as Hd0 by (apply Z.div_pos; lia).
  assert (uint long (x / s + s) <= x / s + s) as Hm by (apply Z.mod_le; [lia|by apply pow2_pos]).
  assert (Z.shiftr (uint long (x / s + s)) 1 < s) as Hlt.
  { rewrite Z.shiftr_div_pow2 by lia. apply Z.div_lt_upper_bound; lia. }
  test (_ <? s) is true. pose proof (sqrt_loop_le fuel long x (Z.shiftr (uint long (x / s + s)) 1) Hl ltac:(lia)) as H.
  rewrite Z.shiftr_nonneg in H. lia.
Qed.

(** The root of a double word of [2 * F_SIZE - 2] bits *)
Lemma sqrtrem_ok h : is_uint (F_SIZE F - 2) h -> is_uint (F_SIZE F - 1) (fst (sqrtrem_u (F_SIZE F) h 0)).
Proof.
  intros Hh. pose proof (sizes F HF). pose proof (pow2_pos (F_SIZE F - 1) ltac:(lia)) as Hp1. unfold sqrtrem_u. cbv zeta. case_if; [cbn; unfold is_uint; lia|].
  destruct (Z.eqb_spec h 0) as [Hz|Hz]; [by subst h|]. cbn [negb fst]. rewrite Z.lor_0_r.
  set (l := 2 * F_SIZE F - clz (F_SIZE F) (h - 1)). set (u := uint (2 * F_SIZE F) (Z.shiftl 1 ((l + 1) / 2))).
  unfold is_uint in Hh. pose proof (pow2_pos (F_SIZE F) ltac:(lia)) as Hp.
  assert (F_SIZE F <= l <= 2 * F_SIZE F - 2) as Hl.
  { unfold l, clz. case_if; [lia|]. reflect_bools. pose proof (Z.log2_nonneg (h - 1)).
    assert (Z.log2 (h - 1) < F_SIZE F - 2) by (apply Z.log2_lt_pow2; lia). lia. }
  assert (0 < u <= 2 ^ (F_SIZE F - 1)) as Hu.
  { assert (0 <= (l + 1) / 2 <= F_SIZE F - 1) as Hk by (Z.div_mod_to_equations; lia).
    unfold u. rewrite Z.shiftl_1_l, uint_id by (split; [apply Z.pow_nonneg; lia|apply Z.pow_lt_mono_r; lia]).
    split; [apply pow2_pos; lia|apply Z.pow_le_mono_r; lia]. }
  rewrite (Z.shiftl_mul_pow2 h) by lia. set (x := h * 2 ^ F_SIZE F).
  assert (0 <= x < 2 ^ (F_SIZE F - 1) * 2 ^ (F_SIZE F - 1)) as Hx.
  { rewrite <- Z.pow_add_r by lia. replace (F_SIZE F - 1 + (F_SIZE F - 1)) with (F_SIZE F - 2 + F_SIZE F) by lia.
    rewrite Z.pow_add_r by lia. unfold x. nia. }
  assert (is_uint (F_SIZE F - 1) (sqrt_loop (Z.to_nat (2 * F_SIZE F)) (2 * F_SIZE F) x u)) as Hs.
  { pose proof (sqrt_loop_le (Z.to_nat (2 * F_SIZE F)) (2 * F_SIZE F) x u ltac:(lia) ltac:(lia) ltac:(lia)).
    destruct (decide (u = 2 ^ (F_SIZE F - 1))) as [E1|]; [|unfold is_uint; lia].
    replace (Z.to_nat (2 * F_SIZE F)) with (S (Z.to_nat (2 * F_SIZE F - 1))) in * by lia.
    pose proof (sqrt_loop_less (Z.to_nat (2 * F_SIZE F - 1)) (2 * F_SIZE F) x u ltac:(lia) ltac:(rewrite E1; lia) ltac:(lia)). unfold is_uint. lia. }
  rewrite uint_id by (eapply uint_mono; [|exact Hs]; lia). done.
Qed.

Lemma sqrt_ok a rm f : is_uint (F_SIZE F) a -> is_uint 5 f -> returns (Sfloat.sqrt F a rm f) (result_ok (F_SIZE F)).
Proof.
  intros Ha Hf. pose proof (sizes F HF). unfold Sfloat.sqrt. cbv zeta. case_if; [results|]. case_if; [results|]. case_if; [results|].
  pose proof (normalized_leading F HF a E1) as Hla. destruct (Sfloat.normalized F a) as [ea ma]. cbn [snd] in *.
  assert (exists e m, (if negb (((ea - Sfloat.EXP_MASK F / 2) &ᵇ 1) =? 0) then (ea - Sfloat.EXP_MASK F / 2 - 1, Sfloat.f_shl F ma 1)
    else (ea - Sfloat.EXP_MASK F / 2, ma)) = (e, m) /\ is_uint (MANT_SIZE F + 2) m) as (e & m & -> & Hm).
  { case_if; eexists _, _; (split; [done|]).
    - pose proof (leading_shl ma 1 Hla ltac:(lia) ltac:(lia)). pose proof (pow2_pos (MANT_SIZE F + 1) ltac:(lia)).
      replace (MANT_SIZE F + 2) with (MANT_SIZE F + 1 + 1) by lia. split; lia.
    - eapply uint_mono; [|by apply leading_uint]. lia. }
  assert (is_uint (F_SIZE F - 2) (Sfloat.f_shl F m (F_SIZE F - 4 - MANT_SIZE F))) as Hh.
  { rewrite (f_shl_exact F m (MANT_SIZE F + 2)) by first [lia|done].
    replace (F_SIZE F - 2) with (MANT_SIZE F + 2 + (F_SIZE F - 4 - MANT_SIZE F)) by lia. apply shiftl_add; [lia..|done]. }
  pose proof (sqrtrem_ok _ Hh) as Hr. destruct (sqrtrem_u _ _ _) as [r i]. cbn [fst] in Hr.
  apply normalize_ok; [|done]. destruct i; [|done]. apply lor_uint; [lia|done|apply (bit_ok _ true); lia].
Qed.

(** From an integer *)
Lemma cvt_i_f_ok size uns v rm f : size = 32 \/ size = 64 -> is_uint 5 f ->
  returns (Sfloat.cvt_i_f F size uns v rm f) (result_ok (F_SIZE F)).
Proof.
  intros Hsz Hf. pose proof (sizes F HF). unfold Sfloat.cvt_i_f. cbv zeta.
  assert (exists s r, (if negb uns && (v <? 0) then (1, uint size (- uint size v)) else (0, uint size v)) = (s, r) /\ is_uint size r)
    as (s & r & -> & Hr) by (case_if; eexists _, _; (split; [done|apply uint_range; lia])).
  assert (forall l, l = size - clz size r - (F_SIZE F - 1) -> is_uint (F_SIZE F - 1 + Z.max 0 l) r) as Hl.
  { intros l ->. unfold clz. destruct (Z.eqb_spec r 0) as [->|Hr0]; [split; [lia|apply pow2_pos; lia]|].
    split; [unfold is_uint in Hr; lia|]. apply Z.log2_lt_pow2; [unfold is_uint in Hr|]; lia. }
  specialize (Hl _ eq_refl). set (l := size - clz size r - (F_SIZE F - 1)) in *.
  assert (forall m, is_uint (F_SIZE F - 1) m -> Sfloat.f_uint F m = m) as Hid by (intros m Hm; apply uint_id; eapply uint_mono; [|exact Hm]; lia).
  case_if; reflect_bools.
  - rewrite Z.max_r in Hl by lia. apply shiftr_drop in Hl; [|lia..].
    assert (is_uint (F_SIZE F - 1) (Z.shiftr r l |ᵇ bit (negb ((r &ᵇ (r &ᵇ (uint size (Z.shiftl 1 l) - 1))) =? 0)))) as Hm
      by (apply lor_uint; [lia|done|apply bit_ok; lia]).
    rewrite Hid by done. by apply normalize_ok.
  - rewrite Z.max_l, Z.add_0_r in Hl by lia. rewrite Hid by done. by apply normalize_ok.
Qed.

Context (a b c rm f : Z) (Ha : is_uint (F_SIZE F) a) (Hb : is_uint (F_SIZE F) b) (Hc : is_uint (F_SIZE F) c) (Hf : is_uint 5 f).

Lemma add_ok : returns (Sfloat.add F a b rm f) (result_ok (F_SIZE F)).
Proof. unfold Sfloat.add. case_if; reflect_bools; apply add_ordered_ok; done || lia. Qed.

Lemma min_ok : result_ok (F_SIZE F) (Sfloat.min F a b f).
Proof. unfold Sfloat.min, Sfloat.min_max_nan. cbv zeta. results. Qed.

Lemma max_ok : result_ok (F_SIZE F) (Sfloat.max F a b f).
Proof. unfold Sfloat.max, Sfloat.min_max_nan. cbv zeta. results. Qed.

Lemma cmp_flags_ok :
  is_uint 5 (snd (Sfloat.eq F a b f)) /\ is_uint 5 (snd (Sfloat.le F a b f)) /\ is_uint 5 (snd (Sfloat.lt F a b f)).
Proof.
  unfold Sfloat.eq, Sfloat.le, Sfloat.lt. split; [|split]; repeat case_if; cbn [snd]; auto with float.
Qed.

Lemma fclass_ok : is_uint 64 (Sfloat.fclass F a).
Proof. unfold Sfloat.fclass. repeat case_if; done. Qed.
End operations.

Lemma cvt_f32_f64_ok a f : is_uint 5 f -> result_ok 64 (Sfloat.sfloat_cvt_f32_f64 a f).
Proof.
  intros Hf. assert (format i_sfloat64) as H64 by (by right). pose proof (pack_ok _ H64) as Hp. cbn [F_SIZE i_sfloat64] in Hp.
  unfold Sfloat.sfloat_cvt_f32_f64. cbv zeta. destruct (Sfloat.unpack _ a) as [[s e] m].
  repeat (match goal with |- result_ok _ (if ?c then _ else _) => destruct c end); try (split; [first [apply Hp|done]|cbn [snd]; auto using flag_if_ok with float]).
  destruct (if e =? 0 then _ else _) as [? ?]. split; [apply Hp|done].
Qed.

Lemma cvt_f64_f32_ok a rm f : is_uint 64 a -> is_uint 5 f -> returns (Sfloat.sfloat_cvt_f64_f32 a rm f) (result_ok 32).
Proof.
  intros Ha Hf. assert (format i_sfloat32) as H32 by (by left). pose proof (pack_ok _ H32) as Hp. cbn [F_SIZE i_sfloat32] in Hp.
  assert (format i_sfloat64) as H64 by (by right). pose proof (mant_of_ok i_sfloat64 H64 a) as Hm. cbn [MANT_SIZE i_sfloat64] in Hm.
  unfold Sfloat.sfloat_cvt_f64_f32, Sfloat.unpack. cbv zeta.
  do 2 (case_if; [repeat case_if; cbn [returns]; (split; [first [apply Hp|done]|cbn [snd]; auto using flag_if_ok with float])|]).
  set (e := Sfloat.exp_of i_sfloat64 a) in *. set (m := Sfloat.mant_of i_sfloat64 a) in *.
  assert (exists e' m', (if e =? 0 then (fst (Sfloat.mant_normalize_subnormal i_sfloat64 m), m)
    else (e, m |ᵇ Sfloat.implicit_one i_sfloat64)) = (e', m') /\ is_uint 53 m') as (e' & m' & -> & Hm').
  { assert (is_uint 53 m) as Hm53 by (eapply uint_mono; [|exact Hm]; lia).
    case_if; eexists _, _; (split; [done|]); [done|]. by apply lor_uint. }
  change (MANT_SIZE i_sfloat64 - (32 - 2)) with 22. unfold Sfloat.mant_rshift_rnd. test (0 <? 22) is true.
  change (F_SIZE i_sfloat64 <=? 22) with false. cbv iota zeta.
  set (q := Z.shiftr m' 22 |ᵇ _). assert (is_uint 31 q) as Hq.
  { apply lor_uint; [lia|by apply (shiftr_drop m' 31 22)|by apply bit_ok]. }
  rewrite (uint_id 32 q) by (eapply uint_mono; [|exact Hq]; lia). by apply (normalize_ok i_sfloat32).
Qed.

(** ** Handlers *)

Lemma read_f_range u s r : machine_ok u s -> is_uint 64 (read_f s r).
Proof.
  intros Hs. unfold read_f. destruct (decide (Z.to_nat r < length (s_f s))%nat) as [Hlt|].
  - eapply Forall_lookup_1; [apply (ok_f u s Hs)|]. by apply lookup_total_nth_Z.
  - rewrite nth_overflow by lia. done.
Qed.

Section handlers.
Context (u : fixed) (k : rd_kind).

Section format.
Context (F : i_sfloat) (HF : format F).

Lemma format_64 v : is_uint (F_SIZE F) v -> is_uint 64 v.
Proof. apply uint_mono. by destruct HF as [->| ->]. Qed.

Lemma box_ok v : is_uint (F_SIZE F) v -> is_uint 64 (box F v).
Proof.
  intros Hv. unfold box, float_box. apply format_64 in Hv. case_if; [|done].
  apply lor_uint; [lia|done|apply uint_range; lia].
Qed.

Lemma read_boxed_ok s r : is_uint (F_SIZE F) (read_boxed F s r).
Proof. unfold read_boxed, float_unbox. case_if; [by apply qnan_ok|apply uint_range, F_SIZE_pos, HF]. Qed.

Lemma fflags_of_ok fcsr : is_uint 5 (fflags_of fcsr).
Proof.
  unfold fflags_of. change FCSR_FFLAGS_RW_MASK with (2 ^ 5 - 1). rewrite land_ones_mod by lia.
  pose proof (Z.mod_pos_bound fcsr (2 ^ 5) ltac:(lia)) as H. rewrite uint_id; [exact H|]. eapply (uint_mono 5); [lia|exact H].
Qed.

Lemma with_fflags_ok fcsr f : is_uint 64 fcsr -> is_uint 5 f -> is_uint 64 (with_fflags fcsr f).
Proof.
  intros H Hf. unfold with_fflags. apply lor_uint; [lia|by apply land_uint|].
  eapply (uint_mono 5); [lia|done].
Qed.

Lemma finish_f_ok s pc insn r : machine_ok u s -> pc_ok pc -> result_ok (F_SIZE F) r -> returns (finish_f F s pc insn r) (insn_ok u).
Proof.
  intros Hs Hpc [H1 H2]. unfold finish_f. apply advance_ok; try done. apply ok_assign_fcsr.
  - apply ok_write_f; [done|by apply box_ok].
  - apply with_fflags_ok; [apply Hs|done].
Qed.

Lemma finish_x_ok s pc insn r : machine_ok u s -> pc_ok pc -> result_ok 64 r -> returns (finish_x s pc insn r) (insn_ok u).
Proof.
  intros Hs Hpc [H1 H2]. unfold finish_x. apply write_rd_ok; try done. apply ok_assign_fcsr; [done|].
  apply with_fflags_ok; [apply Hs|done].
Qed.

(** Operations of one to three operands, with a rounding mode or without *)
Ltac operation :=
  intros Hf s pc insn Hs Hpc Hi _;
  cbv beta delta [execute_float_ternary_op_rm execute_float_binary_op_rm execute_float_unary_op_rm execute_float_binary_op
    execute_FCVT_F_F execute_FCVT_X_F execute_FCVT_F_X];
  repeat match goal with |- returns (if ?c then _ else _) _ => destruct c; [by apply illegal_ok|] end;
  try (destruct (rounding_mode s insn); [|by apply illegal_ok]);
  first [apply finish_f_ok; try done; apply Hf|apply finish_x_ok; try done; apply Hf
        |eapply returns_then; [apply Hf|intros r Hr; by apply finish_f_ok]];
  eauto using read_boxed_ok, fflags_of_ok, read_x_range.

Lemma ternary_rm_ok f :
  (forall a b c rm fl, is_uint (F_SIZE F) a -> is_uint (F_SIZE F) b -> is_uint (F_SIZE F) c -> is_uint 5 fl ->
    returns (f a b c rm fl) (result_ok (F_SIZE F))) -> handler_ok u k (execute_float_ternary_op_rm F f).
Proof. operation. Qed.

Lemma binary_rm_ok f :
  (forall a b rm fl, is_uint (F_SIZE F) a -> is_uint (F_SIZE F) b -> is_uint 5 fl -> returns (f a b rm fl) (result_ok (F_SIZE F))) ->
  handler_ok u k (execute_float_binary_op_rm F f).
Proof. operation. Qed.

Lemma unary_rm_ok f :
  (forall a rm fl, is_uint (F_SIZE F) a -> is_uint 5 fl -> returns (f a rm fl) (result_ok (F_SIZE F))) ->
  handler_ok u k (execute_float_unary_op_rm F f).
Proof. operation. Qed.

Lemma binary_ok f :
  (forall a b fl, is_uint (F_SIZE F) a -> is_uint (F_SIZE F) b -> is_uint 5 fl -> result_ok (F_SIZE F) (f a b fl)) ->
  handler_ok u k (execute_float_binary_op F f).
Proof. operation. Qed.

Lemma cmp_ok f : (forall a b fl, is_uint 5 fl -> is_uint 5 (snd (f a b fl))) -> handler_ok u k (execute_float_cmp_op F f).
Proof.
  intros Hf s pc insn Hs Hpc Hi _. unfold execute_float_cmp_op.
  specialize (Hf (read_boxed F s (insn_get_rs1 insn)) (read_boxed F s (insn_get_rs2 insn)) _ (fflags_of_ok (s_fcsr s))).
  destruct (f _ _ _) as [v fl]. apply finish_x_ok; try done. split; [by destruct v|done].
Qed.

Lemma to_integer_ok f :
  (forall a rm fl, is_uint (F_SIZE F) a -> is_uint 5 fl -> result_ok 64 (f a rm fl)) -> handler_ok u k (execute_FCVT_X_F F f).
Proof. operation. Qed.

Lemma from_integer_ok f :
  (forall a rm fl, is_uint 64 a -> is_uint 5 fl -> returns (f a rm fl) (result_ok (F_SIZE F))) -> handler_ok u k (execute_FCVT_F_X F f).
Proof. operation. Qed.

End format.

(** ** Dispatch *)

(** The hypothesis on the same handler, after the name it has in a table is unfolded *)
Ltac same_handler :=
  lazymatch goal with |- handler_ok ?u ?k ?g =>
    let g' := eval red in g in
    match goal with H : handler_ok _ _ ?f |- _ => first [constr_eq f g|constr_eq f g']; exact H end
  end.

Lemma by_funct2_ok f g : handler_ok u k f -> handler_ok u k g -> handler_ok u k (by_funct2 f g).
Proof.
  intros Hf Hg s pc insn Hs Hpc Hi Hk. unfold by_funct2. cbv zeta.
  repeat case_if; [by apply illegal_ok|by apply Hf|by apply Hg|by apply illegal_ok].
Qed.

Lemma by_key_ok (key : Z) (l : list (Z * (machine_state -> Z -> Z -> insn_result))) (g : Z -> Z) :
  Forall (fun p => handler_ok u k (snd p)) l ->
  forall d, handler_ok u k d -> forall s pc insn,
  machine_ok u s -> pc_ok pc -> is_uint 32 insn -> (k = rd_xN -> insn_get_rd insn <> 0) ->
  returns (match list_find (fun p => g (fst p) = key) l with Some (_, (_, execute)) => execute s pc insn | None => d s pc insn end)
    (insn_ok u).
Proof.
  intros Hl d Hd s pc insn Hs Hpc Hi Hk. destruct (list_find _ l) as [[i [c f]]|] eqn:E; [|by apply Hd].
  apply list_find_Some in E as (E & _). apply (Forall_lookup_1 _ _ _ _ Hl) in E. by apply E.
Qed.

Lemma illegal_handler_ok : handler_ok u k illegal.
Proof. intros s pc insn Hs Hpc Hi _. by apply illegal_ok. Qed.

Lemma by_funct3_ok l : Forall (fun p => handler_ok u k (snd p)) l -> handler_ok u k (by_funct3 l).
Proof.
  intros Hl s pc insn. exact (by_key_ok (insn_get_funct3_000000000000 insn) l (fun z => Z.shiftl z 12) Hl illegal illegal_handler_ok s pc insn).
Qed.

Lemma format_32 : format i_sfloat32.
Proof. by left. Qed.
Lemma format_double : format i_sfloat64.
Proof. by right. Qed.
#[local] Hint Resolve format_32 format_double add_ok mul_ok fma_ok div_ok sqrt_ok min_ok max_ok cvt_i_f_ok negated_ok pair_ok : float.

(** Groups of operations of the two formats *)
Section both.
Context (F : i_sfloat) (HF : format F).

Lemma fused_ok : Forall (handler_ok u k) (map (fun f => f F) [FMADD; FMSUB; FNMADD; FNMSUB]).
Proof. repeat (apply Forall_cons; split); [..|by apply Forall_nil]; apply ternary_rm_ok; try done; intros; cbv beta; auto 8 with float. Qed.

Lemma arithmetic_float_ok : Forall (handler_ok u k) (map (fun f => f F) [FADD; FSUB; FMUL; FDIV]).
Proof. repeat (apply Forall_cons; split); [..|by apply Forall_nil]; apply binary_rm_ok; try done; intros; cbv beta; auto 8 with float. Qed.

Lemma FSQRT_ok : handler_ok u k (FSQRT F).
Proof. apply unary_rm_ok; try done; intros; auto with float. Qed.

Lemma signs_ok : Forall (handler_ok u k) (map (fun f => f F) [FSGNJ; FSGNJN; FSGNJX; FMIN; FMAX]).
Proof.
  pose proof (F_SIZE_pos F HF) as Hp. assert (is_uint (F_SIZE F) (Sfloat.SIGN_MASK F)) as Hm by (by destruct HF as [->| ->]).
  repeat (apply Forall_cons; split); [..|by apply Forall_nil]; apply binary_ok; auto with float;
    intros a b fl Ha Hb Hf; apply pair_ok; try done.
  - apply lor_uint; [done|by apply land_uint|by apply land_uint].
  - apply lor_uint; [done|by apply land_uint|]. apply lxor_uint; [done|by apply land_uint|done].
  - apply lxor_uint; [done..|by apply land_uint].
Qed.

Lemma comparisons_ok : Forall (handler_ok u k) (map (fun f => f F) [FLE; FLT; FEQ]).
Proof.
  repeat (apply Forall_cons; split); [..|by apply Forall_nil]; apply cmp_ok; intros a b fl Hf; by apply cmp_flags_ok.
Qed.

Lemma to_integers_ok uns : handler_ok u k (FCVT_W F uns) /\ handler_ok u k (FCVT_L F uns).
Proof.
  split; apply to_integer_ok; try done; intros a rm fl Ha Hf.
  - pose proof (cvt_f_i_ok F HF a rm fl 32 uns Ha Hf ltac:(lia)) as H. destruct (Sfloat.cvt_f_i _ _ _ _ _ _) as [v fl'].
    split; [apply uint_range; lia|apply H].
  - apply cvt_f_i_ok; try done. lia.
Qed.

Lemma from_integers_ok : Forall (handler_ok u k) (map (fun f => f F) [FCVT_from_W; FCVT_from_WU; FCVT_from_L; FCVT_from_LU; execute_FMV_F_X; execute_FCLASS]).
Proof.
  repeat (apply Forall_cons; split); [..|by apply Forall_nil]; try (apply from_integer_ok; try done; intros; cbv beta; auto with float).
  - intros s pc insn Hs Hpc Hi _. unfold execute_FMV_F_X. case_if; [by apply illegal_ok|]. cbv zeta. apply advance_ok; try done.
    apply ok_write_f; [done|]. apply box_ok, uint_range, F_SIZE_pos; done.
  - intros s pc insn Hs Hpc Hi _. apply write_rd_ok; try done. apply fclass_ok.
Qed.
End both.

Lemma fused_handlers_ok : Forall (handler_ok u k) [execute_FMADD; execute_FMSUB; execute_FNMADD; execute_FNMSUB].
Proof.
  pose proof (fused_ok _ format_32) as H1. pose proof (fused_ok _ format_double) as H2. cbn [map] in *. split_all.
  repeat (apply Forall_cons; split); [..|by apply Forall_nil]; apply by_funct2_ok; same_handler.
Qed.

Lemma conversions_ok : Forall (fun p => handler_ok u k (snd p)) FCVT_FMV_FCLASS.
Proof.
  pose proof (from_integers_ok _ format_32) as H1. pose proof (from_integers_ok _ format_double) as H2. cbn [map] in *.
  pose proof (to_integers_ok _ format_32 true) as [? ?]. pose proof (to_integers_ok _ format_32 false) as [? ?].
  pose proof (to_integers_ok _ format_double true) as [? ?]. pose proof (to_integers_ok _ format_double false) as [? ?].
  split_all.
  assert (handler_ok u k execute_FCVT_S_D).
  { intros s pc insn Hs Hpc Hi _. unfold execute_FCVT_S_D, execute_FCVT_F_F. destruct (rounding_mode s insn); [|by apply illegal_ok].
    eapply returns_then; [apply cvt_f64_f32_ok; [apply (read_boxed_ok i_sfloat64), format_double|apply fflags_of_ok]|].
    intros r Hr. apply (finish_f_ok i_sfloat32); auto with float. }
  assert (handler_ok u k execute_FCVT_D_S).
  { intros s pc insn Hs Hpc Hi _. unfold execute_FCVT_D_S, execute_FCVT_F_F. destruct (rounding_mode s insn); [|by apply illegal_ok].
    apply (finish_f_ok i_sfloat64); auto with float. apply cvt_f32_f64_ok, fflags_of_ok. }
  assert (handler_ok u k execute_FMV_X_W /\ handler_ok u k execute_FMV_X_D) as [? ?].
  { split; intros s pc insn Hs Hpc Hi _; (apply write_rd_ok; [exact Hs|exact Hpc| |done|done]).
    - apply uint_range. lia.
    - by apply (read_f_range u). }
  repeat (apply Forall_cons; split; [cbn [snd]; first [same_handler|apply by_funct3_ok]|]);
    repeat (apply Forall_cons; split; [cbn [snd]; same_handler|]); by apply Forall_nil.
Qed.

Lemma execute_FCVT_FMV_FCLASS_ok : handler_ok u k execute_FCVT_FMV_FCLASS.
Proof.
  intros s pc insn. exact (by_key_ok (insn_get_funct7_rs2 insn) FCVT_FMV_FCLASS id conversions_ok illegal illegal_handler_ok s pc insn).
Qed.

Lemma FD_funct7_ok : Forall (fun p => handler_ok u k (snd p)) FD_funct7.
Proof.
  pose proof (arithmetic_float_ok _ format_32) as H1. pose proof (arithmetic_float_ok _ format_double) as H2.
  pose proof (signs_ok _ format_32) as H3. pose proof (signs_ok _ format_double) as H4.
  pose proof (comparisons_ok i_sfloat32) as H5. pose proof (comparisons_ok i_sfloat64) as H6.
  pose proof (FSQRT_ok _ format_32). pose proof (FSQRT_ok _ format_double). cbn [map] in *. split_all.
  repeat (apply Forall_cons; split; [cbn [snd]; first [same_handler|apply by_funct3_ok]|]); try (by apply Forall_nil);
    repeat (apply Forall_cons; split; [cbn [snd]; same_handler|]); by apply Forall_nil.
Qed.

Lemma execute_FD_ok : handler_ok u k execute_FD.
Proof.
  intros s pc insn Hs Hpc Hi Hk. unfold execute_FD. destruct (fs_off _); [by apply illegal_ok|].
  exact (by_key_ok (insn_get_funct7 insn) FD_funct7 id FD_funct7_ok _ execute_FCVT_FMV_FCLASS_ok s pc insn Hs Hpc Hi Hk).
Qed.

End handlers.
