(* ===== verification/JumpTable.v ===== *)
(** * The jump table of the interpreter (tools/gen-interpret-jump-table.lua)

    The script that generates the table from the instructions of the
    architecture.  An entry is the label of the case of the interpreter that
    executes the instructions with the same lower 16 bits. *)

From Stdlib Require Import Ascii.
From S2P Require Import Prelude CppInt Constants.

#[local] Open Scope string_scope.
#[local] Open Scope list_scope.
#[local] Open Scope Z_scope.

(** ** The instructions *)

(** [bits] has a digit for a fixed bit and an underscore for the others. *)
Record insn := Insn { bits : string; name : string; rd0_special : bool; rm : bool }.

Definition spec_insns : list insn := [
  Insn "_________________________0110111" "LUI" true false;
  Insn "_________________________0010111" "AUIPC" true false;
  Insn "_________________________1101111" "JAL" true false;
  Insn "_________________000_____1100111" "JALR" true false;
  Insn "_________________000_____1100011" "BEQ" false false;
  Insn "_________________001_____1100011" "BNE" false false;
  Insn "_________________100_____1100011" "BLT" false false;
  Insn "_________________101_____1100011" "BGE" false false;
  Insn "_________________110_____1100011" "BLTU" false false;
  Insn "_________________111_____1100011" "BGEU" false false;
  Insn "_________________000_____0000011" "LB" true false;
  Insn "_________________001_____0000011" "LH" true false;
  Insn "_________________010_____0000011" "LW" true false;
  Insn "_________________100_____0000011" "LBU" true false;
  Insn "_________________101_____0000011" "LHU" true false;
  Insn "_________________000_____0100011" "SB" false false;
  Insn "_________________001_____0100011" "SH" false false;
  Insn "_________________010_____0100011" "SW" false false;
  Insn "_________________000_____0010011" "ADDI" true false;
  Insn "_________________010_____0010011" "SLTI" true false;
  Insn "_________________011_____0010011" "SLTIU" true false;
  Insn "_________________100_____0010011" "XORI" true false;
  Insn "_________________110_____0010011" "ORI" true false;
  Insn "_________________111_____0010011" "ANDI" true false;
  Insn "000000___________001_____0010011" "SLLI" true false;
  Insn "000000___________101_____0010011" "SRLI" true false;
  Insn "010000___________101_____0010011" "SRAI" true false;
  Insn "0000000__________000_____0110011" "ADD" true false;
  Insn "0100000__________000_____0110011" "SUB" true false;
  Insn "0000000__________001_____0110011" "SLL" true false;
  Insn "0000000__________010_____0110011" "SLT" true false;
  Insn "0000000__________011_____0110011" "SLTU" true false;
  Insn "0000000__________100_____0110011" "XOR" true false;
  Insn "0000000__________101_____0110011" "SRL" true false;
  Insn "0100000__________101_____0110011" "SRA" true false;
  Insn "0000000__________110_____0110011" "OR" true false;
  Insn "0000000__________111_____0110011" "AND" true false;
  Insn "_________________000_____0001111" "FENCE" false false;
  Insn "00000000000000000000000001110011" "ECALL" false false;
  Insn "00000000000100000000000001110011" "EBREAK" false false;
  Insn "_________________110_____0000011" "LWU" true false;
  Insn "_________________011_____0000011" "LD" true false;
  Insn "_________________011_____0100011" "SD" false false;
  Insn "_________________000_____0011011" "ADDIW" true false;
  Insn "0000000__________001_____0011011" "SLLIW" true false;
  Insn "0000000__________101_____0011011" "SRLIW" true false;
  Insn "0100000__________101_____0011011" "SRAIW" true false;
  Insn "0000000__________000_____0111011" "ADDW" true false;
  Insn "0100000__________000_____0111011" "SUBW" true false;
  Insn "0000000__________001_____0111011" "SLLW" true false;
  Insn "0000000__________101_____0111011" "SRLW" true false;
  Insn "0100000__________101_____0111011" "SRAW" true false;
  Insn "0000001__________000_____0110011" "MUL" true false;
  Insn "0000001__________001_____0110011" "MULH" true false;
  Insn "0000001__________010_____0110011" "MULHSU" true false;
  Insn "0000001__________011_____0110011" "MULHU" true false;
  Insn "0000001__________100_____0110011" "DIV" true false;
  Insn "0000001__________101_____0110011" "DIVU" true false;
  Insn "0000001__________110_____0110011" "REM" true false;
  Insn "0000001__________111_____0110011" "REMU" true false;
  Insn "0000001__________000_____0111011" "MULW" true false;
  Insn "0000001__________100_____0111011" "DIVW" true false;
  Insn "0000001__________101_____0111011" "DIVUW" true false;
  Insn "0000001__________110_____0111011" "REMW" true false;
  Insn "0000001__________111_____0111011" "REMUW" true false;
  Insn "00010__00000_____010_____0101111" "LR.W" false false;
  Insn "00011____________010_____0101111" "SC.W" false false;
  Insn "00001____________010_____0101111" "AMOSWAP.W" false false;
  Insn "00000____________010_____0101111" "AMOADD.W" false false;
  Insn "00100____________010_____0101111" "AMOXOR.W" false false;
  Insn "01100____________010_____0101111" "AMOAND.W" false false;
  Insn "01000____________010_____0101111" "AMOOR.W" false false;
  Insn "10000____________010_____0101111" "AMOMIN.W" false false;
  Insn "10100____________010_____0101111" "AMOMAX.W" false false;
  Insn "11000____________010_____0101111" "AMOMINU.W" false false;
  Insn "11100____________010_____0101111" "AMOMAXU.W" false false;
  Insn "00010__00000_____011_____0101111" "LR.D" false false;
  Insn "00011____________011_____0101111" "SC.D" false false;
  Insn "00001____________011_____0101111" "AMOSWAP.D" false false;
  Insn "00000____________011_____0101111" "AMOADD.D" false false;
  Insn "00100____________011_____0101111" "AMOXOR.D" false false;
  Insn "01100____________011_____0101111" "AMOAND.D" false false;
  Insn "01000____________011_____0101111" "AMOOR.D" false false;
  Insn "10000____________011_____0101111" "AMOMIN.D" false false;
  Insn "10100____________011_____0101111" "AMOMAX.D" false false;
  Insn "11000____________011_____0101111" "AMOMINU.D" false false;
  Insn "11100____________011_____0101111" "AMOMAXU.D" false false;
  Insn "_________________010_____0000111" "FLW" false false;
  Insn "_________________010_____0100111" "FSW" false false;
  Insn "_____00__________________1000011" "FMADD.S" false true;
  Insn "_____00__________________1000111" "FMSUB.S" false true;
  Insn "_____00__________________1001011" "FNMSUB.S" false true;
  Insn "_____00__________________1001111" "FNMADD.S" false true;
  Insn "0000000__________________1010011" "FADD.S" false true;
  Insn "0000100__________________1010011" "FSUB.S" false true;
  Insn "0001000__________________1010011" "FMUL.S" false true;
  Insn "0001100__________________1010011" "FDIV.S" false true;
  Insn "010110000000_____________1010011" "FSQRT.S" false true;
  Insn "0010000__________000_____1010011" "FSGNJ.S" false false;
  Insn "0010000__________001_____1010011" "FSGNJN.S" false false;
  Insn "0010000__________010_____1010011" "FSGNJX.S" false false;
  Insn "0010100__________000_____1010011" "FMIN.S" false false;
  Insn "0010100__________001_____1010011" "FMAX.S" false false;
  Insn "110000000000_____________1010011" "FCVT.W.S" false true;
  Insn "110000000001_____________1010011" "FCVT.WU.S" false true;
  Insn "111000000000_____000_____1010011" "FMV.X.W" false false;
  Insn "1010000__________010_____1010011" "FEQ.S" false false;
  Insn "1010000__________001_____1010011" "FLT.S" false false;
  Insn "1010000__________000_____1010011" "FLE.S" false false;
  Insn "111000000000_____001_____1010011" "FCLASS.S" false false;
  Insn "110100000000_____________1010011" "FCVT.S.W" false true;
  Insn "110100000001_____________1010011" "FCVT.S.WU" false true;
  Insn "111100000000_____000_____1010011" "FMV.W.X" false false;
  Insn "110000000010_____________1010011" "FCVT.L.S" false true;
  Insn "110000000011_____________1010011" "FCVT.LU.S" false true;
  Insn "110100000010_____________1010011" "FCVT.S.L" false true;
  Insn "110100000011_____________1010011" "FCVT.S.LU" false true;
  Insn "_________________011_____0000111" "FLD" false false;
  Insn "_________________011_____0100111" "FSD" false false;
  Insn "_____01__________________1000011" "FMADD.D" false true;
  Insn "_____01__________________1000111" "FMSUB.D" false true;
  Insn "_____01__________________1001011" "FNMSUB.D" false true;
  Insn "_____01__________________1001111" "FNMADD.D" false true;
  Insn "0000001__________________1010011" "FADD.D" false true;
  Insn "0000101__________________1010011" "FSUB.D" false true;
  Insn "0001001__________________1010011" "FMUL.D" false true;
  Insn "0001101__________________1010011" "FDIV.D" false true;
  Insn "010110100000_____________1010011" "FSQRT.D" false true;
  Insn "0010001__________000_____1010011" "FSGNJ.D" false false;
  Insn "0010001__________001_____1010011" "FSGNJN.D" false false;
  Insn "0010001__________010_____1010011" "FSGNJX.D" false false;
  Insn "0010101__________000_____1010011" "FMIN.D" false false;
  Insn "0010101__________001_____1010011" "FMAX.D" false false;
  Insn "010000000001_____________1010011" "FCVT.S.D" false true;
  Insn "010000100000_____________1010011" "FCVT.D.S" false true;
  Insn "1010001__________010_____1010011" "FEQ.D" false false;
  Insn "1010001__________001_____1010011" "FLT.D" false false;
  Insn "1010001__________000_____1010011" "FLE.D" false false;
  Insn "111000100000_____001_____1010011" "FCLASS.D" false true;
  Insn "110000100000_____________1010011" "FCVT.W.D" false true;
  Insn "110000100001_____________1010011" "FCVT.WU.D" false true;
  Insn "110100100000_____________1010011" "FCVT.D.W" false true;
  Insn "110100100001_____________1010011" "FCVT.D.WU" false true;
  Insn "110000100010_____________1010011" "FCVT.L.D" false true;
  Insn "110000100011_____________1010011" "FCVT.LU.D" false true;
  Insn "111000100000_____000_____1010011" "FMV.X.D" false false;
  Insn "110100100010_____________1010011" "FCVT.D.L" false true;
  Insn "110100100011_____________1010011" "FCVT.D.LU" false true;
  Insn "111100100000_____000_____1010011" "FMV.D.X" false false;
  Insn "_________________001_____0001111" "FENCE.I" false false;
  Insn "_________________001_____1110011" "CSRRW" false false;
  Insn "_________________010_____1110011" "CSRRS" false false;
  Insn "_________________011_____1110011" "CSRRC" false false;
  Insn "_________________101_____1110011" "CSRRWI" false false;
  Insn "_________________110_____1110011" "CSRRSI" false false;
  Insn "_________________111_____1110011" "CSRRCI" false false;
  Insn "00010000001000000000000001110011" "SRET" false false;
  Insn "00110000001000000000000001110011" "MRET" false false;
  Insn "01110000001000000000000001110011" "MNRET" false false;
  Insn "00010000010100000000000001110011" "WFI" false false;
  Insn "0001001__________000000001110011" "SFENCE.VMA" false false].

(** ** Text *)

Definition concat (l : list string) : string := String.concat "" l.

(** [gsub] of a character *)
Fixpoint gsub (from to : ascii) (s : string) : string :=
  match s with
  | EmptyString => EmptyString
  | String c s => String (if Ascii.eqb c from then to else c) (gsub from to s)
  end.

(** [s:sub(i, j)] *)
Definition sub (s : string) (i j : nat) : string := String.substring (i - 1) (j - i + 1) s.

Fixpoint tobase2 (num : Z) (nbits : nat) : string :=
  match nbits with
  | O => ""
  | S n => (if Z.testbit num (Z.of_nat n) then "1" else "0") +:+ tobase2 num n
  end.

Fixpoint frombase2_from (acc : Z) (s : string) : Z :=
  match s with
  | EmptyString => acc
  | String c s => frombase2_from (2 * acc + (if Ascii.eqb c "1" then 1 else 0)) s
  end.
Definition frombase2 : string -> Z := frombase2_from 0.

(** ** Compressed instructions *)

(** The loops [for i = first, last] *)
Definition for_ (first last : Z) (f : Z -> list (string * string)) : list (string * string) :=
  List.flat_map f (seqZ first (last - first + 1)).

Definition add_c_insn (l : list string) (name : string) : list (string * string) := [(concat l, gsub "." "_" name)].

(** The bits of an instruction with an immediate split around [rd] *)
Definition split_imm (funct3 op : string) (rd imm : Z) : list string :=
  [funct3; tobase2 (Z.land imm 1) 1; tobase2 rd 5; tobase2 (Z.shiftr imm 1) 5; op].
Definition split_imm3 (funct3 funct2 op : string) (rd imm : Z) : list string :=
  [funct3; tobase2 (Z.land imm 1) 1; funct2; tobase2 rd 3; tobase2 (Z.shiftr imm 1) 5; op].

Definition quadrant_0 : list (string * string) :=
  for_ 0 7 (fun rd => for_ 1 255 (fun imm => add_c_insn ["000"; tobase2 imm 8; tobase2 rd 3; "00"] "C.ADDI4SPN"))
  ++ for_ 0 2047 (fun mid =>
       add_c_insn ["001"; tobase2 mid 11; "00"] "C.FLD" ++ add_c_insn ["010"; tobase2 mid 11; "00"] "C.LW"
       ++ add_c_insn ["011"; tobase2 mid 11; "00"] "C.LD" ++ add_c_insn ["101"; tobase2 mid 11; "00"] "C.FSD"
       ++ add_c_insn ["110"; tobase2 mid 11; "00"] "C.SW" ++ add_c_insn ["111"; tobase2 mid 11; "00"] "C.SD").

Definition quadrant_1 : list (string * string) :=
  for_ 0 31 (fun rd => for_ 0 63 (fun imm =>
    (if rd =? 0 then add_c_insn (split_imm "000" "01" rd imm) (if negb (imm =? 0) then "C.NOP" else "C.HINT")
     else add_c_insn (split_imm "000" "01" rd imm) (if negb (imm =? 0) then "C.ADDI" else "C.HINT")
          ++ add_c_insn (split_imm "001" "01" rd imm) "C.ADDIW")
    ++ add_c_insn (split_imm "010" "01" rd imm) (if negb (rd =? 0) then "C.LI" else "C.HINT")
    ++ (if negb (imm =? 0) then
          if rd =? 2 then add_c_insn (split_imm "011" "01" rd imm) (if negb (rd =? 0) then "C.ADDI16SP" else "C.HINT")
          else add_c_insn (split_imm "011" "01" rd imm) (if negb (rd =? 0) then "C.LUI" else "C.HINT")
        else [])))
  ++ for_ 0 7 (fun rd => for_ 0 63 (fun imm =>
       add_c_insn (split_imm3 "100" "00" "01" rd imm) (if negb (imm =? 0) then "C.SRLI" else "C.HINT")
       ++ add_c_insn (split_imm3 "100" "01" "01" rd imm) (if negb (imm =? 0) then "C.SRAI" else "C.HINT")
       ++ add_c_insn (split_imm3 "100" "10" "01" rd imm) "C.ANDI"))
  ++ for_ 0 7 (fun rs1 => for_ 0 7 (fun rs2 =>
       add_c_insn ["100011"; tobase2 rs1 3; "00"; tobase2 rs2 3; "01"] "C.SUB"
       ++ add_c_insn ["100011"; tobase2 rs1 3; "01"; tobase2 rs2 3; "01"] "C.XOR"
       ++ add_c_insn ["100011"; tobase2 rs1 3; "10"; tobase2 rs2 3; "01"] "C.OR"
       ++ add_c_insn ["100011"; tobase2 rs1 3; "11"; tobase2 rs2 3; "01"] "C.AND"
       ++ add_c_insn ["100111"; tobase2 rs1 3; "00"; tobase2 rs2 3; "01"] "C.SUBW"
       ++ add_c_insn ["100111"; tobase2 rs1 3; "01"; tobase2 rs2 3; "01"] "C.ADDW"))
  ++ for_ 0 2047 (fun mid =>
       add_c_insn ["101"; tobase2 mid 11; "01"] "C.J" ++ add_c_insn ["110"; tobase2 mid 11; "01"] "C.BEQZ"
       ++ add_c_insn ["111"; tobase2 mid 11; "01"] "C.BNEZ").

Definition quadrant_2 : list (string * string) :=
  for_ 0 31 (fun rd => for_ 0 63 (fun imm =>
    add_c_insn (split_imm "000" "10" rd imm) (if negb (imm =? 0) && negb (rd =? 0) then "C.SLLI" else "C.HINT")
    ++ add_c_insn (split_imm "001" "10" rd imm) "C.FLDSP"
    ++ (if negb (rd =? 0) then
          add_c_insn (split_imm "010" "10" rd imm) "C.LWSP" ++ add_c_insn (split_imm "011" "10" rd imm) "C.LDSP"
        else [])
    ++ (let rs2 := rd in
        add_c_insn ["101"; tobase2 imm 6; tobase2 rs2 5; "10"] "C.FSDSP"
        ++ add_c_insn ["110"; tobase2 imm 6; tobase2 rs2 5; "10"] "C.SWSP"
        ++ add_c_insn ["111"; tobase2 imm 6; tobase2 rs2 5; "10"] "C.SDSP")))
  ++ for_ 0 31 (fun rs1 => for_ 0 31 (fun rs2 =>
       if rs2 =? 0 then
         if rs1 =? 0 then add_c_insn ["1001"; tobase2 rs1 5; tobase2 rs2 5; "10"] "C.EBREAK"
         else add_c_insn ["1000"; tobase2 rs1 5; tobase2 rs2 5; "10"] "C.JR"
              ++ add_c_insn ["1001"; tobase2 rs1 5; tobase2 rs2 5; "10"] "C.JALR"
       else
         add_c_insn ["1000"; tobase2 rs1 5; tobase2 rs2 5; "10"] (if negb (rs1 =? 0) then "C.MV" else "C.HINT")
         ++ add_c_insn ["1001"; tobase2 rs1 5; tobase2 rs2 5; "10"] (if negb (rs1 =? 0) then "C.ADD" else "C.HINT"))).

Definition c_insns : list (string * string) := quadrant_0 ++ quadrant_1 ++ quadrant_2.

Definition c_insn_by_idx : gmap Z string :=
  list_to_map (map (fun p => (frombase2 (fst p), snd p)) c_insns).

(** ** Rounding modes *)

Definition valid_rms : list string := ["000"; "001"; "010"; "011"; "100"; "111"].

(** The instructions with a rounding mode are listed once for each valid one;
    the first replaces the entry, the others are appended. *)
Definition with_rm (i : insn) (m : string) : string := sub (bits i) 1 17 +:+ m +:+ sub (bits i) 21 32.

Definition insns : list insn :=
  map (fun i => if rm i then Insn (with_rm i "000") (name i) (rd0_special i) false else i) spec_insns
  ++ List.flat_map (fun i => if rm i then map (fun m => Insn (with_rm i m) (name i) false false) (tail valid_rms) else [])
       spec_insns.

(** ** Groups *)

Definition group_names : list (string * string) := [
  ("ADD|SUB|MUL", "ADD_MUL_SUB");
  ("ADDW|SUBW|MULW", "ADDW_MULW_SUBW");
  ("SRL|SRA|DIVU", "SRL_DIVU_SRA");
  ("SRLW|SRAW|DIVUW", "SRLW_DIVUW_SRAW");
  ("LR.W|SC.W|AMOSWAP.W|AMOADD.W|AMOXOR.W|AMOAND.W|AMOOR.W|AMOMIN.W|AMOMAX.W|AMOMINU.W|AMOMAXU.W", "AMO_W");
  ("LR.D|SC.D|AMOSWAP.D|AMOADD.D|AMOXOR.D|AMOAND.D|AMOOR.D|AMOMIN.D|AMOMAX.D|AMOMINU.D|AMOMAXU.D", "AMO_D");
  ("FMADD.S|FMADD.D", "FMADD");
  ("FMSUB.S|FMSUB.D", "FMSUB");
  ("FNMADD.S|FNMADD.D", "FNMADD");
  ("FNMSUB.S|FNMSUB.D", "FNMSUB");
  ("FADD.S|FSUB.S|FMUL.S|FDIV.S|FSQRT.S|FSGNJ.S|FMIN.S|FCVT.W.S|FCVT.WU.S|FMV.X.W|FLE.S|FCVT.S.W|FCVT.S.WU|FMV.W.X|FCVT.L.S|FCVT.LU.S|FCVT.S.L|FCVT.S.LU|FADD.D|FSUB.D|FMUL.D|FDIV.D|FSQRT.D|FSGNJ.D|FMIN.D|FCVT.S.D|FCVT.D.S|FLE.D|FCLASS.D|FCVT.W.D|FCVT.WU.D|FCVT.D.W|FCVT.D.WU|FCVT.L.D|FCVT.LU.D|FMV.X.D|FCVT.D.L|FCVT.D.LU|FMV.D.X", "FD");
  ("FSGNJN.S|FMAX.S|FLT.S|FCLASS.S|FSGNJN.D|FMAX.D|FLT.D|FADD.S|FSUB.S|FMUL.S|FDIV.S|FSQRT.S|FCVT.W.S|FCVT.WU.S|FCVT.S.W|FCVT.S.WU|FCVT.L.S|FCVT.LU.S|FCVT.S.L|FCVT.S.LU|FADD.D|FSUB.D|FMUL.D|FDIV.D|FSQRT.D|FCVT.S.D|FCVT.D.S|FCLASS.D|FCVT.W.D|FCVT.WU.D|FCVT.D.W|FCVT.D.WU|FCVT.L.D|FCVT.LU.D|FCVT.D.L|FCVT.D.LU", "FD");
  ("FSGNJX.S|FEQ.S|FSGNJX.D|FEQ.D|FADD.S|FSUB.S|FMUL.S|FDIV.S|FSQRT.S|FCVT.W.S|FCVT.WU.S|FCVT.S.W|FCVT.S.WU|FCVT.L.S|FCVT.LU.S|FCVT.S.L|FCVT.S.LU|FADD.D|FSUB.D|FMUL.D|FDIV.D|FSQRT.D|FCVT.S.D|FCVT.D.S|FCLASS.D|FCVT.W.D|FCVT.WU.D|FCVT.D.W|FCVT.D.WU|FCVT.L.D|FCVT.LU.D|FCVT.D.L|FCVT.D.LU", "FD");
  ("FADD.S|FSUB.S|FMUL.S|FDIV.S|FSQRT.S|FCVT.W.S|FCVT.WU.S|FCVT.S.W|FCVT.S.WU|FCVT.L.S|FCVT.LU.S|FCVT.S.L|FCVT.S.LU|FADD.D|FSUB.D|FMUL.D|FDIV.D|FSQRT.D|FCVT.S.D|FCVT.D.S|FCLASS.D|FCVT.W.D|FCVT.WU.D|FCVT.D.W|FCVT.D.WU|FCVT.L.D|FCVT.LU.D|FCVT.D.L|FCVT.D.LU", "FD");
  ("ECALL|EBREAK|SRET|MRET|MNRET|WFI|SFENCE.VMA", "PRIVILEGED");
  ("SFENCE.VMA", "PRIVILEGED")].

(** ** The table *)

Definition lmask_bits : nat := 4.
Definition rmask_bits : nat := 7.

Definition underscore : ascii := "_".

Fixpoint matchmask (bits mask : string) : bool :=
  match bits, mask with
  | String b bits, String m mask =>
      if negb (Ascii.eqb b underscore) && negb (Ascii.eqb m underscore) && negb (Ascii.eqb b m) then false
      else matchmask bits mask
  | _, _ => true
  end.

Definition mask_of (i : Z) : string :=
  "________________" +:+ tobase2 (Z.shiftr i 7) lmask_bits +:+ "_____" +:+ tobase2 i rmask_bits.

(** The names that match, without repetitions, and [rd0_special] while they agree *)
Fixpoint matches_of (mask : string) (l : list insn) (matches : list string) (special : bool) : list string * bool :=
  match l with
  | [] => (matches, special)
  | i :: l =>
      if matchmask (bits i) mask && negb (bool_decide (name i ∈ matches)) then
        matches_of mask l (matches ++ [name i])
          (if bool_decide (matches = []) then rd0_special i
           else if bool_decide (special = rd0_special i) then special else false)
      else matches_of mask l matches special
  end.

Definition group_name (namekey : string) : string :=
  match list_find (fun p => fst p = namekey) group_names with
  | Some (_, (_, name)) => name
  | None => gsub "|" "_" (gsub "." "_" namekey)
  end.

(** The name of an entry and whether it depends on [rd] *)
Definition mask_name (i : Z) : string * bool :=
  let '(matches, special) := matches_of (mask_of i) insns [] false in
  let name := group_name (String.concat "|" matches) in
  (if bool_decide (name = "") then "ILLEGAL" else name, special).

(** The entry at [idx]: the bits 15 to 12, [rd] and the opcode *)
Definition insn_jumptable (idx : Z) : string :=
  let i := Z.lor (Z.shiftl (Z.shiftr idx 12) 7) (Z.land idx 127) in
  let rd := Z.land (Z.shiftr idx 7) 31 in
  let '(name, special) := mask_name i in
  let ename := if special : bool then name +:+ (if rd =? 0 then "_rd0" else "_rdN") else name in
  if bool_decide (ename = "ILLEGAL") then default ename (c_insn_by_idx !! idx) else ename.
