(* ===== verification/Interpret.v ===== *)
(** * The interpreter (interpret.cpp)

    The execution of one instruction, by the label of the jump table; the loops
    over cycles, between the ticks of the real-time clock and between
    interruptions; and the reasons for which they stop.

    The loops take fuel; the callers pass the number of cycles that are left,
    and each iteration takes at least one.

    The file is built without assertions by default (Makefile:198) and with them
    for debugging (Makefile:203): [asserts] tells which, for the assertions on the
    state of the machine between instructions and at the end. *)

From S2P Require Import Prelude CppInt Constants RiscvConstants Bytes Pma MachineState UarchState DeviceAccess Clint Tlb Trap Csr CsrInsns TranslateVirtualAddress VirtualMemory IntegerInsns MemoryInsns SoftFloat FloatInsns JumpTable.

(** The status, the program counter, the cycle and the state *)
Abbreviation step_result := (outcome (execute_status * Z * Z * hart)).
Abbreviation handler := (hart -> Z -> Z -> Z -> step_result).

(** ** Interrupts from outside (state-access.h)

    In unreproducible mode the machine waits on the host for its devices.  What
    the host answers is an argument: whether a device raised an interrupt, the
    time left of the wait, the clock before and after, and the state that the
    devices left. *)

Record host_events := HostEvents {
  interrupt_raised : bool; timeout_left : Z; start_us : Z; end_us : Z; after_poll : hart;
}.

Definition RTC_CLOCK_FREQ : Z := 128000000.
Definition RTC_CYCLES_PER_US : Z := RTC_CLOCK_FREQ / 1000000.

Section interpreter.

(** Whether the build has the assertions *)
Context (asserts : bool).

(** The callbacks of the devices, by name, each of which returns; the host: state,
    cycle, timeout *)
Context (driver : string -> pma_driver) (poll_host : hart -> Z -> Z -> host_events).

Definition poll_external_interrupts (h : hart) (mcycle mcycle_max : Z) : Z * bool * hart :=
  if negb (s_iunrep (h_s h) =? 0) then
    let timeout_us := uint64 (mcycle_max - mcycle) / RTC_CYCLES_PER_US in
    let e := poll_host h mcycle timeout_us in
    let mcycle :=
      if 0 <? timeout_left e then
        let elapsed_us := uint64 (Z.max (end_us e - start_us e) 0) in
        let next_mcycle := uint64 (mcycle + uint64 (elapsed_us * RTC_CYCLES_PER_US)) in
        Z.min (Z.max next_mcycle mcycle) mcycle_max
      else mcycle in
    (mcycle, interrupt_raised e, after_poll e)
  else (mcycle, false, h).

(** ** Privileged instructions *)

Definition execute_WFI (h : hart) (pc mcycle insn : Z) : step_result :=
  let prv := s_iprv (h_s h) in
  let mstatus := s_mstatus (h_s h) in
  if (prv =? PRV_U) || ((prv <? PRV_M) && negb ((mstatus &ᵇ MSTATUS_TW_MASK) =? 0)) then
    '(status, pc, s) ← raise_illegal_insn_exception (h_s h) pc insn; mret (status, pc, mcycle, set_s s h)
  else
    let mcycle_max := rtc_time_to_cycle (mtimecmp (s_clint (h_s h))) in
    let '(mcycle, status, h) :=
      if mcycle <? mcycle_max then
        let '(next_mcycle, interrupted, h) := poll_external_interrupts h mcycle mcycle_max in
        (next_mcycle, (if interrupted : bool then success_and_serve_interrupts else success), h)
      else (mcycle, success, h) in
    '(status, pc, h) ← advance h pc 4 status; mret (status, pc, mcycle, h).

(** Handlers that reach the state of the machine, also the cycle, also the devices *)
Definition on_state (f : machine_state -> Z -> Z -> insn_result) (h : hart) (pc mcycle insn : Z) : step_result :=
  '(status, pc, s) ← f (h_s h) pc insn; mret (status, pc, mcycle, set_s s h).
Definition on_csr (f : machine_state -> Z -> Z -> Z -> insn_result) (h : hart) (pc mcycle insn : Z) : step_result :=
  '(status, pc, s) ← f (h_s h) pc mcycle insn; mret (status, pc, mcycle, set_s s h).
Definition on_hart (f : hart -> Z -> Z -> Z -> hart_result) (h : hart) (pc mcycle insn : Z) : step_result :=
  '(status, pc, h) ← f h pc mcycle insn; mret (status, pc, mcycle, h).

Definition execute_privileged (h : hart) (pc mcycle insn : Z) : step_result :=
  if insn =? 0x00000073 then on_state execute_ECALL h pc mcycle insn
  else if insn =? 0x00100073 then on_state execute_EBREAK h pc mcycle insn
  else if insn =? 0x10200073 then on_state execute_SRET h pc mcycle insn
  else if insn =? 0x30200073 then on_state execute_MRET h pc mcycle insn
  else if insn =? 0x10500073 then execute_WFI h pc mcycle insn
  else on_state execute_SFENCE_VMA h pc mcycle insn.

(** ** The switch

    Its cases, by the comments that divide them in the code *)

Definition insn_cases_IM : list (string * handler) := [
  ("LUI_rdN", on_state (execute_LUI rd_xN));
  ("AUIPC_rdN", on_state (execute_AUIPC rd_xN));
  ("JAL_rd0", on_state (execute_JAL rd_x0));
  ("JAL_rdN", on_state (execute_JAL rd_xN));
  ("JALR_rd0", on_state (execute_JALR rd_x0));
  ("JALR_rdN", on_state (execute_JALR rd_xN));
  ("BEQ", on_state execute_BEQ);
  ("BNE", on_state execute_BNE);
  ("BLT", on_state execute_BLT);
  ("BGE", on_state execute_BGE);
  ("BLTU", on_state execute_BLTU);
  ("BGEU", on_state execute_BGEU);
  ("ADDI_rdN", on_state (execute_ADDI rd_xN));
  ("SLTI_rdN", on_state (execute_SLTI rd_xN));
  ("SLTIU_rdN", on_state (execute_SLTIU rd_xN));
  ("XORI_rdN", on_state (execute_XORI rd_xN));
  ("ORI_rdN", on_state (execute_ORI rd_xN));
  ("ANDI_rdN", on_state (execute_ANDI rd_xN));
  ("SLLI_rdN", on_state (execute_SLLI rd_xN));
  ("SRLI_SRAI_rdN", on_state (execute_SRLI_SRAI rd_xN));
  ("ADD_MUL_SUB_rdN", on_state (execute_ADD_MUL_SUB rd_xN));
  ("SLL_MULH_rdN", on_state (execute_SLL_MULH rd_xN));
  ("SLT_MULHSU_rdN", on_state (execute_SLT_MULHSU rd_xN));
  ("SLTU_MULHU_rdN", on_state (execute_SLTU_MULHU rd_xN));
  ("XOR_DIV_rdN", on_state (execute_XOR_DIV rd_xN));
  ("SRL_DIVU_SRA_rdN", on_state (execute_SRL_DIVU_SRA rd_xN));
  ("OR_REM_rdN", on_state (execute_OR_REM rd_xN));
  ("AND_REMU_rdN", on_state (execute_AND_REMU rd_xN));
  ("ADDIW_rdN", on_state (execute_ADDIW rd_xN));
  ("SLLIW_rdN", on_state (execute_SLLIW rd_xN));
  ("SRLIW_SRAIW_rdN", on_state (execute_SRLIW_SRAIW rd_xN));
  ("ADDW_MULW_SUBW_rdN", on_state (execute_ADDW_MULW_SUBW rd_xN));
  ("SLLW_rdN", on_state (execute_SLLW rd_xN));
  ("SRLW_DIVUW_SRAW_rdN", on_state (execute_SRLW_DIVUW_SRAW rd_xN));
  ("DIVW_rdN", on_state (execute_DIVW rd_xN));
  ("REMW_rdN", on_state (execute_REMW rd_xN));
  ("REMUW_rdN", on_state (execute_REMUW rd_xN));
  ("LD_rdN", on_hart (execute_LD driver rd_xN));
  ("LW_rdN", on_hart (execute_LW driver rd_xN));
  ("LWU_rdN", on_hart (execute_LWU driver rd_xN));
  ("LH_rdN", on_hart (execute_LH driver rd_xN));
  ("LHU_rdN", on_hart (execute_LHU driver rd_xN));
  ("LB_rdN", on_hart (execute_LB driver rd_xN));
  ("LBU_rdN", on_hart (execute_LBU driver rd_xN));
  ("SD", on_hart (execute_SD driver));
  ("SW", on_hart (execute_SW driver));
  ("SH", on_hart (execute_SH driver));
  ("SB", on_hart (execute_SB driver))].

Definition insn_cases_C : list (string * handler) := [
  ("C_HINT", on_state execute_C_NOP);
  ("C_NOP", on_state execute_C_NOP);
  ("C_LUI", on_state execute_C_LUI);
  ("C_LI", on_state execute_C_LI);
  ("C_J", on_state execute_C_J);
  ("C_JR", on_state execute_C_JR);
  ("C_JALR", on_state execute_C_JALR);
  ("C_MV", on_state execute_C_MV);
  ("C_BEQZ", on_state execute_C_BEQZ);
  ("C_BNEZ", on_state execute_C_BNEZ);
  ("C_ADDI", on_state execute_C_ADDI);
  ("C_ADDIW", on_state execute_C_ADDIW);
  ("C_ADDI4SPN", on_state execute_C_ADDI4SPN);
  ("C_ADDI16SP", on_state execute_C_ADDI16SP);
  ("C_ANDI", on_state execute_C_ANDI);
  ("C_SLLI", on_state execute_C_SLLI);
  ("C_SRAI", on_state execute_C_SRAI);
  ("C_SRLI", on_state execute_C_SRLI);
  ("C_ADD", on_state execute_C_ADD);
  ("C_SUB", on_state execute_C_SUB);
  ("C_XOR", on_state execute_C_XOR);
  ("C_OR", on_state execute_C_OR);
  ("C_AND", on_state execute_C_AND);
  ("C_ADDW", on_state execute_C_ADDW);
  ("C_SUBW", on_state execute_C_SUBW);
  ("C_LD", on_hart (execute_C_LD driver));
  ("C_LW", on_hart (execute_C_LW driver));
  ("C_LDSP", on_hart (execute_C_LDSP driver));
  ("C_LWSP", on_hart (execute_C_LWSP driver));
  ("C_SD", on_hart (execute_C_SD driver));
  ("C_SW", on_hart (execute_C_SW driver));
  ("C_SDSP", on_hart (execute_C_SDSP driver));
  ("C_SWSP", on_hart (execute_C_SWSP driver));
  ("C_FLD", on_hart (execute_C_FLD driver));
  ("C_FLDSP", on_hart (execute_C_FLDSP driver));
  ("C_FSD", on_hart (execute_C_FSD driver));
  ("C_FSDSP", on_hart (execute_C_FSDSP driver));
  ("C_EBREAK", on_state execute_C_EBREAK)].

(** Floating point, atomics, control and status registers, and the special
    instructions *)
Definition insn_cases_FDA : list (string * handler) := [
  ("FD", on_state execute_FD);
  ("FLD", on_hart (execute_FLD driver));
  ("FLW", on_hart (execute_FLW driver));
  ("FSD", on_hart (execute_FSD driver));
  ("FSW", on_hart (execute_FSW driver));
  ("FMADD", on_state execute_FMADD);
  ("FMSUB", on_state execute_FMSUB);
  ("FNMADD", on_state execute_FNMADD);
  ("FNMSUB", on_state execute_FNMSUB);
  ("AMO_D", on_hart (execute_AMO_D driver));
  ("AMO_W", on_hart (execute_AMO_W driver));
  ("CSRRW", on_csr execute_CSRRW);
  ("CSRRS", on_csr execute_CSRRS);
  ("CSRRC", on_csr execute_CSRRC);
  ("CSRRWI", on_csr execute_CSRRWI);
  ("CSRRSI", on_csr execute_CSRRSI);
  ("CSRRCI", on_csr execute_CSRRCI);
  ("FENCE", on_state execute_FENCE);
  ("FENCE_I", on_state execute_FENCE_I);
  ("PRIVILEGED", execute_privileged)].

(** The instructions that are hints, as their destination is [x0] *)
Definition insn_cases_rd0 : list (string * handler) := [
  ("LUI_rd0", on_state (execute_LUI rd_x0));
  ("AUIPC_rd0", on_state (execute_AUIPC rd_x0));
  ("ADDI_rd0", on_state (execute_ADDI rd_x0));
  ("SLTI_rd0", on_state (execute_SLTI rd_x0));
  ("SLTIU_rd0", on_state (execute_SLTIU rd_x0));
  ("XORI_rd0", on_state (execute_XORI rd_x0));
  ("ORI_rd0", on_state (execute_ORI rd_x0));
  ("ANDI_rd0", on_state (execute_ANDI rd_x0));
  ("SLLI_rd0", on_state (execute_SLLI rd_x0));
  ("SRLI_SRAI_rd0", on_state (execute_SRLI_SRAI rd_x0));
  ("ADD_MUL_SUB_rd0", on_state (execute_ADD_MUL_SUB rd_x0));
  ("SLL_MULH_rd0", on_state (execute_SLL_MULH rd_x0));
  ("SLT_MULHSU_rd0", on_state (execute_SLT_MULHSU rd_x0));
  ("SLTU_MULHU_rd0", on_state (execute_SLTU_MULHU rd_x0));
  ("XOR_DIV_rd0", on_state (execute_XOR_DIV rd_x0));
  ("SRL_DIVU_SRA_rd0", on_state (execute_SRL_DIVU_SRA rd_x0));
  ("OR_REM_rd0", on_state (execute_OR_REM rd_x0));
  ("AND_REMU_rd0", on_state (execute_AND_REMU rd_x0));
  ("ADDIW_rd0", on_state (execute_ADDIW rd_x0));
  ("SLLIW_rd0", on_state (execute_SLLIW rd_x0));
  ("SRLIW_SRAIW_rd0", on_state (execute_SRLIW_SRAIW rd_x0));
  ("ADDW_MULW_SUBW_rd0", on_state (execute_ADDW_MULW_SUBW rd_x0));
  ("SLLW_rd0", on_state (execute_SLLW rd_x0));
  ("SRLW_DIVUW_SRAW_rd0", on_state (execute_SRLW_DIVUW_SRAW rd_x0));
  ("DIVW_rd0", on_state (execute_DIVW rd_x0));
  ("REMW_rd0", on_state (execute_REMW rd_x0));
  ("REMUW_rd0", on_state (execute_REMUW rd_x0));
  ("LD_rd0", on_hart (execute_LD driver rd_x0));
  ("LW_rd0", on_hart (execute_LW driver rd_x0));
  ("LWU_rd0", on_hart (execute_LWU driver rd_x0));
  ("LH_rd0", on_hart (execute_LH driver rd_x0));
  ("LHU_rd0", on_hart (execute_LHU driver rd_x0));
  ("LB_rd0", on_hart (execute_LB driver rd_x0));
  ("LBU_rd0", on_hart (execute_LBU driver rd_x0));
  ("ILLEGAL", on_state raise_illegal_insn_exception)].

Definition insn_cases : list (string * handler) :=
  insn_cases_IM ++ insn_cases_C ++ insn_cases_FDA ++ insn_cases_rd0.

Definition execute_insn (h : hart) (pc mcycle insn : Z) : step_result :=
  match list_find (fun c => fst c = insn_jumptable (insn_get_id insn)) insn_cases with
  | Some (_, (_, execute)) => execute h pc mcycle insn
  | None => Exn (undefined_behaviour "unreachable")
  end.

(** ** The loops *)

(** The enumerators above [success], and those from [success_and_serve_interrupts] *)
Definition above_success (status : execute_status) : bool :=
  match status with success => false | _ => true end.
Definition breaks_loop (status : execute_status) : bool :=
  match status with success_and_serve_interrupts | success_and_yield | success_and_halt => true | _ => false end.

(** An iteration of the inner loop: the status, and the loop variables *)
Record loop_state := LoopState { l_pc : Z; l_mcycle : Z; l_fetch : fetch_cache; l_hart : hart }.

Definition no_fetch (pc : Z) (vh_offset : Z) : fetch_cache := FetchCache (not64 pc) vh_offset.

Definition inner_step (l : loop_state) : outcome (execute_status * loop_state) :=
  '(insn, pc, c, s) ← fetch_insn (h_s (l_hart l)) (l_pc l) (l_fetch l);
  let h := set_s s (l_hart l) in
  match insn with
  | None => mret (success, LoopState pc (uint64 (l_mcycle l + 1)) c h)
  | Some insn =>
      '(status, pc, mcycle, h) ← execute_insn h pc (l_mcycle l) insn;
      let c := if above_success status then no_fetch pc (fetch_vh_offset c) else c in
      mret (status, LoopState pc (uint64 (mcycle + 1)) c h)
  end.

(** [assert] *)
Definition check_assert (c : bool) (what : string) : outcome unit :=
  throw_if (asserts && negb c) (assertion_failure what).

Definition assert_no_brk (s : machine_state) : outcome unit :=
  _ ← check_assert (get_pending_irq_mask s =? 0) "get_pending_irq_mask(a) == 0";
  _ ← check_assert (iflags_X (s_iflags s) =? 0) "a.read_iflags_X() == 0";
  _ ← check_assert (iflags_Y (s_iflags s) =? 0) "a.read_iflags_Y() == 0";
  check_assert (iflags_H (s_iflags s) =? 0) "a.read_iflags_H() == 0".

Definition loop_out_of_fuel : exn := undefined_behaviour "out of fuel".

(** The inner loop; it stops before its end at a status that breaks it. *)
Fixpoint inner_loop (fuel : nat) (mcycle_tick_end : Z) (l : loop_state) : outcome (execute_status * loop_state) :=
  if l_mcycle l <? mcycle_tick_end then
    match fuel with
    | O => Exn loop_out_of_fuel
    | S fuel =>
        '(status, l) ← inner_step l;
        if breaks_loop status then mret (status, l)
        else
          _ ← assert_no_brk (h_s (l_hart l));
          inner_loop fuel mcycle_tick_end l
    end
  else mret (success, l).

(** The work between ticks: the clock, the devices and the pending interrupt *)
Definition start_tick (l : loop_state) : outcome loop_state :=
  let h :=
    if rtc_is_tick (l_mcycle l) then
      let h := set_s (set_rtc_interrupt (h_s (l_hart l)) (l_mcycle l)) (l_hart l) in
      snd (poll_external_interrupts h (l_mcycle l) (l_mcycle l))
    else l_hart l in
  '(pc, s) ← raise_interrupt_if_any (h_s h) (l_pc l);
  mret (LoopState pc (l_mcycle l) (l_fetch l) (set_s s h)).

Definition tick_end (mcycle mcycle_end : Z) : Z :=
  mcycle + Z.min (mcycle_end - mcycle) (RTC_FREQ_DIV - mcycle mod RTC_FREQ_DIV).

Fixpoint outer_loop (fuel : nat) (mcycle_end : Z) (l : loop_state) : outcome (execute_status * loop_state) :=
  if l_mcycle l <? mcycle_end then
    match fuel with
    | O => Exn loop_out_of_fuel
    | S fuel' =>
        l ← start_tick l;
        _ ← assert_no_brk (h_s (l_hart l));
        '(status, l) ← inner_loop fuel (tick_end (l_mcycle l) mcycle_end) l;
        if breaks_loop status && negb (bool_decide (status = success_and_serve_interrupts)) then mret (status, l)
        else outer_loop fuel' mcycle_end l
    end
  else mret (success, l).

(** The program counter and the cycle are committed when the loop ends. *)
Definition commit (l : loop_state) : hart :=
  set_s (assign upd_mcycle (l_mcycle l) (assign upd_pc (l_pc l) (h_s (l_hart l)))) (l_hart l).

Definition interpret_loop (h : hart) (mcycle_end mcycle : Z) : outcome (execute_status * hart) :=
  let pc := s_pc (h_s h) in
  '(status, l) ← outer_loop (Z.to_nat (mcycle_end - mcycle)) mcycle_end (LoopState pc mcycle (no_fetch pc 0) h);
  mret (status, commit l).

(** ** Reasons to stop (interpret.h) *)

Inductive interpreter_break_reason :=
  | failed | halted | yielded_manually | yielded_automatically | yielded_softly | reached_target_mcycle.

Definition interpret (h : hart) (mcycle_end : Z) : outcome (interpreter_break_reason * hart) :=
  let mcycle := s_mcycle (h_s h) in
  let flags h := s_iflags (h_s h) in
  if negb (iflags_H (flags h) =? 0) then mret (halted, h)
  else if negb (iflags_Y (flags h) =? 0) then mret (yielded_manually, h)
  else if mcycle_end <=? mcycle then mret (reached_target_mcycle, h)
  else
    let h := set_s (set_iflags_X 0 (h_s h)) h in
    '(status, h) ← interpret_loop h mcycle_end mcycle;
    if negb (iflags_H (flags h) =? 0) then mret (halted, h)
    else if negb (iflags_Y (flags h) =? 0) then mret (yielded_manually, h)
    else if negb (iflags_X (flags h) =? 0) then mret (yielded_automatically, h)
    else if bool_decide (status = success_and_yield) then mret (yielded_softly, h)
    else
      _ ← check_assert (s_mcycle (h_s h) =? mcycle_end) "a.read_mcycle() == mcycle_end";
      mret (reached_target_mcycle, h).

End interpreter.
