(* ===== verification/RV64Dispatch.v ===== *)
(** * The interpreter decodes RV64IM

    Every instruction has a case in the interpreter: the labels of the jump table
    are those of the switch, and the instructions whose case writes a destination
    without a test have one other than [x0].

    The jump table, the groups of instructions that share an entry and the
    handlers that check the bits the table does not see are, together, the
    decoder of the specification (RV64IM.v): every encoding of an opcode of
    RV64IM reaches the handler of the instruction it encodes, and the reserved
    ones the exception of illegal instructions. *)

From S2P Require Import Prelude CppInt Constants UarchAccess UarchStep RV64IM UarchOps MachineState DeviceAccess Tlb Trap CsrInsns VirtualMemory IntegerInsns IntegerInsnsSpec MemoryInsns JumpTable Interpret.

(** ** Labels *)

Definition labels : list string := [
  "LUI_rdN"; "AUIPC_rdN"; "JAL_rd0"; "JAL_rdN"; "JALR_rd0"; "JALR_rdN"; "BEQ"; "BNE"; "BLT"; "BGE"; "BLTU"; "BGEU";
  "ADDI_rdN"; "SLTI_rdN"; "SLTIU_rdN"; "XORI_rdN"; "ORI_rdN"; "ANDI_rdN"; "SLLI_rdN"; "SRLI_SRAI_rdN";
  "ADD_MUL_SUB_rdN"; "SLL_MULH_rdN"; "SLT_MULHSU_rdN"; "SLTU_MULHU_rdN"; "XOR_DIV_rdN"; "SRL_DIVU_SRA_rdN";
  "OR_REM_rdN"; "AND_REMU_rdN"; "ADDIW_rdN"; "SLLIW_rdN"; "SRLIW_SRAIW_rdN"; "ADDW_MULW_SUBW_rdN"; "SLLW_rdN";
  "SRLW_DIVUW_SRAW_rdN"; "DIVW_rdN"; "REMW_rdN"; "REMUW_rdN"; "LD_rdN"; "LW_rdN"; "LWU_rdN"; "LH_rdN"; "LHU_rdN";
  "LB_rdN"; "LBU_rdN"; "SD"; "SW"; "SH"; "SB"; "C_HINT"; "C_NOP"; "C_LUI"; "C_LI"; "C_J"; "C_JR"; "C_JALR"; "C_MV";
  "C_BEQZ"; "C_BNEZ"; "C_ADDI"; "C_ADDIW"; "C_ADDI4SPN"; "C_ADDI16SP"; "C_ANDI"; "C_SLLI"; "C_SRAI"; "C_SRLI";
  "C_ADD"; "C_SUB"; "C_XOR"; "C_OR"; "C_AND"; "C_ADDW"; "C_SUBW"; "C_LD"; "C_LW"; "C_LDSP"; "C_LWSP"; "C_SD"; "C_SW";
  "C_SDSP"; "C_SWSP"; "C_FLD"; "C_FLDSP"; "C_FSD"; "C_FSDSP"; "C_EBREAK"; "FD"; "FLD"; "FLW"; "FSD"; "FSW"; "FMADD";
  "FMSUB"; "FNMADD"; "FNMSUB"; "AMO_D"; "AMO_W"; "CSRRW"; "CSRRS"; "CSRRC"; "CSRRWI"; "CSRRSI"; "CSRRCI"; "FENCE";
  "FENCE_I"; "PRIVILEGED"; "LUI_rd0"; "AUIPC_rd0"; "ADDI_rd0"; "SLTI_rd0"; "SLTIU_rd0"; "XORI_rd0"; "ORI_rd0";
  "ANDI_rd0"; "SLLI_rd0"; "SRLI_SRAI_rd0"; "ADD_MUL_SUB_rd0"; "SLL_MULH_rd0"; "SLT_MULHSU_rd0"; "SLTU_MULHU_rd0";
  "XOR_DIV_rd0"; "SRL_DIVU_SRA_rd0"; "OR_REM_rd0"; "AND_REMU_rd0"; "ADDIW_rd0"; "SLLIW_rd0"; "SRLIW_SRAIW_rd0";
  "ADDW_MULW_SUBW_rd0"; "SLLW_rd0"; "SRLW_DIVUW_SRAW_rd0"; "DIVW_rd0"; "REMW_rd0"; "REMUW_rd0"; "LD_rd0"; "LW_rd0";
  "LWU_rd0"; "LH_rd0"; "LHU_rd0"; "LB_rd0"; "LBU_rd0"; "ILLEGAL"].

Lemma insn_cases_labels driver poll_host : map fst (insn_cases driver poll_host) = labels.
Proof. reflexivity. Qed.

(** The compressed instructions whose destination is the field [rd] *)
Definition compressed_rd_labels : list string :=
  ["C_LUI"; "C_LI"; "C_MV"; "C_ADDI"; "C_ADDIW"; "C_SLLI"; "C_ADD"; "C_LDSP"; "C_LWSP"].

Fixpoint ends_in_rdN (name : string) : bool :=
  match name with
  | EmptyString => false
  | String _ name' => String.eqb name "_rdN" || ends_in_rdN name'
  end.

(** The labels whose case writes [rd] without a test *)
Definition needs_rd (label : string) : bool := ends_in_rdN label || existsb (String.eqb label) compressed_rd_labels.

Definition has_case (label : string) : bool := existsb (String.eqb label) labels.

Lemma existsb_elem_of (l : list string) x : existsb (String.eqb x) l = true <-> x ∈ l.
Proof.
  rewrite existsb_exists, list_elem_of_In. split.
  - intros (y & Hy & E). apply String.eqb_eq in E. by subst y.
  - intros H. exists x. split; [done|]. apply String.eqb_refl.
Qed.

(** ** Checks of the table *)

(** The entries of a mask *)
Definition mask_ok (entry : string * bool) : bool :=
  let '(name, special) := entry in
  if special : bool then
    negb (String.eqb name "ILLEGAL") && has_case (name +:+ "_rd0") && has_case (name +:+ "_rdN") && negb (needs_rd (name +:+ "_rd0"))
    && negb (String.eqb (name +:+ "_rd0") "ILLEGAL") && negb (String.eqb (name +:+ "_rdN") "ILLEGAL")
  else has_case name && negb (needs_rd name).

Lemma masks_ok : forallb (fun i => mask_ok (mask_name (Z.of_nat i))) (seq 0 2048) = true.
Proof. vm_cast_no_check (eq_refl true). Qed.

(** The field [rd] of the index of an entry *)
Definition idx_rd (idx : Z) : Z := Z.land (Z.shiftr idx 7) 31.

Definition c_insn_ok (p : string * string) : bool :=
  has_case (snd p) && (negb (needs_rd (snd p)) || negb (idx_rd (frombase2 (fst p)) =? 0)).

Lemma c_insns_ok : forallb c_insn_ok c_insns = true.
Proof. vm_cast_no_check (eq_refl true). Qed.

(** ** Every instruction *)

Lemma mask_ok_of i : 0 <= i < 2048 -> mask_ok (mask_name i) = true.
Proof. intros Hi. apply (forallb_range (fun i => mask_ok (mask_name i)) 2048); [exact masks_ok|lia]. Qed.

Lemma forallb_elem_of {A} (f : A -> bool) (l : list A) x : forallb f l = true -> x ∈ l -> f x = true.
Proof. rewrite forallb_forall, list_elem_of_In. auto. Qed.

Lemma c_table_lookup (l : list (string * string)) idx name :
  forallb c_insn_ok l = true ->
  (list_to_map (map (fun p => (frombase2 (fst p), snd p)) l) : gmap Z string) !! idx = Some name ->
  has_case name = true /\ (needs_rd name = true -> idx_rd idx <> 0).
Proof.
  intros Hl H. apply elem_of_list_to_map_2, list_elem_of_fmap in H as ([bits name'] & [= -> ->] & H).
  apply (forallb_elem_of _ _ _ Hl) in H. unfold c_insn_ok in H. cbn [fst snd] in H.
  apply andb_prop in H as [Hc Hr]. split; [exact Hc|]. intros Hn. rewrite Hn in Hr.
  cbn [negb orb] in Hr. apply negb_true_iff, Z.eqb_neq in Hr. exact Hr.
Qed.

Lemma c_insn_lookup idx name : c_insn_by_idx !! idx = Some name -> has_case name = true /\ (needs_rd name = true -> idx_rd idx <> 0).
Proof. exact (c_table_lookup c_insns idx name c_insns_ok). Qed.

(** The index of the mask of an entry *)
Lemma mask_index idx : is_uint 16 idx -> 0 <= Z.lor (Z.shiftl (Z.shiftr idx 12) 7) (Z.land idx 127) < 2048.
Proof.
  intros Hi. change (is_uint 11 (Z.lor (Z.shiftl (Z.shiftr idx 12) 7) (Z.land idx 127))). apply lor_uint; [lia| |].
  - unfold is_uint in *. rewrite Z.shiftr_div_pow2, Z.shiftl_mul_pow2 by lia. Z.div_mod_to_equations; lia.
  - apply (uint_mono 7); [lia|]. change 127 with (2 ^ 7 - 1). rewrite land_ones_mod by lia. apply Z.mod_pos_bound. lia.
Qed.

Lemma jumptable_label idx :
  is_uint 16 idx -> has_case (insn_jumptable idx) = true /\ (needs_rd (insn_jumptable idx) = true -> idx_rd idx <> 0).
Proof.
  intros Hi. unfold insn_jumptable. fold (idx_rd idx). cbv zeta.
  pose proof (mask_ok_of _ (mask_index idx Hi)) as Hm. destruct (mask_name _) as [name special]. unfold mask_ok in Hm.
  destruct special.
  - rewrite !andb_true_iff, !negb_true_iff, !String.eqb_neq in Hm. destruct Hm as [[[[[_ H0] HN] Hr] E0] EN]. destruct (Z.eqb_spec (idx_rd idx) 0) as [Hz|Hz].
    + rewrite bool_decide_eq_false_2 by done. split; [done|]. intros Hn. congruence.
    + rewrite bool_decide_eq_false_2 by done. done.
  - apply andb_prop in Hm as [H1 H2%negb_true_iff]. case_bool_decide as E.
    + destruct (c_insn_by_idx !! idx) as [name'|] eqn:Ec; cbn [default]; [by apply c_insn_lookup|]. split; [done|]. intros; congruence.
    + split; [done|]. intros; congruence.
Qed.

Lemma insn_get_id_range insn : is_uint 16 (insn_get_id insn).
Proof.
  unfold insn_get_id. change 0xffff with (2 ^ 16 - 1). rewrite land_ones_mod by lia. apply Z.mod_pos_bound. lia.
Qed.

Lemma idx_rd_spec insn : idx_rd (insn_get_id insn) = insn_get_rd insn.
Proof.
  unfold idx_rd, insn_get_id, insn_get_rd. change 0xffff with (Z.ones 16). change 31 with (Z.ones 5). change 0x1f with (Z.ones 5).
  apply Z.bits_inj_iff'. intros i Hi. rewrite !Z.land_spec, !Z.shiftr_spec, Z.land_spec by done.
  destruct (Z.lt_ge_cases i 5).
  - rewrite (Z.ones_spec_low 16) by lia. by rewrite andb_true_r.
  - rewrite (Z.ones_spec_high 5) by lia. by rewrite !andb_false_r.
Qed.

(** The case of a label *)
Lemma find_case {A} (cases : list (string * A)) label :
  label ∈ map fst cases ->
  exists j e, (label, e) ∈ cases /\ list_find (fun c => fst c = label) cases = Some (j, (label, e)).
Proof.
  intros ([l e] & El & Hin)%list_elem_of_fmap. cbn [fst] in El.
  destruct (list_find_elem_of (fun c => fst c = label) _ _ Hin (eq_sym El)) as [[j [l' e']] Hf].
  pose proof Hf as (Hj & E & _)%list_find_Some. cbn [fst] in E. subst l'.
  exists j, e'. split; [by eapply list_elem_of_lookup_2|exact Hf].
Qed.

(** The case of an instruction *)
Lemma execute_insn_case driver poll_host insn :
  exists label execute, (label, execute) ∈ insn_cases driver poll_host /\
    (needs_rd label = true -> insn_get_rd insn <> 0) /\
    forall h pc mcycle, execute_insn driver poll_host h pc mcycle insn = execute h pc mcycle insn.
Proof.
  destruct (jumptable_label _ (insn_get_id_range insn)) as [Hc Hn]. rewrite idx_rd_spec in Hn. unfold execute_insn.
  revert Hc Hn. generalize (insn_jumptable (insn_get_id insn)). intros label Hc Hn.
  apply existsb_elem_of in Hc. rewrite <- (insn_cases_labels driver poll_host) in Hc.
  destruct (find_case _ _ Hc) as (j & e & Hin & Hf). exists label, e. split; [exact Hin|]. split; [exact Hn|].
  intros h pc mcycle. by rewrite Hf.
Qed.

(** ** Fields *)

Lemma insn_get_rd_spec insn : insn_get_rd insn = rd insn.
Proof.
  unfold insn_get_rd, rd, field. change 0x1f with (2 ^ 5 - 1). by rewrite land_ones_mod, Z.shiftr_div_pow2 by lia.
Qed.
Lemma insn_get_rs1_spec insn : insn_get_rs1 insn = rs1 insn.
Proof.
  unfold insn_get_rs1, rs1, field. change 0x1f with (2 ^ 5 - 1). by rewrite land_ones_mod, Z.shiftr_div_pow2 by lia.
Qed.
Lemma insn_get_rs2_spec insn : insn_get_rs2 insn = rs2 insn.
Proof.
  unfold insn_get_rs2, rs2, field. change 0x1f with (2 ^ 5 - 1). by rewrite land_ones_mod, Z.shiftr_div_pow2 by lia.
Qed.

Section fields.
Context (insn : Z) (Hinsn : is_uint 32 insn).

Lemma insn_get_funct7_spec : insn_get_funct7 insn = funct7 insn.
Proof. unfold insn_get_funct7, funct7. rewrite field_top by (lia || done). by rewrite Z.shiftr_div_pow2 by lia. Qed.

Lemma insn_get_funct7_sr1_spec : insn_get_funct7_sr1 insn = funct7 insn `div` 2.
Proof.
  unfold insn_get_funct7_sr1. rewrite <- field_26, field_top by (lia || done). by rewrite Z.shiftr_div_pow2 by lia.
Qed.

Lemma insn_I_get_imm_spec : insn_I_get_imm insn = imm_I insn.
Proof. rewrite <- operandImm12_spec. unfold operandImm12. by rewrite int32ShiftRight_small by lia. Qed.

Lemma insn_U_get_imm_spec : insn_U_get_imm insn = imm_U insn.
Proof.
  unfold insn_U_get_imm, imm_U. change 0xfffff000 with (Z.shiftl (2 ^ 20 - 1) 12). by rewrite land_field by lia.
Qed.

Lemma insn_B_get_imm_spec : insn_B_get_imm insn = imm_B insn.
Proof.
  rewrite <- operandSbimm12_spec by done. unfold operandSbimm12, insn_B_get_imm, shl32.
  cbv zeta. rewrite !int32ShiftRight_small, !uint32ShiftLeft_small, ?uint32ShiftRight_small by lia.
  by rewrite uint_sint, uint_uint by lia.
Qed.

Lemma insn_J_get_imm_spec : insn_J_get_imm insn = imm_J insn.
Proof.
  rewrite <- operandJimm20_spec by done. unfold operandJimm20, insn_J_get_imm, shl32.
  cbv zeta. rewrite !int32ShiftRight_small, !uint32ShiftLeft_small, ?uint32ShiftRight_small by lia.
  by rewrite uint_sint, uint_uint by lia.
Qed.

Lemma insn_S_get_imm_spec : insn_S_get_imm insn = imm_S insn.
Proof.
  unfold insn_S_get_imm, imm_S. change 0xfe000000 with (Z.shiftl (2 ^ 7 - 1) 25). rewrite land_field by lia.
  change 0x1f with (2 ^ 5 - 1). rewrite land_ones_mod, (Z.shiftr_div_pow2 insn) by lia. fold (field insn 7 5).
  set (h := field insn 25 7). set (lo := field insn 7 5).
  pose proof (field_range insn 25 7 ltac:(lia)) as Hh. fold h in Hh. pose proof (field_range insn 7 5 ltac:(lia)) as Hl. fold lo in Hl.
  rewrite (sint_id 32 lo) by (lia || (unfold is_sint; lia)).
  change (25 - 5) with 20. rewrite sint_shiftr by lia. change (32 - 20) with 12.
  replace ((h * 2 ^ 25) `div` 2 ^ 20) with (h * 2 ^ 5) by (apply Z.div_unique_exact; lia).
  destruct (sint_shift 12 (h * 2 ^ 5)) as [k Hk]. pose proof (sint_range 12 (h * 2 ^ 5) ltac:(lia)) as Hr. unfold is_sint in Hr.
  rewrite (lor_add _ _ 5) by (lia || (exists (h + k * 2 ^ 7); lia)).
  symmetry. apply sint_unique with k; [lia| |lia]. unfold is_sint. lia.
Qed.
End fields.

(** ** Labels *)

(** The name of the entries of an opcode and a field funct3 *)
Definition names (l : list string) (special : bool) (f3 : Z) : string * bool :=
  let n := nth (Z.to_nat f3) l "ILLEGAL" in (n, special && negb (String.eqb n "ILLEGAL")).

Definition rv64im_names : list (Z * (Z -> string * bool)) := [
  (0x37, fun _ => ("LUI", true)); (0x17, fun _ => ("AUIPC", true)); (0x6f, fun _ => ("JAL", true));
  (0x67, names ["JALR"] true);
  (0x63, names ["BEQ"; "BNE"; "ILLEGAL"; "ILLEGAL"; "BLT"; "BGE"; "BLTU"; "BGEU"] false);
  (0x03, names ["LB"; "LH"; "LW"; "LD"; "LBU"; "LHU"; "LWU"] true);
  (0x23, names ["SB"; "SH"; "SW"; "SD"] false);
  (0x13, names ["ADDI"; "SLLI"; "SLTI"; "SLTIU"; "XORI"; "SRLI_SRAI"; "ORI"; "ANDI"] true);
  (0x1b, names ["ADDIW"; "SLLIW"; "ILLEGAL"; "ILLEGAL"; "ILLEGAL"; "SRLIW_SRAIW"] true);
  (0x33, names ["ADD_MUL_SUB"; "SLL_MULH"; "SLT_MULHSU"; "SLTU_MULHU"; "XOR_DIV"; "SRL_DIVU_SRA"; "OR_REM"; "AND_REMU"] true);
  (0x3b, names ["ADDW_MULW_SUBW"; "SLLW"; "ILLEGAL"; "ILLEGAL"; "DIVW"; "SRLW_DIVUW_SRAW"; "REMW"; "REMUW"] true)].

Definition entry_ok (op : Z) (f : Z -> string * bool) (i : Z) : bool :=
  bool_decide (mask_name (i * 128 + op) = f (i `mod` 8)).
Definition entries_ok (e : Z * (Z -> string * bool)) : bool :=
  forallb (fun i => entry_ok (fst e) (snd e) (Z.of_nat i)) (seq 0 16).

Lemma rv64im_names_ok : forallb entries_ok rv64im_names = true.
Proof. vm_cast_no_check (eq_refl true). Qed.

#[local] Opaque mask_name.

Lemma entry_name (l : list (Z * (Z -> string * bool))) op f i :
  forallb entries_ok l = true -> (op, f) ∈ l -> 0 <= i < 16 -> mask_name (i * 128 + op) = f (i `mod` 8).
Proof.
  intros H Hin Hi. pose proof (forallb_elem_of _ _ _ H Hin) as E. unfold entries_ok in E. cbn [fst snd] in E.
  apply (forallb_range (entry_ok op f) 16 i) in E; [|lia]. unfold entry_ok in E. by apply bool_decide_eq_true in E.
Qed.

(** The entries of the compressed instructions are not those of longer ones. *)
Lemma c_insns_short : forallb (fun p => negb (frombase2 (fst p) `mod` 4 =? 3)) c_insns = true.
Proof. vm_cast_no_check (eq_refl true). Qed.

Lemma table_short (l : list (string * string)) idx :
  forallb (fun p => negb (frombase2 (fst p) `mod` 4 =? 3)) l = true -> idx `mod` 4 = 3 ->
  (list_to_map (map (fun p => (frombase2 (fst p), snd p)) l) : gmap Z string) !! idx = None.
Proof.
  intros Hl Hi. apply not_elem_of_list_to_map_1. intros ([? ?] & -> & H)%list_elem_of_fmap.
  apply list_elem_of_fmap in H as ([bits name'] & [= -> ->] & H). apply (forallb_elem_of _ _ _ Hl) in H.
  cbn [fst] in *. apply negb_true_iff, Z.eqb_neq in H. done.
Qed.

Lemma c_insn_short idx : idx `mod` 4 = 3 -> c_insn_by_idx !! idx = None.
Proof. exact (table_short c_insns idx c_insns_short). Qed.

(** The index of an instruction, from its fields *)
Lemma id_mask insn :
  let idx := insn_get_id insn in
  Z.lor (Z.shiftl (Z.shiftr idx 12) 7) (Z.land idx 127) = field insn 12 4 * 128 + opcode insn.
Proof.
  cbn zeta. unfold insn_get_id. change 0xffff with (2 ^ 16 - 1). change 127 with (2 ^ 7 - 1).
  rewrite (land_ones_mod insn), Z.shiftl_mul_pow2, Z.shiftr_div_pow2, land_ones_mod by lia.
  rewrite (lor_add _ _ 7); [|lia|apply Z.mod_pos_bound; lia|eauto].
  unfold opcode, field. rewrite Z.div_1_r. f_equal; [f_equal|].
  - change (2 ^ 16) with (2 ^ 12 * 2 ^ 4). rewrite Z.rem_mul_r, Z.add_comm, Z.mul_comm, Z.div_add_l by lia.
    rewrite (Z.div_small (insn `mod` 2 ^ 12)) by (apply Z.mod_pos_bound; lia). lia.
  - apply (uint_uint_le 7 16). lia.
Qed.

Lemma field_12_4 insn : field insn 12 4 `mod` 8 = funct3 insn.
Proof. unfold funct3, field. change 8 with (2 ^ 3). apply (uint_uint_le 3 4). lia. Qed.

Lemma opcode_mod4 insn : insn `mod` 4 = opcode insn `mod` 4.
Proof. unfold opcode, field. rewrite Z.div_1_r. symmetry. apply (uint_uint_le 2 7). lia. Qed.

(** The suffix of the labels of the instructions that treat [x0] apart *)
Definition label_at (entry : string * bool) (r : Z) : string :=
  if snd entry : bool then fst entry +:+ (if r =? 0 then "_rd0" else "_rdN") else fst entry.

Lemma rv64im_label insn f :
  (opcode insn, f) ∈ rv64im_names -> opcode insn `mod` 4 = 3 ->
  insn_jumptable (insn_get_id insn) = label_at (f (funct3 insn)) (rd insn).
Proof.
  intros Hin Hshort. pose proof (field_range insn 12 4 ltac:(lia)) as Hr.
  pose proof (entry_name _ _ _ _ rv64im_names_ok Hin Hr) as E. rewrite field_12_4 in E.
  unfold insn_jumptable. cbv zeta. fold (idx_rd (insn_get_id insn)). rewrite idx_rd_spec, id_mask, E, insn_get_rd_spec.
  unfold label_at. destruct (f (funct3 insn)) as [n special]. cbn [fst snd].
  case_bool_decide; [|done]. rewrite c_insn_short; [done|].
  unfold insn_get_id. change 0xffff with (2 ^ 16 - 1). rewrite land_ones_mod by lia.
  rewrite <- Hshort, <- opcode_mod4. apply (uint_uint_le 2 16). lia.
Qed.

(** ** Groups and checks *)

Lemma by_funct7_nil k s pc insn f7 : by_funct7 [] k s pc insn f7 = raise_illegal_insn_exception s pc insn.
Proof. done. Qed.
Lemma by_funct7_cons v m l k s pc insn f7 :
  by_funct7 ((v, m) :: l) k s pc insn f7 = if f7 =? v then m k s pc insn else by_funct7 l k s pc insn f7.
Proof.
  unfold by_funct7. cbn [list_find fst]. destruct (Z.eqb_spec f7 v) as [->|Hne].
  - by rewrite decide_True by done.
  - rewrite decide_False by congruence. by destruct (list_find _ l) as [[? [? ?]]|].
Qed.

(** The handlers that share no entry check the field funct7. *)
Lemma checked_funct7 insn op f3 f7 :
  opcode insn = op -> funct3 insn = f3 -> 0 <= op < 128 -> 0 <= f3 < 8 -> 0 <= f7 < 128 ->
  (insn &ᵇ 0xfe00707f =? f7 * 2 ^ 25 + f3 * 2 ^ 12 + op) = (funct7 insn =? f7).
Proof.
  intros E3 Eo Ho Hf3 Hf7. pose proof (insnMatch_high insn op f3 f7 25 7 Ho Hf3 ltac:(lia) ltac:(lia) ltac:(lia) Hf7 ltac:(lia)) as H.
  rewrite E3, Eo, !Z.eqb_refl in H. cbn [andb] in H. fold (funct7 insn) in H. rewrite <- H. clear H.
  change (uint32 (Z.shiftl (2 ^ 7 - 1) 25) |ᵇ Z.shiftl 7 12 |ᵇ 0x7f) with 0xfe00707f. f_equal.
  rewrite !uint32ShiftLeft_small, !Z.shiftl_mul_pow2, !uint_id by (lia || (unfold is_uint; lia)).
  rewrite (lor_add (f7 * 2 ^ 25) _ 25) by (lia || eauto). symmetry.
  apply (lor_add _ _ 12); [lia|lia|]. exists (f7 * 2 ^ 13 + f3). lia.
Qed.

Lemma checked_funct7_spec value f3 f7 m k s pc insn :
  opcode insn = 0x3b -> funct3 insn = f3 -> 0 <= f3 < 8 -> 0 <= f7 < 128 -> value = f7 * 2 ^ 25 + f3 * 2 ^ 12 + 0x3b ->
  checked 0xfe00707f value m k s pc insn = if funct7 insn =? f7 then m k s pc insn else raise_illegal_insn_exception s pc insn.
Proof.
  intros Eo E3 H3 H7 ->. unfold checked. rewrite checked_funct7 by (done || lia). by destruct (funct7 insn =? f7).
Qed.

Lemma checked_shift m k s pc insn :
  checked 0xfc000000 0 m k s pc insn =
  if funct7 insn `div` 2 =? 0 then m k s pc insn else raise_illegal_insn_exception s pc insn.
Proof.
  unfold checked. change 0xfc000000 with (Z.shiftl (2 ^ 6 - 1) 26). rewrite land_field, field_26 by lia.
  generalize (funct7 insn `div` 2). intros f. destruct (Z.eqb_spec f 0) as [->|Hne]; [done|].
  by destruct (Z.eqb_spec (f * 2 ^ 26) 0); [lia|].
Qed.

(** ** The handlers of the instructions *)

Definition kind_of (r : Z) : rd_kind := if r =? 0 then rd_x0 else rd_xN.

Section handlers.
Context (driver : string -> pma_driver) (poll_host : hart -> Z -> Z -> host_events).

Definition illegal : handler := on_state raise_illegal_insn_exception.

Definition op_handler (op : alu_op) : rd_kind -> machine_state -> Z -> Z -> insn_result :=
  match op with
  | ADD => execute_ADD | SUB => execute_SUB | SLL => execute_SLL | SLT => execute_SLT | SLTU => execute_SLTU
  | XOR => execute_XOR | SRL => execute_SRL | SRA => execute_SRA | OR => execute_OR | AND => execute_AND
  end.

Definition mul_handler (op : mul_op) : rd_kind -> machine_state -> Z -> Z -> insn_result :=
  match op with
  | MUL => execute_MUL | MULH => execute_MULH | MULHSU => execute_MULHSU | MULHU => execute_MULHU
  | DIV => execute_DIV | DIVU => execute_DIVU | REM => execute_REM | REMU => execute_REMU
  end.

Definition mul_w_handler (op : mul_op) (k : rd_kind) : handler :=
  match op with
  | MUL => on_state (execute_MULW k) | DIV => on_state (execute_DIVW k) | DIVU => on_state (execute_DIVUW k)
  | REM => on_state (execute_REMW k) | REMU => on_state (execute_REMUW k) | _ => illegal
  end.

Definition branch_handler (c : cond) : machine_state -> Z -> Z -> insn_result :=
  match c with
  | EQ => execute_BEQ | NE => execute_BNE | LT => execute_BLT | GE => execute_BGE | LTU => execute_BLTU | GEU => execute_BGEU
  end.

Definition load_handler (w : width) (sign : bool) (k : rd_kind) : handler :=
  match w, sign with
  | W8, true => on_hart (execute_LB driver k) | W8, false => on_hart (execute_LBU driver k)
  | W16, true => on_hart (execute_LH driver k) | W16, false => on_hart (execute_LHU driver k)
  | W32, true => on_hart (execute_LW driver k) | W32, false => on_hart (execute_LWU driver k)
  | W64, _ => on_hart (execute_LD driver k)
  end.

Definition store_handler (w : width) : handler :=
  match w with
  | W8 => on_hart (execute_SB driver) | W16 => on_hart (execute_SH driver)
  | W32 => on_hart (execute_SW driver) | W64 => on_hart (execute_SD driver)
  end.

Definition base_handler (i : instr) (k : rd_kind) : handler :=
  match i with
  | Lui _ _ => on_state (execute_LUI k)
  | Auipc _ _ => on_state (execute_AUIPC k)
  | Jal _ _ => on_state (execute_JAL k)
  | Jalr _ _ _ => on_state (execute_JALR k)
  | Branch c _ _ _ => on_state (branch_handler c)
  | Load w sign _ _ _ => load_handler w sign k
  | Store w _ _ _ => store_handler w
  | OpImm ADD _ _ _ => on_state (execute_ADDI k)
  | OpImm SLT _ _ _ => on_state (execute_SLTI k)
  | OpImm SLTU _ _ _ => on_state (execute_SLTIU k)
  | OpImm XOR _ _ _ => on_state (execute_XORI k)
  | OpImm OR _ _ _ => on_state (execute_ORI k)
  | OpImm AND _ _ _ => on_state (execute_ANDI k)
  | OpImm SLL _ _ _ => on_state (execute_SLLI k)
  | OpImm SRL _ _ _ => on_state (execute_SRLI k)
  | OpImm SRA _ _ _ => on_state (execute_SRAI k)
  | OpImmW ADD _ _ _ => on_state (execute_ADDIW k)
  | OpImmW SLL _ _ _ => on_state (execute_SLLIW k)
  | OpImmW SRL _ _ _ => on_state (execute_SRLIW k)
  | OpImmW SRA _ _ _ => on_state (execute_SRAIW k)
  | OpReg op _ _ _ => on_state (op_handler op k)
  | OpRegW ADD _ _ _ => on_state (execute_ADDW k)
  | OpRegW SUB _ _ _ => on_state (execute_SUBW k)
  | OpRegW SLL _ _ _ => on_state (execute_SLLW k)
  | OpRegW SRL _ _ _ => on_state (execute_SRLW k)
  | OpRegW SRA _ _ _ => on_state (execute_SRAW k)
  | _ => illegal
  end.

Definition im_handler (i : im_instr) : rd_kind -> handler :=
  match i with
  | Base i => base_handler i
  | MulDiv op false _ _ _ => fun k => on_state (mul_handler op k)
  | MulDiv op true _ _ _ => mul_w_handler op
  end.

(** ** Dispatch *)

Lemma execute_insn_label h pc mcycle insn label e j :
  insn_jumptable (insn_get_id insn) = label ->
  list_find (fun c => fst c = label) (insn_cases driver poll_host) = Some (j, (label, e)) ->
  execute_insn driver poll_host h pc mcycle insn = e h pc mcycle insn.
Proof. intros E Hf. unfold execute_insn. by rewrite E, Hf. Qed.

(** The tests on the field funct7, as variables *)
#[local] Ltac name_tests insn :=
  let f7 := constr:(funct7 insn) in
  remember (f7 =? 0) as b0 eqn:Hb0; remember (f7 =? 1) as b1 eqn:Hb1; remember (f7 =? 32) as b32 eqn:Hb32;
  remember (f7 `div` 2 =? 0) as s0 eqn:Hs0; remember (f7 `div` 2 =? 16) as s16 eqn:Hs16.

#[local] Ltac rv_decode :=
  cbv beta iota zeta delta [Z.eqb Pos.eqb andb negb decode_load decode_store decode_branch decode_mul decode_mul_w
    decode_op_imm decode_op_imm_w decode_op decode_op_w is_shift mbind option_bind].
#[local] Ltac rv_handler :=
  cbn [im_handler base_handler op_handler mul_handler mul_w_handler branch_handler load_handler store_handler].

(** The groups, and the handlers that check what the table does not see *)
#[local] Ltac rv_groups :=
  cbv beta delta [on_state illegal execute_ADD_MUL_SUB execute_SLL_MULH execute_SLT_MULHSU execute_SLTU_MULHU execute_XOR_DIV
    execute_SRL_DIVU_SRA execute_OR_REM execute_AND_REMU execute_ADDW_MULW_SUBW execute_SRLW_DIVUW_SRAW
    execute_SRLI_SRAI execute_SRLIW_SRAIW execute_SLLI execute_SLLIW execute_SLLW execute_DIVW execute_REMW execute_REMUW];
  rewrite ?by_funct7_cons, ?by_funct7_nil, ?checked_shift, ?insn_get_funct7_spec, ?insn_get_funct7_sr1_spec by done;
  rewrite ?(checked_funct7_spec 0x0000103b 1 0), ?(checked_funct7_spec 0x0200403b 4 1), ?(checked_funct7_spec 0x0200603b 6 1),
    ?(checked_funct7_spec 0x0200703b 7 1) by (done || lia).

#[local] Ltac destruct_tests := repeat match goal with |- context [if ?b then _ else _] => is_var b; destruct b end.

(** Two tests on the same field that exclude each other *)
#[local] Ltac exclusive :=
  exfalso;
  repeat match goal with
  | H : true = (_ =? _) |- _ => symmetry in H; apply Z.eqb_eq in H
  | H : false = (_ =? _) |- _ => symmetry in H; apply Z.eqb_neq in H
  end; Z.div_mod_to_equations; lia.

Lemma execute_insn_decode h pc mcycle insn :
  is_uint 32 insn -> opcode insn ∈ map fst rv64im_names ->
  execute_insn driver poll_host h pc mcycle insn =
  match decode_im insn with
  | Some i => im_handler i (kind_of (rd insn)) h pc mcycle insn
  | None => illegal h pc mcycle insn
  end.
Proof.
  intros Hi Hop. apply list_elem_of_fmap in Hop as ([op f] & Eop & Hin). cbn [fst] in Eop. rewrite <- Eop in Hin.
  assert (opcode insn `mod` 4 = 3) as H4.
  { revert Hin. rewrite Eop. clear. unfold rv64im_names. intros Hin.
    repeat (apply elem_of_cons in Hin as [[= -> ->]|Hin]; [reflexivity|]). by apply elem_of_nil in Hin. }
  pose proof (rv64im_label insn f Hin H4) as El. clear H4. rewrite Eop in Hin. unfold rv64im_names in Hin.
  unfold decode_im, decode, decode_m, decode_op_imm, decode_op_imm_w, decode_op, decode_op_w. rewrite Eop.
  pose proof (field_range insn 12 3 ltac:(lia)) as Hf. fold (funct3 insn) in Hf.
  unfold kind_of. name_tests insn.
  repeat (apply elem_of_cons in Hin as [[= -> ->]|Hin]; [|]); [..|by apply elem_of_nil in Hin].
  all: destruct (rd insn =? 0) eqn:Erd.
  all: enumerate (funct3 insn) 0 8.
  all: match goal with H : funct3 ?i = _ |- _ => pose proof H as Hf3; rewrite ?H in El; rewrite ?H end.
  all: unfold label_at in El; rewrite Erd in El;
    match type of El with _ = ?l => let l' := eval vm_compute in l in change l with l' in El end.
  all: erewrite execute_insn_label; [|exact El|reflexivity].
  all: rv_decode; try reflexivity.
  all: destruct_tests; try reflexivity.
  all: rv_handler; try reflexivity.
  all: rv_groups; rewrite <- ?Hb0, <- ?Hb1, <- ?Hb32, <- ?Hs0, <- ?Hs16; destruct_tests; try reflexivity.
  all: exclusive.
Qed.
End handlers.
