(* ===== verification/RV64Correct.v ===== *)
(** * The interpreter executes RV64IM

    The expressions of interpret.cpp for the destination register are the
    operations of the specification (RV64IM.v), the corner cases of shifts and
    divisions included.

    Every instruction of RV64IM that works on registers has, in the main
    interpreter, the effect the specification gives it, and the encodings the
    specification does not define are illegal instructions.  The specification
    is the one the microarchitecture implements (UarchRefine.v), so the two
    interpreters agree on these instructions. *)

From S2P Require Import Prelude CppInt Constants RiscvConstants UarchAccess UarchStep Bytes RV64IM UarchOps UarchRefine UarchStepSpec Pma MachineState UarchBridge UarchBridgeSpec DeviceAccess Clint Tlb Trap Csr CsrInsns HostMemory HostTlb VirtualMemory MachineOk TrapSpec VirtualMemorySpec IntegerInsns IntegerInsnsSpec MemoryInsns JumpTable Interpret RV64Dispatch.

Create HintDb rv_values.

(** ** Products *)

Lemma uint_mul_shift w a b i j : 0 <= w -> uint w ((a + i * 2 ^ w) * (b + j * 2 ^ w)) = uint w (a * b).
Proof.
  intros Hw. apply uint_eq_iff; [done|]. exists (i * b + a * j + i * j * 2 ^ w). lia.
Qed.

Lemma uint_mul_sint w a b : 0 <= w -> uint w (sint w a * sint w b) = uint w (a * b).
Proof.
  intros Hw. destruct (sint_shift w a) as [i ->], (sint_shift w b) as [j ->]. by apply uint_mul_shift.
Qed.

Lemma sint_mul_sint w a b : 0 <= w -> sint w (sint w a * sint w b) = sint w (a * b).
Proof. intros Hw. rewrite <- (sint_uint w), uint_mul_sint by done. by apply sint_uint. Qed.

Lemma sint_zero w b : 0 < w -> (sint w b =? 0) = (uint w b =? 0).
Proof.
  intros Hw. pose proof (pow2_half w Hw) as Hh. pose proof (pow2_pos (w - 1) ltac:(lia)) as Hp.
  pose proof (uint_range w b ltac:(lia)) as Hr. rewrite <- sint_uint, sint_cases by (lia || done).
  unfold is_uint in Hr. destruct (Z.ltb_spec (uint w b) (2 ^ (w - 1))); [done|].
  destruct (Z.eqb_spec (uint w b - 2 ^ w) 0), (Z.eqb_spec (uint w b) 0); lia || done.
Qed.

Lemma uint32_zero b : (uint32 b =? 0) = (int32 b =? 0).
Proof. by rewrite sint_zero by lia. Qed.

Lemma int64_zero b : is_uint 64 b -> (int64 b =? 0) = (b =? 0).
Proof. intros Hb. by rewrite sint_zero, uint_id by (lia || done). Qed.

(** A quotient of integers of a width fits in the width, except for the
    overflow. *)
Lemma quot_range w a b : 0 < w -> is_sint w a -> is_sint w b -> b <> 0 -> ~ (a = - 2 ^ (w - 1) /\ b = -1) -> is_sint w (Z.quot a b).
Proof.
  unfold is_sint. intros Hw Ha Hb H0 Hov. pose proof (pow2_pos (w - 1)) as Hp.
  destruct (Z.eq_dec b (-1)) as [->|Hb1].
  - change (-1) with (Z.opp 1). rewrite Z.quot_opp_r, Z.quot_1_r by lia. lia.
  - assert (Z.abs (Z.quot a b) <= Z.abs a) as Habs.
    { rewrite <- Z.quot_abs by done. apply Z.quot_le_upper_bound; nia. }
    destruct (Z.eq_dec b 1) as [->|Hb2]; [rewrite Z.quot_1_r; lia|].
    assert (2 * Z.abs (Z.quot a b) <= Z.abs a) as Hhalf.
    { rewrite <- Z.quot_abs by done. etrans; [|apply (Z.mul_quot_le (Z.abs a) (Z.abs b)); lia].
      apply Z.mul_le_mono_nonneg_r; [apply Z.quot_pos; lia|lia]. }
    lia.
Qed.

Lemma rem_range w a b : 0 < w -> is_sint w a -> is_sint w b -> b <> 0 -> is_sint w (Z.rem a b).
Proof.
  unfold is_sint. intros Hw Ha Hb H0. pose proof (Z.rem_bound_abs a b H0).
  destruct (Z.le_gt_cases 0 a); [pose proof (Z.rem_nonneg a b H0 ltac:(lia))|pose proof (Z.rem_nonpos a b H0 ltac:(lia))]; lia.
Qed.

Section values.
Context (a b imm : Z) (Ha : is_uint 64 a) (Hb : is_uint 64 b) (Himm : is_sint 64 imm).

Lemma land_xlen c : c &ᵇ (XLEN - 1) = c `mod` 64.
Proof. exact (land_3f c). Qed.

Lemma v_sll : uint64 (Z.shiftl a (b &ᵇ (XLEN - 1))) = alu64 SLL a b.
Proof. rewrite land_xlen, Z.shiftl_mul_pow2; [done|]. apply shift6_range. Qed.
Lemma v_srl : Z.shiftr a (b &ᵇ (XLEN - 1)) = alu64 SRL a b.
Proof. rewrite land_xlen, Z.shiftr_div_pow2; [done|]. apply shift6_range. Qed.
Lemma v_sra : uint64 (Z.shiftr (int64 a) (b &ᵇ (XLEN - 1))) = alu64 SRA a b.
Proof. rewrite land_xlen, Z.shiftr_div_pow2; [done|]. apply shift6_range. Qed.

Lemma v_addi : uint64 (int64 (int64 a + imm)) = alu64 ADD a (uint64 imm).
Proof. rewrite uint_sint, uint_add_sint_l by lia. cbn [alu64]. by rewrite uint_add_r by lia. Qed.
Lemma v_slti : b2u (int64 a <? imm) = alu64 SLT a (uint64 imm).
Proof. cbn [alu64]. by rewrite int64_uint64_imm. Qed.

Lemma v_addiw : uint64 (int32 (int32 a + imm)) = alu32 ADD a imm.
Proof. unfold alu32. f_equal. rewrite <- (sint_uint 32), uint_add_sint_l by lia. by apply sint_uint. Qed.
Lemma v_addw : uint64 (int32 (int32 a + int32 b)) = alu32 ADD a b.
Proof. unfold alu32. by rewrite sint_add_sint by lia. Qed.
Lemma v_subw : uint64 (int32 (int32 a - int32 b)) = alu32 SUB a b.
Proof. unfold alu32. by rewrite sint_sub_sint by lia. Qed.
Lemma v_sllw c : uint64 (int32 (uint32 (Z.shiftl (uint32 a) (c &ᵇ 31)))) = alu32 SLL a c.
Proof. unfold alu32. rewrite land_1f, Z.shiftl_mul_pow2, sint_uint; [done|lia|]. apply shift5_range. Qed.
Lemma v_srlw c : uint64 (int32 (Z.shiftr (uint32 a) (c &ᵇ 31))) = alu32 SRL a c.
Proof. unfold alu32. rewrite land_1f, Z.shiftr_div_pow2; [done|]. apply shift5_range. Qed.
Lemma v_sraw c : uint64 (Z.shiftr (int32 a) (c &ᵇ 31)) = alu32 SRA a c.
Proof. unfold alu32. rewrite <- UarchOps.sra32. unfold int32ShiftRight. done. Qed.

Lemma v_mul : uint64 (int64 (int64 a * int64 b)) = mul64 MUL a b.
Proof. cbn [mul64]. by rewrite uint_sint, uint_mul_sint by lia. Qed.
Lemma v_mulh : uint64 (int64 (Z.shiftr (int64 a * int64 b) 64)) = mul64 MULH a b.
Proof. cbn [mul64]. by rewrite uint_sint, Z.shiftr_div_pow2 by lia. Qed.
Lemma v_mulhsu : uint64 (int64 (Z.shiftr (int64 a * b) 64)) = mul64 MULHSU a b.
Proof. cbn [mul64]. by rewrite uint_sint, Z.shiftr_div_pow2 by lia. Qed.
Lemma v_mulhu : uint64 (Z.shiftr (a * b) 64) = mul64 MULHU a b.
Proof.
  cbn [mul64]. rewrite Z.shiftr_div_pow2 by lia. apply uint_id. unfold is_uint in *.
  split; [apply Z.div_pos; nia|]. apply Z.div_lt_upper_bound; nia.
Qed.
Lemma v_div :
  (if int64 b =? 0 then uint64 (-1)
   else if (int64 b =? -1) && (int64 a =? int64 (Z.shiftl 1 (XLEN - 1))) then uint64 (int64 a)
   else uint64 (Z.quot (int64 a) (int64 b))) = mul64 DIV a b.
Proof.
  cbn [mul64]. rewrite int64_zero by done. destruct (b =? 0); [done|].
  destruct (_ && _) eqn:E; [|done]. apply andb_prop in E as [->%Z.eqb_eq ->%Z.eqb_eq]. reflexivity.
Qed.
Lemma v_rem :
  (if int64 b =? 0 then uint64 (int64 a)
   else if (int64 b =? -1) && (int64 a =? int64 (Z.shiftl 1 (XLEN - 1))) then 0
   else uint64 (Z.rem (int64 a) (int64 b))) = mul64 REM a b.
Proof.
  cbn [mul64]. rewrite int64_zero by done. destruct (b =? 0); [rewrite uint_sint by lia; by apply uint_id|].
  destruct (_ && _) eqn:E; [|done]. apply andb_prop in E as [->%Z.eqb_eq ->%Z.eqb_eq]. reflexivity.
Qed.

Lemma v_mulw : uint64 (int32 (int32 a * int32 b)) = mul32 MUL a b.
Proof. unfold mul32. by rewrite sint_mul_sint by lia. Qed.
Lemma v_divw :
  (if int32 b =? 0 then uint64 (-1)
   else if (int32 b =? -1) && (int32 a =? int32 (Z.shiftl 1 31)) then uint64 (int32 a)
   else uint64 (Z.quot (int32 a) (int32 b))) = mul32 DIV a b.
Proof.
  unfold mul32. rewrite uint32_zero. destruct (Z.eqb_spec (int32 b) 0) as [|H0]; [done|].
  destruct (_ && _) eqn:E; [apply andb_prop in E as [->%Z.eqb_eq ->%Z.eqb_eq]; reflexivity|].
  f_equal. symmetry. apply sint_id; [lia|]. apply quot_range; try (apply sint_range; lia); [lia|done|].
  intros [Ea Eb]. rewrite Ea, Eb in E. done.
Qed.
Lemma v_remw :
  (if int32 b =? 0 then uint64 (int32 a)
   else if (int32 b =? -1) && (int32 a =? int32 (Z.shiftl 1 31)) then 0
   else uint64 (Z.rem (int32 a) (int32 b))) = mul32 REM a b.
Proof.
  unfold mul32. rewrite uint32_zero. destruct (Z.eqb_spec (int32 b) 0) as [|H0]; [done|].
  destruct (_ && _) eqn:E; [apply andb_prop in E as [->%Z.eqb_eq ->%Z.eqb_eq]; reflexivity|].
  f_equal. symmetry. apply sint_id; [lia|]. apply rem_range; try (apply sint_range; lia); [lia|done].
Qed.
Lemma v_divuw : (if uint32 b =? 0 then uint64 (-1) else uint64 (int32 (uint32 a / uint32 b))) = mul32 DIVU a b.
Proof. unfold mul32. by destruct (uint32 b =? 0). Qed.
Lemma v_remuw : (if uint32 b =? 0 then uint64 (int32 (uint32 a)) else uint64 (int32 (uint32 a mod uint32 b))) = mul32 REMU a b.
Proof. unfold mul32. destruct (uint32 b =? 0); [|done]. by rewrite sint_uint by lia. Qed.
End values.

#[export] Hint Resolve v_sll v_srl v_sra v_addi v_slti v_addiw v_addw v_subw v_sllw v_srlw v_sraw v_mul v_mulh v_mulhsu
  v_mulhu v_div v_rem v_mulw v_divw v_remw v_divuw v_remuw : rv_values.

(** The instructions that neither access memory nor trap *)
Definition register_insn (i : im_instr) : bool :=
  match i with Base (Load _ _ _ _ _ | Store _ _ _ _ | Fence | Ecall | Ebreak) => false | _ => true end.

(** A soft yield is a shift of [x31] to [x0], in machines that enable it. *)
Definition status_of (i : im_instr) (s : machine_state) : execute_status :=
  match i with
  | Base (OpImmW SRA 0 31 _) => if s_soft_yield s then success_and_yield else success
  | _ => success
  end.

(** ** What decoding says of the fields *)

Definition decoded (i : im_instr) (insn : Z) : Prop :=
  match i with
  | Base (Lui r imm) | Base (Auipc r imm) => r = rd insn /\ imm = imm_U insn
  | Base (Jal r imm) => r = rd insn /\ imm = imm_J insn
  | Base (Jalr r s imm) => r = rd insn /\ s = rs1 insn /\ imm = imm_I insn
  | Base (Branch c r s imm) => r = rs1 insn /\ s = rs2 insn /\ imm = imm_B insn
  | Base (Load w sign r s imm) => r = rd insn /\ s = rs1 insn /\ imm = imm_I insn
  | Base (Store w r s imm) => r = rs1 insn /\ s = rs2 insn /\ imm = imm_S insn
  | Base (OpImm op r s imm) =>
      decode_op_imm (funct3 insn) (funct7 insn) = Some op /\ r = rd insn /\ s = rs1 insn /\
      imm = if is_shift op then shamt6 insn else imm_I insn
  | Base (OpImmW op r s imm) =>
      decode_op_imm_w (funct3 insn) (funct7 insn) = Some op /\ r = rd insn /\ s = rs1 insn /\
      imm = if is_shift op then shamt5 insn else imm_I insn
  | Base (OpReg op r s t) => decode_op (funct3 insn) (funct7 insn) = Some op /\ r = rd insn /\ s = rs1 insn /\ t = rs2 insn
  | Base (OpRegW op r s t) =>
      opcode insn = 0x3b /\ decode_op_w (funct3 insn) (funct7 insn) = Some op /\ r = rd insn /\ s = rs1 insn /\ t = rs2 insn
  | MulDiv op false r s t => decode_mul (funct3 insn) = Some op /\ r = rd insn /\ s = rs1 insn /\ t = rs2 insn
  | MulDiv op true r s t =>
      opcode insn = 0x3b /\ funct7 insn = 1 /\ decode_mul_w (funct3 insn) = Some op /\
      r = rd insn /\ s = rs1 insn /\ t = rs2 insn
  | _ => True
  end.

#[local] Ltac option_cases :=
  repeat match goal with
  | |- context [match ?o with Some _ => _ | None => _ end] => destruct o as [?|] eqn:?
  | |- context [let '(_, _) := ?p in _] => destruct p
  end.

Lemma decode_im_decoded insn i : decode_im insn = Some i -> decoded i insn.
Proof.
  unfold decode_im. destruct (decode insn) as [i'|] eqn:E.
  - intros [= <-]. revert E. unfold decode.
    repeat match goal with |- context [if ?a =? ?b then _ else _] => destruct (Z.eqb_spec a b) end;
      cbv beta zeta delta [mbind option_bind]; option_cases; intros [= <-]; done.
  - clear E. unfold decode_m. destruct (Z.eqb_spec (funct7 insn) 1) as [Hf|]; [|done]. cbn [negb].
    repeat match goal with |- context [if ?a =? ?b then _ else _] => destruct (Z.eqb_spec a b) end;
      cbv beta zeta delta [mbind option_bind]; option_cases; intros [= <-]; done.
Qed.

(** An instruction on registers is of an opcode of RV64IM. *)
Lemma register_opcode insn i : decode_im insn = Some i -> register_insn i = true -> opcode insn ∈ map fst rv64im_names.
Proof.
  cbn [map fst rv64im_names]. rewrite !elem_of_cons. unfold decode_im. destruct (decode insn) as [i'|] eqn:E.
  - intros [= <-]. revert E. unfold decode.
    repeat match goal with |- context [if opcode insn =? ?b then _ else _] => destruct (Z.eqb_spec (opcode insn) b); [by auto 20|] end.
    cbv beta zeta delta [mbind option_bind]; repeat case_match; intros [= <-]; done.
  - clear E. unfold decode_m. destruct (negb _); [done|].
    repeat match goal with |- context [if opcode insn =? ?b then _ else _] => destruct (Z.eqb_spec (opcode insn) b); [by auto 20|] end.
    done.
Qed.

Section correct.
Context {M : Type} `{WordMem M} (m : M) (driver : string -> pma_driver) (poll_host : hart -> Z -> Z -> host_events).

(** The state the specification sees, at [pc]; it does not use the memory. *)
Definition rv_view (s : machine_state) (pc : Z) : rv_state M := RvState (s_x s) pc 0 false m [].

(** [o] is the result [r] of the specification: the registers and the program
    counter are those of [r] and the rest of the state is that of [s]. *)
Definition runs_as (status : execute_status) (r : outcome (rv_state M)) (s : machine_state) (o : insn_result) : Prop :=
  exists x pc, r = Done (RvState x pc 0 false m []) /\ o = Done (status, pc, assign upd_x x s).

Lemma assign_x_same s : assign upd_x (s_x s) s = s.
Proof. by destruct s. Qed.

Lemma reg_view s pc r : reg (rv_view s pc) r = read_x s r.
Proof. done. Qed.

(** ** Results *)

Lemma runs_writeback s pc insn v :
  runs_as success (mret (next (set_reg (rd insn) v (rv_view s pc)))) s
    (unless_x0 (kind_of (rd insn)) s pc
       (s ← write_x s (insn_get_rd insn) v; advance_to_next_insn s pc 4 success)).
Proof.
  rewrite insn_get_rd_spec. unfold runs_as, kind_of, set_reg, write_x. destruct (rd insn =? 0) eqn:E.
  - exists (s_x s), (uint64 (pc + 4)). split; [done|]. by rewrite assign_x_same.
  - by eexists _, _.
Qed.

Lemma runs_jump s pc insn target :
  runs_as success (mret (set_pc target (set_reg (rd insn) (uint64 (pc + 4)) (rv_view s pc)))) s
    (match kind_of (rd insn) with
     | rd_x0 => execute_jump s target
     | rd_xN => s ← write_x s (insn_get_rd insn) (uint64 (pc + 4)); execute_jump s target
     end).
Proof.
  rewrite insn_get_rd_spec. unfold runs_as, kind_of, set_reg, write_x. destruct (rd insn =? 0) eqn:E.
  - exists (s_x s), target. split; [done|]. by rewrite assign_x_same.
  - by eexists _, _.
Qed.

Section instruction.
Context (u : fixed) (s : machine_state) (Hs : machine_ok u s) (pc insn : Z) (Hinsn : is_uint 32 insn).

Lemma x_range r : is_uint 64 (read_x s r).
Proof. by eapply read_x_range. Qed.

Lemma arithmetic_runs f v :
  f (read_x s (rs1 insn)) (read_x s (rs2 insn)) = v ->
  runs_as success (mret (next (set_reg (rd insn) v (rv_view s pc)))) s (arithmetic f (kind_of (rd insn)) s pc insn).
Proof.
  intros <-. unfold arithmetic, execute_arithmetic. rewrite insn_get_rs1_spec, insn_get_rs2_spec. apply runs_writeback.
Qed.

Lemma arithmetic_immediate_runs f v :
  f (read_x s (rs1 insn)) (imm_I insn) = v ->
  runs_as success (mret (next (set_reg (rd insn) v (rv_view s pc)))) s (arithmetic_immediate f (kind_of (rd insn)) s pc insn).
Proof.
  intros <-. unfold arithmetic_immediate, execute_arithmetic_immediate. rewrite insn_get_rs1_spec, insn_I_get_imm_spec. apply runs_writeback.
Qed.

Lemma branch_runs c f :
  f (read_x s (rs1 insn)) (read_x s (rs2 insn)) = eval_cond c (read_x s (rs1 insn)) (read_x s (rs2 insn)) ->
  runs_as success (exec (Branch c (rs1 insn) (rs2 insn) (imm_B insn)) (rv_view s pc)) s (execute_branch f s pc insn).
Proof.
  intros E. unfold execute_branch. rewrite insn_get_rs1_spec, insn_get_rs2_spec, insn_B_get_imm_spec, E by done.
  cbn [exec]. rewrite !reg_view. destruct (eval_cond _ _ _); exists (s_x s); eexists; (split; [reflexivity|]);
    by rewrite assign_x_same.
Qed.

(** ** Instructions *)

Lemma imm_mod64 : imm_I insn `mod` 64 = uint64 (shamt6 insn) `mod` 64.
Proof.
  rewrite uint64_mod64. unfold imm_I, shamt6. rewrite (Z.mod_small (field insn 20 6)) by (apply field_range; lia).
  transitivity (field insn 20 12 `mod` 64); [exact (uint_sint_le 6 12 (field insn 20 12) ltac:(lia))|].
  exact (uint_uint_le 6 12 (insn `div` 2 ^ 20) ltac:(lia)).
Qed.

Lemma imm_mod32 : imm_I insn `mod` 32 = shamt5 insn `mod` 32.
Proof.
  unfold imm_I, shamt5. rewrite (Z.mod_small (field insn 20 5)) by (apply field_range; lia).
  transitivity (field insn 20 12 `mod` 32); [exact (uint_sint_le 5 12 (field insn 20 12) ltac:(lia))|].
  exact (uint_uint_le 5 12 (insn `div` 2 ^ 20) ltac:(lia)).
Qed.

Lemma v_shift op a b : is_shift op = true -> a `mod` 64 = b `mod` 64 -> forall v, alu64 op v a = alu64 op v b.
Proof. intros Hop E v. destruct op; try done; cbn [alu64]; by rewrite E. Qed.

Lemma v_shift_w op a b : is_shift op = true -> a `mod` 32 = b `mod` 32 -> forall v, alu32 op v a = alu32 op v b.
Proof. intros Hop E v. destruct op; try done; unfold alu32; by rewrite E. Qed.

(** The handler of an instruction is a function of the state. *)
Definition runs (i : im_instr) : Prop :=
  exists f, im_handler driver i (kind_of (rd insn)) = on_state f /\
    runs_as (status_of i s) (exec_im i (rv_view s pc)) s (f s pc insn).

Lemma decode_slli : decode_op_imm (funct3 insn) (funct7 insn) = Some SLL -> (funct7 insn `div` 2 =? 0) = true.
Proof. unfold decode_op_imm. by repeat case_match. Qed.

Lemma op_imm_runs op :
  decode_op_imm (funct3 insn) (funct7 insn) = Some op ->
  runs (Base (OpImm op (rd insn) (rs1 insn) (if is_shift op then shamt6 insn else imm_I insn))).
Proof.
  intros Hop. pose proof (x_range (rs1 insn)) as Ha. pose proof (imm_I_range insn) as Hi.
  destruct op; cbn [is_shift]; try (by unfold decode_op_imm in Hop; repeat case_match);
    (eexists; split; [reflexivity|]); cbn [exec_im exec status_of]; rewrite ?reg_view.
  - apply arithmetic_immediate_runs. auto with rv_values.
  - unfold execute_SLLI. rewrite checked_shift, decode_slli by done. apply arithmetic_immediate_runs.
    rewrite <- (v_shift SLL _ _ eq_refl imm_mod64). by apply v_sll.
  - apply arithmetic_immediate_runs. by apply v_slti.
  - by apply arithmetic_immediate_runs.
  - by apply arithmetic_immediate_runs.
  - apply arithmetic_immediate_runs. rewrite <- (v_shift SRL _ _ eq_refl imm_mod64). by apply v_srl.
  - apply arithmetic_immediate_runs. rewrite <- (v_shift SRA _ _ eq_refl imm_mod64). by apply v_sra.
  - by apply arithmetic_immediate_runs.
  - by apply arithmetic_immediate_runs.
Qed.

Lemma decode_slliw : decode_op_imm_w (funct3 insn) (funct7 insn) = Some SLL -> (insn_get_funct7 insn =? 0) = true.
Proof. rewrite insn_get_funct7_spec by done. unfold decode_op_imm_w. by repeat case_match. Qed.

(** The arithmetic shift of words, whose encodings with the destination [x0]
    are hints: one of them is the soft yield *)
Lemma sraiw_runs :
  runs_as (status_of (Base (OpImmW SRA (rd insn) (rs1 insn) (shamt5 insn))) s)
    (exec (OpImmW SRA (rd insn) (rs1 insn) (shamt5 insn)) (rv_view s pc)) s (execute_SRAIW (kind_of (rd insn)) s pc insn).
Proof.
  destruct (Z.eqb_spec (rd insn) 0) as [E|Hne].
  - rewrite E. unfold kind_of, execute_SRAIW. cbn [Z.eqb]. rewrite insn_get_rs1_spec.
    assert (status_of (Base (OpImmW SRA 0 (rs1 insn) (shamt5 insn))) s =
            if (rs1 insn =? 31) && s_soft_yield s then success_and_yield else success) as ->.
    { cbn [status_of]. destruct (Z.eqb_spec (rs1 insn) 31) as [->|Hn]; [done|]. cbn [andb]. by repeat case_match. }
    exists (s_x s), (uint64 (pc + 4)). split; [done|]. rewrite assign_x_same. by destruct (_ && _).
  - assert (status_of (Base (OpImmW SRA (rd insn) (rs1 insn) (shamt5 insn))) s = success) as ->.
    { cbn [status_of]. by destruct (rd insn). }
    assert (kind_of (rd insn) = rd_xN) as Hk. { unfold kind_of. by destruct (Z.eqb_spec (rd insn) 0). }
    pose proof (arithmetic_immediate_runs (fun rs1 imm => uint64 (Z.shiftr (int32 rs1) (imm &ᵇ 31)))
      (alu32 SRA (read_x s (rs1 insn)) (shamt5 insn))) as Hr. unfold arithmetic_immediate in Hr. rewrite Hk in *. apply Hr.
    rewrite <- (v_shift_w SRA _ _ eq_refl imm_mod32). by apply v_sraw.
Qed.

Lemma op_imm_w_runs op :
  decode_op_imm_w (funct3 insn) (funct7 insn) = Some op ->
  runs (Base (OpImmW op (rd insn) (rs1 insn) (if is_shift op then shamt5 insn else imm_I insn))).
Proof.
  intros Hop. pose proof (x_range (rs1 insn)) as Ha. pose proof (imm_I_range insn) as Hi.
  destruct op; cbn [is_shift]; try (by unfold decode_op_imm_w in Hop; repeat case_match);
    (eexists; split; [reflexivity|]); [| | |apply sraiw_runs]; cbn [exec_im exec status_of]; rewrite ?reg_view.
  - apply arithmetic_immediate_runs. auto with rv_values.
  - unfold execute_SLLIW. rewrite decode_slliw by done. apply arithmetic_immediate_runs.
    rewrite <- (v_shift_w SLL _ _ eq_refl imm_mod32). by apply v_sllw.
  - apply arithmetic_immediate_runs. rewrite <- (v_shift_w SRL _ _ eq_refl imm_mod32). by apply v_srlw.
Qed.

Lemma op_runs op :
  decode_op (funct3 insn) (funct7 insn) = Some op -> runs (Base (OpReg op (rd insn) (rs1 insn) (rs2 insn))).
Proof.
  intros Hop. pose proof (x_range (rs1 insn)) as Ha. pose proof (x_range (rs2 insn)) as Hb.
  destruct op; (eexists; split; [reflexivity|]); cbn [exec_im exec status_of]; rewrite ?reg_view;
    apply arithmetic_runs; auto with rv_values.
Qed.

Lemma decode_sllw : decode_op_w (funct3 insn) (funct7 insn) = Some SLL -> funct3 insn = 1 /\ (funct7 insn =? 0) = true.
Proof. unfold decode_op_w. by repeat case_match. Qed.

Lemma op_w_runs op :
  opcode insn = 0x3b -> decode_op_w (funct3 insn) (funct7 insn) = Some op ->
  runs (Base (OpRegW op (rd insn) (rs1 insn) (rs2 insn))).
Proof.
  intros Ho Hop. pose proof (x_range (rs1 insn)) as Ha. pose proof (x_range (rs2 insn)) as Hb.
  destruct op; try (by unfold decode_op_w in Hop; repeat case_match); (eexists; split; [reflexivity|]);
    cbn [exec_im exec status_of]; rewrite ?reg_view; [..| |]; try (apply arithmetic_runs; by auto with rv_values).
  unfold execute_SLLW. destruct (decode_sllw Hop) as [E3 E7]. rewrite (checked_funct7_spec _ 1 0), E7 by (done || lia).
  apply arithmetic_runs. auto with rv_values.
Qed.

Lemma mul_runs op : decode_mul (funct3 insn) = Some op -> runs (MulDiv op false (rd insn) (rs1 insn) (rs2 insn)).
Proof.
  intros _. pose proof (x_range (rs1 insn)) as Ha. pose proof (x_range (rs2 insn)) as Hb.
  destruct op; (eexists; split; [reflexivity|]); cbn [exec_im status_of mul_handler]; rewrite ?reg_view;
    apply arithmetic_runs; auto with rv_values.
Qed.

Lemma decode_mul_w_funct3 op :
  decode_mul_w (funct3 insn) = Some op ->
  funct3 insn = match op with DIV => 4 | DIVU => 5 | REM => 6 | REMU => 7 | _ => 0 end.
Proof. unfold decode_mul_w. repeat case_match; intros [=]; by subst. Qed.

Lemma mul_w_runs op :
  opcode insn = 0x3b -> funct7 insn = 1 -> decode_mul_w (funct3 insn) = Some op ->
  runs (MulDiv op true (rd insn) (rs1 insn) (rs2 insn)).
Proof.
  intros Ho H7 Hop. pose proof (x_range (rs1 insn)) as Ha. pose proof (x_range (rs2 insn)) as Hb.
  pose proof (decode_mul_w_funct3 op Hop) as H3.
  destruct op; try (by unfold decode_mul_w in Hop; repeat case_match); (eexists; split; [reflexivity|]);
    cbn [exec_im status_of]; rewrite ?reg_view.
  all: unfold execute_DIVW, execute_REMW, execute_REMUW.
  all: rewrite ?(checked_funct7_spec 0x0200403b 4 1), ?(checked_funct7_spec 0x0200603b 6 1),
         ?(checked_funct7_spec 0x0200703b 7 1), ?H7 by (done || lia).
  all: apply arithmetic_runs; auto with rv_values.
Qed.

Lemma branches_runs c : runs (Base (Branch c (rs1 insn) (rs2 insn) (imm_B insn))).
Proof. destruct c; (eexists; split; [reflexivity|]); by apply branch_runs. Qed.

Lemma register_runs i : register_insn i = true -> decoded i insn -> runs i.
Proof.
  intros Hr Hd. destruct i as [[]|op [] r s1 s2]; try discriminate Hr; cbn [decoded] in Hd; destruct_and? Hd; subst.
  - eexists. split; [reflexivity|]. unfold execute_LUI. rewrite insn_U_get_imm_spec by done. apply runs_writeback.
  - eexists. split; [reflexivity|]. unfold execute_AUIPC. rewrite insn_U_get_imm_spec by done. apply runs_writeback.
  - eexists. split; [reflexivity|]. unfold execute_JAL. rewrite insn_J_get_imm_spec by done. apply runs_jump.
  - eexists. split; [reflexivity|]. unfold execute_JALR. rewrite insn_I_get_imm_spec, insn_get_rs1_spec by done.
    cbn [exec_im exec]. rewrite reg_view, <- jalr_target_spec, target_spec. apply runs_jump.
  - apply branches_runs.
  - by apply op_imm_runs.
  - by apply op_imm_w_runs.
  - by apply op_runs.
  - by apply op_w_runs.
  - by apply mul_w_runs.
  - by apply mul_runs.
Qed.
End instruction.

(** ** The theorem *)

Lemma execute_register h pc mcycle insn u i :
  machine_ok u (h_s h) -> is_uint 32 insn -> decode_im insn = Some i -> register_insn i = true ->
  exists x pc',
    exec_im i (rv_view (h_s h) pc) = Done (RvState x pc' 0 false m []) /\
    execute_insn driver poll_host h pc mcycle insn =
      Done (status_of i (h_s h), pc', mcycle, set_s (assign upd_x x (h_s h)) h).
Proof.
  intros Hs Hi Hd Hr. rewrite execute_insn_decode, Hd by (done || by eapply register_opcode).
  destruct (register_runs u (h_s h) Hs pc insn Hi i Hr (decode_im_decoded _ _ Hd)) as (f & -> & x & pc' & E & Ef).
  exists x, pc'. split; [done|]. unfold on_state. by rewrite Ef.
Qed.
End correct.

(** ** Properties *)

(** C2: The interpreter implements the integer instructions of RV64IM: for every
    encoding of their opcodes, an instruction that works on registers writes the
    registers and the program counter that the specification gives and leaves
    the rest of the machine as it was (in particular divisions by zero, the
    overflow of divisions, shift amounts and the writes to [x0]), and a word the
    specification does not define raises the exception of illegal instructions. *)
Theorem execute_insn_rv64im {M} `{WordMem M} (m : M) driver poll_host u h pc mcycle insn :
  machine_ok u (h_s h) -> is_uint 32 insn ->
  opcode insn ∈ [0x37; 0x17; 0x6f; 0x67; 0x63; 0x03; 0x23; 0x13; 0x1b; 0x33; 0x3b] ->
  match decode_im insn with
  | Some i =>
      register_insn i = true ->
      exists x pc',
        exec_im i (rv_view m (h_s h) pc) = Done (RvState x pc' 0 false m []) /\
        execute_insn driver poll_host h pc mcycle insn =
          Done (status_of i (h_s h), pc', mcycle, set_s (assign upd_x x (h_s h)) h)
  | None =>
      execute_insn driver poll_host h pc mcycle insn =
      ('(status, pc', s') ← raise_illegal_insn_exception (h_s h) pc insn; mret (status, pc', mcycle, set_s s' h))
  end.
Proof.
  intros Hs Hi Hop. destruct (decode_im insn) as [i|] eqn:Hd.
  - intros Hr. by eapply execute_register.
  - rewrite execute_insn_decode, Hd by done. done.
Qed.

(** C4: The two interpreters agree: an instruction of RV64I that works on
    registers, executed by the step of the microarchitecture and by the main
    interpreter from the same registers and program counter, leaves both with
    the same registers and the same program counter. *)
Theorem interpreters_agree {M} `{WordMem M} (valid : M -> Prop) `{!WordMemLaws M valid} (m : M)
    driver poll_host u h pc mcycle insn i :
  machine_ok u (h_s h) -> valid m -> is_uint 64 pc -> is_uint 32 insn ->
  decode insn = Some i -> register_insn (Base i) = true ->
  exists status x pc',
    run rv_handler (executeInsn insn pc) (rv_view m (h_s h) pc) = (Done tt, RvState x pc' 0 false m []) /\
    execute_insn driver poll_host h pc mcycle insn = Done (status, pc', mcycle, set_s (assign upd_x x (h_s h)) h).
Proof.
  intros Hs Hm Hpc Hi Hd Hr.
  assert (wf (rv_view m (h_s h) pc)) as Hwf.
  { split; [exact (wf_x _ (to_machine _ (ok_tlb _ _ Hs)))|]. split; [apply Hs|]. split; [exact (ok_x0 _ _ Hs)|by split]. }
  destruct (execute_register m driver poll_host h pc mcycle insn u (Base i) Hs Hi) as (x & pc' & E & Ex);
    [unfold decode_im; by rewrite Hd|done|].
  eexists _, x, pc'. split; [|exact Ex].
  pose proof (executeInsn_spec valid insn (rv_view m (h_s h) pc) Hi Hwf Hm) as Hrun.
  rewrite Hd in Hrun. cbn [exec_im] in E. rewrite E in Hrun. exact Hrun.
Qed.

(** *** Concrete runs *)

(** A memory of one word, and a machine with two operands in its registers *)
#[local] Instance word_memory : WordMem Z := {| mem_load m _ := Done m; mem_store _ _ v := Done v; mem_reset _ := Done 0 |}.

#[local] Instance word_memory_laws : WordMemLaws Z (is_uint 64).
Proof. split; [by intros m a w Hm [= <-]|by intros m a v m' Hm Hv [= <-]|by intros m m' Hm [= <-]]. Qed.

Definition operands (a b : Z) : hart := Hart (assign_at upd_x 2 b (assign_at upd_x 1 a (boot []))) [] [].

Lemma operands_ok a b : is_uint 64 a -> is_uint 64 b -> machine_ok (boot_fixed []) (h_s (operands a b)).
Proof.
  intros Ha Hb. apply (ok_assign_x _ _ (ok_assign_x _ _ (boot_ok [] (Forall_nil_2 _)) 1 a ltac:(lia) Ha) 2 b ltac:(lia) Hb).
Qed.

Definition no_host (h : hart) (mcycle timeout : Z) : host_events := HostEvents false 0 0 0 h.

(** The division that overflows: [div x3, x1, x2] *)
Lemma execute_insn_rv64im_witness :
  let h := operands (2 ^ 63) (2 ^ 64 - 1) in
  exists x, execute_insn machine_driver no_host h 0x80000000 0 0x0220c1b3 =
    Done (success, 0x80000004, 0, set_s (assign upd_x x (h_s h)) h) /\ nth 3 x 0 = 2 ^ 63.
Proof.
  intros h. pose proof (execute_insn_rv64im 0 machine_driver no_host (boot_fixed []) h 0x80000000 0 0x0220c1b3) as Hx.
  destruct Hx as (x & pc' & E & Ex); [apply operands_ok; split; done|split; done| |reflexivity|].
  - replace (opcode 0x0220c1b3) with 0x33 by reflexivity. rewrite !elem_of_cons. auto 20.
  - exists x. vm_compute in E. injection E as <- <-. split; [exact Ex|reflexivity].
Defined.

(** [sub x3, x1, x2] in both interpreters *)
Lemma interpreters_agree_witness :
  let h := operands 5 7 in
  exists x pc', run rv_handler (executeInsn 0x402081b3 0x80000000) (rv_view 0 (h_s h) 0x80000000) =
    (Done tt, RvState x pc' 0 false 0 []) /\ nth 3 x 0 = 2 ^ 64 - 2.
Proof.
  intros h.
  destruct (interpreters_agree (is_uint 64) 0 machine_driver no_host (boot_fixed []) h 0x80000000 0 0x402081b3 (OpReg SUB 3 1 2))
    as (st & x & pc' & E & _); [apply operands_ok; split; done|split; done..|reflexivity|reflexivity|].
  exists x, pc'. split; [exact E|]. vm_compute in E. by injection E as <- <-.
Defined.
