(* ===== verification/InterpretSpec.v ===== *)
(** * The interpreter returns and keeps the machine well formed

    Every case of the switch keeps the invariant; so does an iteration of the
    loop, as long as the cache of the last fetch is valid where it is used; the
    loops end after at most as many iterations as there are cycles left. *)

From stdpp Require Import relations.
From S2P Require Import Prelude CppInt Constants RiscvConstants UarchAccess Bytes RV64IM Pma MachineState UarchBridge UarchBridgeSpec UarchState DeviceAccess Clint Tlb Trap Csr CsrInsns TranslateVirtualAddress HostMemory HostTlb VirtualMemory MachineOk TrapSpec VirtualMemorySpec PrivilegedSpec IntegerInsns IntegerInsnsSpec MemoryInsns MemoryInsnsSpec SoftFloat FloatInsns FloatInsnsSpec JumpTable Interpret RV64Dispatch.

(** The law of the host: what it does to the machine while it waits keeps the
    machine well formed. *)
Class HostOk (u : fixed) (poll_host : hart -> Z -> Z -> host_events) : Prop :=
  host_ok h mcycle timeout : machine_ok u (h_s h) -> machine_ok u (h_s (after_poll (poll_host h mcycle timeout))).

Section interpreter.
Context (u : fixed) (driver : string -> pma_driver) (Hdriver : forall name, DeviceOk u (driver name)).
Context (poll_host : hart -> Z -> Z -> host_events) `{Hhost : !HostOk u poll_host}.

(** ** Cycles *)

(** The cycle does not decrease; it changes only while the machine waits, which
    it does not in reproducible mode. *)
Definition later (mcycle mcycle' : Z) : Prop :=
  mcycle <= mcycle' < 2 ^ 64 - 1 /\ (fx_iunrep u = 0 -> mcycle' = mcycle).

Lemma later_refl mcycle : 0 <= mcycle < 2 ^ 64 - 1 -> later mcycle mcycle.
Proof. unfold later. lia. Qed.

Lemma time_to_cycle_bound t : 0 <= rtc_time_to_cycle t < 2 ^ 64 - 1.
Proof.
  unfold rtc_time_to_cycle, RTC_FREQ_DIV, uint.
  assert ((t * 8192) `mod` 2 ^ 64 = t `mod` 2 ^ 51 * 8192) as ->
    by (change (2 ^ 64) with (2 ^ 51 * 8192); by rewrite Z.mul_mod_distr_r). pose proof (Z.mod_pos_bound t (2 ^ 51) ltac:(lia)). lia.
Qed.

Lemma poll_ok h mcycle mcycle_max :
  machine_ok u (h_s h) -> 0 <= mcycle <= mcycle_max -> mcycle_max < 2 ^ 64 - 1 ->
  let '(mcycle', _, h') := poll_external_interrupts poll_host h mcycle mcycle_max in
  machine_ok u (h_s h') /\ mcycle' <= mcycle_max /\ later mcycle mcycle'.
Proof.
  intros Hs Hm Hmax. unfold poll_external_interrupts. rewrite (ok_iunrep _ _ Hs).
  destruct (Z.eqb_spec (fx_iunrep u) 0) as [E|E]; cbn [negb]; [split; [done|]; unfold later; lia|].
  split; [by apply host_ok|]. unfold later. case_if; lia.
Qed.

(** ** Handlers *)

Definition step_ok (mcycle : Z) : execute_status * Z * Z * hart -> Prop :=
  fun '(status, pc, mcycle', h) => store_ok u (status, pc, h) /\ later mcycle mcycle'.

Definition step_handler_ok (k : rd_kind) (f : handler) : Prop :=
  forall h pc mcycle insn, machine_ok u (h_s h) -> pc_ok pc -> is_uint 32 insn -> 0 <= mcycle < 2 ^ 64 - 1 ->
  (k = rd_xN -> insn_get_rd insn <> 0) -> returns (f h pc mcycle insn) (step_ok mcycle).

Lemma on_state_ok k f : handler_ok u k f -> step_handler_ok k (on_state f).
Proof.
  intros Hf h pc mcycle insn Hs Hpc Hi Hm Hk. unfold on_state. eapply returns_then; [by apply Hf|].
  intros [[status pc'] s'] (H1 & H2 & H3). split; [|by apply later_refl]. split; [by split|]. intros E. by destruct (H1 E).
Qed.

Lemma on_csr_ok k f : (forall mcycle, is_uint 64 mcycle -> handler_ok u rd_x0 (fun s pc insn => f s pc mcycle insn)) ->
  step_handler_ok k (on_csr f).
Proof.
  intros Hf h pc mcycle insn Hs Hpc Hi Hm Hk. unfold on_csr. eapply returns_then; [apply (Hf mcycle); done || (unfold is_uint; lia)|].
  intros [[status pc'] s'] (H1 & H2 & H3). split; [|by apply later_refl]. split; [by split|]. intros E. by destruct (H1 E).
Qed.

Lemma on_hart_ok k f : memory_handler_ok u k f -> step_handler_ok k (on_hart f).
Proof.
  intros Hf h pc mcycle insn Hs Hpc Hi Hm Hk. unfold on_hart. eapply returns_then; [by apply Hf|].
  intros [[status pc'] h'] H. split; [exact H|by apply later_refl].
Qed.

Lemma execute_WFI_ok k : step_handler_ok k (execute_WFI poll_host).
Proof.
  intros h pc mcycle insn Hs Hpc Hi Hm _. unfold execute_WFI. cbv zeta. case_if.
  - exact (on_state_ok rd_x0 raise_illegal_insn_exception (fun s pc insn H1 H2 H3 _ => illegal_ok u s pc insn H1 H2 H3) h pc mcycle insn Hs Hpc Hi Hm ltac:(done)).
  - pose proof (time_to_cycle_bound (mtimecmp (s_clint (h_s h)))) as Hmax. set (mcycle_max := rtc_time_to_cycle _) in *.
    destruct (Z.ltb_spec mcycle mcycle_max).
    + pose proof (poll_ok h mcycle mcycle_max Hs ltac:(lia) ltac:(lia)) as Hp.
      destruct (poll_external_interrupts _ _ _ _) as [[mcycle' interrupted] h']. destruct Hp as (Hs' & _ & Hl).
      eapply returns_then; [apply (advance_h_ok u h' pc 4); [by split|done|]; by destruct interrupted|].
      intros [[status pc'] h2] H2. by split.
    + eapply returns_then; [by apply (advance_h_ok u h pc 4)|]. intros [[status pc'] h2] H2. split; [done|by apply later_refl].
Qed.

Lemma privileged_ok k : Forall (handler_ok u k)
  [execute_ECALL; execute_EBREAK; execute_SRET; execute_MRET; execute_SFENCE_VMA; raise_illegal_insn_exception; execute_FENCE; execute_FENCE_I].
Proof.
  repeat (apply Forall_cons; split); [..|by apply Forall_nil]; intros s pc insn Hs Hpc Hi _; pose proof (is_uint_32_64 _ Hi).
  - by apply execute_ECALL_ok.
  - by apply execute_EBREAK_ok.
  - by apply execute_SRET_ok.
  - by apply execute_MRET_ok.
  - by apply execute_SFENCE_VMA_ok.
  - by apply illegal_ok.
  - by apply advance_ok.
  - by apply advance_ok.
Qed.

Lemma execute_privileged_ok k : step_handler_ok k (execute_privileged poll_host).
Proof.
  pose proof (privileged_ok k) as H. split_all. intros h pc mcycle insn Hs Hpc Hi Hm Hk. unfold execute_privileged.
  repeat (case_if; [first [by apply (on_state_ok k)|by apply (execute_WFI_ok k)]|]). by apply (on_state_ok k).
Qed.

(** ** The switch *)

Definition kind_of (label : string) : rd_kind := if needs_rd label then rd_xN else rd_x0.
Definition case_ok (c : string * handler) : Prop := step_handler_ok (kind_of (fst c)) (snd c).

Ltac same_state :=
  lazymatch goal with |- case_ok (_, on_state ?g) =>
    apply on_state_ok; lazymatch goal with |- handler_ok _ ?k _ => let k' := eval vm_compute in k in change (handler_ok u k' g) end;
    match goal with H : handler_ok _ _ ?f |- _ => constr_eq f g; exact H end
  end.

Ltac same_hart :=
  lazymatch goal with |- case_ok (_, on_hart ?g) =>
    apply on_hart_ok; lazymatch goal with |- memory_handler_ok _ ?k _ => let k' := eval vm_compute in k in change (memory_handler_ok u k' g) end;
    match goal with H : memory_handler_ok _ _ ?f |- _ => constr_eq f g; exact H end
  end.

Ltac same_csr :=
  apply on_csr_ok; intros mcycle Hm; pose proof (csr_handlers_ok u mcycle Hm); split_all;
  lazymatch goal with |- handler_ok _ _ (fun s pc insn => ?g s pc _ insn) =>
    match goal with H : handler_ok _ _ (fun s pc insn => ?f s pc _ insn) |- _ => constr_eq f g; exact H end
  end.

Lemma branches_ok k : Forall (handler_ok u k) [execute_BEQ; execute_BNE; execute_BLT; execute_BGE; execute_BLTU; execute_BGEU].
Proof. repeat (apply Forall_cons; split); [..|by apply Forall_nil]; intros s pc insn Hs Hpc Hi _; by apply execute_branch_ok. Qed.

Lemma cases_IM_ok : Forall case_ok (insn_cases_IM driver).
Proof.
  pose proof (jumps_ok u rd_xN) as H1. pose proof (jumps_ok u rd_x0) as H2. pose proof (branches_ok rd_x0) as H3.
  pose proof (word_handlers_ok u rd_xN) as H4. pose proof (double_handlers_ok u rd_xN) as H5. pose proof (groups_ok u rd_xN) as H6.
  pose proof (loads_ok u driver Hdriver rd_xN) as H7. pose proof (stores_ok u driver Hdriver rd_x0) as H8.
  cbn [map] in *. split_all.
  repeat (apply Forall_cons; split; [first [same_state|same_hart]|]); by apply Forall_nil.
Qed.

Lemma cases_C_ok : Forall case_ok (insn_cases_C driver).
Proof.
  pose proof (compressed_handlers_ok u) as H1. pose proof (compressed_rd_handlers_ok u) as H2.
  pose proof (compressed_loads_ok u driver Hdriver rd_x0) as H3. pose proof (compressed_rd_loads_ok u driver Hdriver) as H4.
  pose proof (stores_ok u driver Hdriver rd_x0) as H5. pose proof (float_loads_ok u driver Hdriver rd_x0) as H6.
  cbn [map] in *. split_all.
  repeat (apply Forall_cons; split; [first [same_state|same_hart]|]); by apply Forall_nil.
Qed.

Lemma cases_FDA_ok : Forall case_ok (insn_cases_FDA driver poll_host).
Proof.
  pose proof (execute_FD_ok u rd_x0). pose proof (fused_handlers_ok u rd_x0) as H1.
  pose proof (stores_ok u driver Hdriver rd_x0) as H2. pose proof (float_loads_ok u driver Hdriver rd_x0) as H3.
  pose proof (atomics_ok u driver Hdriver rd_x0) as H4. pose proof (privileged_ok rd_x0) as H5.
  cbn [map] in *. split_all.
  repeat (apply Forall_cons; split; [first [same_state|same_hart|same_csr|apply execute_privileged_ok]|]); by apply Forall_nil.
Qed.

Lemma cases_rd0_ok : Forall case_ok (insn_cases_rd0 driver).
Proof.
  pose proof (jumps_ok u rd_x0) as H2. pose proof (privileged_ok rd_x0) as H3.
  pose proof (word_handlers_ok u rd_x0) as H4. pose proof (double_handlers_ok u rd_x0) as H5. pose proof (groups_ok u rd_x0) as H6.
  pose proof (loads_ok u driver Hdriver rd_x0) as H7. cbn [map] in *. split_all.
  repeat (apply Forall_cons; split; [first [same_state|same_hart]|]); by apply Forall_nil.
Qed.

Lemma execute_insn_ok h pc mcycle insn :
  machine_ok u (h_s h) -> pc_ok pc -> is_uint 32 insn -> 0 <= mcycle < 2 ^ 64 - 1 ->
  returns (execute_insn driver poll_host h pc mcycle insn) (step_ok mcycle).
Proof.
  intros Hs Hpc Hi Hm. destruct (execute_insn_case driver poll_host insn) as (label & execute & Hin & Hn & ->).
  assert (Forall case_ok (insn_cases driver poll_host)) as Hall.
  { unfold insn_cases. rewrite !Forall_app.
    split; [apply cases_IM_ok|split; [apply cases_C_ok|split; [apply cases_FDA_ok|apply cases_rd0_ok]]]. }
  rewrite Forall_forall in Hall. apply (Hall (label, execute) Hin); try done. unfold kind_of. cbn [fst].
  destruct (needs_rd label); [auto|done].
Qed.

(** ** Iterations *)

(** A cache that is valid, or was invalidated: its page is then the complement
    of a program counter, which is odd. *)
Definition invalidated (c : fetch_cache) : bool := Z.odd (fetch_vaddr_page c).

Record loop_ok (l : loop_state) : Prop := {
  lp_hart : hart_ok u (l_pc l) (l_hart l);
  lp_fetch : invalidated (l_fetch l) = true \/ fetch_cache_ok u (l_fetch l);
  lp_mcycle : 0 <= l_mcycle l <= 2 ^ 64 - 1;
}.

(** The program counter hits a cache that was invalidated. *)
Definition collides (l : loop_state) : bool := invalidated (l_fetch l) && fetch_hits (l_fetch l) (l_pc l).

Lemma not_colliding_safe l : loop_ok l -> collides l = false -> fetch_safe u (l_fetch l) (l_pc l).
Proof.
  intros [_ [Hi|Hc] _] Hn; [|by intros _]. unfold collides in Hn. rewrite Hi in Hn. intros Hh. unfold fetch_safe in *. by rewrite Hh in Hn.
Qed.

Lemma no_fetch_invalidated pc o : pc_ok pc -> invalidated (no_fetch pc o) = true.
Proof.
  intros [_ Hev%even_bit]. unfold invalidated, no_fetch. cbn [fetch_vaddr_page]. rewrite <- Z.bit0_odd, not64_testbit by lia.
  by rewrite Hev.
Qed.

(** An invalidated cache is not hit by the program counter it was invalidated at. *)
Lemma no_fetch_misses pc o : pc_ok pc -> fetch_hits (no_fetch pc o) pc = false.
Proof.
  intros [Hpc _]. apply Z.ltb_ge. cbn [no_fetch fetch_vaddr_page]. unfold not64.
  assert (pc ^ᵇ uint64 (Z.lnot pc) = 2 ^ 64 - 1) as ->; [|done].
  apply Z.bits_inj_iff'. intros i Hi. change (2 ^ 64 - 1) with (Z.ones 64). rewrite Z.lxor_spec, uint_testbit, Z.lnot_spec by lia.
  destruct (Z.ltb_spec i 64).
  - rewrite Z.ones_spec_low by lia. by destruct (Z.testbit pc i).
  - rewrite Z.ones_spec_high by lia. by rewrite (testbit_above pc 64) by (unfold is_uint in Hpc; lia).
Qed.

Definition stepped (l : loop_state) : execute_status * loop_state -> Prop :=
  fun '(status, l') => loop_ok l' /\ halts status (l_hart l') /\ l_mcycle l < l_mcycle l' /\
    (fx_iunrep u = 0 -> l_mcycle l' = l_mcycle l + 1).

Lemma inner_step_ok l :
  loop_ok l -> l_mcycle l < 2 ^ 64 - 1 -> collides l = false -> returns (inner_step driver poll_host l) (stepped l).
Proof.
  intros Hl Hm Hn. pose proof (not_colliding_safe l Hl Hn) as Hsafe. destruct Hl as [[Hpc Hs] Hf [Hm0 _]]. unfold inner_step.
  eapply returns_then; [by apply (fetch_insn_ok u)|]. intros [[[insn pc] c] s] (Hs1 & Hpc1 & Hc & Hi).
  assert (uint64 (l_mcycle l + 1) = l_mcycle l + 1) as E by (apply uint_id; unfold is_uint; lia).
  destruct insn as [insn|].
  2: { split; [|split; [done|cbn [l_mcycle]; rewrite E; lia]]. split; [by split| |cbn [l_mcycle]; rewrite E; lia].
       destruct Hc as [->|Hc]; [done|by right]. }
  destruct (Hi insn eq_refl) as (Hir & -> & Hcok).
  eapply returns_then; [by apply execute_insn_ok|]. intros [[[status pc'] mcycle'] h'] [[Hh Hst] [Hl1 Hl2]].
  assert (uint64 (mcycle' + 1) = mcycle' + 1) as E' by (apply uint_id; unfold is_uint; lia).
  split; [|split; [exact Hst|cbn [l_mcycle]; rewrite E'; split; [lia|intros Hu; rewrite Hl2; lia]]].
  split; [exact Hh| |cbn [l_mcycle]; rewrite E'; lia]. cbn [l_fetch]. case_if; [left; apply no_fetch_invalidated, Hh|by right].
Qed.

Lemma start_tick_ok l :
  loop_ok l -> l_mcycle l < 2 ^ 64 - 1 ->
  returns (start_tick poll_host l) (fun l' => loop_ok l' /\ l_mcycle l' = l_mcycle l /\ l_fetch l' = l_fetch l).
Proof.
  intros [[Hpc Hs] Hf Hm] Hlt. unfold start_tick. cbv zeta. set (h := if rtc_is_tick _ then _ else _).
  assert (machine_ok u (h_s h)) as Hh.
  { unfold h. case_if; [|done]. pose proof (set_rtc_interrupt_ok u _ (l_mcycle l) Hs) as Hs1.
    pose proof (poll_ok (set_s (set_rtc_interrupt (h_s (l_hart l)) (l_mcycle l)) (l_hart l)) (l_mcycle l) (l_mcycle l) Hs1
      ltac:(lia) ltac:(lia)) as Hp.
    destruct (poll_external_interrupts _ _ _ _) as [[? ?] h']. apply Hp. }
  eapply returns_then; [by apply (raise_interrupt_if_any_ok u)|]. intros [pc s] [Hpc' Hs']. split; [|done].
  by split; [split| |].
Qed.

(** ** The loops as steps *)

(** Where the interpreter is: before the work between ticks, or before an instruction *)
Inductive point := at_tick (l : loop_state) | at_insn (mcycle_tick_end : Z) (l : loop_state).

Inductive loop_step (mcycle_end : Z) : point -> point -> Prop :=
  | step_tick l l' :
      l_mcycle l < mcycle_end -> start_tick poll_host l = Done l' ->
      loop_step mcycle_end (at_tick l) (at_insn (tick_end (l_mcycle l') mcycle_end) l')
  | step_insn e l status l' :
      l_mcycle l < e -> inner_step driver poll_host l = Done (status, l') -> breaks_loop status = false ->
      loop_step mcycle_end (at_insn e l) (at_insn e l')
  | step_serve e l l' :
      l_mcycle l < e -> inner_step driver poll_host l = Done (success_and_serve_interrupts, l') ->
      loop_step mcycle_end (at_insn e l) (at_tick l')
  | step_end e l : e <= l_mcycle l -> loop_step mcycle_end (at_insn e l) (at_tick l).

(** A collision is reached: the interpreter is about to use an invalidated cache. *)
Definition reaches_collision (mcycle_end : Z) (p : point) : Prop :=
  exists e l, rtc (loop_step mcycle_end) p (at_insn e l) /\ l_mcycle l < e /\ collides l = true.

Lemma reaches_collision_step mcycle_end p q :
  loop_step mcycle_end p q -> reaches_collision mcycle_end q -> reaches_collision mcycle_end p.
Proof. intros Hs (e & l & Hr & Hc). exists e, l. split; [by eapply rtc_l|done]. Qed.

Lemma reaches_collision_steps mcycle_end p q :
  rtc (loop_step mcycle_end) p q -> reaches_collision mcycle_end q -> reaches_collision mcycle_end p.
Proof. intros Hs (e & l & Hr & Hc). exists e, l. split; [by etrans|done]. Qed.

(** ** The inner loop *)

(** [mcycle_end] bounds the loop; a status of [success] is that of its end. *)
Definition looped (mcycle_end : Z) (l : loop_state) : execute_status * loop_state -> Prop :=
  fun '(status, l') => loop_ok l' /\ halts status (l_hart l') /\ l_mcycle l <= l_mcycle l' /\
    (l_mcycle l < mcycle_end -> l_mcycle l < l_mcycle l') /\
    (status = success -> mcycle_end <= l_mcycle l') /\
    (fx_iunrep u = 0 -> l_mcycle l' <= Z.max (l_mcycle l) mcycle_end) /\
    (status = success \/ breaks_loop status = true).

Lemma looped_step e l st1 l1 r : stepped l (st1, l1) -> l_mcycle l < e -> looped e l1 r -> looped e l r.
Proof.
  intros (_ & _ & H1 & H2) Hlt. destruct r as [status l']. intros (H3 & H4 & H5 & H6 & H7 & H8 & H9).
  split; [done|]. split; [done|]. split; [lia|]. split; [lia|]. split; [done|]. split; [|done].
  intros Hu. specialize (H2 Hu). specialize (H8 Hu). lia.
Qed.

Lemma inner_loop_ok mcycle_end fuel e l :
  loop_ok l -> e <= 2 ^ 64 - 1 -> (Z.to_nat (e - l_mcycle l) <= fuel)%nat ->
  returns (inner_loop false driver poll_host fuel e l) (fun r => looped e l r /\
    (breaks_loop (fst r) = true -> fst r <> success_and_serve_interrupts \/ rtc (loop_step mcycle_end) (at_insn e l) (at_tick (snd r))) /\
    (fst r = success -> rtc (loop_step mcycle_end) (at_insn e l) (at_tick (snd r)))) \/
  reaches_collision mcycle_end (at_insn e l).
Proof.
  intros Hl He Hfuel. revert l Hl Hfuel. induction fuel as [|fuel IH]; intros l Hl Hfuel; cbn [inner_loop];
    destruct (Z.ltb_spec (l_mcycle l) e) as [Hlt|Hge].
  1: lia.
  1, 3: left; split; [|split; [done|intros _; by apply rtc_once, step_end]];
    (split; [done|]; split; [done|]; split; [lia|]; split; [lia|]; split; [done|]; split; [lia|by left]).
  destruct (collides l) eqn:Hc; [right; exists e, l; by split; [apply rtc_refl|]|].
  pose proof (inner_step_ok l Hl ltac:(lia) Hc) as Hst.
  destruct (inner_step driver poll_host l) as [[status l1]|] eqn:E; [|done]. cbn [returns] in Hst.
  cbn [mbind outcome_bind]. destruct (breaks_loop status) eqn:Hb.
  - left. destruct Hst as (H1 & H2 & H3 & H4). split; [|split; cbn [fst snd]].
    + split; [done|]. split; [done|]. split; [lia|]. split; [lia|]. split; [by destruct status|]. split; [|by right].
      intros Hu. specialize (H4 Hu). lia.
    + intros _. destruct (decide (status = success_and_serve_interrupts)) as [->|]; [right|by left]. by eapply rtc_once, step_serve.
    + by destruct status.
  - assert (loop_step mcycle_end (at_insn e l) (at_insn e l1)) as Hstep by (by eapply step_insn).
    destruct (IH l1) as [Hr|Hr].
    + apply Hst.
    + destruct Hst as (_ & _ & H3 & _). lia.
    + left. eapply returns_weaken; [exact Hr|]. intros [st2 l2] (H1 & H2 & H3). split; [by eapply looped_step|].
      cbn [fst snd] in *. split.
      * intros Hb2. destruct (H2 Hb2) as [?|?]; [by left|right]. by eapply rtc_l.
      * intros E2. eapply rtc_l; [exact Hstep|]. by apply H3.
    + right. by eapply reaches_collision_step.
Qed.

(** ** The outer loop *)

Lemma tick_end_bounds mcycle mcycle_end : 0 <= mcycle < mcycle_end -> mcycle < tick_end mcycle mcycle_end <= mcycle_end.
Proof. intros H. unfold tick_end, RTC_FREQ_DIV. pose proof (Z.mod_pos_bound mcycle 8192). lia. Qed.

Definition finished (mcycle_end : Z) (l : loop_state) : execute_status * loop_state -> Prop :=
  fun '(status, l') => loop_ok l' /\ halts status (l_hart l') /\ l_mcycle l <= l_mcycle l' /\
    (status = success -> mcycle_end <= l_mcycle l') /\
    (fx_iunrep u = 0 -> l_mcycle l' <= Z.max (l_mcycle l) mcycle_end) /\
    (status = success \/ status = success_and_yield \/ status = success_and_halt).

Lemma outer_loop_ok fuel mcycle_end l :
  loop_ok l -> mcycle_end <= 2 ^ 64 - 1 -> (Z.to_nat (mcycle_end - l_mcycle l) <= fuel)%nat ->
  returns (outer_loop false driver poll_host fuel mcycle_end l) (finished mcycle_end l) \/ reaches_collision mcycle_end (at_tick l).
Proof.
  intros Hl He Hfuel. revert l Hl Hfuel. induction fuel as [|fuel IH]; intros l Hl Hfuel; cbn [outer_loop];
    destruct (Z.ltb_spec (l_mcycle l) mcycle_end) as [Hlt|Hge].
  1: lia.
  1, 3: left; split; [done|]; split; [done|]; split; [lia|]; split; [done|]; split; [lia|by left].
  pose proof (start_tick_ok l Hl ltac:(lia)) as Ht.
  destruct (start_tick poll_host l) as [l1|] eqn:E; [|done]. destruct Ht as (Hl1 & Em & _). cbn [mbind outcome_bind].
  pose proof (tick_end_bounds (l_mcycle l1) mcycle_end) as Hb. rewrite Em in Hb.
  specialize (Hb ltac:(destruct Hl as [_ _ ?]; lia)).
  assert (loop_step mcycle_end (at_tick l) (at_insn (tick_end (l_mcycle l1) mcycle_end) l1)) as Hstep by (by apply step_tick).
  destruct (inner_loop_ok mcycle_end (S fuel) (tick_end (l_mcycle l1) mcycle_end) l1 Hl1) as [Hr|Hr];
    [rewrite Em; lia|rewrite Em; lia| |right; by eapply reaches_collision_step].
  destruct (inner_loop _ _ _ _ _ _) as [[status l2]|]; [|done]. destruct Hr as ((H1 & H2 & H3 & H4 & H5 & H6 & H7) & Hbr & Hsu).
  cbn [mbind outcome_bind fst snd] in *. rewrite Em in H3, H4, H5, H6. specialize (H4 ltac:(lia)).
  destruct (breaks_loop status && negb (bool_decide (status = success_and_serve_interrupts))) eqn:Ebr.
  - left. reflect_bools. split; [done|]. split; [done|]. split; [lia|]. split; [intros ->; done|]. split; [intros Hu; specialize (H6 Hu); lia|].
    destruct status; try done; tauto.
  - assert (rtc (loop_step mcycle_end) (at_tick l) (at_tick l2)) as Hrtc.
    { eapply rtc_l; [exact Hstep|]. destruct H7 as [->|Hbt]; [by apply Hsu|]. destruct (Hbr Hbt) as [Hne|]; [|done].
      rewrite Hbt, bool_decide_eq_false_2 in Ebr by done. done. }
    destruct (IH l2 H1) as [Hr|Hr]; [lia| |right; by eapply reaches_collision_steps].
    left. eapply returns_weaken; [exact Hr|]. intros [st3 l3] (G1 & G2 & G3 & G4 & G5 & G6).
    split; [done|]. split; [done|]. split; [lia|]. split; [done|]. split; [|done].
    intros Hu. specialize (H6 Hu). specialize (G5 Hu). lia.
Qed.

(** ** The interpreter *)

(** Where the loop starts *)
Definition loop_start (h : hart) : loop_state :=
  let h := set_s (set_iflags_X 0 (h_s h)) h in
  LoopState (s_pc (h_s h)) (s_mcycle (h_s h)) (no_fetch (s_pc (h_s h)) 0) h.

(** What a reason to stop tells of the machine *)
Definition reason_ok (mcycle_end : Z) (reason : interpreter_break_reason) (s : machine_state) : Prop :=
  let H := iflags_H (s_iflags s) in
  let Y := iflags_Y (s_iflags s) in
  let X := iflags_X (s_iflags s) in
  match reason with
  | failed => False
  | halted => H <> 0
  | yielded_manually => H = 0 /\ Y <> 0
  | yielded_automatically => H = 0 /\ Y = 0 /\ X <> 0
  | yielded_softly => H = 0 /\ Y = 0 /\ X = 0
  | reached_target_mcycle => mcycle_end <= s_mcycle s
  end.

Definition interpreted (mcycle_end : Z) (s : machine_state) : interpreter_break_reason * hart -> Prop :=
  fun '(reason, h') => let s' := h_s h' in
    machine_ok u s' /\ pc_ok (s_pc s') /\ is_uint 64 (s_mcycle s') /\ s_mcycle s <= s_mcycle s' /\
    (fx_iunrep u = 0 -> s_mcycle s' <= Z.max (s_mcycle s) mcycle_end) /\ reason_ok mcycle_end reason s'.

Lemma interpreted_same mcycle_end h reason :
  machine_ok u (h_s h) -> pc_ok (s_pc (h_s h)) -> is_uint 64 (s_mcycle (h_s h)) -> reason_ok mcycle_end reason (h_s h) ->
  returns (mret (reason, h)) (interpreted mcycle_end (h_s h)).
Proof. intros. split; [done|]. split; [done|]. split; [done|]. split; [lia|]. split; [lia|done]. Qed.

Lemma loop_start_ok h :
  machine_ok u (h_s h) -> pc_ok (s_pc (h_s h)) -> is_uint 64 (s_mcycle (h_s h)) -> loop_ok (loop_start h).
Proof.
  intros Hs Hpc Hm. split.
  - split; [exact Hpc|]. by apply ok_upd_iflags.
  - left. by apply no_fetch_invalidated.
  - unfold is_uint in Hm. cbn. lia.
Qed.

Lemma commit_ok l : loop_ok l -> machine_ok u (h_s (commit l)).
Proof. intros [[_ Hs] _ _]. apply ok_assign_mcycle. by apply ok_assign_pc. Qed.

Lemma interpret_ok h mcycle_end :
  machine_ok u (h_s h) -> pc_ok (s_pc (h_s h)) -> is_uint 64 (s_mcycle (h_s h)) -> is_uint 64 mcycle_end ->
  returns (interpret false driver poll_host h mcycle_end) (interpreted mcycle_end (h_s h)) \/
  reaches_collision mcycle_end (at_tick (loop_start h)).
Proof.
  intros Hs Hpc Hm He. unfold interpret.
  destruct (Z.eqb_spec (iflags_H (s_iflags (h_s h))) 0) as [EH|]; [|left; by apply interpreted_same].
  destruct (Z.eqb_spec (iflags_Y (s_iflags (h_s h))) 0) as [EY|]; [|left; by apply interpreted_same].
  cbn [negb]. destruct (Z.leb_spec mcycle_end (s_mcycle (h_s h))) as [|Hlt]; [left; by apply interpreted_same|].
  cbv zeta. unfold interpret_loop. pose proof (loop_start_ok h Hs Hpc Hm) as Hl. unfold is_uint in *.
  destruct (outer_loop_ok (Z.to_nat (mcycle_end - s_mcycle (h_s h))) mcycle_end (loop_start h) Hl) as [Hr|Hr];
    [lia|by cbn; lia| |by right]. left.
  change (LoopState _ _ _ _) with (loop_start h). destruct (outer_loop _ _ _ _ _ _) as [[status l]|]; [|done].
  destruct Hr as (Hl' & Hh & H1 & H2 & H3 & H4). cbn [mbind outcome_bind mret outcome_ret returns].
  change (l_mcycle (loop_start h)) with (s_mcycle (h_s h)) in *.
  assert (Hmc : 0 <= l_mcycle l < 2 ^ 64) by (pose proof (lp_mcycle _ Hl'); lia).
  assert (forall reason, reason_ok mcycle_end reason (h_s (commit l)) ->
    returns (mret (reason, commit l)) (interpreted mcycle_end (h_s h))) as Hret.
  { intros reason Hreason. split; [by apply commit_ok|]. split; [apply Hl'|]. split; [exact Hmc|]. split; [exact H1|]. by split. }
  unfold halts in Hh. change (s_iflags (h_s (l_hart l))) with (s_iflags (h_s (commit l))) in Hh.
  destruct (Z.eqb_spec (iflags_H (s_iflags (h_s (commit l)))) 0) as [EH'|]; cbn [negb]; [|by apply Hret].
  destruct (Z.eqb_spec (iflags_Y (s_iflags (h_s (commit l)))) 0) as [EY'|]; cbn [negb]; [|by apply Hret].
  destruct (Z.eqb_spec (iflags_X (s_iflags (h_s (commit l)))) 0) as [EX'|]; cbn [negb]; [|by apply Hret].
  case_bool_decide; [by apply Hret|]. apply Hret. destruct H4 as [->|[->| ->] ]; [by apply H2|done|]. by destruct (Hh eq_refl).
Qed.

End interpreter.

(** ** Builds with assertions

    A call of the build with assertions does what the one without does, unless an
    assertion fails. *)

Definition unless_asserted {A} (m m' : outcome A) : Prop := m = m' \/ exists what, m = Exn (assertion_failure what).

Lemma unless_asserted_refl {A} (m : outcome A) : unless_asserted m m.
Proof. by left. Qed.

Lemma unless_asserted_bind {A B} (m m' : outcome A) (f f' : A -> outcome B) :
  unless_asserted m m' -> (forall a, unless_asserted (f a) (f' a)) -> unless_asserted (m ≫= f) (m' ≫= f').
Proof. intros [->|[what ->] ] Hf; [destruct m'; [apply Hf|by left]|right; by exists what]. Qed.

Lemma unless_asserted_check {A} asserts c what (m m' : outcome A) :
  unless_asserted m m' -> unless_asserted (check_assert asserts c what ≫= fun _ => m) (check_assert false c what ≫= fun _ => m').
Proof. unfold check_assert, throw_if. destruct (asserts && negb c); [right; by exists what|done]. Qed.

Lemma unless_asserted_no_brk {A} asserts s (m m' : outcome A) :
  unless_asserted m m' -> unless_asserted (assert_no_brk asserts s ≫= fun _ => m) (assert_no_brk false s ≫= fun _ => m').
Proof.
  intros Hm. unfold assert_no_brk, check_assert. destruct asserts; [|done].
  destruct (get_pending_irq_mask s =? 0); [|right; by eexists]. destruct (iflags_X (s_iflags s) =? 0); [|right; by eexists].
  destruct (iflags_Y (s_iflags s) =? 0); [|right; by eexists]. by destruct (iflags_H (s_iflags s) =? 0); [|right; by eexists].
Qed.

Section builds.
Context (asserts : bool) (driver : string -> pma_driver) (poll_host : hart -> Z -> Z -> host_events).

Lemma inner_loop_builds fuel e l :
  unless_asserted (inner_loop asserts driver poll_host fuel e l) (inner_loop false driver poll_host fuel e l).
Proof.
  revert l. induction fuel as [|fuel IH]; intros l; cbn [inner_loop]; (case_if; [|apply unless_asserted_refl]); [apply unless_asserted_refl|].
  apply unless_asserted_bind; [apply unless_asserted_refl|]. intros [status l1]. case_if; [apply unless_asserted_refl|].
  by apply unless_asserted_no_brk.
Qed.

Lemma outer_loop_builds fuel e l :
  unless_asserted (outer_loop asserts driver poll_host fuel e l) (outer_loop false driver poll_host fuel e l).
Proof.
  revert l. induction fuel as [|fuel IH]; intros l; cbn [outer_loop]; (case_if; [|apply unless_asserted_refl]); [apply unless_asserted_refl|].
  apply unless_asserted_bind; [apply unless_asserted_refl|]. intros l1. apply unless_asserted_no_brk.
  apply unless_asserted_bind; [apply inner_loop_builds|]. intros [status l2]. case_if; [apply unless_asserted_refl|apply IH].
Qed.

Lemma interpret_builds h mcycle_end :
  unless_asserted (interpret asserts driver poll_host h mcycle_end) (interpret false driver poll_host h mcycle_end).
Proof.
  unfold interpret, interpret_loop. repeat (case_if; [apply unless_asserted_refl|]). cbv zeta.
  apply unless_asserted_bind; [apply unless_asserted_bind; [apply outer_loop_builds|intros [? ?]; apply unless_asserted_refl]|].
  intros [status h']. repeat (case_if; [apply unless_asserted_refl|]). apply unless_asserted_check, unless_asserted_refl.
Qed.
End builds.
