(* ===== verification/InterpretCorrect.v ===== *)
(** * Properties of the interpreter

    Totality and safety of the interpreter, and the runs in which the cache of
    the last fetch, which an interrupt or a fault of the fetch does not
    invalidate, makes it leave the behaviour of the architecture. *)

From stdpp Require Import relations.
From S2P Require Import Prelude CppInt Constants RiscvConstants UarchAccess Bytes RV64IM Pma MachineState UarchBridge UarchBridgeSpec UarchState DeviceAccess Clint Tlb Trap Csr CsrInsns TranslateVirtualAddress HostMemory HostTlb VirtualMemory MachineOk TrapSpec VirtualMemorySpec PrivilegedSpec IntegerInsns IntegerInsnsSpec MemoryInsns MemoryInsnsSpec SoftFloat FloatInsns FloatInsnsSpec JumpTable Interpret RV64Dispatch InterpretSpec.

(** A host that neither waits nor interrupts *)
Definition quiet_host (h : hart) (mcycle timeout : Z) : host_events := HostEvents false 0 0 0 h.

#[export] Instance quiet_host_ok u : HostOk u quiet_host.
Proof. by intros h mcycle timeout. Qed.

Definition console_of (s : machine_state) : hart := Hart s [] [].

(** A program that asks the host-target interface to halt *)
Definition halt_program : list Z := words 4 [0x400082b7; 0x00100313; 0x0062b023].

Lemma halt_program_ok : machine_ok (boot_fixed halt_program) (boot halt_program).
Proof. apply boot_ok, words_bytes. Qed.

(** ** Every instruction *)

(** C3: Every instruction is safe: over devices and a host that obey their laws,
    the execution of any 32-bit word, in any state of a well-formed machine,
    returns (no pointer is used outside of its buffer, no case of the switch is
    missing, no assertion fails), and leaves the machine well formed, with an
    even program counter and a cycle that did not go back. *)
Theorem execute_insn_safe u driver poll_host (Hdriver : forall name, DeviceOk u (driver name)) (Hhost : HostOk u poll_host)
    h pc mcycle insn :
  machine_ok u (h_s h) -> pc_ok pc -> is_uint 32 insn -> 0 <= mcycle < 2 ^ 64 - 1 ->
  returns (execute_insn driver poll_host h pc mcycle insn) (step_ok u mcycle).
Proof. intros Hs Hpc Hi Hm. by apply execute_insn_ok. Qed.

Lemma execute_insn_safe_witness :
  returns (execute_insn machine_driver quiet_host (console_of (boot halt_program)) RAM_START 0 0x0062b023)
    (step_ok (boot_fixed halt_program) 0).
Proof.
  apply (execute_insn_safe (boot_fixed halt_program) machine_driver quiet_host); [apply machine_driver_ok|apply _|exact halt_program_ok| | |];
    repeat split; try discriminate 1; reflexivity.
Defined.

(** ** The interpreter *)

(** C1: The interpreter is total over devices and a host that obey their laws: every
    device is a callback that returns and keeps the machine well formed (DeviceOk,
    which the CLINT, the PLIC and the HTIF satisfy, the devices of a reproducible
    machine; a VirtIO device whose guest gives it an endless chain of descriptors
    does not return), and the host keeps the machine well formed while it waits
    (HostOk).  Then, from a well-formed machine, the interpreter returns, within as
    many iterations as there are cycles left, a well-formed machine (its pointers
    are valid, and the pages it changed are marked or cached) whose cycle did not go
    back and, in reproducible mode, did not pass its target; the reason it gives is
    that of the flags of the machine, and the target only when the target was
    reached.  There are two ways out: a program counter that falls, after an
    interrupt or a fault of the fetch, in the page of the complement of the program
    counter at which the cache of the last fetch was invalidated; and, in a build
    with assertions only, one of the assertions of the loops. *)
Theorem interpret_safe asserts u driver poll_host (Hdriver : forall name, DeviceOk u (driver name)) (Hhost : HostOk u poll_host)
    h mcycle_end :
  machine_ok u (h_s h) -> pc_ok (s_pc (h_s h)) -> is_uint 64 (s_mcycle (h_s h)) -> is_uint 64 mcycle_end ->
  returns (interpret asserts driver poll_host h mcycle_end) (interpreted u mcycle_end (h_s h)) \/
  reaches_collision driver poll_host mcycle_end (at_tick (loop_start h)) \/
  asserts = true /\ exists what, interpret asserts driver poll_host h mcycle_end = Exn (assertion_failure what).
Proof.
  intros Hs Hpc Hm He. destruct (interpret_ok u driver Hdriver poll_host h mcycle_end) as [Hr|Hc]; [done..| |by right; left].
  destruct asserts; [|by left]. destruct (interpret_builds true driver poll_host h mcycle_end) as [->|Ha]; [by left|by right; right].
Qed.

Lemma interpret_safe_witness :
  (exists h, interpret false machine_driver quiet_host (console_of (boot halt_program)) 100 = Done (halted, h)) /\
  (returns (interpret false machine_driver quiet_host (console_of (boot halt_program)) 100)
     (interpreted (boot_fixed halt_program) 100 (boot halt_program)) \/
   reaches_collision machine_driver quiet_host 100 (at_tick (loop_start (console_of (boot halt_program))))).
Proof.
  split.
  - assert (match interpret false machine_driver quiet_host (console_of (boot halt_program)) 100 with Done (halted, _) => true | _ => false end = true) as E
      by (vm_compute; reflexivity).
    destruct (interpret _ _ _ _ _) as [[[] h]|]; try discriminate E. by exists h.
  - destruct (interpret_safe false (boot_fixed halt_program) machine_driver quiet_host (machine_driver_ok _) _
      (console_of (boot halt_program)) 100) as [H|[H|[H _] ] ];
      [exact halt_program_ok|repeat split; try discriminate 1; reflexivity..|by left|by right|discriminate H].
Defined.

(** ** The order of interrupts *)

(** The flags of yields are not among what an interrupt depends on. *)
Lemma takes_flags s v : takes (set_iflags_X v s) = takes s.
Proof. done. Qed.

(** C9: The order of the interrupts breaks the assertions of the loop: when the
    interrupt that the machine takes first is delegated to the supervisor while it
    could take another for machine mode, which goes first by the architecture and
    by the comment above the order, the handler of the supervisor is entered with
    that other interrupt still to be taken, and a build with assertions stops, as
    the loop expects that none is pending once it has raised one. *)
Theorem interrupt_order_asserts u driver poll_host h mcycle_end i j :
  machine_ok u (h_s h) -> pc_ok (s_pc (h_s h)) -> iflags_H (s_iflags (h_s h)) = 0 -> iflags_Y (s_iflags (h_s h)) = 0 ->
  s_mcycle (h_s h) < mcycle_end -> rtc_is_tick (s_mcycle (h_s h)) = false ->
  first_taken (h_s h) irqs = Some i -> Z.testbit (s_mideleg (h_s h)) i = true ->
  In j irqs -> takes (h_s h) j = true -> Z.testbit (s_mideleg (h_s h)) j = false ->
  (exists l, start_tick poll_host (loop_start h) = Done l /\ l_pc l = s_stvec (h_s h) /\
     s_iprv (h_s (l_hart l)) = PRV_S /\ takes (h_s (l_hart l)) j = true) /\
  interpret true driver poll_host h mcycle_end = Exn (assertion_failure "get_pending_irq_mask(a) == 0").
Proof.
  intros Hs Hpc EH EY Hlt Ht Hf Hd Hj Htj Hdj.
  assert (machine_ok u (set_iflags_X 0 (h_s h))) as Hs1 by by apply ok_upd_iflags.
  destruct (lower_interrupt_first u (set_iflags_X 0 (h_s h)) (s_pc (h_s h)) i j) as (s' & E & Hp & Htj' & Hpend); [done..|].
  assert (start_tick poll_host (loop_start h) = Done (LoopState (s_stvec (h_s h)) (s_mcycle (h_s h)) (no_fetch (s_pc (h_s h)) 0)
    (set_s s' (set_s (set_iflags_X 0 (h_s h)) h)))) as Es.
  { unfold start_tick, loop_start. cbv zeta. cbn [l_mcycle l_hart l_pc l_fetch]. change (s_mcycle (h_s (set_s _ _))) with (s_mcycle (h_s h)).
    rewrite Ht. change (h_s (set_s _ h)) with (set_iflags_X 0 (h_s h)). change (s_pc (set_iflags_X 0 (h_s h))) with (s_pc (h_s h)).
    rewrite E. done. }
  split; [by eexists|]. unfold interpret. rewrite EH, EY. cbn [Z.eqb negb]. test (mcycle_end <=? _) is false. cbv zeta.
  unfold interpret_loop. change (LoopState _ _ _ _) with (loop_start h).
  destruct (Z.to_nat (mcycle_end - s_mcycle (h_s h))) as [|fuel] eqn:Efuel; [lia|]. cbn [outer_loop].
  change (l_mcycle (loop_start h)) with (s_mcycle (h_s h)). test (_ <? mcycle_end) is true. rewrite Es. cbn [mbind outcome_bind].
  unfold assert_no_brk, check_assert. cbn [l_hart set_s h_s andb]. test (get_pending_irq_mask s' =? 0) is false. done.
Qed.

(** An external interrupt of the supervisor, delegated, and a software interrupt of
    the supervisor, which is not, wait for a program of the user *)
Definition two_interrupts : machine_state :=
  assign upd_mideleg 0x200 (assign upd_mie 0x202 (assign upd_mip 0x202 (assign upd_iprv PRV_U (assign upd_mcycle 1 (boot []))))).

Lemma two_interrupts_ok : machine_ok (boot_fixed []) two_interrupts.
Proof.
  assert (forall v, v = 0x200 \/ v = 0x202 -> is_uint 64 v /\ bits_within v SUPERVISOR_MASK) as Hb.
  { intros v Hv. split; [destruct Hv as [->| ->]; split; done|]. intros i Hi Ht.
    destruct (Z.lt_ge_cases i 10); [|by rewrite (testbit_above v 10) in Ht by (done || destruct Hv as [->| ->]; lia)].
    assert (i = 0 \/ i = 1 \/ i = 2 \/ i = 3 \/ i = 4 \/ i = 5 \/ i = 6 \/ i = 7 \/ i = 8 \/ i = 9) as Hc by lia.
    destruct Hv as [->| ->]; repeat destruct Hc as [->|Hc]; try done; by subst i. }
  unfold two_interrupts. apply ok_assign_mideleg; [|apply Hb; by left..].
  apply ok_assign_mie; [|apply Hb; by right|]. 2: { eapply within_trans; [apply Hb; by right|apply supervisor_within]. }
  apply ok_assign_mip; [|apply Hb; by right]. apply ok_assign_iprv; [|by left]. apply ok_assign_mcycle, boot_ok. by apply Forall_nil.
Qed.

Lemma interrupt_order_asserts_witness :
  interpret true machine_driver quiet_host (console_of two_interrupts) 100 = Exn (assertion_failure "get_pending_irq_mask(a) == 0") /\
  exists h, interpret false machine_driver quiet_host (console_of two_interrupts) 100 = Done (reached_target_mcycle, h).
Proof.
  split.
  - apply (interrupt_order_asserts (boot_fixed []) machine_driver quiet_host (console_of two_interrupts) 100 9 1);
      [exact two_interrupts_ok|repeat split; try discriminate 1; reflexivity|reflexivity..|by right; right; right; right; left|reflexivity|reflexivity].
  - assert (match interpret false machine_driver quiet_host (console_of two_interrupts) 100 with Done (reached_target_mcycle, _) => true | _ => false end = true) as E
      by (vm_compute; reflexivity).
    destruct (interpret _ _ _ _ _) as [[[] h]|]; try discriminate E. by exists h.
Defined.

(** ** The cache of the last fetch *)

(** A machine whose trap handler is in the page of the complement of the program counter *)
Definition collision_machine : machine_state :=
  assign upd_mtvec 0x8000000000000010 (assign upd_pc 0x7ffffffffffff000 (boot [])).

(** C13: The cache of the last fetch can make the interpreter leave the memory of
    the machine: there is a well-formed machine whose first fetch faults and
    whose handler lies in the page of the complement of the program counter; the
    interpreter then uses the address of the handler as one of the host. *)
Theorem interpret_reads_host :
  machine_ok (boot_fixed []) collision_machine /\ pc_ok (s_pc collision_machine) /\
  interpret false machine_driver quiet_host (console_of collision_machine) 100 = Exn invalid_pointer.
Proof.
  split; [|split; [split; reflexivity || (split; [discriminate 1|reflexivity])|vm_compute; reflexivity]].
  apply ok_assign_mtvec; [|split; [discriminate 1|reflexivity]|reflexivity].
  apply ok_assign_pc, boot_ok. by apply Forall_nil.
Qed.

(** A page table that maps the page of the handler of machine mode to a page of
    the user, whose program jumps to an address that is not mapped *)
Definition stale_program : list Z :=
  pad 4096 (words 8 [0; 0; 0x80001 * 2 ^ 10 + 1]) ++ pad 4096 (words 8 [0x80004 * 2 ^ 10 + 1])
  ++ pad 4096 (words 4 [0; 0; 0; 0; 0x0000006f]) ++ pad 4096 (words 4 [0x00000067; 0; 0; 0; 0x34009073])
  ++ pad 4096 (words 8 [0; 0; 0x80003 * 2 ^ 10 + 0x5b]).

Definition stale_machine : machine_state :=
  assign upd_satp (8 * 2 ^ 60 + 0x80000) (assign upd_mtvec 0x80002010 (assign upd_iprv PRV_U
    (assign_at upd_x 1 0x1234 (assign upd_pc 0x80002000 (boot stale_program))))).

Lemma stale_machine_ok : machine_ok (boot_fixed stale_program) stale_machine.
Proof.
  apply ok_assign_satp; [|split; [discriminate 1|reflexivity]].
  apply ok_assign_mtvec; [|split; [discriminate 1|reflexivity]|reflexivity]. apply ok_assign_iprv; [|by left].
  apply (ok_assign_x _ _) with (r := 1); [|done|split; [discriminate 1|reflexivity]]. apply ok_assign_pc, boot_ok.
  unfold stale_program. repeat (apply Forall_app; split); apply pad_bytes, words_bytes.
Qed.

(** C12: The cache of the last fetch can make a program of the user run in
    machine mode: after a fault of the fetch, the interpreter fetches the handler
    through the translation of the user, and the word at the handler's address,
    a jump to itself, is not the instruction that runs. *)
Theorem interpret_escalates :
  machine_ok (boot_fixed stale_program) stale_machine /\ s_iprv stale_machine = PRV_U /\ s_mscratch stale_machine = 0 /\
  le_val (slice (s_mtvec stale_machine - RAM_START) 4 stale_program) = 0x0000006f /\
  exists h, interpret false machine_driver quiet_host (console_of stale_machine) 3 = Done (reached_target_mcycle, h) /\
  s_iprv (h_s h) = PRV_M /\ s_mscratch (h_s h) = 0x1234.
Proof.
  split; [exact stale_machine_ok|]. split; [done|]. split; [done|]. split; [vm_compute; reflexivity|].
  assert (match interpret false machine_driver quiet_host (console_of stale_machine) 3 with
    | Done (reached_target_mcycle, h) => (s_iprv (h_s h) =? PRV_M) && (s_mscratch (h_s h) =? 0x1234) | _ => false end = true) as E
    by (vm_compute; reflexivity).
  destruct (interpret _ _ _ _ _) as [[[] h]|]; try discriminate E. exists h. reflect_bools. done.
Qed.
