(* ===== verification/MachineRegs.v ===== *)
(** * The registers of the machine and its pages
      (machine.cpp, machine-reg.h, pma.cpp and the factories of the shadows and devices)

    The registers as the host reads and writes them: those of the machine, those
    of the microarchitecture, and the fields of the registers of HTIF.

    The Merkle tree sees the state page by page: each range has a callback that
    gives its pages without side effects.  Memory gives its contents, the shadows
    give the registers and the translation cache laid out as packed structures,
    and the other devices give nothing, which stands for zeros. *)

From S2P Require Import Prelude CppInt Constants Bytes Pma PmaSpec MachineState UarchBridge UarchBridgeSpec UarchState DeviceAccess Htif.

(** ** Registers *)

(** The views of HTIF registers *)
Inductive htif_view :=
  | view_htif_tohost_dev | view_htif_tohost_cmd | view_htif_tohost_reason | view_htif_tohost_data
  | view_htif_fromhost_dev | view_htif_fromhost_cmd | view_htif_fromhost_reason | view_htif_fromhost_data.

(** [machine::reg]; [unknown_] stands for every other value. *)
Inductive reg := reg_stored (r : machine_reg) | reg_view (r : htif_view) | unknown_.

Definition unknown_register : exn := invalid_argument "unknown register".
Definition read_only : exn := invalid_argument "register is read-only".

Definition set_ihalt (v : Z) : machine_state -> machine_state :=
  upd_htif (fun h => HtifState (tohost h) (fromhost h) v (iconsole h) (iyield h)).
Definition set_iconsole (v : Z) : machine_state -> machine_state :=
  upd_htif (fun h => HtifState (tohost h) (fromhost h) (ihalt h) v (iyield h)).
Definition set_iyield (v : Z) : machine_state -> machine_state :=
  upd_htif (fun h => HtifState (tohost h) (fromhost h) (ihalt h) (iconsole h) v).

(** ** [machine::read_reg]

    The cases of the [switch], by groups; [None] is a case of another group. *)

(** [read_reg], the register files *)
Definition read_reg_xf (r : machine_reg) (s : machine_state) : option Z :=
  match r with
  | reg_x0 => Some (nth 0 (s_x s) 0)
  | reg_x1 => Some (nth 1 (s_x s) 0)
  | reg_x2 => Some (nth 2 (s_x s) 0)
  | reg_x3 => Some (nth 3 (s_x s) 0)
  | reg_x4 => Some (nth 4 (s_x s) 0)
  | reg_x5 => Some (nth 5 (s_x s) 0)
  | reg_x6 => Some (nth 6 (s_x s) 0)
  | reg_x7 => Some (nth 7 (s_x s) 0)
  | reg_x8 => Some (nth 8 (s_x s) 0)
  | reg_x9 => Some (nth 9 (s_x s) 0)
  | reg_x10 => Some (nth 10 (s_x s) 0)
  | reg_x11 => Some (nth 11 (s_x s) 0)
  | reg_x12 => Some (nth 12 (s_x s) 0)
  | reg_x13 => Some (nth 13 (s_x s) 0)
  | reg_x14 => Some (nth 14 (s_x s) 0)
  | reg_x15 => Some (nth 15 (s_x s) 0)
  | reg_x16 => Some (nth 16 (s_x s) 0)
  | reg_x17 => Some (nth 17 (s_x s) 0)
  | reg_x18 => Some (nth 18 (s_x s) 0)
  | reg_x19 => Some (nth 19 (s_x s) 0)
  | reg_x20 => Some (nth 20 (s_x s) 0)
  | reg_x21 => Some (nth 21 (s_x s) 0)
  | reg_x22 => Some (nth 22 (s_x s) 0)
  | reg_x23 => Some (nth 23 (s_x s) 0)
  | reg_x24 => Some (nth 24 (s_x s) 0)
  | reg_x25 => Some (nth 25 (s_x s) 0)
  | reg_x26 => Some (nth 26 (s_x s) 0)
  | reg_x27 => Some (nth 27 (s_x s) 0)
  | reg_x28 => Some (nth 28 (s_x s) 0)
  | reg_x29 => Some (nth 29 (s_x s) 0)
  | reg_x30 => Some (nth 30 (s_x s) 0)
  | reg_x31 => Some (nth 31 (s_x s) 0)
  | reg_f0 => Some (nth 0 (s_f s) 0)
  | reg_f1 => Some (nth 1 (s_f s) 0)
  | reg_f2 => Some (nth 2 (s_f s) 0)
  | reg_f3 => Some (nth 3 (s_f s) 0)
  | reg_f4 => Some (nth 4 (s_f s) 0)
  | reg_f5 => Some (nth 5 (s_f s) 0)
  | reg_f6 => Some (nth 6 (s_f s) 0)
  | reg_f7 => Some (nth 7 (s_f s) 0)
  | reg_f8 => Some (nth 8 (s_f s) 0)
  | reg_f9 => Some (nth 9 (s_f s) 0)
  | reg_f10 => Some (nth 10 (s_f s) 0)
  | reg_f11 => Some (nth 11 (s_f s) 0)
  | reg_f12 => Some (nth 12 (s_f s) 0)
  | reg_f13 => Some (nth 13 (s_f s) 0)
  | reg_f14 => Some (nth 14 (s_f s) 0)
  | reg_f15 => Some (nth 15 (s_f s) 0)
  | reg_f16 => Some (nth 16 (s_f s) 0)
  | reg_f17 => Some (nth 17 (s_f s) 0)
  | reg_f18 => Some (nth 18 (s_f s) 0)
  | reg_f19 => Some (nth 19 (s_f s) 0)
  | reg_f20 => Some (nth 20 (s_f s) 0)
  | reg_f21 => Some (nth 21 (s_f s) 0)
  | reg_f22 => Some (nth 22 (s_f s) 0)
  | reg_f23 => Some (nth 23 (s_f s) 0)
  | reg_f24 => Some (nth 24 (s_f s) 0)
  | reg_f25 => Some (nth 25 (s_f s) 0)
  | reg_f26 => Some (nth 26 (s_f s) 0)
  | reg_f27 => Some (nth 27 (s_f s) 0)
  | reg_f28 => Some (nth 28 (s_f s) 0)
  | reg_f29 => Some (nth 29 (s_f s) 0)
  | reg_f30 => Some (nth 30 (s_f s) 0)
  | reg_f31 => Some (nth 31 (s_f s) 0)
  | _ => None
  end.

(** [read_reg], the other registers of the machine *)
Definition read_reg_csr (r : machine_reg) (s : machine_state) : option Z :=
  match r with
  | reg_pc => Some (s_pc s)
  | reg_fcsr => Some (s_fcsr s)
  | reg_mvendorid => Some (MVENDORID_INIT)
  | reg_marchid => Some (MARCHID_INIT)
  | reg_mimpid => Some (MIMPID_INIT)
  | reg_mcycle => Some (s_mcycle s)
  | reg_icycleinstret => Some (s_icycleinstret s)
  | reg_mstatus => Some (s_mstatus s)
  | reg_mtvec => Some (s_mtvec s)
  | reg_mscratch => Some (s_mscratch s)
  | reg_mepc => Some (s_mepc s)
  | reg_mcause => Some (s_mcause s)
  | reg_mtval => Some (s_mtval s)
  | reg_misa => Some (s_misa s)
  | reg_mie => Some (s_mie s)
  | reg_mip => Some (s_mip s)
  | reg_medeleg => Some (s_medeleg s)
  | reg_mideleg => Some (s_mideleg s)
  | reg_mcounteren => Some (s_mcounteren s)
  | reg_menvcfg => Some (s_menvcfg s)
  | reg_stvec => Some (s_stvec s)
  | reg_sscratch => Some (s_sscratch s)
  | reg_sepc => Some (s_sepc s)
  | reg_scause => Some (s_scause s)
  | reg_stval => Some (s_stval s)
  | reg_satp => Some (s_satp s)
  | reg_scounteren => Some (s_scounteren s)
  | reg_senvcfg => Some (s_senvcfg s)
  | reg_ilrsc => Some (s_ilrsc s)
  | reg_iprv => Some (s_iprv s)
  | reg_iflags_X => Some (iflags_X (s_iflags s))
  | reg_iflags_Y => Some (iflags_Y (s_iflags s))
  | reg_iflags_H => Some (iflags_H (s_iflags s))
  | reg_iunrep => Some (s_iunrep s)
  | reg_clint_mtimecmp => Some (mtimecmp (s_clint s))
  | reg_plic_girqpend => Some (girqpend (s_plic s))
  | reg_plic_girqsrvd => Some (girqsrvd (s_plic s))
  | reg_htif_tohost => Some (tohost (s_htif s))
  | reg_htif_fromhost => Some (fromhost (s_htif s))
  | reg_htif_ihalt => Some (ihalt (s_htif s))
  | reg_htif_iconsole => Some (iconsole (s_htif s))
  | reg_htif_iyield => Some (iyield (s_htif s))
  | _ => None
  end.

(** [read_reg], the registers of the microarchitecture *)
Definition read_reg_uarch (r : machine_reg) (u : uarch_state) : option Z :=
  match r with
  | reg_uarch_x0 => Some (nth 0 (us_x u) 0)
  | reg_uarch_x1 => Some (nth 1 (us_x u) 0)
  | reg_uarch_x2 => Some (nth 2 (us_x u) 0)
  | reg_uarch_x3 => Some (nth 3 (us_x u) 0)
  | reg_uarch_x4 => Some (nth 4 (us_x u) 0)
  | reg_uarch_x5 => Some (nth 5 (us_x u) 0)
  | reg_uarch_x6 => Some (nth 6 (us_x u) 0)
  | reg_uarch_x7 => Some (nth 7 (us_x u) 0)
  | reg_uarch_x8 => Some (nth 8 (us_x u) 0)
  | reg_uarch_x9 => Some (nth 9 (us_x u) 0)
  | reg_uarch_x10 => Some (nth 10 (us_x u) 0)
  | reg_uarch_x11 => Some (nth 11 (us_x u) 0)
  | reg_uarch_x12 => Some (nth 12 (us_x u) 0)
  | reg_uarch_x13 => Some (nth 13 (us_x u) 0)
  | reg_uarch_x14 => Some (nth 14 (us_x u) 0)
  | reg_uarch_x15 => Some (nth 15 (us_x u) 0)
  | reg_uarch_x16 => Some (nth 16 (us_x u) 0)
  | reg_uarch_x17 => Some (nth 17 (us_x u) 0)
  | reg_uarch_x18 => Some (nth 18 (us_x u) 0)
  | reg_uarch_x19 => Some (nth 19 (us_x u) 0)
  | reg_uarch_x20 => Some (nth 20 (us_x u) 0)
  | reg_uarch_x21 => Some (nth 21 (us_x u) 0)
  | reg_uarch_x22 => Some (nth 22 (us_x u) 0)
  | reg_uarch_x23 => Some (nth 23 (us_x u) 0)
  | reg_uarch_x24 => Some (nth 24 (us_x u) 0)
  | reg_uarch_x25 => Some (nth 25 (us_x u) 0)
  | reg_uarch_x26 => Some (nth 26 (us_x u) 0)
  | reg_uarch_x27 => Some (nth 27 (us_x u) 0)
  | reg_uarch_x28 => Some (nth 28 (us_x u) 0)
  | reg_uarch_x29 => Some (nth 29 (us_x u) 0)
  | reg_uarch_x30 => Some (nth 30 (us_x u) 0)
  | reg_uarch_x31 => Some (nth 31 (us_x u) 0)
  | reg_uarch_pc => Some (us_pc u)
  | reg_uarch_cycle => Some (us_cycle u)
  | reg_uarch_halt_flag => Some (Z.b2z (us_halt_flag u))
  | _ => None
  end.

(** [read_reg], the views *)
Definition read_reg_view (r : htif_view) (s : machine_state) : Z :=
  match r with
  | view_htif_tohost_dev => HTIF_DEV_FIELD (tohost (s_htif s))
  | view_htif_tohost_cmd => HTIF_CMD_FIELD (tohost (s_htif s))
  | view_htif_tohost_reason => HTIF_REASON_FIELD (tohost (s_htif s))
  | view_htif_tohost_data => HTIF_DATA_FIELD (tohost (s_htif s))
  | view_htif_fromhost_dev => HTIF_DEV_FIELD (fromhost (s_htif s))
  | view_htif_fromhost_cmd => HTIF_CMD_FIELD (fromhost (s_htif s))
  | view_htif_fromhost_reason => HTIF_REASON_FIELD (fromhost (s_htif s))
  | view_htif_fromhost_data => HTIF_DATA_FIELD (fromhost (s_htif s))
  end.

Definition read_reg (s : machine_state) (u : uarch_state) (r : reg) : outcome Z :=
  match r with
  | reg_stored r =>
      match orelse (read_reg_xf r s) (orelse (read_reg_csr r s) (read_reg_uarch r u)) with
      | Some v => Done v
      | None => Exn unknown_register
      end
  | reg_view r => Done (read_reg_view r s)
  | unknown_ => Exn unknown_register
  end.

(** ** [machine::write_reg] *)

(** [write_reg], the general-purpose registers *)
Definition write_reg_x (r : machine_reg) (value : Z) (s : machine_state) : option (outcome machine_state) :=
  match r with
  | reg_x0 => Some (Exn read_only)
  | reg_x1 => Some (Done (assign_at upd_x 1 value s))
  | reg_x2 => Some (Done (assign_at upd_x 2 value s))
  | reg_x3 => Some (Done (assign_at upd_x 3 value s))
  | reg_x4 => Some (Done (assign_at upd_x 4 value s))
  | reg_x5 => Some (Done (assign_at upd_x 5 value s))
  | reg_x6 => Some (Done (assign_at upd_x 6 value s))
  | reg_x7 => Some (Done (assign_at upd_x 7 value s))
  | reg_x8 => Some (Done (assign_at upd_x 8 value s))
  | reg_x9 => Some (Done (assign_at upd_x 9 value s))
  | reg_x10 => Some (Done (assign_at upd_x 10 value s))
  | reg_x11 => Some (Done (assign_at upd_x 11 value s))
  | reg_x12 => Some (Done (assign_at upd_x 12 value s))
  | reg_x13 => Some (Done (assign_at upd_x 13 value s))
  | reg_x14 => Some (Done (assign_at upd_x 14 value s))
  | reg_x15 => Some (Done (assign_at upd_x 15 value s))
  | reg_x16 => Some (Done (assign_at upd_x 16 value s))
  | reg_x17 => Some (Done (assign_at upd_x 17 value s))
  | reg_x18 => Some (Done (assign_at upd_x 18 value s))
  | reg_x19 => Some (Done (assign_at upd_x 19 value s))
  | reg_x20 => Some (Done (assign_at upd_x 20 value s))
  | reg_x21 => Some (Done (assign_at upd_x 21 value s))
  | reg_x22 => Some (Done (assign_at upd_x 22 value s))
  | reg_x23 => Some (Done (assign_at upd_x 23 value s))
  | reg_x24 => Some (Done (assign_at upd_x 24 value s))
  | reg_x25 => Some (Done (assign_at upd_x 25 value s))
  | reg_x26 => Some (Done (assign_at upd_x 26 value s))
  | reg_x27 => Some (Done (assign_at upd_x 27 value s))
  | reg_x28 => Some (Done (assign_at upd_x 28 value s))
  | reg_x29 => Some (Done (assign_at upd_x 29 value s))
  | reg_x30 => Some (Done (assign_at upd_x 30 value s))
  | reg_x31 => Some (Done (assign_at upd_x 31 value s))
  | _ => None
  end.

(** [write_reg], the floating-point registers *)
Definition write_reg_f (r : machine_reg) (value : Z) (s : machine_state) : option (outcome machine_state) :=
  match r with
  | reg_f0 => Some (Done (assign_at upd_f 0 value s))
  | reg_f1 => Some (Done (assign_at upd_f 1 value s))
  | reg_f2 => Some (Done (assign_at upd_f 2 value s))
  | reg_f3 => Some (Done (assign_at upd_f 3 value s))
  | reg_f4 => Some (Done (assign_at upd_f 4 value s))
  | reg_f5 => Some (Done (assign_at upd_f 5 value s))
  | reg_f6 => Some (Done (assign_at upd_f 6 value s))
  | reg_f7 => Some (Done (assign_at upd_f 7 value s))
  | reg_f8 => Some (Done (assign_at upd_f 8 value s))
  | reg_f9 => Some (Done (assign_at upd_f 9 value s))
  | reg_f10 => Some (Done (assign_at upd_f 10 value s))
  | reg_f11 => Some (Done (assign_at upd_f 11 value s))
  | reg_f12 => Some (Done (assign_at upd_f 12 value s))
  | reg_f13 => Some (Done (assign_at upd_f 13 value s))
  | reg_f14 => Some (Done (assign_at upd_f 14 value s))
  | reg_f15 => Some (Done (assign_at upd_f 15 value s))
  | reg_f16 => Some (Done (assign_at upd_f 16 value s))
  | reg_f17 => Some (Done (assign_at upd_f 17 value s))
  | reg_f18 => Some (Done (assign_at upd_f 18 value s))
  | reg_f19 => Some (Done (assign_at upd_f 19 value s))
  | reg_f20 => Some (Done (assign_at upd_f 20 value s))
  | reg_f21 => Some (Done (assign_at upd_f 21 value s))
  | reg_f22 => Some (Done (assign_at upd_f 22 value s))
  | reg_f23 => Some (Done (assign_at upd_f 23 value s))
  | reg_f24 => Some (Done (assign_at upd_f 24 value s))
  | reg_f25 => Some (Done (assign_at upd_f 25 value s))
  | reg_f26 => Some (Done (assign_at upd_f 26 value s))
  | reg_f27 => Some (Done (assign_at upd_f 27 value s))
  | reg_f28 => Some (Done (assign_at upd_f 28 value s))
  | reg_f29 => Some (Done (assign_at upd_f 29 value s))
  | reg_f30 => Some (Done (assign_at upd_f 30 value s))
  | reg_f31 => Some (Done (assign_at upd_f 31 value s))
  | _ => None
  end.

(** [write_reg], the other registers of the machine *)
Definition write_reg_csr (r : machine_reg) (value : Z) (s : machine_state) : option (outcome machine_state) :=
  match r with
  | reg_pc => Some (Done (assign upd_pc value s))
  | reg_fcsr => Some (Done (assign upd_fcsr value s))
  | reg_mvendorid => Some (Exn read_only)
  | reg_marchid => Some (Exn read_only)
  | reg_mimpid => Some (Exn read_only)
  | reg_mcycle => Some (Done (assign upd_mcycle value s))
  | reg_icycleinstret => Some (Done (assign upd_icycleinstret value s))
  | reg_mstatus => Some (Done (assign upd_mstatus value s))
  | reg_mtvec => Some (Done (assign upd_mtvec value s))
  | reg_mscratch => Some (Done (assign upd_mscratch value s))
  | reg_mepc => Some (Done (assign upd_mepc value s))
  | reg_mcause => Some (Done (assign upd_mcause value s))
  | reg_mtval => Some (Done (assign upd_mtval value s))
  | reg_misa => Some (Done (assign upd_misa value s))
  | reg_mie => Some (Done (assign upd_mie value s))
  | reg_mip => Some (Done (assign upd_mip value s))
  | reg_medeleg => Some (Done (assign upd_medeleg value s))
  | reg_mideleg => Some (Done (assign upd_mideleg value s))
  | reg_mcounteren => Some (Done (assign upd_mcounteren value s))
  | reg_menvcfg => Some (Done (assign upd_menvcfg value s))
  | reg_stvec => Some (Done (assign upd_stvec value s))
  | reg_sscratch => Some (Done (assign upd_sscratch value s))
  | reg_sepc => Some (Done (assign upd_sepc value s))
  | reg_scause => Some (Done (assign upd_scause value s))
  | reg_stval => Some (Done (assign upd_stval value s))
  | reg_satp => Some (Done (assign upd_satp value s))
  | reg_scounteren => Some (Done (assign upd_scounteren value s))
  | reg_senvcfg => Some (Done (assign upd_senvcfg value s))
  | reg_ilrsc => Some (Done (assign upd_ilrsc value s))
  | reg_iprv => Some (Done (assign upd_iprv value s))
  | reg_iflags_X => Some (Done (set_iflags_X value s))
  | reg_iflags_Y => Some (Done (set_iflags_Y value s))
  | reg_iflags_H => Some (Done (set_iflags_H value s))
  | reg_iunrep => Some (Done (assign upd_iunrep value s))
  | reg_clint_mtimecmp => Some (Done (set_mtimecmp value s))
  | reg_plic_girqpend => Some (Done (set_girqpend value s))
  | reg_plic_girqsrvd => Some (Done (set_girqsrvd value s))
  | reg_htif_tohost => Some (Done (set_tohost value s))
  | reg_htif_fromhost => Some (Done (set_fromhost value s))
  | reg_htif_ihalt => Some (Done (set_ihalt value s))
  | reg_htif_iconsole => Some (Done (set_iconsole value s))
  | reg_htif_iyield => Some (Done (set_iyield value s))
  | _ => None
  end.

(** [write_reg], the registers of the microarchitecture *)
Definition write_reg_uarch (r : machine_reg) (value : Z) (u : uarch_state) : option (outcome uarch_state) :=
  match r with
  | reg_uarch_x0 => Some (Exn read_only)
  | reg_uarch_x1 => Some (Done (upd_us_x (fun l => <[1%nat := value]> l) u))
  | reg_uarch_x2 => Some (Done (upd_us_x (fun l => <[2%nat := value]> l) u))
  | reg_uarch_x3 => Some (Done (upd_us_x (fun l => <[3%nat := value]> l) u))
  | reg_uarch_x4 => Some (Done (upd_us_x (fun l => <[4%nat := value]> l) u))
  | reg_uarch_x5 => Some (Done (upd_us_x (fun l => <[5%nat := value]> l) u))
  | reg_uarch_x6 => Some (Done (upd_us_x (fun l => <[6%nat := value]> l) u))
  | reg_uarch_x7 => Some (Done (upd_us_x (fun l => <[7%nat := value]> l) u))
  | reg_uarch_x8 => Some (Done (upd_us_x (fun l => <[8%nat := value]> l) u))
  | reg_uarch_x9 => Some (Done (upd_us_x (fun l => <[9%nat := value]> l) u))
  | reg_uarch_x10 => Some (Done (upd_us_x (fun l => <[10%nat := value]> l) u))
  | reg_uarch_x11 => Some (Done (upd_us_x (fun l => <[11%nat := value]> l) u))
  | reg_uarch_x12 => Some (Done (upd_us_x (fun l => <[12%nat := value]> l) u))
  | reg_uarch_x13 => Some (Done (upd_us_x (fun l => <[13%nat := value]> l) u))
  | reg_uarch_x14 => Some (Done (upd_us_x (fun l => <[14%nat := value]> l) u))
  | reg_uarch_x15 => Some (Done (upd_us_x (fun l => <[15%nat := value]> l) u))
  | reg_uarch_x16 => Some (Done (upd_us_x (fun l => <[16%nat := value]> l) u))
  | reg_uarch_x17 => Some (Done (upd_us_x (fun l => <[17%nat := value]> l) u))
  | reg_uarch_x18 => Some (Done (upd_us_x (fun l => <[18%nat := value]> l) u))
  | reg_uarch_x19 => Some (Done (upd_us_x (fun l => <[19%nat := value]> l) u))
  | reg_uarch_x20 => Some (Done (upd_us_x (fun l => <[20%nat := value]> l) u))
  | reg_uarch_x21 => Some (Done (upd_us_x (fun l => <[21%nat := value]> l) u))
  | reg_uarch_x22 => Some (Done (upd_us_x (fun l => <[22%nat := value]> l) u))
  | reg_uarch_x23 => Some (Done (upd_us_x (fun l => <[23%nat := value]> l) u))
  | reg_uarch_x24 => Some (Done (upd_us_x (fun l => <[24%nat := value]> l) u))
  | reg_uarch_x25 => Some (Done (upd_us_x (fun l => <[25%nat := value]> l) u))
  | reg_uarch_x26 => Some (Done (upd_us_x (fun l => <[26%nat := value]> l) u))
  | reg_uarch_x27 => Some (Done (upd_us_x (fun l => <[27%nat := value]> l) u))
  | reg_uarch_x28 => Some (Done (upd_us_x (fun l => <[28%nat := value]> l) u))
  | reg_uarch_x29 => Some (Done (upd_us_x (fun l => <[29%nat := value]> l) u))
  | reg_uarch_x30 => Some (Done (upd_us_x (fun l => <[30%nat := value]> l) u))
  | reg_uarch_x31 => Some (Done (upd_us_x (fun l => <[31%nat := value]> l) u))
  | reg_uarch_pc => Some (Done (upd_us_pc (fun _ => value) u))
  | reg_uarch_cycle => Some (Done (upd_us_cycle (fun _ => value) u))
  | reg_uarch_halt_flag => Some (Done (upd_us_halt_flag (fun _ => negb (value =? 0)) u))
  | _ => None
  end.

(** [write_reg], the views *)
Definition write_reg_view (r : htif_view) (value : Z) (s : machine_state) : outcome machine_state :=
  match r with
  | view_htif_tohost_dev => Done (set_tohost (HTIF_REPLACE_DEV (tohost (s_htif s)) value) s)
  | view_htif_tohost_cmd => Done (set_tohost (HTIF_REPLACE_CMD (tohost (s_htif s)) value) s)
  | view_htif_tohost_reason => Done (set_tohost (HTIF_REPLACE_REASON (tohost (s_htif s)) value) s)
  | view_htif_tohost_data => Done (set_tohost (HTIF_REPLACE_DATA (tohost (s_htif s)) value) s)
  | view_htif_fromhost_dev => Done (set_fromhost (HTIF_REPLACE_DEV (fromhost (s_htif s)) value) s)
  | view_htif_fromhost_cmd => Done (set_fromhost (HTIF_REPLACE_CMD (fromhost (s_htif s)) value) s)
  | view_htif_fromhost_reason => Done (set_fromhost (HTIF_REPLACE_REASON (fromhost (s_htif s)) value) s)
  | view_htif_fromhost_data => Done (set_fromhost (HTIF_REPLACE_DATA (fromhost (s_htif s)) value) s)
  end.

Definition write_reg (s : machine_state) (u : uarch_state) (w : reg) (value : Z) : outcome (machine_state * uarch_state) :=
  match w with
  | reg_stored r =>
      match orelse (write_reg_x r value s) (orelse (write_reg_f r value s) (write_reg_csr r value s)) with
      | Some o => s ← o; mret (s, u)
      | None => match write_reg_uarch r value u with Some o => u ← o; mret (s, u) | None => Exn unknown_register end
      end
  | reg_view r => s ← write_reg_view r value s; mret (s, u)
  | unknown_ => Exn unknown_register
  end.

(** ** The address of a register *)

Definition view_index (v : htif_view) : Z :=
  match v with
  | view_htif_tohost_dev => 0
  | view_htif_tohost_cmd => 1
  | view_htif_tohost_reason => 2
  | view_htif_tohost_data => 3
  | view_htif_fromhost_dev => 4
  | view_htif_fromhost_cmd => 5
  | view_htif_fromhost_reason => 6
  | view_htif_fromhost_data => 7
  end.

(** The value of the enumerator: the views follow the last register. *)
Definition reg_value (r : reg) : Z :=
  match r with
  | reg_stored r => machine_reg_address r
  | reg_view v => machine_reg_address reg_uarch_x31 + 1 + view_index v
  | unknown_ => machine_reg_address reg_uarch_x31 + 9
  end.

Definition get_reg_address (r : reg) : outcome Z :=
  if (machine_reg_address reg_uarch_halt_flag <=? reg_value r) && (reg_value r <=? machine_reg_address reg_uarch_x31)
  then Done (reg_value r)
  else if (machine_reg_address reg_x0 <=? reg_value r) && (reg_value r <=? machine_reg_address reg_htif_iyield)
  then Done (reg_value r)
  else Exn (domain_error "invalid register").

(** ** Lemmas *)

Definition registers_wf (s : machine_state) (u : uarch_state) : Prop := machine_wf s /\ length (us_x u) = 32%nat.

(** The values of all the registers, in the order of their addresses *)
Definition regs_image (s : machine_state) (u : uarch_state) : list (outcome Z) :=
  map (fun r => read_reg s u (reg_stored r)) machine_regs.

(** The halt flag is a [bool]. *)
Definition kept_value (r : machine_reg) (v : Z) : Z :=
  match r with reg_uarch_halt_flag => Z.b2z (negb (v =? 0)) | _ => v end.

(** Every register can be read. *)
Lemma read_reg_total s u r : exists v, read_reg s u (reg_stored r) = Done v.
Proof. destruct r; by eexists. Qed.

Definition read_only_reg (r : machine_reg) : bool :=
  match r with reg_x0 | reg_mvendorid | reg_marchid | reg_mimpid | reg_uarch_x0 => true | _ => false end.

Lemma machine_write_image s u r v :
  registers_wf s u ->
  if read_only_reg r then write_reg s u (reg_stored r) v = Exn read_only
  else exists s' u', write_reg s u (reg_stored r) v = Done (s', u') /\ registers_wf s' u' /\
    exists i, field_index r machine_regs = Some (Z.of_nat i) /\ regs_image s' u' = <[i := Done (kept_value r v)]> (regs_image s u).
Proof.
  intros [[Hx Hf Hh Hc] Hux]. destruct s as [x ? ? ? f], u as [? ux]. cbn in Hx, Hf, Hh, Hc, Hux.
  explode x. explode f. explode ux.
  destruct r; try reflexivity; (eexists _, _; split; [reflexivity|]; split; [done|]);
    (eexists; split; [match goal with |- ?l = Some _ => let x := eval vm_compute in l in
       match x with Some ?z => let n := eval vm_compute in (Z.to_nat z) in instantiate (1 := n) end end; reflexivity|reflexivity]).
Qed.

Lemma machine_write_frame s u r v s' u' :
  write_reg s u r v = Done (s', u') ->
  s_pmas s' = s_pmas s /\ s_tlb s' = s_tlb s /\ us_shadow_state u' = us_shadow_state u /\ us_ram u' = us_ram u.
Proof. destruct r as [r|r|]; [destruct r|destruct r|]; cbn; intros [= <- <-]; done. Qed.

Lemma machine_regs_position r : exists i, field_index r machine_regs = Some (Z.of_nat i) /\ machine_regs !! i = Some r.
Proof.
  destruct (field_index r machine_regs) as [i|] eqn:E.
  - destruct (field_index_lookup _ _ _ E) as [Hi Hl]. exists (Z.to_nat i). by rewrite Z2Nat.id.
  - exfalso. revert E. destruct r; vm_compute; discriminate.
Qed.

Lemma machine_regs_nodup : NoDup machine_regs.
Proof. apply (bool_decide_unpack _). vm_compute. done. Qed.

Lemma regs_image_lookup s u i r : machine_regs !! i = Some r -> regs_image s u !! i = Some (read_reg s u (reg_stored r)).
Proof. intros Hi. unfold regs_image. by rewrite list_lookup_fmap, Hi. Qed.

(** An image that differs in one place *)
Lemma regs_image_read s u s' u' w i x r :
  field_index w machine_regs = Some (Z.of_nat i) -> regs_image s' u' = <[i := x]> (regs_image s u) ->
  read_reg s' u' (reg_stored r) = if decide (r = w) then x else read_reg s u (reg_stored r).
Proof.
  intros Hi Himg. destruct (machine_regs_position w) as (j & Hj & Hjw). rewrite Hi in Hj. injection Hj as Eij%Nat2Z.inj. subst j.
  destruct (machine_regs_position r) as (k & _ & Hk).
  pose proof (regs_image_lookup s' u' k r Hk) as Hl. rewrite Himg in Hl. destruct (decide (r = w)) as [->|Hne].
  - rewrite (NoDup_lookup _ _ _ _ machine_regs_nodup Hk Hjw) in Hl. rewrite list_lookup_insert_eq in Hl; [congruence|].
    unfold regs_image. rewrite length_map. by eapply lookup_lt_Some.
  - rewrite list_lookup_insert_ne in Hl by congruence. rewrite (regs_image_lookup s u k r Hk) in Hl. congruence.
Qed.

(** A register holds what was written to it last, by the host or through the bridge. *)
Lemma machine_write_read s u w v s' u' r :
  registers_wf s u -> write_reg s u (reg_stored w) v = Done (s', u') ->
  read_reg s' u' (reg_stored r) = if decide (r = w) then Done (kept_value w v) else read_reg s u (reg_stored r).
Proof.
  intros Hwf Ew. pose proof (machine_write_image s u w v Hwf) as Hw. destruct (read_only_reg w); [congruence|].
  destruct Hw as (s1 & u1 & E & _ & i & Hi & Himg). rewrite E in Ew. injection Ew as -> ->. by eapply regs_image_read.
Qed.

Lemma bridge_write_read s u w v s' r :
  registers_wf s u -> UarchBridgeSpec.write_reg w s v = Some s' ->
  read_reg s' u (reg_stored r) = if decide (r = w) then Done v else read_reg s u (reg_stored r).
Proof.
  intros [[Hx Hf _ _] Hux] Ew. assert (exists i, field_index w machine_regs = Some (Z.of_nat i) /\ regs_image s' u = <[i := Done v]> (regs_image s u))
    as (i & Hi & Himg); [|by eapply regs_image_read].
  destruct s as [x ? ? ? f], u as [? ux]. cbn in Hx, Hf, Hux. explode x. explode f. explode ux.
  destruct w; cbn in Ew; try discriminate Ew; injection Ew as <-;
    (eexists; split; [match goal with |- ?l = Some _ => let x := eval vm_compute in l in
       match x with Some ?z => let n := eval vm_compute in (Z.to_nat z) in instantiate (1 := n) end end; reflexivity|reflexivity]).
Qed.

(** What the bridge of the microarchitecture reads is what the host reads. *)
Lemma read_reg_bridge s u r v : UarchBridgeSpec.read_reg s r = Some v -> read_reg s u (reg_stored r) = Done v.
Proof. destruct r; cbn; intros [= <-]; done. Qed.

(** ** Peeks *)

(** What a callback returns: [None] when it fails, [Some None] for a null page,
    [Some (Some page)] otherwise *)
Definition peek_result : Type := option (option (list Z)).

(** A scratch page after [memset] *)
Definition clear_page : list Z := replicate (Z.to_nat PMA_PAGE_SIZE) 0.

(** ** Devices without contents *)

Definition null_peek (p : pma_entry) (page_offset : Z) : peek_result :=
  if (page_offset mod PMA_PAGE_SIZE =? 0) && (page_offset <? m_length p) then Some None else None.

Definition clint_peek := null_peek.
Definition plic_peek := null_peek.
Definition htif_peek := null_peek.

(** ** The shadows of the registers *)

(** The assignments to the fields of the structure, from the one at index [i] on *)
Fixpoint copy_fields (value : machine_reg -> outcome Z) (fields : list machine_reg) (i : Z) (scratch : list Z) :
    outcome (list Z) :=
  match fields with
  | [] => Done scratch
  | r :: fields =>
      v ← value r;
      copy_fields value fields (i + 1) (splice (Z.to_nat (8 * i)) (le_bytes 8 v) scratch)
  end.

Definition shadow_state_peek (s : machine_state) (u : uarch_state) (page_offset : Z) : outcome peek_result :=
  if negb (page_offset =? 0) then Done None
  else page ← copy_fields (fun r => read_reg s u (reg_stored r)) shadow_state 0 clear_page; mret (Some (Some page)).

Definition shadow_uarch_state_peek (s : machine_state) (u : uarch_state) (page_offset : Z) : outcome peek_result :=
  if negb (page_offset =? 0) then Done None
  else page ← copy_fields (fun r => read_reg s u (reg_stored r)) shadow_uarch_state 0 clear_page; mret (Some (Some page)).

(** ** The shadow of the TLB *)

(** The word at an offset of the structure; host pointers are visible as zeros. *)
Definition tlb_word (s : machine_state) (tlboff : Z) : Z :=
  if tlboff <? offsetof_cold then
    let etype := tlboff `div` sizeof_tlb_array in
    let etypeoff := tlboff `mod` sizeof_tlb_array in
    let tlbhe := get_hot (s_tlb s) etype (etypeoff `div` sizeof_tlb_entry) in
    if etypeoff `mod` sizeof_tlb_entry =? offsetof_vaddr_page then vaddr_page tlbhe else 0
  else if tlboff <? sizeof_shadow_tlb_state then
    let coldoff := tlboff - offsetof_cold in
    let etype := coldoff `div` sizeof_tlb_array in
    let etypeoff := coldoff `mod` sizeof_tlb_array in
    let tlbce := get_cold (s_tlb s) etype (etypeoff `div` sizeof_tlb_entry) in
    let fieldoff := etypeoff `mod` sizeof_tlb_entry in
    if fieldoff =? offsetof_paddr_page then paddr_page tlbce
    else if fieldoff =? offsetof_pma_index then pma_index tlbce
    else 0
  else 0.

(** The loop over the [n] words of a page from the offset [off] on *)
Fixpoint tlb_words (s : machine_state) (page_offset : Z) (n : nat) (off : Z) : list Z :=
  match n with
  | O => []
  | S n => le_bytes 8 (tlb_word s (page_offset + off)) ++ tlb_words s page_offset n (off + 8)
  end.

Definition shadow_tlb_peek (s : machine_state) (p : pma_entry) (page_offset : Z) : peek_result :=
  if negb (page_offset mod PMA_PAGE_SIZE =? 0) || (m_length p <=? page_offset) then None
  else Some (Some (tlb_words s page_offset (Z.to_nat (PMA_PAGE_SIZE / 8)) 0)).

(** ** The callback of an entry *)

Definition peek (s : machine_state) (u : uarch_state) (p : pma_entry) (page_offset : Z) : outcome peek_result :=
  match m_peek p with
  | pma_peek_error => Done None
  | memory_peek_cb => r ← memory_peek p page_offset; Done (option_map Some r)
  | clint_peek_cb => Done (clint_peek p page_offset)
  | plic_peek_cb => Done (plic_peek p page_offset)
  | htif_peek_cb => Done (htif_peek p page_offset)
  | shadow_state_peek_cb => shadow_state_peek s u page_offset
  | shadow_tlb_peek_cb => Done (shadow_tlb_peek s p page_offset)
  | shadow_uarch_state_peek_cb => shadow_uarch_state_peek s u page_offset
  end.

(** ** Theorems *)

(** C20: a register holds what was written to it last (the halt flag of the
    microarchitecture is a truth value) and no other register changes; the zero
    registers and the identification registers cannot be written; the bridge of the
    microarchitecture reads the same values. *)
Theorem registers_roundtrip s u w v :
  registers_wf s u ->
  if read_only_reg w then write_reg s u (reg_stored w) v = Exn read_only
  else exists s' u', write_reg s u (reg_stored w) v = Done (s', u') /\ registers_wf s' u' /\
    s_pmas s' = s_pmas s /\ s_tlb s' = s_tlb s /\
    (forall r, read_reg s' u' (reg_stored r) = if decide (r = w) then Done (kept_value w v) else read_reg s u (reg_stored r)) /\
    (forall r x, UarchBridgeSpec.read_reg s' r = Some x -> read_reg s' u' (reg_stored r) = Done x).
Proof.
  intros Hwf. pose proof (machine_write_image s u w v Hwf) as Hw. destruct (read_only_reg w); [done|].
  destruct Hw as (s' & u' & E & Hwf' & _). exists s', u'.
  destruct (machine_write_frame _ _ _ _ _ _ E) as (Hp & Ht & _ & _). do 4 (split; [done|]).
  split; [intros r; by apply (machine_write_read s u)|intros r x; apply read_reg_bridge].
Qed.

(** The registers of a machine that is turned off *)
Definition blank_uarch : uarch_state :=
  UarchState 0 (replicate 32 0) 0 false (empty_entry "shadow" 0 0) (empty_entry "RAM" 0 0) (empty_entry "empty" 0 0).

Lemma registers_roundtrip_witness :
  write_reg blank_machine blank_uarch (reg_stored reg_marchid) 7 = Exn read_only /\
  exists s' u', write_reg blank_machine blank_uarch (reg_stored reg_uarch_halt_flag) 7 = Done (s', u') /\
    read_reg s' u' (reg_stored reg_uarch_halt_flag) = Done 1 /\ read_reg s' u' (reg_stored reg_uarch_cycle) = Done 0.
Proof.
  assert (registers_wf blank_machine blank_uarch) as Hwf by (split; [apply blank_machine_wf|reflexivity]).
  split; [exact (registers_roundtrip _ _ reg_marchid 7 Hwf)|].
  destruct (registers_roundtrip _ _ reg_uarch_halt_flag 7 Hwf) as (s' & u' & E & _ & _ & _ & Hr & _).
  exists s', u'. split; [exact E|]. split; [exact (Hr reg_uarch_halt_flag)|exact (Hr reg_uarch_cycle)].
Defined.
