(* ===== verification/Machine.v ===== *)
(** * The machine (machine.h, machine.cpp)

    The object that owns the state of the machine, that of its microarchitecture
    and the Merkle tree over both: the registration of memory ranges, the hashing
    of the pages that changed, the hashes and proofs it answers, and the accesses
    of the host to physical and virtual memory. *)

From S2P Require Import Prelude CppInt Constants RiscvConstants UarchAccess Bytes Pma MachineState UarchBridge UarchState Hasher MerkleProof PristineMerkleTree MachineMerkleTree TranslateVirtualAddress MachineRegs.

(** ** Memory ranges *)

Definition PMA_ADDRESSABLE_MASK : Z := uint64 (Z.shiftl 1 56) - 1.
Definition PMA_FLASH_DRIVE_DID : Z := 3.
Definition PMA_CMIO_RX_BUFFER_DID : Z := 7.
Definition PMA_CMIO_TX_BUFFER_DID : Z := 8.

Definition no_overlap (start length : Z) (existing : pma_entry) : bool :=
  negb ((start <? uint64 (m_start existing + m_length existing)) && (m_start existing <? uint64 (start + length))).

(** [register_pma_entry]; the texts of the messages are shortened. *)
Definition register_pma_entry (pma : pma_entry) (s : machine_state) : outcome machine_state :=
  let start := m_start pma in
  let length := m_length pma in
  throw_if (PMA_MAX <=? Z.of_nat (base.length (s_pmas s))) (runtime_error "too many PMAs") ≫= fun _ =>
  throw_if (negb (start &ᵇ (PMA_PAGE_SIZE - 1) =? 0)) (invalid_argument "start must be aligned to page boundary") ≫= fun _ =>
  throw_if (negb (length &ᵇ (PMA_PAGE_SIZE - 1) =? 0)) (invalid_argument "length must be multiple of page size") ≫= fun _ =>
  (if negb (length =? 0) || negb (start =? 0) then
     throw_if (length =? 0) (invalid_argument "length cannot be zero") ≫= fun _ =>
     throw_if ((PMA_ADDRESSABLE_MASK <? start) || (uint64 (PMA_ADDRESSABLE_MASK - start) <? uint64 (length - 1)))
       (invalid_argument "range must use at most 56 bits to be addressable")
   else mret tt) ≫= fun _ =>
  throw_if (negb (forallb (no_overlap start length) (s_pmas s))) (invalid_argument "range overlaps") ≫= fun _ =>
  mret (upd_pmas (fun l => l ++ [set_index (Z.of_nat (base.length l)) pma]) s).

Definition DID_is_protected (DID : Z) : bool :=
  negb ((DID =? PMA_FLASH_DRIVE_DID) || (DID =? PMA_CMIO_RX_BUFFER_DID) || (DID =? PMA_CMIO_TX_BUFFER_DID)).

(** The entry that [make_memory_range_pma_entry] makes for a configuration: the
    length and the start of the range, and the host memory with its contents *)
Record memory_range_config := MemoryRangeConfig { cfg_start : Z; cfg_length : Z; cfg_base : Z; cfg_contents : list Z }.

Definition make_memory_range_pma_entry (description : string) (c : memory_range_config) : outcome pma_entry :=
  throw_if (cfg_length c =? 0) (zero_length description) ≫= fun _ =>
  mret (memory_entry description (cfg_start c) (cfg_length c)
          (PmaMemory (cfg_length c) (cfg_base c) (cfg_contents c)) memory_peek_cb).

(** The loop of [replace_memory_range] over the map *)
Fixpoint replace_range (range : memory_range_config) (pmas : list pma_entry) : outcome (list pma_entry) :=
  match pmas with
  | [] => Exn (invalid_argument "attempt to replace inexistent memory range")
  | pma :: pmas =>
      if (m_start pma =? cfg_start range) && (m_length pma =? cfg_length range) then
        throw_if (DID_is_protected (flag_DID (m_flags pma))) (invalid_argument "attempt to replace a protected range") ≫= fun _ =>
        pma' ← make_memory_range_pma_entry (m_description pma) range;
        mret (set_flags (m_flags pma) pma' :: pmas)
      else pmas ← replace_range range pmas; mret (pma :: pmas)
  end.

Definition replace_memory_range (range : memory_range_config) (s : machine_state) : outcome machine_state :=
  l ← replace_range range (s_pmas s); mret (upd_pmas (fun _ => l) s).

(** ** The search for a range *)

Definition range_holds (pma : pma_entry) (paddr length : Z) : bool :=
  (m_start pma <=? paddr) && (length <=? m_length pma) && (uint64 (paddr - m_start pma) <=? uint64 (m_length pma - length)).

(** [find_pma_entry] over a container: the position of the first entry that holds
    the range, or of the first empty one *)
Fixpoint find_entry (pmas : list pma_entry) (i : nat) (paddr length : Z) : option nat :=
  match pmas with
  | [] => None
  | pma :: pmas =>
      if m_length pma =? 0 then Some i
      else if range_holds pma paddr length then Some i
      else find_entry pmas (S i) paddr length
  end.

(** [back()] of an empty container is undefined. *)
Definition find_pma_entry (pmas : list pma_entry) (paddr length : Z) : outcome (nat * pma_entry) :=
  let i := default (base.length pmas - 1)%nat (find_entry pmas 0 paddr length) in
  match pmas !! i with Some pma => Done (i, pma) | None => Exn (undefined_behaviour "pmas.back()") end.

(** ** The TLB at construction *)

Definition init_tlb_entry (etype eidx : Z) (s : machine_state) : machine_state :=
  let s := upd_tlb (set_hot etype eidx (TlbHotEntry TLB_INVALID_PAGE 0)) s in
  upd_tlb (set_cold etype eidx (TlbColdEntry TLB_INVALID_PAGE TLB_INVALID_PMA)) s.

(** [load_tlb_entry] of the fields [vaddr_page], [paddr_page] and [pma_index] of an
    entry in an image of the TLB *)
Definition load_tlb_entry (etype eidx vaddr_page paddr_page pma_index : Z) (s : machine_state) : outcome machine_state :=
  let store vh_offset :=
    upd_tlb (set_cold etype eidx (TlbColdEntry paddr_page pma_index))
      (upd_tlb (set_hot etype eidx (TlbHotEntry vaddr_page vh_offset)) s) in
  if vaddr_page =? TLB_INVALID_PAGE then mret (store 0) else
  throw_if (negb ((vaddr_page &ᵇ uint64 (Z.lnot PAGE_OFFSET_MASK)) =? vaddr_page))
    (invalid_argument "misaligned virtual page address in TLB entry") ≫= fun _ =>
  throw_if (negb ((paddr_page &ᵇ uint64 (Z.lnot PAGE_OFFSET_MASK)) =? paddr_page))
    (invalid_argument "misaligned physical page address in TLB entry") ≫= fun _ =>
  '(i, pma) ← find_pma_entry (s_pmas s) paddr_page 8;
  throw_if ((m_length pma =? 0) || negb (get_istart_M pma) || (Z.of_nat (base.length (s_pmas s)) <=? pma_index)
            || negb (Z.of_nat i =? pma_index)) (invalid_argument "invalid PMA for TLB entry") ≫= fun _ =>
  m ← get_memory pma;
  mret (store (uint64 (host_base m + uint64 (paddr_page - m_start pma) - vaddr_page))).

(** ** Dirty pages *)

Definition corrupt_tlb : exn := runtime_error "could not mark dirty page for a TLB entry: TLB is corrupt".

Definition mark_write_tlb_entry (s : machine_state) (i : Z) : outcome machine_state :=
  if vaddr_page (get_hot (s_tlb s) TLB_WRITE i) =? TLB_INVALID_PAGE then Done s
  else
    let tlbce := get_cold (s_tlb s) TLB_WRITE i in
    throw_if (Z.of_nat (base.length (s_pmas s)) <=? pma_index tlbce) corrupt_tlb ≫= fun _ =>
    match s_pmas s !! Z.to_nat (pma_index tlbce) with
    | None => Exn corrupt_tlb
    | Some pma =>
        throw_if (negb (contains pma (paddr_page tlbce) PMA_PAGE_SIZE)) corrupt_tlb ≫= fun _ =>
        pma ← mark_dirty_page pma (uint64 (paddr_page tlbce - m_start pma));
        mret (upd_pmas (fun l => <[Z.to_nat (pma_index tlbce) := pma]> l) s)
    end.

(** A loop over the entries, in order *)
Fixpoint mark_entries (entries : list Z) (s : machine_state) : outcome machine_state :=
  match entries with
  | [] => Done s
  | i :: entries => s ← mark_write_tlb_entry s i; mark_entries entries s
  end.

Definition mark_write_tlb_dirty_pages (s : machine_state) : outcome machine_state :=
  mark_entries (seqZ 0 PMA_TLB_SIZE) s.

Definition pages_in_range (p : pma_entry) : Z := uint64 (m_length p + PMA_PAGE_SIZE - 1) `div` PMA_PAGE_SIZE.

(** ** The object *)

(** The elements of [m_merkle_pmas] are pointers to the entries of the map, to
    those of the microarchitecture and to the empty entry. *)
Inductive merkle_ref := merkle_pmas (i : nat) | merkle_shadow_uarch | merkle_uarch_ram | merkle_empty.

#[export] Instance merkle_ref_eq_dec : EqDecision merkle_ref.
Proof. solve_decision. Defined.

Section machine.
Context `{i_hasher}.
(** The value of [hash_type{}] *)
Context (zero : hash_type).

Record machine := MakeMachine {
  m_refs : uarch_refs;
  m_t : machine_merkle_tree;
  m_merkle_pmas : list merkle_ref;
}.

Definition state_of (m : machine) : machine_state := m_s (m_refs m).
Definition uarch_of (m : machine) : uarch_state := m_us (m_refs m).

Definition set_state (s : machine_state) (m : machine) : machine :=
  MakeMachine (UarchRefs (m_us (m_refs m)) s (console (m_refs m))) (m_t m) (m_merkle_pmas m).
Definition set_uarch (u : uarch_state) (m : machine) : machine :=
  MakeMachine (UarchRefs u (m_s (m_refs m)) (console (m_refs m))) (m_t m) (m_merkle_pmas m).
Definition set_refs (r : uarch_refs) (m : machine) : machine := MakeMachine r (m_t m) (m_merkle_pmas m).
Definition set_tree (t : machine_merkle_tree) (m : machine) : machine := MakeMachine (m_refs m) t (m_merkle_pmas m).

Definition deref_pma (m : machine) (r : merkle_ref) : outcome pma_entry :=
  match r with
  | merkle_pmas i => match s_pmas (state_of m) !! i with Some p => Done p | None => Exn past_the_map end
  | merkle_shadow_uarch => Done (us_shadow_state (uarch_of m))
  | merkle_uarch_ram => Done (us_ram (uarch_of m))
  | merkle_empty => Done (s_empty_pma (state_of m))
  end.

Definition upd_us_shadow_state : (pma_entry -> pma_entry) -> uarch_state -> uarch_state :=
  ltac:(updater uarch_state_eta us_shadow_state).

Definition upd_empty_pma : (pma_entry -> pma_entry) -> machine_state -> machine_state :=
  ltac:(updater machine_state_eta s_empty_pma).

(** Assignment through a pointer *)
Definition store_pma (r : merkle_ref) (p : pma_entry) (m : machine) : machine :=
  match r with
  | merkle_pmas i => set_state (upd_pmas (fun l => <[i := p]> l) (state_of m)) m
  | merkle_shadow_uarch => set_uarch (upd_us_shadow_state (fun _ => p) (uarch_of m)) m
  | merkle_uarch_ram => set_uarch (upd_us_ram (fun _ => p) (uarch_of m)) m
  | merkle_empty => set_state (upd_empty_pma (fun _ => p) (state_of m)) m
  end.

(** The pointers that the constructor collects: the entries registered before the
    sentinels, and those of the microarchitecture *)
Definition collect_merkle_pmas (registered : nat) : list merkle_ref :=
  map merkle_pmas (seq 0 registered) ++ [merkle_shadow_uarch; merkle_uarch_ram; merkle_empty].

Definition find_merkle_pma (m : machine) (paddr length : Z) : outcome (merkle_ref * pma_entry) :=
  pmas ← mapM (deref_pma m) (m_merkle_pmas m);
  '(i, p) ← find_pma_entry pmas paddr length;
  match m_merkle_pmas m !! i with Some r => Done (r, p) | None => Exn past_the_map end.

Definition peek_page (m : machine) (p : pma_entry) (page_offset : Z) : outcome peek_result :=
  peek (state_of m) (uarch_of m) p page_offset.

(** ** The update of the Merkle tree *)

Definition THREADS_MAX : Z := 256.

(** [concurrency] is what the operating system offers. *)
Definition get_task_concurrency (concurrency value : Z) : Z :=
  Z.min (if 0 <? value then value else Z.max concurrency 1) THREADS_MAX.

(** The hash that a page is updated with *)
Definition page_update_hash (page_data : list Z) : outcome hash_type :=
  if is_pristine page_data then get_pristine_hash LOG2_PAGE_SIZE else get_page_data_hash (Some page_data).

(** What a thread does for page [i] of a range: it ends with [false] when the peek
    or the update fails. *)
Definition update_dirty_page (m : machine) (p : pma_entry) (i : Z) (t : machine_merkle_tree) :
    outcome (bool * machine_merkle_tree) :=
  let page_start_in_range := uint64 (i * PMA_PAGE_SIZE) in
  let page_address := uint64 (m_start p + page_start_in_range) in
  dirty ← is_page_marked_dirty p page_start_in_range;
  if negb dirty then mret (true, t)
  else
    r ← peek_page m p page_start_in_range;
    match r with
    | None => mret (false, t)
    | Some None => mret (true, t)
    | Some (Some page_data) => hash ← page_update_hash page_data; update_page_node_hash zero page_address hash t
    end.

(** Thread [j] of [n] is responsible for the pages [i] with [i % n == j]. *)
Definition thread_pages (n pages j : Z) : list Z := filter (fun i => i mod n = j) (seqZ 0 pages).

(** A thread on its own *)
Fixpoint run_thread (m : machine) (p : pma_entry) (pages : list Z) (t : machine_merkle_tree) :
    outcome (bool * machine_merkle_tree) :=
  match pages with
  | [] => Done (true, t)
  | i :: pages =>
      '(ok, t) ← update_dirty_page m p i t;
      if (ok : bool) then run_thread m p pages t else mret (false, t)
  end.

(** The threads that remain, one after the other *)
Fixpoint join_threads (m : machine) (p : pma_entry) (threads : list (list Z)) (ok : bool) (t : machine_merkle_tree) :
    outcome (bool * machine_merkle_tree) :=
  match threads with
  | [] => Done (ok, t)
  | pages :: threads => '(ok', t) ← run_thread m p pages t; join_threads m p threads (ok && ok') t
  end.

(** [os_parallel_for]: the threads update pages in the order of a schedule, which
    names the thread that goes on; the mutex makes the updates atomic, and
    everything else that threads reach is read only.  What the schedule leaves
    runs when the threads are joined. *)
Fixpoint run_threads (m : machine) (p : pma_entry) (schedule : list nat) (threads : list (list Z)) (ok : bool)
    (t : machine_merkle_tree) : outcome (bool * machine_merkle_tree) :=
  match schedule with
  | [] => join_threads m p threads ok t
  | j :: schedule =>
      match threads !! j with
      | Some (i :: pages) =>
          '(ok', t) ← update_dirty_page m p i t;
          run_threads m p schedule (<[j := if ok' : bool then pages else []]> threads) (ok && ok') t
      | _ => run_threads m p schedule threads ok t
      end
  end.

(** The loop over the ranges: [schedules] gives the interleaving of the threads
    of each, [n] their number.  A range whose threads all succeed is clean. *)
Fixpoint update_pmas (n : Z) (schedules : merkle_ref -> list nat) (refs : list merkle_ref) (m : machine) :
    outcome (bool * machine) :=
  match refs with
  | [] => Done (true, m)
  | r :: refs =>
      p ← deref_pma m r;
      '(succeeded, t) ←
        run_threads m p (schedules r) (map (thread_pages n (pages_in_range p)) (seqZ 0 n)) true (m_t m);
      if negb succeeded then mret (false, set_tree t m)
      else update_pmas n schedules refs (store_pma r (mark_pages_clean p) (set_tree t m))
  end.

(** [n] is [get_task_concurrency] of the configuration. *)
Definition update_merkle_tree (n : Z) (schedules : merkle_ref -> list nat) (m : machine) : outcome (bool * machine) :=
  s ← mark_write_tlb_dirty_pages (state_of m);
  let m := set_state s m in
  let '(_, t) := begin_update (m_t m) in
  '(succeeded, m) ← update_pmas n schedules (m_merkle_pmas m) (set_tree t m);
  '(ret, t) ← end_update (m_t m);
  mret ((succeeded : bool) && ret, set_tree t m).

Definition update_merkle_tree_page (address : Z) (m : machine) : outcome (bool * machine) :=
  let address := address &ᵇ uint64 (Z.lnot (PMA_PAGE_SIZE - 1)) in
  '(r, pma) ← find_merkle_pma m address 8;
  let page_start_in_range := uint64 (address - m_start pma) in
  let '(_, t) := begin_update (m_t m) in
  page ← peek_page m pma page_start_in_range;
  match page with
  | None => '(_, t) ← end_update t; mret (false, set_tree t m)
  | Some page_data =>
      '(updated, t) ←
        match page_data with
        | None => mret (true, t)
        | Some page_data =>
            hash ← get_page_data_hash (Some page_data);
            update_page_node_hash zero (uint64 (m_start pma + page_start_in_range)) hash t
        end;
      if negb updated then '(_, t) ← end_update t; mret (false, set_tree t m)
      else
        pma ← mark_clean_page pma page_start_in_range;
        '(ret, t) ← end_update t;
        mret (ret, store_pma r pma (set_tree t m))
  end.

(** [verify_dirty_page_maps], page by page: whether the map is broken there *)
Definition verify_page (m : machine) (p : pma_entry) (page_start_in_range : Z) : outcome bool :=
  let page_address := uint64 (m_start p + page_start_in_range) in
  if get_istart_M p then
    r ← peek_page m p page_start_in_range;
    stored ← get_page_node_hash (m_t m) page_address;
    real ← get_page_data_hash (match r with Some page_data => page_data | None => None end);
    marked_dirty ← is_page_marked_dirty p page_start_in_range;
    mret (negb (bool_decide (real = stored)) && negb marked_dirty)
  else if get_istart_IO p then
    marked_dirty ← is_page_marked_dirty p page_start_in_range; mret (negb marked_dirty)
  else mret false.

(** The loop over the pages of a range stops at the first that is broken. *)
Fixpoint verify_pages (m : machine) (p : pma_entry) (pages : list Z) : outcome bool :=
  match pages with
  | [] => Done false
  | i :: pages => broken ← verify_page m p (i * PMA_PAGE_SIZE); if (broken : bool) then mret true else verify_pages m p pages
  end.

Fixpoint verify_pmas (m : machine) (pmas : list pma_entry) (broken : bool) : outcome bool :=
  match pmas with
  | [] => Done broken
  | p :: pmas => b ← verify_pages m p (seqZ 0 (pages_in_range p)); verify_pmas m pmas (broken || b)
  end.

Definition verify_dirty_page_maps (m : machine) : outcome (bool * machine) :=
  s ← mark_write_tlb_dirty_pages (state_of m);
  let m := set_state s m in
  broken ← verify_pmas m (s_pmas s) false;
  mret (negb broken, m).

(** ** Hashes and proofs

    [n] and [schedules] are those of the update that comes first. *)

Section answers.
Context (n : Z) (schedules : merkle_ref -> list nat).

Definition update_or_throw (m : machine) : outcome machine :=
  '(ok, m) ← update_merkle_tree n schedules m;
  throw_if (negb ok) (runtime_error "error updating Merkle tree") ≫= fun _ => mret m.

Definition get_root_hash (m : machine) : outcome (hash_type * machine) :=
  iunrep ← read_reg (state_of m) (uarch_of m) (reg_stored reg_iunrep);
  throw_if (negb (iunrep =? 0)) (runtime_error "cannot compute root hash of unreproducible machines") ≫= fun _ =>
  m ← update_or_throw m;
  h ← MachineMerkleTree.get_root_hash (m_t m);
  mret (h, m).

Definition get_merkle_tree_node_hash_skip (m : machine) (address log2_size : Z) : outcome hash_type :=
  get_node_hash (m_t m) address log2_size.

Definition get_merkle_tree_node_hash (m : machine) (address log2_size : Z) : outcome (hash_type * machine) :=
  m ← update_or_throw m;
  h ← get_merkle_tree_node_hash_skip m address log2_size;
  mret (h, m).

Definition verify_merkle_tree (m : machine) : outcome bool := verify_tree (m_t m).

(** The page that [get_proof] hands to the tree *)
Definition proof_page (m : machine) (address log2_size : Z) : outcome (option (list Z)) :=
  if log2_size <? LOG2_PAGE_SIZE then
    '(_, pma) ← find_merkle_pma m address (uint64 (Z.shiftl 1 log2_size));
    if get_istart_E pma then mret None
    else
      r ← peek_page m pma (uint64 (address - m_start pma) &ᵇ uint64 (Z.lnot (PMA_PAGE_SIZE - 1)));
      match r with None => Exn (runtime_error "PMA peek failed") | Some page_data => mret page_data end
  else mret None.

Definition get_proof_skip (m : machine) (address log2_size : Z) : outcome merkle_tree_proof :=
  throw_if ((LOG2_ROOT_SIZE <? log2_size) || (log2_size <? LOG2_WORD_SIZE)) (invalid_argument "invalid log2_size") ≫= fun _ =>
  throw_if (negb ((address &ᵇ Z.shiftr (uint64 (Z.lnot 0)) (64 - log2_size)) =? 0))
    (invalid_argument "address not aligned to log2_size") ≫= fun _ =>
  page_data ← proof_page m address log2_size;
  MachineMerkleTree.get_proof zero (m_t m) address log2_size page_data.

Definition get_proof (m : machine) (address log2_size : Z) : outcome (merkle_tree_proof * machine) :=
  m ← update_or_throw m;
  proof ← get_proof_skip m address log2_size;
  mret (proof, m).
End answers.

(** ** The memory

    [data] is the buffer, or [None] for a null pointer. *)

Definition no_buffer : exn := invalid_argument "invalid data buffer".
Definition not_memory : exn := invalid_argument "address range not entirely in memory PMA".

(** The loop of [read_memory] over the pages of a device, with [fuel] pages left:
    the bytes read from the offset [shift] of the page at [page_address] on *)
Fixpoint read_pages (fuel : nat) (m : machine) (p : pma_entry) (page_address shift length : Z) : outcome (list Z) :=
  if length =? 0 then Done [] else
  match fuel with
  | O => Exn (undefined_behaviour "out of fuel")
  | S fuel =>
      let bytes_to_write := Z.min length (uint64 (PMA_PAGE_SIZE - shift)) in
      r ← peek_page m p page_address;
      match r with
      | None => Exn (runtime_error "peek failed")
      | Some page_data =>
          let bytes := match page_data with
                       | None => replicate (Z.to_nat bytes_to_write) 0
                       | Some page_data => Pma.slice shift bytes_to_write page_data
                       end in
          rest ← read_pages fuel m p (uint64 (page_address + PMA_PAGE_SIZE)) 0 (uint64 (length - bytes_to_write));
          mret (bytes ++ rest)
      end
  end.

(** The bytes copied to the buffer; [null] tells that it is a null pointer. *)
Definition read_memory (m : machine) (address : Z) (null : bool) (length : Z) : outcome (list Z) :=
  if length =? 0 then Done [] else
  throw_if null no_buffer ≫= fun _ =>
  '(_, pma) ← find_merkle_pma m address length;
  if get_istart_M pma then
    mem ← get_memory pma; mret (Pma.slice (uint64 (address - m_start pma)) length (host_memory mem))
  else
    let shift := uint64 (address - m_start pma) in
    let page_address := uint64 (Z.shiftl (Z.shiftr shift PMA_PAGE_SIZE_LOG2) PMA_PAGE_SIZE_LOG2) in
    read_pages (S (Z.to_nat (length / PMA_PAGE_SIZE + 1))) m pma page_address (uint64 (shift - page_address)) length.

Definition write_memory (m : machine) (address : Z) (data : option (list Z)) (length : Z) : outcome machine :=
  if length =? 0 then Done m else
  match data with
  | None => Exn no_buffer
  | Some data =>
      '(r, pma) ← find_merkle_pma m address length;
      throw_if (negb (get_istart_M pma) || get_istart_E pma) not_memory ≫= fun _ =>
      pma ← Pma.write_memory pma address (Some data) length;
      mret (store_pma r pma m)
  end.

Definition fill_memory (m : machine) (address data length : Z) : outcome machine :=
  if length =? 0 then Done m else
  '(r, pma) ← find_merkle_pma m address length;
  throw_if (negb (get_istart_M pma) || get_istart_E pma) not_memory ≫= fun _ =>
  pma ← Pma.fill_memory pma address data length;
  mret (store_pma r pma m).

(** Addresses are translated as those of loads, and no bit of the page tables changes. *)
Definition translate (m : machine) (vaddr : Z) : outcome Z :=
  '(paddr, _) ← TranslateVirtualAddress.translate_virtual_address false (state_of m) vaddr PTE_XWR_R_SHIFT;
  match paddr with None => Exn (domain_error "page fault") | Some paddr => mret paddr end.

Definition translate_virtual_address (m : machine) (vaddr : Z) : outcome Z := translate m vaddr.

(** The chunk of the buffer that lies in a virtual page: its offset in the page,
    its offset in the buffer and its length *)
Definition page_chunk (vaddr_start vaddr_limit vaddr_page : Z) : Z * Z * Z :=
  let chunklen := Z.min PMA_PAGE_SIZE (uint64 (vaddr_limit - vaddr_page)) in
  if vaddr_page <? vaddr_start then
    let off := uint64 (vaddr_start - vaddr_page) in
    (off, uint64 (uint64 (vaddr_page + off) - vaddr_start), uint64 (chunklen - off))
  else (0, uint64 (vaddr_page - vaddr_start), chunklen).

Definition vaddr_limit_of (vaddr_start length : Z) : Z := uint64 (vaddr_start + length).
Definition vaddr_page_start (vaddr_start : Z) : Z := vaddr_start &ᵇ uint64 (Z.lnot (PMA_PAGE_SIZE - 1)).
Definition vaddr_page_limit (vaddr_limit : Z) : Z :=
  uint64 (vaddr_limit + PMA_PAGE_SIZE - 1) &ᵇ uint64 (Z.lnot (PMA_PAGE_SIZE - 1)).

(** The loop over the virtual pages, with [fuel] pages left *)
Fixpoint read_virtual_pages (fuel : nat) (m : machine) (vaddr_start vaddr_limit vaddr_page page_limit : Z) :
    outcome (list Z) :=
  if negb (vaddr_page <? page_limit) then Done [] else
  match fuel with
  | O => Exn (undefined_behaviour "out of fuel")
  | S fuel =>
      paddr_page ← translate m vaddr_page;
      let '(off, _, chunklen) := page_chunk vaddr_start vaddr_limit vaddr_page in
      bytes ← read_memory m (uint64 (paddr_page + off)) false chunklen;
      rest ← read_virtual_pages fuel m vaddr_start vaddr_limit (uint64 (vaddr_page + PMA_PAGE_SIZE)) page_limit;
      mret (bytes ++ rest)
  end.

Definition virtual_fuel (length : Z) : nat := Z.to_nat (length / PMA_PAGE_SIZE + 2).

Definition read_virtual_memory (m : machine) (vaddr_start : Z) (null : bool) (length : Z) : outcome (list Z) :=
  if length =? 0 then Done [] else
  throw_if null no_buffer ≫= fun _ =>
  let vaddr_limit := vaddr_limit_of vaddr_start length in
  read_virtual_pages (virtual_fuel length) m vaddr_start vaddr_limit (vaddr_page_start vaddr_start) (vaddr_page_limit vaddr_limit).

Fixpoint write_virtual_pages (fuel : nat) (m : machine) (vaddr_start vaddr_limit vaddr_page page_limit : Z)
    (data : list Z) : outcome machine :=
  if negb (vaddr_page <? page_limit) then Done m else
  match fuel with
  | O => Exn (undefined_behaviour "out of fuel")
  | S fuel =>
      paddr_page ← translate m vaddr_page;
      let '(off, chunkoff, chunklen) := page_chunk vaddr_start vaddr_limit vaddr_page in
      m ← write_memory m (uint64 (paddr_page + off)) (Some (drop (Z.to_nat chunkoff) data)) chunklen;
      write_virtual_pages fuel m vaddr_start vaddr_limit (uint64 (vaddr_page + PMA_PAGE_SIZE)) page_limit data
  end.

Definition write_virtual_memory (m : machine) (vaddr_start : Z) (data : option (list Z)) (length : Z) : outcome machine :=
  if length =? 0 then Done m else
  match data with
  | None => Exn no_buffer
  | Some data =>
      let vaddr_limit := vaddr_limit_of vaddr_start length in
      write_virtual_pages (virtual_fuel length) m vaddr_start vaddr_limit (vaddr_page_start vaddr_start)
        (vaddr_page_limit vaddr_limit) data
  end.

Definition read_word (m : machine) (word_address : Z) : outcome Z :=
  throw_if (negb ((word_address &ᵇ (PMA_WORD_SIZE - 1)) =? 0)) (invalid_argument "address not aligned") ≫= fun _ =>
  '(_, pma) ← find_pma_entry (s_pmas (state_of m)) word_address 8;
  let page_start_in_range := uint64 (word_address - m_start pma) &ᵇ uint64 (Z.lnot (PMA_PAGE_SIZE - 1)) in
  r ← peek_page m pma page_start_in_range;
  match r with
  | None => Exn (invalid_argument "peek failed")
  | Some None => mret 0
  | Some (Some page_data) =>
      let word_start_in_range := uint64 (word_address - m_start pma) &ᵇ (PMA_PAGE_SIZE - 1) in
      mret (le_val (Pma.slice word_start_in_range 8 page_data))
  end.
End machine.
Arguments machine {_}.
