(* ===== verification/MachinePages.v ===== *)
(** * The pages of the machine

    The address space as the Merkle tree sees it: each page belongs to at most one
    of the ranges of the tree and has the contents that the callback of the range
    gives, or is zero.  This file defines the contents of a page, the hash of a
    page and the root hash of a state, and shows that changes of the dirty maps
    leave them alone. *)

From S2P Require Import Prelude CppInt Constants RiscvConstants UarchAccess Bytes Pma PmaSpec MachineState UarchBridge UarchBridgeSpec UarchState UarchStateSpec Hasher MerkleProof PristineMerkleTree MachineMerkleTree MachineMerkleTreeSpec MachineTreeProofs MachineRegs Machine.

(** ** Peeks *)

Lemma read_reg_frame s u f g h h' r :
  read_reg (upd_pmas f (upd_empty_pma g s)) (upd_us_shadow_state h (upd_us_ram h' u)) r = read_reg s u r.
Proof. destruct r as [r|r|]; [destruct r|destruct r|]; reflexivity. Qed.

Lemma copy_fields_ext value value' l i scratch :
  (forall r, value r = value' r) -> copy_fields value l i scratch = copy_fields value' l i scratch.
Proof.
  intros Hv. revert i scratch. induction l as [|r l IH]; intros i scratch; cbn; [done|].
  rewrite Hv. destruct (value' r); cbn; [apply IH|done].
Qed.

Lemma peek_frame s u f g h h' p o :
  peek (upd_pmas f (upd_empty_pma g s)) (upd_us_shadow_state h (upd_us_ram h' u)) p o = peek s u p o.
Proof.
  unfold peek, shadow_state_peek, shadow_uarch_state_peek. destruct (m_peek p); try reflexivity; (case_match; [done|]);
    by rewrite (copy_fields_ext _ (fun r => read_reg s u (reg_stored r))) by (intros; apply read_reg_frame).
Qed.

Lemma peek_same s u p p' o : same_memory p p' -> peek s u p' o = peek s u p o.
Proof. intros [-> _]. by destruct p. Qed.

Lemma copy_fields_done value l i scratch :
  (forall r, exists v, value r = Done v) -> 0 <= i -> 8 * (i + Z.of_nat (length l)) <= Z.of_nat (length scratch) ->
  exists page, copy_fields value l i scratch = Done page /\ length page = length scratch.
Proof.
  intros Hv. revert i scratch. induction l as [|r l IH]; intros i scratch Hi Hl; cbn [copy_fields]; [by exists scratch|].
  destruct (Hv r) as [v ->]. cbn [mbind outcome_bind length] in *.
  assert (length (splice (Z.to_nat (8 * i)) (le_bytes 8 v) scratch) = length scratch) as E
    by (apply length_splice; rewrite length_le_bytes; lia).
  destruct (IH (i + 1) (splice (Z.to_nat (8 * i)) (le_bytes 8 v) scratch)) as (page & -> & Hp); [lia|rewrite E; lia|].
  exists page. by rewrite Hp.
Qed.

Lemma length_tlb_words s o n i : length (tlb_words s o n i) = (8 * n)%nat.
Proof. revert i. induction n as [|n IH]; intros i; cbn [tlb_words]; [done|]. rewrite length_app, length_le_bytes, IH. lia. Qed.

Lemma copy_fields_bytes value l i scratch page :
  copy_fields value l i scratch = Done page -> Forall is_byte scratch -> Forall is_byte page.
Proof.
  revert i scratch. induction l as [|r l IH]; intros i scratch; cbn; [by intros [= <-]|].
  destruct (value r) as [v|]; cbn; [|done]. intros E Hs. apply IH in E; [done|]. apply splice_bytes; [apply le_bytes_bytes|done].
Qed.

Lemma tlb_words_bytes s o n i : Forall is_byte (tlb_words s o n i).
Proof. revert i. induction n as [|n IH]; intros i; cbn [tlb_words]; [constructor|]. apply Forall_app. split; [apply le_bytes_bytes|apply IH]. Qed.

Lemma peek_bytes s u p o d :
  (get_istart_M p = true -> Forall is_byte (host p)) -> peek s u p o = Done (Some (Some d)) -> Forall is_byte d.
Proof.
  intros Hb. assert (Forall is_byte clear_page) as Hclear by (by apply Forall_replicate).
  unfold peek, memory_peek, clint_peek, plic_peek, htif_peek, null_peek, shadow_state_peek, shadow_tlb_peek, shadow_uarch_state_peek.
  destruct (m_peek p); try done; try (by case_if).
  - case_if; [done|]. unfold get_memory, get_istart_M, host in *. destruct (m_data p) as [| |mem]; cbn; [done|done|].
    specialize (Hb eq_refl). case_if; [|intros [= <-]; by apply Forall_take, Forall_drop].
    intros [= <-]. apply Forall_app. split; [by apply Forall_take, Forall_drop|by apply Forall_replicate].
  - case_if; [done|]. destruct (copy_fields _ _ _ _) as [page|] eqn:Ecf; cbn; [|done]. intros [= <-]. by eapply copy_fields_bytes.
  - case_if; [done|]. pose proof (tlb_words_bytes s o (Z.to_nat (PMA_PAGE_SIZE / 8)) 0) as Hw. revert Hw. generalize (tlb_words s o (Z.to_nat (PMA_PAGE_SIZE / 8)) 0).
    intros l Hl El. injection El as <-. exact Hl.
  - case_if; [done|]. destruct (copy_fields _ _ _ _) as [page|] eqn:Ecf; cbn; [|done]. intros [= <-]. by eapply copy_fields_bytes.
Qed.

(** ** Ranges of the tree *)

(** The callback succeeds on the pages of the range. *)
Definition peekable (p : pma_entry) : Prop :=
  match m_peek p with
  | pma_peek_error => m_length p = 0
  | memory_peek_cb => memory_wf p
  | shadow_state_peek_cb | shadow_uarch_state_peek_cb => m_length p = PMA_PAGE_SIZE
  | _ => True
  end.

Record merkle_entry_ok (p : pma_entry) : Prop := {
  me_start : 0 <= m_start p;
  me_aligned : m_start p `mod` PMA_PAGE_SIZE = 0;
  me_pages : m_length p `mod` PMA_PAGE_SIZE = 0;
  me_length : 0 <= m_length p;
  me_end : m_start p + m_length p <= 2 ^ 56;
  me_peekable : peekable p;
  me_memory : get_istart_M p = true -> m_peek p = memory_peek_cb;
  me_device : get_istart_M p = false -> m_dirty_page_map p = [];
  me_empty : get_istart_E p = true -> m_length p = 0;
}.

Lemma merkle_entry_same p p' : same_memory p p' -> merkle_entry_ok p -> merkle_entry_ok p'.
Proof.
  intros Hs. pose proof (same_memory_wf _ _ Hs) as Hw. destruct Hs as [E Hl]. rewrite E in Hw |- *. intros [].
  constructor; try done.
  - unfold peekable in *. cbn [m_peek set_dirty_page_map] in *. destruct (m_peek p); try done. by apply Hw.
  - intros HM. cbn. apply length_zero_iff_nil. rewrite Hl. by rewrite me_device0.
Qed.

Lemma peek_done s u p o :
  merkle_entry_ok p -> 0 <= o < m_length p -> o `mod` PMA_PAGE_SIZE = 0 ->
  exists r, peek s u p o = Done (Some r) /\ (forall d, r = Some d -> length d = Z.to_nat PMA_PAGE_SIZE).
Proof.
  intros Hp Ho Hal. pose proof (me_peekable _ Hp) as Hk. pose proof (me_pages _ Hp) as Hpg. unfold peek, peekable in *.
  assert (forall l, (length l <= 512)%nat -> exists page, copy_fields (fun r => read_reg s u (reg_stored r)) l 0 clear_page = Done page /\
    length page = Z.to_nat PMA_PAGE_SIZE) as Hcopy.
  { intros l Hl. destruct (copy_fields_done (fun r => read_reg s u (reg_stored r)) l 0 clear_page) as (page & E & Hpage).
    - intros r. apply read_reg_total.
    - done.
    - unfold clear_page. rewrite length_replicate. change (Z.of_nat (Z.to_nat PMA_PAGE_SIZE)) with 4096. lia.
    - exists page. split; [done|]. rewrite Hpage. apply length_replicate. }
  assert (o = 0 -> negb (o =? 0) = false) as Hz by (by intros ->).
  destruct (m_peek p).
  - lia.
  - unfold memory_peek. assert (o &ᵇ (PMA_PAGE_SIZE - 1) = 0) as -> by (change (PMA_PAGE_SIZE - 1) with (2 ^ 12 - 1); by rewrite land_ones_mod).
    assert (o + PMA_PAGE_SIZE <= m_length p) as Hend by page_lia.
    pose proof (wf_end _ Hk). pose proof (wf_start _ Hk). rewrite uint_id by (unfold is_uint, PMA_PAGE_SIZE in *; lia).
    test ((m_length p <? o)) is false. cbn [Z.eqb negb orb].
    destruct (get_memory_host p Hk) as (mem & -> & Hm). cbn [mbind outcome_bind]. test (m_length p <? o + PMA_PAGE_SIZE) is false.
    cbn. eexists. split; [done|]. intros d [= <-]. rewrite Hm. apply length_slice; rewrite ?(wf_host _ Hk); page_lia.
  - unfold clint_peek, null_peek. rewrite Hal. test (o <? m_length p) is true. by exists None.
  - unfold plic_peek, null_peek. rewrite Hal. test (o <? m_length p) is true. by exists None.
  - unfold htif_peek, null_peek. rewrite Hal. test (o <? m_length p) is true. by exists None.
  - unfold shadow_state_peek. rewrite Hz by page_lia. destruct (Hcopy shadow_state) as (page & -> & Hl); [vm_compute; lia|].
    exists (Some page). split; [done|]. by intros d [= <-].
  - unfold shadow_tlb_peek. rewrite Hal. test (m_length p <=? o) is false.
    pose proof (length_tlb_words s o (Z.to_nat (PMA_PAGE_SIZE / 8)) 0) as Hl. revert Hl.
    generalize (tlb_words s o (Z.to_nat (PMA_PAGE_SIZE / 8)) 0). intros page Hl. exists (Some page). split; [done|]. by intros d [= <-].
  - unfold shadow_uarch_state_peek. rewrite Hz by page_lia. destruct (Hcopy shadow_uarch_state) as (page & -> & Hl); [vm_compute; lia|].
    exists (Some page). split; [done|]. by intros d [= <-].
Qed.

(** ** Pages of the address space *)

(** The page [k] of the address space lies in the range. *)
Definition page_within (p : pma_entry) (k : Z) : Prop := m_start p <= k * PMA_PAGE_SIZE < m_start p + m_length p.

#[export] Instance page_within_dec p k : Decision (page_within p k).
Proof. unfold page_within. apply _. Defined.

Section pages.
Context `{i_hasher}.
Implicit Types (m : machine) (t : machine_merkle_tree).

Definition page_of m (p : pma_entry) (k : Z) : option (list Z) :=
  match peek_page m p (k * PMA_PAGE_SIZE - m_start p) with Done (Some r) => r | _ => None end.

(** The contents of the page [k]: that of the first range that has it *)
Fixpoint page_among m (refs : list merkle_ref) (k : Z) : option (list Z) :=
  match refs with
  | [] => None
  | r :: refs =>
      match deref_pma m r with
      | Done p => if decide (page_within p k) then page_of m p k else page_among m refs k
      | Exn _ => page_among m refs k
      end
  end.

Definition page_at m (k : Z) : option (list Z) := page_among m (m_merkle_pmas m) k.

(** The hash of the word of 32 bytes at the index [w] *)
Definition state_leaf m (w : Z) : hash_type :=
  match page_at m (w `div` 2 ^ 7) with
  | Some data => digest (take 32 (drop (Z.to_nat (32 * (w `mod` 2 ^ 7))) data))
  | None => zero_word
  end.

(** The hashes of the pages and of the whole state *)
Definition state_hash m : Z -> hash_type := node (state_leaf m) 7.
Definition state_root m : hash_type := node (state_leaf m) 59 0.

(** The ranges of the tree are well formed and do not overlap, and those of memory
    are entries of the map. *)
Record merkle_ok m : Prop := {
  mk_entries : forall r, r ∈ m_merkle_pmas m -> exists p, deref_pma m r = Done p /\ merkle_entry_ok p;
  mk_nodup : NoDup (m_merkle_pmas m);
  mk_disjoint : forall r r' p p' k, r ∈ m_merkle_pmas m -> r' ∈ m_merkle_pmas m ->
    deref_pma m r = Done p -> deref_pma m r' = Done p' -> page_within p k -> page_within p' k -> r = r';
  mk_sentinel : exists refs, m_merkle_pmas m = refs ++ [merkle_empty] /\
    (forall r p, r ∈ refs -> deref_pma m r = Done p -> 0 < m_length p) /\
    m_length (s_empty_pma (state_of m)) = 0 /\ get_istart_E (s_empty_pma (state_of m)) = true;
}.

(** The range [r] has the page [k]. *)
Definition holds_page m (r : merkle_ref) (p : pma_entry) (k : Z) : Prop :=
  r ∈ m_merkle_pmas m /\ deref_pma m r = Done p /\ page_within p k.

Lemma page_among_holds m refs r p k :
  merkle_ok m -> (forall x, x ∈ refs -> x ∈ m_merkle_pmas m) -> r ∈ refs -> deref_pma m r = Done p -> page_within p k ->
  page_among m refs k = page_of m p k.
Proof.
  intros Hok. induction refs as [|x refs IH]; intros Hsub Hr Hd Hk; [by apply not_elem_of_nil in Hr|].
  cbn [page_among]. destruct (mk_entries _ Hok x (Hsub x (list_elem_of_here _ _))) as (q & Hq & _). rewrite Hq.
  destruct (decide (page_within q k)) as [Hw|Hw].
  - assert (x = r) as -> by (apply (mk_disjoint _ Hok x r q p k); try done; [|apply Hsub; done]; apply Hsub; apply list_elem_of_here).
    rewrite Hd in Hq. by injection Hq as ->.
  - apply elem_of_cons in Hr as [->|Hr]; [rewrite Hd in Hq; by injection Hq as ->|].
    apply IH; try done. intros y Hy. apply Hsub. by right.
Qed.

Lemma page_at_holds m r p k : merkle_ok m -> holds_page m r p k -> page_at m k = page_of m p k.
Proof. intros Hok (Hr & Hd & Hk). by eapply page_among_holds. Qed.

Lemma page_at_some m k d : merkle_ok m -> page_at m k = Some d -> exists r p, holds_page m r p k /\ page_of m p k = Some d.
Proof.
  intros Hok. unfold page_at, holds_page. generalize (fun x (Hx : x ∈ m_merkle_pmas m) => Hx).
  generalize (m_merkle_pmas m) at 1 3. intros refs. induction refs as [|x refs IH]; intros Hsub E; [done|].
  cbn [page_among] in E. destruct (mk_entries _ Hok x (Hsub x (list_elem_of_here _ _))) as (q & Hq & _). rewrite Hq in E.
  destruct (decide (page_within q k)) as [Hw|Hw].
  - exists x, q. split; [|done]. split; [|done]. apply Hsub, list_elem_of_here.
  - apply IH; [|done]. intros y Hy. apply Hsub. by right.
Qed.

(** The offset of a page in its range *)
Lemma page_offset_in p k :
  merkle_entry_ok p -> page_within p k ->
  0 <= k * PMA_PAGE_SIZE - m_start p < m_length p /\ (k * PMA_PAGE_SIZE - m_start p) `mod` PMA_PAGE_SIZE = 0.
Proof. intros [] Hk. unfold page_within in Hk. page_lia. Qed.

Lemma page_of_peek m p k :
  merkle_entry_ok p -> page_within p k -> peek_page m p (k * PMA_PAGE_SIZE - m_start p) = Done (Some (page_of m p k)).
Proof.
  intros Hp Hk. destruct (page_offset_in p k Hp Hk) as [Ho Hal]. unfold page_of, peek_page.
  destruct (peek_done (state_of m) (uarch_of m) p _ Hp Ho Hal) as (r & -> & _). done.
Qed.

Lemma page_of_length m p k d : merkle_entry_ok p -> page_within p k -> page_of m p k = Some d -> length d = Z.to_nat PMA_PAGE_SIZE.
Proof.
  intros Hp Hk E. destruct (page_offset_in p k Hp Hk) as [Ho Hal]. unfold page_of, peek_page in E.
  destruct (peek_done (state_of m) (uarch_of m) p _ Hp Ho Hal) as (r & Er & Hl). rewrite Er in E. auto.
Qed.

(** ** Hashes of pages *)

Lemma state_page_contents m k : page_contents (state_leaf m) k (page_at m k).
Proof.
  assert (forall j, 0 <= j < 2 ^ 7 -> (k * 2 ^ 7 + j) `div` 2 ^ 7 = k /\ (k * 2 ^ 7 + j) `mod` 2 ^ 7 = j) as Hj.
  { intros j Hj. split; [|rewrite Z.add_comm, Z.mod_add by done; by apply Z.mod_small].
    rewrite Z.add_comm, Z.div_add by done. by rewrite Z.div_small. }
  unfold page_contents, words_of, state_leaf. destruct (page_at m k) as [data|] eqn:E; intros j Hr; destruct (Hj j Hr) as [-> ->]; by rewrite E.
Qed.

Lemma pristine_contents (f : Z -> hash_type) k data :
  length data = Z.to_nat PMA_PAGE_SIZE -> is_pristine data = true -> page_contents f k (Some data) -> page_contents f k None.
Proof.
  intros Hl Hp Hc j Hj. apply is_pristine_spec in Hp. rewrite (Hc j Hj), Hp, Hl. unfold zero_word, pristine_word.
  rewrite drop_replicate, take_replicate. change (Z.to_nat PMA_PAGE_SIZE) with 4096%nat. change (2 ^ 7) with 128 in Hj.
  replace (32 `min` (4096 - Z.to_nat (32 * j)))%nat with 32%nat by lia. done.
Qed.

(** The hash that a page is updated with is that of its contents. *)
Lemma page_update_hash_spec m r p k data :
  merkle_ok m -> holds_page m r p k -> page_of m p k = Some data -> page_update_hash data = Done (state_hash m k).
Proof.
  intros Hok Hh E. pose proof (page_at_holds m r p k Hok Hh) as Eat. rewrite E in Eat.
  pose proof (state_page_contents m k) as Hc. rewrite Eat in Hc. unfold page_update_hash.
  destruct (is_pristine data) eqn:Ep.
  - change (get_pristine_hash LOG2_PAGE_SIZE) with (get_page_data_hash None). apply page_hash_spec.
    apply (pristine_contents _ _ data); [|done|done]. destruct Hh as (Hr & Hd & Hk).
    destruct (mk_entries _ Hok r Hr) as (p' & Hp' & Hpok). rewrite Hd in Hp'. injection Hp' as <-. by apply (page_of_length m p k).
  - by apply page_hash_spec.
Qed.

Lemma no_page_hash m k : page_at m k = None -> state_hash m k = pristine_root 5 12.
Proof.
  intros E. pose proof (state_page_contents m k) as Hc. rewrite E in Hc. apply page_hash_spec in Hc.
  cbn [get_page_data_hash] in Hc. rewrite get_pristine_hash_spec in Hc by done. by injection Hc.
Qed.

(** ** States with the same contents *)

(** The states differ in the tree and in the dirty maps only. *)
Record same_contents m m' : Prop := {
  sc_refs : m_merkle_pmas m' = m_merkle_pmas m;
  sc_state : state_of m' =
    upd_pmas (fun _ => s_pmas (state_of m')) (upd_empty_pma (fun _ => s_empty_pma (state_of m')) (state_of m));
  sc_uarch : uarch_of m' =
    upd_us_shadow_state (fun _ => us_shadow_state (uarch_of m')) (upd_us_ram (fun _ => us_ram (uarch_of m')) (uarch_of m));
  sc_length : length (s_pmas (state_of m')) = length (s_pmas (state_of m));
  sc_entries : forall r p, deref_pma m r = Done p -> exists p', deref_pma m' r = Done p' /\ same_memory p p';
  sc_console : console (m_refs m') = console (m_refs m);
}.

#[export] Instance same_contents_preorder : PreOrder same_contents.
Proof.
  split.
  - intros m. split; [done|by destruct (state_of m)|by destruct (uarch_of m)|done| |done]. intros r p Hp. by exists p.
  - intros m1 m2 m3 [R1 S1 U1 L1 E1 C1] [R2 S2 U2 L2 E2 C2]. split; [congruence| | |congruence| |congruence].
    + rewrite S2 at 1. rewrite S1. by destruct (state_of m1).
    + rewrite U2 at 1. rewrite U1. by destruct (uarch_of m1).
    + intros r p Hp. destruct (E1 r p Hp) as (q & Hq & Hs). destruct (E2 r q Hq) as (q' & Hq' & Hs').
      exists q'. split; [done|]. by etrans.
Qed.

Lemma sc_peek m m' p o : same_contents m m' -> peek_page m' p o = peek_page m p o.
Proof. intros [_ Es Eu _ _ _]. unfold peek_page. rewrite Es, Eu. apply peek_frame. Qed.

Lemma same_memory_within p p' k : same_memory p p' -> page_within p' k <-> page_within p k.
Proof. by intros [-> _]. Qed.

Lemma same_page_of m m' p p' k : same_contents m m' -> same_memory p p' -> page_of m' p' k = page_of m p k.
Proof.
  intros Hm Hp. unfold page_of. rewrite (sc_peek m m') by done. unfold peek_page.
  replace (m_start p') with (m_start p) by (by destruct Hp as [-> _]). by rewrite (peek_same _ _ _ _ _ Hp).
Qed.

Lemma same_merkle_ok m m' : same_contents m m' -> merkle_ok m -> merkle_ok m'.
Proof.
  intros Hm [He Hn Hd Hs]. pose proof (sc_refs _ _ Hm) as Er. split; rewrite ?Er; [|done| |].
  - intros r Hr. destruct (He r Hr) as (p & Hp & Hok). destruct (sc_entries _ _ Hm r p Hp) as (p' & Hp' & Hs0).
    exists p'. split; [done|]. by eapply merkle_entry_same.
  - intros r r' p1 p1' k Hr Hr' Hp1 Hp1' Hk Hk'. destruct (He r Hr) as (p & Hp & _), (He r' Hr') as (p' & Hp' & _).
    destruct (sc_entries _ _ Hm r p Hp) as (q & Hq & Hs0), (sc_entries _ _ Hm r' p' Hp') as (q' & Hq' & Hs').
    assert (q = p1 /\ q' = p1') as [-> ->] by (split; congruence).
    apply (Hd r r' p p' k); try done; [by apply (same_memory_within _ _ _ Hs0)|by apply (same_memory_within _ _ _ Hs')].
  - destruct Hs as (refs & E & Hl & H0 & HE). exists refs. split; [done|]. split.
    + intros r p' Hr Hp'. destruct (He r) as (p & Hp & _); [rewrite E; apply elem_of_app; by left|].
      destruct (sc_entries _ _ Hm r p Hp) as (q & Hq & Hs). rewrite Hp' in Hq. injection Hq as <-.
      specialize (Hl r p Hr Hp). by destruct Hs as [-> _].
    + destruct (sc_entries _ _ Hm merkle_empty _ eq_refl) as (q & [= <-] & [-> _]). done.
Qed.

Lemma same_page_at m m' k : same_contents m m' -> merkle_ok m -> page_at m' k = page_at m k.
Proof.
  intros Hm Hok. unfold page_at. rewrite (sc_refs _ _ Hm).
  generalize (fun x (Hx : x ∈ m_merkle_pmas m) => Hx). generalize (m_merkle_pmas m) at 1 3 4. intros refs.
  induction refs as [|x refs IH]; intros Hsub; [done|]. cbn [page_among].
  destruct (mk_entries _ Hok x (Hsub x (list_elem_of_here _ _))) as (q & Hq & _). rewrite Hq.
  destruct (sc_entries _ _ Hm x q Hq) as (q' & Hq' & Hs). rewrite Hq', (same_page_of _ _ _ _ k Hm Hs).
  rewrite IH by (intros y Hy; apply Hsub; by right).
  pose proof (same_memory_within _ _ k Hs). destruct (decide (page_within q' k)), (decide (page_within q k)); tauto.
Qed.

Lemma same_state_leaf m m' w : same_contents m m' -> merkle_ok m -> state_leaf m' w = state_leaf m w.
Proof. intros Hm Hok. unfold state_leaf. by rewrite (same_page_at m m'). Qed.

Lemma same_state_hash m m' k : same_contents m m' -> merkle_ok m -> state_hash m' k = state_hash m k.
Proof. intros Hm Hok. apply node_ext. intros. by apply same_state_leaf. Qed.

Lemma same_state_root m m' : same_contents m m' -> merkle_ok m -> state_root m' = state_root m.
Proof. intros Hm Hok. apply node_ext. intros. by apply same_state_leaf. Qed.

Lemma same_set_tree t m : same_contents m (set_tree t m).
Proof. split; [done|by destruct m as [[? [] ?]]|by destruct m as [[[] ? ?]]|done| |done]. intros r p Hp. by exists p. Qed.

Lemma deref_store m r p p' r' :
  deref_pma m r = Done p -> deref_pma (store_pma r p' m) r' = if decide (r' = r) then Done p' else deref_pma m r'.
Proof.
  intros Hp. destruct r as [i| | |], r' as [j| | |]; cbn in *; try (case_decide; [done|]; by try case_match); try done.
  destruct (s_pmas (state_of m) !! i) as [q|] eqn:E; [|done]. case_decide as Hij.
  - injection Hij as ->. rewrite list_lookup_insert_eq; [done|]. by eapply lookup_lt_Some.
  - rewrite list_lookup_insert_ne; [done|congruence].
Qed.

(** A new dirty map for a range *)
Lemma same_store r p p' m : deref_pma m r = Done p -> same_memory p p' -> same_contents m (store_pma r p' m).
Proof.
  intros Hp Hs. split; [by destruct r| | | | |by destruct r].
  - destruct m as [[u [] c] t l]. by destruct r.
  - destruct m as [[[] s c] t l]. by destruct r.
  - destruct r; [apply length_insert|done..].
  - intros r' q Hq. rewrite (deref_store m r p) by done. case_decide; [|by exists q].
    subst r'. rewrite Hp in Hq. injection Hq as <-. by exists p'.
Qed.
Lemma same_contents_pmas m m' : same_contents m m' -> Forall2 same_memory (s_pmas (state_of m)) (s_pmas (state_of m')).
Proof.
  intros Hs. apply Forall2_same_length_lookup_2; [by rewrite (sc_length _ _ Hs)|]. intros i p p' Hp Hp'.
  destruct (sc_entries _ _ Hs (merkle_pmas i) p) as (q & Hq & Hm); [cbn; by rewrite Hp|]. cbn in Hq. rewrite Hp' in Hq. by injection Hq as <-.
Qed.

End pages.
