(* ===== verification/MachineHash.v ===== *)
(** * The update of the Merkle tree is right

    Whatever the interleaving of the threads that hash the pages, the update ends
    with the root hash of the current state, provided that every page whose stored
    hash is not current is marked or in the translation cache. *)

From S2P Require Import Prelude CppInt Constants RiscvConstants UarchAccess Bytes Pma PmaSpec MachineState UarchBridge UarchBridgeSpec UarchState UarchStateSpec Hasher MerkleProof PristineMerkleTree MachineMerkleTree MachineMerkleTreeSpec MachineTreeProofs Tlb MachineRegs Machine MachinePages.

(** ** Marking the pages of the write cache *)

Lemma mark_write_tlb_entry_spec s i :
  tlb_wf s -> tlb_slot i ->
  exists s', mark_write_tlb_entry s i = Done s' /\ s_tlb s' = s_tlb s /\ kept s s' /\
    (valid_at s TLB_WRITE i -> marked_in s' (cold_at s TLB_WRITE i)).
Proof.
  intros Hs Hi. unfold mark_write_tlb_entry. fold (hot_at s TLB_WRITE i) (cold_at s TLB_WRITE i). set (c := cold_at s TLB_WRITE i).
  destruct (Z.eqb_spec (vaddr_page (hot_at s TLB_WRITE i)) TLB_INVALID_PAGE) as [E|Hv]; [by exists s|].
  pose proof (tw_write _ Hs i Hi Hv) as Hin. destruct (mark_written_page_spec s i Hin) as (s' & E & Ht & Hk & Hm).
  exists s'. split; [|done]. rewrite <- E. unfold mark_written_page, do_read_pma_entry. fold (cold_at s TLB_WRITE i). fold c.
  destruct Hin as (Hlt & p & Hp & Hok & Hlo & Hhi). fold c in Hlt, Hp, Hlo, Hhi.
  assert (Z.of_nat (base.length (s_pmas s)) <=? pma_index c = false) as -> by (apply Z.leb_gt; apply lookup_lt_Some in Hp; lia).
  test (pma_index c <? PMA_MAX) is true. cbn [negb throw_if mbind outcome_bind]. rewrite Hp.
  assert (contains p (paddr_page c) PMA_PAGE_SIZE = true) as ->; [|done].
  pose proof (ok_wf _ Hok) as Hwf. pose proof (wf_start _ Hwf). pose proof (wf_end _ Hwf). unfold contains.
  rewrite (not_empty p) by apply Hwf. unfold PMA_PAGE_SIZE in *. rewrite !uint_id by (unfold is_uint; lia). bool_cases.
Qed.

Lemma mark_entries_spec l s :
  tlb_wf s -> Forall tlb_slot l ->
  exists s', mark_entries l s = Done s' /\ s_tlb s' = s_tlb s /\ kept s s' /\
    (forall i, i ∈ l -> valid_at s TLB_WRITE i -> marked_in s' (cold_at s TLB_WRITE i)).
Proof.
  intros Hs Hl. revert s Hs. induction Hl as [|i l Hi Hl IH]; intros s Hs; cbn [mark_entries].
  { exists s. split; [done|]. split; [done|]. split; [done|]. intros i Hi. by apply not_elem_of_nil in Hi. }
  destruct (mark_write_tlb_entry_spec s i Hs Hi) as (s1 & -> & Ht1 & Hk1 & Hm1). cbn [mbind outcome_bind].
  assert (tlb_wf s1) as Hs1.
  { split; [eapply machine_wf_kept; [exact Hk1|done|apply Hs]|]. intros j Hj. unfold valid_at, hot_at, cold_at. rewrite Ht1.
    intros Hv. eapply page_in_kept; [exact Hk1|]. by apply (tw_write _ Hs j). }
  destruct (IH s1 Hs1) as (s2 & -> & Ht2 & Hk2 & Hm2). exists s2. split; [done|]. split; [congruence|]. split; [by etrans|].
  intros j Hj Hv. apply elem_of_cons in Hj as [->|Hj].
  - eapply marked_in_kept; [exact Hk2| |by apply Hm1].
    destruct (page_in_kept _ _ _ Hk1 (tw_write _ Hs i Hi Hv)) as (_ & p & Hp & _ & Hlo & _). by exists p.
  - unfold valid_at, hot_at, cold_at in *. rewrite Ht1 in Hm2. by apply Hm2.
Qed.

Lemma mark_write_tlb_spec s :
  tlb_wf s -> exists s', mark_write_tlb_dirty_pages s = Done s' /\ s_tlb s' = s_tlb s /\ kept s s' /\
    (forall i, tlb_slot i -> valid_at s TLB_WRITE i -> marked_in s' (cold_at s TLB_WRITE i)).
Proof.
  intros Hs. destruct (mark_entries_spec (seqZ 0 PMA_TLB_SIZE) s Hs) as (s' & E & Ht & Hk & Hm).
  - apply Forall_forall. intros i Hi. by apply elem_of_seqZ in Hi.
  - exists s'. do 3 (split; [done|]). intros i Hi. apply Hm. by apply elem_of_seqZ.
Qed.

Section hash.
Context `{i_hasher} (zero : hash_type).
Implicit Types (m : machine) (t : machine_merkle_tree) (g : Z -> hash_type).

(** ** The pages with a node *)

Definition has_node t (k : Z) : Prop := is_Some (get_page_node t (k * 4096)).

Definition same_map t t' : Prop := m_page_node_map t' = m_page_node_map t.

Lemma descend_child_map a mask p t q t' : descend_child zero a mask p t = Done (q, t') -> same_map t t'.
Proof.
  unfold descend_child, same_map. intros E. apply outcome_bind_done in E as (nd & _ & E).
  destruct (child nd _); [by injection E as <- <-|]. cbn [create_node] in E.
  apply outcome_bind_done in E as (cnd & _ & E). apply outcome_bind_done in E as (nd' & _ & E). by injection E as <- <-.
Qed.

Lemma descend_map fuel a mask p t q t' : descend zero fuel a mask p t = Done (q, t') -> same_map t t'.
Proof.
  revert mask p t. induction fuel as [|fuel IH]; intros mask p t E; [done|]. cbn [descend] in E.
  apply outcome_bind_done in E as ([q1 t1] & E1 & E). apply descend_child_map in E1. unfold same_map in *. rewrite <- E1.
  destruct (_ =? 0); [by injection E as <- <-|]. by eapply IH.
Qed.

Lemma enqueue_parent_map l p t t' : enqueue_parent l p t = Done t' -> same_map t t'.
Proof.
  unfold enqueue_parent, same_map. intros E. apply outcome_bind_done in E as (nd & _ & E).
  destruct (n_parent nd); [|by injection E as <-]. apply outcome_bind_done in E as (pd & _ & E).
  destruct (_ =? _); by injection E as <-.
Qed.

Lemma propagate_map fuel t t' : propagate fuel t = Done t' -> same_map t t'.
Proof.
  revert t. induction fuel as [|fuel IH]; intros t E; cbn [propagate] in E.
  - destruct (m_merkle_update_fifo t) as [|[l p] fifo]; [by injection E as <-|done].
  - destruct (m_merkle_update_fifo t) as [|[l p] fifo]; [by injection E as <-|].
    apply outcome_bind_done in E as (t1 & E1 & E). apply outcome_bind_done in E as (t2 & E2 & E).
    apply enqueue_parent_map in E2. apply IH in E. unfold update_inner_node_hash in E1.
    apply outcome_bind_done in E1 as (nd & _ & E1). apply outcome_bind_done in E1 as (h & _ & E1). injection E1 as <-.
    unfold same_map in *. by rewrite E, E2.
Qed.

Lemma end_update_map t b t' : end_update t = Done (b, t') -> same_map t t'.
Proof.
  unfold end_update. intros E. apply outcome_bind_done in E as (t1 & E1 & E). injection E as _ <-. by apply propagate_map in E1.
Qed.

Lemma update_page_map k h t b t' :
  update_page_node_hash zero (k * 4096) h t = Done (b, t') -> has_node t' k /\ (forall j, has_node t j -> has_node t' j).
Proof.
  unfold update_page_node_hash. intros E. apply outcome_bind_done in E as ([] & _ & E).
  apply outcome_bind_done in E as ([p t1] & E1 & E).
  apply outcome_bind_done in E as (nd & _ & E). apply outcome_bind_done in E as (t2 & E2 & E). injection E as _ <-.
  apply enqueue_parent_map in E2. unfold has_node, get_page_node. rewrite E2. cbn [set_node m_page_node_map].
  destruct (get_page_node t (k * 4096)) as [c|] eqn:Ec.
  - injection E1 as _ <-. split; [by exists c|done].
  - unfold new_page_node in E1. apply outcome_bind_done in E1 as ([q t0] & E0 & E1). injection E1 as _ <-.
    apply descend_map in E0. cbn [set_page_node_map m_page_node_map]. rewrite E0. split; [by rewrite lookup_insert_eq|].
    intros j Hj. apply lookup_insert_is_Some'. by right.
Qed.

(** ** The pages of one range *)

Section range.
(** The state whose pages are hashed; the update changes only the tree and the dirty maps. *)
Context m0 (Hok : merkle_ok m0).

(** The stored hash of the page is current. *)
Definition settled g t (k : Z) : Prop := g k = state_hash m0 k /\ (page_at m0 k <> None -> has_node t k).

(** An update in progress went on: what was settled still is. *)
Record settles g t g' t' : Prop := {
  se_updating : updating g' t';
  se_nonce : m_merkle_update_nonce t' = m_merkle_update_nonce t;
  se_settled : forall k, 0 <= k < 2 ^ 52 -> settled g t k -> settled g' t' k;
}.

Lemma settles_refl g t : updating g t -> settles g t g t.
Proof. by split. Qed.

Lemma settles_trans g1 t1 g2 t2 g3 t3 : settles g1 t1 g2 t2 -> settles g2 t2 g3 t3 -> settles g1 t1 g3 t3.
Proof. intros [_ N1 S1] [U2 N2 S2]. split; [done|congruence|auto]. Qed.

Definition marked_dirty (p : pma_entry) (i : Z) : Prop := is_page_marked_dirty p (i * PMA_PAGE_SIZE) = Done true.

Context m (Hm : same_contents m0 m) (r : merkle_ref) (p : pma_entry) (Hr : r ∈ m_merkle_pmas m) (Hp : deref_pma m r = Done p).

Definition page_no (i : Z) : Z := m_start p `div` PMA_PAGE_SIZE + i.

(** The page [i] of the range is settled or will be updated. *)
Definition ready g t (i : Z) : Prop := settled g t (page_no i) \/ (marked_dirty p i /\ page_at m0 (page_no i) <> None).

Lemma range_ok : merkle_ok m /\ merkle_entry_ok p.
Proof.
  pose proof (same_merkle_ok _ _ Hm Hok) as Hok'. split; [done|].
  destruct (mk_entries _ Hok' r Hr) as (q & Hq & Hqok). rewrite Hp in Hq. by injection Hq as <-.
Qed.

Lemma pages_in_range_spec : pages_in_range p = m_length p `div` PMA_PAGE_SIZE.
Proof. destruct range_ok as [_ []]. unfold pages_in_range, PMA_PAGE_SIZE in *. rewrite uint_id by (unfold is_uint; lia). page_lia. Qed.

(** The page [i] of the range *)
Lemma page_no_spec i : 0 <= i < pages_in_range p ->
  0 <= page_no i < 2 ^ 52 /\ page_within p (page_no i) /\ page_no i * PMA_PAGE_SIZE - m_start p = i * PMA_PAGE_SIZE /\
  uint64 (i * PMA_PAGE_SIZE) = i * PMA_PAGE_SIZE /\ uint64 (m_start p + i * PMA_PAGE_SIZE) = page_no i * 4096 /\
  i * PMA_PAGE_SIZE < m_length p.
Proof.
  rewrite pages_in_range_spec. intros Hi. destruct range_ok as [_ [H1 H2 H3 H4 H5 _ _ _ _]]. unfold page_no, page_within, PMA_PAGE_SIZE in *.
  change (2 ^ 12) with 4096 in *. assert (m_start p = 4096 * (m_start p `div` 4096)) by (Z.div_mod_to_equations; lia).
  assert (i * 4096 < m_length p) by (Z.div_mod_to_equations; lia). rewrite !uint_id by (unfold is_uint; lia). repeat split; lia.
Qed.

Lemma marked_dirty_dec i : 0 <= i < pages_in_range p -> exists b, is_page_marked_dirty p (i * PMA_PAGE_SIZE) = Done b.
Proof.
  intros Hi. destruct (page_no_spec i Hi) as (_ & _ & _ & _ & _ & Hlt). destruct range_ok as [_ He].
  destruct (get_istart_M p) eqn:HM.
  - pose proof (me_peekable _ He) as Hk. unfold peekable in Hk. rewrite (me_memory _ He HM) in Hk.
    rewrite is_page_marked_dirty_spec by (done || (unfold PMA_PAGE_SIZE in *; lia)). by eexists.
  - unfold is_page_marked_dirty. rewrite (me_device _ He HM). by exists true.
Qed.

Lemma update_dirty_page_spec i g t :
  0 <= i < pages_in_range p -> updating g t -> ready g t i ->
  exists g' t', update_dirty_page zero m p i t = Done (true, t') /\ settles g t g' t' /\ settled g' t' (page_no i).
Proof.
  intros Hi Hu Hrdy. destruct (page_no_spec i Hi) as (Hk & Hw & Ho & Hu1 & Hu2 & _). destruct range_ok as [Hok' He].
  assert (page_at m0 (page_no i) = page_of m p (page_no i)) as Eat.
  { rewrite <- (same_page_at m0 m) by done. by apply (page_at_holds m r). }
  unfold update_dirty_page. rewrite Hu1, Hu2.
  destruct (marked_dirty_dec i Hi) as [d Ed]. rewrite Ed. cbn [mbind outcome_bind].
  destruct d; cbn [negb].
  2: { exists g, t. split; [done|]. split; [by apply settles_refl|]. destruct Hrdy as [?|[Hd _]]; [done|]. unfold marked_dirty in Hd. congruence. }
  rewrite <- Ho, page_of_peek by done. cbn [mbind outcome_bind].
  destruct (page_of m p (page_no i)) as [data|] eqn:Edata.
  2: { exists g, t. split; [done|]. split; [by apply settles_refl|]. destruct Hrdy as [?|[_ Hd]]; [done|]. congruence. }
  rewrite (page_update_hash_spec m r p (page_no i)) by done. cbn [mbind outcome_bind].
  destruct (update_page_node_hash_spec zero g t (page_no i) (state_hash m (page_no i)) Hu Hk) as (t' & E & Hu' & Hn).
  rewrite E. destruct (update_page_map _ _ _ _ _ E) as [Hnode Hmono].
  assert (settled (update g (page_no i) (state_hash m (page_no i))) t' (page_no i)) as Hset.
  { split; [|done]. unfold update. rewrite Z.eqb_refl. by apply same_state_hash. }
  eexists _, t'. split; [done|]. split; [|done]. split; [done|done|]. intros k Hk' [Hg Hn'].
  destruct (decide (k = page_no i)) as [->|Hne]; [done|]. split; [|intros; by apply Hmono, Hn']. unfold update.
  by rewrite (proj2 (Z.eqb_neq _ _)).
Qed.

Lemma ready_settles g t g' t' i : 0 <= i < pages_in_range p -> settles g t g' t' -> ready g t i -> ready g' t' i.
Proof. intros Hi Hs [?|?]; [left|by right]. apply (se_settled _ _ _ _ Hs); [|done]. by apply page_no_spec. Qed.

(** Pages that are in the range and ready *)
Definition pages_ready g t (l : list Z) : Prop := forall i, i ∈ l -> 0 <= i < pages_in_range p /\ ready g t i.

Lemma pages_ready_settles g t g' t' l : settles g t g' t' -> pages_ready g t l -> pages_ready g' t' l.
Proof. intros Hs Hl i Hi. destruct (Hl i Hi). split; [done|]. by eapply ready_settles. Qed.

Definition all_settled g t (l : list Z) : Prop := forall i, i ∈ l -> settled g t (page_no i).

Lemma all_settled_settles g t g' t' l : settles g t g' t' -> (forall i, i ∈ l -> 0 <= i < pages_in_range p) ->
  all_settled g t l -> all_settled g' t' l.
Proof. intros Hs Hl Ha i Hi. apply (se_settled _ _ _ _ Hs); [by apply page_no_spec, Hl|by apply Ha]. Qed.

Lemma run_thread_spec l g t :
  updating g t -> pages_ready g t l ->
  exists g' t', run_thread zero m p l t = Done (true, t') /\ settles g t g' t' /\ all_settled g' t' l.
Proof.
  revert g t. induction l as [|i l IH]; intros g t Hu Hl; cbn [run_thread].
  { exists g, t. split; [done|]. split; [by apply settles_refl|]. intros i Hi. by apply not_elem_of_nil in Hi. }
  destruct (Hl i (list_elem_of_here _ _)) as [Hi Hrdy]. destruct (update_dirty_page_spec i g t Hi Hu Hrdy) as (g1 & t1 & -> & Hs1 & Hi1).
  cbn [mbind outcome_bind]. destruct (IH g1 t1) as (g2 & t2 & -> & Hs2 & Hl2).
  { apply Hs1. }
  { apply (pages_ready_settles g t); [done|]. intros j Hj. apply Hl. by right. }
  exists g2, t2. split; [done|]. split; [by eapply settles_trans|]. intros j Hj. apply elem_of_cons in Hj as [->|Hj]; [|by apply Hl2].
  apply (se_settled _ _ _ _ Hs2); [by apply page_no_spec|done].
Qed.

(** A page that a thread still has to do *)
Definition left_for (threads : list (list Z)) (i : Z) : Prop := exists l, l ∈ threads /\ i ∈ l.

Definition threads_ready g t (threads : list (list Z)) : Prop := forall l, l ∈ threads -> pages_ready g t l.
Definition threads_settled g t (threads : list (list Z)) : Prop := forall l, l ∈ threads -> all_settled g t l.

Lemma threads_ready_settles g t g' t' threads : settles g t g' t' -> threads_ready g t threads -> threads_ready g' t' threads.
Proof. intros Hs Ht l Hl. eapply pages_ready_settles; [done|]. by apply Ht. Qed.

Lemma join_threads_spec threads g t :
  updating g t -> threads_ready g t threads ->
  exists g' t', join_threads zero m p threads true t = Done (true, t') /\ settles g t g' t' /\ threads_settled g' t' threads.
Proof.
  revert g t. induction threads as [|l threads IH]; intros g t Hu Ht; cbn [join_threads].
  { exists g, t. split; [done|]. split; [by apply settles_refl|]. intros l Hl. by apply not_elem_of_nil in Hl. }
  assert (pages_ready g t l) as Hl by apply Ht, list_elem_of_here.
  destruct (run_thread_spec l g t Hu Hl) as (g1 & t1 & -> & Hs1 & Hl1).
  cbn [mbind outcome_bind andb]. destruct (IH g1 t1) as (g2 & t2 & -> & Hs2 & Ht2).
  { apply Hs1. }
  { eapply threads_ready_settles; [done|]. intros x Hx. apply Ht. by right. }
  exists g2, t2. split; [done|]. split; [by eapply settles_trans|]. intros x Hx. apply elem_of_cons in Hx as [->|Hx]; [|by apply Ht2].
  eapply all_settled_settles; [done| |done]. intros i Hi. by apply Hl.
Qed.

(** The interleaving of the threads does not matter. *)
Lemma run_threads_spec schedule threads g t :
  updating g t -> threads_ready g t threads ->
  exists g' t', run_threads zero m p schedule threads true t = Done (true, t') /\ settles g t g' t' /\ threads_settled g' t' threads.
Proof.
  revert threads g t. induction schedule as [|j schedule IH]; intros threads g t Hu Ht; cbn [run_threads]; [by apply join_threads_spec|].
  destruct (threads !! j) as [[|i l]|] eqn:Ej; [by apply IH| |by apply IH].
  pose proof (list_elem_of_lookup_2 _ _ _ Ej) as Hin. destruct (Ht _ Hin i (list_elem_of_here _ _)) as [Hi Hrdy].
  destruct (update_dirty_page_spec i g t Hi Hu Hrdy) as (g1 & t1 & -> & Hs1 & Hi1). cbn [mbind outcome_bind andb].
  destruct (IH (<[j := l]> threads) g1 t1) as (g2 & t2 & -> & Hs2 & Ht2).
  { apply Hs1. }
  { eapply threads_ready_settles; [done|]. intros x Hx y Hy. apply list_elem_of_lookup in Hx as [j' Hx]. destruct (decide (j' = j)) as [->|Hne].
    - rewrite list_lookup_insert_eq in Hx by (by eapply lookup_lt_Some). injection Hx as <-. apply (Ht _ Hin). by right.
    - rewrite list_lookup_insert_ne in Hx by done. apply (Ht x); [by eapply list_elem_of_lookup_2|done]. }
  exists g2, t2. split; [done|]. split; [by eapply settles_trans|]. intros x Hx y Hy.
  assert (settled g2 t2 (page_no i)) as Hi2 by (apply (se_settled _ _ _ _ Hs2); [by apply page_no_spec|done]).
  apply list_elem_of_lookup in Hx as [j' Hx]. destruct (decide (j' = j)) as [->|Hne].
  - rewrite Ej in Hx. injection Hx as <-. apply elem_of_cons in Hy as [->|Hy]; [done|]. apply (Ht2 l); [|done].
    apply (list_elem_of_lookup_2 _ j). apply list_lookup_insert_eq. by eapply lookup_lt_Some.
  - apply (Ht2 x); [|done]. apply (list_elem_of_lookup_2 _ j'). by rewrite list_lookup_insert_ne.
Qed.

Context (n : Z) (Hn : 0 < n).

Definition range_threads : list (list Z) := map (thread_pages n (pages_in_range p)) (seqZ 0 n).

(** Every page has a thread. *)
Lemma range_threads_spec l i : l ∈ range_threads -> i ∈ l -> 0 <= i < pages_in_range p.
Proof.
  intros Hl Hi. apply list_elem_of_fmap in Hl as (j & -> & _). unfold thread_pages in Hi.
  apply list_elem_of_filter in Hi as [_ Hi]. apply elem_of_seqZ in Hi. lia.
Qed.

Lemma thread_of_page i : 0 <= i < pages_in_range p -> exists l, l ∈ range_threads /\ i ∈ l.
Proof.
  intros Hi. exists (thread_pages n (pages_in_range p) (i mod n)). split.
  - apply list_elem_of_fmap. exists (i mod n). split; [done|]. apply elem_of_seqZ. pose proof (Z.mod_pos_bound i n Hn). lia.
  - apply list_elem_of_filter. split; [done|]. apply elem_of_seqZ. lia.
Qed.

Lemma update_range_spec schedule g t :
  updating g t -> (forall i, 0 <= i < pages_in_range p -> ready g t i) ->
  exists g' t', run_threads zero m p schedule range_threads true t = Done (true, t') /\ settles g t g' t' /\
    forall k, page_within p k -> settled g' t' k.
Proof.
  intros Hu Hrdy. destruct (run_threads_spec schedule range_threads g t Hu) as (g' & t' & E & Hs & Ht).
  { intros l Hl i Hi. pose proof (range_threads_spec l i Hl Hi). auto. }
  exists g', t'. split; [done|]. split; [done|]. intros k Hk.
  assert (0 <= k - m_start p `div` PMA_PAGE_SIZE < pages_in_range p) as Hi.
  { rewrite pages_in_range_spec. destruct range_ok as [_ []]. unfold page_within in Hk. page_lia. }
  destruct (thread_of_page _ Hi) as (l & Hl & Hil). specialize (Ht l Hl _ Hil). unfold page_no in Ht.
  by replace (m_start p `div` PMA_PAGE_SIZE + (k - m_start p `div` PMA_PAGE_SIZE)) with k in Ht by lia.
Qed.
End range.

(** ** All the ranges *)

Section ranges.
Context m0 (Hok : merkle_ok m0) (n : Z) (Hn : 0 < n) (schedules : merkle_ref -> list nat).

(** The page [k] is settled, or some range of [refs] has it marked. *)
Definition covered_page m g (refs : list merkle_ref) (k : Z) : Prop :=
  settled m0 g (m_t m) k \/
  exists r p, r ∈ refs /\ deref_pma m r = Done p /\ page_within p k /\ marked_dirty p (k - m_start p `div` PMA_PAGE_SIZE) /\
    page_at m0 k <> None.

(** No page of a memory range is marked. *)
Definition clean (p : pma_entry) : Prop := get_istart_M p = true -> forall k, 0 <= k -> page_dirty p k = false.

Record ranges_updated m g (refs : list merkle_ref) m' g' : Prop := {
  ru_same : same_contents m m';
  ru_settles : settles m0 g (m_t m) g' (m_t m');
  ru_all : forall k, 0 <= k < 2 ^ 52 -> settled m0 g' (m_t m') k;
  ru_clean : forall r, r ∈ refs -> exists p, deref_pma m' r = Done p /\ clean p;
  ru_others : forall r, r ∉ refs -> deref_pma m' r = deref_pma m r;
  ru_tlb : s_tlb (state_of m') = s_tlb (state_of m);
}.

Lemma mark_pages_clean_same p : same_memory p (mark_pages_clean p).
Proof. split; [done|]. cbn. by rewrite length_replicate. Qed.

Lemma update_pmas_spec refs m g :
  NoDup refs -> (forall r, r ∈ refs -> r ∈ m_merkle_pmas m) -> same_contents m0 m -> updating g (m_t m) ->
  (forall k, 0 <= k < 2 ^ 52 -> covered_page m g refs k) ->
  exists g' m', update_pmas zero n schedules refs m = Done (true, m') /\ ranges_updated m g refs m' g'.
Proof.
  revert m g. induction refs as [|r refs IH]; intros m g Hnd Hsub Hm Hu Hcov; cbn [update_pmas].
  { exists g, m. split; [done|]. split; [done|by apply settles_refl| |intros r Hr; by apply not_elem_of_nil in Hr|done|done].
    intros k Hk. destruct (Hcov k Hk) as [?|(r & p & Hr & _)]; [done|]. by apply not_elem_of_nil in Hr. }
  apply NoDup_cons in Hnd as [Hnr Hnd]. pose proof (Hsub r (list_elem_of_here _ _)) as Hr.
  pose proof (same_merkle_ok _ _ Hm Hok) as Hok'. destruct (mk_entries _ Hok' r Hr) as (p & Hp & He). rewrite Hp. cbn [mbind outcome_bind].
  destruct (update_range_spec m0 Hok m Hm r p Hr Hp n Hn (schedules r) g (m_t m) Hu) as (g1 & t1 & E1 & Hs1 & Hw1).
  { intros i Hi. destruct (page_no_spec m0 Hok m Hm r p Hr Hp i Hi) as (Hk & Hw & _).
    destruct (Hcov _ Hk) as [?|(r' & p' & Hr' & Hp' & Hw' & Hd & Hat)]; [by left|]. right.
    assert (r' = r) as -> by exact (mk_disjoint _ Hok' r' r p' p (page_no p i) (Hsub r' Hr') Hr Hp' Hp Hw' Hw).
    rewrite Hp in Hp'. injection Hp' as <-. split; [|done]. unfold page_no in Hd. by replace (_ + i - _) with i in Hd by lia. }
  unfold range_threads in E1. rewrite E1. cbn [mbind outcome_bind negb].
  set (m1 := store_pma r (mark_pages_clean p) (set_tree t1 m)).
  assert (same_contents m m1) as Hm1.
  { etrans; [apply (same_set_tree t1)|]. apply (same_store r p); [done|apply mark_pages_clean_same]. }
  assert (forall r', deref_pma m1 r' = if decide (r' = r) then Done (mark_pages_clean p) else deref_pma m r') as Hder.
  { intros r'. unfold m1. by rewrite (deref_store (set_tree t1 m) r p). }
  assert (m_t m1 = t1 /\ s_tlb (state_of m1) = s_tlb (state_of m)) as [Et Etlb] by (unfold m1; by destruct r).
  destruct (IH m1 g1) as (g2 & m2 & E2 & [Sm Ss Sa Sc So St]); try done.
  { intros r' Hr'. rewrite (sc_refs _ _ Hm1). apply Hsub. by right. }
  { by etrans. }
  { rewrite Et. apply Hs1. }
  { intros k Hk. unfold covered_page. rewrite Et. destruct (Hcov k Hk) as [Hset|(r' & p' & Hr' & Hp' & Hw' & Hd & Hat)].
    - left. by apply (se_settled _ _ _ _ _ Hs1).
    - destruct (decide (r' = r)) as [->|Hne]; [left; apply Hw1; congruence|]. right. exists r', p'.
      apply elem_of_cons in Hr' as [?|Hr']; [done|]. rewrite Hder, decide_False by done. done. }
  exists g2, m2. split; [exact E2|]. rewrite Et in Ss. split; [by etrans|by eapply settles_trans|done| | |congruence].
  - intros r' Hr'. apply elem_of_cons in Hr' as [->|Hr']; [|by apply Sc]. exists (mark_pages_clean p).
    rewrite So, Hder, decide_True by done. split; [done|]. intros HM k _. apply mark_pages_clean_spec.
    pose proof (me_peekable _ He) as Hk. unfold peekable in Hk. by rewrite (me_memory _ He HM) in Hk.
  - intros r' Hr'. apply not_elem_of_cons in Hr' as [Hne Hr']. by rewrite So, Hder, decide_False.
Qed.
End ranges.

(** ** The whole update *)

(** The page [k] is in the translation cache, through a write entry. *)
Definition in_write_cache m (r : merkle_ref) (k : Z) : Prop := exists j,
  tlb_slot j /\ valid_at (state_of m) TLB_WRITE j /\ r = merkle_pmas (Z.to_nat (pma_index (cold_at (state_of m) TLB_WRITE j))) /\
  paddr_page (cold_at (state_of m) TLB_WRITE j) = k * PMA_PAGE_SIZE.

(** The page may have changed since its hash was stored. *)
Definition stale m (k : Z) : Prop := exists r p,
  holds_page m r p k /\ (marked_dirty p (k - m_start p `div` PMA_PAGE_SIZE) \/ in_write_cache m r k).

(** Between updates: what is not stale is settled. *)
Definition tree_tracks m : Prop := exists g, tree_of g (m_t m) /\
  forall k, 0 <= k < 2 ^ 52 -> settled m g (m_t m) k \/ (stale m k /\ page_at m k <> None).

(** The tree holds the hashes of the state. *)
Record hashed m : Prop := {
  ha_tree : tree_of (state_hash m) (m_t m);
  ha_nodes : forall k, 0 <= k < 2 ^ 52 -> page_at m k <> None -> has_node (m_t m) k;
}.

Lemma tree_of_ext g g' t : (forall k, 0 <= k < 2 ^ 52 -> g k = g' k) -> tree_of g t -> tree_of g' t.
Proof.
  intros Hg (pos & [Hs Hm Hp Ha] & Hc & Hn). exists pos. split; [|done]. split; try done.
  - intros p nd k Hpos Hnd. rewrite (Hp p nd k Hpos Hnd). apply Hg. exact (proj2 (sh_range _ _ Hs _ _ _ Hpos)).
  - intros k Hk Hno. rewrite <- Hg by done. by apply Ha.
Qed.

Lemma settled_same m m' g t k : same_contents m m' -> merkle_ok m -> settled m g t k <-> settled m' g t k.
Proof. intros Hm Hok. unfold settled. by rewrite (same_state_hash m m'), (same_page_at m m'). Qed.

Lemma hashed_settled m g : tree_of g (m_t m) -> (forall k, 0 <= k < 2 ^ 52 -> settled m g (m_t m) k) -> hashed m.
Proof.
  intros Ht Hs. split; [|intros k Hk; by apply Hs]. apply (tree_of_ext g); [|done]. intros k Hk. by apply Hs.
Qed.

Lemma hashed_tracks m : hashed m -> tree_tracks m.
Proof. intros [Ht Hn]. exists (state_hash m). split; [done|]. intros k Hk. left. split; [done|]. by apply Hn. Qed.

(** Marking the pages of the write cache *)
Lemma kept_deref m s' r p :
  kept (state_of m) s' -> deref_pma m r = Done p ->
  exists p', deref_pma (set_state s' m) r = Done p' /\ (p' = p \/ dirtier p p').
Proof.
  intros [Hr Hp] E. destruct r as [i| | |]; cbn in *; try by (eexists; split; [done|left; congruence]).
  - destruct (s_pmas (state_of m) !! i) as [q|] eqn:Ei; [|done]. injection E as ->.
    destruct (Forall2_lookup_l _ _ _ _ _ Hp Ei) as (p' & -> & Hd). exists p'. by split; [|right].
  - rewrite Hr. cbn. exists p. injection E as <-. split; [by destruct (state_of m)|by left].
Qed.

Lemma kept_same m s' : kept (state_of m) s' -> s_tlb s' = s_tlb (state_of m) -> same_contents m (set_state s' m).
Proof.
  intros Hk Ht. assert (s' = upd_pmas (fun _ => s_pmas s') (upd_empty_pma (fun _ => s_empty_pma s') (state_of m))) as Es.
  { destruct Hk as [Hr _]. rewrite Ht in Hr. rewrite Hr. by destruct (state_of m). }
  split; [done|exact Es|by destruct m as [[[] ? ?]]| | |done].
  - symmetry. apply (Forall2_length _ _ _ (kept_pmas _ _ Hk)).
  - intros r p Hp. destruct (kept_deref m s' r p Hk Hp) as (p' & Hp' & [->|[Hs _]]); by eexists.
Qed.

Lemma marked_dirty_kept p p' i : merkle_entry_ok p -> dirtier p p' -> 0 <= i * PMA_PAGE_SIZE < m_length p -> marked_dirty p i -> marked_dirty p' i.
Proof.
  intros He [Hs Hd] Hi. unfold marked_dirty. pose proof (merkle_entry_same _ _ Hs He) as He'.
  assert (m_length p' = m_length p /\ get_istart_M p' = get_istart_M p) as [El EM] by (by destruct Hs as [-> _]).
  destruct (get_istart_M p) eqn:HM.
  - pose proof (me_peekable _ He) as Hk. unfold peekable in Hk. rewrite (me_memory _ He HM) in Hk.
    pose proof (same_memory_wf _ _ Hs Hk) as Hk'. assert (0 <= i) by (unfold PMA_PAGE_SIZE in *; lia).
    rewrite !is_page_marked_dirty_spec by (done || lia). rewrite Z.div_mul by done. intros [= E]. f_equal. by apply Hd.
  - unfold is_page_marked_dirty. by rewrite (me_device _ He' EM).
Qed.

Lemma page_index_in p k : merkle_entry_ok p -> page_within p k ->
  (k - m_start p `div` PMA_PAGE_SIZE) * PMA_PAGE_SIZE = k * PMA_PAGE_SIZE - m_start p.
Proof. intros [] _. page_lia. Qed.

(** Stale pages are marked once the pages of the write cache are. *)
Lemma stale_marked m s' r p k :
  merkle_ok m -> tlb_wf (state_of m) -> kept (state_of m) s' ->
  (forall i, tlb_slot i -> valid_at (state_of m) TLB_WRITE i -> marked_in s' (cold_at (state_of m) TLB_WRITE i)) ->
  holds_page m r p k -> marked_dirty p (k - m_start p `div` PMA_PAGE_SIZE) \/ in_write_cache m r k ->
  exists p', deref_pma (set_state s' m) r = Done p' /\ page_within p' k /\ marked_dirty p' (k - m_start p' `div` PMA_PAGE_SIZE).
Proof.
  intros Hok Htlb Hkept Hmarked (Hr & Hp & Hw) Hst.
  destruct (mk_entries _ Hok r Hr) as (p0 & Hp0 & He). rewrite Hp in Hp0. injection Hp0 as <-.
  destruct (kept_deref m s' r p Hkept Hp) as (p' & Hp' & Hd). exists p'. split; [exact Hp'|].
  assert (same_memory p p') as Hsm by (destruct Hd as [->|[]]; done).
  split; [by apply (same_memory_within _ _ _ Hsm)|]. replace (m_start p') with (m_start p) by (by destruct Hsm as [-> _]).
  pose proof (page_index_in p k He Hw) as Ek. destruct (page_offset_in p k He Hw) as [Ho _].
  destruct Hst as [Hmk|(j & Hj & Hv & -> & Hpp)].
  - destruct Hd as [->|Hd]; [done|]. apply (marked_dirty_kept p p'); [done|done| |done]. rewrite Ek. exact Ho.
  - destruct (Hmarked j Hj Hv) as (q & Hq & Hdq). cbn in Hp'. change (s_pmas (state_of (set_state s' m))) with (s_pmas s') in Hp'.
    rewrite Hq in Hp'. injection Hp' as ->. destruct (tw_write _ Htlb j Hj Hv) as (_ & q & Hq' & Hqok & _).
    cbn in Hp. rewrite Hq' in Hp. injection Hp as ->. pose proof (same_memory_wf _ _ Hsm (ok_wf _ Hqok)) as Hwf.
    unfold marked_dirty. rewrite Ek, is_page_marked_dirty_spec; [|done|destruct Hsm as [-> _]; cbn; lia]. f_equal.
    rewrite Hpp in Hdq. replace (m_start p') with (m_start p) in Hdq by (by destruct Hsm as [-> _]). exact Hdq.
Qed.

Lemma update_merkle_tree_spec n schedules m :
  merkle_ok m -> tlb_wf (state_of m) -> tree_tracks m -> 0 < n -> m_merkle_update_nonce (m_t m) < 2 ^ 64 - 1 ->
  exists m', update_merkle_tree zero n schedules m = Done (true, m') /\ same_contents m m' /\ hashed m' /\
    m_merkle_update_nonce (m_t m') = m_merkle_update_nonce (m_t m) + 1 /\ s_tlb (state_of m') = s_tlb (state_of m) /\
    (forall r, r ∈ m_merkle_pmas m -> exists p, deref_pma m' r = Done p /\ clean p).
Proof.
  intros Hok Htlb (g & Ht & Hcov) Hn Hnonce. unfold update_merkle_tree.
  destruct (mark_write_tlb_spec (state_of m) Htlb) as (s' & -> & Etlb & Hkept & Hmarked). cbn [mbind outcome_bind].
  set (m1 := set_state s' m). pose proof (kept_same m s' Hkept Etlb) as Hm1. fold m1 in Hm1.
  destruct (begin_update_spec g (m_t m) Ht) as (t1 & Et & Hu & En). change (m_t m1) with (m_t m). rewrite Et.
  assert (same_contents m (set_tree t1 m1)) as Hm2 by (etrans; [exact Hm1|apply same_set_tree]).
  assert (forall k, has_node (m_t m) k -> has_node t1 k) as Hmap by (unfold begin_update in Et; by injection Et as <-).
  destruct (update_pmas_spec m Hok n Hn schedules (m_merkle_pmas m) (set_tree t1 m1) g) as (g' & m3 & E3 & [Sm Ss Sa Sc _ St]); [apply Hok|done..| |].
  { intros k Hk. destruct (Hcov k Hk) as [[? Hs]|[(r & p & Hh & Hst) Hat]]; [left; split; [done|]; intros; by apply Hmap, Hs|right].
    destruct (stale_marked m s' r p k Hok Htlb Hkept Hmarked Hh Hst) as (p' & Hp' & Hw & Hd). exists r, p'. by split; [apply Hh|]. }
  change (m_merkle_pmas m1) with (m_merkle_pmas m). rewrite E3. cbn [mbind outcome_bind].
  destruct (end_update_spec g' (m_t m3)) as (t4 & E4 & Ht4 & Hn4); [apply Ss|rewrite (se_nonce _ _ _ _ _ Ss); cbn; lia|].
  rewrite E4. cbn [mbind outcome_bind mret outcome_ret andb]. pose proof (end_update_map _ _ _ E4) as Em4.
  assert (same_contents m (set_tree t4 m3)) as Hm4 by (etrans; [exact Hm2|etrans; [exact Sm|apply same_set_tree]]).
  exists (set_tree t4 m3). split; [done|]. split; [done|]. split; [|split; [|split]].
  - apply (hashed_settled _ g'); [done|]. intros k Hk. apply (settled_same m); [done|done|].
    destruct (Sa k Hk) as [? Hs]. split; [done|]. unfold has_node, get_page_node. cbn [set_tree m_t]. rewrite Em4. exact Hs.
  - cbn [set_tree m_t]. rewrite Hn4, (se_nonce _ _ _ _ _ Ss). cbn. lia.
  - transitivity (s_tlb (state_of (set_tree t1 m1))); [exact St|exact Etlb].
  - exact Sc.
Qed.

(** ** Answers *)

Lemma state_root_node m : node (state_hash m) depth 0 = state_root m.
Proof. unfold state_root, state_hash, depth. exact (page_node (state_leaf m) 52 0). Qed.

Lemma hashed_root m : hashed m -> MachineMerkleTree.get_root_hash (m_t m) = Done (state_root m).
Proof. intros Hm. rewrite (tree_root_hash_answer (state_hash m)) by apply Hm. by rewrite state_root_node. Qed.

Lemma hashed_missing m : hashed m -> missing_zero (state_leaf m) (m_t m).
Proof.
  intros Hm k Hk Hno. pose proof (state_page_contents m k) as Hc. destruct (page_at m k) as [data|] eqn:E; [|done].
  destruct (ha_nodes _ Hm k Hk) as [q Hq]; [by rewrite E|congruence].
Qed.

(** What holds when an update is called, and after it *)
Record ready_to_hash m : Prop := {
  rh_merkle : merkle_ok m;
  rh_tlb : tlb_wf (state_of m);
  rh_tracks : tree_tracks m;
  rh_nonce : m_merkle_update_nonce (m_t m) < 2 ^ 64 - 1;
}.

Section answers.
Context (n : Z) (Hn : 0 < n) (schedules : merkle_ref -> list nat).

Lemma update_or_throw_spec m :
  ready_to_hash m -> exists m', update_or_throw zero n schedules m = Done m' /\ same_contents m m' /\ hashed m' /\
    m_merkle_update_nonce (m_t m') = m_merkle_update_nonce (m_t m) + 1.
Proof.
  intros [Hok Ht Htr Hno]. destruct (update_merkle_tree_spec n schedules m) as (m' & E & Hs & Hh & Hn' & _); try done.
  unfold update_or_throw. rewrite E. by exists m'.
Qed.

Lemma get_root_hash_machine m :
  ready_to_hash m ->
  if s_iunrep (state_of m) =? 0
  then exists m', get_root_hash zero n schedules m = Done (state_root m, m') /\ same_contents m m' /\ hashed m' /\
    m_merkle_update_nonce (m_t m') = m_merkle_update_nonce (m_t m) + 1
  else get_root_hash zero n schedules m = Exn (runtime_error "cannot compute root hash of unreproducible machines").
Proof.
  intros Hm. unfold get_root_hash. change (read_reg (state_of m) (uarch_of m) (reg_stored reg_iunrep)) with (Done (s_iunrep (state_of m))).
  cbn [mbind outcome_bind]. destruct (s_iunrep (state_of m) =? 0); [|done]. cbn [negb throw_if mbind outcome_bind].
  destruct (update_or_throw_spec m Hm) as (m' & -> & Hs & Hh & Hn'). cbn [mbind outcome_bind]. rewrite hashed_root by done.
  cbn [mbind outcome_bind mret outcome_ret]. exists m'. by rewrite (same_state_root m m') by (done || apply Hm).
Qed.

End answers.
End hash.
