(* ===== verification/MachineAnswers.v ===== *)
(** * Changes between updates, and what the machine answers

    What must hold of a change of the state for the next update of the Merkle tree
    to find every page that changed: the ranges stay in place, and a page of memory
    whose contents change is marked or written through the translation cache.

    The search for the range of an address, and the answers that come from it: the
    proofs over pages, the contents of the memory and its words, all of them those
    of the state that the root hash stands for. *)

From S2P Require Import Prelude CppInt Constants RiscvConstants UarchAccess Bytes Pma PmaSpec MachineState UarchBridge UarchBridgeSpec UarchState UarchStateSpec Hasher MerkleProof PristineMerkleTree MachineMerkleTree MachineMerkleTreeSpec MachineTreeProofs Tlb MachineRegs Machine MachinePages MachineHash.

(** ** Callbacks without contents *)

Definition null_peeked (p : pma_entry) : bool :=
  match m_peek p with clint_peek_cb | plic_peek_cb | htif_peek_cb => true | _ => false end.

Lemma null_peek_none p o r : null_peek p o = Some r -> r = None.
Proof. unfold null_peek. destruct (_ && _); [|done]. by injection 1. Qed.

Lemma shadow_tlb_peek_some s p o r : shadow_tlb_peek s p o = Some r -> r <> None.
Proof.
  unfold shadow_tlb_peek. generalize (tlb_words s o (Z.to_nat (PMA_PAGE_SIZE / 8)) 0). intros l.
  destruct (_ || _); [done|]. by injection 1 as <-.
Qed.

Lemma peek_null s u p o r : peek s u p o = Done (Some r) -> r = None <-> null_peeked p = true.
Proof.
  unfold peek, null_peeked. destruct (m_peek p); intros E.
  - done.
  - apply outcome_bind_done in E as ([d|] & _ & E); [|done]. by injection E as <-.
  - injection E as E. by apply null_peek_none in E.
  - injection E as E. by apply null_peek_none in E.
  - injection E as E. by apply null_peek_none in E.
  - unfold shadow_state_peek in E. destruct (negb _); [done|]. apply outcome_bind_done in E as (d & _ & E). by injection E as <-.
  - apply (inj Done) in E. by apply shadow_tlb_peek_some in E.
  - unfold shadow_uarch_state_peek in E. destruct (negb _); [done|]. apply outcome_bind_done in E as (d & _ & E). by injection E as <-.
Qed.

Section tracking.
Context `{i_hasher}.
Implicit Types (m : machine).

(** ** Ranges that stay in place *)

Record same_place (p p' : pma_entry) : Prop := {
  sp_start : m_start p' = m_start p;
  sp_length : m_length p' = m_length p;
  sp_peek : m_peek p' = m_peek p;
  sp_M : get_istart_M p' = get_istart_M p;
  sp_E : get_istart_E p' = get_istart_E p;
  sp_memory : get_istart_M p = true -> memory_wf p';
  sp_device : get_istart_M p = false -> m_dirty_page_map p' = m_dirty_page_map p;
}.

Record evolved m m' : Prop := {
  ev_refs : m_merkle_pmas m' = m_merkle_pmas m;
  ev_tree : m_t m' = m_t m;
  ev_entries : forall r p, r ∈ m_merkle_pmas m -> deref_pma m r = Done p -> exists p', deref_pma m' r = Done p' /\ same_place p p';
}.

Lemma same_place_within p p' k : same_place p p' -> page_within p' k <-> page_within p k.
Proof. intros []. unfold page_within. by rewrite sp_start0, sp_length0. Qed.

Lemma same_place_ok p p' : same_place p p' -> merkle_entry_ok p -> merkle_entry_ok p'.
Proof.
  intros [E1 E2 E3 E4 E5 E6 E7] []. split; rewrite ?E1, ?E2, ?E3, ?E4, ?E5; try done.
  - unfold peekable in *. rewrite E3. destruct (m_peek p); try done; rewrite ?E2; try done. apply E6. apply me_peekable.
  - intros HM. rewrite E7; auto.
Qed.

Lemma same_place_refl p : merkle_entry_ok p -> same_place p p.
Proof.
  intros He. split; try done. intros HM. pose proof (me_peekable _ He) as Hk. unfold peekable in Hk. by rewrite (me_memory _ He HM) in Hk.
Qed.

Lemma evolved_holds m m' r p p' k :
  evolved m m' -> holds_page m r p k -> deref_pma m' r = Done p' -> same_place p p' -> holds_page m' r p' k.
Proof. intros He (Hr & Hp & Hw) Hp' Hs. split; [by rewrite (ev_refs _ _ He)|]. split; [done|]. by apply (same_place_within p). Qed.

Lemma evolved_merkle_ok m m' : evolved m m' -> merkle_ok m -> merkle_ok m'.
Proof.
  intros Hev [He Hn Hd Hs]. pose proof (ev_refs _ _ Hev) as Er. split; rewrite ?Er; [|done| |].
  - intros r Hr. destruct (He r Hr) as (p & Hp & Hok). destruct (ev_entries _ _ Hev r p Hr Hp) as (p' & Hp' & Hsp).
    exists p'. split; [done|]. by eapply same_place_ok.
  - intros r r' p1 p1' k Hr Hr' Hp1 Hp1' Hk Hk'. destruct (He r Hr) as (p & Hp & _), (He r' Hr') as (p' & Hp' & _).
    destruct (ev_entries _ _ Hev r p Hr Hp) as (q & Hq & Hsq), (ev_entries _ _ Hev r' p' Hr' Hp') as (q' & Hq' & Hsq').
    assert (q = p1 /\ q' = p1') as [-> ->] by (split; congruence).
    apply (Hd r r' p p' k); try done; [by apply (same_place_within _ _ _ Hsq)|by apply (same_place_within _ _ _ Hsq')].
  - destruct Hs as (refs & E & Hl & H0 & HE). exists refs. split; [done|]. split.
    + intros r p' Hr Hp'. assert (r ∈ m_merkle_pmas m) as Hin by (rewrite E; apply elem_of_app; by left).
      destruct (He r Hin) as (p & Hp & _). destruct (ev_entries _ _ Hev r p Hin Hp) as (q & Hq & Hsq).
      rewrite Hp' in Hq. injection Hq as <-. rewrite (sp_length _ _ Hsq). by apply (Hl r p).
    + assert (merkle_empty ∈ m_merkle_pmas m) as Hin by (rewrite E; apply elem_of_app; right; apply list_elem_of_here).
      destruct (ev_entries _ _ Hev merkle_empty _ Hin eq_refl) as (q & [= <-] & []). split; congruence.
Qed.

(** ** Pages *)

(** A page with the same contents has the same hash. *)
Lemma state_hash_page m m' k : page_at m' k = page_at m k -> state_hash m' k = state_hash m k.
Proof.
  intros E. pose proof (page_hash_spec _ _ _ (state_page_contents m k)) as H1.
  pose proof (page_hash_spec _ _ _ (state_page_contents m' k)) as H2. rewrite E, H1 in H2. by apply (inj Done) in H2.
Qed.

(** Whether a page has contents does not change. *)
Lemma evolved_null m m' r p p' k :
  merkle_ok m -> evolved m m' -> holds_page m r p k -> deref_pma m' r = Done p' -> same_place p p' ->
  page_at m' k = None <-> page_at m k = None.
Proof.
  intros Hok Hev Hh Hp' Hs. pose proof (evolved_holds _ _ _ _ _ _ Hev Hh Hp' Hs) as Hh'.
  pose proof (evolved_merkle_ok _ _ Hev Hok) as Hok'. rewrite (page_at_holds m r p k), (page_at_holds m' r p' k) by done.
  destruct Hh as (Hr & Hp & Hw), Hh' as (Hr' & _ & Hw'). destruct (mk_entries _ Hok r Hr) as (q & Hq & He). rewrite Hp in Hq. injection Hq as <-.
  pose proof (same_place_ok _ _ Hs He) as He'.
  pose proof (page_of_peek m p k He Hw) as E1. pose proof (page_of_peek m' p' k He' Hw') as E2.
  apply peek_null in E1, E2. rewrite E1, E2. unfold null_peeked. by rewrite (sp_peek _ _ Hs).
Qed.

Lemma memory_page_of m p k : merkle_entry_ok p -> get_istart_M p = true -> page_within p k ->
  page_of m p k = Some (page p (k - m_start p `div` PMA_PAGE_SIZE)).
Proof.
  intros He HM Hw. destruct (page_offset_in p k He Hw) as [Ho Hal]. pose proof (page_index_in p k He Hw) as Ei.
  pose proof (me_peekable _ He) as Hk. unfold peekable in Hk. unfold page_of, peek_page, peek. rewrite (me_memory _ He HM) in Hk |- *.
  unfold memory_peek. assert ((k * PMA_PAGE_SIZE - m_start p) &ᵇ (PMA_PAGE_SIZE - 1) = 0) as ->.
  { change (PMA_PAGE_SIZE - 1) with (2 ^ 12 - 1). by rewrite land_ones_mod. }
  assert (k * PMA_PAGE_SIZE - m_start p + PMA_PAGE_SIZE <= m_length p) as Hend by (pose proof (me_pages _ He); clear - Ho Hal H0; page_lia).
  pose proof (wf_end _ Hk). pose proof (wf_start _ Hk). rewrite uint_id by (unfold is_uint, PMA_PAGE_SIZE in *; lia).
  test (m_length p <? k * PMA_PAGE_SIZE - m_start p) is false. cbn [Z.eqb negb orb].
  destruct (get_memory_host p Hk) as (mem & -> & Hm). cbn [mbind outcome_bind].
  test (m_length p <? k * PMA_PAGE_SIZE - m_start p + PMA_PAGE_SIZE) is false. cbn [mret outcome_ret option_map].
  unfold page. by rewrite Ei, Hm.
Qed.

Lemma device_stale m r p k : merkle_ok m -> holds_page m r p k -> get_istart_M p = false -> stale m k.
Proof.
  intros Hok Hh HM. pose proof Hh as (Hr & Hp & _). destruct (mk_entries _ Hok r Hr) as (q & Hq & He). rewrite Hp in Hq. injection Hq as <-.
  exists r, p. split; [done|]. left. unfold marked_dirty, is_page_marked_dirty. by rewrite (me_device _ He HM).
Qed.

(** ** Tracking *)

(** The pages of memory: what the next update must find has a mark or an entry of
    the cache, and what it may skip has the contents that were hashed. *)
Lemma tree_tracks_pages m m' g :
  merkle_ok m -> evolved m m' -> tree_of g (m_t m) ->
  (forall k, 0 <= k < 2 ^ 52 -> settled m g (m_t m) k \/ (stale m k /\ page_at m k <> None)) ->
  (forall r p p' k, holds_page m r p k -> deref_pma m' r = Done p' -> get_istart_M p = true -> 0 <= k < 2 ^ 52 ->
    stale m' k \/ (page p' (k - m_start p `div` PMA_PAGE_SIZE) = page p (k - m_start p `div` PMA_PAGE_SIZE) /\ settled m g (m_t m) k)) ->
  tree_tracks m'.
Proof.
  intros Hok Hev Ht Hcov Hch. pose proof (evolved_merkle_ok _ _ Hev Hok) as Hok'. exists g. rewrite (ev_tree _ _ Hev).
  split; [done|]. intros k Hk.
  assert (page_at m' k = page_at m k -> settled m g (m_t m) k -> settled m' g (m_t m) k) as Hkeep.
  { intros E [H1 H2]. split; [by rewrite (state_hash_page m m')|by rewrite E]. }
  destruct (page_at m' k) as [d'|] eqn:E'.
  - destruct (page_at_some m' k d' Hok' E') as (r & p' & Hh' & _). pose proof Hh' as (Hr & Hp' & Hw'). rewrite (ev_refs _ _ Hev) in Hr.
    destruct (mk_entries _ Hok r Hr) as (p & Hp & He). destruct (ev_entries _ _ Hev r p Hr Hp) as (q & Hq & Hs). rewrite Hp' in Hq. injection Hq as <-.
    assert (holds_page m r p k) as Hh by (split; [done|]; split; [done|]; by apply (same_place_within _ _ k Hs)).
    destruct (get_istart_M p) eqn:HM; [|right; split; [|done]; apply (device_stale m' r p' k); [done..|by rewrite (sp_M _ _ Hs)]].
    destruct (Hch r p p' k Hh Hp' HM Hk) as [Hst|[Epg Hset]]; [by right|]. left.
    assert (page_at m k = Some d') as E.
    { pose proof (memory_page_of m p k He HM (proj2 (proj2 Hh))) as F.
      pose proof (memory_page_of m' p' k (same_place_ok _ _ Hs He) ltac:(by rewrite (sp_M _ _ Hs)) Hw') as F'.
      rewrite <- (page_at_holds m r p k Hok Hh) in F. rewrite <- (page_at_holds m' r p' k Hok' Hh'), E', (sp_start _ _ Hs), Epg in F'. congruence. }
    by apply Hkeep; [congruence|].
  - left. assert (page_at m k = None) as E.
    { destruct (page_at m k) as [d|] eqn:E; [|done]. destruct (page_at_some m k d Hok E) as (r & p & Hh & _). pose proof Hh as (Hr & Hp & _).
      destruct (ev_entries _ _ Hev r p Hr Hp) as (p' & Hp' & Hs). apply (evolved_null m m' r p p' k Hok Hev Hh Hp' Hs) in E'. congruence. }
    apply Hkeep; [by rewrite E|]. destruct (Hcov k Hk) as [?|[_ ?]]; done.
Qed.

(** A page of memory that changed can be found by the next update, and what could
    be found still can. *)
Lemma tree_tracks_evolved m m' :
  merkle_ok m -> evolved m m' ->
  (forall r p p' k, holds_page m r p k -> deref_pma m' r = Done p' -> get_istart_M p = true ->
    stale m' k \/ (page p' (k - m_start p `div` PMA_PAGE_SIZE) = page p (k - m_start p `div` PMA_PAGE_SIZE) /\ ~ stale m k)) ->
  tree_tracks m -> tree_tracks m'.
Proof.
  intros Hok Hev Hch (g & Ht & Hcov). apply (tree_tracks_pages m m' g); try done.
  intros r p p' k Hh Hp' HM Hk. destruct (Hch r p p' k Hh Hp' HM) as [?|[E Hst]]; [by left|].
  destruct (Hcov k Hk) as [?|[? _]]; [by right|done].
Qed.

(** A new tree: every page of memory is marked. *)
Lemma tree_tracks_new m :
  merkle_ok m -> make_machine_merkle_tree = Done (m_t m) ->
  (forall r p k, holds_page m r p k -> get_istart_M p = true -> marked_dirty p (k - m_start p `div` PMA_PAGE_SIZE)) ->
  tree_tracks m.
Proof.
  intros Hok Et Hd. destruct make_machine_merkle_tree_spec as (t & Et' & Ht & _). rewrite Et in Et'. injection Et' as <-.
  eexists. split; [exact Ht|]. intros k Hk. destruct (page_at m k) as [d|] eqn:E.
  - right. split; [|done]. destruct (page_at_some m k d Hok E) as (r & p & Hh & _).
    destruct (get_istart_M p) eqn:HM; [|by apply (device_stale m r p)]. exists r, p. split; [done|]. left. by apply (Hd r).
  - left. split; [|by rewrite E]. symmetry. by apply no_page_hash.
Qed.

(** After an update, only the changes matter. *)
Lemma tree_tracks_hashed m m' :
  merkle_ok m -> evolved m m' -> hashed m ->
  (forall r p p' k, holds_page m r p k -> deref_pma m' r = Done p' -> get_istart_M p = true ->
    stale m' k \/ page p' (k - m_start p `div` PMA_PAGE_SIZE) = page p (k - m_start p `div` PMA_PAGE_SIZE)) ->
  tree_tracks m'.
Proof.
  intros Hok Hev [Ht Hn] Hch. assert (forall k, 0 <= k < 2 ^ 52 -> settled m (state_hash m) (m_t m) k) as Hset.
  { intros k Hk. split; [done|]. by apply Hn. }
  apply (tree_tracks_pages m m' (state_hash m)); try done; [intros k Hk; left; by apply Hset|].
  intros r p p' k Hh Hp' HM Hk. destruct (Hch r p p' k Hh Hp' HM) as [?|E]; [by left|]. right. split; [done|by apply Hset].
Qed.
End tracking.

Section answers.
Context `{i_hasher} (zero : hash_type).
Implicit Types (m : machine) (t : machine_merkle_tree).

(** ** The search *)

Lemma range_holds_spec p a n :
  merkle_entry_ok p -> is_uint 64 a -> 0 < n < 2 ^ 64 ->
  range_holds p a n = bool_decide (m_start p <= a /\ a + n <= m_start p + m_length p).
Proof.
  intros [Hs _ _ Hl He _ _ _ _] Ha Hn. unfold range_holds, is_uint in *. apply eq_true_iff_eq. rewrite bool_decide_eq_true.
  rewrite !andb_true_iff, !Z.leb_le. split.
  - intros [[H1 H2] H3]. rewrite !uint_id in H3 by (unfold is_uint; lia). lia.
  - intros [H1 H2]. rewrite !uint_id by (unfold is_uint; lia). lia.
Qed.

(** Within a page, a range is held by the range of the page. *)
Lemma range_holds_page p a n :
  merkle_entry_ok p -> is_uint 64 a -> 0 < n -> a `mod` PMA_PAGE_SIZE + n <= PMA_PAGE_SIZE ->
  range_holds p a n = bool_decide (page_within p (a `div` PMA_PAGE_SIZE)).
Proof.
  intros Hp Ha Hn Hin. assert (n <= PMA_PAGE_SIZE) by (pose proof (Z.mod_pos_bound a PMA_PAGE_SIZE ltac:(done)); lia).
  rewrite range_holds_spec by (done || (unfold PMA_PAGE_SIZE in *; lia)).
  apply bool_decide_ext. destruct Hp. unfold page_within. page_lia.
Qed.

Lemma mapM_deref m refs : (forall r, r ∈ refs -> exists p, deref_pma m r = Done p) ->
  exists l, mapM (deref_pma m) refs = Done l /\ Forall2 (fun r p => deref_pma m r = Done p) refs l.
Proof.
  induction refs as [|r refs IH]; intros Hr; [by exists []|].
  destruct (Hr r (list_elem_of_here _ _)) as [p Hp]. destruct IH as (l & E & Hl); [intros x Hx; apply Hr; by right|].
  exists (p :: l). split; [|by constructor]. cbn. by rewrite Hp, E.
Qed.

(** The references end with that of the empty entry. *)
Lemma mapM_sentinel m refs l : mapM (deref_pma m) refs = Done l ->
  mapM (deref_pma m) (refs ++ [merkle_empty]) = Done (l ++ [s_empty_pma (state_of m)]).
Proof.
  revert l. induction refs as [|r refs IH]; intros l El; [by injection El as <-|].
  cbn in El |- *. destruct (deref_pma m r) as [p|]; cbn in El |- *; [|done].
  destruct (mapM (deref_pma m) refs) as [l'|]; cbn in El |- *; [|done]. injection El as <-. by rewrite (IH l' eq_refl).
Qed.

(** The entry found holds the range, or is the empty one and then none does. *)
Lemma find_entry_spec m a n refs l j :
  Forall2 (fun r p => deref_pma m r = Done p) refs l ->
  (forall r p, r ∈ refs -> deref_pma m r = Done p -> 0 < m_length p) -> m_length (s_empty_pma (state_of m)) = 0 ->
  exists i r p, find_entry (l ++ [s_empty_pma (state_of m)]) j a n = Some (j + i)%nat /\
    (refs ++ [merkle_empty]) !! i = Some r /\ (l ++ [s_empty_pma (state_of m)]) !! i = Some p /\ deref_pma m r = Done p /\
    ((r ∈ refs /\ range_holds p a n = true) \/
     (r = merkle_empty /\ forall r' p', r' ∈ refs -> deref_pma m r' = Done p' -> range_holds p' a n = false)).
Proof.
  intros Hl Hlen H0. revert j. induction Hl as [|r p refs l Hp Hl IH]; intros j; cbn [app find_entry].
  { rewrite H0. exists 0%nat, merkle_empty, (s_empty_pma (state_of m)). split; [f_equal; lia|]. do 3 (split; [done|]).
    right. split; [done|]. intros r' p' Hr'. by apply not_elem_of_nil in Hr'. }
  pose proof (Hlen r p (list_elem_of_here _ _) Hp). test (m_length p =? 0) is false.
  destruct (range_holds p a n) eqn:Eh.
  - exists 0%nat, r, p. split; [f_equal; lia|]. do 3 (split; [done|]). left. split; [apply list_elem_of_here|done].
  - destruct (IH (fun r' p' Hr' => Hlen r' p' (list_elem_of_further _ _ _ Hr')) (S j)) as (i & r' & p' & E & Hr' & Hp' & Hd & Hcase).
    exists (S i), r', p'. rewrite E. split; [f_equal; lia|]. do 3 (split; [done|]). destruct Hcase as [[Hin Hh]|[-> Hno]].
    + left. split; [by right|done].
    + right. split; [done|]. intros x q Hx Hq. apply elem_of_cons in Hx as [->|Hx]; [|by eapply Hno].
      rewrite Hp in Hq. by injection Hq as <-.
Qed.

Lemma find_merkle_spec m a n :
  merkle_ok m ->
  exists r p, find_merkle_pma m a n = Done (r, p) /\ r ∈ m_merkle_pmas m /\ deref_pma m r = Done p /\
    ((0 < m_length p /\ range_holds p a n = true) \/
     (r = merkle_empty /\ get_istart_E p = true /\
      forall r' p', r' ∈ m_merkle_pmas m -> r' <> merkle_empty -> deref_pma m r' = Done p' -> range_holds p' a n = false)).
Proof.
  intros Hok. destruct (mk_sentinel _ Hok) as (refs & Erefs & Hlen & H0 & HE). unfold find_merkle_pma. rewrite Erefs.
  destruct (mapM_deref m refs) as (l & El & Hl).
  { intros r Hr. destruct (mk_entries _ Hok r) as (p & Hp & _); [rewrite Erefs; apply elem_of_app; by left|by exists p]. }
  rewrite (mapM_sentinel m refs l El).
  cbn [mbind outcome_bind]. unfold find_pma_entry.
  destruct (find_entry_spec m a n refs l 0 Hl Hlen H0) as (i & r & p & E & Hr & Hp & Hd & Hcase). rewrite E. cbn [default from_option id Nat.add].
  rewrite Hp. cbn [mbind outcome_bind]. rewrite Hr. exists r, p. split; [done|].
  assert (r ∈ refs ++ [merkle_empty]) as Hin by (by eapply list_elem_of_lookup_2). split; [done|]. split; [done|].
  destruct Hcase as [[Hin' Hh]|[-> Hno]]; [left; split; [by eapply Hlen|done]|]. right. split; [done|]. cbn in Hd. injection Hd as <-.
  split; [done|]. intros r' p' Hr' Hne Hp'. apply elem_of_app in Hr' as [Hr'|Hr']; [by eapply Hno|].
  by apply list_elem_of_singleton in Hr'.
Qed.

(** The search for a range within a page finds the range of the page. *)
Lemma find_page_spec m a n (k := a `div` PMA_PAGE_SIZE) :
  merkle_ok m -> is_uint 64 a -> 0 < n -> a `mod` PMA_PAGE_SIZE + n <= PMA_PAGE_SIZE ->
  exists r p, find_merkle_pma m a n = Done (r, p) /\
    (holds_page m r p k \/ (get_istart_E p = true /\ page_at m k = None)).
Proof.
  intros Hok Ha Hn Hin. destruct (find_merkle_spec m a n Hok) as (r & p & E & Hr & Hp & Hcase). exists r, p. split; [done|].
  destruct (mk_entries _ Hok r Hr) as (p0 & Hp0 & He). rewrite Hp in Hp0. injection Hp0 as <-.
  destruct Hcase as [[Hl Hh]|(-> & HE & Hno)].
  - left. split; [done|]. split; [done|]. rewrite range_holds_page in Hh by done. by apply bool_decide_eq_true in Hh.
  - right. split; [done|]. destruct (page_at m k) as [d|] eqn:Ed; [|done]. exfalso.
    apply page_at_some in Ed as (r' & p' & (Hr' & Hp' & Hw) & _); [|done].
    destruct (decide (r' = merkle_empty)) as [->|Hne].
    + destruct (mk_sentinel _ Hok) as (_ & _ & _ & H0 & _). cbn in Hp'. injection Hp' as <-. unfold page_within in Hw. lia.
    + specialize (Hno r' p' Hr' Hne Hp'). destruct (mk_entries _ Hok r' Hr') as (q & Hq & Hqe). rewrite Hp' in Hq. injection Hq as <-.
      rewrite range_holds_page in Hno by done. by apply bool_decide_eq_false in Hno.
Qed.

(** ** Proofs *)

Lemma proof_page_offset p a (k := a `div` PMA_PAGE_SIZE) :
  merkle_entry_ok p -> is_uint 64 a -> page_within p k ->
  uint64 (a - m_start p) = a - m_start p /\
  uint64 (a - m_start p) &ᵇ uint64 (Z.lnot (PMA_PAGE_SIZE - 1)) = k * PMA_PAGE_SIZE - m_start p.
Proof.
  intros [] Ha Hk. unfold page_within, is_uint in *. assert (0 <= a - m_start p < 2 ^ 64) as Hr by (unfold k in Hk; page_lia).
  rewrite uint_id by (unfold is_uint; lia). split; [done|]. rewrite land_not_uint by (done || (unfold is_uint; lia)).
  change (PMA_PAGE_SIZE - 1) with (2 ^ 12 - 1). rewrite ldiff_low by lia. change (2 ^ 12) with 4096. unfold k in *. page_lia.
Qed.

(** The page that [get_proof] gives to the tree is the page of the target. *)
Lemma proof_page_spec m a s :
  merkle_ok m -> is_uint 64 a -> 5 <= s <= 64 -> a `mod` 2 ^ s = 0 ->
  proof_page m a s = Done (if s <? 12 then page_at m (a `div` 2 ^ 12) else None).
Proof.
  intros Hok Ha Hs Hal. unfold proof_page. change LOG2_PAGE_SIZE with 12. destruct (Z.ltb_spec s 12) as [Hlt|]; [|done].
  rewrite Z.shiftl_1_l. assert (0 < 2 ^ s <= 2 ^ 11) as Hp by (split; [by apply Z.pow_pos_nonneg; lia|apply Z.pow_le_mono_r; lia]).
  rewrite (uint_id 64 (2 ^ s)) by (unfold is_uint; lia).
  assert (a `mod` PMA_PAGE_SIZE + 2 ^ s <= PMA_PAGE_SIZE) as Hin.
  { change PMA_PAGE_SIZE with (2 ^ 12). assert (2 ^ 12 = 2 ^ s * 2 ^ (12 - s)) as E by (rewrite <- Z.pow_add_r by lia; f_equal; lia).
    assert ((a `mod` 2 ^ 12) `mod` 2 ^ s = 0) as Hm.
    { rewrite E. rewrite Z.rem_mul_r by lia. rewrite Hal, Z.add_0_l, Z.mul_comm, Z.mod_mul by lia. done. }
    pose proof (Z.mod_pos_bound a (2 ^ 12) ltac:(done)) as Hb. pose proof (Z.div_mod (a `mod` 2 ^ 12) (2 ^ s) ltac:(lia)) as Hdm.
    rewrite Hm, Z.add_0_r in Hdm. rewrite Hdm in Hb |- *. rewrite E in Hb |- *. clear - Hb Hp.
    assert ((a `mod` (2 ^ s * 2 ^ (12 - s))) `div` 2 ^ s < 2 ^ (12 - s)) by (apply (Z.mul_lt_mono_pos_l (2 ^ s)); lia). nia. }
  destruct (find_page_spec m a (2 ^ s) Hok Ha) as (r & p & -> & Hcase); [lia|done|]. cbn [mbind outcome_bind].
  change (a `div` 2 ^ 12) with (a `div` PMA_PAGE_SIZE). destruct Hcase as [Hh|[-> ->]]; [|done]. pose proof Hh as (Hr & Hp' & Hw).
  destruct (mk_entries _ Hok r Hr) as (p0 & Hp0 & He). rewrite Hp' in Hp0. injection Hp0 as <-.
  assert (get_istart_E p = false) as ->.
  { destruct (get_istart_E p) eqn:HE; [|done]. pose proof (me_empty _ He HE). unfold page_within in Hw. lia. }
  destruct (proof_page_offset p a He Ha Hw) as [_ ->]. rewrite page_of_peek by done. cbn [mbind outcome_bind mret outcome_ret].
  f_equal. symmetry. by apply (page_at_holds m r p).
Qed.

(** The machine answers the proof of the node of the current state. *)
Lemma get_proof_skip_spec m a s :
  merkle_ok m -> hashed m -> is_uint 64 a ->
  get_proof_skip zero m a s =
    if negb ((5 <=? s) && (s <=? 64)) then Exn (invalid_argument "invalid log2_size")
    else if negb (a `mod` 2 ^ s =? 0) then Exn (invalid_argument "address not aligned to log2_size")
    else Done (tree_proof (state_leaf m) 5 64 s a).
Proof.
  intros Hok Hh Ha. unfold get_proof_skip. change LOG2_ROOT_SIZE with 64. change LOG2_WORD_SIZE with 5.
  destruct ((5 <=? s) && (s <=? 64)) eqn:Es; cbn [negb].
  2: { replace ((64 <? s) || (s <? 5)) with true; [done|]. symmetry. apply orb_true_iff. rewrite !Z.ltb_lt.
       apply andb_false_iff in Es. rewrite !Z.leb_gt in Es. lia. }
  apply andb_true_iff in Es as [E1%Z.leb_le E2%Z.leb_le]. test ((64 <? s) || (s <? 5)) is false. cbn [throw_if mbind outcome_bind].
  assert (Z.shiftr (uint64 (Z.lnot 0)) (64 - s) = 2 ^ s - 1) as ->.
  { rewrite Z.shiftr_div_pow2 by lia. change (uint64 (Z.lnot 0)) with (2 ^ 64 - 1). pose proof (pow2_pos (64 - s) ltac:(lia)).
    assert (2 ^ 64 = 2 ^ s * 2 ^ (64 - s)) as -> by (rewrite <- Z.pow_add_r by lia; f_equal; lia).
    symmetry. apply (Z.div_unique_pos _ _ _ (2 ^ (64 - s) - 1)); lia. }
  rewrite land_ones_mod by lia. destruct (Z.eqb_spec (a `mod` 2 ^ s) 0) as [Hal|]; [|done]. cbn [negb throw_if mbind outcome_bind].
  rewrite proof_page_spec by (done || lia). cbn [mbind outcome_bind].
  apply tree_get_proof_spec; [apply Hh|by apply hashed_missing|exact Ha|lia|exact Hal|].
  unfold page_data_for. pose proof (state_page_contents m (a `div` 2 ^ 12)) as Hpc. destruct (Z.ltb_spec s 12).
  - split; [done|]. split; [lia|]. intros Hne. destruct (ha_nodes _ Hh (a `div` 2 ^ 12)) as [q Hq]; [|done|congruence].
    unfold is_uint in Ha. Z.div_mod_to_equations; lia.
  - split; [lia|]. done.
Qed.
End answers.
