(* ===== verification/UarchRecord.v ===== *)
(** * Recording access logs (uarch-record-state-access.h, machine.cpp)

    The class that runs the microarchitecture on the state of the machine and logs
    every access: the leaf of the Merkle tree that holds the word, before and after
    the access, with the hashes of the siblings on its path to the root.  It keeps
    the tree up to date page by page.  [log_step_uarch] and [log_reset_uarch]
    record a step and a reset, and verify the log before they return it. *)

From S2P Require Import Prelude CppInt Constants UarchAccess UarchStep Bytes Pma MachineState UarchBridge UarchState Hasher MerkleProof MachineMerkleTree AccessLog UarchReplay MachineRegs Machine.

(** ** Methods that keep what they did when they throw *)

Definition method (S T : Type) : Type := S -> outcome T * S.

#[export] Instance method_ret S : MRet (method S) := fun T x s => (Done x, s).
#[export] Instance method_bind S : MBind (method S) := fun T U f m s =>
  match m s with (Done x, s') => f x s' | (Exn e, s') => (Exn e, s') end.

Definition attempt {S T} (m : outcome T) : method S T := fun s => (m, s).

(** [std::string] of a null pointer is undefined. *)
Definition null_text : exn := undefined_behaviour "std::string(nullptr)".

Section record.
Context `{i_hasher}.
(** The value of a [hash_type] without a value, the hash of
    [get_uarch_pristine_state_hash] and the image of uarch-pristine-ram.c, which
    the build generates *)
Context (zero uarch_pristine_state_hash : hash_type) (uarch_pristine_ram : list Z).

(** The machine and the log; the state of the microarchitecture and that of the
    machine, to which the class has references of their own, are in the machine. *)
Record uarch_record := UarchRecord { rc_m : machine; rc_log : access_log }.

Abbreviation rmethod := (method uarch_record).

Definition get_machine : rmethod machine := fun a => (Done (rc_m a), a).
Definition put_machine (m : machine) : rmethod unit := fun a => (Done tt, UarchRecord m (rc_log a)).
Definition on_uarch (f : uarch_state -> uarch_state) : rmethod unit := fun a =>
  (Done tt, UarchRecord (set_uarch (f (uarch_of (rc_m a))) (rc_m a)) (rc_log a)).

Definition has_annotations (a : uarch_record) : bool := m_annotations (m_log_type (rc_log a)).

(** The note is dropped unless the log has annotations. *)
Definition log_access (x : access) (text : option string) : rmethod unit := fun a =>
  match text with
  | Some text => (Done tt, UarchRecord (rc_m a) (push_access x text (rc_log a)))
  | None => if has_annotations a then (Exn null_text, a) else (Done tt, UarchRecord (rc_m a) (push_access x "" (rc_log a)))
  end.

(** ** Words *)

Definition not_aligned : exn := invalid_argument "paligned is not aligned to word size".

(** The siblings of the leaf that holds a word, and its contents *)
Definition leaf_of (paligned : Z) (m : machine) : outcome (list hash_type * list Z) :=
  proof ← get_proof_skip zero m (pleaf_aligned paligned) LOG2_WORD_SIZE;
  read ← read_memory m (pleaf_aligned paligned) false tree_word_size;
  mret (m_sibling_hashes proof, read).

Definition log_read (paligned val : Z) (text : option string) : rmethod Z :=
  attempt (throw_if (negb ((paligned &ᵇ 7) =? 0)) not_aligned) ≫= fun _ =>
  get_machine ≫= fun m =>
  attempt (leaf_of paligned m) ≫= fun '(siblings, read) =>
  attempt (get_data_hash read) ≫= fun read_hash =>
  attempt (get_word_access_data read (paligned - pleaf_aligned paligned)) ≫= fun logged_val =>
  attempt (throw_if (negb (val =? logged_val)) (runtime_error "read value does not match logged value")) ≫= fun _ =>
  log_access (Access access_read paligned 3 (Some read) read_hash None None (Some siblings)) text ≫= fun _ =>
  mret val.

Definition log_before_write (paligned word : Z) (text : option string) : rmethod unit :=
  attempt (throw_if (negb ((paligned &ᵇ 7) =? 0)) not_aligned) ≫= fun _ =>
  get_machine ≫= fun m =>
  attempt (leaf_of paligned m) ≫= fun '(siblings, read) =>
  attempt (get_data_hash read) ≫= fun read_hash =>
  attempt (replace_word_access_data word read (paligned - pleaf_aligned paligned)) ≫= fun written =>
  attempt (get_data_hash written) ≫= fun written_hash =>
  log_access (Access access_write paligned 3 (Some read) read_hash (Some written) (Some written_hash) (Some siblings)) text.

(** What an update that throws leaves behind is not modelled. *)
Definition update_after_write (paligned : Z) : rmethod unit :=
  attempt (throw_if (negb ((paligned &ᵇ 7) =? 0)) aligned_word) ≫= fun _ =>
  get_machine ≫= fun m =>
  attempt (update_merkle_tree_page zero paligned m) ≫= fun '(updated, m) =>
  put_machine m ≫= fun _ =>
  attempt (throw_if (negb updated) (assertion_failure "updated")).

(** [store] is the assignment to the reference [dest]. *)
Definition log_before_write_write_and_update (paligned : Z) (store : uarch_state -> uarch_state) (word : Z) (text : string) :
    rmethod unit :=
  attempt (throw_if (negb ((paligned &ᵇ 7) =? 0)) aligned_word) ≫= fun _ =>
  log_before_write paligned word (Some text) ≫= fun _ =>
  on_uarch store ≫= fun _ =>
  update_after_write paligned.

(** For a [bool], the word is first assigned to a copy. *)
Definition log_before_write_write_and_update_bool (paligned : Z) (store : bool -> uarch_state -> uarch_state) (val : bool)
    (text : string) : rmethod unit :=
  log_before_write_write_and_update paligned (fun u => u) (Z.b2z val) text ≫= fun _ =>
  on_uarch (store (negb (Z.b2z val =? 0))) ≫= fun _ =>
  update_after_write paligned.

(** ** The methods of the interface *)

Definition on_refs {T} (f : uarch_refs -> outcome T) : rmethod T := fun a => (f (m_refs (rc_m a)), a).
Definition put_memory (mem : uarch_memory) : rmethod unit := fun a =>
  (Done tt, UarchRecord (set_refs (set_memory mem (m_refs (rc_m a))) (rc_m a)) (rc_log a)).

Definition read_register (paddr : Z) : rmethod Z :=
  on_refs (fun r => UarchBridge.read_register paddr (m_s r)) ≫= fun data =>
  log_read paddr data (get_register_name paddr) ≫= fun _ =>
  mret data.

Definition write_register (paddr data : Z) : rmethod unit :=
  log_before_write paddr data (get_register_name paddr) ≫= fun _ =>
  on_refs (fun r => s ← UarchBridge.write_register paddr (m_s r) data; mret (UarchMemory (us_ram (m_us r)) s)) ≫= fun mem =>
  put_memory mem ≫= fun _ =>
  update_after_write paddr.

Definition rc_read_word (paddr : Z) : rmethod Z :=
  attempt (throw_if (negb ((paddr &ᵇ 7) =? 0)) aligned_word) ≫= fun _ =>
  on_refs (fun r => memory_pma (memory_of r) paddr) ≫= fun '(_, pma) =>
  if get_istart_E pma then read_register paddr
  else
    attempt (throw_if (negb (flag_R (m_flags pma))) (runtime_error "pma is not readable")) ≫= fun _ =>
    attempt (aliased_aligned_read pma (uint64 (paddr - m_start pma))) ≫= fun data =>
    log_read paddr data (Some "memory") ≫= fun _ =>
    mret data.

(** The store goes to the host memory of the entry, whatever became of it. *)
Definition rc_write_word (paddr data : Z) : rmethod unit :=
  attempt (throw_if (negb ((paddr &ᵇ 7) =? 0)) aligned_word) ≫= fun _ =>
  on_refs (fun r => memory_pma (memory_of r) paddr) ≫= fun '(ref, pma) =>
  if get_istart_E pma then write_register paddr data
  else
    attempt (throw_if (negb (flag_W (m_flags pma))) (runtime_error "pma is not writable")) ≫= fun _ =>
    log_before_write paddr data (Some "memory") ≫= fun _ =>
    attempt (aliased_aligned_write pma (uint64 (paddr - m_start pma)) data) ≫= fun pma =>
    on_refs (fun r => Done (store_ref ref pma (memory_of r))) ≫= fun mem =>
    put_memory mem ≫= fun _ =>
    update_after_write paddr.

(** ** The reset *)

(** [n] and [schedules] are those of the update of the tree. *)
Context (n : Z) (schedules : merkle_ref -> list nat).

(** uarch-constants.h *)
Definition UARCH_RAM_START_ADDRESS : Z := PMA_UARCH_RAM_START.

(** The callback of the shadow writes the page to the buffer it is given. *)
Definition get_uarch_state_image (m : machine) : outcome (list Z) :=
  let data := replicate (Z.to_nat (2 ^ UARCH_STATE_LOG2_SIZE)) 0 in
  peeked ← peek_page m (us_shadow_state (uarch_of m)) 0;
  match peeked with
  | None => Exn (runtime_error "peek failed")
  | Some page_data =>
      let data := splice 0 (default [] page_data) data in
      let ram := us_ram (uarch_of m) in
      mem ← get_memory ram;
      mret (splice (Z.to_nat (UARCH_RAM_START_ADDRESS - UARCH_STATE_START_ADDRESS))
              (Pma.slice 0 (m_length ram) (host_memory mem)) data)
  end.

Definition large_data (a : uarch_record) : bool := m_large_data (m_log_type (rc_log a)).

(** The image, if the type of the log asks for it *)
Definition image_if_large : rmethod (option (list Z)) := fun a =>
  if large_data a then (image ← get_uarch_state_image (rc_m a); mret (Some image), a) else (Done None, a).

Definition update_ram (f : pma_entry -> outcome pma_entry) : rmethod unit :=
  on_refs (fun r => f (us_ram (m_us r))) ≫= fun ram => on_uarch (upd_us_ram (fun _ => ram)).

Definition rc_reset_state : rmethod unit :=
  get_machine ≫= fun m =>
  attempt (get_proof zero n schedules m UARCH_STATE_START_ADDRESS UARCH_STATE_LOG2_SIZE) ≫= fun '(proof, m) =>
  put_machine m ≫= fun _ =>
  image_if_large ≫= fun read =>
  on_uarch (upd_us_halt_flag (fun _ => false)) ≫= fun _ =>
  on_uarch (upd_us_pc (fun _ => UARCH_PC_INIT)) ≫= fun _ =>
  on_uarch (upd_us_cycle (fun _ => UARCH_CYCLE_INIT)) ≫= fun _ =>
  on_uarch (upd_us_x (fun x => fold_left (fun x i => <[i := UARCH_X_INIT]> x) (seq 1 31) x)) ≫= fun _ =>
  let len := uarch_pristine_ram_len uarch_pristine_ram in
  update_ram (fun ram => Pma.write_memory ram (m_start ram) (Some uarch_pristine_ram) len) ≫= fun _ =>
  update_ram (fun ram => Pma.fill_memory ram (uint64 (m_start ram + len)) 0 (uint64 (m_length ram - len))) ≫= fun _ =>
  image_if_large ≫= fun written =>
  log_access (Access access_write UARCH_STATE_START_ADDRESS UARCH_STATE_LOG2_SIZE read (m_target_hash proof)
                written (Some uarch_pristine_state_hash) (Some (m_sibling_hashes proof))) (Some "uarch_state").

(** ** The class *)

Definition x_out_of_range : exn := undefined_behaviour "x".

Definition rc_op {A} (o : uop A) : rmethod A :=
  match o in uop A return rmethod A with
  | ReadX reg =>
      attempt (throw_if (negb (bool_decide (0 <= reg < 32))) x_out_of_range) ≫= fun _ =>
      on_refs (fun r => Done (nth (Z.to_nat reg) (us_x (m_us r)) 0)) ≫= fun x =>
      log_read (machine_reg_address_at reg_uarch_x0 reg) x (Some "uarch.x")
  | WriteX reg val =>
      attempt (throw_if (reg =? 0) (assertion_failure "reg != 0")) ≫= fun _ =>
      attempt (throw_if (negb (bool_decide (0 <= reg < 32))) x_out_of_range) ≫= fun _ =>
      log_before_write_write_and_update (machine_reg_address_at reg_uarch_x0 reg)
        (upd_us_x (fun x => <[Z.to_nat reg := val]> x)) val "uarch.x"
  | ReadPc =>
      on_refs (fun r => Done (us_pc (m_us r))) ≫= fun pc =>
      log_read (machine_reg_address reg_uarch_pc) pc (Some "uarch.pc")
  | WritePc val =>
      log_before_write_write_and_update (machine_reg_address reg_uarch_pc) (upd_us_pc (fun _ => val)) val "uarch.pc"
  | ReadCycle =>
      on_refs (fun r => Done (us_cycle (m_us r))) ≫= fun cycle =>
      log_read (machine_reg_address reg_uarch_cycle) cycle (Some "uarch.cycle")
  | WriteCycle val =>
      log_before_write_write_and_update (machine_reg_address reg_uarch_cycle) (upd_us_cycle (fun _ => val)) val "uarch.cycle"
  | ReadHaltFlag =>
      on_refs (fun r => Done (Z.b2z (us_halt_flag (m_us r)))) ≫= fun flag =>
      log_read (machine_reg_address reg_uarch_halt_flag) flag (Some "uarch.halt_flag") ≫= fun v => mret (negb (v =? 0))
  | SetHaltFlag =>
      log_before_write_write_and_update_bool (machine_reg_address reg_uarch_halt_flag)
        (fun b => upd_us_halt_flag (fun _ => b)) true "uarch.halt_flag"
  | ResetHaltFlag =>
      log_before_write_write_and_update_bool (machine_reg_address reg_uarch_halt_flag)
        (fun b => upd_us_halt_flag (fun _ => b)) false "uarch.halt_flag"
  | ReadWord paddr => rc_read_word paddr
  | WriteWord paddr val => rc_write_word paddr val
  | ResetState => rc_reset_state
  | PutChar c => fun a =>
      let r := m_refs (rc_m a) in
      (Done tt, UarchRecord (set_refs (UarchRefs (m_us r) (m_s r) (console r ++ [c])) (rc_m a)) (rc_log a))
  end.

Definition note (t : bracket_type) (text : string) (a : uarch_record) : uarch_record :=
  UarchRecord (rc_m a) (push_bracket t text (rc_log a)).

Definition uarch_record_state_access : access_handler uarch_record := {|
  do_op := @rc_op;
  do_begin := note bracket_begin;
  do_end := note bracket_end;
|}.

(** ** The functions of the machine (machine.cpp)

    [last] is the schedule of the last update of the tree, [first] that of the
    first. *)

Context (first last : merkle_ref -> list nat).

Definition log_step_uarch (t : log_type) (m : machine) : outcome (access_log * machine) :=
  throw_if (get_istart_E (us_ram (uarch_of m))) (runtime_error "microarchitecture RAM is not present") ≫= fun _ =>
  '(root_hash_before, m) ← get_root_hash zero n first m;
  let '(res, a) := run uarch_record_state_access uarch_step (note bracket_begin "step" (UarchRecord m (empty_log t))) in
  res ≫= fun _ =>
  let log := rc_log (note bracket_end "step" a) in
  '(root_hash_after, m) ← get_root_hash zero n last (rc_m a);
  verify_step_uarch zero uarch_pristine_state_hash root_hash_before log root_hash_after ≫= fun _ =>
  mret (log, m).

(** The result of [update_merkle_tree] is dropped. *)
Definition log_reset_uarch (middle : merkle_ref -> list nat) (t : log_type) (m : machine) : outcome (access_log * machine) :=
  '(root_hash_before, m) ← get_root_hash zero n first m;
  let '(res, a) := run uarch_record_state_access uarch_reset_state
                     (note bracket_begin "reset uarch state" (UarchRecord m (empty_log t))) in
  res ≫= fun _ =>
  let log := rc_log (note bracket_end "reset uarch state" a) in
  '(_, m) ← update_merkle_tree zero n middle (rc_m a);
  '(root_hash_after, m) ← get_root_hash zero n last m;
  verify_reset_uarch zero uarch_pristine_state_hash root_hash_before log root_hash_after ≫= fun _ =>
  mret (log, m).
End record.
Arguments uarch_record {_}.
