(* ===== verification/StateWords.v ===== *)
(** * The state as an image

    The words of the pages that the Merkle tree covers.  The root hash of a state
    is that of its image, the leaf that holds a word is read and proved from it,
    and a change of one word of the state leaves the tree right once the page of
    the word is updated. *)

From S2P Require Import Prelude CppInt Constants UarchAccess Bytes Pma PmaSpec MachineState UarchBridge UarchBridgeSpec UarchState UarchStateSpec Hasher MerkleProof PristineMerkleTree AccessLog UarchReplay StateImage MachineMerkleTree MachineMerkleTreeSpec MachineTreeProofs MachineRegs Machine MachinePages MachineHash MachineAnswers UarchReplaySpec UarchRecord.

(** ** The words of a page *)

Definition page_word (d : list Z) (j : Z) : Z := le_val (Pma.slice (8 * j) 8 d).

Lemma slice_slice d o a b : 0 <= o -> 0 <= a -> 0 <= b -> Pma.slice o a d ++ Pma.slice (o + a) b d = Pma.slice o (a + b) d.
Proof.
  intros. unfold Pma.slice. rewrite (Z2Nat.inj_add o a), (Z2Nat.inj_add a b), <- drop_drop by lia. apply take_take_drop.
Qed.

Lemma page_word_bytes d j :
  Forall is_byte d -> 0 <= j -> 8 * j + 8 <= Z.of_nat (length d) -> le_bytes 8 (page_word d j) = Pma.slice (8 * j) 8 d.
Proof.
  intros Hd Hj Hl. unfold page_word. rewrite <- (le_bytes_le_val (Pma.slice (8 * j) 8 d)) at 2 by (by apply Forall_take, Forall_drop).
  by rewrite length_slice by lia.
Qed.

Lemma page_word_uint d j : Forall is_byte d -> is_uint 64 (page_word d j).
Proof.
  intros Hd. unfold page_word. assert (Forall is_byte (Pma.slice (8 * j) 8 d)) as Hb by (by apply Forall_take, Forall_drop).
  apply le_val_range in Hb. eapply uint_mono; [|exact Hb]. unfold Pma.slice. rewrite length_take. lia.
Qed.

(** The leaf at the index [w] of a block of bytes *)
Lemma block_leaf d im i w :
  Forall is_byte d -> 0 <= w -> 32 * w + 32 <= Z.of_nat (length d) ->
  (forall j, 0 <= j < 4 -> im (4 * i + j) = page_word d (4 * w + j)) ->
  leaf_data im i = Pma.slice (32 * w) 32 d.
Proof.
  intros Hd Hw Hl Him.
  unfold leaf_data. replace (4 * i) with (4 * i + 0) at 1 by lia. rewrite !Him by lia. rewrite !page_word_bytes by (done || lia).
  replace (8 * (4 * w + 0)) with (32 * w) by lia. replace (8 * (4 * w + 1)) with (32 * w + 8) by lia.
  replace (8 * (4 * w + 2)) with (32 * w + 8 + 8) by lia. replace (8 * (4 * w + 3)) with (32 * w + 8 + 8 + 8) by lia.
  rewrite !slice_slice by lia. done.
Qed.

Section words.
Context `{i_hasher} (zero : hash_type).
Implicit Types (m : machine).

(** ** The image *)

Definition words_per_page : Z := 512.

Definition state_image m : image := fun i =>
  match page_at m (i / words_per_page) with Some d => page_word d (i mod words_per_page) | None => 0 end.

(** The ranges of the tree are in order and hold bytes. *)
Record state_ok m : Prop := {
  so_merkle : merkle_ok m;
  so_bytes : forall r p, r ∈ m_merkle_pmas m -> deref_pma m r = Done p -> get_istart_M p = true -> Forall is_byte (host p);
}.

Section image.
Context m (Hok : state_ok m).

Lemma page_at_wf k d : page_at m k = Some d -> length d = Z.to_nat PMA_PAGE_SIZE /\ Forall is_byte d.
Proof.
  intros Hd. apply page_at_some in Hd as (r & p & (Hr & Hp & Hw) & Hd); [|apply Hok].
  destruct (mk_entries _ (so_merkle _ Hok) r Hr) as (p0 & Hp0 & He). rewrite Hp in Hp0. injection Hp0 as <-.
  split; [by apply (page_of_length m p k)|]. pose proof (page_of_peek m p k He Hw) as Hpk. rewrite Hd in Hpk.
  eapply peek_bytes; [|exact Hpk]. intros HM. by eapply (so_bytes _ Hok).
Qed.

Lemma state_image_valid : image_valid (state_image m).
Proof.
  intros i. unfold state_image. destruct (page_at m _) as [d|] eqn:Hd; [|done]. apply page_word_uint. by apply page_at_wf in Hd as [_ ?].
Qed.

(** The words of a leaf are in one page. *)
Lemma leaf_words w j : 0 <= j < 4 -> (4 * w + j) / words_per_page = w / 2 ^ 7 /\ (4 * w + j) mod words_per_page = 4 * (w mod 2 ^ 7) + j.
Proof. unfold words_per_page. change (2 ^ 7) with 128. intros. Z.div_mod_to_equations; lia. Qed.

Lemma state_leaf_data w d : page_at m (w / 2 ^ 7) = Some d -> leaf_data (state_image m) w = Pma.slice (32 * (w mod 2 ^ 7)) 32 d.
Proof.
  intros Hd. pose proof (page_at_wf _ _ Hd) as [Hl Hb]. pose proof (Z.mod_pos_bound w (2 ^ 7) ltac:(done)) as Hm. change (2 ^ 7) with 128 in Hm.
  assert (Z.of_nat (length d) = 4096) by (rewrite Hl; by vm_compute). apply block_leaf; [done|apply Hm|change (2 ^ 7) with 128; lia|].
  intros j Hj. destruct (leaf_words w j Hj) as [E1 E2]. unfold state_image. by rewrite E1, E2, Hd.
Qed.

Lemma state_leaf_image w : state_leaf m w = leaf_hash (state_image m) w.
Proof.
  unfold state_leaf, leaf_hash. destruct (page_at m (w / 2 ^ 7)) as [d|] eqn:Hd; [by rewrite (state_leaf_data w d)|].
  unfold zero_word, pristine_word. f_equal. rewrite (leaf_data_ext _ (fun _ => 0)); [done|].
  intros j Hj. destruct (leaf_words w j Hj) as [E1 _]. unfold state_image. by rewrite E1, Hd.
Qed.

Lemma state_root_image : state_root m = image_root (state_image m).
Proof. apply node_ext. intros. apply state_leaf_image. Qed.
End image.

(** ** Reading a leaf *)

Lemma holds_entry m r p k : merkle_ok m -> holds_page m r p k -> merkle_entry_ok p.
Proof. intros Hok (Hr & Hp & _). destruct (mk_entries _ Hok r Hr) as (q & Hq & He). congruence. Qed.

Lemma slice_of_slice l o n i w : 0 <= o -> 0 <= i -> 0 <= w -> i + w <= n -> Pma.slice (o + i) w l = Pma.slice i w (Pma.slice o n l).
Proof.
  intros. unfold Pma.slice. rewrite Z2Nat.inj_add, <- drop_drop by lia. generalize (drop (Z.to_nat o) l). intros q.
  rewrite !take_drop_commute, take_take. do 2 f_equal. lia.
Qed.

Lemma read_pages_0 fuel m p page shift : read_pages fuel m p page shift 0 = Done [].
Proof. by destruct fuel. Qed.

(** The bytes of a page that the host reads *)
Lemma read_page_bytes m a n k d :
  merkle_ok m -> is_uint 64 a -> 0 < n <= PMA_PAGE_SIZE -> k = a / PMA_PAGE_SIZE -> a mod PMA_PAGE_SIZE + n <= PMA_PAGE_SIZE ->
  page_at m k = Some d -> read_memory m a false n = Done (Pma.slice (a mod PMA_PAGE_SIZE) n d).
Proof.
  intros Hok Ha Hn -> Hin Hd. unfold read_memory. test (n =? 0) is false. cbn [throw_if mbind outcome_bind].
  destruct (find_page_spec m a n Hok Ha) as (r & p & -> & [Hh|[_ E]]); [lia|done| |congruence]. cbn [mbind outcome_bind].
  pose proof (holds_entry _ _ _ _ Hok Hh) as He. pose proof Hh as (_ & _ & Hw). set (k := a / PMA_PAGE_SIZE) in *.
  rewrite (page_at_holds m r p k) in Hd by done. destruct (proof_page_offset p a He Ha Hw) as [-> _].
  destruct (page_offset_in p k He Hw) as [Ho Hal]. pose proof (page_index_in p k He Hw) as Ek. pose proof (me_end _ He). pose proof (me_start _ He).
  assert (a - m_start p = (k * PMA_PAGE_SIZE - m_start p) + a mod PMA_PAGE_SIZE) as Ea by (unfold k; page_lia).
  pose proof (Z.mod_pos_bound a PMA_PAGE_SIZE ltac:(done)) as Hm. destruct (get_istart_M p) eqn:HM.
  - rewrite (memory_page_of m p k He HM Hw) in Hd. injection Hd as <-. pose proof (me_peekable _ He) as Hpk. unfold peekable in Hpk.
    rewrite (me_memory _ He HM) in Hpk. destruct (get_memory_host p Hpk) as (mem & -> & Hmem). cbn [mbind outcome_bind mret outcome_ret]. f_equal.
    rewrite Hmem, Ea. unfold page. rewrite Ek. apply slice_of_slice; lia.
  - assert (uint64 (Z.shiftl (Z.shiftr (a - m_start p) PMA_PAGE_SIZE_LOG2) PMA_PAGE_SIZE_LOG2) = k * PMA_PAGE_SIZE - m_start p) as ->.
    { rewrite Z.shiftr_div_pow2, Z.shiftl_mul_pow2 by done. change (2 ^ PMA_PAGE_SIZE_LOG2) with PMA_PAGE_SIZE.
      rewrite uint_id; [page_lia|unfold is_uint, PMA_PAGE_SIZE in *; Z.div_mod_to_equations; lia]. }
    rewrite Ea, Z.add_simpl_l, (uint_id 64 (a mod PMA_PAGE_SIZE)) by (unfold is_uint, PMA_PAGE_SIZE in *; lia).
    cbn [read_pages]. test (n =? 0) is false. rewrite (uint_id 64 (PMA_PAGE_SIZE - _)) by (unfold is_uint, PMA_PAGE_SIZE in *; lia).
    rewrite Z.min_l, page_of_peek, Hd by (done || lia). cbn [mbind outcome_bind]. rewrite Z.sub_diag.
    change (uint64 0) with 0. rewrite read_pages_0. cbn [mbind outcome_bind mret outcome_ret]. by rewrite app_nil_r.
Qed.

(** The leaf of a word, with the siblings of its proof *)
Lemma leaf_of_spec m a d :
  state_ok m -> hashed m -> is_uint 64 a -> page_at m (a / PMA_PAGE_SIZE) = Some d ->
  leaf_of zero a m = Done (siblings_of (state_image m) 5 (pleaf_aligned a), leaf_data (state_image m) (a / 32)).
Proof.
  intros Hok Hh Ha Hd. pose proof (pleaf_aligned_uint a Ha) as Hp. pose proof (pleaf_aligned_spec a Ha) as Ep.
  unfold leaf_of. change AccessLog.LOG2_WORD_SIZE with 5. rewrite get_proof_skip_spec by (done || apply Hok). change ((5 <=? 5) && (5 <=? 64)) with true.
  assert (pleaf_aligned a mod 2 ^ 5 = 0) as -> by (rewrite Ep, Z.mul_comm; by apply Z.mod_mul). cbn [negb Z.eqb]. rewrite bind_done.
  rewrite (read_page_bytes m _ _ (a / PMA_PAGE_SIZE) d); [|apply Hok|done|done| | |done].
  2, 3: rewrite Ep; unfold PMA_PAGE_SIZE; change tree_word_size with 32; Z.div_mod_to_equations; lia.
  rewrite bind_done. unfold mret, outcome_ret. do 2 f_equal.
  - unfold siblings_of, tree_proof. cbn [m_sibling_hashes]. apply map_ext. intros k. apply node_ext. intros. by apply state_leaf_image.
  - assert (a / 32 / 2 ^ 7 = a / PMA_PAGE_SIZE) as E by (unfold PMA_PAGE_SIZE; by rewrite Z.div_div).
    rewrite (state_leaf_data m Hok (a / 32) d) by (by rewrite E). change tree_word_size with 32. f_equal. rewrite Ep. unfold PMA_PAGE_SIZE. change (2 ^ 7) with 128.
    Z.div_mod_to_equations; lia.
Qed.

(** ** Updating a page *)

Lemma mark_clean_page_done p o : merkle_entry_ok p -> 0 <= o <= m_length p -> exists p', mark_clean_page p o = Done p' /\ same_memory p p'.
Proof.
  intros He Ho. destruct (get_istart_M p) eqn:HM.
  - pose proof (me_peekable _ He) as Hpk. unfold peekable in Hpk. rewrite (me_memory _ He HM) in Hpk.
    destruct (mark_clean_page_spec p o Hpk Ho) as (p' & E & Hs & _). by exists p'.
  - unfold mark_clean_page. rewrite (me_device _ He HM). by exists p.
Qed.

Lemma evolved_some m m' k : merkle_ok m -> evolved m m' -> page_at m' k <> None -> page_at m k <> None.
Proof.
  intros Hok Hev. pose proof (evolved_merkle_ok _ _ Hev Hok) as Hok'. destruct (page_at m' k) as [d|] eqn:Ed; [intros _|done].
  destruct (page_at_some m' k d Hok' Ed) as (r & p' & (Hr & Hp' & Hw) & _). rewrite (ev_refs _ _ Hev) in Hr.
  destruct (mk_entries _ Hok r Hr) as (p & Hp & _). destruct (ev_entries _ _ Hev r p Hr Hp) as (q & Hq & Hs). rewrite Hp' in Hq. injection Hq as <-.
  assert (holds_page m r p k) as Hh by (split; [done|]; split; [done|]; by apply (same_place_within _ _ k Hs)).
  intros E. apply (evolved_null m m' r p p' k Hok Hev Hh Hp' Hs) in E. congruence.
Qed.

(** The tree is right again if no other page changed. *)
Lemma update_page_spec m m' a d :
  merkle_ok m -> hashed m -> evolved m m' -> m_merkle_update_nonce (m_t m) < 2 ^ 64 - 1 -> is_uint 64 a ->
  page_at m' (a / PMA_PAGE_SIZE) = Some d -> (forall k, k <> a / PMA_PAGE_SIZE -> state_hash m' k = state_hash m k) ->
  exists m'', update_merkle_tree_page zero a m' = Done (true, m'') /\ same_contents m' m'' /\ hashed m'' /\
    m_merkle_update_nonce (m_t m'') = m_merkle_update_nonce (m_t m) + 1.
Proof.
  intros Hok [Ht Hnodes] Hev Hno Ha Hd Hother. pose proof (evolved_merkle_ok _ _ Hev Hok) as Hok'. set (k := a / PMA_PAGE_SIZE) in *.
  unfold update_merkle_tree_page. assert (a &ᵇ uint64 (Z.lnot (PMA_PAGE_SIZE - 1)) = k * PMA_PAGE_SIZE) as ->.
  { rewrite land_not_uint by done. change (PMA_PAGE_SIZE - 1) with (2 ^ 12 - 1). rewrite ldiff_low by done. unfold k. change (2 ^ 12) with PMA_PAGE_SIZE. lia. }
  assert (0 <= k < 2 ^ 52 /\ is_uint 64 (k * PMA_PAGE_SIZE)) as [Hk Hka] by (unfold k, is_uint, PMA_PAGE_SIZE in *; Z.div_mod_to_equations; lia).
  destruct (find_page_spec m' (k * PMA_PAGE_SIZE) 8 Hok' Hka) as (r & p & -> & Hcase); [done|by rewrite Z.mod_mul by done|].
  rewrite Z.div_mul in Hcase by done. destruct Hcase as [Hh|[_ E]]; [|congruence]. cbn [mbind outcome_bind].
  pose proof (holds_entry _ _ _ _ Hok' Hh) as He. pose proof Hh as (Hr & Hp & Hw). destruct (page_offset_in p k He Hw) as [Ho Hal].
  pose proof (me_end _ He). pose proof (me_start _ He). rewrite (uint_id 64 (k * PMA_PAGE_SIZE - m_start p)) by (unfold is_uint; lia).
  rewrite (ev_tree _ _ Hev). destruct (begin_update_spec _ _ Ht) as (t1 & Et & Hu & En). rewrite Et.
  rewrite page_of_peek by done. rewrite (page_at_holds m' r p k) in Hd by done. rewrite Hd. cbn [mbind outcome_bind].
  rewrite (page_hash_spec (state_leaf m') k) by (rewrite <- Hd, <- (page_at_holds m' r p k) by done; apply state_page_contents). cbn [mbind outcome_bind].
  rewrite Zplus_minus, uint_id by (unfold is_uint; lia).
  destruct (update_page_node_hash_spec zero _ t1 k (state_hash m' k) Hu Hk) as (t2 & E2 & Hu2 & En2). change (k * 4096) with (k * PMA_PAGE_SIZE) in E2.
  unfold state_hash in E2 at 1. rewrite E2. cbn [mbind outcome_bind negb].
  destruct (mark_clean_page_done p (k * PMA_PAGE_SIZE - m_start p) He) as (p' & -> & Hs); [lia|]. cbn [mbind outcome_bind].
  destruct (end_update_spec _ t2 Hu2) as (t3 & E3 & Ht3 & En3); [lia|]. rewrite E3. cbn [mbind outcome_bind mret outcome_ret].
  assert (same_contents m' (store_pma r p' (set_tree t3 m'))) as Hsc by (etrans; [apply (same_set_tree t3)|by apply (same_store r p)]).
  assert (m_t (store_pma r p' (set_tree t3 m')) = t3) as Et3 by by destruct r.
  exists (store_pma r p' (set_tree t3 m')). split; [done|]. split; [done|]. rewrite Et3, En3, En2, En. split; [|by destruct r].
  apply (hashed_settled _ (update (state_hash m) k (state_hash m' k))); rewrite Et3; [done|]. intros j Hj. apply (settled_same m'); [done|done|].
  destruct (update_page_map zero k _ _ _ _ E2) as [Hnew Hold]. pose proof (end_update_map _ _ _ E3) as Em.
  unfold settled, has_node, get_page_node, update in *. rewrite Em. destruct (Z.eqb_spec j k) as [->|Hne]; [done|].
  split; [by rewrite Hother|]. intros Hsome. apply Hold. unfold begin_update in Et. injection Et as <-. apply Hnodes; [done|].
  by apply (evolved_some m m').
Qed.

(** ** Pages after a change *)

Lemma page_holder m k :
  merkle_ok m -> (exists r p, holds_page m r p k) \/ ((forall r p, ~ holds_page m r p k) /\ page_at m k = None).
Proof.
  intros Hok. unfold page_at, holds_page. generalize (fun x (Hx : x ∈ m_merkle_pmas m) => Hx). generalize (m_merkle_pmas m) at 1 3 4 5.
  intros refs. induction refs as [|x refs IH]; intros Hsub.
  { right. split; [|done]. intros r p (Hr & _). by apply not_elem_of_nil in Hr. }
  destruct (mk_entries _ Hok x (Hsub x (list_elem_of_here _ _))) as (q & Hq & _). cbn [page_among]. rewrite Hq.
  destruct (decide (page_within q k)) as [Hw|Hw]; [left; exists x, q; split; [apply list_elem_of_here|done]|].
  destruct IH as [(r & p & Hr & Hp & Hk)|[Hno E]]; [intros y Hy; apply Hsub; by right| |].
  - left. exists r, p. split; [by right|done].
  - right. split; [|done]. intros r p (Hr & Hp & Hk). apply elem_of_cons in Hr as [->|Hr]; [congruence|]. by apply (Hno r p).
Qed.

(** What holds of the pages of each range, and of those that no range has, holds
    of the pages of the state. *)
Lemma evolved_page m m' k (R : option (list Z) -> option (list Z) -> Prop) :
  merkle_ok m -> evolved m m' ->
  (forall r p p', holds_page m r p k -> deref_pma m' r = Done p' -> same_place p p' -> R (page_of m p k) (page_of m' p' k)) ->
  ((forall r p, ~ holds_page m r p k) -> R None None) ->
  R (page_at m k) (page_at m' k).
Proof.
  intros Hok Hev HR H0. pose proof (evolved_merkle_ok _ _ Hev Hok) as Hok'. destruct (page_holder m k Hok) as [(r & p & Hh)|[Hno ->]].
  - pose proof Hh as (Hr & Hp & Hw). destruct (ev_entries _ _ Hev r p Hr Hp) as (p' & Hp' & Hs).
    pose proof (evolved_holds _ _ _ _ _ _ Hev Hh Hp' Hs) as Hh'. rewrite (page_at_holds m r p k), (page_at_holds m' r p' k) by done. by apply (HR r).
  - destruct (page_holder m' k Hok') as [(r & p' & Hr & Hp' & Hw)|[_ ->]]; [|by apply H0].
    exfalso. rewrite (ev_refs _ _ Hev) in Hr. destruct (mk_entries _ Hok r Hr) as (p & Hp & _).
    destruct (ev_entries _ _ Hev r p Hr Hp) as (q & Hq & Hs). rewrite Hp' in Hq. injection Hq as <-.
    apply (Hno r p). split; [done|]. split; [done|]. by apply (same_place_within _ _ k Hs).
Qed.

(** ** The change of a word *)

Record word_written (a v : Z) m m' : Prop := {
  ww_ok : state_ok m';
  ww_evolved : evolved m m';
  ww_page : is_Some (page_at m' (a / PMA_PAGE_SIZE));
  ww_image : forall i, state_image m' i = image_set a v (state_image m) i;
}.

Lemma word_written_root a v m m' : word_written a v m m' -> state_root m' = image_root (image_set a v (state_image m)).
Proof.
  intros [Hok _ _ Him]. rewrite (state_root_image m' Hok). apply node_ext. intros w _. unfold leaf_hash. f_equal.
  by apply leaf_data_ext.
Qed.

Lemma word_written_others a v m m' k :
  state_ok m -> word_written a v m m' -> k <> a / PMA_PAGE_SIZE -> state_hash m' k = state_hash m k.
Proof.
  intros Hok [Hok' _ _ Him] Hk. apply node_ext. intros w Hw. change (2 ^ Z.of_nat 7) with 128 in Hw.
  rewrite !state_leaf_image by done. unfold leaf_hash. f_equal. apply leaf_data_ext. intros j Hj. rewrite Him. unfold image_set.
  rewrite (proj2 (Z.eqb_neq _ _)); [done|]. unfold PMA_PAGE_SIZE in Hk. Z.div_mod_to_equations; lia.
Qed.

(** The page of the word is updated. *)
Lemma word_written_update a v m m' :
  state_ok m -> hashed m -> is_uint 64 a -> word_written a v m m' -> m_merkle_update_nonce (m_t m) < 2 ^ 64 - 1 ->
  exists m'', update_merkle_tree_page zero a m' = Done (true, m'') /\ same_contents m' m'' /\ hashed m'' /\
    m_merkle_update_nonce (m_t m'') = m_merkle_update_nonce (m_t m) + 1.
Proof.
  intros Hok Hh Ha Hw Hn. pose proof (ww_page _ _ _ _ Hw) as [d Hd]. apply (update_page_spec m m' a d); try done.
  - apply Hok.
  - apply Hw.
  - intros k Hk. by apply (word_written_others a v).
Qed.

(** ** Words of memory *)

Lemma index_in_page a : is_uint 64 a -> a mod 8 = 0 ->
  a / 8 / words_per_page = a / PMA_PAGE_SIZE /\ 8 * ((a / 8) mod words_per_page) = a mod PMA_PAGE_SIZE.
Proof. unfold words_per_page, PMA_PAGE_SIZE, is_uint. intros. Z.div_mod_to_equations; lia. Qed.

Lemma memory_wf_entry p : merkle_entry_ok p -> get_istart_M p = true -> memory_wf p.
Proof. intros He HM. pose proof (me_peekable _ He) as Hpk. unfold peekable in Hpk. by rewrite (me_memory _ He HM) in Hpk. Qed.

Lemma peek_store r p m q o : peek_page (store_pma r p m) q o = peek_page m q o.
Proof.
  assert (forall s, upd_pmas (fun l => l) s = s /\ upd_empty_pma (fun e => e) s = s) as Es by (by intros []).
  assert (forall u, upd_us_shadow_state (fun e => e) u = u /\ upd_us_ram (fun e => e) u = u) as Eu by (by intros []).
  unfold peek_page. destruct m as [[u s c] t l]. pose proof (Es s) as [E1 E2]. pose proof (Eu u) as [E3 E4].
  destruct r as [i| | |]; cbn [store_pma state_of uarch_of set_state set_uarch m_refs m_s m_us].
  - rewrite <- (peek_frame s u (fun l => <[i := p]> l) (fun e => e) (fun e => e) (fun e => e)), E2, E4, E3. done.
  - rewrite <- (peek_frame s u (fun l => l) (fun e => e) (fun _ => p) (fun e => e)), E2, E1, E4. done.
  - rewrite <- (peek_frame s u (fun l => l) (fun e => e) (fun e => e) (fun _ => p)), E2, E1. f_equal.
  - rewrite <- (peek_frame s u (fun l => l) (fun _ => p) (fun e => e) (fun e => e)), E4, E3. f_equal.
Qed.

(** The word [j] of a page of memory *)
Lemma memory_page_word p k j : 0 <= k -> 0 <= j < words_per_page -> page_word (page p k) j = le_val (Pma.slice (k * PMA_PAGE_SIZE + 8 * j) 8 (host p)).
Proof.
  intros Hk Hj. unfold page_word, page, words_per_page, PMA_PAGE_SIZE in *. f_equal. symmetry. apply slice_of_slice; lia.
Qed.

Section memory.
Context m (Hok : state_ok m) (r : merkle_ref) (p : pma_entry) (Hr : r ∈ m_merkle_pmas m) (Hp : deref_pma m r = Done p) (HM : get_istart_M p = true).
Context (a : Z) (Ha : is_uint 64 a) (Hal : a mod 8 = 0) (Hin : m_start p <= a /\ a + 8 <= m_start p + m_length p).

Lemma memory_holds : holds_page m r p (a / PMA_PAGE_SIZE) /\ merkle_entry_ok p.
Proof.
  destruct (mk_entries _ (so_merkle _ Hok) r Hr) as (q & Hq & He). rewrite Hp in Hq. injection Hq as <-. split; [|done].
  split; [done|]. split; [done|]. destruct He. unfold page_within. page_lia.
Qed.

Lemma memory_page : is_Some (page_at m (a / PMA_PAGE_SIZE)).
Proof.
  destruct memory_holds as [Hh He]. rewrite (page_at_holds m r p) by (done || apply Hok). rewrite memory_page_of by (done || apply Hh). by eexists.
Qed.

Lemma memory_word : image_word (state_image m) a = le_val (Pma.slice (a - m_start p) 8 (host p)).
Proof.
  destruct memory_holds as [Hh He]. destruct (index_in_page a Ha Hal) as [E1 E2]. unfold image_word, state_image. rewrite E1.
  rewrite (page_at_holds m r p) by (done || apply Hok). rewrite memory_page_of by (done || apply Hh).
  pose proof (page_index_in p (a / PMA_PAGE_SIZE) He (proj2 (proj2 Hh))) as Ek. destruct (page_offset_in p _ He (proj2 (proj2 Hh))) as [Ho _].
  rewrite memory_page_word; [|unfold PMA_PAGE_SIZE in *; lia|by apply Z.mod_pos_bound]. do 2 f_equal.
  rewrite Ek, E2. page_lia.
Qed.

(** The words of the page that holds the index [i], after the store *)
Lemma stored_page_word p' v i (k := i / words_per_page) :
  is_uint 64 v -> host p' = splice (Z.to_nat (a - m_start p)) (le_bytes 8 v) (host p) ->
  merkle_entry_ok p -> page_within p k -> (k - m_start p / PMA_PAGE_SIZE) * PMA_PAGE_SIZE = k * PMA_PAGE_SIZE - m_start p ->
  page_word (page p' (k - m_start p / PMA_PAGE_SIZE)) (i mod words_per_page) =
  if i =? a / 8 then v else page_word (page p (k - m_start p / PMA_PAGE_SIZE)) (i mod words_per_page).
Proof.
  intros Hv Hh' He Hw Ek. pose proof (wf_host _ (memory_wf_entry p He HM)) as Hlen. destruct (page_offset_in p k He Hw) as [Ho _].
  pose proof (Z.mod_pos_bound i words_per_page ltac:(done)) as Hj. rewrite !memory_page_word by (done || (unfold PMA_PAGE_SIZE in *; lia)).
  rewrite Ek. replace (k * PMA_PAGE_SIZE - m_start p + 8 * (i mod words_per_page)) with (8 * i - m_start p)
    by (unfold k, words_per_page, PMA_PAGE_SIZE; Z.div_mod_to_equations; lia).
  assert (m_start p <= 8 * i) by (unfold k, words_per_page, PMA_PAGE_SIZE in *; Z.div_mod_to_equations; lia).
  unfold Pma.slice. change (Z.to_nat 8) with 8%nat. rewrite Hh'. destruct (Z.eqb_spec i (a / 8)) as [Ei|Hne].
  - replace (8 * i) with a by (rewrite Ei; Z.div_mod_to_equations; lia).
    pose proof (splice_read (Z.to_nat (a - m_start p)) (le_bytes 8 v) (host p)) as Hrd. rewrite length_le_bytes in Hrd.
    rewrite Hrd by lia. rewrite le_val_le_bytes. by apply uint_id.
  - f_equal. apply splice_read_ne; rewrite length_le_bytes; [lia|]. Z.div_mod_to_equations; lia.
Qed.

(** A word stored in a range of memory *)
Lemma memory_written p' v :
  same_place p p' -> is_uint 64 v -> host p' = splice (Z.to_nat (a - m_start p)) (le_bytes 8 v) (host p) ->
  word_written a v m (store_pma r p' m).
Proof.
  intros Hs Hv Hh'. destruct memory_holds as [Hh He]. pose proof (memory_wf_entry p He HM) as Hwf. pose proof (wf_host _ Hwf) as Hlen.
  assert (forall r', deref_pma (store_pma r p' m) r' = if decide (r' = r) then Done p' else deref_pma m r') as Hder by (intros; by apply deref_store with p).
  assert (evolved m (store_pma r p' m)) as Hev.
  { split; [by destruct r..|]. intros r' q Hr' Hq. rewrite Hder. case_decide as E; [|exists q; split; [done|]; apply same_place_refl;
      destruct (mk_entries _ (so_merkle _ Hok) r' Hr') as (q' & Hq' & He'); congruence].
    subst r'. exists p'. split; [done|]. congruence. }
  split; [|done| |].
  - split; [by apply (evolved_merkle_ok m), Hok|]. intros r' q Hr' Hq HMq. rewrite (ev_refs _ _ Hev) in Hr'. rewrite Hder in Hq. case_decide; [|by apply (so_bytes _ Hok r' q)].
    injection Hq as <-. rewrite Hh'. apply splice_bytes; [apply le_bytes_bytes|by apply (so_bytes _ Hok r p)].
  - pose proof (evolved_holds _ _ _ _ p' _ Hev Hh) as Hh2. rewrite Hder, decide_True in Hh2 by done. specialize (Hh2 eq_refl Hs).
    rewrite (page_at_holds _ r p') by (done || by apply (evolved_merkle_ok m), Hok). pose proof (same_place_ok _ _ Hs He).
    rewrite memory_page_of; [by eexists|done|by rewrite (sp_M _ _ Hs)|apply Hh2].
  - intros i. unfold image_set, state_image.
    pose (R := fun o o' : option (list Z) => match o' with Some d => page_word d (i mod words_per_page) | None => 0 end =
      if i =? a / 8 then v else match o with Some d => page_word d (i mod words_per_page) | None => 0 end).
    apply (evolved_page m (store_pma r p' m) (i / words_per_page) R); [apply Hok|done| |].
    + intros r' q q' Hhq Hq' Hsq. unfold R. pose proof Hhq as (Hr' & Hq & Hwq). rewrite Hder in Hq'. case_decide as E.
      * injection Hq' as <-. subst r'. rewrite Hp in Hq. injection Hq as <-. rewrite !memory_page_of by (done || (by apply (same_place_ok p)) || (by rewrite (sp_M _ _ Hs)) || by apply (same_place_within p)).
        rewrite (sp_start _ _ Hs). apply stored_page_word; [done..|by apply page_index_in].
      * rewrite Hq in Hq'. injection Hq' as <-. unfold page_of. rewrite peek_store. fold (page_of m q (i / words_per_page)).
        destruct (Z.eqb_spec i (a / 8)) as [Ei|]; [|done]. exfalso. apply E. destruct (index_in_page a Ha Hal) as [E1 _]. rewrite Ei, E1 in Hwq.
        eapply (mk_disjoint _ (so_merkle _ Hok)); [exact Hr'|exact Hr|exact Hq|exact Hp|exact Hwq|apply Hh].
    + intros Hno. unfold R. destruct (Z.eqb_spec i (a / 8)) as [Ei|]; [|done]. exfalso. destruct (index_in_page a Ha Hal) as [E1 _].
      rewrite Ei, E1 in Hno. by apply (Hno r p).
Qed.
End memory.

(** ** Words of shadows *)

#[export] Instance pma_peek_eq_dec : EqDecision pma_peek.
Proof. solve_decision. Defined.

(** The word of the shadow at an offset, as its callback gives it *)
Definition shadow_words (cb : pma_peek) (len : Z) (s : machine_state) (u : uarch_state) (W : Z -> Z) : Prop :=
  forall p o, m_peek p = cb -> m_length p = len -> 0 <= o < len -> o mod PMA_PAGE_SIZE = 0 ->
    exists d, peek s u p o = Done (Some (Some d)) /\ forall j, 0 <= j < words_per_page -> page_word d j = W (o + 8 * j).

(** The shadow is a range of the tree, at its address. *)
Record placed m (cb : pma_peek) (start len : Z) : Prop := {
  pl_entry : exists r p, r ∈ m_merkle_pmas m /\ deref_pma m r = Done p /\ m_peek p = cb;
  pl_place : forall r p, r ∈ m_merkle_pmas m -> deref_pma m r = Done p -> m_peek p = cb -> m_start p = start /\ m_length p = len;
}.

Section shadow.
Context m (Hok : state_ok m) (cb : pma_peek) (start len : Z) (Hpl : placed m cb start len).
Context (W : Z -> Z) (HW : shadow_words cb len (state_of m) (uarch_of m) W).

(** The pages of the shadow *)
Lemma shadow_page r p k :
  holds_page m r p k -> m_peek p = cb ->
  exists d, page_of m p k = Some d /\ forall j, 0 <= j < words_per_page -> page_word d j = W (8 * (k * words_per_page + j) - start).
Proof.
  intros Hh Hcb. pose proof (holds_entry _ _ _ _ (so_merkle _ Hok) Hh) as He. pose proof Hh as (Hr & Hp & Hw).
  destruct (pl_place _ _ _ _ Hpl r p Hr Hp Hcb) as [Es El]. destruct (page_offset_in p k He Hw) as [Ho Hal]. rewrite El in Ho.
  destruct (HW p _ Hcb El Ho Hal) as (d & Ed & Hd). exists d. unfold page_of, peek_page. rewrite Ed. split; [done|].
  intros j Hj. rewrite Hd by done. f_equal. rewrite Es. unfold words_per_page, PMA_PAGE_SIZE. lia.
Qed.

Context (o : Z) (Ho : 0 <= o < len) (Hal : o mod 8 = 0).

Lemma shadow_holds : exists r p, holds_page m r p ((start + o) / PMA_PAGE_SIZE) /\ m_peek p = cb /\ is_uint 64 (start + o) /\ (start + o) mod 8 = 0.
Proof.
  destruct (pl_entry _ _ _ _ Hpl) as (r & p & Hr & Hp & Hcb). destruct (pl_place _ _ _ _ Hpl r p Hr Hp Hcb) as [Es El].
  destruct (mk_entries _ (so_merkle _ Hok) r Hr) as (q & Hq & He). rewrite Hp in Hq. injection Hq as <-. destruct He.
  exists r, p. split; [split; [done|split; [done|]]|split; [done|split]].
  - unfold page_within, PMA_PAGE_SIZE in *. Z.div_mod_to_equations; lia.
  - unfold is_uint. lia.
  - unfold PMA_PAGE_SIZE in *. Z.div_mod_to_equations; lia.
Qed.

Lemma shadow_word : is_Some (page_at m ((start + o) / PMA_PAGE_SIZE)) /\ image_word (state_image m) (start + o) = W o.
Proof.
  destruct shadow_holds as (r & p & Hh & Hcb & Ha & Haal). destruct (shadow_page r p _ Hh Hcb) as (d & Ed & Hd).
  destruct (index_in_page _ Ha Haal) as [E1 E2]. unfold image_word, state_image. rewrite E1, (page_at_holds m r p), Ed by (done || apply Hok).
  split; [by eexists|]. rewrite Hd by (by apply Z.mod_pos_bound). f_equal. unfold words_per_page, PMA_PAGE_SIZE in *. Z.div_mod_to_equations; lia.
Qed.

End shadow.

(** A word of the shadow changes, and nothing that the other callbacks read. *)
Lemma shadow_written m m' cb start len W W' o v :
  state_ok m -> placed m cb start len -> shadow_words cb len (state_of m) (uarch_of m) W ->
  m_t m' = m_t m -> m_merkle_pmas m' = m_merkle_pmas m -> (forall r, deref_pma m' r = deref_pma m r) ->
  shadow_words cb len (state_of m') (uarch_of m') W' -> 0 <= o < len -> o mod 8 = 0 ->
  (forall x, 0 <= x < len -> x mod 8 = 0 -> W' x = if x =? o then v else W x) ->
  (forall p x, m_peek p <> cb -> peek_page m' p x = peek_page m p x) ->
  word_written (start + o) v m m'.
Proof.
  intros Hok Hpl HW Ht Hrefs Hder HW' Ho Hal Hone Hother.
  assert (evolved m m') as Hev.
  { split; [done..|]. intros r p Hr Hp. exists p. split; [by rewrite Hder|]. apply same_place_refl.
    destruct (mk_entries _ (so_merkle _ Hok) r Hr) as (q & Hq & He). congruence. }
  pose proof (evolved_merkle_ok _ _ Hev (so_merkle _ Hok)) as Hok'.
  assert (state_ok m') as Hok2 by (split; [done|]; intros r p; rewrite Hrefs, Hder; apply (so_bytes _ Hok)).
  assert (placed m' cb start len) as Hpl'.
  { destruct Hpl as [(r & p & Hr & Hp & Hcb) Hplace]. split; [exists r, p; by rewrite Hrefs, Hder|]. intros r' p'. rewrite Hrefs, Hder. apply Hplace. }
  destruct (shadow_holds m Hok cb start len Hpl o Ho Hal) as (r0 & p0 & Hh0 & Hcb0 & Ha & Haal). destruct (index_in_page _ Ha Haal) as [E1 _].
  split; [done|done|by apply (shadow_word m' Hok2 cb start len Hpl' W' HW' o)|].
  intros i. unfold image_set, state_image.
  pose (R := fun d d' : option (list Z) => match d' with Some d => page_word d (i mod words_per_page) | None => 0 end =
    if i =? (start + o) / 8 then v else match d with Some d => page_word d (i mod words_per_page) | None => 0 end).
  apply (evolved_page m m' (i / words_per_page) R); [apply Hok|done| |].
  - intros r p p' Hh Hp' Hs. unfold R. pose proof Hh as (Hr & Hp & Hw). rewrite Hder, Hp in Hp'. injection Hp' as <-.
    destruct (decide (m_peek p = cb)) as [Hcb|Hcb].
    + destruct (shadow_page m Hok cb start len Hpl W HW r p _ Hh Hcb) as (d & -> & Hd).
      assert (holds_page m' r p (i / words_per_page)) as Hh' by (split; [by rewrite Hrefs|]; split; [by rewrite Hder|done]).
      destruct (shadow_page m' Hok2 cb start len Hpl' W' HW' r p _ Hh' Hcb) as (d' & -> & Hd').
      pose proof (Z.mod_pos_bound i words_per_page ltac:(done)) as Hj. rewrite Hd, Hd' by done.
      destruct (pl_place _ _ _ _ Hpl r p Hr Hp Hcb) as [Es El]. destruct (holds_entry _ _ _ _ (so_merkle _ Hok) Hh) as [Hs0 Hs1 Hs2 _ _ _ _ _ _].
      assert (0 <= 8 * i - start < len /\ (8 * i - start) mod 8 = 0) as [Hx1 Hx2].
      { rewrite <- Es, <- El. clear - Hw Hs0 Hs1 Hs2. unfold page_within, words_per_page, PMA_PAGE_SIZE in *. Z.div_mod_to_equations; lia. }
      replace (8 * (i / words_per_page * words_per_page + i mod words_per_page) - start) with (8 * i - start) by (clear; unfold words_per_page; Z.div_mod_to_equations; lia).
      rewrite Hone by done. clear - Haal. destruct (Z.eqb_spec (8 * i - start) o), (Z.eqb_spec i ((start + o) / 8)); try done; exfalso; Z.div_mod_to_equations; lia.
    + unfold page_of. rewrite Hother by done. destruct (Z.eqb_spec i ((start + o) / 8)) as [Ei|]; [|done]. exfalso. apply Hcb.
      rewrite Ei, E1 in Hh. destruct Hh0 as (Hr0 & Hp0 & Hw0). destruct Hh as (_ & _ & Hw1).
      assert (r = r0) as -> by exact (mk_disjoint _ (so_merkle _ Hok) r r0 p p0 _ Hr Hr0 Hp Hp0 Hw1 Hw0). congruence.
  - intros Hno. unfold R. destruct (Z.eqb_spec i ((start + o) / 8)) as [Ei|]; [|done]. exfalso. rewrite Ei, E1 in Hno. by apply (Hno r0 p0).
Qed.

End words.

(** ** The callbacks of the shadows *)

Lemma page_word_splice d k v j :
  0 <= k -> 0 <= j -> 8 * k + 8 <= Z.of_nat (length d) ->
  page_word (splice (Z.to_nat (8 * k)) (le_bytes 8 v) d) j = if j =? k then uint64 v else page_word d j.
Proof.
  intros Hk Hj Hl. unfold page_word, Pma.slice. change (Z.to_nat 8) with 8%nat. destruct (Z.eqb_spec j k) as [->|Hne].
  - pose proof (splice_read (Z.to_nat (8 * k)) (le_bytes 8 v) d) as Hr. rewrite length_le_bytes in Hr. rewrite Hr by lia. apply le_val_le_bytes.
  - f_equal. apply splice_read_ne; rewrite length_le_bytes; lia.
Qed.

(** The value of a field of the structures of registers *)
Definition field_value (value : machine_reg -> outcome Z) (r : machine_reg) : Z :=
  match value r with Done v => uint64 v | Exn _ => 0 end.

Lemma copy_fields_words value l i scratch page j :
  0 <= i -> 0 <= j -> 8 * (i + Z.of_nat (length l)) <= Z.of_nat (length scratch) -> copy_fields value l i scratch = Done page ->
  page_word page j = match (if i <=? j then l !! Z.to_nat (j - i) else None) with
                     | Some r => field_value value r
                     | None => page_word scratch j
                     end.
Proof.
  intros Hi Hj. revert i scratch Hi. induction l as [|r l IH]; intros i scratch Hi Hl E; cbn [copy_fields length] in *.
  { injection E as <-. by destruct (i <=? j). }
  destruct (value r) as [v|] eqn:Ev; cbn [mbind outcome_bind] in E; [|done].
  assert (length (splice (Z.to_nat (8 * i)) (le_bytes 8 v) scratch) = length scratch) as Ls by (apply length_splice; rewrite length_le_bytes; lia).
  rewrite (IH (i + 1) _ ltac:(lia) ltac:(rewrite Ls; lia) E), page_word_splice by lia.
  destruct (Z.eqb_spec j i) as [->|Hne].
  - test (i + 1 <=? i) is false. test (i <=? i) is true. rewrite Z.sub_diag. change ((r :: l) !! Z.to_nat 0) with (Some r). cbv iota. unfold field_value. by rewrite Ev.
  - destruct (Z.leb_spec i j).
    + test (i + 1 <=? j) is true. replace (Z.to_nat (j - i)) with (S (Z.to_nat (j - (i + 1)))) by lia. done.
    + test (i + 1 <=? j) is false. done.
Qed.

Lemma clear_page_word j : 0 <= j -> page_word clear_page j = 0.
Proof.
  intros Hj. unfold page_word, clear_page, Pma.slice. rewrite drop_replicate, take_replicate. generalize (Z.to_nat 8 `min` (Z.to_nat PMA_PAGE_SIZE - Z.to_nat (8 * j)))%nat.
  intros n. induction n as [|n IH]; [done|]. change (0 + 256 * le_val (replicate n 0) = 0). by rewrite IH.
Qed.

(** The word of a structure of registers at an offset *)
Definition reg_words (l : list machine_reg) (s : machine_state) (u : uarch_state) (o : Z) : Z :=
  match l !! Z.to_nat (o / 8) with Some r => field_value (fun r => read_reg s u (reg_stored r)) r | None => 0 end.

Lemma copied_fields l s u :
  (length l <= 512)%nat -> exists d, copy_fields (fun r => read_reg s u (reg_stored r)) l 0 clear_page = Done d /\
    forall j, 0 <= j < words_per_page -> page_word d j = reg_words l s u (8 * j).
Proof.
  intros Hl. assert (Z.of_nat (length clear_page) = 4096) as Lc by (unfold clear_page; rewrite length_replicate; by vm_compute).
  destruct (copy_fields_done (fun r => read_reg s u (reg_stored r)) l 0 clear_page) as (d & E & _); [apply read_reg_total|done|lia|].
  exists d. split; [done|]. intros j Hj. rewrite (copy_fields_words (fun r => read_reg s u (reg_stored r)) l 0 clear_page d j) by (done || lia).
  test (0 <=? j) is true. rewrite Z.sub_0_r. unfold reg_words. rewrite Z.mul_comm, Z.div_mul by done. destruct (l !! Z.to_nat j); [done|]. apply clear_page_word. lia.
Qed.

Lemma shadow_state_words s u : shadow_words shadow_state_peek_cb PMA_PAGE_SIZE s u (reg_words shadow_state s u).
Proof.
  intros p o Hcb _ Ho Hal. assert (o = 0) as -> by (rewrite Z.mod_small in Hal by done; done). unfold peek. rewrite Hcb. unfold shadow_state_peek.
  destruct (copied_fields shadow_state s u) as (d & E & Hd); [vm_compute; lia|]. change (negb (0 =? 0)) with false. cbv iota. rewrite E. by exists d.
Qed.

Lemma shadow_uarch_words s u : shadow_words shadow_uarch_state_peek_cb PMA_PAGE_SIZE s u (reg_words shadow_uarch_state s u).
Proof.
  intros p o Hcb _ Ho Hal. assert (o = 0) as -> by (rewrite Z.mod_small in Hal by done; done). unfold peek. rewrite Hcb. unfold shadow_uarch_state_peek.
  destruct (copied_fields shadow_uarch_state s u) as (d & E & Hd); [vm_compute; lia|]. change (negb (0 =? 0)) with false. cbv iota. rewrite E. by exists d.
Qed.

Lemma tlb_words_word s o n off j :
  0 <= j < Z.of_nat n -> page_word (tlb_words s o n off) j = uint64 (tlb_word s (o + off + 8 * j)).
Proof.
  revert off j. induction n as [|n IH]; intros off j Hj; [lia|]. cbn [tlb_words]. unfold page_word, Pma.slice. change (Z.to_nat 8) with 8%nat.
  destruct (Z.eqb_spec j 0) as [->|Hne].
  - cbn [Z.mul Z.to_nat]. rewrite drop_0, take_app_length' by by rewrite length_le_bytes. rewrite le_val_le_bytes. by rewrite Z.add_0_r.
  - rewrite drop_app_ge by (rewrite length_le_bytes; lia). rewrite length_le_bytes.
    replace (Z.to_nat (8 * j) - 8)%nat with (Z.to_nat (8 * (j - 1))) by lia. specialize (IH (off + 8) (j - 1) ltac:(lia)).
    unfold page_word, Pma.slice in IH. change (Z.to_nat 8) with 8%nat in IH. rewrite IH. do 2 f_equal. lia.
Qed.

Lemma shadow_tlb_words s u : shadow_words shadow_tlb_peek_cb PMA_SHADOW_TLB_LENGTH s u (fun o => uint64 (tlb_word s o)).
Proof.
  intros p o Hcb Hl Ho Hal. unfold peek. rewrite Hcb. unfold shadow_tlb_peek. rewrite Hal, Hl. test (PMA_SHADOW_TLB_LENGTH <=? o) is false.
  cbn [Z.eqb negb orb]. eexists. split; [reflexivity|]. intros j Hj. rewrite tlb_words_word by done. do 2 f_equal. lia.
Qed.
