(* ===== verification/Loggable.v ===== *)
(** * Machines whose steps can be logged

    The words that the microarchitecture reads and writes - its registers, those of
    the machine and the fields of the translation cache behind the bridge, and the
    memory - are words of the image of a loggable machine, and a write changes the
    word at its address and no other.  The dirty maps do not matter. *)

From S2P Require Import Prelude CppInt Constants UarchAccess UarchStep Bytes Pma PmaSpec MachineState UarchBridge UarchBridgeSpec UarchState UarchStateSpec Hasher MerkleProof AccessLog UarchReplay StateImage UarchReplaySpec MachineMerkleTree MachineRegs Machine MachinePages MachineHash MachineAnswers UarchRecord UarchTyped StateWords.

(** ** The shadow of a register *)

(** The callback, the address and the fields of the shadow that has a register *)
Definition reg_home (r : machine_reg) : pma_peek * Z * list machine_reg :=
  match field_index r shadow_state with
  | Some _ => (shadow_state_peek_cb, PMA_SHADOW_STATE_START, shadow_state)
  | None => (shadow_uarch_state_peek_cb, PMA_SHADOW_UARCH_STATE_START, shadow_uarch_state)
  end.

Lemma field_index_none r l : field_index r l = None -> r ∉ l.
Proof.
  induction l as [|q l IH]; cbn; intros E; [apply not_elem_of_nil|]. case_bool_decide as Hq; [done|].
  apply not_elem_of_cons. split; [congruence|]. apply IH. by destruct (field_index r l).
Qed.

Lemma reg_home_spec r cb start l :
  reg_home r = (cb, start, l) ->
  exists i, l !! i = Some r /\ machine_reg_address r = start + 8 * Z.of_nat i /\ (length l <= 512)%nat /\ NoDup l /\
    ((cb = shadow_state_peek_cb /\ l = shadow_state) \/ (cb = shadow_uarch_state_peek_cb /\ l = shadow_uarch_state)).
Proof.
  intros E. unfold reg_home, machine_reg_address in *.
  assert (NoDup shadow_state /\ NoDup shadow_uarch_state) as [N1 N2].
  { pose proof machine_regs_nodup as Hn. unfold machine_regs in Hn. by apply NoDup_app in Hn as (? & _ & ?). }
  destruct (field_index r shadow_state) as [i|] eqn:Ei.
  - injection E as <- <- <-. apply field_index_lookup in Ei as [Hi Hl]. exists (Z.to_nat i). rewrite Z2Nat.id by done.
    split; [done|]. split; [done|]. split; [vm_compute; lia|]. split; [done|by left].
  - injection E as <- <- <-. destruct (field_index r shadow_uarch_state) as [i|] eqn:Eu.
    + apply field_index_lookup in Eu as [Hi Hl]. exists (Z.to_nat i). cbn [default from_option id]. rewrite Z2Nat.id by done.
      split; [done|]. split; [done|]. split; [vm_compute; lia|]. split; [done|by right].
    + exfalso. destruct (machine_regs_position r) as (i & _ & Hi). apply list_elem_of_lookup_2 in Hi. unfold machine_regs in Hi.
      apply elem_of_app in Hi as [Hi|Hi]; [by apply (field_index_none _ _ Ei)|by apply (field_index_none _ _ Eu)].
Qed.

Lemma reg_home_words r cb start l s u : reg_home r = (cb, start, l) -> shadow_words cb PMA_PAGE_SIZE s u (reg_words l s u).
Proof.
  intros E. destruct (reg_home_spec _ _ _ _ E) as (_ & _ & _ & _ & _ & [[-> ->]|[-> ->]]); [apply shadow_state_words|apply shadow_uarch_words].
Qed.

(** A register that changes is one word of its shadow. *)
Definition reg_changed (r : machine_reg) (v : Z) (s : machine_state) (u : uarch_state) (s' : machine_state) (u' : uarch_state) : Prop :=
  forall q, read_reg s' u' (reg_stored q) = if decide (q = r) then Done v else read_reg s u (reg_stored q).

Lemma reg_words_changed r v s u s' u' l i x :
  reg_changed r v s u s' u' -> is_uint 64 v -> NoDup l -> l !! i = Some r -> 0 <= x -> x mod 8 = 0 ->
  reg_words l s' u' x = if x =? 8 * Z.of_nat i then v else reg_words l s u x.
Proof.
  intros Hc Hv Hn Hi Hx Hal. unfold reg_words. destruct (l !! Z.to_nat (x / 8)) as [q|] eqn:Eq.
  - unfold field_value. rewrite Hc. destruct (Z.eqb_spec x (8 * Z.of_nat i)) as [->|Hne].
    + rewrite Z.mul_comm, Z.div_mul, Nat2Z.id, Hi in Eq by done. injection Eq as <-. rewrite decide_True by done. by apply uint_id.
    + rewrite decide_False; [done|]. intros ->. pose proof (NoDup_lookup _ _ _ _ Hn Eq Hi) as Ei. apply Hne. Z.div_mod_to_equations; lia.
  - destruct (Z.eqb_spec x (8 * Z.of_nat i)) as [->|]; [|done]. by rewrite Z.mul_comm, Z.div_mul, Nat2Z.id, Hi in Eq by done.
Qed.

(** The other callbacks read other things. *)
Lemma copy_fields_ext_in value value' l i scratch :
  (forall r, r ∈ l -> value r = value' r) -> copy_fields value l i scratch = copy_fields value' l i scratch.
Proof.
  revert i scratch. induction l as [|r l IH]; intros i scratch Hv; cbn; [done|].
  rewrite Hv by apply list_elem_of_here. destruct (value' r); cbn; [|done]. apply IH. intros q Hq. apply Hv. by right.
Qed.

Lemma reg_changed_peek r v s u s' u' cb start l p x :
  reg_home r = (cb, start, l) -> reg_changed r v s u s' u' -> s_tlb s' = s_tlb s -> m_peek p <> cb -> peek s' u' p x = peek s u p x.
Proof.
  intros Hh Hc Ht Hcb. assert (forall q, q <> r -> read_reg s' u' (reg_stored q) = read_reg s u (reg_stored q)) as Hq.
  { intros q Hq. by rewrite Hc, decide_False. }
  pose proof machine_regs_nodup as Hd. unfold machine_regs in Hd. apply NoDup_app in Hd as (_ & Hd & _).
  unfold peek, shadow_state_peek, shadow_uarch_state_peek.
  assert (forall o n k, tlb_words s' o n k = tlb_words s o n k) as Hw.
  { intros o n. induction n as [|n IH]; intros k; cbn [tlb_words]; [done|]. rewrite IH. unfold tlb_word. by rewrite Ht. }
  destruct (reg_home_spec _ _ _ _ Hh) as (i & Hi & _ & _ & _ & Hcase). apply list_elem_of_lookup_2 in Hi.
  destruct (m_peek p); [reflexivity|reflexivity|reflexivity|reflexivity|reflexivity| | |].
  - destruct (negb _); [done|]. erewrite copy_fields_ext_in; [done|]. intros q Hin. apply Hq. intros ->.
    destruct Hcase as [[-> _]|[_ ->]]; [done|]. by apply (Hd r Hin).
  - unfold shadow_tlb_peek. by rewrite Hw.
  - destruct (negb _); [done|]. erewrite copy_fields_ext_in; [done|]. intros q Hin. apply Hq. intros ->.
    destruct Hcase as [[_ ->]|[-> _]]; [|done]. by apply (Hd r).
Qed.

(** ** Machines whose steps can be logged *)

Definition mref (ref : pma_ref) : merkle_ref := match ref with ref_ram => merkle_uarch_ram | ref_pmas i => merkle_pmas i end.

(** The addresses of the shadow of the memory map, which the bridge can read too *)
Definition in_shadow_pmas (a : Z) : Prop := PMA_SHADOW_PMAS_START <= a < PMA_SHADOW_PMAS_START + PMA_MAX * PMA_WORD_SIZE * 2.

Section loggable.
Context `{i_hasher} (zero : hash_type).
Implicit Types (m : machine).

(** The memory of the microarchitecture is in the tree, and so are the shadows, at
    their addresses; that of the memory map is memory. *)
Record loggable m : Prop := {
  lg_state : state_ok m;
  lg_memory : memory_valid (memory_of (m_refs m));
  lg_x : length (us_x (uarch_of m)) = 32%nat;
  lg_uarch : forall r v, r ∈ shadow_uarch_state -> read_reg (state_of m) (uarch_of m) (reg_stored r) = Done v -> is_uint 64 v;
  lg_shadow_state : placed m shadow_state_peek_cb PMA_SHADOW_STATE_START PMA_PAGE_SIZE;
  lg_shadow_uarch : placed m shadow_uarch_state_peek_cb PMA_SHADOW_UARCH_STATE_START PMA_PAGE_SIZE;
  lg_shadow_tlb : placed m shadow_tlb_peek_cb PMA_SHADOW_TLB_START PMA_SHADOW_TLB_LENGTH;
  lg_ranges : forall ref p, UarchState.deref (memory_of (m_refs m)) ref = Some p -> get_istart_M p = true -> mref ref ∈ m_merkle_pmas m;
  lg_pmas : forall a, in_shadow_pmas a -> exists ref p, memory_pma (memory_of (m_refs m)) a = Done (ref, p) /\ get_istart_E p = false;
}.

Lemma mref_deref m ref p : UarchState.deref (memory_of (m_refs m)) ref = Some p <-> deref_pma m (mref ref) = Done p.
Proof. unfold deref_pma, state_of, uarch_of. destruct ref as [|i]; cbn; [split; congruence|]. destruct (s_pmas (m_s (m_refs m)) !! i); split; congruence. Qed.

Lemma mref_store m ref p : set_refs (set_memory (store_ref ref p (memory_of (m_refs m))) (m_refs m)) m = store_pma (mref ref) p m.
Proof. destruct m as [[[] s c] t l]. by destruct ref. Qed.

(** ** Registers *)

Lemma placed_home m r cb start l : loggable m -> reg_home r = (cb, start, l) -> placed m cb start PMA_PAGE_SIZE.
Proof.
  intros Hm E. unfold reg_home in E. destruct (field_index r shadow_state); injection E as <- <- <-; [apply lg_shadow_state|apply lg_shadow_uarch]; done.
Qed.

(** The word of the image at the address of a register *)
Lemma register_word m r v :
  loggable m -> read_reg (state_of m) (uarch_of m) (reg_stored r) = Done v -> is_uint 64 v ->
  is_Some (page_at m (machine_reg_address r / PMA_PAGE_SIZE)) /\ image_word (state_image m) (machine_reg_address r) = v.
Proof.
  intros Hm Hr Hv. destruct (reg_home r) as [[cb start] l] eqn:Eh. pose proof (placed_home m r _ _ _ Hm Eh) as Hpl.
  destruct (reg_home_spec _ _ _ _ Eh) as (i & Hi & -> & Hl & _). pose proof (lookup_lt_Some _ _ _ Hi).
  destruct (shadow_word m (lg_state _ Hm) cb start PMA_PAGE_SIZE Hpl _ (reg_home_words r cb start l _ _ Eh) (8 * Z.of_nat i)) as [Hp ->];
    [unfold PMA_PAGE_SIZE; lia|by rewrite Z.mul_comm, Z.mod_mul|]. split; [done|].
  unfold reg_words. rewrite Z.mul_comm, Z.div_mul, Nat2Z.id, Hi by done. unfold field_value. rewrite Hr. by apply uint_id.
Qed.

Lemma register_written m m' r v :
  loggable m -> m_t m' = m_t m -> m_merkle_pmas m' = m_merkle_pmas m -> (forall x, deref_pma m' x = deref_pma m x) ->
  reg_changed r v (state_of m) (uarch_of m) (state_of m') (uarch_of m') -> is_uint 64 v -> s_tlb (state_of m') = s_tlb (state_of m) ->
  word_written (machine_reg_address r) v m m'.
Proof.
  intros Hm Ht Hrefs Hder Hc Hv Htlb. destruct (reg_home r) as [[cb start] l] eqn:Eh. pose proof (placed_home m r _ _ _ Hm Eh) as Hpl.
  destruct (reg_home_spec _ _ _ _ Eh) as (i & Hi & -> & Hl & Hn & _). pose proof (lookup_lt_Some _ _ _ Hi).
  eapply (shadow_written m m' cb start PMA_PAGE_SIZE _ _ (8 * Z.of_nat i)); [apply Hm|done|exact (reg_home_words r cb start l _ _ Eh)|done|done|done|exact (reg_home_words r cb start l _ _ Eh)| | | |].
  - unfold PMA_PAGE_SIZE; lia.
  - by rewrite Z.mul_comm, Z.mod_mul.
  - intros x Hx Hal. apply (reg_words_changed r); (done || lia).
  - intros p x Hcb. by apply (reg_changed_peek r v _ _ _ _ cb start l).
Qed.
(** The host address that goes with a write entry is not in the image. *)
Lemma tlb_word_field s x :
  0 <= x < PMA_SHADOW_TLB_LENGTH -> x mod 8 = 0 ->
  tlb_word s x = match tlb_field (PMA_SHADOW_TLB_START + x) with
                 | Some (h, e, i, f) => default 0 (read_tlb_entry_field s h e i f)
                 | None => 0
                 end.
Proof.
  intros Hx Hal. assert (exists e i f, tlb_field (PMA_SHADOW_TLB_START + x) = Some (x <? offsetof_cold, e, i, f) /\
    tlb_word s x = if x <? offsetof_cold then (if f =? offsetof_vaddr_page then vaddr_page (get_hot (s_tlb s) e i) else 0)
                   else if f =? offsetof_paddr_page then paddr_page (get_cold (s_tlb s) e i)
                   else if f =? offsetof_pma_index then pma_index (get_cold (s_tlb s) e i) else 0) as (e & i & f & E & ->).
  { unfold tlb_field. replace (_ || _) with false by (symmetry; apply orb_false_iff; split; lia).
    replace ((PMA_SHADOW_TLB_START + x) mod 8 =? 0) with true by (symmetry; apply Z.eqb_eq; rewrite <- Hal; unfold PMA_SHADOW_TLB_START; Z.div_mod_to_equations; lia).
    cbn [negb]. replace (PMA_SHADOW_TLB_START + x - PMA_SHADOW_TLB_START) with x by lia. unfold tlb_word.
    destruct (x <? offsetof_cold); [by eexists _, _, _|]. replace (x <? sizeof_shadow_tlb_state) with true by (symmetry; apply Z.ltb_lt; apply Hx). by eexists _, _, _. }
  rewrite E. apply tlb_field_spec in E as (_ & He & Hi). unfold read_tlb_entry_field. rewrite tlb_in_range by done.
  destruct (x <? offsetof_cold); [by destruct (f =? _)|]. destruct (f =? offsetof_paddr_page); [done|]. by destruct (f =? _).
Qed.

Lemma tlb_field_range a h e i f :
  tlb_field a = Some (h, e, i, f) -> 0 <= a - PMA_SHADOW_TLB_START < PMA_SHADOW_TLB_LENGTH /\ (a - PMA_SHADOW_TLB_START) mod 8 = 0.
Proof.
  intros Ef. unfold tlb_field in Ef. destruct (_ || _) eqn:Eb; [done|]. destruct (a mod 8 =? 0) eqn:Ea; [|done]. reflect_bools. split; [lia|].
  unfold PMA_SHADOW_TLB_START in *. Z.div_mod_to_equations; lia.
Qed.

Lemma tlb_frame t s u p x : m_peek p <> shadow_tlb_peek_cb -> peek (upd_tlb t s) u p x = peek s u p x.
Proof.
  assert (forall r, read_reg (upd_tlb t s) u (reg_stored r) = read_reg s u (reg_stored r)) as Hr by (by intros []).
  intros Hcb. unfold peek, shadow_state_peek, shadow_uarch_state_peek.
  destruct (m_peek p); [reflexivity|reflexivity|reflexivity|reflexivity|reflexivity| |by destruct Hcb|]; (destruct (negb _); [reflexivity|]);
    by rewrite (copy_fields_ext _ _ _ _ _ Hr).
Qed.

(** A field of the cache *)
Lemma tlb_cached m a v :
  loggable m -> try_read_tlb (state_of m) a = Some v -> is_uint 64 v ->
  is_Some (page_at m (a / PMA_PAGE_SIZE)) /\ image_word (state_image m) a = v.
Proof.
  intros Hm Hr Hv. unfold try_read_tlb in Hr. destruct (tlb_field a) as [[[[h e] i] f]|] eqn:Ef; [|done]. cbn [mbind option_bind] in Hr.
  assert (0 <= a - PMA_SHADOW_TLB_START < PMA_SHADOW_TLB_LENGTH /\ (a - PMA_SHADOW_TLB_START) mod 8 = 0) as [Hx Hal] by (by apply (tlb_field_range a h e i f)).
  destruct (shadow_word m (lg_state _ Hm) _ _ _ (lg_shadow_tlb _ Hm) _ (shadow_tlb_words _ _) _ Hx Hal) as [Hp Hw].
  rewrite Zplus_minus in Hp, Hw. split; [done|]. rewrite Hw, tlb_word_field, Zplus_minus, Ef by done. rewrite Hr. by apply uint_id.
Qed.

Lemma tlb_written m a v s' :
  loggable m -> is_uint 64 v -> try_write_tlb (state_of m) a v = Done (Some s') -> word_written a v m (set_state s' m).
Proof.
  intros Hm Hv Hw. unfold try_write_tlb in Hw. destruct (tlb_field a) as [[[[h e] i] f]|] eqn:Ef; [|done].
  pose proof (tlb_field_spec _ _ _ _ _ Ef) as (_ & He & Hi).
  assert (machine_wf (state_of m)) as Hwf by exact (mv_machine _ (lg_memory _ Hm)).
  destruct (write_tlb_field _ _ _ _ _ _ _ Hwf He Hi Hw) as ((t & ->) & _ & Hnew & Hold).
  assert (0 <= a - PMA_SHADOW_TLB_START < PMA_SHADOW_TLB_LENGTH /\ (a - PMA_SHADOW_TLB_START) mod 8 = 0) as [Hx Hal] by (by apply (tlb_field_range a h e i f)).
  replace a with (PMA_SHADOW_TLB_START + (a - PMA_SHADOW_TLB_START)) at 1 by lia.
  eapply (shadow_written m (set_state (upd_tlb t (state_of m)) m) _ _ _ _ _ _ v); [apply Hm|by apply lg_shadow_tlb|apply shadow_tlb_words|done|done| |apply shadow_tlb_words|exact Hx|exact Hal| |].
  - by intros [].
  - intros x Hx' Hal'. cbv beta. change (state_of (set_state (upd_tlb t (state_of m)) m)) with (upd_tlb t (state_of m)). rewrite !tlb_word_field by done.
    destruct (Z.eqb_spec x (a - PMA_SHADOW_TLB_START)) as [->|Hne].
    + rewrite Zplus_minus, Ef, Hnew. by apply uint_id.
    + destruct (tlb_field (PMA_SHADOW_TLB_START + x)) as [[[[h' e'] i'] f']|] eqn:Ef'; [|done].
      pose proof (tlb_field_spec _ _ _ _ _ Ef') as (E' & He' & Hi'). pose proof (tlb_field_spec _ _ _ _ _ Ef) as (E & _ & _).
      rewrite Hold; [done..|]. intros [= -> -> -> ->]. apply Hne. rewrite <- E in E'. lia.
  - intros p x Hcb. unfold peek_page. change (state_of (set_state (upd_tlb t (state_of m)) m)) with (upd_tlb t (state_of m)).
    by apply tlb_frame.
Qed.

(** ** The bridge *)

Lemma set_state_deref m s' x :
  s_pmas s' = s_pmas (state_of m) -> s_empty_pma s' = s_empty_pma (state_of m) -> deref_pma (set_state s' m) x = deref_pma m x.
Proof.
  intros Hp He. destruct x; cbn; [|done|done|].
  - change (s_pmas (state_of (set_state s' m))) with (s_pmas s'). by rewrite Hp.
  - change (s_empty_pma (state_of (set_state s' m))) with (s_empty_pma s'). by rewrite He.
Qed.

Lemma loggable_registers m : loggable m -> registers_wf (state_of m) (uarch_of m).
Proof. intros Hm. split; [exact (mv_machine _ (lg_memory _ Hm))|apply Hm]. Qed.

Lemma bridge_written m a v s' :
  loggable m -> is_uint 64 v -> UarchBridge.write_register a (state_of m) v = Done s' -> word_written a v m (set_state s' m).
Proof.
  intros Hm Hv. unfold UarchBridge.write_register. change (fun r => orelse (write_register_xf r (state_of m) v) (write_register_csr r (state_of m) v))
    with (fun r => UarchBridgeSpec.write_reg r (state_of m) v).
  destruct (r ← machine_reg_of a; UarchBridgeSpec.write_reg r (state_of m) v) as [s1|] eqn:Hw.
  - intros [= ->]. destruct (machine_reg_of a) as [r|] eqn:Ha; [|done]. cbn [mbind option_bind] in Hw. apply machine_reg_of_spec in Ha as <-.
    destruct (write_reg_frame _ _ _ _ Hw) as (Ht & Hp & He & _).
    apply register_written; [done|done|done|intros x; by apply set_state_deref| |done|exact Ht].
    intros q. exact (bridge_write_read _ _ _ _ _ q (loggable_registers _ Hm) Hw).
  - intros (o & Ho & Hd)%outcome_bind_done. destruct o as [s1|]; [|done]. injection Hd as ->. by apply tlb_written.
Qed.

Lemma bridge_word m a v :
  loggable m -> UarchBridge.read_register a (state_of m) = Done v -> ~ in_shadow_pmas a ->
  is_Some (page_at m (a / PMA_PAGE_SIZE)) /\ image_word (state_image m) a = v.
Proof.
  intros Hm Hr Ha. pose proof (mv_values _ (lg_memory _ Hm) a v Hr) as Hv. unfold UarchBridge.read_register in Hr.
  change (fun r => orelse (read_register_xf r (state_of m)) (read_register_csr r (state_of m))) with (UarchBridgeSpec.read_reg (state_of m)) in Hr.
  destruct (machine_reg_of a ≫= UarchBridgeSpec.read_reg (state_of m)) as [w|] eqn:E.
  - cbn [orelse] in Hr. injection Hr as ->. destruct (machine_reg_of a) as [r|] eqn:Er; [|done]. apply machine_reg_of_spec in Er as <-.
    apply register_word; [done|by apply read_reg_bridge|done].
  - cbn [orelse] in Hr. destruct (try_read_tlb (state_of m) a) as [w|] eqn:Et.
    + cbn [orelse] in Hr. injection Hr as ->. by apply tlb_cached.
    + exfalso. apply Ha. cbn [orelse] in Hr. unfold try_read_pma in Hr. destruct (_ || _) eqn:Eb; [done|]. reflect_bools. unfold in_shadow_pmas. lia.
Qed.

(** Whatever the bridge reads or writes has a name. *)
Lemma other_name a : is_Some (tlb_field a) \/ in_shadow_pmas a ->
  is_Some
    (if (machine_reg_address reg_x0 <=? a) && (a <=? machine_reg_address reg_x31) && ((a &ᵇ 7) =? 0)
     then Some "x"%string
     else if (machine_reg_address reg_f0 <=? a) && (a <=? machine_reg_address reg_f31) && ((a &ᵇ 7) =? 0)
     then Some "f"%string
     else if (PMA_SHADOW_PMAS_START <=? a) && (a <? PMA_SHADOW_PMAS_START + PMA_MAX * PMA_WORD_SIZE * 2) then
       let word_index := Z.shiftr (a - PMA_SHADOW_PMAS_START) 3 in
       if (word_index &ᵇ 1) =? 0 then Some "pma.istart"%string else Some "pma.ilength"%string
     else if (PMA_SHADOW_TLB_START <=? a) && (a <? PMA_SHADOW_TLB_START + PMA_SHADOW_TLB_LENGTH) && (a mod 8 =? 0) then
       let tlboff := a - PMA_SHADOW_TLB_START in
       if tlboff <? offsetof_cold then Some "cold_tlb_entry_field"%string
       else if tlboff <? sizeof_shadow_tlb_state then Some "hot_tlb_entry_field"%string
       else None
     else None).
Proof.
  intros Ha. destruct (_ && _ && _); [by eexists|]. destruct (_ && _ && _); [by eexists|]. destruct (_ && _) eqn:Ep; [cbv zeta; destruct (_ =? _); by eexists|].
  destruct Ha as [[[[[h e] i] f] Ha]|Ha]; [|unfold in_shadow_pmas in Ha; exfalso; lia].
  unfold tlb_field in Ha. destruct (_ || _) eqn:Eb; [done|]. destruct (a mod 8 =? 0) eqn:Ea; [|done]. cbn [negb] in Ha.
  replace (_ && _ && _) with true by (symmetry; rewrite !andb_true_iff; reflect_bools; lia). cbv zeta in Ha |- *.
  destruct (_ <? offsetof_cold); [by eexists|]. destruct (_ <? sizeof_shadow_tlb_state); [by eexists|done].
Qed.

Lemma bridge_read_named m a v : UarchBridge.read_register a (state_of m) = Done v -> is_Some (get_register_name a).
Proof.
  intros Hr. unfold UarchBridge.read_register in Hr. unfold get_register_name.
  change (fun r => orelse (read_register_xf r (state_of m)) (read_register_csr r (state_of m))) with (UarchBridgeSpec.read_reg (state_of m)) in Hr.
  change (fun r => orelse (register_name_xf r) (register_name_csr r)) with register_name.
  assert (is_Some (machine_reg_of a ≫= register_name) \/ is_Some (tlb_field a) \/ in_shadow_pmas a) as Hcase.
  { destruct (machine_reg_of a ≫= UarchBridgeSpec.read_reg (state_of m)) as [w|] eqn:E.
    - left. destruct (machine_reg_of a) as [r|]; [|done]. apply (register_name_read (state_of m)). by exists w.
    - right. unfold try_read_tlb in Hr. destruct (tlb_field a) as [t|]; [left; by eexists|right]. cbn [mbind option_bind orelse] in Hr.
      unfold try_read_pma in Hr. destruct (_ || _) eqn:Eb; [done|]. reflect_bools. unfold in_shadow_pmas. lia. }
  destruct (machine_reg_of a ≫= register_name); [by eexists|]. destruct Hcase as [[? ?]|Hcase]; [done|]. by apply other_name.
Qed.

Lemma bridge_write_named m a v s' : UarchBridge.write_register a (state_of m) v = Done s' -> is_Some (get_register_name a).
Proof.
  intros Hw. unfold UarchBridge.write_register in Hw. unfold get_register_name.
  change (fun r => orelse (register_name_xf r) (register_name_csr r)) with register_name.
  destruct (machine_reg_of a ≫= register_name) eqn:E; [by eexists|]. apply other_name. left.
  destruct (r ← machine_reg_of a; orelse (write_register_xf r (state_of m) v) (write_register_csr r (state_of m) v)) as [s1|] eqn:Es.
  - exfalso. destruct (machine_reg_of a) as [r|]; [|done]. cbn [mbind option_bind] in E, Es. destruct r; cbn in E, Es; discriminate.
  - apply outcome_bind_done in Hw as (o & Ho & Hd). unfold try_write_tlb in Ho. destruct (tlb_field a); [by eexists|]. by injection Ho as <-.
Qed.

(** ** Memory *)

(** The range of memory that the microarchitecture finds *)
Lemma memory_entry_found m a ref p :
  loggable m -> word_address a -> memory_pma (memory_of (m_refs m)) a = Done (ref, p) -> get_istart_E p = false ->
  memory_ok p /\ contains p a 8 = true /\ mref ref ∈ m_merkle_pmas m /\ deref_pma m (mref ref) = Done p /\
  (m_start p <= a /\ a + 8 <= m_start p + m_length p) /\ uint64 (a - m_start p) = a - m_start p.
Proof.
  intros Hm [Ha _] E HE. destruct (memory_pma_spec _ a (lg_memory _ Hm)) as (ref' & p' & E' & _ & Hd & Hcase). rewrite E in E'. injection E' as <- <-.
  destruct Hcase as [?|(_ & Hok & Hc)]; [congruence|]. destruct (contains_offset p a (ok_wf _ Hok) Hc) as [H1 H2].
  pose proof (wf_start _ (ok_wf _ Hok)). unfold is_uint in Ha. rewrite uint_id in H2 by (unfold is_uint; lia).
  split; [done|]. split; [done|]. split; [apply (lg_ranges _ Hm ref p Hd), (wf_memory _ (ok_wf _ Hok))|]. split; [by apply mref_deref|].
  split; [lia|]. apply uint_id. unfold is_uint. lia.
Qed.

Lemma memory_read m a ref p v :
  loggable m -> word_address a -> memory_pma (memory_of (m_refs m)) a = Done (ref, p) -> get_istart_E p = false ->
  aliased_aligned_read p (uint64 (a - m_start p)) = Done v ->
  is_Some (page_at m (a / PMA_PAGE_SIZE)) /\ image_word (state_image m) a = v.
Proof.
  intros Hm Ha E HE Hr. destruct (memory_entry_found m a ref p Hm Ha E HE) as (Hok & _ & Hin & Hd & Hb & Eo). destruct Ha as [Ha Hal].
  rewrite aliased_read_spec, Eo in Hr by apply Hok. destruct (_ =? 0); [|done]. injection Hr as <-.
  pose proof (wf_memory _ (ok_wf _ Hok)) as HM. split; [by apply (memory_page m (lg_state _ Hm) (mref ref) p)|].
  by rewrite (memory_word m (lg_state _ Hm) (mref ref) p).
Qed.

Lemma memory_store m a ref p p' v :
  loggable m -> word_address a -> is_uint 64 v -> memory_pma (memory_of (m_refs m)) a = Done (ref, p) -> get_istart_E p = false ->
  aliased_aligned_write p (uint64 (a - m_start p)) v = Done p' ->
  word_written a v m (store_pma (mref ref) p' m) /\ same_shape p p' /\ memory_ok p' /\ same_place p p' /\ UarchState.deref (memory_of (m_refs m)) ref = Some p.
Proof.
  intros Hm Ha Hv E HE Hw. destruct (memory_entry_found m a ref p Hm Ha E HE) as (Hok & Hc & Hin & Hd & Hb & Eo). destruct Ha as [Ha Hal].
  pose proof (wf_memory _ (ok_wf _ Hok)) as HM.
  unfold aliased_aligned_write in Hw. rewrite Eo in Hw. destruct (negb _); [done|]. cbn [throw_if mbind outcome_bind] in Hw.
  destruct (get_memory_host p (ok_wf _ Hok)) as (mem & Hg & Hh). rewrite Hg in Hw. cbn [mbind outcome_bind mret outcome_ret] in Hw. rewrite Hh in Hw. injection Hw as <-.
  set (l := splice (Z.to_nat (a - m_start p)) (le_bytes 8 v) (host p)). pose proof (wf_host _ (ok_wf _ Hok)) as Hlen.
  assert (length l = Z.to_nat (m_length p)) as Hl by (unfold l; rewrite length_splice; rewrite ?length_le_bytes; lia).
  destruct (set_host_memory_wf p l (ok_wf _ Hok) Hl) as [Hwf Hhost]. pose proof (set_host_memory_shape p l) as Hsh.
  assert (same_place p (set_host_memory l p)) as Hsp.
  { pose proof Hsh as (HM1 & _ & HE1 & _). by split. }
  split; [by apply (memory_written m (lg_state _ Hm) (mref ref) p)|]. split; [done|]. split; [|by split; [|apply mref_deref] ].
  split; [done| |apply Hok]. rewrite Hhost. apply splice_bytes; [apply le_bytes_bytes|apply Hok].
Qed.

(** ** What is kept *)

(** The ranges of the tree keep their places. *)
Record same_layout m m' : Prop := {
  sl_refs : m_merkle_pmas m' = m_merkle_pmas m;
  sl_entries : forall r p', deref_pma m' r = Done p' -> exists p, deref_pma m r = Done p /\
    m_start p' = m_start p /\ m_length p' = m_length p /\ m_peek p' = m_peek p /\ get_istart_M p' = get_istart_M p;
  sl_present : forall r p, deref_pma m r = Done p -> exists p', deref_pma m' r = Done p';
}.

Lemma placed_kept m m' cb start len : same_layout m m' -> placed m cb start len -> placed m' cb start len.
Proof.
  intros [Hr He Hp] [(r & p & Hin & Hd & Hcb) Hplace]. split.
  - destruct (Hp r p Hd) as [p' Hd']. exists r, p'. rewrite Hr. split; [done|]. split; [done|].
    destruct (He r p' Hd') as (q & Hq & _ & _ & -> & _). congruence.
  - intros r' p'. rewrite Hr. intros Hin' Hd' Hcb'. destruct (He r' p' Hd') as (q & Hq & -> & -> & Ep & _). apply (Hplace r' q); [done|done|congruence].
Qed.

(** What is left to show for a machine with the same layout *)
Lemma loggable_kept m m' :
  same_layout m m' -> loggable m -> state_ok m' -> memory_valid (memory_of (m_refs m')) -> length (us_x (uarch_of m')) = 32%nat ->
  (forall r v, r ∈ shadow_uarch_state -> read_reg (state_of m') (uarch_of m') (reg_stored r) = Done v -> is_uint 64 v) ->
  (forall a ref p, memory_pma (memory_of (m_refs m)) a = Done (ref, p) -> get_istart_E p = false ->
    exists p', memory_pma (memory_of (m_refs m')) a = Done (ref, p') /\ get_istart_E p' = false) ->
  loggable m'.
Proof.
  intros Hl Hm Hok Hv Hx Hu Hf. split; try done; try by eapply placed_kept, Hm.
  - intros ref p' Hd HM. rewrite (sl_refs _ _ Hl). apply mref_deref in Hd. destruct (sl_entries _ _ Hl _ _ Hd) as (p & Hp & _ & _ & _ & EM).
    apply (lg_ranges _ Hm ref p); [by apply mref_deref|congruence].
  - intros a Ha. destruct (lg_pmas _ Hm a Ha) as (ref & p & E & HE). exists ref. by apply (Hf a ref p).
Qed.

Lemma shadow_uarch_registers r s s' u : r ∈ shadow_uarch_state -> read_reg s' u (reg_stored r) = read_reg s u (reg_stored r).
Proof. intros Hr. repeat (apply elem_of_cons in Hr as [->|Hr]; [reflexivity|]). by apply not_elem_of_nil in Hr. Qed.

Lemma same_layout_deref m m' : m_merkle_pmas m' = m_merkle_pmas m -> (forall r, deref_pma m' r = deref_pma m r) -> same_layout m m'.
Proof.
  intros Hr Hd. split; [done| |].
  - intros r p' Hp'. exists p'. by rewrite <- Hd.
  - intros r p Hp. exists p. by rewrite Hd.
Qed.

Lemma bridge_frame a s v s' :
  machine_wf s -> UarchBridge.write_register a s v = Done s' -> s_pmas s' = s_pmas s /\ s_empty_pma s' = s_empty_pma s.
Proof.
  intros Hs. unfold UarchBridge.write_register.
  change (fun r => orelse (write_register_xf r s v) (write_register_csr r s v)) with (fun r => UarchBridgeSpec.write_reg r s v).
  destruct (r ← machine_reg_of a; UarchBridgeSpec.write_reg r s v) as [s1|] eqn:Hw.
  - intros [= ->]. destruct (machine_reg_of a) as [r|]; [|done]. by destruct (write_reg_frame _ _ _ _ Hw) as (_ & ? & ? & _).
  - intros (o & Ho & Hd)%outcome_bind_done. destruct o as [s1|]; [|done]. injection Hd as ->. unfold try_write_tlb in Ho.
    destruct (tlb_field a) as [[[[h e] i] f]|] eqn:Ef; [|done]. destruct (tlb_field_spec _ _ _ _ _ Ef) as (_ & He & Hi).
    by destruct (write_tlb_field _ _ _ _ _ _ _ Hs He Hi Ho) as ((t & ->) & _).
Qed.

Lemma loggable_bridge m a v s' :
  loggable m -> is_uint 64 v -> UarchBridge.write_register a (state_of m) v = Done s' -> loggable (set_state s' m).
Proof.
  intros Hm Hv Hw. pose proof (bridge_written m a v s' Hm Hv Hw) as Hww. assert (machine_wf (state_of m)) as Hwf by exact (mv_machine _ (lg_memory _ Hm)).
  destruct (bridge_frame a _ v s' Hwf Hw) as [Hp He].
  apply (loggable_kept m); [|done|by apply Hww|exact (bridge_store_valid _ a v s' (lg_memory _ Hm) Hv Hw)|apply Hm| |].
  - apply same_layout_deref; [done|]. intros r. by apply set_state_deref.
  - intros r w Hr. change (uarch_of (set_state s' m)) with (uarch_of m). rewrite (shadow_uarch_registers r (state_of m)) by done. by apply (lg_uarch _ Hm).
  - intros b ref p E HE. exists p. split; [|done]. rewrite <- E. exact (memory_pma_bridge (memory_of (m_refs m)) s' b Hp).
Qed.

Lemma loggable_store m a ref p p' v :
  loggable m -> word_written a v m (store_pma (mref ref) p' m) -> UarchState.deref (memory_of (m_refs m)) ref = Some p ->
  get_istart_M p = true -> same_shape p p' -> memory_ok p' -> same_place p p' -> loggable (store_pma (mref ref) p' m).
Proof.
  intros Hm Hww Hd HM Hsh Hok Hsp. pose proof Hd as Hd'. apply mref_deref in Hd'.
  assert (memory_of (m_refs (store_pma (mref ref) p' m)) = store_ref ref p' (memory_of (m_refs m))) as Em by (by destruct ref).
  apply (loggable_kept m); [|done|by apply Hww| | | |]; rewrite ?Em.
  - split; [by destruct ref| |]; intros r q; rewrite (deref_store m (mref ref) p) by done; case_decide as E.
    + intros [= <-]. exists p. subst r. destruct Hsp. done.
    + intros Hq. by exists q.
    + by exists p'.
    + intros Hq. by exists q.
  - apply (store_ref_valid _ ref p p'); [apply Hm|done..].
  - destruct ref; apply Hm.
  - intros r w Hr. assert (read_reg (state_of (store_pma (mref ref) p' m)) (uarch_of (store_pma (mref ref) p' m)) (reg_stored r) =
      read_reg (state_of m) (uarch_of m) (reg_stored r)) as ->; [|by apply (lg_uarch _ Hm)].
    repeat (apply elem_of_cons in Hr as [->|Hr]; [by destruct ref|]). by apply not_elem_of_nil in Hr.
  - intros b ref' q E HE. rewrite (memory_pma_store _ ref p p') by done. rewrite E. cbn [mbind outcome_bind mret outcome_ret].
    eexists. split; [reflexivity|]. case_decide; [|done]. destruct Hsh as (_ & _ & -> & _). by apply not_empty.
Qed.

(** The registers of the microarchitecture *)
Lemma loggable_uarch m r v f :
  loggable m -> word_written (machine_reg_address r) v m (set_uarch (f (uarch_of m)) m) -> is_uint 64 v ->
  reg_changed r v (state_of m) (uarch_of m) (state_of m) (f (uarch_of m)) ->
  us_ram (f (uarch_of m)) = us_ram (uarch_of m) -> us_shadow_state (f (uarch_of m)) = us_shadow_state (uarch_of m) ->
  length (us_x (f (uarch_of m))) = length (us_x (uarch_of m)) ->
  loggable (set_uarch (f (uarch_of m)) m).
Proof.
  intros Hm Hww Hv Hc Hram Hsh Hx.
  assert (memory_of (m_refs (set_uarch (f (uarch_of m)) m)) = memory_of (m_refs m)) as Em by (unfold memory_of; cbn; by rewrite Hram).
  apply (loggable_kept m); [|done|by apply Hww| | | |]; rewrite ?Em.
  - apply same_layout_deref; [done|]. intros [| | |]; cbn; [done|f_equal; exact Hsh|f_equal; exact Hram|done].
  - apply Hm.
  - change (length (us_x (f (uarch_of m))) = 32%nat). rewrite Hx. apply Hm.
  - intros q w Hq E. change (read_reg (state_of m) (f (uarch_of m)) (reg_stored q) = Done w) in E. rewrite (Hc q) in E. case_decide; [by injection E as <-|]. by apply (lg_uarch _ Hm q).
  - intros b ref p E HE. by exists p.
Qed.

End loggable.

(** ** Memories that differ in their dirty maps *)

Record same_words (m m' : uarch_memory) : Prop := {
  sw_ram : same_memory (um_ram m) (um_ram m');
  sw_pmas : Forall2 same_memory (s_pmas (um_s m)) (s_pmas (um_s m'));
  sw_empty : same_memory (s_empty_pma (um_s m)) (s_empty_pma (um_s m'));
  sw_state : um_s m' = upd_pmas (fun _ => s_pmas (um_s m')) (upd_empty_pma (fun _ => s_empty_pma (um_s m')) (um_s m));
}.

Section same_words.
Context (m m' : uarch_memory) (Hs : same_words m m').

Lemma same_find_machine l l' i a n : Forall2 same_memory l l' -> find_machine_pma l' i a n = find_machine_pma l i a n.
Proof.
  intros Hl. revert i. induction Hl as [|p p' l l' Hp _ IH]; intros i; [done|]. cbn [find_machine_pma]. pose proof (same_memory_shape _ _ Hp) as Hsh.
  rewrite (same_shape_contains _ _ _ _ Hsh), IH. by destruct Hsh as (-> & _ & _ & _ & -> & _).
Qed.

Lemma same_memory_pma a ref p : memory_pma m a = Done (ref, p) -> exists p', memory_pma m' a = Done (ref, p') /\ same_memory p p'.
Proof.
  unfold memory_pma, find_memory_pma_entry. rewrite (same_shape_contains _ _ _ _ (same_memory_shape _ _ (sw_ram _ _ Hs))), (same_find_machine _ _ _ _ _ (sw_pmas _ _ Hs)).
  destruct (contains (um_ram m) a 8).
  - intros [= <- <-]. eexists. split; [done|]. apply Hs.
  - destruct (find_machine_pma _ _ _ _) as [i|]; [|done]. cbn. destruct (s_pmas (um_s m) !! i) as [q|] eqn:Eq; [|done]. intros [= <- <-].
    destruct (Forall2_lookup_l _ _ _ _ _ (sw_pmas _ _ Hs) Eq) as (q' & -> & Hq). by eexists.
Qed.

Lemma same_read_register a : UarchBridge.read_register a (um_s m') = UarchBridge.read_register a (um_s m).
Proof.
  pose proof (sw_pmas _ _ Hs) as Hp. unfold UarchBridge.read_register. f_equal.
  assert (try_read_pma (um_s m') a = try_read_pma (um_s m) a) as ->.
  { unfold try_read_pma. destruct (_ || _); [done|]. set (k := Z.to_nat _). destruct (s_pmas (um_s m) !! k) as [q|] eqn:Eq.
    - destruct (Forall2_lookup_l _ _ _ _ _ Hp Eq) as (q' & -> & Hq). destruct (same_shape_istart _ _ (same_memory_shape _ _ Hq)) as [-> ->]. done.
    - destruct (s_pmas (um_s m') !! k) as [q'|] eqn:Eq'; [|done]. destruct (Forall2_lookup_r _ _ _ _ _ Hp Eq') as (q & ? & _). congruence. }
  rewrite (sw_state _ _ Hs). destruct (machine_reg_of a) as [[]|]; reflexivity.
Qed.

(** What the write leaves differs in the same way. *)
Definition with_ranges (l : list pma_entry) (e : pma_entry) (s : machine_state) : machine_state := upd_pmas (fun _ => l) (upd_empty_pma (fun _ => e) s).

Lemma same_find_entry a :
  same_memory (UarchBridge.find_pma_entry (um_s m) a) (UarchBridge.find_pma_entry (um_s m') a).
Proof.
  pose proof (sw_pmas _ _ Hs) as Hp. unfold UarchBridge.find_pma_entry.
  assert (same_memory (default (s_empty_pma (um_s m)) (last (s_pmas (um_s m)))) (default (s_empty_pma (um_s m')) (last (s_pmas (um_s m'))))) as Hb.
  { pose proof (sw_empty _ _ Hs) as He. rewrite !last_lookup. rewrite <- (Forall2_length _ _ _ Hp).
    destruct (s_pmas (um_s m) !! _) as [q|] eqn:Eq; [by destruct (Forall2_lookup_l _ _ _ _ _ Hp Eq) as (q' & -> & Hq)|].
    destruct (s_pmas (um_s m') !! _) as [q'|] eqn:Eq'; [|done]. destruct (Forall2_lookup_r _ _ _ _ _ Hp Eq') as (q & ? & _). congruence. }
  revert Hb. generalize (default (s_empty_pma (um_s m)) (last (s_pmas (um_s m)))) (default (s_empty_pma (um_s m')) (last (s_pmas (um_s m')))).
  intros b b' Hb. induction Hp as [|p p' l l' Hpp _ IH]; [done|]. cbn [find_pma_entry_in].
  rewrite (same_shape_contains _ _ _ _ (same_memory_shape _ _ Hpp)). pose proof Hpp as [E _]. rewrite E at 1. cbn [m_length set_dirty_page_map].
  destruct (m_length p =? 0); [done|]. destruct (contains p a 8); [done|]. exact IH.
Qed.

Lemma write_reg_ranges l e r s v : UarchBridgeSpec.write_reg r (with_ranges l e s) v = option_map (with_ranges l e) (UarchBridgeSpec.write_reg r s v).
Proof. destruct r; reflexivity. Qed.

Lemma same_write_tlb a v o :
  try_write_tlb (um_s m) a v = Done o -> try_write_tlb (um_s m') a v = Done (option_map (with_ranges (s_pmas (um_s m')) (s_empty_pma (um_s m'))) o).
Proof.
  pose proof (sw_state _ _ Hs) as Es. assert (s_tlb (um_s m') = s_tlb (um_s m)) as Et by (rewrite Es; reflexivity).
  unfold try_write_tlb. destruct (tlb_field a) as [[[[h e] i] f]|]; [|by intros [= <-]]. unfold write_tlb_entry_field. rewrite Et.
  destruct (_ || _); [by intros [= <-]|]. pose proof (same_find_entry (paddr_page (get_cold (s_tlb (um_s m)) e i))) as [Ep _]. 
  destruct h.
  - destruct (f =? _); [|by intros [= <-]]. destruct (negb (v =? _)).
    + rewrite Ep. cbn [m_start set_dirty_page_map]. set (q := UarchBridge.find_pma_entry (um_s m) _).
      assert (forall d, get_istart_M (set_dirty_page_map d q) = get_istart_M q /\ get_memory (set_dirty_page_map d q) = get_memory q) as Hq by done.
      destruct (Hq (m_dirty_page_map (UarchBridge.find_pma_entry (um_s m') (paddr_page (get_cold (s_tlb (um_s m)) e i))))) as [-> ->].
      destruct (negb (get_istart_M q)); [done|]. cbn [throw_if mbind outcome_bind]. destruct (get_memory q) as [mem|]; [|done].
      cbn [mbind outcome_bind mret outcome_ret]. intros [= <-]. rewrite Es at 1. reflexivity.
    + intros [= <-]. rewrite Es at 1. reflexivity.
  - destruct (f =? _); [intros [= <-]; rewrite Es at 1; reflexivity|]. destruct (f =? _); [intros [= <-]; rewrite Es at 1; reflexivity|by intros [= <-]].
Qed.

Lemma same_write_register a v s1 :
  UarchBridge.write_register a (um_s m) v = Done s1 ->
  UarchBridge.write_register a (um_s m') v = Done (with_ranges (s_pmas (um_s m')) (s_empty_pma (um_s m')) s1).
Proof.
  unfold UarchBridge.write_register.
  change (fun r => orelse (write_register_xf r (um_s m) v) (write_register_csr r (um_s m) v)) with (fun r => UarchBridgeSpec.write_reg r (um_s m) v).
  change (fun r => orelse (write_register_xf r (um_s m') v) (write_register_csr r (um_s m') v)) with (fun r => UarchBridgeSpec.write_reg r (um_s m') v).
  assert (forall r, UarchBridgeSpec.write_reg r (um_s m') v = option_map (with_ranges (s_pmas (um_s m')) (s_empty_pma (um_s m'))) (UarchBridgeSpec.write_reg r (um_s m) v)) as Hr
    by (intros r; rewrite <- write_reg_ranges; f_equal; apply Hs).
  destruct (machine_reg_of a) as [r|]; cbn [mbind option_bind].
  - rewrite Hr. destruct (UarchBridgeSpec.write_reg r (um_s m) v); cbn [option_map]; [by intros [= <-]|].
    intros (o & Ho & Hd)%outcome_bind_done. rewrite (same_write_tlb a v o Ho). destruct o; [|done]. by injection Hd as <-.
  - intros (o & Ho & Hd)%outcome_bind_done. rewrite (same_write_tlb a v o Ho). destruct o; [|done]. by injection Hd as <-.
Qed.

(** Stores to two entries that differ in their dirty maps *)
Lemma same_aliased_read p p' o : same_memory p p' -> aliased_aligned_read p' o = aliased_aligned_read p o.
Proof. by intros [-> _]. Qed.

Lemma same_aliased_write p p' o v q :
  same_memory p p' -> aliased_aligned_write p o v = Done q -> exists q', aliased_aligned_write p' o v = Done q' /\ same_memory q q'.
Proof.
  intros [-> Hl]. unfold aliased_aligned_write. destruct (negb _); [done|]. cbn [throw_if mbind outcome_bind].
  change (get_memory (set_dirty_page_map (m_dirty_page_map p') p)) with (get_memory p). destruct (get_memory p) as [mem|]; [|done]. cbn.
  intros [= <-]. eexists. split; [reflexivity|]. split; [done|exact Hl].
Qed.
End same_words.

(** The invariant of memories depends on the contents only. *)
Lemma same_valid m m' : same_words m m' -> memory_valid m -> memory_valid m'.
Proof.
  intros Hs [Hram Hpmas Hsen Hwf Hv]. assert (forall p p', same_memory p p' -> memory_ok p -> memory_ok p') as Hok.
  { intros p p' Hp [H1 H2 H3]. split; [by eapply same_memory_wf|by rewrite (same_memory_host _ _ Hp)|by destruct Hp as [-> _]]. }
  split.
  - eapply Hok; [apply Hs|done].
  - apply Forall_lookup_2. intros i p' Hi. destruct (Forall2_lookup_r _ _ _ _ _ (sw_pmas _ _ Hs) Hi) as (p & Hi0 & Hp).
    destruct (Forall_lookup_1 _ _ _ _ Hpmas Hi0) as [HM HE]. split.
    + intros HM'. apply (Hok p); [done|]. apply HM. by destruct (same_memory_shape _ _ Hp) as (<- & _).
    + destruct (same_memory_shape _ _ Hp) as (_ & _ & -> & _ & -> & _). done.
  - apply Exists_exists in Hsen as (p & [i Hi]%list_elem_of_lookup & Hz). destruct (Forall2_lookup_l _ _ _ _ _ (sw_pmas _ _ Hs) Hi) as (p' & Hi' & Hp).
    apply Exists_exists. exists p'. split; [by eapply list_elem_of_lookup_2|]. by destruct (same_memory_shape _ _ Hp) as (_ & _ & _ & _ & -> & _).
  - rewrite (sw_state _ _ Hs). destruct Hwf. by constructor.
  - intros a v. rewrite (same_read_register _ _ Hs). apply Hv.
Qed.

Section kept.
Context `{i_hasher} (zero : hash_type).
Implicit Types (m : machine).

Lemma same_contents_words m m' : same_contents m m' -> same_words (memory_of (m_refs m)) (memory_of (m_refs m')).
Proof.
  intros Hs. split.
  - destruct (sc_entries _ _ Hs merkle_uarch_ram _ eq_refl) as (p & [= <-] & Hp). exact Hp.
  - by apply same_contents_pmas.
  - destruct (sc_entries _ _ Hs merkle_empty _ eq_refl) as (p & [= <-] & Hp). exact Hp.
  - exact (sc_state _ _ Hs).
Qed.

Lemma same_contents_deref m m' r p' : same_contents m m' -> deref_pma m' r = Done p' -> exists p, deref_pma m r = Done p /\ same_memory p p'.
Proof.
  intros Hs Hd. destruct (deref_pma m r) as [p|] eqn:Hp.
  - destruct (sc_entries _ _ Hs r p Hp) as (q & Hq & Hm). rewrite Hd in Hq. injection Hq as <-. by exists p.
  - exfalso. destruct r as [i| | |]; try discriminate Hp. cbn in Hp, Hd. pose proof (sc_length _ _ Hs).
    destruct (s_pmas (state_of m) !! i) eqn:E; [discriminate Hp|]. destruct (s_pmas (state_of m') !! i) eqn:E'; [|discriminate Hd].
    apply lookup_ge_None_1 in E. apply lookup_lt_Some in E'. lia.
Qed.

Lemma loggable_same m m' : same_contents m m' -> loggable m -> loggable m'.
Proof.
  intros Hs Hm. pose proof (same_contents_words _ _ Hs) as Hw.
  apply (loggable_kept m); [|done| | | | |].
  - split; [by apply sc_refs| |].
    + intros r p' Hd. destruct (same_contents_deref _ _ _ _ Hs Hd) as (p & Hp & [-> _]). by exists p.
    + intros r p Hd. destruct (sc_entries _ _ Hs r p Hd) as (p' & ? & _). by exists p'.
  - split; [apply (same_merkle_ok m); [done|apply Hm]|]. intros r p' Hr Hd HM. destruct (same_contents_deref _ _ _ _ Hs Hd) as (p & Hp & Hsm).
    rewrite (same_memory_host _ _ Hsm). apply (so_bytes _ (lg_state _ Hm) r p); [by rewrite <- (sc_refs _ _ Hs)|done|].
    by destruct (same_memory_shape _ _ Hsm) as (<- & _).
  - eapply same_valid; [exact Hw|apply Hm].
  - rewrite (sc_uarch _ _ Hs). apply Hm.
  - intros r v Hr. rewrite (sc_uarch _ _ Hs), (sc_state _ _ Hs), read_reg_frame. by apply Hm.
  - intros a ref p E HE. destruct (same_memory_pma _ _ Hw _ _ _ E) as (p' & E' & Hp). exists p'. split; [done|].
    by destruct (same_memory_shape _ _ Hp) as (_ & _ & -> & _).
Qed.
End kept.
