(* ===== verification/MachineRun.v ===== *)
(** * Runs and root hashes

    The machine runs and answers for its state: from a state whose hashes are
    stored, running the interpreter and asking for the root hash gives the hash of
    the state it reached.  The concrete runs are of the small machine of
    MachineOk.v with a page of RAM for the microarchitecture, the shadow of its
    registers, and a new Merkle tree. *)

From S2P Require Import Prelude CppInt Constants RiscvConstants UarchAccess UarchStep Bytes Pma PmaSpec MachineState UarchBridge UarchBridgeSpec UarchState UarchStateSpec UarchInterpret Hasher MerkleProof PristineMerkleTree MachineMerkleTree MachineMerkleTreeSpec MachineTreeProofs DeviceAccess Tlb TranslateVirtualAddress HostMemory HostTlb VirtualMemory MachineOk TrapSpec VirtualMemorySpec Interpret InterpretSpec InterpretCorrect MachineRegs Machine MachinePages MachineHash MachineAnswers.

(** A hash function that is quick to evaluate *)
Definition small_hasher : i_hasher := {|
  hash_type := Z;
  bytes := le_bytes 8;
  digest l := fold_left (fun h b => (h * 257 + b + 1) mod 1000003) l 7;
|}.

(** ** The microarchitecture *)

Definition example_shadow : pma_entry :=
  device_entry "shadow uarch state device" PMA_SHADOW_UARCH_STATE_START 0x1000 "SHADOW UARCH STATE" shadow_uarch_state_peek_cb.

Definition example_uarch_ram (l : list Z) : pma_entry :=
  set_flags (PmaFlags true true true true true 0)
    (memory_entry "uarch RAM" PMA_UARCH_RAM_START 0x1000 (PmaMemory 0x1000 0x20000 (pad (Z.to_nat 0x1000) l)) memory_peek_cb).

Definition example_uarch (l : list Z) : uarch_state :=
  UarchState PMA_UARCH_RAM_START (replicate 32 0) 0 false example_shadow (example_uarch_ram l) (empty_entry "empty" 0 0).

(** ** The machine *)

Section example.
Context `{i_hasher}.

(** The program of the machine, that of the microarchitecture, and the tree *)
Definition example_with (prog uprog : list Z) (t : machine_merkle_tree) : machine :=
  MakeMachine (UarchRefs (example_uarch uprog) (boot prog) []) t (collect_merkle_pmas 2).

Definition new_machine (prog uprog : list Z) : outcome machine :=
  t ← make_machine_merkle_tree; mret (example_with prog uprog t).
(** ** It is ready to be hashed *)

Lemma example_uarch_ram_wf l : memory_wf (example_uarch_ram l).
Proof.
  split; try done.
  change (host (example_uarch_ram l)) with (pad (Z.to_nat 0x1000) l). by rewrite pad_length.
Qed.

Lemma example_deref prog uprog t r p :
  deref_pma (example_with prog uprog t) r = Done p ->
  p = match r with
      | merkle_pmas i => nth i (example_map prog) (empty_entry "sentinel" 0 0)
      | merkle_shadow_uarch => example_shadow
      | merkle_uarch_ram => example_uarch_ram uprog
      | merkle_empty => empty_entry "empty" 0 0
      end.
Proof. destruct r as [[|[|[|i]]]| | |]; cbn; by intros [= <-]. Qed.

Lemma example_merkle_ok prog uprog t : Forall is_byte prog -> merkle_ok (example_with prog uprog t).
Proof.
  intros Hp. pose proof (ok_wf _ (ram_entry_ok prog Hp)) as Hram. pose proof (example_uarch_ram_wf uprog) as Huram.
  assert (forall r, r ∈ collect_merkle_pmas 2 -> r = merkle_pmas 0 \/ r = merkle_pmas 1 \/ r = merkle_shadow_uarch \/
    r = merkle_uarch_ram \/ r = merkle_empty) as Hrefs.
  { intros r Hr. cbn in Hr. rewrite !elem_of_cons in Hr. destruct Hr as [?|[?|[?|[?|[?|Hr] ] ] ] ]; auto. by apply not_elem_of_nil in Hr. }
  split.
  - intros r Hr. destruct (Hrefs r Hr) as [->|[->|[->|[->| ->] ] ] ]; (eexists; split; [reflexivity|]); by split.
  - apply (bool_decide_unpack _). vm_compute. exact I.
  - intros r r' p p' k Hr Hr' Ep Ep' Hk Hk'. apply example_deref in Ep, Ep'. unfold page_within, PMA_PAGE_SIZE in Hk, Hk'.
    destruct (Hrefs r Hr) as [->|[->|[->|[->| ->] ] ] ], (Hrefs r' Hr') as [->|[->|[->|[->| ->] ] ] ]; try done; exfalso;
      cbn in Ep, Ep'; subst p p'; cbn [m_start m_length ram_entry htif_entry example_shadow example_uarch_ram set_index set_flags memory_entry
        device_entry empty_entry] in Hk, Hk'; unfold RAM_START, RAM_LENGTH, HTIF_START, PMA_SHADOW_UARCH_STATE_START, PMA_UARCH_RAM_START in Hk, Hk'; lia.
  - exists [merkle_pmas 0; merkle_pmas 1; merkle_shadow_uarch; merkle_uarch_ram]. split; [done|]. split; [|done].
    intros r p Hr Ep. apply example_deref in Ep. rewrite !elem_of_cons in Hr.
    destruct Hr as [->|[->|[->|[->|Hr] ] ] ]; [..|by apply not_elem_of_nil in Hr]; subst p; cbn; unfold RAM_LENGTH; lia.
Qed.

(** All the pages of new memory are marked. *)
Lemma new_memory_marked m r p k n :
  merkle_ok m -> holds_page m r p k -> get_istart_M p = true -> m_dirty_page_map p = replicate n 0xff ->
  marked_dirty p (k - m_start p `div` PMA_PAGE_SIZE).
Proof.
  intros Hok Hh HM En. pose proof Hh as (Hr & Ep & Hw).
  destruct (mk_entries _ Hok r Hr) as (q & Hq & He). rewrite Ep in Hq. injection Hq as <-.
  pose proof (me_peekable _ He) as Hk. unfold peekable in Hk. rewrite (me_memory _ He HM) in Hk.
  pose proof (page_index_in p k He Hw) as Ek. destruct (page_offset_in p k He Hw) as [Ho _].
  unfold marked_dirty. rewrite Ek, is_page_marked_dirty_spec by (done || lia). f_equal.
  unfold page_dirty. rewrite En. pose proof (wf_map _ Hk) as Hl. rewrite En, length_replicate in Hl.
  set (o := k * PMA_PAGE_SIZE - m_start p) in *. rewrite nth_lookup, lookup_replicate_2.
  - cbn [default from_option id]. assert (0 <= o `div` PMA_PAGE_SIZE `mod` 8 < 8) as Hm by (apply Z.mod_pos_bound; lia).
    change 255 with (Z.ones 8). apply Z.ones_spec_low. lia.
  - rewrite Hl. unfold PMA_PAGE_SIZE in *. apply Z2Nat.inj_lt; Z.div_mod_to_equations; lia.
Qed.

Lemma example_marked prog uprog t r p k :
  Forall is_byte prog -> holds_page (example_with prog uprog t) r p k -> get_istart_M p = true -> marked_dirty p (k - m_start p `div` PMA_PAGE_SIZE).
Proof.
  intros Hp Hh HM. pose proof (example_merkle_ok prog uprog t Hp) as Hok. pose proof Hh as (_ & Ep & _).
  assert (exists n, m_dirty_page_map p = replicate n 0xff) as [n En].
  { apply example_deref in Ep. destruct r as [[|[|[|[|i] ] ] ]| | |]; cbn in Ep; subst p; try discriminate HM; by eexists. }
  by apply (new_memory_marked (example_with prog uprog t) r p k n).
Qed.

Lemma example_ready prog uprog t :
  Forall is_byte prog -> make_machine_merkle_tree = Done t -> ready_to_hash (example_with prog uprog t).
Proof.
  intros Hp Et. pose proof (example_merkle_ok prog uprog t Hp) as Hok.
  destruct make_machine_merkle_tree_spec as (t' & Et' & _ & Hn & _). rewrite Et in Et'. injection Et' as <-.
  split; [done|apply tlb_ok_wf, (ok_tlb _ _ (boot_ok prog Hp))| |change (m_t (example_with prog uprog t)) with t; rewrite Hn; lia].
  apply tree_tracks_new; [done|exact Et|]. intros r p k Hh HM. by eapply example_marked.
Qed.
End example.

(** ** Running (machine.cpp) *)

Section run.
Context `{i_hasher}.
(** The build, the devices and the host *)
Context (asserts : bool) (driver : string -> pma_driver) (poll_host : hart -> Z -> Z -> host_events).
(** The image that the build embeds *)
Context (uarch_pristine_ram : list Z).

(** [machine::run], with what waits at the console and what was written to it *)
Definition run (m : machine) (input output : list Z) (mcycle_end : Z) :
    outcome (interpreter_break_reason * hart * machine) :=
  mcycle ← read_reg (state_of m) (uarch_of m) (reg_stored reg_mcycle);
  throw_if (mcycle_end <? mcycle) (invalid_argument "mcycle is past") ≫= fun _ =>
  '(reason, h) ← interpret asserts driver poll_host (Hart (state_of m) input output) mcycle_end;
  mret (reason, h, set_state (h_s h) m).

Definition run_uarch (m : machine) (uarch_cycle_end : Z) : outcome uarch_interpreter_break_reason * machine :=
  if negb (s_iunrep (state_of m) =? 0)
  then (Exn (runtime_error "microarchitecture cannot be used with unreproducible machines"), m)
  else if get_istart_E (us_ram (uarch_of m)) then (Exn (runtime_error "microarchitecture RAM is not present"), m)
  else
    let '(reason, r) := UarchAccess.run (uarch_state_access uarch_pristine_ram) (uarch_interpret uarch_cycle_end) (m_refs m) in
    (reason, set_refs r m).
End run.

(** ** Runs keep track of the pages *)

Section tracking.
Context `{i_hasher} (zero : hash_type).
Implicit Types (m : machine).

(** What the interpreter must keep: the layout, and the pages as they are hashed *)
Definition fixed_of m : fixed :=
  Fixed (s_iunrep (state_of m)) (s_pmas (state_of m)) (s_empty_pma (state_of m)) (pages_of (s_pmas (state_of m))).

Lemma same_layout_place p p' :
  same_layout p p' -> merkle_entry_ok p -> (get_istart_M p' = true -> memory_wf p') -> same_place p p'.
Proof.
  intros ((EM & _ & EE & Es & El & _) & _ & _ & Ep & Ed) He Hw. split; try done; [intros HM; apply Hw; congruence|].
  intros HM. rewrite (me_device _ He HM) in Ed |- *. by apply nil_length_inv.
Qed.

Lemma run_evolved m s' : merkle_ok m -> machine_ok (fixed_of m) s' -> evolved m (set_state s' m).
Proof.
  intros Hok Hs'. split; [done..|]. intros r p Hr Hp. destruct (mk_entries _ Hok r Hr) as (q & Hq & He). rewrite Hp in Hq. injection Hq as <-.
  destruct r as [i| | |]; [|exists p; split; [exact Hp|by apply same_place_refl]..|].
  - cbn in Hp. destruct (s_pmas (state_of m) !! i) as [q|] eqn:Ei; [|done]. injection Hp as ->.
    destruct (evolves_lookup _ _ _ _ (ok_layout _ _ Hs') Ei) as (p' & Hi' & Hl). exists p'.
    cbn. change (s_pmas (state_of (set_state s' m))) with (s_pmas s'). rewrite Hi'. split; [done|].
    apply same_layout_place; [done|done|]. intros HM.
    apply (bf_memory _ (proj1 (hm_buffers _ (to_map _ (ok_tlb _ _ Hs')) i p' Hi' HM))).
  - cbn in Hp |- *. change (s_empty_pma (state_of (set_state s' m))) with (s_empty_pma s'). rewrite (ok_empty _ _ Hs').
    exists p. split; [exact Hp|by apply same_place_refl].
Qed.

Lemma run_tracks m s' : merkle_ok m -> hashed m -> machine_ok (fixed_of m) s' -> tree_tracks (set_state s' m).
Proof.
  intros Hok Hh Hs'. pose proof (run_evolved m s' Hok Hs') as Hev. apply (tree_tracks_hashed m); [done..|].
  intros r p p' k Hpg Hp' HM. pose proof Hpg as (Hr & Hp & Hw). destruct (mk_entries _ Hok r Hr) as (q & Hq & He). rewrite Hp in Hq. injection Hq as <-.
  destruct (ev_entries _ _ Hev r p Hr Hp) as (q & Hq & Hsp). rewrite Hp' in Hq. injection Hq as <-.
  pose proof (evolved_holds _ _ _ _ _ _ Hev Hpg Hp' Hsp) as Hpg'. pose proof (page_index_in p k He Hw) as Ek.
  destruct (page_offset_in p k He Hw) as [Ho _]. set (j := k - m_start p `div` PMA_PAGE_SIZE) in *.
  assert (0 <= j) as Hj by (clear - Ek Ho; unfold PMA_PAGE_SIZE in *; lia).
  destruct r as [i| | |].
  2, 3: right; assert (Done p' = Done p) as [= ->] by (etrans; [symmetry; exact Hp'|exact Hp]); done.
  2: { right. assert (Done p' = Done p) as [= ->]; [|done]. etrans; [symmetry; exact Hp'|]. etrans; [|exact Hp].
       cbn. f_equal. exact (ok_empty _ _ Hs'). }
  cbn in Hp, Hp'. destruct (s_pmas (state_of m) !! i) as [q|] eqn:Ei; [|done]. injection Hp as ->.
  change (s_pmas (state_of (set_state s' m))) with (s_pmas s') in Hp'. destruct (s_pmas s' !! i) as [q|] eqn:Ei'; [|done]. injection Hp' as ->.
  destruct (ok_tracked _ _ Hs' i p' j Ei') as [Hd|[Hd|Hd]]; [by rewrite (sp_M _ _ Hsp)|exact Hj|..].
  - left. exists (merkle_pmas i), p'. split; [exact Hpg'|]. left. unfold marked_dirty. rewrite (sp_start _ _ Hsp). fold j.
    rewrite is_page_marked_dirty_spec; [|by apply (sp_memory _ _ Hsp)|rewrite (sp_length _ _ Hsp); lia]. rewrite Z.div_mul by done. congruence.
  - left. exists (merkle_pmas i), p'. split; [exact Hpg'|]. right. destruct Hd as (x & Hx & Hv & Hi & Hpp). exists x.
    split; [exact Hx|]. split; [exact Hv|]. split; [f_equal; symmetry; exact Hi|]. change (state_of (set_state s' m)) with s'. rewrite Hpp, (sp_start _ _ Hsp), Ek. lia.
  - right. transitivity (pages_of (s_pmas (state_of m)) i j); [exact Hd|]. unfold pages_of. by rewrite Ei.
Qed.

(** An update changes no register and no contents, so runs can follow. *)
Lemma machine_ok_frame u u' s l e :
  machine_ok u s -> tlb_ok (upd_pmas (fun _ => l) s) -> evolves (fx_map u') l ->
  tracked_since (fx_pages u') (upd_pmas (fun _ => l) (upd_empty_pma (fun _ => e) s)) -> e = fx_empty u' -> fx_iunrep u' = fx_iunrep u ->
  machine_ok u' (upd_pmas (fun _ => l) (upd_empty_pma (fun _ => e) s)).
Proof.
  intros H0 Ht Hl Htr He Hi. destruct H0. constructor; try done.
  - by apply (tlb_ok_same (upd_pmas (fun _ => l) s)).
  - change (s_iunrep s = fx_iunrep u'). congruence.
Qed.

Lemma same_contents_ok u m m' : same_contents m m' -> machine_ok u (state_of m) -> machine_ok (fixed_of m') (state_of m').
Proof.
  intros Hs Hm. pose proof (same_contents_pmas _ _ Hs) as Hp. pose proof (sc_state _ _ Hs) as Es.
  assert (s_iunrep (state_of m') = fx_iunrep u) as Eu by (rewrite Es; exact (ok_iunrep _ _ Hm)).
  assert (machine_ok (fixed_of m') (upd_pmas (fun _ => s_pmas (state_of m')) (upd_empty_pma (fun _ => s_empty_pma (state_of m')) (state_of m)))) as H0;
    [|by rewrite <- Es in H0].
  assert (evolves (s_pmas (state_of m)) (s_pmas (state_of m'))) as Hev.
  { eapply Forall2_impl; [exact Hp|]. intros p p'. apply same_memory_layout. }
  apply (machine_ok_frame u); [done| |done| |done|done].
  - apply tlb_ok_evolves; [apply Hm|done|]. eapply evolves_map_ok; [exact Hev| |apply Hm].
    intros i p' Hi HM. destruct (Forall2_lookup_r _ _ _ _ _ Hp Hi) as (p & Hi0 & Hsm).
    assert (get_istart_M p = true) as HM0 by (rewrite <- HM; by destruct Hsm as [-> _]).
    destruct (bf_memory _ (proj1 (hm_buffers _ (to_map _ (ok_tlb _ _ Hm)) i p Hi0 HM0))) as [H1 H2 H3].
    split; [by eapply same_memory_wf|by rewrite (same_memory_host _ _ Hsm)|by destruct Hsm as [-> _]].
  - rewrite <- Es. apply tracked_since_refl.
Qed.

(** ** Runs and answers *)

(** The machine before a run: what it stores is the hashes of its state. *)
Record machine_ready m : Prop := {
  mr_merkle : merkle_ok m;
  mr_hashed : hashed m;
  mr_ok : machine_ok (fixed_of m) (state_of m);
  mr_pc : pc_ok (s_pc (state_of m));
  mr_mcycle : is_uint 64 (s_mcycle (state_of m));
}.

Lemma run_ready m s' :
  merkle_ok m -> hashed m -> machine_ok (fixed_of m) s' -> m_merkle_update_nonce (m_t m) < 2 ^ 64 - 1 -> ready_to_hash (set_state s' m).
Proof.
  intros Hok Hh Hs' Hn. split; [|apply tlb_ok_wf, Hs'|by apply run_tracks|exact Hn].
  apply (evolved_merkle_ok m); [by apply run_evolved|done].
Qed.
End tracking.

(** ** A page hidden from the tree

    Programs for the two processors: the first stores a word to the next page; the
    second clears, through the bridge, the first field of the first write entry of
    the translation cache. *)

Definition store_program : list Z := words 4 [0x00001297; 0x00100313; 0x0062b023].
Definition flush_program : list Z := words 4 [0x000220b7; 0xfff00113; 0x0020b823].

Definition no_schedule (_ : merkle_ref) : list nat := [].
Definition small_zero : @hash_type small_hasher := 0.

Section hidden.
#[local] Existing Instance small_hasher.

(** The machine is hashed, *)
Definition hidden_start : outcome machine :=
  m ← new_machine store_program flush_program;
  '(_, m) ← update_merkle_tree small_zero 2 no_schedule m;
  mret m.

(** then runs the first program, then the second. *)
Definition hidden_run (m : machine) : outcome machine :=
  '(_, _, m) ← run false machine_driver quiet_host m [] [] 3;
  mret (run_uarch [] m 3).2.

(** The page the first program wrote to *)
Definition hidden_page : Z := 0x80001.

(** The hash of the page that is stored after an update, and the answer of
    [verify_dirty_page_maps] before it *)
Definition stored_after (m : machine) : outcome (Z * bool) :=
  '(_, m') ← get_root_hash small_zero 2 no_schedule m;
  stored ← get_page_node_hash (m_t m') (hidden_page * PMA_PAGE_SIZE);
  '(clean, _) ← verify_dirty_page_maps m;
  mret (stored, clean).
End hidden.

(** ** Theorems *)

(** C5: running the machine keeps the hashes right: from a machine in reproducible
    mode (whose hash an unreproducible one refuses) that stores the hashes of its
    state, over devices that obey their law, the run returns, and the root hash asked
    for afterwards is that of the state reached, whatever the number of threads and
    their interleaving; the machine then stores the hashes of its state again, so
    that the same holds of the next run.  The updates of the tree are counted in 64
    bits, and the count must not be at its end.  The ways out are those of the
    interpreter: the fetch through an invalidated cache, and, in a build with
    assertions, an assertion of its loops. *)
Theorem run_root_hash `{i_hasher} zero asserts driver poll_host m input output mcycle_end
    (Hdriver : forall name, DeviceOk (fixed_of m) (driver name)) (Hhost : HostOk (fixed_of m) poll_host) :
  machine_ready m -> s_iunrep (state_of m) = 0 -> m_merkle_update_nonce (m_t m) < 2 ^ 64 - 1 -> is_uint 64 mcycle_end ->
  if mcycle_end <? s_mcycle (state_of m)
  then run asserts driver poll_host m input output mcycle_end = Exn (invalid_argument "mcycle is past")
  else
    returns (run asserts driver poll_host m input output mcycle_end) (fun '(_, h, m1) => state_of m1 = h_s h /\
      forall n schedules, 0 < n -> exists m2,
        get_root_hash zero n schedules m1 = Done (state_root m1, m2) /\ same_contents m1 m2 /\ machine_ready m2) \/
    reaches_collision driver poll_host mcycle_end (at_tick (loop_start (Hart (state_of m) input output))) \/
    asserts = true /\ exists what, run asserts driver poll_host m input output mcycle_end = Exn (assertion_failure what).
Proof.
  intros [Hok Hh Hs Hpc Hmc] Hu Hn Hend. unfold run.
  change (read_reg (state_of m) (uarch_of m) (reg_stored reg_mcycle)) with (Done (s_mcycle (state_of m))). cbn [mbind outcome_bind].
  destruct (mcycle_end <? s_mcycle (state_of m)); [done|]. cbn [throw_if mbind outcome_bind].
  destruct (interpret_ok (fixed_of m) driver Hdriver poll_host (Hart (state_of m) input output) mcycle_end) as [Hret|Hc]; [done..| |by right; left].
  destruct (interpret_builds asserts driver poll_host (Hart (state_of m) input output) mcycle_end) as [->|[what Ha] ].
  2: { destruct asserts; [|by rewrite Ha in Hret]. right; right. split; [done|]. exists what. by rewrite Ha. }
  left. apply returns_done in Hret as ([reason h] & -> & Hs' & Hpc' & Hmc' & _). cbn [mbind outcome_bind mret outcome_ret returns].
  split; [done|]. intros n schedules Hn0. pose proof (run_ready m (h_s h) Hok Hh Hs' Hn) as Hrd.
  pose proof (get_root_hash_machine zero n Hn0 schedules _ Hrd) as Hg. change (s_iunrep (state_of (set_state (h_s h) m))) with (s_iunrep (h_s h)) in Hg.
  rewrite (ok_iunrep _ _ Hs') in Hg. change (fx_iunrep (fixed_of m)) with (s_iunrep (state_of m)) in Hg. rewrite Hu in Hg. cbn [Z.eqb] in Hg.
  destruct Hg as (m2 & E & Hs2 & Hh2 & _). exists m2. split; [exact E|]. split; [done|]. 
  pose proof (sc_state _ _ Hs2) as Es. split; [by eapply same_merkle_ok; [|apply Hrd]|done|by eapply same_contents_ok| |]; rewrite Es; [exact Hpc'|exact Hmc'].
Qed.

(** C18: the proofs the machine answers are those of its state: asked for the node of
    2^s bytes at an address, it refuses the sizes and the addresses that have none,
    and otherwise brings the tree up to date and returns a proof that verifies,
    whose root hash is that of the state and whose target is the node of the state. *)
Theorem get_proof_correct `{i_hasher} zero n schedules m a s :
  ready_to_hash m -> 0 < n -> is_uint 64 a ->
  if negb ((5 <=? s) && (s <=? 64)) then
    get_proof zero n schedules m a s = Exn (invalid_argument "invalid log2_size")
  else if negb (a `mod` 2 ^ s =? 0) then
    get_proof zero n schedules m a s = Exn (invalid_argument "address not aligned to log2_size")
  else exists p m', get_proof zero n schedules m a s = Done (p, m') /\ same_contents m m' /\ hashed m' /\
    verify p = Done true /\ m_root_hash p = state_root m /\ m_target_address p = a /\ m_log2_target_size p = s /\
    m_target_hash p = node (state_leaf m) (Z.to_nat (s - 5)) (a `div` 2 ^ s).
Proof.
  intros Hm Hn Ha. destruct (update_or_throw_spec zero n Hn schedules m Hm) as (m' & E & Hs & Hh & _). unfold get_proof. rewrite E.
  pose proof Hm as [Hok _ _ _]. cbn [mbind outcome_bind]. rewrite (get_proof_skip_spec zero m' a s) by (done || by eapply same_merkle_ok).
  destruct ((5 <=? s) && (s <=? 64)) eqn:Es; [|done]. destruct (a `mod` 2 ^ s =? 0); [|done].
  apply andb_true_iff in Es as [E1%Z.leb_le E2%Z.leb_le]. cbn [negb mbind outcome_bind mret outcome_ret].
  eexists _, m'. split; [reflexivity|]. split; [done|]. split; [done|]. split; [|split; [|split; [|split] ] ].
  - apply (verify_spec (state_leaf m') 5), tree_proof_for; [lia|lia|exact Ha].
  - rewrite <- (same_state_root m m') by done. unfold state_root, tree_proof. cbn [m_root_hash].
    change (Z.to_nat (64 - 5)) with 59%nat. reflexivity.
  - reflexivity.
  - reflexivity.
  - unfold tree_proof. cbn [m_target_hash]. apply node_ext. intros j _. by apply same_state_leaf.
Qed.

(** ** Concrete runs *)

Section concrete.
#[local] Existing Instance small_hasher.

(** A new machine stores the hashes of its state after the first update. *)
Lemma new_machine_ready prog uprog :
  Forall is_byte prog -> exists t m, (make_machine_merkle_tree = Done t) /\ ready_to_hash (example_with prog uprog t) /\
    same_contents (example_with prog uprog t) m /\ machine_ready m /\ m_merkle_update_nonce (m_t m) = 2 /\
    update_merkle_tree small_zero 2 no_schedule (example_with prog uprog t) = Done (true, m).
Proof.
  intros Hp. destruct make_machine_merkle_tree_spec as (t & Et & _ & Hn & _). exists t.
  pose proof (example_ready prog uprog t Hp Et) as Hr. pose proof Hr as [Hok Hwf Htr Hno].
  destruct (update_merkle_tree_spec small_zero 2 no_schedule _ Hok Hwf Htr eq_refl Hno) as (m & E & Hs & Hh & En & _). exists m.
  split; [exact Et|]. split; [exact Hr|]. split; [exact Hs|]. split; [|split; [|exact E] ].
  - pose proof (sc_state _ _ Hs) as Es. split; [by eapply same_merkle_ok|done|eapply same_contents_ok; [exact Hs|exact (boot_ok prog Hp)]|..];
      rewrite Es; repeat split; try discriminate 1; reflexivity.
  - rewrite En. change (m_t (example_with prog uprog t)) with t. lia.
Qed.

Lemma run_root_hash_witness :
  exists m, machine_ready m /\
    (returns (run false machine_driver quiet_host m [] [] 100) (fun '(_, h, m1) => state_of m1 = h_s h /\
       forall n schedules, 0 < n -> exists m2,
       get_root_hash small_zero n schedules m1 = Done (state_root m1, m2) /\ same_contents m1 m2 /\ machine_ready m2) \/
     reaches_collision machine_driver quiet_host 100 (at_tick (loop_start (Hart (state_of m) [] [])))).
Proof.
  destruct (new_machine_ready halt_program []) as (t & m & _ & _ & Hs & Hm & Hn & _);
    [apply words_bytes|]. exists m. split; [exact Hm|].
  pose proof (sc_state _ _ Hs) as Es.
  assert (s_iunrep (state_of m) = 0 /\ s_mcycle (state_of m) = 0) as [Ei Ec] by (rewrite Es; by split).
  assert (forall name, DeviceOk (fixed_of m) (machine_driver name)) as Hd by apply machine_driver_ok.
  assert (HostOk (fixed_of m) quiet_host) as Hh by apply _.
  pose proof (run_root_hash small_zero false machine_driver quiet_host m [] [] 100 Hd Hh Hm Ei) as Hr.
  rewrite Hn, Ec in Hr. specialize (Hr eq_refl ltac:(split; [discriminate 1|reflexivity])). cbn [Z.ltb Z.compare] in Hr.
  destruct Hr as [Hr|[Hr|[Hr _] ] ]; [by left|by right|discriminate Hr].
Defined.

Lemma get_proof_correct_witness :
  exists m p m', ready_to_hash m /\
    get_proof small_zero 2 no_schedule m RAM_START 12 = Done (p, m') /\ verify p = Done true /\ m_root_hash p = state_root m.
Proof.
  destruct (new_machine_ready halt_program []) as (t & m & _ & Hr & _); [apply words_bytes|].
  assert (is_uint 64 RAM_START) as Ha by (split; [discriminate 1|reflexivity]).
  pose proof (get_proof_correct small_zero 2 no_schedule _ RAM_START 12 Hr eq_refl Ha) as Hp.
  change (RAM_START `mod` 2 ^ 12 =? 0) with true in Hp. change ((5 <=? 12) && (12 <=? 64)) with true in Hp. cbv beta iota delta [negb] in Hp.
  destruct Hp as (p & m' & E & _ & _ & Hv & Hroot & _). eexists _, p, m'. split; [exact Hr|]. split; [exact E|]. split; [exact Hv|exact Hroot].
Defined.
End concrete.

(** The start is well formed. *)
Lemma hidden_start_ready : exists m, hidden_start = Done m /\ @machine_ready small_hasher m.
Proof.
  destruct (new_machine_ready store_program flush_program) as (t & m & Et & _ & _ & Hm & _ & E); [apply words_bytes|].
  exists m. split; [|exact Hm]. apply outcome_bind_done. exists (@example_with small_hasher store_program flush_program t).
  split; apply outcome_bind_done; [exists t; split; [exact Et|reflexivity]|exists (true, m); split; [exact E|reflexivity] ].
Qed.

(** C19: the microarchitecture can hide a written page from the tree: there is a
    machine, well formed and storing the hashes of its state, whose run of three
    instructions of each processor, the first of which writes a page and the second
    of which invalidates, through the bridge, the write entry of the translation
    cache for that page, leaves the page changed; after the root hash is then asked
    for, the hash stored of that page is still the one before the write, and
    [verify_dirty_page_maps] reports the machine as broken.  (The bridge clears the
    field of the entry without marking the page written through it, as the flushes
    of the interpreter do.  The hash function is one that is quick to evaluate.) *)
Theorem bridge_hides_writes :
  exists m0 m, hidden_start = Done m0 /\ @machine_ready small_hasher m0 /\ hidden_run m0 = Done m /\
    @state_hash small_hasher m hidden_page <> @state_hash small_hasher m0 hidden_page /\
    stored_after m = Done (@state_hash small_hasher m0 hidden_page, false).
Proof.
  destruct hidden_start_ready as (m0 & E0 & H0).
  assert (match hidden_start with
          | Done m0 =>
              match hidden_run m0 with
              | Done m =>
                  negb (@state_hash small_hasher m hidden_page =? @state_hash small_hasher m0 hidden_page) &&
                  match stored_after m with
                  | Done (stored, clean) => negb clean && (stored =? @state_hash small_hasher m0 hidden_page)
                  | _ => false
                  end
              | _ => false
              end
          | _ => false
          end = true) as E by (vm_cast_no_check (eq_refl true)).
  rewrite E0 in E. destruct (hidden_run m0) as [m|] eqn:Er; [|discriminate E]. apply andb_prop in E as [Hne E].
  destruct (stored_after m) as [ [stored [|] ]|] eqn:Es; [discriminate E| |discriminate E].
  exists m0, m. split; [exact E0|]. split; [exact H0|]. split; [exact Er|]. cbn [negb andb] in E.
  split; [by apply Z.eqb_neq, negb_true_iff|]. apply Z.eqb_eq in E. by rewrite <- E.
Qed.
