(* ===== verification/UarchRecordSpec.v ===== *)
(** * What is recorded is accepted

    The recorder keeps the Merkle tree of a loggable machine up to date, and each
    access it logs is one that the verifier accepts: a step of the
    microarchitecture that succeeds has a log that [verify_step_uarch] accepts. *)

From S2P Require Import MachineRun UarchCorrect Prelude CppInt Constants UarchAccess UarchStep Bytes Pma PmaSpec MachineState UarchBridge UarchBridgeSpec UarchState UarchStateSpec Hasher MerkleProof AccessLog UarchReplay StateImage UarchReplaySpec MachineMerkleTree Tlb MachineRegs MachineMerkleTreeSpec MachineTreeProofs Machine MachinePages MachineHash MachineAnswers MachineOk UarchRecord UarchTyped StateWords Loggable.

Section record.
Context `{i_hasher} (zero uarch_pristine_state_hash : hash_type) (uarch_pristine_ram : list Z) (n : Z) (schedules : merkle_ref -> list nat).
Implicit Types (m : machine) (r : uarch_refs) (a : uarch_record) (rp : uarch_replay).

(** ** Two copies of the state

    The copy on which the step runs on its own marks the pages it writes; that of
    the recorder hashes them. *)

Definition mirrors r m : Prop := same_contents (set_refs r m) m.

Lemma mirrors_refl m : mirrors (m_refs m) m.
Proof. unfold mirrors. assert (set_refs (m_refs m) m = m) as -> by by destruct m. done. Qed.

Lemma same_contents_refs r m1 m2 : m_merkle_pmas m2 = m_merkle_pmas m1 -> same_contents (set_refs r m1) (set_refs r m2).
Proof.
  intros Hr. split; [done|by destruct r as [u [] c]|by destruct r as [[] s c]|done| |done]. intros x p Hx. by exists p.
Qed.

Lemma mirrors_update r m m' : mirrors r m -> same_contents m m' -> mirrors r m'.
Proof.
  unfold mirrors. intros Hm Hs. etrans; [|exact Hs]. etrans; [|exact Hm]. apply same_contents_refs. symmetry. by apply sc_refs.
Qed.

Lemma mirrors_words r m : mirrors r m -> same_words (memory_of r) (memory_of (m_refs m)).
Proof. exact (same_contents_words (set_refs r m) m). Qed.

(** The registers of the microarchitecture are the same. *)
Lemma mirrors_uarch r m : mirrors r m ->
  us_x (m_us r) = us_x (uarch_of m) /\ us_pc (m_us r) = us_pc (uarch_of m) /\ us_cycle (m_us r) = us_cycle (uarch_of m) /\
  us_halt_flag (m_us r) = us_halt_flag (uarch_of m).
Proof. intros Hm. rewrite (sc_uarch _ _ Hm). done. Qed.

(** Updates of the registers leave the memory alone. *)
Definition registers_only (f : uarch_state -> uarch_state) : Prop :=
  forall p q u, f (upd_us_shadow_state (fun _ => p) (upd_us_ram (fun _ => q) u)) = upd_us_shadow_state (fun _ => p) (upd_us_ram (fun _ => q) (f u)).

Lemma registers_only_kept f u : registers_only f -> us_ram (f u) = us_ram u /\ us_shadow_state (f u) = us_shadow_state u.
Proof.
  intros Hf. assert (u = upd_us_shadow_state (fun _ => us_shadow_state u) (upd_us_ram (fun _ => us_ram u) u)) as E by by destruct u.
  rewrite E at 1 3. by rewrite Hf.
Qed.

Lemma mirrors_registers f r m : registers_only f -> mirrors r m -> mirrors (on_us f r) (set_uarch (f (uarch_of m)) m).
Proof.
  intros Hf [H1 H2 H3 H4 H5 H6]. split; [done|exact H2| |exact H4| |exact H6].
  - change (f (uarch_of m) = upd_us_shadow_state (fun _ => us_shadow_state (f (uarch_of m))) (upd_us_ram (fun _ => us_ram (f (uarch_of m))) (f (m_us r)))).
    destruct (registers_only_kept f (uarch_of m) Hf) as [-> ->]. rewrite H3 at 1. by rewrite Hf.
  - intros x p Hx. destruct (registers_only_kept f (uarch_of m) Hf) as [E1 E2], (registers_only_kept f (m_us r) Hf) as [E3 E4].
    destruct (H5 x p) as (p' & Hp' & Hs).
    { destruct x; cbn in Hx |- *; rewrite ?E3, ?E4 in Hx; done. }
    exists p'. split; [|done]. destruct x; cbn in Hp' |- *; rewrite ?E1, ?E2; done.
Qed.

(** ** The replay of an access *)

(** The replay has consumed what was recorded so far. *)
Record replaying rp a : Prop := {
  rp_root : rp_root_hash rp = image_root (state_image (rc_m a));
  rp_position : rp_next_access rp = Z.of_nat (length (m_accesses (rc_log a)));
}.

(** The accesses of the rest of the log *)
Definition rest_of rp a : Prop :=
  m_accesses (rc_log a) `prefix_of` rp_accesses rp /\ Z.of_nat (length (rp_accesses rp)) < 2 ^ 32.

Lemma next_recorded rp a a' (x : access) im :
  replaying rp a -> rest_of rp a' -> m_accesses (rc_log a') = m_accesses (rc_log a) ++ [x] -> im = state_image (rc_m a) -> at_access im x rp.
Proof.
  intros [Hr Hp] [Hpre _] E ->. split; [|done]. rewrite Hp, Nat2Z.id. eapply prefix_lookup_Some; [|exact Hpre]. rewrite E.
  by rewrite lookup_app_r, Nat.sub_diag by lia.
Qed.

Lemma replaying_next rp a a' (x : access) h :
  replaying rp a -> rest_of rp a' -> m_accesses (rc_log a') = m_accesses (rc_log a) ++ [x] -> h = image_root (state_image (rc_m a')) ->
  replaying (advance h rp) a' /\ rp_accesses (advance h rp) = rp_accesses rp.
Proof.
  intros [Hr Hp] [Hpre Hlen] E ->. split; [|done]. split; [done|]. cbn [advance rp_next_access]. apply prefix_length in Hpre.
  rewrite Hp, E, length_app in *. cbn [length] in *. rewrite uint_id by (unfold is_uint; lia). lia.
Qed.

(** ** Calls *)

(** Between calls, with [k] calls to go *)
Record recording r a (k : nat) : Prop := {
  rd_loggable : loggable (rc_m a);
  rd_hashed : hashed (rc_m a);
  rd_mirrors : mirrors r (rc_m a);
  rd_nonce : m_merkle_update_nonce (m_t (rc_m a)) + 2 * Z.of_nat k < 2 ^ 64 - 1;
}.

(** The log grew by at most [k] accesses, of a machine with the same ranges. *)
Record grows a a' (k : nat) : Prop := {
  gr_prefix : m_accesses (rc_log a) `prefix_of` m_accesses (rc_log a');
  gr_length : (length (m_accesses (rc_log a')) <= length (m_accesses (rc_log a)) + k)%nat;
  gr_ranges : m_merkle_pmas (rc_m a') = m_merkle_pmas (rc_m a);
}.

(** The recorder does what the machine does, and the replay what the recorder did. *)
Definition recorded {A} (c : uarch_replay -> outcome A * uarch_replay) (x : A) r' a a' k (j : nat) : Prop :=
  recording r' a' k /\ grows a a' j /\
  forall rp, replaying rp a -> rest_of rp a' -> exists rp', c rp = (Done x, rp') /\ replaying rp' a' /\ rp_accesses rp' = rp_accesses rp.

(** ** One access *)

(** A call of a method that returns *)
Lemma then_done {T U} (c : method uarch_record T) (f : T -> method uarch_record U) a x a' : c a = (Done x, a') -> (c ≫= f) a = f x a'.
Proof. unfold mbind, method_bind. by intros ->. Qed.

Lemma then_pass {T} c e (f : unit -> method uarch_record T) a : c = false -> (attempt (throw_if c e) ≫= f) a = f tt a.
Proof. intros ->. by apply then_done. Qed.

Lemma then_attempt {T U} (x : T) o (f : T -> method uarch_record U) a : o = Done x -> (attempt o ≫= f) a = f x a.
Proof. intros ->. by apply then_done. Qed.

Lemma aligned_passes w : word_address w -> negb ((w &ᵇ 7) =? 0) = false.
Proof. intros [_ Hal]. change 7 with (2 ^ 3 - 1). rewrite land_ones_mod by lia. change (2 ^ 3) with 8. by rewrite Hal. Qed.

Lemma same_state_image m m' i : same_contents m m' -> merkle_ok m -> state_image m' i = state_image m i.
Proof. intros Hs Hok. unfold state_image. by rewrite (same_page_at m m'). Qed.

(** A word that the recorder can read and write *)
Definition recordable m (w : Z) : Prop := word_address w /\ is_Some (page_at m (w / PMA_PAGE_SIZE)).

Lemma leaf_done m w :
  loggable m -> hashed m -> recordable m w ->
  leaf_of zero w m = Done (siblings_of (state_image m) 5 (pleaf_aligned w), leaf_data (state_image m) (w / 32)).
Proof. intros Hm Hh [[Hw _] [d Hd]]. apply (leaf_of_spec zero m w d); [apply Hm|done..]. Qed.

Lemma log_read_done a w v t :
  loggable (rc_m a) -> hashed (rc_m a) -> recordable (rc_m a) w -> image_word (state_image (rc_m a)) w = v ->
  log_read zero w v (Some t) a =
    (Done v, UarchRecord (rc_m a) (push_access (read_access (state_image (rc_m a)) w) t (rc_log a))).
Proof.
  intros Hm Hh Hw <-. pose proof (state_image_valid _ (lg_state _ Hm)) as Hv. pose proof (leaf_done _ _ Hm Hh Hw) as Hl. destruct Hw as [Hw _].
  unfold log_read. rewrite then_pass by (by apply aligned_passes). rewrite (then_done get_machine _ a (rc_m a) a) by done.
  rewrite (then_attempt _ _ _ _ Hl). rewrite (then_attempt _ _ _ _ (get_data_hash_leaf _ (length_leaf_data _ _))).
  rewrite (then_attempt (image_word (state_image (rc_m a)) w)) by (destruct Hw; by apply get_word_leaf_at).
  rewrite then_pass by (by rewrite Z.eqb_refl). by erewrite then_done.
Qed.

Lemma log_before_write_done a w v t :
  loggable (rc_m a) -> hashed (rc_m a) -> recordable (rc_m a) w ->
  log_before_write zero w v (Some t) a =
    (Done tt, UarchRecord (rc_m a) (push_access (write_access (state_image (rc_m a)) w v) t (rc_log a))).
Proof.
  intros Hm Hh Hw. pose proof (leaf_done _ _ Hm Hh Hw) as Hl. destruct Hw as [Hw _].
  unfold log_before_write. rewrite then_pass by (by apply aligned_passes). rewrite (then_done get_machine _ a (rc_m a) a) by done.
  rewrite (then_attempt _ _ _ _ Hl). rewrite (then_attempt _ _ _ _ (get_data_hash_leaf _ (length_leaf_data _ _))).
  rewrite (then_attempt (leaf_data (image_set w v (state_image (rc_m a))) (w / 32))) by (destruct Hw; by apply replace_word_leaf).
  by rewrite (then_attempt _ _ _ _ (get_data_hash_leaf _ (length_leaf_data _ _))).
Qed.

(** The machine of the recorder after the word is stored and its page updated *)
Lemma update_after_write_done a w v m0 :
  loggable m0 -> hashed m0 -> word_address w -> word_written w v m0 (rc_m a) -> m_merkle_update_nonce (m_t m0) < 2 ^ 64 - 1 ->
  exists m', update_after_write zero w a = (Done tt, UarchRecord m' (rc_log a)) /\ same_contents (rc_m a) m' /\ hashed m' /\
    m_merkle_update_nonce (m_t m') = m_merkle_update_nonce (m_t m0) + 1.
Proof.
  intros Hm Hh Hw Hww Hn. destruct (word_written_update zero w v m0 (rc_m a) (lg_state _ Hm) Hh (proj1 Hw) Hww Hn) as (m' & E & Hs & Hh' & Hn').
  exists m'. split; [|done]. unfold update_after_write. rewrite then_pass by (by apply aligned_passes).
  rewrite (then_done get_machine _ a (rc_m a) a) by done. rewrite (then_attempt _ _ _ _ E). by erewrite then_done.
Qed.

(** ** Accesses and their replay *)

Lemma grows_push a a' (x : access) t : 
  rc_log a' = push_access x t (rc_log a) -> m_merkle_pmas (rc_m a') = m_merkle_pmas (rc_m a) ->
  m_accesses (rc_log a') = m_accesses (rc_log a) ++ [x] /\ grows a a' 1.
Proof.
  intros E Em. assert (m_accesses (rc_log a') = m_accesses (rc_log a) ++ [x]) as E' by by rewrite E. split; [done|]. split.
  - rewrite E'. by eexists.
  - rewrite E', length_app. cbn. lia.
  - done.
Qed.

Lemma read_recorded {A} (f : Z -> A) r a k w v t :
  recording r a (S k) -> recordable (rc_m a) w -> image_word (state_image (rc_m a)) w = v ->
  exists a', log_read zero w v (Some t) a = (Done v, a') /\
    forall text, recorded (fun rp => rp_read f (check_read zero w text rp) rp) (f v) r a a' k 1.
Proof.
  intros [Hm Hh Hr Hn] Hw Hv. eexists. split; [by apply log_read_done|]. intros text. set (im := state_image (rc_m a)) in *.
  destruct (grows_push a (UarchRecord (rc_m a) (push_access (read_access im w) t (rc_log a))) (read_access im w) t eq_refl eq_refl) as [Hacc Hg].
  split; [split; try done; cbn [rc_m]; lia|]. split; [done|]. intros rp Hrp Hrest.
  pose proof (next_recorded _ _ _ _ im Hrp Hrest Hacc eq_refl) as Hat.
  destruct (replaying_next rp a _ _ (rp_root_hash rp) Hrp Hrest Hacc (rp_root _ _ Hrp)) as [Hrp' Hacc'].
  eexists. split; [|by split]. unfold rp_read. rewrite (read_accepted zero im w text rp); [by rewrite Hv|by apply state_image_valid, Hm| |done].
  destruct Hw as [[Hw Hal] _]. by split.
Qed.

(** The first update of a flag leaves the machine [m0]. *)
Lemma write_recorded_at m0 r r' a a1 k w v t :
  recording r a (S k) -> word_address w -> is_uint 64 v -> same_contents (rc_m a) m0 -> hashed m0 ->
  m_merkle_update_nonce (m_t m0) <= m_merkle_update_nonce (m_t (rc_m a)) + 1 -> word_written w v m0 (rc_m a1) ->
  loggable (rc_m a1) -> mirrors r' (rc_m a1) -> rc_log a1 = push_access (write_access (state_image (rc_m a)) w v) t (rc_log a) ->
  exists a', update_after_write zero w a1 = (Done tt, a') /\
    forall text, recorded (fun rp => rp_write (check_write zero w v text rp) rp) tt r' a a' k 1.
Proof.
  intros [Hm Hh Hr Hn] Hw Hv Hs0 Hh0 Hn0 Hww Hm1 Hr1 Hlog. pose proof (loggable_same _ _ Hs0 Hm) as Hm0.
  destruct (update_after_write_done a1 w v m0 Hm0 Hh0 Hw Hww ltac:(lia)) as (m2 & E & Hs & Hh2 & Hn2).
  eexists. split; [exact E|]. intros text. set (im := state_image (rc_m a)) in *.
  destruct (grows_push a (UarchRecord m2 (rc_log a1)) _ t Hlog) as [Hacc Hg].
  { cbn [rc_m]. by rewrite (sc_refs _ _ Hs), (ev_refs _ _ (ww_evolved _ _ _ _ Hww)), (sc_refs _ _ Hs0). }
  pose proof (so_merkle _ (lg_state _ Hm)) as Hok. pose proof (so_merkle _ (lg_state _ Hm1)) as Hok1.
  assert (image_root (state_image m2) = image_root (image_set w v im)) as Hroot.
  { rewrite <- state_root_image by (apply loggable_same with (rc_m a1); done). rewrite (same_state_root _ _ Hs Hok1), (word_written_root w v m0) by done.
    apply node_ext. intros i _. unfold leaf_hash. f_equal. apply leaf_data_ext. intros j _. unfold image_set. by rewrite (same_state_image (rc_m a)). }
  split; [split; cbn [rc_m]; [by apply (loggable_same (rc_m a1))|done|by apply (mirrors_update r' (rc_m a1))|lia]|]. split; [done|]. intros rp Hrp Hrest.
  pose proof (next_recorded _ _ _ _ im Hrp Hrest Hacc eq_refl) as Hat.
  destruct (replaying_next rp a _ _ (image_root (image_set w v im)) Hrp Hrest Hacc) as [Hrp' Hacc']; [by rewrite <- Hroot|].
  eexists. split; [|by split]. unfold rp_write. rewrite (write_accepted zero im w v text rp); [done|by apply state_image_valid, Hm| |done..].
  destruct Hw as [Hw Hal]. by split.
Qed.

Lemma write_recorded r r' a a1 k w v t :
  recording r a (S k) -> word_address w -> is_uint 64 v -> word_written w v (rc_m a) (rc_m a1) ->
  loggable (rc_m a1) -> mirrors r' (rc_m a1) -> rc_log a1 = push_access (write_access (state_image (rc_m a)) w v) t (rc_log a) ->
  exists a', update_after_write zero w a1 = (Done tt, a') /\
    forall text, recorded (fun rp => rp_write (check_write zero w v text rp) rp) tt r' a a' k 1.
Proof. intros Ha Hw Hv Hww. apply (write_recorded_at (rc_m a) r); try done; [apply Ha|lia]. Qed.

(** ** Registers of the microarchitecture *)

Definition uarch_x (i : Z) : machine_reg := nth (Z.to_nat i) (drop 3 shadow_uarch_state) reg_uarch_x0.

Lemma uarch_x_cases (P : Z -> Prop) :
  (forall k, (k < 32)%nat -> P (Z.of_nat k)) -> forall i, 0 <= i < 32 -> P i.
Proof. intros HP i Hi. rewrite <- (Z2Nat.id i) by lia. apply HP. lia. Qed.

Lemma uarch_x_address i : 0 <= i < 32 -> machine_reg_address_at reg_uarch_x0 i = machine_reg_address (uarch_x i).
Proof. revert i. apply uarch_x_cases. intros k Hk. do 32 (destruct k as [|k]; [reflexivity|]). lia. Qed.

Lemma uarch_x_read s u i : 0 <= i < 32 -> read_reg s u (reg_stored (uarch_x i)) = Done (nth (Z.to_nat i) (us_x u) 0).
Proof. revert i. apply uarch_x_cases. intros k Hk. do 32 (destruct k as [|k]; [reflexivity|]). lia. Qed.

Lemma uarch_x_write s u i v :
  0 < i < 32 -> MachineRegs.write_reg s u (reg_stored (uarch_x i)) v = Done (s, upd_us_x (fun x => <[Z.to_nat i := v]> x) u).
Proof.
  intros Hi. assert (0 <= i < 32) as Hi' by lia. destruct Hi as [Hi _]. revert i Hi' Hi. apply (uarch_x_cases (fun i => 0 < i -> _)). intros k Hk Hpos.
  destruct k as [|k]; [lia|]. do 31 (destruct k as [|k]; [reflexivity|]). lia.
Qed.

Lemma uarch_x_shadow i : 0 <= i < 32 -> uarch_x i ∈ shadow_uarch_state.
Proof.
  intros Hi. rewrite <- (take_drop 3 shadow_uarch_state). apply elem_of_app. right. apply list_elem_of_In, nth_In. cbn. lia.
Qed.

Lemma register_address w : word_address (machine_reg_address w).
Proof.
  destruct (machine_reg_address_range w) as [Hal Hr]. split; [|done]. unfold is_uint.
  unfold PMA_SHADOW_STATE_LENGTH, PMA_SHADOW_UARCH_STATE_START, PMA_SHADOW_UARCH_STATE_LENGTH in Hr. lia.
Qed.

Lemma register_recordable m w v :
  loggable m -> read_reg (state_of m) (uarch_of m) (reg_stored w) = Done v -> w ∈ shadow_uarch_state ->
  recordable m (machine_reg_address w) /\ image_word (state_image m) (machine_reg_address w) = v /\ is_uint 64 v.
Proof.
  intros Hm Hr Hw. pose proof (lg_uarch _ Hm w v Hw Hr) as Hv. destruct (register_word m w v Hm Hr Hv) as [Hp Hi].
  split; [split; [apply register_address|done]|done].
Qed.

Lemma uarch_register_written m w v f :
  loggable m -> MachineRegs.write_reg (state_of m) (uarch_of m) (reg_stored w) v = Done (state_of m, f (uarch_of m)) ->
  kept_value w v = v -> is_uint 64 v -> registers_only f -> length (us_x (f (uarch_of m))) = length (us_x (uarch_of m)) ->
  word_written (machine_reg_address w) v m (set_uarch (f (uarch_of m)) m) /\ loggable (set_uarch (f (uarch_of m)) m).
Proof.
  intros Hm Hw Hk Hv Hf Hx. destruct (registers_only_kept f (uarch_of m) Hf) as [Er Es].
  assert (reg_changed w v (state_of m) (uarch_of m) (state_of m) (f (uarch_of m))) as Hc.
  { intros q. rewrite (machine_write_read _ _ w v _ _ q (loggable_registers _ Hm) Hw), Hk. done. }
  assert (word_written (machine_reg_address w) v m (set_uarch (f (uarch_of m)) m)) as Hww.
  { apply register_written; try done. intros [| | |]; cbn; [done|f_equal; exact Es|f_equal; exact Er|done]. }
  split; [done|]. by apply (loggable_uarch m w v).
Qed.

Lemma register_read_recorded {A} (f : Z -> A) r a k w q v t :
  recording r a (S k) -> q ∈ shadow_uarch_state -> w = machine_reg_address q ->
  read_reg (state_of (rc_m a)) (uarch_of (rc_m a)) (reg_stored q) = Done v ->
  is_uint 64 v /\ exists a', log_read zero w v (Some t) a = (Done v, a') /\
    forall text, recorded (fun rp => rp_read f (check_read zero w text rp) rp) (f v) r a a' k 1.
Proof.
  intros Ha Hq -> Hr. destruct (register_recordable (rc_m a) q v (rd_loggable _ _ _ Ha) Hr Hq) as (Hp & Hi & Hv).
  split; [done|]. by apply read_recorded.
Qed.

Lemma register_write_recorded r a k w q v t f :
  recording r a (S k) -> q ∈ shadow_uarch_state -> w = machine_reg_address q ->
  MachineRegs.write_reg (state_of (rc_m a)) (uarch_of (rc_m a)) (reg_stored q) v = Done (state_of (rc_m a), f (uarch_of (rc_m a))) ->
  kept_value q v = v -> is_uint 64 v -> registers_only f -> length (us_x (f (uarch_of (rc_m a)))) = length (us_x (uarch_of (rc_m a))) ->
  exists a', log_before_write_write_and_update zero w f v t a = (Done tt, a') /\
    forall text, recorded (fun rp => rp_write (check_write zero w v text rp) rp) tt (on_us f r) a a' k 1.
Proof.
  intros Ha Hq -> Hw Hk Hv Hf Hx. destruct (read_reg_total (state_of (rc_m a)) (uarch_of (rc_m a)) q) as [v0 Hr].
  destruct (register_recordable (rc_m a) q v0 (rd_loggable _ _ _ Ha) Hr Hq) as (Hp & _).
  destruct (uarch_register_written (rc_m a) q v f (rd_loggable _ _ _ Ha) Hw Hk Hv Hf Hx) as [Hww Hm1].
  pose proof (register_address q) as Hal. unfold log_before_write_write_and_update. rewrite then_pass by (by apply aligned_passes).
  rewrite (then_done _ _ _ _ _ (log_before_write_done a _ v t (rd_loggable _ _ _ Ha) (rd_hashed _ _ _ Ha) Hp)).
  erewrite (then_done (on_uarch f)) by reflexivity. cbn [rc_m rc_log]. eapply (write_recorded r); try done. by apply mirrors_registers, Ha.
Qed.

(** The update of a page that has not changed *)
Lemma word_written_same m w : loggable m -> recordable m w -> word_written w (image_word (state_image m) w) m m.
Proof.
  intros Hm [_ Hp]. pose proof (so_merkle _ (lg_state _ Hm)) as Hok. split; [apply Hm| |done|].
  - split; [done..|]. intros x p Hx Hd. exists p. split; [done|]. apply same_place_refl.
    destruct (mk_entries _ Hok x Hx) as (q & Hq & He). congruence.
  - intros i. unfold image_set, image_word. by destruct (Z.eqb_spec i (w / 8)) as [->|].
Qed.

Lemma set_uarch_same m : set_uarch (uarch_of m) m = m.
Proof. by destruct m as [[] t l]. Qed.

(** The flag is assigned once the word is logged and its page updated. *)
Lemma flag_write_recorded r a k (b : bool) t (f : bool -> uarch_state -> uarch_state) (w := machine_reg_address reg_uarch_halt_flag) :
  recording r a (S k) -> f = (fun b => upd_us_halt_flag (fun _ => b)) ->
  exists a', log_before_write_write_and_update_bool zero w f b t a = (Done tt, a') /\
    forall text, recorded (fun rp => rp_write (check_write zero w (Z.b2z b) text rp) rp) tt (on_us (upd_us_halt_flag (fun _ => b)) r) a a' k 1.
Proof.
  intros Ha ->. destruct Ha as [Hm Hh Hr Hn]. pose proof (register_address reg_uarch_halt_flag : word_address w) as Hw.
  assert (reg_uarch_halt_flag ∈ shadow_uarch_state) as Hq by apply list_elem_of_here.
  destruct (register_recordable (rc_m a) reg_uarch_halt_flag _ Hm eq_refl Hq) as (Hp & _). fold w in Hp.
  unfold log_before_write_write_and_update_bool, log_before_write_write_and_update.
  set (v := Z.b2z b). assert (negb (v =? 0) = b) as -> by by destruct b.
  set (a1 := UarchRecord (rc_m a) (push_access (write_access (state_image (rc_m a)) w v) t (rc_log a))).
  destruct (update_after_write_done a1 w _ (rc_m a) Hm Hh Hw (word_written_same _ _ Hm Hp) ltac:(lia)) as (m0 & E0 & Hs0 & Hh0 & Hn0).
  cbn [rc_m rc_log a1] in Hs0. pose proof (loggable_same _ _ Hs0 Hm) as Hm0.
  erewrite then_done.
  2: { rewrite then_pass by (by apply aligned_passes). rewrite (then_done _ _ _ _ _ (log_before_write_done a w v t Hm Hh Hp)).
       rewrite (then_done (on_uarch (fun u => u)) _ _ tt a1) by (unfold on_uarch; cbn [rc_m rc_log]; by rewrite set_uarch_same). exact E0. }
  destruct (uarch_register_written m0 reg_uarch_halt_flag v (upd_us_halt_flag (fun _ => b)) Hm0) as [Hww Hm1]; [by destruct b|by destruct b|by destruct b|done..|].
  erewrite (then_done (on_uarch _)) by reflexivity. cbn [rc_m rc_log].
  eapply (write_recorded_at m0 r); try done; [by destruct b|lia|].
  apply mirrors_registers; [done|]. by apply (mirrors_update r (rc_m a)).
Qed.

(** ** Words of memory *)

(** The entry that the recorder finds *)
Lemma entry_found r m w ref p : mirrors r m -> memory_pma (memory_of r) w = Done (ref, p) ->
  exists p', memory_pma (memory_of (m_refs m)) w = Done (ref, p') /\ same_memory p p' /\ same_shape p p'.
Proof.
  intros Hr E. destruct (same_memory_pma _ _ (mirrors_words _ _ Hr) _ _ _ E) as (p' & E' & Hp). exists p'.
  split; [done|]. split; [done|]. by apply same_memory_shape.
Qed.

(** The bridge is not what reads the shadow of the memory map. *)
Lemma bridge_not_pmas m w ref p : loggable m -> memory_pma (memory_of (m_refs m)) w = Done (ref, p) -> get_istart_E p = true -> ~ in_shadow_pmas w.
Proof. intros Hm E HE Hw. destruct (lg_pmas _ Hm w Hw) as (ref' & p' & E' & HE'). congruence. Qed.

Lemma word_read_recorded r a k w v :
  recording r a (S k) -> word_address w -> do_read_word (memory_of r) w = Done v ->
  is_uint 64 v /\ exists a', rc_read_word zero w a = (Done v, a') /\
    forall text, recorded (fun rp => rp_read id (check_read zero w text rp) rp) v r a a' k 1.
Proof.
  intros Ha Hw Hr. pose proof Ha as [Hm Hh Hmi _]. unfold do_read_word in Hr. apply outcome_bind_done in Hr as ([ref p] & E & Hr).
  destruct (entry_found _ _ _ _ _ Hmi E) as (p' & E' & Hp & Hsh). pose proof Hsh as (_ & _ & HE & Hst & _ & Hfl).
  assert (forall v, is_Some (page_at (rc_m a) (w / PMA_PAGE_SIZE)) /\ image_word (state_image (rc_m a)) w = v -> is_uint 64 v /\
    forall t, exists a', log_read zero w v (Some t) a = (Done v, a') /\
    forall text, recorded (fun rp => rp_read id (check_read zero w text rp) rp) v r a a' k 1) as Hlog.
  { intros x [Hpg <-]. split; [apply state_image_valid, Hm|]. intros t. by apply (read_recorded id). }
  unfold rc_read_word. rewrite then_pass by (by apply aligned_passes). rewrite (then_done _ _ a (ref, p') a) by (unfold on_refs; by rewrite E').
  rewrite HE. destruct (get_istart_E p) eqn:HEp.
  - rewrite <- (same_read_register _ _ (mirrors_words _ _ Hmi)) in Hr. change (um_s (memory_of (m_refs (rc_m a)))) with (state_of (rc_m a)) in Hr.
    destruct (Hlog v) as [Hv Hl]; [apply (bridge_word (rc_m a)); [done|done|]; by apply (bridge_not_pmas (rc_m a) _ ref p')|]. split; [done|].
    destruct (bridge_read_named (rc_m a) w v Hr) as [t Ht]. destruct (Hl t) as (a' & El & Hrec). exists a'. split; [|done].
    unfold read_register. rewrite (then_done _ _ a v a) by (unfold on_refs; by rewrite <- Hr). rewrite Ht. by rewrite (then_done _ _ _ _ _ El).
  - apply outcome_bind_done in Hr as ([] & Ht & Hr). rewrite Hfl. rewrite <- Hst, <- (same_aliased_read _ _ _ Hp) in Hr.
    destruct (Hlog v) as [Hv Hl]; [by apply (memory_read (rc_m a) w ref p'); [..|congruence|]|]. split; [done|].
    destruct (Hl "memory"%string) as (a' & El & Hrec). exists a'. split; [|done].
    rewrite (then_attempt tt) by done. rewrite (then_attempt v) by done. by rewrite (then_done _ _ _ _ _ El).
Qed.

(** Stores to the two copies *)
Lemma same_store_both x q q' m m' p :
  same_contents m m' -> deref_pma m x = Done p -> same_memory q q' -> same_contents (store_pma x q m) (store_pma x q' m').
Proof.
  intros Hs Hd Hq. destruct (sc_entries _ _ Hs x p Hd) as (p' & Hd' & _). pose proof Hs as [H1 H2 H3 H4 H5 H6]. split; [by destruct x| | | | |by destruct x].
  - destruct x; cbn; [|done|done|]; (etrans; [exact (f_equal (upd_pmas _) H2) || exact (f_equal (upd_empty_pma _) H2)|]);
      change (state_of (set_state ?s _)) with s; reflexivity.
  - destruct x; cbn; [done| | |done]; (etrans; [exact (f_equal (upd_us_shadow_state _) H3) || exact (f_equal (upd_us_ram _) H3)|]);
      change (uarch_of (set_uarch ?s _)) with s; reflexivity.
  - destruct x; cbn; try done. change (length (<[i:=q']> (s_pmas (state_of m'))) = length (<[i:=q]> (s_pmas (state_of m)))). by rewrite !length_insert.
  - intros y e. rewrite (deref_store m x p), (deref_store m' x p') by done. case_decide; [|apply H5]. intros [= <-]. by exists q'.
Qed.

Lemma mirrors_store r m ref p q q' :
  mirrors r m -> UarchState.deref (memory_of r) ref = Some p -> same_memory q q' ->
  mirrors (set_memory (store_ref ref q (memory_of r)) r) (store_pma (mref ref) q' m).
Proof.
  unfold mirrors. intros Hs Hd Hq. etrans; [|eapply (same_store_both (mref ref) q q' (set_refs r m)); [exact Hs| |exact Hq]].
  - rewrite <- (mref_store (set_refs r m) ref q). cbn [m_refs set_refs]. apply same_contents_refs. by destruct ref.
  - by apply mref_deref.
Qed.

Lemma mirrors_bridge r m s1 :
  mirrors r m -> s_pmas s1 = s_pmas (m_s r) -> s_empty_pma s1 = s_empty_pma (m_s r) ->
  mirrors (set_memory (UarchMemory (us_ram (m_us r)) s1) r) (set_state (with_ranges (s_pmas (state_of m)) (s_empty_pma (state_of m)) s1) m).
Proof.
  intros [H1 H2 H3 H4 H5 H6] Hp He. split; [done|done| | | |exact H6].
  - change (uarch_of m = upd_us_shadow_state (fun _ => us_shadow_state (uarch_of m)) (upd_us_ram (fun _ => us_ram (uarch_of m)) (upd_us_ram (fun _ => us_ram (m_us r)) (m_us r)))).
    etrans; [exact H3|]. change (uarch_of (set_refs r m)) with (m_us r). by destruct (m_us r).
  - change (length (s_pmas (state_of m)) = length (s_pmas s1)). by rewrite Hp.
  - intros x p Hx. apply (H5 x p). destruct x; cbn in Hx |- *; [|done|done|].
    + change (s_pmas (state_of _)) with (s_pmas s1) in Hx. by rewrite Hp in Hx.
    + change (s_empty_pma (state_of _)) with (s_empty_pma s1) in Hx. by rewrite He in Hx.
Qed.

Lemma same_memory_sym p p' : same_memory p p' -> same_memory p' p.
Proof. intros [-> Hl]. by destruct p. Qed.

Lemma page_before m w v m' : loggable m -> word_address w -> word_written w v m m' -> recordable m w.
Proof.
  intros Hm Hw Hww. split; [done|]. pose proof (ww_page _ _ _ _ Hww) as [d Hd]. pose proof (ww_evolved _ _ _ _ Hww) as Hev.
  destruct (page_at m (w / PMA_PAGE_SIZE)) as [d0|] eqn:E; [by exists d0|].
  exfalso. apply (evolved_some m m' (w / PMA_PAGE_SIZE) (so_merkle _ (lg_state _ Hm)) Hev); [congruence|done].
Qed.

Lemma mirrors_wf r m : loggable m -> mirrors r m -> machine_wf (m_s r).
Proof.
  intros Hm Hr. pose proof (mv_machine _ (lg_memory _ Hm)) as Hwf. rewrite (sw_state _ _ (mirrors_words _ _ Hr)) in Hwf.
  change (um_s (memory_of r)) with (m_s r) in Hwf. destruct Hwf. by constructor.
Qed.

Lemma bridge_write_recorded r a k w v s1 :
  recording r a (S k) -> word_address w -> is_uint 64 v -> UarchBridge.write_register w (m_s r) v = Done s1 ->
  exists a', write_register zero w v a = (Done tt, a') /\
    forall text, recorded (fun rp => rp_write (check_write zero w v text rp) rp) tt (set_memory (UarchMemory (us_ram (m_us r)) s1) r) a a' k 1.
Proof.
  intros Ha Hw Hv E. pose proof Ha as [Hm Hh Hmi _]. destruct (bridge_frame w (m_s r) v s1 (mirrors_wf _ _ Hm Hmi) E) as [Hp He].
  pose proof (same_write_register _ _ (mirrors_words _ _ Hmi) w v s1 E) as E'. change (um_s (memory_of (m_refs (rc_m a)))) with (state_of (rc_m a)) in E'.
  set (s2 := with_ranges (s_pmas (state_of (rc_m a))) (s_empty_pma (state_of (rc_m a))) s1) in *.
  pose proof (bridge_written (rc_m a) w v s2 Hm Hv E') as Hww. pose proof (loggable_bridge (rc_m a) w v s2 Hm Hv E') as Hm1.
  destruct (bridge_write_named (rc_m a) w v s2 E') as [t Ht].
  unfold write_register. rewrite Ht. rewrite (then_done _ _ _ _ _ (log_before_write_done a w v t Hm Hh (page_before _ _ _ _ Hm Hw Hww))).
  erewrite (then_done (on_refs _)); [|unfold on_refs; cbn [rc_m]; unfold state_of in E'; rewrite E'; reflexivity].
  erewrite (then_done (put_memory _)) by reflexivity. cbn [rc_m rc_log].
  assert (set_refs (set_memory (UarchMemory (us_ram (m_us (m_refs (rc_m a)))) s2) (m_refs (rc_m a))) (rc_m a) = set_state s2 (rc_m a)) as -> by by destruct (rc_m a) as [[[] ? ?] ? ?].
  eapply (write_recorded r); try done. by apply mirrors_bridge.
Qed.

Lemma memory_write_recorded r a k w v ref p q q1 o :
  recording r a (S k) -> word_address w -> is_uint 64 v -> memory_pma (memory_of r) w = Done (ref, p) -> get_istart_E p = false ->
  flag_W (m_flags p) = true -> aliased_aligned_write p (uint64 (w - m_start p)) v = Done q -> mark_dirty_page q o = Done q1 ->
  exists a', rc_write_word zero w v a = (Done tt, a') /\
    forall text, recorded (fun rp => rp_write (check_write zero w v text rp) rp) tt (set_memory (store_ref ref q1 (memory_of r)) r) a a' k 1.
Proof.
  intros Ha Hw Hv E HE HW Hq Hq1. pose proof Ha as [Hm Hh Hmi _]. set (m := rc_m a) in *.
  destruct (entry_found _ _ _ _ _ Hmi E) as (p' & E' & Hp & Hsh). pose proof Hsh as (_ & _ & HE' & Hst & _ & Hfl).
  destruct (same_aliased_write _ _ _ _ _ Hp Hq) as (q' & Hq' & Hqq). rewrite <- Hst in Hq'. rewrite HE in HE'.
  destruct (memory_store m w ref p' q' v Hm Hw Hv E' HE' Hq') as (Hww & Hsh' & Hok' & Hpl & Hd').
  pose proof (loggable_store m w ref p' q' v Hm Hww Hd' (wf_memory _ (ok_wf _ (proj1 (memory_entry_found m w ref p' Hm Hw E' HE')))) Hsh' Hok' Hpl) as Hm1.
  assert (UarchState.deref (memory_of r) ref = Some p) as Hd.
  { unfold memory_pma in E. destruct (find_memory_pma_entry _ _ _) as [x|]; [|done]. destruct (UarchState.deref (memory_of r) x) eqn:Ex; [|done]. by injection E as <- <-. }
  unfold rc_write_word. rewrite then_pass by (by apply aligned_passes). rewrite (then_done _ _ a (ref, p') a) by (unfold on_refs; fold m; by rewrite E').
  rewrite HE', then_pass by (by rewrite Hfl, HW).
  rewrite (then_done _ _ _ _ _ (log_before_write_done a w v "memory" Hm Hh (page_before _ _ _ _ Hm Hw Hww))). rewrite (then_attempt _ _ _ _ Hq').
  erewrite (then_done (on_refs _)) by reflexivity. erewrite (then_done (put_memory _)) by reflexivity. cbn [rc_m rc_log]. fold m. rewrite mref_store.
  eapply (write_recorded r); try done. apply (mirrors_store r m ref p); [done..|].
  etrans; [|exact Hqq]. by apply same_memory_sym, (mark_dirty_page_same _ o).
Qed.

Lemma word_write_recorded r a k w v mem :
  recording r a (S k) -> word_address w -> is_uint 64 v -> do_write_word (memory_of r) w v = Done mem ->
  exists a', rc_write_word zero w v a = (Done tt, a') /\
    forall text, recorded (fun rp => rp_write (check_write zero w v text rp) rp) tt (set_memory mem r) a a' k 1.
Proof.
  intros Ha Hw Hv Hd. unfold do_write_word in Hd. apply outcome_bind_done in Hd as ([ref p] & E & Hd). destruct (get_istart_E p) eqn:HE.
  - apply outcome_bind_done in Hd as (s1 & E1 & [= <-]). destruct (bridge_write_recorded r a k w v s1 Ha Hw Hv E1) as (a' & Ea & Hrec). exists a'. split; [|done].
    destruct (entry_found _ _ _ _ _ (rd_mirrors _ _ _ Ha) E) as (p' & E' & _ & _ & _ & HE' & _).
    unfold rc_write_word. rewrite then_pass by (by apply aligned_passes). rewrite (then_done _ _ a (ref, p') a) by (unfold on_refs; by rewrite E').
    by rewrite HE', HE.
  - apply outcome_bind_done in Hd as ([] & HW & Hd). apply outcome_bind_done in Hd as (q & Hq & Hd). apply outcome_bind_done in Hd as (q1 & Hq1 & [= <-]).
    eapply memory_write_recorded; try done. by destruct (flag_W (m_flags p)).
Qed.

(** ** Every call *)

Lemma then_refs {T U} (f : uarch_refs -> T) (g : T -> method uarch_record U) a :
  (on_refs (fun r => Done (f r)) ≫= g) a = g (f (m_refs (rc_m a))) a.
Proof. done. Qed.

Lemma read_x_recorded r a k i :
  recording r a (S k) -> 0 <= i < 32 ->
  is_uint 64 (nth (Z.to_nat i) (us_x (m_us r)) 0) /\
  exists a', rc_op zero uarch_pristine_state_hash uarch_pristine_ram n schedules (ReadX i) a = (Done (nth (Z.to_nat i) (us_x (m_us r)) 0), a') /\
    recorded (rp_op zero uarch_pristine_state_hash (ReadX i)) (nth (Z.to_nat i) (us_x (m_us r)) 0) r a a' k 1.
Proof.
  intros Ha Hi. destruct (mirrors_uarch _ _ (rd_mirrors _ _ _ Ha)) as (-> & _).
  destruct (register_read_recorded id r a k (machine_reg_address_at reg_uarch_x0 i) _ _ "uarch.x" Ha (uarch_x_shadow _ Hi) (uarch_x_address _ Hi) (uarch_x_read _ _ _ Hi))
    as (Hv & a' & E & Hrec).
  split; [done|]. exists a'. split; [|apply Hrec]. cbn [rc_op]. rewrite then_pass by (by rewrite bool_decide_eq_true_2).
  by rewrite then_refs.
Qed.

Lemma write_x_recorded r a k i v :
  recording r a (S k) -> 0 <= i < 32 -> i <> 0 -> is_uint 64 v ->
  exists a', rc_op zero uarch_pristine_state_hash uarch_pristine_ram n schedules (WriteX i v) a = (Done tt, a') /\
    recorded (rp_op zero uarch_pristine_state_hash (WriteX i v)) tt (on_us (upd_us_x (fun x => <[Z.to_nat i := v]> x)) r) a a' k 1.
Proof.
  intros Ha Hi Hi0 Hv.
  assert (kept_value (uarch_x i) v = v) as Hk.
  { revert Hi. clear - n. revert i. apply uarch_x_cases. intros k Hk. do 32 (destruct k as [|k]; [reflexivity|]). lia. }
  destruct (register_write_recorded r a k (machine_reg_address_at reg_uarch_x0 i) (uarch_x i) v "uarch.x" (upd_us_x (fun x => <[Z.to_nat i := v]> x))
    Ha (uarch_x_shadow _ Hi) (uarch_x_address _ Hi)) as (a' & E & Hrec); [apply uarch_x_write; lia|done|done|by intros ? ? []|apply length_insert|].
  exists a'. cbn [rc_op rp_op]. rewrite (proj2 (Z.eqb_neq i 0)) by done. split; [|apply Hrec].
  rewrite then_pass by done. rewrite then_pass by (by rewrite bool_decide_eq_true_2). exact E.
Qed.

Lemma flag_word b : negb (Z.b2z b =? 0) = b.
Proof. by destruct b. Qed.

(** The console is not in the tree. *)
Definition printed (c : Z) m : machine := set_refs (UarchRefs (m_us (m_refs m)) (m_s (m_refs m)) (console (m_refs m) ++ [c])) m.

Lemma printed_page c m k : page_at (printed c m) k = page_at m k.
Proof.
  unfold page_at. change (m_merkle_pmas (printed c m)) with (m_merkle_pmas m). generalize (m_merkle_pmas m). intros refs.
  induction refs as [|x refs IH]; [done|]. cbn [page_among]. rewrite IH. reflexivity.
Qed.

Lemma printed_loggable c m : loggable m -> loggable (printed c m).
Proof.
  intros Hm. assert (evolved m (printed c m)) as Hev.
  { split; [done..|]. intros x p Hx Hd. exists p. split; [exact Hd|]. apply same_place_refl.
    destruct (mk_entries _ (so_merkle _ (lg_state _ Hm)) x Hx) as (q & Hq & He). congruence. }
  apply (loggable_kept m); [by apply same_layout_deref|done|split|apply Hm|apply Hm|apply Hm|].
  - apply (evolved_merkle_ok m); [done|apply Hm].
  - intros x p. exact (so_bytes _ (lg_state _ Hm) x p).
  - intros w ref p E HE. by exists p.
Qed.

Lemma printed_hashed c m : hashed m -> hashed (printed c m).
Proof.
  intros [Ht Hn]. split; change (m_t (printed c m)) with (m_t m).
  - apply (tree_of_ext (state_hash m)); [|done]. intros k _. symmetry. apply state_hash_page, printed_page.
  - intros k Hk. rewrite printed_page. by apply Hn.
Qed.

Lemma printed_root c m : image_root (state_image (printed c m)) = image_root (state_image m).
Proof. apply node_ext. intros i _. unfold leaf_hash. f_equal. apply leaf_data_ext. intros j _. unfold state_image. by rewrite printed_page. Qed.

Lemma put_char_recorded r a k c :
  recording r a (S k) ->
  exists a', rc_op zero uarch_pristine_state_hash uarch_pristine_ram n schedules (PutChar c) a = (Done tt, a') /\
    recorded (rp_op zero uarch_pristine_state_hash (PutChar c)) tt (UarchRefs (m_us r) (m_s r) (console r ++ [c])) a a' k 1.
Proof.
  intros [Hm Hh [H1 H2 H3 H4 H5 H6] Hn]. exists (UarchRecord (printed c (rc_m a)) (rc_log a)). split; [done|]. split; [split|split]; cbn [rc_m rc_log].
  - by apply printed_loggable.
  - by apply printed_hashed.
  - split; [done|exact H2|exact H3|exact H4|exact H5|exact (f_equal (fun l => l ++ [c]) H6)].
  - change (m_merkle_update_nonce (m_t (rc_m a)) + 2 * Z.of_nat k < 2 ^ 64 - 1). lia.
  - split; [done|cbn [rc_log]; lia|done].
  - intros rp [Hroot Hpos] _. eexists. split; [reflexivity|]. split; [|done]. split; [|done]. cbn [rp_root_hash rc_m]. by rewrite Hroot, printed_root.
Qed.

Lemma op_recorded {A} (o : uop A) r a k x r' :
  recording r a (S k) -> op_typed o -> usa_op uarch_pristine_ram o r = (Done x, r') ->
  exists a', rc_op zero uarch_pristine_state_hash uarch_pristine_ram n schedules o a = (Done x, a') /\ result_typed o x /\
    recorded (rp_op zero uarch_pristine_state_hash o) x r' a a' k 1.
Proof.
  intros Ha Ht Ho. destruct (mirrors_uarch _ _ (rd_mirrors _ _ _ Ha)) as (_ & Epc & Ecy & Eh). destruct o; cbn [usa_op op_typed result_typed] in *.
  - case_bool_decide as Hreg; [|done]. injection Ho as <- <-. destruct (read_x_recorded r a k reg Ha Hreg) as (Hv & a' & E & Hrec). by exists a'.
  - destruct (Z.eqb_spec reg 0) as [|Hne]; [done|]. case_bool_decide as Hreg; [|done]. injection Ho as <- <-.
    destruct (write_x_recorded r a k reg val Ha Hreg Hne Ht) as (a' & E & Hrec). by exists a'.
  - injection Ho as <- <-. destruct (register_read_recorded id r a k _ reg_uarch_pc _ "uarch.pc" Ha ltac:(set_solver) eq_refl eq_refl) as (Hv & a' & E & Hrec).
    rewrite Epc. exists a'. split; [|split; [done|apply Hrec]]. cbn [rc_op]. by rewrite then_refs.
  - injection Ho as <- <-. destruct (register_write_recorded r a k _ reg_uarch_pc val "uarch.pc" (upd_us_pc (fun _ => val)) Ha ltac:(set_solver) eq_refl eq_refl eq_refl Ht ltac:(by intros ? ? []) eq_refl)
      as (a' & E & Hrec). exists a'. split; [exact E|]. split; [done|apply Hrec].
  - injection Ho as <- <-. destruct (register_read_recorded id r a k _ reg_uarch_cycle _ "uarch.cycle" Ha ltac:(set_solver) eq_refl eq_refl) as (Hv & a' & E & Hrec).
    rewrite Ecy. exists a'. split; [|split; [done|apply Hrec]]. cbn [rc_op]. by rewrite then_refs.
  - injection Ho as <- <-. destruct (register_write_recorded r a k _ reg_uarch_cycle val "uarch.cycle" (upd_us_cycle (fun _ => val)) Ha ltac:(set_solver) eq_refl eq_refl eq_refl Ht ltac:(by intros ? ? []) eq_refl)
      as (a' & E & Hrec). exists a'. split; [exact E|]. split; [done|apply Hrec].
  - injection Ho as <- <-. destruct (register_read_recorded (fun v => negb (v =? 0)) r a k _ reg_uarch_halt_flag _ "uarch.halt_flag" Ha ltac:(set_solver) eq_refl eq_refl) as (Hv & a' & E & Hrec).
    rewrite Eh. exists a'. rewrite flag_word in Hrec. split; [|split; [done|apply Hrec]].
    cbn [rc_op]. rewrite then_refs. rewrite (then_done _ _ _ _ _ E). by rewrite flag_word.
  - injection Ho as <- <-. destruct (flag_write_recorded r a k true "uarch.halt_flag" _ Ha eq_refl) as (a' & E & Hrec). exists a'. split; [exact E|]. split; [done|apply Hrec].
  - injection Ho as <- <-. destruct (flag_write_recorded r a k false "uarch.halt_flag" _ Ha eq_refl) as (a' & E & Hrec). exists a'. split; [exact E|]. split; [done|apply Hrec].
  - injection Ho as Ed <-. destruct (word_read_recorded r a k paddr x Ha Ht Ed) as (Hv & a' & E & Hrec). exists a'. split; [exact E|]. split; [done|].
    cbn [rp_op]. rewrite (aligned_passes _ Ht). apply Hrec.
  - destruct (do_write_word (memory_of r) paddr val) as [mem|] eqn:Ed; [|done]. injection Ho as <- <-.
    destruct (word_write_recorded r a k paddr val mem Ha (proj1 Ht) (proj2 Ht) Ed) as (a' & E & Hrec). exists a'. split; [exact E|]. split; [done|].
    cbn [rp_op]. rewrite (aligned_passes _ (proj1 Ht)). apply Hrec.
  - done.
  - injection Ho as <- <-. destruct (put_char_recorded r a k c Ha) as (a' & E & Hrec). by exists a'.
Qed.

(** ** Programs *)

Abbreviation plain := (uarch_state_access uarch_pristine_ram).
Abbreviation recorder := (uarch_record_state_access zero uarch_pristine_state_hash uarch_pristine_ram n schedules).
Abbreviation replayer := (uarch_replay_state_access zero uarch_pristine_state_hash).

(** Records that differ in what is not replayed *)
Definition same_record a a' : Prop := rc_m a' = rc_m a /\ m_accesses (rc_log a') = m_accesses (rc_log a).

Lemma same_record_note t text a : same_record a (note t text a).
Proof. split; [done|]. unfold note, push_bracket. cbn [rc_log]. by destruct (m_annotations _). Qed.

Lemma recording_same r a a' k : same_record a a' -> recording r a k -> recording r a' k.
Proof. intros [Em _] []. split; by rewrite Em. Qed.

Lemma recording_less r a k j : (j <= k)%nat -> recording r a k -> recording r a j.
Proof. intros Hj [H1 H2 H3 H4]. split; [done..|lia]. Qed.

Lemma recorded_same {A} (c : uarch_replay -> outcome A * uarch_replay) x r' a a' b b' k j :
  same_record a a' -> same_record b b' -> recorded c x r' a b k j -> recorded c x r' a' b' k j.
Proof.
  intros Ha Hb (Hr & Hg & Hc). split; [by apply (recording_same r' b)|]. destruct Ha as [Em Ea], Hb as [Emb Eb].
  split; [destruct Hg; split; by rewrite ?Em, ?Emb, ?Ea, ?Eb|]. intros rp [H1 H2] Hrest. unfold rest_of in Hrest. rewrite Eb in Hrest.
  destruct (Hc rp) as (rp' & E & [H3 H4] & Hacc); [split; [by rewrite <- Em|by rewrite <- Ea]|done|].
  exists rp'. split; [done|]. split; [|done]. split; [by rewrite Emb|by rewrite Eb].
Qed.

Lemma grows_trans a b c i j : grows a b i -> grows b c j -> grows a c (i + j).
Proof. intros [H1 H2 H3] [H4 H5 H6]. split; [by etrans|lia|congruence]. Qed.

(** A call and what follows it *)
Lemma recorded_then {A B} (c : uarch_replay -> outcome A * uarch_replay) (d c' : uarch_replay -> outcome B * uarch_replay) x y r1 r2 a a1 a2 k1 k2 j1 j2 :
  (forall rp rp', c rp = (Done x, rp') -> c' rp = d rp') ->
  recorded c x r1 a a1 k1 j1 -> recorded d y r2 a1 a2 k2 j2 -> recorded c' y r2 a a2 k2 (j1 + j2).
Proof.
  intros Hcd (_ & Hg1 & Hc1) (Hr2 & Hg2 & Hc2). split; [done|]. split; [by apply (grows_trans _ a1)|].
  intros rp Hrp [Hpre Hlen]. destruct (Hc1 rp Hrp) as (rp1 & E1 & Hrp1 & Hacc1); [split; [|done]; etrans; [apply Hg2|done]|].
  destruct (Hc2 rp1 Hrp1) as (rp2 & E2 & Hrp2 & Hacc2); [unfold rest_of; by rewrite Hacc1|].
  exists rp2. split; [by rewrite (Hcd rp rp1)|]. split; [done|congruence].
Qed.

Lemma run_recorded {A} (p : prog A) : forall r a k (Q : nat -> A -> Prop) x r',
  recording r a k -> typed p k Q -> run plain p r = (Done x, r') ->
  exists a' j, run recorder p a = (Done x, a') /\ (j <= k)%nat /\ Q (k - j)%nat x /\ recorded (run replayer p) x r' a a' (k - j) j.
Proof.
  induction p as [A x0|A e|A X o kont IH|A B text p IHp kont IHk]; intros r a k Q x r' Ha Ht Hr; cbn [run typed] in Ht, Hr |- *.
  - injection Hr as <- <-. exists a, 0%nat. rewrite Nat.sub_0_r. split; [done|]. split; [lia|]. split; [done|]. split; [done|].
    split; [split; [done|lia|done]|]. intros rp Hrp _. by exists rp.
  - done.
  - destruct k as [|k]; [done|]. destruct Ht as [Ho Hk]. destruct (do_op plain o r) as [[y|e] r1] eqn:E; [|done].
    destruct (op_recorded o r a k y r1 Ha Ho E) as (a1 & E1 & Hy & Hrec). pose proof Hrec as (Ha1 & _).
    destruct (IH y r1 a1 k Q x r' Ha1 (Hk y Hy) Hr) as (a2 & j & E2 & Hj & HQ & Hrec2). exists a2, (S j).
    change (do_op recorder o a) with (rc_op zero uarch_pristine_state_hash uarch_pristine_ram n schedules o a). rewrite E1, E2.
    split; [done|]. split; [lia|]. split; [done|]. apply (recorded_then _ _ _ _ _ _ _ _ _ _ _ _ 1%nat j) with (2 := Hrec) (3 := Hrec2).
    intros rp rp' Erp. change (do_op replayer o rp) with (rp_op zero uarch_pristine_state_hash o rp). by rewrite Erp.
  - change (do_begin plain text r) with r in Hr. destruct (run plain p r) as [[b|e] r1] eqn:E; [|done].
    pose proof (same_record_note bracket_begin text a) as Hb.
    destruct (IHp r (note bracket_begin text a) k _ b r1 (recording_same _ _ _ _ Hb Ha) Ht E) as (a1 & j1 & E1 & Hj1 & Hk & Hrec1).
    pose proof (same_record_note bracket_end text a1) as He. pose proof Hrec1 as (Ha1 & _).
    destruct (IHk b r1 (note bracket_end text a1) (k - j1)%nat Q x r' (recording_same _ _ _ _ He Ha1) Hk Hr) as (a2 & j2 & E2 & Hj2 & HQ & Hrec2).
    exists a2, (j1 + j2)%nat. cbn [do_begin do_end uarch_record_state_access]. rewrite E1, E2. split; [done|]. split; [lia|].
    rewrite Nat.sub_add_distr. split; [done|]. 
    refine (recorded_then _ _ _ _ _ _ _ _ _ _ _ _ _ _ _ (recorded_same _ _ _ _ _ _ _ _ _ _ _ Hrec1) Hrec2); [|destruct Hb; by split|exact He].
    intros rp rp' Erp. cbn [do_begin do_end uarch_replay_state_access]. by rewrite Erp.
Qed.

(** ** The step *)

(** Nothing that the microarchitecture does makes the machine unreproducible. *)
Lemma bridge_iunrep w s v s' : UarchBridge.write_register w s v = Done s' -> s_iunrep s' = s_iunrep s.
Proof.
  unfold UarchBridge.write_register. change (fun q => orelse (write_register_xf q s v) (write_register_csr q s v)) with (fun q => UarchBridgeSpec.write_reg q s v).
  destruct (q ← machine_reg_of w; UarchBridgeSpec.write_reg q s v) as [s1|] eqn:Hw.
  - intros [= <-]. destruct (machine_reg_of w) as [q|]; [|done]. cbn [mbind option_bind] in Hw. destruct q; cbn in Hw; try discriminate Hw; by injection Hw as <-.
  - intros (o & Ho & Hd)%outcome_bind_done. destruct o as [s1|]; [|done]. injection Hd as <-. unfold try_write_tlb in Ho.
    destruct (tlb_field w) as [[[[h e] i] f]|]; [|done]. unfold write_tlb_entry_field in Ho. repeat case_match; invert_outcome; simplify_eq; done.
Qed.

Lemma plain_iunrep {A} (o : uop A) r x r' : usa_op uarch_pristine_ram o r = (Done x, r') -> s_iunrep (m_s r') = s_iunrep (m_s r).
Proof.
  destruct o; cbn [usa_op]; intros E; repeat case_match; simplify_eq; try done.
  - match goal with H : do_write_word _ _ _ = _ |- _ => rename H into Hw end. unfold do_write_word in Hw. apply outcome_bind_done in Hw as ([ref p] & _ & Hw).
    destruct (get_istart_E p); invert_outcome; subst; [by eapply bridge_iunrep|by destruct ref].
  - unfold do_reset_state in E. by repeat case_match; simplify_eq.
Qed.

Lemma run_iunrep {A} (p : prog A) : forall r x r', run plain p r = (Done x, r') -> s_iunrep (m_s r') = s_iunrep (m_s r).
Proof.
  induction p as [A x0|A e|A X o kont IH|A B text p IHp kont IHk]; intros r x r' Hr; cbn [run] in Hr.
  - by injection Hr as <- <-.
  - done.
  - destruct (do_op plain o r) as [[y|e] r1] eqn:E; [|done]. apply plain_iunrep in E. apply IH in Hr. congruence.
  - change (do_begin plain text r) with r in Hr. destruct (run plain p r) as [[b|e] r1] eqn:E; [|done].
    apply IHp in E. apply IHk in Hr. change (do_end plain text r1) with r1 in Hr. congruence.
Qed.

Lemma same_tlb_wf m m' : same_contents m m' -> tlb_wf (state_of m) -> tlb_wf (state_of m').
Proof.
  intros Hs [Hwf Hw]. pose proof (same_contents_pmas _ _ Hs) as Hp. rewrite (sc_state _ _ Hs). split; [destruct Hwf; by constructor|].
  intros i Hi Hv. destruct (Hw i Hi Hv) as (H1 & p & Hq & Hok & H2 & H3). split; [done|]. destruct (Forall2_lookup_l _ _ _ _ _ Hp Hq) as (p' & Hp' & Hsm).
  exists p'. split; [exact Hp'|]. pose proof (same_memory_shape _ _ Hsm) as (_ & _ & _ & -> & -> & _). split; [|done].
  destruct Hok as [G1 G2 G3]. split; [by apply (same_memory_wf p)|by rewrite (same_memory_host _ _ Hsm)|by destruct Hsm as [-> _]].
Qed.

(** A step reads the cycle, so that its log has an access. *)
Lemma step_not_empty h status rp : run replayer uarch_step (UarchReplay [] 0 h []) <> (Done status, rp).
Proof. done. Qed.

Lemma step_log_verified r' a a' k j status :
  recorded (run replayer uarch_step) status r' a a' k j -> m_accesses (rc_log a) = [] -> Z.of_nat j < 2 ^ 32 ->
  verify_step_uarch zero uarch_pristine_state_hash (image_root (state_image (rc_m a))) (rc_log a') (image_root (state_image (rc_m a'))) = Done tt.
Proof.
  intros (_ & [_ Hlen _] & Hc) Hnil Hj. set (h := image_root (state_image (rc_m a))) in *. rewrite Hnil in Hlen. cbn [length Nat.add] in Hlen.
  destruct (Hc (UarchReplay (m_accesses (rc_log a')) 0 h [])) as (rp' & E & [Hroot Hpos] & Hacc); [split; [done|by rewrite Hnil]| |].
  { split; [done|]. cbn [rp_accesses]. lia. }
  assert (m_accesses (rc_log a') <> []) as Hne by (intros En; rewrite En in E; by apply step_not_empty in E).
  unfold verify_step_uarch, replay_log. rewrite pass by (by apply bool_decide_eq_false). unfold make_uarch_replay. rewrite pass by (by apply bool_decide_eq_false).
  unfold mret at 1, outcome_ret. rewrite bind_done, E, bind_done. unfold finish. rewrite Hpos, Hacc. cbn [rp_accesses].
  rewrite pass by (by rewrite Z.eqb_refl). unfold mret, outcome_ret. by rewrite Hroot, bool_decide_eq_true_2.
Qed.

Context (first last : merkle_ref -> list nat).

(** C6: a step that succeeds can be proved: if the microarchitecture, running on its
    own from a loggable machine, makes a step, then [log_step_uarch] makes the same
    step and returns a log of it, of at most twelve accesses, that [verify_step_uarch]
    accepts from the root hash of the state before to that of the state after; the
    tree of the machine then holds the hashes of its state.  The machine is assumed
    to be in reproducible mode, its count of tree updates not to be at its end, and
    the translation caches of the state reached to be well formed: the step can
    write them word by word through the bridge, so that it is the program of the
    microarchitecture that keeps them so. *)
Theorem log_step_uarch_complete t m status r' :
  0 < n -> loggable m -> ready_to_hash m -> s_iunrep (state_of m) = 0 -> m_merkle_update_nonce (m_t m) < 2 ^ 64 - 26 ->
  run (uarch_state_access uarch_pristine_ram) uarch_step (m_refs m) = (Done status, r') -> tlb_wf (m_s r') ->
  exists log m', log_step_uarch zero uarch_pristine_state_hash uarch_pristine_ram n schedules first last t m = Done (log, m') /\
    verify_step_uarch zero uarch_pristine_state_hash (state_root m) log (state_root m') = Done tt /\
    (length (m_accesses log) <= 12)%nat /\ same_contents (set_refs r' m) m' /\ hashed m'.
Proof.
  intros Hn Hm Hrd Hu Hno Hrun Htlb. pose proof (get_root_hash_machine zero n Hn first m Hrd) as Hg. rewrite Hu in Hg. cbn [Z.eqb] in Hg.
  destruct Hg as (m1 & E1 & Hs1 & Hh1 & Hn1). pose proof (loggable_same _ _ Hs1 Hm) as Hm1.
  unfold log_step_uarch. rewrite pass by (apply not_empty, wf_memory, ok_wf, (mv_ram _ (lg_memory _ Hm))). rewrite E1, bind_done.
  set (a0 := UarchRecord m1 (empty_log t)). pose proof (same_record_note bracket_begin "step" a0) as Hb. set (a1 := note bracket_begin "step" a0) in *.
  assert (recording (m_refs m) a1 12) as Ha1.
  { apply (recording_same _ a0); [done|]. split; [done|done|by apply (mirrors_update _ m); [apply mirrors_refl|]|cbn [a0 rc_m]; lia]. }
  destruct (run_recorded uarch_step _ a1 12 _ status r' Ha1 uarch_step_typed Hrun) as (a2 & j & E2 & Hj & _ & Hrec). rewrite E2.
  unfold mbind at 1, outcome_bind at 1. set (a3 := note bracket_end "step" a2). pose proof (same_record_note bracket_end "step" a2) as He. fold a3 in He.
  pose proof (recorded_same _ _ _ a1 a1 a2 a3 _ _ ltac:(done) He Hrec) as Hrec3. pose proof Hrec3 as (Ha3 & [_ Hlen Hrefs] & _).
  destruct Ha3 as [Hm3 Hh3 Hmi3 Hn3]. change (rc_m a2) with (rc_m a3) in *.
  assert (ready_to_hash (rc_m a3)) as Hrd3.
  { split; [apply Hm3|by apply (same_tlb_wf (set_refs r' (rc_m a3)))|by apply hashed_tracks|lia]. }
  assert (s_iunrep (state_of (rc_m a3)) = 0) as Hu3 by (rewrite (sc_state _ _ Hmi3); exact (eq_trans (run_iunrep _ _ _ _ Hrun) Hu)).
  pose proof (get_root_hash_machine zero n Hn last (rc_m a3) Hrd3) as Hg. rewrite Hu3 in Hg. cbn [Z.eqb] in Hg.
  destruct Hg as (m' & E4 & Hs4 & Hh4 & _). rewrite E4, bind_done.
  assert (m_accesses (rc_log a1) = [] /\ rc_m a1 = m1) as [Hnil Em1] by by destruct Hb.
  pose proof (step_log_verified r' a1 a3 (12 - j) j status Hrec3 Hnil ltac:(lia)) as Hv.
  rewrite Em1, <- !state_root_image, (same_state_root _ _ Hs1 (rh_merkle _ Hrd)) in Hv by (apply Hm1 || apply Hm3). rewrite Hv, bind_done.
  eexists _, m'. split; [reflexivity|]. split; [by rewrite (same_state_root _ _ Hs4 (rh_merkle _ Hrd3))|].
  split; [rewrite Hnil in Hlen; cbn [length] in Hlen; lia|]. split; [|done].
  etrans; [|exact (mirrors_update r' (rc_m a3) m' Hmi3 Hs4)]. apply same_contents_refs.
  by rewrite (sc_refs _ _ Hs4), Hrefs, Em1, (sc_refs _ _ Hs1).
Qed.
End record.

(** ** A step of a small machine *)

Section witness.
#[local] Existing Instance MachineRun.small_hasher.

(** The shadows of the registers, of the memory map and of the translation cache *)
Definition shadow_state_entry : pma_entry :=
  device_entry "shadow state device" PMA_SHADOW_STATE_START PMA_SHADOW_STATE_LENGTH "SHADOW STATE" shadow_state_peek_cb.
Definition shadow_pmas_entry : pma_entry :=
  set_flags (PmaFlags true true false false false 0)
    (memory_entry "shadow PMAs" PMA_SHADOW_PMAS_START PMA_SHADOW_PMAS_LENGTH
      (PmaMemory PMA_SHADOW_PMAS_LENGTH 0x30000 (replicate (Z.to_nat PMA_SHADOW_PMAS_LENGTH) 0)) memory_peek_cb).
Definition shadow_tlb_entry : pma_entry :=
  device_entry "shadow TLB device" PMA_SHADOW_TLB_START PMA_SHADOW_TLB_LENGTH "SHADOW TLB" shadow_tlb_peek_cb.

Definition shadow_map : list pma_entry := [shadow_state_entry; shadow_pmas_entry; shadow_tlb_entry; empty_entry "sentinel" 0 0].
Definition shadow_machine : machine_state := upd_tlb (fun _ => empty_tlb) (upd_pmas (fun _ => shadow_map) blank_machine).

(** [addi x1, x0, 5] *)
Definition addi_program : list Z := words 4 [0x00500093].

Definition shadowed (t : machine_merkle_tree) : machine :=
  MakeMachine (UarchRefs (example_uarch addi_program) shadow_machine []) t (collect_merkle_pmas 3).

Lemma shadow_pmas_ok : memory_ok shadow_pmas_entry.
Proof.
  split; [by split|by apply Forall_replicate|done].
Qed.

Lemma addi_ram_ok : memory_ok (example_uarch_ram addi_program).
Proof. split; [apply example_uarch_ram_wf|by apply pad_bytes, words_bytes|done]. Qed.

Lemma shadowed_refs r : r ∈ collect_merkle_pmas 3 ->
  r = merkle_pmas 0 \/ r = merkle_pmas 1 \/ r = merkle_pmas 2 \/ r = merkle_shadow_uarch \/ r = merkle_uarch_ram \/ r = merkle_empty.
Proof.
  intros Hr. cbn in Hr. rewrite !elem_of_cons in Hr. destruct Hr as [?|[?|[?|[?|[?|[?|Hr] ] ] ] ] ]; auto 6. by apply not_elem_of_nil in Hr.
Qed.

Lemma shadowed_deref t r p :
  deref_pma (shadowed t) r = Done p ->
  p = match r with
      | merkle_pmas i => nth i shadow_map (empty_entry "sentinel" 0 0)
      | merkle_shadow_uarch => example_shadow
      | merkle_uarch_ram => example_uarch_ram addi_program
      | merkle_empty => empty_entry "empty" 0 0
      end.
Proof. destruct r as [[|[|[|[|i] ] ] ]| | |]; cbn; by intros [= <-]. Qed.

Lemma shadowed_merkle_ok t : merkle_ok (shadowed t).
Proof.
  pose proof (ok_wf _ shadow_pmas_ok) as Hpmas. pose proof (example_uarch_ram_wf addi_program) as Huram. split.
  - intros r Hr. destruct (shadowed_refs r Hr) as [->|[->|[->|[->|[->| ->] ] ] ] ]; (eexists; split; [reflexivity|]); by split.
  - apply (bool_decide_unpack _). vm_compute. exact I.
  - intros r r' p p' k Hr Hr' Ep Ep' Hk Hk'. apply shadowed_deref in Ep, Ep'. unfold page_within, PMA_PAGE_SIZE in Hk, Hk'.
    destruct (shadowed_refs r Hr) as [->|[->|[->|[->|[->| ->] ] ] ] ], (shadowed_refs r' Hr') as [->|[->|[->|[->|[->| ->] ] ] ] ]; try done; exfalso;
      cbn in Ep, Ep'; subst p p'; cbn [m_start m_length shadow_state_entry shadow_pmas_entry shadow_tlb_entry example_shadow example_uarch_ram set_flags memory_entry
        device_entry empty_entry] in Hk, Hk';
      unfold PMA_SHADOW_STATE_START, PMA_SHADOW_STATE_LENGTH, PMA_SHADOW_PMAS_START, PMA_SHADOW_PMAS_LENGTH, PMA_SHADOW_TLB_START, PMA_SHADOW_TLB_LENGTH,
        PMA_SHADOW_UARCH_STATE_START, PMA_UARCH_RAM_START in Hk, Hk'; lia.
  - exists [merkle_pmas 0; merkle_pmas 1; merkle_pmas 2; merkle_shadow_uarch; merkle_uarch_ram]. split; [done|]. split; [|done].
    intros r p Hr Ep. apply shadowed_deref in Ep. rewrite !elem_of_cons in Hr.
    destruct Hr as [->|[->|[->|[->|[->|Hr] ] ] ] ]; [..|by apply not_elem_of_nil in Hr]; by subst p.
Qed.

Lemma shadowed_ready t : make_machine_merkle_tree = Done t -> ready_to_hash (shadowed t).
Proof.
  intros Et. pose proof (shadowed_merkle_ok t) as Hok. destruct make_machine_merkle_tree_spec as (t' & Et' & _ & Hn & _). rewrite Et in Et'. injection Et' as <-.
  split; [done| | |change (m_t (shadowed t)) with t; rewrite Hn; lia].
  - split; [by constructor|]. intros i Hi Hv. destruct Hv. by apply empty_tlb_invalid.
  - apply tree_tracks_new; [done|exact Et|]. intros r p k Hh HM. pose proof Hh as (_ & Ep & _).
    assert (exists n, m_dirty_page_map p = replicate n 0xff) as [n En].
    { apply shadowed_deref in Ep. destruct r as [[|[|[|[|[|i] ] ] ] ]| | |]; cbn in Ep; subst p; try discriminate HM; by eexists. }
    by apply (new_memory_marked (shadowed t) r p k n).
Qed.

(** What the bridge reads *)
Lemma shadow_machine_values a v : UarchBridge.read_register a shadow_machine = Done v -> is_uint 64 v.
Proof.
  unfold UarchBridge.read_register. change (fun r => orelse (read_register_xf r shadow_machine) (read_register_csr r shadow_machine))
    with (UarchBridgeSpec.read_reg blank_machine).
  destruct (machine_reg_of a ≫= UarchBridgeSpec.read_reg blank_machine) as [w|] eqn:Hr; cbn [orelse].
  - intros [= <-]. destruct (machine_reg_of a) as [r|]; [|done]. by apply (blank_reg_values r).
  - destruct (try_read_tlb shadow_machine a) as [w|] eqn:Ht; cbn [orelse].
    + intros [= <-]. unfold try_read_tlb in Ht. destruct (tlb_field a) as [[[[h e] i] o]|] eqn:Ef; [|done].
      apply tlb_field_spec in Ef as (_ & He & Hi).
      cbn [mbind option_bind] in Ht. unfold read_tlb_entry_field in Ht. change (s_tlb shadow_machine) with empty_tlb in Ht. rewrite empty_tlb_invalid in Ht by done.
      unfold get_cold, empty_tlb in Ht. cbn [cold] in Ht. rewrite nth_nth_replicate in Ht.
      clear Hr. repeat case_if; simplify_eq; (split; [discriminate 1|reflexivity]).
    + unfold try_read_pma. case_if; [done|]. change (s_pmas shadow_machine) with shadow_map.
      destruct (Z.to_nat _) as [|[|[|[|k] ] ] ]; cbn [lookup list_lookup shadow_map]; [case_if..|]; intros [= <-]; vm_compute; split; congruence.
Qed.

Lemma shadowed_range t i p :
  s_pmas (state_of (shadowed t)) !! i = Some p -> (i = 0%nat /\ p = shadow_state_entry) \/ (i = 1%nat /\ p = shadow_pmas_entry) \/
    (i = 2%nat /\ p = shadow_tlb_entry) \/ (i = 3%nat /\ p = empty_entry "sentinel" 0 0).
Proof. change (s_pmas (state_of (shadowed t))) with shadow_map. destruct i as [|[|[|[|i] ] ] ]; intros [= <-]; auto. Qed.

Lemma shadowed_memory t : memory_valid (memory_of (m_refs (shadowed t))).
Proof.
  split.
  - exact addi_ram_ok.
  - change (Forall pma_ok shadow_map). repeat (apply Forall_cons; split); [| | | |by apply Forall_nil]; (split; [intros HM; try discriminate HM|done]). apply shadow_pmas_ok.
  - apply Exists_cons_tl, Exists_cons_tl, Exists_cons_tl, Exists_cons_hd. done.
  - by constructor.
  - exact shadow_machine_values.
Qed.

Lemma shadowed_place t cb r0 p0 :
  deref_pma (shadowed t) r0 = Done p0 -> m_peek p0 = cb -> r0 ∈ collect_merkle_pmas 3 ->
  cb = shadow_state_peek_cb \/ cb = shadow_tlb_peek_cb \/ cb = shadow_uarch_state_peek_cb -> placed (shadowed t) cb (m_start p0) (m_length p0).
Proof.
  intros Hd0 Hcb0 Hr0 Hcb. split; [by exists r0, p0|]. intros r p Hr Hd Hp. apply shadowed_deref in Hd0, Hd.
  destruct (shadowed_refs r Hr) as [->|[->|[->|[->|[->| ->] ] ] ] ], (shadowed_refs r0 Hr0) as [->|[->|[->|[->|[->| ->] ] ] ] ];
    cbn in Hd, Hd0; subst p p0; try done; cbn in Hcb0, Hp; subst cb; try done; by destruct Hcb as [?|[?|?] ].
Qed.
Lemma shadowed_pmas t a :
  in_shadow_pmas a -> exists ref p, memory_pma (memory_of (m_refs (shadowed t))) a = Done (ref, p) /\ get_istart_E p = false.
Proof.
  unfold in_shadow_pmas. change (PMA_SHADOW_PMAS_START + PMA_MAX * PMA_WORD_SIZE * 2) with 0x10200. change PMA_SHADOW_PMAS_START with 0x10000. intros Ha.
  assert (find_memory_pma_entry (memory_of (m_refs (shadowed t))) a 8 = Some (ref_pmas 1)) as E.
  { unfold find_memory_pma_entry. change (um_ram (memory_of (m_refs (shadowed t)))) with (example_uarch_ram addi_program).
    assert (contains (example_uarch_ram addi_program) a 8 = false) as ->.
    { unfold contains. change (get_istart_E (example_uarch_ram addi_program)) with false. change (m_start (example_uarch_ram addi_program)) with PMA_UARCH_RAM_START.
      unfold PMA_UARCH_RAM_START. test (_ <=? a) is false. done. }
    change (s_pmas (um_s (memory_of (m_refs (shadowed t))))) with shadow_map. unfold shadow_map. cbn [find_machine_pma].
    change (m_length shadow_state_entry =? 0) with false. change (get_istart_M shadow_state_entry) with false.
    change (m_length shadow_pmas_entry =? 0) with false. change (get_istart_M shadow_pmas_entry) with true. cbn [andb].
    assert (contains shadow_pmas_entry a 8 = true) as ->; [|done].
    unfold contains. change (get_istart_E shadow_pmas_entry) with false. change (m_start shadow_pmas_entry) with 0x10000. change (m_length shadow_pmas_entry) with 0x1000.
    rewrite !uint_id by (unfold is_uint; lia). lia. }
  exists (ref_pmas 1), shadow_pmas_entry. unfold memory_pma. rewrite E. done.
Qed.

Lemma shadowed_loggable t : loggable (shadowed t).
Proof.
  split.
  - split; [apply shadowed_merkle_ok|]. intros r p Hr Hd HM. apply shadowed_deref in Hd.
    destruct (shadowed_refs r Hr) as [->|[->|[->|[->|[->| ->] ] ] ] ]; cbn in Hd; subst p; try discriminate HM; [apply shadow_pmas_ok|apply addi_ram_ok].
  - apply shadowed_memory.
  - done.
  - intros r v Hr. repeat (apply elem_of_cons in Hr as [->|Hr]; [intros [= <-]; (split; [discriminate 1|reflexivity])|]). by apply not_elem_of_nil in Hr.
  - apply (shadowed_place t _ (merkle_pmas 0) shadow_state_entry); [done|done|set_solver|auto].
  - apply (shadowed_place t _ merkle_shadow_uarch example_shadow); [done|done|set_solver|auto].
  - apply (shadowed_place t _ (merkle_pmas 2) shadow_tlb_entry); [done|done|set_solver|auto].
  - intros [|i] p Hd HM; [set_solver|]. cbn in Hd. apply (shadowed_range t) in Hd as [ [-> ->]|[ [-> ->]|[ [-> ->]|[-> ->] ] ] ]; try discriminate HM. set_solver.
  - apply shadowed_pmas.
Qed.

(** The step of [addi_program], and its log *)
Lemma log_step_uarch_complete_witness :
  exists m status r' log m', loggable m /\ ready_to_hash m /\ run (uarch_state_access []) uarch_step (m_refs m) = (Done status, r') /\
    log_step_uarch small_zero 0 [] 2 no_schedule no_schedule no_schedule (LogType true false) m = Done (log, m') /\
    verify_step_uarch small_zero 0 (state_root m) log (state_root m') = Done tt.
Proof.
  destruct make_machine_merkle_tree_spec as (t & Et & _ & Hnonce & _). set (r := run (uarch_state_access []) uarch_step (m_refs (shadowed t))).
  assert (r.1 = Done Success) as E1 by (vm_compute; reflexivity).
  assert (m_s r.2 = shadow_machine) as E2 by (vm_cast_no_check (eq_refl shadow_machine)).
  assert (run (uarch_state_access []) uarch_step (m_refs (shadowed t)) = (Done Success, r.2)) as E by (fold r; rewrite <- E1; by destruct r).
  pose proof (shadowed_ready t Et) as Hr. pose proof (shadowed_loggable t) as Hm.
  destruct (log_step_uarch_complete small_zero 0 [] 2 no_schedule no_schedule no_schedule (LogType true false) (shadowed t) Success r.2)
    as (log & m' & El & Hv & _); [done|exact Hm|exact Hr|done|change (m_t (shadowed t)) with t; rewrite Hnonce; done|exact E|rewrite E2; apply (rh_tlb _ Hr)|].
  exists (shadowed t), Success, r.2, log, m'. split; [exact Hm|]. split; [exact Hr|]. split; [exact E|]. split; [exact El|exact Hv].
Defined.
End witness.
