(* ===== verification/Cmio.v ===== *)
(** * The response to a yield (send-cmio-response.cpp, machine.cpp)

    A machine that yielded manually is resumed by a response: its data, padded with
    zeros to a power of two, is written to the receive buffer, its length and the
    reason to [fromhost], and the flag [iflags.Y] is cleared.  The function runs on
    the state (state-access.h), on the state with a log of the accesses
    (record-send-cmio-state-access.h) and on a log without the state
    (replay-send-cmio-state-access.h).

    The last sections say what the response does to the image of the state, and show
    that a log that is accepted proves it. *)

From S2P Require Import Prelude CppInt Constants UarchAccess UarchStep Bytes Pma PmaSpec MachineState UarchBridge UarchBridgeSpec UarchState UarchStateSpec Hasher MerkleProof PristineMerkleTree AccessLog UarchReplay StateImage UarchReplaySpec MachineMerkleTree MachineMerkleTreeSpec Tlb MachineRegs Machine MachinePages MachineHash MachineAnswers MachineOk MachineRun UarchRecord StateWords Loggable UarchRecordSpec.

(** ** The interface (i-state-access.h)

    [data] is the buffer, or [None] for a null pointer. *)

Record cmio_access (S : Type) := CmioAccess {
  read_iflags_Y : method S Z;
  write_iflags_Y : Z -> method S unit;
  write_htif_fromhost : Z -> method S unit;
  write_memory_with_padding : Z -> option (list Z) -> Z -> Z -> method S unit;
}.
Arguments read_iflags_Y {_}.
Arguments write_iflags_Y {_}.
Arguments write_htif_fromhost {_}.
Arguments write_memory_with_padding {_}.

(** The logarithm of the length that is written *)
Definition write_length_log2_size (dataLength : Z) : Z :=
  let s := uint32Log2 dataLength in
  let s := if s <? LOG2_WORD_SIZE then LOG2_WORD_SIZE else s in
  if uint32ShiftLeft 1 s <? dataLength then uint32 (s + 1) else s.

Section response.
Context {S : Type} (a : cmio_access S).

Definition write_response_data (data : option (list Z)) (dataLength : Z) : method S unit :=
  if 0 <? dataLength then
    let writeLengthLog2Size := write_length_log2_size dataLength in
    attempt (throw_if (PMA_CMIO_RX_BUFFER_LOG2_SIZE <? writeLengthLog2Size)
      (runtime_error "CMIO response data is too large")) ≫= fun _ =>
    write_memory_with_padding a PMA_CMIO_RX_BUFFER_START data dataLength writeLengthLog2Size
  else mret tt.

(** The value of [fromhost] *)
Definition yield_data (reason dataLength : Z) : Z :=
  let mask16 := uint64 (uint64ShiftLeft 1 16 - 1) in
  let mask32 := uint64 (uint64ShiftLeft 1 32 - 1) in
  uint64ShiftLeft (reason &ᵇ mask16) 32 |ᵇ (dataLength &ᵇ mask32).

Definition send_cmio_response (reason : Z) (data : option (list Z)) (dataLength : Z) : method S unit :=
  read_iflags_Y a ≫= fun Y =>
  attempt (throw_if (Y =? 0) (runtime_error "iflags.Y is not set")) ≫= fun _ =>
  write_response_data data dataLength ≫= fun _ =>
  write_htif_fromhost a (yield_data reason dataLength) ≫= fun _ =>
  write_iflags_Y a 0.
End response.

(** A call that throws leaves the state as it was. *)
Definition transact {S} (f : S -> outcome S) : method S unit := fun s =>
  match f s with Done s' => (Done tt, s') | Exn e => (Exn e, s) end.

(** The length of a write and its check, which the three classes share *)
Definition padded_length (write_length_log2_size : Z) : Z := uint64 (Z.shiftl 1 write_length_log2_size).

(** ** On the state (state-access.h) *)

Section state.
Context `{i_hasher}.

Definition do_write_memory_with_padding (paddr : Z) (data : option (list Z)) (data_length log2_size : Z) : method machine unit :=
  attempt (throw_if (bool_decide (data = None)) (runtime_error "data is null")) ≫= fun _ =>
  let write_length := padded_length log2_size in
  attempt (throw_if (write_length <? data_length) (runtime_error "write_length is less than data_length")) ≫= fun _ =>
  transact (fun m => write_memory m paddr data data_length) ≫= fun _ =>
  if data_length <? write_length
  then transact (fun m => fill_memory m (uint64 (paddr + data_length)) 0 (write_length - data_length))
  else mret tt.

Definition cmio_state_access : cmio_access machine := {|
  read_iflags_Y := fun m => (Done (iflags_Y (s_iflags (state_of m))), m);
  write_iflags_Y := fun val => transact (fun m => Done (set_state (set_iflags_Y val (state_of m)) m));
  write_htif_fromhost := fun val => transact (fun m => Done (set_state (set_fromhost val (state_of m)) m));
  write_memory_with_padding := do_write_memory_with_padding;
|}.

(** The length is a [uint64_t] that is passed as a [uint32_t]. *)
Definition machine_send_cmio_response (reason : Z) (data : option (list Z)) (length : Z) : method machine unit :=
  send_cmio_response cmio_state_access reason data (uint32 length).
End state.

(** ** On a log (replay-send-cmio-state-access.h) *)

Section replay.
Context `{i_hasher} (zero : hash_type).

Abbreviation pmethod := (method uarch_replay).

(** The methods of the class that are those of the replay of the microarchitecture *)
Definition cmio_check_read : Z -> string -> uarch_replay -> outcome (Z * uarch_replay) := check_read zero.
Definition cmio_check_write : Z -> Z -> string -> uarch_replay -> outcome uarch_replay := check_write zero.

Definition check_write_with_padding (paddr : Z) (data : option (list Z)) (data_length log2_size : Z) (r : uarch_replay) : outcome uarch_replay :=
  let text := "cmio rx buffer"%string in
  match data with
  | None => Exn (invalid_argument "data is null")
  | Some data =>
      let write_length := padded_length log2_size in
      throw_if (write_length <? data_length) (invalid_argument "write length is less than data length") ≫= fun _ =>
      a ← next_access r;
      throw_if (negb (a_address a =? paddr))
        (invalid_argument ("expected address of " +:+ access_to_report r +:+ " to match address of " +:+ text)) ≫= fun _ =>
      throw_if (negb (a_log2_size a =? log2_size))
        (invalid_argument ("expected " +:+ access_to_report r +:+ " to write 2^" +:+ pretty.pretty log2_size +:+ " bytes to " +:+ text)) ≫= fun _ =>
      throw_if (negb (bool_decide (a_type a = access_write)))
        (invalid_argument ("expected " +:+ access_to_report r +:+ " to write " +:+ text)) ≫= fun _ =>
      check_data_hash (a_read a) (a_read_hash a)
        ("hash of read data and read hash at " +:+ access_to_report r +:+ " does not match read hash") ≫= fun _ =>
      written_hash ← get_value (a_written_hash a) ("write " +:+ access_to_report r +:+ " has no written hash");
      let scratch := Pma.slice 0 data_length data ++ replicate (Z.to_nat (write_length - data_length)) 0 in
      computed_data_hash ← get_merkle_tree_hash hash_fuel scratch write_length tree_word_size;
      throw_if (negb (bool_decide (written_hash = computed_data_hash)))
        (invalid_argument ("logged written hash of " +:+ text +:+ " does not match the hash of data argument at " +:+ access_to_report r)) ≫= fun _ =>
      check_data_hash (a_written a) written_hash
        ("written hash and written data mismatch at " +:+ access_to_report r) ≫= fun _ =>
      proof ← access_make_proof zero a (rp_root_hash r);
      ok ← verify proof;
      throw_if (negb ok) (invalid_argument ("Mismatch in root hash of " +:+ access_to_report r)) ≫= fun _ =>
      root_hash ← bubble_up proof written_hash;
      mret (advance root_hash r)
  end.

Definition replay_send_cmio_state_access : cmio_access uarch_replay := {|
  read_iflags_Y := fun r => rp_read id (cmio_check_read (machine_reg_address reg_iflags_Y) "iflags.Y" r) r;
  write_iflags_Y := fun val r => rp_write (cmio_check_write (machine_reg_address reg_iflags_Y) val "iflags.Y" r) r;
  write_htif_fromhost := fun val r => rp_write (cmio_check_write (machine_reg_address reg_htif_fromhost) val "htif.fromhost" r) r;
  write_memory_with_padding := fun paddr data data_length log2_size r =>
    rp_write (check_write_with_padding paddr data data_length log2_size r) r;
|}.

Definition verify_send_cmio_response (reason : Z) (data : option (list Z)) (length : Z) (root_hash_before : hash_type)
    (log : access_log) (root_hash_after : hash_type) : outcome unit :=
  throw_if (bool_decide (m_accesses log = [])) (invalid_argument "too few accesses in log") ≫= fun _ =>
  a ← make_uarch_replay log root_hash_before;
  let '(res, a) := send_cmio_response replay_send_cmio_state_access reason data (uint32 length) a in
  res ≫= fun _ =>
  finish a ≫= fun _ =>
  throw_if (negb (bool_decide (rp_root_hash a = root_hash_after)))
    (invalid_argument "mismatch in root hash after replay").
End replay.

(** ** On the state, with a log (record-send-cmio-state-access.h)

    [n] and the schedules are those of the updates of the tree. *)

Section record.
Context `{i_hasher} (zero : hash_type) (n : Z).

Abbreviation rmethod := (method uarch_record).

(** The value read is not compared with that of the leaf. *)
Definition cmio_log_read (paligned : Z) (text : string) : rmethod unit :=
  attempt (throw_if (negb ((paligned &ᵇ 7) =? 0)) not_aligned) ≫= fun _ =>
  get_machine ≫= fun m =>
  attempt (leaf_of zero paligned m) ≫= fun '(siblings, read) =>
  attempt (get_data_hash read) ≫= fun read_hash =>
  log_access (Access access_read paligned 3 (Some read) read_hash None None (Some siblings)) (Some text).

Definition cmio_log_before_write : Z -> Z -> option string -> rmethod unit := log_before_write zero.
Definition cmio_update_after_write : Z -> rmethod unit := update_after_write zero.

Definition on_state (f : machine_state -> machine_state) : rmethod unit :=
  get_machine ≫= fun m => put_machine (set_state (f (state_of m)) m).

(** [store] is the assignment to the reference [dest]. *)
Definition cmio_log_before_write_write_and_update (paligned : Z) (store : machine_state -> machine_state) (val : Z) (text : string) :
    rmethod unit :=
  attempt (throw_if (negb ((paligned &ᵇ 7) =? 0)) aligned_word) ≫= fun _ =>
  cmio_log_before_write paligned val (Some text) ≫= fun _ =>
  on_state store ≫= fun _ =>
  cmio_update_after_write paligned.

(** The host memory of the range [i] of the memory map *)
Definition range_memory (i : nat) : rmethod (list Z) :=
  get_machine ≫= fun m =>
  match s_pmas (state_of m) !! i with
  | Some pma => attempt (mem ← get_memory pma; mret (host_memory mem))
  | None => attempt (Exn past_the_map)
  end.

Definition update_machine (f : machine -> outcome machine) : rmethod unit :=
  get_machine ≫= fun m => attempt (f m) ≫= fun m => put_machine m.

Definition logs_large_data : rmethod bool := fun a => (Done (large_data a), a).

(** The data logged as read is copied from the start of the host memory of the
    range, that logged as written from the offset of the address. *)
Definition record_write_memory_with_padding (before after : merkle_ref -> list nat) (paddr : Z) (data : option (list Z))
    (data_length log2_size : Z) : rmethod unit :=
  attempt (throw_if (negb ((paddr &ᵇ (tree_word_size - 1)) =? 0)) (invalid_argument "paddr is not aligned to tree leaf size")) ≫= fun _ =>
  attempt (throw_if (bool_decide (data = None)) (invalid_argument "data is null")) ≫= fun _ =>
  let write_length := padded_length log2_size in
  attempt (throw_if (write_length <? data_length) (invalid_argument "write_length is less than data_length")) ≫= fun _ =>
  get_machine ≫= fun m =>
  attempt (find_pma_entry (s_pmas (state_of m)) paddr write_length) ≫= fun '(i, pma) =>
  attempt (throw_if (get_istart_E pma) not_memory) ≫= fun _ =>
  attempt (get_proof zero n before m paddr log2_size) ≫= fun '(proof, m) =>
  put_machine m ≫= fun _ =>
  logs_large_data ≫= fun (large : bool) =>
  (if large then range_memory i ≫= fun mem => mret (Some (Pma.slice 0 write_length mem)) else mret None : rmethod (option (list Z))) ≫= fun read =>
  update_machine (fun m => write_memory m paddr data data_length) ≫= fun _ =>
  (if data_length <? write_length
   then update_machine (fun m => fill_memory m (uint64 (paddr + data_length)) 0 (write_length - data_length))
   else mret tt) ≫= fun _ =>
  update_machine (fun m => '(_, m) ← update_merkle_tree zero n after m; Done m) ≫= fun _ =>
  range_memory i ≫= fun mem =>
  let written := Pma.slice (uint64 (paddr - m_start pma)) write_length mem in
  attempt (get_merkle_tree_hash hash_fuel written write_length tree_word_size) ≫= fun written_hash =>
  log_access (Access access_write paddr log2_size read (m_target_hash proof) (if large then Some written else None)
                (Some written_hash) (Some (m_sibling_hashes proof))) (Some "cmio rx buffer").

Definition record_send_cmio_state_access (before after : merkle_ref -> list nat) : cmio_access uarch_record := {|
  read_iflags_Y :=
    cmio_log_read (machine_reg_address reg_iflags_Y) "iflags.Y" ≫= fun _ =>
    get_machine ≫= fun m => mret (iflags_Y (s_iflags (state_of m)));
  write_iflags_Y := fun val =>
    cmio_log_before_write_write_and_update (machine_reg_address reg_iflags_Y) (set_iflags_Y val) val "iflags.Y";
  write_htif_fromhost := fun val =>
    cmio_log_before_write_write_and_update (machine_reg_address reg_htif_fromhost) (set_fromhost val) val "htif.fromhost";
  write_memory_with_padding := record_write_memory_with_padding before after;
|}.

(** The result of [update_merkle_tree] is dropped. *)
Definition log_send_cmio_response (first before after middle last : merkle_ref -> list nat) (reason : Z) (data : option (list Z))
    (length : Z) (t : log_type) (m : machine) : outcome (access_log * machine) :=
  '(root_hash_before, m) ← get_root_hash zero n first m;
  let '(res, a) := send_cmio_response (record_send_cmio_state_access before after) reason data (uint32 length)
                     (note bracket_begin "send cmio response" (UarchRecord m (empty_log t))) in
  res ≫= fun _ =>
  let log := rc_log (note bracket_end "send cmio response" a) in
  '(_, m) ← update_merkle_tree zero n middle (rc_m a);
  '(root_hash_after, m) ← get_root_hash zero n last m;
  verify_send_cmio_response zero reason data length root_hash_before log root_hash_after ≫= fun _ =>
  mret (log, m).
End record.

(** ** What a response does to the image of the state *)

(** A block of bytes that starts at a word *)
Definition image_bytes (a : Z) (data : list Z) (im : image) : image := fun i =>
  if (a / 8 <=? i) && (i <? a / 8 + Z.of_nat (length data) / 8) then page_word data (i - a / 8) else im i.

(** The smallest power of two that holds the data, and at least a leaf *)
Definition response_size (len : Z) : Z := Z.max LOG2_WORD_SIZE (Z.log2_up len).

Definition padded (data : list Z) (len : Z) : list Z :=
  Pma.slice 0 len data ++ replicate (Z.to_nat (2 ^ response_size len - len)) 0.

(** The states from the yield to the resumption *)
Definition buffer_filled (data : list Z) (len : Z) (im : image) : image :=
  if 0 <? len then image_bytes PMA_CMIO_RX_BUFFER_START (padded data len) im else im.

Definition acknowledged (reason : Z) (data : list Z) (len : Z) (im : image) : image :=
  image_set (machine_reg_address reg_htif_fromhost) (reason mod 2 ^ 16 * 2 ^ 32 + len) (buffer_filled data len im).

Definition responded (reason : Z) (data : list Z) (len : Z) (im : image) : image :=
  image_set (machine_reg_address reg_iflags_Y) 0 (acknowledged reason data len im).

Definition response_states (reason : Z) (data : list Z) (len : Z) (im : image) : list image :=
  [im; buffer_filled data len im; acknowledged reason data len im].

(** ** Sizes *)

Lemma write_length_log2_size_spec len : 0 < len < 2 ^ 32 -> write_length_log2_size len = response_size len.
Proof.
  intros Hlen. unfold write_length_log2_size, response_size, uint32Log2, LOG2_WORD_SIZE.
  pose proof (Z.log2_spec len ltac:(lia)) as Hl. pose proof (Z.log2_nonneg len). pose proof (Z.log2_lt_pow2 len 32 ltac:(lia)) as Hl32.
  pose proof (Z.le_log2_up_succ_log2 len). pose proof (Z.le_log2_log2_up len).
  rewrite uint32ShiftLeft_small, Z.shiftl_mul_pow2, Z.mul_1_l by (destruct (Z.ltb_spec (Z.log2 len) 5); lia).
  assert (forall s, 0 <= s < 32 -> uint32 (2 ^ s) = 2 ^ s) as Hu.
  { intros s Hs. apply uint_id. unfold is_uint. pose proof (Z.pow_lt_mono_r 2 s 32). pose proof (pow2_pos s). lia. }
  rewrite Hu by (destruct (Z.ltb_spec (Z.log2 len) 5); lia).
  destruct (Z.ltb_spec (Z.log2 len) 5).
  - assert (Z.log2_up len <= 5) by lia. rewrite Z.max_l by lia.
    assert (2 ^ Z.succ (Z.log2 len) <= 2 ^ 5) by (apply Z.pow_le_mono_r; lia). test (2 ^ 5 <? len) is false. done.
  - destruct (Z.ltb_spec (2 ^ Z.log2 len) len) as [Hlt|Hge].
    + assert (Z.log2 len < Z.log2_up len) by (apply Z.log2_up_lt_pow2; lia). rewrite uint_id by (unfold is_uint; lia). lia.
    + assert (Z.log2_up len <= Z.log2 len) by (apply Z.log2_up_le_pow2; lia). lia.
Qed.

Lemma response_size_holds len : 0 < len -> len <= 2 ^ response_size len.
Proof. intros. unfold response_size, LOG2_WORD_SIZE. apply Z.log2_up_le_pow2; lia. Qed.

Lemma length_padded data len :
  0 < len <= Z.of_nat (length data) -> Z.of_nat (length (padded data len)) = 2 ^ response_size len.
Proof.
  intros Hlen. pose proof (response_size_holds len). unfold padded. rewrite length_app, length_replicate, length_slice by lia. lia.
Qed.

Lemma padded_bytes data len : Forall is_byte data -> Forall is_byte (padded data len).
Proof.
  intros Hd. apply Forall_app. split; [by apply Forall_take, Forall_drop|]. apply Forall_replicate. unfold is_byte, is_uint. lia.
Qed.

Lemma padded_length_spec s : 0 <= s < 64 -> padded_length s = 2 ^ s.
Proof.
  intros Hs. unfold padded_length. rewrite Z.shiftl_mul_pow2, Z.mul_1_l by lia. apply uint_id. unfold is_uint.
  pose proof (Z.pow_lt_mono_r 2 s 64). pose proof (pow2_pos s). lia.
Qed.

Lemma yield_data_spec reason len : 0 <= reason -> is_uint 32 len -> yield_data reason len = reason mod 2 ^ 16 * 2 ^ 32 + len.
Proof.
  intros Hr Hl. unfold yield_data, is_uint in *. change (uint64 (uint64ShiftLeft 1 16 - 1)) with (2 ^ 16 - 1).
  change (uint64 (uint64ShiftLeft 1 32 - 1)) with (2 ^ 32 - 1). rewrite !land_ones_mod by lia. rewrite (Z.mod_small len) by lia.
  pose proof (Z.mod_pos_bound reason (2 ^ 16) ltac:(lia)). unfold uint64ShiftLeft. change (32 &ᵇ 0x3f) with 32.
  rewrite Z.shiftl_mul_pow2, uint_id by (unfold is_uint; lia). rewrite lor_add_low; lia.
Qed.

(** ** Blocks of the image *)

Section blocks.
Context (a : Z) (data : list Z) (im : image) (Hdata : Forall is_byte data).

Lemma image_bytes_valid : image_valid im -> image_valid (image_bytes a data im).
Proof. intros Him i. unfold image_bytes. case_match; [by apply page_word_uint|done]. Qed.

Context `{i_hasher}.
Context (k : Z) (Hk : 5 <= k <= 64) (Hlen : Z.of_nat (length data) = 2 ^ k) (Ha : a mod 2 ^ k = 0).

(** The leaves of the block are the words of the buffer. *)
Lemma block_bounds : a / 8 = 4 * (a / 32) /\ Z.of_nat (length data) / 8 = 4 * 2 ^ (k - 5) /\ a / 32 = a / 2 ^ k * 2 ^ (k - 5) /\ 2 ^ k = 32 * 2 ^ (k - 5).
Proof.
  assert (2 ^ k = 32 * 2 ^ (k - 5)) as E by (change 32 with (2 ^ 5); rewrite <- Z.pow_add_r by lia; f_equal; lia).
  pose proof (pow2_pos (k - 5) ltac:(lia)). pose proof (Z.div_mod a (2 ^ k) ltac:(lia)) as Ea. rewrite Ha, Z.add_0_r in Ea.
  set (q := a / 2 ^ k) in *. rewrite Ea, Hlen, E. replace (32 * 2 ^ (k - 5) * q) with (32 * (2 ^ (k - 5) * q)) by lia.
  rewrite (Z.mul_comm 32 (2 ^ (k - 5) * q)), Z.div_mul by lia.
  replace (2 ^ (k - 5) * q * 32) with (4 * (2 ^ (k - 5) * q) * 8) by lia. rewrite Z.div_mul by lia.
  replace (32 * 2 ^ (k - 5)) with (4 * 2 ^ (k - 5) * 8) by lia. rewrite Z.div_mul by lia. lia.
Qed.

Lemma block_leaf_hash w : 0 <= w < 2 ^ (k - 5) -> leaf_hash (image_bytes a data im) (w + a / 32) = word_hash data tree_word_size w.
Proof.
  intros Hw. destruct block_bounds as (E1 & E2 & _ & E3). unfold leaf_hash, word_hash. f_equal.
  rewrite (block_leaf data _ _ w); [|done|lia|lia|].
  - unfold Pma.slice. change tree_word_size with 32. by rewrite (Z.mul_comm 32 w).
  - intros j Hj. unfold image_bytes. rewrite E1, E2.
    replace ((4 * (a / 32) <=? 4 * (w + a / 32) + j) && (4 * (w + a / 32) + j <? 4 * (a / 32) + 4 * 2 ^ (k - 5))) with true by (symmetry; apply andb_true_iff; lia).
    f_equal. lia.
Qed.

Lemma other_leaf_hash w : w < a / 32 \/ a / 32 + 2 ^ (k - 5) <= w -> leaf_hash (image_bytes a data im) w = leaf_hash im w.
Proof.
  intros Hw. destruct block_bounds as (E1 & E2 & _ & _). unfold leaf_hash. f_equal. apply leaf_data_ext. intros j Hj.
  unfold image_bytes. rewrite E1, E2. replace (_ && _) with false; [done|]. symmetry. apply andb_false_iff. lia.
Qed.

(** Its node has the hash of the buffer. *)
Lemma image_root_bytes :
  image_root (image_bytes a data im) =
  node (update (node (leaf_hash im) (Z.to_nat (k - 5))) (a / 2 ^ k) (node (word_hash data tree_word_size) (Z.to_nat (k - 5)) 0)) (Z.to_nat (64 - k)) 0.
Proof.
  destruct block_bounds as (_ & _ & E & _). unfold image_root. replace 59%nat with (Z.to_nat (k - 5) + Z.to_nat (64 - k))%nat by lia.
  rewrite <- node_add. apply node_ext. intros i _. unfold update. set (n := Z.to_nat (k - 5)). assert (Z.of_nat n = k - 5) as En by (unfold n; lia).
  destruct (Z.eqb_spec i (a / 2 ^ k)) as [->|Hne].
  - rewrite <- (Z.add_0_l (a / 2 ^ k)) at 1. rewrite <- node_shift, En. apply node_ext. rewrite En. intros j Hj. rewrite <- E. apply block_leaf_hash. lia.
  - apply node_ext. rewrite En. intros j Hj. apply other_leaf_hash. rewrite E. pose proof (pow2_pos (k - 5) ltac:(lia)).
    destruct (Z.lt_trichotomy i (a / 2 ^ k)) as [?|[?|?]]; [left; nia|done|right; nia].
Qed.
End blocks.

(** ** Accepted logs *)

Lemma method_done {S T U} (c : method S T) (f : T -> method S U) s x s' :
  (c ≫= f) s = (Done x, s') -> exists y s1, c s = (Done y, s1) /\ f y s1 = (Done x, s').
Proof. unfold mbind, method_bind. destruct (c s) as [[y|e] s1]; [|done]. intros E. by exists y, s1. Qed.

Lemma attempt_done {S T U} o (f : T -> method S U) s x s' :
  (attempt o ≫= f) s = (Done x, s') -> exists y, o = Done y /\ f y s = (Done x, s').
Proof. intros (y & s1 & [= -> ->] & E)%method_done. by exists y. Qed.

Section sound.
Context `{i_hasher} (zero : hash_type).

Lemma write_with_padding_sound r im data len r' :
  image_valid im -> Forall access_wf (rp_accesses r) -> rp_root_hash r = image_root im ->
  Forall is_byte data -> 0 < len <= Z.of_nat (length data) -> response_size len <= 21 ->
  check_write_with_padding zero PMA_CMIO_RX_BUFFER_START (Some data) len (response_size len) r = Done r' ->
  r' = advance (image_root (image_bytes PMA_CMIO_RX_BUFFER_START (padded data len) im)) r \/
  (exists a, a ∈ rp_accesses r /\ access_clash zero im a).
Proof.
  intros Him Hlog Hroot Hdata Hlen Hk Hc. set (k := response_size len) in *. assert (5 <= k) by (unfold k, response_size, LOG2_WORD_SIZE; lia).
  unfold check_write_with_padding in Hc. open_checks.
  match goal with Hq : access_make_proof _ ?a0 _ = Done ?q0, Hg : get_merkle_tree_hash _ _ _ _ = Done ?h |- _ =>
    rename Hq into Hproof, Hg into Hhash; set (a := a0) in *; set (q := q0) in *; set (hash := h) in * end.
  rewrite Forall_forall in Hlog. pose proof (Hlog a Hin) as Ha. rewrite Hroot in Hproof.
  destruct (verified_proof zero im a q Ha Hproof) as [Hcl|(Hp & Ht & Hr & Hta & _)]; [congruence|right; by exists a|].
  left. match goal with Hb : bubble_up q _ = Done _ |- _ => rewrite (bubble_up_spec _ _ _ _ Hp) in Hb; rename Hb into Hbub end.
  assert (m_log2_target_size q = k) as Et
    by (rewrite Ht; replace (a_log2_size a) with k by congruence; unfold AccessLog.LOG2_WORD_SIZE; lia).
  assert (m_target_address q = PMA_CMIO_RX_BUFFER_START) as Eta
    by (rewrite Hta; replace (a_address a) with PMA_CMIO_RX_BUFFER_START by congruence; reflexivity).
  rewrite padded_length_spec in Hhash by lia.
  change (get_merkle_tree_hash hash_fuel (padded data len) (2 ^ k) tree_word_size = Done hash) in Hhash.
  replace (2 ^ k) with (tree_word_size * 2 ^ Z.of_nat (Z.to_nat (k - 5))) in Hhash
    by (change tree_word_size with (2 ^ 5); rewrite <- Z.pow_add_r by lia; f_equal; lia).
  unfold hash_fuel in Hhash. rewrite get_merkle_tree_hash_node in Hhash by (lia || done). injection Hhash as Hhash.
  unfold height in Hbub. rewrite Et, Hr, Eta in Hbub. apply Done_inj in Hbub. subst r'. f_equal.
  rewrite (image_root_bytes _ _ im (padded_bytes data len Hdata) k); [|lia|by apply length_padded|].
  - unfold AccessLog.LOG2_ROOT_SIZE, AccessLog.LOG2_WORD_SIZE in Hbub. rewrite <- Hbub. do 2 f_equal. congruence.
  - apply Z.mod_divide; [lia|]. exists (PMA_CMIO_RX_BUFFER_START / 2 ^ 21 * 2 ^ (21 - k)). rewrite <- Z.mul_assoc, <- Z.pow_add_r by lia.
    replace (21 - k + k) with 21 by lia. reflexivity.
Qed.
(** The data of a response, replayed *)
Lemma response_data_sound log r im data len r' :
  Forall access_wf log -> Forall is_byte data -> 0 <= len <= Z.of_nat (length data) -> len < 2 ^ 32 ->
  replays log r (ImageState im []) ->
  write_response_data (replay_send_cmio_state_access zero) (Some data) len r = (Done tt, r') ->
  (len <= 2 ^ 21 /\ replays log r' (ImageState (buffer_filled data len im) [])) \/ (exists a, a ∈ log /\ access_clash zero im a).
Proof.
  intros Hlog Hdata Hlen Hlen32 [Hroot Hcon Hv Hl] Hw. unfold write_response_data in Hw. unfold buffer_filled.
  destruct (Z.ltb_spec 0 len) as [Hpos|]; [|left; injection Hw as <-; split; [lia|by split] ].
  rewrite write_length_log2_size_spec in Hw by lia. apply attempt_done in Hw as ([] & Hsize & Hw).
  apply throw_if_done, Z.ltb_ge in Hsize. change PMA_CMIO_RX_BUFFER_LOG2_SIZE with 21 in Hsize.
  cbn [write_memory_with_padding replay_send_cmio_state_access] in Hw. unfold rp_write in Hw.
  destruct (check_write_with_padding _ _ _ _ _ _) as [r1|] eqn:E; [|done]. injection Hw as <-. cbn [is_image] in *. rewrite <- Hl in *.
  destruct (write_with_padding_sound r im data len r1 Hv Hlog Hroot Hdata ltac:(lia) Hsize E) as [->|Hc]; [left|by right].
  split; [|split; [done|done|by apply image_bytes_valid, Hv; apply padded_bytes|done] ].
  pose proof (response_size_holds len Hpos). pose proof (Z.pow_le_mono_r 2 (response_size len) 21). lia.
Qed.

(** C25: a log that [verify_send_cmio_response] accepts proves the response: the
    machine had yielded, the data fits the receive buffer, and the root hash after
    is that of the state in which the buffer starts with the data, padded with
    zeros, [fromhost] has the reason and the length, and the flag is cleared -
    unless in a state between them an access of the log shows a collision of the
    hash function.  The length is the one the caller gave modulo [2^32]. *)
Theorem verify_send_cmio_response_sound im reason data length log root_hash_after :
  let len := uint32 length in
  image_valid im -> Forall access_wf (m_accesses log) -> 0 <= reason -> Forall is_byte data -> len <= Z.of_nat (base.length data) ->
  verify_send_cmio_response zero reason (Some data) length (image_root im) log root_hash_after = Done tt ->
  (image_word im (machine_reg_address reg_iflags_Y) <> 0 /\ len <= 2 ^ 21 /\
   image_root (responded reason data len im) = root_hash_after) \/
  (exists s a, s ∈ response_states reason data len im /\ a ∈ m_accesses log /\ access_clash zero s a).
Proof.
  intros len Him Hlog Hreason Hdata Hlen Hv. pose proof (uint_range 32 length ltac:(lia) : is_uint 32 len) as Hu. unfold is_uint in Hu.
  unfold verify_send_cmio_response in Hv. invert_outcome. unfold make_uarch_replay in *. invert_outcome.
  match goal with Hm : UarchReplay _ _ _ _ = ?r0 |- _ => subst r0 end.
  destruct (send_cmio_response _ _ _ _ _) as [res r4] eqn:E. fold len in E. invert_outcome. match goal with Hm : res = Done _ |- _ => subst res end.
  set (l := m_accesses log) in *. assert (replays l (UarchReplay l 0 (image_root im) []) (ImageState im [])) as HR by done.
  assert (forall s, s ∈ response_states reason data len im -> (exists a, a ∈ l /\ access_clash zero s a) ->
    exists s a, s ∈ response_states reason data len im /\ a ∈ l /\ access_clash zero s a) as Hclash by (intros s Hs (a & Ha); by exists s, a).
  unfold send_cmio_response in E. apply method_done in E as (Y & r1 & E1 & E). apply attempt_done in E as ([] & HY & E). apply throw_if_done in HY.
  destruct (replay_read zero l Hlog id _ _ _ _ _ _ HR E1) as [(s1 & [= <- <-] & HR1)|Hc]; [|right; apply (Hclash im); [set_solver|done] ].
  apply method_done in E as ([] & r2 & E2 & E).
  destruct (response_data_sound l r1 im data len r2 Hlog Hdata ltac:(lia) ltac:(lia) HR1 E2) as [ [Hsize HR2]|Hc]; [|right; apply (Hclash im); [set_solver|done] ].
  apply method_done in E as ([] & r3 & E3 & E4). rewrite yield_data_spec in E3 by (unfold is_uint; lia).
  destruct (replay_write zero l Hlog _ _ _ _ _ _ _ HR2 E3) as [(s3 & [= <-] & HR3)|Hc]; [|right; apply (Hclash (buffer_filled data len im)); [set_solver|done] ].
  destruct (replay_write zero l Hlog _ _ _ _ _ _ _ HR3 E4) as [(s4 & Es4 & HR4)|Hc]; [|right; apply (Hclash (acknowledged reason data len im)); [set_solver|done] ].
  apply (f_equal snd) in Es4. cbn [snd im_write] in Es4. subst s4. left. split; [by apply Z.eqb_neq in HY|]. split; [done|]. etrans; [exact (eq_sym (rs_root _ _ _ HR4))|]. by reflect_bools.
Qed.
End sound.

(** ** A witness: a response of three bytes *)

Section witness.
#[local] Existing Instance UarchReplaySpec.small_hasher.

Definition yield_address : Z := machine_reg_address reg_iflags_Y.
Definition fromhost_address : Z := machine_reg_address reg_htif_fromhost.
Definition answer : list Z := [104; 105; 33].

(** The state of a machine that has yielded, and the states of its response *)
Definition yielded : image := image_set yield_address 1 (fun _ => 0).
Definition yielded_root : hash_type := 1781594799983774110.
Definition responded_root : hash_type := 370768595176593767.

Lemma yield_address_word : word_at yield_address.
Proof. by constructor. Qed.

Lemma yielded_root_spec : image_root yielded = yielded_root.
Proof.
  apply Done_inj. transitivity (bubble_up (MerkleTreeProof yield_address 5 zero_leaf 64 (pristine zero_leaf 59) (zero_siblings 0)) (digest (leaf_data yielded (yield_address / 32)))).
  - symmetry. exact (sparse_root yield_address 1 yield_address_word).
  - vm_compute. reflexivity.
Qed.

(** An access to a leaf whose siblings are those of the zero state but for [siblings] *)
Definition logged (type : access_type) (log2_size a : Z) (siblings : list (nat * hash_type)) (im im' : image) : access :=
  let written := if bool_decide (type = access_write) then Some (leaf_data im' (a / 32)) else None in
  Access type a log2_size (Some (leaf_data im (a / 32))) (leaf_hash im (a / 32)) written (digest <$> written)
    (Some (foldr (fun '(k, h) l => <[k := h]> l) (zero_siblings 0) siblings)).

Definition response_accesses : list access :=
  let filled := buffer_filled answer 3 yielded in
  let acked := acknowledged 2 answer 3 yielded in
  [logged access_read 3 yield_address [] yielded yielded;
   logged access_write 5 PMA_CMIO_RX_BUFFER_START [(25%nat, 1573562671958231603)] yielded filled;
   logged access_write 3 fromhost_address [(3%nat, 289640159371782869); (25%nat, 1038244425945857022)] filled acked;
   logged access_write 3 yield_address [(3%nat, 261574636775027212); (25%nat, 1038244425945857022)] acked (responded 2 answer 3 yielded)].

Definition response_log : access_log := AccessLog response_accesses [] [] (LogType false false).

Lemma yielded_valid : image_valid yielded.
Proof. apply image_set_valid; unfold is_uint; [lia|intros i; unfold is_uint; lia]. Qed.

Lemma logged_wf type log2_size a siblings im im' :
  is_uint 64 a -> 0 <= log2_size <= 5 -> access_wf (logged type log2_size a siblings im im').
Proof.
  intros Ha Hk. constructor; cbn [a_address a_log2_size a_read a_written a_sibling_hashes logged].
  - exact Ha.
  - lia.
  - intros data [= <-]. apply leaf_data_bytes.
  - intros data. case_bool_decide; [|done]. intros [= <-]. apply leaf_data_bytes.
  - intros l [= <-]. replace (length _) with 59%nat; [unfold AccessLog.LOG2_WORD_SIZE, AccessLog.LOG2_ROOT_SIZE; lia|].
    induction siblings as [|[k h] siblings IH]; [reflexivity|]. cbn [foldr]. by rewrite length_insert.
Qed.

Lemma response_wf : Forall access_wf response_accesses.
Proof. unfold response_accesses. cbv zeta. repeat apply Forall_cons_2; [apply logged_wf; unfold is_uint; (lia || by vm_compute)..|apply Forall_nil_2]. Qed.

Lemma verify_send_cmio_response_sound_witness :
  verify_send_cmio_response zero_leaf 2 (Some answer) 3 yielded_root response_log responded_root = Done tt /\
  ((image_word yielded yield_address <> 0 /\ 3 <= 2 ^ 21 /\ image_root (responded 2 answer 3 yielded) = responded_root) \/
   (exists s a, s ∈ response_states 2 answer 3 yielded /\ a ∈ response_accesses /\ access_clash zero_leaf s a)).
Proof.
  assert (verify_send_cmio_response zero_leaf 2 (Some answer) 3 yielded_root response_log responded_root = Done tt) as Hv
    by (vm_compute; reflexivity).
  split; [exact Hv|]. rewrite <- yielded_root_spec in Hv.
  apply (verify_send_cmio_response_sound zero_leaf yielded 2 answer 3 response_log responded_root).
  - exact yielded_valid.
  - exact response_wf.
  - lia.
  - repeat constructor; unfold is_byte, is_uint; lia.
  - reflexivity.
  - exact Hv.
Defined.
End witness.
