(* ===== verification/VirtioQueue.v ===== *)
(** * Queues of VirtIO devices (virtio-device.h, virtio-device.cpp)

    The driver of a device puts chains of buffers in a split virtqueue, three
    areas of the memory of the machine: the table of descriptors, the ring of
    available chains, and the ring of used ones.  A device reads and writes these
    areas and the buffers through the state access interface.

    This file models the operations on one queue.  They follow the descriptors
    that the driver wrote, which may form a cycle: the loops of the code have no
    bound, those of the model run for a given number of iterations and end with
    the exception [forever] beyond it.  For the loop that measures a chain, as
    many iterations as there are states of the loop tell whether it ends. *)

From stdpp Require Import finite.
From S2P Require Import Prelude CppInt Constants Bytes Pma MachineState DeviceAccess.

(** ** Loops *)

(** The loop does not end, or not within the iterations given. *)
Definition forever : exn := undefined_behaviour "infinite loop".

(** [while (true)]: the body goes on with a state or leaves with a result. *)
Fixpoint while_true {S R} (body : S -> outcome (S + R)) (fuel : nat) (s : S) : outcome R :=
  match fuel with
  | O => Exn forever
  | S fuel => r ← body s; match r with inl s => while_true body fuel s | inr r => mret r end
  end.

(** ** The interface (i-device-state-access.h)

    The registers of the devices, and the memory of the machine: a read returns
    the bytes, or nothing where the call returns false; a write that returns false
    changes nothing. *)
Class i_device_state_access (A : Type) := {
  regs : A -> device_access;
  set_regs : device_access -> A -> A;
  read_memory : Z -> Z -> A -> option (list Z);
  write_memory : Z -> list Z -> A -> option A;
}.

(** The state with other contents of the memory map *)
Definition upd_empty : (pma_entry -> pma_entry) -> machine_state -> machine_state := ltac:(updater machine_state_eta s_empty_pma).
Definition set_map (pmas : list pma_entry) (e : pma_entry) (s : machine_state) : machine_state :=
  upd_empty (fun _ => e) (upd_pmas (fun _ => pmas) s).

(** The laws of the interface.  [ram a p n] tells that the [n] bytes at [p] lie in
    one memory range of the machine, and [byte_at a] is the memory. *)
Class GuestMemory (A : Type) `{i_device_state_access A} := {
  mem_ok : A -> Prop;
  ram : A -> Z -> Z -> Prop;
  byte_at : A -> Z -> Z;
  ram_range a p n : ram a p n -> 0 <= p /\ p + n <= 2 ^ 64;
  ram_sub a p n q k : ram a p n -> p <= q -> 0 <= k -> q + k <= p + n -> ram a q k;
  byte_at_byte a p : mem_ok a -> is_byte (byte_at a p);
  read_bytes a p n l : mem_ok a -> read_memory p n a = Some l -> Forall is_byte l;
  ram_read a p n : mem_ok a -> ram a p n -> 0 <= n -> read_memory p n a = Some (map (byte_at a) (seqZ p n));
  ram_write a p l : mem_ok a -> ram a p (Z.of_nat (length l)) -> Forall is_byte l ->
    exists a', write_memory p l a = Some a' /\ mem_ok a' /\ (forall q k, ram a q k -> ram a' q k) /\
      forall q, byte_at a' q = if (p <=? q) && (q <? p + Z.of_nat (length l)) then nth (Z.to_nat (q - p)) l 0 else byte_at a q;
  write_regs p l a a' : write_memory p l a = Some a' -> exists pmas e, regs a' = on_s (set_map pmas e) (regs a);
  regs_set_regs d a : regs (set_regs d a) = d;
  set_regs_memory d a : mem_ok a -> s_pmas (da_s d) = s_pmas (da_s (regs a)) -> s_empty_pma (da_s d) = s_empty_pma (da_s (regs a)) ->
    mem_ok (set_regs d a) /\ (forall q k, ram a q k -> ram (set_regs d a) q k) /\ forall q, byte_at (set_regs d a) q = byte_at a q;
}.

(** ** Data *)

Definition VIRTQ_DESC_F_NEXT : Z := 1.
Definition VIRTQ_DESC_F_WRITE : Z := 2.
Definition VIRTQ_USED_F_NO_NOTIFY : Z := 1.

Record virtq_desc := VirtqDesc { desc_paddr : Z; desc_len : Z; desc_flags : Z; desc_next : Z }.
Record virtq_header := VirtqHeader { hdr_flags : Z; hdr_idx : Z }.
Record virtq_used_elem := VirtqUsedElem { used_id : Z; used_len : Z }.

Definition sizeof_virtq_desc : Z := 16.
Definition sizeof_virtq_header : Z := 4.
Definition sizeof_virtq_used_elem : Z := 8.

(** The structures in memory, on a little-endian host *)
Definition field (off len : Z) (l : list Z) : Z := le_val (slice off len l).

Definition desc_of_bytes (l : list Z) : virtq_desc := VirtqDesc (field 0 8 l) (field 8 4 l) (field 12 2 l) (field 14 2 l).
Definition header_of_bytes (l : list Z) : virtq_header := VirtqHeader (field 0 2 l) (field 2 2 l).
Definition bytes_of_header (h : virtq_header) : list Z := le_bytes 2 (hdr_flags h) ++ le_bytes 2 (hdr_idx h).
Definition bytes_of_used_elem (e : virtq_used_elem) : list Z := le_bytes 4 (used_id e) ++ le_bytes 4 (used_len e).

Record virtq := Virtq {
  desc_addr : Z;
  avail_addr : Z;
  used_addr : Z;
  num : Z;
  last_used_idx : Z;
  ready : Z;
}.

Definition blank_virtq : virtq := Virtq 0 0 0 0 0 0.

(** ** The areas of a queue *)

Section queue.
Context `{i_device_state_access A}.

(** The position of an index in a ring or in the table *)
Definition ring_position (vq : virtq) (idx : Z) : Z := idx &ᵇ uint32 (num vq - 1).

Definition used_elem_addr (vq : virtq) (ring_idx : Z) : Z :=
  uint64 (used_addr vq + sizeof_virtq_header + ring_position vq ring_idx * sizeof_virtq_used_elem).
Definition avail_elem_addr (vq : virtq) (ring_idx : Z) : Z :=
  uint64 (avail_addr vq + sizeof_virtq_header + ring_position vq ring_idx * 2).
Definition desc_elem_addr (vq : virtq) (desc_idx : Z) : Z :=
  uint64 (desc_addr vq + ring_position vq desc_idx * sizeof_virtq_desc).

Definition virtq_get_avail_header (vq : virtq) (a : A) : option virtq_header :=
  header_of_bytes <$> read_memory (avail_addr vq) sizeof_virtq_header a.
Definition virtq_set_used_header (vq : virtq) (h : virtq_header) (a : A) : option A :=
  write_memory (used_addr vq) (bytes_of_header h) a.
Definition virtq_set_ring_used_elem (vq : virtq) (ring_idx : Z) (e : virtq_used_elem) (a : A) : option A :=
  write_memory (used_elem_addr vq ring_idx) (bytes_of_used_elem e) a.
Definition virtq_get_ring_avail_elem_desc_idx (vq : virtq) (ring_idx : Z) (a : A) : option Z :=
  le_val <$> read_memory (avail_elem_addr vq ring_idx) 2 a.
Definition virtq_get_desc (vq : virtq) (desc_idx : Z) (a : A) : option virtq_desc :=
  desc_of_bytes <$> read_memory (desc_elem_addr vq desc_idx) sizeof_virtq_desc a.

Definition has_flag (flags flag : Z) : bool := negb (flags &ᵇ flag =? 0).

(** ** The lengths of a chain *)

(** The state of the loop: the index of the next descriptor, the lengths so far,
    and whether a buffer for writing has been seen *)
Record avail_state := AvailState { av_idx : Z; av_read : Z; av_write : Z; av_write_part : bool }.

(** The result of the call, the length for reading and that for writing *)
Definition avail_body (vq : virtq) (a : A) (s : avail_state) : outcome (avail_state + (bool * Z * Z)) :=
  let '(AvailState desc_idx read_len write_len write_part) := s in
  match virtq_get_desc vq desc_idx a with
  | None => mret (inr (false, read_len, write_len))
  | Some desc =>
      let write := has_flag (desc_flags desc) VIRTQ_DESC_F_WRITE in
      if negb write && write_part then mret (inr (false, read_len, write_len))
      else
        let write_len := if write then uint32 (write_len + desc_len desc) else write_len in
        let read_len := if write then read_len else uint32 (read_len + desc_len desc) in
        if negb (has_flag (desc_flags desc) VIRTQ_DESC_F_NEXT) then mret (inr (true, read_len, write_len))
        else mret (inl (AvailState (desc_next desc) read_len write_len (write || write_part)))
  end.

Definition get_desc_rw_avail_len (fuel : nat) (vq : virtq) (desc_idx : Z) (a : A) : outcome (bool * Z * Z) :=
  while_true (avail_body vq a) fuel (AvailState desc_idx 0 0 false).

(** ** Reads and writes of chains *)

(** The part of a buffer that starts at [buf_start_off] of its chain that lies
    between two offsets of the chain *)
Definition chunk_of (buf_start_off len start_off end_off : Z) : Z * Z :=
  (Z.max buf_start_off start_off, Z.min (uint32 (buf_start_off + len)) end_off).

(** The index of the next descriptor, the offset of its buffer, and the data read
    so far *)
Record read_state := ReadState { rd_idx : Z; rd_off : Z; rd_data : list Z }.

(** What follows the buffer of a descriptor in both loops *)
Definition next_desc {S R} (desc : virtq_desc) (stop : R) (next : Z -> S) : outcome (S + R) :=
  if negb (has_flag (desc_flags desc) VIRTQ_DESC_F_NEXT) then mret (inr stop) else mret (inl (next (desc_next desc))).

Definition read_body (vq : virtq) (a : A) (start_off end_off : Z) (s : read_state) :
    outcome (read_state + (bool * list Z)) :=
  let '(ReadState desc_idx buf_start_off data) := s in
  match virtq_get_desc vq desc_idx a with
  | None => mret (inr (false, data))
  | Some desc =>
      if has_flag (desc_flags desc) VIRTQ_DESC_F_WRITE then
        next_desc desc (false, data) (fun idx => ReadState idx buf_start_off data)
      else
        let '(chunk_start_off, chunk_end_off) := chunk_of buf_start_off (desc_len desc) start_off end_off in
        let read :=
          if chunk_start_off <? chunk_end_off then
            bytes ← read_memory (uint64 (desc_paddr desc + (chunk_start_off - buf_start_off)))
                      (chunk_end_off - chunk_start_off) a;
            Some (splice (Z.to_nat (chunk_start_off - start_off)) bytes data)
          else Some data in
        match read with
        | None => mret (inr (false, data))
        | Some data =>
            if end_off <=? chunk_end_off then mret (inr (true, data))
            else next_desc desc (false, data) (fun idx => ReadState idx (uint32 (buf_start_off + desc_len desc)) data)
        end
  end.

(** [data] is the contents of the buffer of the caller. *)
Definition read_desc_mem (fuel : nat) (vq : virtq) (desc_idx start_off : Z) (data : list Z) (len : Z) (a : A) :
    outcome (bool * list Z) :=
  if len =? 0 then mret (true, data)
  else while_true (read_body vq a start_off (uint32 (start_off + len))) fuel (ReadState desc_idx 0 data).

(** The index of the next descriptor, the offset of its buffer, and the memory *)
Record write_state := WriteState { wr_idx : Z; wr_off : Z; wr_mem : A }.

Definition write_body (vq : virtq) (data : list Z) (start_off end_off : Z) (s : write_state) :
    outcome (write_state + (bool * A)) :=
  let '(WriteState desc_idx buf_start_off a) := s in
  match virtq_get_desc vq desc_idx a with
  | None => mret (inr (false, a))
  | Some desc =>
      if negb (has_flag (desc_flags desc) VIRTQ_DESC_F_WRITE) then
        next_desc desc (false, a) (fun idx => WriteState idx buf_start_off a)
      else
        let '(chunk_start_off, chunk_end_off) := chunk_of buf_start_off (desc_len desc) start_off end_off in
        let written :=
          if chunk_start_off <? chunk_end_off then
            write_memory (uint64 (desc_paddr desc + (chunk_start_off - buf_start_off)))
              (slice (chunk_start_off - start_off) (chunk_end_off - chunk_start_off) data) a
          else Some a in
        match written with
        | None => mret (inr (false, a))
        | Some a =>
            if end_off <=? chunk_end_off then mret (inr (true, a))
            else next_desc desc (false, a) (fun idx => WriteState idx (uint32 (buf_start_off + desc_len desc)) a)
        end
  end.

Definition write_desc_mem (fuel : nat) (vq : virtq) (desc_idx start_off : Z) (data : list Z) (len : Z) (a : A) :
    outcome (bool * A) :=
  if len =? 0 then mret (true, a)
  else while_true (write_body vq data start_off (uint32 (start_off + len))) fuel (WriteState desc_idx 0 a).

(** ** Used chains *)

Definition set_last_used_idx (v : Z) (vq : virtq) : virtq :=
  Virtq (desc_addr vq) (avail_addr vq) (used_addr vq) (num vq) v (ready vq).

Definition consume_desc (vq : virtq) (desc_idx written_len used_flags : Z) (a : A) : bool * virtq * A :=
  match virtq_set_ring_used_elem vq (last_used_idx vq) (VirtqUsedElem desc_idx written_len) a with
  | None => (false, vq, a)
  | Some a =>
      let next_last_used_idx := uint16 (last_used_idx vq + 1) in
      match virtq_set_used_header vq (VirtqHeader used_flags next_last_used_idx) a with
      | None => (false, vq, a)
      | Some a => (true, set_last_used_idx next_last_used_idx vq, a)
      end
  end.
End queue.

(** ** Properties of loops *)

Section loops.
Context {S R : Type} (body : S -> outcome (S + R)).

(** More iterations give the same result. *)
Lemma while_true_more n m s r :
  while_true body n s = r -> r <> Exn forever -> (n <= m)%nat -> while_true body m s = r.
Proof.
  revert m s. induction n as [|n IH]; intros m s Hr Hne Hle; [by subst|].
  destruct m as [|m]; [lia|]. cbn [while_true] in *. destruct (body s) as [[s'|x]|e]; cbn in *; [|done|done].
  apply IH; [done|done|lia].
Qed.

(** An invariant of the states, for a body that throws nothing but [forever] *)
Lemma while_true_invariant (P : S -> Prop) (Q : R -> Prop) n s :
  (forall s, P s -> match body s with Done (inl s') => P s' | Done (inr r) => Q r | Exn e => e = forever end) ->
  P s -> match while_true body n s with Done r => Q r | Exn e => e = forever end.
Proof.
  intros Hb. revert s. induction n as [|n IH]; intros s Hs; [done|]. cbn. specialize (Hb s Hs).
  destruct (body s) as [[s'|r]|e]; cbn; [by apply IH|done|done].
Qed.

(** A loop whose body looks at a part of the state only, for which it either
    stops or goes on with another part.  [keys] are all the parts there are. *)
Context {K : Type} (key : S -> K) (next : K -> option K) (keys : list K).
Hypothesis body_next : forall s,
  match next (key s) with
  | None => exists r, body s = Done (inr r)
  | Some k => exists s', body s = Done (inl s') /\ key s' = k
  end.
Hypothesis keys_closed : forall k k', next k = Some k' -> k' ∈ keys.

(** The part of the state after [n] iterations *)
Fixpoint after (n : nat) (k : K) : option K :=
  match n with O => Some k | Datatypes.S n => next k ≫= after n end.

Lemma loop_after n s : while_true body n s = Exn forever <-> is_Some (after n (key s)).
Proof.
  revert s. induction n as [|n IH]; intros s; cbn; [by split|]. pose proof (body_next s) as Hb.
  destruct (next (key s)) as [k|]; cbn.
  - destruct Hb as (s' & -> & <-). apply IH.
  - destruct Hb as (r & ->). cbn. split; [done|]. by intros [].
Qed.

Lemma after_add m n k : after (m + n) k = after m k ≫= after n.
Proof. revert k. induction m as [|m IH]; intros k; cbn; [done|]. destruct (next k); cbn; [apply IH|done]. Qed.

Lemma after_less m n k : (m <= n)%nat -> is_Some (after n k) -> is_Some (after m k).
Proof.
  intros Hle. replace n with (m + (n - m))%nat by lia. rewrite after_add.
  destruct (after m k); cbn; [eauto|]. by intros [].
Qed.

Lemma after_keys n k k' : k ∈ keys -> after n k = Some k' -> k' ∈ keys.
Proof.
  revert k. induction n as [|n IH]; intros k Hk; cbn; [by intros [= <-]|].
  destruct (next k) as [k1|] eqn:E; cbn; [|done]. apply IH. by eapply keys_closed.
Qed.

(** A loop that runs for as many iterations as there are parts never ends. *)
Lemma after_cycle n k : k ∈ keys -> (length keys <= n)%nat -> is_Some (after n k) -> forall m, is_Some (after m k).
Proof.
  intros Hk Hn Hs. set (part i := default k (after i k)).
  assert (forall i, (i <= n)%nat -> after i k = Some (part i)) as Hpart.
  { intros i Hi. destruct (after_less i n k Hi Hs) as [x Hx]. unfold part. by rewrite Hx. }
  destruct (list_pigeonhole (part <$> seq 0 (Datatypes.S n)) keys) as (i & j & x & Hij & Hi & Hj).
  - intros y (i & -> & Hi%elem_of_seq)%list_elem_of_fmap. apply (after_keys i k); [done|]. apply Hpart. lia.
  - rewrite length_fmap, length_seq. lia.
  - apply list_lookup_fmap_Some in Hi as (i' & Hx & [-> Hi]%lookup_seq).
    apply list_lookup_fmap_Some in Hj as (j' & Hy & [-> Hj]%lookup_seq). cbn in *.
    intros m. induction m as [m IH] using lt_wf_ind. destruct (decide (m <= n)%nat) as [|Hm]; [by eapply after_less|].
    specialize (IH (i + (m - j))%nat ltac:(lia)). rewrite after_add, Hpart in IH by lia.
    replace m with (j + (m - j))%nat by lia. rewrite after_add, Hpart by lia.
    change (x = part i) in Hx. change (x = part j) in Hy. by rewrite <- Hy, Hx.
Qed.

(** So this many iterations decide whether the loop ends. *)
Lemma while_true_decides n m s :
  key s ∈ keys -> (length keys <= n)%nat -> (n <= m)%nat -> while_true body m s = while_true body n s.
Proof.
  intros Hk Hn Hm. destruct (after n (key s)) as [k|] eqn:E.
  - assert (is_Some (after n (key s))) as Hs by eauto. rewrite (proj2 (loop_after n s) Hs).
    apply loop_after. by eapply after_cycle.
  - apply (while_true_more n); [done| |done]. rewrite loop_after, E. by intros [].
Qed.
End loops.

(** ** Chains of descriptors *)

Definition readable (d : virtq_desc) : bool := negb (has_flag (desc_flags d) VIRTQ_DESC_F_WRITE).
Definition has_next (d : virtq_desc) : bool := has_flag (desc_flags d) VIRTQ_DESC_F_NEXT.

(** No buffer for reading comes after one for writing; [after_write] tells that
    one for writing came before. *)
Fixpoint ordered (after_write : bool) (ds : list virtq_desc) : bool :=
  match ds with
  | [] => true
  | d :: ds => negb (readable d && after_write) && ordered (negb (readable d) || after_write) ds
  end.

Definition total_len (ds : list virtq_desc) : Z := fold_right Z.add 0 (desc_len <$> ds).
Definition read_part (ds : list virtq_desc) : list virtq_desc := filter (fun d => readable d = true) ds.
Definition write_part (ds : list virtq_desc) : list virtq_desc := filter (fun d => readable d = false) ds.

Lemma total_len_app ds ds' : total_len (ds ++ ds') = total_len ds + total_len ds'.
Proof. unfold total_len. induction ds as [|d ds IH]; cbn in *; [done|]. rewrite IH. lia. Qed.

Lemma read_len_cons d ds :
  total_len (read_part (d :: ds)) = (if readable d then desc_len d else 0) + total_len (read_part ds).
Proof. unfold read_part. rewrite filter_cons. by destruct (readable d); [rewrite decide_True by done|rewrite decide_False by done]. Qed.

Lemma write_len_cons d ds :
  total_len (write_part (d :: ds)) = (if readable d then 0 else desc_len d) + total_len (write_part ds).
Proof. unfold write_part. rewrite filter_cons. by destruct (readable d); [rewrite decide_False by done|rewrite decide_True by done]. Qed.

Section chains.
Context `{GuestMemory A} (vq : virtq) (a : A).

(** The descriptors that lead from an index to another one *)
Inductive path : Z -> list virtq_desc -> Z -> Prop :=
  | path_nil idx : path idx [] idx
  | path_cons idx d ds idx' :
      virtq_get_desc vq idx a = Some d -> has_next d = true -> path (desc_next d) ds idx' -> path idx (d :: ds) idx'.

(** A chain: the descriptors from an index to the last one *)
Inductive chain : Z -> list virtq_desc -> Prop :=
  | chain_last idx d : virtq_get_desc vq idx a = Some d -> has_next d = false -> chain idx [d]
  | chain_next idx d ds :
      virtq_get_desc vq idx a = Some d -> has_next d = true -> chain (desc_next d) ds -> chain idx (d :: ds).

Lemma field_uint off len l : 0 <= len -> Forall is_byte l -> is_uint (8 * len) (field off len l).
Proof.
  intros Hn Hl. unfold field, slice. set (b := take _ _).
  assert (Forall is_byte b) as Hb by (by apply Forall_take, Forall_drop). apply le_val_range in Hb.
  apply (uint_mono (8 * Z.of_nat (length b))); [|done]. unfold b. rewrite length_take. lia.
Qed.

Lemma get_desc_uint idx d : mem_ok a -> virtq_get_desc vq idx a = Some d ->
  is_uint 64 (desc_paddr d) /\ is_uint 32 (desc_len d) /\ is_uint 16 (desc_flags d) /\ is_uint 16 (desc_next d).
Proof.
  unfold virtq_get_desc. intros Ha. destruct (read_memory _ _ a) as [l|] eqn:E; [|done]. intros [= <-].
  apply read_bytes in E; [|done].
  split; [by apply (field_uint 0 8)|]. split; [by apply (field_uint 8 4)|]. split; [by apply (field_uint 12 2)|by apply (field_uint 14 2)].
Qed.

Lemma path_last idx ds idx' d :
  path idx ds idx' -> virtq_get_desc vq idx' a = Some d -> has_next d = false -> chain idx (ds ++ [d]).
Proof. induction 1; cbn; eauto using chain_last, chain_next. Qed.

Lemma chain_path idx ds : chain idx ds ->
  exists ds' d idx', ds = ds' ++ [d] /\ path idx ds' idx' /\ virtq_get_desc vq idx' a = Some d /\ has_next d = false.
Proof.
  induction 1 as [idx d Hd Hn|idx d ds Hd Hn _ (ds' & d' & idx' & -> & Hp & Hg & Hl)].
  - exists [], d, idx. eauto using path_nil.
  - exists (d :: ds'), d', idx'. eauto using path_cons.
Qed.

Lemma chain_unique idx ds ds' : chain idx ds -> chain idx ds' -> ds = ds'.
Proof.
  intros Hc. revert ds'. induction Hc as [idx d Hd Hn|idx d ds Hd Hn _ IH]; intros ds'; inversion 1; simplify_eq; try congruence.
  f_equal. by apply IH.
Qed.

(** *** The walk *)

Definition avail_key (s : avail_state) : Z * bool := (av_idx s, av_write_part s).

Definition avail_next (k : Z * bool) : option (Z * bool) :=
  d ← virtq_get_desc vq k.1 a;
  if readable d && k.2 then None
  else if has_next d then Some (desc_next d, negb (readable d) || k.2) else None.

Lemma avail_body_next s :
  match avail_next (avail_key s) with
  | None => exists r, avail_body vq a s = Done (inr r)
  | Some k => exists s', avail_body vq a s = Done (inl s') /\ avail_key s' = k
  end.
Proof.
  destruct s as [idx r w p]. unfold avail_next, avail_key, avail_body, readable, has_next. cbn [fst snd av_idx av_write_part].
  destruct (virtq_get_desc vq idx a) as [d|]; cbn [mbind option_bind]; [|by eexists].
  destruct (has_flag (desc_flags d) VIRTQ_DESC_F_WRITE), p, (has_flag (desc_flags d) VIRTQ_DESC_F_NEXT); cbn; eauto.
Qed.

Definition avail_keys : list (Z * bool) := i ← seqZ 0 65536; [(i, false); (i, true)].

Lemma avail_keys_in i b : is_uint 16 i -> (i, b) ∈ avail_keys.
Proof.
  intros Hi. apply list_elem_of_bind. exists i. split; [destruct b; set_solver|]. by apply elem_of_seqZ.
Qed.

Lemma avail_keys_closed k k' : mem_ok a -> avail_next k = Some k' -> k' ∈ avail_keys.
Proof.
  unfold avail_next. intros Ha. destruct (virtq_get_desc vq k.1 a) as [d|] eqn:E; cbn; [|done].
  destruct (readable d && k.2); [done|]. destruct (has_next d); [|done]. intros [= <-].
  apply avail_keys_in. by apply (get_desc_uint _ _ Ha) in E as (_ & _ & _ & ?).
Qed.

Definition walk (n : nat) (idx r w : Z) (p : bool) : outcome (bool * Z * Z) :=
  while_true (avail_body vq a) n (AvailState idx r w p).

(** One iteration *)
Lemma walk_step n idx r w p :
  walk (S n) idx r w p =
  match virtq_get_desc vq idx a with
  | None => Done (false, r, w)
  | Some d =>
      if readable d && p then Done (false, r, w)
      else
        let r := if readable d then uint32 (r + desc_len d) else r in
        let w := if readable d then w else uint32 (w + desc_len d) in
        if has_next d then walk n (desc_next d) r w (negb (readable d) || p) else Done (true, r, w)
  end.
Proof.
  unfold walk. cbn [while_true avail_body]. unfold readable, has_next. destruct (virtq_get_desc vq idx a) as [d|]; [|done].
  by destruct (has_flag (desc_flags d) VIRTQ_DESC_F_WRITE), p, (has_flag (desc_flags d) VIRTQ_DESC_F_NEXT).
Qed.

Lemma walk_chain n idx ds r w p :
  chain idx ds -> ordered p ds = true -> (length ds <= n)%nat -> is_uint 32 r -> is_uint 32 w ->
  walk n idx r w p = Done (true, uint32 (r + total_len (read_part ds)), uint32 (w + total_len (write_part ds))).
Proof.
  intros Hc. revert n r w p.
  induction Hc as [idx d Hd Hn|idx d ds Hd Hn _ IH]; intros n r w p Ho Hl Hr Hw; (destruct n as [|n]; [cbn in Hl; lia|]);
    cbn [ordered] in Ho; apply andb_true_iff in Ho as [Ho1 Ho2]; apply negb_true_iff in Ho1;
    rewrite walk_step, Hd, Ho1, Hn; cbn zeta.
  - rewrite read_len_cons, write_len_cons. change (total_len (read_part [])) with 0. change (total_len (write_part [])) with 0.
    by destruct (readable d); rewrite !Z.add_0_r, ?(uint_id 32 w), ?(uint_id 32 r).
  - rewrite IH; [|done|cbn in Hl; lia|destruct (readable d); [apply uint_range; lia|done]|destruct (readable d); [done|apply uint_range; lia]].
    rewrite read_len_cons, write_len_cons. destruct (readable d); by rewrite uint_add_l, Z.add_0_l, Z.add_assoc by lia.
Qed.

Lemma walk_true n idx r w p x y :
  walk n idx r w p = Done (true, x, y) -> exists ds, chain idx ds /\ ordered p ds = true /\ (length ds <= n)%nat.
Proof.
  revert idx r w p. induction n as [|n IH]; intros idx r w p; [done|]. rewrite walk_step.
  destruct (virtq_get_desc vq idx a) as [d|] eqn:Hd; [|done]. destruct (readable d && p) eqn:Ho; [done|]. cbn zeta.
  destruct (has_next d) eqn:Hn.
  - intros (ds & Hc & Ho' & Hl)%IH. exists (d :: ds). split; [by apply chain_next|]. cbn. rewrite Ho, Ho'. split; [done|lia].
  - intros _. exists [d]. split; [by apply chain_last|]. cbn. rewrite Ho. split; [done|lia].
Qed.

Lemma after_path n idx p :
  is_Some (after avail_next n (idx, p)) <-> exists ds j, path idx ds j /\ length ds = n /\ ordered p ds = true.
Proof.
  revert idx p. induction n as [|n IH]; intros idx p; cbn [after].
  { split; [|by eexists]. intros _. exists [], idx. split; [constructor|done]. }
  assert (avail_next (idx, p) = d ← virtq_get_desc vq idx a;
    if readable d && p then None else if has_next d then Some (desc_next d, negb (readable d) || p) else None) as -> by done.
  split.
  - destruct (virtq_get_desc vq idx a) as [d|] eqn:Hd; cbn; [|by intros []].
    destruct (readable d && p) eqn:Ho; [by intros []|]. destruct (has_next d) eqn:Hn; cbn; [|by intros []].
    intros (ds & j & Hp & Hl & Ho')%IH. exists (d :: ds), j. split; [by apply path_cons|]. cbn. rewrite Ho, Ho', Hl. done.
  - intros (ds & j & Hp & Hl & Ho). destruct ds as [|d ds]; [done|]. inversion Hp as [|? ? ? ? Hd Hn Hp']; subst.
    rewrite Hd. cbn in *. apply andb_true_iff in Ho as [Ho1 Ho2]. apply negb_true_iff in Ho1. rewrite Ho1, Hn. cbn.
    apply IH. exists ds, j. split; [done|]. split; [lia|done].
Qed.

(** As many iterations as there are states of the walk *)
Definition avail_fuel : nat := Z.to_nat 131072.

Lemma avail_fuel_Z : Z.of_nat avail_fuel = 131072.
Proof. unfold avail_fuel. by rewrite Z2Nat.id. Qed.

Lemma avail_keys_length : length avail_keys = avail_fuel.
Proof.
  unfold avail_keys, avail_fuel. assert (forall l : list Z, length (l ≫= fun i => [(i, false); (i, true)]) = (length l * 2)%nat) as ->
    by (induction l; cbn in *; lia).
  rewrite length_seqZ. lia.
Qed.

#[local] Opaque avail_fuel.

Lemma walk_decides n idx p r w :
  mem_ok a -> is_uint 16 idx -> (avail_fuel <= n)%nat -> walk n idx r w p = walk avail_fuel idx r w p.
Proof.
  intros Ha Hi Hn.
  apply (while_true_decides _ avail_key avail_next avail_keys avail_body_next
           (fun k k' => avail_keys_closed k k' Ha) avail_fuel n (AvailState idx r w p)).
  - by apply avail_keys_in.
  - by rewrite avail_keys_length.
  - done.
Qed.

Lemma walk_forever n idx r w p : walk n idx r w p = Exn forever <-> is_Some (after avail_next n (idx, p)).
Proof. apply (loop_after _ avail_key avail_next avail_body_next n (AvailState idx r w p)). Qed.
End chains.

(** ** Reads of chains *)

Lemma splice_splice k b r old :
  (k + length b + length r <= length old)%nat -> splice (k + length b) r (splice k b old) = splice k (b ++ r) old.
Proof.
  intros Hl. unfold splice. rewrite length_app, <- app_assoc. rewrite (app_assoc (take k old)), take_app_length' by (rewrite length_app, length_take; lia).
  rewrite <- app_assoc. do 3 f_equal. rewrite drop_app_ge by (rewrite length_app, length_take; lia).
  rewrite drop_drop, length_app, length_take. f_equal. lia.
Qed.

Lemma slice_app_l o n (l l' : list Z) : 0 <= o -> 0 <= n -> o + n <= Z.of_nat (length l) -> slice o n (l ++ l') = slice o n l.
Proof. intros. unfold slice. rewrite drop_app_le by lia. apply take_app_le. rewrite length_drop. lia. Qed.

Lemma slice_app_r o n (l l' : list Z) : Z.of_nat (length l) <= o -> slice o n (l ++ l') = slice (o - Z.of_nat (length l)) n l'.
Proof. intros. unfold slice. rewrite drop_app_ge by lia. do 2 f_equal. lia. Qed.

Lemma slice_app o n (l l' : list Z) : 0 <= o <= Z.of_nat (length l) -> Z.of_nat (length l) <= o + n ->
  slice o n (l ++ l') = slice o (Z.of_nat (length l) - o) l ++ slice 0 (o + n - Z.of_nat (length l)) l'.
Proof.
  intros. unfold slice. rewrite drop_app_le by lia. rewrite take_app, length_drop. cbn [Z.to_nat drop].
  f_equal; [by rewrite !take_ge by (rewrite length_drop; lia)|f_equal; lia].
Qed.

Lemma slice_seqZ (f : Z -> Z) p n o k : 0 <= o -> 0 <= k -> o + k <= n -> slice o k (map f (seqZ p n)) = map f (seqZ (p + o) k).
Proof.
  intros. unfold slice. rewrite <- fmap_drop, <- fmap_take. f_equal. apply list_eq. intros i.
  destruct (decide (i < Z.to_nat k)%nat).
  - rewrite lookup_take_lt, lookup_drop by lia. rewrite !lookup_seqZ_lt by lia. f_equal. lia.
  - rewrite lookup_take_ge by lia. symmetry. apply lookup_seqZ_ge. lia.
Qed.

Section reads.
Context `{GuestMemory A} (vq : virtq) (a : A) (Ha : mem_ok a).

(** The bytes of a buffer, and those of the buffers of a chain *)
Definition buffer (d : virtq_desc) : list Z := map (byte_at a) (seqZ (desc_paddr d) (desc_len d)).
Definition buffers (ds : list virtq_desc) : list Z := concat (map buffer ds).
Definition in_ram (d : virtq_desc) : Prop := ram a (desc_paddr d) (desc_len d).

Lemma length_buffer d : 0 <= desc_len d -> Z.of_nat (length (buffer d)) = desc_len d.
Proof. intros. unfold buffer. rewrite length_map, length_seqZ. lia. Qed.

Lemma length_buffers ds : Forall (fun d => 0 <= desc_len d) ds -> Z.of_nat (length (buffers ds)) = total_len ds.
Proof.
  induction 1 as [|d ds Hd _ IH]; [done|]. unfold buffers, total_len in *. cbn. rewrite length_app.
  pose proof (length_buffer d Hd). lia.
Qed.

Lemma read_buffer d o k :
  in_ram d -> is_uint 64 (desc_paddr d) -> 0 <= o -> 0 < k -> o + k <= desc_len d ->
  read_memory (uint64 (desc_paddr d + o)) k a = Some (slice o k (buffer d)).
Proof.
  intros Hr Hp Ho Hk Hl. pose proof (ram_range _ _ _ Hr). unfold is_uint in Hp.
  rewrite uint_id by (unfold is_uint; lia). rewrite ram_read; [|done| |lia].
  - unfold buffer. by rewrite slice_seqZ by lia.
  - apply (ram_sub a (desc_paddr d) (desc_len d)); [exact Hr|lia..].
Qed.

Lemma chain_lens idx ds : chain vq a idx ds -> Forall (fun d => 0 <= desc_len d /\ is_uint 64 (desc_paddr d)) ds.
Proof.
  assert (forall idx d, virtq_get_desc vq idx a = Some d -> 0 <= desc_len d /\ is_uint 64 (desc_paddr d)) as Hd.
  { intros i d Hd. destruct (get_desc_uint _ _ _ _ Ha Hd) as (? & [] & _). done. }
  induction 1; constructor; eauto.
Qed.

Lemma read_part_cons d ds : read_part (d :: ds) = if readable d then d :: read_part ds else read_part ds.
Proof. unfold read_part. rewrite filter_cons. by destruct (readable d); [rewrite decide_True by done|rewrite decide_False by done]. Qed.

Definition reading (start_off end_off : Z) (n : nat) (idx off : Z) (data : list Z) : outcome (bool * list Z) :=
  while_true (read_body vq a start_off end_off) n (ReadState idx off data).

(** One iteration over a buffer that is in memory *)
Lemma reading_step start_off end_off n idx off data d :
  virtq_get_desc vq idx a = Some d -> 0 <= off -> (readable d = true -> in_ram d /\ off + desc_len d < 2 ^ 32) ->
  reading start_off end_off (S n) idx off data =
  if readable d then
    let '(from, to) := (Z.max off start_off, Z.min (off + desc_len d) end_off) in
    let data := if from <? to then splice (Z.to_nat (from - start_off)) (slice (from - off) (to - from) (buffer d)) data else data in
    if end_off <=? to then Done (true, data)
    else if has_next d then reading start_off end_off n (desc_next d) (off + desc_len d) data else Done (false, data)
  else if has_next d then reading start_off end_off n (desc_next d) off data else Done (false, data).
Proof.
  intros Hd Ho Hin. pose proof (get_desc_uint _ _ _ _ Ha Hd) as (Hp & [Hl _] & _). unfold reading. cbn [while_true read_body]. rewrite Hd.
  unfold readable, has_next, next_desc, chunk_of in *. destruct (has_flag (desc_flags d) VIRTQ_DESC_F_WRITE); cbn [negb] in *.
  { by destruct (has_flag (desc_flags d) VIRTQ_DESC_F_NEXT). }
  destruct (Hin eq_refl) as [Hram Hlt].
  rewrite (uint_id 32 (off + desc_len d)) by (unfold is_uint; lia).
  set (from := Z.max off start_off). set (to := Z.min (off + desc_len d) end_off).
  destruct (Z.ltb_spec from to).
  - rewrite read_buffer by (auto; lia). cbn [mbind option_bind].
    destruct (end_off <=? to); [done|]. by destruct (has_flag (desc_flags d) VIRTQ_DESC_F_NEXT).
  - destruct (end_off <=? to); [done|]. by destruct (has_flag (desc_flags d) VIRTQ_DESC_F_NEXT).
Qed.

(** The loop over a chain whose buffers for reading hold the bytes up to [end_off]
    reads those that are left. *)
Lemma reading_chain start_off end_off n idx ds off data :
  chain vq a idx ds -> (length ds <= n)%nat -> Forall in_ram (read_part ds) ->
  0 <= off < end_off -> 0 <= start_off < end_off -> end_off <= off + total_len (read_part ds) < 2 ^ 32 ->
  end_off - start_off <= Z.of_nat (length data) ->
  let from := Z.max off start_off in
  reading start_off end_off n idx off data =
    Done (true, splice (Z.to_nat (from - start_off)) (slice (from - off) (end_off - from) (buffers (read_part ds))) data).
Proof.
  intros Hc. revert n off data. assert (forall d ds, chain vq a (desc_next d) ds -> 0 <= total_len (read_part ds)) as Hpos.
  { intros d l Hl. apply chain_lens in Hl. clear - Hl. induction Hl as [|x l [Hx _] _ IH]; [done|]. rewrite read_len_cons. destruct (readable x); lia. }
  induction Hc as [idx d Hd Hn|idx d ds Hd Hn Hc IH]; intros n off data Hl Hram Ho Hs Ht Hlen from; (destruct n as [|n]; [cbn in Hl; lia|]);
    pose proof (get_desc_uint _ _ _ _ Ha Hd) as (Hp & [Hl0 _] & _); rewrite read_part_cons in Hram; rewrite read_len_cons in Ht.
  - change (total_len (read_part [])) with 0 in Ht. destruct (readable d) eqn:Er; [|lia]. apply Forall_cons_1 in Hram as [Hr _].
    rewrite reading_step with (d := d); [|done|lia|intros _; split; [done|lia]]. rewrite Er, read_part_cons, Er. cbn zeta. fold from.
    replace (Z.min (off + desc_len d) end_off) with end_off by lia. rewrite Z.leb_refl. test (from <? end_off) is true.
    unfold buffers. cbn. by rewrite app_nil_r.
  - specialize (Hpos d ds Hc). rewrite read_part_cons.
    rewrite reading_step with (d := d); [|done|lia|].
    2: { intros E. rewrite E in Hram, Ht. apply Forall_cons_1 in Hram as [? _]. split; [done|lia]. }
    rewrite Hn. destruct (readable d) eqn:Er.
    2: { cbn in Hl. apply IH; try done; lia. }
    apply Forall_cons_1 in Hram as [_ Hram]. cbn zeta. fold from. unfold buffers. cbn [map concat].
    pose proof (length_buffer d Hl0) as Hb. fold (buffers (read_part ds)).
    destruct (Z.leb_spec end_off (Z.min (off + desc_len d) end_off)) as [He|He].
    { replace (Z.min (off + desc_len d) end_off) with end_off by lia. test (from <? end_off) is true.
      by rewrite slice_app_l by lia. }
    replace (Z.min (off + desc_len d) end_off) with (off + desc_len d) in * by lia.
    destruct (Z.ltb_spec from (off + desc_len d)) as [Hf|Hf].
    + set (b := slice _ _ (buffer d)). assert (Z.of_nat (length b) = off + desc_len d - from) as Hbl.
      { unfold b, slice. rewrite length_take, length_drop. lia. }
      unfold reading in *. cbn in Hl. rewrite IH; [|lia|done|lia|done|lia|rewrite length_splice; lia].
      replace (Z.max (off + desc_len d) start_off) with (off + desc_len d) by lia. do 2 f_equal.
      rewrite slice_app, Hb by lia. replace (Z.to_nat (off + desc_len d - start_off)) with (Z.to_nat (from - start_off) + length b)%nat by lia.
      rewrite splice_splice by (unfold slice; rewrite ?length_take; lia).
      do 2 f_equal; [unfold b; f_equal; lia|f_equal; lia].
    + unfold reading in *. cbn in Hl. rewrite IH; [|lia|done|lia|done|lia|lia].
      replace (Z.max (off + desc_len d) start_off) with from by lia.
      rewrite slice_app_r by lia. do 4 f_equal. lia.
Qed.

(** The loop over a chain whose buffers end before [end_off] fails. *)
Lemma reading_short start_off end_off n idx ds off data :
  chain vq a idx ds -> (length ds <= n)%nat -> Forall in_ram (read_part ds) ->
  0 <= off -> off + total_len (read_part ds) < 2 ^ 32 -> off + total_len (read_part ds) < end_off ->
  exists data', reading start_off end_off n idx off data = Done (false, data').
Proof.
  intros Hc. revert n off data.
  assert (forall i l, chain vq a i l -> 0 <= total_len (read_part l)) as Hpos.
  { intros i l Hl. apply chain_lens in Hl. induction Hl as [|x l [Hx _] _ IH]; [done|]. rewrite read_len_cons. destruct (readable x); lia. }
  induction Hc as [idx d Hd Hn|idx d ds Hd Hn Hc IH]; intros n off data Hl Hram Ho Ht He; (destruct n as [|n]; [cbn in Hl; lia|]);
    pose proof (get_desc_uint _ _ _ _ Ha Hd) as (_ & [Hl0 _] & _); rewrite read_part_cons in Hram; rewrite read_len_cons in Ht, He;
    [change (total_len (read_part [])) with 0 in *|specialize (Hpos _ _ Hc)];
    (rewrite reading_step with (d := d); [|done|lia|intros E; rewrite E in *; apply Forall_cons_1 in Hram as [? _]; split; [done|lia]]);
    rewrite Hn; (destruct (readable d) eqn:Er; cbn zeta; [|]).
  - test (end_off <=? Z.min (off + desc_len d) end_off) is false. by eexists.
  - by eexists.
  - test (end_off <=? Z.min (off + desc_len d) end_off) is false. apply Forall_cons_1 in Hram as [_ Hram]. cbn in Hl. apply IH; done || lia.
  - cbn in Hl. apply IH; done || lia.
Qed.

(** A read of a range of the bytes that a chain carries to the device *)
Lemma read_desc_mem_spec fuel idx ds start_off len data :
  chain vq a idx ds -> (length ds <= fuel)%nat -> Forall in_ram (read_part ds) ->
  0 <= start_off -> 0 <= len -> start_off + len <= total_len (read_part ds) < 2 ^ 32 -> len <= Z.of_nat (length data) ->
  read_desc_mem fuel vq idx start_off data len a = Done (true, splice 0 (slice start_off len (buffers (read_part ds))) data).
Proof.
  intros Hc Hf Hram Hs Hl Ht Hd. unfold read_desc_mem. destruct (Z.eqb_spec len 0) as [->|Hne].
  { unfold slice. cbn [Z.to_nat take]. unfold splice. cbn. by rewrite drop_0. }
  rewrite uint_id by (unfold is_uint; lia). pose proof (reading_chain start_off (start_off + len) fuel idx ds 0 data Hc Hf Hram) as Hr.
  cbv zeta in Hr. unfold reading in Hr. rewrite Hr by lia. replace (Z.max 0 start_off) with start_off by lia. do 3 f_equal; [lia|f_equal; lia].
Qed.
End reads.

(** ** What the operations change *)

Section changes.
Context `{GuestMemory A}.

(** The memory may change, the registers do not. *)
Definition same_regs (a a' : A) : Prop := exists pmas e, regs a' = on_s (set_map pmas e) (regs a).

#[export] Instance same_regs_preorder : PreOrder same_regs.
Proof.
  split.
  - intros a. exists (s_pmas (da_s (regs a))), (s_empty_pma (da_s (regs a))). destruct (regs a) as [s c i o]. by destruct s.
  - intros a b c (p & e & Hp) (q & e' & Hq). exists q, e'. by rewrite Hq, Hp.
Qed.

Lemma write_same_regs p l a a' : write_memory p l a = Some a' -> same_regs a a'.
Proof. apply write_regs. Qed.

Lemma get_desc_rw_avail_len_throws fuel vq idx a e : get_desc_rw_avail_len fuel vq idx a = Exn e -> e = forever.
Proof.
  intros E. pose proof (while_true_invariant (avail_body vq a) (fun _ => True) (fun _ => True) fuel (AvailState idx 0 0 false)) as Hi.
  unfold get_desc_rw_avail_len in E. rewrite E in Hi. apply Hi; [|done]. intros [i r w p] _. unfold avail_body.
  destruct (virtq_get_desc vq i a); [|done]. by repeat case_if.
Qed.

Lemma read_desc_mem_throws fuel vq idx off data len a e : read_desc_mem fuel vq idx off data len a = Exn e -> e = forever.
Proof.
  unfold read_desc_mem. case_if; [done|]. intros Ex.
  pose proof (while_true_invariant (read_body vq a off (uint32 (off + len))) (fun _ => True) (fun _ => True) fuel (ReadState idx 0 data)) as Hi.
  rewrite Ex in Hi. apply Hi; [|done]. clear. intros [i o l] _. unfold read_body, next_desc, chunk_of.
  destruct (virtq_get_desc vq i a); [|done]. case_if; [by case_if|]. destruct (if _ <? _ then _ else _); [|done]. by repeat case_if.
Qed.

Lemma write_desc_mem_regs fuel vq idx off data len a :
  match write_desc_mem fuel vq idx off data len a with Done (_, a') => same_regs a a' | Exn e => e = forever end.
Proof.
  unfold write_desc_mem. case_if; [by cbn|].
  pose proof (while_true_invariant (write_body vq data off (uint32 (off + len))) (fun s => same_regs a (wr_mem s))
    (fun r => same_regs a r.2) fuel (WriteState idx 0 a)) as Hi.
  assert (forall s, same_regs a (wr_mem s) ->
    match write_body vq data off (uint32 (off + len)) s with
    | Done (inl s') => same_regs a (wr_mem s') | Done (inr r) => same_regs a r.2 | Exn e => e = forever end) as Hb.
  { intros [i o a1] Hr. cbn in Hr. unfold write_body, next_desc, chunk_of. destruct (virtq_get_desc vq i a1) as [d|]; [|done].
    case_if; [by case_if|]. destruct (if _ <? _ then _ else _) as [a2|] eqn:Ew; [|done].
    assert (same_regs a a2) as Hr' by (revert Ew; case_if; [intros Ew; etrans; [exact Hr|by eapply write_same_regs]|by intros [= <-]]).
    by repeat case_if. }
  specialize (Hi Hb (reflexivity a)). by destruct (while_true _ fuel _) as [[b a1]|e].
Qed.

Lemma consume_desc_spec vq idx len flags a :
  let '(ok, vq', a') := consume_desc vq idx len flags a in
  same_regs a a' /\ vq' = if ok : bool then set_last_used_idx (uint16 (last_used_idx vq + 1)) vq else vq.
Proof.
  unfold consume_desc, virtq_set_ring_used_elem, virtq_set_used_header. destruct (write_memory _ _ a) as [a1|] eqn:E1; [|by cbn].
  apply write_same_regs in E1. destruct (write_memory _ _ a1) as [a2|] eqn:E2; [|by cbn].
  apply write_same_regs in E2. split; [by etrans|done].
Qed.
End changes.
