(* ===== verification/VirtioDevice.v ===== *)
(** * VirtIO devices (virtio-device.h, virtio-device.cpp)

    The part that all VirtIO devices share: the registers the driver sees, the
    interrupt line they share with the interrupt controller, the notifications in
    both directions, and the two queues.  A device adds its own state and the
    methods of the class [virtio_methods]. *)

From S2P Require Import Prelude CppInt Constants Bytes Pma MachineState DeviceAccess Plic VirtioQueue.

(** ** Constants *)

Definition VIRTIO_MAGIC_VALUE : Z := 0x74726976.
Definition VIRTIO_VERSION : Z := 2.
Definition VIRTIO_VENDOR_ID : Z := 0xffff.
Definition VIRTIO_QUEUE_COUNT : Z := 2.
Definition VIRTIO_QUEUE_NUM_MAX : Z := 128.
Definition VIRTIO_MAX_CONFIG_SPACE_SIZE : Z := 256.
Definition VIRTIO_MAX : Z := 31.

Definition VIRTIO_F_VERSION_1 : Z := Z.shiftl 1 32.

Definition VIRTIO_DEVICE_NETWORK : Z := 1.
Definition VIRTIO_DEVICE_CONSOLE : Z := 3.

Definition VIRTIO_STATUS_DRIVER_OK : Z := 4.
Definition VIRTIO_STATUS_FEATURES_OK : Z := 8.
Definition VIRTIO_STATUS_DEVICE_NEEDS_RESET : Z := 16.

Definition VIRTIO_MMIO_MAGIC_VALUE : Z := 0x000.
Definition VIRTIO_MMIO_VERSION : Z := 0x004.
Definition VIRTIO_MMIO_DEVICE_ID : Z := 0x008.
Definition VIRTIO_MMIO_VENDOR_ID : Z := 0x00c.
Definition VIRTIO_MMIO_DEVICE_FEATURES : Z := 0x010.
Definition VIRTIO_MMIO_DEVICE_FEATURES_SEL : Z := 0x014.
Definition VIRTIO_MMIO_DRIVER_FEATURES : Z := 0x020.
Definition VIRTIO_MMIO_DRIVER_FEATURES_SEL : Z := 0x024.
Definition VIRTIO_MMIO_QUEUE_SEL : Z := 0x030.
Definition VIRTIO_MMIO_QUEUE_NUM_MAX : Z := 0x034.
Definition VIRTIO_MMIO_QUEUE_NUM : Z := 0x038.
Definition VIRTIO_MMIO_QUEUE_READY : Z := 0x044.
Definition VIRTIO_MMIO_QUEUE_NOTIFY : Z := 0x050.
Definition VIRTIO_MMIO_INTERRUPT_STATUS : Z := 0x060.
Definition VIRTIO_MMIO_INTERRUPT_ACK : Z := 0x064.
Definition VIRTIO_MMIO_STATUS : Z := 0x070.
Definition VIRTIO_MMIO_QUEUE_DESC_LOW : Z := 0x080.
Definition VIRTIO_MMIO_QUEUE_DESC_HIGH : Z := 0x084.
Definition VIRTIO_MMIO_QUEUE_AVAIL_LOW : Z := 0x090.
Definition VIRTIO_MMIO_QUEUE_AVAIL_HIGH : Z := 0x094.
Definition VIRTIO_MMIO_QUEUE_USED_LOW : Z := 0x0a0.
Definition VIRTIO_MMIO_QUEUE_USED_HIGH : Z := 0x0a4.
Definition VIRTIO_MMIO_SHM_SEL : Z := 0x0ac.
Definition VIRTIO_MMIO_SHM_LEN_LOW : Z := 0x0b0.
Definition VIRTIO_MMIO_SHM_LEN_HIGH : Z := 0x0b4.
Definition VIRTIO_MMIO_SHM_BASE_LOW : Z := 0x0b8.
Definition VIRTIO_MMIO_SHM_BASE_HIGH : Z := 0x0bc.
Definition VIRTIO_MMIO_CONFIG_GENERATION : Z := 0x0fc.
Definition VIRTIO_MMIO_CONFIG : Z := 0x100.

Definition VIRTIO_INT_STATUS_USED_BUFFER : Z := 1.
Definition VIRTIO_INT_STATUS_CONFIG_CHANGE : Z := 2.

(** ** Helpers *)

Definition is_power_of_2 (val : Z) : bool := val &ᵇ uint32 (val - 1) =? 0.
Definition set_low32 (val paddr : Z) : Z := (paddr &ᵇ uint64 (Z.lnot 0xffffffff)) |ᵇ val.
Definition set_high32 (val paddr : Z) : Z := (paddr &ᵇ 0xffffffff) |ᵇ uint64 (Z.shiftl val 32).

(** ** The object

    [X] is the type of the members that the class of the device adds.  The
    configuration space is kept as bytes. *)
Record virtio_device (X : Type) := VirtioDevice {
  virtio_idx : Z;
  int_status : Z;
  device_id : Z;
  device_features : Z;
  driver_features : Z;
  device_features_sel : Z;
  driver_features_sel : Z;
  queue_sel : Z;
  shm_sel : Z;
  device_status : Z;
  config_generation : Z;
  config_space_size : Z;
  driver_ok : bool;
  config_space : list Z;
  queue : list virtq;
  members : X;
}.
Arguments VirtioDevice {X}.
Arguments virtio_idx {X} _.
Arguments int_status {X} _.
Arguments device_id {X} _.
Arguments device_features {X} _.
Arguments driver_features {X} _.
Arguments device_features_sel {X} _.
Arguments driver_features_sel {X} _.
Arguments queue_sel {X} _.
Arguments shm_sel {X} _.
Arguments device_status {X} _.
Arguments config_generation {X} _.
Arguments config_space_size {X} _.
Arguments driver_ok {X} _.
Arguments config_space {X} _.
Arguments queue {X} _.
Arguments members {X} _.

Definition new_virtio_device {X} (virtio_idx device_id device_features config_space_size : Z) (x : X) : virtio_device X :=
  VirtioDevice virtio_idx 0 device_id (device_features |ᵇ VIRTIO_F_VERSION_1) 0 0 0 0 0 0 0 config_space_size false
    (replicate (Z.to_nat VIRTIO_MAX_CONFIG_SPACE_SIZE) 0) (replicate (Z.to_nat VIRTIO_QUEUE_COUNT) blank_virtq) x.

Definition get_irq_id {X} (d : virtio_device X) : Z := uint32 (virtio_idx d + 1).

Definition virtio_device_eta {X} (d : virtio_device X) : virtio_device X :=
  VirtioDevice (virtio_idx d) (int_status d) (device_id d) (device_features d) (driver_features d) (device_features_sel d)
    (driver_features_sel d) (queue_sel d) (shm_sel d) (device_status d) (config_generation d) (config_space_size d)
    (driver_ok d) (config_space d) (queue d) (members d).

Section updates.
Context {X : Type}.
Implicit Type d : virtio_device X.

Definition set_int_status (v : Z) d : virtio_device X :=
  VirtioDevice (virtio_idx d) v (device_id d) (device_features d) (driver_features d) (device_features_sel d)
    (driver_features_sel d) (queue_sel d) (shm_sel d) (device_status d) (config_generation d) (config_space_size d)
    (driver_ok d) (config_space d) (queue d) (members d).
Definition set_driver_features (v : Z) d : virtio_device X :=
  VirtioDevice (virtio_idx d) (int_status d) (device_id d) (device_features d) v (device_features_sel d)
    (driver_features_sel d) (queue_sel d) (shm_sel d) (device_status d) (config_generation d) (config_space_size d)
    (driver_ok d) (config_space d) (queue d) (members d).
(** The four selectors *)
Definition set_selectors (dev drv q shm : Z) d : virtio_device X :=
  VirtioDevice (virtio_idx d) (int_status d) (device_id d) (device_features d) (driver_features d) dev drv q shm
    (device_status d) (config_generation d) (config_space_size d) (driver_ok d) (config_space d) (queue d) (members d).
Definition set_device_status (v : Z) d : virtio_device X :=
  VirtioDevice (virtio_idx d) (int_status d) (device_id d) (device_features d) (driver_features d) (device_features_sel d)
    (driver_features_sel d) (queue_sel d) (shm_sel d) v (config_generation d) (config_space_size d)
    (driver_ok d) (config_space d) (queue d) (members d).
Definition set_config_generation (v : Z) d : virtio_device X :=
  VirtioDevice (virtio_idx d) (int_status d) (device_id d) (device_features d) (driver_features d) (device_features_sel d)
    (driver_features_sel d) (queue_sel d) (shm_sel d) (device_status d) v (config_space_size d)
    (driver_ok d) (config_space d) (queue d) (members d).
Definition set_driver_ok (v : bool) d : virtio_device X :=
  VirtioDevice (virtio_idx d) (int_status d) (device_id d) (device_features d) (driver_features d) (device_features_sel d)
    (driver_features_sel d) (queue_sel d) (shm_sel d) (device_status d) (config_generation d) (config_space_size d)
    v (config_space d) (queue d) (members d).
Definition set_config_space (v : list Z) d : virtio_device X :=
  VirtioDevice (virtio_idx d) (int_status d) (device_id d) (device_features d) (driver_features d) (device_features_sel d)
    (driver_features_sel d) (queue_sel d) (shm_sel d) (device_status d) (config_generation d) (config_space_size d)
    (driver_ok d) v (queue d) (members d).
Definition set_queues (v : list virtq) d : virtio_device X :=
  VirtioDevice (virtio_idx d) (int_status d) (device_id d) (device_features d) (driver_features d) (device_features_sel d)
    (driver_features_sel d) (queue_sel d) (shm_sel d) (device_status d) (config_generation d) (config_space_size d)
    (driver_ok d) (config_space d) v (members d).
Definition set_members (v : X) d : virtio_device X :=
  VirtioDevice (virtio_idx d) (int_status d) (device_id d) (device_features d) (driver_features d) (device_features_sel d)
    (driver_features_sel d) (queue_sel d) (shm_sel d) (device_status d) (config_generation d) (config_space_size d)
    (driver_ok d) (config_space d) (queue d) v.

(** [queue[i]]; the array has two elements. *)
Definition get_queue (i : Z) d : virtq := nth (Z.to_nat i) (queue d) blank_virtq.
Definition upd_queue (i : Z) (f : virtq -> virtq) d : virtio_device X :=
  set_queues (<[Z.to_nat i := f (get_queue i d)]> (queue d)) d.
End updates.

(** ** Calls

    The methods of a device change the device and what its state access reaches,
    and may throw. *)
Definition call (S T : Type) : Type := S -> outcome (T * S).

#[export] Instance call_ret S : MRet (call S) := fun T x s => Done (x, s).
#[export] Instance call_bind S : MBind (call S) := fun T U f m s => r ← m s; f r.1 r.2.

Lemma call_bind_eq {S T U} (m : call S T) (f : T -> call S U) s :
  (m ≫= f) s = match m s with Done (x, s') => f x s' | Exn e => Exn e end.
Proof. unfold mbind at 1, call_bind. by destruct (m s) as [[]|]. Qed.

Definition lift {S T} (m : outcome T) : call S T := fun s => x ← m; mret (x, s).
Definition assert_that {S} (c : bool) (what : string) : call S unit := lift (throw_if (negb c) (assertion_failure what)).
(** [while (body) {}] *)
Definition while_call {S} (body : call S bool) (fuel : nat) : call S unit :=
  while_true (fun s => r ← body s; mret (if r.1 : bool then inl r.2 else inr (tt, r.2))) fuel.

Lemma while_call_step {S} (body : call S bool) n s :
  while_call body (Datatypes.S n) s =
  match body s with Done (true, s') => while_call body n s' | Done (false, s') => Done (tt, s') | Exn e => Exn e end.
Proof. unfold while_call. cbn [while_true]. by destruct (body s) as [[[] s']|e]. Qed.

Section device.
Context {X A : Type} `{i_device_state_access A}.

Abbreviation state := (virtio_device X * A)%type.

Definition get_device : call state (virtio_device X) := fun s => Done (s.1, s).
Definition get_access : call state A := fun s => Done (s.2, s).
Definition on_device (f : virtio_device X -> virtio_device X) : call state unit := fun s => Done (tt, (f s.1, s.2)).
Definition on_access (f : A -> A) : call state unit := fun s => Done (tt, (s.1, f s.2)).
(** A function of the interrupt controller *)
Definition on_regs (f : device_access -> device_access) (a : A) : A := set_regs (f (regs a)) a.

(** ** Interrupts and notifications *)

Definition set_irq (add_int_status : Z) : call state unit :=
  on_device (fun d => set_int_status (int_status d |ᵇ add_int_status) d) ≫= fun _ =>
  d ← get_device;
  if negb (int_status d =? 0) then on_access (on_regs (plic_set_pending_irq (get_irq_id d))) else mret tt.

Definition reset_irq (rem_int_status : Z) : call state unit :=
  on_device (fun d => set_int_status (int_status d &ᵇ uint32 (Z.lnot rem_int_status)) d) ≫= fun _ =>
  d ← get_device;
  if int_status d =? 0 then on_access (on_regs (plic_reset_pending_irq (get_irq_id d)))
  else on_access (on_regs (plic_set_pending_irq (get_irq_id d))).

Definition notify_queue_used : call state unit :=
  d ← get_device;
  if driver_ok d then set_irq VIRTIO_INT_STATUS_USED_BUFFER else mret tt.

Definition notify_config_change : call state unit :=
  on_device (fun d => set_config_generation (uint32 (config_generation d + 1)) d) ≫= fun _ =>
  d ← get_device;
  if driver_ok d then set_irq VIRTIO_INT_STATUS_CONFIG_CHANGE else mret tt.

Definition notify_device_needs_reset : call state unit :=
  on_device (fun d => set_device_status (device_status d |ᵇ VIRTIO_STATUS_DEVICE_NEEDS_RESET) d) ≫= fun _ =>
  notify_config_change.

(** ** The methods of a device *)

Class virtio_methods := {
  on_device_reset : call state unit;
  on_device_ok : call state unit;
  on_device_queue_available (queue_idx desc_idx read_avail_len write_avail_len : Z) : call state bool;
}.

(** No device has shared memory. *)
Definition read_shm_base (shm_sel : Z) : Z := UINT64_MAX.
Definition read_shm_length (shm_sel : Z) : Z := UINT64_MAX.

(** What [reset] stores in the members of the class; the index of the queues, the
    features of the device and its configuration stay. *)
Definition clear_device (d : virtio_device X) : virtio_device X :=
  VirtioDevice (virtio_idx d) 0 (device_id d) (device_features d) 0 0 0 0 0 0 (config_generation d) (config_space_size d)
    false (config_space d) (map (fun _ => blank_virtq) (queue d)) (members d).

Definition reset `{virtio_methods} : call state unit :=
  on_device_reset ≫= fun _ =>
  on_device clear_device ≫= fun _ =>
  reset_irq (VIRTIO_INT_STATUS_USED_BUFFER |ᵇ VIRTIO_INT_STATUS_CONFIG_CHANGE).

(** ** Queues *)

(** The loops over descriptors run for [fuel] iterations at most. *)
Context (fuel : nat).

(** The result, the descriptor and the length *)
Definition prepare_queue_write (queue_idx : Z) : call state (bool * Z * Z) :=
  d ← get_device;
  a ← get_access;
  assert_that (driver_ok d) "driver_ok" ≫= fun _ =>
  assert_that (queue_idx <? VIRTIO_QUEUE_COUNT) "queue_idx < VIRTIO_QUEUE_COUNT" ≫= fun _ =>
  let vq := get_queue queue_idx d in
  if ready vq =? 0 then mret (true, 0, 0)
  else
    match virtq_get_avail_header vq a with
    | None => mret (false, 0, 0)
    | Some avail_header =>
        if last_used_idx vq =? hdr_idx avail_header then mret (true, 0, 0)
        else
          match virtq_get_ring_avail_elem_desc_idx vq (last_used_idx vq) a with
          | None => mret (false, 0, 0)
          | Some desc_idx =>
              '(ok, _, write_avail_len) ← lift (get_desc_rw_avail_len fuel vq desc_idx a);
              mret (if ok : bool then (true, desc_idx, write_avail_len) else (false, desc_idx, 0))
          end
    end.

Definition consume_queue (queue_idx desc_idx written_len used_flags : Z) : call state bool := fun s =>
  let '(d, a) := s in
  throw_if (negb (driver_ok d)) (assertion_failure "driver_ok") ≫= fun _ =>
  throw_if (negb (queue_idx <? VIRTIO_QUEUE_COUNT)) (assertion_failure "queue_idx < VIRTIO_QUEUE_COUNT") ≫= fun _ =>
  let '(ok, vq, a) := consume_desc (get_queue queue_idx d) desc_idx written_len used_flags a in
  mret (ok, (upd_queue queue_idx (fun _ => vq) d, a)).

(** The body of the loop of [on_device_queue_notify]; false leaves the loop. *)
Definition notify_body `{virtio_methods} (queue_idx last_avail_idx : Z) : call state bool :=
  d ← get_device;
  a ← get_access;
  let vq := get_queue queue_idx d in
  if last_used_idx vq =? last_avail_idx then mret false
  else
    match virtq_get_ring_avail_elem_desc_idx vq (last_used_idx vq) a with
    | None => notify_device_needs_reset ≫= fun _ => mret false
    | Some desc_idx =>
        '(ok, read_avail_len, write_avail_len) ← lift (get_desc_rw_avail_len fuel vq desc_idx a);
        if negb ok then notify_device_needs_reset ≫= fun _ => mret false
        else
          served ← on_device_queue_available queue_idx desc_idx read_avail_len write_avail_len;
          if negb served then mret false
          else
            d ← get_device;
            assert_that (negb (last_used_idx vq =? last_used_idx (get_queue queue_idx d))) "last_used_idx != vq.last_used_idx" ≫= fun _ =>
            mret true
    end.

Definition on_device_queue_notify `{virtio_methods} (queue_idx : Z) : call state unit :=
  d ← get_device;
  a ← get_access;
  let vq := get_queue queue_idx d in
  if negb (driver_ok d) then mret tt
  else if ready vq =? 0 then mret tt
  else
    match virtq_get_avail_header vq a with
    | None => notify_device_needs_reset
    | Some avail_header => while_call (notify_body queue_idx (hdr_idx avail_header)) fuel
    end.

(** ** Registers *)

Definition misaligned (offset size : Z) : bool := negb (offset &ᵇ (size - 1) =? 0).

Definition mmio_read_config (offset log2_size : Z) (d : virtio_device X) : option Z :=
  let size := Z.shiftl 1 log2_size in
  if misaligned offset size then None
  else if config_space_size d <? uint64 (offset + size) then None
  else if log2_size <=? 2 then Some (field offset size (config_space d)) else None.

Definition mmio_write_config (offset val log2_size : Z) : call state execute_status :=
  let size := Z.shiftl 1 log2_size in
  d ← get_device;
  if misaligned offset size then mret failure
  else if config_space_size d <? uint64 (offset + size) then mret failure
  else if log2_size <=? 2 then
    on_device (set_config_space (splice (Z.to_nat offset) (le_bytes (Z.to_nat size) val) (config_space d))) ≫= fun _ =>
    mret success
  else mret failure.

Definition low32 (v : Z) : Z := uint32 v.
Definition high32 (v : Z) : Z := uint32 (Z.shiftr v 32).

Definition mmio_read (offset log2_size : Z) (d : virtio_device X) : option Z :=
  if VIRTIO_MMIO_CONFIG <=? offset then mmio_read_config (offset - VIRTIO_MMIO_CONFIG) log2_size d
  else if negb (offset &ᵇ 3 =? 0) || negb (log2_size =? 2) then None
  else if offset =? VIRTIO_MMIO_MAGIC_VALUE then Some VIRTIO_MAGIC_VALUE
  else if offset =? VIRTIO_MMIO_VERSION then Some VIRTIO_VERSION
  else if offset =? VIRTIO_MMIO_DEVICE_ID then Some (device_id d)
  else if offset =? VIRTIO_MMIO_VENDOR_ID then Some VIRTIO_VENDOR_ID
  else if offset =? VIRTIO_MMIO_DEVICE_FEATURES then
    Some (if device_features_sel d =? 0 then low32 (device_features d)
          else if device_features_sel d =? 1 then high32 (device_features d) else 0)
  else if offset =? VIRTIO_MMIO_QUEUE_NUM_MAX then
    Some (if queue_sel d <? VIRTIO_QUEUE_COUNT then VIRTIO_QUEUE_NUM_MAX else 0)
  else if offset =? VIRTIO_MMIO_QUEUE_READY then
    Some (if queue_sel d <? VIRTIO_QUEUE_COUNT then ready (get_queue (queue_sel d) d) else 0)
  else if offset =? VIRTIO_MMIO_INTERRUPT_STATUS then Some (int_status d)
  else if offset =? VIRTIO_MMIO_STATUS then Some (device_status d)
  else if offset =? VIRTIO_MMIO_CONFIG_GENERATION then Some (config_generation d)
  else if offset =? VIRTIO_MMIO_SHM_LEN_LOW then Some (low32 (read_shm_length (shm_sel d)))
  else if offset =? VIRTIO_MMIO_SHM_LEN_HIGH then Some (high32 (read_shm_length (shm_sel d)))
  else if offset =? VIRTIO_MMIO_SHM_BASE_LOW then Some (low32 (read_shm_base (shm_sel d)))
  else if offset =? VIRTIO_MMIO_SHM_BASE_HIGH then Some (high32 (read_shm_base (shm_sel d)))
  else None.

(** The members of a queue that registers set *)
Definition with_num (v : Z) (vq : virtq) : virtq :=
  Virtq (desc_addr vq) (avail_addr vq) (used_addr vq) v (last_used_idx vq) (ready vq).
Definition with_ready (v : Z) (vq : virtq) : virtq :=
  Virtq (desc_addr vq) (avail_addr vq) (used_addr vq) (num vq) (last_used_idx vq) v.
Definition upd_desc_addr (f : Z -> Z) (vq : virtq) : virtq :=
  Virtq (f (desc_addr vq)) (avail_addr vq) (used_addr vq) (num vq) (last_used_idx vq) (ready vq).
Definition upd_avail_addr (f : Z -> Z) (vq : virtq) : virtq :=
  Virtq (desc_addr vq) (f (avail_addr vq)) (used_addr vq) (num vq) (last_used_idx vq) (ready vq).
Definition upd_used_addr (f : Z -> Z) (vq : virtq) : virtq :=
  Virtq (desc_addr vq) (avail_addr vq) (f (used_addr vq)) (num vq) (last_used_idx vq) (ready vq).

(** A store to the selected queue, if there is one *)
Definition on_selected (c : bool) (f : virtq -> virtq) : call state execute_status :=
  d ← get_device;
  (if (queue_sel d <? VIRTIO_QUEUE_COUNT) && c then on_device (upd_queue (queue_sel d) f) else mret tt) ≫= fun _ =>
  mret success.

(** The status after a request may have raised the interrupt *)
Definition status_of_irq : call state execute_status :=
  d ← get_device; mret (if negb (int_status d =? 0) then success_and_serve_interrupts else success).

Definition write_status `{virtio_methods} (val : Z) : call state execute_status :=
  if val =? 0 then reset ≫= fun _ => status_of_irq
  else
    d ← get_device;
    let old_status := device_status d in
    let enabling_status := (device_status d ^ᵇ val) &ᵇ val in
    if negb (enabling_status &ᵇ VIRTIO_STATUS_FEATURES_OK =? 0) && negb (driver_features d =? device_features d)
    then mret success
    else
      on_device (set_device_status val) ≫= fun _ =>
      (if negb (enabling_status &ᵇ VIRTIO_STATUS_DRIVER_OK =? 0) then
         if negb (old_status &ᵇ VIRTIO_STATUS_DEVICE_NEEDS_RESET =? 0) then set_irq VIRTIO_INT_STATUS_CONFIG_CHANGE
         else on_device (set_driver_ok true) ≫= fun _ => on_device_ok
       else mret tt) ≫= fun _ =>
      status_of_irq.

Definition mmio_write `{virtio_methods} (offset val log2_size : Z) : call state execute_status :=
  if VIRTIO_MMIO_CONFIG <=? offset then mmio_write_config (offset - VIRTIO_MMIO_CONFIG) val log2_size
  else if negb (offset &ᵇ 3 =? 0) || negb (log2_size =? 2) then mret failure
  else if offset =? VIRTIO_MMIO_DEVICE_FEATURES_SEL then
    on_device (fun d => set_selectors val (driver_features_sel d) (queue_sel d) (shm_sel d) d) ≫= fun _ => mret success
  else if offset =? VIRTIO_MMIO_DRIVER_FEATURES then
    d ← get_device;
    (if driver_features_sel d =? 0 then on_device (set_driver_features (set_low32 val (driver_features d)))
     else if driver_features_sel d =? 1 then on_device (set_driver_features (set_high32 val (driver_features d)))
     else mret tt) ≫= fun _ => mret success
  else if offset =? VIRTIO_MMIO_DRIVER_FEATURES_SEL then
    on_device (fun d => set_selectors (device_features_sel d) val (queue_sel d) (shm_sel d) d) ≫= fun _ => mret success
  else if offset =? VIRTIO_MMIO_QUEUE_SEL then
    on_device (fun d => set_selectors (device_features_sel d) (driver_features_sel d) val (shm_sel d) d) ≫= fun _ => mret success
  else if offset =? VIRTIO_MMIO_QUEUE_NUM then
    on_selected ((val <=? VIRTIO_QUEUE_NUM_MAX) && is_power_of_2 val) (with_num val)
  else if offset =? VIRTIO_MMIO_QUEUE_READY then on_selected true (with_ready (if val =? 1 then 1 else 0))
  else if offset =? VIRTIO_MMIO_QUEUE_NOTIFY then
    (if val <? VIRTIO_QUEUE_COUNT then on_device_queue_notify val else mret tt) ≫= fun _ => status_of_irq
  else if offset =? VIRTIO_MMIO_INTERRUPT_ACK then reset_irq val ≫= fun _ => status_of_irq
  else if offset =? VIRTIO_MMIO_STATUS then write_status val
  else if offset =? VIRTIO_MMIO_QUEUE_DESC_LOW then on_selected true (upd_desc_addr (set_low32 val))
  else if offset =? VIRTIO_MMIO_QUEUE_AVAIL_LOW then on_selected true (upd_avail_addr (set_low32 val))
  else if offset =? VIRTIO_MMIO_QUEUE_USED_LOW then on_selected true (upd_used_addr (set_low32 val))
  else if offset =? VIRTIO_MMIO_QUEUE_DESC_HIGH then on_selected true (upd_desc_addr (set_high32 val))
  else if offset =? VIRTIO_MMIO_QUEUE_AVAIL_HIGH then on_selected true (upd_avail_addr (set_high32 val))
  else if offset =? VIRTIO_MMIO_QUEUE_USED_HIGH then on_selected true (upd_used_addr (set_high32 val))
  else if offset =? VIRTIO_MMIO_SHM_SEL then
    on_device (fun d => set_selectors (device_features_sel d) (driver_features_sel d) (queue_sel d) val d) ≫= fun _ => mret success
  else mret failure.

(** The callbacks of the driver *)
Definition virtio_read (offset log2_size : Z) (d : virtio_device X) : option Z := mmio_read offset log2_size d.
Definition virtio_write `{virtio_methods} (offset val log2_size : Z) : call state execute_status :=
  mmio_write offset (uint32 val) log2_size.
End device.
Arguments virtio_methods X A : clear implicits.
