(* ===== verification/VirtioConsole.v ===== *)
(** * The VirtIO console and network device
      (virtio-console.h, virtio-console.cpp, virtio-net.h, virtio-net.cpp,
      virtio-net-carrier-tuntap.h, virtio-net-carrier-tuntap.cpp)

    Queue 1 of the console carries what the guest prints to the host, queue 0 what
    is typed on the host to the guest.  The terminal of the host (os.cpp) is a
    parameter but for its characters, those of the state access.

    Queue 1 of the network device carries the packets of the guest to the host,
    queue 0 those of the host to the guest.  The carriers, which hand the packets
    to the network of the host, are an interface; the one over a TAP interface is
    modelled, with the calls of the host as parameters. *)

From S2P Require Import Prelude CppInt Constants Bytes Pma MachineState DeviceAccess Plic VirtioQueue VirtioDevice.

(** ** Characters (os.cpp)

    The elements of the buffer of the terminal have the type [char], which is
    signed on most hosts; [os_getchar] returns them as they are. *)

Fixpoint getchars (max_len : nat) (a : device_access) : list Z * device_access :=
  match max_len with
  | O => ([], a)
  | S max_len =>
      let '(c, a) := os_getchar a in
      if c <? 0 then ([], a) else let '(l, a) := getchars max_len a in (c :: l, a)
  end.

Definition os_getchars (max_len : Z) (a : device_access) : list Z * device_access := getchars (Z.to_nat max_len) a.
Definition os_putchars (data : list Z) (a : device_access) : device_access := fold_left (fun a c => os_putchar c a) data a.

Definition TTY_BUF_SIZE : Z := 4096.

(** ** The device *)

Definition VIRTIO_CONSOLE_F_SIZE : Z := 1.
Definition VIRTIO_CONSOLE_RECEIVEQ : Z := 0.
Definition VIRTIO_CONSOLE_TRANSMITQ : Z := 1.
Definition sizeof_virtio_console_config_space : Z := 12.

Record console_members := ConsoleMembers { m_stdin_ready : bool }.

Definition virtio_console : Type := virtio_device console_members.

Definition new_virtio_console (virtio_idx : Z) : virtio_console :=
  new_virtio_device virtio_idx VIRTIO_DEVICE_CONSOLE VIRTIO_CONSOLE_F_SIZE sizeof_virtio_console_config_space (ConsoleMembers false).

(** The fields of the configuration space *)
Definition config_cols (d : virtio_console) : Z := field 0 2 (config_space d).
Definition config_rows (d : virtio_console) : Z := field 2 2 (config_space d).
Definition set_config_size (cols rows : Z) (d : virtio_console) : virtio_console :=
  set_config_space (splice 0 (le_bytes 2 cols ++ le_bytes 2 rows) (config_space d)) d.

Section console.
Context {A : Type} `{i_device_state_access A}.
(** The size of the terminal, columns and rows, and whether it has characters *)
Context (os_get_tty_size : A -> Z * Z) (os_poll_selected_tty : A -> bool * A).
Context (fuel : nat).

Abbreviation state := (virtio_device console_members * A)%type.
Abbreviation dcall := (call (virtio_device console_members * A)).

(** A function on the characters of the state access *)
Definition regs_call {T} (f : device_access -> T * device_access) : dcall T := fun s =>
  let '(x, r) := f (regs s.2) in Done (x, (s.1, set_regs r s.2)).

Definition notify_console_size_to_guest : dcall bool :=
  d ← get_device;
  a ← get_access;
  let '(cols, rows) := os_get_tty_size a in
  if (cols =? config_cols d) && (rows =? config_rows d) then mret false
  else
    on_device (set_config_size cols rows) ≫= fun _ =>
    notify_config_change ≫= fun _ =>
    mret true.

(** The loop over chunks of the buffer: the offset and the contents of [chunk] *)
Definition chunk_body (queue_idx desc_idx read_avail_len : Z) (st : Z * list Z * state) :
    outcome (Z * list Z * state + bool * state) :=
  let '(off, chunk, s) := st in
  if negb (off <? read_avail_len) then mret (inr (true, s))
  else
    let chunk_len := Z.min TTY_BUF_SIZE (uint32 (read_avail_len - off)) in
    '(ok, chunk) ← read_desc_mem fuel (get_queue queue_idx s.1) desc_idx off chunk chunk_len s.2;
    if negb ok then r ← notify_device_needs_reset s; mret (inr (false, r.2))
    else
      let s := (s.1, on_regs (os_putchars (slice 0 chunk_len chunk)) s.2) in
      mret (inl (uint32 (off + TTY_BUF_SIZE), chunk, s)).

Definition needs_reset : dcall bool := notify_device_needs_reset ≫= fun _ => mret false.

Definition write_next_chars_to_host (queue_idx desc_idx read_avail_len : Z) : dcall bool :=
  ok ← (fun s => while_true (chunk_body queue_idx desc_idx read_avail_len) fuel
                   (0, replicate (Z.to_nat TTY_BUF_SIZE) 0, s)) : dcall bool;
  if negb ok then mret false
  else
    consumed ← consume_queue queue_idx desc_idx 0 0;
    if negb consumed then needs_reset else mret true.

Definition write_next_chars_to_guest : dcall bool :=
  d ← get_device;
  if negb (driver_ok d) then mret false
  else
    '(ok, desc_idx, write_avail_len) ← prepare_queue_write fuel VIRTIO_CONSOLE_RECEIVEQ;
    if negb ok then needs_reset
    else if write_avail_len =? 0 then mret false
    else
      chunk ← regs_call (os_getchars (Z.min write_avail_len TTY_BUF_SIZE));
      let chunk_len := Z.of_nat (length chunk) in
      if chunk_len =? 0 then mret false
      else
        d ← get_device;
        written ← (fun s => '(ok, a) ← write_desc_mem fuel (get_queue VIRTIO_CONSOLE_RECEIVEQ d) desc_idx 0 chunk chunk_len s.2;
                            mret (ok, (s.1, a))) : dcall bool;
        if negb written then needs_reset
        else
          consumed ← consume_queue VIRTIO_CONSOLE_RECEIVEQ desc_idx chunk_len VIRTQ_USED_F_NO_NOTIFY;
          if negb consumed then needs_reset
          else notify_queue_used ≫= fun _ => mret true.

Definition console_reset : dcall unit := on_device (set_members (ConsoleMembers false)).
Definition console_ok : dcall unit := notify_console_size_to_guest ≫= fun _ => mret tt.
Definition console_queue_available (queue_idx desc_idx read_avail_len write_avail_len : Z) : dcall bool :=
  if queue_idx =? VIRTIO_CONSOLE_RECEIVEQ then mret false
  else if queue_idx =? VIRTIO_CONSOLE_TRANSMITQ then write_next_chars_to_host queue_idx desc_idx read_avail_len
  else needs_reset.

#[export] Instance console_methods : virtio_methods console_members A :=
  {| on_device_reset := console_reset; on_device_ok := console_ok; on_device_queue_available := console_queue_available |}.

(** [prepare_select] tells whether the terminal is among what is waited for. *)
Definition prepare_select (timeout_us : Z) : dcall bool :=
  d ← get_device;
  if negb (driver_ok d) then mret false
  else if m_stdin_ready (members d) then mret true
  else if negb (timeout_us =? 0) then on_device (set_members (ConsoleMembers true)) ≫= fun _ => mret true
  else mret false.

Definition poll_selected : dcall bool :=
  d ← get_device;
  if negb (driver_ok d) || negb (m_stdin_ready (members d)) then mret false
  else
    interrupt_requested ← notify_console_size_to_guest;
    ready ← (fun s => let '(ready, a) := os_poll_selected_tty s.2 in Done (ready, (s.1, a))) : dcall bool;
    if ready : bool then
      written ← write_next_chars_to_guest;
      (if written : bool then while_call write_next_chars_to_guest fuel else mret tt) ≫= fun _ =>
      mret (interrupt_requested || written)
    else mret interrupt_requested.
End console.

Definition VIRTIO_NET_RECEIVEQ : Z := 0.
Definition VIRTIO_NET_TRANSMITQ : Z := 1.
(** The size of [virtio_net_header] *)
Definition VIRTIO_NET_ETHERNET_FRAME_OFFSET : Z := 12.

(** A carrier of type [C].  It reaches the chain of a descriptor through the queue
    and the state access; the results are whether it succeeded and how many bytes
    it wrote. *)
Class virtio_net_carrier (C A : Type) := {
  carrier_reset : C -> C;
  do_prepare_select : C -> C;
  do_poll_selected : C -> bool * C;
  write_packet_to_host (vq : virtq) (desc_idx read_avail_len : Z) : call (C * A) bool;
  read_packet_from_host (vq : virtq) (desc_idx write_avail_len : Z) : call (C * A) (bool * Z);
}.

Definition new_virtio_net {C} (virtio_idx : Z) (carrier : C) : virtio_device C :=
  new_virtio_device virtio_idx VIRTIO_DEVICE_NETWORK 0 0 carrier.

Section net.
Context {C A : Type} `{i_device_state_access A} `{!virtio_net_carrier C A}.
Context (fuel : nat).

Abbreviation dcall := (call (virtio_device C * A)).

(** A call of the carrier *)
Definition carrier_call {T} (m : call (C * A) T) : dcall T := fun s =>
  '(x, (c, a)) ← m (members s.1, s.2); mret (x, (set_members c s.1, a)).

Definition net_needs_reset : dcall bool := notify_device_needs_reset ≫= fun _ => mret false.

Definition write_next_packet_to_host (queue_idx desc_idx read_avail_len : Z) : dcall bool :=
  d ← get_device;
  written ← carrier_call (write_packet_to_host (get_queue queue_idx d) desc_idx read_avail_len);
  if negb written then net_needs_reset
  else
    consumed ← consume_queue queue_idx desc_idx 0 0;
    if negb consumed then net_needs_reset else mret true.

Definition read_next_packet_from_host : dcall bool :=
  '(ok, desc_idx, write_avail_len) ← prepare_queue_write fuel VIRTIO_NET_RECEIVEQ;
  if negb ok then net_needs_reset
  else if write_avail_len =? 0 then mret false
  else
    d ← get_device;
    let vq := get_queue VIRTIO_NET_RECEIVEQ d in
    '(ok, written_len) ← carrier_call (read_packet_from_host vq desc_idx write_avail_len);
    if negb ok then net_needs_reset
    else if written_len <=? VIRTIO_NET_ETHERNET_FRAME_OFFSET then mret false
    else
      let hdr := replicate (Z.to_nat VIRTIO_NET_ETHERNET_FRAME_OFFSET) 0 in
      ok ← (fun s => '(ok, a) ← write_desc_mem fuel vq desc_idx 0 hdr VIRTIO_NET_ETHERNET_FRAME_OFFSET s.2;
                     mret (ok, (s.1, a))) : dcall bool;
      if negb ok then net_needs_reset
      else
        consumed ← consume_queue VIRTIO_NET_RECEIVEQ desc_idx written_len 0;
        if negb consumed then net_needs_reset
        else notify_queue_used ≫= fun _ => mret true.

Definition net_prepare_select : dcall unit :=
  d ← get_device;
  if negb (driver_ok d) then mret tt else on_device (set_members (do_prepare_select (members d))).

Definition net_poll_selected : dcall bool :=
  d ← get_device;
  if negb (driver_ok d) then mret false
  else
    let '(ready, c) := do_poll_selected (members d) in
    on_device (set_members c) ≫= fun _ =>
    if negb ready then mret false
    else
      read ← read_next_packet_from_host;
      (if read : bool then while_call read_next_packet_from_host fuel else mret tt) ≫= fun _ =>
      mret read.

(** [poll_nowait] of the base class, whose wait takes no time *)
Definition net_poll_nowait : dcall bool := net_prepare_select ≫= fun _ => net_poll_selected.

Definition net_reset : dcall unit := on_device (fun d => set_members (carrier_reset (members d)) d).
Definition net_queue_available (queue_idx desc_idx read_avail_len write_avail_len : Z) : dcall bool :=
  if queue_idx =? VIRTIO_NET_RECEIVEQ then net_poll_nowait
  else if queue_idx =? VIRTIO_NET_TRANSMITQ then
    sent ← write_next_packet_to_host queue_idx desc_idx read_avail_len;
    if sent : bool then net_poll_nowait ≫= fun _ => mret true else mret false
  else net_needs_reset.

#[export] Instance net_methods : virtio_methods C A :=
  {| on_device_reset := net_reset; on_device_ok := mret tt; on_device_queue_available := net_queue_available |}.
End net.

(** ** The carrier of a TAP interface (virtio-net-carrier-tuntap.cpp)

    The calls [write] and [read] on the interface are parameters, over the state
    [C] of the host: they return the number of bytes, or a value that is not
    positive with [errno], and [read] also the bytes. *)

Definition VIRTIO_NET_ETHERNET_MAX_LENGTH : Z := 2048.
Definition EINTR : Z := 4.
Definition EAGAIN : Z := 11.

(** The call is to be repeated. *)
Definition would_block (errno : Z) : bool := (errno =? EAGAIN) || (errno =? EINTR).

Class tap_interface (C : Type) := {
  tap_write : C -> list Z -> Z * Z * C;
  tap_read : C -> Z -> Z * Z * list Z * C;
  tap_selected : C -> bool;
}.

Section tuntap.
Context {C A : Type} `{i_device_state_access A} `{!tap_interface C}.
Context (fuel : nat).

(** The loop that writes a packet: the number of bytes written, and whether all were *)
Definition tap_body (packet : list Z) (packet_len : Z) (st : Z * C) : outcome (Z * C + bool * C) :=
  let '(written_packet_len, c) := st in
  if negb (written_packet_len <? packet_len) then mret (inr (true, c))
  else
    let '(written_len, errno, c) := tap_write c (slice written_packet_len (packet_len - written_packet_len) packet) in
    if (written_len <=? 0) && negb (would_block errno) then mret (inr (false, c))
    else mret (inl (uint32 (written_packet_len + uint32 written_len), c)).

Definition tap_write_packet_to_host (vq : virtq) (desc_idx read_avail_len : Z) : call (C * A) bool := fun '(c, a) =>
  let packet_len := uint32 (read_avail_len - VIRTIO_NET_ETHERNET_FRAME_OFFSET) in
  if VIRTIO_NET_ETHERNET_MAX_LENGTH <? packet_len then mret (true, (c, a))
  else
    let packet_buf := replicate (Z.to_nat VIRTIO_NET_ETHERNET_MAX_LENGTH) 0 in
    '(ok, packet_buf) ← read_desc_mem fuel vq desc_idx VIRTIO_NET_ETHERNET_FRAME_OFFSET packet_buf packet_len a;
    if negb ok then mret (false, (c, a))
    else
      '(ok, c) ← while_true (tap_body packet_buf packet_len) fuel (0, c);
      mret (ok, (c, a)).

(** Whether it succeeded, and the number of bytes written *)
Definition tap_read_packet_from_host (vq : virtq) (desc_idx write_avail_len : Z) : call (C * A) (bool * Z) := fun '(c, a) =>
  let '(read_len, errno, packet_buf, c) := tap_read c VIRTIO_NET_ETHERNET_MAX_LENGTH in
  if read_len <=? 0 then mret (would_block errno, 0, (c, a))
  else
    let packet_len := uint32 read_len in
    if (write_avail_len <? uint32 (VIRTIO_NET_ETHERNET_FRAME_OFFSET + packet_len)) || (packet_len =? VIRTIO_NET_ETHERNET_MAX_LENGTH)
    then mret (true, 0, (c, a))
    else
      '(ok, a) ← write_desc_mem fuel vq desc_idx VIRTIO_NET_ETHERNET_FRAME_OFFSET packet_buf packet_len a;
      mret (if ok : bool then (true, uint32 (VIRTIO_NET_ETHERNET_FRAME_OFFSET + packet_len), (c, a)) else (false, 0, (c, a))).

(** The reset does nothing; the interface is selected for reading. *)
Definition virtio_net_carrier_tuntap : virtio_net_carrier C A := {|
  carrier_reset c := c;
  do_prepare_select c := c;
  do_poll_selected c := (tap_selected c, c);
  write_packet_to_host := tap_write_packet_to_host;
  read_packet_from_host := tap_read_packet_from_host;
|}.
End tuntap.
