(* ===== verification/VirtioSpec.v ===== *)
(** * Properties of VirtIO devices

    The interrupt line of a device follows its interrupt status, whatever the
    driver writes to its registers, and the console prints what the guest makes
    available and gives the buffers back: the memory is described by what it holds
    when the driver notifies the device, and the areas that the device writes, the
    ring of used chains, are apart from the others. *)

From S2P Require Import Prelude CppInt Constants Bytes Pma MachineState DeviceAccess Plic VirtioQueue VirtioDevice VirtioConsole.

(** ** The line of a device *)

(** How a call of a device may end without a result: by running forever, or, for a
    device that may consume so many chains of a queue in one call that its index of
    16 bits comes back, by the assertion that tells that the index has changed *)
Class MayWrap := may_wrap : bool.

Definition stops `{MayWrap} (e : exn) : Prop :=
  e = forever \/ may_wrap = true /\ e = assertion_failure "last_used_idx != vq.last_used_idx".

Lemma stops_forever `{MayWrap} : stops forever.
Proof. by left. Qed.
#[export] Hint Resolve stops_forever : core.

Section line.
Context {X A : Type} `{GuestMemory A} `{Hwrap : !MayWrap}.

Abbreviation state := (virtio_device X * A)%type.

(** The device has a source of the controller to itself; the source is pending
    while the interrupt status is not zero. *)
Record line_ok (s : state) : Prop := {
  lo_index : 0 <= virtio_idx s.1 < VIRTIO_MAX;
  lo_plic : plic_wf (regs s.2);
  lo_status : is_uint 32 (int_status s.1);
  lo_pending : pending (regs s.2) (get_irq_id s.1) = negb (int_status s.1 =? 0);
  lo_queues : length (queue s.1) = 2%nat;
  lo_used : forall i, is_uint 16 (last_used_idx (get_queue i s.1));
}.

(** What the calls of a device keep: the line follows the status, the other
    sources and those in service stay as they are. *)
Record line_kept (s s' : state) : Prop := {
  lk_ok : line_ok s';
  lk_index : virtio_idx s'.1 = virtio_idx s.1;
  lk_others : forall i, i <> get_irq_id s.1 -> pending (regs s'.2) i = pending (regs s.2) i;
  lk_service : forall i, in_service (regs s'.2) i = in_service (regs s.2) i;
}.

Lemma line_kept_refl s : line_ok s -> line_kept s s.
Proof. by split. Qed.

Lemma line_kept_trans s1 s2 s3 : line_kept s1 s2 -> line_kept s2 s3 -> line_kept s1 s3.
Proof.
  intros [H1 E1 O1 S1] [H2 E2 O2 S2]. split; [done|congruence| |congruence].
  intros i Hi. rewrite O2, O1; [done|done|]. unfold get_irq_id in *. by rewrite E1.
Qed.

(** The same, and whether the driver has initialised the device *)
Definition evolves (s s' : state) : Prop := line_kept s s' /\ driver_ok s'.1 = driver_ok s.1.

Lemma evolves_refl s : line_ok s -> evolves s s.
Proof. split; [by apply line_kept_refl|done]. Qed.

Lemma evolves_trans s1 s2 s3 : evolves s1 s2 -> evolves s2 s3 -> evolves s1 s3.
Proof. intros [H1 E1] [H2 E2]. split; [by eapply line_kept_trans|congruence]. Qed.

(** A call that keeps the line if it returns, after the driver has initialised the
    device if [ok] *)
Definition keeps {T} (ok : bool) (m : call state T) : Prop :=
  forall s, line_ok s -> (ok = true -> driver_ok s.1 = true) ->
  match m s with Done (_, s') => evolves s s' | Exn e => stops e end.

Lemma keeps_weaken {T} ok (m : call state T) : keeps false m -> keeps ok m.
Proof. intros Hm s Hs _. by apply Hm. Qed.

Lemma keeps_ret {T} ok (x : T) : keeps ok (mret x).
Proof. intros s Hs _. by apply evolves_refl. Qed.

Lemma keeps_bind {T U} ok (m : call state T) (f : T -> call state U) :
  keeps ok m -> (forall x, keeps ok (f x)) -> keeps ok (m ≫= f).
Proof.
  intros Hm Hf s Hs Hok. rewrite call_bind_eq. specialize (Hm s Hs Hok). destruct (m s) as [[x s']|e]; [|done].
  pose proof Hm as [[Hs' _ _ _] Ed]. specialize (Hf x s' Hs'). cbn. destruct (f x s') as [[y s'']|e].
  - apply (evolves_trans s s'); [done|]. apply Hf. by rewrite Ed.
  - apply Hf. by rewrite Ed.
Qed.

(** A call that looks at the device first *)
Lemma keeps_get {U} ok (f : virtio_device X -> call state U) :
  (forall d, keeps (ok || driver_ok d) (f d)) -> keeps ok (d ← get_device; f d).
Proof.
  intros Hf s Hs Hok. rewrite call_bind_eq. cbn [get_device]. apply Hf; [done|]. intros Hd. destruct ok; [by apply Hok|done].
Qed.

Lemma keeps_access {U} ok (f : A -> call state U) : (forall a, keeps ok (f a)) -> keeps ok (a ← get_access; f a).
Proof. intros Hf s Hs Hok. rewrite call_bind_eq. by apply Hf. Qed.

Lemma keeps_lift {T} ok (m : outcome T) : (forall e, m = Exn e -> e = forever) -> keeps ok (lift m).
Proof. intros Hm s Hs _. unfold lift. cbn. destruct m; cbn; [by apply evolves_refl|rewrite (Hm e) by done; auto]. Qed.

Lemma keeps_while ok (body : call state bool) fuel : keeps ok body -> keeps ok (while_call body fuel).
Proof.
  intros Hb. unfold while_call. induction fuel as [|fuel IH]; intros s Hs Hok; [apply stops_forever|]. cbn.
  specialize (Hb s Hs Hok). destruct (body s) as [[b s']|e]; cbn; [|done]. destruct b; [|done].
  pose proof Hb as [[Hs' _ _ _] Ed]. specialize (IH s' Hs'). rewrite Ed in IH. specialize (IH Hok). cbn in IH.
  destruct (while_true _ fuel s') as [[u s'']|e]; [|done]. by apply (evolves_trans s s').
Qed.

(** A change of the device that the line does not see *)
Lemma keeps_device ok f :
  (forall d, virtio_idx (f d) = virtio_idx d /\ int_status (f d) = int_status d /\ driver_ok (f d) = driver_ok d /\
     (length (queue d) = 2%nat -> (forall i, is_uint 16 (last_used_idx (get_queue i d))) ->
      length (queue (f d)) = 2%nat /\ forall i, is_uint 16 (last_used_idx (get_queue i (f d))))) ->
  keeps ok (on_device f : call state unit).
Proof.
  intros Hf [d a] [H1 H2 H3 H4 H5 H6] _. cbn in *. destruct (Hf d) as (E1 & E2 & E3 & Eq). destruct (Eq H5 H6) as [E4 E5].
  split; [split|done]; cbn; [|done|done|done]. split; cbn; unfold get_irq_id in *; rewrite ?E1, ?E2; done.
Qed.

(** ** Interrupts *)

Lemma irq_id_range (d : virtio_device X) : 0 <= virtio_idx d < VIRTIO_MAX -> 1 <= get_irq_id d <= 31 /\ get_irq_id d = virtio_idx d + 1.
Proof. unfold VIRTIO_MAX, get_irq_id. intros Hd. rewrite uint_id by (unfold is_uint; lia). lia. Qed.

(** The state after the status and the line are set together *)
Lemma line_update d a (v : Z) r :
  line_ok (d, a) -> is_uint 32 v -> plic_wf r ->
  (forall i, pending r i = if i =? get_irq_id d then negb (v =? 0) else pending (regs a) i) ->
  (forall i, in_service r i = in_service (regs a) i) ->
  evolves (d, a) (set_int_status v d, set_regs r a).
Proof.
  intros [H1 H2 H3 H4 H5 H6] Hv Hr Hp Hi. split; [|done]. split; cbn [fst snd]; rewrite ?regs_set_regs; [|done| |done].
  - split; cbn [fst snd]; rewrite ?regs_set_regs; try done. rewrite Hp. change (get_irq_id (set_int_status v d)) with (get_irq_id d).
    by rewrite Z.eqb_refl.
  - intros i Hne. rewrite Hp. by rewrite (proj2 (Z.eqb_neq _ _)) by done.
Qed.

Lemma set_irq_keeps ok add_int_status : is_uint 32 add_int_status -> keeps ok (set_irq add_int_status : call state unit).
Proof.
  intros Hadd [d a] Hs _. pose proof Hs as [H1 H2 H3 H4 H5 H6]. unfold set_irq. rewrite !call_bind_eq. cbn [on_device fst snd].
  rewrite call_bind_eq. cbn [get_device fst]. set (v := int_status d |ᵇ add_int_status).
  change (int_status (set_int_status v d)) with v. change (get_irq_id (set_int_status v d)) with (get_irq_id d).
  assert (is_uint 32 v) as Hv by (by apply lor_uint). destruct (irq_id_range d H1) as [Hid _]. destruct (Z.eqb_spec v 0) as [E|E]; cbn [negb].
  - assert (int_status d = 0) as E0 by (unfold v in E; by apply Z.lor_eq_0_iff in E as [-> _]).
    cbn. split; [split|done]; cbn; [|done..]. split; cbn; try done. rewrite E. cbn in H4. rewrite E0 in H4. exact H4.
  - destruct (set_pending_spec (get_irq_id d) (regs a) H2 Hid) as (Hw & Hp & Hi). cbn. unfold on_regs. apply line_update; try done.
    intros i. rewrite Hp. by destruct (Z.eqb_spec i (get_irq_id d)), (Z.eqb_spec v 0).
Qed.

Lemma reset_irq_keeps ok rem_int_status : keeps ok (reset_irq rem_int_status : call state unit).
Proof.
  intros [d a] Hs _. pose proof Hs as [H1 H2 H3 H4 H5 H6]. unfold reset_irq. rewrite !call_bind_eq. cbn [on_device fst snd].
  rewrite call_bind_eq. cbn [get_device fst]. set (v := int_status d &ᵇ uint32 (Z.lnot rem_int_status)).
  change (int_status (set_int_status v d)) with v. change (get_irq_id (set_int_status v d)) with (get_irq_id d).
  assert (is_uint 32 v) as Hv by (apply land_uint; [lia|done]). destruct (irq_id_range d H1) as [Hid _].
  destruct (Z.eqb_spec v 0) as [E|E]; cbn; unfold on_regs; (apply line_update; [done|done|..]).
  1-3: destruct (reset_pending_spec (get_irq_id d) (regs a) H2 Hid) as (Hw & Hp & Hi); try done;
    intros i; rewrite Hp; by destruct (Z.eqb_spec i (get_irq_id d)), (Z.eqb_spec v 0).
  all: destruct (set_pending_spec (get_irq_id d) (regs a) H2 Hid) as (Hw & Hp & Hi); try done;
    intros i; rewrite Hp; by destruct (Z.eqb_spec i (get_irq_id d)), (Z.eqb_spec v 0).
Qed.

End line.

Ltac keeps_step :=
  first [ apply keeps_ret | apply keeps_get; intros ? | apply keeps_access; intros ?
        | apply set_irq_keeps; done | apply reset_irq_keeps
        | apply keeps_bind; [|intros ?]
        | apply keeps_device; intros ?; do 3 (split; [reflexivity|]); intros ? ?; split; assumption ].

Section device.
Context {X A : Type} `{GuestMemory A} `{Hwrap : !MayWrap}.

Abbreviation state := (virtio_device X * A)%type.

Lemma notify_queue_used_keeps ok : keeps ok (notify_queue_used : call state unit).
Proof. unfold notify_queue_used. keeps_step. case_if; repeat keeps_step. Qed.

Lemma notify_config_change_keeps ok : keeps ok (notify_config_change : call state unit).
Proof. unfold notify_config_change. repeat keeps_step. case_if; repeat keeps_step. Qed.

Lemma notify_device_needs_reset_keeps ok : keeps ok (notify_device_needs_reset : call state unit).
Proof. unfold notify_device_needs_reset. keeps_step; [keeps_step|]. apply notify_config_change_keeps. Qed.

(** ** Queues *)

(** The controller and [mip] stay. *)
Definition same_plic (r r' : device_access) : Prop :=
  s_plic (da_s r') = s_plic (da_s r) /\ s_mip (da_s r') = s_mip (da_s r).

Lemma plic_evolves (d : virtio_device X) a a' : line_ok (d, a) -> same_plic (regs a) (regs a') -> evolves (d, a) (d, a').
Proof.
  intros [H1 H2 H3 H4 H5 H6] [E1 E2]. cbn in *.
  assert (forall i, pending (regs a') i = pending (regs a) i) as Hp by (intros; unfold pending, read_plic_girqpend; by rewrite E1).
  assert (forall i, in_service (regs a') i = in_service (regs a) i) as Hi by (intros; unfold in_service, read_plic_girqsrvd; by rewrite E1).
  split; [split|done]; cbn; try done. split; cbn; try done; [|by rewrite Hp].
  destruct H2 as [P1 P2 P3 P4 P5]. unfold read_plic_girqpend, read_plic_girqsrvd, read_mip in *.
  split; unfold plic_read_pending, read_plic_girqpend, read_plic_girqsrvd, read_mip in *; rewrite ?Hp, ?E1, ?E2; auto.
Qed.

Lemma same_regs_plic (a a' : A) : same_regs a a' -> same_plic (regs a) (regs a').
Proof. intros (pmas & e & ->). done. Qed.

Lemma memory_evolves (d : virtio_device X) a a' : line_ok (d, a) -> same_regs a a' -> evolves (d, a) (d, a').
Proof. intros. by apply plic_evolves, same_regs_plic. Qed.

Lemma get_upd_queue i j f (d : virtio_device X) :
  get_queue j (upd_queue i f d) = if bool_decide (Z.to_nat i = Z.to_nat j /\ (Z.to_nat i < length (queue d))%nat) then f (get_queue i d) else get_queue j d.
Proof.
  unfold upd_queue, get_queue. cbn. destruct (decide (Z.to_nat i = Z.to_nat j)) as [E|Hne]; [rewrite E|].
  - case_bool_decide as Hd; [by rewrite nth_insert by lia|]. by rewrite list_insert_ge by lia.
  - rewrite bool_decide_eq_false_2 by (by intros []). by apply nth_insert_ne.
Qed.

Lemma upd_queue_evolves i f (d : virtio_device X) (a : A) :
  (forall vq, is_uint 16 (last_used_idx vq) -> is_uint 16 (last_used_idx (f vq))) ->
  line_ok (d, a) -> evolves (d, a) (upd_queue i f d, a).
Proof.
  intros Hf [H1 H2 H3 H4 H5 H6]. split; [split|done]; [|done..]. split; cbn [fst snd]; try done.
  - cbn. by rewrite length_insert.
  - intros j. rewrite get_upd_queue. case_bool_decide; [apply Hf|]; apply H6.
Qed.

Lemma consume_queue_spec queue_idx desc_idx len flags (s : state) :
  line_ok s -> driver_ok s.1 = true -> queue_idx < VIRTIO_QUEUE_COUNT ->
  match consume_queue queue_idx desc_idx len flags s with
  | Done (ok, s') => evolves s s' /\ (ok = true -> last_used_idx (get_queue queue_idx s'.1) <> last_used_idx (get_queue queue_idx s.1))
  | Exn e => False
  end.
Proof.
  intros Hs Hd Hq. destruct s as [d a]. cbn [fst snd] in *. unfold consume_queue. rewrite Hd, (proj2 (Z.ltb_lt _ _) Hq). cbn [negb throw_if mbind outcome_bind].
  pose proof (consume_desc_spec (get_queue queue_idx d) desc_idx len flags a) as Hc.
  destruct (consume_desc _ _ _ _ _) as [[ok vq] a']. destruct Hc as [Hr ->]. cbn [mret outcome_ret fst snd].
  pose proof (lo_used _ Hs queue_idx) as Hu. pose proof (lo_queues _ Hs) as Hlen. cbn [fst] in Hu, Hlen. split.
  - apply (evolves_trans _ (d, a')); [by apply memory_evolves|]. apply upd_queue_evolves.
    + intros vq _. destruct ok; [cbn; apply uint_range; lia|done].
    + by apply (memory_evolves d a a').
  - intros ->. rewrite get_upd_queue, bool_decide_eq_true_2 by (unfold VIRTIO_QUEUE_COUNT in Hq; lia). cbn.
    unfold is_uint, uint in *. intros E. Z.div_mod_to_equations. lia.
Qed.

Lemma consume_queue_keeps queue_idx desc_idx len flags :
  queue_idx < VIRTIO_QUEUE_COUNT -> keeps true (consume_queue queue_idx desc_idx len flags : call state bool).
Proof.
  intros Hq s Hs Hd. pose proof (consume_queue_spec queue_idx desc_idx len flags s Hs (Hd eq_refl) Hq) as Hc.
  destruct (consume_queue _ _ _ _ s) as [[ok s']|e]; [apply Hc|done].
Qed.

Lemma prepare_queue_write_keeps fuel queue_idx :
  queue_idx < VIRTIO_QUEUE_COUNT -> keeps true (prepare_queue_write fuel queue_idx : call state _).
Proof.
  intros Hq s Hs Hd. specialize (Hd eq_refl). unfold prepare_queue_write. rewrite !call_bind_eq. cbn [get_device]. rewrite call_bind_eq. cbn [get_access].
  unfold assert_that, lift. rewrite Hd. rewrite call_bind_eq. cbn [negb throw_if mbind outcome_bind mret outcome_ret].
  rewrite (proj2 (Z.ltb_lt _ _) Hq). rewrite call_bind_eq. cbn [negb throw_if mbind outcome_bind mret outcome_ret].
  pose proof (evolves_refl s Hs) as Hr.
  case_if; [exact Hr|]. destruct (virtq_get_avail_header _ _); [|exact Hr]. case_if; [exact Hr|].
  destruct (virtq_get_ring_avail_elem_desc_idx _ _ _); [|exact Hr].
  rewrite call_bind_eq. destruct (get_desc_rw_avail_len _ _ _ _) as [[[ok r] w]|e] eqn:Ew; cbn; [exact Hr|].
  apply get_desc_rw_avail_len_throws in Ew as ->. auto.
Qed.

(** ** The registers *)

(** What the methods of a device owe to the class they derive from: they keep the
    line, and a chain that is reported as served has been consumed. *)
Class MethodsOk `{!virtio_methods X A} := {
  reset_ok : keeps false on_device_reset;
  ok_ok : keeps true on_device_ok;
  available_ok queue_idx desc_idx r w (s : state) :
    line_ok s -> driver_ok s.1 = true -> queue_idx < VIRTIO_QUEUE_COUNT ->
    match on_device_queue_available queue_idx desc_idx r w s with
    | Done (served, s') =>
        evolves s s' /\ (served = true -> may_wrap = true \/ last_used_idx (get_queue queue_idx s'.1) <> last_used_idx (get_queue queue_idx s.1))
    | Exn e => stops e
    end;
}.

Context `{MethodsOk}.

Lemma notify_body_keeps fuel queue_idx last_avail_idx :
  queue_idx < VIRTIO_QUEUE_COUNT -> keeps true (notify_body fuel queue_idx last_avail_idx).
Proof.
  intros Hq s Hs Hd. unfold notify_body. rewrite !call_bind_eq. cbn [get_device]. rewrite call_bind_eq. cbn [get_access]. cbv zeta.
  assert (keeps true (notify_device_needs_reset ≫= fun _ => mret false : call state bool)) as Hn.
  { apply keeps_bind; [apply notify_device_needs_reset_keeps|intros; apply keeps_ret]. }
  destruct (last_used_idx _ =? last_avail_idx); [by apply evolves_refl|].
  destruct (virtq_get_ring_avail_elem_desc_idx _ _ _) as [desc_idx|]; [|by apply Hn].
  rewrite call_bind_eq. unfold lift. destruct (get_desc_rw_avail_len _ _ _ _) as [[[ok r] w]|e] eqn:Ew; cbn [mbind outcome_bind mret outcome_ret].
  2: { apply get_desc_rw_avail_len_throws in Ew as ->. auto. }
  destruct ok; cbn [negb]; [|by apply Hn]. rewrite call_bind_eq.
  pose proof (available_ok queue_idx desc_idx r w s Hs (Hd eq_refl) Hq) as Ha.
  destruct (on_device_queue_available _ _ _ _ s) as [[served s']|e]; [|done]. destruct Ha as [He Hu].
  destruct served; cbn [negb]; [|exact He]. rewrite call_bind_eq. cbn [get_device]. rewrite call_bind_eq. unfold assert_that, lift.
  destruct (Z.eqb_spec (last_used_idx (get_queue queue_idx s.1)) (last_used_idx (get_queue queue_idx s'.1))) as [E|]; [|exact He].
  right. split; [|done]. by destruct (Hu eq_refl).
Qed.

Lemma on_device_queue_notify_keeps fuel queue_idx :
  queue_idx < VIRTIO_QUEUE_COUNT -> keeps false (on_device_queue_notify fuel queue_idx).
Proof.
  intros Hq. unfold on_device_queue_notify. apply keeps_get. intros d. apply keeps_access. intros a. cbn [orb].
  destruct (driver_ok d); cbn [negb]; [|apply keeps_ret]. case_if; [apply keeps_ret|].
  destruct (virtq_get_avail_header _ a); [|apply notify_device_needs_reset_keeps]. by apply keeps_while, notify_body_keeps.
Qed.

(** A call that may initialise or reset the device *)
Definition keeps_line {T} (m : call state T) : Prop :=
  forall s, line_ok s -> match m s with Done (_, s') => line_kept s s' | Exn e => stops e end.

Lemma keeps_keeps_line {T} (m : call state T) : keeps false m -> keeps_line m.
Proof. intros Hm s Hs. specialize (Hm s Hs ltac:(done)). destruct (m s) as [[x s']|e]; [apply Hm|done]. Qed.

Lemma keeps_line_bind {T U} (m : call state T) (f : T -> call state U) :
  keeps_line m -> (forall x, keeps_line (f x)) -> keeps_line (m ≫= f).
Proof.
  intros Hm Hf s Hs. rewrite call_bind_eq. specialize (Hm s Hs). destruct (m s) as [[x s']|e]; [|done].
  pose proof Hm as [Hs' _ _ _]. specialize (Hf x s' Hs'). destruct (f x s') as [[y s'']|e]; [|done]. by eapply line_kept_trans.
Qed.

Lemma clear_device_line (s : state) : line_ok s ->
  match reset_irq (VIRTIO_INT_STATUS_USED_BUFFER |ᵇ VIRTIO_INT_STATUS_CONFIG_CHANGE) (clear_device s.1, s.2) with
  | Done (_, s') => line_kept s s' | Exn e => False end.
Proof.
  destruct s as [d a]. intros [H1' H2' H3' H4' H5' H6']. unfold reset_irq. rewrite !call_bind_eq. cbn [on_device fst snd]. rewrite call_bind_eq. cbn [get_device fst snd] in *.
  change (get_irq_id (set_int_status _ _)) with (get_irq_id d). destruct (irq_id_range d H1') as [Hid _].
  destruct (reset_pending_spec (get_irq_id d) (regs a) H2' Hid) as (Hw & Hp & Hi). cbn. unfold on_regs.
  split; cbn [fst snd]; rewrite ?regs_set_regs; [|done|intros i Hne|done].
  - split; cbn [fst snd]; rewrite ?regs_set_regs; try done.
    + change (pending (plic_reset_pending_irq (get_irq_id d) (regs a)) (get_irq_id d) = false). rewrite Hp. by rewrite Z.eqb_refl.
    + cbn. by rewrite length_map.
    + intros i. unfold get_queue. cbn. change blank_virtq with ((fun _ => blank_virtq) blank_virtq). rewrite map_nth. cbn. done.
  - change (get_irq_id (d, a).1) with (get_irq_id d) in Hne. rewrite Hp. by rewrite (proj2 (Z.eqb_neq _ _)) by done.
Qed.

Lemma reset_keeps : keeps_line reset.
Proof.
  unfold reset. apply keeps_line_bind; [apply keeps_keeps_line, reset_ok|]. intros _ s Hs. rewrite call_bind_eq. cbn [on_device].
  pose proof (clear_device_line s Hs) as Hc. by destruct (reset_irq _ _) as [[x s']|e].
Qed.

Lemma status_of_irq_keeps : keeps_line (status_of_irq : call state _).
Proof. apply keeps_keeps_line. unfold status_of_irq. repeat keeps_step. Qed.

Lemma write_status_keeps val : is_uint 32 val -> keeps_line (write_status val).
Proof.
  intros Hv. unfold write_status. case_if.
  { apply keeps_line_bind; [apply reset_keeps|intros _; apply status_of_irq_keeps]. }
  intros s Hs. rewrite call_bind_eq. cbn [get_device]. cbv zeta. case_if; [by apply line_kept_refl|].
  match goal with |- context [_ ≫= fun _ => (?m ≫= fun _ => _)] => assert (keeps_line m) as Hm end.
  2: { apply (keeps_line_bind _ _); [apply keeps_keeps_line; keeps_step|intros _|done].
       apply keeps_line_bind; [exact Hm|intros _; apply status_of_irq_keeps]. }
  case_if; [|apply keeps_keeps_line, keeps_ret]. case_if; [apply keeps_keeps_line; keeps_step|].
  intros [d a] Hd. rewrite call_bind_eq. cbn [on_device fst snd].
  pose proof (ok_ok (set_driver_ok true d, a)) as Hk. assert (line_ok (set_driver_ok true d, a)) as Hd' by (destruct Hd; by split).
  specialize (Hk Hd' ltac:(done)). destruct (on_device_ok _) as [[x s']|e]; [|done]. destruct Hk as [[K1 K2 K3 K4] _]. by split.
Qed.

Lemma on_selected_keeps c f :
  (forall vq, is_uint 16 (last_used_idx vq) -> is_uint 16 (last_used_idx (f vq))) -> keeps_line (on_selected c f : call state _).
Proof.
  intros Hf. apply keeps_keeps_line. unfold on_selected. apply keeps_get. intros d. apply keeps_bind; [|intros; apply keeps_ret].
  case_if; [|apply keeps_ret]. apply keeps_weaken. intros [d' a] Hs _. by apply (upd_queue_evolves (queue_sel d)).
Qed.

Ltac keeps_line_step :=
  first [ apply on_selected_keeps; intros ? ?; assumption
        | apply write_status_keeps; assumption | apply status_of_irq_keeps
        | apply keeps_keeps_line; solve [repeat keeps_step]
        | apply keeps_keeps_line, on_device_queue_notify_keeps; by apply Z.ltb_lt
        | apply keeps_line_bind; [|intros ?] ].

Lemma mmio_write_keeps fuel offset val log2_size : is_uint 32 val -> keeps_line (mmio_write fuel offset val log2_size).
Proof.
  intros Hv. unfold mmio_write. case_if.
  { apply keeps_keeps_line. unfold mmio_write_config. keeps_step. repeat (case_if; [apply keeps_ret|]). case_if; repeat keeps_step. }
  case_if; [apply keeps_keeps_line, keeps_ret|].
  repeat (case_if; [|]); repeat keeps_line_step.
  repeat case_if; repeat keeps_line_step.
Qed.
End device.

(** ** The console *)

Section console.
Context {A : Type} `{GuestMemory A}.
#[local] Instance console_wraps : MayWrap := false.
Context (os_get_tty_size : A -> Z * Z) (os_poll_selected_tty : A -> bool * A).
Context (poll_tty_plic : forall a, same_plic (regs a) (regs (os_poll_selected_tty a).2)).
Context (fuel : nat).

Abbreviation state := (virtio_device console_members * A)%type.

#[local] Instance methods : virtio_methods console_members A := console_methods os_get_tty_size fuel.

Lemma needs_reset_keeps ok : keeps ok (needs_reset : call state bool).
Proof. apply keeps_bind; [apply notify_device_needs_reset_keeps|intros; apply keeps_ret]. Qed.

Lemma notify_console_size_keeps ok : keeps ok (notify_console_size_to_guest os_get_tty_size : call state bool).
Proof.
  unfold notify_console_size_to_guest. apply keeps_get. intros d. apply keeps_access. intros a.
  destruct (os_get_tty_size a) as [cols rows]. case_if; [apply keeps_ret|].
  apply keeps_bind; [keeps_step|intros _]. apply keeps_bind; [apply notify_config_change_keeps|intros; apply keeps_ret].
Qed.

Lemma os_putchars_plic l r : same_plic r (os_putchars l r).
Proof. unfold os_putchars. revert r. induction l as [|c l IH]; intros r; [done|]. cbn. apply (IH (os_putchar c r)). Qed.

Lemma os_getchars_plic n r : same_plic r (os_getchars n r).2.
Proof.
  unfold os_getchars. generalize (Z.to_nat n). clear n. intros n. revert r. induction n as [|n IH]; intros r; [done|]. cbn.
  assert (same_plic r (os_getchar r).2) as Hr by (unfold os_getchar; by destruct (da_input r)).
  destruct (os_getchar r) as [c r']. cbn in Hr. case_if; [done|]. specialize (IH r'). destruct (getchars n r') as [l r'']. cbn in *.
  destruct Hr, IH. split; congruence.
Qed.

Lemma chars_to_host_spec queue_idx desc_idx read_avail_len (s : state) :
  line_ok s -> driver_ok s.1 = true -> queue_idx < VIRTIO_QUEUE_COUNT ->
  match write_next_chars_to_host fuel queue_idx desc_idx read_avail_len s with
  | Done (served, s') =>
      evolves s s' /\ (served = true -> last_used_idx (get_queue queue_idx s'.1) <> last_used_idx (get_queue queue_idx s.1))
  | Exn e => stops e
  end.
Proof.
  intros Hs Hd Hq. unfold write_next_chars_to_host. rewrite call_bind_eq.
  pose proof (while_true_invariant (chunk_body fuel queue_idx desc_idx read_avail_len)
    (fun st => evolves s st.2 /\ st.2.1 = s.1) (fun r => evolves s r.2 /\ (r.1 = true -> r.2.1 = s.1)) fuel
    (0, replicate (Z.to_nat TTY_BUF_SIZE) 0, s)) as Hi.
  assert (evolves s s) as Hrefl by (by apply evolves_refl).
  match type of Hi with (?P -> _) => assert P as Hb end.
  { intros [[off chunk] s1] [He E1]. cbn [fst snd] in *. unfold chunk_body. case_if; [by split|].
    destruct (read_desc_mem _ _ _ _ _ _ _) as [[ok chunk']|e] eqn:Er; cbn [mbind outcome_bind]; [|by apply read_desc_mem_throws in Er].
    destruct ok; cbn [negb]; cbn [fst snd].
    - split; [|done]. eapply evolves_trans; [exact He|]. destruct s1 as [d1 a1]. pose proof He as [[Hl _ _ _] _].
      apply plic_evolves; [exact Hl|]. unfold on_regs. rewrite regs_set_regs. apply os_putchars_plic.
    - pose proof (notify_device_needs_reset_keeps false s1) as Hn. pose proof He as [[Hl _ _ _] _]. specialize (Hn Hl ltac:(done)).
      destruct (notify_device_needs_reset s1) as [[u s2]|e]; cbn; [|by destruct Hn as [?|[? _] ] ]. split; [by apply (evolves_trans s s1)|done]. }
  specialize (Hi Hb (conj Hrefl eq_refl)). destruct (while_true _ fuel _) as [[ok s1]|e]; [|by left].
  cbn [fst snd] in Hi. destruct Hi as [He E1]. destruct ok; cbn [negb]; [|split; [exact He|done]].
  specialize (E1 eq_refl). rewrite call_bind_eq. pose proof He as [[Hl _ _ _] _].
  assert (driver_ok s1.1 = true) as Hd1 by (by rewrite E1).
  pose proof (consume_queue_spec queue_idx desc_idx 0 0 s1 Hl Hd1 Hq) as Hc.
  destruct (consume_queue _ _ _ _ s1) as [[ok s2]|e]; [|done]. destruct Hc as [He2 Hu]. rewrite E1 in Hu.
  destruct ok; cbn [negb]; [split; [by apply (evolves_trans s s1)|intros _; by apply Hu]|].
  pose proof (needs_reset_keeps false s2) as Hn. pose proof He2 as [[Hl2 _ _ _] _]. specialize (Hn Hl2 ltac:(done)).
  unfold needs_reset in *. rewrite call_bind_eq in *. destruct (notify_device_needs_reset s2) as [[u s3]|e]; [|done].
  split; [|done]. apply (evolves_trans s s2); [|exact Hn]. by apply (evolves_trans s s1).
Qed.

Lemma chars_to_guest_keeps ok : keeps ok (write_next_chars_to_guest fuel : call state bool).
Proof.
  unfold write_next_chars_to_guest. apply keeps_get. intros d. destruct (driver_ok d); cbn [negb]; [|apply keeps_ret].
  replace (ok || true) with true by (by destruct ok). apply keeps_bind; [by apply prepare_queue_write_keeps|].
  intros [[okp desc_idx] len]. destruct okp; cbn [negb]; [|apply needs_reset_keeps]. case_if; [apply keeps_ret|].
  apply keeps_bind.
  { intros [d1 a1] Hs _. unfold regs_call. pose proof (os_getchars_plic (Z.min len TTY_BUF_SIZE) (regs a1)) as Hp.
    cbn [snd]. destruct (os_getchars _ (regs a1)) as [l r]. apply plic_evolves; [done|]. by rewrite regs_set_regs. }
  intros chunk. case_if; [apply keeps_ret|]. apply keeps_get. intros d1. cbn [orb]. apply keeps_bind.
  { intros [d2 a2] Hs _. pose proof (write_desc_mem_regs fuel (get_queue VIRTIO_CONSOLE_RECEIVEQ d1) desc_idx 0 chunk (Z.of_nat (length chunk)) a2) as Hw.
    cbn [snd]. destruct (write_desc_mem _ _ _ _ _ _ a2) as [[b a3]|e]; cbn; [by apply memory_evolves|by left]. }
  intros b. destruct b; cbn [negb]; [|apply needs_reset_keeps]. apply keeps_bind; [by apply consume_queue_keeps|].
  intros c. destruct c; cbn [negb]; [|apply needs_reset_keeps]. apply keeps_bind; [apply notify_queue_used_keeps|intros; apply keeps_ret].
Qed.

#[export] Instance console_methods_ok : MethodsOk.
Proof.
  split.
  - apply keeps_weaken. keeps_step.
  - apply keeps_bind; [apply notify_console_size_keeps|intros; apply keeps_ret].
  - intros queue_idx desc_idx r w s Hs Hd Hq. cbn [on_device_queue_available methods console_methods]. unfold console_queue_available.
    case_if; [split; [by apply evolves_refl|done]|]. case_if.
    { pose proof (chars_to_host_spec queue_idx desc_idx r s Hs Hd Hq) as Hc. destruct (write_next_chars_to_host _ _ _ _ s) as [[b s']|e]; [|done].
      destruct Hc as [He Hu]. split; [done|]. intros Hb. right. by apply Hu. }
    pose proof (needs_reset_keeps false s Hs ltac:(done)) as Hn. unfold needs_reset in *. rewrite call_bind_eq in *.
    destruct (notify_device_needs_reset s) as [[u s']|e]; [|done]. by split.
Qed.

Lemma poll_selected_keeps : keeps false (poll_selected os_get_tty_size os_poll_selected_tty fuel : call state bool).
Proof.
  unfold poll_selected. apply keeps_get. intros d. case_if; [apply keeps_ret|]. apply keeps_bind; [apply notify_console_size_keeps|].
  intros irq. apply keeps_bind.
  { intros [d1 a1] Hs _. cbn [snd]. pose proof (poll_tty_plic a1) as Hp. destruct (os_poll_selected_tty a1) as [b a2]. by apply plic_evolves. }
  intros ready. destruct ready; [|apply keeps_ret]. apply keeps_bind; [apply chars_to_guest_keeps|]. intros written.
  apply keeps_bind; [|intros; apply keeps_ret]. destruct written; [|apply keeps_ret]. apply keeps_while, chars_to_guest_keeps.
Qed.

Lemma prepare_select_keeps timeout_us : keeps false (prepare_select timeout_us : call state bool).
Proof.
  unfold prepare_select. apply keeps_get. intros d. case_if; [apply keeps_ret|]. case_if; [apply keeps_ret|].
  case_if; [|apply keeps_ret]. apply keeps_bind; [keeps_step|intros; apply keeps_ret].
Qed.
End console.

(** ** The network device *)

(** What a carrier owes to the device: it reaches the guest's memory only, and
    throws nothing. *)
Class CarrierOk {C A} `{GuestMemory A} `{!virtio_net_carrier C A} : Prop := {
  to_host_ok vq desc_idx len (c : C) (a : A) :
    match write_packet_to_host vq desc_idx len (c, a) with Done (_, s) => same_plic (regs a) (regs s.2) | Exn e => e = forever end;
  from_host_ok vq desc_idx len (c : C) (a : A) :
    match read_packet_from_host vq desc_idx len (c, a) with Done (_, s) => same_plic (regs a) (regs s.2) | Exn e => e = forever end;
}.

Section net.
Context {C A : Type} `{GuestMemory A} `{!virtio_net_carrier C A} `{Hcarrier : !CarrierOk (C := C)}.
Context (fuel : nat).
(** A poll may deliver any number of packets. *)
#[local] Instance net_wraps : MayWrap := true.

Abbreviation state := (virtio_device C * A)%type.

Lemma carrier_call_keeps ok {T} (m : call (C * A) T) :
  (forall c a, match m (c, a) with Done (_, s) => same_plic (regs a) (regs s.2) | Exn e => e = forever end) ->
  keeps ok (carrier_call m : call state T).
Proof.
  intros Hm [d a] Hs _. unfold carrier_call. cbn [fst snd]. specialize (Hm (members d) a).
  destruct (m (members d, a)) as [[x [c a'] ]|e]; cbn [mbind outcome_bind mret outcome_ret snd] in *; [|by left].
  pose proof (plic_evolves d a a' Hs Hm) as [[Hl ? ? ?] Hd]. split; [|exact Hd]. split; try done. destruct Hl. by split.
Qed.

Lemma net_needs_reset_keeps ok : keeps ok (net_needs_reset : call state bool).
Proof. apply keeps_bind; [apply notify_device_needs_reset_keeps|intros; apply keeps_ret]. Qed.

Lemma packet_to_host_keeps queue_idx desc_idx len :
  queue_idx < VIRTIO_QUEUE_COUNT -> keeps true (write_next_packet_to_host queue_idx desc_idx len : call state bool).
Proof.
  intros Hq. unfold write_next_packet_to_host. apply keeps_get. intros d. apply keeps_bind; [apply carrier_call_keeps, to_host_ok|].
  intros written. destruct written; cbn [negb]; [|apply net_needs_reset_keeps]. apply keeps_bind; [by apply consume_queue_keeps|].
  intros consumed. destruct consumed; [apply keeps_ret|apply net_needs_reset_keeps].
Qed.

Lemma packet_from_host_keeps : keeps true (read_next_packet_from_host fuel : call state bool).
Proof.
  unfold read_next_packet_from_host. apply keeps_bind; [by apply prepare_queue_write_keeps|]. intros [[okp desc_idx] len].
  destruct okp; cbn [negb]; [|apply net_needs_reset_keeps]. case_if; [apply keeps_ret|]. apply keeps_get. intros d. cbv zeta.
  apply keeps_bind; [apply carrier_call_keeps, from_host_ok|]. intros [okr written]. destruct okr; cbn [negb]; [|apply net_needs_reset_keeps].
  case_if; [apply keeps_ret|]. apply keeps_bind.
  { intros [d1 a1] Hs _. set (hdr := replicate _ 0). cbn [snd].
    pose proof (write_desc_mem_regs fuel (get_queue VIRTIO_NET_RECEIVEQ d) desc_idx 0 hdr VIRTIO_NET_ETHERNET_FRAME_OFFSET a1) as Hw.
    destruct (write_desc_mem _ _ _ _ _ _ a1) as [[b a2]|e]; cbn; [by apply memory_evolves|by left]. }
  intros b. destruct b; cbn [negb]; [|apply net_needs_reset_keeps]. apply keeps_bind; [by apply consume_queue_keeps|].
  intros k. destruct k; cbn [negb]; [|apply net_needs_reset_keeps]. apply keeps_bind; [apply notify_queue_used_keeps|intros; apply keeps_ret].
Qed.

Lemma net_poll_keeps ok : keeps ok (net_poll_nowait fuel : call state bool).
Proof.
  unfold net_poll_nowait. apply keeps_bind.
  { unfold net_prepare_select. apply keeps_get. intros d. case_if; [apply keeps_ret|]. keeps_step. }
  intros _. unfold net_poll_selected. apply keeps_get. intros d. destruct (driver_ok d); cbn [negb]; [|apply keeps_ret].
  rewrite orb_true_r. destruct (do_poll_selected (members d)) as [ready c]. apply keeps_bind; [keeps_step|]. intros _.
  destruct ready; cbn [negb]; [|apply keeps_ret]. apply keeps_bind; [apply packet_from_host_keeps|]. intros read.
  apply keeps_bind; [|intros; apply keeps_ret]. destruct read; [|apply keeps_ret]. apply keeps_while, packet_from_host_keeps.
Qed.

#[export] Instance net_methods_ok : MethodsOk (X := C) (virtio_methods0 := net_methods fuel).
Proof.
  split.
  - apply keeps_weaken. cbn. unfold net_reset. keeps_step.
  - apply keeps_ret.
  - intros queue_idx desc_idx r w s Hs Hd Hq.
    assert (keeps true (net_queue_available fuel queue_idx desc_idx r w : call state bool)) as Hk.
    { unfold net_queue_available. case_if; [apply net_poll_keeps|]. case_if; [|apply net_needs_reset_keeps].
      apply keeps_bind; [by apply packet_to_host_keeps|]. intros sent. destruct sent; [|apply keeps_ret].
      apply keeps_bind; [apply net_poll_keeps|intros; apply keeps_ret]. }
    specialize (Hk s Hs ltac:(done)). cbn. destruct (net_queue_available _ _ _ _ _ s) as [[served s']|e]; [|done].
    split; [exact Hk|]. intros _. by left.
Qed.
End net.

(** The TAP interface obeys the law of carriers. *)
Section tuntap.
Context {C A : Type} `{GuestMemory A} `{!tap_interface C}.
Context (fuel : nat).

#[export] Instance tuntap_ok : CarrierOk (C := C) (virtio_net_carrier0 := virtio_net_carrier_tuntap fuel).
Proof.
  split; intros vq desc_idx len c a; cbn.
  - unfold tap_write_packet_to_host. case_if; [done|]. destruct (read_desc_mem _ _ _ _ _ _ _) as [[ok buf]|e] eqn:Er;
      cbn [mbind outcome_bind]; [|by apply read_desc_mem_throws in Er].
    destruct ok; cbn [negb]; [|done]. set (n := uint32 _).
    pose proof (while_true_invariant (tap_body buf n) (fun _ => True) (fun _ => True) fuel (0, c)) as Hi.
    destruct (while_true _ fuel _) as [[ok c']|e]; [done|]. apply Hi; [|done]. intros [w c0] _. unfold tap_body.
    case_if; [done|]. destruct (tap_write c0 _) as [[k errno] c1]. by case_if.
  - unfold tap_read_packet_from_host. destruct (tap_read c _) as [[[n errno] buf] c']. case_if; [done|]. case_if; [done|].
    pose proof (write_desc_mem_regs fuel vq desc_idx VIRTIO_NET_ETHERNET_FRAME_OFFSET buf (uint32 n) a) as Hw.
    destruct (write_desc_mem _ _ _ _ _ _ a) as [[b a']|e]; cbn; [|done]. destruct b; by apply same_regs_plic.
Qed.

(** A packet is lost when the interface is busy: the first call that would block
    counts as minus one byte, the loop ends, and the packet is reported as sent. *)
Theorem tuntap_loses_packet vq desc_idx read_avail_len (c c' : C) (a : A) buf errno :
  let packet_len := uint32 (read_avail_len - VIRTIO_NET_ETHERNET_FRAME_OFFSET) in
  0 < packet_len <= VIRTIO_NET_ETHERNET_MAX_LENGTH ->
  read_desc_mem fuel vq desc_idx VIRTIO_NET_ETHERNET_FRAME_OFFSET (replicate (Z.to_nat VIRTIO_NET_ETHERNET_MAX_LENGTH) 0) packet_len a =
    Done (true, buf) ->
  (2 <= fuel)%nat -> would_block errno = true -> tap_write c (slice 0 packet_len buf) = (-1, errno, c') ->
  tap_write_packet_to_host fuel vq desc_idx read_avail_len (c, a) = Done (true, (c', a)).
Proof.
  cbv zeta. intros Hn Hr Hf Hb Hw. unfold tap_write_packet_to_host. cbv zeta. test (VIRTIO_NET_ETHERNET_MAX_LENGTH <? _) is false.
  rewrite Hr. set (n := uint32 _) in *. unfold VIRTIO_NET_ETHERNET_MAX_LENGTH in Hn.
  assert (tap_body buf n (0, c) = Done (inl (4294967295, c'))) as E1.
  { unfold tap_body. test (0 <? n) is true. cbn [negb]. rewrite Z.sub_0_r, Hw, Hb. done. }
  assert (tap_body buf n (4294967295, c') = Done (inr (true, c'))) as E2.
  { unfold tap_body. by test (4294967295 <? n) is false. }
  destruct fuel as [|[|k] ]; [lia|lia|]. cbn [while_true mbind outcome_bind negb]. rewrite E1. cbn [mbind outcome_bind]. by rewrite E2.
Qed.
End tuntap.

Section transmit.
Context {A : Type} `{GuestMemory A}.

(** ** The memory of a queue *)

(** The ring of used chains, of a power of two elements, lies in memory. *)
Record used_ok (vq : virtq) (a : A) : Prop := {
  uo_num : exists k, 0 <= k <= 15 /\ num vq = 2 ^ k;
  uo_ram : ram a (used_addr vq) (sizeof_virtq_header + num vq * sizeof_virtq_used_elem);
}.

Definition used_end (vq : virtq) : Z := used_addr vq + sizeof_virtq_header + num vq * sizeof_virtq_used_elem.

(** A range of memory that the ring does not overlap *)
Definition apart (vq : virtq) (a : A) (p n : Z) : Prop := ram a p n /\ (p + n <= used_addr vq \/ used_end vq <= p).

(** The memory outside the ring is the same. *)
Record agree (vq : virtq) (a a' : A) : Prop := {
  ag_ok : mem_ok a';
  ag_ram : forall q k, ram a q k -> ram a' q k;
  ag_bytes : forall q, q < used_addr vq \/ used_end vq <= q -> byte_at a' q = byte_at a q;
}.

Lemma agree_refl vq a : mem_ok a -> agree vq a a.
Proof. by split. Qed.

Lemma agree_trans vq a b c : agree vq a b -> agree vq b c -> agree vq a c.
Proof. intros [H1 H2 H3] [H4 H5 H6]. split; [done|auto|]. intros q Hq. by rewrite H6, H3. Qed.

Lemma bytes_agree vq a a' p n : agree vq a a' -> p + n <= used_addr vq \/ used_end vq <= p ->
  map (byte_at a') (seqZ p n) = map (byte_at a) (seqZ p n).
Proof.
  intros Ha Hp. apply map_ext_in. intros q [Hq1 Hq2]%list_elem_of_In%elem_of_seqZ. apply Ha. lia.
Qed.

Lemma read_agree vq a a' p n : mem_ok a -> agree vq a a' -> apart vq a p n -> 0 <= n -> read_memory p n a' = read_memory p n a.
Proof.
  intros Hok Ha [Hr Hp] Hn. rewrite !ram_read; [|done..|apply Ha|by apply Ha|done].
  by rewrite (bytes_agree vq a a').
Qed.

(** ** Chains that are available *)

(** A chain whose descriptors lie in memory, apart from the ring *)
Inductive ram_chain (vq : virtq) (a : A) : Z -> list virtq_desc -> Prop :=
  | ram_last idx d :
      apart vq a (desc_elem_addr vq idx) sizeof_virtq_desc -> virtq_get_desc vq idx a = Some d -> has_next d = false ->
      ram_chain vq a idx [d]
  | ram_next idx d ds :
      apart vq a (desc_elem_addr vq idx) sizeof_virtq_desc -> virtq_get_desc vq idx a = Some d -> has_next d = true ->
      ram_chain vq a (desc_next d) ds -> ram_chain vq a idx (d :: ds).

(** The chain that an element of the ring of available ones names: its buffers for
    reading come first, lie in memory and are not longer than a counter holds. *)
Record available (vq : virtq) (a : A) (ring_idx : Z) (c : Z * list virtq_desc) : Prop := {
  av_elem : apart vq a (avail_elem_addr vq ring_idx) 2;
  av_desc : virtq_get_ring_avail_elem_desc_idx vq ring_idx a = Some c.1;
  av_chain : ram_chain vq a c.1 c.2;
  av_ordered : ordered false c.2 = true;
  av_buffers : Forall (fun d => apart vq a (desc_paddr d) (desc_len d)) (read_part c.2);
  av_total : total_len (read_part c.2) <= 2 ^ 32 - TTY_BUF_SIZE;
}.

(** The same queue but for the counter of the device *)
Abbreviation at_idx x vq := (set_last_used_idx x vq).

Lemma chain_agree vq a a' x idx ds : mem_ok a -> agree vq a a' -> ram_chain vq a idx ds -> chain (at_idx x vq) a' idx ds.
Proof.
  intros Hok Ha. assert (forall i, apart vq a (desc_elem_addr vq i) sizeof_virtq_desc -> virtq_get_desc (at_idx x vq) i a' = virtq_get_desc vq i a) as Hg.
  { intros i Hi. unfold virtq_get_desc. change (desc_elem_addr (at_idx x vq) i) with (desc_elem_addr vq i). by rewrite (read_agree vq a a'). }
  induction 1 as [i d Hi Hd Hn|i d ds Hi Hd Hn _ IH]; [apply chain_last|apply chain_next]; try done; by rewrite Hg.
Qed.

Lemma total_len_nonneg vq a idx ds : mem_ok a -> chain vq a idx ds -> 0 <= total_len (read_part ds).
Proof.
  intros Ha Hl. apply chain_lens in Hl; [|done]. induction Hl as [|x l [Hx _] _ IH]; [done|]. rewrite read_len_cons. destruct (readable x); lia.
Qed.

(** A chain that ends is shorter than the walk can be long. *)
Lemma chain_length vq a idx ds : mem_ok a -> is_uint 16 idx -> chain vq a idx ds -> ordered false ds = true -> (length ds <= avail_fuel)%nat.
Proof.
  intros Ha Hi Hc Ho. destruct (decide (length ds <= avail_fuel)%nat) as [|Hgt]; [done|]. exfalso.
  pose proof (walk_chain vq a (length ds) idx ds 0 0 false Hc Ho (Nat.le_refl _)) as Hw.
  pose proof (walk_decides vq a (length ds) idx false 0 0 Ha Hi ltac:(lia)) as Hd.
  rewrite Hw in Hd by (unfold is_uint; lia). symmetry in Hd. apply walk_true in Hd as (ds' & Hc' & _ & Hl).
  pose proof (chain_unique vq a idx ds ds' Hc Hc'). subst. lia.
Qed.

(** ** The output *)

(** Characters are printed; the memory stays. *)
Record prints (l : list Z) (a a' : A) : Prop := {
  pr_regs : regs a' = os_putchars l (regs a);
  pr_ok : mem_ok a';
  pr_ram : forall q k, ram a q k -> ram a' q k;
  pr_bytes : forall q, byte_at a' q = byte_at a q;
}.

Lemma os_putchars_app l k r : os_putchars (l ++ k) r = os_putchars k (os_putchars l r).
Proof. unfold os_putchars. apply fold_left_app. Qed.

Lemma os_putchars_output l r : da_output (os_putchars l r) = da_output r ++ l /\ da_s (os_putchars l r) = da_s r.
Proof.
  revert r. induction l as [|c l IH]; intros r; [by rewrite app_nil_r|].
  change (os_putchars (c :: l) r) with (os_putchars l (os_putchar c r)). destruct (IH (os_putchar c r)) as [-> ->].
  split; [|done]. cbn. by rewrite <- app_assoc.
Qed.

Lemma putchars_prints l a : mem_ok a -> prints l a (on_regs (os_putchars l) a).
Proof.
  intros Ha. unfold on_regs. destruct (os_putchars_output l (regs a)) as [_ Hp].
  destruct (set_regs_memory (os_putchars l (regs a)) a Ha) as (H1 & H2 & H3); [by rewrite Hp..|].
  split; [apply regs_set_regs|done..].
Qed.

Lemma prints_trans l k a b c : prints l a b -> prints k b c -> prints (l ++ k) a c.
Proof.
  intros [H1 H2 H3 H4] [H5 H6 H7 H8]. split; [by rewrite H5, H1, os_putchars_app|done|auto|]. intros q. by rewrite H8, H4.
Qed.

Lemma prints_agree vq l a0 a a' : agree vq a0 a -> prints l a a' -> agree vq a0 a'.
Proof. intros [H1 H2 H3] [H4 H5 H6 H7]. split; [done|auto|]. intros q Hq. by rewrite H7, H3. Qed.

(** ** One chain *)

Section chain.
Context (vq : virtq) (a0 : A) (Ha0 : mem_ok a0) (fuel : nat) (Hfuel : 2 ^ 21 <= Z.of_nat fuel).

Lemma available_buffers a ring_idx c :
  available vq a0 ring_idx c -> agree vq a0 a ->
  Forall (in_ram a) (read_part c.2) /\ buffers a (read_part c.2) = buffers a0 (read_part c.2).
Proof.
  intros [_ _ _ _ Hb _] Ha. unfold buffers. induction Hb as [|d ds [Hr Hp] _ [IH1 IH2]]; [by split|]. split.
  - constructor; [by apply Ha|done].
  - cbn. f_equal; [|done]. unfold buffer. by apply (bytes_agree vq).
Qed.

Lemma available_chain a x ring_idx c :
  available vq a0 ring_idx c -> agree vq a0 a ->
  is_uint 16 c.1 /\ chain (at_idx x vq) a c.1 c.2 /\ (length c.2 <= fuel)%nat /\
  0 <= total_len (read_part c.2) /\ Z.of_nat (length (buffers a0 (read_part c.2))) = total_len (read_part c.2).
Proof.
  intros Hc Ha. pose proof Hc as [Hel Hd Hch Ho _ _].
  assert (is_uint 16 c.1) as Hi.
  { unfold virtq_get_ring_avail_elem_desc_idx in Hd. destruct (read_memory _ 2 a0) as [l|] eqn:E; [|done]. injection Hd as <-.
    rewrite ram_read in E by (done || apply Hel). injection E as <-.
    pose proof (le_val_range (map (byte_at a0) (seqZ (avail_elem_addr vq ring_idx) 2))) as Hr. rewrite length_map, length_seqZ in Hr. apply Hr.
    apply Forall_forall. intros b (q & -> & _)%list_elem_of_fmap. by apply byte_at_byte. }
  pose proof (chain_agree vq a0 a x _ _ Ha0 Ha Hch) as Hca. pose proof (ag_ok _ _ _ Ha) as Hok.
  split; [done|]. split; [done|]. split; [|split].
  - pose proof (chain_length _ _ _ _ Hok Hi Hca Ho) as Hl. pose proof avail_fuel_Z. lia.
  - by eapply total_len_nonneg.
  - apply length_buffers. pose proof (chain_lens _ _ Hok _ _ Hca) as Hl.
    apply Forall_forall. intros d Hd'. unfold read_part in Hd'. apply list_elem_of_filter in Hd' as [_ Hd']. rewrite Forall_forall in Hl. by apply Hl.
Qed.

Lemma slice_split (l : list Z) o n k : 0 <= o -> 0 <= n -> 0 <= k -> slice o n l ++ slice (o + n) k l = slice o (n + k) l.
Proof.
  intros. unfold slice. replace (Z.to_nat (o + n)) with (Z.to_nat o + Z.to_nat n)%nat by lia. rewrite <- drop_drop.
  rewrite Z2Nat.inj_add, <- take_take_drop by lia. done.
Qed.

Lemma chunks n x d a ring_idx c off chunk (total := total_len (read_part c.2)) :
  available vq a0 ring_idx c -> agree vq a0 a -> get_queue VIRTIO_CONSOLE_TRANSMITQ d = at_idx x vq ->
  length chunk = Z.to_nat TTY_BUF_SIZE -> 0 <= off < 2 ^ 32 -> (0 < n)%nat -> total <= off + TTY_BUF_SIZE * (Z.of_nat n - 1) ->
  exists a', while_true (chunk_body fuel VIRTIO_CONSOLE_TRANSMITQ c.1 total) n (off, chunk, (d, a)) = Done (true, (d, a')) /\
    prints (slice off (total - off) (buffers a0 (read_part c.2))) a a'.
Proof.
  intros Hc. revert a off chunk. induction n as [|n IH]; intros a off chunk Ha Hq Hlen Hoff Hn0 Hn; [lia|].
  destruct (available_chain a x ring_idx c Hc Ha) as (_ & Hch & Hf & Ht & Hb). destruct (available_buffers a ring_idx c Hc Ha) as [Hram Hbuf].
  pose proof (av_total _ _ _ _ Hc) as Hmax. fold total in Hmax, Ht, Hb. unfold TTY_BUF_SIZE in *.
  cbn [while_true chunk_body]. destruct (Z.ltb_spec off total) as [Hlt|Hge]; cbn [negb].
  2: { exists a. split; [done|]. replace (slice off (total - off) _) with (@nil Z); [split; try done; apply Ha|].
       unfold slice. by replace (Z.to_nat (total - off)) with 0%nat by lia. }
  rewrite (uint_id 32 (total - off)) by (unfold is_uint; lia). set (len := Z.min TTY_BUF_SIZE (total - off)). unfold TTY_BUF_SIZE in *.
  cbn [fst snd]. rewrite Hq, (read_desc_mem_spec _ a (ag_ok _ _ _ Ha) fuel c.1 c.2 off len chunk Hch Hf Hram); fold total; [|lia..].
  rewrite Hbuf. cbn [mbind outcome_bind negb]. set (l := slice off len (buffers a0 (read_part c.2))).
  assert (Z.of_nat (length l) = len) as Hl by (unfold l, slice; rewrite length_take, length_drop; lia).
  assert (slice 0 len (splice 0 l chunk) = l) as ->.
  { unfold slice. rewrite <- Hl, Nat2Z.id. apply (splice_read 0). lia. }
  pose proof (putchars_prints l a (ag_ok _ _ _ Ha)) as Hp. rewrite (uint_id 32 (off + 4096)) by (unfold is_uint; lia).
  destruct (IH (on_regs (os_putchars l) a) (off + 4096) (splice 0 l chunk)) as (a' & E & Hp').
  - by eapply prints_agree.
  - done.
  - by rewrite length_splice by lia.
  - lia.
  - lia.
  - lia.
  - exists a'. split; [exact E|]. pose proof (prints_trans _ _ _ _ _ Hp Hp') as Hpp.
    enough (l ++ slice (off + 4096) (total - (off + 4096)) (buffers a0 (read_part c.2)) = slice off (total - off) (buffers a0 (read_part c.2))) as <- by exact Hpp.
    unfold l. destruct (Z.leb_spec (off + 4096) total) as [Hle|Hgt].
    + replace len with 4096 by lia. rewrite slice_split by lia. f_equal. lia.
    + replace len with (total - off) by lia. unfold slice at 2. replace (Z.to_nat (total - (off + 4096))) with 0%nat by lia. apply app_nil_r.
Qed.

(** ** Returned chains *)

Context (Hused : used_ok vq a0).

Lemma ring_position_mod y : 0 <= y -> ring_position vq y = y `mod` num vq.
Proof.
  destruct Hused as [(k & Hk & E) _]. intros Hy. unfold ring_position. rewrite E.
  pose proof (pow2_pos k ltac:(lia)). pose proof (Z.pow_le_mono_r 2 k 15 ltac:(lia) ltac:(lia)).
  rewrite uint_id by (unfold is_uint; lia). apply land_ones_mod. lia.
Qed.

Lemma num_range : 0 < num vq <= 2 ^ 15.
Proof.
  destruct Hused as [(k & Hk & E) _]. rewrite E. split; [apply pow2_pos; lia|apply Z.pow_le_mono_r; lia].
Qed.

(** Elements of indices that differ by less than the size of the ring differ. *)
Lemma elem_addr_range y : 0 <= y ->
  used_elem_addr vq y = used_addr vq + sizeof_virtq_header + (y `mod` num vq) * sizeof_virtq_used_elem /\
  0 <= y `mod` num vq < num vq.
Proof.
  intros Hy. pose proof num_range. pose proof (Z.mod_pos_bound y (num vq) ltac:(lia)) as Hm.
  pose proof (ram_range _ _ _ (uo_ram _ _ Hused)) as Hr. unfold used_elem_addr. rewrite ring_position_mod by done.
  unfold sizeof_virtq_header, sizeof_virtq_used_elem in *. rewrite uint_id; [done|]. unfold is_uint. lia.
Qed.

Lemma index_mod y : uint16 y `mod` num vq = y `mod` num vq.
Proof.
  destruct Hused as [(k & Hk & E) _]. rewrite E. unfold uint. pose proof (pow2_pos k ltac:(lia)). pose proof (pow2_pos (16 - k) ltac:(lia)).
  replace (2 ^ 16) with (2 ^ k * 2 ^ (16 - k)) by (rewrite <- Z.pow_add_r by lia; f_equal; lia).
  rewrite Z.rem_mul_r by lia. rewrite Z.mul_comm, Z.mod_add, Z.mod_mod by lia. done.
Qed.

(** The bytes of memory that returning a chain changes *)
Definition in_header (q : Z) : bool := (used_addr vq <=? q) && (q <? used_addr vq + sizeof_virtq_header).
Definition in_elem (y q : Z) : bool := (used_elem_addr vq y <=? q) && (q <? used_elem_addr vq y + sizeof_virtq_used_elem).

Lemma bytes_of_elem_length e : length (bytes_of_used_elem e) = 8%nat.
Proof. unfold bytes_of_used_elem. by rewrite length_app, !length_le_bytes. Qed.

Lemma bytes_of_header_length e : length (bytes_of_header e) = 4%nat.
Proof. unfold bytes_of_header. by rewrite length_app, !length_le_bytes. Qed.

Lemma consume_writes a y idx len flags :
  agree vq a0 a -> is_uint 16 y ->
  let elem := bytes_of_used_elem (VirtqUsedElem idx len) in
  let header := bytes_of_header (VirtqHeader flags (uint16 (y + 1))) in
  exists a', consume_desc (at_idx y vq) idx len flags a = (true, at_idx (uint16 (y + 1)) vq, a') /\
    agree vq a0 a' /\ same_regs a a' /\
    forall q, byte_at a' q =
      if in_header q then nth (Z.to_nat (q - used_addr vq)) header 0
      else if in_elem y q then nth (Z.to_nat (q - used_elem_addr vq y)) elem 0 else byte_at a q.
Proof.
  intros Ha [Hy _] elem header. pose proof num_range as Hn. destruct (elem_addr_range y Hy) as [Ey Hm].
  pose proof (uo_ram _ _ Hused) as Hr. apply (ag_ram _ _ _ Ha) in Hr. pose proof (ram_range _ _ _ Hr) as Hrr.
  unfold sizeof_virtq_header, sizeof_virtq_used_elem in *.
  unfold consume_desc, virtq_set_ring_used_elem, virtq_set_used_header. cbn [last_used_idx set_last_used_idx].
  change (used_elem_addr (at_idx y vq) y) with (used_elem_addr vq y). change (used_addr (at_idx y vq)) with (used_addr vq). fold elem header.
  assert (length elem = 8%nat) as Hle by apply bytes_of_elem_length. assert (length header = 4%nat) as Hlh by apply bytes_of_header_length.
  destruct (ram_write a (used_elem_addr vq y) elem) as (a1 & E1 & Hok1 & Hram1 & Hb1); [apply Ha| | |].
  { rewrite Hle. apply (ram_sub a _ _ _ _ Hr); lia. }
  { unfold elem, bytes_of_used_elem. apply Forall_app. split; apply le_bytes_bytes. }
  destruct (ram_write a1 (used_addr vq) header) as (a2 & E2 & Hok2 & Hram2 & Hb2); [done| | |].
  { rewrite Hlh. apply Hram1. apply (ram_sub a _ _ _ _ Hr); lia. }
  { unfold header, bytes_of_header. apply Forall_app. split; apply le_bytes_bytes. }
  rewrite E1, E2. exists a2. split; [done|]. rewrite Hle in Hb1. rewrite Hlh in Hb2.
  assert (forall q, byte_at a2 q = if in_header q then nth (Z.to_nat (q - used_addr vq)) header 0
      else if in_elem y q then nth (Z.to_nat (q - used_elem_addr vq y)) elem 0 else byte_at a q) as Hb.
  { intros q. rewrite Hb2, Hb1. done. }
  split; [|split; [etrans; by eapply write_same_regs|exact Hb]]. split; [done|intros; apply Hram2, Hram1; by apply Ha|].
  intros q Hq. rewrite Hb, (ag_bytes _ _ _ Ha q Hq). unfold used_end, sizeof_virtq_header, sizeof_virtq_used_elem in Hq.
  unfold in_header, in_elem, sizeof_virtq_header, sizeof_virtq_used_elem.
  replace ((used_addr vq <=? q) && (q <? used_addr vq + 4)) with false by (symmetry; apply andb_false_iff; rewrite Z.leb_gt, Z.ltb_ge; lia).
  replace ((used_elem_addr vq y <=? q) && (q <? used_elem_addr vq y + 8)) with false; [done|].
  symmetry; apply andb_false_iff; rewrite Z.leb_gt, Z.ltb_ge; nia.
Qed.

(** The used element of an index, and the index of the next one *)
Definition returned (a : A) (y idx : Z) : Prop :=
  map (byte_at a) (seqZ (used_elem_addr vq y) sizeof_virtq_used_elem) = bytes_of_used_elem (VirtqUsedElem idx 0).
Definition used_idx (a : A) : Z := le_val (map (byte_at a) (seqZ (used_addr vq + 2) 2)).

Lemma map_nth_seqZ p n (l : list Z) : n = Z.of_nat (length l) -> map (fun q => nth (Z.to_nat (q - p)) l 0) (seqZ p n) = l.
Proof.
  intros ->. apply list_eq. intros i. change (map ?f) with (fmap (M := list) f). rewrite list_lookup_fmap.
  destruct (decide (i < length l)%nat) as [Hi|Hi].
  - rewrite lookup_seqZ_lt by lia. cbn. rewrite (lookup_total_nth_Z l i Hi). do 2 f_equal. lia.
  - rewrite lookup_seqZ_ge by lia. cbn. symmetry. apply lookup_ge_None. lia.
Qed.

Lemma returned_intro a y idx :
  (forall q, in_elem y q = true -> byte_at a q = nth (Z.to_nat (q - used_elem_addr vq y)) (bytes_of_used_elem (VirtqUsedElem idx 0)) 0) ->
  returned a y idx.
Proof.
  intros Hb. unfold returned. rewrite <- (map_nth_seqZ (used_elem_addr vq y) sizeof_virtq_used_elem (bytes_of_used_elem _)) by (by rewrite bytes_of_elem_length).
  apply map_ext_in. intros q [Hq1 Hq2]%list_elem_of_In%elem_of_seqZ. apply Hb. unfold in_elem. rewrite andb_true_iff, Z.leb_le, Z.ltb_lt. lia.
Qed.

Lemma elem_not_header y q : 0 <= y -> in_elem y q = true -> in_header q = false.
Proof.
  intros Hy. destruct (elem_addr_range y Hy) as [E Hm]. unfold in_elem, in_header, sizeof_virtq_header, sizeof_virtq_used_elem in *.
  rewrite andb_true_iff, Z.leb_le, Z.ltb_lt. intros [Hq _]. apply andb_false_iff. right. apply Z.ltb_ge. nia.
Qed.

Lemma elem_apart y z q : 0 <= y -> 0 <= z -> y `mod` num vq <> z `mod` num vq -> in_elem y q = true -> in_elem z q = false.
Proof.
  intros Hy Hz Hne. destruct (elem_addr_range y Hy) as [E Hm]. destruct (elem_addr_range z Hz) as [E' Hm'].
  unfold in_elem, sizeof_virtq_used_elem in *. rewrite andb_true_iff, Z.leb_le, Z.ltb_lt. intros [Hq1 Hq2].
  apply andb_false_iff. rewrite Z.leb_gt, Z.ltb_ge. lia.
Qed.

Lemma putchars_on_s l p p' e e' r :
  on_s (set_map p e) (os_putchars l (on_s (set_map p' e') r)) = on_s (set_map p e) (os_putchars l r).
Proof.
  unfold os_putchars. revert r. induction l as [|c l IH]; intros r; [done|]. cbn [fold_left]. apply (IH (os_putchar c r)).
Qed.

(** One chain: it is printed and returned. *)
Lemma serve_one d a y c w :
  driver_ok d = true -> length (queue d) = 2%nat -> get_queue VIRTIO_CONSOLE_TRANSMITQ d = at_idx y vq -> is_uint 16 y ->
  agree vq a0 a -> available vq a0 y c ->
  exists a', console_queue_available fuel VIRTIO_CONSOLE_TRANSMITQ c.1 (total_len (read_part c.2)) w (d, a) =
      Done (true, (upd_queue VIRTIO_CONSOLE_TRANSMITQ (fun _ => at_idx (uint16 (y + 1)) vq) d, a')) /\
    agree vq a0 a' /\
    (exists pmas e, regs a' = on_s (set_map pmas e) (os_putchars (buffers a0 (read_part c.2)) (regs a))) /\
    returned a' y c.1 /\ used_idx a' = uint16 (y + 1) /\
    forall q, in_header q = false -> in_elem y q = false -> byte_at a' q = byte_at a q.
Proof.
  intros Hd Hlen Hq Hy Ha Hc. destruct (available_chain a y y c Hc Ha) as (_ & _ & _ & Ht & Hb). pose proof (av_total _ _ _ _ Hc) as Hmax.
  unfold console_queue_available. change (VIRTIO_CONSOLE_TRANSMITQ =? VIRTIO_CONSOLE_RECEIVEQ) with false.
  change (VIRTIO_CONSOLE_TRANSMITQ =? VIRTIO_CONSOLE_TRANSMITQ) with true. cbn iota. unfold write_next_chars_to_host. rewrite call_bind_eq.
  destruct (chunks fuel y d a y c 0 (replicate (Z.to_nat TTY_BUF_SIZE) 0) Hc Ha Hq) as (a1 & E1 & Hp).
  { apply length_replicate. } { done. } { lia. } { unfold TTY_BUF_SIZE in *. lia. }
  rewrite E1. cbn [negb]. rewrite Z.sub_0_r in Hp. replace (slice 0 _ _) with (buffers a0 (read_part c.2)) in Hp.
  2: { unfold slice. change (Z.to_nat 0) with 0%nat. rewrite drop_0, take_ge; [done|lia]. }
  rewrite call_bind_eq. unfold consume_queue. rewrite Hd, Hq. cbn [negb throw_if mbind outcome_bind].
  change (VIRTIO_CONSOLE_TRANSMITQ <? VIRTIO_QUEUE_COUNT) with true. cbn [negb throw_if mbind outcome_bind].
  destruct (consume_writes a1 y c.1 0 0 (prints_agree _ _ _ _ _ Ha Hp) Hy) as (a2 & E2 & Ha2 & (pmas & e & Hr) & Hb2).
  rewrite E2. exists a2. split; [done|]. split; [done|]. split; [exists pmas, e; by rewrite Hr, (pr_regs _ _ _ Hp)|]. destruct Hy as [Hy0 _].
  split; [|split].
  - apply returned_intro. intros q Hq'. rewrite Hb2, (elem_not_header y q Hy0 Hq'), Hq'. done.
  - unfold used_idx. assert (seqZ (used_addr vq + 2) 2 = [used_addr vq + 2; used_addr vq + 3]) as ->.
    { unfold seqZ. change (seq 0 (Z.to_nat 2)) with [0%nat; 1%nat]. cbn [fmap list_fmap]. do 2 f_equal; lia. }
    cbn [map]. rewrite !Hb2. unfold in_header, sizeof_virtq_header.
    test (used_addr vq <=? used_addr vq + 2) is true. test (used_addr vq + 2 <? used_addr vq + 4) is true.
    test (used_addr vq <=? used_addr vq + 3) is true. test (used_addr vq + 3 <? used_addr vq + 4) is true. cbn [andb].
    replace (Z.to_nat (used_addr vq + 2 - used_addr vq)) with 2%nat by lia. replace (Z.to_nat (used_addr vq + 3 - used_addr vq)) with 3%nat by lia.
    unfold bytes_of_header. cbn [hdr_flags hdr_idx].
    change (le_val (le_bytes 2 (uint16 (y + 1))) = uint16 (y + 1)). rewrite le_val_le_bytes. by rewrite uint_uint.
  - intros q Hh He. rewrite Hb2, Hh, He. apply Hp.
Qed.

(** ** All the chains *)

Context (os_get_tty_size : A -> Z * Z).
#[local] Instance tty_methods : virtio_methods console_members A := console_methods os_get_tty_size fuel.

Abbreviation state := (virtio_device console_members * A)%type.

(** One iteration of the loop over the ring *)
Lemma notify_one d a y c last :
  driver_ok d = true -> length (queue d) = 2%nat -> get_queue VIRTIO_CONSOLE_TRANSMITQ d = at_idx y vq -> is_uint 16 y -> y <> last ->
  agree vq a0 a -> available vq a0 y c ->
  exists a', (notify_body fuel VIRTIO_CONSOLE_TRANSMITQ last : call state bool) (d, a) =
      Done (true, (upd_queue VIRTIO_CONSOLE_TRANSMITQ (fun _ => at_idx (uint16 (y + 1)) vq) d, a')) /\
    agree vq a0 a' /\
    (exists pmas e, regs a' = on_s (set_map pmas e) (os_putchars (buffers a0 (read_part c.2)) (regs a))) /\
    returned a' y c.1 /\ used_idx a' = uint16 (y + 1) /\
    forall q, in_header q = false -> in_elem y q = false -> byte_at a' q = byte_at a q.
Proof.
  intros Hd Hlen Hq Hy Hne Ha Hc. destruct (available_chain a y y c Hc Ha) as (_ & Hch & Hf & Ht & _). pose proof Hc as [Hel Hdx _ Ho _ Hmax].
  unfold notify_body. rewrite call_bind_eq. cbn [get_device fst]. rewrite call_bind_eq. cbn [get_access snd]. rewrite Hq. cbv zeta.
  change (last_used_idx (at_idx y vq)) with y. rewrite (proj2 (Z.eqb_neq _ _) Hne).
  assert (virtq_get_ring_avail_elem_desc_idx (at_idx y vq) y a = Some c.1) as ->.
  { unfold virtq_get_ring_avail_elem_desc_idx in *. change (avail_elem_addr (at_idx y vq) y) with (avail_elem_addr vq y). by rewrite (read_agree vq a0 a). }
  rewrite call_bind_eq. unfold lift. change (get_desc_rw_avail_len fuel (at_idx y vq) c.1 a) with (walk (at_idx y vq) a fuel c.1 0 0 false).
  rewrite (walk_chain _ _ _ _ _ 0 0 _ Hch Ho Hf) by done. cbn [mbind outcome_bind mret outcome_ret negb].
  rewrite Z.add_0_l, uint_id by (unfold is_uint, TTY_BUF_SIZE in *; lia). rewrite call_bind_eq.
  destruct (serve_one d a y c (uint32 (0 + total_len (write_part c.2))) Hd Hlen Hq Hy Ha Hc) as (a' & E & Hrest).
  cbn [on_device_queue_available tty_methods console_methods]. rewrite E. cbn [negb]. rewrite call_bind_eq. cbn [get_device fst].
  rewrite get_upd_queue, bool_decide_eq_true_2 by (rewrite Hlen; unfold VIRTIO_CONSOLE_TRANSMITQ; lia). cbn [last_used_idx set_last_used_idx].
  rewrite call_bind_eq. unfold assert_that, lift.
  assert (y <> uint16 (y + 1)) as Hy1 by (unfold is_uint, uint in *; intros E'; Z.div_mod_to_equations; lia).
  rewrite (proj2 (Z.eqb_neq _ _) Hy1). exists a'. split; [done|exact Hrest].
Qed.

Lemma upd_upd_queue i f g (d : virtio_device console_members) :
  (Z.to_nat i < length (queue d))%nat -> upd_queue i g (upd_queue i f d) = upd_queue i (fun vq => g (f vq)) d.
Proof.
  intros Hi. unfold upd_queue at 1. rewrite get_upd_queue, bool_decide_eq_true_2 by done. unfold upd_queue, set_queues. cbn. by rewrite list_insert_insert_eq.
Qed.

Lemma upd_queue_same i f (d : virtio_device console_members) :
  (Z.to_nat i < length (queue d))%nat -> f (get_queue i d) = get_queue i d -> upd_queue i f d = d.
Proof.
  intros Hi Hf. unfold upd_queue. rewrite Hf. unfold get_queue. rewrite list_insert_id; [by destruct d|].
  destruct (lookup_lt_is_Some_2 _ _ Hi) as [v Hv]. by rewrite (nth_lookup_Some _ _ _ _ Hv).
Qed.

Lemma mod_apart y k n : 0 < k < n -> y `mod` n <> (y + k) `mod` n.
Proof.
  intros Hk E. pose proof (Z.div_mod y n ltac:(lia)) as H1'. pose proof (Z.div_mod (y + k) n ltac:(lia)) as H2'.
  set (q := (y + k) `div` n - y `div` n). assert (k = n * q) as Hq by (unfold q; lia). destruct (Z.le_gt_cases q 0); nia.
Qed.

(** The loop prints and returns the chains that are left. *)
Lemma notify_all n cs y d a (last := uint16 (y + Z.of_nat (length cs))) :
  driver_ok d = true -> length (queue d) = 2%nat -> get_queue VIRTIO_CONSOLE_TRANSMITQ d = at_idx y vq -> is_uint 16 y ->
  (length cs < n)%nat -> Z.of_nat (length cs) <= num vq -> agree vq a0 a ->
  (forall j c, cs !! j = Some c -> available vq a0 (uint16 (y + Z.of_nat j)) c) ->
  exists a', while_call (notify_body fuel VIRTIO_CONSOLE_TRANSMITQ last : call state bool) n (d, a) =
      Done (tt, (upd_queue VIRTIO_CONSOLE_TRANSMITQ (fun _ => at_idx last vq) d, a')) /\
    (exists pmas e, regs a' = on_s (set_map pmas e) (os_putchars (concat (map (fun c => buffers a0 (read_part c.2)) cs)) (regs a))) /\
    (forall j c, cs !! j = Some c -> returned a' (uint16 (y + Z.of_nat j)) c.1) /\
    (if cs is [] then a' = a else used_idx a' = last) /\
    (forall q, in_header q = false -> (forall j, (j < length cs)%nat -> in_elem (uint16 (y + Z.of_nat j)) q = false) -> byte_at a' q = byte_at a q).
Proof.
  unfold last. clear last. revert n y d a. induction cs as [|c cs IH]; intros n y d a Hd Hlen Hq Hy Hn Hcs Ha Hav; (destruct n as [|n]; [lia|]);
    rewrite while_call_step.
  - assert (notify_body fuel VIRTIO_CONSOLE_TRANSMITQ (uint16 (y + Z.of_nat (length (@nil (Z * list virtq_desc))))) (d, a) = Done (false, (d, a))) as ->.
    { unfold notify_body. rewrite call_bind_eq. cbn [get_device fst]. rewrite call_bind_eq. cbn [get_access snd]. rewrite Hq. cbv zeta. cbn [length].
      rewrite Z.add_0_r, (uint_id 16 y) by done. change (last_used_idx (at_idx y vq)) with y. by rewrite Z.eqb_refl. }
    exists a. cbn [length map concat]. rewrite Z.add_0_r, (uint_id 16 y) by done. split; [|split; [|split; [|split]]]; try done.
    + rewrite upd_queue_same; [done| |done]. rewrite Hlen. unfold VIRTIO_CONSOLE_TRANSMITQ. lia.
    + exists (s_pmas (da_s (regs a))), (s_empty_pma (da_s (regs a))). cbn. destruct (regs a) as [s ? ? ?]. by destruct s.
  - pose proof num_range as Hnum. cbn [length] in Hn, Hcs. assert (uint16 (y + Z.of_nat (length (c :: cs))) = uint16 (uint16 (y + 1) + Z.of_nat (length cs))) as ->.
    { rewrite uint_add_l by lia. f_equal. cbn [length]. lia. }
    assert (forall j, uint16 (uint16 (y + 1) + Z.of_nat j) = uint16 (y + Z.of_nat (S j))) as Hidx by (intros j; rewrite uint_add_l by lia; f_equal; lia).
    assert (y <> uint16 (uint16 (y + 1) + Z.of_nat (length cs))) as Hne.
    { rewrite Hidx. unfold is_uint, uint in *. intros E. Z.div_mod_to_equations. lia. }
    assert (available vq a0 y c) as Hc by (specialize (Hav 0%nat c eq_refl); rewrite Z.add_0_r, uint_id in Hav by done; exact Hav).
    destruct (notify_one d a y c _ Hd Hlen Hq Hy Hne Ha Hc) as (a1 & E1 & Ha1 & (p1 & e1 & Hr1) & Hret & Hu1 & Hb1). rewrite E1.
    set (d1 := upd_queue VIRTIO_CONSOLE_TRANSMITQ (fun _ => at_idx (uint16 (y + 1)) vq) d).
    assert ((Z.to_nat VIRTIO_CONSOLE_TRANSMITQ < length (queue d))%nat) as Hl by (rewrite Hlen; unfold VIRTIO_CONSOLE_TRANSMITQ; lia).
    destruct (IH n (uint16 (y + 1)) d1 a1) as (a' & E' & (p' & e' & Hr') & Hrets & Hlast & Hb'); try done.
    { unfold d1. cbn. by rewrite length_insert. }
    { unfold d1. by rewrite get_upd_queue, bool_decide_eq_true_2. }
    { apply uint_range. lia. } { lia. } { lia. }
    { intros j c' Hj. rewrite Hidx. by apply Hav. }
    exists a'. rewrite E'. unfold d1. rewrite upd_upd_queue by done. split; [done|].
    assert (forall j, (j < length cs)%nat -> forall q, in_elem y q = true -> in_elem (uint16 (uint16 (y + 1) + Z.of_nat j)) q = false) as Hdisj.
    { intros j Hj q. rewrite Hidx. destruct Hy as [Hy0 _]. apply elem_apart; [done|apply uint_range; lia|].
      rewrite index_mod. apply mod_apart. lia. }
    split; [|split; [|split]].
    + exists p', e'. rewrite Hr', Hr1. cbn [map concat]. rewrite os_putchars_app. apply putchars_on_s.
    + intros [|j] c' Hj.
      * injection Hj as <-. rewrite Z.add_0_r, uint_id by done. unfold returned in *. rewrite <- Hret. apply map_ext_in.
        intros q [Hq1 Hq2]%list_elem_of_In%elem_of_seqZ. assert (in_elem y q = true) as Hin by (unfold in_elem; rewrite andb_true_iff, Z.leb_le, Z.ltb_lt; lia).
        apply Hb'; [destruct Hy; by apply (elem_not_header y)|]. intros j Hj. by apply Hdisj.
      * rewrite <- Hidx. by apply Hrets.
    + destruct cs as [|c' cs]; [|exact Hlast]. subst a'. rewrite Hu1. cbn [length]. by rewrite Z.add_0_r, uint_uint.
    + intros q Hh Hj. rewrite Hb'; [|done|].
      * apply Hb1; [done|]. specialize (Hj 0%nat ltac:(cbn; lia)). by rewrite Z.add_0_r, uint_id in Hj by done.
      * intros j Hlt. rewrite Hidx. apply Hj. cbn. lia.
Qed.
End chain.

(** ** Notification *)

(** The driver has initialised the console, and its queue for output holds chains
    that the device has not used. *)
Record offers (d : virtio_device console_members) (a : A) (cs : list (Z * list virtq_desc)) : Prop := {
  of_ok : driver_ok d = true;
  of_queues : length (queue d) = 2%nat;
  of_ready : ready (get_queue VIRTIO_CONSOLE_TRANSMITQ d) <> 0;
  of_used : is_uint 16 (last_used_idx (get_queue VIRTIO_CONSOLE_TRANSMITQ d));
  of_ring : used_ok (get_queue VIRTIO_CONSOLE_TRANSMITQ d) a;
  of_header : hdr_idx <$> virtq_get_avail_header (get_queue VIRTIO_CONSOLE_TRANSMITQ d) a =
    Some (uint16 (last_used_idx (get_queue VIRTIO_CONSOLE_TRANSMITQ d) + Z.of_nat (length cs)));
  of_length : Z.of_nat (length cs) <= num (get_queue VIRTIO_CONSOLE_TRANSMITQ d);
  of_chains j c : cs !! j = Some c ->
    available (get_queue VIRTIO_CONSOLE_TRANSMITQ d) a (uint16 (last_used_idx (get_queue VIRTIO_CONSOLE_TRANSMITQ d) + Z.of_nat j)) c;
}.

(** The bytes of the chains, in order *)
Definition offered (a : A) (cs : list (Z * list virtq_desc)) : list Z := concat (map (fun c => buffers a (read_part c.2)) cs).

Lemma notify_spec fuel os_get_tty_size d a cs (vq := get_queue VIRTIO_CONSOLE_TRANSMITQ d)
    (last := uint16 (last_used_idx vq + Z.of_nat (length cs))) :
  2 ^ 21 <= Z.of_nat fuel -> mem_ok a -> offers d a cs ->
  exists a', on_device_queue_notify (H0 := console_methods os_get_tty_size fuel) fuel VIRTIO_CONSOLE_TRANSMITQ (d, a) =
      Done (tt, (upd_queue VIRTIO_CONSOLE_TRANSMITQ (fun _ => set_last_used_idx last vq) d, a')) /\
    (exists pmas e, regs a' = on_s (set_map pmas e) (os_putchars (offered a cs) (regs a))) /\
    (forall j c, cs !! j = Some c -> returned vq a' (uint16 (last_used_idx vq + Z.of_nat j)) c.1) /\
    if cs is [] then a' = a else used_idx vq a' = last.
Proof.
  intros Hf Ha [H1' H2' H3' H4' H5' H6' H7' H8']. fold vq in H3', H4', H5', H6', H7', H8'.
  assert (get_queue VIRTIO_CONSOLE_TRANSMITQ d = set_last_used_idx (last_used_idx vq) vq) as Hq by (unfold vq; by destruct (get_queue _ d)).
  destruct (notify_all vq a Ha fuel Hf H5' os_get_tty_size fuel cs (last_used_idx vq) d a H1' H2' Hq H4') as (a' & E & Hr & Hret & Hl & _).
  { assert (0 < num vq <= 2 ^ 15) by (by eapply num_range). lia. } { done. } { by apply agree_refl. } { done. }
  unfold on_device_queue_notify. rewrite call_bind_eq. cbn [get_device fst]. rewrite call_bind_eq. cbn [get_access snd]. cbv zeta. fold vq.
  rewrite H1', (proj2 (Z.eqb_neq _ _) H3'). cbn [negb]. destruct (virtq_get_avail_header vq a) as [h|]; [|done]. injection H6' as ->.
  exists a'. done.
Qed.
End transmit.
