(* ===== verification/VirtioMachine.v ===== *)
(** * The memory of the machine seen by a VirtIO device (device-state-access.h, state-access.h)

    The state access of the machine reads and writes the memory of the machine
    object, and turns exceptions into a result.  It meets the laws that the
    properties of the devices assume, and the properties are stated here for the
    machine. *)

From S2P Require Import Prelude CppInt Constants RiscvConstants UarchAccess Bytes Pma PmaSpec MachineState UarchBridge UarchState UarchStateSpec Hasher MachineMerkleTree DeviceAccess Plic MachineOk MachineRegs Machine MachinePages MachineHash MachineAnswers MachineRun VirtioQueue VirtioDevice VirtioConsole VirtioSpec.

Section machine.
Context `{i_hasher}.

(** The machine, the cycle of the access, and the console *)
Record machine_access := MachineAccess {
  ma_m : machine;
  ma_mcycle : Z;
  ma_input : list Z;
  ma_output : list Z;
}.

Definition with_machine (m : machine) (a : machine_access) : machine_access :=
  MachineAccess m (ma_mcycle a) (ma_input a) (ma_output a).

(** [do_read_memory] and [do_write_memory] *)
#[export] Instance machine_state_access : i_device_state_access machine_access := {|
  regs a := DeviceAccess (state_of (ma_m a)) (ma_mcycle a) (ma_input a) (ma_output a);
  set_regs d a := MachineAccess (set_state (da_s d) (ma_m a)) (da_mcycle d) (da_input d) (da_output d);
  VirtioQueue.read_memory p n a :=
    match Machine.read_memory (ma_m a) p false n with Done l => Some l | Exn _ => None end;
  VirtioQueue.write_memory p l a :=
    match Machine.write_memory (ma_m a) p (Some l) (Z.of_nat (length l)) with
    | Done m => Some (with_machine m a)
    | Exn _ => None
    end;
|}.

(** ** The memory map of the machine *)

(** The ranges do not overlap, the last reference is to the empty entry, and those
    of memory hold bytes.  A range may be that of a device whose contents cannot be
    seen. *)
Record bus_ok (m : machine) : Prop := {
  bo_entries r : r ∈ m_merkle_pmas m -> exists p, deref_pma m r = Done p /\ 0 <= m_start p /\ 0 <= m_length p /\
    m_start p + m_length p <= 2 ^ 56 /\ (get_istart_M p = true -> memory_wf p /\ Forall is_byte (host p));
  bo_disjoint r r' p p' a : r ∈ m_merkle_pmas m -> r' ∈ m_merkle_pmas m -> deref_pma m r = Done p -> deref_pma m r' = Done p' ->
    m_start p <= a < m_start p + m_length p -> m_start p' <= a < m_start p' + m_length p' -> r = r';
  bo_sentinel : exists refs, m_merkle_pmas m = refs ++ [merkle_empty] /\
    (forall r p, r ∈ refs -> deref_pma m r = Done p -> 0 < m_length p) /\
    m_length (s_empty_pma (state_of m)) = 0 /\ get_istart_E (s_empty_pma (state_of m)) = true;
}.

(** A range of memory that a reference holds *)
Definition mem_range (m : machine) (r : merkle_ref) (p : pma_entry) (a n : Z) : Prop :=
  r ∈ m_merkle_pmas m /\ deref_pma m r = Done p /\ get_istart_M p = true /\ m_start p <= a /\ a + n <= m_start p + m_length p.

Lemma range_holds_in p a n :
  0 <= m_start p -> 0 <= m_length p -> m_start p + m_length p <= 2 ^ 56 -> is_uint 64 a -> 0 < n < 2 ^ 64 ->
  range_holds p a n = bool_decide (m_start p <= a /\ a + n <= m_start p + m_length p).
Proof.
  intros Hs Hl He Ha Hn. unfold range_holds, is_uint in *. apply eq_true_iff_eq. rewrite bool_decide_eq_true.
  rewrite !andb_true_iff, !Z.leb_le. split.
  - intros [[H1 H2] H3]. rewrite !uint_id in H3 by (unfold is_uint; lia). lia.
  - intros [H1 H2]. rewrite !uint_id by (unfold is_uint; lia). lia.
Qed.

(** The search finds the range that holds the bytes. *)
Lemma find_range m r p a n :
  bus_ok m -> mem_range m r p a n -> 0 < n -> find_merkle_pma m a n = Done (r, p).
Proof.
  intros Hok (Hr & Hp & HM & H1 & H2) Hn. destruct (bo_entries _ Hok r Hr) as (q & Hq & Hs & Hl & He & _). rewrite Hp in Hq. injection Hq as <-.
  destruct (bo_sentinel _ Hok) as (refs & Erefs & Hlen & H0 & HE). unfold find_merkle_pma. rewrite Erefs.
  destruct (mapM_deref m refs) as (l & El & Hfl).
  { intros x Hx. destruct (bo_entries _ Hok x) as (px & Hpx & _); [rewrite Erefs; apply elem_of_app; by left|by exists px]. }
  rewrite (mapM_sentinel m refs l El).
  cbn [mbind outcome_bind]. unfold find_pma_entry.
  destruct (find_entry_spec m a n refs l 0 Hfl Hlen H0) as (i & r' & p' & E & Hr' & Hp' & Hd & Hcase). rewrite E. cbn [default from_option id Nat.add].
  rewrite Hp'. cbn [mbind outcome_bind]. rewrite Hr'.
  assert (is_uint 64 a /\ 0 < n < 2 ^ 64) as [Ha Hn'] by (unfold is_uint; lia).
  destruct Hcase as [[Hin Hh]|[-> Hno]].
  - assert (r' ∈ m_merkle_pmas m) as Hin' by (rewrite Erefs; apply elem_of_app; by left).
    destruct (bo_entries _ Hok r' Hin') as (q & Hq & Hs' & Hl' & He' & _). rewrite Hd in Hq. injection Hq as <-.
    rewrite range_holds_in in Hh by done. apply bool_decide_eq_true in Hh as [Hh1 Hh2].
    assert (r' = r) as -> by (apply (bo_disjoint _ Hok r' r p' p a); done || lia). rewrite Hp in Hd. by injection Hd as ->.
  - exfalso. rewrite Erefs in Hr. apply elem_of_app in Hr as [Hr|Hr].
    + specialize (Hno r p Hr Hp). rewrite range_holds_in in Hno by done. apply bool_decide_eq_false in Hno. by apply Hno.
    + apply list_elem_of_singleton in Hr as ->. cbn in Hp. injection Hp as <-. lia.
Qed.

(** The entry that is found is one of the references. *)
Lemma find_merkle_entry m a n r p :
  bus_ok m -> find_merkle_pma m a n = Done (r, p) -> r ∈ m_merkle_pmas m /\ deref_pma m r = Done p.
Proof.
  intros Hok. unfold find_merkle_pma. destruct (mapM_deref m (m_merkle_pmas m)) as (l & -> & Hl).
  { intros x Hx. destruct (bo_entries _ Hok x Hx) as (px & Hpx & _). by exists px. }
  cbn [mbind outcome_bind]. unfold find_pma_entry. set (i := default _ _). destruct (l !! i) as [q|] eqn:Eq; cbn [mbind outcome_bind]; [|done].
  destruct (m_merkle_pmas m !! i) as [x|] eqn:Ex; [|done]. intros [= <- <-]. split; [by eapply list_elem_of_lookup_2|].
  by eapply (Forall2_lookup_lr _ _ _ _ _ _ Hl).
Qed.

(** ** Bytes *)

Fixpoint byte_among (m : machine) (refs : list merkle_ref) (a : Z) : Z :=
  match refs with
  | [] => 0
  | r :: refs =>
      match deref_pma m r with
      | Done p =>
          if get_istart_M p && (m_start p <=? a) && (a <? m_start p + m_length p)
          then nth (Z.to_nat (a - m_start p)) (host p) 0 else byte_among m refs a
      | Exn _ => byte_among m refs a
      end
  end.

Definition machine_byte (m : machine) (a : Z) : Z := byte_among m (m_merkle_pmas m) a.

Lemma byte_among_byte m refs a : bus_ok m -> (forall r, r ∈ refs -> r ∈ m_merkle_pmas m) -> is_byte (byte_among m refs a).
Proof.
  intros Hok. induction refs as [|r refs IH]; intros Hsub; cbn; [done|].
  assert (is_byte (byte_among m refs a)) as Hrest by (apply IH; intros x Hx; apply Hsub; by right).
  destruct (bo_entries _ Hok r (Hsub r (list_elem_of_here _ _))) as (p & -> & _ & _ & _ & HM).
  destruct (get_istart_M p); cbn [andb]; [|done]. destruct HM as [_ Hb]; [done|]. case_if; [|done].
  destruct (nth_in_or_default (Z.to_nat (a - m_start p)) (host p) 0) as [Hin|Hd]; [|by rewrite Hd].
  rewrite Forall_forall in Hb. by apply Hb, list_elem_of_In.
Qed.

Lemma byte_among_holds m refs r p a :
  bus_ok m -> (forall x, x ∈ refs -> x ∈ m_merkle_pmas m) -> r ∈ refs -> mem_range m r p a 1 ->
  byte_among m refs a = nth (Z.to_nat (a - m_start p)) (host p) 0.
Proof.
  intros Hok Hsub Hin (Hr & Hp & HM & H1' & H2'). induction refs as [|x refs IH]; [by apply not_elem_of_nil in Hin|]. cbn [byte_among].
  destruct (bo_entries _ Hok x (Hsub x (list_elem_of_here _ _))) as (q & Hq & _). rewrite Hq.
  destruct (get_istart_M q && (m_start q <=? a) && (a <? m_start q + m_length q)) eqn:E.
  - reflect_bools. assert (x = r) as ->.
    { apply (bo_disjoint _ Hok x r q p a); first [done|lia|apply Hsub, list_elem_of_here]. }
    rewrite Hp in Hq. by injection Hq as ->.
  - apply elem_of_cons in Hin as [->|Hin].
    + rewrite Hp in Hq. injection Hq as <-. rewrite HM in E. cbn [andb] in E. exfalso. apply andb_false_iff in E. rewrite Z.leb_gt, Z.ltb_ge in E. lia.
    + apply IH; [|done]. intros y Hy. apply Hsub. by right.
Qed.

Lemma machine_byte_holds m r p a : bus_ok m -> mem_range m r p a 1 -> machine_byte m a = nth (Z.to_nat (a - m_start p)) (host p) 0.
Proof. intros Hok Hm. apply (byte_among_holds m _ r); [done|done|apply Hm|done]. Qed.

(** Another machine with the same entries *)
Lemma byte_among_ext m m' refs a : (forall r, deref_pma m' r = deref_pma m r) -> byte_among m' refs a = byte_among m refs a.
Proof. intros Hd. induction refs as [|r refs IH]; cbn; [done|]. rewrite Hd. by rewrite IH. Qed.

Lemma slice_host_bytes m r p a n :
  bus_ok m -> mem_range m r p a n -> 0 < n ->
  Pma.slice (uint64 (a - m_start p)) n (host p) = map (machine_byte m) (seqZ a n).
Proof.
  intros Hok Hm Hn. pose proof Hm as (Hr & Hp & HM & H1' & H2'). destruct (bo_entries _ Hok r Hr) as (q & Hq & Hs & Hl & He & Hw).
  rewrite Hp in Hq. injection Hq as <-. destruct (Hw HM) as [Hwf _]. pose proof (wf_host _ Hwf) as Hh.
  rewrite uint_id by (unfold is_uint; lia). apply list_eq. intros i. change (map ?f) with (fmap (M := list) f). rewrite list_lookup_fmap.
  unfold Pma.slice. destruct (decide (i < Z.to_nat n)%nat) as [Hi|Hi].
  - rewrite lookup_take_lt, lookup_drop, lookup_seqZ_lt by lia. cbn. rewrite (lookup_total_nth_Z (host p) (Z.to_nat (a - m_start p) + i)) by lia. f_equal.
    rewrite (machine_byte_holds m r p) by (done || (split; [done|split; [done|split; [done|lia]]])). f_equal. lia.
  - rewrite lookup_take_ge, lookup_seqZ_ge by lia. done.
Qed.

(** ** Writes *)

Lemma nth_splice_ne i k new old :
  (k + length new <= length old)%nat -> (i < k \/ k + length new <= i)%nat -> nth i old 0 = nth i (splice k new old) 0.
Proof.
  intros Hl Hi. unfold splice. destruct Hi.
  - rewrite app_nth1 by (rewrite length_take; lia). rewrite !nth_lookup, lookup_take_lt by lia. done.
  - rewrite !app_nth2 by (rewrite ?length_take; lia). rewrite !nth_lookup, lookup_drop, length_take. do 2 f_equal. lia.
Qed.

Lemma store_bus m r p p' :
  bus_ok m -> r ∈ m_merkle_pmas m -> deref_pma m r = Done p -> get_istart_M p = true -> same_range p p' -> Forall is_byte (host p') ->
  bus_ok (store_pma r p' m).
Proof.
  intros Hok Hr Hp HM (Hw & Es & El & _) Hb. pose proof (deref_store m r p p') as Hd. specialize (fun x => Hd x Hp).
  assert (m_merkle_pmas (store_pma r p' m) = m_merkle_pmas m) as Hrefs by (by destruct r).
  destruct (bo_sentinel _ Hok) as (refs & Erefs & Hlen & H0 & HE). split; rewrite ?Hrefs.
  - intros x Hx. rewrite Hd. destruct (decide (x = r)) as [->|]; [|by apply bo_entries]. destruct (bo_entries _ Hok r Hr) as (q & Hq & Hs & Hl & He & _).
    rewrite Hp in Hq. injection Hq as <-. exists p'. rewrite Es, El. done.
  - intros x y px py a Hx Hy. rewrite !Hd. intros Hpx Hpy Hax Hay.
    assert (forall z pz, z ∈ m_merkle_pmas m -> (if decide (z = r) then Done p' else deref_pma m z) = Done pz ->
      exists qz, deref_pma m z = Done qz /\ m_start qz = m_start pz /\ m_length qz = m_length pz) as Hz.
    { intros z pz Hz E. destruct (decide (z = r)) as [->|]; [injection E as <-; by exists p|by exists pz]. }
    destruct (Hz x px Hx Hpx) as (qx & Hqx & E1 & E2). destruct (Hz y py Hy Hpy) as (qy & Hqy & E3 & E4).
    apply (bo_disjoint _ Hok x y qx qy a); try done; lia.
  - exists refs. split; [done|]. split; [|].
    + intros x q Hx. rewrite Hd. destruct (decide (x = r)) as [->|]; [|by apply Hlen]. intros [= <-]. rewrite El. by apply (Hlen r p).
    + destruct r; try done. cbn in Hp. injection Hp as <-. unfold get_istart_M, get_istart_E in HM, HE. by destruct (m_data (s_empty_pma (state_of m))).
Qed.

Lemma store_range m r p p' x q a n :
  deref_pma m r = Done p -> get_istart_M p = true -> same_range p p' -> mem_range m x q a n ->
  exists q', mem_range (store_pma r p' m) x q' a n.
Proof.
  intros Hp HM (Hw & Es & El & _) (Hx & Hq & HMq & H1' & H2'). pose proof (deref_store m r p p' x Hp) as Hd.
  assert (m_merkle_pmas (store_pma r p' m) = m_merkle_pmas m) as Hrefs by (by destruct r).
  destruct (decide (x = r)) as [->|].
  - rewrite Hp in Hq. injection Hq as <-. exists p'. split; [by rewrite Hrefs|]. split; [done|]. split; [apply Hw|]. lia.
  - exists q. split; [by rewrite Hrefs|]. by rewrite Hd.
Qed.

(** The bytes after a write of [l] at [a] in a range *)
Lemma store_bytes m r p p' a l q :
  bus_ok m -> bus_ok (store_pma r p' m) -> mem_range m r p a (Z.of_nat (length l)) -> same_range p p' ->
  host p' = splice (Z.to_nat (a - m_start p)) l (host p) ->
  machine_byte (store_pma r p' m) q =
    if (a <=? q) && (q <? a + Z.of_nat (length l)) then nth (Z.to_nat (q - a)) l 0 else machine_byte m q.
Proof.
  intros Hok Hok' (Hr & Hp & HM & H1' & H2') (Hw & Es & El & _) Eh. destruct (bo_entries _ Hok r Hr) as (p0 & Hp0 & Hs & Hl & He & Hwf).
  rewrite Hp in Hp0. injection Hp0 as <-. destruct (Hwf HM) as [Hwp _]. pose proof (wf_host _ Hwp) as Hh.
  assert (m_merkle_pmas (store_pma r p' m) = m_merkle_pmas m) as Hrefs by (by destruct r).
  destruct ((a <=? q) && (q <? a + Z.of_nat (length l))) eqn:Eq.
  - reflect_bools. rewrite (machine_byte_holds _ r p') by (done || (split; [by rewrite Hrefs|split; [rewrite (deref_store m r p) by done; by rewrite decide_True|split; [apply Hw|lia]]])).
    rewrite Eh, Es. unfold splice. rewrite app_nth2 by (rewrite length_take; lia). rewrite app_nth1 by (rewrite length_take; lia).
    f_equal. rewrite length_take. lia.
  - unfold machine_byte. rewrite Hrefs. assert (forall x, x ∈ m_merkle_pmas m -> x ∈ m_merkle_pmas m) as Hsub by done. revert Hsub.
    generalize (m_merkle_pmas m) at 1 3 4. intros refs. induction refs as [|x refs IH]; intros Hsub; [done|]. cbn [byte_among].
    rewrite (deref_store m r p) by done. specialize (IH (fun y Hy => Hsub y (list_elem_of_further _ _ _ Hy))).
    destruct (decide (x = r)) as [->|]; [|by rewrite IH]. rewrite Hp, Es, El, HM, (wf_memory _ Hw), IH. cbn [andb].
    destruct ((m_start p <=? q) && (q <? m_start p + m_length p)) eqn:Ein; [|done]. reflect_bools.
    apply andb_false_iff in Eq. rewrite Z.leb_gt, Z.ltb_ge in Eq. rewrite Eh. symmetry.
    apply nth_splice_ne; [lia|lia].
Qed.

(** ** Pages of devices *)

Lemma read_pages_bytes fuel m p page shift len l :
  (get_istart_M p = true -> Forall is_byte (host p)) -> read_pages fuel m p page shift len = Done l -> Forall is_byte l.
Proof.
  intros Hb. revert page shift len l. induction fuel as [|fuel IH]; intros page shift len l; cbn [read_pages]; (destruct (len =? 0); [by intros [= <-]|]); [done|].
  destruct (peek_page m p page) as [[[d|]|]|] eqn:Ep; cbn [mbind outcome_bind]; try done;
    (destruct (read_pages fuel m p _ 0 _) as [rest|] eqn:Er; cbn [mbind outcome_bind mret outcome_ret]; [|done]);
    intros [= <-]; apply Forall_app; (split; [|by eapply IH]).
  - apply Forall_take, Forall_drop. by eapply peek_bytes.
  - by apply Forall_replicate.
Qed.

Lemma read_memory_bytes m a n l : bus_ok m -> Machine.read_memory m a false n = Done l -> Forall is_byte l.
Proof.
  intros Hok. unfold Machine.read_memory. case_if; [by intros [= <-]|]. cbn [throw_if mbind outcome_bind].
  destruct (find_merkle_pma m a n) as [[r p]|] eqn:Ef; cbn [mbind outcome_bind]; [|done].
  destruct (find_merkle_entry m a n r p Hok Ef) as [Hr Hp]. destruct (bo_entries _ Hok r Hr) as (q & Hq & _ & _ & _ & Hw).
  rewrite Hp in Hq. injection Hq as <-. case_if.
  - destruct (Hw eq_refl) as [_ Hb]. unfold get_memory, host in *. destruct (m_data p); cbn; try done. intros [= <-]. by apply Forall_take, Forall_drop.
  - apply read_pages_bytes. congruence.
Qed.

(** ** The laws *)

#[export] Program Instance machine_memory : GuestMemory machine_access := {|
  mem_ok a := bus_ok (ma_m a);
  ram a p n := 0 <= p /\ p + n <= 2 ^ 56 /\ exists r q, mem_range (ma_m a) r q p n;
  byte_at a := machine_byte (ma_m a);
|}.
Next Obligation. cbn. intros a p n (Hp & Hn & _). lia. Qed.
Next Obligation.
  cbn. intros a p n q k (Hp & Hn & r & e & Hr & Hd & HM & H1' & H2') ???. split; [lia|]. split; [lia|]. exists r, e. split; [done|]. split; [done|]. split; [done|lia].
Qed.
Next Obligation. cbn. intros a p Hok. by apply byte_among_byte. Qed.
Next Obligation.
  cbn. intros a p n l Hok. destruct (Machine.read_memory (ma_m a) p false n) as [k|] eqn:E; [|done]. intros [= <-]. by eapply read_memory_bytes.
Qed.
Next Obligation.
  cbn. intros a p n Hok (Hp & Hn & r & q & Hm) H0. unfold Machine.read_memory. destruct (Z.eqb_spec n 0) as [->|]; [done|].
  cbn [throw_if mbind outcome_bind]. rewrite (find_range _ r q p n Hok Hm) by lia. cbn [mbind outcome_bind].
  pose proof Hm as (_ & _ & -> & _). rewrite <- (slice_host_bytes _ r q p n Hok Hm) by lia.
  pose proof Hm as (_ & _ & HM & _). unfold get_memory, get_istart_M, host in *. by destruct (m_data q).
Qed.
Next Obligation.
  cbn. intros a p l Hok (Hp & Hn & r & q & Hm) Hb. unfold Machine.write_memory. destruct (Z.eqb_spec (Z.of_nat (length l)) 0) as [E0|Hne].
  { exists a. split; [by destruct a|]. split; [done|]. split; [done|]. intros x. rewrite E0.
    replace ((p <=? x) && (x <? p + 0)) with false; [done|]. symmetry. apply andb_false_iff. rewrite Z.leb_gt, Z.ltb_ge. lia. }
  rewrite (find_range _ r q p _ Hok Hm) by lia. cbn [mbind outcome_bind]. pose proof Hm as (Hr & Hd & HM & H1' & H2').
  assert (get_istart_E q = false) as HE by (unfold get_istart_M, get_istart_E in *; by destruct (m_data q)).
  rewrite HM, HE. cbn [negb orb throw_if mbind outcome_bind].
  destruct (bo_entries _ Hok r Hr) as (e & He & Hs & Hl & Hend & Hw). rewrite Hd in He. injection He as <-. destruct (Hw HM) as [Hwf Hhb].
  destruct (write_memory_spec q Hwf p (Z.of_nat (length l)) ltac:(unfold is_uint; lia) ltac:(unfold is_uint; lia) l ltac:(lia) ltac:(done))
    as (q' & E & Hsr & Hh & _). rewrite E. cbn [mbind outcome_bind mret outcome_ret].
  assert (Pma.slice 0 (Z.of_nat (length l)) l = l) as El by (unfold Pma.slice; rewrite drop_0, take_ge; [done|lia]). rewrite El in Hh.
  assert (Forall is_byte (host q')) as Hb' by (rewrite Hh; by apply splice_bytes).
  pose proof (store_bus _ r q q' Hok Hr Hd HM Hsr Hb') as Hok'.
  eexists. split; [done|]. split; [exact Hok'|]. split.
  - cbn. intros x k (Hx & Hk & rx & qx & Hmx). split; [done|]. split; [done|]. destruct (store_range _ r q q' rx qx x k Hd HM Hsr Hmx) as [qx' ?]. by exists rx, qx'.
  - cbn. intros x. by apply (store_bytes _ r q).
Qed.
Next Obligation.
  cbn. intros p l a a'. destruct (Machine.write_memory (ma_m a) p (Some l) _) as [m|] eqn:E; [|done]. intros [= <-].
  unfold Machine.write_memory in E. destruct a as [m0 c i o]. cbn in *. revert E. case_if.
  - intros [= <-]. exists (s_pmas (state_of m0)), (s_empty_pma (state_of m0)). destruct m0 as [[u s cons] t refs]. destruct s. reflexivity.
  - destruct (find_merkle_pma m0 p _) as [[r q]|]; cbn; [|done]. destruct (negb (get_istart_M q) || get_istart_E q); cbn; [done|].
    destruct (Pma.write_memory _ _ _ _) as [q'|]; cbn; [|done]. intros [= <-].
    exists (s_pmas (state_of (store_pma r q' m0))), (s_empty_pma (state_of (store_pma r q' m0))).
    destruct m0 as [[u s cons] t refs]. destruct s, r; reflexivity.
Qed.
Next Obligation. cbn. by intros [] a. Qed.
Next Obligation.
  cbn. intros d a Hok Ep Ee. assert (forall r, deref_pma (set_state (da_s d) (ma_m a)) r = deref_pma (ma_m a) r) as Hd.
  { intros [i| | |]; cbn; by rewrite ?Ep, ?Ee. }
  assert (m_merkle_pmas (set_state (da_s d) (ma_m a)) = m_merkle_pmas (ma_m a)) as Hrefs by done.
  split; [split|split].
  - intros r. rewrite Hd. apply Hok.
  - intros r r' p p' q. rewrite !Hd. apply Hok.
  - destruct (bo_sentinel _ Hok) as (refs & E & Hl & H0 & HE). exists refs. split; [done|]. split; [intros r p; rewrite Hd; apply Hl|].
    change (state_of (set_state (da_s d) (ma_m a))) with (da_s d). by rewrite Ee.
  - intros q k (Hq & Hk & r & p & Hr & Hp & Hm). split; [done|]. split; [done|]. exists r, p. split; [done|]. by rewrite Hd.
  - intros q. apply (byte_among_ext (ma_m a) (set_state (da_s d) (ma_m a)) (m_merkle_pmas (ma_m a)) q Hd).
Qed.

(** A machine whose hashes can be computed has such a memory. *)
Lemma merkle_bus m :
  merkle_ok m -> (forall r p, r ∈ m_merkle_pmas m -> deref_pma m r = Done p -> get_istart_M p = true -> Forall is_byte (host p)) ->
  bus_ok m.
Proof.
  intros Hok Hb. split.
  - intros r Hr. destruct (mk_entries _ Hok r Hr) as (p & Hp & He). exists p. split; [done|]. pose proof He as [].
    do 3 (split; [done|]). intros HM. split; [|by apply (Hb r)]. unfold peekable in *. by rewrite (me_memory HM) in me_peekable.
  - intros r r' p p' a Hr Hr' Hp Hp' Ha Ha'. destruct (mk_entries _ Hok r Hr) as (q & Hq & He). destruct (mk_entries _ Hok r' Hr') as (q' & Hq' & He').
    rewrite Hp in Hq. injection Hq as <-. rewrite Hp' in Hq'. injection Hq' as <-. destruct He, He'.
    apply (mk_disjoint _ Hok r r' p p' (a `div` PMA_PAGE_SIZE)); try done; unfold page_within; page_lia.
  - apply mk_sentinel; done.
Qed.
End machine.

(** ** Descriptor chains *)

#[local] Opaque avail_fuel.

(** C32: measuring a descriptor chain ends or does not end, and 131072 iterations
    tell which: it succeeds exactly on the chains that end and have no buffer for
    reading after one for writing, with the lengths of both parts modulo 2^32, and
    it runs forever exactly if the descriptors can be followed without end with no
    buffer for reading after one for writing (at such a buffer it stops and fails,
    though the descriptors go on).  Otherwise it fails and throws nothing. *)
Theorem chain_measured `{GuestMemory A} (vq : virtq) (a : A) idx :
  mem_ok a -> is_uint 16 idx ->
  let measure n := get_desc_rw_avail_len n vq idx a in
  (forall n, (avail_fuel <= n)%nat -> measure n = measure avail_fuel) /\
  (forall r w, measure avail_fuel = Done (true, r, w) <->
    exists ds, chain vq a idx ds /\ ordered false ds = true /\
      r = uint32 (total_len (read_part ds)) /\ w = uint32 (total_len (write_part ds))) /\
  (measure avail_fuel = Exn forever <->
    forall n, exists ds j, path vq a idx ds j /\ length ds = n /\ ordered false ds = true) /\
  (forall e, measure avail_fuel = Exn e -> e = forever).
Proof.
  intros Ha Hi measure. change measure with (fun n => walk vq a n idx 0 0 false). cbv beta. split; [|split; [|split]].
  - intros n Hn. by apply walk_decides.
  - intros r w. split.
    + intros E. pose proof (walk_true vq a _ _ _ _ _ _ _ E) as (ds & Hc & Ho & Hl). exists ds. split; [done|]. split; [done|].
      rewrite (walk_chain vq a _ _ ds 0 0 false Hc Ho Hl) in E by done. by injection E as <- <-.
    + intros (ds & Hc & Ho & -> & ->). rewrite (walk_chain vq a _ _ ds 0 0 false Hc Ho); [done| |done|done].
      by apply (chain_length vq a idx).
  - rewrite walk_forever. split.
    + intros Hs n. apply (after_path vq a n idx false).
      apply (after_cycle (avail_next vq a) avail_keys (fun k k' => avail_keys_closed vq a k k' Ha) avail_fuel (idx, false));
        [by apply avail_keys_in|by rewrite avail_keys_length|done].
    + intros Hp. by apply after_path.
  - intros e. apply get_desc_rw_avail_len_throws.
Qed.

(** C34: the bytes that a device reads from a chain are those of the buffers for
    reading, one after the other, from the offset it asks for; a read beyond their
    end fails. *)
Theorem read_desc_mem_correct `{GuestMemory A} fuel (vq : virtq) (a : A) idx ds start_off len data :
  mem_ok a -> chain vq a idx ds -> (length ds <= fuel)%nat -> Forall (in_ram a) (read_part ds) -> total_len (read_part ds) < 2 ^ 32 ->
  0 <= start_off -> 0 < len -> start_off + len < 2 ^ 32 -> len <= Z.of_nat (length data) ->
  if start_off + len <=? total_len (read_part ds)
  then read_desc_mem fuel vq idx start_off data len a =
         Done (true, splice 0 (slice start_off len (buffers a (read_part ds))) data)
  else exists data', read_desc_mem fuel vq idx start_off data len a = Done (false, data').
Proof.
  intros Ha Hc Hf Hr Ht Hs Hl Hsl Hd. destruct (Z.leb_spec (start_off + len) (total_len (read_part ds))).
  - apply read_desc_mem_spec; done || lia.
  - unfold read_desc_mem. test (len =? 0) is false. rewrite uint_id by (unfold is_uint; lia). apply (reading_short vq a Ha) with (ds := ds); done || lia.
Qed.

(** ** The interrupt line *)

(** C31: the interrupt line of the console and of the network device follows the
    interrupt status of the device: whatever the driver writes to a register, the
    source of the device is pending at the interrupt controller exactly while the
    status is not zero, and the sources of the other devices and those in service
    stay as they are.  The console throws nothing, its assertions hold, unless it
    does not return.  So does the network device, over a carrier that reaches only
    the memory of the guest and throws nothing (CarrierOk: the TAP interface is one),
    but for one assertion: that serving a queue changed its index of used chains,
    which has 16 bits, and a poll may deliver 65536 packets. *)
Theorem virtio_line `{GuestMemory A} fuel offset val log2_size :
  (forall os_get_tty_size (s : virtio_console * A), line_ok s ->
   match virtio_write (H0 := console_methods os_get_tty_size fuel) fuel offset val log2_size s with
   | Done (_, s') => line_kept s s'
   | Exn e => e = forever
   end) /\
  (forall C `{!virtio_net_carrier C A} `{!CarrierOk (C := C)} (s : virtio_device C * A), line_ok s ->
   match virtio_write (H0 := net_methods fuel) fuel offset val log2_size s with
   | Done (_, s') => line_kept s s'
   | Exn e => e = forever \/ e = assertion_failure "last_used_idx != vq.last_used_idx"
   end).
Proof.
  split.
  - intros size s Hs. pose proof (mmio_write_keeps (virtio_methods0 := console_methods size fuel) (Hwrap := false) fuel offset (uint32 val) log2_size
      (uint_range 32 val ltac:(lia)) s Hs) as Hk. unfold virtio_write. destruct (mmio_write _ _ _ _ s) as [[r s']|e]; [exact Hk|].
    by destruct Hk as [|[? _] ].
  - intros C Hc Hok s Hs. pose proof (mmio_write_keeps (virtio_methods0 := net_methods fuel) (Hwrap := true) fuel offset (uint32 val) log2_size
      (uint_range 32 val ltac:(lia)) s Hs) as Hk. unfold virtio_write. destruct (mmio_write _ _ _ _ s) as [[r s']|e]; [exact Hk|].
    destruct Hk as [|[_ ?] ]; [by left|by right].
Qed.

(** ** The console *)

(** C33: what the guest prints comes out: when the driver notifies the console of
    the chains it made available, the device prints the bytes of their buffers for
    reading in order, returns every chain in the ring of used ones and advances the
    index of the ring to that of the driver.  A chain offered holds at most
    2^32 - 4096 bytes (with more, the loop over its chunks does not end), and the
    areas and buffers of the chains are apart from the ring of used ones, which the
    device writes. *)
Theorem console_prints `{GuestMemory A} (os_get_tty_size : A -> Z * Z) fuel d (a : A) cs
    (vq := get_queue VIRTIO_CONSOLE_TRANSMITQ d) (last := uint16 (last_used_idx vq + Z.of_nat (length cs))) :
  2 ^ 21 <= Z.of_nat fuel -> mem_ok a -> offers d a cs ->
  exists a', virtio_write (H0 := console_methods os_get_tty_size fuel) fuel VIRTIO_MMIO_QUEUE_NOTIFY VIRTIO_CONSOLE_TRANSMITQ 2 (d, a) =
      Done (if int_status d =? 0 then success else success_and_serve_interrupts,
            (upd_queue VIRTIO_CONSOLE_TRANSMITQ (fun _ => set_last_used_idx last vq) d, a')) /\
    da_output (regs a') = da_output (regs a) ++ offered a cs /\
    (forall j c, cs !! j = Some c -> returned vq a' (uint16 (last_used_idx vq + Z.of_nat j)) c.1) /\
    if cs is [] then a' = a else used_idx vq a' = last.
Proof.
  intros Hf Ha Ho. destruct (notify_spec fuel os_get_tty_size d a cs Hf Ha Ho) as (a' & E & (pmas & e & Hr) & Hret & Hl).
  exists a'. split; [|split; [|done]].
  - unfold virtio_write. change (uint32 VIRTIO_CONSOLE_TRANSMITQ) with VIRTIO_CONSOLE_TRANSMITQ.
    change (mmio_write fuel VIRTIO_MMIO_QUEUE_NOTIFY VIRTIO_CONSOLE_TRANSMITQ 2) with
      (on_device_queue_notify (H0 := console_methods os_get_tty_size fuel) fuel VIRTIO_CONSOLE_TRANSMITQ ≫= fun _ => status_of_irq).
    rewrite call_bind_eq, E. unfold status_of_irq. rewrite call_bind_eq. cbn [get_device fst].
    change (int_status (upd_queue _ _ d)) with (int_status d). by destruct (int_status d =? 0).
  - rewrite Hr. cbn. by destruct (os_putchars_output (offered a cs) (regs a)) as [-> _].
Qed.

(** ** Witnesses

    A machine of MachineRun.v whose memory holds the areas of a queue: two
    descriptors, of which the second follows itself, the ring of available chains
    with the first, the ring of used chains, and the bytes of a greeting. *)

Definition greeting : virtq_desc := VirtqDesc (RAM_START + 0x50) 5 0 0.
Definition endless : virtq_desc := VirtqDesc (RAM_START + 0x50) 0 VIRTQ_DESC_F_NEXT 1.

Definition bytes_of_desc (d : virtq_desc) : list Z :=
  le_bytes 8 (desc_paddr d) ++ le_bytes 4 (desc_len d) ++ le_bytes 2 (desc_flags d) ++ le_bytes 2 (desc_next d).

Definition guest_bytes : list Z :=
  bytes_of_desc greeting ++ bytes_of_desc endless ++
  le_bytes 2 0 ++ le_bytes 2 1 ++ le_bytes 8 0 ++ le_bytes 4 0 ++ replicate 32 0 ++ [104; 101; 108; 108; 111].

#[local] Existing Instance small_hasher.

Definition guest_tree : machine_merkle_tree := MachineMerkleTree ∅ 1 ∅ 1 1 [].
Definition guest_access : machine_access := MachineAccess (example_with guest_bytes [] guest_tree) 0 [] [].

Definition guest_queue : virtq := Virtq RAM_START (RAM_START + 0x20) (RAM_START + 0x30) 2 0 1.
Definition guest_console : virtio_console := set_driver_ok true (set_queues [blank_virtq; guest_queue] (new_virtio_console 0)).

Lemma guest_bytes_ok : Forall is_byte guest_bytes.
Proof. apply (bool_decide_unpack _). vm_compute. exact I. Qed.

Lemma guest_ok : mem_ok guest_access.
Proof.
  apply merkle_bus; [apply example_merkle_ok, guest_bytes_ok|]. intros r p Hr Hp HM.
  apply example_deref in Hp. assert (forall n l, Forall is_byte l -> Forall is_byte (pad n l)) as Hpad by (intros; by apply pad_bytes).
  destruct r as [[|[|[|i]]]| | |]; cbn in Hp; subst p; try discriminate HM;
    [|by destruct i|]; unfold host; cbn [ram_entry example_uarch_ram set_index set_flags memory_entry m_data host_memory]; apply Hpad; [apply guest_bytes_ok|constructor].
Qed.

Lemma guest_ram p n : RAM_START <= p -> 0 <= n -> p + n <= RAM_START + RAM_LENGTH -> ram guest_access p n.
Proof.
  unfold RAM_START, RAM_LENGTH. intros ???. split; [lia|]. split; [lia|]. exists (merkle_pmas 0), (ram_entry guest_bytes).
  split; [apply list_elem_of_here|]. split; [reflexivity|]. split; [reflexivity|]. cbn [m_start m_length ram_entry set_index set_flags memory_entry].
  unfold RAM_START, RAM_LENGTH. lia.
Qed.

Lemma guest_desc idx d : idx = 0 /\ d = greeting \/ idx = 1 /\ d = endless -> virtq_get_desc guest_queue idx guest_access = Some d.
Proof. intros [[-> ->]|[-> ->]]; vm_compute; reflexivity. Qed.

Lemma guest_chain : chain guest_queue guest_access 0 [greeting].
Proof. apply chain_last; [apply guest_desc; by left|reflexivity]. Qed.

Lemma chain_measured_witness :
  get_desc_rw_avail_len avail_fuel guest_queue 0 guest_access = Done (true, 5, 0) /\
  get_desc_rw_avail_len avail_fuel guest_queue 1 guest_access = Exn forever.
Proof.
  assert (forall idx, 0 <= idx <= 1 -> is_uint 16 idx) as Hi by (unfold is_uint; lia). split.
  - destruct (chain_measured guest_queue guest_access 0 guest_ok (Hi 0 ltac:(lia))) as (_ & Hdone & _ & _).
    apply Hdone. exists [greeting]. split; [exact guest_chain|]. split; [reflexivity|split; reflexivity].
  - destruct (chain_measured guest_queue guest_access 1 guest_ok (Hi 1 ltac:(lia))) as (_ & _ & Hfor & _).
    apply Hfor. intros k. exists (replicate k endless), 1. split; [|split; [apply length_replicate|]].
    + induction k as [|k IH]; cbn [replicate]; [apply path_nil|]. apply path_cons; [apply guest_desc; by right|reflexivity|exact IH].
    + induction k as [|k IH]; [reflexivity|exact IH].
Defined.

Lemma read_desc_mem_correct_witness :
  read_desc_mem 1 guest_queue 0 1 [0; 0; 0] 3 guest_access = Done (true, [101; 108; 108]).
Proof.
  pose proof (read_desc_mem_correct 1 guest_queue guest_access 0 [greeting] 1 3 [0; 0; 0] guest_ok guest_chain) as Hr.
  cbn [length] in Hr. specialize (Hr (le_n 1)). change (read_part [greeting]) with [greeting] in Hr.
  change (total_len [greeting]) with 5 in Hr. change (1 + 3 <=? 5) with true in Hr.
  rewrite Hr; [vm_compute; reflexivity| |lia|lia|lia|lia|cbn; lia].
  constructor; [|constructor]. apply guest_ram; vm_compute; congruence.
Defined.

Lemma guest_line : line_ok (guest_console, guest_access).
Proof.
  split; cbn [fst snd].
  - unfold VIRTIO_MAX. cbn. lia.
  - split; try (split; vm_compute; congruence). intros i Hi. unfold is_eip in Hi.
    apply orb_true_iff in Hi as [->%Z.eqb_eq| ->%Z.eqb_eq]; reflexivity.
  - unfold is_uint. cbn. lia.
  - reflexivity.
  - reflexivity.
  - intros i. unfold get_queue. destruct (Z.to_nat i) as [|[|[|k]]]; unfold is_uint; cbn; lia.
Qed.

Definition guest_tty (a : machine_access) : Z * Z := (80, 25).

Lemma virtio_line_witness :
  exists s', virtio_write (H0 := console_methods guest_tty 1) 1 VIRTIO_MMIO_STATUS 4 2 (guest_console, guest_access) =
    Done (success_and_serve_interrupts, s') /\ pending (regs s'.2) 1 = true.
Proof.
  destruct (virtio_line (A := machine_access) 1 VIRTIO_MMIO_STATUS 4 2) as [Hc _].
  pose proof (Hc guest_tty (guest_console, guest_access) guest_line) as Hl. clear Hc.
  match type of Hl with match ?e with _ => _ end =>
    assert (match e with Done (r, s') => r = success_and_serve_interrupts /\ negb (int_status s'.1 =? 0) = true | Exn _ => False end) as E
  end.
  { vm_compute. split; reflexivity. }
  destruct (virtio_write _ _ _ _ _) as [[r s']|e]; [|destruct E]. destruct E as [-> Hn]. exists s'. split; [reflexivity|].
  destruct Hl as [Hok Hidx _ _]. destruct Hok as [_ _ _ Hp _ _]. rewrite Hn in Hp. unfold get_irq_id in Hp. rewrite Hidx in Hp. exact Hp.
Defined.

(** Enough for the loops of a notification *)
Definition notify_fuel : nat := Z.to_nat (2 ^ 21).

Lemma notify_fuel_Z : Z.of_nat notify_fuel = 2 ^ 21.
Proof. unfold notify_fuel. apply Z2Nat.id. lia. Qed.

#[local] Opaque notify_fuel.

Lemma guest_apart p n : RAM_START <= p -> 0 <= n -> p + n <= RAM_START + RAM_LENGTH -> p + n <= used_addr guest_queue \/ used_end guest_queue <= p ->
  apart guest_queue guest_access p n.
Proof. intros ????. split; [by apply guest_ram|done]. Qed.

Lemma guest_available : available guest_queue guest_access 0 (0, [greeting]).
Proof.
  split; cbn [fst snd].
  - apply guest_apart; vm_compute; [congruence..|left; congruence].
  - vm_compute. reflexivity.
  - apply ram_last; [apply guest_apart; vm_compute; [congruence..|left; congruence]|apply guest_desc; by left|reflexivity].
  - reflexivity.
  - constructor; [|constructor]. apply guest_apart; vm_compute; [congruence..|right; congruence].
  - vm_compute. congruence.
Qed.

Lemma guest_offers : offers guest_console guest_access [(0, [greeting])].
Proof.
  split; change (get_queue VIRTIO_CONSOLE_TRANSMITQ guest_console) with guest_queue.
  - reflexivity.
  - reflexivity.
  - cbn. lia.
  - unfold is_uint. cbn. lia.
  - split; [exists 1; split; [lia|reflexivity]|]. apply guest_ram; vm_compute; congruence.
  - vm_compute. reflexivity.
  - cbn. lia.
  - intros [|j] c; [|discriminate]. intros [= <-]. apply guest_available.
Qed.

Lemma console_prints_witness :
  exists r s', virtio_write (H0 := console_methods guest_tty notify_fuel) notify_fuel VIRTIO_MMIO_QUEUE_NOTIFY VIRTIO_CONSOLE_TRANSMITQ 2
      (guest_console, guest_access) = Done (r, s') /\ da_output (regs s'.2) = [104; 101; 108; 108; 111] /\ used_idx guest_queue s'.2 = 1.
Proof.
  destruct (console_prints guest_tty notify_fuel guest_console guest_access [(0, [greeting])]) as (a' & E & Ho & _ & Hu).
  - rewrite notify_fuel_Z. reflexivity.
  - exact guest_ok.
  - exact guest_offers.
  - do 2 eexists. split; [exact E|]. split; [|exact Hu]. cbn [snd]. rewrite Ho. vm_compute. reflexivity.
Defined.
